(* ===== verification/_CoqProject ===== *)
-Q . S2P
Prelude.v
GoBytes.v
GoStrings.v
Sha256.v
GoText.v
GoIO.v
GoFS.v
GoDir.v
GoPublish.v
GoCalls.v
GoWin.v
GoTree.v
Pki.v
TransportEncoding.v
TransportBatch.v
TransportTrust.v
TransportPackage.v
TransportWire.v
TransportAck.v
TransportGeneration.v
GenerationCanonical.v
GenerationSealer.v
GenerationProtocol.v
GenerationTransfer.v
GenerationPublished.v
GenerationCreate.v
GenerationSender.v
GenerationQueue.v
GenerationBuild.v
GenerationCustody.v
GenerationStore.v
GenerationReady.v
GenerationRecorder.v
GenerationRecord.v
GenerationRecording.v
GenerationReceiver.v
GenerationDelivery.v
GenerationExchange.v
TransportReceiver.v
TransportCustody.v
Records.v
Brokers.v
Usn.v
Reobserve.v
UsnScope.v
Checkpoint.v
Operation.v
SpoolWriter.v
SpoolSafety.v
SpoolRecovery.v
SpoolRollover.v
BatchSender.v
BatchStage.v
BatchRetire.v
BatchDelivery.v
BatchQueue.v
BatchExchange.v
UsnSpool.v
