(* ===== verification/Prelude.v ===== *)
(** * File Intelligence: a verification library of the collector and the transport core

    The program (Go, [src/go]) observes files on Windows servers and brings the observations
    to a backend. A collector reads the NTFS change journal, observes the changed objects
    again, decides which of them belong to the governed root, and appends records to a spool
    of batches; its checkpoint says how far the journal was accounted for. A sender freezes
    the spool into generations, seals, signs and queues them, and retires them when the
    receiver acknowledges. The receiver validates a transfer while it takes it into durable
    custody, records it, marks it ready for ingestion and acknowledges. An older path sends
    single batches.

    ** Files and the code they model (paths below [src/go/internal] unless they start with [cmd])

    The language and its library:
    - this file: bytes, machine integers, errors ([error] is the tree [errors.Is] walks),
      results ([res]: a value, an error or a panic), programs over a state ([prog]) with the
      notations [let!], [check!], [fail!] and their pure forms, and [keeps], the closure of a
      relation under programs;
    - [GoBytes], [GoStrings], [GoText]: slices, [encoding/binary], [encoding/hex],
      [unicode/utf8], [strings], [path/filepath], [sort], [strconv], [encoding/base64], [time];
      [Sha256]: [crypto/sha256], executable; [GoIO]: [io.Reader] and [io.Writer];
    - [GoFS], [GoDir], [GoPublish], [GoTree]: a directory with inodes, separate durability of
      names and contents, a schedule of faults consulted by every call, and crashes;
      publication by hard link; directories of directories;
      [GoCalls], [GoWin]: calls that may fail after they took effect, [MoveFileExW] with
      write-through and the replacement of state files;
    - [Pki]: what the code sees of [crypto/x509] and [crypto/rsa].

    The batch path: [TransportEncoding] (transportencoding), [TransportBatch]
    (transportbatch/descriptor.go), [TransportTrust] (transporttrust), [TransportPackage]
    (transportpackage), [TransportWire] (transportwire), [TransportAck] (transportack,
    transportsender/ack.go), [TransportReceiver] and [TransportCustody] (transportreceiver:
    intake, custody, transaction), [BatchSender] (transportbatch/published.go and, of
    transportsender, stage.go, stage_v2.go, queue.go, transaction.go, retire.go, cleanup.go with
    their Windows variants), [BatchStage], [BatchRetire], [BatchQueue] (theorems about it),
    [BatchDelivery] and [BatchExchange] (the composition of both hosts and a concrete exchange).

    The generation path: [TransportGeneration] (descriptor and signature),
    [GenerationCanonical] (the canonical stream, writer and reader), [GenerationSealer]
    (generationsealer), [GenerationProtocol] (offer, decision, acknowledgement, reception),
    [GenerationPublished] and [GenerationCreate] (transportgeneration/published.go, wire.go),
    [GenerationSender], [GenerationQueue], [GenerationBuild] (transportsender: queue,
    transactions, retirement, reclamation, builds and their recovery), [SpoolRollover]
    (transportsender/generation.go: the rollover of the spool into raw generations),
    [GenerationCustody] and
    [GenerationStore] (the custody files of transportgeneration), [GenerationRecorder] (spool/semantic.go,
    generationrecorder/validator.go), [GenerationRecord], [GenerationRecording]
    (generationrecorder), [GenerationReady] (generationready), [GenerationReceiver]
    (the generation files of transportreceiver), [GenerationTransfer], [GenerationDelivery] and
    [GenerationExchange] (the composition of both hosts and a concrete exchange).

    The collector: [Records] (records), [Brokers] (windows/usnbroker and objbroker protocol),
    [Usn] (windows/usn/usn.go), [Reobserve] (windows/usn/reobserve_windows.go), [UsnScope]
    (the scope rules of cmd/fi/usn_spool_windows.go), [Checkpoint] (windows/checkpoint),
    [SpoolWriter] and [SpoolSafety] (spool/spool.go, writer_retry.go and what they use of
    publication_recovery.go), [SpoolRecovery] (publication_recovery.go,
    publication_startup_recovery.go, publication_structure.go, recovery.go), [Operation]
    (windows/operation), [UsnSpool] (the run of cmd/fi/usn_spool_windows.go, from the checkpoint
    through the spool and back).

    Each file has one module per Go package (or per part of one); a record is a Go struct, a
    function keeps its Go name, and a long function is cut into definitions that follow its
    text.

    ** What the theorems show

    - No loss: a queued generation is in the sender's queue or delivered
      ([generation_queued_or_delivered]); what is acknowledged stays in custody and recorded
      ([acknowledged_generation_never_lost], [generation_custody_never_lost],
      [recorded_never_lost], [custody_never_lost]); a single batch leaves the spool only into
      custody ([batch_leaves_spool_into_custody], [SendAndRetirePreparedFrame_safe]) and its staged
      frame only after that ([CleanupRetiredOutboundFrame_last]); a frozen generation survives its build and
      the recovery of builds; accepted records are in the spool ([spool_holds_accepted_records]);
      a checkpoint is never taken back ([Advance_never_undone]) and, over any history of runs and
      recoveries, never passes a change whose record is not in the spool
      ([checkpoint_never_passes_unspooled]); start-up recovery and rollover keep every published
      batch ([RecoverAbandonedPublications_sound], [RolloverPublishedSpool_freezes]), and an
      interrupted rollover leaves the batches in one raw generation and can be repaired
      ([RolloverPublishedSpool_recoverable]). All of them hold for every schedule of failing
      calls, most of them across power failures; for the collector's spool the power failures
      are covered when the schedules are [clean] (below).
    - Progress: without failures a directory of regular files is sealed ([Seal_succeeds]), and
      what is in custody can be read ([custody_readable]) and recovered
      ([RecoverDurableCustodyRoot_complete]).
    - Refinement: custody directories and the recorder directory implement an abstract
      write-once store with sync and crash.
    - Soundness and completeness of validation: what the intake, the transfer, the semantic
      gate and the certificate verifiers accept is exactly well formed and trusted; what the
      sender stages is the complete frame of the published batch ([PrepareOutboundFrame_stages]),
      oldest batch first ([Next_oldest]).
    - Formats: round trips and injectivity of headers, signature inputs, broker messages and
      journal buffers; the decoders never leave their buffers.
    - Scope and continuity: the selection of objects equals a rule stated on the observations
      and recorded parents alone ([in_scope]), with the basis and detail of each object; an
      assessment is continuous exactly when the journal covers the checkpoint; the recovery of
      the operation journal closes what was open ([RecoverInterrupted_closes]).

    ** Parameters

    Code that is not in the repository is a parameter: certificates and signatures ([X509]),
    the codec ([Zstd], laws [ZstdCodec]), [encoding/json] ([JSON], laws [JSONLaws]: decoding
    what was encoded gives it back and stops there), Unicode case tables ([Unicode]), the
    clock and randomness ([Clock], [OperationClock]), the order [os.ReadDir] promises, network errors, and the
    Win32 calls ([RootHandle], [broker], [dependencies], [Platform], [SenderPlatform],
    [StageEnv], [run_env]). Each has a concrete instance in the
    witnesses.

    ** Bounds and fuel

    Loops over data take as fuel the length of the data plus one, since every turn consumes at
    least one element (readers, decoders, copies) or removes one name (clean-ups); the scope
    fixed point takes the number of objects plus one, since a pass that goes on selects one.
    Running out of fuel is [Panic], and the theorems that a function returns show that this
    does not happen. Integers are [Z] with their wrap-around written out ([u64], [i64]).

    ** Failures

    A fault makes a call return an error without an effect; a write may be partial; a move on
    Windows may also fail after it took effect; a schedule without these two is [clean]. A crash
    keeps synced contents and names, and
    of the rest any prefix-free mixture [GoFS.crash] allows.

    ** Not modelled

    Windows platform access through [syscall] (ntfs collection, security events, SMB, certificate
    stores), the installer and release tooling, PostgreSQL ingestion, the command-line entry
    points, TLS listeners, CRL download, trust diagnostics: they are I/O or administration
    around the modelled decisions. Not yet modelled, in the order planned: transport
    recovery bundles and the sender's start-up scan of staged frames (transportsender/recovery.go),
    records of security descriptors and reparse points. *)

From Stdlib Require Export ZArith Lia.
From Stdlib Require Export Strings.String.
From Stdlib Require Import Strings.Byte.
From stdpp Require Export base tactics list numbers strings.

#[global] Open Scope Z_scope.

(** ** Bytes

    Go's [byte] is the 256-element type [Byte.byte] and both [[]byte] and
    [string] are byte sequences. [b2z] and [z2b] are the conversions
    [int(b)] and [byte(z)] (the second truncates). *)

Abbreviation byte := Init.Byte.byte.
Abbreviation bytes := (list Init.Byte.byte).

Definition b2z (b : byte) : Z := Z.of_N (Byte.to_N b).

Definition z2b (z : Z) : byte :=
  match Byte.of_N (Z.to_N (z mod 256)) with
  | Some b => b
  | None => x00
  end.

#[global] Instance byte_eq_decision : EqDecision byte := Byte.byte_eq_dec.

Lemma b2z_range b : 0 <= b2z b < 256.
Proof. unfold b2z. pose proof (Byte.to_N_bounded b). lia. Qed.

Lemma b2z_inj b c : b2z b = b2z c -> b = c.
Proof.
  unfold b2z. intros H%N2Z.inj.
  pose proof (Byte.of_to_N b) as Hb. rewrite H, Byte.of_to_N in Hb. congruence.
Qed.

Lemma b2z_z2b z : b2z (z2b z) = z mod 256.
Proof.
  unfold b2z, z2b. pose proof (Z.mod_pos_bound z 256 ltac:(lia)).
  destruct (Byte.of_N _) as [b|] eqn:E.
  - apply Byte.to_of_N in E. lia.
  - apply Byte.of_N_None_iff in E. lia.
Qed.

Lemma b2z_z2b_small z : 0 <= z < 256 -> b2z (z2b z) = z.
Proof. intros. rewrite b2z_z2b. apply Z.mod_small; lia. Qed.

Lemma z2b_b2z b : z2b (b2z b) = b.
Proof. apply b2z_inj. rewrite b2z_z2b. apply Z.mod_small, b2z_range. Qed.

(** Literals: [bs "FIWB0001"] is the Go string constant. *)
Definition bs (s : string) : bytes := String.list_byte_of_string s.

(** [len s] is Go's [len] as an [int]. *)
Definition len {A} (l : list A) : Z := Z.of_nat (length l).

Lemma len_nonneg {A} (l : list A) : 0 <= len l.
Proof. unfold len. lia. Qed.

Lemma len_app {A} (l k : list A) : len (l ++ k) = len l + len k.
Proof. unfold len. rewrite length_app. lia. Qed.

#[global] Instance len_Permutation {A} : Proper ((≡ₚ) ==> (=)) (@len A).
Proof. intros l k Hp. unfold len. by rewrite Hp. Qed.

Lemma len_nil {A} : len (@nil A) = 0.
Proof. reflexivity. Qed.

Lemma len_cons {A} (a : A) l : len (a :: l) = 1 + len l.
Proof. unfold len. simpl. lia. Qed.

Lemma len_zero_nil {A} (l : list A) : len l = 0 -> l = [].
Proof. destruct l; [done|]. rewrite len_cons. pose proof (len_nonneg l). lia. Qed.

(** ** Fixed-width integers *)

Definition u16 (z : Z) : Z := z mod 2 ^ 16.
Definition u32 (z : Z) : Z := z mod 2 ^ 32.
Definition u64 (z : Z) : Z := z mod 2 ^ 64.
Definition i64 (z : Z) : Z := (z + 2 ^ 63) mod 2 ^ 64 - 2 ^ 63.

Definition max_u64 : Z := 2 ^ 64 - 1.
Definition max_i64 : Z := 2 ^ 63 - 1.

Definition is_u16 (z : Z) : Prop := 0 <= z < 2 ^ 16.
Definition is_u32 (z : Z) : Prop := 0 <= z < 2 ^ 32.
Definition is_u64 (z : Z) : Prop := 0 <= z < 2 ^ 64.
Definition is_i64 (z : Z) : Prop := - 2 ^ 63 <= z < 2 ^ 63.

Lemma u16_small z : is_u16 z -> u16 z = z.
Proof. apply Z.mod_small. Qed.
Lemma u32_small z : is_u32 z -> u32 z = z.
Proof. apply Z.mod_small. Qed.
Lemma u64_small z : is_u64 z -> u64 z = z.
Proof. apply Z.mod_small. Qed.
Lemma i64_u64 z : is_i64 z -> i64 (u64 z) = z.
Proof.
  unfold is_i64, i64, u64. intros.
  rewrite Z.add_mod_idemp_l by lia. rewrite Z.mod_small; lia.
Qed.
Lemma i64_range z : is_i64 (i64 z).
Proof.
  unfold is_i64, i64. pose proof (Z.mod_pos_bound (z + 2^63) (2^64) ltac:(lia)). lia.
Qed.
Lemma i64_small z : is_i64 z -> i64 z = z.
Proof. unfold is_i64, i64. intros. rewrite Z.mod_small; lia. Qed.

(** ** Errors, results and the state monad

    A Go [error] is a sentinel ([io.EOF]), a fresh [errors.New]/[fmt.Errorf]
    value, a value wrapping another one with the [%w] verb, or two errors put
    together by [errors.Join]. The message kept
    is the constant format string; interpolated operands are not modelled.
    [Panic] is a run-time panic (index out of range, nil dereference). *)

Inductive error : Type :=
| Sentinel (name : string)
| Errorf (msg : string)
| Wrap (msg : string) (cause : error)
| Join (e1 e2 : error).

#[global] Instance error_eq_decision : EqDecision error.
Proof. solve_decision. Defined.

(** [errors.Is] follows the chain of wrapped errors. *)
Fixpoint errors_Is (e target : error) : bool :=
  bool_decide (e = target) ||
  match e with
  | Wrap _ c => errors_Is c target
  | Join e1 e2 => errors_Is e1 target || errors_Is e2 target
  | _ => false
  end.

Definition EOF : error := Sentinel "EOF".
Definition ErrUnexpectedEOF : error := Sentinel "unexpected EOF".
Definition ErrShortWrite : error := Sentinel "short write".

Inductive res (A : Type) : Type :=
| Ok (a : A)
| Err (e : error)
| Panic.
Arguments Ok {A} a.
Arguments Err {A} e.
Arguments Panic {A}.

Definition res_bind {A B} (m : res A) (k : A -> res B) : res B :=
  match m with Ok a => k a | Err e => Err e | Panic => Panic end.

(** [fmt.Errorf("msg: %w", err)] applied to the error of a call. *)
Definition wrap {A} (msg : string) (m : res A) : res A :=
  match m with Err e => Err (Wrap msg e) | _ => m end.

Definition is_ok {A} (m : res A) : bool :=
  match m with Ok _ => true | _ => false end.

Declare Scope go_scope.
Delimit Scope go_scope with go.
#[global] Open Scope go_scope.

Notation "'let?' x ':=' m 'in' k" := (res_bind m (fun x => k))
  (at level 10, x pattern, m at level 99, k at level 200) : go_scope.
Notation "'check?' m ';;' k" := (res_bind m (fun _ => k))
  (at level 10, m at level 99, k at level 200) : go_scope.
(** [if cond { return err }]. *)
Notation "'fail?' b 'with' e ';;' k" := (if (b : bool) then Err e else k)
  (at level 10, b at level 99, e at level 99, k at level 200) : go_scope.

(** Stateful code: a program over a state [S] (a stream, a file system, the
    receiver of a method) that returns a result and the final state. *)
Definition prog (S A : Type) : Type := S -> res A * S.

Definition ret {S A} (a : A) : prog S A := fun s => (Ok a, s).
Definition throw {S A} (e : error) : prog S A := fun s => (Err e, s).
Definition lift {S A} (m : res A) : prog S A := fun s => (m, s).
Definition bind {S A B} (m : prog S A) (k : A -> prog S B) : prog S B :=
  fun s => match m s with
           | (Ok a, s') => k a s'
           | (Err e, s') => (Err e, s')
           | (Panic, s') => (Panic, s')
           end.
Definition wrap_err {S A} (msg : string) (m : prog S A) : prog S A :=
  fun s => let '(r, s') := m s in (wrap msg r, s').

(** [if err != nil { return errors.New(msg) }]: the cause is dropped. *)
Definition instead {S A} (e : error) (m : prog S A) : prog S A :=
  fun s => match m s with (Err _, s') => (Err e, s') | r => r end.

Notation "'let!' x ':=' m 'in' k" := (bind m (fun x => k))
  (at level 10, x pattern, m at level 99, k at level 200) : go_scope.
Notation "'check!' m ';;' k" := (bind m (fun _ => k))
  (at level 10, m at level 99, k at level 200) : go_scope.
Notation "'fail!' b 'with' e ';;' k" := (if (b : bool) then throw e else k)
  (at level 10, b at level 99, e at level 99, k at level 200) : go_scope.

(** ** Tactics

    [res_inv H] walks a chain of early returns in a hypothesis
    [... = Ok v], leaving every guard as a boolean fact. *)

Lemma res_bind_Ok {A B} (m : res A) (k : A -> res B) b :
  res_bind m k = Ok b <-> exists a, m = Ok a /\ k a = Ok b.
Proof. destruct m; simpl; naive_solver. Qed.

Lemma wrap_Ok {A} msg (m : res A) a : wrap msg m = Ok a <-> m = Ok a.
Proof. destruct m; simpl; naive_solver. Qed.

Lemma wrap_Panic {A} msg (m : res A) : wrap msg m = Panic <-> m = Panic.
Proof. destruct m; simpl; naive_solver. Qed.

Lemma bind_Ok {S A B} (m : prog S A) (k : A -> prog S B) s b s' :
  bind m k s = (Ok b, s') <-> exists a s1, m s = (Ok a, s1) /\ k a s1 = (Ok b, s').
Proof. unfold bind. destruct (m s) as [[] ?]; naive_solver. Qed.

Lemma bind_split {S A B} (m : prog S A) (k : A -> prog S B) s r s' :
  bind m k s = (r, s') -> (exists a s1, m s = (Ok a, s1) /\ k a s1 = (r, s')) \/ s' = (m s).2.
Proof. unfold bind. destruct (m s) as [[a|e|] s1]; [eauto|intros [= _ <-]; by right..]. Qed.

Lemma wrap_err_Ok {S A} msg (m : prog S A) s a s' :
  wrap_err msg m s = (Ok a, s') <-> m s = (Ok a, s').
Proof. unfold wrap_err. destruct (m s) as [[] ?]; simpl; naive_solver. Qed.

Ltac res_inv1 H :=
  lazymatch type of H with
  | (if ?b then Err _ else _) = Ok _ => destruct b eqn:?; [discriminate H|]
  | (if ?b then _ else Err _) = Ok _ => destruct b eqn:?; [|discriminate H]
  | (if ?b then Ok _ else _) = Ok _ => destruct b eqn:?; [discriminate H|]
  | (if ?b then throw _ else _) _ = (Ok _, _) => destruct b eqn:?; [discriminate H|]
  | (if ?b then _ else throw _) _ = (Ok _, _) => destruct b eqn:?; [|discriminate H]
  | res_bind _ _ = Ok _ =>
      apply res_bind_Ok in H; let a := fresh "v" in let E := fresh "E" in
      destruct H as (a & E & H); cbv beta iota in H; try (res_inv1 E)
  | wrap _ _ = Ok _ => apply wrap_Ok in H
  | bind _ _ _ = (Ok _, _) =>
      apply bind_Ok in H; let a := fresh "v" in let s := fresh "s" in let E := fresh "E" in
      destruct H as (a & s & E & H); cbv beta iota in H; try (res_inv1 E)
  | wrap_err _ _ _ = (Ok _, _) => apply wrap_err_Ok in H
  | lift _ _ = (Ok _, _) => unfold lift in H; injection H as H ?; subst; try (res_inv1 H)
  | ret _ _ = (Ok _, _) => unfold ret in H; injection H as H ?; subst
  | Ok _ = Ok _ => injection H as H; try subst
  | Err _ = Ok _ => discriminate H
  | Panic = Ok _ => discriminate H
  end.
Ltac res_inv H := repeat res_inv1 H.

(** The same chains as equivalences, for rewriting. *)
Lemma fail_Ok {A} (b : bool) e (k : res A) v :
  (if b then Err e else k) = Ok v <-> b = false /\ k = Ok v.
Proof. destruct b; naive_solver. Qed.

Lemma check_Ok {A} (m : res unit) (k : res A) v :
  res_bind m (fun _ => k) = Ok v <-> m = Ok tt /\ k = Ok v.
Proof. destruct m as [[]| |]; simpl; naive_solver. Qed.

Lemma orb_false (a b : bool) : (a || b) = false <-> a = false /\ b = false.
Proof. destruct a, b; naive_solver. Qed.

Lemma negb_decide_false (P : Prop) `{Decision P} : negb (bool_decide P) = false <-> P.
Proof. rewrite negb_false_iff. apply bool_decide_eq_true. Qed.

Lemma decide_false (P : Prop) `{Decision P} : bool_decide P = false <-> ~ P.
Proof. apply bool_decide_eq_false. Qed.

Lemma negb_false_true (b : bool) : negb b = false <-> b = true.
Proof. apply negb_false_iff. Qed.

Lemma and_iff_compat_l_dep (P Q R : Prop) : (P -> (Q <-> R)) -> (P /\ Q <-> P /\ R).
Proof. tauto. Qed.

(** Code that cannot panic: every step of it cannot. *)
Definition no_panic {A} (m : res A) : Prop := m <> Panic.

Lemma no_panic_Ok {A} (a : A) : no_panic (Ok a). Proof. done. Qed.
Lemma no_panic_Err {A} e : no_panic (@Err A e). Proof. done. Qed.
Lemma no_panic_if {A} (b : bool) (m n : res A) :
  no_panic m -> no_panic n -> no_panic (if b then m else n).
Proof. by destruct b. Qed.
Lemma no_panic_wrap {A} msg (m : res A) : no_panic m -> no_panic (wrap msg m).
Proof. by destruct m. Qed.
Lemma no_panic_bind {A B} (m : res A) (k : A -> res B) :
  no_panic m -> (forall a, m = Ok a -> no_panic (k a)) -> no_panic (res_bind m k).
Proof. destruct m; simpl; [|done..]. intros _ H. by apply H. Qed.

Lemma no_panic_cases {A B} (m : res A) (f : A -> res B) (g : error -> res B) :
  no_panic m -> (forall a, no_panic (f a)) -> (forall e, no_panic (g e)) ->
  no_panic (match m with Ok a => f a | Err e => g e | Panic => Panic end).
Proof. by destruct m. Qed.

Create HintDb nopanic.
#[export] Hint Resolve no_panic_Ok no_panic_Err : nopanic.

Ltac no_panic :=
  repeat first
    [ solve [eauto with nopanic]
    | apply no_panic_if | apply no_panic_wrap | apply no_panic_bind; [|intros]
    | match goal with |- no_panic (match ?x with _ => _ end) => destruct x eqn:? end ].

Ltac res_iff :=
  repeat first [rewrite fail_Ok | rewrite check_Ok | rewrite wrap_Ok | rewrite orb_false
               | rewrite negb_decide_false | rewrite decide_false
               | rewrite negb_false_true | rewrite Z.eqb_neq | rewrite Z.eqb_eq
               | rewrite Z.ltb_ge | rewrite Z.leb_gt ].

(** Boolean guards to propositions. *)
Ltac bool_hyps :=
  repeat match goal with
  | H : (_ || _) = false |- _ => apply orb_false_elim in H; destruct H
  | H : (_ && _) = true |- _ => apply andb_prop in H; destruct H
  | H : negb _ = false |- _ => apply negb_false_iff in H
  | H : negb _ = true |- _ => apply negb_true_iff in H
  | H : bool_decide _ = true |- _ => apply bool_decide_eq_true_1 in H
  | H : bool_decide _ = false |- _ => apply bool_decide_eq_false_1 in H
  end.

(** ** Programs within a relation

    Whatever its outcome, a program that [keeps R] moves the state along [R]. *)

Definition keeps {S A} (R : S -> S -> Prop) (p : prog S A) : Prop := forall s, R s (p s).2.

Section Keeps.
Context {S : Type} (R : S -> S -> Prop) `{!PreOrder R}.

Lemma keeps_pure {A} (r : res A) : keeps R (fun s => (r, s)).
Proof. intros s. cbn. reflexivity. Qed.
Lemma keeps_ret {A} (a : A) : keeps R (ret a).
Proof. apply keeps_pure. Qed.
Lemma keeps_throw {A} e : keeps R (@throw S A e).
Proof. apply keeps_pure. Qed.
Lemma keeps_lift {A} (r : res A) : keeps R (lift r).
Proof. apply keeps_pure. Qed.
Lemma keeps_bind {A B} (p : prog S A) (k : A -> prog S B) :
  keeps R p -> (forall a, keeps R (k a)) -> keeps R (bind p k).
Proof.
  intros Hp Hk s. specialize (Hp s). unfold bind. destruct (p s) as [[a|e|] s1]; [|done..].
  etrans; [exact Hp|apply Hk].
Qed.
Lemma keeps_wrap {A} msg (p : prog S A) : keeps R p -> keeps R (wrap_err msg p).
Proof. intros Hp s. specialize (Hp s). unfold wrap_err. by destruct (p s). Qed.
Lemma keeps_instead {A} e (p : prog S A) : keeps R p -> keeps R (instead e p).
Proof. intros Hp s. specialize (Hp s). unfold instead. by destruct (p s) as [[]]. Qed.
Lemma keeps_if {A} (b : bool) (p q : prog S A) : keeps R p -> keeps R q -> keeps R (if b then p else q).
Proof. by destruct b. Qed.
End Keeps.

Lemma keeps_run {S A} (R : S -> S -> Prop) (p : prog S A) s r s' : keeps R p -> p s = (r, s') -> R s s'.
Proof. intros Hp Hr. specialize (Hp s). by rewrite Hr in Hp. Qed.

(** A program on one half of the state. *)
Definition on_fst {S T A} (p : prog S A) : prog (S * T) A := fun '(s, t) =>
  let '(r, s) := p s in (r, (s, t)).
Definition on_snd {S T A} (p : prog T A) : prog (S * T) A := fun '(s, t) =>
  let '(r, t) := p t in (r, (s, t)).

Lemma on_fst_Ok {S T A} (p : prog S A) s (t : T) a st :
  on_fst p (s, t) = (Ok a, st) -> exists s', p s = (Ok a, s') /\ st = (s', t).
Proof. unfold on_fst. destruct (p s) as [r s']. intros [= -> <-]. eauto. Qed.
Lemma on_snd_Ok {S T A} (p : prog T A) (s : S) t a st :
  on_snd p (s, t) = (Ok a, st) -> exists t', p t = (Ok a, t') /\ st = (s, t').
Proof. unfold on_snd. destruct (p t) as [r t']. intros [= -> <-]. eauto. Qed.

(** The second half moves along [R]. *)
Definition beside {S T} (R : T -> T -> Prop) (st st' : S * T) : Prop := R st.2 st'.2.
#[global] Instance beside_PreOrder {S T} (R : T -> T -> Prop) `{!PreOrder R} : PreOrder (@beside S T R).
Proof. split; [intros st; unfold beside; reflexivity|]. intros a b c. unfold beside. by etrans. Qed.

Lemma keeps_on_snd {S T A} (R : T -> T -> Prop) (p : prog T A) :
  keeps R p -> keeps (@beside S T R) (on_snd p).
Proof. intros Hp [s t]. specialize (Hp t). unfold on_snd. by destruct (p t). Qed.
Lemma keeps_on_fst {S T A} (R : T -> T -> Prop) `{!PreOrder R} (p : prog S A) :
  keeps (@beside S T R) (on_fst p).
Proof. intros [s t]. unfold on_fst, beside. by destruct (p s). Qed.

Create HintDb keeps.
#[export] Hint Resolve keeps_ret keeps_throw keeps_lift keeps_on_fst : keeps.

(** Follow the structure of a program down to its calls. *)
Ltac keeps1 :=
  first
    [ solve [eauto with keeps typeclass_instances]
    | apply keeps_bind; [apply _| |intros ?] | apply keeps_wrap | apply keeps_instead | apply keeps_if
    | apply keeps_on_snd
    | match goal with |- keeps _ (match ?x with _ => _ end) => destruct x end ].

(** ** Results reached so far

    Functions that return a partially filled result beside an error:
    [if err != nil { return result, err }]. *)
Definition stage {P S A} (partial : P) (s : S) (r : res A) (k : A -> (P * res unit) * S) : (P * res unit) * S :=
  match r with
  | Ok a => k a
  | Err e => ((partial, Err e), s)
  | Panic => ((partial, Panic), s)
  end.

Lemma stage_inv {P S A} (partial : P) (s : S) (r : res A) k result err s' :
  stage partial s r k = ((result, err), s') ->
  (exists a, r = Ok a /\ k a = ((result, err), s')) \/ (result = partial /\ s' = s /\ err <> Ok tt).
Proof. destruct r as [a|e|]; cbn; [eauto|intros [= <- <- <-]; by right..]. Qed.

Lemma stage_keeps {P S A} (R : S -> S -> Prop) s0 (partial : P) s (r : res A) k :
  R s0 s -> (forall a, r = Ok a -> R s0 (k a).2) -> R s0 (stage partial s r k).2.
Proof. intros Hs Hk. destruct r as [a|e|]; cbn; [by apply Hk|done..]. Qed.
