(* ===== verification/GoBytes.v ===== *)
(** * The byte-level Standard Library used by the program

    Slices ([s[lo:hi]]), [encoding/binary] in both byte orders,
    [encoding/hex], [unicode/utf8] and the functions of [strings] the program
    calls, with the codec lemmas the wire formats rest on. *)

From S2P Require Import Prelude.
From Stdlib Require Import Strings.Byte.

(** ** Slices *)

(** [s[lo:hi]] with constant bounds inside a fixed-size array. *)
Definition sub (lo hi : Z) (s : bytes) : bytes :=
  take (Z.to_nat (hi - lo)) (drop (Z.to_nat lo) s).

(** [s[lo:hi]] with computed bounds: a violation of [0 <= lo <= hi <= len s]
    is a run-time panic. *)
Definition slice (lo hi : Z) (s : bytes) : res bytes :=
  if (0 <=? lo) && (lo <=? hi) && (hi <=? len s) then Ok (sub lo hi s) else Panic.

Lemma slice_Ok lo hi s : 0 <= lo -> lo <= hi -> hi <= len s -> slice lo hi s = Ok (sub lo hi s).
Proof.
  intros. unfold slice.
  rewrite !(proj2 (Z.leb_le _ _)) by lia. done.
Qed.

Lemma len_sub lo hi s : 0 <= lo -> lo <= hi -> hi <= len s -> len (sub lo hi s) = hi - lo.
Proof.
  intros. unfold len, sub in *. rewrite length_take, length_drop. lia.
Qed.

(** Reading a field of a record laid out as [pre ++ field ++ post]. *)
Lemma sub_app_field lo hi (pre f post : bytes) :
  len pre = lo -> len f = hi - lo -> sub lo hi (pre ++ f ++ post) = f.
Proof.
  unfold sub, len. intros <- Hf.
  rewrite Nat2Z.id, drop_app_length.
  rewrite take_app_length'; [done|lia].
Qed.

(** ** Fixed-width integers in memory *)

Fixpoint le_put (n : nat) (z : Z) : bytes :=
  match n with
  | O => []
  | S n' => z2b z :: le_put n' (z / 256)
  end.

Fixpoint le_get (s : bytes) : Z :=
  match s with
  | [] => 0
  | b :: s' => b2z b + 256 * le_get s'
  end.

Definition be_put (n : nat) (z : Z) : bytes := reverse (le_put n z).
Definition be_get (s : bytes) : Z := le_get (reverse s).

Lemma length_le_put n z : length (le_put n z) = n.
Proof. revert z. induction n; simpl; auto. Qed.

Lemma length_be_put n z : length (be_put n z) = n.
Proof. unfold be_put. rewrite length_reverse. apply length_le_put. Qed.

Lemma len_be_put n z : len (be_put n z) = Z.of_nat n.
Proof. unfold len. by rewrite length_be_put. Qed.

Lemma len_le_put n z : len (le_put n z) = Z.of_nat n.
Proof. unfold len. by rewrite length_le_put. Qed.

Lemma le_get_put n z : 0 <= z < 256 ^ Z.of_nat n -> le_get (le_put n z) = z.
Proof.
  revert z. induction n as [|n IH]; intros z Hz; simpl.
  - change (256 ^ Z.of_nat 0) with 1 in Hz. lia.
  - rewrite Nat2Z.inj_succ, Z.pow_succ_r in Hz by lia.
    rewrite b2z_z2b, IH.
    + pose proof (Z.div_mod z 256). lia.
    + split; [apply Z.div_pos; lia|]. apply Z.div_lt_upper_bound; lia.
Qed.

Lemma le_get_range s : 0 <= le_get s < 256 ^ len s.
Proof.
  induction s as [|b s IH]; [split; done|]. cbn [le_get].
  rewrite len_cons, Z.pow_add_r by (pose proof (len_nonneg s); lia).
  pose proof (b2z_range b). lia.
Qed.

Lemma le_put_get s : le_put (length s) (le_get s) = s.
Proof.
  induction s as [|b s IH]; simpl; [done|].
  pose proof (b2z_range b).
  f_equal.
  - apply b2z_inj. rewrite b2z_z2b, (Z.mul_comm 256), Z.mod_add by lia.
    apply Z.mod_small; lia.
  - rewrite (Z.mul_comm 256), Z.div_add, Z.div_small by lia. done.
Qed.

Lemma be_get_put n z : 0 <= z < 256 ^ Z.of_nat n -> be_get (be_put n z) = z.
Proof. unfold be_get, be_put. rewrite reverse_involutive. apply le_get_put. Qed.

Lemma be_get_range s : 0 <= be_get s < 256 ^ len s.
Proof.
  unfold be_get. pose proof (le_get_range (reverse s)) as H.
  unfold len in *. by rewrite length_reverse in H.
Qed.

Lemma be_put_get s : be_put (length s) (be_get s) = s.
Proof.
  unfold be_put, be_get. rewrite <- (length_reverse s), le_put_get.
  apply reverse_involutive.
Qed.

Lemma be_put_inj n x y :
  0 <= x < 256 ^ Z.of_nat n -> 0 <= y < 256 ^ Z.of_nat n ->
  be_put n x = be_put n y -> x = y.
Proof. intros Hx Hy H. by rewrite <- (be_get_put n x), <- (be_get_put n y), H. Qed.

(** [binary.BigEndian] and [binary.LittleEndian] at their widths. *)
Definition PutUint32BE (z : Z) : bytes := be_put 4 z.
Definition PutUint64BE (z : Z) : bytes := be_put 8 z.
Definition PutUint16LE (z : Z) : bytes := le_put 2 z.
Definition PutUint32LE (z : Z) : bytes := le_put 4 z.
Definition PutUint64LE (z : Z) : bytes := le_put 8 z.

Lemma be_get_PutUint32 z : is_u32 z -> be_get (PutUint32BE z) = z.
Proof. intros. apply be_get_put. unfold is_u32 in *. lia. Qed.
Lemma be_get_PutUint64 z : is_u64 z -> be_get (PutUint64BE z) = z.
Proof. intros. apply be_get_put. unfold is_u64 in *. lia. Qed.
Lemma le_get_PutUint16 z : is_u16 z -> le_get (PutUint16LE z) = z.
Proof. intros. apply le_get_put. unfold is_u16 in *. lia. Qed.
Lemma le_get_PutUint32 z : is_u32 z -> le_get (PutUint32LE z) = z.
Proof. intros. apply le_get_put. unfold is_u32 in *. lia. Qed.
Lemma le_get_PutUint64 z : is_u64 z -> le_get (PutUint64LE z) = z.
Proof. intros. apply le_get_put. unfold is_u64 in *. lia. Qed.

Lemma len_PutUint32BE z : len (PutUint32BE z) = 4. Proof. apply len_be_put. Qed.
Lemma len_PutUint64BE z : len (PutUint64BE z) = 8. Proof. apply len_be_put. Qed.
Lemma len_PutUint16LE z : len (PutUint16LE z) = 2. Proof. apply len_le_put. Qed.
Lemma len_PutUint32LE z : len (PutUint32LE z) = 4. Proof. apply len_le_put. Qed.
Lemma len_PutUint64LE z : len (PutUint64LE z) = 8. Proof. apply len_le_put. Qed.

(** ** [encoding/hex] *)

Definition hex_digit (n : Z) : byte :=
  z2b (if n <? 10 then 48 + n else 87 + n).

(** [hex.EncodeToString]: lowercase. *)
Fixpoint hex_encode (s : bytes) : bytes :=
  match s with
  | [] => []
  | b :: s' => hex_digit (b2z b / 16) :: hex_digit (b2z b mod 16) :: hex_encode s'
  end.

Definition fromHexChar (c : byte) : option Z :=
  let z := b2z c in
  if (48 <=? z) && (z <=? 57) then Some (z - 48)
  else if (97 <=? z) && (z <=? 102) then Some (z - 87)
  else if (65 <=? z) && (z <=? 70) then Some (z - 55)
  else None.

(** [hex.DecodeString]: accepts both cases, rejects odd lengths. *)
Fixpoint hex_decode (s : bytes) : res bytes :=
  match s with
  | [] => Ok []
  | [_] => Err (Errorf "encoding/hex: odd length hex string")
  | a :: b :: s' =>
      match fromHexChar a, fromHexChar b with
      | Some x, Some y => let? r := hex_decode s' in Ok (z2b (16 * x + y) :: r)
      | _, _ => Err (Errorf "encoding/hex: invalid byte")
      end
  end.

(** Characters ['0'..'9'] and ['a'..'f']. *)
Definition lower_hex (c : byte) : bool :=
  let z := b2z c in ((48 <=? z) && (z <=? 57)) || ((97 <=? z) && (z <=? 102)).

(** Case analysis on one byte, discharged by computation. *)
Ltac byte_cases b := destruct b; vm_compute; try reflexivity; try discriminate; try done.

Lemma hex_digit_lower n : 0 <= n < 16 -> lower_hex (hex_digit n) = true.
Proof.
  intros. unfold lower_hex, hex_digit.
  destruct (n <? 10) eqn:?; rewrite b2z_z2b_small by lia; lia.
Qed.

Lemma fromHexChar_digit n : 0 <= n < 16 -> fromHexChar (hex_digit n) = Some n.
Proof.
  intros. unfold fromHexChar, hex_digit. destruct (n <? 10) eqn:?; rewrite b2z_z2b_small by lia;
  repeat case_match; try (f_equal; lia); lia.
Qed.

Lemma fromHexChar_lower c : lower_hex c = true ->
  exists n, fromHexChar c = Some n /\ 0 <= n < 16 /\ hex_digit n = c.
Proof.
  unfold lower_hex, fromHexChar, hex_digit. intros H.
  destruct ((48 <=? b2z c) && (b2z c <=? 57)) eqn:E1.
  - exists (b2z c - 48). split; [done|]. split; [lia|].
    replace (b2z c - 48 <? 10) with true by lia.
    rewrite <- (z2b_b2z c) at 2. f_equal. lia.
  - simpl in H. rewrite H. exists (b2z c - 87). split; [done|]. split; [lia|].
    replace (b2z c - 87 <? 10) with false by lia.
    rewrite <- (z2b_b2z c) at 2. f_equal. lia.
Qed.

Lemma len_hex_encode s : len (hex_encode s) = 2 * len s.
Proof. induction s; simpl; rewrite ?len_cons; [done|lia]. Qed.

Lemma hex_encode_lower s : forallb lower_hex (hex_encode s) = true.
Proof.
  induction s as [|b s IH]; simpl; [done|]. pose proof (b2z_range b).
  pose proof (Z.mod_pos_bound (b2z b) 16 ltac:(lia)).
  rewrite !hex_digit_lower, IH; [done|lia|].
  split; [apply Z.div_pos; lia|apply Z.div_lt_upper_bound; lia].
Qed.

Lemma hex_decode_encode s : hex_decode (hex_encode s) = Ok s.
Proof.
  induction s as [|b s IH]; simpl; [done|]. pose proof (b2z_range b).
  pose proof (Z.mod_pos_bound (b2z b) 16 ltac:(lia)).
  rewrite !fromHexChar_digit; [|lia|split; [apply Z.div_pos; lia|apply Z.div_lt_upper_bound; lia]].
  rewrite IH. simpl. do 2 f_equal.
  rewrite <- (Z.div_mod (b2z b) 16) by lia. apply z2b_b2z.
Qed.

Lemma list_pair_ind {A} (P : list A -> Prop) :
  P [] -> (forall a, P [a]) -> (forall a b l, P l -> P (a :: b :: l)) -> forall l, P l.
Proof.
  intros H0 H1 H2. fix IH 1. intros [|a [|b l]]; [apply H0|apply H1|apply H2, IH].
Qed.

(** On lowercase input decoding is inverse to encoding. *)
Lemma hex_encode_decode s r :
  forallb lower_hex s = true -> hex_decode s = Ok r -> hex_encode r = s.
Proof.
  revert r. induction s as [|a|a b s IH] using list_pair_ind; intros r Hl H;
    [naive_solver|discriminate|].
  change (lower_hex a && (lower_hex b && forallb lower_hex s) = true) in Hl.
  apply andb_prop in Hl as [Ha Hl]. apply andb_prop in Hl as [Hb Hl].
  apply fromHexChar_lower in Ha as (x & Ha & Hx & <-).
  apply fromHexChar_lower in Hb as (y & Hb & Hy & <-).
  cbn [hex_decode] in H. rewrite Ha, Hb in H. res_inv H.
  cbn [hex_encode]. rewrite b2z_z2b_small by lia.
  rewrite Z.mul_comm, Z.div_add_l, Z.div_small, Z.add_0_r by lia.
  rewrite Z.add_comm, Z.mod_add, Z.mod_small by lia.
  by rewrite (IH v Hl).
Qed.

Lemma hex_decode_lower_Ok s :
  forallb lower_hex s = true -> Z.even (len s) = true -> exists r, hex_decode s = Ok r.
Proof.
  induction s as [|a|a b s IH] using list_pair_ind; intros Hl He; [by exists []|discriminate|].
  change (lower_hex a && (lower_hex b && forallb lower_hex s) = true) in Hl.
  apply andb_prop in Hl as [Ha Hl]. apply andb_prop in Hl as [Hb Hl].
  apply fromHexChar_lower in Ha as (x & Ha & _ & _).
  apply fromHexChar_lower in Hb as (y & Hb & _ & _).
  cbn [hex_decode]. rewrite Ha, Hb.
  destruct IH as [r Hr]; [done| |rewrite Hr; simpl; eauto].
  rewrite !len_cons in He. replace (1 + (1 + len s)) with (len s + 2 * 1) in He by lia.
  by rewrite Z.even_add_mul_2 in He.
Qed.

Lemma hex_decode_len s r : hex_decode s = Ok r -> len s = 2 * len r.
Proof.
  revert r. induction s as [|a|a b s IH] using list_pair_ind; intros r H;
    [naive_solver|discriminate|].
  cbn [hex_decode] in H. destruct (fromHexChar a), (fromHexChar b); try discriminate H.
  res_inv H. rewrite !len_cons, (IH v E). lia.
Qed.

Lemma hex_decode_no_panic s : no_panic (hex_decode s).
Proof.
  induction s as [|a|a b s IH] using list_pair_ind; [done|done|].
  cbn [hex_decode]. no_panic.
Qed.
#[export] Hint Resolve hex_decode_no_panic : nopanic.

(** ** Length-prefixed fields

    [appendLengthPrefixed(value, field)] of the signature inputs appends
    [uint32(len(field))] and the field. Below 4 GiB the encoding can be parsed
    back unambiguously. *)
Definition appendLengthPrefixed (value field : bytes) : bytes :=
  value ++ PutUint32BE (u32 (len field)) ++ field.

Lemma prefixed_inj (x y r s : bytes) :
  is_u32 (len x) -> is_u32 (len y) ->
  PutUint32BE (u32 (len x)) ++ x ++ r = PutUint32BE (u32 (len y)) ++ y ++ s ->
  x = y /\ r = s.
Proof.
  intros Hx Hy H. rewrite !u32_small in H by done. unfold PutUint32BE in H.
  apply app_inj_1 in H as [H1 H2]; [|by rewrite !length_be_put].
  apply be_put_inj in H1; [|unfold is_u32 in *; lia..].
  apply app_inj_1 in H2; [done|]. unfold len in H1. lia.
Qed.

Lemma be_put_app_inj n x y (r s : bytes) :
  0 <= x < 256 ^ Z.of_nat n -> 0 <= y < 256 ^ Z.of_nat n ->
  be_put n x ++ r = be_put n y ++ s -> x = y /\ r = s.
Proof.
  intros Hx Hy H. apply app_inj_1 in H as [H1 H2]; [|by rewrite !length_be_put].
  apply be_put_inj in H1; done.
Qed.

Lemma Uint64_app_inj x y (r s : bytes) :
  is_u64 x -> is_u64 y -> PutUint64BE x ++ r = PutUint64BE y ++ s -> x = y /\ r = s.
Proof. unfold is_u64. intros. eapply be_put_app_inj; [| |done]; lia. Qed.

(** ** SHA-256 digests in hexadecimal: what every [validateSHA256] accepts. *)
Definition sha256_text (s : bytes) : bool := (len s =? 64) && forallb lower_hex s.

Lemma sha256_text_decode s :
  sha256_text s = true -> exists d, hex_decode s = Ok d /\ len d = 32 /\ hex_encode d = s.
Proof.
  unfold sha256_text. intros [Hl Hf]%andb_prop. apply Z.eqb_eq in Hl.
  destruct (hex_decode_lower_Ok s) as [d Hd]; [done|by rewrite Hl|].
  exists d. pose proof (hex_decode_len _ _ Hd).
  split; [done|]. split; [lia|]. by apply hex_encode_decode.
Qed.

Lemma sha256_text_encode d : len d = 32 -> sha256_text (hex_encode d) = true.
Proof.
  intros. unfold sha256_text. rewrite len_hex_encode, hex_encode_lower. lia.
Qed.

(** The digest field of a wire record, as bytes. *)
Definition hex_bytes (s : bytes) : bytes :=
  match hex_decode s with Ok d => d | _ => [] end.

Lemma hex_bytes_inj s t :
  sha256_text s = true -> sha256_text t = true -> hex_bytes s = hex_bytes t -> s = t.
Proof.
  unfold hex_bytes.
  intros (d & -> & _ & <-)%sha256_text_decode (e & -> & _ & <-)%sha256_text_decode. by intros ->.
Qed.

Lemma len_hex_bytes s : sha256_text s = true -> len (hex_bytes s) = 32.
Proof. unfold hex_bytes. by intros (d & -> & ? & _)%sha256_text_decode. Qed.

Lemma hex_app_inj s t r u :
  sha256_text s = true -> sha256_text t = true ->
  hex_bytes s ++ r = hex_bytes t ++ u -> s = t /\ r = u.
Proof.
  intros Hs Ht H. pose proof (len_hex_bytes _ Hs). pose proof (len_hex_bytes _ Ht).
  apply app_inj_1 in H as [H ->]; [|unfold len in *; lia].
  split; [|done]. by apply hex_bytes_inj.
Qed.

(** [peel H] splits an equality of two encodings field by field. *)
Ltac peel1 H :=
  lazymatch type of H with
  | PutUint32BE (u32 (len ?x)) ++ ?x ++ _ = PutUint32BE (u32 (len ?y)) ++ ?y ++ _ =>
      apply prefixed_inj in H as [? H]; [|assumption|assumption]
  | PutUint64BE _ ++ _ = PutUint64BE _ ++ _ =>
      apply Uint64_app_inj in H as [? H]; [|assumption|assumption]
  | hex_bytes _ ++ _ = hex_bytes _ ++ _ =>
      apply hex_app_inj in H as [? H]; [|assumption|assumption]
  | hex_bytes _ = hex_bytes _ => apply hex_bytes_inj in H; [|assumption|assumption]
  | ?a ++ _ = ?a ++ _ => apply app_inv_head in H
  end.
Ltac peel H := repeat peel1 H.

(** ** Fixed-size header buffers

    [var header [N]byte] followed by [copy(header[lo:hi], ...)] and
    [PutUint(header[lo:hi], ...)] calls. *)
Definition zeros (n : Z) : bytes := replicate (Z.to_nat n) (z2b 0).

Definition put (lo hi : Z) (src buf : bytes) : bytes :=
  let n := Z.min (hi - lo) (len src) in
  take (Z.to_nat lo) buf ++ take (Z.to_nat n) src ++ drop (Z.to_nat (lo + n)) buf.

Lemma len_zeros n : 0 <= n -> len (zeros n) = n.
Proof. intros. unfold len, zeros. rewrite length_replicate. lia. Qed.

(** Filling the next slot of a partly filled header. *)
Lemma put_next lo hi src pre n :
  len pre = lo -> len src = hi - lo -> hi - lo <= n ->
  put lo hi src (pre ++ zeros n) = (pre ++ src) ++ zeros (n - (hi - lo)).
Proof.
  unfold put, zeros, len. intros <- Hs Hn. rewrite Hs, Z.min_id.
  rewrite Nat2Z.id, take_app_length.
  rewrite (take_ge src) by lia. rewrite <- app_assoc. do 2 f_equal.
  rewrite drop_app_ge by lia. rewrite drop_replicate. f_equal. lia.
Qed.

Lemma put_first hi src n :
  len src = hi -> hi <= n -> put 0 hi src (zeros n) = src ++ zeros (n - hi).
Proof.
  intros. change (zeros n) with ([] ++ zeros n). rewrite put_next; [|done|lia|lia].
  by rewrite Z.sub_0_r.
Qed.

Lemma sub_skip lo hi (f r : bytes) k :
  len f = k -> k <= lo -> sub lo hi (f ++ r) = sub (lo - k) (hi - k) r.
Proof.
  intros <- Hk. unfold sub, len in *. rewrite drop_app_ge by lia.
  f_equal; [f_equal; lia|]. f_equal. lia.
Qed.

Lemma sub_here hi (f r : bytes) : len f = hi -> sub 0 hi (f ++ r) = f.
Proof. intros <-. unfold sub, len. rewrite Z.sub_0_r, Nat2Z.id. simpl. apply take_app_length. Qed.

Lemma sub_whole hi (f : bytes) : len f = hi -> sub 0 hi f = f.
Proof. intros. rewrite <- (app_nil_r f) at 1. by apply sub_here. Qed.

Lemma sub_split lo mid hi (f : bytes) :
  0 <= lo -> lo <= mid -> mid <= hi -> sub lo hi f = sub lo mid f ++ sub mid hi f.
Proof.
  intros. unfold sub.
  replace (Z.to_nat (hi - lo)) with (Z.to_nat (mid - lo) + Z.to_nat (hi - mid))%nat by lia.
  rewrite <- take_take_drop. do 2 f_equal. rewrite drop_drop. f_equal. lia.
Qed.

Lemma PutUint32BE_get f : len f = 4 -> PutUint32BE (be_get f) = f.
Proof. intros H. rewrite <- (be_put_get f) at 2. unfold len in H. by replace (length f) with 4%nat by lia. Qed.
Lemma PutUint64BE_get f : len f = 8 -> PutUint64BE (be_get f) = f.
Proof. intros H. rewrite <- (be_put_get f) at 2. unfold len in H. by replace (length f) with 8%nat by lia. Qed.
Lemma PutUint16LE_get f : len f = 2 -> PutUint16LE (le_get f) = f.
Proof. intros H. rewrite <- (le_put_get f) at 2. unfold len in H. by replace (length f) with 2%nat by lia. Qed.
Lemma PutUint32LE_get f : len f = 4 -> PutUint32LE (le_get f) = f.
Proof. intros H. rewrite <- (le_put_get f) at 2. unfold len in H. by replace (length f) with 4%nat by lia. Qed.
Lemma PutUint64LE_get f : len f = 8 -> PutUint64LE (le_get f) = f.
Proof. intros H. rewrite <- (le_put_get f) at 2. unfold len in H. by replace (length f) with 8%nat by lia. Qed.

Lemma be_get_u32 f : len f = 4 -> is_u32 (be_get f).
Proof. intros H. pose proof (be_get_range f) as R. rewrite H in R. exact R. Qed.
Lemma be_get_u64 f : len f = 8 -> is_u64 (be_get f).
Proof. intros H. pose proof (be_get_range f) as R. rewrite H in R. exact R. Qed.
Lemma le_get_u16 f : len f = 2 -> is_u16 (le_get f).
Proof. intros H. pose proof (le_get_range f) as R. rewrite H in R. exact R. Qed.
Lemma le_get_u32 f : len f = 4 -> is_u32 (le_get f).
Proof. intros H. pose proof (le_get_range f) as R. rewrite H in R. exact R. Qed.
Lemma le_get_u64 f : len f = 8 -> is_u64 (le_get f).
Proof. intros H. pose proof (le_get_range f) as R. rewrite H in R. exact R. Qed.

Lemma hex_bytes_encode d : hex_bytes (hex_encode d) = d.
Proof. unfold hex_bytes. by rewrite hex_decode_encode. Qed.

Lemma hex_encode_bytes s : sha256_text s = true -> hex_encode (hex_bytes s) = s.
Proof. unfold hex_bytes. by intros (d & -> & _ & ?)%sha256_text_decode. Qed.

(** The length prefix of a field that was read with that very length. *)
Lemma prefix_of_read (f s : bytes) : len f = 4 -> len s = be_get f -> PutUint32BE (u32 (len s)) = f.
Proof.
  intros Hf Hs. rewrite Hs, u32_small by (by apply be_get_u32). by apply PutUint32BE_get.
Qed.

Lemma zeros_none n : n = 0 -> zeros n = [].
Proof. by intros ->. Qed.

#[global] Opaque PutUint32BE PutUint64BE PutUint16LE PutUint32LE PutUint64LE zeros put sub.

(** Lengths of encodings. *)
Create Rewrite HintDb lens.
#[export] Hint Rewrite @len_app @len_nil @len_cons len_PutUint32BE len_PutUint64BE len_PutUint16LE
  len_PutUint32LE len_PutUint64LE : lens.

Ltac len_solve :=
  autorewrite with lens;
  repeat match goal with
  | H : len _ = _ |- _ => rewrite H
  end; try reflexivity; try lia.

(** Prove [sub lo hi (f1 ++ f2 ++ ...) = f] by walking over the fields. *)
Ltac field_skip k :=
  match goal with
  | |- sub ?lo ?hi (?f ++ ?r) = _ =>
      rewrite (sub_skip lo hi f r k) by len_solve;
      let lo' := eval vm_compute in (lo - k) in
      let hi' := eval vm_compute in (hi - k) in
      change (lo - k) with lo'; change (hi - k) with hi'
  end.
Ltac field :=
  repeat first
    [ match goal with
      | |- sub 0 _ (_ ++ _) = _ => rewrite sub_here by len_solve; reflexivity
      | |- sub 0 _ _ = _ => rewrite sub_whole by len_solve; reflexivity
      end
    | field_skip 8 | field_skip 4 | field_skip 32 | field_skip 2 ].

(** Turn a sequence of in-order [put]s into the concatenation of its fields. *)
Ltac fill_header :=
  rewrite put_first by len_solve;
  repeat (rewrite put_next by len_solve);
  rewrite zeros_none by lia; rewrite app_nil_r, <- ?app_assoc.
