(* ===== verification/GoStrings.v ===== *)
(** * [unicode/utf8], [strings], [sort.Strings] and [strconv]

    Go strings are arbitrary byte sequences; the functions below follow the
    library on invalid UTF-8 too. Only the behaviour of [strings.ToLower] and
    [strings.EqualFold] on non-ASCII text depends on the Unicode case tables,
    which are the fields of the class [Unicode]. *)

From S2P Require Import Prelude GoBytes.
From Stdlib Require Import Strings.Byte Sorting.Permutation Sorting.Sorted.

(** ** [utf8.ValidString]: the RFC 3629 table of the library. *)

Definition between (lo hi : Z) (b : byte) : bool := (lo <=? b2z b) && (b2z b <=? hi).
Definition cont (b : byte) : bool := between 128 191 b.

Definition utf8_two (a b : byte) : bool := between 194 223 a && cont b.
Definition utf8_three (a b c : byte) : bool :=
  ((between 224 224 a && between 160 191 b) || (between 225 236 a && cont b) ||
   (between 237 237 a && between 128 159 b) || (between 238 239 a && cont b)) && cont c.
Definition utf8_four (a b c d : byte) : bool :=
  ((between 240 240 a && between 144 191 b) || (between 241 243 a && cont b) ||
   (between 244 244 a && between 128 143 b)) && cont c && cont d.

Fixpoint utf8_ValidString (s : bytes) : bool :=
  match s with
  | [] => true
  | a :: s1 =>
      if b2z a <? 128 then utf8_ValidString s1 else
      match s1 with
      | [] => false
      | b :: s2 =>
          if utf8_two a b then utf8_ValidString s2 else
          match s2 with
          | [] => false
          | c :: s3 =>
              if utf8_three a b c then utf8_ValidString s3 else
              match s3 with
              | [] => false
              | d :: s4 => utf8_four a b c d && utf8_ValidString s4
              end
          end
      end
  end.

Definition is_ascii (s : bytes) : bool := forallb (fun b => b2z b <? 128) s.

Lemma ascii_valid s : is_ascii s = true -> utf8_ValidString s = true.
Proof.
  induction s as [|a s IH]; [done|]. simpl.
  destruct (b2z a <? 128); simpl; auto; discriminate.
Qed.

(** ** [strings.TrimSpace]: the encodings of the Unicode White_Space runes. *)

Definition space1 (a : byte) : bool := between 9 13 a || between 32 32 a.
Definition space2 (a b : byte) : bool :=
  between 194 194 a && (between 133 133 b || between 160 160 b).
Definition space3 (a b c : byte) : bool :=
  (between 225 225 a && between 154 154 b && between 128 128 c) ||
  (between 226 226 a && between 128 128 b &&
     (between 128 138 c || between 168 169 c || between 175 175 c)) ||
  (between 226 226 a && between 129 129 b && between 159 159 c) ||
  (between 227 227 a && between 128 128 b && between 128 128 c).

Fixpoint TrimLeftSpace (s : bytes) : bytes :=
  match s with
  | [] => []
  | a :: s1 =>
      if space1 a then TrimLeftSpace s1 else
      match s1 with
      | [] => s
      | b :: s2 =>
          if space2 a b then TrimLeftSpace s2 else
          match s2 with
          | [] => s
          | c :: s3 => if space3 a b c then TrimLeftSpace s3 else s
          end
      end
  end.

(** The same from the end: the argument is the reversed string. *)
Fixpoint TrimRightSpaceRev (s : bytes) : bytes :=
  match s with
  | [] => []
  | a :: s1 =>
      if space1 a then TrimRightSpaceRev s1 else
      match s1 with
      | [] => s
      | b :: s2 =>
          if space2 b a then TrimRightSpaceRev s2 else
          match s2 with
          | [] => s
          | c :: s3 => if space3 c b a then TrimRightSpaceRev s3 else s
          end
      end
  end.

Definition TrimSpace (s : bytes) : bytes :=
  reverse (TrimRightSpaceRev (reverse (TrimLeftSpace s))).

(** ** [strings.ContainsAny] with an ASCII set, prefixes and suffixes. *)

Definition ContainsAny (s chars : bytes) : bool :=
  existsb (fun b => bool_decide (b ∈ chars)) s.

Fixpoint HasPrefix (s prefix : bytes) : bool :=
  match prefix, s with
  | [], _ => true
  | p :: prefix', c :: s' => bool_decide (p = c) && HasPrefix s' prefix'
  | _, [] => false
  end.

Definition HasSuffix (s suffix : bytes) : bool := HasPrefix (reverse s) (reverse suffix).

Definition TrimPrefix (s prefix : bytes) : bytes :=
  if HasPrefix s prefix then drop (length prefix) s else s.
Definition TrimSuffix (s suffix : bytes) : bytes :=
  if HasSuffix s suffix then take (length s - length suffix) s else s.

Lemma HasPrefix_spec s p : HasPrefix s p = true <-> exists t, s = p ++ t.
Proof.
  revert s. induction p as [|a p IH]; intros [|c s]; cbn [HasPrefix].
  - split; [by exists []|done].
  - split; [by exists (c :: s)|done].
  - split; [done|by intros [t [=]]].
  - rewrite andb_true_iff, bool_decide_eq_true, IH. split.
    + intros [-> [t ->]]. by exists t.
    + intros [t [= -> ->]]. eauto.
Qed.

Lemma HasSuffix_spec s p : HasSuffix s p = true <-> exists t, s = t ++ p.
Proof.
  unfold HasSuffix. rewrite HasPrefix_spec. split; intros [t Ht].
  - exists (reverse t). apply (f_equal reverse) in Ht.
    by rewrite reverse_app, !reverse_involutive in Ht.
  - exists (reverse t). by rewrite Ht, reverse_app.
Qed.

Lemma TrimPrefix_app p t : TrimPrefix (p ++ t) p = t.
Proof.
  unfold TrimPrefix. rewrite (proj2 (HasPrefix_spec _ _)) by eauto.
  apply drop_app_length.
Qed.

Lemma TrimSuffix_app t p : TrimSuffix (t ++ p) p = t.
Proof.
  unfold TrimSuffix. rewrite (proj2 (HasSuffix_spec _ _)) by eauto.
  rewrite length_app, Nat.add_sub. apply take_app_length.
Qed.

(** [filepath.Base] on Unix: the last element, [.] for the empty path. *)
Fixpoint last_element (acc s : bytes) : bytes :=
  match s with
  | [] => acc
  | b :: s' => if bool_decide (b = z2b 47) then last_element [] s' else last_element (acc ++ [b]) s'
  end.
Fixpoint trim_slashes_rev (s : bytes) : bytes :=
  match s with
  | b :: s' => if bool_decide (b = z2b 47) then trim_slashes_rev s' else s
  | [] => []
  end.
Definition filepath_Base (path : bytes) : bytes :=
  if bool_decide (path = []) then bs "."
  else let e := last_element [] (reverse (trim_slashes_rev (reverse path))) in
       if bool_decide (e = []) then bs "/" else e.

(** [filepath.IsAbs], [filepath.Clean] and [filepath.Join] on Unix: the path is cut at
    the slashes and its elements are pushed on a stack. *)
Definition filepath_IsAbs (path : bytes) : bool := HasPrefix path (bs "/").

Fixpoint split_slash (acc s : bytes) : list bytes :=
  match s with
  | [] => [acc]
  | b :: s' => if bool_decide (b = z2b 47) then acc :: split_slash [] s'
               else split_slash (acc ++ [b]) s'
  end.

Definition clean_step (rooted : bool) (stack : list bytes) (element : bytes) : list bytes :=
  if bool_decide (element = []) || bool_decide (element = bs ".") then stack
  else if bool_decide (element = bs "..") then
    match stack with
    | top :: rest => if bool_decide (top = bs "..") then element :: stack else rest
    | [] => if rooted then [] else [element]
    end
  else element :: stack.

Fixpoint join_slash (elements : list bytes) : bytes :=
  match elements with
  | [] => []
  | [e] => e
  | e :: rest => e ++ bs "/" ++ join_slash rest
  end.

Definition filepath_Clean (path : bytes) : bytes :=
  let rooted := filepath_IsAbs path in
  let out := join_slash (reverse (foldl (clean_step rooted) [] (split_slash [] path))) in
  if rooted then bs "/" ++ out
  else if bool_decide (out = []) then bs "." else out.

Definition filepath_Join (a b : bytes) : bytes :=
  if bool_decide (a = []) then (if bool_decide (b = []) then [] else filepath_Clean b)
  else if bool_decide (b = []) then filepath_Clean a
  else filepath_Clean (a ++ bs "/" ++ b).

(** [filepath.Dir]: everything up to the last slash, cleaned. *)
Fixpoint drop_element_rev (s : bytes) : bytes :=
  match s with
  | b :: s' => if bool_decide (b = z2b 47) then s else drop_element_rev s'
  | [] => []
  end.
Definition filepath_Dir (path : bytes) : bytes := filepath_Clean (reverse (drop_element_rev (reverse path))).

Example dir_example :
  filepath_Dir (bs "/srv/fi/x.figt") = bs "/srv/fi" /\ filepath_Dir (bs "x") = bs "." /\
  filepath_Dir (bs "/x") = bs "/" /\ filepath_Dir (bs "/srv/fi/") = bs "/srv/fi".
Proof. repeat split. Qed.

Example clean_example :
  filepath_Clean (bs "/srv//fi/./x/../custody/") = bs "/srv/fi/custody" /\
  filepath_Clean (bs "../a/../..") = bs "../.." /\ filepath_Clean (bs "/..") = bs "/".
Proof. repeat split. Qed.

Lemma last_element_plain acc s :
  existsb (fun b => bool_decide (b = z2b 47)) s = false -> last_element acc s = acc ++ s.
Proof.
  revert acc. induction s as [|b s IH]; intros acc; [by rewrite app_nil_r|].
  cbn [existsb last_element]. intros [Hb Hs]%orb_false. rewrite Hb, IH by done.
  by rewrite <- app_assoc.
Qed.

(** A path element that names an entry of a directory. *)
Definition plain_element (name : bytes) : Prop :=
  existsb (fun b => bool_decide (b = z2b 47)) name = false /\ name <> [] /\ name <> bs "." /\ name <> bs "..".

Lemma last_element_slash acc y name : last_element acc (y ++ bs "/" ++ name) = last_element [] name.
Proof. revert acc. induction y as [|b y IH]; intros acc; [done|]. cbn [app last_element]. by destruct (bool_decide _). Qed.

Lemma Base_element y name : plain_element name -> filepath_Base (y ++ bs "/" ++ name) = name.
Proof.
  intros (Hs & Hn & _). unfold filepath_Base. rewrite bool_decide_eq_false_2 by (by destruct y).
  assert (trim_slashes_rev (reverse (y ++ bs "/" ++ name)) = reverse (y ++ bs "/" ++ name)) as ->.
  { destruct name as [|b name _] using rev_ind; [done|]. rewrite !app_assoc, reverse_snoc. cbn [trim_slashes_rev].
    rewrite existsb_app in Hs. apply orb_false in Hs as [_ Hs]. cbn in Hs. by destruct (bool_decide _). }
  rewrite reverse_involutive, last_element_slash, last_element_plain by done. cbn.
  by rewrite bool_decide_eq_false_2.
Qed.

Lemma split_slash_app acc y s : split_slash acc (y ++ bs "/" ++ s) = split_slash acc y ++ split_slash [] s.
Proof. revert acc. induction y as [|b y IH]; intros acc; [done|]. cbn [app split_slash]. destruct (bool_decide _); [cbn; by rewrite IH|by apply IH]. Qed.
Lemma split_slash_plain acc s :
  existsb (fun b => bool_decide (b = z2b 47)) s = false -> split_slash acc s = [acc ++ s].
Proof.
  revert acc. induction s as [|b s IH]; intros acc; [by rewrite app_nil_r|]. cbn [existsb split_slash].
  intros [Hb Hs]%orb_false. rewrite Hb, IH by done. by rewrite <- app_assoc.
Qed.

Lemma join_slash_snoc es name : exists y, bs "/" ++ join_slash (es ++ [name]) = y ++ bs "/" ++ name.
Proof.
  induction es as [|e es (y & IH)]; [by exists []|]. destruct es as [|e' es].
  - exists (bs "/" ++ e). cbn [app join_slash]. by rewrite <- !app_assoc.
  - exists (bs "/" ++ e ++ y). change (join_slash ((e :: e' :: es) ++ [name])) with (e ++ bs "/" ++ join_slash ((e' :: es) ++ [name])).
    rewrite IH. by rewrite <- !app_assoc.
Qed.

Lemma Clean_element p name :
  plain_element name -> filepath_IsAbs (p ++ bs "/" ++ name) = true ->
  exists y, filepath_Clean (p ++ bs "/" ++ name) = y ++ bs "/" ++ name.
Proof.
  intros (Hs & Hn & Hd & Hdd) Ha. unfold filepath_Clean. rewrite Ha, split_slash_app, (split_slash_plain [] name) by done.
  rewrite foldl_app. cbn [app foldl]. unfold clean_step at 1.
  rewrite !bool_decide_eq_false_2 by done. cbn [orb]. rewrite reverse_cons. apply join_slash_snoc.
Qed.

Lemma Clean_abs p : filepath_IsAbs p = true -> filepath_IsAbs (filepath_Clean p) = true.
Proof. intros Ha. unfold filepath_Clean. rewrite Ha. apply HasPrefix_spec. eauto. Qed.

(** The entry a joined path names. *)
Lemma Join_element root name :
  plain_element name -> filepath_IsAbs root = true ->
  filepath_Base (filepath_Join root name) = name /\ filepath_Base (filepath_Clean (filepath_Join root name)) = name.
Proof.
  intros Hp Ha. assert (root <> []) as Hr by (by intros ->). unfold filepath_Join.
  rewrite bool_decide_eq_false_2, bool_decide_eq_false_2 by (apply Hp || done).
  assert (filepath_IsAbs (root ++ bs "/" ++ name) = true) as Ha'.
  { apply HasPrefix_spec in Ha as [t ->]. apply HasPrefix_spec. rewrite <- app_assoc. eauto. }
  destruct (Clean_element root name Hp Ha') as [y Hy]. split; [rewrite Hy; by apply Base_element|].
  pose proof (Clean_abs _ Ha') as Hc. rewrite Hy in *. destruct (Clean_element y name Hp Hc) as [z ->].
  by apply Base_element.
Qed.

(** ** Letter case *)

Class Unicode := {
  (** [strings.Map(unicode.ToLower, s)], reached when [s] has a non-ASCII byte. *)
  unicode_ToLower : bytes -> bytes;
  (** The [hasUnicode] loop of [strings.EqualFold]. *)
  unicode_EqualFold : bytes -> bytes -> bool
}.

Definition lower_byte (b : byte) : byte :=
  if between 65 90 b then z2b (b2z b + 32) else b.

Section Case.
Context `{Unicode}.

Definition ToLower (s : bytes) : bytes :=
  if is_ascii s then lower_byte <$> s else unicode_ToLower s.

Fixpoint EqualFold (s t : bytes) : bool :=
  match s, t with
  | [], [] => true
  | a :: s', b :: t' =>
      if (128 <=? b2z a) || (128 <=? b2z b) then unicode_EqualFold s t
      else bool_decide (lower_byte a = lower_byte b) && EqualFold s' t'
  | _, _ => false
  end.

Lemma EqualFold_refl s : is_ascii s = true -> EqualFold s s = true.
Proof.
  induction s as [|a s IH]; [done|]. simpl. intros [Ha Hs]%andb_prop.
  replace (128 <=? b2z a) with false by lia. simpl.
  rewrite bool_decide_true by done. by apply IH.
Qed.
End Case.

Lemma lower_hex_lower b : lower_hex b = true -> lower_byte b = b.
Proof. byte_cases b. Qed.

Lemma lower_hex_ascii b : lower_hex b = true -> (b2z b <? 128) = true.
Proof. byte_cases b. Qed.

Lemma lower_fold_digit b :
  fromHexChar b <> None -> lower_byte b = b -> lower_hex b = true.
Proof. byte_cases b. Qed.

Lemma fromHexChar_ascii b : fromHexChar b <> None -> (b2z b <? 128) = true.
Proof. byte_cases b. Qed.

Lemma hex_decode_digits s d :
  hex_decode s = Ok d -> List.Forall (fun b => fromHexChar b <> None) s.
Proof.
  revert d. induction s as [|a|a b s IH] using list_pair_ind; intros d H;
    [constructor|discriminate|].
  cbn [hex_decode] in H. destruct (fromHexChar a) eqn:Ea, (fromHexChar b) eqn:Eb; try discriminate H.
  res_inv H. repeat constructor; [congruence..|eauto].
Qed.

(** The validators that compare with [strings.ToLower] and then decode accept
    exactly the lowercase digests; what [strings.ToLower] does beyond ASCII does
    not matter, since such text never decodes. *)
Lemma ToLower_hex `{Unicode} s :
  forallb lower_hex s = true -> ToLower s = s.
Proof.
  intros Hs. unfold ToLower.
  replace (is_ascii s) with true.
  - induction s as [|a s IH]; [done|]. simpl in Hs. apply andb_prop in Hs as [Ha Hs].
    rewrite fmap_cons. f_equal; auto using lower_hex_lower.
  - symmetry. unfold is_ascii. apply forallb_forall. intros b Hb.
    rewrite forallb_forall in Hs. by apply lower_hex_ascii, Hs.
Qed.

Lemma ToLower_decode `{Unicode} s d :
  ToLower s = s -> hex_decode s = Ok d -> forallb lower_hex s = true.
Proof.
  intros Hl Hd%hex_decode_digits. unfold ToLower in Hl.
  replace (is_ascii s) with true in Hl.
  - induction Hd as [|a s Ha Hd IH]; [done|]. rewrite fmap_cons in Hl. injection Hl as Hl1 Hl2.
    simpl. rewrite lower_fold_digit by done. auto.
  - symmetry. unfold is_ascii. apply forallb_forall. intros b Hb.
    rewrite List.Forall_forall in Hd. by apply fromHexChar_ascii, Hd.
Qed.

(** ** Order of strings and [sort.Strings] *)

Fixpoint bytes_ltb (s t : bytes) : bool :=
  match s, t with
  | _, [] => false
  | [], _ :: _ => true
  | a :: s', b :: t' => (b2z a <? b2z b) || ((b2z a =? b2z b) && bytes_ltb s' t')
  end.
Definition bytes_leb (s t : bytes) : bool := negb (bytes_ltb t s).

Lemma bytes_ltb_irrefl s : bytes_ltb s s = false.
Proof. induction s as [|a s IH]; [done|]. simpl. rewrite IH. lia. Qed.

Lemma bytes_ltb_trans s t u :
  bytes_ltb s t = true -> bytes_ltb t u = true -> bytes_ltb s u = true.
Proof.
  revert t u. induction s as [|a s IH]; intros [|b t] [|c u]; simpl; try done.
  rewrite !orb_true_iff, !andb_true_iff, !Z.ltb_lt, !Z.eqb_eq.
  intros [?|[? ?]] [?|[? ?]]; [left; lia..|right]. split; [lia|eauto].
Qed.

Lemma bytes_ltb_total s t : bytes_ltb s t = true \/ s = t \/ bytes_ltb t s = true.
Proof.
  revert t. induction s as [|a s IH]; intros [|b t]; simpl; auto.
  destruct (Z.lt_trichotomy (b2z a) (b2z b)) as [?|[E|?]]; [left; lia| |right; right; lia].
  apply b2z_inj in E. subst b. rewrite Z.ltb_irrefl, Z.eqb_refl. simpl.
  destruct (IH t) as [?|[->|?]]; auto.
Qed.

Lemma bytes_leb_trans s t u :
  bytes_leb s t = true -> bytes_leb t u = true -> bytes_leb s u = true.
Proof.
  unfold bytes_leb. rewrite !negb_true_iff. intros H1 H2.
  destruct (bytes_ltb u s) eqn:E; [|done].
  destruct (bytes_ltb_total t u) as [H|[->|H]]; [|congruence..].
  rewrite (bytes_ltb_trans t u s) in H1; congruence.
Qed.

Lemma bytes_ltb_leb s t : bytes_ltb s t = true <-> bytes_leb s t = true /\ s <> t.
Proof.
  unfold bytes_leb. rewrite negb_true_iff. split.
  - intros H. split; [|intros ->; by rewrite bytes_ltb_irrefl in H].
    destruct (bytes_ltb t s) eqn:E; [|done].
    pose proof (bytes_ltb_trans _ _ _ H E). by rewrite bytes_ltb_irrefl in *.
  - intros [H1 H2]. destruct (bytes_ltb_total s t) as [?|[?|?]]; congruence.
Qed.

(** [sort.Strings]; the sorted permutation of a list of strings is unique, so
    any sorting algorithm has the library's result. *)
Fixpoint insert_string (x : bytes) (l : list bytes) : list bytes :=
  match l with
  | [] => [x]
  | y :: l' => if bytes_leb x y then x :: l else y :: insert_string x l'
  end.
Definition sort_Strings (l : list bytes) : list bytes := foldr insert_string [] l.

Lemma insert_string_perm x l : Permutation (insert_string x l) (x :: l).
Proof.
  induction l as [|y l IH]; simpl; [done|].
  destruct (bytes_leb x y); [done|]. by rewrite IH, perm_swap.
Qed.

Lemma sort_Strings_perm l : Permutation (sort_Strings l) l.
Proof.
  unfold sort_Strings. induction l as [|x l IH]; simpl; [done|].
  by rewrite insert_string_perm, IH.
Qed.

Definition sorted_strings : list bytes -> Prop :=
  StronglySorted (fun s t => bytes_leb s t = true).

Lemma insert_string_sorted x l : sorted_strings l -> sorted_strings (insert_string x l).
Proof.
  unfold sorted_strings. induction 1 as [|y l Hs IH Hy]; simpl.
  - repeat constructor.
  - destruct (bytes_leb x y) eqn:E.
    + constructor; [by constructor|]. constructor; [done|].
      eapply List.Forall_impl; [|exact Hy]. eauto using bytes_leb_trans.
    + constructor; [done|]. rewrite insert_string_perm. constructor; [|done].
      unfold bytes_leb in *. apply negb_false_iff in E. apply negb_true_iff.
      destruct (bytes_ltb x y) eqn:E'; [|done].
      pose proof (bytes_ltb_trans _ _ _ E E'). by rewrite bytes_ltb_irrefl in *.
Qed.

Lemma sort_Strings_sorted l : sorted_strings (sort_Strings l).
Proof.
  unfold sort_Strings. induction l; simpl; [constructor|by apply insert_string_sorted].
Qed.

(** Strictly increasing lists: what sorting gives on distinct names. *)
Definition strictly_sorted : list bytes -> Prop :=
  StronglySorted (fun s t => bytes_ltb s t = true).

Lemma sorted_nodup_strict l : sorted_strings l -> NoDup l -> strictly_sorted l.
Proof.
  unfold sorted_strings, strictly_sorted.
  induction 1 as [|y l Hs IH Hy]; intros Hd; constructor.
  - apply IH. by inversion Hd.
  - inversion Hd as [|? ? Hn Hd']; subst. rewrite List.Forall_forall in *.
    intros z Hz. apply bytes_ltb_leb. split; [by apply Hy|].
    intros ->. apply Hn. by apply list_elem_of_In.
Qed.

(** Case tables for pure ASCII text, used to run the model on examples: a
    non-ASCII string is its own lowercase form and folds only to itself. *)
Definition asciiUnicode : Unicode := {|
  unicode_ToLower := fun s => s;
  unicode_EqualFold := fun s t => bool_decide (s = t)
|}.
