(* ===== verification/Sha256.v ===== *)
(** * [crypto/sha256]

    The FIPS 180-4 algorithm on byte sequences, executable, with the standard
    test vectors. The transport code uses [sha256.Sum256], and [sha256.New]
    fed by [Write]/[TeeReader]; the digest of the written bytes is [sha256]. *)

From S2P Require Import Prelude GoBytes.

Module Sha.

Definition K : list Z :=
  [1116352408; 1899447441; 3049323471; 3921009573; 961987163; 1508970993;
   2453635748; 2870763221; 3624381080; 310598401; 607225278; 1426881987;
   1925078388; 2162078206; 2614888103; 3248222580; 3835390401; 4022224774;
   264347078; 604807628; 770255983; 1249150122; 1555081692; 1996064986;
   2554220882; 2821834349; 2952996808; 3210313671; 3336571891; 3584528711;
   113926993; 338241895; 666307205; 773529912; 1294757372; 1396182291;
   1695183700; 1986661051; 2177026350; 2456956037; 2730485921; 2820302411;
   3259730800; 3345764771; 3516065817; 3600352804; 4094571909; 275423344;
   430227734; 506948616; 659060556; 883997877; 958139571; 1322822218;
   1537002063; 1747873779; 1955562222; 2024104815; 2227730452; 2361852424;
   2428436474; 2756734187; 3204031479; 3329325298].

Definition H0 : list Z :=
  [1779033703; 3144134277; 1013904242; 2773480762;
   1359893119; 2600822924; 528734635; 1541459225].

Definition mask : Z := 4294967295.
Definition add32 (x y : Z) : Z := Z.land (x + y) mask.
Definition rotr (n x : Z) : Z :=
  Z.lor (Z.shiftr x n) (Z.land (Z.shiftl x (32 - n)) mask).
Definition xor3 (x y z : Z) : Z := Z.lxor x (Z.lxor y z).

Definition ch (x y z : Z) : Z := Z.lxor (Z.land x y) (Z.land (Z.lxor x mask) z).
Definition maj (x y z : Z) : Z := xor3 (Z.land x y) (Z.land x z) (Z.land y z).
Definition bsig0 (x : Z) : Z := xor3 (rotr 2 x) (rotr 13 x) (rotr 22 x).
Definition bsig1 (x : Z) : Z := xor3 (rotr 6 x) (rotr 11 x) (rotr 25 x).
Definition ssig0 (x : Z) : Z := xor3 (rotr 7 x) (rotr 18 x) (Z.shiftr x 3).
Definition ssig1 (x : Z) : Z := xor3 (rotr 17 x) (rotr 19 x) (Z.shiftr x 10).

(** The message schedule, most recent word first. *)
Fixpoint extend (n : nat) (w : list Z) : list Z :=
  match n with
  | O => w
  | S n' =>
      let t := add32 (add32 (ssig1 (nth 1 w 0)) (nth 6 w 0))
                     (add32 (ssig0 (nth 14 w 0)) (nth 15 w 0)) in
      extend n' (t :: w)
  end.

Fixpoint words (s : bytes) : list Z :=
  match s with
  | a :: b :: c :: d :: s' => be_get [a; b; c; d] :: words s'
  | _ => []
  end.

Definition schedule (block : bytes) : list Z :=
  reverse (extend 48 (reverse (words block))).

Definition round (st : list Z) (kw : Z * Z) : list Z :=
  match st with
  | [a; b; c; d; e; f; g; h] =>
      let t1 := add32 (add32 h (bsig1 e)) (add32 (ch e f g) (add32 kw.1 kw.2)) in
      let t2 := add32 (bsig0 a) (maj a b c) in
      [add32 t1 t2; a; b; c; add32 d t1; e; f; g]
  | _ => st
  end.

Definition compress (h : list Z) (block : bytes) : list Z :=
  zip_with add32 h (fold_left round (zip K (schedule block)) h).

Definition pad (s : bytes) : bytes :=
  s ++ [z2b 128] ++ replicate (Z.to_nat ((55 - len s) mod 64)) (z2b 0)
    ++ be_put 8 (8 * len s).

Fixpoint blocks (fuel : nat) (s : bytes) : list bytes :=
  match fuel, s with
  | S f, _ :: _ => take 64 s :: blocks f (drop 64 s)
  | _, _ => []
  end.

Definition digest (s : bytes) : bytes :=
  let p := pad s in
  let h := fold_left compress (blocks (length p) p) H0 in
  flat_map (be_put 4) (take 8 (h ++ H0)).

End Sha.

(** [sha256.Sum256]. *)
Definition sha256 (s : bytes) : bytes := Sha.digest s.

Lemma length_join_be_put l : length (flat_map (be_put 4) l) = (4 * length l)%nat.
Proof.
  induction l as [|x l IH]; [done|].
  cbn [flat_map]. rewrite length_app, IH, length_be_put. simpl. lia.
Qed.

Lemma sha256_length s : length (sha256 s) = 32%nat.
Proof.
  unfold sha256, Sha.digest. rewrite length_join_be_put, length_take, length_app.
  change (length Sha.H0) with 8%nat. lia.
Qed.

Lemma sha256_len s : len (sha256 s) = 32.
Proof. unfold len. by rewrite sha256_length. Qed.

Example sha256_empty :
  hex_encode (sha256 []) =
  bs "e3b0c44298fc1c149afbf4c8996fb92427ae41e4649b934ca495991b7852b855".
Proof. vm_compute. reflexivity. Qed.

Example sha256_abc :
  hex_encode (sha256 (bs "abc")) =
  bs "ba7816bf8f01cfea414140de5dae2223b00361a396177a9cb410ff61f20015ad".
Proof. vm_compute. reflexivity. Qed.

Example sha256_two_blocks :
  hex_encode (sha256 (bs "abcdbcdecdefdefgefghfghighijhijkijkljklmklmnlmnomnopnopq")) =
  bs "248d6a61d20638b8e5c026930c3e6039a33ce45964ff2167f6ecedd419db06c1".
Proof. vm_compute. reflexivity. Qed.

(** [hex.EncodeToString(digest[:])]. *)
Definition sha256_hex (s : bytes) : bytes := hex_encode (sha256 s).

Lemma sha256_hex_text s : sha256_text (sha256_hex s) = true.
Proof. apply sha256_text_encode, sha256_len. Qed.

#[global] Opaque sha256 sha256_hex.
