(* ===== verification/GoText.v ===== *)
(** * Numbers, base64 and times as text

    The parts of [strconv], [encoding/base64] and [time] the collector uses: canonical
    decimals, unpadded base64url and the two timestamp layouts, each with its round trip. *)

From S2P Require Import Prelude GoBytes GoStrings.
From Stdlib Require Import Strings.Byte.

(** ** [strconv] in base ten *)

Definition ErrSyntax : error := Sentinel "invalid syntax".
Definition ErrRange : error := Sentinel "value out of range".

Definition dec_digit (n : Z) : byte := z2b (48 + n).
Definition fromDecChar (c : byte) : option Z :=
  if between 48 57 c then Some (b2z c - 48) else None.

(** The digits of a number, the last one first; an unsigned 64-bit number has at most
    twenty. *)
Fixpoint dec_rev (fuel : nat) (n : Z) : bytes :=
  match fuel with
  | O => []
  | S fuel => dec_digit (n mod 10) :: if n <? 10 then [] else dec_rev fuel (n / 10)
  end.
Definition FormatUint (n : Z) : bytes := reverse (dec_rev 20 n).

(** The loop of [ParseUint]: the product and the sum wrap, and each wrap is detected. *)
Fixpoint parseDigits (maxVal n : Z) (s : bytes) : res Z :=
  match s with
  | [] => Ok n
  | c :: s =>
      match fromDecChar c with
      | None => Err ErrSyntax
      | Some d =>
          fail? (max_u64 / 10 + 1 <=? n) with ErrRange ;;
          let n := u64 (n * 10) in
          let n1 := u64 (n + d) in
          fail? (n1 <? n) || (maxVal <? n1) with ErrRange ;;
          parseDigits maxVal n1 s
      end
  end.
Definition ParseUint (s : bytes) (bitSize : Z) : res Z :=
  fail? bool_decide (s = []) with ErrSyntax ;;
  parseDigits (2 ^ bitSize - 1) 0 s.

(** The number a run of digits denotes, after [n]. *)
Definition decimal (n : Z) (s : bytes) : Z := fold_left (fun n c => 10 * n + (b2z c - 48)) s n.
Definition all_digits (s : bytes) : bool := forallb (between 48 57) s.

Lemma fromDecChar_digit c d : fromDecChar c = Some d -> between 48 57 c = true /\ d = b2z c - 48 /\ 0 <= d <= 9.
Proof.
  unfold fromDecChar. destruct (between 48 57 c) eqn:E; [|done]. intros [= <-]. split_and!; [done|done|..];
    unfold between in E; bool_hyps; lia.
Qed.

Lemma decimal_ge n s : 0 <= n -> all_digits s = true -> n <= decimal n s.
Proof.
  revert n. induction s as [|c s IH]; cbn [decimal fold_left all_digits forallb]; intros n Hn Hs; [lia|].
  apply andb_prop in Hs as [Hc Hs]. unfold between in Hc. bool_hyps. etrans; [|apply IH; [lia|done]]. lia.
Qed.

Lemma decimal_app n s t : decimal n (s ++ t) = decimal (decimal n s) t.
Proof. apply fold_left_app. Qed.

(** [ParseUint] reads exactly the digit strings whose number fits. *)
Lemma parseDigits_spec maxVal n s v :
  0 <= n <= maxVal -> maxVal <= max_u64 ->
  parseDigits maxVal n s = Ok v <-> all_digits s = true /\ v = decimal n s /\ v <= maxVal.
Proof.
  revert n. induction s as [|c s IH]; intros n Hn Hm; cbn [parseDigits all_digits forallb decimal fold_left].
  { split; [intros [= <-]; lia|]. by intros (_ & -> & _). }
  unfold fromDecChar. destruct (between 48 57 c) eqn:Ec; cbn [andb]; [|split; [done|by intros [? _]]].
  unfold between in Ec. bool_hyps. fold (all_digits s). fold (decimal (10 * n + (b2z c - 48)) s).
  unfold max_u64 in *. change ((2 ^ 64 - 1) / 10 + 1) with 1844674407370955162.
  destruct (Z.leb_spec 1844674407370955162 n) as [Hbig|Hsmall].
  { split; [done|]. intros (Hs & -> & Hv). pose proof (decimal_ge (10 * n + (b2z c - 48)) s ltac:(lia) Hs). lia. }
  rewrite (u64_small (n * 10)) by (unfold is_u64; lia).
  destruct (Z.le_gt_cases (10 * n + (b2z c - 48)) maxVal) as [Hle|Hgt].
  - rewrite u64_small by (unfold is_u64; lia).
    rewrite (proj2 (Z.ltb_ge _ _)), (proj2 (Z.ltb_ge _ _)) by lia. cbn [orb].
    replace (n * 10 + (b2z c - 48)) with (10 * n + (b2z c - 48)) by lia. apply IH; lia.
  - assert (((u64 (n * 10 + (b2z c - 48)) <? n * 10) || (maxVal <? u64 (n * 10 + (b2z c - 48)))) = true) as ->.
    { apply orb_true_iff. destruct (Z.lt_ge_cases (n * 10 + (b2z c - 48)) (2 ^ 64)).
      - right. rewrite u64_small by (unfold is_u64; lia). apply Z.ltb_lt. lia.
      - left. unfold u64. rewrite <- (Z_mod_plus_full _ (-1)), Z.mod_small by lia. apply Z.ltb_lt. lia. }
    split; [done|]. intros (Hs & -> & Hv). pose proof (decimal_ge (10 * n + (b2z c - 48)) s ltac:(lia) Hs). lia.
Qed.

Lemma ParseUint_spec s bits v : 0 <= bits <= 64 ->
  ParseUint s bits = Ok v <-> s <> [] /\ all_digits s = true /\ v = decimal 0 s /\ v < 2 ^ bits.
Proof.
  intros Hb. unfold ParseUint. assert (0 < 2 ^ bits <= 2 ^ 64) as Hp by (split; [|apply Z.pow_le_mono_r]; lia).
  case_bool_decide as E; [split; [done|by intros [? _]]|].
  rewrite parseDigits_spec by (unfold max_u64; lia). split; [intros (? & ? & ?)|intros (_ & ? & ? & ?)]; split_and!; try done; lia.
Qed.

(** ** Printing is canonical *)

Lemma dec_digit_between n : 0 <= n <= 9 -> between 48 57 (dec_digit n) = true /\ b2z (dec_digit n) = 48 + n.
Proof. intros. unfold dec_digit, between. rewrite b2z_z2b_small by lia. lia. Qed.

Lemma decimal_dec_rev fuel n :
  0 <= n < 10 ^ Z.of_nat fuel -> (0 < fuel)%nat ->
  all_digits (reverse (dec_rev fuel n)) = true /\ decimal 0 (reverse (dec_rev fuel n)) = n /\
  dec_rev fuel n <> [] /\ (n = 0 \/ exists c s, reverse (dec_rev fuel n) = c :: s /\ between 49 57 c = true).
Proof.
  revert n. induction fuel as [|fuel IH]; [lia|]. intros n Hn _. cbn [dec_rev].
  pose proof (Z.mod_pos_bound n 10 ltac:(lia)). destruct (dec_digit_between (n mod 10)) as [Hd Hv]; [lia|].
  destruct (Z.ltb_spec n 10) as [Hs|Hb].
  - rewrite Z.mod_small in * by lia. cbn. rewrite Hd. split_and!; [done|lia|done|].
    destruct (decide (n = 0)) as [->|]; [by left|right]. exists (dec_digit n), []. split; [done|].
    unfold between. rewrite Hv. lia.
  - assert (0 < fuel)%nat as Hf by (destruct fuel; [cbn in Hn; lia|lia]).
    rewrite Nat2Z.inj_succ, Z.pow_succ_r in Hn by lia.
    destruct (IH (n / 10)) as (Ha & Hdec & Hne & Hfirst);
      [split; [apply Z.div_pos; lia|apply Z.div_lt_upper_bound; lia]|done|].
    rewrite reverse_cons. unfold all_digits in *. rewrite forallb_app, Ha, decimal_app, Hdec. cbn. rewrite Hd, Hv.
    split_and!; [done|pose proof (Z.div_mod n 10); lia|done|]. right.
    destruct Hfirst as [H0|(c & s & -> & Hc)]; [|by exists c, (s ++ [dec_digit (n mod 10)])].
    exfalso. assert (1 <= n / 10) by (apply Z.div_le_lower_bound; lia). lia.
Qed.

Lemma FormatUint_digits n : is_u64 n ->
  all_digits (FormatUint n) = true /\ decimal 0 (FormatUint n) = n /\ FormatUint n <> [].
Proof.
  intros Hn. unfold is_u64 in Hn. destruct (decimal_dec_rev 20 n) as (Ha & Hd & Hne & _); [lia|lia|]. unfold FormatUint. split_and!; [done|done|].
  intros E. apply Hne. by rewrite <- (reverse_involutive (dec_rev 20 n)), E.
Qed.

Lemma FormatUint_first n : is_u64 n -> n = 0 \/ exists c s, FormatUint n = c :: s /\ between 49 57 c = true.
Proof. unfold is_u64. intros Hn. by apply decimal_dec_rev; lia. Qed.

Lemma ParseUint_FormatUint n bits : 0 <= bits <= 64 -> 0 <= n < 2 ^ bits -> ParseUint (FormatUint n) bits = Ok n.
Proof.
  intros Hb Hn. assert (2 ^ bits <= 2 ^ 64) by (apply Z.pow_le_mono_r; lia).
  destruct (FormatUint_digits n) as (? & ? & ?); [unfold is_u64; lia|]. apply ParseUint_spec; [done|]. split_and!; try done; lia.
Qed.

(** The digits of a number are unique: a run of digits without a leading zero is what
    [FormatUint] prints. *)
Lemma decimal_snoc n s c : decimal n (s ++ [c]) = 10 * decimal n s + (b2z c - 48).
Proof. by rewrite decimal_app. Qed.

Lemma decimal_pos c s : all_digits (c :: s) = true -> between 49 57 c = true -> 1 <= decimal 0 (c :: s).
Proof.
  cbn [all_digits forallb decimal fold_left]. intros Hs Hc. apply andb_prop in Hs as [_ Hs]. unfold between in Hc. bool_hyps.
  etrans; [|apply (decimal_ge (10 * 0 + (b2z c - 48)) s); [lia|done]]. lia.
Qed.

Lemma dec_rev_decimal c s fuel :
  all_digits (c :: s) = true -> between 49 57 c = true ->
  decimal 0 (c :: s) < 10 ^ Z.of_nat fuel -> reverse (dec_rev fuel (decimal 0 (c :: s))) = c :: s.
Proof.
  revert fuel. induction s as [|d s IH] using rev_ind; intros fuel Hs Hc Hlt;
    pose proof (decimal_pos _ _ Hs Hc) as Hpos; (destruct fuel as [|fuel]; [cbn [Z.of_nat Z.pow] in Hlt; lia|]).
  - unfold between in Hc. bool_hyps. unfold decimal in *. cbn [fold_left] in *. cbn [dec_rev].
    rewrite (proj2 (Z.ltb_lt _ _)), Z.mod_small by lia. cbn. unfold dec_digit.
    replace (48 + (10 * 0 + (b2z c - 48))) with (b2z c) by lia. by rewrite z2b_b2z.
  - rewrite app_comm_cons in *. unfold all_digits in Hs. rewrite forallb_app in Hs. apply andb_prop in Hs as [Hs Hd].
    cbn in Hd. rewrite andb_true_r in Hd. rewrite decimal_snoc in Hlt |- *. pose proof (decimal_pos _ _ Hs Hc) as H1.
    assert (48 <= b2z d <= 57) as Hdr by (unfold between in Hd; bool_hyps; lia). cbn [dec_rev].
    replace ((10 * decimal 0 (c :: s) + (b2z d - 48)) mod 10) with (b2z d - 48)
      by (rewrite Z.add_comm, Z.mul_comm, Z_mod_plus_full, Z.mod_small; lia).
    replace ((10 * decimal 0 (c :: s) + (b2z d - 48)) / 10) with (decimal 0 (c :: s))
      by (rewrite Z.add_comm, Z.mul_comm, Z.div_add, Z.div_small; lia).
    rewrite (proj2 (Z.ltb_ge _ _)) by lia. rewrite reverse_cons, IH; [|done|done|
      rewrite Nat2Z.inj_succ, Z.pow_succ_r in Hlt by lia; lia].
    unfold dec_digit. replace (48 + (b2z d - 48)) with (b2z d) by lia. by rewrite z2b_b2z.
Qed.

Lemma FormatUint_unique c s :
  all_digits (c :: s) = true -> between 49 57 c = true -> decimal 0 (c :: s) < 2 ^ 64 ->
  FormatUint (decimal 0 (c :: s)) = c :: s.
Proof. intros Hs Hc Hlt. apply dec_rev_decimal; [done|done|]. etrans; [exact Hlt|]. reflexivity. Qed.

(** ** [base64.RawURLEncoding] *)

(** [encodeURL] and its inverse, [decodeMap]. *)
Definition b64_char (n : Z) : byte :=
  z2b (if n <? 26 then 65 + n else if n <? 52 then 71 + n else if n <? 62 then n - 4
       else if n =? 62 then 45 else 95).
Definition b64_index (c : byte) : option Z :=
  if between 65 90 c then Some (b2z c - 65)
  else if between 97 122 c then Some (b2z c - 71)
  else if between 48 57 c then Some (b2z c + 4)
  else if between 45 45 c then Some 62
  else if between 95 95 c then Some 63 else None.

(** The six-bit group of a 24-bit value that starts at bit [i]. *)
Definition sextet (val i : Z) : byte := b64_char (Z.land (Z.shiftr val i) 63).

(** [EncodeToString]: three bytes a step, the last group unpadded. *)
Fixpoint b64_encode (s : bytes) : bytes :=
  match s with
  | a :: b :: c :: s =>
      let val := Z.lor (Z.lor (Z.shiftl (b2z a) 16) (Z.shiftl (b2z b) 8)) (b2z c) in
      sextet val 18 :: sextet val 12 :: sextet val 6 :: sextet val 0 :: b64_encode s
  | [a; b] =>
      let val := Z.lor (Z.shiftl (b2z a) 16) (Z.shiftl (b2z b) 8) in
      [sextet val 18; sextet val 12; sextet val 6]
  | [a] => let val := Z.shiftl (b2z a) 16 in [sextet val 18; sextet val 12]
  | [] => []
  end.

Definition CorruptInputError : error := Errorf "illegal base64 data at input byte %d".

(** The decoder on the characters that are not line breaks: four characters a step; the
    strict one requires the unused bits of the last group to be zero. *)
Fixpoint b64_groups (strict : bool) (s : bytes) : res bytes :=
  match s with
  | [] => Ok []
  | [_] => Err CorruptInputError
  | [a; b] =>
      match b64_index a, b64_index b with
      | Some a, Some b =>
          let val := Z.lor (Z.shiftl a 18) (Z.shiftl b 12) in
          fail? strict && negb (Z.land (Z.shiftr val 8) 255 =? 0) with CorruptInputError ;;
          Ok [z2b (Z.shiftr val 16)]
      | _, _ => Err CorruptInputError
      end
  | [a; b; c] =>
      match b64_index a, b64_index b, b64_index c with
      | Some a, Some b, Some c =>
          let val := Z.lor (Z.lor (Z.shiftl a 18) (Z.shiftl b 12)) (Z.shiftl c 6) in
          fail? strict && negb (Z.land val 255 =? 0) with CorruptInputError ;;
          Ok [z2b (Z.shiftr val 16); z2b (Z.shiftr val 8)]
      | _, _, _ => Err CorruptInputError
      end
  | a :: b :: c :: d :: s =>
      match b64_index a, b64_index b, b64_index c, b64_index d with
      | Some a, Some b, Some c, Some d =>
          let val := Z.lor (Z.lor (Z.lor (Z.shiftl a 18) (Z.shiftl b 12)) (Z.shiftl c 6)) d in
          let? t := b64_groups strict s in
          Ok (z2b (Z.shiftr val 16) :: z2b (Z.shiftr val 8) :: z2b val :: t)
      | _, _, _, _ => Err CorruptInputError
      end
  end.
Definition line_break (c : byte) : bool := between 10 10 c || between 13 13 c.
Definition b64_decode (strict : bool) (s : bytes) : res bytes :=
  b64_groups strict (List.filter (fun c => negb (line_break c)) s).

Lemma list_triple_ind {A} (P : list A -> Prop) :
  P [] -> (forall a, P [a]) -> (forall a b, P [a; b]) ->
  (forall a b c l, P l -> P (a :: b :: c :: l)) -> forall l, P l.
Proof. intros H0 H1 H2 H3. fix IH 1. intros [|a [|b [|c l]]]; [done..|apply H3, IH]. Qed.

(** The alphabet, by enumeration. *)
Lemma seq_Z_in n k : 0 <= n < Z.of_nat k -> In n (map Z.of_nat (seq 0 k)).
Proof. intros. apply in_map_iff. exists (Z.to_nat n). split; [lia|]. apply in_seq. lia. Qed.

Lemma b64_index_char n : 0 <= n < 64 -> b64_index (b64_char n) = Some n.
Proof.
  intros Hn. assert (forallb (fun n => bool_decide (b64_index (b64_char n) = Some n)) (map Z.of_nat (seq 0 64)) = true) as H
    by (vm_compute; reflexivity).
  rewrite forallb_forall in H. specialize (H n (seq_Z_in _ 64 Hn)). by apply bool_decide_eq_true_1 in H.
Qed.

Definition b64_alphabet (c : byte) : bool :=
  between 65 90 c || between 97 122 c || between 48 57 c || between 45 45 c || between 95 95 c.
Lemma b64_char_alphabet n : 0 <= n < 64 -> b64_alphabet (b64_char n) = true.
Proof.
  intros Hn. assert (forallb (fun n => b64_alphabet (b64_char n)) (map Z.of_nat (seq 0 64)) = true) as H
    by (vm_compute; reflexivity).
  rewrite forallb_forall in H. by apply H, seq_Z_in.
Qed.

(** Disjoint bits add up. *)
Lemma lor_shiftl x y k : 0 <= k -> 0 <= y < 2 ^ k -> Z.lor (Z.shiftl x k) y = x * 2 ^ k + y.
Proof.
  intros Hk Hy. rewrite <- Z.shiftl_mul_pow2 by done.
  assert (Z.land (Z.shiftl x k) y = 0) as Hd.
  { apply Z.bits_inj_0. intros n. rewrite Z.land_spec. destruct (Z.lt_ge_cases n k).
    - by rewrite Z.shiftl_spec_low.
    - rewrite andb_comm. destruct (decide (y = 0)) as [->|]; [by rewrite Z.bits_0|].
      rewrite (Z.bits_above_log2 y n); [done|lia|]. apply Z.log2_lt_pow2; [lia|]. eapply Z.lt_le_trans; [apply Hy|].
      apply Z.pow_le_mono_r; lia. }
  by rewrite <- Z.lxor_lor, Z.add_nocarry_lxor.
Qed.

Lemma shiftr_div x k : 0 <= k -> Z.shiftr x k = x / 2 ^ k.
Proof. apply Z.shiftr_div_pow2. Qed.
Lemma land_63 x : Z.land x 63 = x mod 64.
Proof. apply (Z.land_ones x 6). lia. Qed.
Lemma land_255 x : Z.land x 255 = x mod 256.
Proof. apply (Z.land_ones x 8). lia. Qed.

Ltac bits_to_Z :=
  repeat first
    [ rewrite land_63 | rewrite land_255 | rewrite Z.shiftr_div_pow2 by lia
    | rewrite Z.shiftl_mul_pow2 by lia ];
  repeat match goal with
  | |- context [2 ^ ?k] => let v := eval vm_compute in (2 ^ k) in change (2 ^ k) with v
  end.

Lemma sextet_index val i : b64_index (sextet val i) = Some (Z.land (Z.shiftr val i) 63).
Proof. unfold sextet. apply b64_index_char. rewrite land_63. apply Z.mod_pos_bound. lia. Qed.

Lemma three_bytes a b c :
  Z.lor (Z.lor (Z.shiftl (b2z a) 16) (Z.shiftl (b2z b) 8)) (b2z c) = b2z a * 65536 + b2z b * 256 + b2z c.
Proof.
  pose proof (b2z_range a). pose proof (b2z_range b). pose proof (b2z_range c).
  replace (Z.shiftl (b2z a) 16) with (Z.shiftl (Z.shiftl (b2z a) 8) 8) by (by rewrite Z.shiftl_shiftl).
  rewrite <- Z.shiftl_lor, lor_shiftl by lia. rewrite lor_shiftl by lia. lia.
Qed.

Lemma four_sextets a b c d : 0 <= a < 64 -> 0 <= b < 64 -> 0 <= c < 64 -> 0 <= d < 64 ->
  Z.lor (Z.lor (Z.lor (Z.shiftl a 18) (Z.shiftl b 12)) (Z.shiftl c 6)) d = a * 262144 + b * 4096 + c * 64 + d.
Proof.
  intros. replace (Z.shiftl a 18) with (Z.shiftl (Z.shiftl (Z.shiftl a 6) 6) 6) by (by rewrite !Z.shiftl_shiftl).
  replace (Z.shiftl b 12) with (Z.shiftl (Z.shiftl b 6) 6) by (by rewrite Z.shiftl_shiftl).
  rewrite <- !Z.shiftl_lor, lor_shiftl by lia. rewrite lor_shiftl by lia. rewrite lor_shiftl by lia. lia.
Qed.

Lemma two_sextets a b : 0 <= a < 64 -> 0 <= b < 64 ->
  Z.lor (Z.shiftl a 18) (Z.shiftl b 12) = a * 262144 + b * 4096.
Proof. intros. pose proof (four_sextets a b 0 0) as H4. rewrite Z.shiftl_0_l, !Z.lor_0_r in H4. rewrite H4; lia. Qed.
Lemma three_sextets a b c : 0 <= a < 64 -> 0 <= b < 64 -> 0 <= c < 64 ->
  Z.lor (Z.lor (Z.shiftl a 18) (Z.shiftl b 12)) (Z.shiftl c 6) = a * 262144 + b * 4096 + c * 64.
Proof. intros. pose proof (four_sextets a b c 0) as H4. rewrite !Z.lor_0_r in H4. rewrite H4; lia. Qed.
Lemma one_byte a : Z.shiftl (b2z a) 16 = b2z a * 65536.
Proof. by rewrite Z.shiftl_mul_pow2. Qed.
Lemma two_bytes a b : Z.lor (Z.shiftl (b2z a) 16) (Z.shiftl (b2z b) 8) = b2z a * 65536 + b2z b * 256.
Proof. pose proof (three_bytes a b (z2b 0)) as H3. change (b2z (z2b 0)) with 0 in H3. rewrite Z.lor_0_r in H3. lia. Qed.

Lemma z2b_eq z b : z mod 256 = b2z b -> z2b z = b.
Proof. intros E. apply b2z_inj. by rewrite b2z_z2b. Qed.

Ltac byte_ranges := repeat match goal with b : Init.Byte.byte |- _ =>
  lazymatch goal with _ : 0 <= b2z b < 256 |- _ => fail | _ => pose proof (b2z_range b) end end.

(** Decoding what was encoded gives it back. *)
Lemma b64_groups_encode strict s : b64_groups strict (b64_encode s) = Ok s.
Proof.
  induction s as [|a|a b|a b c s IH] using list_triple_ind; [done|..]; cbn [b64_encode b64_groups];
    rewrite !sextet_index, ?three_bytes, ?two_bytes, ?one_byte; rewrite !land_63, ?shiftr_div by lia;
    byte_ranges; rewrite ?four_sextets, ?three_sextets, ?two_sextets by (apply Z.mod_pos_bound; lia); bits_to_Z.
  - rewrite (proj2 (Z.eqb_eq _ _)) by (Z.div_mod_to_equations; lia). rewrite andb_false_r. do 2 f_equal.
    apply z2b_eq. Z.div_mod_to_equations; lia.
  - rewrite (proj2 (Z.eqb_eq _ _)) by (Z.div_mod_to_equations; lia). rewrite andb_false_r.
    do 2 f_equal; [|f_equal]; apply z2b_eq; Z.div_mod_to_equations; lia.
  - rewrite IH. cbn [res_bind]. do 2 f_equal; [|f_equal; [|f_equal]]; apply z2b_eq; Z.div_mod_to_equations; lia.
Qed.

Lemma b64_encode_alphabet s : forallb b64_alphabet (b64_encode s) = true.
Proof.
  assert (forall val i, b64_alphabet (sextet val i) = true) as Hs.
  { intros. apply b64_char_alphabet. rewrite land_63. apply Z.mod_pos_bound. lia. }
  induction s as [|a|a b|a b c s IH] using list_triple_ind; cbn [b64_encode forallb]; by rewrite ?Hs.
Qed.

Lemma b64_decode_encode strict s : b64_decode strict (b64_encode s) = Ok s.
Proof.
  unfold b64_decode. etrans; [|apply b64_groups_encode]. f_equal. pose proof (b64_encode_alphabet s) as Ha.
  induction (b64_encode s) as [|c t IH]; [done|]. cbn in Ha. apply andb_prop in Ha as [Hc Ha]. cbn [List.filter].
  assert (line_break c = false) as ->.
  { unfold b64_alphabet, line_break, between in *. lia. }
  cbn [negb]. f_equal. by apply IH.
Qed.

(** ** [time]: civil time in UTC *)

Record Time := {
  year : Z; month : Z; day : Z; hour : Z; minute : Z; second : Z; nanosecond : Z
}.

Definition isLeap (y : Z) : bool := (y mod 4 =? 0) && (negb (y mod 100 =? 0) || (y mod 400 =? 0)).
Definition daysIn (m y : Z) : Z :=
  if m =? 2 then (if isLeap y then 29 else 28)
  else if (m =? 4) || (m =? 6) || (m =? 9) || (m =? 11) then 30 else 31.
Definition daysBefore : list Z := [0; 31; 59; 90; 120; 151; 181; 212; 243; 273; 304; 334; 365].
Definition days_before (i : Z) : Z := nth (Z.to_nat i) daysBefore 0.

(** The year and the day of the year, of a day counted from the first of year 1: cut off
    the 400-, 100- and 4-year cycles and the year. *)
Definition year_day (d : Z) : Z * Z :=
  let n400 := d / 146097 in
  let d := d - 146097 * n400 in
  let n100 := d / 36524 in
  let n100 := n100 - n100 / 4 in
  let d := d - 36524 * n100 in
  let n4 := d / 1461 in
  let d := d - 1461 * n4 in
  let n := d / 365 in
  let n := n - n / 4 in
  (400 * n400 + 100 * n100 + 4 * n4 + n + 1, d - 365 * n).

(** The month and the day of the month. *)
Definition month_day (leap : bool) (yday : Z) : Z * Z :=
  if leap && (yday =? 59) then (2, 29) else
  let d := if leap && (59 <? yday) then yday - 1 else yday in
  let m := d / 31 in
  let fin := days_before (m + 1) in
  if fin <=? d then (m + 2, d - fin + 1) else (m + 1, d - days_before m + 1).

(** [time.Unix(sec, nsec).UTC()] with [nsec] in its range; 719162 days before 1970. *)
Definition time_Unix (sec nsec : Z) : Time :=
  let '(y, yday) := year_day (sec / 86400 + 719162) in
  let '(m, d) := month_day (isLeap y) yday in
  let s := sec mod 86400 in
  {| year := y; month := m; day := d; hour := s / 3600; minute := s mod 3600 / 60; second := s mod 60;
     nanosecond := nsec |}.

(** The day a date denotes, and its seconds. *)
Definition day_number (y m d : Z) : Z :=
  365 * (y - 1) + (y - 1) / 4 - (y - 1) / 100 + (y - 1) / 400 +
  days_before (m - 1) + (if isLeap y && (2 <? m) then 1 else 0) + d - 1 - 719162.
Definition unix_seconds (t : Time) : Z :=
  day_number (year t) (month t) (day t) * 86400 + hour t * 3600 + minute t * 60 + second t.

(** [t.Before(u)] *)
Definition time_Before (t u : Time) : bool :=
  (unix_seconds t <? unix_seconds u) ||
  ((unix_seconds t =? unix_seconds u) && (nanosecond t <? nanosecond u)).

(** The fields [Parse] accepts. *)
Definition valid_time (t : Time) : Prop :=
  0 <= year t <= 9999 /\ 1 <= month t <= 12 /\ 1 <= day t <= daysIn (month t) (year t) /\
  0 <= hour t < 24 /\ 0 <= minute t < 60 /\ 0 <= second t < 60 /\ 0 <= nanosecond t < 1000000000.

Definition year_start (y : Z) : Z := 365 * (y - 1) + (y - 1) / 4 - (y - 1) / 100 + (y - 1) / 400.

Lemma year_day_spec d : let '(y, yday) := year_day d in
  year_start y + yday = d /\ 0 <= yday < 365 + (if isLeap y then 1 else 0).
Proof.
  unfold year_day, year_start. cbv zeta.
  pose proof (Z.div_mod d 146097 ltac:(lia)) as E1. pose proof (Z.mod_pos_bound d 146097 ltac:(lia)) as B1.
  set (a := d / 146097) in *. replace (d - 146097 * a) with (d mod 146097) by lia. set (r := d mod 146097) in *.
  assert (exists b, r / 36524 - r / 36524 / 4 = b /\ 0 <= b <= 3 /\ 0 <= r - 36524 * b < 36524 + (if b =? 3 then 1 else 0)) as (b & -> & Hb & Hr).
  { eexists. split; [done|]. destruct (Z.eqb_spec (r / 36524 - r / 36524 / 4) 3); Z.div_mod_to_equations; lia. }
  set (r1 := r - 36524 * b) in *.
  assert (exists c, r1 / 1461 = c /\ 0 <= c <= 24 /\ 0 <= r1 - 1461 * c < 1461 /\
          (c = 24 -> b <> 3 -> r1 - 1461 * c < 1460)) as (c & -> & Hc & Hr1 & Hlast).
  { eexists. split; [done|]. destruct (Z.eqb_spec b 3); Z.div_mod_to_equations; lia. }
  set (r2 := r1 - 1461 * c) in *.
  assert (exists n, r2 / 365 - r2 / 365 / 4 = n /\ 0 <= n <= 3 /\ 0 <= r2 - 365 * n < 365 + (if n =? 3 then 1 else 0)) as (n & -> & Hn & Hr2).
  { eexists. split; [done|]. destruct (Z.eqb_spec (r2 / 365 - r2 / 365 / 4) 3); Z.div_mod_to_equations; lia. }
  set (y := 400 * a + 100 * b + 4 * c + n + 1).
  assert ((y - 1) / 4 = 100 * a + 25 * b + c) as -> by (unfold y; Z.div_mod_to_equations; lia).
  assert ((y - 1) / 100 = 4 * a + b) as -> by (unfold y; Z.div_mod_to_equations; lia).
  assert ((y - 1) / 400 = a) as -> by (unfold y; Z.div_mod_to_equations; lia).
  split; [unfold y, r2, r1; lia|]. split; [lia|].
  unfold isLeap. destruct (Z.eqb_spec n 3) as [->|Hn3].
  - assert (y mod 4 = 0) as -> by (unfold y; Z.div_mod_to_equations; lia).
    destruct (decide (c = 24)) as [->|Hc24].
    + destruct (decide (b = 3)) as [->|Hb3].
      * assert (y mod 400 = 0) as -> by (unfold y; Z.div_mod_to_equations; lia). rewrite orb_true_r. cbn. lia.
      * assert (y mod 400 <> 0) by (unfold y; Z.div_mod_to_equations; lia).
        specialize (Hlast eq_refl Hb3). destruct (_ && _); lia.
    + assert (y mod 100 <> 0) as Hy by (unfold y; Z.div_mod_to_equations; lia).
      rewrite (proj2 (Z.eqb_neq _ _) Hy). cbn. lia.
  - destruct (_ && _); lia.
Qed.

(** Every day of both kinds of year is checked. *)
Definition month_ok (leap : bool) (yday : Z) : bool :=
  let '(m, d) := month_day leap yday in
  (1 <=? m) && (m <=? 12) && (1 <=? d) &&
  (d <=? (if m =? 2 then (if leap then 29 else 28)
          else if (m =? 4) || (m =? 6) || (m =? 9) || (m =? 11) then 30 else 31)) &&
  (days_before (m - 1) + (if leap && (2 <? m) then 1 else 0) + d - 1 =? yday).
Fixpoint all_from (n : nat) (z : Z) (P : Z -> bool) : bool :=
  match n with O => true | S n => P z && all_from n (z + 1) P end.
Lemma all_from_spec n z0 P z : all_from n z0 P = true -> z0 <= z < z0 + Z.of_nat n -> P z = true.
Proof.
  revert z0. induction n as [|n IH]; intros z0; [lia|]. cbn [all_from]. intros H Hz. apply andb_prop in H as [Hn H].
  destruct (decide (z = z0)) as [->|]; [done|]. apply (IH (z0 + 1)); [done|lia].
Qed.

Lemma month_day_spec y yday : 0 <= yday < 365 + (if isLeap y then 1 else 0) ->
  let '(m, d) := month_day (isLeap y) yday in
  1 <= m <= 12 /\ 1 <= d <= daysIn m y /\
  days_before (m - 1) + (if isLeap y && (2 <? m) then 1 else 0) + d - 1 = yday.
Proof.
  intros Hy. assert (month_ok (isLeap y) yday = true) as Hok.
  { destruct (isLeap y); [apply (all_from_spec 366 0)|apply (all_from_spec 365 0)];
      first [vm_compute; reflexivity|lia]. }
  unfold month_ok, daysIn in *. destruct (month_day _ _) as [m d]. bool_hyps. lia.
Qed.

Lemma time_Unix_seconds sec nsec : unix_seconds (time_Unix sec nsec) = sec.
Proof.
  unfold time_Unix, unix_seconds. pose proof (year_day_spec (sec / 86400 + 719162)) as Hy.
  destruct (year_day _) as [y yday]. destruct Hy as [Hy Hr]. pose proof (month_day_spec y yday Hr) as Hm.
  destruct (month_day _ _) as [m d]. cbn [year month day hour minute second nanosecond].
  destruct Hm as (_ & _ & Hm). unfold day_number, year_start in *.
  assert (sec = sec / 86400 * 86400 + (sec mod 86400 / 3600 * 3600 + sec mod 86400 mod 3600 / 60 * 60 + sec mod 86400 mod 60))
    as E by (Z.div_mod_to_equations; lia). lia.
Qed.

(** From the year 1 to the year 9999. *)
Lemma time_Unix_nanosecond sec nsec : nanosecond (time_Unix sec nsec) = nsec.
Proof. unfold time_Unix. destruct (year_day _) as [y yday]. by destruct (month_day _ _). Qed.

Lemma time_Unix_valid sec nsec :
  -62135596800 <= sec < 253402300800 -> 0 <= nsec < 1000000000 -> valid_time (time_Unix sec nsec).
Proof.
  intros Hs Hn. unfold time_Unix, valid_time. pose proof (year_day_spec (sec / 86400 + 719162)) as Hy.
  destruct (year_day _) as [y yday]. destruct Hy as [Hy Hr]. pose proof (month_day_spec y yday Hr) as Hm.
  destruct (month_day _ _) as [m d]. cbn [year month day hour minute second nanosecond].
  destruct Hm as (Hm & Hd & _). unfold year_start in Hy.
  assert (0 <= sec / 86400 + 719162 < 3652059) as Hday by (Z.div_mod_to_equations; lia).
  assert (yday < 366) by (destruct (isLeap y); lia).
  split_and!; try lia; Z.div_mod_to_equations; lia.
Qed.

(** ** The two timestamp layouts *)

(** [appendInt]: at least [width] digits. *)
Definition pad (width : nat) (n : Z) : bytes :=
  if n <? 0 then bs "-" ++ replicate (width - length (FormatUint (- n))) (dec_digit 0) ++ FormatUint (- n)
  else replicate (width - length (FormatUint n)) (dec_digit 0) ++ FormatUint n.

(** [2006-01-02T15:04:05], common to both layouts. *)
Definition format_seconds (t : Time) : bytes :=
  pad 4 (year t) ++ bs "-" ++ pad 2 (month t) ++ bs "-" ++ pad 2 (day t) ++ bs "T" ++
  pad 2 (hour t) ++ bs ":" ++ pad 2 (minute t) ++ bs ":" ++ pad 2 (second t).
(** [2006-01-02T15:04:05.000000000Z] *)
Definition Format_nano (t : Time) : bytes := format_seconds t ++ bs "." ++ pad 9 (nanosecond t) ++ bs "Z".

(** [2006-01-02T15:04:05.999999999Z07:00] of a time in UTC: trailing zeros, and then the
    point, are dropped. *)
Fixpoint drop_zeros (s : bytes) : bytes :=
  match s with c :: s' => if bool_decide (c = dec_digit 0) then drop_zeros s' else s | [] => [] end.
Definition trim_fraction (s : bytes) : bytes := reverse (drop_zeros (reverse s)).
Definition Format_RFC3339Nano (t : Time) : bytes :=
  let frac := trim_fraction (pad 9 (nanosecond t)) in
  format_seconds t ++ (if bool_decide (frac = []) then [] else bs "." ++ frac) ++ bs "Z".

Definition errBad : error := Errorf "parsing time %q as %q: cannot parse %q as %q".
Definition errOut : error := Errorf "parsing time %q: out of range".

Definition isDigit (s : bytes) (i : nat) : bool :=
  match nth_error s i with Some c => between 48 57 c | None => false end.
Definition digit_at (s : bytes) (i : nat) : Z := match nth_error s i with Some c => b2z c - 48 | None => 0 end.

(** One or two digits, or exactly two. *)
Definition getnum (fixed : bool) (s : bytes) : res (Z * bytes) :=
  fail? negb (isDigit s 0) with errBad ;;
  if negb (isDigit s 1) then fail? fixed with errBad ;; Ok (digit_at s 0, drop 1 s)
  else Ok (digit_at s 0 * 10 + digit_at s 1, drop 2 s).

(** [skip]: the literal text of the layout. *)
Definition skip (prefix : bytes) (s : bytes) : res bytes :=
  if HasPrefix s prefix then Ok (drop (length prefix) s) else Err errBad.

(** [atoi]: a sign and digits, and nothing else; it is only given nine characters at
    most, which cannot overflow. *)
Definition atoi (s : bytes) : res Z :=
  let '(neg, s) := match s with
                   | c :: t => if between 45 45 c then (true, t) else if between 43 43 c then (false, t) else (false, s)
                   | [] => (false, s)
                   end in
  fail? negb (all_digits s) with errBad ;;
  Ok (if neg : bool then - decimal 0 s else decimal 0 s).

Definition commaOrPeriod (c : byte) : bool := between 44 44 c || between 46 46 c.

(** [parseNanoseconds(value, nbytes)]: the point and at most nine digits. *)
Definition parseNanoseconds (s : bytes) : res Z :=
  match s with
  | c :: digits =>
      fail? negb (commaOrPeriod c) with errBad ;;
      let digits := take 9 digits in
      let? ns := atoi digits in
      fail? ns <? 0 with errOut ;;
      Ok (ns * 10 ^ (9 - len digits))
  | [] => Err errBad
  end.

(** The fraction of each layout. *)
Definition fraction_nano (s : bytes) : res (Z * bytes) :=
  fail? len s <? 10 with errBad ;;
  let? ns := parseNanoseconds (take 10 s) in
  Ok (ns, drop 10 s).
Fixpoint digit_run (s : bytes) : nat :=
  match s with c :: s => if between 48 57 c then S (digit_run s) else O | [] => O end.
Definition fraction_optional (s : bytes) : res (Z * bytes) :=
  match s with
  | c :: s' =>
      if negb (commaOrPeriod c) || negb (isDigit s' 0) then Ok (0, s) else
      let n := S (digit_run s') in
      let? ns := parseNanoseconds (take n s) in
      Ok (ns, drop n s)
  | [] => Ok (0, s)
  end.

(** The zone of each layout: the letter [Z], or an offset. *)
Inductive zone := UTC | Offset (seconds : Z).
#[global] Instance zone_eq_decision : EqDecision zone.
Proof. solve_decision. Defined.

Definition zone_literal (s : bytes) : res (zone * bytes) := let? s := skip (bs "Z") s in Ok (UTC, s).
Definition zone_offset (s : bytes) : res (zone * bytes) :=
  if HasPrefix s (bs "Z") then Ok (UTC, drop 1 s) else
  fail? len s <? 6 with errBad ;;
  fail? negb (bool_decide (sub 3 4 s = bs ":")) with errBad ;;
  let? (hr, _) := getnum true (sub 1 3 s) in
  let? (mm, _) := getnum true (sub 4 6 s) in
  fail? (24 <? hr) || (60 <? mm) with errOut ;;
  let offset := (hr * 60 + mm) * 60 in
  if HasPrefix s (bs "+") then Ok (Offset offset, drop 6 s)
  else if HasPrefix s (bs "-") then Ok (Offset (- offset), drop 6 s) else Err errBad.

(** [time.Parse] with the layout [2006-01-02T15:04:05] followed by a fraction and a zone.
    The hour may have one digit. *)
Definition time_Parse (fraction : bytes -> res (Z * bytes)) (zone_of : bytes -> res (zone * bytes)) (value : bytes)
  : res (Time * zone) :=
  fail? (len value <? 4) || negb (isDigit value 0) with errBad ;;
  let? y := atoi (take 4 value) in
  let? v := skip (bs "-") (drop 4 value) in
  let? (mo, v) := getnum true v in
  fail? (mo <=? 0) || (12 <? mo) with errOut ;;
  let? v := skip (bs "-") v in
  let? (d, v) := getnum true v in
  let? v := skip (bs "T") v in
  let? (h, v) := getnum false v in
  fail? 24 <=? h with errOut ;;
  let? v := skip (bs ":") v in
  let? (mi, v) := getnum true v in
  fail? 60 <=? mi with errOut ;;
  let? v := skip (bs ":") v in
  let? (s, v) := getnum true v in
  fail? 60 <=? s with errOut ;;
  let? (ns, v) := fraction v in
  let? (z, v) := zone_of v in
  fail? negb (bool_decide (v = [])) with errBad ;;
  fail? (d <? 1) || (daysIn mo y <? d) with errOut ;;
  Ok ({| year := y; month := mo; day := d; hour := h; minute := mi; second := s; nanosecond := ns |}, z).

Definition Parse_nano : bytes -> res (Time * zone) := time_Parse fraction_nano zone_literal.
Definition Parse_RFC3339Nano : bytes -> res (Time * zone) := time_Parse fraction_optional zone_offset.

(** *** Parsing what was printed *)

Lemma dec_rev_length fuel n w : 0 <= n < 10 ^ Z.of_nat w -> (0 < w)%nat -> (length (dec_rev fuel n) <= w)%nat.
Proof.
  revert n w. induction fuel as [|fuel IH]; intros n w Hn Hw; cbn [dec_rev length]; [lia|].
  destruct (Z.ltb_spec n 10); cbn [length]; [lia|]. destruct w as [|[|w]]; [lia|cbn in Hn; lia|].
  rewrite Nat2Z.inj_succ, Z.pow_succ_r in Hn by lia. apply le_n_S, IH; [|lia].
  split; [apply Z.div_pos; lia|apply Z.div_lt_upper_bound; lia].
Qed.

Lemma pad_spec w n : 0 <= n < 10 ^ Z.of_nat w -> (0 < w <= 19)%nat ->
  length (pad w n) = w /\ all_digits (pad w n) = true /\ decimal 0 (pad w n) = n.
Proof.
  intros Hn Hw. assert (10 ^ Z.of_nat w <= 10 ^ 19) by (apply Z.pow_le_mono_r; lia).
  unfold pad. rewrite (proj2 (Z.ltb_ge _ _)) by lia.
  destruct (FormatUint_digits n) as (Ha & Hd & _); [unfold is_u64; lia|].
  assert (length (FormatUint n) <= w)%nat as Hl by (unfold FormatUint; rewrite length_reverse; apply dec_rev_length; lia).
  rewrite length_app, length_replicate. split; [lia|]. unfold all_digits in *. rewrite forallb_app, Ha, decimal_app.
  assert (forall k, forallb (between 48 57) (replicate k (dec_digit 0)) = true /\ decimal 0 (replicate k (dec_digit 0)) = 0) as Hz.
  { induction k as [|k [IH1 IH2]]; [done|]. cbn [replicate forallb decimal fold_left]. rewrite IH1. split; [done|].
    change (10 * 0 + (b2z (dec_digit 0) - 48)) with 0. exact IH2. }
  destruct (Hz (w - length (FormatUint n))%nat) as [-> ->]. done.
Qed.

Lemma getnum_pad fixed n rest : 0 <= n < 100 -> getnum fixed (pad 2 n ++ rest) = Ok (n, rest).
Proof.
  intros Hn. destruct (pad_spec 2 n) as (Hl & Ha & Hd); [cbn; lia|lia|].
  destruct (pad 2 n) as [|a [|b [|? ?]]]; try discriminate Hl. cbn in Ha. bool_hyps.
  unfold getnum, isDigit, digit_at. cbn [app nth_error drop]. rewrite H, H0. cbn [negb].
  unfold decimal in Hd. cbn in Hd. do 2 f_equal. lia.
Qed.

Lemma skip_app p rest : skip p (p ++ rest) = Ok rest.
Proof.
  unfold skip. rewrite (proj2 (HasPrefix_spec _ _)) by eauto. by rewrite drop_app_length.
Qed.

Lemma atoi_digits s : all_digits s = true -> atoi s = Ok (decimal 0 s).
Proof.
  intros Hs. unfold atoi. assert (forall c t, s = c :: t -> between 45 45 c = false /\ between 43 43 c = false) as Hc.
  { intros c t ->. cbn in Hs. bool_hyps. unfold between in *. lia. }
  destruct s as [|c t]; [done|]. destruct (Hc c t eq_refl) as [-> ->]. by rewrite Hs.
Qed.

Lemma parseNanoseconds_digits s : all_digits s = true -> len s <= 9 ->
  parseNanoseconds (bs "." ++ s) = Ok (decimal 0 s * 10 ^ (9 - len s)).
Proof.
  intros Hs Hl. change (bs "." ++ s) with (Byte.x2e :: s). unfold parseNanoseconds. change (commaOrPeriod Byte.x2e) with true.
  cbn [negb]. rewrite take_ge by (unfold len in Hl; lia). rewrite atoi_digits by done. cbn [res_bind].
  pose proof (decimal_ge 0 s ltac:(lia) Hs). by rewrite (proj2 (Z.ltb_ge _ _)) by lia.
Qed.

(** Parsing the common part: what is left is the fraction and the zone. *)
Lemma time_Parse_seconds fraction zone_of t rest :
  valid_time t ->
  time_Parse fraction zone_of (format_seconds t ++ rest) =
    (let? (ns, v) := fraction rest in
     let? (z, v) := zone_of v in
     fail? negb (bool_decide (v = [])) with errBad ;;
     Ok ({| year := year t; month := month t; day := day t; hour := hour t; minute := minute t;
            second := second t; nanosecond := ns |}, z)).
Proof.
  intros (Hy & Hmo & Hd & Hh & Hmi & Hs & _). unfold time_Parse, format_seconds.
  assert (daysIn (month t) (year t) <= 31) by (unfold daysIn; repeat case_match; lia).
  destruct (pad_spec 4 (year t)) as (Hl & Ha & Hdec); [cbn; lia|lia|].
  rewrite <- !app_assoc. rewrite (proj2 (Z.ltb_ge _ _)) by (rewrite len_app; unfold len; rewrite Hl; lia).
  assert (isDigit (pad 4 (year t) ++ bs "-" ++ pad 2 (month t) ++ bs "-" ++ pad 2 (day t) ++ bs "T" ++ pad 2 (hour t) ++
    bs ":" ++ pad 2 (minute t) ++ bs ":" ++ pad 2 (second t) ++ rest) 0 = true) as ->.
  { destruct (pad 4 (year t)) as [|c ?]; [done|]. cbn in Ha |- *. by bool_hyps. }
  cbn [negb orb]. rewrite take_app_length', drop_app_length' by done. rewrite atoi_digits, Hdec by done.
  cbn [res_bind]. rewrite skip_app. cbn [res_bind]. rewrite getnum_pad by lia. cbn [res_bind].
  rewrite (proj2 (Z.leb_gt _ _)), (proj2 (Z.ltb_ge _ _)) by lia. cbn [orb].
  rewrite skip_app. cbn [res_bind]. rewrite getnum_pad by lia. cbn [res_bind].
  rewrite skip_app. cbn [res_bind]. rewrite getnum_pad by lia. cbn [res_bind]. rewrite (proj2 (Z.leb_gt _ _)) by lia.
  rewrite skip_app. cbn [res_bind]. rewrite getnum_pad by lia. cbn [res_bind]. rewrite (proj2 (Z.leb_gt _ _)) by lia.
  rewrite skip_app. cbn [res_bind]. rewrite getnum_pad by lia. cbn [res_bind]. rewrite (proj2 (Z.leb_gt _ _)) by lia.
  destruct (fraction rest) as [[ns v]| |]; cbn [res_bind]; [|done..]. destruct (zone_of v) as [[z v']| |]; cbn [res_bind]; [|done..].
  by rewrite (proj2 (Z.ltb_ge _ _)), (proj2 (Z.ltb_ge _ _)) by lia.
Qed.

Lemma Parse_Format_nano t : valid_time t -> Parse_nano (Format_nano t) = Ok (t, UTC).
Proof.
  intros Ht. unfold Parse_nano, Format_nano. rewrite time_Parse_seconds by done.
  destruct Ht as (_ & _ & _ & _ & _ & _ & Hn). destruct (pad_spec 9 (nanosecond t)) as (Hl & Ha & Hdec); [cbn; lia|lia|].
  unfold fraction_nano. rewrite (proj2 (Z.ltb_ge _ _)) by (unfold len; rewrite !length_app, Hl; cbn; lia).
  rewrite app_assoc, take_app_length', drop_app_length' by (rewrite length_app, Hl; done).
  rewrite parseNanoseconds_digits by (unfold len; rewrite ?Hl; done). cbn [res_bind].
  unfold len. rewrite Hl, Hdec. change (10 ^ (9 - Z.of_nat 9)) with 1. rewrite Z.mul_1_r. by destruct t.
Qed.

Lemma trim_fraction_split s : exists k, s = trim_fraction s ++ replicate k (dec_digit 0).
Proof.
  assert (forall r, exists k, r = replicate k (dec_digit 0) ++ drop_zeros r) as Hd.
  { induction r as [|c r [k IH]]; [by exists O|]. cbn [drop_zeros]. case_bool_decide as E; [|by exists O].
    exists (S k). cbn. by rewrite E, <- IH. }
  destruct (Hd (reverse s)) as [k E]. exists k. apply (f_equal reverse) in E.
  rewrite reverse_involutive, reverse_app, reverse_replicate in E. exact E.
Qed.

Lemma decimal_zeros n k : decimal n (replicate k (dec_digit 0)) = n * 10 ^ Z.of_nat k.
Proof.
  revert n. induction k as [|k IH]; intros n; [cbn; lia|]. rewrite Nat2Z.inj_succ, Z.pow_succ_r by lia.
  cbn [replicate decimal fold_left]. change (b2z (dec_digit 0) - 48) with 0. fold (decimal (10 * n + 0) (replicate k (dec_digit 0))).
  rewrite IH. lia.
Qed.

Lemma digit_run_app s c rest : all_digits s = true -> between 48 57 c = false -> digit_run (s ++ c :: rest) = length s.
Proof.
  intros Hs Hc. induction s as [|d s IH]; cbn [app digit_run length]; [by rewrite Hc|].
  cbn in Hs. apply andb_prop in Hs as [-> Hs]. by rewrite IH.
Qed.

Lemma Parse_Format_RFC3339Nano t : valid_time t -> Parse_RFC3339Nano (Format_RFC3339Nano t) = Ok (t, UTC).
Proof.
  intros Ht. unfold Parse_RFC3339Nano, Format_RFC3339Nano. cbv zeta. rewrite time_Parse_seconds by done.
  destruct Ht as (_ & _ & _ & _ & _ & _ & Hn). destruct (pad_spec 9 (nanosecond t)) as (Hl & Ha & Hdec); [cbn; lia|lia|].
  destruct (trim_fraction_split (pad 9 (nanosecond t))) as [k Ek]. set (frac := trim_fraction _) in *.
  assert (nanosecond t = decimal 0 frac * 10 ^ Z.of_nat k) as En by (rewrite <- Hdec, Ek, decimal_app; apply decimal_zeros).
  assert (all_digits frac = true) as Hf.
  { rewrite Ek in Ha. unfold all_digits in *. rewrite forallb_app in Ha. by apply andb_prop in Ha as [? _]. }
  assert (Z.of_nat k = 9 - len frac) as Hk by (rewrite Ek, length_app, length_replicate in Hl; unfold len; lia).
  case_bool_decide as Ef.
  - rewrite Ef in En. cbn in En. cbn. destruct t. cbn in *. by rewrite En.
  - rewrite <- app_assoc. change (bs ".") with [Byte.x2e]. cbn [app]. unfold fraction_optional.
    change (commaOrPeriod Byte.x2e) with true. cbn [negb orb].
    assert (isDigit (frac ++ bs "Z") 0 = true) as ->.
    { destruct frac as [|c f]; [done|]. cbn in Hf |- *. by bool_hyps. }
    cbn [negb]. change (bs "Z") with [Byte.x5a]. rewrite digit_run_app by done. cbn [take drop].
    rewrite take_app_length, drop_app_length.
    pose proof (parseNanoseconds_digits frac Hf ltac:(lia)) as Hp. change (bs "." ++ frac) with (Byte.x2e :: frac) in Hp.
    rewrite Hp. cbn [res_bind]. rewrite <- Hk, <- En. by destruct t.
Qed.

(** *** What [Parse] accepts is a time *)

Lemma decimal_lt n s : 0 <= n -> all_digits s = true -> decimal n s < (n + 1) * 10 ^ len s.
Proof.
  revert n. induction s as [|c s IH]; intros n Hn Hs; [unfold len; cbn; lia|]. cbn [all_digits forallb] in Hs.
  apply andb_prop in Hs as [Hc Hs]. unfold between in Hc. bool_hyps. cbn [decimal fold_left]. rewrite len_cons.
  pose proof (len_nonneg s). rewrite Z.pow_add_r by lia. specialize (IH (10 * n + (b2z c - 48)) ltac:(lia) Hs).
  unfold decimal in IH. pose proof (Z.pow_pos_nonneg 10 (len s)). nia.
Qed.

Lemma getnum_range fixed s n r : getnum fixed s = Ok (n, r) -> 0 <= n <= 99.
Proof.
  unfold getnum, isDigit, digit_at, between. intros H. destruct s as [|a [|b s]]; cbn in H; [done|..];
    (destruct ((48 <=? b2z a) && (b2z a <=? 57)) eqn:Ea; cbn in H; [|done]); bool_hyps.
  - destruct fixed; [done|]. injection H as <- _. lia.
  - destruct ((48 <=? b2z b) && (b2z b <=? 57)) eqn:Eb; cbn in H; [|destruct fixed; [done|]]; injection H as <- _; bool_hyps; lia.
Qed.

Lemma atoi_range s n : atoi s = Ok n -> - 10 ^ len s < n < 10 ^ len s.
Proof.
  unfold atoi. intros H. assert (forall t, all_digits t = true -> len t <= len s -> 0 <= decimal 0 t < 10 ^ len s) as Hd.
  { intros t Ht Hl. pose proof (decimal_ge 0 t ltac:(lia) Ht). pose proof (decimal_lt 0 t ltac:(lia) Ht).
    pose proof (Z.pow_le_mono_r 10 (len t) (len s) ltac:(lia) Hl). lia. }
  destruct s as [|c t]; [cbn in H; injection H as <-; split; reflexivity|].
  assert (len t <= len (c :: t)) as Hl by (rewrite len_cons; lia).
  destruct (between 45 45 c); [|destruct (between 43 43 c)]; cbv beta iota zeta in H; res_inv H; bool_hyps.
  all: match goal with Ha : all_digits ?l = true |- _ => specialize (Hd l Ha ltac:(lia)) end;
    first [lia|change (decimal (10 * 0 + (b2z c - 48)) t) with (decimal 0 (c :: t)); lia].
Qed.

Lemma parseNanoseconds_range s n : parseNanoseconds s = Ok n -> 0 <= n < 1000000000.
Proof.
  unfold parseNanoseconds. destruct s as [|c s]; [done|]. intros H. res_inv H. apply atoi_range in E.
  assert (len (take 9 s) <= 9) as Hl by (unfold len; rewrite length_take; lia).
  pose proof (len_nonneg (take 9 s)). set (k := len (take 9 s)) in *.
  assert (10 ^ k * 10 ^ (9 - k) = 1000000000) as Hp by (rewrite <- Z.pow_add_r by lia; replace (k + (9 - k)) with 9 by lia; done).
  repeat match goal with Hlt : (_ <? _) = false |- _ => apply Z.ltb_ge in Hlt end.
  pose proof (Z.pow_pos_nonneg 10 (9 - k)). nia.
Qed.

Lemma year_range v y : isDigit v 0 = true -> atoi (take 4 v) = Ok y -> 0 <= y <= 9999.
Proof.
  intros Hd H. pose proof (atoi_range _ _ H) as Hr.
  assert (len (take 4 v) <= 4) by (unfold len; rewrite length_take; lia).
  pose proof (Z.pow_le_mono_r 10 (len (take 4 v)) 4 ltac:(lia) ltac:(lia)). split; [|lia].
  destruct v as [|c v]; [done|]. cbn in Hd. unfold atoi in H. cbn [take] in H.
  assert (between 45 45 c = false /\ between 43 43 c = false) as [Ea Eb] by (unfold between in *; lia).
  rewrite Ea, Eb in H. res_inv H. bool_hyps. exact (decimal_ge 0 (c :: take 3 v) ltac:(lia) Heqb).
Qed.

Lemma time_Parse_valid fraction zone_of v t z :
  (forall s n r, fraction s = Ok (n, r) -> 0 <= n < 1000000000) ->
  time_Parse fraction zone_of v = Ok (t, z) -> valid_time t.
Proof.
  intros Hf. unfold time_Parse. intros H.
  do 8 (res_inv H; repeat match goal with p : (_ * _)%type |- _ => destruct p end). bool_hyps.
  repeat match goal with E : getnum _ _ = Ok _ |- _ => apply getnum_range in E end.
  match goal with E : fraction _ = Ok _ |- _ => apply Hf in E end.
  match goal with E : atoi _ = Ok _ |- _ => apply year_range in E; [|done] end.
  unfold valid_time. cbn [year month day hour minute second nanosecond]. lia.
Qed.

Lemma Parse_nano_valid v t z : Parse_nano v = Ok (t, z) -> valid_time t.
Proof.
  apply time_Parse_valid. unfold fraction_nano. intros s n r H. res_inv H. by apply parseNanoseconds_range in E.
Qed.
Lemma Parse_RFC3339Nano_valid v t z : Parse_RFC3339Nano v = Ok (t, z) -> valid_time t.
Proof.
  apply time_Parse_valid. unfold fraction_optional. intros [|c s] n r H; [injection H as <- _; lia|].
  destruct (_ || _); [injection H as <- _; lia|]. cbv zeta in H. res_inv H. by apply parseNanoseconds_range in E.
Qed.

Lemma len_Format_nano t : valid_time t -> len (Format_nano t) = 30.
Proof.
  intros (Hy & Hmo & Hd & Hh & Hmi & Hs & Hn). assert (daysIn (month t) (year t) <= 31) by (unfold daysIn; repeat case_match; lia).
  unfold Format_nano, format_seconds. rewrite !len_app. unfold len at 1 3 5 7 9 11 13.
  destruct (pad_spec 4 (year t)) as (-> & _); [cbn; lia|lia|]. destruct (pad_spec 2 (month t)) as (-> & _); [cbn; lia|lia|].
  destruct (pad_spec 2 (day t)) as (-> & _); [cbn; lia|lia|]. destruct (pad_spec 2 (hour t)) as (-> & _); [cbn; lia|lia|].
  destruct (pad_spec 2 (minute t)) as (-> & _); [cbn; lia|lia|]. destruct (pad_spec 2 (second t)) as (-> & _); [cbn; lia|lia|].
  destruct (pad_spec 9 (nanosecond t)) as (-> & _); [cbn; lia|lia|]. reflexivity.
Qed.
