(* ===== verification/GoIO.v ===== *)
(** * [io.Reader] and [io.Writer]

    A reader is the sequence of bytes it still delivers together with the error
    it reports once they are exhausted ([io.EOF] for a stream that ends, any
    other error for one that breaks). A writer is any state with a [Write] call;
    [WriterLaws] is the part of the [io.Writer] contract the program relies on,
    and the programs that write are proved against it. *)

From S2P Require Import Prelude GoBytes.

(** ** Readers *)

Record reader := Reader { rd_data : bytes; rd_end : error }.

(** [io.ReadFull(r, buf)] with [len(buf) = n]: the bytes of the buffer, or
    [io.EOF] when nothing was read, [io.ErrUnexpectedEOF] on a short stream. *)
Definition ReadFull (n : Z) : prog reader bytes := fun r =>
  if n <=? len (rd_data r) then
    (Ok (take (Z.to_nat n) (rd_data r)),
     Reader (drop (Z.to_nat n) (rd_data r)) (rd_end r))
  else
    (Err (if bool_decide (rd_end r = EOF)
          then (if bool_decide (rd_data r = []) then EOF else ErrUnexpectedEOF)
          else rd_end r),
     Reader [] (rd_end r)).

(** The same call with the bytes it read before failing. *)
Definition ReadFullN (n : Z) (r : reader) : (bytes * option error) * reader :=
  if n <=? len (rd_data r) then
    ((take (Z.to_nat n) (rd_data r), None), Reader (drop (Z.to_nat n) (rd_data r)) (rd_end r))
  else
    ((rd_data r,
      Some (if bool_decide (rd_end r = EOF)
            then (if bool_decide (rd_data r = []) then EOF else ErrUnexpectedEOF)
            else rd_end r)),
     Reader [] (rd_end r)).

Lemma ReadFullN_app n (d rest : bytes) e :
  len d = n -> ReadFullN n (Reader (d ++ rest) e) = ((d, None), Reader rest e).
Proof.
  intros <-. unfold ReadFullN. cbn [rd_data rd_end].
  rewrite len_app. pose proof (len_nonneg rest).
  replace (len d <=? len d + len rest) with true by lia.
  unfold len. rewrite Nat2Z.id. by rewrite take_app_length, drop_app_length.
Qed.

Lemma ReadFullN_full n r d r' :
  ReadFullN n r = ((d, None), r') -> 0 <= n ->
  len d = n /\ rd_data r = d ++ rd_data r' /\ rd_end r' = rd_end r.
Proof.
  unfold ReadFullN. destruct (n <=? len (rd_data r)) eqn:E; [|discriminate].
  intros [= <- <-] Hn. cbn [rd_data rd_end]. rewrite take_drop. split; [|done].
  unfold len in *. rewrite length_take. lia.
Qed.

Lemma ReadFull_app n d rest e :
  len d = n -> ReadFull n (Reader (d ++ rest) e) = (Ok d, Reader rest e).
Proof.
  intros <-. unfold ReadFull. cbn [rd_data rd_end].
  rewrite len_app. pose proof (len_nonneg rest).
  replace (len d <=? len d + len rest) with true by lia.
  unfold len. rewrite Nat2Z.id. by rewrite take_app_length, drop_app_length.
Qed.

Lemma ReadFull_Ok n r d r' :
  ReadFull n r = (Ok d, r') ->
  rd_data r = d ++ rd_data r' /\ rd_end r' = rd_end r /\ (0 <= n -> len d = n).
Proof.
  unfold ReadFull. destruct (n <=? len (rd_data r)) eqn:E; [|discriminate].
  intros [= <- <-]. cbn [rd_data rd_end]. split; [by rewrite take_drop|].
  split; [done|]. unfold len in *. rewrite length_take. lia.
Qed.

(** A sized read followed by the rest of a decoder, taken apart. *)
Lemma bind_read_Ok {B} msg n (k : bytes -> prog reader B) r b r' :
  bind (wrap_err msg (ReadFull n)) k r = (Ok b, r') -> 0 <= n ->
  exists d r1, len d = n /\ rd_data r = d ++ rd_data r1 /\ rd_end r1 = rd_end r /\
    k d r1 = (Ok b, r').
Proof.
  intros (d & r1 & Hd%wrap_err_Ok & Hk)%bind_Ok Hn.
  apply ReadFull_Ok in Hd as (H1 & H2 & H3). exists d, r1. auto.
Qed.

Lemma bind_lift_Ok {S A B} (m : res A) (k : A -> prog S B) s b s' :
  bind (lift m) k s = (Ok b, s') -> exists a, m = Ok a /\ k a s = (Ok b, s').
Proof. intros (a & s1 & [= -> ->] & ?)%bind_Ok. eauto. Qed.

(** One read of a decoder, and one pure step. *)
Lemma bind_read {B} msg n (k : bytes -> prog reader B) d rest e :
  len d = n -> bind (wrap_err msg (ReadFull n)) k (Reader (d ++ rest) e) = k d (Reader rest e).
Proof. intros Hl. unfold bind, wrap_err. by rewrite ReadFull_app. Qed.

Lemma bind_read_last {B} msg n (k : bytes -> prog reader B) d e :
  len d = n -> bind (wrap_err msg (ReadFull n)) k (Reader d e) = k d (Reader [] e).
Proof. intros Hl. rewrite <- (app_nil_r d) at 1. by apply bind_read. Qed.

Lemma bind_lift {S A B} (m : res A) (k : A -> prog S B) a s :
  m = Ok a -> bind (lift m) k s = k a s.
Proof. by intros ->. Qed.

(** [io.CopyN(w, r, n)] for a writer that takes everything: the bytes copied. *)
Definition CopyN (n : Z) : prog reader bytes := fun r =>
  if n <=? len (rd_data r)
  then (Ok (take (Z.to_nat n) (rd_data r)), Reader (drop (Z.to_nat n) (rd_data r)) (rd_end r))
  else (Err (rd_end r), Reader [] (rd_end r)).

(** [io.LimitedReader{R: r, N: n}] as a stream of its own. *)
Definition limited (n : Z) (r : reader) : reader :=
  if n <=? len (rd_data r) then Reader (take (Z.to_nat n) (rd_data r)) EOF else r.

Lemma CopyN_Ok n r d r' :
  CopyN n r = (Ok d, r') -> rd_data r = d ++ rd_data r' /\ rd_end r' = rd_end r.
Proof.
  unfold CopyN. destruct (n <=? len (rd_data r)); [|done]. intros [= <- <-].
  cbn [rd_data rd_end]. by rewrite take_drop.
Qed.

Lemma CopyN_app n (d rest : bytes) e :
  len d = n -> CopyN n (Reader (d ++ rest) e) = (Ok d, Reader rest e).
Proof.
  intros <-. unfold CopyN. cbn [rd_data rd_end]. rewrite len_app. pose proof (len_nonneg rest).
  replace (len d <=? len d + len rest) with true by lia.
  unfold len. rewrite Nat2Z.id. by rewrite take_app_length, drop_app_length.
Qed.

Lemma limited_app n (d rest : bytes) e : len d = n -> limited n (Reader (d ++ rest) e) = Reader d EOF.
Proof.
  intros <-. unfold limited. cbn [rd_data]. rewrite len_app. pose proof (len_nonneg rest).
  replace (len d <=? len d + len rest) with true by lia.
  unfold len. by rewrite Nat2Z.id, take_app_length.
Qed.

(** Whatever happens, a read only consumes a prefix. *)
Definition consumes {A} (p : prog reader A) : Prop :=
  forall r, exists d, rd_data r = d ++ rd_data (p r).2 /\ rd_end (p r).2 = rd_end r.

Lemma consumes_ReadFull n : consumes (ReadFull n).
Proof.
  intros r. unfold ReadFull. destruct (n <=? _).
  - exists (take (Z.to_nat n) (rd_data r)). simpl. by rewrite take_drop.
  - exists (rd_data r). simpl. by rewrite app_nil_r.
Qed.

Lemma consumes_ret {A} (a : A) : consumes (ret a).
Proof. intros r. by exists []. Qed.
Lemma consumes_throw {A} e : consumes (@throw reader A e).
Proof. intros r. by exists []. Qed.
Lemma consumes_lift {A} (m : res A) : consumes (lift m).
Proof. intros r. by exists []. Qed.
Lemma consumes_if {A} (b : bool) (p q : prog reader A) :
  consumes p -> consumes q -> consumes (if b then p else q).
Proof. by destruct b. Qed.
Lemma consumes_wrap_err {A} msg (p : prog reader A) : consumes p -> consumes (wrap_err msg p).
Proof.
  intros H r. destruct (H r) as (d & Hd & He). exists d.
  unfold wrap_err. by destruct (p r).
Qed.
Lemma consumes_bind {A B} (p : prog reader A) (k : A -> prog reader B) :
  consumes p -> (forall a, consumes (k a)) -> consumes (bind p k).
Proof.
  intros Hp Hk r. destruct (Hp r) as (d & Hd & He). unfold bind.
  destruct (p r) as [[a|e|] r']; simpl in *; [|by exists d..].
  destruct (Hk a r') as (d' & Hd' & He'). exists (d ++ d').
  rewrite <- app_assoc, <- Hd', He'. done.
Qed.

Create HintDb consumes.
#[export] Hint Resolve consumes_ReadFull consumes_ret consumes_throw consumes_lift
  consumes_if consumes_wrap_err consumes_bind : consumes.

(** ** Writers *)

Class Writer (W : Type) := {
  (** [Write(p)]: the count and the error it returns, and the new state. *)
  Write : bytes -> W -> (Z * option error) * W
}.

(** What has reached the sink so far, and the contract: a call accepts a prefix
    of its argument and, when it reports no error, the count it returns is the
    length of that prefix. *)
Class WriterLaws (W : Type) `{Writer W} := {
  written : W -> bytes;
  Write_prefix p w n e w' :
    Write p w = ((n, e), w') ->
    exists d d', p = d ++ d' /\ written w' = written w ++ d /\ (e = None -> len d = n)
}.

Section Writing.
Context {W : Type} `{WriterLaws W}.

(** The retry loop [for len(value) > 0 { ... }] shared by [writeAll],
    [writeFull] and [writeAllProtocol]. Each turn that does not return
    removes at least one byte, so [length value] turns suffice. *)
Fixpoint write_loop (fuel : nat) (value : bytes) : prog W unit := fun w =>
  match value with
  | [] => (Ok tt, w)
  | _ :: _ =>
      match fuel with
      | O => (Panic, w)
      | S fuel' =>
          let '((n, e), w') := Write value w in
          match e with
          | Some err => (Err err, w')
          | None =>
              if (n <=? 0) || (len value <? n) then (Err ErrShortWrite, w')
              else write_loop fuel' (drop (Z.to_nat n) value) w'
          end
      end
  end.

Definition writeAll (value : bytes) : prog W unit := write_loop (length value) value.

(** [io.Copy(writer, &buffer)] for a [bytes.Buffer], i.e. [Buffer.WriteTo]:
    one [Write], [io.ErrShortWrite] when it was partial. *)
Definition CopyBuffer (value : bytes) : prog W unit := fun w =>
  match value with
  | [] => (Ok tt, w)
  | _ :: _ =>
      let '((n, e), w') := Write value w in
      match e with
      | Some err => (Err err, w')
      | None => if n =? len value then (Ok tt, w') else (Err ErrShortWrite, w')
      end
  end.

(** A program that appends to its writer: on success exactly [out], on
    failure some prefix of it. *)
Definition emits (p : prog W unit) (out : bytes) : Prop :=
  forall w, exists d, written (p w).2 = written w ++ d /\
    (exists d', out = d ++ d') /\ ((p w).1 = Ok tt -> d = out) /\ (p w).1 <> Panic.

Lemma write_loop_emits fuel value :
  (length value <= fuel)%nat -> emits (write_loop fuel value) value.
Proof.
  revert value. induction fuel as [|fuel IH]; intros [|b v] Hf w; simpl in Hf; try lia.
  1,2: exists []; rewrite app_nil_r; split_and!; [done|by eexists|done|done].
  cbn [write_loop]. destruct (Write (b :: v) w) as [[n e] w'] eqn:E.
  apply Write_prefix in E as (d & d' & Hpre & Hw & Hn).
  destruct e as [err|]; [exists d; simpl; split_and!; [done|eauto|done|done]|].
  specialize (Hn eq_refl).
  destruct ((n <=? 0) || (len (b :: v) <? n)) eqn:En;
    [exists d; simpl; split_and!; [done|eauto|done|done]|].
  apply orb_false_iff in En as [En1 En2].
  assert (drop (Z.to_nat n) (b :: v) = d') as Hd'.
  { rewrite Hpre, <- Hn. unfold len. by rewrite Nat2Z.id, drop_app_length. }
  destruct (IH (drop (Z.to_nat n) (b :: v))) with (w := w') as (d2 & H2 & [d3 H3] & H4 & H5).
  { rewrite length_drop. simpl. lia. }
  exists (d ++ d2). rewrite H2, Hw, app_assoc. split_and!; [done| | |done].
  - exists d3. rewrite Hpre at 1. by rewrite <- Hd', H3, <- app_assoc.
  - intros Hok. rewrite (H4 Hok), Hd' at 1. by rewrite <- Hpre.
Qed.

Lemma writeAll_emits value : emits (writeAll value) value.
Proof. by apply write_loop_emits. Qed.

Lemma CopyBuffer_emits value : emits (CopyBuffer value) value.
Proof.
  intros w. destruct value as [|b v].
  { exists []. rewrite app_nil_r. split_and!; [done|by eexists|done|done]. }
  unfold CopyBuffer. destruct (Write (b :: v) w) as [[n e] w'] eqn:E.
  apply Write_prefix in E as (d & d' & Hpre & Hw & Hn). exists d.
  destruct e; simpl; [split_and!; [done|eauto|done|done]|]. specialize (Hn eq_refl).
  destruct (n =? len (b :: v)) eqn:En; simpl; split_and!; try done; eauto.
  intros _. rewrite Hpre, len_app in En. destruct d'; [by rewrite Hpre, app_nil_r|].
  rewrite len_cons in En. pose proof (len_nonneg d'). lia.
Qed.

Lemma emits_seq p q o1 o2 :
  emits p o1 -> emits q o2 -> emits (check! p ;; q) (o1 ++ o2).
Proof.
  intros Hp Hq w. unfold bind. destruct (Hp w) as (d & H1 & [d' H2] & H3 & H4).
  destruct (p w) as [[[]|e|] w1]; simpl in *; try done.
  - destruct (Hq w1) as (d2 & G1 & [d2' G2] & G3 & G4). exists (d ++ d2).
    rewrite G1, H1, app_assoc. split_and!; [done| | |done].
    + exists d2'. rewrite (H3 eq_refl), G2 at 1. by rewrite <- app_assoc.
    + intros E. by rewrite (H3 eq_refl), (G3 E).
  - exists d. split_and!; [done| |done|done]. exists (d' ++ o2). by rewrite H2, <- app_assoc.
Qed.

Lemma emits_wrap msg p o : emits p o -> emits (wrap_err msg p) o.
Proof.
  intros Hp w. destruct (Hp w) as (d & H1 & H2 & H3 & H4). exists d.
  unfold wrap_err. destruct (p w) as [[[]|e|] w']; simpl in *; split_and!; auto; done.
Qed.

(** A failed guard writes nothing. *)
Lemma emits_throw e o : emits (throw e) o.
Proof. intros w. exists []. simpl. rewrite app_nil_r. split_and!; [done|eauto|done|done]. Qed.

Lemma emits_lift {A} (m : res A) (k : A -> prog W unit) o :
  no_panic m -> (forall a, m = Ok a -> emits (k a) o) -> emits (bind (lift m) k) o.
Proof.
  intros Hm Hk. destruct m as [a|e|]; [exact (Hk a eq_refl)|apply (emits_throw e)|].
  by destruct Hm.
Qed.

Lemma emits_Ok p o w w' : emits p o -> p w = (Ok tt, w') -> written w' = written w ++ o.
Proof.
  intros He Hp. destruct (He w) as (d & H1 & _ & H3 & _). rewrite Hp in *. simpl in *.
  by rewrite <- (H3 eq_refl).
Qed.
End Writing.

(** ** Concrete writers *)

(** [bytes.Buffer]: takes everything. *)
#[export] Instance Buffer_Writer : Writer bytes :=
  {| Write := fun p w => ((len p, None), w ++ p) |}.

Lemma Buffer_prefix p (w : bytes) n e w' :
  Write p w = ((n, e), w') ->
  exists d d', p = d ++ d' /\ w' = w ++ d /\ (e = None -> len d = n).
Proof. intros [= <- <- <-]. exists p, []. by rewrite app_nil_r. Qed.

#[export] Instance Buffer_Laws : WriterLaws bytes :=
  {| written := fun w => w; Write_prefix := Buffer_prefix |}.

(** A connection that takes at most [cap] bytes per call, and breaks when its
    budget is used up. *)
Record pipe := Pipe { pipe_out : bytes; pipe_cap : nat; pipe_budget : nat }.

#[export] Instance pipe_Writer : Writer pipe := {|
  Write := fun p w =>
    let n := Nat.min (length p) (Nat.min (pipe_cap w) (pipe_budget w)) in
    ((Z.of_nat n, if (pipe_budget w <=? n)%nat then Some (Errorf "broken pipe") else None),
     Pipe (pipe_out w ++ take n p) (pipe_cap w) (pipe_budget w - n)) |}.

Lemma pipe_prefix p (w : pipe) n e w' :
  Write p w = ((n, e), w') ->
  exists d d', p = d ++ d' /\ pipe_out w' = pipe_out w ++ d /\ (e = None -> len d = n).
Proof.
  intros [= <- <- <-]. cbn [pipe_out]. eexists _, (drop _ p).
  split; [by rewrite take_drop|]. split; [done|]. intros _. unfold len. rewrite length_take. lia.
Qed.

#[export] Instance pipe_Laws : WriterLaws pipe :=
  {| written := pipe_out; Write_prefix := pipe_prefix |}.

Lemma writeAll_Buffer value w : writeAll value w = (Ok tt, w ++ value).
Proof.
  unfold writeAll. destruct value as [|b v]; [by rewrite app_nil_r|].
  cbn [length write_loop Write Buffer_Writer].
  pose proof (len_nonneg v). rewrite len_cons.
  replace ((1 + len v <=? 0) || (1 + len v <? 1 + len v)) with false by lia.
  replace (Z.to_nat (1 + len v)) with (S (length v)) by (unfold len; lia).
  cbn [drop]. rewrite drop_all. by destruct (length v).
Qed.

Lemma CopyBuffer_Buffer value w : CopyBuffer value w = (Ok tt, w ++ value).
Proof.
  unfold CopyBuffer. destruct value as [|b v]; [by rewrite app_nil_r|].
  cbn [Write Buffer_Writer]. by rewrite Z.eqb_refl.
Qed.

(** ** Comparing two streams

    The loop that compares two files of equal size through two buffers of [buffer]
    bytes; [what1] and [what2] are the messages a read error is wrapped with, if any.
    Each turn takes at least one byte off [remaining]. *)
Definition maybe_wrap {A} (what : option string) (m : res A) : res A :=
  match what with Some msg => wrap msg m | None => m end.

Lemma maybe_wrap_Ok {A} what (a : A) : maybe_wrap what (Ok a) = Ok a.
Proof. by destruct what. Qed.

Fixpoint compareChunks (buffer : Z) (what1 what2 : option string) (fuel : nat) (remaining : Z)
    (first second : reader) : res bool :=
  if remaining <=? 0 then Ok true
  else
    match fuel with
    | O => Panic
    | S fuel' =>
        let chunk := if remaining <? buffer then remaining else buffer in
        let '(firstPart, first) := ReadFull chunk first in
        let? firstPart := maybe_wrap what1 firstPart in
        let '(secondPart, second) := ReadFull chunk second in
        let? secondPart := maybe_wrap what2 secondPart in
        if negb (bool_decide (firstPart = secondPart)) then Ok false
        else compareChunks buffer what1 what2 fuel' (remaining - chunk) first second
    end.

(** The stream of an open file delivers its content, or a prefix and an error. *)
Definition reads_file (r : reader) (content : bytes) : Prop :=
  exists k, rd_data r = take k content.

(** [prefix_differ a b]: the streams differ within a prefix both have. *)
Definition prefix_differ (a b : bytes) : Prop :=
  exists c, (c <= length a)%nat /\ (c <= length b)%nat /\ take c a <> take c b.

Lemma prefix_differ_app x a b : prefix_differ a b -> prefix_differ (x ++ a) (x ++ b).
Proof.
  intros (c & H1 & H2 & H3). exists (length x + c)%nat. rewrite !length_app.
  split; [lia|]. split; [lia|]. rewrite !take_app_add. intros E%app_inv_head. done.
Qed.

Section Compare.
Context (buffer : Z) (what1 what2 : option string).
Hypothesis buffer_pos : 0 < buffer.

Lemma compareChunks_spec fuel remaining f g :
  (Z.to_nat remaining <= fuel)%nat ->
  match compareChunks buffer what1 what2 fuel remaining f g with
  | Ok true => (Z.to_nat remaining <= length (rd_data f))%nat /\
               (Z.to_nat remaining <= length (rd_data g))%nat /\
               take (Z.to_nat remaining) (rd_data f) = take (Z.to_nat remaining) (rd_data g)
  | Ok false => prefix_differ (rd_data f) (rd_data g)
  | Err _ => True
  | Panic => False
  end.
Proof.
  revert remaining f g. induction fuel as [|fuel IH]; intros rem f g Hf; cbn [compareChunks].
  - replace (rem <=? 0) with true by lia. replace (Z.to_nat rem) with 0%nat by lia.
    rewrite !take_0. auto with lia.
  - destruct (rem <=? 0) eqn:E0.
    { replace (Z.to_nat rem) with 0%nat by lia. rewrite !take_0. auto with lia. }
    set (chunk := if rem <? buffer then rem else buffer).
    assert (0 < chunk <= rem) as Hc.
    { unfold chunk. destruct (Z.ltb_spec rem buffer); lia. }
    destruct (ReadFull chunk f) as [[p|e|] f1] eqn:Ef; rewrite ?maybe_wrap_Ok; cbn [res_bind];
      [|by destruct what1|unfold ReadFull in Ef; by destruct (chunk <=? _)].
    destruct (ReadFull chunk g) as [[q|e|] g1] eqn:Eg; rewrite ?maybe_wrap_Ok; cbn [res_bind];
      [|by destruct what2|unfold ReadFull in Eg; by destruct (chunk <=? _)].
    apply ReadFull_Ok in Ef as (Df & _ & Lf). apply ReadFull_Ok in Eg as (Dg & _ & Lg).
    specialize (Lf ltac:(lia)). specialize (Lg ltac:(lia)). unfold len in Lf, Lg.
    rewrite Df, Dg, !length_app. case_bool_decide as Hpq; cbn [negb].
    + subst q. specialize (IH (rem - chunk) f1 g1 ltac:(lia)).
      destruct (compareChunks buffer what1 what2 fuel (rem - chunk) f1 g1) as [[]|e|]; [| |done|done].
      * destruct IH as (H1 & H2 & H3). split; [lia|]. split; [lia|].
        replace (Z.to_nat rem) with (length p + Z.to_nat (rem - chunk))%nat by lia.
        by rewrite !take_app_add, H3.
      * by apply prefix_differ_app.
    + exists (length p). rewrite !length_app. split; [lia|]. split; [lia|].
      rewrite take_app_length. replace (length p) with (length q) by lia.
      by rewrite take_app_length.
Qed.

(** The comparison decides equality of two complete files of the given size. *)
Lemma compareChunks_complete a b :
  length a = length b ->
  compareChunks buffer what1 what2 (Z.to_nat (len a)) (len a) (Reader a EOF) (Reader b EOF) = Ok (bool_decide (a = b)).
Proof.
  intros Hl.
  assert (forall fuel rem a b, (Z.to_nat rem <= fuel)%nat -> len a = rem -> len b = rem ->
    compareChunks buffer what1 what2 fuel rem (Reader a EOF) (Reader b EOF) = Ok (bool_decide (a = b))) as Hgen.
  { clear -buffer_pos. induction fuel as [|fuel IH]; intros rem a b Hf Ha Hb; cbn [compareChunks].
    - assert (a = [] /\ b = []) as [-> ->].
      { split; apply len_zero_nil; pose proof (len_nonneg a); lia. }
      by replace (rem <=? 0) with true by lia.
    - destruct (rem <=? 0) eqn:E0.
      { assert (a = [] /\ b = []) as [-> ->].
        { split; apply len_zero_nil; pose proof (len_nonneg a); lia. } done. }
      set (chunk := if rem <? buffer then rem else buffer).
      assert (0 < chunk <= rem) as Hc.
      { unfold chunk. destruct (Z.ltb_spec rem buffer); lia. }
      rewrite <- (take_drop (Z.to_nat chunk) a), <- (take_drop (Z.to_nat chunk) b).
      rewrite !ReadFull_app by (unfold len in *; rewrite length_take; lia). rewrite !maybe_wrap_Ok. cbn [res_bind].
      case_bool_decide as Hpq; cbn [negb].
      + rewrite IH; [|lia|unfold len in *; rewrite length_drop; lia..].
        rewrite Hpq. f_equal. apply bool_decide_ext. split; [by intros ->|apply app_inv_head].
      + rewrite bool_decide_eq_false_2; [done|]. intros E. apply Hpq.
        apply (f_equal (take (Z.to_nat chunk))) in E.
        rewrite !take_app_length' in E by (rewrite length_take; unfold len in *; lia). done. }
  apply Hgen; unfold len; lia.
Qed.

Lemma prefix_differ_files f g a b :
  reads_file f a -> reads_file g b -> prefix_differ (rd_data f) (rd_data g) -> a <> b.
Proof.
  intros [k Hf] [l Hg] (c & Hc1 & Hc2 & Hc3) E. rewrite Hf, Hg in *.
  rewrite length_take in *. apply Hc3. subst b. rewrite !take_take. f_equal. lia.
Qed.

Lemma compareChunks_files f g a b :
  reads_file f a -> reads_file g b -> length a = length b ->
  match compareChunks buffer what1 what2 (Z.to_nat (len b)) (len b) f g with
  | Ok true => a = b
  | Ok false => a <> b
  | Err _ => True
  | Panic => False
  end.
Proof.
  intros Hf Hg Hl.
  pose proof (compareChunks_spec (Z.to_nat (len b)) (len b) f g ltac:(lia)) as Hs.
  destruct (compareChunks _ _ _ _ _ f g) as [[]|e|]; [| |done|done].
  - destruct Hf as [k Hf], Hg as [l Hg], Hs as (Hc1 & Hc2 & Hc3). rewrite Hf, Hg in *.
    rewrite length_take in *. unfold len in *. rewrite Nat2Z.id in *.
    rewrite !take_take, !Nat.min_l in Hc3 by lia. by rewrite !take_ge in Hc3 by lia.
  - by eapply prefix_differ_files.
Qed.

End Compare.
