(* ===== verification/GoFS.v ===== *)
(** * One directory of a POSIX file system

    The [os] calls the receiver and the sealer make on the entries of a single
    directory. Names are bound to inodes, so hard links alias; a name and the
    content of an inode become durable by separate [Sync] calls, and [crash] is
    what a power failure may leave. Every call first consults a schedule of
    faults, so theorems over all schedules cover failures at every call. *)

From stdpp Require Import gmap.
From S2P Require Import Prelude GoBytes GoStrings GoIO.

#[global] Instance byte_countable : Countable byte :=
  inj_countable Byte.to_N Byte.of_N Byte.of_to_N.

Definition ErrNotExist : error := Sentinel "file does not exist".
Definition ErrExist : error := Sentinel "file already exists".
Definition EIO : error := Sentinel "input/output error".

Inductive file_kind := Regular | Directory | Symlink | OtherKind.

#[global] Instance file_kind_eq_decision : EqDecision file_kind.
Proof. solve_decision. Defined.

(** [i_synced] : mode and content are on stable storage. *)
Record inode := Inode {
  i_kind : file_kind;
  i_perm : Z;
  i_data : bytes;
  i_synced : bool
}.

(** [names] is the directory as processes see it, [durable] as it is on disk. *)
Record dir := Dir {
  names : gmap bytes nat;
  durable : gmap bytes nat;
  inodes : gmap nat inode;
  next_ino : nat;
  faults : list (option nat)
}.

Definition set_names (m : gmap bytes nat) (d : dir) : dir :=
  Dir m (durable d) (inodes d) (next_ino d) (faults d).
Definition set_durable (m : gmap bytes nat) (d : dir) : dir :=
  Dir (names d) m (inodes d) (next_ino d) (faults d).
Definition set_inodes (m : gmap nat inode) (d : dir) : dir :=
  Dir (names d) (durable d) m (next_ino d) (faults d).
Definition set_faults (f : list (option nat)) (d : dir) : dir :=
  Dir (names d) (durable d) (inodes d) (next_ino d) f.

(** The next entry of the schedule: [Some k] is a failure, after [k] bytes where
    the call transfers data. *)
Definition next_fault : prog dir (option nat) := fun d =>
  match faults d with
  | [] => (Ok None, d)
  | f :: fs => (Ok f, set_faults fs d)
  end.

Definition syscall {A} (p : prog dir A) : prog dir A :=
  let! f := next_fault in
  match f with Some _ => throw EIO | None => p end.

Record FileInfo := { fi_ino : nat; fi_kind : file_kind; fi_perm : Z; fi_size : Z }.

Definition info_of (i : nat) (nd : inode) : FileInfo :=
  {| fi_ino := i; fi_kind := i_kind nd; fi_perm := i_perm nd; fi_size := len (i_data nd) |}.

(** The directory itself: [filepath.EvalSymlinks] and [os.Lstat] of its path. *)
Record RootState := { EvalSymlinks : res bytes; RootInfo : res FileInfo }.

(** [os.Lstat] on an entry. *)
Definition Lstat (name : bytes) : prog dir FileInfo := syscall (fun d =>
  match names d !! name with
  | None => (Err ErrNotExist, d)
  | Some i => match inodes d !! i with
              | None => (Err EIO, d)
              | Some nd => (Ok (info_of i nd), d)
              end
  end).

(** [file.Stat] on an open descriptor. *)
Definition Fstat (i : nat) : prog dir FileInfo := syscall (fun d =>
  match inodes d !! i with
  | None => (Err EIO, d)
  | Some nd => (Ok (info_of i nd), d)
  end).

(** [os.Open]: the descriptor is the inode. *)
Definition Open (name : bytes) : prog dir nat := syscall (fun d =>
  match names d !! name with
  | None => (Err ErrNotExist, d)
  | Some i => (Ok i, d)
  end).

(** [os.ReadDir]: the entries with their types, sorted by name. *)
Definition ReadDir : prog dir (list (bytes * file_kind)) := syscall (fun d =>
  (Ok ((fun n => (n, match (names d !! n) ≫= (fun i => inodes d !! i) with
                     | Some nd => i_kind nd
                     | None => OtherKind
                     end)) <$> sort_Strings (map_to_list (names d)).*1), d)).

(** The reader of an open descriptor: its content, or a prefix and an error. *)
Definition file_reader (i : nat) : prog dir reader :=
  let! f := next_fault in
  fun d => match inodes d !! i with
           | None => (Err EIO, d)
           | Some nd => (Ok match f with
                            | None => Reader (i_data nd) EOF
                            | Some k => Reader (take k (i_data nd)) EIO
                            end, d)
           end.

(** [os.CreateTemp(dir, prefix*suffix)]: the random part is the first number of
    marks that gives an unused name; like the library it gives up with
    [ErrExist] after a bounded number of attempts. *)
Definition temp_name (prefix suffix : bytes) (k : nat) : bytes :=
  prefix ++ replicate k (z2b 48) ++ suffix.

Fixpoint unused_temp (prefix suffix : bytes) (m : gmap bytes nat) (fuel k : nat) : option bytes :=
  match fuel with
  | O => None
  | S fuel' =>
      match m !! temp_name prefix suffix k with
      | None => Some (temp_name prefix suffix k)
      | Some _ => unused_temp prefix suffix m fuel' (S k)
      end
  end.

Definition temp_attempts : nat := 1000.

Definition CreateTemp (prefix suffix : bytes) : prog dir (bytes * nat) := syscall (fun d =>
  match unused_temp prefix suffix (names d) temp_attempts 0 with
  | None => (Err ErrExist, d)
  | Some name =>
      (Ok (name, next_ino d),
       Dir (<[name := next_ino d]> (names d)) (durable d)
           (<[next_ino d := Inode Regular 384 [] false]> (inodes d)) (S (next_ino d)) (faults d))
  end).

(** [os.OpenFile(name, O_WRONLY|O_CREATE|O_EXCL, perm)]. *)
Definition CreateExclusive (name : bytes) (perm : Z) : prog dir nat := syscall (fun d =>
  match names d !! name with
  | Some _ => (Err ErrExist, d)
  | None =>
      (Ok (next_ino d),
       Dir (<[name := next_ino d]> (names d)) (durable d)
           (<[next_ino d := Inode Regular perm [] false]> (inodes d)) (S (next_ino d)) (faults d))
  end).

Definition update_inode (i : nat) (f : inode -> inode) : prog dir unit := fun d =>
  match inodes d !! i with
  | None => (Err EIO, d)
  | Some nd => (Ok tt, set_inodes (<[i := f nd]> (inodes d)) d)
  end.

(** [file.Write]: a failure after [k] bytes leaves these bytes in the file. *)
Definition FileWrite (i : nat) (p : bytes) : prog dir unit :=
  let append q := update_inode i (fun nd =>
    Inode (i_kind nd) (i_perm nd) (i_data nd ++ q) false) in
  let! f := next_fault in
  match f with
  | None => append p
  | Some k => check! append (take k p) ;; throw EIO
  end.

(** [0o400]. *)
Definition perm_0400 : Z := 256.

(** [file.Chmod], [file.Sync], [file.Close]. *)
Definition Chmod (i : nat) (perm : Z) : prog dir unit := syscall (update_inode i (fun nd =>
  Inode (i_kind nd) perm (i_data nd) false)).
Definition Sync (i : nat) : prog dir unit := syscall (update_inode i (fun nd =>
  Inode (i_kind nd) (i_perm nd) (i_data nd) true)).
Definition Close : prog dir unit := syscall (ret tt).

(** [os.Link], [os.Remove], [os.Rename]. *)
Definition Link (old new : bytes) : prog dir unit := syscall (fun d =>
  match names d !! old with
  | None => (Err ErrNotExist, d)
  | Some i =>
      match names d !! new with
      | Some _ => (Err ErrExist, d)
      | None => (Ok tt, set_names (<[new := i]> (names d)) d)
      end
  end).

Definition Remove (name : bytes) : prog dir unit := syscall (fun d =>
  match names d !! name with
  | None => (Err ErrNotExist, d)
  | Some _ => (Ok tt, set_names (delete name (names d)) d)
  end).

Definition Rename (old new : bytes) : prog dir unit := syscall (fun d =>
  match names d !! old with
  | None => (Err ErrNotExist, d)
  | Some i => (Ok tt, set_names (<[new := i]> (delete old (names d))) d)
  end).

(** [directory.Sync] on the directory itself. *)
Definition SyncDir : prog dir unit := syscall (fun d => (Ok tt, set_durable (names d) d)).

(** Ignore the result of a call ([_ = f()], [defer f()]). *)
Definition ignore {S A} (p : prog S A) : prog S unit := fun s => let '(_, s') := p s in (Ok tt, s').

(** ** Teeing a stream into a file

    [io.TeeReader(r, file)]: every byte that is read is appended to the file; when that
    write fails after [k] bytes, the stream ends there with the error of the write. *)
Definition cut_reader (fault : option nat) (r : reader) : reader :=
  match fault with
  | Some k => if (k <? length (rd_data r))%nat then Reader (take k (rd_data r)) EIO else r
  | None => r
  end.

(** Run [p] on the teed stream; the result with the bytes that went through. *)
Definition tee_file {A} (file : nat) (p : prog reader A) : prog (reader * dir) (A * bytes) := fun '(r, d) =>
  match next_fault d with
  | (Ok fault, d) =>
      let src := cut_reader fault r in
      let '(result, src') := p src in
      let taken := (length (rd_data src) - length (rd_data src'))%nat in
      let teed := take taken (rd_data src) in
      let '(_, d) := update_inode file (fun nd => Inode (i_kind nd) (i_perm nd) (i_data nd ++ teed) false) d in
      ((let? a := result in Ok (a, teed)), (Reader (drop taken (rd_data r)) (rd_end r), d))
  | (Err e, d) => (Err e, (r, d))
  | (Panic, d) => (Panic, (r, d))
  end.

(** ** Power failure

    Each binding may be as seen or as on disk; an inode keeps its content if it
    was synced and may hold anything otherwise. *)
Definition crash (d d' : dir) : Prop :=
  (forall n, names d' !! n = names d !! n \/ names d' !! n = durable d !! n) /\
  durable d' = names d' /\ next_ino d' = next_ino d /\
  (forall i, match inodes d !! i with
             | None => inodes d' !! i = None
             | Some nd => exists nd', inodes d' !! i = Some nd' /\ i_synced nd' = true /\
                                      (i_synced nd = true -> nd' = nd)
             end).

(** The content a name denotes. *)
Definition lookup_file (d : dir) (name : bytes) : option inode :=
  i ← names d !! name; inodes d !! i.

(** A name that is synced together with its content survives every crash. *)
Definition stable (d : dir) (name : bytes) (nd : inode) : Prop :=
  exists i, names d !! name = Some i /\ durable d !! name = Some i /\
    inodes d !! i = Some nd /\ i_synced nd = true.

Lemma crash_stable d d' name nd :
  crash d d' -> stable d name nd -> lookup_file d' name = Some nd /\ stable d' name nd.
Proof.
  intros (Hn & Hd & _ & Hi) (i & H1 & H2 & H3 & H4).
  specialize (Hi i). rewrite H3 in Hi. destruct Hi as (nd' & H5 & H6 & H7).
  rewrite (H7 H4) in H5. assert (names d' !! name = Some i) as H8.
  { destruct (Hn name) as [-> | ->]; done. }
  split; [unfold lookup_file; by rewrite H8|].
  exists i. split_and!; try done. by rewrite Hd.
Qed.

Lemma cut_reader_prefix f r : exists rest, rd_data r = rd_data (cut_reader f r) ++ rest.
Proof.
  unfold cut_reader. destruct f as [k|]; [|by exists []; rewrite app_nil_r].
  destruct (k <? _)%nat; [|by exists []; rewrite app_nil_r].
  exists (drop k (rd_data r)). cbn [rd_data]. by rewrite take_drop.
Qed.

Lemma unused_temp_spec prefix suffix m fuel k name :
  unused_temp prefix suffix m fuel k = Some name ->
  m !! name = None /\ exists j, name = temp_name prefix suffix j.
Proof.
  revert k. induction fuel as [|fuel IH]; intros k; [done|]. cbn [unused_temp].
  destruct (m !! temp_name prefix suffix k) eqn:E; [apply IH|]. intros [= <-]. eauto.
Qed.

(** The names of a directory in the order [os.ReadDir] lists them. *)
Definition entry_names (d : dir) : list bytes := sort_Strings (map_to_list (names d)).*1.

Lemma entry_names_NoDup d : NoDup (entry_names d).
Proof.
  unfold entry_names. rewrite sort_Strings_perm. apply NoDup_fst_map_to_list.
Qed.

Lemma entry_names_elem f n : n ∈ entry_names f <-> exists i, names f !! n = Some i.
Proof.
  unfold entry_names. rewrite sort_Strings_perm, list_elem_of_fmap. split.
  - intros ([m i] & -> & Hm). exists i. by apply elem_of_map_to_list.
  - intros [i Hi]. exists (n, i). split; [done|]. by apply elem_of_map_to_list.
Qed.

Lemma ReadDir_names d es d' : ReadDir d = (Ok es, d') -> es.*1 = entry_names d.
Proof.
  assert (forall (f : bytes -> file_kind) l, ((fun n => (n, f n)) <$> l).*1 = l) as Hfst.
  { intros f l. rewrite <- list_fmap_compose. induction l; [done|]. cbn. by f_equal. }
  unfold ReadDir, syscall, bind, next_fault, throw. destruct d as [nm du ind nx [|[k|] fl]]; cbn -[sort_Strings];
    intros Hr; try done; injection Hr as <- _; apply Hfst.
Qed.

Definition empty_dir (fs : list (option nat)) : dir := Dir ∅ ∅ ∅ 0 fs.
