(* ===== verification/GoDir.v ===== *)
(** * Durable publication in a directory

    What the custody receiver and the recorder have in common: a file is written under
    a provisional name, made read-only and synced, linked to its final name, and the
    directory is synced. The lemmas follow the calls of [GoFS] under every fault
    schedule; [effect] is what any such call can have done to the directory, and
    [object_inv] the invariant it keeps. *)

From stdpp Require Import gmap.
From S2P Require Import Prelude GoBytes GoStrings GoIO GoFS.

(** A system call either fails on schedule or runs; only the schedule moves on. *)
Lemma syscall_cases {A} (p : prog dir A) d :
  exists fs', syscall p d = (Err EIO, set_faults fs' d) \/ syscall p d = p (set_faults fs' d).
Proof.
  unfold syscall, bind, next_fault. destruct d as [n m i k [|[x|] fs]]; cbn.
  - exists []. by right.
  - exists fs. by left.
  - exists fs. by right.
Qed.

(** ** Calls on a directory with one new inode *)

Section Calls.
(** The inodes before the call and the one created by it. *)
Context (I : gmap nat inode) (ino : nat).

(** A directory in which only the new inode differs. *)
Definition St (n m : gmap bytes nat) (nd : inode) (fs : list (option nat)) : dir :=
  Dir n m (<[ino := nd]> I) (S ino) fs.

Lemma syscall_St {A} (p : prog dir A) n m nd fs :
  exists fs', syscall p (St n m nd fs) = (Err EIO, St n m nd fs') \/
              syscall p (St n m nd fs) = p (St n m nd fs').
Proof. apply (syscall_cases p (St n m nd fs)). Qed.

Lemma Remove_St n m nd fs name :
  exists fs', Remove name (St n m nd fs) = (Err EIO, St n m nd fs') \/
    (n !! name = None /\ Remove name (St n m nd fs) = (Err ErrNotExist, St n m nd fs')) \/
    (is_Some (n !! name) /\ Remove name (St n m nd fs) = (Ok tt, St (delete name n) m nd fs')).
Proof.
  unfold Remove. edestruct (syscall_St (A := unit)) as (fs1 & [E|E]); rewrite E; exists fs1;
    [by left|right]. clear E. cbn. destruct (n !! name) eqn:E; [right|left]; eauto.
Qed.

(** Read-only calls on an entry. *)
Lemma Lstat_St n m nd fs name j ndj :
  n !! name = Some j -> <[ino := nd]> I !! j = Some ndj ->
  exists fs', Lstat name (St n m nd fs) = (Err EIO, St n m nd fs') \/
              Lstat name (St n m nd fs) = (Ok (info_of j ndj), St n m nd fs').
Proof.
  intros Hn Hj. unfold Lstat.
  edestruct (syscall_St (A := FileInfo)) as (fs1 & [E|E]); rewrite E; exists fs1; [by left|right].
  cbn. by rewrite Hn, Hj.
Qed.

Lemma Fstat_St n m nd fs j ndj :
  <[ino := nd]> I !! j = Some ndj ->
  exists fs', Fstat j (St n m nd fs) = (Err EIO, St n m nd fs') \/
              Fstat j (St n m nd fs) = (Ok (info_of j ndj), St n m nd fs').
Proof.
  intros Hj. unfold Fstat.
  edestruct (syscall_St (A := FileInfo)) as (fs1 & [E|E]); rewrite E; exists fs1; [by left|right].
  cbn. by rewrite Hj.
Qed.

Lemma Open_St n m nd fs name j :
  n !! name = Some j ->
  exists fs', Open name (St n m nd fs) = (Err EIO, St n m nd fs') \/
              Open name (St n m nd fs) = (Ok j, St n m nd fs').
Proof.
  intros Hn. unfold Open.
  edestruct (syscall_St (A := nat)) as (fs1 & [E|E]); rewrite E; exists fs1; [by left|right].
  cbn. by rewrite Hn.
Qed.

Lemma file_reader_St n m nd fs j ndj :
  <[ino := nd]> I !! j = Some ndj ->
  exists fs' r, file_reader j (St n m nd fs) = (Ok r, St n m nd fs') /\ reads_file r (i_data ndj).
Proof.
  intros Hj. unfold file_reader, bind, next_fault.
  destruct fs as [|[k|] fs]; cbn; rewrite Hj; do 2 eexists; (split; [done|]).
  - exists (length (i_data ndj)). by rewrite take_ge.
  - by exists k.
  - exists (length (i_data ndj)). by rewrite take_ge.
Qed.

(** A descriptor call on the new inode. *)
Lemma update_St n m nd fs f :
  exists fs', syscall (update_inode ino f) (St n m nd fs) = (Err EIO, St n m nd fs') \/
              syscall (update_inode ino f) (St n m nd fs) = (Ok tt, St n m (f nd) fs').
Proof.
  destruct (syscall_St (update_inode ino f) n m nd fs) as (fs1 & [-> | ->]); exists fs1; [by left|].
  right. unfold update_inode, set_inodes. cbn. by rewrite lookup_insert_eq, insert_insert_eq.
Qed.

End Calls.

(** The deferred function of a publication: close the descriptor if it is open, and
    remove the provisional name unless it is gone already. *)
Definition cleanup (prov : bytes) (op keep : bool) (d : dir) : dir :=
  let d := if op then (Close d).2 else d in
  if keep then (Remove prov d).2 else d.

(** What may be left behind: [M] is the old directory, possibly with the final name,
    and the provisional name may remain; the directory may or may not be synced. *)
Definition leftover (D : gmap bytes nat) (ino : nat) (prov : bytes) (M n m : gmap bytes nat) : Prop :=
  (n = M \/ n = <[prov := ino]> M) /\ (m = D \/ m = M \/ m = <[prov := ino]> M).

Lemma cleanup_leftover D I ino prov M n m nd fs op keep :
  M !! prov = None -> leftover D ino prov M n m ->
  exists n' fs', cleanup prov op keep (St I ino n m nd fs) = St I ino n' m nd fs' /\
                 leftover D ino prov M n' m.
Proof.
  intros HM Hl. unfold cleanup.
  assert (exists f1, (if op then (Close (St I ino n m nd fs)).2 else St I ino n m nd fs) =
                     St I ino n m nd f1) as (f1 & ->).
  { destruct op; [|eauto]. unfold Close.
    destruct (syscall_St I ino (ret tt) n m nd fs) as (f1 & [-> | ->]); by exists f1. }
  destruct keep; [|by exists n, f1].
  destruct (Remove_St I ino n m nd f1 prov) as (f2 & [-> | [[_ ->] | [Hs ->]]]); [by exists n, f2..|].
  cbn [snd]. exists (delete prov n), f2. split; [done|]. destruct Hl as [[-> | ->] Hm].
  - rewrite HM in Hs. by destruct Hs.
  - rewrite delete_insert_id by done. split; [by left|done].
Qed.

Lemma CreateTemp_cases prefix suffix d :
  exists fs', (exists e, CreateTemp prefix suffix d = (Err e, set_faults fs' d)) \/
    exists k, let name := temp_name prefix suffix k in
      names d !! name = None /\
      CreateTemp prefix suffix d =
        (Ok (name, next_ino d),
         St (inodes d) (next_ino d) (<[name := next_ino d]> (names d)) (durable d)
            (Inode Regular 384 [] false) fs').
Proof.
  unfold CreateTemp.
  match goal with |- context [syscall ?p d] => destruct (syscall_cases p d) as (f1 & [E|E]) end;
    rewrite E; exists f1; [left; eauto|].
  cbn [names set_faults]. destruct (unused_temp _ _ _ _ _) as [name|] eqn:Eu; [right|left; eauto].
  apply unused_temp_spec in Eu as [Hn [j ->]]. exists j. done.
Qed.

Lemma CreateTemp_faultless prefix suffix d prov :
  faults d = [] -> unused_temp prefix suffix (names d) temp_attempts 0 = Some prov ->
  CreateTemp prefix suffix d =
    (Ok (prov, next_ino d),
     St (inodes d) (next_ino d) (<[prov := next_ino d]> (names d)) (durable d) (Inode Regular 384 [] false) []).
Proof.
  intros Hf Ht. unfold CreateTemp, syscall, next_fault, bind. rewrite Hf. cbv beta iota.
  by rewrite Ht, Hf.
Qed.

(** Every binding points to an inode, and inode numbers are not reused. *)
Definition wf (d : dir) : Prop :=
  (forall n i, names d !! n = Some i -> is_Some (inodes d !! i)) /\
  (forall n i, durable d !! n = Some i -> is_Some (inodes d !! i)) /\
  (forall i, is_Some (inodes d !! i) -> (i < next_ino d)%nat).

(** A published object: an immutable, synced regular file. *)
Definition sealed (nd : inode) : Prop :=
  i_kind nd = Regular /\ i_perm nd = perm_0400 /\ i_synced nd = true.

(** ** Publications *)

(** The final names of a component and the pattern of its provisional names. *)
Record publication := {
  object_name : bytes -> bool;
  temp_prefix : bytes;
  temp_suffix : bytes;
  temp_not_object k : object_name (temp_name temp_prefix temp_suffix k) = false
}.

Definition provisional_name (P : publication) (k : nat) : bytes :=
  temp_name (temp_prefix P) (temp_suffix P) k.

Lemma provisional_not_object P k : object_name P (provisional_name P k) = false.
Proof. apply temp_not_object. Qed.

Section Publication.
Context (P : publication).

(** Whatever an object name denotes, now or on disk, is a sealed file. *)
Definition object_inv (d : dir) : Prop :=
  wf d /\
  forall n i, object_name P n = true -> names d !! n = Some i \/ durable d !! n = Some i ->
    exists nd, inodes d !! i = Some nd /\ sealed nd.

(** What one call did to the directory [d], in terms of its final state [d']: only the
    new inode was written; the provisional name may be left over; at most one object
    name was added, unused before, and bound to a sealed inode. *)
Record effect (d d' : dir) (prov : bytes) (nd : inode) : Prop := {
  eff_inodes : inodes d' = <[next_ino d := nd]> (inodes d);
  eff_next : next_ino d' = S (next_ino d);
  eff_kind : i_kind nd = Regular;
  eff_names : exists M,
    (M = names d \/ exists final, object_name P final = true /\ names d !! final = None /\ sealed nd /\
                                  M = <[final := next_ino d]> (names d)) /\
    leftover (durable d) (next_ino d) prov M (names d') (durable d')
}.

(** A failed body, after the deferred clean-up. *)
Lemma failed_effect d k n m nd fs op keep :
  names d !! provisional_name P k = None -> i_kind nd = Regular ->
  (leftover (durable d) (next_ino d) (provisional_name P k) (names d) n m \/
   exists final, object_name P final = true /\ names d !! final = None /\ sealed nd /\
     leftover (durable d) (next_ino d) (provisional_name P k) (<[final := next_ino d]> (names d)) n m) ->
  effect d (cleanup (provisional_name P k) op keep (St (inodes d) (next_ino d) n m nd fs))
    (provisional_name P k) nd.
Proof.
  set (prov := provisional_name P k). intros HN Hkind Hres.
  assert (exists M, (M = names d \/ exists final, object_name P final = true /\ names d !! final = None /\
    sealed nd /\ M = <[final := next_ino d]> (names d)) /\
    leftover (durable d) (next_ino d) prov M n m /\ M !! prov = None) as (M & HM & HL & HMp).
  { destruct Hres as [Hl|(final & Hc & Hf & Hse & Hl)].
    - exists (names d). split_and!; [by left|done|done].
    - exists (<[final := next_ino d]> (names d)). split_and!; [right; eauto|done|].
      rewrite lookup_insert_ne; [done|]. intros ->. change (object_name P (provisional_name P k) = true) in Hc.
    by rewrite provisional_not_object in Hc. }
  destruct (cleanup_leftover (durable d) (inodes d) (next_ino d) prov M n m nd fs op keep HMp HL)
    as (n' & f3 & -> & HL').
  split; [done|done|done|]. by exists M.
Qed.

(** An entry other than the provisional name and a new final name is as before. *)
Lemma effect_names d d' prov nd n i :
  effect d d' prov nd -> n <> prov -> names d !! n = Some i -> names d' !! n = Some i.
Proof.
  intros [_ _ _ (M & HM & [Hn _])] Hne Hi.
  assert (M !! n = Some i) as HMi.
  { destruct HM as [->|(final & _ & Hf & _ & ->)]; [done|].
    rewrite lookup_insert_ne; [done|]. intros ->. congruence. }
  destruct Hn as [-> | ->]; [done|]. by rewrite lookup_insert_ne.
Qed.

Lemma effect_wf d d' prov nd : wf d -> effect d d' prov nd -> wf d'.
Proof.
  intros (W1 & W2 & W3) [Hi Hk _ (M & HM & [Hn Hm])].
  assert (forall n i, M !! n = Some i -> is_Some (<[next_ino d := nd]> (inodes d) !! i)) as HM'.
  { intros n i Hni. destruct (decide (i = next_ino d)) as [->|]; [by rewrite lookup_insert_eq|].
    rewrite lookup_insert_ne by done. destruct HM as [->|(final & _ & _ & _ & ->)]; [by eapply W1|].
    apply lookup_insert_Some in Hni as [[_ ?]|[_ ?]]; [done|]. by eapply W1. }
  assert (forall n i, <[prov := next_ino d]> M !! n = Some i ->
                      is_Some (<[next_ino d := nd]> (inodes d) !! i)) as HM''.
  { intros n i [[_ <-]|[_ ?]]%lookup_insert_Some; [by rewrite lookup_insert_eq|by eapply HM']. }
  rewrite <- Hi in HM', HM''. split_and!.
  - intros n i Hni. destruct Hn as [E|E]; rewrite E in Hni; eauto.
  - intros n i Hni. destruct Hm as [E|[E|E]]; rewrite E in Hni; [|by eauto..].
    rewrite Hi. destruct (decide (i = next_ino d)) as [->|]; [by rewrite lookup_insert_eq|].
    rewrite lookup_insert_ne by done. by eapply W2.
  - intros i [x Hx]. rewrite Hi in Hx. rewrite Hk. apply lookup_insert_Some in Hx as [[<- _]|[_ Hx]]; [lia|].
    specialize (W3 i ltac:(by rewrite Hx)). lia.
Qed.

Lemma effect_inv d d' k nd :
  object_inv d -> effect d d' (provisional_name P k) nd -> object_inv d'.
Proof.
  intros [Hwf Hinv] He. split; [by eapply effect_wf|].
  pose proof Hwf as (W1 & W2 & W3). destruct He as [Hi Hk _ (M & HM & [Hn Hm])].
  set (prov := provisional_name P k) in *. intros n i Hc Hni.
  assert (n <> prov) as Hne.
  { intros ->. change (object_name P (provisional_name P k) = true) in Hc.
    by rewrite provisional_not_object in Hc. }
  assert (forall j, names d !! n = Some j \/ durable d !! n = Some j ->
    exists nd0, inodes d' !! j = Some nd0 /\ sealed nd0) as Hold.
  { intros j Hj. destruct (Hinv n j Hc Hj) as (nd0 & H5 & H6). exists nd0. split; [|done].
    rewrite Hi, lookup_insert_ne; [done|]. intros <-.
    specialize (W3 (next_ino d) ltac:(by rewrite H5)). lia. }
  assert (forall j, M !! n = Some j -> exists nd0, inodes d' !! j = Some nd0 /\ sealed nd0) as HMn.
  { intros j Hj. destruct HM as [->|(final & _ & Hf & Hs & ->)]; [by apply Hold; left|].
    apply lookup_insert_Some in Hj as [[_ <-]|[_ Hj]]; [|by apply Hold; left].
    exists nd. by rewrite Hi, lookup_insert_eq. }
  assert (forall j, <[prov := next_ino d]> M !! n = Some j ->
    exists nd0, inodes d' !! j = Some nd0 /\ sealed nd0) as HMp.
  { intros j. rewrite lookup_insert_ne by done. apply HMn. }
  destruct Hni as [Hni|Hni].
  - destruct Hn as [E|E]; rewrite E in Hni; eauto.
  - destruct Hm as [E|[E|E]]; rewrite E in Hni; eauto.
Qed.

Lemma effect_stable d d' k nd n x :
  wf d -> object_name P n = true -> effect d d' (provisional_name P k) nd ->
  stable d n x -> stable d' n x.
Proof.
  intros (W1 & W2 & W3) Hc He (i & H5 & H6 & H7 & H8).
  assert (n <> provisional_name P k) as Hne.
  { intros ->. change (object_name P (provisional_name P k) = true) in Hc.
    by rewrite provisional_not_object in Hc. }
  pose proof (effect_names _ _ _ _ n i He Hne H5) as Hn'.
  destruct He as [Hi Hk _ (M & HM & [Hn Hm])].
  assert (M !! n = Some i) as HMi.
  { destruct Hn as [E|E]; rewrite E in Hn'; [done|]. by rewrite lookup_insert_ne in Hn'. }
  exists i. split_and!; [done| | |done].
  - destruct Hm as [-> | [-> | ->]]; [done|done|]. by rewrite lookup_insert_ne.
  - rewrite Hi, lookup_insert_ne; [done|]. intros <-.
    specialize (W3 (next_ino d) ltac:(by rewrite H7)). lia.
Qed.

Lemma crash_inv d d' : object_inv d -> crash d d' -> object_inv d'.
Proof.
  intros [(W1 & W2 & W3) Hinv] (Hn & Hd & Hk & Hi).
  assert (forall n i, names d' !! n = Some i -> is_Some (inodes d !! i)) as Hold.
  { intros n i Hni. destruct (Hn n) as [E|E]; rewrite E in Hni; eauto. }
  assert (forall i, is_Some (inodes d !! i) -> is_Some (inodes d' !! i)) as Hup.
  { intros i [x Hx]. specialize (Hi i). rewrite Hx in Hi. destruct Hi as (nd' & -> & _). eauto. }
  split.
  - split_and!; [eauto|rewrite Hd; eauto|]. intros i [x Hx]. rewrite Hk. apply W3.
    specialize (Hi i). destruct (inodes d !! i); [eauto|congruence].
  - intros n i Hc Hni. rewrite Hd in Hni.
    assert (names d !! n = Some i \/ durable d !! n = Some i) as Hni'.
    { destruct (Hn n) as [E|E]; rewrite E in Hni; destruct Hni; auto. }
    destruct (Hinv n i Hc Hni') as (x & Hx & Hs). exists x. split; [|done].
    specialize (Hi i). rewrite Hx in Hi. destruct Hi as (nd' & -> & _ & Heq).
    by rewrite (Heq (proj2 (proj2 Hs))).
Qed.

Lemma empty_object_inv fs : object_inv (empty_dir fs).
Proof.
  split; [split_and!|].
  - intros n i Hn. cbn in Hn. by rewrite lookup_empty in Hn.
  - intros n i Hn. cbn in Hn. by rewrite lookup_empty in Hn.
  - intros i [x Hx]. cbn in Hx. by rewrite lookup_empty in Hx.
  - intros n i _ [Hn|Hn]; cbn in Hn; by rewrite lookup_empty in Hn.
Qed.

(** ** The store a directory implements

    The abstract specification of a published directory: names are bound once and for
    all, [sync] makes every binding permanent, and a crash loses none that was. *)
Record store := Store { visible : gmap bytes bytes; permanent : gmap bytes bytes }.

Inductive store_step : store -> store -> Prop :=
| store_publish L K n c : L !! n = None -> store_step (Store L K) (Store (<[n := c]> L) K)
| store_sync L K : store_step (Store L K) (Store L L)
| store_crash L K L' : K ⊆ L' -> L' ⊆ L -> store_step (Store L K) (Store L' L').

(** The contents of the objects among the entries [m]. *)
Definition contents (I : gmap nat inode) (m : gmap bytes nat) : gmap bytes bytes :=
  omap (fun i => i_data <$> I !! i) (filter (fun e => object_name P e.1 = true) m).

Definition abs (d : dir) : store :=
  Store (contents (inodes d) (names d)) (contents (inodes d) (durable d)).

Lemma lookup_contents I m n :
  contents I m !! n = if object_name P n then m !! n ≫= (fun i => i_data <$> I !! i) else None.
Proof.
  unfold contents. rewrite lookup_omap. destruct (object_name P n) eqn:Ho.
  - destruct (m !! n) as [i|] eqn:Em.
    + by rewrite (map_lookup_filter_Some_2 _ _ _ i) by done.
    + rewrite map_lookup_filter_None_2; [done|by left].
  - rewrite map_lookup_filter_None_2; [done|]. right. intros i _. cbn. by rewrite Ho.
Qed.

(** A published name is not taken back: what is on disk is in the directory. *)
Definition store_inv (d : dir) : Prop :=
  object_inv d /\ forall n i, object_name P n = true -> durable d !! n = Some i -> names d !! n = Some i.

Lemma empty_store_inv fs : store_inv (empty_dir fs).
Proof. split; [apply empty_object_inv|]. by intros n i _ Hn. Qed.

Lemma contents_new_inode d nd m :
  wf d -> (forall n i, m !! n = Some i -> is_Some (inodes d !! i)) ->
  contents (<[next_ino d := nd]> (inodes d)) m = contents (inodes d) m.
Proof.
  intros (_ & _ & W3) Hm. apply map_eq. intros n. rewrite !lookup_contents.
  destruct (object_name P n); [|done]. destruct (m !! n) as [i|] eqn:Ei; [|done]. cbn.
  rewrite lookup_insert_ne; [done|]. intros <-. specialize (W3 _ (Hm _ _ Ei)). lia.
Qed.

Lemma contents_provisional I k i m : contents I (<[provisional_name P k := i]> m) = contents I m.
Proof.
  apply map_eq. intros n. rewrite !lookup_contents. destruct (object_name P n) eqn:Ho; [|done].
  rewrite lookup_insert_ne; [done|]. intros <-. by rewrite provisional_not_object in Ho.
Qed.

Lemma contents_publish I final i nd m :
  object_name P final = true -> I !! i = Some nd ->
  contents I (<[final := i]> m) = <[final := i_data nd]> (contents I m).
Proof.
  intros Ho Hi. apply map_eq. intros n. rewrite lookup_contents.
  destruct (decide (n = final)) as [->|Hne].
  - rewrite Ho, !lookup_insert_eq. cbn. by rewrite Hi.
  - rewrite !lookup_insert_ne by done. by rewrite lookup_contents.
Qed.

(** What one call did is a publication, a sync, both or nothing. *)
Lemma effect_refines d d' k nd :
  wf d -> effect d d' (provisional_name P k) nd -> rtc store_step (abs d) (abs d').
Proof.
  intros Hwf He. pose proof Hwf as (W1 & W2 & _). destruct He as [Hi _ _ (M & HM & [Hn Hm])].
  unfold abs. rewrite Hi.
  assert (contents (<[next_ino d:=nd]> (inodes d)) (names d') =
          contents (<[next_ino d:=nd]> (inodes d)) M) as ->.
  { destruct Hn as [-> | ->]; [done|apply contents_provisional]. }
  set (L := contents (inodes d) (names d)). set (K := contents (inodes d) (durable d)).
  set (L' := contents (<[next_ino d:=nd]> (inodes d)) M).
  assert (contents (<[next_ino d:=nd]> (inodes d)) (durable d') = K \/
          contents (<[next_ino d:=nd]> (inodes d)) (durable d') = L') as HK.
  { destruct Hm as [-> | [-> | ->]]; [left; by apply contents_new_inode|by right|right; apply contents_provisional]. }
  assert (rtc store_step (Store L K) (Store L' K)) as HL.
  { unfold L'. destruct HM as [->|(final & Ho & Hf & _ & ->)].
    - rewrite contents_new_inode by done. constructor.
    - rewrite (contents_publish _ _ _ nd) by (done || apply lookup_insert_eq).
      rewrite contents_new_inode by done. apply rtc_once, store_publish.
      unfold L. by rewrite lookup_contents, Ho, Hf. }
  destruct HK as [-> | ->]; [done|]. eapply rtc_r; [exact HL|]. constructor.
Qed.

Lemma crash_refines d d' : store_inv d -> crash d d' -> store_step (abs d) (abs d').
Proof.
  intros [[_ Hinv] Hsub] (Hn & Hd & _ & Hi). unfold abs. rewrite Hd.
  assert (forall m n i, object_name P n = true -> names d !! n = Some i \/ durable d !! n = Some i ->
    m !! n = Some i -> contents (inodes d') m !! n = contents (inodes d) m !! n) as Hc.
  { intros m n i Ho Hni Hm. rewrite !lookup_contents, Ho, Hm. cbn.
    destruct (Hinv n i Ho Hni) as (x & Hx & Hs). specialize (Hi i). rewrite Hx in Hi.
    destruct Hi as (x' & Hx' & _ & Heq). by rewrite Hx, Hx', (Heq (proj2 (proj2 Hs))). }
  apply store_crash; apply map_subseteq_spec; intros n c; rewrite !lookup_contents;
    (destruct (object_name P n) eqn:Ho; [|done]).
  - destruct (durable d !! n) as [i|] eqn:Ei; [|done]. intros Hx.
    assert (names d' !! n = Some i) as Hn'.
    { destruct (Hn n) as [-> | ->]; [by apply Hsub|done]. }
    specialize (Hc (names d') n i Ho (or_intror Ei) Hn'). rewrite !lookup_contents, Ho, Hn' in Hc.
    rewrite Hn', Hc. exact Hx.
  - destruct (names d' !! n) as [i|] eqn:Ei; [|done].
    assert (names d !! n = Some i) as Hn'.
    { destruct (Hn n) as [E|E]; rewrite E in Ei; [done|by apply Hsub]. }
    specialize (Hc (names d') n i Ho (or_introl Hn') Ei). rewrite !lookup_contents, Ho, Ei in Hc.
    rewrite Hn', Hc. done.
Qed.

Lemma effect_store_inv d d' k nd :
  store_inv d -> effect d d' (provisional_name P k) nd -> store_inv d'.
Proof.
  intros [Hinv Hsub] He. split; [by eapply effect_inv|]. intros n i Ho Hi.
  assert (n <> provisional_name P k) as Hne.
  { intros ->. by rewrite provisional_not_object in Ho. }
  pose proof He as [_ _ _ (M & HM & [Hn Hm])].
  assert (M !! n = Some i -> names d' !! n = Some i) as HMn.
  { intros HMi. destruct Hn as [-> | ->]; [done|]. by rewrite lookup_insert_ne. }
  destruct Hm as [E|[E|E]]; rewrite E in Hi.
  - by eapply effect_names, Hsub.
  - by apply HMn.
  - rewrite lookup_insert_ne in Hi by done. by apply HMn.
Qed.

Lemma crash_store_inv d d' : store_inv d -> crash d d' -> store_inv d'.
Proof.
  intros [Hinv _] Hc. split; [by eapply crash_inv|]. destruct Hc as (_ & -> & _). done.
Qed.

End Publication.
