(* ===== verification/GoPublish.v ===== *)
(** * Publishing a provisional file by hard link

    The sequence the receiver and the recorder components share: seal the provisional
    file (chmod, sync, close), link it to its final name, compare when the name is
    taken, drop the provisional name and sync the directory. The two flags are the ones
    the deferred clean-up of these functions reads. [evolves] is one step in the life of
    such a directory, for histories of calls and power failures. *)

From stdpp Require Import gmap.
From S2P Require Import Prelude GoBytes GoStrings GoIO GoFS GoDir.

(** The local state of a publishing function. *)
Record publish_state := PS {
  ps_dir : dir;
  provisionalOpen : bool;
  keepProvisional : bool
}.

Definition on_dir {A} (p : prog dir A) : prog publish_state A := fun s =>
  let '(r, d) := p (ps_dir s) in (r, PS d (provisionalOpen s) (keepProvisional s)).
Definition set_open (b : bool) : prog publish_state unit := fun s =>
  (Ok tt, PS (ps_dir s) b (keepProvisional s)).
Definition set_keep (b : bool) : prog publish_state unit := fun s =>
  (Ok tt, PS (ps_dir s) (provisionalOpen s) b).

(** The deferred function. *)
Definition publishDefer (provisionalName : bytes) (s : publish_state) : dir :=
  let d := if provisionalOpen s then (Close (ps_dir s)).2 else ps_dir s in
  if keepProvisional s then (Remove provisionalName d).2 else d.

(** [_ = file.Close()] before the return of an error. *)
Definition or_close {A} (p : prog dir A) : prog dir A := fun d =>
  match p d with
  | (Ok a, d) => (Ok a, d)
  | (r, d) => (r, (Close d).2)
  end.

(** [defer file.Close()]. *)
Definition defer_close {A} (p : prog dir A) : prog dir A := fun d =>
  let '(r, d) := p d in (r, (Close d).2).

(** Chmod, sync and close, each error with its message. *)
Definition sealProvisional (chmod sync close : string) (provisional : nat) : prog publish_state unit :=
  check! on_dir (wrap_err chmod (Chmod provisional perm_0400)) ;;
  check! on_dir (wrap_err sync (Sync provisional)) ;;
  fun s =>
    match on_dir Close s with
    | (Ok _, s) => set_open false s
    | (Err e, s) => let '(_, s) := set_open false s in (Err (Wrap close e), s)
    | (Panic, s) => (Panic, s)
    end.

(** The messages of a publication. *)
Record link_messages := {
  lm_publish : string;
  lm_remove_duplicate : string;
  lm_sync_duplicate : string;
  lm_remove : string;
  lm_sync : string
}.

Section PublishByLink.
Context {A : Type} (msgs : link_messages) (compare : prog dir bool) (syncDirectory : prog dir unit)
  (conflict : error) (provisionalName finalName : bytes) (duplicate new : A).

(** The final name already exists. *)
Definition resolveTaken : prog publish_state A :=
  let! exact := on_dir compare in
  check! on_dir (wrap_err (lm_remove_duplicate msgs) (Remove provisionalName)) ;;
  check! set_keep false ;;
  check! on_dir (wrap_err (lm_sync_duplicate msgs) syncDirectory) ;;
  fail! negb exact with conflict ;;
  ret duplicate.

(** The final name was linked by this call; it is taken back when the provisional name
    cannot be removed. *)
Definition finishLinked : prog publish_state A := fun s =>
  match on_dir (Remove provisionalName) s with
  | (Ok _, s) =>
      (check! set_keep false ;;
       check! on_dir (wrap_err (lm_sync msgs) syncDirectory) ;;
       ret new) s
  | (Err e, s) =>
      let '(_, s) := on_dir (Remove finalName) s in (Err (Wrap (lm_remove msgs) e), s)
  | (Panic, s) => (Panic, s)
  end.

Definition publishByLink : prog publish_state A := fun s =>
  match on_dir (Link provisionalName finalName) s with
  | (Ok _, s) => finishLinked s
  | (Err e, s) =>
      if negb (errors_Is e ErrExist) then (Err (Wrap (lm_publish msgs) e), s) else resolveTaken s
  | (Panic, s) => (Panic, s)
  end.
End PublishByLink.

(** ** The calls under every fault schedule *)

Section Link_Facts.
Context (N D : gmap bytes nat) (I : gmap nat inode) (ino : nat) (prov final : bytes).
Hypothesis prov_unused : N !! prov = None.
Hypothesis prov_final : prov <> final.
Hypothesis names_wf : forall name j, N !! name = Some j -> is_Some (I !! j).

#[local] Abbreviation St := (GoDir.St I ino).
#[local] Abbreviation leftover := (GoDir.leftover D ino prov).

Lemma close_St n m nd fs :
  exists fs', Close (St n m nd fs) = (Err EIO, St n m nd fs') \/ Close (St n m nd fs) = (Ok tt, St n m nd fs').
Proof. unfold Close. destruct (syscall_St I ino (ret tt) n m nd fs) as (f & [-> | ->]); exists f; auto. Qed.

Lemma defer_close_St {A} (p : prog dir A) n m nd fs r fs1 :
  p (St n m nd fs) = (r, St n m nd fs1) -> exists fs', defer_close p (St n m nd fs) = (r, St n m nd fs').
Proof.
  intros Hp. unfold defer_close. rewrite Hp.
  destruct (close_St n m nd fs1) as (f & [-> | ->]); by exists f.
Qed.

(** A program that only reads. *)
Definition reads_only {A} (p : prog dir A) n m nd (P : res A -> Prop) : Prop :=
  forall fs, exists fs' result, p (St n m nd fs) = (result, St n m nd fs') /\ P result.

Lemma defer_close_reads {A} (p : prog dir A) n m nd P :
  reads_only p n m nd P -> reads_only (defer_close p) n m nd P.
Proof.
  intros Hp fs. destruct (Hp fs) as (f1 & r & E & Hr).
  destruct (defer_close_St p n m nd fs r f1 E) as (f2 & E2). by exists f2, r.
Qed.

Lemma seal_cases chmod sync close nd n m fs op keep :
  exists fs' nd' result op',
    sealProvisional chmod sync close ino (PS (St n m nd fs) op keep) = (result, PS (St n m nd' fs') op' keep) /\
    i_kind nd' = i_kind nd /\ i_data nd' = i_data nd /\
    match result with
    | Ok _ => nd' = Inode (i_kind nd) perm_0400 (i_data nd) true /\ op' = false
    | Err _ => True
    | Panic => False
    end.
Proof.
  unfold sealProvisional, bind, on_dir, wrap_err, Chmod, Sync. cbn [ps_dir provisionalOpen keepProvisional].
  edestruct (update_St I ino) as (f2 & [E|E]); rewrite E; cbn; clear E; [by do 4 eexists|].
  edestruct (update_St I ino) as (f3 & [E|E]); rewrite E; cbn; clear E; [by do 4 eexists|].
  edestruct close_St as (f4 & [E|E]); rewrite E; cbn; by do 4 eexists.
Qed.

(** Only the file that is teed into changes, and it holds what was read. *)
Lemma tee_cases {A} (p : prog reader A) r n m nd fs :
  exists fs' f teed r' result src',
    tee_file ino p (r, St n m nd fs) =
      (res_bind result (fun a => Ok (a, teed)),
       (r', St n m (Inode (i_kind nd) (i_perm nd) (i_data nd ++ teed) false) fs')) /\
    (fs = [] -> f = None /\ fs' = []) /\ p (cut_reader f r) = (result, src') /\
    forall x, rd_data (cut_reader f r) = x ++ rd_data src' ->
      teed = x /\ rd_data r = x ++ rd_data r' /\ rd_end r' = rd_end r.
Proof.
  unfold tee_file.
  assert (exists f fs', next_fault (St n m nd fs) = (Ok f, St n m nd fs') /\ (fs = [] -> f = None /\ fs' = []))
    as (f & fs' & Hn & Hnf). { unfold next_fault. destruct fs as [|f fs]; cbn; do 2 eexists; (split; [reflexivity|]); [done|]. by intros [=]. }
  rewrite Hn. destruct (p (cut_reader f r)) as [result src'] eqn:Ep.
  unfold update_inode. cbn. rewrite lookup_insert_eq. unfold set_inodes. cbn. rewrite insert_insert_eq.
  exists fs', f. do 3 eexists. exists src'. split; [reflexivity|]. split; [done|]. split; [done|]. intros x Hd.
  cbn [rd_data rd_end]. destruct (cut_reader_prefix f r) as [rest Hrest].
  rewrite Hd, length_app, Nat.add_sub, take_app_length. split; [done|]. split; [|done].
  rewrite Hrest, Hd, <- app_assoc. by rewrite drop_app_length.
Qed.

Lemma seal_faultless chmod sync close nd n m op keep :
  sealProvisional chmod sync close ino (PS (St n m nd []) op keep) =
    (Ok tt, PS (St n m (Inode (i_kind nd) perm_0400 (i_data nd) true) []) false keep).
Proof.
  unfold sealProvisional, on_dir, wrap_err, Chmod, Sync, Close, syscall, bind, next_fault, update_inode, set_inodes, set_open.
  cbn. rewrite lookup_insert_eq. cbn. rewrite insert_insert_eq, lookup_insert_eq. cbn. by rewrite insert_insert_eq.
Qed.

Section Outcome.
Context {A : Type} (duplicate new : A).

(** What a publication that ended in [result] left, when the provisional file is [nd]. *)
Definition linked (nd : inode) (result : res A) (n m : gmap bytes nat) (keep : bool) : Prop :=
  match result with
  | Ok v => keep = false /\ m = n /\
      ((v = new /\ N !! final = None /\ n = <[final := ino]> N) \/
       (v = duplicate /\ n = N /\
        exists j ndj, N !! final = Some j /\ I !! j = Some ndj /\ i_data ndj = i_data nd))
  | Err _ => leftover N n m \/ (N !! final = None /\ leftover (<[final := ino]> N) n m)
  | Panic => False
  end.

Lemma untouched nd e keep : linked nd (Err e) (<[prov := ino]> N) D keep.
Proof. left. split; [by right|by left]. Qed.

Context (msgs : link_messages) (compare : prog dir bool) (syncDirectory : prog dir unit) (conflict : error).
Context (nd : inode).
Hypothesis compare_reads : forall j ndj, N !! final = Some j -> I !! j = Some ndj ->
  reads_only compare (<[prov := ino]> N) D nd
    (fun r => match r with Ok true => i_data ndj = i_data nd | Panic => False | _ => True end).
Hypothesis sync_cases : forall n m fs, exists fs',
  syncDirectory (St n m nd fs) = (Ok tt, St n n nd fs') \/
  (exists e m', (m' = m \/ m' = n) /\ syncDirectory (St n m nd fs) = (Err e, St n m' nd fs')).

Lemma finishLinked_cases fs op :
  N !! final = None ->
  exists n m fs' keep result,
    finishLinked msgs syncDirectory prov final new
      (PS (St (<[final := ino]> (<[prov := ino]> N)) D nd fs) op true) = (result, PS (St n m nd fs') op keep) /\
    linked nd result n m keep.
Proof.
  intros HF. unfold finishLinked, on_dir. cbn [ps_dir provisionalOpen keepProvisional].
  destruct (Remove_St I ino (<[final := ino]> (<[prov := ino]> N)) D nd fs prov) as
    (f1 & [-> | [[Hn _] | [_ ->]]]).
  - cbn. destruct (Remove_St I ino (<[final := ino]> (<[prov := ino]> N)) D nd f1 final) as
      (f2 & [-> | [[Hn _] | [_ ->]]]); cbn.
    + do 5 eexists. split; [done|]. right. split; [done|]. split; [right|by left]. by rewrite insert_insert_ne.
    + by rewrite lookup_insert_eq in Hn.
    + do 5 eexists. split; [done|]. left. split; [right|by left].
      rewrite delete_insert_id; [done|]. by rewrite lookup_insert_ne.
  - by rewrite lookup_insert_ne, lookup_insert_eq in Hn.
  - cbn. unfold bind, wrap_err, set_keep. cbn.
    assert (delete prov (<[final := ino]> (<[prov := ino]> N)) = <[final := ino]> N) as ->.
    { rewrite delete_insert_ne by done. by rewrite delete_insert_id. }
    destruct (sync_cases (<[final := ino]> N) D f1) as (f2 & [-> | (e & m' & Hm & ->)]); cbn;
      do 5 eexists; (split; [done|]).
    + split; [done|]. split; [done|]. by left.
    + right. split; [done|]. split; [by left|tauto].
Qed.

Lemma resolveTaken_cases fs op j ndj :
  N !! final = Some j -> I !! j = Some ndj ->
  exists n m fs' keep result,
    resolveTaken msgs compare syncDirectory conflict prov duplicate
      (PS (St (<[prov := ino]> N) D nd fs) op true) = (result, PS (St n m nd fs') op keep) /\
    linked nd result n m keep.
Proof.
  intros HF HI. unfold resolveTaken, bind, on_dir. cbn [ps_dir provisionalOpen keepProvisional].
  destruct (compare_reads j ndj HF HI fs) as (f1 & [exact|e|] & -> & Hx); [| |done].
  2: { do 5 eexists. split; [done|]. apply untouched. }
  cbn. unfold wrap_err. destruct (Remove_St I ino (<[prov := ino]> N) D nd f1 prov) as
    (f2 & [-> | [[Hn _] | [_ ->]]]); cbn.
  { do 5 eexists. split; [done|]. apply untouched. }
  { by rewrite lookup_insert_eq in Hn. }
  rewrite delete_insert_id by done.
  destruct (sync_cases N D f2) as (f3 & [-> | (e & m' & Hm & ->)]); cbn.
  2: { do 5 eexists. split; [done|]. left. split; [by left|tauto]. }
  destruct exact; cbn; do 5 eexists; (split; [done|]).
  - split; [done|]. split; [done|]. right. split_and!; try done. by exists j, ndj.
  - left. split; [by left|right; by left].
Qed.

Lemma publishByLink_cases fs op :
  exists n m fs' keep result,
    publishByLink msgs compare syncDirectory conflict prov final duplicate new
      (PS (St (<[prov := ino]> N) D nd fs) op true) = (result, PS (St n m nd fs') op keep) /\
    linked nd result n m keep.
Proof.
  unfold publishByLink, on_dir, Link. cbn [ps_dir provisionalOpen keepProvisional].
  match goal with |- context [syscall ?p _] =>
    destruct (syscall_St I ino p (<[prov := ino]> N) D nd fs) as (f2 & [E|E]); rewrite E; clear E end.
  { do 5 eexists. split; [reflexivity|]. apply untouched. }
  cbn. rewrite lookup_insert_eq, lookup_insert_ne by done. destruct (N !! final) as [j|] eqn:Ej in |- *; cbn.
  - destruct (names_wf _ _ Ej) as [ndj Hj]. change (Dir ?a ?b ?c ?e f2) with (St a b nd f2).
    by apply (resolveTaken_cases f2 op j ndj).
  - unfold set_names. cbn. change (Dir ?a ?b ?c ?e f2) with (St a b nd f2). by apply finishLinked_cases.
Qed.

End Outcome.
End Link_Facts.

(** ** Programs that only read

    They change nothing but the schedule. *)

Definition same_dir (d d' : dir) : Prop := exists fs, d' = set_faults fs d.
Abbreviation quiet := (keeps same_dir).

Lemma set_faults_id d : set_faults (faults d) d = d.
Proof. by destruct d. Qed.

#[global] Instance same_dir_PreOrder : PreOrder same_dir.
Proof.
  split; [intros d; exists (faults d); by rewrite set_faults_id|].
  intros d1 d2 d3 [f1 ->] [f2 ->]. by exists f2.
Qed.

Lemma quiet_syscall {A} (p : prog dir A) : quiet p -> quiet (syscall p).
Proof.
  intros Hp d. destruct (syscall_cases p d) as (f & [-> | ->]); [by exists f|].
  destruct (Hp (set_faults f d)) as [f2 E]. exists f2. rewrite E. by destruct d.
Qed.

Lemma quiet_Lstat name : quiet (Lstat name).
Proof.
  apply quiet_syscall. intros d. exists (faults d). rewrite set_faults_id.
  destruct (names d !! name) as [i|]; [|done]. by destruct (inodes d !! i).
Qed.
Lemma quiet_Fstat i : quiet (Fstat i).
Proof. apply quiet_syscall. intros d. exists (faults d). rewrite set_faults_id. by destruct (inodes d !! i). Qed.
Lemma quiet_Open name : quiet (Open name).
Proof. apply quiet_syscall. intros d. exists (faults d). rewrite set_faults_id. by destruct (names d !! name). Qed.
Lemma quiet_ReadDir : quiet ReadDir.
Proof. apply quiet_syscall. intros d. exists (faults d). by rewrite set_faults_id. Qed.
Lemma quiet_Close : quiet Close.
Proof. apply quiet_syscall, keeps_ret, _. Qed.
Lemma quiet_file_reader i : quiet (file_reader i).
Proof.
  intros d. unfold file_reader, bind, next_fault. destruct d as [n m I k [|f fs]]; cbn;
    destruct (I !! i); by eexists.
Qed.

Lemma quiet_or_close {A} (p : prog dir A) : quiet p -> quiet (or_close p).
Proof.
  intros Hp d. specialize (Hp d). unfold or_close.
  destruct (p d) as [[a|e|] d1]; [done|etrans; [exact Hp|apply quiet_Close]..].
Qed.

Lemma quiet_defer_close {A} (p : prog dir A) : quiet p -> quiet (defer_close p).
Proof.
  intros Hp d. specialize (Hp d). unfold defer_close. destruct (p d) as [r d1].
  etrans; [exact Hp|apply quiet_Close].
Qed.

Lemma quiet_run {A} (p : prog dir A) d r d' : quiet p -> p d = (r, d') -> exists fs, d' = set_faults fs d.
Proof. intros Hp Hr. exact (keeps_run _ _ _ _ _ Hp Hr). Qed.

(** What a call that succeeded saw. *)
Lemma syscall_Ok {A} (p : prog dir A) d a d' :
  syscall p d = (Ok a, d') -> exists fs, p (set_faults fs d) = (Ok a, d').
Proof. destruct (syscall_cases p d) as (f & [-> | ->]); [done|eauto]. Qed.

Lemma Lstat_Ok name d info d' :
  Lstat name d = (Ok info, d') -> (exists fs, d' = set_faults fs d) /\
    exists i nd, names d !! name = Some i /\ inodes d !! i = Some nd /\ info = info_of i nd.
Proof.
  intros Hr. split; [by eapply quiet_run; [apply quiet_Lstat|]|]. apply syscall_Ok in Hr as [fs Hr]. cbn in Hr.
  destruct (names d !! name) as [i|]; [|done]. destruct (inodes d !! i) as [nd|] eqn:Ei; [|done].
  injection Hr as <- _. by exists i, nd.
Qed.

Lemma Fstat_Ok i d info d' :
  Fstat i d = (Ok info, d') -> (exists fs, d' = set_faults fs d) /\
    exists nd, inodes d !! i = Some nd /\ info = info_of i nd.
Proof.
  intros Hr. split; [by eapply quiet_run; [apply quiet_Fstat|]|]. apply syscall_Ok in Hr as [fs Hr]. cbn in Hr.
  destruct (inodes d !! i) as [nd|] eqn:Ei; [|done]. injection Hr as <- _. by exists nd.
Qed.

Lemma Open_Ok name d i d' :
  Open name d = (Ok i, d') -> (exists fs, d' = set_faults fs d) /\ names d !! name = Some i.
Proof.
  intros Hr. split; [by eapply quiet_run; [apply quiet_Open|]|]. apply syscall_Ok in Hr as [fs Hr]. cbn in Hr.
  destruct (names d !! name) as [j|]; [|done]. by injection Hr as -> _.
Qed.

(** A stream that reaches [io.EOF] delivered the whole file. *)
Lemma file_reader_Ok i d r d' :
  file_reader i d = (Ok r, d') -> (exists fs, d' = set_faults fs d) /\
    exists nd, inodes d !! i = Some nd /\ (errors_Is (rd_end r) EOF = true -> r = Reader (i_data nd) EOF).
Proof.
  intros Hr. split; [by eapply quiet_run; [apply quiet_file_reader|]|].
  unfold file_reader, bind, next_fault in Hr. destruct d as [n m I k [|[x|] fs]]; cbn in Hr;
    destruct (I !! i) as [nd|] eqn:Ei; try done; injection Hr as <- _; exists nd; (split; [done|]); done.
Qed.

Lemma or_close_Ok {A} (p : prog dir A) d a d' : or_close p d = (Ok a, d') -> p d = (Ok a, d').
Proof. unfold or_close. by destruct (p d) as [[]]. Qed.

(** The same calls when nothing fails. *)
Lemma syscall_here {A} (p : prog dir A) d : faults d = [] -> syscall p d = p d.
Proof. intros Hf. unfold syscall, bind, next_fault. by rewrite Hf. Qed.

Lemma Lstat_here name d i nd :
  faults d = [] -> names d !! name = Some i -> inodes d !! i = Some nd -> Lstat name d = (Ok (info_of i nd), d).
Proof. intros Hf Hn Hi. unfold Lstat. by rewrite syscall_here, Hn, Hi. Qed.

Lemma Fstat_here d i nd : faults d = [] -> inodes d !! i = Some nd -> Fstat i d = (Ok (info_of i nd), d).
Proof. intros Hf Hi. unfold Fstat. by rewrite syscall_here, Hi. Qed.

Lemma Open_here name d i : faults d = [] -> names d !! name = Some i -> Open name d = (Ok i, d).
Proof. intros Hf Hn. unfold Open. by rewrite syscall_here, Hn. Qed.

#[export] Hint Resolve quiet_Lstat quiet_Fstat quiet_Open quiet_ReadDir quiet_Close quiet_file_reader : keeps.

Ltac quiet :=
  repeat first [ keeps1 | apply quiet_or_close | apply quiet_defer_close | apply quiet_syscall ].

(** ** From the outcome to the effect on the directory *)

Section Effects.
Context (P : publication).

(** What a call that ended with [Ok v] did, [content] being the provisional file. *)
Definition published {A} (duplicate new : A) (final content : bytes) (d d' : dir) (nd : inode) (v : A) : Prop :=
  names d' = durable d' /\
  ((v = new /\ names d !! final = None /\ names d' = <[final := next_ino d]> (names d) /\
    nd = Inode Regular perm_0400 content true) \/
   (v = duplicate /\ names d' = names d /\
    exists nd0, lookup_file d final = Some nd0 /\ i_data nd0 = content)).

Lemma linked_effect {A} (duplicate new : A) d k final nd result n m fs op keep :
  wf d -> names d !! provisional_name P k = None -> object_name P final = true ->
  nd = Inode Regular perm_0400 (i_data nd) true ->
  linked (names d) (durable d) (inodes d) (next_ino d) (provisional_name P k) final duplicate new
    nd result n m keep -> (forall v, result = Ok v -> op = false) ->
  let d' := cleanup (provisional_name P k) op keep (St (inodes d) (next_ino d) n m nd fs) in
  effect P d d' (provisional_name P k) nd /\
  forall v, result = Ok v -> published duplicate new final (i_data nd) d d' nd v.
Proof.
  intros Hwf HN Ho Hnd Hl Hop d'. destruct result as [v|e|]; [| |done].
  - destruct Hl as (-> & -> & Hv). subst d'. rewrite (Hop v eq_refl). cbn [cleanup]. split.
    + split; [done|done|by rewrite Hnd|]. exists n. split; [|split; [by left|right; by left]].
      destruct Hv as [(_ & Hf & ->)|(_ & -> & _)]; [right|by left]. exists final. split_and!; try done.
      by rewrite Hnd.
    + intros v' [= <-]. split; [done|]. destruct Hv as [(-> & Hf & ->)|(-> & -> & j & ndj & Hj & Hi & Hd)].
      * left. done.
      * right. split_and!; try done. exists ndj. split; [|done]. unfold lookup_file. by rewrite Hj.
  - split; [|done]. apply failed_effect; [done|by rewrite Hnd|].
    destruct Hl as [Hl|[Hf Hl]]; [by left|]. right. exists final. split_and!; try done. by rewrite Hnd.
Qed.

(** A published object is sealed and stable. *)
Lemma published_stable {A} (duplicate new : A) final content d d' k nd v :
  object_inv P d -> object_name P final = true -> effect P d d' (provisional_name P k) nd ->
  published duplicate new final content d d' nd v ->
  exists x, stable d' final x /\ sealed x /\ i_data x = content.
Proof.
  intros [Hwf Hseal] Ho He [Hnd [(_ & Hf & Hn & ->)|(_ & Hn & x & Hx & <-)]].
  - exists (Inode Regular perm_0400 content true). split; [|done]. exists (next_ino d).
    by rewrite <- Hnd, Hn, lookup_insert_eq, (eff_inodes _ _ _ _ _ He), lookup_insert_eq.
  - unfold lookup_file in Hx. destruct (names d !! final) as [i|] eqn:Ei; [|done]. cbn in Hx.
    destruct (Hseal final i Ho (or_introl Ei)) as (x' & Hx' & Hs).
    assert (x' = x) as -> by congruence. exists x. split_and!; try done; try apply Hs.
    exists i. rewrite <- Hnd, Hn. split_and!; try done; [|apply Hs].
    rewrite (eff_inodes _ _ _ _ _ He), lookup_insert_ne; [done|]. intros <-.
    destruct Hwf as (_ & _ & W3). specialize (W3 (next_ino d) ltac:(by rewrite Hx)). lia.
Qed.

(** What a clean-up did: names that are no objects were removed, and the directory may
    have been synced. *)
Record tidies (d d' : dir) : Prop := {
  tidy_inodes : inodes d' = inodes d;
  tidy_next : next_ino d' = next_ino d;
  tidy_names n : names d' !! n = names d !! n \/ (object_name P n = false /\ names d' !! n = None);
  tidy_durable : durable d' = durable d \/ durable d' = names d'
}.

Lemma tidies_object d d' n : tidies d d' -> object_name P n = true -> names d' !! n = names d !! n.
Proof. intros Ht Ho. destruct (tidy_names _ _ Ht n) as [E|[E _]]; congruence. Qed.

Lemma tidies_store d d' :
  store_inv P d -> tidies d d' ->
  store_inv P d' /\ rtc store_step (abs P d) (abs P d') /\
  (forall n x, object_name P n = true -> stable d n x -> stable d' n x).
Proof.
  intros [[(W1 & W2 & W3) Hseal] Hsub] Ht. pose proof Ht as [Hi Hk Hn Hd].
  assert (forall n i, names d' !! n = Some i -> names d !! n = Some i) as Hold.
  { intros n i Hni. destruct (Hn n) as [E|[_ E]]; congruence. }
  assert (contents P (inodes d') (names d') = contents P (inodes d) (names d)) as Hc.
  { apply map_eq. intros n. rewrite !lookup_contents, Hi. destruct (object_name P n) eqn:Ho; [|done].
    by rewrite (tidies_object d d' n). }
  split; [|split].
  - split; [split; [split_and!|]|].
    + intros n i Hni. rewrite Hi. eauto.
    + intros n i Hni. rewrite Hi. destruct Hd as [E|E]; rewrite E in Hni; eauto.
    + intros i. rewrite Hi, Hk. apply W3.
    + intros n i Ho Hni. rewrite Hi. apply (Hseal n i Ho).
      destruct Hni as [Hni|Hni]; [left; eauto|]. destruct Hd as [E|E]; rewrite E in Hni; eauto.
    + intros n i Ho Hni. rewrite (tidies_object d d' n) by done.
      destruct Hd as [E|E]; rewrite E in Hni; [by apply Hsub|eauto].
  - unfold abs. rewrite Hc. destruct Hd as [-> | ->]; rewrite ?Hc, ?Hi; [constructor|].
    apply rtc_once, store_sync.
  - intros n x Ho (i & H1 & H2 & H3 & H4). exists i.
    rewrite (tidies_object d d' n), Hi by done. split_and!; try done.
    destruct Hd as [-> | ->]; [done|]. by rewrite (tidies_object d d' n).
Qed.

(** One step of a history: nothing but the schedule changed, a call had its effect,
    leftovers were removed, or the power failed. *)
Inductive evolves (d d' : dir) : Prop :=
| evolves_same fs : d' = set_faults fs d -> evolves d d'
| evolves_effect fs k nd : effect P (set_faults fs d) d' (provisional_name P k) nd -> evolves d d'
| evolves_tidy fs : tidies (set_faults fs d) d' -> evolves d d'
| evolves_crash : crash d d' -> evolves d d'.

Lemma evolves_store d d' :
  store_inv P d -> evolves d d' ->
  store_inv P d' /\ rtc store_step (abs P d) (abs P d') /\
  (forall n x, object_name P n = true -> stable d n x -> stable d' n x).
Proof.
  intros Hinv Hs. pose proof Hinv as [[Hwf _] _].
  destruct Hs as [fs ->|fs k nd He|fs Ht|Hc].
  - split; [exact Hinv|]. split; [constructor|]. by intros n x _ Hx.
  - split; [exact (effect_store_inv P (set_faults fs d) d' k nd Hinv He)|].
    split; [exact (effect_refines P (set_faults fs d) d' k nd Hwf He)|].
    intros n x Hn Hx. exact (effect_stable P (set_faults fs d) d' k nd n x Hwf Hn He Hx).
  - exact (tidies_store (set_faults fs d) d' Hinv Ht).
  - split; [by eapply crash_store_inv|]. split; [by apply rtc_once, crash_refines|].
    intros n x _ Hx. by eapply crash_stable.
Qed.

Lemma evolves_refl d : evolves d d.
Proof. apply (evolves_same _ _ (faults d)). by rewrite set_faults_id. Qed.

(** Whole histories of a relation every step of which is such a step. *)
Lemma history_store (step : dir -> dir -> Prop) d d' :
  (forall d d', wf d -> step d d' -> evolves d d') -> store_inv P d -> rtc step d d' ->
  store_inv P d' /\ rtc store_step (abs P d) (abs P d') /\
  (forall n x, object_name P n = true -> stable d n x -> stable d' n x).
Proof.
  intros Hstep Hinv Hs. induction Hs as [|d1 d2 d3 H12 _ IH]; [split_and!; [done|constructor|auto]|].
  pose proof Hinv as [[Hwf _] _].
  destruct (evolves_store d1 d2 Hinv (Hstep _ _ Hwf H12)) as (Hinv2 & Hr & Hk).
  destruct (IH Hinv2) as (Hinv3 & Hr3 & Hk3). split_and!; [done|by etrans|auto].
Qed.

Lemma evolution_store d d' :
  store_inv P d -> rtc evolves d d' ->
  store_inv P d' /\ rtc store_step (abs P d) (abs P d') /\
  (forall n x, object_name P n = true -> stable d n x -> stable d' n x).
Proof. apply history_store. auto. Qed.

End Effects.
