(* ===== verification/GoCalls.v ===== *)
(** * What the calls on a directory leave alone

    Frames for the calls of [GoFS], used with every schedule of faults: [same] for calls that
    only read, [touched] for calls on one open file, [tidy] for the schedule itself. *)

From stdpp Require Import gmap.
From S2P Require Import Prelude GoBytes GoStrings GoIO GoFS GoDir GoPublish.

(** Every call to come succeeds or fails without any effect: no move is reported as failed after
    it took effect, and no write is reported as failed after a part of it was written. The
    schedule does not say which call a fault will hit, so both are excluded together. *)
Definition clean (d : dir) : Prop := Forall (fun f => f = None \/ f = Some O) (faults d).

Lemma clean_tail n m I k f fs n' m' I' k' : clean (Dir n m I k (f :: fs)) -> clean (Dir n' m' I' k' fs).
Proof. unfold clean. cbn. by intros [_ Hc]%Forall_cons. Qed.
Lemma clean_head n m I k x fs : ~ clean (Dir n m I k (Some (S x) :: fs)).
Proof. unfold clean. cbn. intros [Hf _]%Forall_cons. by destruct Hf. Qed.

(** [d'] differs from [d] in the schedule only. *)
Definition same (d d' : dir) : Prop :=
  names d' = names d /\ durable d' = durable d /\ inodes d' = inodes d /\ next_ino d' = next_ino d /\
  (clean d -> clean d').

Lemma same_refl d : same d d.
Proof. by split_and!. Qed.
Lemma same_trans d1 d2 d3 : same d1 d2 -> same d2 d3 -> same d1 d3.
Proof. intros (? & ? & ? & ? & ?) (? & ? & ? & ? & ?). split_and!; [congruence..|auto]. Qed.
Lemma same_wf d d' : same d d' -> wf d -> wf d'.
Proof. intros (En & Ed & Ei & Ek & _) (W1 & W2 & W3). unfold wf. by rewrite En, Ed, Ei, Ek. Qed.

Lemma same_syscall {A} (p : prog dir A) d r d' :
  syscall p d = (r, d') -> (exists fs, r = Err EIO /\ d' = set_faults fs d /\ same d d') \/
  (exists fs, p (set_faults fs d) = (r, d') /\ same d (set_faults fs d)).
Proof.
  unfold syscall, bind, next_fault. destruct d as [n m i k [|[x|] fs]]; cbn; intros H.
  - right. exists []. split; [done|]. by split_and!.
  - injection H as <- <-. left. exists fs. split_and!; try done. split_and!; try done. apply clean_tail.
  - right. exists fs. split; [done|]. split_and!; try done. apply clean_tail.
Qed.

(** A program that only reads. *)
Abbreviation reads p := (keeps same p).

#[global] Instance same_PreOrder : PreOrder same.
Proof. split; [intros d; apply same_refl|intros d1 d2 d3; apply same_trans]. Qed.

Lemma reads_syscall {A} (p : prog dir A) : reads p -> reads (syscall p).
Proof.
  intros Hp d. destruct (syscall p d) as [r d'] eqn:E. apply same_syscall in E as [(fs & _ & _ & ?)|(fs & E & Hs)]; [done|].
  etrans; [exact Hs|]. specialize (Hp (set_faults fs d)). by rewrite E in Hp.
Qed.
Lemma reads_Lstat name : reads (Lstat name).
Proof. apply reads_syscall. intros d. cbn. destruct (names d !! name) as [i|]; [|done]. by destruct (inodes d !! i). Qed.
Lemma reads_Open name : reads (Open name).
Proof. apply reads_syscall. intros d. cbn. by destruct (names d !! name). Qed.
Lemma reads_Close : reads GoFS.Close.
Proof. apply reads_syscall, keeps_ret, _. Qed.
Lemma reads_file_reader i : reads (file_reader i).
Proof.
  intros [n m I k [|f fs]]; unfold file_reader, bind, next_fault; cbn; destruct (I !! i); split_and!; try done; apply clean_tail.
Qed.
Lemma reads_or_close {A} (p : prog dir A) : reads p -> reads (or_close p).
Proof.
  intros Hp d. specialize (Hp d). unfold or_close. destruct (p d) as [[a|e|] d1]; [done|..]; (etrans; [exact Hp|apply reads_Close]).
Qed.
Lemma reads_defer_close {A} (p : prog dir A) : reads p -> reads (defer_close p).
Proof. intros Hp d. specialize (Hp d). unfold defer_close. destruct (p d) as [r d1]. etrans; [exact Hp|apply reads_Close]. Qed.

#[export] Hint Resolve reads_Lstat reads_Open reads_Close reads_file_reader : keeps.
Ltac reads := repeat first [ keeps1 | apply reads_or_close | apply reads_defer_close ].

(** ** The schedule *)

Definition tidy (d d' : dir) : Prop := clean d -> clean d'.
#[global] Instance tidy_PreOrder : PreOrder tidy.
Proof. split; [intros d; unfold tidy; auto|intros d1 d2 d3; unfold tidy; auto]. Qed.

Lemma tidy_syscall {A} (p : prog dir A) : (forall d, faults (p d).2 = faults d) -> keeps tidy (syscall p).
Proof.
  intros Hp d Hc. destruct (syscall p d) as [r d'] eqn:E. apply same_syscall in E as [(fs & _ & _ & (_ & _ & _ & _ & Hs))|(fs & E & (_ & _ & _ & _ & Hs))].
  - cbn. auto.
  - cbn. unfold clean. specialize (Hp (set_faults fs d)). rewrite E in Hp. cbn in Hp. rewrite Hp. by apply Hs.
Qed.
Lemma tidy_reads {A} (p : prog dir A) : reads p -> keeps tidy p.
Proof. intros Hp d. by destruct (Hp d) as (_ & _ & _ & _ & ?). Qed.
Lemma update_faults i f d : faults (update_inode i f d).2 = faults d.
Proof. unfold update_inode. by destruct (inodes d !! i). Qed.
Lemma tidy_Sync i : keeps tidy (Sync i).
Proof. apply tidy_syscall. intros d. apply update_faults. Qed.
Lemma tidy_FileWrite i p : keeps tidy (FileWrite i p).
Proof.
  intros [n m I k fs] Hc. unfold FileWrite, bind, next_fault, clean. destruct fs as [|[x|] fs]; cbn [faults].
  - by rewrite update_faults.
  - destruct (update_inode _ _ _) as [r d1] eqn:E. pose proof (f_equal (fun x => faults x.2) E) as Ef. cbn in Ef. rewrite update_faults in Ef.
    assert (clean d1) as Hd1 by (unfold clean; rewrite <- Ef; by apply Forall_cons in Hc as [_ ?]). by destruct r.
  - rewrite update_faults. cbn. by apply Forall_cons in Hc as [_ ?].
Qed.
Lemma tidy_Create path perm : keeps tidy (CreateExclusive path perm).
Proof. apply tidy_syscall. intros d. by destruct (names d !! path). Qed.
Lemma tidy_Remove path : keeps tidy (Remove path).
Proof. apply tidy_syscall. intros d. by destruct (names d !! path). Qed.
#[export] Hint Resolve tidy_Sync tidy_FileWrite tidy_Create tidy_Remove : keeps.
#[export] Hint Extern 1 (keeps tidy _) => apply tidy_reads : keeps.

(** ** Calls on one open file *)
Record touched (f : nat) (d d' : dir) : Prop := {
  to_names : names d' = names d;
  to_durable : durable d' = durable d;
  to_next : next_ino d' = next_ino d;
  to_others i : i <> f -> inodes d' !! i = inodes d !! i;
  to_clean : clean d -> clean d'
}.

Lemma same_touched f d d' : same d d' -> touched f d d'.
Proof. intros (En & Ed & Ei & Ek & Hc). constructor; try done. intros i _. by rewrite Ei. Qed.

Lemma update_touched f g d r d' nd : inodes d !! f = Some nd -> update_inode f g d = (r, d') ->
  touched f d d' /\ inodes d' !! f = Some (g nd) /\ r = Ok tt.
Proof.
  intros Hnd. unfold update_inode. rewrite Hnd. intros [= <- <-]. split_and!; [|cbn; by rewrite lookup_insert_eq|done].
  constructor; try done. intros i Hi. cbn. by rewrite lookup_insert_ne.
Qed.

Lemma FileWrite_touched f p d r d' nd : inodes d !! f = Some nd -> FileWrite f p d = (r, d') ->
  touched f d d' /\ exists nd' q, inodes d' !! f = Some nd' /\ i_kind nd' = i_kind nd /\ i_data nd' = i_data nd ++ q /\ (r = Ok tt -> q = p).
Proof.
  intros Hnd Hr. pose proof (tidy_FileWrite f p d) as Ht. rewrite Hr in Ht. cbn in Ht.
  unfold FileWrite, bind, next_fault in Hr. destruct d as [n m I k fs]. cbn in *.
  destruct fs as [|[x|] fs]; unfold update_inode in Hr; cbn in Hr; rewrite Hnd in Hr; injection Hr as <- <-;
    (split; [constructor; cbn; try done; intros i Hi; by rewrite lookup_insert_ne|]); cbn; rewrite lookup_insert_eq;
    do 2 eexists; split_and!; try done.
Qed.

Lemma Sync_touched f d r d' nd : inodes d !! f = Some nd -> Sync f d = (r, d') ->
  touched f d d' /\ exists nd', inodes d' !! f = Some nd' /\ i_kind nd' = i_kind nd /\ i_data nd' = i_data nd /\ (r = Ok tt -> i_synced nd' = true).
Proof.
  intros Hnd Hr. pose proof (tidy_Sync f d) as Ht. rewrite Hr in Ht. cbn in Ht. unfold Sync in Hr.
  apply same_syscall in Hr as [(fs & -> & -> & Hs)|(fs & Hr & Hs)]; [split; [by apply same_touched|by exists nd]|].
  eapply update_touched in Hr as (T & Hnd' & ->); [|cbn; exact Hnd]. destruct T. split; [constructor; try done|].
  eexists. by split_and!.
Qed.

Lemma touched_wf f d d' nd : wf d -> touched f d d' -> is_Some (inodes d !! f) -> inodes d' !! f = Some nd -> wf d'.
Proof.
  intros (W1 & W2 & W3) [En Ed Ek Ho _] Hf Hnd.
  assert (forall i, is_Some (inodes d !! i) <-> is_Some (inodes d' !! i)) as Hs.
  { intros i. destruct (decide (i = f)) as [->|Hi]; [rewrite Hnd; split; eauto|by rewrite Ho]. }
  unfold wf. rewrite En, Ed, Ek. split_and!; intros; [apply Hs; eauto..|]. by apply W3, Hs.
Qed.

