(* ===== verification/GoWin.v ===== *)
(** * Replacing a state file on Windows

    [MoveFileExW] with [MOVEFILE_WRITE_THROUGH], the primitive under [durableRename] and
    [replaceFile], and the way the collector's state files are replaced: a new file in the
    same directory, written, synced, closed and moved over the old one. *)

From stdpp Require Import gmap.
From S2P Require Import Prelude GoBytes GoStrings GoIO GoFS GoDir GoPublish.

(** The move returns when it is on disk. A failure may come before it took effect, or after
    (an error the caller sees although the name was moved). *)
Definition MoveFileExW (replace : bool) (source destination : bytes) : prog dir unit := fun d =>
  match next_fault d with
  | (Ok fault, d) =>
      match names d !! source, fault with
      | _, Some O => (Err EIO, d)
      | None, _ => (Err ErrNotExist, d)
      | Some i, _ =>
          if negb replace && (if names d !! destination is Some _ then true else false) then (Err ErrExist, d) else
          let moved := set_names (<[destination := i]> (delete source (names d))) d in
          match fault with
          | None => (Ok tt, set_durable (<[destination := i]> (delete source (durable d))) moved)
          | Some _ => (Err EIO, moved)
          end
      end
  | (Err e, d) => (Err e, d)
  | (Panic, d) => (Panic, d)
  end.

(** [os.CreateTemp], one [Write], [Sync], [Close], [MoveFileExW]; the deferred function
    removes the new file unless it took the place of the old one. *)
Definition replaceWith (prefix suffix name text : bytes) : prog dir unit :=
  let! (temp, file) := CreateTemp prefix suffix in
  fun d =>
    match (check! or_close (FileWrite file text) ;;
           check! or_close (Sync file) ;;
           check! Close ;;
           MoveFileExW true temp name) d with
    | (Ok _, d) => (Ok tt, d)
    | (r, d) => (r, (Remove temp d).2)
    end.

(** ** What a replacement does

    Old files keep their content. The name denotes the old file or the complete new one,
    now and on disk, and after success it is the new one in both. *)

Record replaced (name text : bytes) (d d' : dir) : Prop := {
  rep_wf : wf d';
  rep_inodes i : is_Some (inodes d !! i) -> inodes d' !! i = inodes d !! i;
  rep_name : names d' !! name = names d !! name \/
             exists i nd, names d' !! name = Some i /\ inodes d' !! i = Some nd /\ i_data nd = text /\ i_synced nd = true;
  rep_durable : durable d' !! name = durable d !! name \/
             exists i nd, durable d' !! name = Some i /\ names d' !! name = Some i /\ inodes d' !! i = Some nd /\ i_data nd = text /\ i_synced nd = true
}.

(** The name was not touched. *)
Record unchanged (name : bytes) (d d' : dir) : Prop := {
  un_wf : wf d';
  un_inodes i : is_Some (inodes d !! i) -> inodes d' !! i = inodes d !! i;
  un_name : names d' !! name = names d !! name;
  un_durable : durable d' !! name = durable d !! name
}.

Lemma unchanged_replaced name text d d' : unchanged name d d' -> replaced name text d d'.
Proof. intros []. constructor; auto. Qed.

Lemma unchanged_faults name d fs : wf d -> unchanged name d (set_faults fs d).
Proof. intros Hwf. constructor; auto. Qed.

Section Replace.
Context (prefix suffix name text : bytes) (Hname : forall k, name <> temp_name prefix suffix k).

(** What is true while the new file is being written under its temporary name. *)
Record writing (d : dir) (temp : bytes) (d' : dir) : Prop := {
  wr_names n : n <> temp -> names d' !! n = names d !! n;
  wr_temp : names d' !! temp = Some (next_ino d);
  wr_durable : durable d' = durable d;
  wr_inodes i : i <> next_ino d -> inodes d' !! i = inodes d !! i;
  wr_new : is_Some (inodes d' !! next_ino d);
  wr_next : next_ino d' = S (next_ino d)
}.

Lemma CreateTemp_writing d temp file d' :
  CreateTemp prefix suffix d = (Ok (temp, file), d') ->
  file = next_ino d /\ (exists k, temp = temp_name prefix suffix k) /\ writing d temp d' /\
  exists nd, inodes d' !! next_ino d = Some nd /\ i_data nd = [].
Proof.
  intros (fs & H)%syscall_Ok. destruct (unused_temp _ _ _ _ _) as [t|] eqn:E; [|done]. injection H as <- <- <-.
  apply unused_temp_spec in E as [_ Hk]. split_and!; [done..| |].
  2: { eexists. cbn. by rewrite lookup_insert_eq. }
  constructor; cbn.
  - intros n Hn. by rewrite lookup_insert_ne.
  - by rewrite lookup_insert_eq.
  - done.
  - intros i Hi. by rewrite lookup_insert_ne.
  - rewrite lookup_insert_eq. eauto.
  - done.
Qed.

Lemma CreateTemp_fails d r d' :
  CreateTemp prefix suffix d = (r, d') -> (forall x, r <> Ok x) -> exists fs, d' = set_faults fs d.
Proof.
  intros H Hr. unfold CreateTemp in H. destruct (syscall_cases (fun d : dir =>
    match unused_temp prefix suffix (names d) temp_attempts 0 with
    | Some n => (Ok (n, next_ino d), Dir (<[n := next_ino d]> (names d)) (durable d)
        (<[next_ino d := Inode Regular 384 [] false]> (inodes d)) (S (next_ino d)) (faults d))
    | None => (Err ErrExist, d) end) d) as (fs & [E|E]); rewrite E in H; [injection H as _ <-; by exists fs|].
  destruct (unused_temp _ _ _ _ _) as [t|]; injection H as <- <-; [by destruct (Hr (t, next_ino (set_faults fs d)))|by exists fs].
Qed.

(** The calls on the new file keep [writing]. *)
Lemma writing_faults d temp d' fs : writing d temp d' -> writing d temp (set_faults fs d').
Proof. intros []. by constructor. Qed.

Lemma writing_update d temp d' f r d'' :
  writing d temp d' -> update_inode (next_ino d) f d' = (r, d'') ->
  writing d temp d'' /\ exists nd, inodes d' !! next_ino d = Some nd /\ inodes d'' !! next_ino d = Some (f nd) /\ r = Ok tt.
Proof.
  intros [H1 H2 H3 H4 [nd Hnd] H6]. unfold update_inode. rewrite Hnd. intros [= <- <-]. split.
  - constructor; cbn; try done; [intros i Hi; by rewrite lookup_insert_ne, H4|rewrite lookup_insert_eq; eauto].
  - exists nd. cbn. by rewrite lookup_insert_eq.
Qed.

Lemma writing_syscall {A} d temp d' (p : prog dir A) r d'' :
  writing d temp d' -> syscall p d' = (r, d'') ->
  (exists fs, r = Err EIO /\ d'' = set_faults fs d') \/ exists fs, p (set_faults fs d') = (r, d'') /\ writing d temp (set_faults fs d').
Proof.
  intros Hw H. destruct (syscall_cases p d') as (fs & [E|E]); rewrite E in H; [injection H as <- <-; eauto|].
  right. exists fs. split; [done|by apply writing_faults].
Qed.

Lemma Close_writing d temp d' r d'' : writing d temp d' -> Close d' = (r, d'') ->
  writing d temp d'' /\ inodes d'' = inodes d'.
Proof.
  intros Hw H. apply (writing_syscall d temp) in H as [(fs & _ & ->)|(fs & H & Hw')]; [split; [by apply writing_faults|done]| |done].
  injection H as <- <-. done.
Qed.

Lemma or_close_writing {A} (p : prog dir A) d temp d' r d'' :
  (forall r1 d1, p d' = (r1, d1) -> writing d temp d1) -> or_close p d' = (r, d'') -> writing d temp d''.
Proof.
  unfold or_close. intros Hp. destruct (p d') as [[a|e|] d1] eqn:E; intros [= <- <-]; [by eapply Hp|..];
    (destruct (Close d1) as [rc d2] eqn:Ec; eapply Close_writing in Ec as [Hc _]; [exact Hc|by eapply Hp]).
Qed.

Lemma FileWrite_writing d temp d' r d'' : writing d temp d' -> FileWrite (next_ino d) text d' = (r, d'') ->
  writing d temp d''.
Proof.
  intros Hw. unfold FileWrite, bind, next_fault. destruct (faults d') as [|[k|] fs] eqn:E.
  - intros H. by eapply writing_update in H as [H _].
  - destruct (update_inode _ _ _) as [r1 d1] eqn:Eu. eapply (writing_update d temp) in Eu as (Hw1 & nd & _ & _ & ->); [|by apply writing_faults].
    by intros [= <- <-].
  - intros H. eapply writing_update in H as [H _]; [done|by apply writing_faults].
Qed.

Lemma FileWrite_content d temp d' d'' : writing d temp d' -> FileWrite (next_ino d) text d' = (Ok tt, d'') ->
  exists nd nd', inodes d' !! next_ino d = Some nd /\ inodes d'' !! next_ino d = Some nd' /\ i_data nd' = i_data nd ++ text.
Proof.
  intros Hw. unfold FileWrite, bind, next_fault. destruct (faults d') as [|[k|] fs] eqn:E.
  - intros H. eapply writing_update in H as (_ & nd & H1 & H2 & _); [|done]. exists nd. eauto.
  - by destruct (update_inode _ _ _) as [[]].
  - intros H. eapply writing_update in H as (_ & nd & H1 & H2 & _); [|by apply writing_faults]. exists nd. eauto.
Qed.

Lemma Sync_writing d temp d' r d'' : writing d temp d' -> Sync (next_ino d) d' = (r, d'') ->
  writing d temp d'' /\ (r = Ok tt -> exists nd nd', inodes d' !! next_ino d = Some nd /\
    inodes d'' !! next_ino d = Some nd' /\ i_data nd' = i_data nd /\ i_synced nd' = true).
Proof.
  intros Hw H. eapply writing_syscall in H as [(fs & -> & ->)|(fs & H & Hw')]; [split; [by apply writing_faults|done]| |done].
  eapply writing_update in H as (Hw2 & nd & H1 & H2 & _); [|done]. split; [done|]. intros _. exists nd. eauto.
Qed.

Lemma writing_unchanged d temp d' : wf d -> temp <> name -> writing d temp d' -> unchanged name d d'.
Proof.
  intros (W1 & W2 & W3) Ht [H1 H2 H3 H4 [nd Hnd] H6]. assert (inodes d !! next_ino d = None) as Hfresh.
  { apply eq_None_not_Some. intros Hs%W3. lia. }
  assert (forall i, is_Some (inodes d !! i) -> is_Some (inodes d' !! i)) as Hold.
  { intros i Hi. rewrite H4; [done|]. intros ->. rewrite Hfresh in Hi. by destruct Hi. }
  constructor; [split_and!|..].
  - intros n i Hn. destruct (decide (n = temp)) as [->|]; [rewrite H2 in Hn; injection Hn as <-; eauto|].
    rewrite H1 in Hn by done. eauto.
  - intros n i. rewrite H3. eauto.
  - intros i Hi. rewrite H6. destruct (decide (i = next_ino d)) as [->|Hne]; [lia|]. rewrite H4 in Hi by done. specialize (W3 i Hi). lia.
  - intros i Hi. apply H4. intros ->. rewrite Hfresh in Hi. by destruct Hi.
  - apply H1. congruence.
  - by rewrite H3.
Qed.

Lemma writing_replaced d temp d' : wf d -> temp <> name -> writing d temp d' -> replaced name text d d'.
Proof. intros. by eapply unchanged_replaced, writing_unchanged. Qed.

(** Removing another name. *)
Lemma Remove_other d temp : temp <> name -> wf d ->
  let d' := (Remove temp d).2 in
  wf d' /\ inodes d' = inodes d /\ names d' !! name = names d !! name /\ durable d' = durable d.
Proof.
  intros Ht (W1 & W2 & W3). unfold Remove. destruct (syscall_cases (fun d : dir => match names d !! temp with
    | Some _ => (Ok tt, set_names (delete temp (names d)) d) | None => (Err ErrNotExist, d) end) d) as (fs & [E|E]);
    rewrite E; cbn; [by split_and!|].
  destruct (names d !! temp) eqn:En; [|by split_and!]. cbn. split_and!; [|done|by rewrite lookup_delete_ne|done].
  split_and!; cbn; try done. intros n' i [_ Hn]%lookup_delete_Some. eauto.
Qed.

Lemma replaced_remove d d' temp : temp <> name -> replaced name text d d' -> replaced name text d (Remove temp d').2.
Proof.
  intros Ht [Hwf R2 R3 R4]. destruct (Remove_other d' temp Ht Hwf) as (W & Ei & En & Ed).
  constructor; [done|..]; rewrite ?Ei, ?En, ?Ed; done.
Qed.

(** A new file that is given up before it is moved. *)
Lemma abandon_unchanged {A} (e : error) d (r : res A) d' :
  wf d -> (let! (temp, _) := CreateTemp prefix suffix in fun d => (Err e, (Remove temp (Close d).2).2)) d = (r, d') ->
  unchanged name d d' /\ forall a, r <> Ok a.
Proof.
  intros Hwf H. unfold bind in H. destruct (CreateTemp prefix suffix d) as [[[temp file]|e'|] d1] eqn:Et.
  2,3: apply CreateTemp_fails in Et as [fs ->]; [|done]; injection H as <- <-; split; [by apply unchanged_faults|done].
  apply CreateTemp_writing in Et as (-> & [k Hk] & Hw & _). assert (temp <> name) as Ht by (intros ->; by apply (Hname k)).
  injection H as <- <-. split; [|done]. destruct (Close d1) as [rc d2] eqn:Ec. cbn.
  eapply (Close_writing d temp) in Ec as [Hw2 _]; [|done]. apply writing_unchanged in Hw2 as [W1 W2 W3 W4]; [|done..].
  destruct (Remove_other d2 temp Ht W1) as (W & Ei & En & Ed). constructor; [done|..]; rewrite ?Ei, ?En, ?Ed; done.
Qed.

(** The move, from a state in which the new file is complete and synced. *)
Lemma move_replaced d temp d' r d'' :
  wf d -> temp <> name -> writing d temp d' ->
  (exists nd, inodes d' !! next_ino d = Some nd /\ i_data nd = text /\ i_synced nd = true) ->
  MoveFileExW true temp name d' = (r, d'') ->
  replaced name text d d'' /\ (r = Ok tt -> exists nd, stable d'' name nd /\ i_data nd = text) /\ r <> Panic.
Proof.
  intros Hwf Ht Hw (nd & Hnd & Hdata & Hsync) H. pose proof (writing_replaced d temp d' Hwf Ht Hw) as Hrep.
  assert (forall fs, replaced name text d (set_faults fs d')) as Hrepf by (intros; by destruct Hrep).
  destruct Hw as [_ H2 Hdur _ _ _]. destruct Hrep as [(W1 & W2 & W3) R2 R3 R4].
  assert (forall fs D, D = durable d' \/ D = <[name := next_ino d]> (delete temp (durable d')) ->
    let d3 := Dir (<[name := next_ino d]> (delete temp (names d'))) D (inodes d') (next_ino d') fs in
    replaced name text d d3) as Hmoved.
  { intros fs D HD. constructor; cbn; [split_and!|done|..]; cbn.
    - intros n i [[<- <-]|[_ [_ Hn]%lookup_delete_Some]]%lookup_insert_Some; eauto.
    - intros n i Hn. destruct HD as [->| ->]; [eauto|].
      apply lookup_insert_Some in Hn as [[<- <-]|[_ [_ Hn]%lookup_delete_Some]]; eauto.
    - done.
    - right. exists (next_ino d), nd. by rewrite lookup_insert_eq.
    - destruct HD as [->| ->]; [|right; exists (next_ino d), nd; by rewrite !lookup_insert_eq].
      left. by rewrite Hdur. }
  unfold MoveFileExW, next_fault in H. destruct (faults d') as [|[[|k]|] fs]; cbn in H; rewrite H2 in H; cbn in H;
    injection H as <- <-; (split; [|split; [|done]]); try done; try (apply Hmoved; auto); try apply Hrepf;
    intros _; exists nd; split; [|done| |done]; exists (next_ino d); cbn; by rewrite !lookup_insert_eq.
Qed.

(** The body between the creation and the deferred function. *)
Lemma replace_body d temp d1 r d2 :
  wf d -> temp <> name -> writing d temp d1 -> (exists nd, inodes d1 !! next_ino d = Some nd /\ i_data nd = []) ->
  (check! or_close (FileWrite (next_ino d) text) ;; check! or_close (Sync (next_ino d)) ;; check! Close ;;
   MoveFileExW true temp name) d1 = (r, d2) ->
  replaced name text d d2 /\ (r = Ok tt -> exists nd, stable d2 name nd /\ i_data nd = text).
Proof.
  intros Hwf Ht Hw (nd & Hnd & Hdata) H. unfold bind in H.
  assert (forall d3, writing d temp d3 -> forall r3 : res unit, r3 <> Ok tt -> (r3, d3) = (r, d2) ->
    replaced name text d d2 /\ (r = Ok tt -> exists nd, stable d2 name nd /\ i_data nd = text)) as Hstop.
  { intros d3 Hw3 r3 Hne [= <- <-]. split; [by eapply writing_replaced|done]. }
  destruct (or_close (FileWrite (next_ino d) text) d1) as [r1 e1] eqn:E1.
  assert (writing d temp e1) as Hw1 by (eapply or_close_writing; [|exact E1]; intros; by eapply FileWrite_writing).
  destruct r1 as [[]| |]; [|by eapply (Hstop _ Hw1); [|exact H]..].
  apply or_close_Ok, (FileWrite_content d temp) in E1 as (nd0 & nd1 & Hn0 & Hn1 & Hd1); [|done].
  destruct (or_close (Sync (next_ino d)) e1) as [r2 e2] eqn:E2.
  assert (writing d temp e2) as Hw2 by (eapply or_close_writing; [|exact E2]; intros ? ? G; by eapply Sync_writing in G as [G _]).
  destruct r2 as [[]| |]; [|by eapply (Hstop _ Hw2); [|exact H]..].
  apply or_close_Ok in E2. eapply (Sync_writing d temp) in E2 as [_ E2]; [|done]. destruct (E2 eq_refl) as (nd2 & nd3 & Hn2 & Hn3 & Hd3 & Hs3).
  destruct (Close e2) as [r3 e3] eqn:E3. eapply (Close_writing d temp) in E3 as [Hw3 Hi3]; [|done].
  destruct r3 as [[]| |]; [|by eapply (Hstop _ Hw3); [|exact H]..].
  eapply move_replaced in H as (H1 & H2 & _); [by split|done..|]. exists nd3. rewrite Hi3. split_and!; try done.
  assert (nd2 = nd1) as -> by congruence. assert (nd0 = nd) as -> by congruence. by rewrite Hd3, Hd1, Hdata.
Qed.

(** The replacement, under every schedule of failures. *)
Lemma replaceWith_spec d r d' :
  wf d -> replaceWith prefix suffix name text d = (r, d') ->
  replaced name text d d' /\ (r = Ok tt -> exists nd, stable d' name nd /\ i_data nd = text).
Proof.
  intros Hwf H. unfold replaceWith in H. unfold bind at 1 in H. destruct (CreateTemp prefix suffix d) as [rt d1] eqn:Et.
  assert (forall fs, replaced name text d (set_faults fs d)) as Hsame by (intros fs; constructor; auto; apply Hwf).
  destruct rt as [[temp file]|e|].
  2,3: apply CreateTemp_fails in Et as [fs ->]; [|done]; injection H as <- <-; by split.
  apply CreateTemp_writing in Et as (-> & [k Hk] & Hw & Hempty). assert (temp <> name) as Ht by (intros ->; by apply (Hname k)).
  destruct ((check! or_close (FileWrite (next_ino d) text) ;; check! or_close (Sync (next_ino d)) ;; check! Close ;;
   MoveFileExW true temp name) d1) as [rb d2] eqn:Eb.
  eapply replace_body in Eb as [Hrep Hok]; try done. destruct rb as [[]| |]; injection H as <- <-; [by split|..];
    (split; [by apply replaced_remove|done]).
Qed.

End Replace.
