(* ===== verification/GoTree.v ===== *)
(** * A directory of directories

    The sender keeps every generation as a directory of its own below one root. [tree]
    is such a root: names are bound to nodes, a node is a directory (its files as in
    [GoFS]) or something else, and the root is synced separately from its contents.
    The calls share one schedule of faults. Renames and removals are those of Linux. *)

From stdpp Require Import gmap.
From S2P Require Import Prelude GoBytes GoStrings GoIO GoFS GoDir GoPublish.

(** [io.ReadAll], and [os.ReadFile] of a file of a directory. *)
Definition ReadAll (r : reader) : res bytes :=
  if bool_decide (rd_end r = EOF) then Ok (rd_data r) else Err (rd_end r).
Definition ReadFile (name : bytes) : prog dir bytes :=
  let! file := Open name in
  defer_close (let! r := file_reader file in lift (ReadAll r)).

Lemma quiet_ReadFile name : quiet (ReadFile name).
Proof. unfold ReadFile. quiet. Qed.

Lemma ReadAll_file i d r d' raw :
  file_reader i d = (Ok r, d') -> ReadAll r = Ok raw -> exists nd, inodes d !! i = Some nd /\ i_data nd = raw.
Proof.
  intros Hr Ha. destruct (file_reader_Ok _ _ _ _ Hr) as [_ (nd & Hi & Heof)]. exists nd. split; [done|].
  unfold ReadAll in Ha. case_bool_decide as He; [|done]. injection Ha as <-.
  rewrite (Heof ltac:(by rewrite He)). done.
Qed.

Lemma ReadFile_Ok name d raw d' :
  ReadFile name d = (Ok raw, d') -> (exists fs, d' = set_faults fs d) /\
    exists nd, lookup_file d name = Some nd /\ i_data nd = raw.
Proof.
  intros Hr. split; [by eapply quiet_run; [apply quiet_ReadFile|]|]. unfold ReadFile in Hr.
  apply bind_Ok in Hr as (i & d1 & Ho & Hr). apply Open_Ok in Ho as [[f ->] Hi]. unfold defer_close in Hr.
  destruct (bind (file_reader i) _ _) as [r d2] eqn:E. injection Hr as -> _.
  apply bind_Ok in E as (rd & d3 & Hrd & Ha). unfold lift in Ha. injection Ha as Ha _.
  destruct (ReadAll_file _ _ _ _ _ Hrd Ha) as (nd & Hnd & Hd). exists nd. split; [|done].
  unfold lookup_file. by rewrite Hi.
Qed.

Definition ENOTDIR : error := Sentinel "not a directory".

Inductive node := Sub (d : dir) | Leaf (k : file_kind).

Record tree := Tree {
  t_names : gmap bytes nat;
  t_durable : gmap bytes nat;
  t_nodes : gmap nat node;
  t_next : nat;
  t_faults : list (option nat)
}.

Definition set_tnames (m : gmap bytes nat) (t : tree) : tree :=
  Tree m (t_durable t) (t_nodes t) (t_next t) (t_faults t).
Definition set_tdurable (m : gmap bytes nat) (t : tree) : tree :=
  Tree (t_names t) m (t_nodes t) (t_next t) (t_faults t).
Definition set_tnodes (m : gmap nat node) (t : tree) : tree :=
  Tree (t_names t) (t_durable t) m (t_next t) (t_faults t).
Definition set_tfaults (f : list (option nat)) (t : tree) : tree :=
  Tree (t_names t) (t_durable t) (t_nodes t) (t_next t) f.

Definition next_tfault : prog tree (option nat) := fun t =>
  match t_faults t with
  | [] => (Ok None, t)
  | f :: fs => (Ok f, set_tfaults fs t)
  end.

Definition tcall {A} (p : prog tree A) : prog tree A :=
  let! f := next_tfault in
  match f with Some _ => throw EIO | None => p end.

Definition node_kind (n : node) : file_kind := match n with Sub _ => Directory | Leaf k => k end.
Definition node_info (i : nat) (n : node) : FileInfo :=
  {| fi_ino := i; fi_kind := node_kind n; fi_perm := 448; fi_size := 0 |}.

(** The entry a path below the root names. *)
Definition entry_of (path : bytes) : bytes := filepath_Base (filepath_Clean path).

(** [os.Lstat] of an entry of the root. *)
Definition LstatEntry (name : bytes) : prog tree FileInfo := tcall (fun t =>
  match t_names t !! name with
  | None => (Err ErrNotExist, t)
  | Some i => match t_nodes t !! i with
              | None => (Err EIO, t)
              | Some nd => (Ok (node_info i nd), t)
              end
  end).

(** [os.ReadDir] of the root. *)
Definition ReadEntries : prog tree (list (bytes * file_kind)) := tcall (fun t =>
  (Ok ((fun n => (n, match (t_names t !! n) ≫= (fun i => t_nodes t !! i) with
                     | Some nd => node_kind nd
                     | None => OtherKind
                     end)) <$> sort_Strings (map_to_list (t_names t)).*1), t)).

(** Calls on the files of an entry. *)
Definition in_sub {A} (name : bytes) (p : prog dir A) : prog tree A := fun t =>
  match t_names t !! name with
  | None => (Err ErrNotExist, t)
  | Some i =>
      match t_nodes t !! i with
      | Some (Sub d) =>
          let '(r, d') := p (set_faults (t_faults t) d) in
          (r, set_tfaults (faults d') (set_tnodes (<[i := Sub (set_faults (faults d) d')]> (t_nodes t)) t))
      | _ => (Err ENOTDIR, t)
      end
  end.

(** [os.Rename] of a directory: the new name must be free. *)
Definition RenameEntry (old new : bytes) : prog tree unit := tcall (fun t =>
  match t_names t !! old with
  | None => (Err ErrNotExist, t)
  | Some i =>
      match t_names t !! new with
      | Some _ => (Err ErrExist, t)
      | None => (Ok tt, set_tnames (<[new := i]> (delete old (t_names t))) t)
      end
  end).

(** [directory.Sync] on the root. *)
Definition SyncRoot : prog tree unit := tcall (fun t => (Ok tt, set_tdurable (t_names t) t)).

(** [os.RemoveAll]: the files of the directory, then its name; a failure leaves some. *)
Definition clear (removed : list bytes) (n : node) : node :=
  match n with
  | Sub d => Sub (set_names (foldr delete (names d) removed) d)
  | Leaf k => Leaf k
  end.
Definition node_entries (n : node) : list bytes := match n with Sub d => entry_names d | Leaf _ => [] end.

Definition RemoveAllEntry (name : bytes) : prog tree unit :=
  let! f := next_tfault in
  fun t =>
    match t_names t !! name with
    | None => (Ok tt, t)
    | Some i =>
        match t_nodes t !! i with
        | None => (Err EIO, t)
        | Some nd =>
            match f with
            | Some k => (Err EIO, set_tnodes (<[i := clear (take k (node_entries nd)) nd]> (t_nodes t)) t)
            | None => (Ok tt, set_tnames (delete name (t_names t))
                                (set_tnodes (<[i := clear (node_entries nd) nd]> (t_nodes t)) t))
            end
        end
    end.

(** [os.MkdirTemp(root, prefix*suffix)], a new empty directory. *)
Definition MkdirTempEntry (prefix suffix : bytes) : prog tree bytes := tcall (fun t =>
  match unused_temp prefix suffix (t_names t) temp_attempts 0 with
  | None => (Err ErrExist, t)
  | Some name =>
      (Ok name, Tree (<[name := t_next t]> (t_names t)) (t_durable t)
                  (<[t_next t := Sub (empty_dir [])]> (t_nodes t)) (S (t_next t)) (t_faults t))
  end).

(** A directory has one name. *)
Definition one_name (m : gmap bytes nat) : Prop :=
  forall n1 n2 i, m !! n1 = Some i -> m !! n2 = Some i -> n1 = n2.

(** The numbers in use are below the next one. *)
Definition tree_wf (t : tree) : Prop :=
  one_name (t_names t) /\
  forall n i, t_names t !! n = Some i \/ t_durable t !! n = Some i -> (i < t_next t)%nat.

(** Power failure: each binding of the root as seen or as on disk, each directory under
    one name and after a power failure of its own. *)
Definition crash_tree (t t' : tree) : Prop :=
  one_name (t_names t') /\
  (forall n, t_names t' !! n = t_names t !! n \/ t_names t' !! n = t_durable t !! n) /\
  t_durable t' = t_names t' /\ t_next t' = t_next t /\
  (forall i, match t_nodes t !! i with
             | None => t_nodes t' !! i = None
             | Some (Leaf k) => t_nodes t' !! i = Some (Leaf k)
             | Some (Sub d) => exists d', t_nodes t' !! i = Some (Sub d') /\ crash d d'
             end).

(** ** Programs that only look *)

Definition same_tree (t t' : tree) : Prop := exists fs, t' = set_tfaults fs t.
Abbreviation still := (keeps same_tree).

Lemma set_tfaults_id t : set_tfaults (t_faults t) t = t.
Proof. by destruct t. Qed.

#[global] Instance same_tree_PreOrder : PreOrder same_tree.
Proof.
  split; [intros t; exists (t_faults t); by rewrite set_tfaults_id|].
  intros t1 t2 t3 [f1 ->] [f2 ->]. by exists f2.
Qed.

Lemma still_tcall {A} (p : prog tree A) : still p -> still (tcall p).
Proof.
  intros Hp. apply keeps_bind; [apply _| |intros [?|]; [apply keeps_throw, _|done]].
  intros t. unfold next_tfault. destruct (t_faults t) as [|f fs]; [reflexivity|by exists fs].
Qed.

Lemma still_LstatEntry name : still (LstatEntry name).
Proof.
  apply still_tcall. intros t. exists (t_faults t). rewrite set_tfaults_id.
  destruct (t_names t !! name) as [i|]; [|done]. by destruct (t_nodes t !! i).
Qed.
Lemma still_ReadEntries : still ReadEntries.
Proof. apply still_tcall. intros t. exists (t_faults t). by rewrite set_tfaults_id. Qed.

Lemma still_in_sub {A} name (p : prog dir A) : quiet p -> still (in_sub name p).
Proof.
  intros Hp t. unfold in_sub. destruct (t_names t !! name) as [i|];
    [|exists (t_faults t); by rewrite set_tfaults_id].
  destruct (t_nodes t !! i) as [[d|k]|] eqn:Ei; [|exists (t_faults t); by rewrite set_tfaults_id..].
  destruct (Hp (set_faults (t_faults t) d)) as [f E].
  destruct (p (set_faults (t_faults t) d)) as [r d']. cbn in E. subst d'. exists f. cbn.
  destruct d as [a b c n g]; cbn. unfold set_tnodes; cbn. rewrite insert_id by exact Ei. by destruct t.
Qed.

#[export] Hint Resolve quiet_ReadFile : keeps.
#[export] Hint Resolve still_LstatEntry still_ReadEntries : keeps.

Ltac still := repeat first [ keeps1 | apply still_tcall | apply still_in_sub; solve [quiet] ].

Lemma still_run {A} (p : prog tree A) t r t' : still p -> p t = (r, t') -> exists fs, t' = set_tfaults fs t.
Proof. intros Hp Hr. exact (keeps_run _ _ _ _ _ Hp Hr). Qed.

(** What a successful look saw. *)
Lemma tcall_Ok {A} (p : prog tree A) t a t' :
  tcall p t = (Ok a, t') -> exists fs, p (set_tfaults fs t) = (Ok a, t').
Proof.
  unfold tcall, bind, next_tfault. destruct t as [m u ns n [|[k|] fs]]; cbn; [eauto|done|eauto].
Qed.

Lemma LstatEntry_Ok name t info t' :
  LstatEntry name t = (Ok info, t') -> (exists fs, t' = set_tfaults fs t) /\
    exists i nd, t_names t !! name = Some i /\ t_nodes t !! i = Some nd /\ info = node_info i nd.
Proof.
  intros Hr. split; [by eapply still_run; [apply still_LstatEntry|]|]. apply tcall_Ok in Hr as [fs Hr]. cbn in Hr.
  destruct (t_names t !! name) as [i|]; [|done]. destruct (t_nodes t !! i) as [nd|] eqn:Ei; [|done].
  injection Hr as <- _. by exists i, nd.
Qed.

Lemma in_sub_Ok {A} name (p : prog dir A) t a t' :
  quiet p -> in_sub name p t = (Ok a, t') -> (exists fs, t' = set_tfaults fs t) /\
    exists i d d' fs, t_names t !! name = Some i /\ t_nodes t !! i = Some (Sub d) /\
      p (set_faults fs d) = (Ok a, d').
Proof.
  intros Hp Hr. split; [by eapply still_run; [by apply still_in_sub|]|]. unfold in_sub in Hr.
  destruct (t_names t !! name) as [i|]; [|done]. destruct (t_nodes t !! i) as [[d|]|] eqn:Ei; try done.
  destruct (p (set_faults (t_faults t) d)) as [r d'] eqn:E. injection Hr as -> _.
  by exists i, d, d', (t_faults t).
Qed.

(** ** A directory that stays

    It is bound to its name in memory and on disk, and [P] holds of its files. *)

Definition kept (P : dir -> Prop) (t : tree) (name : bytes) : Prop :=
  exists i d, t_names t !! name = Some i /\ t_durable t !! name = Some i /\ t_nodes t !! i = Some (Sub d) /\ P d.

(** A property of the files that a schedule and a power failure do not change. *)
Class Durable (P : dir -> Prop) := {
  durable_faults d fs : P d -> P (set_faults fs d);
  durable_crash d d' : crash d d' -> P d -> P d'
}.

Section Kept.
Context (P : dir -> Prop) `{!Durable P}.

Lemma kept_faults fs t name : kept P (set_tfaults fs t) name <-> kept P t name.
Proof. done. Qed.

Lemma kept_crash t t' name : crash_tree t t' -> kept P t name -> kept P t' name.
Proof.
  intros (_ & Hn & Hd & _ & Hi) (i & d & H1 & H2 & H3 & HP). specialize (Hi i). rewrite H3 in Hi.
  destruct Hi as (d' & Hd' & Hc). assert (t_names t' !! name = Some i) as H4 by (destruct (Hn name); congruence).
  exists i, d'. split_and!; try done; [by rewrite Hd|by eapply durable_crash].
Qed.

(** Renaming another entry. *)
Lemma kept_rename t name old new i :
  kept P t name -> name <> old -> t_names t !! new = None ->
  kept P (set_tnames (<[new := i]> (delete old (t_names t))) t) name.
Proof.
  intros (j & d & H1 & H2 & H3 & HP) Hold Hnew. exists j, d. split_and!; try done. cbn.
  rewrite lookup_insert_ne by congruence. by rewrite lookup_delete_ne.
Qed.

Lemma kept_sync t name : kept P t name -> kept P (set_tdurable (t_names t) t) name.
Proof. intros (j & d & H1 & H2 & H3 & HP). by exists j, d. Qed.

End Kept.

Lemma one_name_rename m old new i :
  one_name m -> m !! old = Some i -> m !! new = None -> one_name (<[new := i]> (delete old m)).
Proof.
  intros Hm Hold Hnew n1 n2 j. rewrite !lookup_insert. repeat case_decide; subst; try done.
  - intros [= <-] [Hne Hj]%lookup_delete_Some. by destruct (Hm old n2 i Hold Hj).
  - intros [Hne Hj]%lookup_delete_Some [= <-]. by destruct (Hm old n1 i Hold Hj).
  - intros [_ Hj1]%lookup_delete_Some [_ Hj2]%lookup_delete_Some. by eapply Hm.
Qed.

Lemma one_name_delete m n : one_name m -> one_name (delete n m).
Proof. intros Hm n1 n2 j [_ H1]%lookup_delete_Some [_ H2]%lookup_delete_Some. by eapply Hm. Qed.

(** ** Steps that spare a set of names

    Whatever happened, every directory under a spared name is as it was. *)

Definition spares (Q : bytes -> Prop) (t t' : tree) : Prop :=
  tree_wf t ->
  tree_wf t' /\ forall P name, Durable P -> Q name -> kept P t name -> kept P t' name.

#[global] Instance spares_PreOrder Q : PreOrder (spares Q).
Proof.
  split; [by intros t Hw|]. intros t1 t2 t3 H12 H23 Hw. destruct (H12 Hw) as [Hw2 K12].
  destruct (H23 Hw2) as [Hw3 K23]. eauto.
Qed.

Lemma same_spares Q t t' : same_tree t t' -> spares Q t t'.
Proof. by intros [fs ->] Hw. Qed.

Lemma still_spares {A} Q (p : prog tree A) : still p -> keeps (spares Q) p.
Proof. intros Hp t. apply same_spares, Hp. Qed.

Lemma spares_weaken (Q Q' : bytes -> Prop) t t' :
  (forall n, Q' n -> Q n) -> spares Q t t' -> spares Q' t t'.
Proof. intros Hq Hs Hw. destruct (Hs Hw) as [Hw' Hk]. split; [done|]. eauto. Qed.

Lemma tcall_spares {A} Q (p : prog tree A) : keeps (spares Q) p -> keeps (spares Q) (tcall p).
Proof.
  intros Hp. apply keeps_bind; [apply _| |intros [k|]; [apply keeps_throw, _|done]].
  apply still_spares. intros t. unfold next_tfault. destruct (t_faults t) as [|f fs]; [reflexivity|by exists fs].
Qed.

Lemma Rename_spares (Q : bytes -> Prop) old new : ~ Q old -> keeps (spares Q) (RenameEntry old new).
Proof.
  intros Hq. apply tcall_spares. intros t [Hw Hb]. destruct (t_names t !! old) as [i|] eqn:Eo; [|done].
  destruct (t_names t !! new) eqn:En; [done|]. split; [split; [by apply one_name_rename|]|].
  - intros n j. cbn. rewrite lookup_insert_Some, lookup_delete_Some. intros [[[_ <-]|(_ & _ & Hj)]|Hj]; eauto.
  - intros P name HP Hn Hk. apply kept_rename; [done|congruence|done].
Qed.

Lemma SyncRoot_spares Q : keeps (spares Q) SyncRoot.
Proof.
  apply tcall_spares. intros t [Hw Hb]. split; [split; [done|]|].
  - intros n i [Hi|Hi]; cbn in Hi; eauto.
  - intros P name HP _ Hk. by apply kept_sync.
Qed.

Lemma RemoveAll_spares (Q : bytes -> Prop) name : ~ Q name -> keeps (spares Q) (RemoveAllEntry name).
Proof.
  intros Hq. apply keeps_bind; [apply _| |].
  { apply still_spares. intros t. unfold next_tfault. destruct (t_faults t) as [|f fs]; [reflexivity|by exists fs]. }
  intros f t [Hw Hb]. destruct (t_names t !! name) as [i|] eqn:Ei; [|done].
  destruct (t_nodes t !! i) as [nd|] eqn:End; [|done].
  assert (forall nd', forall P n, Durable P -> Q n -> kept P t n -> kept P (set_tnodes (<[i := nd']> (t_nodes t)) t) n) as Hother.
  { intros nd' P n HP Hn (j & d & H1 & H2 & H3 & H4). exists j, d. split_and!; try done. cbn.
    rewrite lookup_insert_ne; [done|]. intros <-. by rewrite (Hw name n i Ei H1) in Hq. }
  destruct f as [k|]; cbn [snd]; [by split; [|eauto]|].
  split; [split; [by apply one_name_delete|]|].
  - intros n j. cbn. rewrite lookup_delete_Some. intros [[_ Hj]|Hj]; eauto.
  - intros P n HP Hn Hk.
    destruct (Hother (clear (node_entries nd) nd) P n HP Hn Hk) as (j & d & H1 & H2 & H3 & H4).
    exists j, d. split_and!; try done. cbn. rewrite lookup_delete_ne; [done|congruence].
Qed.

Lemma crash_wf t t' : crash_tree t t' -> tree_wf t -> tree_wf t'.
Proof.
  intros (Ho & Hn & Hd & Hx & _) [_ Hb]. split; [done|]. rewrite Hd, Hx. intros n i [Hi|Hi];
    (destruct (Hn n) as [E|E]; rewrite E in Hi; eauto).
Qed.

Lemma crash_spares Q t t' : crash_tree t t' -> spares Q t t'.
Proof. intros Hc Hw. split; [by eapply crash_wf|]. intros P name HP _. by apply kept_crash. Qed.

Lemma MkdirTemp_spares Q prefix suffix : keeps (spares Q) (MkdirTempEntry prefix suffix).
Proof.
  apply tcall_spares. intros t [Hw Hb].
  destruct (unused_temp prefix suffix (t_names t) temp_attempts 0) as [name|] eqn:E; [|done].
  apply unused_temp_spec in E as [Hn _]. cbn [snd]. split; [split|].
  - intros n1 n2 i. cbn. rewrite !lookup_insert_Some.
    intros [[? ?]|[? H1]] [[? ?]|[? H2]]; subst; try done; [exfalso..|by eapply Hw];
      match goal with H : t_names t !! _ = Some _ |- _ => specialize (Hb _ _ (or_introl H)); lia end.
  - intros n i. cbn. rewrite lookup_insert_Some. intros [[[_ <-]|[_ Hi]]|Hi]; [lia| |];
      [specialize (Hb n i (or_introl Hi))|specialize (Hb n i (or_intror Hi))]; lia.
  - intros P n HP _ (j & d & H1 & H2 & H3 & H4). exists j, d. cbn.
    specialize (Hb n j (or_introl H1)). rewrite lookup_insert_ne by congruence.
    rewrite lookup_insert_ne by lia. done.
Qed.

(** A change of the files below one name. *)
Lemma set_node_spares (Q : bytes -> Prop) t name i nd fs :
  t_names t !! name = Some i -> ~ Q name -> spares Q t (set_tfaults fs (set_tnodes (<[i := nd]> (t_nodes t)) t)).
Proof.
  intros Hi Hq [Hw Hb]. split; [done|]. intros P n HP Hn (j & d & H1 & H2 & H3 & H4). exists j, d.
  split_and!; try done. cbn. rewrite lookup_insert_ne; [done|]. intros <-. by rewrite (Hw _ _ _ H1 Hi) in Hn.
Qed.

Lemma in_sub_spares {A} (Q : bytes -> Prop) name (p : prog dir A) : ~ Q name -> keeps (spares Q) (in_sub name p).
Proof.
  intros Hq t. unfold in_sub. destruct (t_names t !! name) as [i|] eqn:Ei; [|reflexivity].
  destruct (t_nodes t !! i) as [[d|k]|]; [|reflexivity..].
  destruct (p (set_faults (t_faults t) d)) as [r d']. by eapply set_node_spares.
Qed.

(** ** Following the files of one directory

    While only the directory [i] of the tree [t0] is worked on. *)
Definition holding (t0 : tree) (i : nat) (d : dir) (t : tree) : Prop :=
  t_names t = t_names t0 /\ t_nodes t !! i = Some (Sub d).

Lemma in_sub_holding {A} t0 i d name (p : prog dir A) t a t' :
  holding t0 i d t -> t_names t0 !! name = Some i -> in_sub name p t = (Ok a, t') ->
  exists fs d', p (set_faults fs d) = (Ok a, d') /\ holding t0 i (set_faults (faults d) d') t'.
Proof.
  intros [Hn Hi] Hname Hr. unfold in_sub in Hr. rewrite Hn, Hname, Hi in Hr.
  destruct (p (set_faults (t_faults t) d)) as [r d'] eqn:E. injection Hr as -> <-.
  exists (t_faults t), d'. split; [done|]. split; [done|]. cbn. by rewrite lookup_insert_eq.
Qed.

Lemma still_holding {A} t0 i d (p : prog tree A) t r t' :
  still p -> holding t0 i d t -> p t = (r, t') -> holding t0 i d t'.
Proof. intros Hp [Hn Hi] Hr. by apply still_run in Hr as [fs ->]. Qed.
