(* ===== verification/Pki.v ===== *)
(** * The cryptographic services of the Go standard library

    [crypto/x509] and [crypto/rsa] as far as the transport code sees them: the
    certificate and revocation-list fields it reads, and the calls it makes,
    which are the fields of the class [X509]. Instants are nanoseconds since the
    zero [time.Time]. *)

From S2P Require Import Prelude GoBytes.

Inductive public_key : Type :=
| RSAKey (N E : Z)
| OtherKey.

#[global] Instance public_key_eq_decision : EqDecision public_key.
Proof. solve_decision. Defined.

Record Certificate := {
  IsCA : bool;
  CommonName : bytes;
  OrganizationalUnit : list bytes;
  KeyUsage : Z;
  PublicKey : public_key;
  Raw : bytes;
  SerialNumber : Z
}.

Record RevocationList := {
  ThisUpdate : Z;
  NextUpdate : Z;
  RevokedCertificateEntries : list (option Z);
  RevokedCertificates : list (option Z)
}.

(** [x509.ExtKeyUsage] values used in [VerifyOptions.KeyUsages]. *)
Inductive ext_key_usage := ExtKeyUsageAny | ExtKeyUsageClientAuth.

Definition KeyUsageDigitalSignature : Z := 1.

Definition IsZero (t : Z) : bool := t =? 0.
Definition After (t u : Z) : bool := u <? t.

Class X509 := {
  ParseCertificate : bytes -> res Certificate;
  (** [child.CheckSignatureFrom(parent)]. *)
  CheckSignatureFrom : Certificate -> Certificate -> res unit;
  CRL_CheckSignatureFrom : RevocationList -> Certificate -> res unit;
  (** [leaf.Verify] with the given roots, intermediates, time and usages. *)
  Verify : Certificate -> list Certificate -> list Certificate -> Z ->
           list ext_key_usage -> res unit;
  (** [rsa.VerifyPSS] with SHA-256 and a salt as long as the hash. *)
  VerifyPSS : Z * Z -> bytes -> bytes -> res unit
}.

(** [crypto.Signer]. *)
Record Signer := {
  Public : public_key;
  Sign : bytes -> res bytes
}.

(** The documented meaning of [Certificate.Raw]: the complete DER that was
    parsed. *)
Class X509Laws `{X509} := {
  ParseCertificate_Raw der c : ParseCertificate der = Ok c -> Raw c = der
}.

(** A transparent instance to run the model on examples: the DER of the demo
    certificate for a name is that name, every signature and chain check passes,
    and the only RSA-PSS signature of a digest is the digest itself. *)
Module Demo.
Definition certificate (ou name : bytes) : Certificate := {|
  IsCA := false; CommonName := name; OrganizationalUnit := [ou]; KeyUsage := 1;
  PublicKey := RSAKey 3233 17; Raw := name; SerialNumber := 7 |}.

Definition x509 (ou : bytes) : X509 := {|
  ParseCertificate := fun der =>
    if bool_decide (der = []) then Err (Errorf "x509: malformed certificate")
    else Ok (certificate ou der);
  CheckSignatureFrom := fun _ _ => Ok tt;
  CRL_CheckSignatureFrom := fun _ _ => Ok tt;
  Verify := fun _ _ _ _ _ => Ok tt;
  VerifyPSS := fun _ digest signature =>
    if bool_decide (signature = digest) then Ok tt
    else Err (Errorf "crypto/rsa: verification error")
|}.

Definition x509_laws ou : @X509Laws (x509 ou).
Proof.
  split. intros der c. simpl. case_bool_decide; [discriminate|]. by intros [= <-].
Defined.

Definition signer : Signer := {| Public := RSAKey 3233 17; Sign := fun d => Ok d |}.

Definition crl : RevocationList := {|
  ThisUpdate := 10; NextUpdate := 100;
  RevokedCertificateEntries := [Some 8; None]; RevokedCertificates := [] |}.
End Demo.
