(* ===== verification/TransportEncoding.v ===== *)
(** * The zstd codec

    Models [go/internal/transportencoding/zstd.go]. The codec itself
    ([github.com/klauspost/compress/zstd]) is a parameter, the class [Zstd]; the
    module [transportencoding] is what this program adds to it, the fixed options
    and the error wrapping. *)

From S2P Require Import Prelude GoBytes GoIO.

Record DecoderOptions := {
  DecoderConcurrency : Z;
  DecoderMaxMemory : Z;
  DecoderMaxWindow : Z
}.

Inductive encoder_level := SpeedFastest | SpeedDefault | SpeedBetterCompression | SpeedBestCompression.

Record EncoderOptions := { EncoderConcurrency : Z; EncoderLevel : encoder_level }.

(** A decoder is the stream it delivers for an input stream, with its final error,
    and the number of input bytes it has taken once that stream is read to its
    end. An encoder of concurrency one is synchronous: each [Write] and the final
    [Close] make some [Write] calls on the underlying writer. *)
Class Zstd := {
  zstd_NewReader : DecoderOptions -> reader -> res (reader * Z);
  zstd_encoder : Type;
  zstd_NewWriter : EncoderOptions -> res zstd_encoder;
  zstd_Write : bytes -> zstd_encoder -> list bytes * zstd_encoder;
  zstd_Close : zstd_encoder -> list bytes
}.

Module transportencoding.

Definition DataEncodingZstd : bytes := bs "zstd".
Definition MaxZstdWindowBytes : Z := Z.shiftl 16 20.

(** The options are literals of the two constructors. *)
Definition decoderOptions : DecoderOptions := {|
  DecoderConcurrency := 1; DecoderMaxMemory := MaxZstdWindowBytes;
  DecoderMaxWindow := MaxZstdWindowBytes |}.
Definition encoderOptions : EncoderOptions := {|
  EncoderConcurrency := 1; EncoderLevel := SpeedFastest |}.

Definition NewZstdDecoder `{Zstd} (r : reader) : res (reader * Z) :=
  wrap "create FI zstd decoder: %w" (zstd_NewReader decoderOptions r).

Definition NewZstdEncoder `{Zstd} : res zstd_encoder :=
  wrap "create FI zstd encoder: %w" (zstd_NewWriter encoderOptions).

(** What an encoder hands on for a sequence of writes and the final close. *)
Fixpoint encoded `{Zstd} (ps : list bytes) (enc : zstd_encoder) : bytes :=
  match ps with
  | [] => concat (zstd_Close enc)
  | p :: ps' => concat (zstd_Write p enc).1 ++ encoded ps' (zstd_Write p enc).2
  end.

End transportencoding.

(** A decoder reads its input from the front. *)
Class ZstdLaws `{Zstd} := {
  zstd_consumed r out n :
    zstd_NewReader transportencoding.decoderOptions r = Ok (out, n) -> 0 <= n <= len (rd_data r)
}.

(** Decoding undoes encoding: a frame written at the fastest level needs a window
    below [MaxZstdWindowBytes], so the bounded decoder takes it, and it takes all
    of it. *)
Class ZstdCodec `{Zstd} := {
  zstd_round_trip enc ps :
    zstd_NewWriter transportencoding.encoderOptions = Ok enc ->
    zstd_NewReader transportencoding.decoderOptions
      (Reader (transportencoding.encoded ps enc) EOF) =
      Ok (Reader (concat ps) EOF, len (transportencoding.encoded ps enc))
}.

Lemma NewZstdDecoder_Ok `{Zstd} r out n :
  transportencoding.NewZstdDecoder r = Ok (out, n) ->
  zstd_NewReader transportencoding.decoderOptions r = Ok (out, n).
Proof. apply wrap_Ok. Qed.

Lemma NewZstdDecoder_encoded `{ZstdCodec} enc ps :
  transportencoding.NewZstdEncoder = Ok enc ->
  transportencoding.NewZstdDecoder (Reader (transportencoding.encoded ps enc) EOF) =
    Ok (Reader (concat ps) EOF, len (transportencoding.encoded ps enc)).
Proof. intros He%wrap_Ok. apply wrap_Ok. by apply zstd_round_trip. Qed.

(** ** A transparent codec for examples: the encoded form is the data itself. *)
Definition demoZstd : Zstd := {|
  zstd_NewReader := fun _ r => Ok (r, len (rd_data r));
  zstd_encoder := unit;
  zstd_NewWriter := fun _ => Ok tt;
  zstd_Write := fun p _ => ([p], tt);
  zstd_Close := fun _ => [] |}.

Definition demoZstd_laws : @ZstdLaws demoZstd.
Proof. split. intros r out n [= <- <-]. pose proof (len_nonneg (rd_data r)). lia. Defined.

Lemma demoZstd_encoded ps enc : @transportencoding.encoded demoZstd ps enc = concat ps.
Proof. revert enc. induction ps as [|p ps IH]; intros enc; [done|]. cbn. by rewrite IH, app_nil_r. Qed.

Definition demoZstd_codec : @ZstdCodec demoZstd.
Proof. split. intros enc ps _. by rewrite demoZstd_encoded. Defined.
