(* ===== verification/TransportBatch.v ===== *)
(** * The batch transport descriptor

    Models [go/internal/transportbatch/descriptor.go]: the descriptor of one
    published batch, its validation and the byte sequence that is signed. *)

From S2P Require Import Prelude GoBytes GoStrings.

Module transportbatch.

Definition DescriptorVersion : bytes := bs "fi-transport-batch/0.1".
Definition DescriptorVersionV2 : bytes := bs "fi-transport-batch/0.2".
Definition signatureDomainV1 : bytes := bs "FI-BATCH-SIGNATURE-V1".
Definition signatureDomainV2 : bytes := bs "FI-BATCH-SIGNATURE-V2".
Definition DataEncodingZstd : bytes := bs "zstd".

Record Descriptor := {
  Version : bytes;
  SourceID : bytes;
  BatchID : bytes;
  RecordCount : Z;
  DataBytes : Z;
  DataSHA256 : bytes;
  DataEncoding : bytes;
  EncodedDataBytes : Z;
  EncodedDataSHA256 : bytes;
  ManifestSHA256 : bytes
}.

#[global] Instance Descriptor_eq_decision : EqDecision Descriptor.
Proof. solve_decision. Defined.

(** The Go types of the fields: the counts are [uint64]. *)
Definition Descriptor_typed (d : Descriptor) : Prop :=
  is_u64 (RecordCount d) /\ is_u64 (DataBytes d) /\ is_u64 (EncodedDataBytes d).

(** The [range] loop rejects the first rune that is not a lowercase
    hexadecimal digit; every non-ASCII byte starts such a rune. *)
Definition validateSHA256 (name : string) (value : bytes) : res unit :=
  fail? negb (len value =? 64)
    with Errorf "%s must contain exactly 64 lowercase hexadecimal characters" ;;
  fail? negb (forallb lower_hex value)
    with Errorf "%s must contain exactly 64 lowercase hexadecimal characters" ;;
  Ok tt.

Definition validateText (name : string) (value : bytes) : res unit :=
  fail? bool_decide (value = []) with Errorf "%s is required" ;;
  fail? negb (utf8_ValidString value) with Errorf "%s is not valid UTF-8" ;;
  Ok tt.

Definition Validate (d : Descriptor) : res unit :=
  fail? negb (bool_decide (Version d = DescriptorVersion) ||
              bool_decide (Version d = DescriptorVersionV2))
    with Errorf "descriptor version must be %q or %q, got %q" ;;
  check? validateText "source ID" (SourceID d) ;;
  check? validateText "batch ID" (BatchID d) ;;
  fail? RecordCount d =? 0 with Errorf "record count must be greater than zero" ;;
  fail? DataBytes d =? 0 with Errorf "data byte count must be greater than zero" ;;
  check? validateSHA256 "data SHA-256" (DataSHA256 d) ;;
  check? validateSHA256 "manifest SHA-256" (ManifestSHA256 d) ;;
  if bool_decide (Version d = DescriptorVersion) then
    fail? negb (bool_decide (DataEncoding d = [])) || negb (EncodedDataBytes d =? 0) ||
          negb (bool_decide (EncodedDataSHA256 d = []))
      with Errorf "descriptor version 0.1 must not contain encoded data fields" ;;
    Ok tt
  else if bool_decide (Version d = DescriptorVersionV2) then
    fail? negb (bool_decide (DataEncoding d = DataEncodingZstd))
      with Errorf "descriptor data encoding must be %q, got %q" ;;
    fail? EncodedDataBytes d =? 0
      with Errorf "encoded data byte count must be greater than zero" ;;
    validateSHA256 "encoded data SHA-256" (EncodedDataSHA256 d)
  else Ok tt.

Definition SignatureInput (d : Descriptor) : res bytes :=
  check? Validate d ;;
  let? dataDigest := wrap "decode data SHA-256: %w" (hex_decode (DataSHA256 d)) in
  let? manifestDigest := wrap "decode manifest SHA-256: %w" (hex_decode (ManifestSHA256 d)) in
  if bool_decide (Version d = DescriptorVersion) then
    let value := signatureDomainV1 ++ [z2b 0] in
    let value := appendLengthPrefixed value (Version d) in
    let value := appendLengthPrefixed value (SourceID d) in
    let value := appendLengthPrefixed value (BatchID d) in
    let value := value ++ PutUint64BE (RecordCount d) in
    let value := value ++ PutUint64BE (DataBytes d) in
    let value := value ++ dataDigest in
    let value := value ++ manifestDigest in
    Ok value
  else if bool_decide (Version d = DescriptorVersionV2) then
    let? encodedDigest :=
      wrap "decode encoded data SHA-256: %w" (hex_decode (EncodedDataSHA256 d)) in
    let value := signatureDomainV2 ++ [z2b 0] in
    let value := appendLengthPrefixed value (Version d) in
    let value := appendLengthPrefixed value (SourceID d) in
    let value := appendLengthPrefixed value (BatchID d) in
    let value := appendLengthPrefixed value (DataEncoding d) in
    let value := value ++ PutUint64BE (RecordCount d) in
    let value := value ++ PutUint64BE (DataBytes d) in
    let value := value ++ PutUint64BE (EncodedDataBytes d) in
    let value := value ++ dataDigest in
    let value := value ++ encodedDigest in
    let value := value ++ manifestDigest in
    Ok value
  else Err (Errorf "validated descriptor version is unsupported").

(** ** What validation establishes *)

Lemma validateSHA256_Ok name value : validateSHA256 name value = Ok tt <-> sha256_text value = true.
Proof.
  unfold validateSHA256, sha256_text.
  destruct (len value =? 64); simpl; [|done]. by destruct (forallb lower_hex value).
Qed.

Lemma validateText_Ok name value :
  validateText name value = Ok tt <-> value <> [] /\ utf8_ValidString value = true.
Proof.
  unfold validateText. case_bool_decide; [naive_solver|].
  destruct (utf8_ValidString value); naive_solver.
Qed.

(** The descriptor contract, as a proposition. *)
Definition valid_text (s : bytes) : Prop := s <> [] /\ utf8_ValidString s = true.

Definition ValidDescriptor (d : Descriptor) : Prop :=
  valid_text (SourceID d) /\ valid_text (BatchID d) /\
  RecordCount d <> 0 /\ DataBytes d <> 0 /\
  sha256_text (DataSHA256 d) = true /\ sha256_text (ManifestSHA256 d) = true /\
  ((Version d = DescriptorVersion /\ DataEncoding d = [] /\ EncodedDataBytes d = 0 /\
    EncodedDataSHA256 d = []) \/
   (Version d = DescriptorVersionV2 /\ DataEncoding d = DataEncodingZstd /\
    EncodedDataBytes d <> 0 /\ sha256_text (EncodedDataSHA256 d) = true)).

Lemma versions_differ : DescriptorVersion <> DescriptorVersionV2.
Proof. discriminate. Qed.

Lemma Descriptor_Validate_Ok d : Validate d = Ok tt <-> ValidDescriptor d.
Proof.
  pose proof versions_differ. unfold Validate, ValidDescriptor, valid_text.
  res_iff. rewrite !validateText_Ok, !validateSHA256_Ok, orb_true_iff.
  rewrite !bool_decide_eq_true.
  destruct (decide (Version d = DescriptorVersion)) as [E|E].
  - rewrite bool_decide_eq_true_2 by done. res_iff. rewrite E. intuition congruence.
  - rewrite bool_decide_eq_false_2 by done.
    destruct (decide (Version d = DescriptorVersionV2)) as [E'|E'].
    + rewrite bool_decide_eq_true_2 by done. res_iff. rewrite validateSHA256_Ok, E'.
      intuition congruence.
    + rewrite bool_decide_eq_false_2 by done. intuition congruence.
Qed.

(** ** The signed byte sequence *)

Definition prefixed (field : bytes) : bytes := PutUint32BE (u32 (len field)) ++ field.

(** The layouts documented on [SignatureInput]. *)
Definition layoutV1 (d : Descriptor) : bytes :=
  signatureDomainV1 ++ [z2b 0] ++ prefixed (Version d) ++ prefixed (SourceID d) ++
  prefixed (BatchID d) ++ PutUint64BE (RecordCount d) ++ PutUint64BE (DataBytes d) ++
  hex_bytes (DataSHA256 d) ++ hex_bytes (ManifestSHA256 d).

Definition layoutV2 (d : Descriptor) : bytes :=
  signatureDomainV2 ++ [z2b 0] ++ prefixed (Version d) ++ prefixed (SourceID d) ++
  prefixed (BatchID d) ++ prefixed (DataEncoding d) ++ PutUint64BE (RecordCount d) ++
  PutUint64BE (DataBytes d) ++ PutUint64BE (EncodedDataBytes d) ++
  hex_bytes (DataSHA256 d) ++ hex_bytes (EncodedDataSHA256 d) ++ hex_bytes (ManifestSHA256 d).

Definition layout (d : Descriptor) : bytes :=
  if bool_decide (Version d = DescriptorVersion) then layoutV1 d else layoutV2 d.

Lemma hex_decode_bytes s : sha256_text s = true -> hex_decode s = Ok (hex_bytes s).
Proof. unfold hex_bytes. by intros (d & -> & _)%sha256_text_decode. Qed.

(** [SignatureInput] succeeds exactly on valid descriptors; its [default] and
    digest-decoding error branches are unreachable. *)
Lemma SignatureInput_Ok d i :
  SignatureInput d = Ok i <-> ValidDescriptor d /\ i = layout d.
Proof.
  unfold SignatureInput. rewrite check_Ok, Descriptor_Validate_Ok. apply and_iff_compat_l_dep.
  intros (_ & _ & _ & _ & Hd & Hm & Hv).
  rewrite (hex_decode_bytes _ Hd), (hex_decode_bytes _ Hm). cbn [wrap res_bind].
  unfold layout, layoutV1, layoutV2, prefixed, appendLengthPrefixed.
  destruct Hv as [(E & _)|(E & _ & _ & He)]; rewrite E.
  - rewrite bool_decide_eq_true_2 by done. rewrite <- !app_assoc. naive_solver.
  - rewrite bool_decide_eq_false_2, bool_decide_eq_true_2 by done.
    rewrite (hex_decode_bytes _ He). cbn [wrap res_bind].
    rewrite <- !app_assoc. naive_solver.
Qed.

(** Identities short enough for their [uint32] length prefix. *)
Definition prefix_sized (d : Descriptor) : Prop :=
  is_u32 (len (SourceID d)) /\ is_u32 (len (BatchID d)).

Lemma layout_domain d e :
  ValidDescriptor d -> ValidDescriptor e -> layout d = layout e -> Version d = Version e.
Proof.
  intros (_ & _ & _ & _ & _ & _ & Hd) (_ & _ & _ & _ & _ & _ & He).
  unfold layout, layoutV1, layoutV2.
  destruct Hd as [(-> & _)|(-> & _)], He as [(-> & _)|(-> & _)]; intros Heq; try done;
    exfalso; revert Heq; discriminate.
Qed.

Lemma layout_inj d e :
  ValidDescriptor d -> ValidDescriptor e -> Descriptor_typed d -> Descriptor_typed e ->
  prefix_sized d -> prefix_sized e -> layout d = layout e -> d = e.
Proof.
  intros Vd Ve Td Te Pd Pe H. pose proof (layout_domain _ _ Vd Ve H) as Hver.
  pose proof versions_differ.
  destruct Vd as (_ & _ & _ & _ & Hd1 & Hd2 & Hd), Ve as (_ & _ & _ & _ & He1 & He2 & He).
  destruct Td as (? & ? & ?), Te as (? & ? & ?), Pd, Pe.
  unfold layout, layoutV1, layoutV2, prefixed in H. rewrite <- !app_assoc in H.
  assert (is_u32 (len (Version d))).
  { destruct Hd as [(-> & _)|(-> & _)]; vm_compute; split; congruence. }
  assert (is_u32 (len (Version e))) by (rewrite <- Hver; done).
  destruct Hd as [(Hd & Dd & ? & ?)|(Hd & Dd & ? & ?)], He as [(He & De & ? & ?)|(He & De & ? & ?)];
    try congruence.
  - rewrite !bool_decide_eq_true_2 in H by done. peel H.
    destruct d, e; simpl in *; congruence.
  - rewrite (bool_decide_eq_false_2 (Version d = DescriptorVersion)),
            (bool_decide_eq_false_2 (Version e = DescriptorVersion)) in H by congruence.
    assert (is_u32 (len (DataEncoding d)) /\ is_u32 (len (DataEncoding e))) as [? ?].
    { rewrite Dd, De. vm_compute. split; split; congruence. }
    peel H. destruct d, e; simpl in *; congruence.
Qed.

(** [C40] The signed byte sequence identifies the descriptor. For two descriptors that pass
    validation, whose counts are 64-bit and whose source and batch IDs are shorter than 2^32
    bytes (their length prefix is a [uint32], and validation does not bound them),
    [SignatureInput] returns bytes, and returns the same bytes only for the same descriptor: one
    signature never covers two different batches. *)
Theorem SignatureInput_injective d e :
  Validate d = Ok tt -> Validate e = Ok tt -> Descriptor_typed d -> Descriptor_typed e ->
  prefix_sized d -> prefix_sized e ->
  exists i j, SignatureInput d = Ok i /\ SignatureInput e = Ok j /\ (i = j <-> d = e).
Proof.
  intros Vd%Descriptor_Validate_Ok Ve%Descriptor_Validate_Ok Td Te Pd Pe. exists (layout d), (layout e).
  split_and!; [by apply SignatureInput_Ok..|]. split; [by apply layout_inj|by intros ->].
Qed.

Definition exampleDescriptor : Descriptor := {|
  Version := DescriptorVersionV2; SourceID := bs "FS-01"; BatchID := bs "b1";
  RecordCount := 3; DataBytes := 120; DataSHA256 := hex_encode (replicate 32 (z2b 17));
  DataEncoding := DataEncodingZstd; EncodedDataBytes := 60;
  EncodedDataSHA256 := hex_encode (replicate 32 (z2b 34));
  ManifestSHA256 := hex_encode (replicate 32 (z2b 51)) |}.
(** The same text, divided differently between the two identities. *)
Definition exampleShifted : Descriptor := {|
  Version := DescriptorVersionV2; SourceID := bs "FS-0"; BatchID := bs "1b1";
  RecordCount := 3; DataBytes := 120; DataSHA256 := hex_encode (replicate 32 (z2b 17));
  DataEncoding := DataEncodingZstd; EncodedDataBytes := 60;
  EncodedDataSHA256 := hex_encode (replicate 32 (z2b 34));
  ManifestSHA256 := hex_encode (replicate 32 (z2b 51)) |}.

Lemma SignatureInput_injective_witness :
  exists i j, SignatureInput exampleDescriptor = Ok i /\ SignatureInput exampleShifted = Ok j /\ i <> j.
Proof.
  pose proof (SignatureInput_injective exampleDescriptor exampleShifted) as H.
  destruct H as (i & j & Hi & Hj & Hij); try (vm_compute; repeat split; congruence).
  exists i, j. split_and!; [exact Hi|exact Hj|]. intros E%Hij. revert E. vm_compute. discriminate.
Defined.

End transportbatch.
