(* ===== verification/TransportTrust.v ===== *)
(** * Certificate trust and source authorization

    Models [go/internal/transporttrust] ([authorization.go], [x509.go],
    [batch.go], [transport.go], [sign.go]): the enrolled identities of a source,
    the verification of the two leaf certificates, and the signing and
    verification of a batch descriptor. The functions return an outcome and an
    error side by side, as in the source. *)

From S2P Require Import Prelude GoBytes GoStrings Sha256 Pki TransportBatch.

Module transporttrust.

Inductive AuthorizationOutcome : Type :=
| AuthorizationNone                (* the empty string *)
| AuthorizationAuthorized
| AuthorizationCertificateMismatch
| AuthorizationDisabled
| AuthorizationIdentityMismatch.

#[global] Instance AuthorizationOutcome_eq_decision : EqDecision AuthorizationOutcome.
Proof. solve_decision. Defined.

Inductive CertificateUse : Type :=
| CertificateUseBatchSigning
| CertificateUseTransport
| CertificateUseOther (text : bytes).

Record CertificateIdentity := {
  CertificateSHA256 : bytes;
  CommonName : bytes;
  IssuingCASHA256 : bytes;
  OrganizationalUnit : bytes
}.

Record SourceAuthorization := {
  BatchSigning : CertificateIdentity;
  Enabled : bool;
  SourceID : bytes;
  Transport : CertificateIdentity
}.

Definition BatchSigningOrganizationalUnit : bytes := bs "FI Batch Signing".
Definition TransportOrganizationalUnit : bytes := bs "FI Shipper Transport".

(** An [(AuthorizationOutcome, error)] pair; [Ok tt] is the nil error. *)
Definition verdict : Type := AuthorizationOutcome * res unit.
Definition reject (e : error) : verdict := (AuthorizationNone, Err e).

(** [x, err := call; if err != nil { return "", err }]. *)
Definition attempt {A} (m : res A) (k : A -> verdict) : verdict :=
  match m with
  | Ok a => k a
  | Err e => reject e
  | Panic => (AuthorizationNone, Panic)
  end.
Notation "'let^' x ':=' m 'in' k" := (attempt m (fun x => k))
  (at level 10, x pattern, m at level 99, k at level 200) : go_scope.

Definition hex_any (c : byte) : bool := match fromHexChar c with Some _ => true | None => false end.

Section Trust.
Context `{Unicode} `{X509}.

(** [strings.ReplaceAll(strings.TrimSpace(value), ":", "")], a length check, a
    character check, then lowercase. *)
Definition normalizeSHA256 (value : bytes) : res bytes :=
  let value := filter (fun c => c <> z2b 58) (TrimSpace value) in
  fail? negb (len value =? 64) with Errorf "expected 64 hexadecimal characters, got %d" ;;
  fail? negb (forallb hex_any value) with Errorf "invalid hexadecimal character %q" ;;
  Ok (ToLower value).

Definition expectedIdentity (source : SourceAuthorization) (use : CertificateUse)
  : res CertificateIdentity :=
  match use with
  | CertificateUseBatchSigning => Ok (BatchSigning source)
  | CertificateUseTransport => Ok (Transport source)
  | CertificateUseOther _ => Err (Errorf "unsupported certificate use %q")
  end.

(** The body of [AuthorizeSource] after the enabled check; an error here is
    returned with the empty outcome. *)
Definition AuthorizeSource (source : SourceAuthorization) (use : CertificateUse)
    (presented : CertificateIdentity) : res AuthorizationOutcome :=
  fail? bool_decide (SourceID source = []) with Errorf "source ID is required" ;;
  if negb (Enabled source) then Ok AuthorizationDisabled else
  let? expected := expectedIdentity source use in
  if negb (EqualFold (CommonName presented) (CommonName expected))
  then Ok AuthorizationIdentityMismatch else
  if negb (bool_decide (OrganizationalUnit presented = OrganizationalUnit expected))
  then Ok AuthorizationIdentityMismatch else
  let? expectedCA :=
    wrap "configured issuing CA SHA-256: %w" (normalizeSHA256 (IssuingCASHA256 expected)) in
  let? presentedCA :=
    wrap "presented issuing CA SHA-256: %w" (normalizeSHA256 (IssuingCASHA256 presented)) in
  if negb (bool_decide (presentedCA = expectedCA))
  then Ok AuthorizationCertificateMismatch else
  let? expectedCertificate :=
    wrap "configured certificate SHA-256: %w" (normalizeSHA256 (CertificateSHA256 expected)) in
  let? presentedCertificate :=
    wrap "presented certificate SHA-256: %w" (normalizeSHA256 (CertificateSHA256 presented)) in
  if negb (bool_decide (presentedCertificate = expectedCertificate))
  then Ok AuthorizationCertificateMismatch else
  Ok AuthorizationAuthorized.

Definition IdentityFromCertificate (certificate issuer : Certificate) : res CertificateIdentity :=
  fail? len (Raw certificate) =? 0 with Errorf "certificate DER is empty" ;;
  fail? len (Raw issuer) =? 0 with Errorf "issuer certificate DER is empty" ;;
  fail? bool_decide (Pki.CommonName certificate = [])
    with Errorf "certificate common name is required" ;;
  match Pki.OrganizationalUnit certificate with
  | [ou] =>
      Ok {| CertificateSHA256 := sha256_hex (Raw certificate);
            CommonName := Pki.CommonName certificate;
            IssuingCASHA256 := sha256_hex (Raw issuer);
            OrganizationalUnit := ou |}
  | _ => Err (Errorf "certificate must contain exactly one organizational unit, got %d")
  end.

Definition certificateIsRevoked (certificate : Certificate) (crl : RevocationList) : bool :=
  existsb (fun entry => bool_decide (entry = Some (SerialNumber certificate)))
    (RevokedCertificateEntries crl) ||
  existsb (fun entry => bool_decide (entry = Some (SerialNumber certificate)))
    (RevokedCertificates crl).

(** The revocation-list part shared by the two verifiers: signature, validity
    window, revocation. [role] is the certificate role named in the messages. *)
Definition checkCRL (role : string) (leaf issuer : Certificate) (crl : RevocationList)
    (currentTime : Z) : res unit :=
  check? wrap (role +:+ " CRL signature validation failed: %w")
    (CRL_CheckSignatureFrom crl issuer) ;;
  fail? After (ThisUpdate crl) currentTime
    with Errorf (role +:+ " CRL is not yet valid: thisUpdate=%s") ;;
  fail? IsZero (NextUpdate crl) with Errorf (role +:+ " CRL nextUpdate is required") ;;
  fail? negb (After (NextUpdate crl) currentTime)
    with Errorf (role +:+ " CRL is expired: nextUpdate=%s") ;;
  fail? certificateIsRevoked leaf crl
    with Errorf (role +:+ " certificate serial %s is revoked") ;;
  Ok tt.

(** The identity and authorization tail shared by the two verifiers. *)
Definition authorizeLeaf (role what : string) (leaf issuer : Certificate)
    (source : SourceAuthorization) (use : CertificateUse) : verdict :=
  let^ identity := wrap ("derive " +:+ role +:+ " certificate identity: %w")
                     (IdentityFromCertificate leaf issuer) in
  let^ outcome := wrap ("authorize " +:+ what +:+ ": %w")
                    (AuthorizeSource source use identity) in
  if negb (bool_decide (outcome = AuthorizationAuthorized))
  then (outcome, Err (Errorf (what +:+ " authorization rejected: %s")))
  else (outcome, Ok tt).

Definition VerifyBatchSigningCertificate (leaf root issuer : option Certificate)
    (crl : option RevocationList) (source : SourceAuthorization) (currentTime : Z) : verdict :=
  match leaf, root, issuer, crl with
  | None, _, _, _ => reject (Errorf "batch-signing certificate is required")
  | _, None, _, _ => reject (Errorf "root certificate is required")
  | _, _, None, _ => reject (Errorf "batch-signing issuing certificate is required")
  | _, _, _, None => reject (Errorf "batch-signing CRL is required")
  | Some leaf, Some root, Some issuer, Some crl =>
      if IsZero currentTime then reject (Errorf "current time is required") else
      if IsCA leaf then reject (Errorf "batch-signing certificate must not be a CA") else
      match Pki.OrganizationalUnit leaf with
      | [ou] =>
          if negb (bool_decide (ou = BatchSigningOrganizationalUnit))
          then (AuthorizationIdentityMismatch,
                Err (Errorf "batch-signing certificate organizational unit must be %q, got %q"))
          else
          let^ _ := wrap "batch-signing certificate is not signed by expected FI batch-signing issuer: %w"
                      (CheckSignatureFrom leaf issuer) in
          if Z.land (KeyUsage leaf) KeyUsageDigitalSignature =? 0
          then reject (Errorf "batch-signing certificate does not permit digital signatures") else
          let^ _ := checkCRL "batch-signing" leaf issuer crl currentTime in
          let^ _ := wrap "batch-signing certificate chain validation failed: %w"
                      (Verify leaf [root] [issuer] currentTime [ExtKeyUsageAny]) in
          authorizeLeaf "batch-signing" "FI source batch-signing" leaf issuer source
            CertificateUseBatchSigning
      | _ => reject (Errorf "batch-signing certificate must contain exactly one organizational unit, got %d")
      end
  end.

(** [certificate.Equal]: the same DER. *)
Definition cert_Equal (c d : Certificate) : bool := bool_decide (Raw c = Raw d).

(** The pool of presented intermediates: nil entries, the root, the issuer and
    the leaf itself are skipped. *)
Definition peerPool (leaf root issuer : Certificate) (peers : list (option Certificate))
  : list Certificate :=
  List.filter (fun c => negb (cert_Equal c root || cert_Equal c issuer || cert_Equal c leaf))
    (omap id peers).

Definition VerifyTransportCertificate (leaf : option Certificate)
    (peerIntermediates : list (option Certificate)) (root issuer : option Certificate)
    (crl : option RevocationList) (source : SourceAuthorization) (currentTime : Z) : verdict :=
  match leaf, root, issuer, crl with
  | None, _, _, _ => reject (Errorf "leaf certificate is required")
  | _, None, _, _ => reject (Errorf "root certificate is required")
  | _, _, None, _ => reject (Errorf "issuing certificate is required")
  | _, _, _, None => reject (Errorf "transport CRL is required")
  | Some leaf, Some root, Some issuer, Some crl =>
      if IsZero currentTime then reject (Errorf "current time is required") else
      let^ _ := wrap "leaf certificate is not signed by expected FI transport issuer: %w"
                  (CheckSignatureFrom leaf issuer) in
      if Z.land (KeyUsage leaf) KeyUsageDigitalSignature =? 0
      then reject (Errorf "transport certificate does not permit digital signatures") else
      let^ _ := checkCRL "transport" leaf issuer crl currentTime in
      let^ _ := wrap "transport certificate chain or client-auth validation failed: %w"
                  (Verify leaf [root] (issuer :: peerPool leaf root issuer peerIntermediates)
                     currentTime [ExtKeyUsageClientAuth]) in
      authorizeLeaf "transport" "FI source" leaf issuer source CertificateUseTransport
  end.

Definition VerifySignedBatch (descriptor : transportbatch.Descriptor) (signature : bytes)
    (leaf root issuer : option Certificate) (crl : option RevocationList)
    (source : SourceAuthorization) (currentTime : Z) : verdict :=
  let^ input := wrap "construct batch signature input: %w"
                  (transportbatch.SignatureInput descriptor) in
  if negb (bool_decide (transportbatch.SourceID descriptor = SourceID source))
  then (AuthorizationIdentityMismatch,
        Err (Errorf "batch descriptor source ID %q does not match enrolled source ID %q"))
  else if len signature =? 0 then reject (Errorf "batch signature is required")
  else
  match VerifyBatchSigningCertificate leaf root issuer crl source currentTime, leaf with
  | (outcome, Ok _), Some leaf =>
      match PublicKey leaf with
      | RSAKey n e =>
          let^ _ := wrap "batch signature verification failed using %s: %w"
                      (VerifyPSS (n, e) (sha256 input) signature) in
          (outcome, Ok tt)
      | OtherKey => reject (Errorf "batch-signing certificate public key must be RSA for %s")
      end
  | (_, Ok _), None => (AuthorizationNone, Panic)
  | (outcome, err), _ => (outcome, err)
  end.

Definition SignBatchDescriptor (descriptor : transportbatch.Descriptor) (signer : Signer)
  : res bytes :=
  let? input :=
    wrap "construct batch signature input: %w" (transportbatch.SignatureInput descriptor) in
  match Public signer with
  | OtherKey => Err (Errorf "batch signer public key must be RSA for %s")
  | RSAKey n e =>
      let? signature := wrap "sign FI batch using %s: %w" (Sign signer (sha256 input)) in
      fail? len signature =? 0 with Errorf "batch signer returned an empty signature" ;;
      check? wrap "batch signer produced a signature invalid for %s: %w"
        (VerifyPSS (n, e) (sha256 input) signature) ;;
      Ok signature
  end.

(** ** What an accepted certificate and signature have passed *)

(** Everything [AuthorizeSource] compares, for an enabled source. *)
Definition authorized_identity (source : SourceAuthorization) (expected presented : CertificateIdentity)
  : Prop :=
  SourceID source <> [] /\ Enabled source = true /\
  EqualFold (CommonName presented) (CommonName expected) = true /\
  OrganizationalUnit presented = OrganizationalUnit expected /\
  (exists ca, normalizeSHA256 (IssuingCASHA256 expected) = Ok ca /\
              normalizeSHA256 (IssuingCASHA256 presented) = Ok ca) /\
  (exists cert, normalizeSHA256 (CertificateSHA256 expected) = Ok cert /\
                normalizeSHA256 (CertificateSHA256 presented) = Ok cert).

Lemma AuthorizeSource_authorized source use presented :
  AuthorizeSource source use presented = Ok AuthorizationAuthorized <->
  exists expected, expectedIdentity source use = Ok expected /\
    authorized_identity source expected presented.
Proof.
  unfold AuthorizeSource, authorized_identity. split.
  - intros Hok. res_inv Hok. bool_hyps. subst. exists v. naive_solver.
  - intros (x & Hx & Hs & He & Hcn & Hou & (ca & H1 & H2) & cert & H3 & H4).
    rewrite bool_decide_eq_false_2 by done. rewrite He, Hx. cbn [negb res_bind].
    rewrite Hcn, bool_decide_eq_true_2 by done. cbn [negb].
    rewrite H1, H2. cbn [wrap res_bind]. rewrite bool_decide_eq_true_2 by done. cbn [negb].
    rewrite H3, H4. cbn [wrap res_bind]. by rewrite bool_decide_eq_true_2 by done.
Qed.

Lemma attempt_Ok {A} (m : res A) k o :
  attempt m k = (o, Ok tt) <-> exists a, m = Ok a /\ k a = (o, Ok tt).
Proof. destruct m; simpl; unfold reject; naive_solver. Qed.

(** The leaf checks common to both certificate roles. *)
Definition trusted_leaf (leaf issuer : Certificate) (crl : RevocationList) (now : Z) : Prop :=
  CheckSignatureFrom leaf issuer = Ok tt /\
  Z.land (KeyUsage leaf) KeyUsageDigitalSignature <> 0 /\
  CRL_CheckSignatureFrom crl issuer = Ok tt /\
  ThisUpdate crl <= now < NextUpdate crl /\
  ~ In (Some (SerialNumber leaf)) (RevokedCertificateEntries crl) /\
  ~ In (Some (SerialNumber leaf)) (RevokedCertificates crl).

Lemma revoked_false leaf crl :
  certificateIsRevoked leaf crl = false <->
  ~ In (Some (SerialNumber leaf)) (RevokedCertificateEntries crl) /\
  ~ In (Some (SerialNumber leaf)) (RevokedCertificates crl).
Proof.
  unfold certificateIsRevoked. rewrite orb_false, <- !not_true_iff_false, !existsb_exists.
  setoid_rewrite bool_decide_eq_true. naive_solver.
Qed.

Lemma checkCRL_Ok role leaf issuer crl now :
  checkCRL role leaf issuer crl now = Ok tt ->
  CRL_CheckSignatureFrom crl issuer = Ok tt /\ ThisUpdate crl <= now < NextUpdate crl /\
  ~ In (Some (SerialNumber leaf)) (RevokedCertificateEntries crl) /\
  ~ In (Some (SerialNumber leaf)) (RevokedCertificates crl).
Proof.
  unfold checkCRL, After, IsZero. rewrite check_Ok, wrap_Ok.
  rewrite !fail_Ok, negb_false_true, revoked_false. intros (? & ? & _ & ? & ? & _).
  split_and!; naive_solver lia.
Qed.

Lemma authorizeLeaf_Ok role what leaf issuer source use o :
  authorizeLeaf role what leaf issuer source use = (o, Ok tt) ->
  o = AuthorizationAuthorized /\
  exists expected presented,
    expectedIdentity source use = Ok expected /\
    IdentityFromCertificate leaf issuer = Ok presented /\
    authorized_identity source expected presented.
Proof.
  unfold authorizeLeaf. rewrite attempt_Ok. intros (presented & Hp%wrap_Ok & Ha).
  rewrite attempt_Ok in Ha. destruct Ha as (o' & Ho%wrap_Ok & Ha).
  case_bool_decide; simpl in Ha; [|discriminate]. subst o'. injection Ha as <-.
  apply AuthorizeSource_authorized in Ho as (x & Hx & Hid). split; [done|]. eauto.
Qed.

(** An accepted batch-signing certificate: a non-CA certificate of the FI Batch
    Signing unit that the configured issuer signed, that the current signed CRL
    does not revoke, that chains to the root at the current time, and whose
    fingerprint, issuer fingerprint, unit and name are the ones enrolled for the
    (enabled) source. *)
Definition accepted_batch_leaf (l r i : Certificate) (c : RevocationList)
    (source : SourceAuthorization) (now : Z) : Prop :=
  IsCA l = false /\ Pki.OrganizationalUnit l = [BatchSigningOrganizationalUnit] /\
  trusted_leaf l i c now /\ Verify l [r] [i] now [ExtKeyUsageAny] = Ok tt /\
  exists presented, IdentityFromCertificate l i = Ok presented /\
    authorized_identity source (BatchSigning source) presented.

Lemma VerifyBatchSigningCertificate_Ok leaf root issuer crl source now o :
  VerifyBatchSigningCertificate leaf root issuer crl source now = (o, Ok tt) ->
  o = AuthorizationAuthorized /\
  exists l r i c, leaf = Some l /\ root = Some r /\ issuer = Some i /\ crl = Some c /\
    accepted_batch_leaf l r i c source now.
Proof.
  unfold VerifyBatchSigningCertificate.
  destruct leaf as [l|], root as [r|], issuer as [i|], crl as [c|]; try discriminate.
  destruct (IsZero now); [discriminate|]. destruct (IsCA l) eqn:?; [discriminate|].
  destruct (Pki.OrganizationalUnit l) as [|ou [|? ?]] eqn:?; try discriminate.
  case_bool_decide; simpl; [|discriminate]. subst ou.
  rewrite attempt_Ok. intros ([] & Hsig%wrap_Ok & Hok).
  destruct (Z.eqb_spec (Z.land (KeyUsage l) KeyUsageDigitalSignature) 0); [discriminate|].
  rewrite attempt_Ok in Hok. destruct Hok as ([] & Hcrl%checkCRL_Ok & Hok).
  rewrite attempt_Ok in Hok. destruct Hok as ([] & Hver%wrap_Ok & Hok).
  apply authorizeLeaf_Ok in Hok as (-> & x & p & [= <-] & Hp & Hauth).
  split; [done|]. exists l, r, i, c. unfold accepted_batch_leaf, trusted_leaf. naive_solver.
Qed.

Lemma VerifySignedBatch_Ok d signature leaf root issuer crl source now o :
  VerifySignedBatch d signature leaf root issuer crl source now = (o, Ok tt) ->
  o = AuthorizationAuthorized /\ transportbatch.ValidDescriptor d /\
  transportbatch.SourceID d = SourceID source /\ signature <> [] /\
  exists l r i c n e,
    leaf = Some l /\ root = Some r /\ issuer = Some i /\ crl = Some c /\
    accepted_batch_leaf l r i c source now /\ PublicKey l = RSAKey n e /\
    VerifyPSS (n, e) (sha256 (transportbatch.layout d)) signature = Ok tt.
Proof.
  unfold VerifySignedBatch. rewrite attempt_Ok. intros (input & Hin%wrap_Ok & Hok).
  apply transportbatch.SignatureInput_Ok in Hin as [Hv ->].
  case_bool_decide as Hsrc; simpl in Hok; [|discriminate].
  destruct (Z.eqb_spec (len signature) 0) as [|Hne]; [discriminate|].
  destruct (VerifyBatchSigningCertificate _ _ _ _ _ _) as [o' [[]|e|]] eqn:Hcert; try discriminate.
  destruct leaf as [l|]; [|discriminate].
  destruct (PublicKey l) as [n e|] eqn:Hk; [|discriminate].
  rewrite attempt_Ok in Hok. destruct Hok as ([] & Hs%wrap_Ok & [= ->]).
  apply VerifyBatchSigningCertificate_Ok in Hcert as (-> & l' & r & i & c & [= ->] & -> & -> & -> & Ha).
  split_and!; try done; [by intros ->|]. by exists l', r, i, c, n, e.
Qed.

(** [C39] A signed batch is accepted only with the outcome AUTHORIZED, and then
    its descriptor is valid and names the enrolled source, its certificate is an
    accepted batch-signing certificate (issuer, CRL window and revocation, chain,
    unit and enrolled identity all checked), and the signature verifies under
    that certificate's RSA key over the SHA-256 of exactly this descriptor's
    signed layout. *)
Theorem VerifySignedBatch_sound d signature leaf root issuer crl source now o :
  VerifySignedBatch d signature leaf root issuer crl source now = (o, Ok tt) ->
  o = AuthorizationAuthorized /\ transportbatch.ValidDescriptor d /\
  transportbatch.SourceID d = SourceID source /\ signature <> [] /\
  exists l r i c n e,
    leaf = Some l /\ root = Some r /\ issuer = Some i /\ crl = Some c /\
    accepted_batch_leaf l r i c source now /\ PublicKey l = RSAKey n e /\
    VerifyPSS (n, e) (sha256 (transportbatch.layout d)) signature = Ok tt.
Proof. apply VerifySignedBatch_Ok. Qed.

End Trust.

(** The example source: enrolled with the demo certificate of its own name. *)
Definition demoIdentity (ou name : bytes) : CertificateIdentity := {|
  CertificateSHA256 := sha256_hex name; CommonName := name;
  IssuingCASHA256 := sha256_hex (bs "issuer"); OrganizationalUnit := ou |}.

Definition demoSource : SourceAuthorization := {|
  BatchSigning := demoIdentity BatchSigningOrganizationalUnit (bs "FS-01");
  Enabled := true; SourceID := bs "FS-01";
  Transport := demoIdentity TransportOrganizationalUnit (bs "FS-01") |}.

Definition demoX509 : X509 := Demo.x509 BatchSigningOrganizationalUnit.
Definition demoLeaf : Certificate := Demo.certificate BatchSigningOrganizationalUnit (bs "FS-01").
Definition demoIssuer : Certificate := Demo.certificate (bs "CA") (bs "issuer").
Definition demoRoot : Certificate := Demo.certificate (bs "CA") (bs "root").

Lemma VerifySignedBatch_sound_witness :
  let signature := sha256 (transportbatch.layout transportbatch.exampleDescriptor) in
  @VerifySignedBatch asciiUnicode demoX509 transportbatch.exampleDescriptor signature
    (Some demoLeaf) (Some demoRoot) (Some demoIssuer) (Some Demo.crl) demoSource 50
  = (AuthorizationAuthorized, Ok tt) /\
  transportbatch.SourceID transportbatch.exampleDescriptor = SourceID demoSource.
Proof.
  assert (E : @VerifySignedBatch asciiUnicode demoX509 transportbatch.exampleDescriptor
    (sha256 (transportbatch.layout transportbatch.exampleDescriptor))
    (Some demoLeaf) (Some demoRoot) (Some demoIssuer) (Some Demo.crl) demoSource 50
    = (AuthorizationAuthorized, Ok tt)) by (vm_compute; reflexivity).
  split; [exact E|].
  apply (@VerifySignedBatch_sound asciiUnicode demoX509 _ _ _ _ _ _ _ _ _ E).
Defined.

End transporttrust.
