(* ===== verification/TransportPackage.v ===== *)
(** * The signed batch package

    Models [go/internal/transportpackage/signed.go]. *)

From S2P Require Import Prelude GoBytes GoStrings Sha256 Pki TransportBatch TransportTrust.

Module transportpackage.

Definition MaxBatchSignatureBytes : Z := 16 * 1024.
Definition MaxBatchSigningCertificateDERBytes : Z := 128 * 1024.
Definition SignedBatchVersion : bytes := bs "fi-signed-batch/0.1".

Record SignedBatch := {
  Version : bytes;
  Descriptor : transportbatch.Descriptor;
  Signature : bytes;
  BatchSigningCertificateDER : bytes
}.

Section Package.
Context `{Unicode} `{X509}.

Definition validateBatchSigningCertificateRole (descriptor : transportbatch.Descriptor)
    (certificate : Certificate) : res unit :=
  fail? IsCA certificate with Errorf "batch-signing certificate must not be a CA" ;;
  match OrganizationalUnit certificate with
  | [ou] =>
      fail? negb (bool_decide (ou = transporttrust.BatchSigningOrganizationalUnit))
        with Errorf "batch-signing certificate organizational unit must be %q, got %q" ;;
      fail? negb (EqualFold (CommonName certificate) (transportbatch.SourceID descriptor))
        with Errorf "batch-signing certificate common name %q does not match source ID %q" ;;
      fail? Z.land (KeyUsage certificate) KeyUsageDigitalSignature =? 0
        with Errorf "batch-signing certificate does not permit digital signatures" ;;
      match PublicKey certificate with
      | RSAKey _ _ => Ok tt
      | OtherKey => Err (Errorf "batch-signing certificate public key must be RSA for %s")
      end
  | _ => Err (Errorf "batch-signing certificate must contain exactly one organizational unit, got %d")
  end.

Definition validateSignerMatchesCertificate (signer : Signer) (certificate : Certificate)
  : res unit :=
  match PublicKey certificate with
  | OtherKey => Err (Errorf "batch-signing certificate RSA public key is required")
  | RSAKey n e =>
      match Public signer with
      | OtherKey => Err (Errorf "batch signer public key must be RSA for %s")
      | RSAKey n' e' =>
          fail? negb (e =? e') || negb (n =? n')
            with Errorf "batch signer public key does not match batch-signing certificate" ;;
          Ok tt
      end
  end.

Definition BatchSigningCertificate (value : SignedBatch) : res Certificate :=
  fail? len (BatchSigningCertificateDER value) =? 0
    with Errorf "batch-signing certificate DER is required" ;;
  fail? MaxBatchSigningCertificateDERBytes <? len (BatchSigningCertificateDER value)
    with Errorf "batch-signing certificate DER exceeds %d bytes" ;;
  let? certificate := wrap "parse batch-signing certificate DER: %w"
                        (ParseCertificate (BatchSigningCertificateDER value)) in
  check? validateBatchSigningCertificateRole (Descriptor value) certificate ;;
  Ok certificate.

Definition Validate (value : SignedBatch) : res unit :=
  fail? negb (bool_decide (Version value = SignedBatchVersion))
    with Errorf "signed batch version must be %q, got %q" ;;
  check? wrap "validate transport descriptor: %w" (transportbatch.Validate (Descriptor value)) ;;
  fail? len (Signature value) =? 0 with Errorf "batch signature is required" ;;
  fail? MaxBatchSignatureBytes <? len (Signature value)
    with Errorf "batch signature exceeds %d bytes" ;;
  let? _ := BatchSigningCertificate value in
  Ok tt.

Definition NewSignedBatch (descriptor : transportbatch.Descriptor)
    (certificate : option Certificate) (signer : option Signer) : res SignedBatch :=
  check? wrap "validate transport descriptor: %w" (transportbatch.Validate descriptor) ;;
  match certificate with
  | None => Err (Errorf "batch-signing certificate is required")
  | Some certificate =>
  fail? len (Raw certificate) =? 0 with Errorf "batch-signing certificate DER is required" ;;
  fail? MaxBatchSigningCertificateDERBytes <? len (Raw certificate)
    with Errorf "batch-signing certificate DER exceeds %d bytes" ;;
  match signer with
  | None => Err (Errorf "batch signer is required")
  | Some signer =>
  let? parsedCertificate := wrap "parse batch-signing certificate DER: %w"
                              (ParseCertificate (Raw certificate)) in
  check? validateBatchSigningCertificateRole descriptor parsedCertificate ;;
  check? validateSignerMatchesCertificate signer parsedCertificate ;;
  let? signature := transporttrust.SignBatchDescriptor descriptor signer in
  fail? MaxBatchSignatureBytes <? len signature with Errorf "batch signature exceeds %d bytes" ;;
  let value := {| Version := SignedBatchVersion; Descriptor := descriptor;
                  Signature := signature; BatchSigningCertificateDER := Raw parsedCertificate |} in
  check? wrap "validate signed batch package: %w" (Validate value) ;;
  Ok value
  end end.

(** ** Bounds and soundness *)

Lemma BatchSigningCertificate_Ok value c :
  BatchSigningCertificate value = Ok c <->
  0 < len (BatchSigningCertificateDER value) <= MaxBatchSigningCertificateDERBytes /\
  ParseCertificate (BatchSigningCertificateDER value) = Ok c /\
  validateBatchSigningCertificateRole (Descriptor value) c = Ok tt.
Proof.
  unfold BatchSigningCertificate. pose proof (len_nonneg (BatchSigningCertificateDER value)).
  rewrite !fail_Ok, Z.eqb_neq, Z.ltb_ge, res_bind_Ok. setoid_rewrite check_Ok.
  setoid_rewrite wrap_Ok. split.
  - intros (? & ? & x & ? & ? & [= <-]). split; [lia|done].
  - intros (? & ? & ?). split; [lia|]. split; [lia|]. eauto.
Qed.

(** What a structurally valid package satisfies. *)
Definition ValidPackage (value : SignedBatch) : Prop :=
  Version value = SignedBatchVersion /\
  transportbatch.ValidDescriptor (Descriptor value) /\
  0 < len (Signature value) <= MaxBatchSignatureBytes /\
  exists c, BatchSigningCertificate value = Ok c.

Lemma Package_Validate_Ok value : Validate value = Ok tt <-> ValidPackage value.
Proof.
  unfold Validate, ValidPackage. pose proof (len_nonneg (Signature value)).
  rewrite !fail_Ok, check_Ok, wrap_Ok, transportbatch.Descriptor_Validate_Ok, !fail_Ok, negb_decide_false.
  rewrite Z.eqb_neq, Z.ltb_ge, res_bind_Ok. split.
  - intros (? & ? & ? & ? & c & ? & _). split_and!; eauto; lia.
  - intros (? & ? & ? & c & ?). split_and!; eauto; lia.
Qed.

(** A package built by [NewSignedBatch] is structurally valid, carries the
    given descriptor and exactly the DER of the given certificate, and its
    signature verifies under the key of the certificate that travels with it,
    over the SHA-256 of this descriptor's signed layout. *)
Theorem NewSignedBatch_sound `{!X509Laws} d certificate signer value :
  NewSignedBatch d certificate signer = Ok value ->
  ValidPackage value /\ Descriptor value = d /\
  exists c parsed n e, certificate = Some c /\
    BatchSigningCertificateDER value = Raw c /\
    BatchSigningCertificate value = Ok parsed /\ PublicKey parsed = RSAKey n e /\
    VerifyPSS (n, e) (sha256 (transportbatch.layout d)) (Signature value) = Ok tt.
Proof.
  unfold NewSignedBatch. intros Hok. res_inv Hok.
  destruct certificate as [c|]; [|discriminate]. res_inv Hok.
  destruct signer as [s|]; [|discriminate]. res_inv Hok.
  match goal with Hp : ParseCertificate (Raw c) = Ok ?p |- _ =>
    pose proof (ParseCertificate_Raw _ _ Hp) as Hraw; rename p into parsed end.
  match goal with Hv : Validate _ = Ok ?u |- _ => destruct u; apply Package_Validate_Ok in Hv as HV end.
  split; [done|]. split; [done|]. cbn [BatchSigningCertificateDER Signature] in *.
  destruct HV as (_ & _ & _ & parsed' & Hcert). exists c, parsed'.
  pose proof Hcert as (_ & Hp' & _)%BatchSigningCertificate_Ok. cbn [BatchSigningCertificateDER] in Hp'.
  rewrite Hraw in Hp'. assert (parsed' = parsed) as -> by congruence.
  unfold validateSignerMatchesCertificate, transporttrust.SignBatchDescriptor in *.
  repeat match goal with
  | Hs : context [match PublicKey parsed with _ => _ end] |- _ =>
      destruct (PublicKey parsed) as [n e|] eqn:?; [|discriminate Hs]
  | Hs : context [match Public s with _ => _ end] |- _ =>
      destruct (Public s) as [n' e'|] eqn:?; [|discriminate Hs]
  | Hs : res_bind _ _ = Ok _ |- _ => res_inv Hs
  | Hs : (if _ then Err _ else _) = Ok _ |- _ => res_inv Hs
  end. bool_hyps.
  match goal with Hi : transportbatch.SignatureInput d = Ok _ |- _ =>
    apply transportbatch.SignatureInput_Ok in Hi as [_ ->] end.
  exists n, e. split; [done|]. split; [by rewrite Hraw|]. split; [done|]. split; [done|].
  assert (n = n' /\ e = e') as [-> ->] by lia.
  match goal with Hv : VerifyPSS _ _ _ = Ok ?u |- _ => by destruct u end.
Qed.

End Package.

Definition demoBatch : SignedBatch := {|
  Version := SignedBatchVersion; Descriptor := transportbatch.exampleDescriptor;
  Signature := sha256 (transportbatch.layout transportbatch.exampleDescriptor);
  BatchSigningCertificateDER := bs "FS-01" |}.

Lemma NewSignedBatch_sound_witness :
  @NewSignedBatch asciiUnicode transporttrust.demoX509 transportbatch.exampleDescriptor
    (Some transporttrust.demoLeaf) (Some Demo.signer) = Ok demoBatch /\
  Descriptor demoBatch = transportbatch.exampleDescriptor.
Proof.
  assert (E : @NewSignedBatch asciiUnicode transporttrust.demoX509 transportbatch.exampleDescriptor
    (Some transporttrust.demoLeaf) (Some Demo.signer) = Ok demoBatch) by (vm_compute; reflexivity).
  split; [exact E|].
  apply (@NewSignedBatch_sound asciiUnicode transporttrust.demoX509
           (Demo.x509_laws transporttrust.BatchSigningOrganizationalUnit) _ _ _ _ E).
Defined.

End transportpackage.
