(* ===== verification/TransportWire.v ===== *)
(** * The batch wire frames FIWB0001 and FIWB0002

    Models [go/internal/transportwire/frame.go] and [frame_v2.go]: the bounded
    header that precedes manifest and data on the wire. *)

From S2P Require Import Prelude GoBytes GoStrings GoIO Sha256 Pki TransportBatch TransportTrust TransportPackage.

Module transportwire.

Definition fixedHeaderBytes : Z := 120.
Definition frameMagic : bytes := bs "FIWB0001".
Definition MaxManifestBytes : Z := 1024 * 1024.
Definition MaxTextBytes : Z := 4 * 1024.
Definition MaxVersionBytes : Z := 64.
Definition fixedHeaderBytesV2 : Z := 164.
Definition frameMagicV2 : bytes := bs "FIWB0002".
Definition MaxDataEncodingBytes : Z := 32.

Record Header := {
  SignedBatch : transportpackage.SignedBatch;
  ManifestBytes : Z
}.

(** Field accessors written as the Go selectors. *)
Definition descriptor (h : Header) : transportbatch.Descriptor :=
  transportpackage.Descriptor (SignedBatch h).

(** The Go types of the counts. *)
Definition Header_typed (h : Header) : Prop :=
  transportbatch.Descriptor_typed (descriptor h) /\ is_u64 (ManifestBytes h).

Section Wire.
Context `{Unicode} `{X509}.

Definition Validate (value : Header) : res unit :=
  check? wrap "validate signed batch: %w" (transportpackage.Validate (SignedBatch value)) ;;
  fail? ManifestBytes value =? 0
    with Errorf "published manifest byte count must be greater than zero" ;;
  fail? MaxManifestBytes <? ManifestBytes value
    with Errorf "published manifest byte count exceeds %d bytes" ;;
  fail? MaxVersionBytes <? len (transportpackage.Version (SignedBatch value))
    with Errorf "signed batch version exceeds %d bytes" ;;
  fail? MaxVersionBytes <? len (transportbatch.Version (descriptor value))
    with Errorf "descriptor version exceeds %d bytes" ;;
  fail? MaxTextBytes <? len (transportbatch.SourceID (descriptor value))
    with Errorf "source ID exceeds %d bytes" ;;
  fail? MaxTextBytes <? len (transportbatch.BatchID (descriptor value))
    with Errorf "batch ID exceeds %d bytes" ;;
  Ok tt.

Definition headerFromManifest (signedBatch : transportpackage.SignedBatch) (manifest : bytes)
  : res Header :=
  check? wrap "validate signed batch: %w" (transportpackage.Validate signedBatch) ;;
  fail? len manifest =? 0 with Errorf "published manifest bytes are required" ;;
  fail? MaxManifestBytes <? len manifest with Errorf "published manifest exceeds %d bytes" ;;
  fail? negb (bool_decide (sha256_hex manifest =
          transportbatch.ManifestSHA256 (transportpackage.Descriptor signedBatch)))
    with Errorf "published manifest SHA-256 does not match signed descriptor" ;;
  let value := {| SignedBatch := signedBatch; ManifestBytes := len manifest |} in
  check? Validate value ;;
  Ok value.

(** [readBytes] and [readString]. *)
Definition readBytes (length : Z) (name : string) : prog reader bytes :=
  wrap_err "read %s: %w" (ReadFull length).

Definition validateLengths (signedVersionBytes descriptorVersionBytes sourceIDBytes batchIDBytes
    signatureBytes certificateBytes manifestBytes : Z) : res unit :=
  fail? (signedVersionBytes =? 0) || (MaxVersionBytes <? signedVersionBytes)
    with Errorf "signed batch version length is invalid: %d" ;;
  fail? (descriptorVersionBytes =? 0) || (MaxVersionBytes <? descriptorVersionBytes)
    with Errorf "descriptor version length is invalid: %d" ;;
  fail? (sourceIDBytes =? 0) || (MaxTextBytes <? sourceIDBytes)
    with Errorf "source ID length is invalid: %d" ;;
  fail? (batchIDBytes =? 0) || (MaxTextBytes <? batchIDBytes)
    with Errorf "batch ID length is invalid: %d" ;;
  fail? (signatureBytes =? 0) || (transportpackage.MaxBatchSignatureBytes <? signatureBytes)
    with Errorf "batch signature length is invalid: %d" ;;
  fail? (certificateBytes =? 0) ||
        (transportpackage.MaxBatchSigningCertificateDERBytes <? certificateBytes)
    with Errorf "batch-signing certificate DER length is invalid: %d" ;;
  fail? (manifestBytes =? 0) || (MaxManifestBytes <? manifestBytes)
    with Errorf "published manifest length is invalid: %d" ;;
  Ok tt.

Definition ReadHeader : prog reader Header :=
  let! fixed := wrap_err "read FI wire fixed header: %w" (ReadFull fixedHeaderBytes) in
  fail! negb (bool_decide (sub 0 8 fixed = frameMagic))
    with Errorf "FI wire frame magic is invalid" ;;
  let signedVersionBytes := be_get (sub 8 12 fixed) in
  let descriptorVersionBytes := be_get (sub 12 16 fixed) in
  let sourceIDBytes := be_get (sub 16 20 fixed) in
  let batchIDBytes := be_get (sub 20 24 fixed) in
  let recordCount := be_get (sub 24 32 fixed) in
  let dataBytes := be_get (sub 32 40 fixed) in
  let manifestBytes := be_get (sub 40 48 fixed) in
  let dataSHA256 := hex_encode (sub 48 80 fixed) in
  let manifestSHA256 := hex_encode (sub 80 112 fixed) in
  let signatureBytes := be_get (sub 112 116 fixed) in
  let certificateBytes := be_get (sub 116 120 fixed) in
  check! lift (validateLengths signedVersionBytes descriptorVersionBytes sourceIDBytes
                 batchIDBytes signatureBytes certificateBytes manifestBytes) ;;
  let! signedVersion := readBytes signedVersionBytes "signed batch version" in
  let! descriptorVersion := readBytes descriptorVersionBytes "descriptor version" in
  let! sourceID := readBytes sourceIDBytes "source ID" in
  let! batchID := readBytes batchIDBytes "batch ID" in
  let! signature := readBytes signatureBytes "batch signature" in
  let! certificateDER := readBytes certificateBytes "batch-signing certificate DER" in
  let value := {|
    SignedBatch := {|
      transportpackage.Version := signedVersion;
      transportpackage.Descriptor := {|
        transportbatch.Version := descriptorVersion;
        transportbatch.SourceID := sourceID;
        transportbatch.BatchID := batchID;
        transportbatch.RecordCount := recordCount;
        transportbatch.DataBytes := dataBytes;
        transportbatch.DataSHA256 := dataSHA256;
        transportbatch.DataEncoding := [];
        transportbatch.EncodedDataBytes := 0;
        transportbatch.EncodedDataSHA256 := [];
        transportbatch.ManifestSHA256 := manifestSHA256 |};
      transportpackage.Signature := signature;
      transportpackage.BatchSigningCertificateDER := certificateDER |};
    ManifestBytes := manifestBytes |} in
  check! lift (wrap "validate FI wire header: %w" (Validate value)) ;;
  ret value.

(** The bytes [WriteHeader] assembles for a constructed header. *)
Definition encodeHeader (value : Header) : res bytes :=
  let sb := SignedBatch value in
  let d := descriptor value in
  let? dataDigest := wrap "decode data SHA-256: %w" (hex_decode (transportbatch.DataSHA256 d)) in
  let? manifestDigest :=
    wrap "decode manifest SHA-256: %w" (hex_decode (transportbatch.ManifestSHA256 d)) in
  let fixed := zeros fixedHeaderBytes in
  let fixed := put 0 8 frameMagic fixed in
  let fixed := put 8 12 (PutUint32BE (u32 (len (transportpackage.Version sb)))) fixed in
  let fixed := put 12 16 (PutUint32BE (u32 (len (transportbatch.Version d)))) fixed in
  let fixed := put 16 20 (PutUint32BE (u32 (len (transportbatch.SourceID d)))) fixed in
  let fixed := put 20 24 (PutUint32BE (u32 (len (transportbatch.BatchID d)))) fixed in
  let fixed := put 24 32 (PutUint64BE (transportbatch.RecordCount d)) fixed in
  let fixed := put 32 40 (PutUint64BE (transportbatch.DataBytes d)) fixed in
  let fixed := put 40 48 (PutUint64BE (ManifestBytes value)) fixed in
  let fixed := put 48 80 dataDigest fixed in
  let fixed := put 80 112 manifestDigest fixed in
  let fixed := put 112 116 (PutUint32BE (u32 (len (transportpackage.Signature sb)))) fixed in
  let fixed := put 116 120
    (PutUint32BE (u32 (len (transportpackage.BatchSigningCertificateDER sb)))) fixed in
  Ok (fixed ++ transportpackage.Version sb ++ transportbatch.Version d ++
      transportbatch.SourceID d ++ transportbatch.BatchID d ++
      transportpackage.Signature sb ++ transportpackage.BatchSigningCertificateDER sb).

Definition WriteHeader {W} `{Writer W} (signedBatch : transportpackage.SignedBatch)
    (manifest : bytes) : prog W unit :=
  let! value := lift (wrap "construct FI wire header: %w"
                        (headerFromManifest signedBatch manifest)) in
  let! encoded := lift (encodeHeader value) in
  wrap_err "write FI wire header: %w" (CopyBuffer encoded).

(** *** Frame 0.2 *)

Definition validateLengthsV2 (signedVersionBytes descriptorVersionBytes sourceIDBytes batchIDBytes
    dataEncodingBytes signatureBytes certificateBytes manifestBytes : Z) : res unit :=
  fail? (signedVersionBytes =? 0) || (MaxVersionBytes <? signedVersionBytes)
    with Errorf "signed batch version length is invalid: %d" ;;
  fail? (descriptorVersionBytes =? 0) || (MaxVersionBytes <? descriptorVersionBytes)
    with Errorf "descriptor version length is invalid: %d" ;;
  fail? (sourceIDBytes =? 0) || (MaxTextBytes <? sourceIDBytes)
    with Errorf "source ID length is invalid: %d" ;;
  fail? (batchIDBytes =? 0) || (MaxTextBytes <? batchIDBytes)
    with Errorf "batch ID length is invalid: %d" ;;
  fail? (dataEncodingBytes =? 0) || (MaxDataEncodingBytes <? dataEncodingBytes)
    with Errorf "data encoding length is invalid: %d" ;;
  fail? (signatureBytes =? 0) || (transportpackage.MaxBatchSignatureBytes <? signatureBytes)
    with Errorf "batch signature length is invalid: %d" ;;
  fail? (certificateBytes =? 0) ||
        (transportpackage.MaxBatchSigningCertificateDERBytes <? certificateBytes)
    with Errorf "batch-signing certificate DER length is invalid: %d" ;;
  fail? (manifestBytes =? 0) || (MaxManifestBytes <? manifestBytes)
    with Errorf "published manifest length is invalid: %d" ;;
  Ok tt.

Definition ReadHeaderV2 : prog reader Header :=
  let! fixed := wrap_err "read FI wire 0.2 fixed header: %w" (ReadFull fixedHeaderBytesV2) in
  fail! negb (bool_decide (sub 0 8 fixed = frameMagicV2))
    with Errorf "FI wire 0.2 frame magic is invalid" ;;
  let signedVersionBytes := be_get (sub 8 12 fixed) in
  let descriptorVersionBytes := be_get (sub 12 16 fixed) in
  let sourceIDBytes := be_get (sub 16 20 fixed) in
  let batchIDBytes := be_get (sub 20 24 fixed) in
  let dataEncodingBytes := be_get (sub 24 28 fixed) in
  let recordCount := be_get (sub 28 36 fixed) in
  let dataBytes := be_get (sub 36 44 fixed) in
  let encodedDataBytes := be_get (sub 44 52 fixed) in
  let manifestBytes := be_get (sub 52 60 fixed) in
  let dataSHA256 := hex_encode (sub 60 92 fixed) in
  let encodedDataSHA256 := hex_encode (sub 92 124 fixed) in
  let manifestSHA256 := hex_encode (sub 124 156 fixed) in
  let signatureBytes := be_get (sub 156 160 fixed) in
  let certificateBytes := be_get (sub 160 164 fixed) in
  check! lift (validateLengthsV2 signedVersionBytes descriptorVersionBytes sourceIDBytes
                 batchIDBytes dataEncodingBytes signatureBytes certificateBytes manifestBytes) ;;
  let! signedVersion := readBytes signedVersionBytes "signed batch version" in
  let! descriptorVersion := readBytes descriptorVersionBytes "descriptor version" in
  fail! negb (bool_decide (descriptorVersion = transportbatch.DescriptorVersionV2))
    with Errorf "FI wire 0.2 requires descriptor version %q, got %q" ;;
  let! sourceID := readBytes sourceIDBytes "source ID" in
  let! batchID := readBytes batchIDBytes "batch ID" in
  let! dataEncoding := readBytes dataEncodingBytes "data encoding" in
  let! signature := readBytes signatureBytes "batch signature" in
  let! certificateDER := readBytes certificateBytes "batch-signing certificate DER" in
  let value := {|
    SignedBatch := {|
      transportpackage.Version := signedVersion;
      transportpackage.Descriptor := {|
        transportbatch.Version := descriptorVersion;
        transportbatch.SourceID := sourceID;
        transportbatch.BatchID := batchID;
        transportbatch.RecordCount := recordCount;
        transportbatch.DataBytes := dataBytes;
        transportbatch.DataSHA256 := dataSHA256;
        transportbatch.DataEncoding := dataEncoding;
        transportbatch.EncodedDataBytes := encodedDataBytes;
        transportbatch.EncodedDataSHA256 := encodedDataSHA256;
        transportbatch.ManifestSHA256 := manifestSHA256 |};
      transportpackage.Signature := signature;
      transportpackage.BatchSigningCertificateDER := certificateDER |};
    ManifestBytes := manifestBytes |} in
  check! lift (wrap "validate FI wire 0.2 header: %w" (Validate value)) ;;
  ret value.

(** The bytes [WriteHeaderV2] assembles for a constructed header. *)
Definition encodeHeaderV2 (value : Header) : res bytes :=
  let sb := SignedBatch value in
  let d := descriptor value in
  let? dataDigest := wrap "decode data SHA-256: %w" (hex_decode (transportbatch.DataSHA256 d)) in
  let? encodedDataDigest :=
    wrap "decode encoded data SHA-256: %w" (hex_decode (transportbatch.EncodedDataSHA256 d)) in
  let? manifestDigest :=
    wrap "decode manifest SHA-256: %w" (hex_decode (transportbatch.ManifestSHA256 d)) in
  let fixed := zeros fixedHeaderBytesV2 in
  let fixed := put 0 8 frameMagicV2 fixed in
  let fixed := put 8 12 (PutUint32BE (u32 (len (transportpackage.Version sb)))) fixed in
  let fixed := put 12 16 (PutUint32BE (u32 (len (transportbatch.Version d)))) fixed in
  let fixed := put 16 20 (PutUint32BE (u32 (len (transportbatch.SourceID d)))) fixed in
  let fixed := put 20 24 (PutUint32BE (u32 (len (transportbatch.BatchID d)))) fixed in
  let fixed := put 24 28 (PutUint32BE (u32 (len (transportbatch.DataEncoding d)))) fixed in
  let fixed := put 28 36 (PutUint64BE (transportbatch.RecordCount d)) fixed in
  let fixed := put 36 44 (PutUint64BE (transportbatch.DataBytes d)) fixed in
  let fixed := put 44 52 (PutUint64BE (transportbatch.EncodedDataBytes d)) fixed in
  let fixed := put 52 60 (PutUint64BE (ManifestBytes value)) fixed in
  let fixed := put 60 92 dataDigest fixed in
  let fixed := put 92 124 encodedDataDigest fixed in
  let fixed := put 124 156 manifestDigest fixed in
  let fixed := put 156 160 (PutUint32BE (u32 (len (transportpackage.Signature sb)))) fixed in
  let fixed := put 160 164
    (PutUint32BE (u32 (len (transportpackage.BatchSigningCertificateDER sb)))) fixed in
  Ok (fixed ++ transportpackage.Version sb ++ transportbatch.Version d ++
      transportbatch.SourceID d ++ transportbatch.BatchID d ++ transportbatch.DataEncoding d ++
      transportpackage.Signature sb ++ transportpackage.BatchSigningCertificateDER sb).

Definition WriteHeaderV2 {W} `{Writer W} (signedBatch : transportpackage.SignedBatch)
    (manifest : bytes) : prog W unit :=
  fail! negb (bool_decide (transportbatch.Version (transportpackage.Descriptor signedBatch) =
                           transportbatch.DescriptorVersionV2))
    with Errorf "FI wire 0.2 requires descriptor version %q" ;;
  let! value := lift (wrap "construct FI wire 0.2 header: %w"
                        (headerFromManifest signedBatch manifest)) in
  let! encoded := lift (encodeHeaderV2 value) in
  wrap_err "write FI wire 0.2 header: %w" (CopyBuffer encoded).

(** ** Layout of an encoded header *)

Definition fixedV1 (h : Header) : bytes :=
  let sb := SignedBatch h in
  let d := descriptor h in
  frameMagic ++
  PutUint32BE (u32 (len (transportpackage.Version sb))) ++
  PutUint32BE (u32 (len (transportbatch.Version d))) ++
  PutUint32BE (u32 (len (transportbatch.SourceID d))) ++
  PutUint32BE (u32 (len (transportbatch.BatchID d))) ++
  PutUint64BE (transportbatch.RecordCount d) ++
  PutUint64BE (transportbatch.DataBytes d) ++
  PutUint64BE (ManifestBytes h) ++
  hex_bytes (transportbatch.DataSHA256 d) ++
  hex_bytes (transportbatch.ManifestSHA256 d) ++
  PutUint32BE (u32 (len (transportpackage.Signature sb))) ++
  PutUint32BE (u32 (len (transportpackage.BatchSigningCertificateDER sb))).

Definition tailV1 (h : Header) : bytes :=
  transportpackage.Version (SignedBatch h) ++ transportbatch.Version (descriptor h) ++
  transportbatch.SourceID (descriptor h) ++ transportbatch.BatchID (descriptor h) ++
  transportpackage.Signature (SignedBatch h) ++
  transportpackage.BatchSigningCertificateDER (SignedBatch h).

Lemma len_frameMagic : len frameMagic = 8. Proof. reflexivity. Qed.
Lemma len_frameMagicV2 : len frameMagicV2 = 8. Proof. reflexivity. Qed.
#[local] Hint Rewrite len_frameMagic len_frameMagicV2 : lens.

Lemma encodeHeader_layout h :
  sha256_text (transportbatch.DataSHA256 (descriptor h)) = true ->
  sha256_text (transportbatch.ManifestSHA256 (descriptor h)) = true ->
  encodeHeader h = Ok (fixedV1 h ++ tailV1 h).
Proof.
  intros Hd Hm. pose proof (len_hex_bytes _ Hd). pose proof (len_hex_bytes _ Hm).
  unfold encodeHeader, fixedHeaderBytes.
  rewrite (transportbatch.hex_decode_bytes _ Hd), (transportbatch.hex_decode_bytes _ Hm).
  cbn [wrap res_bind]. fill_header. unfold fixedV1, tailV1. by rewrite <- !app_assoc.
Qed.

(** The header contract as a proposition. *)
Definition ValidHeader (h : Header) : Prop :=
  transportpackage.ValidPackage (SignedBatch h) /\
  ManifestBytes h <> 0 /\ ManifestBytes h <= MaxManifestBytes /\
  len (transportbatch.SourceID (descriptor h)) <= MaxTextBytes /\
  len (transportbatch.BatchID (descriptor h)) <= MaxTextBytes.

Lemma ValidPackage_versions sb :
  transportpackage.ValidPackage sb ->
  len (transportpackage.Version sb) = 19 /\
  len (transportbatch.Version (transportpackage.Descriptor sb)) = 22.
Proof.
  intros (Hv & (_ & _ & _ & _ & _ & _ & Hd) & _). rewrite Hv.
  by destruct Hd as [(-> & _)|(-> & _)].
Qed.

Lemma Header_Validate_Ok h : Validate h = Ok tt <-> ValidHeader h.
Proof.
  unfold Validate, ValidHeader.
  rewrite check_Ok, wrap_Ok, transportpackage.Package_Validate_Ok, !fail_Ok, !Z.ltb_ge, Z.eqb_neq.
  split; [naive_solver|]. intros (Hp & ? & ? & ? & ?).
  pose proof (ValidPackage_versions _ Hp) as [Hv1 Hv2].
  unfold descriptor in *. rewrite Hv1, Hv2. unfold MaxVersionBytes. naive_solver lia.
Qed.

(** Lengths and ranges of the fields of a valid header. *)
Lemma ValidHeader_sizes h :
  ValidHeader h -> 0 <= ManifestBytes h ->
  let sb := SignedBatch h in let d := descriptor h in
  len (transportpackage.Version sb) = 19 /\ len (transportbatch.Version d) = 22 /\
  0 < len (transportbatch.SourceID d) <= MaxTextBytes /\
  0 < len (transportbatch.BatchID d) <= MaxTextBytes /\
  0 < len (transportpackage.Signature sb) <= transportpackage.MaxBatchSignatureBytes /\
  0 < len (transportpackage.BatchSigningCertificateDER sb) <=
    transportpackage.MaxBatchSigningCertificateDERBytes /\
  0 < ManifestBytes h <= MaxManifestBytes.
Proof.
  intros (Hp & ? & ? & ? & ?) Hm. cbv zeta.
  pose proof (ValidPackage_versions _ Hp) as [Hv1 Hv2].
  destruct Hp as (_ & ([Hs _] & [Hb _] & _) & Hsig & c & (Hder & _)%transportpackage.BatchSigningCertificate_Ok).
  unfold descriptor in *.
  assert (forall s : bytes, s <> [] -> 0 < len s) as Hne.
  { intros s' Hs'. destruct s'; [done|]. rewrite len_cons. pose proof (len_nonneg s'). lia. }
  split_and!; auto; lia.
Qed.

Lemma validateLengths_Ok a b c d e f g :
  0 < a <= MaxVersionBytes -> 0 < b <= MaxVersionBytes -> 0 < c <= MaxTextBytes ->
  0 < d <= MaxTextBytes -> 0 < e <= transportpackage.MaxBatchSignatureBytes ->
  0 < f <= transportpackage.MaxBatchSigningCertificateDERBytes -> 0 < g <= MaxManifestBytes ->
  validateLengths a b c d e f g = Ok tt.
Proof.
  intros. unfold validateLengths. rewrite !fail_Ok. split_and!; try done; lia.
Qed.

Lemma len_fixedV1 h :
  sha256_text (transportbatch.DataSHA256 (descriptor h)) = true ->
  sha256_text (transportbatch.ManifestSHA256 (descriptor h)) = true ->
  len (fixedV1 h) = 120.
Proof.
  intros Hd%len_hex_bytes Hm%len_hex_bytes. unfold fixedV1. len_solve.
Qed.

(** The fields of the fixed part, where [ReadHeader] looks for them. *)
Lemma fixedV1_fields h :
  sha256_text (transportbatch.DataSHA256 (descriptor h)) = true ->
  sha256_text (transportbatch.ManifestSHA256 (descriptor h)) = true ->
  let f := fixedV1 h in
  sub 0 8 f = frameMagic /\
  sub 8 12 f = PutUint32BE (u32 (len (transportpackage.Version (SignedBatch h)))) /\
  sub 12 16 f = PutUint32BE (u32 (len (transportbatch.Version (descriptor h)))) /\
  sub 16 20 f = PutUint32BE (u32 (len (transportbatch.SourceID (descriptor h)))) /\
  sub 20 24 f = PutUint32BE (u32 (len (transportbatch.BatchID (descriptor h)))) /\
  sub 24 32 f = PutUint64BE (transportbatch.RecordCount (descriptor h)) /\
  sub 32 40 f = PutUint64BE (transportbatch.DataBytes (descriptor h)) /\
  sub 40 48 f = PutUint64BE (ManifestBytes h) /\
  sub 48 80 f = hex_bytes (transportbatch.DataSHA256 (descriptor h)) /\
  sub 80 112 f = hex_bytes (transportbatch.ManifestSHA256 (descriptor h)) /\
  sub 112 116 f = PutUint32BE (u32 (len (transportpackage.Signature (SignedBatch h)))) /\
  sub 116 120 f =
    PutUint32BE (u32 (len (transportpackage.BatchSigningCertificateDER (SignedBatch h)))).
Proof.
  intros Hd%len_hex_bytes Hm%len_hex_bytes. cbv zeta. unfold fixedV1.
  split_and!; field.
Qed.

Lemma ReadHeader_layout h rest e :
  ValidHeader h -> is_u64 (ManifestBytes h) -> transportbatch.Descriptor_typed (descriptor h) ->
  transportbatch.Version (descriptor h) = transportbatch.DescriptorVersion ->
  ReadHeader (Reader (fixedV1 h ++ tailV1 h ++ rest) e) = (Ok h, Reader rest e).
Proof.
  intros Hv Hm (Hr & Hdb & _) Hver.
  pose proof (ValidHeader_sizes h Hv ltac:(unfold is_u64 in Hm; lia)) as Hsz. cbv zeta in Hsz.
  destruct Hsz as (Hv1 & Hv2 & Hsrc & Hbat & Hsig & Hder & Hman).
  pose proof Hv as ((_ & (_ & _ & _ & _ & Hd1 & Hd2 & Hd3) & _) & _).
  fold (descriptor h) in Hd1, Hd2, Hd3.
  unfold ReadHeader, fixedHeaderBytes.
  rewrite bind_read by (by apply len_fixedV1).
  destruct (fixedV1_fields h Hd1 Hd2) as
    (-> & -> & -> & -> & -> & -> & -> & -> & -> & -> & -> & ->).
  rewrite bool_decide_eq_true_2 by done. cbn [negb].
  unfold MaxTextBytes, transportpackage.MaxBatchSignatureBytes,
    transportpackage.MaxBatchSigningCertificateDERBytes, MaxManifestBytes in *.
  rewrite !u32_small by (unfold is_u32; lia).
  rewrite !be_get_PutUint32 by (unfold is_u32; lia). rewrite !be_get_PutUint64 by done.
  rewrite (bind_lift _ _ tt) by (apply validateLengths_Ok; unfold MaxVersionBytes, MaxTextBytes,
    transportpackage.MaxBatchSignatureBytes,
    transportpackage.MaxBatchSigningCertificateDERBytes, MaxManifestBytes; lia).
  unfold readBytes, tailV1. rewrite <- !app_assoc. rewrite !bind_read by done.
  destruct Hd3 as [(_ & He1 & He2 & He3)|(He & _)];
    [|rewrite Hver in He; by destruct transportbatch.versions_differ].
  rewrite !hex_encode_bytes by done.
  match goal with |- context [Validate ?v] => replace v with h end.
  2: { destruct h as [[? [] ? ?] ?]; unfold descriptor in *; simpl in *; by subst. }
  by rewrite (bind_lift _ _ tt) by (by apply wrap_Ok, Header_Validate_Ok).
Qed.

(** Reading back a written header. Whatever writer accepts a 0.1 header, the
    bytes it received are parsed by [ReadHeader] into exactly the package and
    manifest length that were written, leaving the stream at the first manifest
    byte, for any bytes that follow. *)
Theorem WriteHeader_ReadHeader {W} `{WriterLaws W} sb manifest (w w' : W) rest e :
  transportbatch.Descriptor_typed (transportpackage.Descriptor sb) ->
  transportbatch.Version (transportpackage.Descriptor sb) = transportbatch.DescriptorVersion ->
  WriteHeader sb manifest w = (Ok tt, w') ->
  exists out, written w' = written w ++ out /\
    ReadHeader (Reader (out ++ rest) e) =
      (Ok {| SignedBatch := sb; ManifestBytes := len manifest |}, Reader rest e).
Proof.
  intros Ht Hver (h & Hh%wrap_Ok & Hw)%bind_lift_Ok.
  apply bind_lift_Ok in Hw as (out & Hout & Hw).
  unfold headerFromManifest in Hh. rewrite check_Ok, !fail_Ok, check_Ok in Hh.
  destruct Hh as (_ & _ & Hmax & _ & Hv%Header_Validate_Ok & [= <-]).
  pose proof Hv as ((_ & (_ & _ & _ & _ & Hd1 & Hd2 & _) & _) & _).
  rewrite encodeHeader_layout in Hout by done. injection Hout as <-.
  exists (fixedV1 {| SignedBatch := sb; ManifestBytes := len manifest |} ++
          tailV1 {| SignedBatch := sb; ManifestBytes := len manifest |}).
  split; [eapply emits_Ok; [|exact Hw]; apply emits_wrap, CopyBuffer_emits|].
  rewrite <- app_assoc. apply ReadHeader_layout; try done.
  pose proof (len_nonneg manifest). unfold is_u64, MaxManifestBytes in *. simpl. lia.
Qed.

(** A 120-byte buffer as the fields of the fixed header. *)
Lemma split_fixedV1 f : len f = 120 ->
  f = sub 0 8 f ++ sub 8 12 f ++ sub 12 16 f ++ sub 16 20 f ++ sub 20 24 f ++ sub 24 32 f ++
      sub 32 40 f ++ sub 40 48 f ++ sub 48 80 f ++ sub 80 112 f ++ sub 112 116 f ++ sub 116 120 f.
Proof.
  intros Hf. rewrite <- (sub_whole 120 f) at 1 by done.
  rewrite (sub_split 0 8 120), (sub_split 8 12 120), (sub_split 12 16 120), (sub_split 16 20 120),
    (sub_split 20 24 120), (sub_split 24 32 120), (sub_split 32 40 120), (sub_split 40 48 120),
    (sub_split 48 80 120), (sub_split 80 112 120), (sub_split 112 116 120) by lia. done.
Qed.

Lemma ReadHeader_inv r h r' :
  ReadHeader r = (Ok h, r') ->
  ValidHeader h /\ Header_typed h /\ transportbatch.Version (descriptor h) = transportbatch.DescriptorVersion /\
  rd_end r' = rd_end r /\
  exists out, encodeHeader h = Ok out /\ rd_data r = out ++ rd_data r'.
Proof.
  intros Hr. unfold ReadHeader, readBytes, fixedHeaderBytes in Hr.
  apply bind_read_Ok in Hr as (f & r1 & Hf & D1 & E1 & Hr); [|lia].
  case_bool_decide as Hmag; cbn [negb] in Hr; [|discriminate].
  apply bind_lift_Ok in Hr as ([] & Hlen & Hr).
  assert (forall lo hi, 0 <= be_get (sub lo hi f)) as Hpos by (intros; apply be_get_range).
  apply bind_read_Ok in Hr as (s1 & r2 & L1 & D2 & E2 & Hr); [|done].
  apply bind_read_Ok in Hr as (s2 & r3 & L2 & D3 & E3 & Hr); [|done].
  apply bind_read_Ok in Hr as (s3 & r4 & L3 & D4 & E4 & Hr); [|done].
  apply bind_read_Ok in Hr as (s4 & r5 & L4 & D5 & E5 & Hr); [|done].
  apply bind_read_Ok in Hr as (s5 & r6 & L5 & D6 & E6 & Hr); [|done].
  apply bind_read_Ok in Hr as (s6 & r7 & L6 & D7 & E7 & Hr); [|done].
  apply bind_lift_Ok in Hr as ([] & Hv%wrap_Ok%Header_Validate_Ok & [= <- <-]).
  split; [exact Hv|].
  split; [by repeat split; try apply be_get_u64; try (by rewrite len_sub; lia)|].
  pose proof Hv as ((_ & (_ & _ & _ & _ & Hd1 & Hd2 & Hd3) & _) & _).
  split; [destruct Hd3 as [(Hd3 & _)|(_ & Hd3 & _)]; [exact Hd3|discriminate]|].
  split; [congruence|].
  eexists. split; [by apply encodeHeader_layout|].
  rewrite D1, D2, D3, D4, D5, D6, D7. rewrite (split_fixedV1 f) at 1 by done.
  unfold fixedV1, tailV1, descriptor; cbn [SignedBatch ManifestBytes transportpackage.Version
    transportpackage.Descriptor transportpackage.Signature
    transportpackage.BatchSigningCertificateDER transportbatch.Version transportbatch.SourceID
    transportbatch.BatchID transportbatch.RecordCount transportbatch.DataBytes
    transportbatch.DataSHA256 transportbatch.ManifestSHA256].
  rewrite Hmag, !hex_bytes_encode, !PutUint64BE_get by (by rewrite len_sub; lia).
  rewrite (fun E => prefix_of_read _ _ E L1), (fun E => prefix_of_read _ _ E L2),
    (fun E => prefix_of_read _ _ E L3), (fun E => prefix_of_read _ _ E L4),
    (fun E => prefix_of_read _ _ E L5), (fun E => prefix_of_read _ _ E L6)
    by (by rewrite len_sub; lia).
  by rewrite <- !app_assoc.
Qed.

(** The 0.1 header has exactly one wire form. Whatever [ReadHeader] accepts is
    a valid header whose encoding by [WriteHeader]'s encoder is, byte for byte,
    what was consumed: no two distinct prefixes parse to the same header, and
    nothing beyond the header is consumed. *)
Theorem ReadHeader_canonical r h r' :
  ReadHeader r = (Ok h, r') ->
  ValidHeader h /\ Header_typed h /\ transportbatch.Version (descriptor h) = transportbatch.DescriptorVersion /\
  rd_end r' = rd_end r /\
  exists out, encodeHeader h = Ok out /\ rd_data r = out ++ rd_data r'.
Proof. apply ReadHeader_inv. Qed.

(** *** Frame 0.2 *)

Definition fixedV2 (h : Header) : bytes :=
  let sb := SignedBatch h in
  let d := descriptor h in
  frameMagicV2 ++
  PutUint32BE (u32 (len (transportpackage.Version sb))) ++
  PutUint32BE (u32 (len (transportbatch.Version d))) ++
  PutUint32BE (u32 (len (transportbatch.SourceID d))) ++
  PutUint32BE (u32 (len (transportbatch.BatchID d))) ++
  PutUint32BE (u32 (len (transportbatch.DataEncoding d))) ++
  PutUint64BE (transportbatch.RecordCount d) ++
  PutUint64BE (transportbatch.DataBytes d) ++
  PutUint64BE (transportbatch.EncodedDataBytes d) ++
  PutUint64BE (ManifestBytes h) ++
  hex_bytes (transportbatch.DataSHA256 d) ++
  hex_bytes (transportbatch.EncodedDataSHA256 d) ++
  hex_bytes (transportbatch.ManifestSHA256 d) ++
  PutUint32BE (u32 (len (transportpackage.Signature sb))) ++
  PutUint32BE (u32 (len (transportpackage.BatchSigningCertificateDER sb))).

Definition tailV2 (h : Header) : bytes :=
  transportpackage.Version (SignedBatch h) ++ transportbatch.Version (descriptor h) ++
  transportbatch.SourceID (descriptor h) ++ transportbatch.BatchID (descriptor h) ++
  transportbatch.DataEncoding (descriptor h) ++
  transportpackage.Signature (SignedBatch h) ++
  transportpackage.BatchSigningCertificateDER (SignedBatch h).

(** What frame 0.2 needs of its descriptor. *)
Definition digestsV2 (h : Header) : Prop :=
  sha256_text (transportbatch.DataSHA256 (descriptor h)) = true /\
  sha256_text (transportbatch.EncodedDataSHA256 (descriptor h)) = true /\
  sha256_text (transportbatch.ManifestSHA256 (descriptor h)) = true.

Lemma encodeHeaderV2_layout h :
  digestsV2 h -> encodeHeaderV2 h = Ok (fixedV2 h ++ tailV2 h).
Proof.
  intros (Hd & He & Hm). pose proof (len_hex_bytes _ Hd). pose proof (len_hex_bytes _ He).
  pose proof (len_hex_bytes _ Hm). unfold encodeHeaderV2, fixedHeaderBytesV2.
  rewrite (transportbatch.hex_decode_bytes _ Hd), (transportbatch.hex_decode_bytes _ He),
    (transportbatch.hex_decode_bytes _ Hm).
  cbn [wrap res_bind]. fill_header. unfold fixedV2, tailV2. by rewrite <- !app_assoc.
Qed.

Lemma validateLengthsV2_Ok a b c d n e f g :
  0 < a <= MaxVersionBytes -> 0 < b <= MaxVersionBytes -> 0 < c <= MaxTextBytes ->
  0 < d <= MaxTextBytes -> 0 < n <= MaxDataEncodingBytes ->
  0 < e <= transportpackage.MaxBatchSignatureBytes ->
  0 < f <= transportpackage.MaxBatchSigningCertificateDERBytes -> 0 < g <= MaxManifestBytes ->
  validateLengthsV2 a b c d n e f g = Ok tt.
Proof.
  intros. unfold validateLengthsV2. rewrite !fail_Ok. split_and!; try done; lia.
Qed.

Lemma len_fixedV2 h : digestsV2 h -> len (fixedV2 h) = 164.
Proof.
  intros (Hd%len_hex_bytes & He%len_hex_bytes & Hm%len_hex_bytes). unfold fixedV2. len_solve.
Qed.

Lemma fixedV2_fields h :
  digestsV2 h ->
  let f := fixedV2 h in
  sub 0 8 f = frameMagicV2 /\
  sub 8 12 f = PutUint32BE (u32 (len (transportpackage.Version (SignedBatch h)))) /\
  sub 12 16 f = PutUint32BE (u32 (len (transportbatch.Version (descriptor h)))) /\
  sub 16 20 f = PutUint32BE (u32 (len (transportbatch.SourceID (descriptor h)))) /\
  sub 20 24 f = PutUint32BE (u32 (len (transportbatch.BatchID (descriptor h)))) /\
  sub 24 28 f = PutUint32BE (u32 (len (transportbatch.DataEncoding (descriptor h)))) /\
  sub 28 36 f = PutUint64BE (transportbatch.RecordCount (descriptor h)) /\
  sub 36 44 f = PutUint64BE (transportbatch.DataBytes (descriptor h)) /\
  sub 44 52 f = PutUint64BE (transportbatch.EncodedDataBytes (descriptor h)) /\
  sub 52 60 f = PutUint64BE (ManifestBytes h) /\
  sub 60 92 f = hex_bytes (transportbatch.DataSHA256 (descriptor h)) /\
  sub 92 124 f = hex_bytes (transportbatch.EncodedDataSHA256 (descriptor h)) /\
  sub 124 156 f = hex_bytes (transportbatch.ManifestSHA256 (descriptor h)) /\
  sub 156 160 f = PutUint32BE (u32 (len (transportpackage.Signature (SignedBatch h)))) /\
  sub 160 164 f =
    PutUint32BE (u32 (len (transportpackage.BatchSigningCertificateDER (SignedBatch h)))).
Proof.
  intros (Hd%len_hex_bytes & He%len_hex_bytes & Hm%len_hex_bytes). cbv zeta. unfold fixedV2.
  split_and!; field.
Qed.

(** A valid 0.2 header: its encoding name and its three digests. *)
Lemma ValidHeader_V2 h :
  ValidHeader h -> transportbatch.Version (descriptor h) = transportbatch.DescriptorVersionV2 ->
  transportbatch.DataEncoding (descriptor h) = transportbatch.DataEncodingZstd /\ digestsV2 h.
Proof.
  intros ((_ & (_ & _ & _ & _ & Hd1 & Hd2 & Hd3) & _) & _) Hver.
  fold (descriptor h) in Hd1, Hd2, Hd3. unfold digestsV2.
  destruct Hd3 as [(He & _)|(_ & He & _ & Hd3)]; [|done].
  rewrite Hver in He. symmetry in He. by destruct transportbatch.versions_differ.
Qed.

Lemma ReadHeaderV2_layout h rest e :
  ValidHeader h -> is_u64 (ManifestBytes h) -> transportbatch.Descriptor_typed (descriptor h) ->
  transportbatch.Version (descriptor h) = transportbatch.DescriptorVersionV2 ->
  ReadHeaderV2 (Reader (fixedV2 h ++ tailV2 h ++ rest) e) = (Ok h, Reader rest e).
Proof.
  intros Hv Hm (Hr & Hdb & Heb) Hver.
  pose proof (ValidHeader_sizes h Hv ltac:(unfold is_u64 in Hm; lia)) as Hsz. cbv zeta in Hsz.
  destruct Hsz as (Hv1 & Hv2 & Hsrc & Hbat & Hsig & Hder & Hman).
  destruct (ValidHeader_V2 h Hv Hver) as [Henc Hdig].
  assert (len (transportbatch.DataEncoding (descriptor h)) = 4) as Hel by (by rewrite Henc).
  unfold ReadHeaderV2, fixedHeaderBytesV2.
  rewrite bind_read by (by apply len_fixedV2).
  destruct (fixedV2_fields h Hdig) as
    (-> & -> & -> & -> & -> & -> & -> & -> & -> & -> & -> & -> & -> & -> & ->).
  destruct Hdig as (Hd1 & Hd2 & Hd3).
  rewrite bool_decide_eq_true_2 by done. cbn [negb].
  unfold MaxTextBytes, transportpackage.MaxBatchSignatureBytes,
    transportpackage.MaxBatchSigningCertificateDERBytes, MaxManifestBytes in *.
  rewrite !u32_small by (unfold is_u32; lia).
  rewrite !be_get_PutUint32 by (unfold is_u32; lia). rewrite !be_get_PutUint64 by done.
  rewrite (bind_lift _ _ tt) by (apply validateLengthsV2_Ok; unfold MaxVersionBytes, MaxTextBytes,
    MaxDataEncodingBytes, transportpackage.MaxBatchSignatureBytes,
    transportpackage.MaxBatchSigningCertificateDERBytes, MaxManifestBytes; lia).
  unfold readBytes, tailV2. rewrite <- !app_assoc. do 2 rewrite bind_read by done.
  rewrite Hver, bool_decide_eq_true_2 by done. cbn [negb]. rewrite !bind_read by done.
  rewrite !hex_encode_bytes by done. rewrite <- Hver.
  match goal with |- context [Validate ?v] => replace v with h end.
  2: { by destruct h as [[? [] ? ?] ?]. }
  by rewrite (bind_lift _ _ tt) by (by apply wrap_Ok, Header_Validate_Ok).
Qed.

(** The 0.2 frame reads back: whatever a 0.2 writer accepted is parsed into the
    same package, encoded size and digest included, up to the first manifest byte. *)
Theorem WriteHeaderV2_ReadHeaderV2 {W} `{WriterLaws W} sb manifest (w w' : W) rest e :
  transportbatch.Descriptor_typed (transportpackage.Descriptor sb) ->
  WriteHeaderV2 sb manifest w = (Ok tt, w') ->
  exists out, written w' = written w ++ out /\
    ReadHeaderV2 (Reader (out ++ rest) e) =
      (Ok {| SignedBatch := sb; ManifestBytes := len manifest |}, Reader rest e).
Proof.
  intros Ht Hw. unfold WriteHeaderV2 in Hw. case_bool_decide as Hver; [|discriminate].
  cbn [negb] in Hw. apply bind_lift_Ok in Hw as (h & Hh%wrap_Ok & Hw).
  apply bind_lift_Ok in Hw as (out & Hout & Hw).
  unfold headerFromManifest in Hh. rewrite check_Ok, !fail_Ok, check_Ok in Hh.
  destruct Hh as (_ & _ & Hmax & _ & Hv%Header_Validate_Ok & [= <-]).
  pose proof (ValidHeader_V2 _ Hv Hver) as [_ Hdig].
  rewrite encodeHeaderV2_layout in Hout by done. injection Hout as <-.
  exists (fixedV2 {| SignedBatch := sb; ManifestBytes := len manifest |} ++
          tailV2 {| SignedBatch := sb; ManifestBytes := len manifest |}).
  split; [eapply emits_Ok; [|exact Hw]; apply emits_wrap, CopyBuffer_emits|].
  rewrite <- app_assoc. apply ReadHeaderV2_layout; try done.
  pose proof (len_nonneg manifest). unfold is_u64, MaxManifestBytes in *. simpl. lia.
Qed.

Lemma split_fixedV2 f : len f = 164 ->
  f = sub 0 8 f ++ sub 8 12 f ++ sub 12 16 f ++ sub 16 20 f ++ sub 20 24 f ++ sub 24 28 f ++
      sub 28 36 f ++ sub 36 44 f ++ sub 44 52 f ++ sub 52 60 f ++ sub 60 92 f ++
      sub 92 124 f ++ sub 124 156 f ++ sub 156 160 f ++ sub 160 164 f.
Proof.
  intros Hf. rewrite <- (sub_whole 164 f) at 1 by done.
  rewrite (sub_split 0 8 164), (sub_split 8 12 164), (sub_split 12 16 164), (sub_split 16 20 164),
    (sub_split 20 24 164), (sub_split 24 28 164), (sub_split 28 36 164), (sub_split 36 44 164),
    (sub_split 44 52 164), (sub_split 52 60 164), (sub_split 60 92 164), (sub_split 92 124 164),
    (sub_split 124 156 164), (sub_split 156 160 164) by lia. done.
Qed.

Lemma ReadHeaderV2_inv r h r' :
  ReadHeaderV2 r = (Ok h, r') ->
  ValidHeader h /\ Header_typed h /\ transportbatch.Version (descriptor h) = transportbatch.DescriptorVersionV2 /\
  rd_end r' = rd_end r /\
  exists out, encodeHeaderV2 h = Ok out /\ rd_data r = out ++ rd_data r'.
Proof.
  intros Hr. unfold ReadHeaderV2, readBytes, fixedHeaderBytesV2 in Hr.
  apply bind_read_Ok in Hr as (f & r1 & Hf & D1 & E1 & Hr); [|lia].
  case_bool_decide as Hmag; cbn [negb] in Hr; [|discriminate].
  apply bind_lift_Ok in Hr as ([] & Hlen & Hr).
  assert (forall lo hi, 0 <= be_get (sub lo hi f)) as Hpos by (intros; apply be_get_range).
  apply bind_read_Ok in Hr as (s1 & r2 & L1 & D2 & E2 & Hr); [|done].
  apply bind_read_Ok in Hr as (s2 & r3 & L2 & D3 & E3 & Hr); [|done].
  case_bool_decide as Hver; cbn [negb] in Hr; [|discriminate].
  apply bind_read_Ok in Hr as (s3 & r4 & L3 & D4 & E4 & Hr); [|done].
  apply bind_read_Ok in Hr as (s4 & r5 & L4 & D5 & E5 & Hr); [|done].
  apply bind_read_Ok in Hr as (s7 & r8 & L7 & D8 & E8 & Hr); [|done].
  apply bind_read_Ok in Hr as (s5 & r6 & L5 & D6 & E6 & Hr); [|done].
  apply bind_read_Ok in Hr as (s6 & r7 & L6 & D7 & E7 & Hr); [|done].
  apply bind_lift_Ok in Hr as ([] & Hv%wrap_Ok%Header_Validate_Ok & [= <- <-]).
  split; [exact Hv|].
  split; [by repeat split; try apply be_get_u64; try (by rewrite len_sub; lia)|].
  split; [exact Hver|]. split; [congruence|].
  eexists. split; [apply encodeHeaderV2_layout; by apply ValidHeader_V2|].
  rewrite D1, D2, D3, D4, D5, D8, D6, D7. rewrite (split_fixedV2 f) at 1 by done.
  unfold fixedV2, tailV2, descriptor; cbn [SignedBatch ManifestBytes transportpackage.Version
    transportpackage.Descriptor transportpackage.Signature
    transportpackage.BatchSigningCertificateDER transportbatch.Version transportbatch.SourceID
    transportbatch.BatchID transportbatch.RecordCount transportbatch.DataBytes
    transportbatch.DataSHA256 transportbatch.DataEncoding transportbatch.EncodedDataBytes
    transportbatch.EncodedDataSHA256 transportbatch.ManifestSHA256].
  rewrite Hmag, !hex_bytes_encode, !PutUint64BE_get by (by rewrite len_sub; lia).
  rewrite (fun E => prefix_of_read _ _ E L1), (fun E => prefix_of_read _ _ E L2),
    (fun E => prefix_of_read _ _ E L3), (fun E => prefix_of_read _ _ E L4),
    (fun E => prefix_of_read _ _ E L5), (fun E => prefix_of_read _ _ E L6),
    (fun E => prefix_of_read _ _ E L7) by (by rewrite len_sub; lia).
  by rewrite <- !app_assoc.
Qed.

(** The 0.2 header has exactly one wire form: what [ReadHeaderV2] consumed is
    the encoding of the header it returned. *)
Theorem ReadHeaderV2_canonical r h r' :
  ReadHeaderV2 r = (Ok h, r') ->
  ValidHeader h /\ Header_typed h /\ transportbatch.Version (descriptor h) = transportbatch.DescriptorVersionV2 /\
  rd_end r' = rd_end r /\
  exists out, encodeHeaderV2 h = Ok out /\ rd_data r = out ++ rd_data r'.
Proof. apply ReadHeaderV2_inv. Qed.

End Wire.
(** ** Concrete frames *)

Definition demoManifest : bytes := bs "{records:3}".

Definition demoDescriptorV1 : transportbatch.Descriptor := {|
  transportbatch.Version := transportbatch.DescriptorVersion;
  transportbatch.SourceID := bs "FS-01"; transportbatch.BatchID := bs "b1";
  transportbatch.RecordCount := 3; transportbatch.DataBytes := 4;
  transportbatch.DataSHA256 := sha256_hex (bs "abc!");
  transportbatch.DataEncoding := []; transportbatch.EncodedDataBytes := 0;
  transportbatch.EncodedDataSHA256 := [];
  transportbatch.ManifestSHA256 := sha256_hex demoManifest |}.

Definition demoDescriptorV2 : transportbatch.Descriptor := {|
  transportbatch.Version := transportbatch.DescriptorVersionV2;
  transportbatch.SourceID := bs "FS-01"; transportbatch.BatchID := bs "b1";
  transportbatch.RecordCount := 3; transportbatch.DataBytes := 4;
  transportbatch.DataSHA256 := sha256_hex (bs "abc!");
  transportbatch.DataEncoding := transportbatch.DataEncodingZstd;
  transportbatch.EncodedDataBytes := 2;
  transportbatch.EncodedDataSHA256 := sha256_hex (bs "z!");
  transportbatch.ManifestSHA256 := sha256_hex demoManifest |}.

Definition demoPackage (d : transportbatch.Descriptor) : transportpackage.SignedBatch := {|
  transportpackage.Version := transportpackage.SignedBatchVersion;
  transportpackage.Descriptor := d;
  transportpackage.Signature := sha256 (transportbatch.layout d);
  transportpackage.BatchSigningCertificateDER := bs "FS-01" |}.

Definition demoFrameV1 : bytes :=
  Eval vm_compute in
  (@WriteHeader asciiUnicode transporttrust.demoX509 bytes _ (demoPackage demoDescriptorV1)
     demoManifest []).2.

Definition demoFrameV2 : bytes :=
  Eval vm_compute in
  (@WriteHeaderV2 asciiUnicode transporttrust.demoX509 bytes _ (demoPackage demoDescriptorV2)
     demoManifest []).2.

(** [WriteHeader] frames a 0.2 descriptor as a FIWB0001 header, without its encoding
    fields; no reader accepts that frame. *)
Lemma WriteHeader_V2_unreadable :
  let '(written, out) := @WriteHeader asciiUnicode transporttrust.demoX509 bytes _ (demoPackage demoDescriptorV2) demoManifest [] in
    written = Ok tt /\
    is_ok (@ReadHeader asciiUnicode transporttrust.demoX509 (Reader (out ++ demoManifest) EOF)).1 = false /\
    is_ok (@ReadHeaderV2 asciiUnicode transporttrust.demoX509 (Reader (out ++ demoManifest) EOF)).1 = false.
Proof. vm_compute. split_and!; reflexivity. Qed.

Lemma WriteHeader_ReadHeader_witness :
  exists out, written (W := bytes) demoFrameV1 = written (W := bytes) [] ++ out /\
    @ReadHeader asciiUnicode transporttrust.demoX509 (Reader (out ++ demoManifest) EOF) =
      (Ok {| SignedBatch := demoPackage demoDescriptorV1; ManifestBytes := len demoManifest |},
       Reader demoManifest EOF).
Proof.
  apply (@WriteHeader_ReadHeader asciiUnicode transporttrust.demoX509 bytes _ _
           (demoPackage demoDescriptorV1) demoManifest [] demoFrameV1 demoManifest EOF).
  - vm_compute. repeat split; congruence.
  - reflexivity.
  - vm_compute. reflexivity.
Defined.

Lemma ReadHeader_canonical_witness :
  @encodeHeader {| SignedBatch := demoPackage demoDescriptorV1; ManifestBytes := 11 |} =
    Ok demoFrameV1 /\
  @ValidHeader asciiUnicode transporttrust.demoX509
    {| SignedBatch := demoPackage demoDescriptorV1; ManifestBytes := 11 |}.
Proof.
  split; [vm_compute; reflexivity|].
  eapply (@ReadHeader_canonical asciiUnicode transporttrust.demoX509
            (Reader (demoFrameV1 ++ demoManifest) EOF) _ (Reader demoManifest EOF)).
  vm_compute. reflexivity.
Defined.

Lemma WriteHeaderV2_ReadHeaderV2_witness :
  exists out, written (W := bytes) demoFrameV2 = written (W := bytes) [] ++ out /\
    @ReadHeaderV2 asciiUnicode transporttrust.demoX509 (Reader (out ++ demoManifest) EOF) =
      (Ok {| SignedBatch := demoPackage demoDescriptorV2; ManifestBytes := len demoManifest |},
       Reader demoManifest EOF).
Proof.
  apply (@WriteHeaderV2_ReadHeaderV2 asciiUnicode transporttrust.demoX509 bytes _ _
           (demoPackage demoDescriptorV2) demoManifest [] demoFrameV2 demoManifest EOF).
  - vm_compute. repeat split; congruence.
  - vm_compute. reflexivity.
Defined.

Lemma ReadHeaderV2_canonical_witness :
  @encodeHeaderV2 {| SignedBatch := demoPackage demoDescriptorV2; ManifestBytes := 11 |} =
    Ok demoFrameV2 /\
  @ValidHeader asciiUnicode transporttrust.demoX509
    {| SignedBatch := demoPackage demoDescriptorV2; ManifestBytes := 11 |}.
Proof.
  split; [vm_compute; reflexivity|].
  eapply (@ReadHeaderV2_canonical asciiUnicode transporttrust.demoX509
            (Reader (demoFrameV2 ++ demoManifest) EOF) _ (Reader demoManifest EOF)).
  vm_compute. reflexivity.
Defined.

End transportwire.
