(* ===== verification/TransportAck.v ===== *)
(** * The durable acknowledgement

    Models [go/internal/transportack/ack.go] (the FIACK001 record a receiver
    returns after custody became durable) and [go/internal/transportsender/ack.go]
    (what a source checks before it may retire its copy). *)

From S2P Require Import Prelude GoBytes GoStrings GoIO Sha256 TransportBatch.

Module transportack.

Definition fixedAcknowledgementBytes : Z := 136.
Definition wireMagic : bytes := bs "FIACK001".
Definition AcknowledgementVersion : bytes := bs "fi-transport-ack/0.1".
Definition MaxOutcomeBytes : Z := 32.
Definition MaxTextBytes : Z := 4 * 1024.
Definition MaxVersionBytes : Z := 64.

(** [type Outcome string]. *)
Definition OutcomeDurableDuplicate : bytes := bs "DURABLE_DUPLICATE".
Definition OutcomeDurableNew : bytes := bs "DURABLE_NEW".

Record Acknowledgement := {
  Version : bytes;
  Outcome : bytes;
  SourceID : bytes;
  BatchID : bytes;
  DataBytes : Z;
  DataSHA256 : bytes;
  ManifestSHA256 : bytes;
  FrameBytes : Z;
  FrameSHA256 : bytes
}.

#[global] Instance Acknowledgement_eq_decision : EqDecision Acknowledgement.
Proof. solve_decision. Defined.

Definition Acknowledgement_typed (a : Acknowledgement) : Prop :=
  is_u64 (DataBytes a) /\ is_u64 (FrameBytes a).

Section Ack.
Context `{Unicode}.

Definition validateSHA256 (value : bytes) (name : string) : res unit :=
  fail? negb (len value =? 64)
    with Errorf "acknowledgement %s must contain 64 hexadecimal characters" ;;
  fail? negb (bool_decide (value = ToLower value))
    with Errorf "acknowledgement %s must use lowercase hexadecimal" ;;
  let? decoded := wrap "acknowledgement %s is invalid hexadecimal: %w" (hex_decode value) in
  fail? negb (len decoded =? 32) with Errorf "acknowledgement %s must decode to 32 bytes" ;;
  Ok tt.

Definition decodeSHA256 (value : bytes) (name : string) : res bytes :=
  let? decoded := wrap "decode acknowledgement %s: %w" (hex_decode value) in
  fail? negb (len decoded =? 32) with Errorf "acknowledgement %s must decode to 32 bytes" ;;
  Ok decoded.

Definition Validate (value : Acknowledgement) : res unit :=
  fail? negb (bool_decide (Version value = AcknowledgementVersion))
    with Errorf "acknowledgement version must be %q, got %q" ;;
  fail? negb (bool_decide (Outcome value = OutcomeDurableDuplicate) ||
              bool_decide (Outcome value = OutcomeDurableNew))
    with Errorf "unsupported durable acknowledgement outcome %q" ;;
  fail? bool_decide (SourceID value = []) with Errorf "acknowledgement source ID is required" ;;
  fail? MaxTextBytes <? len (SourceID value)
    with Errorf "acknowledgement source ID exceeds %d bytes" ;;
  fail? bool_decide (BatchID value = []) with Errorf "acknowledgement batch ID is required" ;;
  fail? MaxTextBytes <? len (BatchID value)
    with Errorf "acknowledgement batch ID exceeds %d bytes" ;;
  fail? DataBytes value =? 0
    with Errorf "acknowledgement data byte count must be greater than zero" ;;
  fail? FrameBytes value =? 0
    with Errorf "acknowledgement frame byte count must be greater than zero" ;;
  check? validateSHA256 (DataSHA256 value) "data SHA-256" ;;
  check? validateSHA256 (ManifestSHA256 value) "manifest SHA-256" ;;
  check? validateSHA256 (FrameSHA256 value) "frame SHA-256" ;;
  Ok tt.

Definition NewDurableAcknowledgement (outcome sourceID batchID : bytes) (dataBytes : Z)
    (dataSHA256 manifestSHA256 : bytes) (frameBytes : Z) (frameSHA256 : bytes)
  : res Acknowledgement :=
  let value := {|
    Version := AcknowledgementVersion;
    Outcome := outcome;
    SourceID := sourceID;
    BatchID := batchID;
    DataBytes := dataBytes;
    DataSHA256 := dataSHA256;
    ManifestSHA256 := manifestSHA256;
    FrameBytes := frameBytes;
    FrameSHA256 := frameSHA256 |} in
  check? Validate value ;;
  Ok value.

Definition validateLengths (versionBytes outcomeBytes sourceIDBytes batchIDBytes : Z) : res unit :=
  fail? (versionBytes =? 0) || (MaxVersionBytes <? versionBytes)
    with Errorf "acknowledgement version length is invalid: %d" ;;
  fail? (outcomeBytes =? 0) || (MaxOutcomeBytes <? outcomeBytes)
    with Errorf "acknowledgement outcome length is invalid: %d" ;;
  fail? (sourceIDBytes =? 0) || (MaxTextBytes <? sourceIDBytes)
    with Errorf "acknowledgement source ID length is invalid: %d" ;;
  fail? (batchIDBytes =? 0) || (MaxTextBytes <? batchIDBytes)
    with Errorf "acknowledgement batch ID length is invalid: %d" ;;
  Ok tt.

Definition readString (length : Z) (name : string) : prog reader bytes :=
  wrap_err "read acknowledgement %s: %w" (ReadFull length).

Definition ReadAcknowledgement : prog reader Acknowledgement :=
  let! fixed := wrap_err "read FI acknowledgement fixed header: %w"
                  (ReadFull fixedAcknowledgementBytes) in
  fail! negb (bool_decide (sub 0 8 fixed = wireMagic))
    with Errorf "FI acknowledgement wire magic is invalid" ;;
  let versionBytes := be_get (sub 8 12 fixed) in
  let outcomeBytes := be_get (sub 12 16 fixed) in
  let sourceIDBytes := be_get (sub 16 20 fixed) in
  let batchIDBytes := be_get (sub 20 24 fixed) in
  let dataBytes := be_get (sub 24 32 fixed) in
  let frameBytes := be_get (sub 32 40 fixed) in
  check! lift (validateLengths versionBytes outcomeBytes sourceIDBytes batchIDBytes) ;;
  let! version := readString versionBytes "acknowledgement version" in
  let! outcome := readString outcomeBytes "acknowledgement outcome" in
  let! sourceID := readString sourceIDBytes "source ID" in
  let! batchID := readString batchIDBytes "batch ID" in
  let value := {|
    Version := version;
    Outcome := outcome;
    SourceID := sourceID;
    BatchID := batchID;
    DataBytes := dataBytes;
    DataSHA256 := hex_encode (sub 40 72 fixed);
    ManifestSHA256 := hex_encode (sub 72 104 fixed);
    FrameBytes := frameBytes;
    FrameSHA256 := hex_encode (sub 104 136 fixed) |} in
  check! lift (wrap "validate FI acknowledgement: %w" (Validate value)) ;;
  ret value.

(** The [parts] of [WriteAcknowledgement]. *)
Definition acknowledgementParts (value : Acknowledgement) : res (list bytes) :=
  let? dataDigest := decodeSHA256 (DataSHA256 value) "data SHA-256" in
  let? manifestDigest := decodeSHA256 (ManifestSHA256 value) "manifest SHA-256" in
  let? frameDigest := decodeSHA256 (FrameSHA256 value) "frame SHA-256" in
  let fixed := zeros fixedAcknowledgementBytes in
  let fixed := put 0 8 wireMagic fixed in
  let fixed := put 8 12 (PutUint32BE (u32 (len (Version value)))) fixed in
  let fixed := put 12 16 (PutUint32BE (u32 (len (Outcome value)))) fixed in
  let fixed := put 16 20 (PutUint32BE (u32 (len (SourceID value)))) fixed in
  let fixed := put 20 24 (PutUint32BE (u32 (len (BatchID value)))) fixed in
  let fixed := put 24 32 (PutUint64BE (DataBytes value)) fixed in
  let fixed := put 32 40 (PutUint64BE (FrameBytes value)) fixed in
  let fixed := put 40 72 dataDigest fixed in
  let fixed := put 72 104 manifestDigest fixed in
  let fixed := put 104 136 frameDigest fixed in
  Ok [fixed; Version value; Outcome value; SourceID value; BatchID value].

(** [for _, part := range parts { writeFull(writer, part) }]. *)
Fixpoint writeParts {W} `{Writer W} (parts : list bytes) : prog W unit :=
  match parts with
  | [] => ret tt
  | part :: rest =>
      check! wrap_err "write FI acknowledgement: %w" (writeAll part) ;;
      writeParts rest
  end.

Definition WriteAcknowledgement {W} `{Writer W} (value : Acknowledgement) : prog W unit :=
  check! lift (wrap "validate FI acknowledgement: %w" (Validate value)) ;;
  let! parts := lift (acknowledgementParts value) in
  writeParts parts.

(** ** The contract *)

Definition ValidAck (a : Acknowledgement) : Prop :=
  Version a = AcknowledgementVersion /\
  (Outcome a = OutcomeDurableDuplicate \/ Outcome a = OutcomeDurableNew) /\
  0 < len (SourceID a) <= MaxTextBytes /\ 0 < len (BatchID a) <= MaxTextBytes /\
  DataBytes a <> 0 /\ FrameBytes a <> 0 /\
  sha256_text (DataSHA256 a) = true /\ sha256_text (ManifestSHA256 a) = true /\
  sha256_text (FrameSHA256 a) = true.

Lemma Ack_validateSHA256_Ok value name : validateSHA256 value name = Ok tt <-> sha256_text value = true.
Proof.
  unfold validateSHA256. rewrite !fail_Ok, negb_decide_false. split.
  - intros (Hl & Ht & Hd). res_inv Hd. unfold sha256_text.
    rewrite (ToLower_decode _ v) by done. lia.
  - intros Hs. pose proof Hs as (d & Hd & Hl & _)%sha256_text_decode.
    unfold sha256_text in Hs. apply andb_prop in Hs as [Hs Hf].
    rewrite ToLower_hex, Hd by done. split_and!; [lia|done|]. simpl. by rewrite Hl.
Qed.

Lemma nonempty_len (s : bytes) : s <> [] <-> 0 < len s.
Proof.
  destruct s as [|b s]; [by split|]. rewrite len_cons. pose proof (len_nonneg s).
  split; [lia|done].
Qed.

Lemma Ack_Validate_Ok a : Validate a = Ok tt <-> ValidAck a.
Proof.
  unfold Validate, ValidAck. res_iff. rewrite !Ack_validateSHA256_Ok, orb_true_iff.
  rewrite !bool_decide_eq_true, !nonempty_len. intuition lia.
Qed.

Definition fixedAck (a : Acknowledgement) : bytes :=
  wireMagic ++ PutUint32BE (u32 (len (Version a))) ++ PutUint32BE (u32 (len (Outcome a))) ++
  PutUint32BE (u32 (len (SourceID a))) ++ PutUint32BE (u32 (len (BatchID a))) ++
  PutUint64BE (DataBytes a) ++ PutUint64BE (FrameBytes a) ++ hex_bytes (DataSHA256 a) ++
  hex_bytes (ManifestSHA256 a) ++ hex_bytes (FrameSHA256 a).

Definition tailAck (a : Acknowledgement) : bytes :=
  Version a ++ Outcome a ++ SourceID a ++ BatchID a.

Lemma len_wireMagic : len wireMagic = 8. Proof. reflexivity. Qed.
#[local] Hint Rewrite len_wireMagic : lens.

Lemma decodeSHA256_Ok s name : sha256_text s = true -> decodeSHA256 s name = Ok (hex_bytes s).
Proof.
  intros Hs. unfold decodeSHA256. rewrite (transportbatch.hex_decode_bytes _ Hs).
  simpl. by rewrite len_hex_bytes.
Qed.

Lemma acknowledgementParts_layout a :
  ValidAck a ->
  acknowledgementParts a = Ok [fixedAck a; Version a; Outcome a; SourceID a; BatchID a].
Proof.
  intros (_ & _ & _ & _ & _ & _ & H1 & H2 & H3).
  pose proof (len_hex_bytes _ H1). pose proof (len_hex_bytes _ H2).
  pose proof (len_hex_bytes _ H3).
  unfold acknowledgementParts, fixedAcknowledgementBytes. rewrite !decodeSHA256_Ok by done.
  cbn [res_bind]. fill_header. unfold fixedAck. reflexivity.
Qed.

Lemma fixedAck_fields a :
  ValidAck a ->
  let f := fixedAck a in
  len f = 136 /\ sub 0 8 f = wireMagic /\
  sub 8 12 f = PutUint32BE (u32 (len (Version a))) /\
  sub 12 16 f = PutUint32BE (u32 (len (Outcome a))) /\
  sub 16 20 f = PutUint32BE (u32 (len (SourceID a))) /\
  sub 20 24 f = PutUint32BE (u32 (len (BatchID a))) /\
  sub 24 32 f = PutUint64BE (DataBytes a) /\ sub 32 40 f = PutUint64BE (FrameBytes a) /\
  sub 40 72 f = hex_bytes (DataSHA256 a) /\ sub 72 104 f = hex_bytes (ManifestSHA256 a) /\
  sub 104 136 f = hex_bytes (FrameSHA256 a).
Proof.
  intros (_ & _ & _ & _ & _ & _ & H1%len_hex_bytes & H2%len_hex_bytes & H3%len_hex_bytes).
  cbv zeta. unfold fixedAck. split; [len_solve|]. split_and!; field.
Qed.

Lemma ValidAck_sizes a :
  ValidAck a -> len (Version a) = 20 /\ 0 < len (Outcome a) <= 17.
Proof. intros (-> & Ho & _). split; [done|]. by destruct Ho as [-> | ->]. Qed.

Lemma ReadAcknowledgement_layout a rest e :
  ValidAck a -> Acknowledgement_typed a ->
  ReadAcknowledgement (Reader (fixedAck a ++ tailAck a ++ rest) e) = (Ok a, Reader rest e).
Proof.
  intros Hv (Hd & Hf). pose proof (ValidAck_sizes a Hv) as [Hl1 Hl2].
  pose proof Hv as (_ & _ & Hs & Hb & _ & _ & H1 & H2 & H3).
  unfold ReadAcknowledgement, fixedAcknowledgementBytes.
  destruct (fixedAck_fields a Hv) as (Hl & Hfields). rewrite bind_read by done.
  destruct Hfields as (-> & -> & -> & -> & -> & -> & -> & -> & -> & ->).
  rewrite bool_decide_eq_true_2 by done. cbn [negb]. unfold MaxTextBytes in *.
  rewrite !u32_small by (unfold is_u32; lia).
  rewrite !be_get_PutUint32 by (unfold is_u32; lia). rewrite !be_get_PutUint64 by done.
  rewrite (bind_lift _ _ tt).
  2: { unfold validateLengths, MaxVersionBytes, MaxOutcomeBytes, MaxTextBytes.
       rewrite !fail_Ok. split_and!; try done; lia. }
  unfold readString, tailAck. rewrite <- !app_assoc, !bind_read by done.
  rewrite !hex_encode_bytes by done.
  match goal with |- context [Validate ?v] => replace v with a by (by destruct a) end.
  by rewrite (bind_lift _ _ tt) by (by apply wrap_Ok, Ack_Validate_Ok).
Qed.

Lemma writeParts_emits {W} `{WriterLaws W} parts :
  emits (writeParts parts) (concat parts).
Proof.
  induction parts as [|p parts IH]; simpl.
  - intros w. exists []. simpl. rewrite app_nil_r. split_and!; [done|by eexists|done|done].
  - apply emits_seq; [apply emits_wrap, writeAll_emits|exact IH].
Qed.

Lemma Validate_no_panic a : no_panic (Validate a).
Proof. unfold Validate, validateSHA256. no_panic. Qed.

Lemma WriteAcknowledgement_emits {W} `{WriterLaws W} a :
  emits (WriteAcknowledgement a) (fixedAck a ++ tailAck a).
Proof.
  apply emits_lift; [apply no_panic_wrap, Validate_no_panic|].
  intros [] Hv%wrap_Ok%Ack_Validate_Ok. rewrite (acknowledgementParts_layout a Hv).
  apply emits_lift; [done|]. intros _ [= <-].
  pose proof (writeParts_emits [fixedAck a; Version a; Outcome a; SourceID a; BatchID a]) as Hw.
  cbn [concat] in Hw. by rewrite app_nil_r in Hw.
Qed.

(** An acknowledgement survives the wire: when [WriteAcknowledgement] succeeds on
    any writer, short writes included, the receiver of those bytes reads back the
    same acknowledgement and is left at the byte after it. *)
Theorem WriteAcknowledgement_ReadAcknowledgement {W} `{WriterLaws W} a (w w' : W) rest e :
  Acknowledgement_typed a ->
  WriteAcknowledgement a w = (Ok tt, w') ->
  exists out, written w' = written w ++ out /\
    ReadAcknowledgement (Reader (out ++ rest) e) = (Ok a, Reader rest e).
Proof.
  intros Ht Hw. exists (fixedAck a ++ tailAck a).
  split; [eapply emits_Ok; [apply WriteAcknowledgement_emits|exact Hw]|].
  unfold WriteAcknowledgement in Hw. apply bind_lift_Ok in Hw as ([] & Hv%wrap_Ok%Ack_Validate_Ok & _).
  rewrite <- app_assoc. by apply ReadAcknowledgement_layout.
Qed.

(** What a successful read establishes. *)
Lemma ReadAcknowledgement_Ok r a r' :
  ReadAcknowledgement r = (Ok a, r') -> ValidAck a /\ Acknowledgement_typed a.
Proof.
  intros Hr. unfold ReadAcknowledgement, readString, fixedAcknowledgementBytes in Hr.
  apply bind_read_Ok in Hr as (f & r1 & Hf & D1 & E1 & Hr); [|lia].
  cbv zeta in Hr. res_inv Hr.
  match goal with Hv : Validate _ = Ok ?u |- _ => destruct u; apply Ack_Validate_Ok in Hv end.
  split; [done|].
  split; apply be_get_u64; by rewrite len_sub; lia.
Qed.

End Ack.
End transportack.

(** ** The source side: [transportsender/ack.go] *)
Module transportsender.

Record SentFrame := {
  Descriptor : transportbatch.Descriptor;
  FrameBytes : Z;
  FrameSHA256 : bytes
}.

(** The private field keeps other packages from forging a value. *)
Record RetirementAuthorization := { acknowledgement : transportack.Acknowledgement }.

Section Sender.
Context `{Unicode}.

Definition validateFrameSHA256 (value : bytes) : res unit :=
  fail? negb (len value =? 64)
    with Errorf "sent FI frame SHA-256 must contain 64 lowercase hexadecimal characters" ;;
  fail? negb (bool_decide (value = ToLower value))
    with Errorf "sent FI frame SHA-256 must use lowercase hexadecimal" ;;
  let? decoded := wrap "sent FI frame SHA-256 is invalid hexadecimal: %w" (hex_decode value) in
  fail? negb (len decoded =? 32) with Errorf "sent FI frame SHA-256 must decode to 32 bytes" ;;
  Ok tt.

Definition SentFrame_Validate (value : SentFrame) : res unit :=
  check? wrap "validate transport descriptor: %w" (transportbatch.Validate (Descriptor value)) ;;
  fail? FrameBytes value =? 0
    with Errorf "sent FI frame byte count must be greater than zero" ;;
  check? validateFrameSHA256 (FrameSHA256 value) ;;
  Ok tt.

Definition acknowledgementMatchesSentFrame (acknowledgement : transportack.Acknowledgement)
    (sent : SentFrame) : res unit :=
  let descriptor := Descriptor sent in
  fail? negb (bool_decide (transportack.SourceID acknowledgement =
                           transportbatch.SourceID descriptor))
    with Errorf "acknowledgement source ID %q does not match sent source ID %q" ;;
  fail? negb (bool_decide (transportack.BatchID acknowledgement =
                           transportbatch.BatchID descriptor))
    with Errorf "acknowledgement batch ID %q does not match sent batch ID %q" ;;
  fail? negb (transportack.DataBytes acknowledgement =? transportbatch.DataBytes descriptor)
    with Errorf "acknowledgement data byte count %d does not match sent data byte count %d" ;;
  fail? negb (bool_decide (transportack.DataSHA256 acknowledgement =
                           transportbatch.DataSHA256 descriptor))
    with Errorf "acknowledgement data SHA-256 does not match sent descriptor" ;;
  fail? negb (bool_decide (transportack.ManifestSHA256 acknowledgement =
                           transportbatch.ManifestSHA256 descriptor))
    with Errorf "acknowledgement manifest SHA-256 does not match sent descriptor" ;;
  fail? negb (transportack.FrameBytes acknowledgement =? FrameBytes sent)
    with Errorf "acknowledgement frame byte count %d does not match sent frame byte count %d" ;;
  fail? negb (bool_decide (transportack.FrameSHA256 acknowledgement = FrameSHA256 sent))
    with Errorf "acknowledgement frame SHA-256 does not match exact sent frame" ;;
  Ok tt.

Definition RetirementAuthorization_validate (value : RetirementAuthorization) : res unit :=
  check? wrap "retirement authorization acknowledgement is invalid: %w"
           (transportack.Validate (acknowledgement value)) ;;
  Ok tt.

Definition RetirementAuthorization_Acknowledgement (value : RetirementAuthorization)
  : res transportack.Acknowledgement :=
  check? RetirementAuthorization_validate value ;;
  Ok (acknowledgement value).

Definition VerifyDurableAcknowledgement (sent : SentFrame) : prog reader RetirementAuthorization :=
  check! lift (wrap "validate sent FI frame: %w" (SentFrame_Validate sent)) ;;
  let! ack := wrap_err "read FI durable acknowledgement: %w" transportack.ReadAcknowledgement in
  check! lift (acknowledgementMatchesSentFrame ack sent) ;;
  ret {| acknowledgement := ack |}.

Lemma validateFrameSHA256_Ok value :
  validateFrameSHA256 value = Ok tt <-> sha256_text value = true.
Proof.
  rewrite <- (transportack.Ack_validateSHA256_Ok value "frame SHA-256").
  unfold validateFrameSHA256, transportack.validateSHA256.
  destruct (len value =? 64); [|done]. destruct (bool_decide _); [|done]. simpl.
  destruct (hex_decode value); simpl; [|done..]. by destruct (len a =? 32).
Qed.

(** The acknowledgement a receiver owes for a frame it holds durably. *)
Definition ack_for (outcome : bytes) (sent : SentFrame) : transportack.Acknowledgement := {|
  transportack.Version := transportack.AcknowledgementVersion;
  transportack.Outcome := outcome;
  transportack.SourceID := transportbatch.SourceID (Descriptor sent);
  transportack.BatchID := transportbatch.BatchID (Descriptor sent);
  transportack.DataBytes := transportbatch.DataBytes (Descriptor sent);
  transportack.DataSHA256 := transportbatch.DataSHA256 (Descriptor sent);
  transportack.ManifestSHA256 := transportbatch.ManifestSHA256 (Descriptor sent);
  transportack.FrameBytes := FrameBytes sent;
  transportack.FrameSHA256 := FrameSHA256 sent |}.

Lemma matches_ack_for ack sent :
  transportack.Version ack = transportack.AcknowledgementVersion ->
  acknowledgementMatchesSentFrame ack sent = Ok tt <-> ack = ack_for (transportack.Outcome ack) sent.
Proof.
  intros Hver. unfold acknowledgementMatchesSentFrame, ack_for. res_iff.
  split; [|intros ->; simpl; split_and!; done]. intros (? & ? & ? & ? & ? & ? & ? & _).
  destruct ack; simpl in *. congruence.
Qed.

(** Retirement is authorised exactly by the right acknowledgement. If
    [VerifyDurableAcknowledgement] returns an authorization, the bytes it read
    were a durable outcome (new or duplicate, the only two) for precisely this
    frame: identity, logical size and digests, frame size and frame digest are
    the sent ones. Every other stream leaves the source's copy in place. *)
Theorem VerifyDurableAcknowledgement_sound sent r auth r' :
  VerifyDurableAcknowledgement sent r = (Ok auth, r') ->
  exists outcome,
    (outcome = transportack.OutcomeDurableNew \/ outcome = transportack.OutcomeDurableDuplicate) /\
    transportack.ReadAcknowledgement r = (Ok (ack_for outcome sent), r') /\
    RetirementAuthorization_Acknowledgement auth = Ok (ack_for outcome sent).
Proof.
  intros Hv. unfold VerifyDurableAcknowledgement in Hv. res_inv Hv.
  pose proof (transportack.ReadAcknowledgement_Ok _ _ _ E0) as [Hva _].
  pose proof Hva as (Hver & Ho & _). destruct v1.
  apply matches_ack_for in E1; [|done].
  exists (transportack.Outcome v0). split; [tauto|]. rewrite <- E1. split; [done|].
  unfold RetirementAuthorization_Acknowledgement, RetirementAuthorization_validate. simpl.
  by rewrite (proj2 (transportack.Ack_Validate_Ok _) Hva).
Qed.

Lemma acknowledgement_accepted {W} `{WriterLaws W} outcome sent (w w' : W) rest e :
  SentFrame_Validate sent = Ok tt ->
  transportbatch.Descriptor_typed (Descriptor sent) -> is_u64 (FrameBytes sent) ->
  transportack.WriteAcknowledgement (ack_for outcome sent) w = (Ok tt, w') ->
  exists out, written w' = written w ++ out /\
    VerifyDurableAcknowledgement sent (Reader (out ++ rest) e) =
      (Ok {| acknowledgement := ack_for outcome sent |}, Reader rest e).
Proof.
  intros Hs (_ & Hd & _) Hf Hw.
  exists (transportack.fixedAck (ack_for outcome sent) ++ transportack.tailAck (ack_for outcome sent)).
  split; [eapply emits_Ok; [apply transportack.WriteAcknowledgement_emits|exact Hw]|].
  unfold transportack.WriteAcknowledgement in Hw.
  apply bind_lift_Ok in Hw as ([] & Hv%wrap_Ok%transportack.Ack_Validate_Ok & _).
  unfold VerifyDurableAcknowledgement. rewrite (bind_lift _ _ tt) by (by rewrite Hs).
  unfold bind at 1, wrap_err. rewrite <- app_assoc.
  rewrite transportack.ReadAcknowledgement_layout by done. cbn [wrap].
  by rewrite (bind_lift _ _ tt) by (by apply matches_ack_for).
Qed.

(** The two ends agree: the acknowledgement a receiver writes for a frame the
    source really sent is accepted by the source, over any writer that took all
    of it, and nothing after it is read. *)
Theorem acknowledgement_end_to_end {W} `{WriterLaws W} outcome sent (w w' : W) rest e :
  SentFrame_Validate sent = Ok tt ->
  transportbatch.Descriptor_typed (Descriptor sent) -> is_u64 (FrameBytes sent) ->
  transportack.WriteAcknowledgement (ack_for outcome sent) w = (Ok tt, w') ->
  exists out, written w' = written w ++ out /\
    VerifyDurableAcknowledgement sent (Reader (out ++ rest) e) =
      (Ok {| acknowledgement := ack_for outcome sent |}, Reader rest e).
Proof. apply acknowledgement_accepted. Qed.

End Sender.

(** ** A concrete exchange *)

Definition demoSent : SentFrame := {|
  Descriptor := transportbatch.exampleDescriptor; FrameBytes := 4096;
  FrameSHA256 := sha256_hex (bs "frame") |}.

Definition demoAckBytes : bytes := Eval vm_compute in
  (@transportack.WriteAcknowledgement asciiUnicode bytes _
     (ack_for transportack.OutcomeDurableNew demoSent) []).2.

Lemma WriteAcknowledgement_ReadAcknowledgement_witness :
  exists out, written (W := bytes) demoAckBytes = written (W := bytes) [] ++ out /\
    @transportack.ReadAcknowledgement asciiUnicode (Reader (out ++ bs "next") EOF) =
      (Ok (ack_for transportack.OutcomeDurableNew demoSent), Reader (bs "next") EOF).
Proof.
  apply (@transportack.WriteAcknowledgement_ReadAcknowledgement asciiUnicode bytes _ _
           (ack_for transportack.OutcomeDurableNew demoSent) [] demoAckBytes (bs "next") EOF).
  - vm_compute. repeat split; congruence.
  - vm_compute. reflexivity.
Defined.

Lemma VerifyDurableAcknowledgement_sound_witness :
  exists outcome,
    (outcome = transportack.OutcomeDurableNew \/ outcome = transportack.OutcomeDurableDuplicate) /\
    @transportack.ReadAcknowledgement asciiUnicode (Reader demoAckBytes EOF) =
      (Ok (ack_for outcome demoSent), Reader [] EOF) /\
    @RetirementAuthorization_Acknowledgement asciiUnicode
      {| acknowledgement := ack_for transportack.OutcomeDurableNew demoSent |} =
      Ok (ack_for outcome demoSent).
Proof.
  apply (@VerifyDurableAcknowledgement_sound asciiUnicode demoSent (Reader demoAckBytes EOF)).
  vm_compute. reflexivity.
Defined.

Lemma acknowledgement_end_to_end_witness :
  exists out, written (W := bytes) demoAckBytes = written (W := bytes) [] ++ out /\
    @VerifyDurableAcknowledgement asciiUnicode demoSent (Reader (out ++ bs "next") EOF) =
      (Ok {| acknowledgement := ack_for transportack.OutcomeDurableNew demoSent |},
       Reader (bs "next") EOF).
Proof.
  apply (@acknowledgement_end_to_end asciiUnicode bytes _ _ transportack.OutcomeDurableNew demoSent
           [] demoAckBytes (bs "next") EOF).
  - vm_compute. reflexivity.
  - vm_compute. repeat split; congruence.
  - vm_compute. repeat split; congruence.
  - vm_compute. reflexivity.
Defined.

End transportsender.
