(* ===== verification/TransportGeneration.v ===== *)
(** * The generation descriptor and its signature

    Models [go/internal/transportgeneration/descriptor.go]: the descriptor of one
    sealed generation, its validation, the signed byte sequence, the signed
    generation and its verification; and the cryptographic validation of
    [signed_json.go]. *)

From S2P Require Import Prelude GoBytes GoStrings Sha256 Pki TransportBatch TransportTrust.

Module transportgeneration.

Definition CanonicalVersion : bytes := bs "fi-generation-canonical/0.1".
Definition DescriptorVersion : bytes := bs "fi-generation-descriptor/0.1".
Definition SignedGenerationVersion : bytes := bs "fi-signed-generation/0.1".
Definition generationSignatureDomain : bytes := bs "FI-GENERATION-SIGNATURE-V1".
Definition maxGenerationCertificateDERBytes : Z := 128 * 1024.
Definition maxGenerationSignatureBytes : Z := 16 * 1024.
Definition maxGenerationStreamingBytes : Z := 2 ^ 63 - 1.
(** [transportencoding.DataEncodingZstd]. *)
Definition DataEncodingZstd : bytes := bs "zstd".

(** The character sets ["/\\"] and ["\x00\r\n"] of the validators. *)
Definition path_separators : bytes := bs "/\".
Definition control_characters : bytes := [z2b 0; z2b 13; z2b 10].

Record Descriptor := {
  Version : bytes;
  SourceID : bytes;
  GenerationID : bytes;
  DescriptorCanonicalVersion : bytes;
  DataEncoding : bytes;
  ArtifactCount : Z;
  SourceBytes : Z;
  CanonicalBytes : Z;
  CanonicalSHA256 : bytes;
  EncodedDataBytes : Z;
  EncodedDataSHA256 : bytes
}.

#[global] Instance generation_Descriptor_eq_decision : EqDecision Descriptor.
Proof. solve_decision. Defined.

Definition Descriptor_typed (d : Descriptor) : Prop :=
  is_u64 (ArtifactCount d) /\ is_u64 (SourceBytes d) /\ is_u64 (CanonicalBytes d) /\
  is_u64 (EncodedDataBytes d).

Record SignedGeneration := {
  SignedVersion : bytes;
  SignedDescriptor : Descriptor;
  Signature : bytes;
  BatchSigningCertificateDER : bytes
}.

Section Generation.
Context `{Unicode} `{X509}.

Definition validateSHA256 (name : string) (value : bytes) : res unit :=
  fail? negb (len value =? 64) || negb (bool_decide (value = ToLower value))
    with Errorf "%s must contain exactly 64 lowercase hexadecimal characters" ;;
  match hex_decode value with
  | Ok decoded =>
      fail? negb (len decoded =? 32)
        with Errorf "%s must contain exactly 64 lowercase hexadecimal characters" ;;
      Ok tt
  | Err _ => Err (Errorf "%s must contain exactly 64 lowercase hexadecimal characters")
  | Panic => Panic
  end.

Definition validateTextIdentity (name : string) (value : bytes) : res unit :=
  fail? bool_decide (TrimSpace value = []) with Errorf "%s is required" ;;
  fail? negb (utf8_ValidString value) with Errorf "%s is not valid UTF-8" ;;
  fail? 4096 <? len value with Errorf "%s exceeds 4096 bytes" ;;
  fail? ContainsAny value control_characters
    with Errorf "%s contains prohibited control characters" ;;
  Ok tt.

Definition Validate (descriptor : Descriptor) : res unit :=
  fail? negb (bool_decide (Version descriptor = DescriptorVersion))
    with Errorf "generation descriptor version must be %q, got %q" ;;
  check? validateTextIdentity "source ID" (SourceID descriptor) ;;
  check? validateTextIdentity "generation ID" (GenerationID descriptor) ;;
  fail? ContainsAny (GenerationID descriptor) path_separators
    with Errorf "generation ID must not contain path separators" ;;
  fail? negb (bool_decide (DescriptorCanonicalVersion descriptor = CanonicalVersion))
    with Errorf "generation canonical version must be %q, got %q" ;;
  fail? negb (bool_decide (DataEncoding descriptor = DataEncodingZstd))
    with Errorf "generation data encoding must be %q, got %q" ;;
  fail? ArtifactCount descriptor =? 0
    with Errorf "generation artifact count must be greater than zero" ;;
  fail? maxGenerationStreamingBytes <? SourceBytes descriptor
    with Errorf "generation source byte count exceeds supported streaming bounds" ;;
  fail? (CanonicalBytes descriptor =? 0) || (maxGenerationStreamingBytes <? CanonicalBytes descriptor)
    with Errorf "generation canonical byte count is outside supported streaming bounds" ;;
  fail? (EncodedDataBytes descriptor =? 0) ||
        (maxGenerationStreamingBytes <? EncodedDataBytes descriptor)
    with Errorf "generation encoded byte count is outside supported streaming bounds" ;;
  check? validateSHA256 "canonical SHA-256" (CanonicalSHA256 descriptor) ;;
  check? validateSHA256 "encoded SHA-256" (EncodedDataSHA256 descriptor) ;;
  Ok tt.

(** The decoding errors are discarded in the source; [hex_bytes] is the decoded
    prefix there, and validation has excluded the error anyway. *)
Definition SignatureInput (descriptor : Descriptor) : res bytes :=
  check? Validate descriptor ;;
  let canonicalDigest := hex_bytes (CanonicalSHA256 descriptor) in
  let encodedDigest := hex_bytes (EncodedDataSHA256 descriptor) in
  let value := [] in
  let value := value ++ generationSignatureDomain in
  let value := value ++ [z2b 0] in
  let value := appendLengthPrefixed value (Version descriptor) in
  let value := appendLengthPrefixed value (SourceID descriptor) in
  let value := appendLengthPrefixed value (GenerationID descriptor) in
  let value := appendLengthPrefixed value (DescriptorCanonicalVersion descriptor) in
  let value := appendLengthPrefixed value (DataEncoding descriptor) in
  let value := value ++ PutUint64BE (ArtifactCount descriptor) in
  let value := value ++ PutUint64BE (SourceBytes descriptor) in
  let value := value ++ PutUint64BE (CanonicalBytes descriptor) in
  let value := value ++ PutUint64BE (EncodedDataBytes descriptor) in
  let value := value ++ canonicalDigest in
  let value := value ++ encodedDigest in
  Ok value.

Definition validateGenerationCertificateRole (descriptor : Descriptor)
    (certificate : option Certificate) : res unit :=
  match certificate with
  | None => Err (Errorf "batch-signing certificate is required")
  | Some certificate =>
  fail? IsCA certificate with Errorf "batch-signing certificate must not be a CA" ;;
  fail? negb (EqualFold (CommonName certificate) (SourceID descriptor))
    with Errorf "batch-signing certificate common name %q does not match source ID %q" ;;
  fail? Z.land (KeyUsage certificate) KeyUsageDigitalSignature =? 0
    with Errorf "batch-signing certificate does not permit digital signatures" ;;
  match PublicKey certificate with
  | RSAKey _ _ => Ok tt
  | OtherKey => Err (Errorf "batch-signing certificate public key must be RSA for %s")
  end
  end.

Definition SignedGeneration_Validate (value : SignedGeneration) : res unit :=
  fail? negb (bool_decide (SignedVersion value = SignedGenerationVersion))
    with Errorf "signed generation version must be %q, got %q" ;;
  check? wrap "validate signed generation descriptor: %w" (Validate (SignedDescriptor value)) ;;
  fail? (len (Signature value) =? 0) || (maxGenerationSignatureBytes <? len (Signature value))
    with Errorf "signed generation signature length is invalid" ;;
  fail? (len (BatchSigningCertificateDER value) =? 0) ||
        (maxGenerationCertificateDERBytes <? len (BatchSigningCertificateDER value))
    with Errorf "signed generation certificate DER length is invalid" ;;
  let? certificate := wrap "parse signed generation certificate DER: %w"
                        (ParseCertificate (BatchSigningCertificateDER value)) in
  validateGenerationCertificateRole (SignedDescriptor value) (Some certificate).

Definition NewSignedGeneration (descriptor : Descriptor) (certificate : option Certificate)
    (signer : option Signer) : res SignedGeneration :=
  check? wrap "validate generation descriptor: %w" (Validate descriptor) ;;
  match certificate with
  | None => Err (Errorf "batch-signing certificate DER is required")
  | Some certificate =>
  fail? len (Raw certificate) =? 0 with Errorf "batch-signing certificate DER is required" ;;
  fail? maxGenerationCertificateDERBytes <? len (Raw certificate)
    with Errorf "batch-signing certificate DER exceeds %d bytes" ;;
  match signer with
  | None => Err (Errorf "generation signer is required")
  | Some signer =>
  let? parsed := wrap "parse batch-signing certificate DER: %w"
                   (ParseCertificate (Raw certificate)) in
  check? validateGenerationCertificateRole descriptor (Some parsed) ;;
  match PublicKey parsed with
  | OtherKey => Err (Errorf "batch-signing certificate RSA public key is required")
  | RSAKey n e =>
  fail? match Public signer with
        | OtherKey => true
        | RSAKey n' e' => negb (e' =? e) || negb (n' =? n)
        end
    with Errorf "generation signer public key does not match batch-signing certificate" ;;
  let? input := SignatureInput descriptor in
  let digest := sha256 input in
  let? signature := wrap "sign FI generation descriptor using %s: %w" (Sign signer digest) in
  fail? (len signature =? 0) || (maxGenerationSignatureBytes <? len signature)
    with Errorf "generation signature length is invalid" ;;
  check? wrap "verify newly-created FI generation signature: %w"
           (VerifyPSS (n, e) digest signature) ;;
  let value := {| SignedVersion := SignedGenerationVersion; SignedDescriptor := descriptor;
                  Signature := signature; BatchSigningCertificateDER := Raw parsed |} in
  check? SignedGeneration_Validate value ;;
  Ok value
  end end end.

Definition BatchSigningCertificate (value : SignedGeneration) : res Certificate :=
  check? SignedGeneration_Validate value ;;
  let? certificate := wrap "parse signed generation certificate DER: %w"
                        (ParseCertificate (BatchSigningCertificateDER value)) in
  Ok certificate.

Definition VerifySignedGenerationSignature (value : SignedGeneration)
    (publicKey : option (Z * Z)) : res unit :=
  check? SignedGeneration_Validate value ;;
  match publicKey with
  | None => Err (Errorf "generation RSA public key is required")
  | Some publicKey =>
  let? input := SignatureInput (SignedDescriptor value) in
  let digest := sha256 input in
  check? wrap "generation signature verification failed using %s: %w"
           (VerifyPSS publicKey digest (Signature value)) ;;
  Ok tt
  end.

Definition validateSignedGenerationCryptographically (value : SignedGeneration) : res unit :=
  check? SignedGeneration_Validate value ;;
  let? certificate := BatchSigningCertificate value in
  match PublicKey certificate with
  | OtherKey => Err (Errorf "signed FI generation certificate RSA public key is required")
  | RSAKey n e =>
  check? wrap "verify signed FI generation metadata: %w"
           (VerifySignedGenerationSignature value (Some (n, e))) ;;
  Ok tt
  end.

(** ** What validation establishes *)

Definition valid_identity (value : bytes) : Prop :=
  TrimSpace value <> [] /\ utf8_ValidString value = true /\ len value <= 4096 /\
  ContainsAny value control_characters = false.

Definition ValidDescriptor (d : Descriptor) : Prop :=
  Version d = DescriptorVersion /\ valid_identity (SourceID d) /\
  valid_identity (GenerationID d) /\ ContainsAny (GenerationID d) path_separators = false /\
  DescriptorCanonicalVersion d = CanonicalVersion /\ DataEncoding d = DataEncodingZstd /\
  ArtifactCount d <> 0 /\ SourceBytes d <= maxGenerationStreamingBytes /\
  (CanonicalBytes d <> 0 /\ CanonicalBytes d <= maxGenerationStreamingBytes) /\
  (EncodedDataBytes d <> 0 /\ EncodedDataBytes d <= maxGenerationStreamingBytes) /\
  sha256_text (CanonicalSHA256 d) = true /\ sha256_text (EncodedDataSHA256 d) = true.

Lemma generation_validateSHA256_Ok name value :
  validateSHA256 name value = Ok tt <-> sha256_text value = true.
Proof.
  unfold validateSHA256. rewrite fail_Ok, orb_false, negb_decide_false. split.
  - intros ((Hl & Ht) & Hd). destruct (hex_decode value) eqn:E; try discriminate.
    unfold sha256_text. rewrite (ToLower_decode value a) by done. lia.
  - intros Hs. pose proof Hs as (d & Hd & Hl & _)%sha256_text_decode.
    unfold sha256_text in Hs. apply andb_prop in Hs as [Hs Hf].
    rewrite ToLower_hex, Hd by done. split_and!; [lia|done|]. by rewrite Hl.
Qed.

Lemma validateTextIdentity_Ok name value :
  validateTextIdentity name value = Ok tt <-> valid_identity value.
Proof. unfold validateTextIdentity, valid_identity. res_iff. tauto. Qed.

Lemma generation_Validate_Ok d : Validate d = Ok tt <-> ValidDescriptor d.
Proof.
  unfold Validate, ValidDescriptor. res_iff.
  rewrite !validateTextIdentity_Ok, !generation_validateSHA256_Ok. tauto.
Qed.

Definition layout (d : Descriptor) : bytes :=
  generationSignatureDomain ++ [z2b 0] ++ transportbatch.prefixed (Version d) ++
  transportbatch.prefixed (SourceID d) ++ transportbatch.prefixed (GenerationID d) ++
  transportbatch.prefixed (DescriptorCanonicalVersion d) ++
  transportbatch.prefixed (DataEncoding d) ++
  PutUint64BE (ArtifactCount d) ++ PutUint64BE (SourceBytes d) ++
  PutUint64BE (CanonicalBytes d) ++ PutUint64BE (EncodedDataBytes d) ++
  hex_bytes (CanonicalSHA256 d) ++ hex_bytes (EncodedDataSHA256 d).

Lemma generation_SignatureInput_Ok d i :
  SignatureInput d = Ok i <-> ValidDescriptor d /\ i = layout d.
Proof.
  unfold SignatureInput. rewrite check_Ok, generation_Validate_Ok. apply and_iff_compat_l_dep.
  intros _. unfold layout, transportbatch.prefixed, appendLengthPrefixed.
  rewrite <- !app_assoc. naive_solver.
Qed.

(** A generation signature covers one descriptor: [SignatureInput] is
    injective. Unlike the batch format no size condition is needed, because
    validation bounds both identities. *)
Theorem generation_SignatureInput_injective d e i :
  Descriptor_typed d -> Descriptor_typed e ->
  SignatureInput d = Ok i -> SignatureInput e = Ok i -> d = e.
Proof.
  intros (? & ? & ? & ?) (? & ? & ? & ?) [Vd ->]%generation_SignatureInput_Ok
    [Ve Heq]%generation_SignatureInput_Ok.
  destruct Vd as (Hd1 & (_ & _ & Hd2 & _) & (_ & _ & Hd3 & _) & _ & Hd4 & Hd5 & _ & _ & _ & _ & ? & ?).
  destruct Ve as (He1 & (_ & _ & He2 & _) & (_ & _ & He3 & _) & _ & He4 & He5 & _ & _ & _ & _ & ? & ?).
  unfold layout, transportbatch.prefixed in Heq. rewrite <- !app_assoc in Heq.
  assert (forall s : bytes, len s <= 4096 -> is_u32 (len s)) as Hu32.
  { intros s Hs. pose proof (len_nonneg s). unfold is_u32. lia. }
  assert (is_u32 (len (Version d)) /\ is_u32 (len (Version e)) /\
          is_u32 (len (DescriptorCanonicalVersion d)) /\
          is_u32 (len (DescriptorCanonicalVersion e)) /\
          is_u32 (len (DataEncoding d)) /\ is_u32 (len (DataEncoding e))) as (? & ? & ? & ? & ? & ?).
  { rewrite Hd1, He1, Hd4, He4, Hd5, He5. vm_compute. repeat split; congruence. }
  pose proof (Hu32 _ Hd2). pose proof (Hu32 _ He2). pose proof (Hu32 _ Hd3). pose proof (Hu32 _ He3).
  peel Heq. destruct d, e; simpl in *; congruence.
Qed.

(** Domain separation: no byte sequence is both the signed form of a
    generation and the signed form of a batch, so a signature made for one
    never verifies as the other. *)
Theorem signature_domains_disjoint g b i j :
  SignatureInput g = Ok i -> transportbatch.SignatureInput b = Ok j -> i <> j.
Proof.
  intros [_ ->]%generation_SignatureInput_Ok [Hb ->]%transportbatch.SignatureInput_Ok.
  destruct Hb as (_ & _ & _ & _ & _ & _ & [(Hv & _)|(Hv & _)]);
    unfold layout, transportbatch.layout, transportbatch.layoutV1, transportbatch.layoutV2;
    rewrite Hv; discriminate.
Qed.

Lemma cryptographically_valid value :
  validateSignedGenerationCryptographically value = Ok tt ->
  ValidDescriptor (SignedDescriptor value) /\
  exists c n e, ParseCertificate (BatchSigningCertificateDER value) = Ok c /\
    PublicKey c = RSAKey n e /\ IsCA c = false /\
    EqualFold (CommonName c) (SourceID (SignedDescriptor value)) = true /\
    VerifyPSS (n, e) (sha256 (layout (SignedDescriptor value))) (Signature value) = Ok tt.
Proof.
  unfold validateSignedGenerationCryptographically, BatchSigningCertificate.
  intros Hok. res_inv Hok. res_inv E0. destruct (PublicKey v0) as [n e|] eqn:Hk; [|discriminate].
  res_inv Hok.
  match goal with Hs : VerifySignedGenerationSignature _ _ = _ |- _ =>
    unfold VerifySignedGenerationSignature in Hs; res_inv Hs end.
  match goal with Hs : SignatureInput _ = Ok _ |- _ =>
    apply generation_SignatureInput_Ok in Hs as [Hvd ->] end.
  split; [done|].
  unfold SignedGeneration_Validate in E. res_inv E.
  match goal with P : ParseCertificate _ = Ok ?c |- _ =>
    lazymatch c with v0 => fail | _ => assert (c = v0) by congruence; subst c end end.
  cbn [validateGenerationCertificateRole] in E. res_inv E. bool_hyps.
  exists v0, n, e. split_and!; try done; [congruence|].
  match goal with Hs : VerifyPSS _ _ _ = Ok ?u |- _ => by destruct u end.
Qed.

(** Cryptographic acceptance means what it says: metadata that passes
    [validateSignedGenerationCryptographically] carries a valid descriptor and an
    RSA-PSS signature over this very descriptor, made with the key of the
    (non-CA, digital-signature) certificate inside it, whose common name is the
    source. *)
Theorem validateSignedGenerationCryptographically_sound value :
  validateSignedGenerationCryptographically value = Ok tt ->
  ValidDescriptor (SignedDescriptor value) /\
  exists c n e, ParseCertificate (BatchSigningCertificateDER value) = Ok c /\
    PublicKey c = RSAKey n e /\ IsCA c = false /\
    EqualFold (CommonName c) (SourceID (SignedDescriptor value)) = true /\
    VerifyPSS (n, e) (sha256 (layout (SignedDescriptor value))) (Signature value) = Ok tt.
Proof. apply cryptographically_valid. Qed.

End Generation.

(** ** Concrete generations *)

Definition demoDescriptor : Descriptor := {|
  Version := DescriptorVersion; SourceID := bs "FS-01"; GenerationID := bs "g1";
  DescriptorCanonicalVersion := CanonicalVersion; DataEncoding := DataEncodingZstd;
  ArtifactCount := 2; SourceBytes := 5; CanonicalBytes := 90;
  CanonicalSHA256 := sha256_hex (bs "canonical"); EncodedDataBytes := 40;
  EncodedDataSHA256 := sha256_hex (bs "encoded") |}.

Definition demoGeneration : SignedGeneration := {|
  SignedVersion := SignedGenerationVersion; SignedDescriptor := demoDescriptor;
  Signature := sha256 (layout demoDescriptor); BatchSigningCertificateDER := bs "FS-01" |}.

Lemma generation_SignatureInput_injective_witness :
  exists i, @SignatureInput asciiUnicode demoDescriptor = Ok i /\ demoDescriptor = demoDescriptor.
Proof.
  eexists. split; [vm_compute; reflexivity|].
  eapply (@generation_SignatureInput_injective asciiUnicode demoDescriptor demoDescriptor);
    try (vm_compute; repeat split; congruence).
Defined.

Lemma signature_domains_disjoint_witness :
  exists i j, @SignatureInput asciiUnicode demoDescriptor = Ok i /\
    transportbatch.SignatureInput transportbatch.exampleDescriptor = Ok j /\ i <> j.
Proof.
  eexists _, _. split; [vm_compute; reflexivity|]. split; [vm_compute; reflexivity|].
  eapply (@signature_domains_disjoint asciiUnicode demoDescriptor
            transportbatch.exampleDescriptor); vm_compute; reflexivity.
Defined.

Lemma validateSignedGenerationCryptographically_sound_witness :
  @validateSignedGenerationCryptographically asciiUnicode transporttrust.demoX509 demoGeneration
    = Ok tt /\ @ValidDescriptor demoDescriptor.
Proof.
  assert (E : @validateSignedGenerationCryptographically asciiUnicode transporttrust.demoX509
            demoGeneration = Ok tt) by (vm_compute; reflexivity).
  split; [exact E|].
  apply (@validateSignedGenerationCryptographically_sound asciiUnicode transporttrust.demoX509
           demoGeneration E).
Defined.

End transportgeneration.
