(* ===== verification/GenerationCanonical.v ===== *)
(** * The canonical generation stream

    The writer side is [go/internal/generationsealer/sealer.go] (the canonical
    framing that [Seal] streams into the encoder), the reader side is
    [go/internal/transportgeneration/canonical.go]. The main results are the
    round trip of a sealed stream through the reader and the converse: what the
    reader accepts is a well-framed, strictly sorted artifact stream. *)

From stdpp Require Import relations.
From S2P Require Import Prelude GoBytes GoStrings Sha256 GoIO Pki TransportGeneration.

(** One [Write] call whose byte count the caller ignores: the [io.Writer]
    contract makes a short count an error, and [io.MultiWriter] enforces it. *)
Class StrictWriter (W : Type) `{WriterLaws W} := {
  Write_full p w n w' : Write p w = ((n, None), w') -> n = len p
}.

Definition write1 {W} `{Writer W} (p : bytes) : prog W unit := fun w =>
  let '((_, e), w') := Write p w in
  match e with Some err => (Err err, w') | None => (Ok tt, w') end.

Lemma write1_emits {W} `{StrictWriter W} p : emits (write1 p) p.
Proof.
  intros w. unfold write1. destruct (Write p w) as [[n e] w'] eqn:E.
  pose proof (Write_prefix _ _ _ _ _ E) as (d & d' & Hp & Hw & Hn). exists d.
  destruct e; simpl; [split_and!; [done|eauto|done|done]|].
  apply Write_full in E. specialize (Hn eq_refl). split_and!; [done|eauto| |done].
  intros _. rewrite Hp, len_app in E. destruct d'; [by rewrite Hp, app_nil_r|].
  rewrite len_cons in E. pose proof (len_nonneg d'). lia.
Qed.

#[export] Instance Buffer_Strict : StrictWriter bytes.
Proof. split. by intros p w n w' [= <- <-]. Defined.

Module generationsealer.

Definition CanonicalVersion : bytes := bs "fi-generation-canonical/0.1".
Definition canonicalChunkBytes : Z := 1024 * 1024.
Definition canonicalMagic : bytes := bs "FI-GENERATION-CANONICAL-V1" ++ [z2b 0].
Definition sealedExtension : bytes := bs ".figz".

(** The set ["/\\\x00\r\n"]. *)
Definition name_separators : bytes := bs "/\" ++ [z2b 0; z2b 13; z2b 10].

Definition validEntryName (name : bytes) : bool :=
  negb (bool_decide (name = [])) && utf8_ValidString name &&
  bool_decide (filepath_Base name = name) && negb (ContainsAny name name_separators).

Section Writing.
Context {W : Type} `{Writer W}.

Definition writeCanonicalHeader (fileCount : Z) : prog W unit :=
  check! write1 canonicalMagic ;;
  write1 (PutUint64BE fileCount).

Definition writeCanonicalFileStart (name : bytes) : prog W unit :=
  fail! 2 ^ 32 - 1 <? len name with Errorf "FI generation artifact name exceeds uint32" ;;
  check! write1 (PutUint32BE (u32 (len name))) ;;
  write1 name.

Definition writeCanonicalChunk (value : bytes) : prog W unit :=
  fail! len value =? 0 with Errorf "FI generation canonical chunk cannot be empty" ;;
  check! write1 (PutUint32BE (u32 (len value))) ;;
  write1 value.

Definition writeCanonicalFileEnd (fileBytes : Z) : prog W unit :=
  check! write1 (zeros 4) ;;
  write1 (PutUint64BE fileBytes).

End Writing.

(** [countWriter.Write]. *)
Definition countWriter_Write (value : bytes) (count : Z) : res Z :=
  fail? (max_u64 - count <? len value) with Errorf "FI generation byte counter overflow" ;;
  Ok (u64 (count + len value)).

(** ** The bytes of a canonical stream *)

Definition chunk_bytes (c : bytes) : bytes := PutUint32BE (len c) ++ c.
Definition chunks_bytes (cs : list bytes) : bytes := concat (chunk_bytes <$> cs).
Definition file_end (fileBytes : Z) : bytes := PutUint32BE 0 ++ PutUint64BE fileBytes.

(** One artifact: its name and the chunks its content was cut into. *)
Definition artifact_bytes (name : bytes) (cs : list bytes) : bytes :=
  PutUint32BE (len name) ++ name ++ chunks_bytes cs ++ file_end (len (concat cs)).

Definition canonical_bytes (fs : list (bytes * list bytes)) : bytes :=
  canonicalMagic ++ PutUint64BE (len fs) ++
  concat ((fun f => artifact_bytes f.1 f.2) <$> fs).

(** A legal chunk: not empty and at most one MiB. *)
Definition legal_chunk (c : bytes) : Prop := 0 < len c <= canonicalChunkBytes.

End generationsealer.

(** ** The reader: [transportgeneration/canonical.go] *)
Module canonical.

(** Constants of [receive.go]. *)
Definition generationCanonicalMagic : bytes := bs "FI-GENERATION-CANONICAL-V1" ++ [z2b 0].
Definition generationCanonicalChunkBytes : Z := 1024 * 1024.
Definition maxReceiveArtifactCount : Z := 1000000.
Definition maxCanonicalArtifactNameBytes : Z := 4096.

Record canonicalArtifactReader := {
  chunkRemaining : Z;
  fileBytes : Z;
  finished : bool;
  stream : reader
}.

Definition newArtifactReader (r : reader) : canonicalArtifactReader :=
  {| chunkRemaining := 0; fileBytes := 0; finished := false; stream := r |}.

(** What [Read] returns: the bytes stored in the buffer and the error. *)
Definition read_result : Type := (bytes * option error) * canonicalArtifactReader.

(** The body of [for artifact.chunkRemaining == 0]. It either returns from [Read]
    ([inl]) or stores a chunk length that is not zero, which ends the loop, so
    the loop runs at most once per call. *)
Definition nextChunk (a : canonicalArtifactReader) : read_result + canonicalArtifactReader :=
  let '((chunkLengthBytes, err), r) := ReadFullN 4 (stream a) in
  let a := {| chunkRemaining := chunkRemaining a; fileBytes := fileBytes a;
              finished := finished a; stream := r |} in
  match err with
  | Some e => inl (([], Some (Wrap "read FI generation artifact chunk length: %w" e)), a)
  | None =>
  let chunkLength := be_get chunkLengthBytes in
  if chunkLength =? 0 then
    let '((declaredFileBytes, err), r) := ReadFullN 8 (stream a) in
    let a := {| chunkRemaining := chunkRemaining a; fileBytes := fileBytes a;
                finished := finished a; stream := r |} in
    match err with
    | Some e =>
        inl (([], Some (Wrap "read FI generation artifact declared byte count: %w" e)), a)
    | None =>
        let declared := be_get declaredFileBytes in
        if negb (declared =? fileBytes a) then
          inl (([], Some (Errorf "FI generation artifact byte count %d does not match canonical declaration %d")), a)
        else
          inl (([], Some EOF),
               {| chunkRemaining := chunkRemaining a; fileBytes := fileBytes a;
                  finished := true; stream := stream a |})
    end
  else if generationCanonicalChunkBytes <? chunkLength then
    inl (([], Some (Errorf "FI generation artifact chunk length %d exceeds canonical limit %d")), a)
  else if max_u64 - fileBytes a <? chunkLength then
    inl (([], Some (Errorf "FI generation artifact byte count overflow")), a)
  else
    inr {| chunkRemaining := chunkLength; fileBytes := fileBytes a;
           finished := finished a; stream := stream a |}
  end.

(** The rest of [Read], once a chunk is open; [length] is [len(value)], and
    [uint32(readLength)] keeps its low 32 bits. *)
Definition readChunk (length : Z) (a : canonicalArtifactReader) : read_result :=
  let readLength := if chunkRemaining a <? u32 length then chunkRemaining a else length in
  let '((value, err), r) := ReadFullN readLength (stream a) in
  let n := len value in
  let a :=
    if 0 <? n then
      {| chunkRemaining := u32 (chunkRemaining a - u32 n); fileBytes := u64 (fileBytes a + n);
         finished := finished a; stream := r |}
    else
      {| chunkRemaining := chunkRemaining a; fileBytes := fileBytes a;
         finished := finished a; stream := r |} in
  match err with
  | Some e => ((value, Some (Wrap "read FI generation artifact chunk: %w" e)), a)
  | None => ((value, None), a)
  end.

Definition Read (length : Z) (a : canonicalArtifactReader) : read_result :=
  if length =? 0 then (([], None), a)
  else if finished a then (([], Some EOF), a)
  else if chunkRemaining a =? 0 then
    match nextChunk a with
    | inl result => result
    | inr a => readChunk length a
    end
  else readChunk length a.

Definition readCanonicalArtifactName (position : Z) : prog reader bytes :=
  let! nameLengthBytes := wrap_err "read FI generation artifact %d name length: %w" (ReadFull 4) in
  let nameLength := be_get nameLengthBytes in
  fail! (nameLength =? 0) || (maxCanonicalArtifactNameBytes <? nameLength)
    with Errorf "FI generation artifact %d name length is outside bounds" ;;
  let! name := wrap_err "read FI generation artifact %d name: %w" (ReadFull nameLength) in
  fail! negb (utf8_ValidString name) || ContainsAny name generationsealer.name_separators
    with Errorf "FI generation artifact %d name is invalid" ;;
  ret name.

(** [io.Copy(io.Discard, artifactReader)]: [io.Discard] reads through an 8 KiB
    buffer until the end. A turn that does not end the loop removes at least
    one byte from the stream, hence the fuel of [drain]. *)
Definition discardBufferBytes : Z := 8192.

Fixpoint drain_loop (fuel : nat) (a : canonicalArtifactReader) : res unit * canonicalArtifactReader :=
  match fuel with
  | O => (Panic, a)
  | S fuel' =>
      let '((_, err), a') := Read discardBufferBytes a in
      match err with
      | None => drain_loop fuel' a'
      | Some e => if bool_decide (e = EOF) then (Ok tt, a') else (Err e, a')
      end
  end.

Definition drain (a : canonicalArtifactReader) : res unit * canonicalArtifactReader :=
  drain_loop (S (length (rd_data (stream a)))) a.

(** A [CanonicalArtifactHandler] with private state [H]: it is handed the name
    and the artifact reader. *)
Definition handler_fn (H : Type) : Type := bytes -> prog (H * canonicalArtifactReader) unit.

Section Reading.
Context `{Unicode}.

(** One turn of the artifact loop after its name was read. *)
Definition consumeOne {H} (handler : option (handler_fn H)) (name : bytes) (h : H)
    (a : canonicalArtifactReader) : res unit * (H * canonicalArtifactReader) :=
  match handler with
  | None =>
      let '(r, a') := drain a in
      (wrap "read FI generation artifact %d %q: %w" r, (h, a'))
  | Some run =>
      let '(r, (h', a')) := run name (h, a) in
      match wrap "consume FI generation artifact %d %q: %w" r with
      | Ok _ =>
          (if negb (finished a')
           then Err (Errorf "FI generation canonical artifact handler returned before consuming the complete artifact")
           else Ok tt, (h', a'))
      | r' => (r', (h', a'))
      end
  end.

(** The loop [for position := 0; position < artifactCount; position++]. *)
Fixpoint readArtifacts {H} (handler : option (handler_fn H)) (count : nat) (position : Z)
    (previousName : bytes) (sourceBytes : Z) : prog (H * reader) Z :=
  match count with
  | O => ret sourceBytes
  | S count' => fun '(h, r) =>
      match readCanonicalArtifactName position r with
      | (Ok name, r) =>
          if negb (bool_decide (previousName = [])) && bytes_leb name previousName then
            (Err (Errorf "FI generation canonical artifact names are not in strict sorted order"),
             (h, r))
          else
          let '(result, (h, a)) := consumeOne handler name h (newArtifactReader r) in
          match result with
          | Ok _ =>
              if max_u64 - sourceBytes <? fileBytes a then
                (Err (Errorf "FI generation source byte count overflow"), (h, stream a))
              else
                readArtifacts handler count' (position + 1) name
                  (u64 (sourceBytes + fileBytes a)) (h, stream a)
          | Err e => (Err e, (h, stream a))
          | Panic => (Panic, (h, stream a))
          end
      | (Err e, r) => (Err e, (h, r))
      | (Panic, r) => (Panic, (h, r))
      end
  end.

(** A decoder step on the stream component. *)
Definition on_stream {H A} (p : prog reader A) : prog (H * reader) A :=
  fun '(h, r) => let '(x, r') := p r in (x, (h, r')).

Definition ReadCanonicalArtifacts {H} (descriptor : transportgeneration.Descriptor)
    (handler : option (handler_fn H)) : prog (H * reader) Z :=
  check! lift (wrap "validate FI generation descriptor before canonical read: %w"
                 (transportgeneration.Validate descriptor)) ;;
  let! magic := on_stream (wrap_err "read FI generation canonical magic: %w"
                             (ReadFull (len generationCanonicalMagic))) in
  fail! negb (bool_decide (magic = generationCanonicalMagic))
    with Errorf "invalid FI generation canonical magic" ;;
  let! countBytes := on_stream (wrap_err "read FI generation canonical artifact count: %w"
                                  (ReadFull 8)) in
  let artifactCount := be_get countBytes in
  fail! negb (artifactCount =? transportgeneration.ArtifactCount descriptor)
    with Errorf "FI generation canonical artifact count %d does not match signed descriptor %d" ;;
  fail! (artifactCount =? 0) || (maxReceiveArtifactCount <? artifactCount)
    with Errorf "FI generation canonical artifact count is outside bounds" ;;
  readArtifacts handler (Z.to_nat artifactCount) 0 [] 0.

End Reading.
(** ** What a sequence of reads has seen

    [reads a o a'] : reads that did not fail took the artifact reader from [a] to
    [a'] and returned [o] in total. This is all a handler can do with its
    argument, short of ignoring an error. *)
Inductive reads : canonicalArtifactReader -> bytes -> canonicalArtifactReader -> Prop :=
| reads_nil a : reads a [] a
| reads_more a n d a' o a'' :
    0 <= n < 2 ^ 32 -> Read n a = ((d, None), a') -> reads a' o a'' -> reads a (d ++ o) a''
| reads_eof a n d a' :
    0 <= n < 2 ^ 32 -> Read n a = ((d, Some EOF), a') -> reads a d a'.

Abbreviation legal_chunk := generationsealer.legal_chunk.
Abbreviation chunks_bytes := generationsealer.chunks_bytes.

(** Where the reader stands in the framing of one artifact that starts at [r0],
    when [o] has been delivered so far. *)
Inductive progress (r0 : reader) : bytes -> canonicalArtifactReader -> Prop :=
| at_boundary cs r :
    Forall legal_chunk cs -> len (concat cs) <= max_u64 -> rd_end r = rd_end r0 ->
    rd_data r0 = chunks_bytes cs ++ rd_data r ->
    progress r0 (concat cs)
      {| chunkRemaining := 0; fileBytes := len (concat cs); finished := false; stream := r |}
| in_chunk cs part rem r :
    Forall legal_chunk cs -> 0 < rem -> len part + rem <= generationCanonicalChunkBytes ->
    len (concat cs) + len part + rem <= max_u64 -> rd_end r = rd_end r0 ->
    rd_data r0 = chunks_bytes cs ++ PutUint32BE (len part + rem) ++ part ++ rd_data r ->
    progress r0 (concat cs ++ part)
      {| chunkRemaining := rem; fileBytes := len (concat cs) + len part;
         finished := false; stream := r |}
| at_end cs r :
    Forall legal_chunk cs -> len (concat cs) <= max_u64 -> rd_end r = rd_end r0 ->
    rd_data r0 = chunks_bytes cs ++ generationsealer.file_end (len (concat cs)) ++ rd_data r ->
    progress r0 (concat cs)
      {| chunkRemaining := 0; fileBytes := len (concat cs); finished := true; stream := r |}.

Lemma chunks_bytes_app cs ds : chunks_bytes (cs ++ ds) = chunks_bytes cs ++ chunks_bytes ds.
Proof. unfold generationsealer.chunks_bytes. by rewrite fmap_app, concat_app. Qed.

(** A read inside an open chunk. *)
Lemma readChunk_progress r0 cs part rem r n d a' :
  Forall legal_chunk cs -> 0 < rem -> len part + rem <= generationCanonicalChunkBytes ->
  len (concat cs) + len part + rem <= max_u64 -> rd_end r = rd_end r0 ->
  rd_data r0 = chunks_bytes cs ++ PutUint32BE (len part + rem) ++ part ++ rd_data r ->
  0 < n < 2 ^ 32 ->
  readChunk n {| chunkRemaining := rem; fileBytes := len (concat cs) + len part;
                 finished := false; stream := r |} = ((d, None), a') ->
  progress r0 ((concat cs ++ part) ++ d) a'.
Proof.
  intros Hcs Hrem Hmax Hu64 Hend Hdata Hn Hread.
  unfold readChunk in Hread. cbn [chunkRemaining fileBytes finished stream] in Hread.
  rewrite (u32_small n) in Hread by (unfold is_u32; lia).
  set (m := if rem <? n then rem else n) in *.
  assert (0 < m <= rem) as Hm by (unfold m; destruct (rem <? n) eqn:?; lia).
  destruct (ReadFullN m r) as [[v e] r1] eqn:Er.
  destruct e as [e|]; [destruct (0 <? len v); discriminate|].
  apply ReadFullN_full in Er as (Hl & Hd & He); [|lia].
  replace (0 <? len v) with true in Hread by lia. injection Hread as <- <-.
  pose proof (len_nonneg part). pose proof (len_nonneg (concat cs)).
  unfold generationCanonicalChunkBytes, max_u64 in *.
  rewrite (u32_small (len v)) by (unfold is_u32; lia).
  rewrite (u32_small (rem - len v)) by (unfold is_u32; lia).
  rewrite u64_small by (unfold is_u64; lia).
  rewrite <- app_assoc. destruct (decide (len v = rem)) as [E|E].
  - replace (rem - len v) with 0 by lia.
    replace (concat cs ++ part ++ v) with (concat (cs ++ [part ++ v])).
    2: { rewrite concat_app. simpl. by rewrite app_nil_r. }
    replace (len (concat cs) + len part + len v) with (len (concat (cs ++ [part ++ v]))).
    2: { rewrite concat_app, len_app. simpl. rewrite app_nil_r, len_app. lia. }
    constructor.
    + apply Forall_app. split; [done|]. constructor; [|constructor].
      unfold legal_chunk, generationsealer.canonicalChunkBytes. rewrite len_app. lia.
    + rewrite concat_app, len_app. simpl. rewrite app_nil_r, len_app. unfold max_u64. lia.
    + congruence.
    + rewrite Hdata, Hd, chunks_bytes_app, <- !app_assoc. f_equal.
      unfold generationsealer.chunks_bytes, generationsealer.chunk_bytes. simpl.
      by rewrite app_nil_r, len_app, E, <- !app_assoc.
  - replace (len (concat cs) + len part + len v) with (len (concat cs) + len (part ++ v))
      by (rewrite len_app; lia).
    constructor; rewrite ?len_app; unfold generationCanonicalChunkBytes, max_u64;
      try lia; [done|congruence|].
    rewrite Hdata, Hd. replace (len part + len v + (rem - len v)) with (len part + rem) by lia.
    by rewrite <- !app_assoc.
Qed.

(** Opening the next chunk or reaching the end mark. *)
Lemma nextChunk_progress r0 cs r :
  Forall legal_chunk cs -> len (concat cs) <= max_u64 -> rd_end r = rd_end r0 ->
  rd_data r0 = chunks_bytes cs ++ rd_data r ->
  match nextChunk {| chunkRemaining := 0; fileBytes := len (concat cs); finished := false;
                     stream := r |} with
  | inl ((d, Some e), a') => e = EOF -> d = [] /\ progress r0 (concat cs) a'
  | inl ((_, None), _) => False
  | inr a' => exists rem r', a' = {| chunkRemaining := rem; fileBytes := len (concat cs) + len (@nil byte);
                                    finished := false; stream := r' |} /\
      0 < rem <= generationCanonicalChunkBytes /\ len (concat cs) + rem <= max_u64 /\
      rd_end r' = rd_end r0 /\
      rd_data r0 = chunks_bytes cs ++ PutUint32BE rem ++ rd_data r'
  end.
Proof.
  intros Hcs Hmax Hend Hdata. unfold nextChunk. cbn [chunkRemaining fileBytes finished stream].
  destruct (ReadFullN 4 r) as [[v e] r1] eqn:Er. destruct e as [e|]; [done|].
  apply ReadFullN_full in Er as (Hl & Hd & He); [|lia].
  pose proof (be_get_u32 v Hl) as Hv. unfold is_u32 in Hv.
  destruct (be_get v =? 0) eqn:E0.
  - cbn [stream]. destruct (ReadFullN 8 r1) as [[w e] r2] eqn:Er2. destruct e as [e|]; [done|].
    apply ReadFullN_full in Er2 as (Hl2 & Hd2 & He2); [|lia]. cbn [fileBytes].
    destruct (be_get w =? len (concat cs)) eqn:E1; simpl; [|done]. intros _. split; [done|].
    constructor; [done|done|congruence|].
    rewrite Hdata, Hd, Hd2. unfold generationsealer.file_end.
    rewrite <- app_assoc. f_equal. f_equal; [|f_equal].
    + replace 0 with (be_get v) by lia. by rewrite PutUint32BE_get.
    + replace (len (concat cs)) with (be_get w) by lia. by rewrite PutUint64BE_get.
  - destruct (generationCanonicalChunkBytes <? be_get v) eqn:E1; [done|].
    destruct (max_u64 - len (concat cs) <? be_get v) eqn:E2; [done|].
    exists (be_get v), r1. rewrite len_nil, Z.add_0_r.
    split_and!; [done|lia|lia|lia|congruence|].
    by rewrite Hdata, Hd, PutUint32BE_get.
Qed.

Lemma Read_progress r0 o a n d e a' :
  progress r0 o a -> 0 <= n < 2 ^ 32 -> Read n a = ((d, e), a') -> e = None \/ e = Some EOF ->
  progress r0 (o ++ d) a'.
Proof.
  intros Hp Hn Hread He. unfold Read in Hread.
  destruct (n =? 0) eqn:E0.
  { injection Hread as <- <- <-. by rewrite app_nil_r. }
  destruct Hp as [cs r Hcs Hmax Hend Hdata | cs part rem r Hcs Hrem Hch Hmax Hend Hdata
                 | cs r Hcs Hmax Hend Hdata]; cbn [finished chunkRemaining] in Hread.
  - pose proof (nextChunk_progress r0 cs r Hcs Hmax Hend Hdata) as Hnext.
    destruct (nextChunk _) as [[[d1 e1] a1]|a1].
    + injection Hread as -> -> ->. destruct e as [e|]; [|done].
      destruct He as [|[= ->]]; [done|]. destruct (Hnext eq_refl) as [-> Hp]. by rewrite app_nil_r.
    + destruct Hnext as (rem & r' & -> & Hrem & Hu & Hend' & Hdata').
      destruct e as [e|].
      { exfalso. destruct He as [|[= ->]]; [done|]. revert Hread. unfold readChunk.
        destruct (ReadFullN _ _) as [[? []] ?]; destruct (0 <? len _); discriminate. }
      eapply readChunk_progress in Hread; rewrite ?len_nil; try done; try lia.
      by rewrite app_nil_r in Hread.
  - replace (rem =? 0) with false in Hread by lia.
    destruct e as [e|].
    { exfalso. destruct He as [|[= ->]]; [done|]. revert Hread. unfold readChunk.
      destruct (ReadFullN _ _) as [[? []] ?]; destruct (0 <? len _); discriminate. }
    eapply readChunk_progress in Hread; eauto; lia.
  - injection Hread as <- <- <-. rewrite app_nil_r. by constructor.
Qed.

(** Rule induction over the reads of a handler. *)
Lemma reads_progress r0 a o a' :
  reads a o a' -> forall o0, progress r0 o0 a -> progress r0 (o0 ++ o) a'.
Proof.
  induction 1 as [a|a n d a' o a'' Hn Hr _ IH|a n d a' Hn Hr]; intros o0 Hp.
  - by rewrite app_nil_r.
  - rewrite app_assoc. apply IH. eapply Read_progress; eauto.
  - eapply Read_progress; eauto.
Qed.

Lemma progress_start r : progress r [] (newArtifactReader r).
Proof. by apply (at_boundary r [] r). Qed.

(** ** What a well-framed artifact delivers

    [expects a o rest e] : reading on from [a] delivers exactly [o], then the end of
    the artifact, and leaves [rest]. *)
Inductive expects : canonicalArtifactReader -> bytes -> bytes -> error -> Prop :=
| expects_chunks cs fb rest e :
    Forall legal_chunk cs -> 0 <= fb -> fb + len (concat cs) <= max_u64 ->
    expects {| chunkRemaining := 0; fileBytes := fb; finished := false;
               stream := Reader (chunks_bytes cs ++
                 generationsealer.file_end (fb + len (concat cs)) ++ rest) e |}
      (concat cs) rest e
| expects_part part cs fb rest e :
    Forall legal_chunk cs -> legal_chunk part -> 0 <= fb ->
    fb + len part + len (concat cs) <= max_u64 ->
    expects {| chunkRemaining := len part; fileBytes := fb; finished := false;
               stream := Reader (part ++ chunks_bytes cs ++
                 generationsealer.file_end (fb + len part + len (concat cs)) ++ rest) e |}
      (part ++ concat cs) rest e.

(** The reader after the end mark. *)
Definition exhausted (total : Z) (rest : bytes) (e : error) : canonicalArtifactReader :=
  {| chunkRemaining := 0; fileBytes := total; finished := true; stream := Reader rest e |}.

Lemma readChunk_expects n part cs fb rest e :
  Forall legal_chunk cs -> legal_chunk part -> 0 <= fb ->
  fb + len part + len (concat cs) <= max_u64 -> 0 < n < 2 ^ 32 ->
  exists d o' a',
    readChunk n {| chunkRemaining := len part; fileBytes := fb; finished := false;
      stream := Reader (part ++ chunks_bytes cs ++
        generationsealer.file_end (fb + len part + len (concat cs)) ++ rest) e |} = ((d, None), a') /\
    part ++ concat cs = d ++ o' /\ 0 < len d <= n /\ expects a' o' rest e /\
    fileBytes a' = fb + len d.
Proof.
  intros Hcs Hpart Hfb Hmax Hn. unfold readChunk. cbn [chunkRemaining fileBytes finished stream].
  rewrite (u32_small n) by (unfold is_u32; lia).
  unfold legal_chunk, generationsealer.canonicalChunkBytes in Hpart.
  pose proof (len_nonneg (concat cs)).
  set (m := if len part <? n then len part else n).
  assert (0 < m <= len part /\ m <= n) as [Hm Hmn] by (unfold m; destruct (len part <? n) eqn:?; lia).
  set (d := take (Z.to_nat m) part). set (t := drop (Z.to_nat m) part).
  assert (part = d ++ t) as Hsplit by (unfold d, t; by rewrite take_drop).
  assert (len d = m) as Hd by (unfold d, len in *; rewrite length_take; lia).
  clearbody m d t. subst part. rewrite len_app in *. pose proof (len_nonneg t).
  rewrite <- app_assoc, ReadFullN_app by done.
  replace (0 <? len d) with true by lia. unfold max_u64 in *.
  rewrite (u32_small (len d)) by (unfold is_u32; lia).
  rewrite (u32_small (len d + len t - len d)) by (unfold is_u32; lia).
  rewrite u64_small by (unfold is_u64; lia).
  exists d, (t ++ concat cs). eexists. split; [done|].
  split; [by rewrite <- app_assoc|]. split; [lia|]. split; [|cbn; lia].
  replace (len d + len t - len d) with (len t) by lia.
  replace (fb + (len d + len t) + len (concat cs)) with (fb + len d + len t + len (concat cs)) by lia.
  destruct (decide (t = [])) as [->|Hne].
  - rewrite len_nil, Z.add_0_r. cbn [app]. constructor; [done|lia|unfold max_u64; rewrite ?len_nil in *; lia].
  - constructor; [done| |lia|unfold max_u64; lia].
    unfold legal_chunk, generationsealer.canonicalChunkBytes.
    destruct t as [|b t]; [done|]. rewrite len_cons in *. pose proof (len_nonneg t). lia.
Qed.

(** Every read of a well-framed artifact makes progress or ends it. *)
Lemma Read_expects n a o rest e :
  expects a o rest e -> 0 < n < 2 ^ 32 ->
  (o = [] /\ Read n a = (([], Some EOF), exhausted (fileBytes a) rest e)) \/
  exists d o' a', Read n a = ((d, None), a') /\ o = d ++ o' /\ 0 < len d <= n /\
    expects a' o' rest e /\ fileBytes a' = fileBytes a + len d.
Proof.
  intros He Hn. unfold Read. replace (n =? 0) with false by lia.
  destruct He as [[|c cs] fb rest e Hcs Hfb Hmax|part cs fb rest e Hcs Hpart Hfb Hmax];
    cbn [finished chunkRemaining fileBytes].
  - left. split; [done|]. unfold nextChunk. cbn [stream].
    change (chunks_bytes []) with (@nil byte). change (len (@concat byte [])) with 0 in *.
    cbn [app]. rewrite Z.add_0_r in *. unfold generationsealer.file_end. rewrite <- app_assoc.
    rewrite ReadFullN_app by apply len_PutUint32BE.
    rewrite be_get_PutUint32 by (unfold is_u32; lia). rewrite Z.eqb_refl.
    cbn [stream]. rewrite ReadFullN_app by apply len_PutUint64BE.
    rewrite be_get_PutUint64 by (unfold is_u64, max_u64 in *; lia).
    cbn [fileBytes]. by rewrite Z.eqb_refl.
  - right. inversion Hcs as [|? ? Hc Hcs']; subst. unfold nextChunk. cbn [stream].
    change (chunks_bytes (c :: cs)) with (generationsealer.chunk_bytes c ++ chunks_bytes cs).
    unfold generationsealer.chunk_bytes. rewrite <- !app_assoc.
    rewrite ReadFullN_app by apply len_PutUint32BE.
    pose proof Hc as Hc'. unfold legal_chunk, generationsealer.canonicalChunkBytes in Hc'.
    pose proof (len_nonneg (concat cs)).
    cbn [concat] in *. rewrite len_app in *.
    rewrite be_get_PutUint32 by (unfold is_u32; lia).
    replace (len c =? 0) with false by lia.
    unfold generationCanonicalChunkBytes. cbn [fileBytes].
    replace (1024 * 1024 <? len c) with false by lia.
    replace (max_u64 - fb <? len c) with false by lia. cbn [finished stream].
    replace (fb + (len c + len (concat cs))) with (fb + len c + len (concat cs)) by lia.
    apply readChunk_expects; try done. lia.
  - right. unfold legal_chunk in Hpart. replace (len part =? 0) with false by lia.
    by apply readChunk_expects.
Qed.

Lemma expects_length a o rest e :
  expects a o rest e -> (length o <= length (rd_data (stream a)))%nat.
Proof.
  assert (forall cs, (length (concat cs) <= length (chunks_bytes cs))%nat) as Hcs.
  { intros cs. induction cs as [|c cs IH]; [done|].
    change (chunks_bytes (c :: cs)) with (generationsealer.chunk_bytes c ++ chunks_bytes cs).
    cbn [concat]. unfold generationsealer.chunk_bytes. rewrite !length_app. lia. }
  destruct 1 as [cs ? ? ?|part cs ? ? ?]; cbn [stream rd_data]; rewrite !length_app;
    specialize (Hcs cs); lia.
Qed.

Lemma drain_loop_expects fuel a o rest e :
  expects a o rest e -> (length o < fuel)%nat ->
  drain_loop fuel a = (Ok tt, exhausted (fileBytes a + len o) rest e).
Proof.
  revert a o. induction fuel as [|fuel IH]; intros a o He Hf; [lia|]. cbn [drain_loop].
  destruct (Read_expects discardBufferBytes a o rest e He) as
    [(-> & ->)|(d & o' & a' & -> & -> & Hd & He' & Hfb)]; [done| |].
  - by rewrite bool_decide_eq_true_2, len_nil, Z.add_0_r.
  - rewrite (IH _ o'); [|done|].
    + rewrite Hfb, len_app. do 2 f_equal. lia.
    + rewrite length_app in Hf. unfold len in Hd. lia.
Qed.

Lemma drain_expects a o rest e :
  expects a o rest e -> drain a = (Ok tt, exhausted (fileBytes a + len o) rest e).
Proof.
  intros He. unfold drain. apply drain_loop_expects; [done|].
  pose proof (expects_length _ _ _ _ He). lia.
Qed.

(** [io.EOF] is reported only after the end mark was checked. *)
Lemma Read_EOF_finished n a d a' :
  n <> 0 -> Read n a = ((d, Some EOF), a') -> finished a' = true.
Proof.
  intros Hn. unfold Read. replace (n =? 0) with false by lia.
  destruct (finished a) eqn:Hf; [by intros [= <- <-]|].
  assert (forall b, readChunk n b <> ((d, Some EOF), a')) as Hrc.
  { intros b. unfold readChunk. destruct (ReadFullN _ _) as [[? []] ?]; destruct (0 <? len _); done. }
  destruct (chunkRemaining a =? 0); [|by intros ?%Hrc].
  unfold nextChunk. destruct (ReadFullN 4 (stream a)) as [[v []] r1]; [done|].
  destruct (be_get v =? 0); [|destruct (_ <? be_get v); [done|destruct (_ <? be_get v)];
                              [done|by intros ?%Hrc]].
  cbn [stream]. destruct (ReadFullN 8 r1) as [[w []] r2]; [done|].
  destruct (negb _); [done|]. by intros [= <- <-].
Qed.

Lemma ReadFullN_shorter n r d r' :
  ReadFullN n r = ((d, None), r') -> 0 < n ->
  (length (rd_data r') < length (rd_data r))%nat.
Proof.
  intros Hr Hn. apply ReadFullN_full in Hr as (Hl & -> & _); [|lia].
  rewrite length_app. unfold len in Hl. lia.
Qed.

(** A read that reports no error shortens the stream. *)
Lemma Read_shorter n a d a' :
  0 < n < 2 ^ 32 -> is_u32 (chunkRemaining a) -> Read n a = ((d, None), a') ->
  (length (rd_data (stream a')) < length (rd_data (stream a)))%nat /\
  is_u32 (chunkRemaining a').
Proof.
  intros Hn Hrem. unfold Read. replace (n =? 0) with false by lia.
  destruct (finished a); [done|].
  assert (forall b, 0 < chunkRemaining b < 2 ^ 32 -> readChunk n b = ((d, None), a') ->
    (length (rd_data (stream a')) < length (rd_data (stream b)))%nat /\
    is_u32 (chunkRemaining a')) as Hrc.
  { intros b Hb. unfold readChunk. rewrite u32_small by (unfold is_u32; lia).
    destruct (ReadFullN _ (stream b)) as [[v [e|]] r] eqn:Er; [by destruct (0 <? len v)|].
    assert (0 < (if chunkRemaining b <? n then chunkRemaining b else n)) by (destruct (_ <? n); lia).
    pose proof (ReadFullN_shorter _ _ _ _ Er ltac:(done)).
    destruct (0 <? len v); intros [= <- <-]; (split; [done|]);
      [apply Z.mod_pos_bound; lia|unfold is_u32; cbn; lia]. }
  unfold is_u32 in Hrem. destruct (chunkRemaining a =? 0) eqn:E; [|intros ?%Hrc; [done|lia]].
  unfold nextChunk. destruct (ReadFullN 4 (stream a)) as [[v []] r1] eqn:Er; [done|].
  destruct (be_get v =? 0) eqn:E0.
  { cbn [stream]. destruct (ReadFullN 8 r1) as [[w []] r2]; [done|]. by destruct (negb _). }
  destruct (generationCanonicalChunkBytes <? be_get v) eqn:E1; [done|].
  destruct (max_u64 - _ <? be_get v) eqn:E2; [done|].
  pose proof (ReadFullN_shorter _ _ _ _ Er ltac:(lia)).
  pose proof (be_get_range v). unfold generationCanonicalChunkBytes in *.
  intros Hx. apply Hrc in Hx as [Hs ?]; cbn [stream chunkRemaining finished] in *;
    [split; [lia|done]|lia].
Qed.

Lemma drain_loop_no_panic fuel a :
  is_u32 (chunkRemaining a) -> (length (rd_data (stream a)) < fuel)%nat ->
  (drain_loop fuel a).1 <> Panic.
Proof.
  revert a. induction fuel as [|fuel IH]; intros a Ha Hf; [lia|]. cbn [drain_loop].
  destruct (Read discardBufferBytes a) as [[d [e|]] a1] eqn:Er; [by case_bool_decide|].
  apply Read_shorter in Er as [? ?]; [|done|done]. apply IH; [done|lia].
Qed.

(** When draining succeeds, the reads it made reached the end mark. *)
Lemma drain_loop_reads fuel a a' :
  drain_loop fuel a = (Ok tt, a') -> finished a' = true /\ exists o, reads a o a'.
Proof.
  revert a. induction fuel as [|fuel IH]; intros a; [done|]. cbn [drain_loop].
  destruct (Read discardBufferBytes a) as [[d e] a1] eqn:Er. destruct e as [e|].
  - case_bool_decide; [|done]. subst. intros [= <-].
    split; [by eapply Read_EOF_finished; [|exact Er]|]. exists d.
    eapply (reads_eof _ discardBufferBytes); [done|exact Er].
  - intros (Hf & o & Ho)%IH. split; [done|]. exists (d ++ o).
    eapply (reads_more _ discardBufferBytes); [done|exact Er|exact Ho].
Qed.

(** ** Artifact streams *)

Definition valid_name (name : bytes) : Prop :=
  0 < len name <= maxCanonicalArtifactNameBytes /\ utf8_ValidString name = true /\
  ContainsAny name generationsealer.name_separators = false.

(** An artifact as it can be framed: its name, and its content in legal chunks. *)
Definition valid_artifact (f : bytes * list bytes) : Prop :=
  valid_name f.1 /\ Forall legal_chunk f.2.

Definition content (f : bytes * list bytes) : bytes := concat f.2.
Definition total_bytes (fs : list (bytes * list bytes)) : Z :=
  foldr (fun f n => len (content f) + n) 0 fs.
Definition artifacts_bytes (fs : list (bytes * list bytes)) : bytes :=
  concat ((fun f => generationsealer.artifact_bytes f.1 f.2) <$> fs).

Lemma total_bytes_nonneg fs : 0 <= total_bytes fs.
Proof. induction fs as [|f fs IH]; simpl; [lia|]. pose proof (len_nonneg (content f)). lia. Qed.

Lemma total_bytes_cons f fs : total_bytes (f :: fs) = len (content f) + total_bytes fs.
Proof. reflexivity. Qed.

(** What is asked of a handler: when it reports success, it has only read, and
    has not ignored an error. *)
Definition handler_sound {H} (handler : option (handler_fn H)) : Prop :=
  match handler with
  | None => True
  | Some run => forall name h a h' a', run name (h, a) = (Ok tt, (h', a')) -> exists o, reads a o a'
  end.

(** The same, together with what the handler made of the bytes: [Step h name o h']. *)
Definition handler_steps {H} (handler : option (handler_fn H)) (Step : H -> bytes -> bytes -> H -> Prop)
  : Prop :=
  match handler with
  | None => forall h name o, Step h name o h
  | Some run => forall name h a h' a', run name (h, a) = (Ok tt, (h', a')) ->
      exists o, reads a o a' /\ (finished a' = true -> Step h name o h')
  end.

Lemma handler_sound_steps {H} (handler : option (handler_fn H)) :
  handler_sound handler -> handler_steps handler (fun _ _ _ _ => True).
Proof.
  destruct handler as [run|]; [|done]. intros Hs name h a h' a' Hr.
  destruct (Hs _ _ _ _ _ Hr) as [o Ho]. by exists o.
Qed.

Lemma consumeOne_sound {H} (handler : option (handler_fn H)) Step name h r h' a' :
  handler_steps handler Step -> consumeOne handler name h (newArtifactReader r) = (Ok tt, (h', a')) ->
  exists cs, Forall legal_chunk cs /\ len (concat cs) <= max_u64 /\ Step h name (concat cs) h' /\
    fileBytes a' = len (concat cs) /\ rd_end (stream a') = rd_end r /\
    rd_data r = chunks_bytes cs ++ generationsealer.file_end (len (concat cs)) ++ rd_data (stream a').
Proof.
  intros Hh Hc.
  assert (finished a' = true /\ exists o, reads (newArtifactReader r) o a' /\ Step h name o h') as [Hf (o & Ho & Hst)].
  { unfold consumeOne in Hc. destruct handler as [run|].
    - destruct (run name (h, newArtifactReader r)) as [[[]|e|] [h1 a1]] eqn:Er; try done.
      cbn [wrap] in Hc. destruct (finished a1) eqn:Hf; [|done]. injection Hc as -> ->.
      split; [done|]. destruct (Hh _ _ _ _ _ Er) as (o & Ho & Hs). eauto.
    - unfold drain in Hc. destruct (drain_loop _ _) as [[[]|e|] a1] eqn:Er; try done.
      injection Hc as -> ->. apply drain_loop_reads in Er as [? [o ?]]. eauto. }
  pose proof (reads_progress r _ _ _ Ho _ (progress_start r)) as Hp. clear Hc Ho.
  cbn [app] in Hp.
  inversion Hp as [|? ? ? ? ? ? ? ? ? ? Hx Hy|cs r' Hcs Hmax Hend Hdata Ho Ha]; subst;
    try (cbn in Hf; congruence).
  exists cs. done.
Qed.

(** A run over a list of artifacts. *)
Fixpoint steps_rel {H} (Step : H -> bytes -> bytes -> H -> Prop) (h : H)
    (fs : list (bytes * list bytes)) (h' : H) : Prop :=
  match fs with
  | [] => h = h'
  | f :: fs' => exists h1, Step h f.1 (concat f.2) h1 /\ steps_rel Step h1 fs' h'
  end.

(** Names strictly increasing, also after [previous] when there is one. *)
Definition sorted_after (previous : bytes) (names : list bytes) : Prop :=
  strictly_sorted names /\
  (previous <> [] -> Forall (fun n => bytes_ltb previous n = true) names).

Lemma sorted_after_cons previous name names :
  name <> [] -> (previous <> [] -> bytes_ltb previous name = true) ->
  sorted_after name names -> sorted_after previous (name :: names).
Proof.
  intros Hne Hp [Hs Hall]. specialize (Hall Hne). split.
  - constructor; [done|]. exact Hall.
  - intros Hq. constructor; [by apply Hp|]. eapply Forall_impl; [exact Hall|].
    intros x Hx. eapply bytes_ltb_trans; [by apply Hp|exact Hx].
Qed.

Lemma readCanonicalArtifactName_Ok position r name r' :
  readCanonicalArtifactName position r = (Ok name, r') ->
  valid_name name /\ rd_end r' = rd_end r /\
  rd_data r = PutUint32BE (len name) ++ name ++ rd_data r'.
Proof.
  unfold readCanonicalArtifactName. intros Hr.
  apply bind_read_Ok in Hr as (l & r1 & Hl & D1 & E1 & Hr); [|lia]. cbv zeta in Hr.
  destruct (_ || _) eqn:Eb in Hr; [done|].
  apply bind_read_Ok in Hr as (n & r2 & Hn & D2 & E2 & Hr); [|apply be_get_range].
  destruct (_ || _) eqn:Ec in Hr; [done|]. injection Hr as <- <-.
  bool_hyps. pose proof (be_get_range l). unfold valid_name.
  split_and!; try done; [lia|lia|congruence|].
  by rewrite D1, D2, Hn, PutUint32BE_get.
Qed.

Lemma readArtifacts_sound {H} (handler : option (handler_fn H)) Step count :
  handler_steps handler Step ->
  forall position previous sourceBytes h r n h' r',
  0 <= sourceBytes <= max_u64 ->
  readArtifacts handler count position previous sourceBytes (h, r) = (Ok n, (h', r')) ->
  exists fs, length fs = count /\ Forall valid_artifact fs /\ sorted_after previous fs.*1 /\
    rd_data r = artifacts_bytes fs ++ rd_data r' /\ rd_end r' = rd_end r /\
    n = sourceBytes + total_bytes fs /\ n <= max_u64 /\ steps_rel Step h fs h'.
Proof.
  intros Hh. induction count as [|count IH]; intros position previous sb h r n h' r' Hsb Hr.
  { injection Hr as <- <- <-. exists []. split_and!; try done; [split; [constructor|done]|simpl; lia|lia]. }
  cbn [readArtifacts] in Hr.
  destruct (readCanonicalArtifactName position r) as [[name|e|] r1] eqn:En; try done.
  apply readCanonicalArtifactName_Ok in En as (Hvn & He1 & Hd1).
  destruct (negb _ && _) eqn:Es in Hr; [done|].
  destruct (consumeOne handler name h (newArtifactReader r1)) as [[[]|e|] [h1 a1]] eqn:Ec; try done.
  apply (consumeOne_sound handler Step) in Ec as (cs & Hcs & Hmax & Hst & Hfb & He2 & Hd2); [|done].
  rewrite Hfb in Hr. destruct (max_u64 - sb <? _) eqn:Eo in Hr; [done|].
  pose proof (len_nonneg (concat cs)).
  rewrite u64_small in Hr by (unfold is_u64, max_u64 in *; lia).
  apply IH in Hr as (fs & Hlen & Hva & Hso & Hd3 & He3 & Hn & Hn' & Hsr); [|lia].
  exists ((name, cs) :: fs). split_and!; [simpl; by rewrite Hlen|by constructor| | | | |done|by exists h1].
  - cbn. apply sorted_after_cons; [|intros Hp|done].
    + intros Hnil. destruct Hvn as [[Hl _] _]. apply (f_equal len) in Hnil.
      change (len []) with 0 in Hnil. lia.
    + rewrite bool_decide_eq_false_2 in Es by done. cbn in Es.
      unfold bytes_leb in Es. by apply negb_false_iff.
  - rewrite Hd1, Hd2, Hd3. change (artifacts_bytes ((name, cs) :: fs)) with
      (generationsealer.artifact_bytes name cs ++ artifacts_bytes fs).
    unfold generationsealer.artifact_bytes. by rewrite <- !app_assoc.
  - congruence.
  - rewrite Hn, total_bytes_cons. unfold content. cbn [snd]. lia.
Qed.

Lemma ReadCanonicalArtifacts_steps `{U : Unicode} {H} (handler : option (handler_fn H)) Step d h r n h' r' :
  handler_steps handler Step ->
  ReadCanonicalArtifacts d handler (h, r) = (Ok n, (h', r')) ->
  exists fs, len fs = transportgeneration.ArtifactCount d /\
    0 < len fs <= maxReceiveArtifactCount /\ Forall valid_artifact fs /\
    strictly_sorted fs.*1 /\ n = total_bytes fs /\ n <= max_u64 /\
    rd_data r = generationsealer.canonical_bytes fs ++ rd_data r' /\ rd_end r' = rd_end r /\
    steps_rel Step h fs h' /\ transportgeneration.Validate d = Ok tt.
Proof.
  intros Hh Hr. unfold ReadCanonicalArtifacts in Hr.
  apply bind_lift_Ok in Hr as ([] & Hvd%wrap_Ok & Hr).
  apply bind_Ok in Hr as (magic & s1 & Hm & Hr). unfold on_stream at 1 in Hm.
  destruct (wrap_err _ _ r) as [x r1] eqn:E1. injection Hm as -> <-.
  apply wrap_err_Ok, ReadFull_Ok in E1 as (D1 & N1 & _).
  case_bool_decide; [|done]. cbn [negb] in Hr. subst magic.
  apply bind_Ok in Hr as (cb & s2 & Hc & Hr). unfold on_stream at 1 in Hc.
  destruct (wrap_err _ _ r1) as [x r2] eqn:E2. injection Hc as -> <-.
  apply wrap_err_Ok, ReadFull_Ok in E2 as (D2 & N2 & L2). specialize (L2 ltac:(lia)).
  destruct (negb _) eqn:Eq in Hr; [done|]. destruct (_ || _) eqn:Eb in Hr; [done|].
  bool_hyps. pose proof (be_get_range cb).
  apply (readArtifacts_sound handler Step) in Hr as (fs & Hlen & Hva & Hso & D3 & N3 & -> & Hn & Hsr);
    [|done|unfold max_u64; lia].
  assert (len fs = be_get cb) as Hfs by (unfold len; lia).
  exists fs. split_and!; try done; try lia; [apply Hso| |congruence].
  rewrite D1, D2, D3. unfold generationsealer.canonical_bytes. fold (artifacts_bytes fs).
  rewrite Hfs, PutUint64BE_get by done. by rewrite <- !app_assoc.
Qed.

Lemma ReadCanonicalArtifacts_Ok `{U : Unicode} {H} (handler : option (handler_fn H)) d h r n h' r' :
  handler_sound handler ->
  ReadCanonicalArtifacts d handler (h, r) = (Ok n, (h', r')) ->
  exists fs, len fs = transportgeneration.ArtifactCount d /\
    0 < len fs <= maxReceiveArtifactCount /\ Forall valid_artifact fs /\
    strictly_sorted fs.*1 /\ n = total_bytes fs /\ n <= max_u64 /\
    rd_data r = generationsealer.canonical_bytes fs ++ rd_data r' /\ rd_end r' = rd_end r.
Proof.
  intros Hh Hr.
  destruct (ReadCanonicalArtifacts_steps handler _ d h r n h' r' (handler_sound_steps handler Hh) Hr)
    as (fs & ? & ? & ? & ? & ? & ? & ? & ? & _). by exists fs.
Qed.

(** The canonical reader accepts only well-formed streams. For every handler
    that reads without ignoring errors (and for none), success of
    [ReadCanonicalArtifacts] means that what it consumed is exactly a canonical
    stream of [ArtifactCount] artifacts: valid names in strictly increasing order
    (so no duplicates), chunks of at most one MiB, the declared sizes right, and
    the returned count the sum of the sizes, without overflow. *)
Theorem ReadCanonicalArtifacts_sound `{U : Unicode} {H} (handler : option (handler_fn H)) d h r n h' r' :
  handler_sound handler ->
  ReadCanonicalArtifacts d handler (h, r) = (Ok n, (h', r')) ->
  exists fs, len fs = transportgeneration.ArtifactCount d /\
    0 < len fs <= maxReceiveArtifactCount /\ Forall valid_artifact fs /\
    strictly_sorted fs.*1 /\ n = total_bytes fs /\ n <= max_u64 /\
    rd_data r = generationsealer.canonical_bytes fs ++ rd_data r' /\ rd_end r' = rd_end r.
Proof. apply ReadCanonicalArtifacts_Ok. Qed.

(** ** Completeness *)

(** A handler that consumes whole artifacts and acts on their content. *)
Definition handler_runs {H} (handler : option (handler_fn H)) (step : H -> bytes -> bytes -> option H)
  : Prop :=
  forall name h h' a o rest e,
    expects a o rest e -> fileBytes a = 0 -> step h name o = Some h' ->
    consumeOne handler name h a = (Ok tt, (h', exhausted (len o) rest e)).

Fixpoint run_steps {H} (step : H -> bytes -> bytes -> option H) (h : H)
    (fs : list (bytes * list bytes)) : option H :=
  match fs with
  | [] => Some h
  | f :: fs' => match step h f.1 (content f) with
                | Some h' => run_steps step h' fs'
                | None => None
                end
  end.

Lemma no_handler_runs {H} : handler_runs (@None (handler_fn H)) (fun h _ _ => Some h).
Proof.
  intros name h h' a o rest e He Hf [= <-]. unfold consumeOne.
  rewrite (drain_expects _ _ _ _ He), Hf. done.
Qed.

Lemma readCanonicalArtifactName_layout position name rest e :
  valid_name name ->
  readCanonicalArtifactName position (Reader (PutUint32BE (len name) ++ name ++ rest) e) =
    (Ok name, Reader rest e).
Proof.
  intros (Hl & Hu & Hc). unfold readCanonicalArtifactName, maxCanonicalArtifactNameBytes in *.
  rewrite bind_read by apply len_PutUint32BE.
  rewrite be_get_PutUint32 by (unfold is_u32; lia).
  replace (_ || _) with false by lia. rewrite bind_read by done.
  by rewrite Hu, Hc.
Qed.

Lemma readArtifacts_complete {H} (handler : option (handler_fn H)) step fs :
  handler_runs handler step ->
  forall position previous sourceBytes h h' rest e,
  Forall valid_artifact fs -> sorted_after previous fs.*1 ->
  0 <= sourceBytes -> sourceBytes + total_bytes fs <= max_u64 -> run_steps step h fs = Some h' ->
  readArtifacts handler (length fs) position previous sourceBytes
    (h, Reader (artifacts_bytes fs ++ rest) e) =
    (Ok (sourceBytes + total_bytes fs), (h', Reader rest e)).
Proof.
  intros Hh. induction fs as [|[name cs] fs IH]; intros position previous sb h h' rest e Hva Hso Hsb
    Hmax Hrun.
  { injection Hrun as <-. simpl. unfold ret. by rewrite Z.add_0_r. }
  inversion Hva as [|? ? [Hvn Hcs] Hva']; subst. destruct Hso as [Hso Hprev].
  inversion Hso as [|? ? Hso' Hlt]; subst.
  cbn [length readArtifacts]. change (artifacts_bytes ((name, cs) :: fs)) with
      (generationsealer.artifact_bytes name cs ++ artifacts_bytes fs).
  unfold generationsealer.artifact_bytes. rewrite <- !app_assoc.
  rewrite readCanonicalArtifactName_layout by done.
  assert (negb (bool_decide (previous = [])) && bytes_leb name previous = false) as ->.
  { case_bool_decide as Hp; [done|]. specialize (Hprev Hp). inversion Hprev; subst.
    cbn in *. unfold bytes_leb. by apply negb_false_iff. }
  cbn [run_steps fst] in Hrun. destruct (step h name (content (name, cs))) as [h1|] eqn:Es; [|done].
  rewrite total_bytes_cons in *.
  pose proof (total_bytes_nonneg fs). pose proof (len_nonneg (concat cs)).
  unfold content in *. cbn [snd fst] in *.
  rewrite (Hh name h h1 _ (concat cs) (artifacts_bytes fs ++ rest) e); [| |done|done].
  2: { pose proof (expects_chunks cs 0 (artifacts_bytes fs ++ rest) e Hcs ltac:(lia)) as Hx.
       rewrite Z.add_0_l in Hx. unfold newArtifactReader. apply Hx. lia. }
  cbn [fileBytes exhausted stream]. replace (max_u64 - sb <? _) with false by lia.
  rewrite u64_small by (unfold is_u64, max_u64 in *; lia).
  rewrite IH with (h' := h'); [|done| |lia|lia|done].
  - by rewrite Z.add_assoc.
  - split; [done|]. by intros _.
Qed.

Lemma ReadCanonicalArtifacts_layout `{U : Unicode} {H} (handler : option (handler_fn H)) step d fs h h' rest e :
  handler_runs handler step -> transportgeneration.ValidDescriptor d ->
  transportgeneration.ArtifactCount d = len fs -> 0 < len fs <= maxReceiveArtifactCount ->
  Forall valid_artifact fs -> strictly_sorted fs.*1 -> total_bytes fs <= max_u64 ->
  run_steps step h fs = Some h' ->
  ReadCanonicalArtifacts d handler (h, Reader (generationsealer.canonical_bytes fs ++ rest) e) =
    (Ok (total_bytes fs), (h', Reader rest e)).
Proof.
  intros Hh Hd Hc Hn Hva Hso Hmax Hrun. unfold ReadCanonicalArtifacts.
  rewrite (bind_lift _ _ tt) by (by apply wrap_Ok, transportgeneration.generation_Validate_Ok).
  unfold generationsealer.canonical_bytes. fold (artifacts_bytes fs). rewrite <- !app_assoc.
  unfold bind at 1, on_stream at 1, wrap_err at 1. rewrite ReadFull_app by done.
  cbn [wrap]. rewrite bool_decide_eq_true_2 by done. cbn [negb].
  unfold bind at 1, on_stream at 1, wrap_err at 1. rewrite ReadFull_app by apply len_PutUint64BE.
  unfold maxReceiveArtifactCount in *. cbn [wrap].
  rewrite be_get_PutUint64 by (unfold is_u64; lia). rewrite Hc, Z.eqb_refl. cbn [negb].
  replace (_ || _) with false by lia.
  replace (Z.to_nat (len fs)) with (length fs) by (unfold len; lia).
  rewrite (readArtifacts_complete handler step fs Hh 0 [] 0 h h' rest e); done.
Qed.

(** Two artifacts, one of them empty, followed by trailing bytes. *)
Definition demoArtifacts : list (bytes * list bytes) :=
  [(bs "a.ndjson", [bs "one"; bs "two"]); (bs "b.ndjson", [])].
Definition demoStream : reader :=
  Reader (generationsealer.canonical_bytes demoArtifacts ++ bs "tail") EOF.

Lemma ReadCanonicalArtifacts_sound_witness :
  exists fs, len fs = 2 /\ strictly_sorted fs.*1 /\ total_bytes fs = 6 /\
    rd_data demoStream = generationsealer.canonical_bytes fs ++ bs "tail".
Proof.
  destruct (@ReadCanonicalArtifacts_sound asciiUnicode unit None transportgeneration.demoDescriptor
              tt demoStream 6 tt (Reader (bs "tail") EOF)) as (fs & H1 & _ & _ & H2 & H3 & _ & H4 & _).
  - exact I.
  - vm_compute. reflexivity.
  - exists fs. split_and!; [exact H1|exact H2|by symmetry|exact H4].
Defined.

End canonical.
