(* ===== verification/GenerationSealer.v ===== *)
(** * Sealing a frozen generation

    Models [Seal] of [go/internal/generationsealer/sealer.go] with its configuration
    check, its read limiter and its two layers of [io.MultiWriter], and
    [DescriptorFromSeal] of [go/internal/transportgeneration/sealer.go]. The frozen
    and the sealed directory are two [dir]s, so every system call on them can fail;
    the context and the clock are schedules the environment chooses. *)

From stdpp Require Import gmap.
From S2P Require Import Prelude GoBytes GoStrings Sha256 GoIO GoFS Pki TransportEncoding TransportGeneration GenerationCanonical.

Module sealer.
Import generationsealer.

Record Config := {
  FrozenDir : bytes;
  GenerationID : bytes;
  MaxReadBytesPerSecond : Z;
  SealedDir : bytes
}.

Record Result := {
  CanonicalBytes : Z;
  CanonicalSHA256 : bytes;
  Elapsed : Z;
  EncodedBytes : Z;
  EncodedSHA256 : bytes;
  FileCount : Z;
  ResultGenerationID : bytes;
  SealedPath : bytes;
  SourceBytes : Z
}.

(** What [os.Lstat] and [os.MkdirAll] report on the two directories themselves. *)
Record DirState := {
  FrozenInfo : res FileInfo;
  MkdirSealed : res unit;
  SealedInfo : res FileInfo
}.

Definition validateConfig `{Unicode} (config : Config) (ds : DirState) : res unit :=
  fail? bool_decide (TrimSpace (GenerationID config) = []) ||
        negb (utf8_ValidString (GenerationID config)) ||
        ContainsAny (GenerationID config) name_separators
    with Errorf "FI generation ID is invalid" ;;
  fail? bool_decide (FrozenDir config = []) || negb (filepath_IsAbs (FrozenDir config))
    with Errorf "FI frozen generation directory must be absolute" ;;
  fail? bool_decide (SealedDir config = []) || negb (filepath_IsAbs (SealedDir config))
    with Errorf "FI sealed generation directory must be absolute" ;;
  let? frozenInfo := wrap "inspect frozen FI generation directory: %w" (FrozenInfo ds) in
  fail? bool_decide (fi_kind frozenInfo = Symlink) || negb (bool_decide (fi_kind frozenInfo = Directory))
    with Errorf "FI frozen generation path must name a real directory" ;;
  check? wrap "create FI sealed generation directory: %w" (MkdirSealed ds) ;;
  let? sealedInfo := wrap "inspect FI sealed generation directory: %w" (SealedInfo ds) in
  fail? bool_decide (fi_kind sealedInfo = Symlink) || negb (bool_decide (fi_kind sealedInfo = Directory))
    with Errorf "FI sealed generation path must name a real directory" ;;
  Ok tt.

(** ** The environment: a context and a clock

    [ctx] answers the successive questions whether the context is done; [clock] holds
    the successive values of [time.Since], in nanoseconds. *)
Record env := Env { ctx : list (option error); clock : list Z }.

Definition ctx_Err : prog env unit := fun v =>
  match ctx v with
  | [] => (Ok tt, v)
  | None :: rest => (Ok tt, Env rest (clock v))
  | Some e :: rest => (Err e, Env rest (clock v))
  end.

Definition time_Since (v : env) : Z * env :=
  match clock v with
  | [] => (0, v)
  | t :: rest => (t, Env (ctx v) rest)
  end.

Definition Second : Z := 1000000000.

Record readLimiter := { limited_bytes : Z; limit : Z }.

Definition newReadLimiter (limit : Z) : readLimiter := {| limited_bytes := 0; limit := limit |}.

(** [target], a [time.Duration]: conversions and arithmetic wrap around. *)
Definition limiterTarget (bytes limit : Z) : Z :=
  let wholeSeconds := bytes / limit in
  let remainder := bytes mod limit in
  i64 (i64 (i64 wholeSeconds * Second) + i64 (u64 (remainder * Second) / limit)).

(** [Wait]: the select on the context and the timer is the answer of the context. *)
Definition Wait (count : Z) : prog (readLimiter * env) unit := fun '(l, v) =>
  if (limit l =? 0) || (count =? 0) then (Ok tt, (l, v))
  else if max_u64 - limited_bytes l <? count then
    (Err (Errorf "FI generation read limiter byte counter overflow"), (l, v))
  else
    let l := {| limited_bytes := u64 (limited_bytes l + count); limit := limit l |} in
    let '(elapsed, v) := time_Since v in
    let delay := i64 (limiterTarget (limited_bytes l) (limit l) - elapsed) in
    if delay <=? 0 then (Ok tt, (l, v))
    else let '(r, v) := ctx_Err v in (r, (l, v)).

(** ** The two layers of writers *)

Section Sealing.
Context `{Unicode} `{Zstd}.

(** [io.MultiWriter(encoded, encodedHasher, encodedCounter)]: the provisional file, a
    hash of what it was given and a counter. *)
Record sink := Sink {
  sk_dir : dir;
  sk_file : nat;
  sk_hasher : bytes;
  sk_counter : Z
}.

Definition sink_Write (p : bytes) : prog sink unit := fun k =>
  match FileWrite (sk_file k) p (sk_dir k) with
  | (Ok _, d) =>
      match countWriter_Write p (sk_counter k) with
      | Ok n => (Ok tt, Sink d (sk_file k) (sk_hasher k ++ p) n)
      | Err e => (Err e, Sink d (sk_file k) (sk_hasher k ++ p) (sk_counter k))
      | Panic => (Panic, Sink d (sk_file k) (sk_hasher k ++ p) (sk_counter k))
      end
  | (Err e, d) => (Err e, Sink d (sk_file k) (sk_hasher k) (sk_counter k))
  | (Panic, d) => (Panic, Sink d (sk_file k) (sk_hasher k) (sk_counter k))
  end.

Fixpoint sink_Writes (ps : list bytes) : prog sink unit :=
  match ps with
  | [] => ret tt
  | p :: ps' => check! sink_Write p ;; sink_Writes ps'
  end.

(** [io.MultiWriter(encoder, canonicalHasher, canonicalCounter)]. *)
Record stream_sink := StreamSink {
  ss_encoder : zstd_encoder;
  ss_sink : sink;
  ss_hasher : bytes;
  ss_counter : Z
}.

Definition stream_Write (p : bytes) (w : stream_sink) : (Z * option error) * stream_sink :=
  let '(outs, enc) := zstd_Write p (ss_encoder w) in
  match sink_Writes outs (ss_sink w) with
  | (Ok _, k) =>
      match countWriter_Write p (ss_counter w) with
      | Ok n => ((len p, None), StreamSink enc k (ss_hasher w ++ p) n)
      | Err e => ((0, Some e), StreamSink enc k (ss_hasher w ++ p) (ss_counter w))
      | Panic => ((0, Some EIO), StreamSink enc k (ss_hasher w ++ p) (ss_counter w))
      end
  | (Err e, k) => ((0, Some e), StreamSink enc k (ss_hasher w) (ss_counter w))
  | (Panic, k) => ((0, Some EIO), StreamSink enc k (ss_hasher w) (ss_counter w))
  end.

#[global] Instance stream_Writer : Writer stream_sink := {| Write := stream_Write |}.

(** [encoder.Close()]. *)
Definition encoder_Close : prog stream_sink unit := fun w =>
  let '(r, k) := sink_Writes (zstd_Close (ss_encoder w)) (ss_sink w) in
  (r, StreamSink (ss_encoder w) k (ss_hasher w) (ss_counter w)).

(** ** [Seal] *)

(** The variables the body and the deferred function share. *)
Record seal_state := SealState {
  st_frozen : dir;
  st_out : stream_sink;
  st_limiter : readLimiter;
  st_env : env;
  encodedOpen : bool;
  keepEncoded : bool
}.

Definition on_frozen {A} (p : prog dir A) : prog seal_state A := fun s =>
  let '(r, d) := p (st_frozen s) in
  (r, SealState d (st_out s) (st_limiter s) (st_env s) (encodedOpen s) (keepEncoded s)).
Definition on_out {A} (p : prog stream_sink A) : prog seal_state A := fun s =>
  let '(r, o) := p (st_out s) in
  (r, SealState (st_frozen s) o (st_limiter s) (st_env s) (encodedOpen s) (keepEncoded s)).
Definition on_sealed {A} (p : prog dir A) : prog seal_state A := on_out (fun w =>
  let k := ss_sink w in
  let '(r, d) := p (sk_dir k) in
  (r, StreamSink (ss_encoder w) (Sink d (sk_file k) (sk_hasher k) (sk_counter k))
        (ss_hasher w) (ss_counter w))).
Definition on_env {A} (p : prog env A) : prog seal_state A := fun s =>
  let '(r, v) := p (st_env s) in
  (r, SealState (st_frozen s) (st_out s) (st_limiter s) v (encodedOpen s) (keepEncoded s)).
Definition on_limiter {A} (p : prog (readLimiter * env) A) : prog seal_state A := fun s =>
  let '(r, (l, v)) := p (st_limiter s, st_env s) in
  (r, SealState (st_frozen s) (st_out s) l v (encodedOpen s) (keepEncoded s)).
Definition set_flags (o k : bool) : prog seal_state unit := fun s =>
  (Ok tt, SealState (st_frozen s) (st_out s) (st_limiter s) (st_env s) o k).

(** [if err := p; err != nil { cleanup; return err }], the results of the clean-up
    ignored. *)
Definition or_else {S A B} (p : prog S A) (cleanup : prog S B) : prog S A := fun s =>
  match p s with
  | (Err e, s') => (Err e, (cleanup s').2)
  | r => r
  end.

(** The directory entries, as the loop over [entries] takes them. *)
Fixpoint checkEntries (entries : list (bytes * file_kind)) : res (list bytes) :=
  match entries with
  | [] => Ok []
  | (name, kind) :: rest =>
      fail? negb (validEntryName name)
        with Errorf "frozen FI generation contains invalid artifact name %q" ;;
      fail? bool_decide (kind = Symlink) with Errorf "frozen FI generation contains symlink %q" ;;
      fail? bool_decide (kind = Directory)
        with Errorf "frozen FI generation contains nested directory %q" ;;
      fail? negb (bool_decide (kind = Regular))
        with Errorf "frozen FI generation contains unsupported artifact %q" ;;
      let? names := checkEntries rest in
      Ok (name :: names)
  end.

(** The read loop of one artifact. A turn that does not end it takes one MiB off the
    file, so the length of the file bounds the turns. *)
Fixpoint copyChunks (fuel : nat) (fileBytes sourceBytes : Z) (file : reader)
  : prog seal_state (Z * Z) :=
  match fuel with
  | O => lift Panic
  | S fuel' =>
      let '((buffer, readErr), file) := ReadFullN canonicalChunkBytes file in
      let n := len buffer in
      let! (fileBytes, sourceBytes) :=
        (if 0 <? n then
           check! on_out (writeCanonicalChunk buffer) ;;
           check! on_limiter (Wait n) ;;
           ret (u64 (fileBytes + n), u64 (sourceBytes + n))
         else ret (fileBytes, sourceBytes)) in
      match readErr with
      | None => copyChunks fuel' fileBytes sourceBytes file
      | Some e =>
          if errors_Is e EOF || errors_Is e ErrUnexpectedEOF then ret (fileBytes, sourceBytes)
          else throw (Wrap "read frozen FI artifact %q: %w" e)
      end
  end.

(** One turn of [for _, name := range names]. *)
Definition sealArtifact (name : bytes) (sourceBytes : Z) : prog seal_state Z :=
  or_else
    (check! on_env ctx_Err ;;
     check! on_out (writeCanonicalFileStart name) ;;
     let! file := wrap_err "open frozen FI artifact %q: %w" (on_frozen (Open name)) in
     let! (fileBytes, sourceBytes) :=
       or_else (let! r := on_frozen (file_reader file) in
                copyChunks (S (length (rd_data r))) 0 sourceBytes r)
               (on_frozen Close) in
     check! wrap_err "close frozen FI artifact %q: %w" (on_frozen Close) ;;
     check! on_out (writeCanonicalFileEnd fileBytes) ;;
     ret sourceBytes)
    (on_out encoder_Close).

Fixpoint sealArtifacts (names : list bytes) (sourceBytes : Z) : prog seal_state Z :=
  match names with
  | [] => ret sourceBytes
  | name :: rest =>
      let! sourceBytes := sealArtifact name sourceBytes in
      sealArtifacts rest sourceBytes
  end.

(** From the end of the stream to the publication. *)
Definition finishSeal (config : Config) (names : list bytes) (finalName tempName : bytes)
    (sourceBytes : Z) : prog seal_state Result :=
  check! wrap_err "finish FI generation zstd stream: %w" (on_out encoder_Close) ;;
  fun s => (
    let k := ss_sink (st_out s) in
    fail! sk_counter k =? 0 with Errorf "sealed FI generation encoded zero bytes" ;;
    check! wrap_err "sync sealed FI generation: %w" (on_sealed (Sync (sk_file k))) ;;
    check! wrap_err "close sealed FI generation: %w" (on_sealed Close) ;;
    check! set_flags false false ;;
    check! wrap_err "publish sealed FI generation: %w" (on_sealed (Rename tempName finalName)) ;;
    check! set_flags false true ;;
    let! elapsed := on_env (fun v => let '(t, v) := time_Since v in (Ok t, v)) in
    ret {| CanonicalBytes := ss_counter (st_out s);
           CanonicalSHA256 := hex_encode (sha256 (ss_hasher (st_out s)));
           Elapsed := elapsed;
           EncodedBytes := sk_counter k;
           EncodedSHA256 := hex_encode (sha256 (sk_hasher k));
           FileCount := len names;
           ResultGenerationID := GenerationID config;
           SealedPath := filepath_Join (SealedDir config) finalName;
           SourceBytes := sourceBytes |}) s.

(** From the first byte on. *)
Definition sealBody (config : Config) (names : list bytes) (finalName tempName : bytes)
  : prog seal_state Result :=
  check! or_else (on_out (writeCanonicalHeader (len names))) (on_out encoder_Close) ;;
  let! sourceBytes := sealArtifacts names 0 in
  finishSeal config names finalName tempName sourceBytes.

(** The deferred function, on the sealed directory. *)
Definition sealDefer (tempName : bytes) (encodedOpen keepEncoded : bool) (d : dir) : dir :=
  let d := if encodedOpen then (Close d).2 else d in
  if negb keepEncoded then (Remove tempName d).2 else d.

Definition sealedName (config : Config) : bytes :=
  bs "generation-" ++ GenerationID config ++ sealedExtension.

(** [Seal], over the frozen directory, the sealed directory and the environment. *)
Definition Seal (config : Config) (ds : DirState) : prog (dir * dir * env) Result :=
  fun '(frozen, sealed, v) =>
  match validateConfig config ds with
  | Err e => (Err e, (frozen, sealed, v))
  | Panic => (Panic, (frozen, sealed, v))
  | Ok _ =>
  match wrap_err "read frozen FI generation directory: %w" ReadDir frozen with
  | (Err e, frozen) => (Err e, (frozen, sealed, v))
  | (Panic, frozen) => (Panic, (frozen, sealed, v))
  | (Ok entries, frozen) =>
  match (let? names := checkEntries entries in
         fail? len names =? 0 with Errorf "frozen FI generation contains no artifacts" ;;
         Ok (sort_Strings names)) with
  | Err e => (Err e, (frozen, sealed, v))
  | Panic => (Panic, (frozen, sealed, v))
  | Ok names =>
  match Lstat (sealedName config) sealed with
  | (Ok _, sealed) => (Err (Errorf "sealed FI generation already exists"), (frozen, sealed, v))
  | (Panic, sealed) => (Panic, (frozen, sealed, v))
  | (Err e, sealed) =>
  if negb (errors_Is e ErrNotExist) then
    (Err (Wrap "inspect sealed FI generation path: %w" e), (frozen, sealed, v))
  else
  match wrap_err "create provisional sealed FI generation: %w"
          (CreateTemp (bs ".generation-" ++ GenerationID config ++ bs "-") (bs ".open")) sealed with
  | (Err e, sealed) => (Err e, (frozen, sealed, v))
  | (Panic, sealed) => (Panic, (frozen, sealed, v))
  | (Ok (tempName, encoded), sealed) =>
  match transportencoding.NewZstdEncoder with
  | Ok encoder =>
      let s := SealState frozen (StreamSink encoder (Sink sealed encoded [] 0) [] 0)
                 (newReadLimiter (MaxReadBytesPerSecond config)) v true false in
      let '(r, s) := sealBody config names (sealedName config) tempName s in
      (r, (st_frozen s,
           sealDefer tempName (encodedOpen s) (keepEncoded s) (sk_dir (ss_sink (st_out s))), st_env s))
  | Err e => (Err e, (frozen, sealDefer tempName true false sealed, v))
  | Panic => (Panic, (frozen, sealDefer tempName true false sealed, v))
  end end end end end end.

(** ** [DescriptorFromSeal] *)

Definition DescriptorFromSeal (sourceID : bytes) (result : Result)
  : res transportgeneration.Descriptor :=
  fail? negb (bool_decide (generationsealer.CanonicalVersion = transportgeneration.CanonicalVersion))
    with Errorf "generation sealer canonical version %q does not match transport generation canonical version %q" ;;
  fail? bool_decide (SealedPath result = []) with Errorf "sealed generation path is required" ;;
  let descriptor := {|
    transportgeneration.Version := transportgeneration.DescriptorVersion;
    transportgeneration.SourceID := sourceID;
    transportgeneration.GenerationID := ResultGenerationID result;
    transportgeneration.DescriptorCanonicalVersion := generationsealer.CanonicalVersion;
    transportgeneration.DataEncoding := transportencoding.DataEncodingZstd;
    transportgeneration.ArtifactCount := FileCount result;
    transportgeneration.SourceBytes := SourceBytes result;
    transportgeneration.CanonicalBytes := CanonicalBytes result;
    transportgeneration.CanonicalSHA256 := CanonicalSHA256 result;
    transportgeneration.EncodedDataBytes := EncodedBytes result;
    transportgeneration.EncodedDataSHA256 := EncodedSHA256 result |} in
  check? wrap "validate descriptor from sealed generation: %w"
           (transportgeneration.Validate descriptor) ;;
  Ok descriptor.

End Sealing.

(** ** What a run leaves behind *)

Section Runs.
Context `{Unicode} `{Zstd}.

(** The frozen directory, the sealed directory once the provisional file exists, that
    file, and the fresh encoder. *)
Variables (f0 d0 : dir) (ino : nat) (enc0 : zstd_encoder).

(** [d] differs from [d0] only in the provisional file and in the faults to come. *)
Definition same_but (d : dir) : Prop :=
  names d = names d0 /\ durable d = durable d0 /\ next_ino d = next_ino d0 /\
  (forall j, j <> ino -> inodes d !! j = inodes d0 !! j) /\
  exists nd, inodes d !! ino = Some nd /\ i_kind nd = Regular.

Fixpoint enc_after (ps : list bytes) (enc : zstd_encoder) : zstd_encoder :=
  match ps with [] => enc | p :: ps' => enc_after ps' (zstd_Write p enc).2 end.
Fixpoint enc_outs (ps : list bytes) (enc : zstd_encoder) : bytes :=
  match ps with
  | [] => []
  | p :: ps' => concat (zstd_Write p enc).1 ++ enc_outs ps' (zstd_Write p enc).2
  end.

Lemma enc_after_app ps qs enc : enc_after (ps ++ qs) enc = enc_after qs (enc_after ps enc).
Proof. revert enc. induction ps as [|p ps IH]; intros enc; [done|]. cbn. apply IH. Qed.

Lemma enc_outs_app ps qs enc :
  enc_outs (ps ++ qs) enc = enc_outs ps enc ++ enc_outs qs (enc_after ps enc).
Proof. revert enc. induction ps as [|p ps IH]; intros enc; [done|]. cbn. by rewrite IH, app_assoc. Qed.

Lemma encoded_outs ps enc :
  transportencoding.encoded ps enc = enc_outs ps enc ++ concat (zstd_Close (enc_after ps enc)).
Proof. revert enc. induction ps as [|p ps IH]; intros enc; [done|]. cbn. by rewrite IH, app_assoc. Qed.

(** The lower writer has taken exactly [out]. *)
Definition sink_frame (k : sink) : Prop := sk_file k = ino /\ same_but (sk_dir k).
Definition sink_inv (out : bytes) (k : sink) : Prop :=
  sink_frame k /\ sk_hasher k = out /\ sk_counter k = len out /\ len out <= max_u64 /\
  exists nd, inodes (sk_dir k) !! ino = Some nd /\ i_data nd = out.

(** The upper writer has taken the writes [ps]. *)
Definition out_inv (ps : list bytes) (w : stream_sink) : Prop :=
  sink_inv (enc_outs ps enc0) (ss_sink w) /\ ss_encoder w = enc_after ps enc0 /\
  ss_hasher w = concat ps /\ ss_counter w = len (concat ps) /\ len (concat ps) <= max_u64.

(** Both counters can hold the writes [ws]: what they write, and what the encoder makes of it. *)
Definition fits (ws : list bytes) : Prop :=
  len (concat ws) <= max_u64 /\ len (enc_outs ws enc0) <= max_u64.

(** No system call will fail. *)
Definition quiet_sink (k : sink) : Prop := faults (sk_dir k) = [].

Lemma countWriter_cases p n :
  0 <= n -> n <= max_u64 ->
  (n + len p <= max_u64 /\ countWriter_Write p n = Ok (n + len p)) \/
  (max_u64 < n + len p /\ exists e, countWriter_Write p n = Err e).
Proof.
  intros Hn Hm. unfold countWriter_Write. pose proof (len_nonneg p).
  destruct (max_u64 - n <? len p) eqn:E; [right; split; [lia|by eexists]|]. left. split; [lia|].
  unfold max_u64 in *. rewrite u64_small by (unfold is_u64; lia). done.
Qed.

Lemma FileWrite_frame p d :
  same_but d -> same_but (FileWrite ino p d).2 /\
  match FileWrite ino p d with
  | (Ok _, d') => exists nd nd', inodes d !! ino = Some nd /\ inodes d' !! ino = Some nd' /\
                    i_data nd' = i_data nd ++ p /\ (faults d = [] -> faults d' = [])
  | (Err _, _) => faults d <> []
  | (Panic, _) => False
  end.
Proof.
  intros (H1 & H2 & H3 & H4 & nd & H5 & H6). unfold FileWrite, next_fault, bind, update_inode, throw.
  destruct d as [nm du ind nx fl]. cbn in *.
  assert (forall q fl', same_but (Dir nm du (<[ino := Inode (i_kind nd) (i_perm nd) (i_data nd ++ q) false]> ind)
     nx fl')) as Hsame.
  { intros q fl'. split_and!; cbn; try done.
    - intros j Hj. rewrite lookup_insert_ne by done. by apply H4.
    - eexists. rewrite lookup_insert_eq. done. }
  destruct fl as [|[k|] fl]; cbn; rewrite H5; cbn; (split; [apply Hsame|]); try done;
    (exists nd; eexists; rewrite lookup_insert_eq; split_and!; [done|done|done|]; done).
Qed.

Lemma sink_Write_frame p k :
  sink_frame k -> sink_frame (sink_Write p k).2.
Proof.
  intros [Hf Hs]. unfold sink_Write. rewrite Hf. pose proof (FileWrite_frame p _ Hs) as [Hs' _].
  destruct (FileWrite ino p (sk_dir k)) as [[|e|] d]; cbn in *; try done.
  destruct (countWriter_Write p (sk_counter k)); done.
Qed.

Lemma sink_Writes_frame ps k : sink_frame k -> sink_frame (sink_Writes ps k).2.
Proof.
  revert k. induction ps as [|p ps IH]; intros k Hk; [done|]. cbn [sink_Writes]. unfold bind.
  pose proof (sink_Write_frame p k Hk) as Hk'.
  destruct (sink_Write p k) as [[[]|e|] k']; cbn in *; [by apply IH|done..].
Qed.

Lemma sink_Write_inv out p k :
  sink_inv out k ->
  match sink_Write p k with
  | (Ok _, k') => sink_inv (out ++ p) k' /\ (quiet_sink k -> quiet_sink k')
  | (Err e, k') => sink_frame k' /\ (quiet_sink k -> max_u64 < len (out ++ p))
  | (Panic, _) => False
  end.
Proof.
  intros (Hf & Hh & Hc & Hm & nd & Hn & Hd).
  destruct Hf as [Hf Hs]. unfold sink_Write. rewrite Hf.
  pose proof (FileWrite_frame p _ Hs) as [Hs' Hw].
  destruct (FileWrite ino p (sk_dir k)) as [[|e|] d]; cbn [fst snd] in *; [| |done].
  - destruct Hw as (nd1 & nd' & E1 & E2 & E3 & Hq). rewrite Hn in E1. injection E1 as <-.
    destruct (countWriter_cases p (sk_counter k)) as [[Hle ->]|[Hgt [e ->]]]; [rewrite Hc; apply len_nonneg|lia| |].
    + split; [|exact Hq]. split; [by split|]. cbn. rewrite len_app. split_and!; try congruence; try lia.
      exists nd'. split; [done|]. congruence.
    + split; [by split|]. intros _. rewrite len_app. lia.
  - split; [by split|]. intros Hq. by destruct Hw.
Qed.

Lemma sink_Writes_inv out ps k :
  sink_inv out k ->
  match sink_Writes ps k with
  | (Ok _, k') => sink_inv (out ++ concat ps) k' /\ (quiet_sink k -> quiet_sink k')
  | (Err e, k') => sink_frame k' /\ (quiet_sink k -> max_u64 < len (out ++ concat ps))
  | (Panic, _) => False
  end.
Proof.
  revert out k. induction ps as [|p ps IH]; intros out k Hk.
  { cbn. by rewrite app_nil_r. }
  cbn [sink_Writes]. unfold bind. pose proof (sink_Write_inv out p k Hk) as Hw.
  change (concat (p :: ps)) with (p ++ concat ps).
  destruct (sink_Write p k) as [[[]|e|] k']; [| |done].
  2: { destruct Hw as [Hf Hq]. split; [done|]. intros Q%Hq. rewrite !len_app in *. pose proof (len_nonneg (concat ps)). lia. }
  destruct Hw as [Hk' Hq]. specialize (IH (out ++ p) k' Hk'). rewrite <- app_assoc in IH.
  destruct (sink_Writes ps k') as [[|e|] k'']; try done; destruct IH; split; auto.
Qed.

(** A program run against an invariant indexed by the writes so far: success appends
    writes described by [Q]; failure keeps the frame; a quiet state stays quiet, and in a
    quiet state only an overflow can fail: a beginning [qs] of writes that [Q] describes is
    more than a counter can hold. *)
Definition runs {S A} (inv : list bytes -> S -> Prop) (frame quiet : S -> Prop)
    (p : prog S A) (Q : A -> bytes -> Prop) : Prop :=
  forall ps s, inv ps s ->
  match p s with
  | (Ok a, s') => exists qs, Q a (concat qs) /\ inv (ps ++ qs) s' /\ (quiet s -> quiet s')
  | (Err e, s') => frame s' /\ (quiet s -> exists a qs rest, Q a (concat qs ++ rest) /\ ~ fits (ps ++ qs))
  | (Panic, _) => False
  end.

Section Rules.
Context {S : Type} (inv : list bytes -> S -> Prop) (frame quiet : S -> Prop).
Hypothesis inv_frame : forall ps s, inv ps s -> frame s.

Lemma runs_ret {A} (a : A) (Q : A -> bytes -> Prop) : Q a [] -> runs inv frame quiet (ret a) Q.
Proof. intros HQ ps s Hs. cbn. exists []. by rewrite app_nil_r. Qed.

Lemma runs_ext {A} (p q : prog S A) (Q : A -> bytes -> Prop) :
  (forall s, p s = q s) -> runs inv frame quiet p Q -> runs inv frame quiet q Q.
Proof. intros E Hp ps s Hs. rewrite <- E. by apply Hp. Qed.

Lemma runs_weaken {A} (p : prog S A) (Q R : A -> bytes -> Prop) :
  runs inv frame quiet p Q -> (forall a o, Q a o -> R a o) -> runs inv frame quiet p R.
Proof.
  intros Hp HQ ps s Hs. specialize (Hp ps s Hs). destruct (p s) as [[a|e|] s']; [| |done].
  - destruct Hp as (qs & ? & ?). eauto.
  - destruct Hp as [Hf Hq]. split; [done|]. intros (a & qs & rest & ? & ?)%Hq. eauto 7.
Qed.

Lemma runs_bind {A B} (p : prog S A) (k : A -> prog S B) (Q : A -> bytes -> Prop) (R : B -> bytes -> Prop) :
  runs inv frame quiet p Q ->
  (forall a o, Q a o -> runs inv frame quiet (k a) (fun b o' => R b (o ++ o'))) ->
  (forall s, quiet s -> forall a o, Q a o -> exists b o', R b (o ++ o')) ->
  runs inv frame quiet (bind p k) R.
Proof.
  intros Hp Hk HR ps s Hs. unfold bind. specialize (Hp ps s Hs).
  destruct (p s) as [[a|e|] s']; [| |done].
  2: { destruct Hp as [Hf Hq]. split; [done|]. intros Q0. destruct (Hq Q0) as (a & qs & rest & HQ & Hn).
       destruct (HR s Q0 a _ HQ) as (b & o' & Hb). exists b, qs, (rest ++ o'). by rewrite app_assoc. }
  destruct Hp as (qs & HQ & Hs' & Hq). specialize (Hk a _ HQ _ s' Hs').
  destruct (k a s') as [[b|e|] s'']; [| |done].
  - destruct Hk as (rs & Hb & Hs'' & Hq'). exists (qs ++ rs). rewrite concat_app, app_assoc. auto.
  - destruct Hk as [Hf Hq']. split; [done|]. intros Q0. destruct (Hq' (Hq Q0)) as (b & rs & rest & Hb & Hn).
    exists b, (qs ++ rs), rest. by rewrite concat_app, <- !app_assoc in *.
Qed.

Lemma runs_quiet {A} (P : Prop) (p : prog S A) (Q : A -> bytes -> Prop) :
  runs inv frame quiet p Q -> runs inv frame (fun s => quiet s /\ P) p Q.
Proof.
  intros Hp ps s Hs. specialize (Hp ps s Hs). destruct (p s) as [[a|e|] s']; [|naive_solver..].
  destruct Hp as (qs & ? & ? & Hq). exists qs. split_and!; [done|done|]. intros []; auto.
Qed.

Lemma runs_wrap {A} msg (p : prog S A) (Q : A -> bytes -> Prop) :
  runs inv frame quiet p Q -> runs inv frame quiet (wrap_err msg p) Q.
Proof.
  intros Hp ps s Hs. unfold wrap_err. specialize (Hp ps s Hs).
  destruct (p s) as [[a|e|] s']; cbn [wrap]; [done| |done].
  exact Hp.
Qed.

Lemma runs_or_else {A B} (p : prog S A) (c : prog S B) (Q : A -> bytes -> Prop) :
  runs inv frame quiet p Q -> (forall s, frame s -> frame (c s).2) ->
  runs inv frame quiet (or_else p c) Q.
Proof.
  intros Hp Hc ps s Hs. unfold or_else. specialize (Hp ps s Hs).
  destruct (p s) as [[a|e|] s']; [done| |done]. destruct Hp. auto.
Qed.
End Rules.

(** ** The framing writers *)

Definition out_frame (w : stream_sink) : Prop := sink_frame (ss_sink w).
Definition quiet_out (w : stream_sink) : Prop := quiet_sink (ss_sink w).
Abbreviation outputs := (runs out_inv out_frame quiet_out).

Lemma out_inv_frame ps w : out_inv ps w -> out_frame w.
Proof. by intros [[Hf _] _]. Qed.

Lemma write1_outputs p : outputs (write1 p) (fun _ o => p = o).
Proof.
  intros ps w (Hk & He & Hh & Hc & Hm). unfold write1. cbn [Write stream_Writer]. unfold stream_Write.
  rewrite He. destruct (zstd_Write p (enc_after ps enc0)) as [outs enc] eqn:Ez.
  assert (enc_outs (ps ++ [p]) enc0 = enc_outs ps enc0 ++ concat outs) as Eo.
  { rewrite enc_outs_app. cbn [enc_outs]. by rewrite Ez, app_nil_r. }
  assert (concat (ps ++ [p]) = concat ps ++ p) as Ep by (rewrite concat_app; cbn [concat]; by rewrite app_nil_r).
  assert (forall P : Prop, (P -> ~ fits (ps ++ [p])) -> P -> exists (a : unit) qs rest, p = concat qs ++ rest /\ ~ fits (ps ++ qs)) as Hover.
  { intros P HP HP'. exists tt, [p], []. cbn [concat]. rewrite !app_nil_r. auto. }
  unfold fits in Hover. rewrite Eo, Ep in Hover. pose proof (sink_Writes_inv _ outs _ Hk) as Hw.
  destruct (sink_Writes outs (ss_sink w)) as [[[]|e|] k]; [| |done].
  2: { destruct Hw as [Hf Hq]. split; [done|]. apply Hover. intros Q%Hq. lia. }
  destruct Hw as [Hk' Hq].
  destruct (countWriter_cases p (ss_counter w)) as [[Hle ->]|[Hgt [e ->]]];
    [rewrite Hc; apply len_nonneg|lia| |split; [apply Hk'|apply Hover; intros _; rewrite len_app; lia]].
  exists [p]. cbn [concat]. rewrite app_nil_r. split; [done|]. split; [|exact Hq].
  unfold out_inv. cbn [ss_sink ss_encoder ss_hasher ss_counter].
  rewrite Eo, Ep, enc_after_app. cbn [enc_after]. rewrite Ez, len_app. split_and!; try done; [by rewrite Hh|lia|lia].
Qed.

Lemma outputs_seq p q o1 o2 :
  outputs p (fun _ : unit => eq o1) -> outputs q (fun _ : unit => eq o2) ->
  outputs (check! p ;; q) (fun _ => eq (o1 ++ o2)).
Proof.
  intros Hp Hq. eapply runs_bind; [exact Hp| |].
  - intros [] o <-. eapply runs_weaken; [exact Hq|]. by intros [] o <-.
  - intros _ _ [] o <-. by exists tt, o2.
Qed.

Lemma header_outputs n : outputs (writeCanonicalHeader n) (fun _ => eq (canonicalMagic ++ PutUint64BE n)).
Proof. apply outputs_seq; apply write1_outputs. Qed.

Lemma chunk_outputs c : legal_chunk c -> outputs (writeCanonicalChunk c) (fun _ => eq (chunk_bytes c)).
Proof.
  intros [Hc1 Hc2]. unfold writeCanonicalChunk, canonicalChunkBytes in *.
  replace (len c =? 0) with false by lia.
  rewrite u32_small by (unfold is_u32; lia). apply outputs_seq; apply write1_outputs.
Qed.

Lemma fileEnd_outputs n : outputs (writeCanonicalFileEnd n) (fun _ => eq (file_end n)).
Proof. apply outputs_seq; apply write1_outputs. Qed.

(** ** The whole state *)

Definition frozen_same (d : dir) : Prop := exists fs, d = set_faults fs f0.

(** The limiter has counted no more than was written. *)
Definition seal_inv (ps : list bytes) (s : seal_state) : Prop :=
  frozen_same (st_frozen s) /\ out_inv ps (st_out s) /\ encodedOpen s = true /\ keepEncoded s = false /\
  0 <= limited_bytes (st_limiter s) <= len (concat ps).
Definition seal_frame (s : seal_state) : Prop :=
  frozen_same (st_frozen s) /\ out_frame (st_out s) /\ keepEncoded s = false.
(** The names of the frozen directory can be framed. *)
Definition short_names : Prop := forall n i, names f0 !! n = Some i -> len n < 2 ^ 32.
(** No fault to come, a context that is never done, and no name too long. *)
Definition quiet (s : seal_state) : Prop :=
  faults (st_frozen s) = [] /\ quiet_out (st_out s) /\ Forall (eq None) (ctx (st_env s)) /\ short_names.
Abbreviation seals := (runs seal_inv seal_frame quiet).

Lemma seal_inv_frame ps s : seal_inv ps s -> seal_frame s.
Proof. intros (Hf & Ho & _ & Hk & _). split_and!; [done|by eapply out_inv_frame|done]. Qed.

Lemma on_out_seals {A} (p : prog stream_sink A) Q : outputs p Q -> seals (on_out p) Q.
Proof.
  intros Hp ps s (Hf & Ho & H1 & H2 & Hl). unfold on_out. specialize (Hp ps _ Ho).
  destruct (p (st_out s)) as [[a|e|] o].
  - destruct Hp as (qs & HQ & Ho' & Hq). exists qs. pose proof (len_nonneg (concat qs)).
    split_and!; try done; [split_and!; try done; cbn; rewrite ?concat_app, ?len_app; lia|].
    intros (Q1 & Q2 & Q3 & Q4). split_and!; auto.
  - destruct Hp as [Hf' Hq]. split; [done|]. intros (_ & Q2 & _). auto.
  - done.
Qed.

Lemma on_frozen_seals {A} (p : prog dir A) (Q : A -> Prop) :
  (forall fs, frozen_same (p (set_faults fs f0)).2 /\
    (fs = [] -> faults (p (set_faults fs f0)).2 = []) /\
    match (p (set_faults fs f0)).1 with
    | Ok a => Q a
    | Err _ => fs <> []
    | Panic => False
    end) ->
  seals (on_frozen p) (fun a o => o = [] /\ Q a).
Proof.
  intros Hp ps s ([fs Hf] & Ho & H1 & H2 & Hl). unfold on_frozen. rewrite Hf.
  specialize (Hp fs) as (P1 & P2 & P3). destruct (p (set_faults fs f0)) as [[a|e|] d]; cbn in *.
  - exists []. rewrite app_nil_r. split_and!; try done. intros (Q1 & Q2 & Q3 & Q4).
    rewrite Hf in Q1. split_and!; auto.
  - split; [split_and!; [done|by eapply out_inv_frame|done]|]. intros (Q1 & _). by rewrite Hf in Q1.
  - done.
Qed.

Lemma Close_seals : seals (on_frozen Close) (fun _ o => o = []).
Proof.
  eapply runs_weaken; [apply (on_frozen_seals _ (fun _ => True))|by intros a o []].
  intros [|[k|] fs]; cbn; (split; [by eexists|done]).
Qed.

Lemma Open_seals name i :
  names f0 !! name = Some i -> seals (on_frozen (Open name)) (fun a o => o = [] /\ a = i).
Proof.
  intros Hn. apply on_frozen_seals. intros [|[k|] fs]; cbn; rewrite ?Hn; (split; [by eexists|done]).
Qed.

Lemma ctx_Err_seals : seals (on_env ctx_Err) (fun _ o => o = []).
Proof.
  intros ps s (Hf & Ho & H1 & H2 & Hl). unfold on_env, ctx_Err.
  destruct (ctx (st_env s)) as [|[e|] rest] eqn:Ec.
  - exists []. rewrite app_nil_r. split_and!; try done.
  - split; [split_and!; [done|by eapply out_inv_frame|done]|]. intros (_ & _ & Q & _).
    rewrite Ec in Q. by inversion Q.
  - exists []. rewrite app_nil_r. split_and!; try done. intros (Q1 & Q2 & Q & Q4).
    rewrite Ec in Q. inversion Q; subst. split_and!; done.
Qed.

Lemma fileStart_seals name i :
  names f0 !! name = Some i ->
  seals (on_out (writeCanonicalFileStart name)) (fun _ o => len name < 2 ^ 32 /\ o = PutUint32BE (len name) ++ name).
Proof.
  intros Hn. pose proof (len_nonneg name) as Hnn. unfold writeCanonicalFileStart. destruct (_ <? _) eqn:E.
  { intros ps s (Hf & Ho & H1 & H2 & Hl). cbn. split; [split_and!; [done|by eapply out_inv_frame|done]|].
    intros (_ & _ & _ & Q). specialize (Q _ _ Hn). lia. }
  rewrite u32_small by (unfold is_u32; lia).
  eapply runs_weaken; [apply on_out_seals, outputs_seq; apply write1_outputs|]. intros [] o <-. split; [lia|done].
Qed.

(** The limiter is asked about bytes that were written, so its counter cannot overflow. *)
Lemma Wait_spec n ps s :
  seal_inv ps s -> 0 <= n -> limited_bytes (st_limiter s) + n <= len (concat ps) ->
  match on_limiter (Wait n) s with
  | (Ok _, s') => seal_inv ps s' /\ (quiet s -> quiet s')
  | (Err _, s') => seal_frame s' /\ ~ quiet s
  | (Panic, _) => False
  end.
Proof.
  intros (Hf & Ho & H1 & H2 & Hl) Hn Hb. pose proof Ho as (_ & _ & _ & _ & Hm). unfold on_limiter, Wait.
  assert (forall l v, (Forall (eq None) (ctx (st_env s)) -> Forall (eq None) (ctx v)) -> 0 <= limited_bytes l <= len (concat ps) ->
    seal_inv ps (SealState (st_frozen s) (st_out s) l v (encodedOpen s) (keepEncoded s)) /\
    (quiet s -> quiet (SealState (st_frozen s) (st_out s) l v (encodedOpen s) (keepEncoded s)))) as Hok.
  { intros l v Hv Hl'. split; [split_and!; try done; cbn; lia|]. intros (Q1 & Q2 & Q3 & Q4). split_and!; auto. }
  destruct (_ || _); [by apply Hok|]. rewrite (proj2 (Z.ltb_ge _ n)) by lia.
  assert (u64 (limited_bytes (st_limiter s) + n) = limited_bytes (st_limiter s) + n) as ->
    by (apply u64_small; unfold is_u64, max_u64 in *; lia).
  destruct (time_Since (st_env s)) as [t v] eqn:Et.
  assert (ctx v = ctx (st_env s)) as Hctx.
  { unfold time_Since in Et. destruct (clock (st_env s)); injection Et as <- <-; done. }
  destruct (_ <=? 0); [apply Hok; [by rewrite Hctx|cbn; lia]|].
  unfold ctx_Err. destruct (ctx v) as [|[e|] rest] eqn:Ev.
  - apply Hok; [by rewrite Ev|cbn; lia].
  - split; [split_and!; [done|by eapply out_inv_frame|done]|].
    intros (_ & _ & Q & _). rewrite <- Hctx in Q. by inversion Q.
  - apply Hok; [|cbn; lia]. intros Q. rewrite <- Hctx in Q. by inversion Q.
Qed.

Lemma chunk_wait_seals c :
  legal_chunk c ->
  seals (check! on_out (writeCanonicalChunk c) ;; on_limiter (Wait (len c))) (fun _ => eq (chunk_bytes c)).
Proof.
  intros Hc ps s Hs. pose proof (on_out_seals _ _ (chunk_outputs c Hc) ps s Hs) as Hw.
  assert (st_limiter (on_out (writeCanonicalChunk c) s).2 = st_limiter s) as El.
  { unfold on_out. by destruct (writeCanonicalChunk c (st_out s)). }
  unfold bind. destruct (on_out (writeCanonicalChunk c) s) as [[a|e|] s1]; [|exact Hw|done].
  destruct Hw as (qs & Eq & Hs1 & Hq). cbn [snd] in El. pose proof Hs as (_ & _ & _ & _ & Hl).
  pose proof (len_nonneg c).
  pose proof (Wait_spec (len c) (ps ++ qs) s1 Hs1 ltac:(lia)) as HW. rewrite El, concat_app, <- Eq in HW.
  unfold chunk_bytes in HW at 1. rewrite !len_app, len_PutUint32BE in HW. specialize (HW ltac:(lia)).
  destruct (on_limiter (Wait (len c)) s1) as [[[]|e|] s2]; [| |done].
  - destruct HW as [Hs2 Hq2]. exists qs. split_and!; [done|done|auto].
  - destruct HW as [Hf Hn]. split; [done|]. intros Q. by destruct Hn; apply Hq.
Qed.

(** ** Artifacts *)

Lemma u64_range x : is_u64 (u64 x).
Proof. unfold is_u64, u64. apply Z.mod_pos_bound. lia. Qed.

Lemma u64_add_l x y : u64 (u64 x + y) = u64 (x + y).
Proof. unfold u64. by rewrite Zplus_mod_idemp_l. Qed.

Lemma ReadFullN_short n r d e r' :
  ReadFullN n r = ((d, Some e), r') ->
  d = rd_data r /\ len d < n /\
  (rd_end r = EOF /\ (e = EOF \/ e = ErrUnexpectedEOF) \/ rd_end r <> EOF /\ e = rd_end r).
Proof.
  unfold ReadFullN. destruct (n <=? len (rd_data r)) eqn:E; [discriminate|]. intros [= <- <- <-].
  split; [done|]. split; [lia|]. case_bool_decide; [left|by right]. case_bool_decide; auto.
Qed.

(** Any content can be cut into legal chunks. *)
Lemma legal_chunks data : exists cs, Forall legal_chunk cs /\ concat cs = data.
Proof.
  induction data as [|b data (cs & Hcs & <-)]; [by exists []|]. exists ([b] :: cs). split; [|done].
  constructor; [|done]. unfold legal_chunk, canonicalChunkBytes. change (len [b]) with 1. lia.
Qed.

(** The chunk a turn of the read loop took can be followed by legal chunks. *)
Lemma legal_chunks_after c r err r' :
  ReadFullN canonicalChunkBytes r = ((c, err), r') ->
  exists cs, Forall legal_chunk cs /\ concat cs = rd_data r /\
    exists o, (if 0 <? len c then chunk_bytes c else []) ++ o = chunks_bytes cs.
Proof.
  intros Er. assert (len c <= canonicalChunkBytes /\ exists rest, rd_data r = c ++ rest) as (Hc & rest & Hd).
  { destruct err as [e|].
    - apply ReadFullN_short in Er as (-> & ? & _). split; [lia|]. exists []. by rewrite app_nil_r.
    - apply ReadFullN_full in Er as (-> & Hd & _); [split; [lia|by eexists]|unfold canonicalChunkBytes; lia]. }
  destruct (legal_chunks rest) as (cs & Hcs & <-). pose proof (len_nonneg c). rewrite Hd. destruct (Z.ltb_spec 0 (len c)).
  - exists (c :: cs). split_and!; [constructor; [unfold legal_chunk; lia|done]|done|]. by exists (chunks_bytes cs).
  - assert (c = []) as -> by (apply len_zero_nil; lia). exists cs. split_and!; [done..|]. by exists (chunks_bytes cs).
Qed.

(** One turn of the read loop, once the chunk [c] is read. *)
Lemma copyTurn_seals P c fb sb :
  len c <= canonicalChunkBytes -> is_u64 fb -> is_u64 sb ->
  runs seal_inv seal_frame (fun s => quiet s /\ P)
    (if 0 <? len c then
       check! on_out (writeCanonicalChunk c) ;;
       check! on_limiter (Wait (len c)) ;;
       ret (u64 (fb + len c), u64 (sb + len c))
     else ret (fb, sb))
    (fun '(fb', sb') o => o = (if 0 <? len c then chunk_bytes c else []) /\ fb' = u64 (fb + len c) /\ sb' = u64 (sb + len c)).
Proof.
  intros Hc Ufb Usb. pose proof (len_nonneg c). destruct (0 <? len c) eqn:En.
  - apply (runs_ext _ _ _ (bind (bind (on_out (writeCanonicalChunk c)) (fun _ => on_limiter (Wait (len c))))
                             (fun _ => ret (u64 (fb + len c), u64 (sb + len c))))).
    { intros s. unfold bind. destruct (on_out (writeCanonicalChunk c) s) as [[] ?]; done. }
    eapply runs_bind; [apply runs_quiet, chunk_wait_seals; unfold legal_chunk; lia| |].
    + intros [] o <-. apply runs_ret. by rewrite app_nil_r.
    + intros _ _ [] o <-. exists (u64 (fb + len c), u64 (sb + len c)), []. by rewrite app_nil_r.
  - apply runs_ret. replace (len c) with 0 by lia. by rewrite !Z.add_0_r, !u64_small.
Qed.

(** The read loop cuts what is left of the file into legal chunks. *)
Lemma copyChunks_seals fuel fb sb r :
  (length (rd_data r) < fuel)%nat -> rd_end r = EOF \/ rd_end r = EIO -> is_u64 fb -> is_u64 sb ->
  runs seal_inv seal_frame (fun s => quiet s /\ rd_end r = EOF) (copyChunks fuel fb sb r)
    (fun '(fb', sb') o => exists cs, Forall legal_chunk cs /\ concat cs = rd_data r /\
       o = chunks_bytes cs /\ fb' = u64 (fb + len (concat cs)) /\
       sb' = u64 (sb + len (concat cs)) /\ rd_end r = EOF).
Proof.
  revert fb sb r. induction fuel as [|fuel IH]; intros fb sb r Hf Hend Ufb Usb; [lia|]. cbn [copyChunks].
  destruct (ReadFullN canonicalChunkBytes r) as [[c err] r'] eqn:Er. set (n := len c).
  assert (len c <= canonicalChunkBytes) as Hc.
  { destruct err as [e|].
    - apply ReadFullN_short in Er as (_ & ? & _). lia.
    - apply ReadFullN_full in Er as (-> & _); unfold canonicalChunkBytes; lia. }
  pose proof (len_nonneg c).
  eapply runs_bind with (Q := fun '(fb', sb') o => o = (if 0 <? n then chunk_bytes c else []) /\
     fb' = u64 (fb + n) /\ sb' = u64 (sb + n)).
  - by apply copyTurn_seals.
  - intros [fb' sb'] o (-> & Hfb & Hsb). destruct err as [e|].
    + apply ReadFullN_short in Er as (-> & _ & He).
      destruct (errors_Is e EOF || errors_Is e ErrUnexpectedEOF) eqn:Ee.
      * apply runs_ret. rewrite app_nil_r. exists (if 0 <? n then [rd_data r] else []).
        assert (rd_end r = EOF) as Heof.
        { destruct He as [[? _]|[? ->]]; [done|]. destruct Hend as [|Hx]; [done|]. by rewrite Hx in Ee. }
        destruct (0 <? n) eqn:En; cbn; rewrite ?app_nil_r.
        -- split_and!; try done. constructor; [split; lia|constructor].
        -- replace n with 0 in Hfb, Hsb by lia. split_and!; try done.
           destruct (rd_data r); [done|]. unfold n in En. rewrite len_cons in En.
           pose proof (len_nonneg l). lia.
      * intros ps s Hs. cbn. split; [by eapply seal_inv_frame|]. intros [_ Hx].
        destruct He as [[_ [-> | ->]]|[? _]]; done.
    + apply ReadFullN_full in Er as (Hl & Hd & He); [|unfold canonicalChunkBytes; lia].
      replace (0 <? n) with true by (unfold n, canonicalChunkBytes in *; lia).
      rewrite <- He. eapply runs_weaken.
      * apply IH; [|by rewrite He|subst; apply u64_range..]. rewrite Hd, length_app in Hf.
        assert (0 < len c) by (unfold canonicalChunkBytes in *; lia). unfold len in *. lia.
      * intros [fb2 sb2] o (cs & Hcs & Hcat & -> & G1 & G2 & G3). exists (c :: cs). cbn [concat].
        rewrite Hcat, Hd, len_app. rewrite Hcat in G1, G2. split_and!; try done.
        -- constructor; [split; unfold canonicalChunkBytes in *; lia|done].
        -- rewrite G1, Hfb, u64_add_l. f_equal. unfold n. lia.
        -- rewrite G2, Hsb, u64_add_l. f_equal. unfold n. lia.
  - intros s [_ Heof] [fb' sb'] o (-> & _ & _).
    destruct (legal_chunks_after c r err r' Er) as (cs & Hcs & E & o & Ed).
    exists (u64 (fb + len (concat cs)), u64 (sb + len (concat cs))), o, cs. by split_and!.
Qed.

Lemma readFile_seals i nd sb :
  inodes f0 !! i = Some nd -> is_u64 sb ->
  seals (let! r := on_frozen (file_reader i) in copyChunks (Datatypes.S (length (rd_data r))) 0 sb r)
    (fun '(fb', sb') o => exists cs, Forall legal_chunk cs /\ concat cs = i_data nd /\
       o = chunks_bytes cs /\ fb' = u64 (len (concat cs)) /\ sb' = u64 (sb + len (concat cs))).
Proof.
  intros Hn Hsb ps s Hs. unfold bind, on_frozen. pose proof Hs as ([fs Hf] & Ho & HH1 & HH2 & HH3).
  assert (exists r fs', file_reader i (st_frozen s) = (Ok r, set_faults fs' f0) /\
    (rd_end r = EOF /\ rd_data r = i_data nd \/ rd_end r = EIO /\ fs <> []) /\ (fs = [] -> fs' = []))
    as (r & fs' & -> & Hr & Hfs).
  { rewrite Hf. destruct fs as [|[k|] fs]; cbn; rewrite Hn; do 2 eexists; (split; [done|]);
      cbn; split; auto; done. }
  set (s1 := SealState _ _ _ _ _ _).
  assert (seal_inv ps s1) as Hs1 by (split; [by eexists|done]).
  pose proof (copyChunks_seals (Datatypes.S (length (rd_data r))) 0 sb r ltac:(lia) ltac:(tauto)
    ltac:(unfold is_u64; lia) Hsb ps s1 Hs1) as Hc.
  assert (quiet s -> quiet s1 /\ rd_end r = EOF) as Hq.
  { intros (Q1 & Q2 & Q3 & Q4). rewrite Hf in Q1. cbn in Q1. split; [|naive_solver].
    split_and!; try done. cbn. auto. }
  destruct (copyChunks _ _ _ _ s1) as [[[fb' sb']|e|] s2]; [| |done].
  - destruct Hc as (qs & (cs & C1 & C2 & C3 & C4 & C5 & C6) & Hs2 & Hq2). exists qs.
    split; [|split; [done|intros Q; apply (Hq2 (Hq Q))]]. exists cs. split_and!; try done.
    destruct Hr as [[_ <-]|[Hx _]]; [done|]. by rewrite Hx in C6.
  - destruct Hc as [? Hc]. split; [done|]. intros Q. destruct (Hc (Hq Q)) as ([fb' sb'] & qs & rest & (cs & C1 & C2 & C3 & C4 & C5 & C6) & Hn').
    exists (fb', sb'), qs, rest. split; [|done]. exists cs. split_and!; try done.
    destruct Hr as [[_ <-]|[Hx _]]; [done|]. by rewrite Hx in C6.
Qed.

(** What one artifact adds to the stream. *)
Definition sealed_artifact (f : bytes * list bytes) : Prop :=
  len f.1 < 2 ^ 32 /\ Forall legal_chunk f.2 /\
  exists nd, lookup_file f0 f.1 = Some nd /\ i_data nd = concat f.2.

Lemma frozen_Close_frame s : seal_frame s -> seal_frame (on_frozen Close s).2.
Proof.
  intros ([fs Hf] & Ho & Hk). unfold on_frozen, Close, syscall, next_fault, bind, ret, throw. rewrite Hf.
  destruct fs as [|[k|] fs]; cbn; (split_and!; [by eexists|done..]).
Qed.

Lemma encoder_Close_frame s : seal_frame s -> seal_frame (on_out encoder_Close s).2.
Proof.
  intros (Hf & Ho & Hk). unfold on_out, encoder_Close.
  pose proof (sink_Writes_frame (zstd_Close (ss_encoder (st_out s))) _ Ho) as Ho'.
  destruct (sink_Writes _ _) as [r k]. by split_and!.
Qed.

Lemma chunks_bytes_len cs : len (concat cs) <= len (chunks_bytes cs).
Proof.
  induction cs as [|c cs IH]; [done|].
  change (chunks_bytes (c :: cs)) with (chunk_bytes c ++ chunks_bytes cs).
  cbn [concat]. unfold chunk_bytes. rewrite !len_app. pose proof (len_nonneg (PutUint32BE (len c))). lia.
Qed.

#[local] Transparent PutUint64BE.
Lemma PutUint64BE_u64 n : PutUint64BE (u64 n) = PutUint64BE n.
Proof.
  unfold PutUint64BE, be_put, u64. f_equal. change (2 ^ 64) with (256 ^ Z.of_nat 8). generalize 8%nat as k.
  intros k. revert n. induction k as [|k IH]; intros n; [done|]. cbn [le_put].
  assert (256 ^ Z.of_nat (S k) = 256 * 256 ^ Z.of_nat k) as -> by (rewrite Nat2Z.inj_succ, Z.pow_succ_r; lia).
  pose proof (Z.pow_pos_nonneg 256 (Z.of_nat k) ltac:(lia) ltac:(lia)).
  rewrite Z.rem_mul_r by lia. rewrite <- (IH (n / 256)). f_equal.
  - unfold z2b. by rewrite (Z.mul_comm 256), Z_mod_plus_full, Z.mod_mod by lia.
  - f_equal. rewrite Z.add_comm, Z.mul_comm, Z.div_add_l by lia. rewrite (Z.div_small (n mod 256)); [lia|].
    apply Z.mod_pos_bound. lia.
Qed.
#[local] Opaque PutUint64BE.

(** Short names can be framed: the artifacts of a list of names exist. *)
Lemma sealed_artifacts_exist ns :
  Forall (fun n => is_Some (lookup_file f0 n)) ns -> short_names -> exists fs, fs.*1 = ns /\ Forall sealed_artifact fs.
Proof.
  intros Hns Hs. induction Hns as [|name ns [nd Hl] _ (fs & <- & Hfs)]; [by exists []|].
  destruct (legal_chunks (i_data nd)) as (cs & Hcs & Hcat). exists ((name, cs) :: fs). split; [done|]. constructor; [|done].
  pose proof Hl as Hn. unfold lookup_file in Hn. destruct (names f0 !! name) as [i|] eqn:E; [|done].
  split_and!; [by eapply Hs|done|]. by exists nd.
Qed.

Lemma sealArtifact_seals name nd sb :
  lookup_file f0 name = Some nd -> is_u64 sb ->
  seals (sealArtifact name sb) (fun sb' o => exists cs, sealed_artifact (name, cs) /\
    o = artifact_bytes name cs /\ sb' = u64 (sb + len (concat cs))).
Proof.
  intros Hl Hsb. pose proof Hl as Hl'. unfold lookup_file in Hl'.
  destruct (names f0 !! name) as [i|] eqn:Hn; [|done]. cbn in Hl'.
  set (R := fun (sb' : Z) (o : bytes) => _).
  assert (forall cs o, Forall legal_chunk cs -> concat cs = i_data nd -> len name < 2 ^ 32 ->
    o = PutUint32BE (len name) ++ name ++ chunks_bytes cs ++ file_end (u64 (len (concat cs))) ->
    R (u64 (sb + len (concat cs))) o) as HR.
  { intros cs o Hcs Hcat Hlen ->. exists cs. split_and!; [|unfold artifact_bytes, file_end; by rewrite PutUint64BE_u64|done].
    split_and!; [done..|]. by exists nd. }
  assert (forall s, quiet s -> exists cs, Forall legal_chunk cs /\ concat cs = i_data nd /\ len name < 2 ^ 32) as Hex.
  { intros s (_ & _ & _ & Q). destruct (legal_chunks (i_data nd)) as (cs & ? & ?). exists cs. split_and!; [done..|by eapply Q]. }
  apply runs_or_else; [|apply encoder_Close_frame].
  eapply runs_bind; [apply ctx_Err_seals|intros [] o ->|].
  2: { intros s (cs & ? & ? & ?)%Hex [] o ->. do 2 eexists. by apply (HR cs). }
  eapply runs_bind; [by apply (fileStart_seals _ i)|intros [] o (Hlen & ->)|].
  2: { intros s (cs & ? & ? & ?)%Hex [] o (_ & ->). do 2 eexists. apply (HR cs); [done..|]. cbn [app]. by rewrite <- app_assoc. }
  eapply runs_bind; [apply runs_wrap, (Open_seals _ i), Hn|intros j o (-> & ->)|].
  2: { intros s (cs & ? & ? & ?)%Hex j o (-> & ->). do 2 eexists. apply (HR cs); [done..|]. cbn [app]. by rewrite <- app_assoc. }
  eapply runs_bind; [apply runs_or_else; [by apply readFile_seals|apply frozen_Close_frame]|intros [fb sb'] o (cs & C1 & C2 & -> & -> & ->)|].
  2: { intros s _ [fb sb'] o (cs & ? & ? & -> & _). do 2 eexists. apply (HR cs); [done..|]. cbn [app]. by rewrite <- app_assoc. }
  eapply runs_bind; [apply runs_wrap, Close_seals|intros [] o ->|].
  2: { intros s _ [] o ->. do 2 eexists. apply (HR cs); [done..|]. cbn [app]. by rewrite <- app_assoc. }
  eapply runs_bind; [apply on_out_seals, fileEnd_outputs|intros [] o <-|].
  2: { intros s _ [] o <-. do 2 eexists. apply (HR cs); [done..|]. cbn [app]. by rewrite <- !app_assoc, app_nil_r. }
  apply runs_ret, (HR cs); [done..|]. cbn [app]. by rewrite <- !app_assoc, app_nil_r.
Qed.

Lemma sealArtifacts_seals ns sb :
  Forall (fun n => is_Some (lookup_file f0 n)) ns -> is_u64 sb ->
  seals (sealArtifacts ns sb) (fun sb' o => exists fs, fs.*1 = ns /\ Forall sealed_artifact fs /\
    o = canonical.artifacts_bytes fs /\ sb' = u64 (sb + canonical.total_bytes fs)).
Proof.
  intros Hns. revert sb. induction Hns as [|name ns [nd Hn] Hns IH]; intros sb Hsb; cbn [sealArtifacts].
  { apply runs_ret. exists []. split_and!; try done. by rewrite Z.add_0_r, u64_small. }
  eapply runs_bind; [by apply (sealArtifact_seals name nd)|intros sb1 o (cs & Hcs & -> & ->)|].
  2: { intros s (_ & _ & _ & Q) sb1 o (cs & Hcs & -> & ->). destruct (sealed_artifacts_exist ns Hns Q) as (fs & <- & Hfs).
       eexists _, _, ((name, cs) :: fs). split_and!; [done|by constructor|reflexivity|reflexivity]. }
  eapply runs_weaken; [apply IH, u64_range|]. intros sb2 o (fs & <- & Hfs & -> & ->).
  exists ((name, cs) :: fs). split_and!; [done|by constructor|done|].
  rewrite u64_add_l, canonical.total_bytes_cons. unfold canonical.content. cbn [snd]. f_equal. lia.
Qed.

(** ** Publication *)

(** [d] is [d0] with the provisional file, now holding [out] on disk, renamed. *)
Definition published (final temp out : bytes) (d : dir) : Prop :=
  names d = <[final := ino]> (delete temp (names d0)) /\ durable d = durable d0 /\
  next_ino d = next_ino d0 /\ (forall j, j <> ino -> inodes d !! j = inodes d0 !! j) /\
  exists nd, inodes d !! ino = Some nd /\ i_kind nd = Regular /\ i_synced nd = true /\ i_data nd = out.

Definition sealed_result (config : Config) (ns : list bytes) (final : bytes) (sb : Z)
    (canonicalStream out : bytes) (r : Result) : Prop :=
  CanonicalBytes r = len canonicalStream /\ CanonicalSHA256 r = sha256_hex canonicalStream /\
  EncodedBytes r = len out /\ EncodedSHA256 r = sha256_hex out /\ 0 < len out <= max_u64 /\
  len canonicalStream <= max_u64 /\ FileCount r = len ns /\ ResultGenerationID r = GenerationID config /\
  SealedPath r = filepath_Join (SealedDir config) final /\ SourceBytes r = sb.

(** The three system calls of the publication. *)
Lemma Sync_cases d nd :
  same_but d -> inodes d !! ino = Some nd ->
  match Sync ino d with
  | (Ok _, d') => same_but d' /\ (faults d = [] -> faults d' = []) /\
      inodes d' !! ino = Some (Inode (i_kind nd) (i_perm nd) (i_data nd) true)
  | (Err _, d') => same_but d' /\ faults d <> []
  | (Panic, _) => False
  end.
Proof.
  intros (S1 & S2 & S3 & S4 & nd' & S5 & S6) Hn. rewrite Hn in S5. injection S5 as <-.
  destruct d as [nm du ind nx fl]. cbn in *.
  assert (forall fl', same_but (Dir nm du (<[ino := Inode (i_kind nd) (i_perm nd) (i_data nd) true]> ind) nx fl'))
    as Hs.
  { intros fl'. split_and!; cbn; try done.
    - intros j Hj. rewrite lookup_insert_ne by done. by apply S4.
    - eexists. by rewrite lookup_insert_eq. }
  unfold Sync, syscall, bind, next_fault, update_inode, throw.
  destruct fl as [|[k|] fl]; cbn; rewrite ?Hn; cbn; rewrite ?lookup_insert_eq.
  - split; [apply Hs|done].
  - split; [|done]. split_and!; cbn; eauto.
  - split; [apply Hs|done].
Qed.

Lemma Close_cases d :
  match Close d with
  | (Ok _, d') => exists fs, d' = set_faults fs d /\ (faults d = [] -> fs = [])
  | (Err _, d') => faults d <> [] /\ exists fs, d' = set_faults fs d
  | (Panic, _) => False
  end.
Proof.
  destruct d as [nm du ind nx [|[k|] fl]]; cbn; [by exists []|split; [done|]; by eexists|by eexists].
Qed.

Lemma Rename_cases d old new i :
  names d !! old = Some i ->
  match Rename old new d with
  | (Ok _, d') => exists fs, d' = set_faults fs (set_names (<[new := i]> (delete old (names d))) d)
  | (Err _, d') => faults d <> [] /\ exists fs, d' = set_faults fs d
  | (Panic, _) => False
  end.
Proof.
  destruct d as [nm du ind nx [|[k|] fl]]; cbn; intros Hn; rewrite ?Hn; [by exists []| |by eexists].
  split; [done|]. by eexists.
Qed.

Lemma same_but_faults fs d : same_but d -> same_but (set_faults fs d).
Proof. by intros (? & ? & ? & ? & ?). Qed.

Lemma finishSeal_spec config ns final temp sb ps s :
  names d0 !! temp = Some ino -> seal_inv ps s ->
  let out := transportencoding.encoded ps enc0 in
  match finishSeal config ns final temp sb s with
  | (Ok r, s') => frozen_same (st_frozen s') /\ published final temp out (sk_dir (ss_sink (st_out s'))) /\
      encodedOpen s' = false /\ keepEncoded s' = true /\
      sealed_result config ns final sb (concat ps) out r
  | (Err e, s') => seal_frame s' /\ (quiet s -> ~ 0 < len out <= max_u64)
  | (Panic, _) => False
  end.
Proof.
  intros Htemp (Hf & (Hk & He & Hh & Hc & Hm) & Hopen & Hkeep & _) out.
  unfold finishSeal, bind at 1, wrap_err at 1, on_out, encoder_Close.
  pose proof (sink_Writes_inv _ (zstd_Close (ss_encoder (st_out s))) _ Hk) as Hw.
  rewrite He in *. rewrite <- encoded_outs in Hw. fold out in Hw.
  destruct (sink_Writes _ _) as [[[]|e|] k]; cbn [wrap]; [| |done].
  2: { destruct Hw as [Hw1 Hw2]. split; [by split_and!|]. intros (_ & Q & _). apply Hw2 in Q. lia. }
  destruct Hw as [([Kf Ks] & Kh & Kc & Km & nd & Kn & Kd) Kq].
  cbn [st_out ss_sink]. destruct (sk_counter k =? 0) eqn:E0; [cbn; split; [by split_and!|intros _; lia]|].
  destruct k as [d fi hs ct]. cbn [sk_dir sk_file sk_hasher sk_counter] in *. subst fi.
  unfold bind, wrap_err, on_sealed, on_out, ret, on_env, set_flags. cbn -[Sync Close Rename].
  pose proof (Sync_cases d nd Ks Kn) as HS.
  destruct (Sync ino d) as [[[]|e|] d1]; cbn -[Close Rename]; [| |done].
  2: { destruct HS as [HS1 HS2]. split; [by split_and!|]. intros (_ & Q & _). by apply Kq in Q. }
  destruct HS as (S1 & Sq & S2). pose proof (Close_cases d1) as HC.
  destruct (Close d1) as [[[]|e|] d2]; cbn -[Rename]; [| |done].
  2: { destruct HC as [HC1 [fs ->]]. split; [by split_and!|].
       intros (_ & Q & _). apply Kq, Sq in Q. done. }
  destruct HC as (fs & -> & Cq). pose proof (proj1 S1) as Hnm.
  pose proof (Rename_cases (set_faults fs d1) temp final ino) as HR. cbn in HR. rewrite Hnm in HR.
  specialize (HR Htemp). destruct (Rename temp final (set_faults fs d1)) as [[[]|e|] d3]; cbn; [| |done].
  2: { destruct HR as [HR1 [fs' ->]]. split; [by split_and!|].
       intros (_ & Q & _). apply Kq, Sq, Cq in Q. done. }
  destruct HR as [fs' ->]. destruct (time_Since (st_env s)) as [t v]. cbn.
  destruct S1 as (_ & T2 & T3 & T4 & nd' & T5 & T6). pose proof (len_nonneg out).
  split_and!; try done.
  - split_and!; try done. eexists. split; [exact S2|]. cbn.
    rewrite S2 in T5. injection T5 as <-. done.
  - rewrite Hh, Kh. unfold sealed_result. cbn. split_and!; try done; lia.
Qed.

Lemma sealBody_spec config ns final temp s :
  names d0 !! temp = Some ino -> Forall (fun n => is_Some (lookup_file f0 n)) ns -> seal_inv [] s ->
  match sealBody config ns final temp s with
  | (Ok r, s') => exists fs ps, fs.*1 = ns /\ Forall sealed_artifact fs /\
      concat ps = canonical_bytes fs /\ frozen_same (st_frozen s') /\
      published final temp (transportencoding.encoded ps enc0) (sk_dir (ss_sink (st_out s'))) /\
      encodedOpen s' = false /\ keepEncoded s' = true /\
      sealed_result config ns final (u64 (canonical.total_bytes fs)) (canonical_bytes fs)
        (transportencoding.encoded ps enc0) r
  | (Err e, s') => seal_frame s' /\
      (quiet s -> exists fs qs rest, fs.*1 = ns /\ Forall sealed_artifact fs /\ concat qs ++ rest = canonical_bytes fs /\
         (~ fits qs \/ (rest = [] /\ ~ 0 < len (transportencoding.encoded qs enc0) <= max_u64)))
  | (Panic, _) => False
  end.
Proof.
  intros Htemp Hns Hs.
  set (q := check! or_else (on_out (writeCanonicalHeader (len ns))) (on_out encoder_Close) ;;
            sealArtifacts ns 0).
  assert (sealBody config ns final temp s = bind q (finishSeal config ns final temp) s) as ->.
  { unfold sealBody, q, bind. destruct (or_else _ _ s) as [[]?]; done. }
  assert (seals q (fun sb o => exists fs, fs.*1 = ns /\ Forall sealed_artifact fs /\
            o = canonical_bytes fs /\ sb = u64 (canonical.total_bytes fs))) as Hq.
  { assert (forall fs, fs.*1 = ns ->
      (canonicalMagic ++ PutUint64BE (len ns)) ++ canonical.artifacts_bytes fs = canonical_bytes fs) as Hcb.
    { intros fs <-. unfold canonical_bytes. fold (canonical.artifacts_bytes fs). rewrite <- app_assoc.
      unfold len. by rewrite length_fmap. }
    eapply runs_bind; [apply runs_or_else; [apply on_out_seals, header_outputs|apply encoder_Close_frame]|intros [] o <-|].
    - eapply runs_weaken; [by apply sealArtifacts_seals|].
      intros sb o (fs & E & Hfs & -> & ->). exists fs. split_and!; try done. by apply Hcb.
    - intros s' (_ & _ & _ & Q) [] o <-. destruct (sealed_artifacts_exist ns Hns Q) as (fs & E & Hfs).
      exists (u64 (canonical.total_bytes fs)), (canonical.artifacts_bytes fs), fs. split_and!; [done..|by apply Hcb|done]. }
  specialize (Hq [] s Hs). unfold bind. destruct (q s) as [[sb|e|] s1]; [| |done].
  - destruct Hq as (ps & (fs & E & Hfs & Hcat & ->) & Hs1 & Hqq). cbn [app] in Hs1.
    pose proof (finishSeal_spec config ns final temp (u64 (canonical.total_bytes fs)) ps s1 Htemp Hs1) as Hfin.
    destruct (finishSeal _ _ _ _ _ s1) as [[r|e|] s2]; [| |done].
    + destruct Hfin as (F1 & F2 & F3 & F4 & F5). rewrite Hcat in F5. exists fs, ps. done.
    + destruct Hfin as [F1 F2]. split; [done|]. intros Q. exists fs, ps, []. rewrite app_nil_r. split_and!; [done..|].
      right. split; [done|]. by apply F2, Hqq.
  - destruct Hq as [Hf Hq]. split; [done|]. intros Q. destruct (Hq Q) as (sb & qs & rest & (fs & E & Hfs & Hcat & _) & Hn).
    exists fs, qs, rest. split_and!; [done..|by left].
Qed.

End Runs.

(** ** The theorems about [Seal] *)

Lemma checkEntries_Ok entries ns :
  checkEntries entries = Ok ns ->
  ns = entries.*1 /\ Forall (fun e => validEntryName e.1 = true /\ e.2 = Regular) entries.
Proof.
  revert ns. induction entries as [|[n k] es IH]; intros ns Hc; cbn [checkEntries] in Hc.
  { injection Hc as <-. by split. }
  res_inv Hc. bool_hyps. destruct (IH _ E) as [-> Hes]. split; [done|]. by constructor.
Qed.

Definition entry_kind (d : dir) (n : bytes) : file_kind :=
  match lookup_file d n with Some nd => i_kind nd | None => OtherKind end.

Lemma ReadDir_cases d :
  match ReadDir d with
  | (Ok es, d') => frozen_same d d' /\ (faults d = [] -> faults d' = []) /\ es.*1 = entry_names d /\
      Forall (fun e => e.2 = entry_kind d e.1) es
  | (Err _, d') => frozen_same d d' /\ faults d <> []
  | (Panic, _) => False
  end.
Proof.
  assert (forall l : list bytes, Forall (fun e : bytes * file_kind => e.2 = entry_kind d e.1)
    ((fun n => (n, entry_kind d n)) <$> l)) as Hes.
  { intros l. by apply Forall_fmap, Forall_true. }
  assert (forall (g : bytes -> file_kind) l, ((fun n => (n, g n)) <$> l).*1 = l) as Hfst.
  { intros g l. rewrite <- list_fmap_compose. induction l; [done|]. cbn. by f_equal. }
  unfold ReadDir, syscall, bind, next_fault, throw.
  destruct d as [nm du ind nx [|[k|] fl]]; cbn -[sort_Strings].
  - split; [by exists []|]. split; [done|]. split; [apply Hfst|apply Hes].
  - split; [by eexists|done].
  - split; [by eexists|]. split; [done|]. split; [apply Hfst|apply Hes].
Qed.

Section Whole.
Context `{Unicode} `{Zstd}.

(** The artifacts of a frozen directory, in order, as they can be framed. *)
Definition frozen_artifacts (f : dir) (fs : list (bytes * list bytes)) : Prop :=
  Permutation fs.*1 (map_to_list (names f)).*1 /\ strictly_sorted fs.*1 /\ fs <> [] /\
  Forall (fun a => validEntryName a.1 = true) fs /\ Forall (sealed_artifact f) fs.

(** A successful run: the directory gained exactly the sealed file. *)
Definition seal_succeeded (config : Config) (f d f' d' : dir) (r : Result) : Prop :=
  frozen_same f f' /\ names d !! sealedName config = None /\
  names d' = <[sealedName config := next_ino d]> (names d) /\ durable d' = durable d /\
  next_ino d' = S (next_ino d) /\
  (forall j, j <> next_ino d -> inodes d' !! j = inodes d !! j) /\
  exists fs ps enc nd, frozen_artifacts f fs /\ transportencoding.NewZstdEncoder = Ok enc /\
    concat ps = canonical_bytes fs /\
    inodes d' !! next_ino d = Some nd /\ i_kind nd = Regular /\ i_synced nd = true /\
    i_data nd = transportencoding.encoded ps enc /\
    sealed_result config fs.*1 (sealedName config) (canonical.total_bytes fs) (canonical_bytes fs)
      (i_data nd) r.

(** A failed run: at most a provisional name is left over. *)
Definition seal_failed (config : Config) (f d f' d' : dir) : Prop :=
  frozen_same f f' /\ durable d' = durable d /\
  (forall j, j <> next_ino d -> inodes d' !! j = inodes d !! j) /\
  (names d' = names d \/
   exists k, let temp := temp_name (bs ".generation-" ++ GenerationID config ++ bs "-") (bs ".open") k in
     names d !! temp = None /\ names d' = <[temp := next_ino d]> (names d)).

Lemma Remove_cases temp d :
  durable (Remove temp d).2 = durable d /\ inodes (Remove temp d).2 = inodes d /\
  (names (Remove temp d).2 = names d \/ names (Remove temp d).2 = delete temp (names d)).
Proof.
  unfold Remove, syscall, bind, next_fault, throw.
  destruct d as [nm du ind nx [|[k|] fl]]; cbn; [destruct (nm !! temp)|..|destruct (nm !! temp)];
    cbn; auto.
Qed.

(** The deferred function when nothing was published. *)
Lemma sealDefer_failed config f d f' temp k d1 open d2 :
  frozen_same f f' -> temp = temp_name (bs ".generation-" ++ GenerationID config ++ bs "-") (bs ".open") k ->
  names d !! temp = None -> names d1 = <[temp := next_ino d]> (names d) -> durable d1 = durable d ->
  (forall j, j <> next_ino d -> inodes d1 !! j = inodes d !! j) ->
  same_but d1 (next_ino d) d2 -> seal_failed config f d f' (sealDefer temp open false d2).
Proof.
  intros Hf Htemp Hnone Hn Hd Hi (S1 & S2 & S3 & S4 & _). unfold sealDefer. cbn [negb].
  set (d3 := if open then (Close d2).2 else d2).
  assert (names d3 = names d2 /\ durable d3 = durable d2 /\ inodes d3 = inodes d2) as (T1 & T2 & T3).
  { unfold d3. destruct open; [|done]. pose proof (Close_cases d2) as HC.
    destruct (Close d2) as [[|e|] d4]; [destruct HC as (? & -> & _)|destruct HC as (_ & ? & ->)|]; done. }
  destruct (Remove_cases temp d3) as (R1 & R2 & R3). split_and!.
  - done.
  - congruence.
  - intros j Hj. rewrite R2, T3, S4, Hi by done. done.
  - destruct R3 as [-> | ->]; rewrite T1, S1, Hn; [right|left].
    + exists k. by rewrite <- Htemp.
    + by rewrite delete_insert_id.
Qed.

(** What the body starts from. *)
Lemma seal_CreateTemp_cases prefix suffix d :
  match CreateTemp prefix suffix d with
  | (Ok (temp, i), d1) => i = next_ino d /\ (exists k, temp = temp_name prefix suffix k) /\
      names d !! temp = None /\ names d1 = <[temp := next_ino d]> (names d) /\ durable d1 = durable d /\
      (forall j, j <> next_ino d -> inodes d1 !! j = inodes d !! j) /\
      inodes d1 !! next_ino d = Some (Inode Regular 384 [] false) /\ (faults d = [] -> faults d1 = []) /\
      next_ino d1 = S (next_ino d)
  | (Err e, d1) => frozen_same d d1 /\
      (faults d = [] -> unused_temp prefix suffix (names d) temp_attempts 0 = None)
  | (Panic, _) => False
  end.
Proof.
  unfold CreateTemp, syscall, bind, next_fault, throw.
  assert (match unused_temp prefix suffix (names d) temp_attempts 0 with
    | Some temp => (exists k, temp = temp_name prefix suffix k) /\ names d !! temp = None
    | None => True end) as Hu.
  { destruct (unused_temp _ _ _ _ _) as [t|] eqn:E; [|done].
    apply unused_temp_spec in E as [? ?]. done. }
  destruct d as [nm du ind nx fl]. cbn -[unused_temp temp_attempts] in *.
  destruct fl as [|[k|] fl]; cbn -[unused_temp temp_attempts]; [|by split; [eexists|]|];
    (destruct (unused_temp prefix suffix nm temp_attempts 0) as [t|];
     [|split; [by eexists|done]]); destruct Hu as [Hk Hn]; cbn;
    (split_and!; try done; [intros j Hj; by rewrite lookup_insert_ne|by rewrite lookup_insert_eq]).
Qed.

Lemma seal_inv_start f f1 d1 i enc n v :
  frozen_same f f1 -> inodes d1 !! i = Some (Inode Regular 384 [] false) ->
  seal_inv f d1 i enc [] (SealState f1 (StreamSink enc (Sink d1 i [] 0) [] 0) (newReadLimiter n) v true false).
Proof.
  intros Hf Hi. split; [done|]. split; [|by split_and!].
  - split; [|by split_and!]. split_and!; try done.
    + split; [done|]. split_and!; try done. by eexists.
    + by eexists.
Qed.

Lemma total_le_canonical fs : canonical.total_bytes fs <= len (canonical_bytes fs).
Proof.
  assert (canonical.total_bytes fs <= len (canonical.artifacts_bytes fs)) as Ha.
  { induction fs as [|[n cs] fs IH]; [done|].
    change (canonical.artifacts_bytes ((n, cs) :: fs)) with
      (artifact_bytes n cs ++ canonical.artifacts_bytes fs).
    rewrite canonical.total_bytes_cons, len_app. unfold artifact_bytes, canonical.content. cbn [snd].
    rewrite !len_app. pose proof (chunks_bytes_len cs). pose proof (len_nonneg n).
    pose proof (len_nonneg (PutUint32BE (len n))). pose proof (len_nonneg (file_end (len (concat cs)))). lia. }
  unfold canonical_bytes. fold (canonical.artifacts_bytes fs). rewrite !len_app.
  pose proof (len_nonneg canonicalMagic). pose proof (len_nonneg (PutUint64BE (len fs))). lia.
Qed.

Lemma frozen_artifacts_intro f fs es :
  fs.*1 = sort_Strings es.*1 -> es.*1 = entry_names f -> es.*1 <> [] ->
  Forall (fun e : bytes * file_kind => validEntryName e.1 = true /\ e.2 = Regular) es ->
  Forall (sealed_artifact f) fs -> frozen_artifacts f fs.
Proof.
  intros Hfs Hes Hne Hv Ha. split_and!; [| | | |done].
  - rewrite Hfs, Hes. unfold entry_names. by rewrite !sort_Strings_perm.
  - rewrite Hfs. apply sorted_nodup_strict; [apply sort_Strings_sorted|].
    rewrite sort_Strings_perm, Hes. apply entry_names_NoDup.
  - intros ->. cbn in Hfs. apply Hne. symmetry in Hfs. apply Permutation_nil.
    rewrite <- Hfs at 1. by rewrite sort_Strings_perm.
  - rewrite <- (Forall_fmap fst (fun n => validEntryName n = true)), Hfs.
    rewrite sort_Strings_perm, Forall_fmap. eapply Forall_impl; [exact Hv|]. by intros e [].
Qed.

(** Everything [Seal] checks, in a state where it can succeed. *)
Definition sealable (config : Config) (ds : DirState) (f d : dir) : Prop :=
  validateConfig config ds = Ok tt /\ names f <> ∅ /\
  (forall n i, names f !! n = Some i ->
     validEntryName n = true /\ exists nd, inodes f !! i = Some nd /\ i_kind nd = Regular) /\
  names d !! sealedName config = None /\
  unused_temp (bs ".generation-" ++ GenerationID config ++ bs "-") (bs ".open") (names d) temp_attempts 0
    <> None /\
  exists enc, transportencoding.NewZstdEncoder = Ok enc.

Lemma checkEntries_sealable f es :
  es.*1 = entry_names f -> Forall (fun e => e.2 = entry_kind f e.1) es ->
  (forall n i, names f !! n = Some i ->
     validEntryName n = true /\ exists nd, inodes f !! i = Some nd /\ i_kind nd = Regular) ->
  checkEntries es = Ok es.*1.
Proof.
  intros Hn Hk Hs.
  assert (Forall (fun e => validEntryName e.1 = true /\ e.2 = Regular) es) as Hall.
  { apply Forall_forall. intros e He. rewrite Forall_forall in Hk. rewrite (Hk e He).
    assert (e.1 ∈ entry_names f) as [i Hi]%entry_names_elem by (rewrite <- Hn; by apply list_elem_of_fmap_2).
    destruct (Hs _ _ Hi) as (? & nd & Hnd & ?). split; [done|]. unfold entry_kind, lookup_file.
    rewrite Hi. cbn. by rewrite Hnd. }
  clear Hn Hk Hs. induction Hall as [|[n k] es [Hv Hk] _ IH]; [done|]. cbn in Hv, Hk. subst k.
  cbn [checkEntries]. rewrite Hv, IH. done.
Qed.

Lemma checkEntries_no_panic es : no_panic (checkEntries es).
Proof. induction es as [|[n k] es IH]; [done|]. cbn [checkEntries]. no_panic. Qed.

Lemma Lstat_cases name d :
  frozen_same d (Lstat name d).2 /\ (faults d = [] -> faults (Lstat name d).2 = []) /\
  (Lstat name d).1 <> Panic /\
  (names d !! name = None -> faults d = [] -> (Lstat name d).1 = Err ErrNotExist) /\
  (forall e, (Lstat name d).1 = Err e -> errors_Is e ErrNotExist = true -> names d !! name = None).
Proof.
  unfold Lstat, syscall, bind, next_fault, throw.
  destruct d as [nm du ind nx [|[k|] fl]]; cbn.
  - destruct (nm !! name) as [i|]; [destruct (ind !! i)|]; cbn; split_and!; try done; try (by exists []);
      by intros e [= <-].
  - split_and!; try done; [by eexists|]. by intros e [= <-].
  - destruct (nm !! name) as [i|]; [destruct (ind !! i)|]; cbn; split_and!; try done; try (by eexists);
      by intros e [= <-].
Qed.

(** The canonical stream of the directory is shorter than 2^64 bytes, and so is what the encoder
    makes of any beginning of it; of the whole stream it makes at least one byte. *)
Definition no_overflow (f : dir) : Prop :=
  forall fs enc, frozen_artifacts f fs -> transportencoding.NewZstdEncoder = Ok enc ->
  len (canonical_bytes fs) <= max_u64 /\
  forall ps rest, concat ps ++ rest = canonical_bytes fs ->
    len (transportencoding.encoded ps enc) <= max_u64 /\ (rest = [] -> 0 < len (transportencoding.encoded ps enc)).

Lemma no_overflow_fits f fs enc ps rest :
  no_overflow f -> frozen_artifacts f fs -> transportencoding.NewZstdEncoder = Ok enc -> concat ps ++ rest = canonical_bytes fs ->
  fits enc ps /\ (rest = [] -> 0 < len (transportencoding.encoded ps enc) <= max_u64).
Proof.
  intros Hno Hfa Hz Hcat. destruct (Hno fs enc Hfa Hz) as [Hc He]. destruct (He ps rest Hcat) as [He' Hp]. clear He. split; [|auto].
  rewrite <- Hcat, len_app in Hc. rewrite encoded_outs, len_app in He'. pose proof (len_nonneg rest).
  pose proof (len_nonneg (concat (zstd_Close (enc_after ps enc)))). split; lia.
Qed.

(** Every outcome of [Seal]. *)
Lemma Seal_cases config ds f d v :
  match Seal config ds (f, d, v) with
  | (Ok r, (f', d', _)) => seal_succeeded config f d f' d' r
  | (Err e, (f', d', _)) => seal_failed config f d f' d' /\
      (sealable config ds f d -> faults f = [] -> faults d = [] -> Forall (eq None) (ctx v) ->
       short_names f -> ~ no_overflow f)
  | (Panic, (f', _, _)) => frozen_same f f' /\
      (validateConfig config ds = Panic \/ transportencoding.NewZstdEncoder = Panic)
  end.
Proof.
  assert (forall g h, frozen_same f g -> frozen_same d h -> seal_failed config f d g h) as Hearly.
  { intros g h Hg [fs ->]. split_and!; auto. }
  assert (frozen_same f f /\ frozen_same d d) as [Hff Hdd].
  { split; [exists (faults f); by destruct f|exists (faults d); by destruct d]. }
  unfold Seal. destruct (validateConfig config ds) as [[]|e|] eqn:Ev; [| |by split; [|left]].
  2: { split; [by apply Hearly|]. intros [Hx _]. by rewrite Ev in Hx. }
  unfold wrap_err. pose proof (ReadDir_cases f) as HR.
  destruct (ReadDir f) as [[es|e|] f1]; cbn [wrap]; [| |done].
  2: { destruct HR as [HR1 HR2]. split; [by apply Hearly|done]. }
  destruct HR as (HR1 & HR2 & HR3 & HR4).
  destruct (let? names := checkEntries es in _) as [ns|e|] eqn:Ec; cycle 1.
  { split; [by apply Hearly|]. intros (_ & Hne & Hs & _). exfalso.
    rewrite (checkEntries_sealable f es) in Ec by done. cbn [res_bind] in Ec.
    destruct (len es.*1 =? 0) eqn:El; [|done]. apply Hne, map_empty. intros n.
    apply eq_None_not_Some. intros [i Hi]. assert (n ∈ entry_names f) as Hin by (apply entry_names_elem; eauto).
    rewrite <- HR3 in Hin. destruct es.*1; [by apply not_elem_of_nil in Hin|].
    rewrite len_cons in El. pose proof (len_nonneg l0). lia. }
  { exfalso. revert Ec. change (no_panic (let? ns := checkEntries es in
      fail? len ns =? 0 with Errorf "frozen FI generation contains no artifacts" ;; Ok (sort_Strings ns))).
    pose proof (checkEntries_no_panic es). no_panic. }
  res_inv Ec. apply checkEntries_Ok in E as [-> Hes].
  pose proof (Lstat_cases (sealedName config) d) as (L1 & L2 & L3 & L4 & L5).
  destruct (Lstat (sealedName config) d) as [[info|e|] d1]; cbn [fst snd] in *; [| |done].
  { split; [by apply Hearly|]. intros (_ & _ & _ & Hn & _) _ Hq _. by specialize (L4 Hn Hq). }
  destruct (negb (errors_Is e ErrNotExist)) eqn:En.
  { split; [by apply Hearly|]. intros (_ & _ & _ & Hn & _) _ Hq _. specialize (L4 Hn Hq).
    injection L4 as ->. done. }
  apply negb_false_iff in En. specialize (L5 e eq_refl En). destruct L1 as [fl1 ->].
  pose proof (seal_CreateTemp_cases (bs ".generation-" ++ GenerationID config ++ bs "-") (bs ".open") (set_faults fl1 d)) as HC.
  destruct (CreateTemp _ _ (set_faults fl1 d)) as [[[temp ino]|e1|] d2]; cbn [wrap]; [| |done].
  2: { destruct HC as [[fl2 ->] HC2]. split; [by apply Hearly; [done|exists fl2]|].
       intros (_ & _ & _ & _ & Ht & _) _ Hq _. exfalso. by apply Ht, HC2, L2. }
  destruct HC as (-> & [k Hk] & C1 & C2 & C3 & C4 & C5 & C6 & C7).
  cbn [names durable inodes next_ino set_faults] in C1, C2, C3, C4, C5, C7 |- *.
  assert (forall g o d3, frozen_same f g -> same_but d2 (next_ino d) d3 ->
    seal_failed config f d g (sealDefer temp o false d3)) as Hlate.
  { intros g o d3. intros. by eapply (sealDefer_failed config f d g temp k d2). }
  destruct transportencoding.NewZstdEncoder as [enc|e2|] eqn:Ez; [| |by split; [|right]].
  2: { split; [|intros (_ & _ & _ & _ & _ & ? & ?); congruence].
       apply Hlate; [done|]. split_and!; try done. eauto. }
  set (s0 := SealState _ _ _ _ _ _).
  assert (Forall (fun n => is_Some (lookup_file f n)) (sort_Strings es.*1)) as Hlook.
  { rewrite sort_Strings_perm, Forall_fmap. rewrite Forall_forall in Hes, HR4 |- *. intros x Hx.
    pose proof (HR4 x Hx) as Hkx. destruct (Hes x Hx) as [_ Hr]. rewrite Hr in Hkx.
    unfold entry_kind in Hkx. cbn. destruct (lookup_file f x.1); [by eexists|done]. }
  pose proof (sealBody_spec f d2 (next_ino d) enc config (sort_Strings es.*1) (sealedName config) temp s0)
    as HB.
  specialize (HB ltac:(by rewrite C2, lookup_insert_eq) Hlook
    (seal_inv_start f f1 d2 (next_ino d) enc _ v HR1 C5)).
  assert (forall fs, fs.*1 = sort_Strings es.*1 -> Forall (sealed_artifact f) fs -> frozen_artifacts f fs) as Hfa.
  { intros fs E1 E2. eapply frozen_artifacts_intro; try done. intros Hnil. rewrite Hnil in *. done. }
  destruct (sealBody _ _ _ _ s0) as [[r|e3|] s1]; [| |done].
  - destruct HB as (fs & ps & E1 & E2 & E3 & E4 & (P1 & P2 & P3 & P4 & nd & P5 & P6 & P7 & P8) & E6 & E7 & E8).
    rewrite E6, E7. cbn [sealDefer negb].
    assert (0 <= canonical.total_bytes fs <= max_u64) as Htot.
    { pose proof (canonical.total_bytes_nonneg fs). pose proof (total_le_canonical fs).
      destruct E8 as (_ & _ & _ & _ & _ & ? & _). lia. }
    rewrite u64_small in E8 by (unfold is_u64, max_u64 in *; lia).
    split_and!; try done; try congruence.
    + by rewrite P1, C2, delete_insert_id.
    + intros j Hj. by rewrite P4, C4.
    + exists fs, ps, enc, nd. rewrite P8, E1. split_and!; try done. by apply Hfa.
  - destruct HB as [(F1 & F2 & F3) Hq]. rewrite F3. split; [apply Hlate; [done|apply F2]|].
    intros _ Q1 Q2 Q3 Q4 Q5. destruct Hq as (fs & qs & rest & E1 & E2 & E3 & Hover).
    { split_and!; [by apply HR2|by apply C6, L2|done|done]. }
    destruct (no_overflow_fits f fs enc qs rest Q5 (Hfa fs E1 E2) Ez E3). tauto.
Qed.

(** [C35] What a sealed generation is. When [Seal] succeeds, the sealed directory has
    gained exactly one name, [generation-<id>.figz], which did not exist before and
    denotes a synced regular file; decoding aside, that file is what the encoder makes
    of the canonical stream of the frozen directory: every file of it, by name in
    strictly increasing order, with its complete content in chunks of at most one MiB.
    The counts and digests of the result are those of that stream and that file, with
    no counter wrapped around, and the frozen directory is untouched. *)
Theorem Seal_sound config ds f d v r f' d' v' :
  Seal config ds (f, d, v) = (Ok r, (f', d', v')) -> seal_succeeded config f d f' d' r.
Proof. intros Hr. pose proof (Seal_cases config ds f d v) as Hc. by rewrite Hr in Hc. Qed.

(** [C36] A failed [Seal] publishes nothing: whichever call failed, the frozen directory
    and every existing file of the sealed directory are untouched, no name on disk
    changed, and the only possible trace is one provisional [.open] name (when even
    its removal failed). *)
Theorem Seal_failure_clean config ds f d v e f' d' v' :
  Seal config ds (f, d, v) = (Err e, (f', d', v')) -> seal_failed config f d f' d'.
Proof. intros Hr. pose proof (Seal_cases config ds f d v) as Hc. rewrite Hr in Hc. apply Hc. Qed.

(** [C37] [Seal] terminates with a sealed generation. On a directory of regular files with
    valid names below 2^32 bytes, with a valid configuration, when no system call fails and
    the context stays open, it returns a result, and the sealed directory has gained exactly the
    sealed file; the only other proviso is that the canonical stream and what the encoder makes
    of its beginnings are below 2^64 bytes, and that it makes something of the whole. The read
    loop never runs out of turns, and no counter refuses a byte before its limit. *)
Theorem Seal_succeeds config ds f d v :
  sealable config ds f d -> faults f = [] -> faults d = [] -> Forall (eq None) (ctx v) ->
  short_names f -> no_overflow f ->
  exists r f' d' v', Seal config ds (f, d, v) = (Ok r, (f', d', v')) /\ seal_succeeded config f d f' d' r.
Proof.
  intros Hs Q1 Q2 Q3 Q4 Q5. pose proof (Seal_cases config ds f d v) as Hc.
  destruct (Seal config ds (f, d, v)) as [[r|e|] [[f' d'] v']].
  - by exists r, f', d', v'.
  - by destruct Hc as [_ []].
  - destruct Hs as (Hv & _ & _ & _ & _ & enc & He), Hc as [_ Hc], Hc; congruence.
Qed.

Lemma frozen_nonempty f fs : frozen_artifacts f fs -> 0 < len fs.
Proof.
  intros (_ & _ & Hne & _). destruct fs; [done|]. rewrite len_cons. pose proof (len_nonneg fs). lia.
Qed.

Lemma frozen_valid_name f fs :
  frozen_artifacts f fs -> Forall (fun a => len a.1 <= canonical.maxCanonicalArtifactNameBytes) fs ->
  Forall canonical.valid_artifact fs.
Proof.
  intros (_ & _ & _ & Hv & Ha) Hl. rewrite Forall_forall in *. intros x Hx.
  specialize (Hl x Hx). specialize (Hv x Hx). destruct (Ha x Hx) as (_ & Hc & _).
  unfold validEntryName in Hv. bool_hyps. split; [|done]. split_and!; try done.
  destruct x.1; [done|]. rewrite len_cons. pose proof (len_nonneg l). lia.
Qed.

(** Round trip of a generation. The bytes of a sealed file decode to a stream from
    which [ReadCanonicalArtifacts], given the descriptor made from the result of
    [Seal], delivers to any handler the frozen files one by one, name and complete
    content, in order, and then reports exactly the source byte count of the seal with
    nothing left over. (The reader, unlike the sealer, limits names to 4096 bytes and
    the number of artifacts to 1,000,000.) *)
Theorem sealed_generation_reads_back `{!ZstdCodec} {Hs} config ds f d v r f' d' v' sourceID desc
    (handler : option (canonical.handler_fn Hs)) step h :
  Seal config ds (f, d, v) = (Ok r, (f', d', v')) -> DescriptorFromSeal sourceID r = Ok desc ->
  FileCount r <= canonical.maxReceiveArtifactCount ->
  (forall n i, names f !! n = Some i -> len n <= canonical.maxCanonicalArtifactNameBytes) ->
  canonical.handler_runs handler step ->
  exists nd fs, lookup_file d' (sealedName config) = Some nd /\ frozen_artifacts f fs /\
    transportencoding.NewZstdDecoder (Reader (i_data nd) EOF) =
      Ok (Reader (canonical_bytes fs) EOF, len (i_data nd)) /\
    forall h', canonical.run_steps step h fs = Some h' ->
      canonical.ReadCanonicalArtifacts desc handler (h, Reader (canonical_bytes fs) EOF) =
        (Ok (SourceBytes r), (h', Reader [] EOF)).
Proof.
  intros Hr Hd Hn Hl Hh. pose proof (Seal_cases config ds f d v) as Hc. rewrite Hr in Hc.
  destruct Hc as (_ & _ & Hnm & _ & _ & _ & fs & ps & enc & nd & Hfa & Hz & Hcat & Hnd & _ & _ & Hdata & Hres).
  exists nd, fs. split; [unfold lookup_file; rewrite Hnm, lookup_insert_eq; exact Hnd|].
  split; [done|]. split; [rewrite Hdata, <- Hcat; by apply NewZstdDecoder_encoded|].
  intros h' Hrun. unfold DescriptorFromSeal in Hd. res_inv Hd. destruct v0.
  apply transportgeneration.generation_Validate_Ok in E.
  destruct Hres as (R1 & R2 & R3 & R4 & R5 & R6 & R7 & R8 & R9 & R10).
  assert (len fs.*1 = len fs) as Hlf by (unfold len; by rewrite length_fmap).
  pose proof (frozen_nonempty f fs Hfa).
  rewrite <- (app_nil_r (canonical_bytes fs)).
  rewrite (canonical.ReadCanonicalArtifacts_layout handler step _ fs h h');
    [by rewrite R10|exact Hh|exact E| | | | | |exact Hrun].
  - cbn. by rewrite R7.
  - lia.
  - eapply frozen_valid_name; [done|]. apply Forall_forall. intros x Hx.
    destruct Hfa as (Hp & _). assert (x.1 ∈ fs.*1) as Hin by (by apply list_elem_of_fmap_2).
    rewrite Hp, list_elem_of_fmap in Hin. destruct Hin as ([n i] & -> & Hin).
    apply elem_of_map_to_list in Hin. by eapply Hl.
  - apply Hfa.
  - pose proof (total_le_canonical fs). lia.
Qed.

End Whole.

(** ** The read limiter *)

(** The delay target of the read limiter is the exact time the bytes read so far
    take at the configured rate, rounded down to the nanosecond, as long as the rate
    is at most 2^64 / 10^9 bytes per second and that time fits a [time.Duration]. *)
Theorem limiterTarget_exact bytes limit :
  0 <= bytes -> 0 < limit -> limit * Second <= 2 ^ 64 -> bytes * Second / limit < 2 ^ 63 ->
  limiterTarget bytes limit = bytes * Second / limit.
Proof.
  intros Hb Hl Hlim Hfit. unfold limiterTarget.
  pose proof (Z.mod_pos_bound bytes limit Hl) as Hm. pose proof (Z.div_pos bytes limit Hb Hl) as Hq.
  pose proof (Z.div_mod bytes limit ltac:(lia)) as Hdm.
  set (q := bytes / limit) in *. set (m := bytes mod limit) in *.
  assert (bytes * Second / limit = q * Second + m * Second / limit) as Heq.
  { rewrite Hdm. replace ((limit * q + m) * Second) with ((q * Second) * limit + m * Second) by ring.
    apply Z.div_add_l. lia. }
  assert (0 <= m * Second / limit) by (apply Z.div_pos; unfold Second; lia).
  rewrite Heq in *. unfold Second in *.
  rewrite u64_small by (unfold is_u64; nia).
  rewrite (i64_small q) by (unfold is_i64; lia).
  rewrite (i64_small (q * 1000000000)) by (unfold is_i64; lia).
  rewrite (i64_small (m * 1000000000 / limit)) by (unfold is_i64; lia).
  apply i64_small. unfold is_i64. lia.
Qed.

(** ** A concrete seal *)

Definition demoFrozen : dir :=
  Dir (list_to_map [(bs "b.ndjson", 1%nat); (bs "a.ndjson", 0%nat)]) ∅
      (list_to_map [(0%nat, Inode Regular 256 (bs "first") true); (1%nat, Inode Regular 256 [] true)]) 2 [].

Definition demoSealConfig : Config := {|
  FrozenDir := bs "/var/fi/frozen"; GenerationID := bs "g1"; MaxReadBytesPerSecond := 1000;
  SealedDir := bs "/var/fi/sealed" |}.

Definition demoDirState : DirState := {|
  FrozenInfo := Ok {| fi_ino := 1; fi_kind := Directory; fi_perm := 448; fi_size := 0 |};
  MkdirSealed := Ok tt;
  SealedInfo := Ok {| fi_ino := 2; fi_kind := Directory; fi_perm := 448; fi_size := 0 |} |}.

Definition demoSeal (fs : list (option nat)) : res Result * (dir * dir * env) :=
  @Seal asciiUnicode demoZstd demoSealConfig demoDirState (demoFrozen, empty_dir fs, Env [] [3; 9]).

Lemma demoSeal_parts fs :
  @Seal asciiUnicode demoZstd demoSealConfig demoDirState (demoFrozen, empty_dir fs, Env [] [3; 9]) =
    ((demoSeal fs).1, ((demoSeal fs).2.1.1, (demoSeal fs).2.1.2, (demoSeal fs).2.2)).
Proof. fold (demoSeal fs). by destruct (demoSeal fs) as [? [[] ?]]. Qed.
#[local] Opaque Seal.

Lemma Seal_sound_witness :
  exists r, (demoSeal []).1 = Ok r /\ SourceBytes r = 5 /\
    seal_succeeded (H0 := demoZstd) demoSealConfig demoFrozen (empty_dir []) (demoSeal []).2.1.1
      (demoSeal []).2.1.2 r.
Proof.
  assert (exists r, (demoSeal []).1 = Ok r /\ SourceBytes r = 5) as (r & Hr & Hb).
  { eexists. split; vm_compute; reflexivity. }
  exists r. split; [exact Hr|]. split; [exact Hb|].
  eapply (@Seal_sound asciiUnicode demoZstd demoSealConfig demoDirState demoFrozen (empty_dir [])
            (Env [] [3; 9])).
  rewrite <- Hr. exact (demoSeal_parts _).
Defined.

(** The fourth system call on the sealed directory, a write, fails. *)
Lemma Seal_failure_clean_witness :
  exists e, (demoSeal [None; None; None; Some 2%nat]).1 = Err e /\
    seal_failed demoSealConfig demoFrozen (empty_dir [None; None; None; Some 2%nat])
      (demoSeal [None; None; None; Some 2%nat]).2.1.1 (demoSeal [None; None; None; Some 2%nat]).2.1.2.
Proof.
  assert (exists e, (demoSeal [None; None; None; Some 2%nat]).1 = Err e) as (e & He).
  { eexists. vm_compute. reflexivity. }
  exists e. split; [exact He|].
  eapply (@Seal_failure_clean asciiUnicode demoZstd demoSealConfig demoDirState demoFrozen
            (empty_dir [None; None; None; Some 2%nat]) (Env [] [3; 9])).
  rewrite <- He. exact (demoSeal_parts _).
Defined.

Lemma demoSealable : @sealable asciiUnicode demoZstd demoSealConfig demoDirState demoFrozen (empty_dir []).
Proof.
  split; [vm_compute; reflexivity|].
  split; [apply insert_non_empty|].
  split; [|split; [vm_compute; reflexivity|split; [vm_compute; discriminate|by exists tt]]].
  assert (map_Forall (fun n i => validEntryName n = true /\
    exists nd, inodes demoFrozen !! i = Some nd /\ i_kind nd = Regular) (names demoFrozen)) as Hall.
  { apply map_Forall_insert_2; [|apply map_Forall_insert_2; [|apply map_Forall_empty]];
      (split; [vm_compute; reflexivity|by eexists]). }
  intros n i Hn. exact (Hall n i Hn).
Qed.

Lemma demoFrozen_names n i : names demoFrozen !! n = Some i -> len n <= 8.
Proof.
  assert (map_Forall (fun n (_ : nat) => len n <= 8) (names demoFrozen)) as Hall.
  { apply map_Forall_insert_2; [|apply map_Forall_insert_2; [|apply map_Forall_empty]];
      vm_compute; discriminate. }
  exact (Hall n i).
Qed.

Lemma demoShort : short_names demoFrozen.
Proof. intros n i Hn%demoFrozen_names. lia. Qed.

(** Four bytes of framing for each chunk, and a chunk has at least one byte. *)
Lemma chunks_bytes_bound cs : Forall legal_chunk cs -> len (chunks_bytes cs) <= 5 * len (concat cs).
Proof.
  induction 1 as [|c cs [Hc _] _ IH]; [done|]. change (chunks_bytes (c :: cs)) with (chunk_bytes c ++ chunks_bytes cs).
  cbn [concat]. unfold chunk_bytes. rewrite !len_app, len_PutUint32BE. lia.
Qed.

Lemma demoFrozen_data n nd : lookup_file demoFrozen n = Some nd -> len (i_data nd) <= 5.
Proof.
  assert (map_Forall (fun (_ : nat) nd => len (i_data nd) <= 5) (inodes demoFrozen)) as Hall.
  { apply map_Forall_insert_2; [|apply map_Forall_insert_2; [|apply map_Forall_empty]]; vm_compute; discriminate. }
  unfold lookup_file. destruct (names demoFrozen !! n) as [i|]; [|done]. exact (Hall i nd).
Qed.

Lemma demoNoOverflow : @no_overflow demoZstd demoFrozen.
Proof.
  intros fs [] (Hp & _ & _ & _ & Ha) _.
  assert (Forall (fun a => len (artifact_bytes a.1 a.2) <= 49) fs) as Hall.
  { apply Forall_forall. intros [n cs] Hx. rewrite Forall_forall in Ha. destruct (Ha _ Hx) as (_ & Hcs & nd & Hl & Hd).
    cbn [fst snd] in *. pose proof (chunks_bytes_bound cs Hcs). pose proof (demoFrozen_data n nd Hl) as Hn5. rewrite Hd in Hn5.
    unfold lookup_file in Hl. destruct (names demoFrozen !! n) as [i|] eqn:En; [|done]. apply demoFrozen_names in En.
    unfold artifact_bytes, file_end. rewrite !len_app, !len_PutUint32BE, len_PutUint64BE. lia. }
  assert (length fs = 2%nat) as Hlen.
  { apply Permutation_length in Hp. rewrite !length_fmap in Hp. rewrite Hp. vm_compute. reflexivity. }
  destruct fs as [|a [|b [|? ?]]]; try discriminate Hlen. apply Forall_cons in Hall as [H1 [H2 _]%Forall_cons].
  assert (canonical_bytes [a; b] = (canonicalMagic ++ PutUint64BE 2) ++ artifact_bytes a.1 a.2 ++ artifact_bytes b.1 b.2 ++ []) as E
    by (unfold canonical_bytes; by rewrite <- app_assoc; destruct a, b).
  assert (0 < len (canonical_bytes [a; b]) <= 200) as Hb.
  { rewrite E, !len_app, len_PutUint64BE. change (len canonicalMagic) with 27. change (len []) with 0.
    pose proof (len_nonneg (artifact_bytes a.1 a.2)). pose proof (len_nonneg (artifact_bytes b.1 b.2)). lia. }
  split; [unfold max_u64; lia|]. intros ps rest Hcat. rewrite demoZstd_encoded. rewrite <- Hcat, len_app in Hb.
  pose proof (len_nonneg rest). split; [unfold max_u64; lia|]. intros ->. change (len []) with 0 in Hb. lia.
Qed.

Lemma Seal_succeeds_witness :
  exists r f' d' v', demoSeal [] = (Ok r, (f', d', v')) /\
    seal_succeeded (H0 := demoZstd) demoSealConfig demoFrozen (empty_dir []) f' d' r.
Proof.
  apply (@Seal_succeeds asciiUnicode demoZstd demoSealConfig demoDirState demoFrozen (empty_dir []) (Env [] [3; 9]));
    [exact demoSealable|reflexivity|reflexivity|constructor|exact demoShort|exact demoNoOverflow].
Defined.

Lemma limiterTarget_exact_witness : limiterTarget 1500 1000 = 1500000000.
Proof. apply (limiterTarget_exact 1500 1000); vm_compute; congruence. Defined.

Lemma sealed_generation_reads_back_witness :
  exists r desc nd fs, (demoSeal []).1 = Ok r /\
    @DescriptorFromSeal asciiUnicode (bs "FS-01") r = Ok desc /\
    lookup_file (demoSeal []).2.1.2 (bs "generation-g1.figz") = Some nd /\
    frozen_artifacts demoFrozen fs /\
    canonical.ReadCanonicalArtifacts (H := asciiUnicode) desc None (tt, Reader (canonical_bytes fs) EOF) =
      (Ok (SourceBytes r), (tt, Reader [] EOF)).
Proof.
  assert (exists r desc, (demoSeal []).1 = Ok r /\
    @DescriptorFromSeal asciiUnicode (bs "FS-01") r = Ok desc /\ FileCount r = 2) as (r & desc & Hr & Hd & Hc).
  { do 2 eexists. split; [vm_compute; reflexivity|]. split; vm_compute; reflexivity. }
  destruct (@sealed_generation_reads_back asciiUnicode demoZstd demoZstd_codec unit demoSealConfig
    demoDirState demoFrozen (empty_dir []) (Env [] [3; 9]) r (demoSeal []).2.1.1 (demoSeal []).2.1.2
    (demoSeal []).2.2 (bs "FS-01") desc None (fun h _ _ => Some h) tt) as (nd & fs & H1 & H2 & H3 & H4).
  - rewrite <- Hr. exact (demoSeal_parts []).
  - exact Hd.
  - rewrite Hc. vm_compute. discriminate.
  - intros n i Hn%demoFrozen_names. unfold canonical.maxCanonicalArtifactNameBytes. lia.
  - apply canonical.no_handler_runs.
  - exists r, desc, nd, fs. split; [exact Hr|]. split; [exact Hd|]. split; [exact H1|].
    split; [exact H2|]. apply H4. clear. by induction fs.
Defined.

End sealer.
