(* ===== verification/GenerationProtocol.v ===== *)
(** * The generation transfer protocol

    Models [go/internal/transportgeneration]: the JSON envelope of signed metadata
    ([signed_json.go]), the offer, decision and acknowledgement messages
    ([protocol.go]) and the receiver's single pass over a transfer
    ([receive.go]). [encoding/json] is used through the interface [JSON]. *)

From S2P Require Import Prelude GoBytes GoStrings Sha256 GoIO Pki TransportEncoding TransportTrust TransportGeneration GenerationCanonical.

(** [json.Marshal], and [Decode] of a [json.Decoder] with [DisallowUnknownFields]: the
    first value of the input and what follows it. *)
Class JSON (A : Type) := {
  json_Marshal : A -> res bytes;
  json_Decode : bytes -> res (A * bytes)
}.

(** The text of a struct whose strings are valid UTF-8 ([json_ok]) is one JSON object:
    decoding it gives the value back and stops after its closing brace. *)
Class JSONLaws (A : Type) `{JSON A} := {
  json_ok : A -> Prop;
  json_delimited a raw rest : json_ok a -> json_Marshal a = Ok raw -> json_Decode (raw ++ rest) = Ok (a, rest)
}.

Lemma json_round_trip {A} `{JSONLaws A} a raw :
  json_ok a -> json_Marshal a = Ok raw -> json_Decode raw = Ok (a, []).
Proof. intros Hok Hm. rewrite <- (app_nil_r raw). by apply json_delimited. Qed.

(** A codec that knows one value and one text for it. *)
Definition fixedJSON {A} (a : A) (text : bytes) : JSON A :=
  {| json_Marshal := fun _ => Ok text;
     json_Decode := fun raw => if HasPrefix raw text then Ok (a, drop (length text) raw)
                               else Err (Errorf "json: unexpected text") |}.
Definition fixedJSON_laws {A} (a : A) (text : bytes) : @JSONLaws A (fixedJSON a text).
Proof.
  refine (@Build_JSONLaws A (fixedJSON a text) (fun x => x = a) _).
  intros x raw rest -> [= <-]. cbn. rewrite (proj2 (HasPrefix_spec _ _)) by eauto.
  by rewrite drop_app_length.
Defined.

(** A second [Decode] reports [io.EOF] exactly when only white space is left. *)
Definition json_space (c : byte) : bool :=
  bool_decide (c = z2b 32) || bool_decide (c = z2b 9) || bool_decide (c = z2b 10) || bool_decide (c = z2b 13).

Definition json_DecodeOnly {A} `{JSON A} (what trailing : string) (raw : bytes) : res A :=
  let? (value, rest) := wrap what (json_Decode raw) in
  fail? negb (forallb json_space rest) with Errorf trailing ;;
  Ok value.

Module protocol.
Import transportgeneration.

Definition OfferMagic : bytes := bs "FIGO0001".
Definition DecisionMagic : bytes := bs "FIGD0001".
Definition AcknowledgementMagic : bytes := bs "FIGA0001".
Definition OfferVersion : bytes := bs "fi-generation-offer/0.1".
Definition DecisionVersion : bytes := bs "fi-generation-decision/0.1".
Definition AcknowledgementVersion : bytes := bs "fi-generation-acknowledgement/0.1".
Definition AcknowledgementOutcomeRecorded : bytes := bs "recorded".
Definition AcknowledgementOutcomeAlreadyRecorded : bytes := bs "already_recorded".
Definition protocolHeaderBytes : Z := 12.
Definition maxProtocolJSONBytes : Z := 64 * 2 ^ 10.
Definition maxSignedGenerationMetadataBytes : Z := 512 * 2 ^ 10.
Definition TransferMagic : bytes := bs "FIGT0001".
Definition transferHeaderBytes : Z := 20.

Record Offer := {
  OfferVersionText : bytes;
  OfferDescriptor : Descriptor;
  OfferMetadataBytes : Z;
  OfferMetadataSHA256 : bytes
}.

Record Decision := {
  DecisionVersionText : bytes;
  DecisionSourceID : bytes;
  DecisionGenerationID : bytes;
  Accepted : bool;
  Reason : bytes
}.

Record Acknowledgement := {
  AckVersionText : bytes;
  AckOutcome : bytes;
  AckDescriptor : Descriptor;
  AckMetadataBytes : Z;
  AckMetadataSHA256 : bytes;
  AckTransferBytes : Z;
  AckTransferSHA256 : bytes
}.

Record TransferResult := {
  ResultDescriptor : Descriptor;
  MetadataBytes : Z;
  MetadataSHA256 : bytes;
  PayloadBytes : Z;
  PayloadSHA256 : bytes;
  TransferBytes : Z;
  TransferSHA256 : bytes
}.

#[global] Instance TransferResult_eq_decision : EqDecision TransferResult.
Proof. solve_decision. Defined.

Section Messages.
Context `{Unicode} `{X509}.

(** ** Signed metadata *)

Definition MarshalSignedGeneration `{JSON SignedGeneration} (value : SignedGeneration) : res bytes :=
  check? validateSignedGenerationCryptographically value ;;
  let? raw := wrap "marshal signed FI generation metadata: %w" (json_Marshal value) in
  fail? (len raw =? 0) || (maxSignedGenerationMetadataBytes <? len raw)
    with Errorf "signed FI generation metadata size is outside bounds" ;;
  Ok raw.

Definition UnmarshalSignedGeneration `{JSON SignedGeneration} (raw : bytes) : res SignedGeneration :=
  fail? (len raw =? 0) || (maxSignedGenerationMetadataBytes <? len raw)
    with Errorf "signed FI generation metadata size is outside bounds" ;;
  let? value := json_DecodeOnly "decode signed FI generation metadata: %w"
                  "signed FI generation metadata contains trailing JSON" raw in
  check? validateSignedGenerationCryptographically value ;;
  Ok value.

(** ** Offers and decisions *)

Definition Offer_Validate (offer : Offer) : res unit :=
  fail? negb (bool_decide (OfferVersionText offer = OfferVersion))
    with Errorf "invalid FI generation offer version" ;;
  check? wrap "invalid FI generation offer descriptor: %w" (Validate (OfferDescriptor offer)) ;;
  fail? (OfferMetadataBytes offer =? 0) || (maxSignedGenerationMetadataBytes <? OfferMetadataBytes offer)
    with Errorf "FI generation offer metadata byte count is outside bounds" ;;
  check? validateSHA256 "metadata SHA-256" (OfferMetadataSHA256 offer) ;;
  Ok tt.

Definition Decision_Validate (decision : Decision) : res unit :=
  fail? negb (bool_decide (DecisionVersionText decision = DecisionVersion))
    with Errorf "invalid FI generation decision version" ;;
  check? validateTextIdentity "source ID" (DecisionSourceID decision) ;;
  check? validateTextIdentity "generation ID" (DecisionGenerationID decision) ;;
  fail? ContainsAny (DecisionGenerationID decision) path_separators
    with Errorf "generation ID must not contain path separators" ;;
  if Accepted decision then
    fail? negb (bool_decide (Reason decision = []))
      with Errorf "accepted FI generation decision must not include a rejection reason" ;;
    Ok tt
  else
    match validateTextIdentity "decision reason" (Reason decision) with
    | Ok _ => Ok tt
    | Err _ => Err (Errorf "rejected FI generation decision requires a valid reason")
    | Panic => Panic
    end.

Definition NewDecision (offer : Offer) (accepted : bool) (reason : bytes) : res Decision :=
  check? Offer_Validate offer ;;
  let decision := {|
    DecisionVersionText := DecisionVersion;
    DecisionSourceID := SourceID (OfferDescriptor offer);
    DecisionGenerationID := GenerationID (OfferDescriptor offer);
    Accepted := accepted;
    Reason := reason |} in
  check? Decision_Validate decision ;;
  Ok decision.

Definition DecisionMatchesOffer (decision : Decision) (offer : Offer) : res unit :=
  check? Decision_Validate decision ;;
  check? Offer_Validate offer ;;
  fail? negb (bool_decide (DecisionSourceID decision = SourceID (OfferDescriptor offer))) ||
        negb (bool_decide (DecisionGenerationID decision = GenerationID (OfferDescriptor offer)))
    with Errorf "FI generation decision does not match offered generation identity" ;;
  Ok tt.

(** ** Acknowledgements *)

Definition Acknowledgement_Validate (ack : Acknowledgement) : res unit :=
  fail? negb (bool_decide (AckVersionText ack = AcknowledgementVersion))
    with Errorf "invalid FI generation acknowledgement version" ;;
  fail? negb (bool_decide (AckOutcome ack = AcknowledgementOutcomeRecorded)) &&
        negb (bool_decide (AckOutcome ack = AcknowledgementOutcomeAlreadyRecorded))
    with Errorf "invalid FI generation acknowledgement outcome" ;;
  check? wrap "invalid FI generation acknowledgement descriptor: %w" (Validate (AckDescriptor ack)) ;;
  fail? (AckMetadataBytes ack =? 0) || (maxSignedGenerationMetadataBytes <? AckMetadataBytes ack)
    with Errorf "FI generation acknowledgement metadata byte count is outside bounds" ;;
  check? validateSHA256 "metadata SHA-256" (AckMetadataSHA256 ack) ;;
  check? validateSHA256 "transfer SHA-256" (AckTransferSHA256 ack) ;;
  let expectedTransferBytes := transferHeaderBytes in
  fail? max_u64 - expectedTransferBytes <? AckMetadataBytes ack
    with Errorf "FI generation acknowledgement transfer byte count overflow" ;;
  let expectedTransferBytes := u64 (expectedTransferBytes + AckMetadataBytes ack) in
  fail? max_u64 - expectedTransferBytes <? EncodedDataBytes (AckDescriptor ack)
    with Errorf "FI generation acknowledgement transfer byte count overflow" ;;
  let expectedTransferBytes := u64 (expectedTransferBytes + EncodedDataBytes (AckDescriptor ack)) in
  fail? negb (AckTransferBytes ack =? expectedTransferBytes)
    with Errorf "FI generation acknowledgement transfer byte count is inconsistent" ;;
  Ok tt.

Definition NewAcknowledgement (outcome : bytes) (result : TransferResult) : res Acknowledgement :=
  let acknowledgement := {|
    AckVersionText := AcknowledgementVersion;
    AckOutcome := outcome;
    AckDescriptor := ResultDescriptor result;
    AckMetadataBytes := MetadataBytes result;
    AckMetadataSHA256 := MetadataSHA256 result;
    AckTransferBytes := TransferBytes result;
    AckTransferSHA256 := TransferSHA256 result |} in
  check? Acknowledgement_Validate acknowledgement ;;
  Ok acknowledgement.

Definition AcknowledgementMatches (ack : Acknowledgement) (result : TransferResult) : res unit :=
  check? Acknowledgement_Validate ack ;;
  check? wrap "invalid FI generation transfer result descriptor: %w"
           (Validate (ResultDescriptor result)) ;;
  fail? negb (bool_decide (AckDescriptor ack = ResultDescriptor result))
    with Errorf "FI generation acknowledgement descriptor does not match transmitted generation" ;;
  fail? negb (AckMetadataBytes ack =? MetadataBytes result) ||
        negb (bool_decide (AckMetadataSHA256 ack = MetadataSHA256 result))
    with Errorf "FI generation acknowledgement metadata identity does not match transmitted generation" ;;
  fail? negb (AckTransferBytes ack =? TransferBytes result) ||
        negb (bool_decide (AckTransferSHA256 ack = TransferSHA256 result))
    with Errorf "FI generation acknowledgement transfer identity does not match transmitted generation" ;;
  Ok tt.

(** ** Framing *)

(** [writeAllProtocol] is [writeAll]. *)
Definition writeProtocolJSON {W A} `{Writer W} `{JSON A} (magic : bytes) (value : A) : prog W unit :=
  fail! negb (len magic =? 8) with Errorf "FI generation protocol magic must be exactly 8 bytes" ;;
  let! raw := lift (json_Marshal value) in
  fail! (len raw =? 0) || (maxProtocolJSONBytes <? len raw)
    with Errorf "FI generation protocol JSON size is outside bounds" ;;
  let header := magic ++ PutUint32BE (u32 (len raw)) in
  check! writeAll header ;;
  writeAll raw.

Definition readProtocolJSON {A} `{JSON A} (expectedMagic : bytes) : prog reader A :=
  let! header := wrap_err "read FI generation protocol header: %w" (ReadFull protocolHeaderBytes) in
  fail! negb (bool_decide (sub 0 8 header = expectedMagic))
    with Errorf "unexpected FI generation protocol magic" ;;
  let length := be_get (sub 8 12 header) in
  fail! (length =? 0) || (maxProtocolJSONBytes <? length)
    with Errorf "FI generation protocol JSON length is outside bounds" ;;
  let! raw := wrap_err "read FI generation protocol JSON: %w" (ReadFull length) in
  lift (json_DecodeOnly "decode FI generation protocol JSON: %w"
          "FI generation protocol JSON contains trailing content" raw).

Definition WriteOffer {W} `{Writer W} `{JSON Offer} (offer : Offer) : prog W unit :=
  check! lift (Offer_Validate offer) ;;
  writeProtocolJSON OfferMagic offer.

Definition ReadOffer `{JSON Offer} : prog reader Offer :=
  let! offer := readProtocolJSON OfferMagic in
  check! lift (Offer_Validate offer) ;;
  ret offer.

Definition WriteDecision {W} `{Writer W} `{JSON Decision} (decision : Decision) : prog W unit :=
  check! lift (Decision_Validate decision) ;;
  writeProtocolJSON DecisionMagic decision.

Definition ReadDecision `{JSON Decision} : prog reader Decision :=
  let! decision := readProtocolJSON DecisionMagic in
  check! lift (Decision_Validate decision) ;;
  ret decision.

Definition WriteAcknowledgement {W} `{Writer W} `{JSON Acknowledgement} (ack : Acknowledgement)
  : prog W unit :=
  check! lift (Acknowledgement_Validate ack) ;;
  writeProtocolJSON AcknowledgementMagic ack.

Definition ReadAcknowledgement `{JSON Acknowledgement} : prog reader Acknowledgement :=
  let! ack := readProtocolJSON AcknowledgementMagic in
  check! lift (Acknowledgement_Validate ack) ;;
  ret ack.

End Messages.

(** ** The receiver: [receive.go] *)

Record ReceiveConfig := {
  BatchCRL : option RevocationList;
  BatchIssuer : option Certificate;
  CurrentTime : Z;
  MaxCanonicalBytes : Z;
  MaxEncodedBytes : Z;
  Root : option Certificate;
  Source : transporttrust.SourceAuthorization
}.

Section Receiving.
Context `{Unicode} `{X509} `{Zstd} `{JSON SignedGeneration}.

Definition validateReceiveConfig (config : ReceiveConfig) : res unit :=
  match BatchCRL config with
  | None => Err (Errorf "FI generation batch-signing CRL is required")
  | Some _ =>
  match BatchIssuer config with
  | None => Err (Errorf "FI generation batch-signing issuer is required")
  | Some _ =>
  fail? IsZero (CurrentTime config) with Errorf "FI generation receiver current time is required" ;;
  fail? (MaxCanonicalBytes config =? 0) || (2 ^ 63 - 1 <? MaxCanonicalBytes config)
    with Errorf "FI generation maximum canonical byte count is outside bounds" ;;
  fail? (MaxEncodedBytes config =? 0) || (2 ^ 63 - 1 <? MaxEncodedBytes config)
    with Errorf "FI generation maximum encoded byte count is outside bounds" ;;
  match Root config with
  | None => Err (Errorf "FI generation root certificate is required")
  | Some _ =>
  check? validateTextIdentity "source ID" (transporttrust.SourceID (Source config)) ;;
  Ok tt
  end end end.

(** Everything that is decided before the first byte is read. *)
Definition admitTransfer (offer : Offer) (config : ReceiveConfig) : res unit :=
  check? wrap "validate FI generation offer before transfer: %w" (Offer_Validate offer) ;;
  check? validateReceiveConfig config ;;
  let descriptor := OfferDescriptor offer in
  fail? negb (bool_decide (SourceID descriptor = transporttrust.SourceID (Source config)))
    with Errorf "FI generation source ID %q does not match enrolled source %q" ;;
  fail? canonical.maxReceiveArtifactCount <? ArtifactCount descriptor
    with Errorf "FI generation artifact count %d exceeds structural safety limit %d" ;;
  fail? MaxCanonicalBytes config <? CanonicalBytes descriptor
    with Errorf "FI generation canonical bytes %d exceed receiver limit %d" ;;
  fail? MaxEncodedBytes config <? EncodedDataBytes descriptor
    with Errorf "FI generation encoded bytes %d exceed receiver limit %d" ;;
  Ok tt.

(** The checks on the framing header; returns the two lengths. *)
Definition transferLengths (offer : Offer) (header : bytes) : res (Z * Z) :=
  fail? negb (bool_decide (sub 0 8 header = TransferMagic))
    with Errorf "unexpected FI generation transfer magic" ;;
  let metadataBytes := be_get (sub 8 12 header) in
  let payloadBytes := be_get (sub 12 20 header) in
  fail? negb (metadataBytes =? OfferMetadataBytes offer)
    with Errorf "FI generation transfer metadata byte count does not match offer" ;;
  fail? negb (payloadBytes =? EncodedDataBytes (OfferDescriptor offer))
    with Errorf "FI generation transfer payload byte count does not match signed descriptor" ;;
  fail? (metadataBytes =? 0) || (maxSignedGenerationMetadataBytes <? metadataBytes)
    with Errorf "FI generation transfer metadata byte count is outside bounds" ;;
  Ok (metadataBytes, payloadBytes).

(** The checks on the metadata: digest, signature, descriptor, certificate. *)
Definition trustMetadata (offer : Offer) (config : ReceiveConfig) (metadata : bytes) : res unit :=
  fail? negb (bool_decide (sha256_hex metadata = OfferMetadataSHA256 offer))
    with Errorf "FI generation transfer metadata SHA-256 does not match offer" ;;
  let? signed := wrap "validate signed FI generation metadata: %w" (UnmarshalSignedGeneration metadata) in
  fail? negb (bool_decide (SignedDescriptor signed = OfferDescriptor offer))
    with Errorf "FI generation transfer metadata descriptor does not match offer" ;;
  let? certificate := BatchSigningCertificate signed in
  let '(outcome, err) := transporttrust.VerifyBatchSigningCertificate (Some certificate) (Root config)
    (BatchIssuer config) (BatchCRL config) (Source config) (CurrentTime config) in
  check? wrap "authorize FI generation batch-signing certificate: %w" err ;;
  fail? negb (bool_decide (outcome = transporttrust.AuthorizationAuthorized))
    with Errorf "FI generation batch-signing authorization rejected: %s" ;;
  Ok tt.

(** The comparisons after the payload was read: [sourceBytes] from the canonical
    reader, [rest] what the decoder still had, [consumed] the encoded bytes it took,
    [taken] the decoded bytes read and [encoded] the encoded ones. *)
Definition comparePayload (descriptor : Descriptor) (payloadBytes sourceBytes : Z) (rest : reader)
    (consumed : Z) (taken encoded : bytes) : res unit :=
  fail? negb (bool_decide (rd_data rest = [])) || negb (errors_Is (rd_end rest) EOF)
    with Errorf "FI generation canonical payload contains trailing decoded bytes" ;;
  fail? negb (payloadBytes - consumed =? 0)
    with Errorf "FI generation encoded payload contains unread bytes" ;;
  fail? negb (sourceBytes =? SourceBytes descriptor)
    with Errorf "FI generation source byte count %d does not match signed descriptor %d" ;;
  fail? negb (len taken =? CanonicalBytes descriptor)
    with Errorf "FI generation canonical byte count %d does not match signed descriptor %d" ;;
  fail? negb (bool_decide (sha256_hex taken = CanonicalSHA256 descriptor))
    with Errorf "FI generation canonical SHA-256 does not match signed descriptor" ;;
  fail? negb (bool_decide (sha256_hex encoded = EncodedDataSHA256 descriptor))
    with Errorf "FI generation encoded SHA-256 does not match signed descriptor" ;;
  Ok tt.

(** The arithmetic on the transfer size. *)
Definition expectedTransfer (metadataBytes payloadBytes : Z) : res Z :=
  let expectedTransferBytes := transferHeaderBytes in
  fail? max_u64 - expectedTransferBytes <? metadataBytes
    with Errorf "FI generation transfer byte count overflow" ;;
  let expectedTransferBytes := u64 (expectedTransferBytes + metadataBytes) in
  fail? max_u64 - expectedTransferBytes <? payloadBytes
    with Errorf "FI generation transfer byte count overflow" ;;
  Ok (u64 (expectedTransferBytes + payloadBytes)).

(** The payload, decoded and validated while it is read. The two [io.TeeReader]s are
    the bytes taken from the stream and from the decoder; their counters can overflow
    only beyond 2^64 bytes. *)
Definition receivePayload {H} (offer : Offer) (handler : option (canonical.handler_fn H))
    (header metadata : bytes) (payloadBytes : Z) : prog (H * reader) TransferResult := fun '(h, r) =>
  let descriptor := OfferDescriptor offer in
  let limitedReader := limited payloadBytes r in
  match transportencoding.NewZstdDecoder limitedReader with
  | Err e => (Err e, (h, r))
  | Panic => (Panic, (h, r))
  | Ok (decoder, consumed) =>
      let after := Reader (drop (Z.to_nat consumed) (rd_data r)) (rd_end r) in
      let encoded := take (Z.to_nat consumed) (rd_data limitedReader) in
      let '(read, (h, rest)) := canonical.ReadCanonicalArtifacts descriptor handler (h, decoder) in
      let taken := take (length (rd_data decoder) - length (rd_data rest)) (rd_data decoder) in
      let transfer := header ++ metadata ++ encoded in
      (let? sourceBytes := wrap "validate FI generation canonical payload: %w" read in
       check? comparePayload descriptor payloadBytes sourceBytes rest consumed taken encoded ;;
       let? expectedTransferBytes := expectedTransfer (len metadata) payloadBytes in
       fail? negb (len transfer =? expectedTransferBytes)
         with Errorf "FI generation transfer byte count %d does not match expected %d" ;;
       Ok {| ResultDescriptor := descriptor;
             MetadataBytes := len metadata;
             MetadataSHA256 := sha256_hex metadata;
             PayloadBytes := payloadBytes;
             PayloadSHA256 := sha256_hex encoded;
             TransferBytes := len transfer;
             TransferSHA256 := sha256_hex transfer |}, (h, after))
  end.

Definition readValidatedTransfer {H} (offer : Offer) (config : ReceiveConfig)
    (handler : option (canonical.handler_fn H)) : prog (H * reader) TransferResult :=
  check! lift (admitTransfer offer config) ;;
  let! header := canonical.on_stream (wrap_err "read FI generation transfer header: %w"
                                        (ReadFull transferHeaderBytes)) in
  let! (metadataBytes, payloadBytes) := lift (transferLengths offer header) in
  let! metadata := canonical.on_stream (wrap_err "read FI generation transfer metadata: %w"
                                          (ReadFull metadataBytes)) in
  check! lift (trustMetadata offer config metadata) ;;
  receivePayload offer handler header metadata payloadBytes.

Definition ReadValidatedTransfer (offer : Offer) (config : ReceiveConfig)
  : prog (unit * reader) TransferResult := readValidatedTransfer offer config None.

End Receiving.

(** ** Messages survive the wire *)

Definition frame_json (magic raw : bytes) : bytes := magic ++ PutUint32BE (len raw) ++ raw.

(** What a successful write sent: one framed JSON text. *)
Lemma writeProtocolJSON_Ok {W A} `{WriterLaws W} `{JSON A} magic (value : A) (w w' : W) :
  writeProtocolJSON magic value w = (Ok tt, w') ->
  len magic = 8 /\ exists raw, json_Marshal value = Ok raw /\ 0 < len raw <= maxProtocolJSONBytes /\
    written w' = written w ++ frame_json magic raw.
Proof.
  unfold writeProtocolJSON. destruct (negb _) eqn:Em; [done|]. bool_hyps.
  intros (raw & Hraw & Hw)%bind_lift_Ok. destruct (_ || _) eqn:Eb in Hw; [done|]. bool_hyps.
  pose proof (len_nonneg raw). split; [lia|]. exists raw. split_and!; try done; try lia.
  rewrite u32_small in Hw by (unfold is_u32, maxProtocolJSONBytes in *; lia).
  unfold frame_json. rewrite (app_assoc magic).
  eapply emits_Ok; [apply emits_seq; apply writeAll_emits|exact Hw].
Qed.

Lemma readProtocolJSON_layout {A} `{JSON A} magic raw (value : A) rest e :
  len magic = 8 -> 0 < len raw <= maxProtocolJSONBytes -> json_Decode raw = Ok (value, []) ->
  readProtocolJSON magic (Reader (frame_json magic raw ++ rest) e) = (Ok value, Reader rest e).
Proof.
  intros Hm Hr Hd. unfold readProtocolJSON, protocolHeaderBytes, frame_json. rewrite <- !app_assoc.
  rewrite (app_assoc magic), bind_read by (rewrite len_app, len_PutUint32BE; lia).
  rewrite sub_here, bool_decide_eq_true_2 by done. cbn [negb].
  rewrite (sub_skip 8 12 magic _ 8) by lia. rewrite sub_whole by apply len_PutUint32BE.
  rewrite be_get_PutUint32 by (unfold is_u32, maxProtocolJSONBytes in *; lia).
  replace ((len raw =? 0) || (maxProtocolJSONBytes <? len raw)) with false by lia.
  rewrite bind_read by done. unfold lift, json_DecodeOnly. by rewrite Hd.
Qed.

(** A message type with its validation: write, then read. *)
Lemma message_round_trip {W A} `{WriterLaws W} `{JSONLaws A} magic (validate : A -> res unit) value
    (w w' : W) rest e :
  json_ok value ->
  (check! lift (validate value) ;; writeProtocolJSON magic value) w = (Ok tt, w') ->
  exists out, written w' = written w ++ out /\
    (let! v := readProtocolJSON magic in check! lift (validate v) ;; ret v) (Reader (out ++ rest) e) =
      (Ok value, Reader rest e).
Proof.
  intros Hok Hw. apply bind_lift_Ok in Hw as ([] & Hv & Hw).
  apply writeProtocolJSON_Ok in Hw as (Hm & raw & Hraw & Hb & Hout).
  exists (frame_json magic raw). split; [done|]. unfold bind at 1.
  rewrite (readProtocolJSON_layout magic raw value); [|done|done|by apply json_round_trip].
  unfold bind, lift. by rewrite Hv.
Qed.

Section Proofs.
Context `{Unicode} `{X509}.

(** An offer survives the wire: what [WriteOffer] put on any writer that follows
    the [io.Writer] contract is read back by [ReadOffer] as the same offer, and the
    reader stops at the first byte after it. *)
Theorem WriteOffer_ReadOffer {W} `{WriterLaws W} `{JSONLaws Offer} offer (w w' : W) rest e :
  json_ok offer -> WriteOffer offer w = (Ok tt, w') ->
  exists out, written w' = written w ++ out /\
    ReadOffer (Reader (out ++ rest) e) = (Ok offer, Reader rest e).
Proof. apply (message_round_trip OfferMagic Offer_Validate). Qed.

Lemma NewDecision_Ok offer accepted reason decision :
  NewDecision offer accepted reason = Ok decision ->
  DecisionMatchesOffer decision offer = Ok tt /\ Accepted decision = accepted /\
  Decision_Validate decision = Ok tt /\ Offer_Validate offer = Ok tt.
Proof.
  unfold NewDecision. intros Hd. res_inv Hd. destruct v, v0.
  split_and!; try done. unfold DecisionMatchesOffer. rewrite E0, E. cbn.
  by rewrite !bool_decide_eq_true_2.
Qed.

(** The receiver's answer reaches the sender as given: a decision made for an
    offer is read back unchanged and matches that offer, and a decision matches only
    offers of the generation it names. *)
Theorem decision_end_to_end {W} `{WriterLaws W} `{JSONLaws Decision} offer accepted reason decision
    (w w' : W) rest e :
  json_ok decision -> NewDecision offer accepted reason = Ok decision ->
  WriteDecision decision w = (Ok tt, w') ->
  exists out, written w' = written w ++ out /\
    ReadDecision (Reader (out ++ rest) e) = (Ok decision, Reader rest e) /\
    DecisionMatchesOffer decision offer = Ok tt /\ Accepted decision = accepted /\
    forall other, DecisionMatchesOffer decision other = Ok tt ->
      SourceID (OfferDescriptor other) = SourceID (OfferDescriptor offer) /\
      GenerationID (OfferDescriptor other) = GenerationID (OfferDescriptor offer).
Proof.
  intros Hok Hd Hw.
  destruct (message_round_trip DecisionMagic Decision_Validate decision w w' rest e Hok Hw) as (out & Hout & Hread).
  destruct (NewDecision_Ok _ _ _ _ Hd) as (D1 & D2 & _). exists out. split_and!; try done.
  intros other Ho. unfold DecisionMatchesOffer in D1, Ho. res_inv D1. res_inv Ho. bool_hyps.
  split; congruence.
Qed.

(** The validity of an acknowledgement made from a transfer. *)
Lemma AcknowledgementMatches_Ok ack result :
  AcknowledgementMatches ack result = Ok tt <->
  Acknowledgement_Validate ack = Ok tt /\ Validate (ResultDescriptor result) = Ok tt /\
  AckDescriptor ack = ResultDescriptor result /\
  (AckMetadataBytes ack = MetadataBytes result /\ AckMetadataSHA256 ack = MetadataSHA256 result) /\
  (AckTransferBytes ack = TransferBytes result /\ AckTransferSHA256 ack = TransferSHA256 result).
Proof. unfold AcknowledgementMatches. res_iff. tauto. Qed.

(** The acknowledgement of a recorded generation, end to end: the receiver's
    acknowledgement of a transfer is read back by the sender unchanged and matches the
    transfer the sender made; it matches no transfer whose descriptor, metadata or
    transmitted bytes (by size and SHA-256) differ. *)
Theorem generation_acknowledgement_end_to_end {W} `{WriterLaws W} `{JSONLaws Acknowledgement}
    outcome result ack (w w' : W) rest e :
  json_ok ack -> NewAcknowledgement outcome result = Ok ack -> WriteAcknowledgement ack w = (Ok tt, w') ->
  exists out, written w' = written w ++ out /\
    ReadAcknowledgement (Reader (out ++ rest) e) = (Ok ack, Reader rest e) /\
    AcknowledgementMatches ack result = Ok tt /\
    forall other, AcknowledgementMatches ack other = Ok tt ->
      ResultDescriptor other = ResultDescriptor result /\
      (MetadataBytes other = MetadataBytes result /\ MetadataSHA256 other = MetadataSHA256 result) /\
      (TransferBytes other = TransferBytes result /\ TransferSHA256 other = TransferSHA256 result).
Proof.
  intros Hok Ha Hw.
  destruct (message_round_trip AcknowledgementMagic Acknowledgement_Validate ack w w' rest e Hok Hw)
    as (out & Hout & Hread).
  exists out. split; [done|]. split; [done|].
  unfold NewAcknowledgement in Ha. res_inv Ha. destruct v.
  set (ack := {| AckVersionText := AcknowledgementVersion |}) in *.
  split.
  - apply AcknowledgementMatches_Ok. split; [done|]. split; [|done].
    unfold Acknowledgement_Validate in E. res_inv E. by destruct v.
  - intros other (_ & _ & O1 & [O2 O3] & [O4 O5])%AcknowledgementMatches_Ok. cbn in *.
    rewrite <- O1, <- O2, <- O3, <- O4, <- O5. done.
Qed.

End Proofs.

(** ** What an accepted transfer is *)

Section Transfers.
Context `{Unicode} `{X509} `{Zstd} `{JSON SignedGeneration}.

Definition transfer_wire (metadata payload : bytes) : bytes :=
  TransferMagic ++ PutUint32BE (len metadata) ++ PutUint64BE (len payload) ++ metadata ++ payload.

Definition transfer_result (offer : Offer) (metadata payload : bytes) : TransferResult := {|
  ResultDescriptor := OfferDescriptor offer;
  MetadataBytes := len metadata;
  MetadataSHA256 := sha256_hex metadata;
  PayloadBytes := len payload;
  PayloadSHA256 := sha256_hex payload;
  TransferBytes := len (transfer_wire metadata payload);
  TransferSHA256 := sha256_hex (transfer_wire metadata payload) |}.

(** The metadata is signed by a certificate accepted for the enrolled source. *)
Definition trusted_metadata (offer : Offer) (config : ReceiveConfig) (metadata : bytes) : Prop :=
  exists signed c n e root issuer crl,
    UnmarshalSignedGeneration metadata = Ok signed /\ SignedDescriptor signed = OfferDescriptor offer /\
    ParseCertificate (BatchSigningCertificateDER signed) = Ok c /\ PublicKey c = RSAKey n e /\
    VerifyPSS (n, e) (sha256 (layout (OfferDescriptor offer))) (Signature signed) = Ok tt /\
    Root config = Some root /\ BatchIssuer config = Some issuer /\ BatchCRL config = Some crl /\
    transporttrust.accepted_batch_leaf c root issuer crl (Source config) (CurrentTime config).

(** The payload decodes to the canonical stream of [fs] the descriptor describes. *)
Definition valid_payload (d : Descriptor) (payload : bytes) (fs : list (bytes * list bytes)) : Prop :=
  len payload = EncodedDataBytes d /\ sha256_hex payload = EncodedDataSHA256 d /\
  (exists x, transportencoding.NewZstdDecoder (Reader payload EOF) =
       Ok (Reader (generationsealer.canonical_bytes fs) x, len payload) /\ errors_Is x EOF = true) /\
  len fs = ArtifactCount d /\ Forall canonical.valid_artifact fs /\ strictly_sorted fs.*1 /\
  canonical.total_bytes fs = SourceBytes d /\
  len (generationsealer.canonical_bytes fs) = CanonicalBytes d /\
  sha256_hex (generationsealer.canonical_bytes fs) = CanonicalSHA256 d.

Lemma transferLengths_Ok offer header mb pb :
  len header = 20 -> transferLengths offer header = Ok (mb, pb) ->
  header = TransferMagic ++ PutUint32BE mb ++ PutUint64BE pb /\ mb = OfferMetadataBytes offer /\
  pb = EncodedDataBytes (OfferDescriptor offer) /\ is_u64 pb /\ 0 < mb <= maxSignedGenerationMetadataBytes.
Proof.
  intros Hl Ht. unfold transferLengths in Ht. res_inv Ht. bool_hyps.
  assert (len (sub 8 12 header) = 4) as L4 by (rewrite len_sub; lia).
  assert (len (sub 12 20 header) = 8) as L8 by (rewrite len_sub; lia).
  pose proof (be_get_range (sub 8 12 header)). pose proof (be_get_u64 _ L8).
  split_and!; try done; try lia.
  rewrite PutUint32BE_get, PutUint64BE_get by done.
  rewrite <- (sub_whole 20 header) at 1 by done.
  rewrite (sub_split 0 8 20), (sub_split 8 12 20) by lia. by f_equal.
Qed.

Lemma trustMetadata_Ok offer config metadata :
  trustMetadata offer config metadata = Ok tt ->
  sha256_hex metadata = OfferMetadataSHA256 offer /\ trusted_metadata offer config metadata.
Proof.
  unfold trustMetadata. intros Ht. res_inv Ht.
  destruct (transporttrust.VerifyBatchSigningCertificate _ _ _ _ _ _) as [o err] eqn:Ev.
  res_inv Ht. bool_hyps. destruct v1. subst err. split; [done|].
  apply transporttrust.VerifyBatchSigningCertificate_Ok in Ev as
    (_ & l & r & i & c & [= <-] & Hr & Hi & Hc & Ha).
  assert (validateSignedGenerationCryptographically v = Ok tt) as Hcr.
  { unfold UnmarshalSignedGeneration in E. res_inv E. by destruct v2. }
  apply cryptographically_valid in Hcr as (_ & c' & n & e & Hp & Hk & _ & _ & Hs).
  unfold BatchSigningCertificate in E0. res_inv E0.
  match goal with P : ParseCertificate _ = Ok ?x |- _ =>
    lazymatch x with c' => fail | _ => assert (x = c') by congruence; subst x end end.
  exists v, c', n, e, r, i, c. split_and!; try done. congruence.
Qed.

Lemma expectedTransfer_Ok mb pb n :
  0 <= mb -> 0 <= pb -> expectedTransfer mb pb = Ok n -> n = 20 + mb + pb.
Proof.
  intros Hmb Hpb He. unfold expectedTransfer, transferHeaderBytes in He. res_inv He.
  unfold max_u64 in *. rewrite (u64_small (20 + mb)) in * by (unfold is_u64; lia).
  rewrite u64_small by (unfold is_u64; lia). done.
Qed.

Lemma receivePayload_Ok `{!ZstdLaws} {Hs} offer (handler : option (canonical.handler_fn Hs)) Step header metadata
    pb h r result h' r' :
  canonical.handler_steps handler Step -> header = TransferMagic ++ PutUint32BE (len metadata) ++ PutUint64BE pb ->
  is_u64 pb -> pb = EncodedDataBytes (OfferDescriptor offer) ->
  receivePayload offer handler header metadata pb (h, r) = (Ok result, (h', r')) ->
  exists payload fs, valid_payload (OfferDescriptor offer) payload fs /\
    result = transfer_result offer metadata payload /\
    rd_data r = payload ++ rd_data r' /\ rd_end r' = rd_end r /\ canonical.steps_rel Step h fs h'.
Proof.
  intros Hh Hhd Hu Hpb Hr. unfold receivePayload in Hr. set (d := OfferDescriptor offer) in *.
  destruct (transportencoding.NewZstdDecoder (limited pb r)) as [[out consumed]|e|] eqn:Ez; try done.
  pose proof (zstd_consumed _ _ _ (NewZstdDecoder_Ok _ _ _ Ez)) as Hc.
  destruct (canonical.ReadCanonicalArtifacts d handler (h, out)) as [read [h1 rest]] eqn:Er.
  injection Hr as Hr <- <-. res_inv Hr. clear E1 Heqb v1.
  apply (canonical.ReadCanonicalArtifacts_steps handler Step) in Er
    as (fs & F1 & F2 & F3 & F4 & F5 & F6 & F7 & F8 & F9 & _); [|done].
  unfold comparePayload in E0. res_inv E0. bool_hyps. unfold is_u64 in Hu.
  match goal with Hx : rd_data rest = [] |- _ => rewrite Hx in * end. rewrite app_nil_r in F7.
  cbn [length] in *. rewrite Nat.sub_0_r in *.
  set (n := EncodedDataBytes d) in *. assert (consumed = n) as -> by lia.
  assert (limited n r = Reader (take (Z.to_nat n) (rd_data r)) EOF /\ n <= len (rd_data r)) as [El En].
  { unfold limited in Hc |- *. destruct (n <=? len (rd_data r)) eqn:En; [split; [done|lia]|lia]. }
  rewrite El in *. cbn [rd_data] in *. set (payload := take (Z.to_nat n) (rd_data r)) in *.
  assert (len payload = n) as Hlp by (unfold payload, len in *; rewrite length_take; lia).
  rewrite (take_ge payload) in * by (unfold len in *; lia).
  rewrite (take_ge (rd_data out)) in * by lia. destruct out as [od oe]. cbn [rd_data rd_end] in *. subst od.
  exists payload, fs. split_and!; [|..|done|done].
  - unfold valid_payload. split_and!; try done; try lia.
    exists oe. rewrite Hlp. split; [exact Ez|congruence].
  - unfold transfer_result, transfer_wire. rewrite Hlp. unfold n, d.
    by rewrite <- !app_assoc.
  - unfold payload. by rewrite take_drop.
Qed.

Lemma readValidatedTransfer_steps `{!ZstdLaws} {Hs} offer config
    (handler : option (canonical.handler_fn Hs)) Step h r result h' r' :
  canonical.handler_steps handler Step ->
  readValidatedTransfer offer config handler (h, r) = (Ok result, (h', r')) ->
  admitTransfer offer config = Ok tt /\
  exists metadata payload fs,
    len metadata = OfferMetadataBytes offer /\ sha256_hex metadata = OfferMetadataSHA256 offer /\
    trusted_metadata offer config metadata /\ valid_payload (OfferDescriptor offer) payload fs /\
    result = transfer_result offer metadata payload /\
    rd_data r = transfer_wire metadata payload ++ rd_data r' /\ rd_end r' = rd_end r /\
    canonical.steps_rel Step h fs h' /\ trustMetadata offer config metadata = Ok tt.
Proof.
  intros Hh Hr. unfold readValidatedTransfer in Hr.
  apply bind_lift_Ok in Hr as ([] & Hadm & Hr). split; [done|].
  apply bind_Ok in Hr as (header & s1 & Hhd & Hr). unfold canonical.on_stream at 1 in Hhd.
  destruct (wrap_err _ _ r) as [x r1] eqn:E1. injection Hhd as -> <-.
  apply wrap_err_Ok, ReadFull_Ok in E1 as (D1 & N1 & L1). specialize (L1 ltac:(unfold transferHeaderBytes; lia)).
  apply bind_lift_Ok in Hr as ([mb pb] & Hlen & Hr).
  apply transferLengths_Ok in Hlen as (Hhd & Hmb & Hpb & Hu & Hmm); [|done].
  apply bind_Ok in Hr as (metadata & s2 & Hmd & Hr). unfold canonical.on_stream at 1 in Hmd.
  destruct (wrap_err _ _ r1) as [x r2] eqn:E2. injection Hmd as -> <-.
  apply wrap_err_Ok, ReadFull_Ok in E2 as (D2 & N2 & L2). specialize (L2 ltac:(lia)).
  apply bind_lift_Ok in Hr as ([] & Htm & Hr). pose proof Htm as [Hsha Htr]%trustMetadata_Ok.
  eapply receivePayload_Ok in Hr as (payload & fs & Hvp & Hres & D3 & N3 & Hst); try done;
    [|by rewrite L2].
  exists metadata, payload, fs. split_and!; try done; [lia| |congruence].
  rewrite D1, D2, D3, Hhd, <- L2. unfold transfer_wire.
  assert (pb = len payload) as -> by (destruct Hvp as [-> _]; done). by rewrite <- !app_assoc.
Qed.

(** [C34] Receiving a generation is sound. When [readValidatedTransfer] succeeds, for any
    handler that reads without ignoring errors (and for none), what it took off the
    stream is exactly one transfer frame: framing header, the offered metadata, signed
    over the offered descriptor by a certificate accepted for the enrolled source, and
    a payload of the signed size and digest that decodes, completely, to a canonical
    stream with the signed size, digest, artifact count and source byte count. The
    result describes these bytes, so the acknowledgement made from it does too. *)
Theorem readValidatedTransfer_sound `{!ZstdLaws} {Hs} offer config
    (handler : option (canonical.handler_fn Hs)) h r result h' r' :
  canonical.handler_sound handler ->
  readValidatedTransfer offer config handler (h, r) = (Ok result, (h', r')) ->
  admitTransfer offer config = Ok tt /\
  exists metadata payload fs,
    len metadata = OfferMetadataBytes offer /\ sha256_hex metadata = OfferMetadataSHA256 offer /\
    trusted_metadata offer config metadata /\ valid_payload (OfferDescriptor offer) payload fs /\
    result = transfer_result offer metadata payload /\
    rd_data r = transfer_wire metadata payload ++ rd_data r' /\ rd_end r' = rd_end r.
Proof.
  intros Hh Hr. apply canonical.handler_sound_steps in Hh.
  destruct (readValidatedTransfer_steps offer config handler _ h r result h' r' Hh Hr) as
    (Ha & metadata & payload & fs & ? & ? & ? & ? & ? & ? & ? & _ & _).
  split; [done|]. by exists metadata, payload, fs.
Qed.

(** ** Completeness *)

Lemma Offer_Validate_Ok offer :
  Offer_Validate offer = Ok tt <->
  OfferVersionText offer = OfferVersion /\ ValidDescriptor (OfferDescriptor offer) /\
  (OfferMetadataBytes offer <> 0 /\ OfferMetadataBytes offer <= maxSignedGenerationMetadataBytes) /\
  sha256_text (OfferMetadataSHA256 offer) = true.
Proof.
  unfold Offer_Validate. res_iff. rewrite generation_Validate_Ok, generation_validateSHA256_Ok. tauto.
Qed.

Lemma admitTransfer_Ok offer config :
  admitTransfer offer config = Ok tt ->
  ValidDescriptor (OfferDescriptor offer) /\ OfferMetadataBytes offer <> 0 /\
  OfferMetadataBytes offer <= maxSignedGenerationMetadataBytes /\
  ArtifactCount (OfferDescriptor offer) <= canonical.maxReceiveArtifactCount.
Proof.
  unfold admitTransfer. intros Ha. res_inv Ha.
  match goal with Hv : Offer_Validate _ = Ok ?u |- _ => destruct u; apply Offer_Validate_Ok in Hv end.
  intuition lia.
Qed.

Lemma transferLengths_layout offer mb pb :
  mb = OfferMetadataBytes offer -> pb = EncodedDataBytes (OfferDescriptor offer) -> is_u64 pb ->
  0 < mb <= maxSignedGenerationMetadataBytes ->
  transferLengths offer (TransferMagic ++ PutUint32BE mb ++ PutUint64BE pb) = Ok (mb, pb).
Proof.
  intros Hmb Hpb Hu Hm. unfold transferLengths.
  rewrite sub_here, bool_decide_eq_true_2 by done. cbn [negb].
  rewrite (sub_skip 8 12 TransferMagic _ 8) by done. rewrite sub_here by apply len_PutUint32BE.
  rewrite (sub_skip 12 20 TransferMagic _ 8) by done.
  rewrite (sub_skip (12 - 8) (20 - 8) (PutUint32BE mb) _ 4) by (try apply len_PutUint32BE; lia).
  rewrite sub_whole by apply len_PutUint64BE.
  unfold maxSignedGenerationMetadataBytes in *.
  rewrite be_get_PutUint32, be_get_PutUint64 by (unfold is_u32; lia || done).
  rewrite <- Hmb, <- Hpb, !Z.eqb_refl. cbn [negb].
  by replace ((mb =? 0) || (512 * 2 ^ 10 <? mb)) with false by lia.
Qed.

Lemma receivePayload_layout {Hs} offer (handler : option (canonical.handler_fn Hs)) step metadata payload
    fs h h' rest e :
  ValidDescriptor (OfferDescriptor offer) -> ArtifactCount (OfferDescriptor offer) <= canonical.maxReceiveArtifactCount ->
  len metadata <= maxSignedGenerationMetadataBytes ->
  valid_payload (OfferDescriptor offer) payload fs ->
  canonical.handler_runs handler step -> canonical.run_steps step h fs = Some h' ->
  receivePayload offer handler (TransferMagic ++ PutUint32BE (len metadata) ++ PutUint64BE (len payload))
    metadata (len payload) (h, Reader (payload ++ rest) e) =
    (Ok (transfer_result offer metadata payload), (h', Reader rest e)).
Proof.
  intros Hd Hcount Hm (P1 & P2 & (x & P3 & P4) & P5 & P6 & P7 & P8 & P9 & P10) Hh Hrun.
  pose proof Hd as (_ & _ & _ & _ & _ & _ & Hac & Hsb & (Hcb & _) & (Heb & Heb') & _).
  unfold maxGenerationStreamingBytes, maxSignedGenerationMetadataBytes in *.
  pose proof (len_nonneg payload). pose proof (len_nonneg metadata). pose proof (len_nonneg fs).
  unfold receivePayload. rewrite limited_app, P3 by done.
  rewrite <- (app_nil_r (generationsealer.canonical_bytes fs)).
  rewrite (canonical.ReadCanonicalArtifacts_layout handler step _ fs h h');
    [|exact Hh|exact Hd|by symmetry|lia|exact P6|exact P7|unfold max_u64; lia|exact Hrun].
  cbn [wrap res_bind rd_data length]. rewrite Nat.sub_0_r, app_nil_r, firstn_all.
  replace (Z.to_nat (len payload)) with (length payload) by (unfold len; lia).
  rewrite firstn_all, drop_app_length.
  unfold comparePayload. cbn [rd_data rd_end].
  rewrite bool_decide_eq_true_2, P4, Z.sub_diag, P8, P9, !Z.eqb_refl by done. cbn [negb orb Z.eqb].
  rewrite P10, P2, !bool_decide_eq_true_2 by done. cbn [negb res_bind].
  unfold expectedTransfer, transferHeaderBytes, max_u64.
  replace (2 ^ 64 - 1 - 20 <? len metadata) with false by lia.
  rewrite (u64_small (20 + len metadata)) by (unfold is_u64; lia).
  replace (2 ^ 64 - 1 - (20 + len metadata) <? len payload) with false by lia.
  rewrite u64_small by (unfold is_u64; lia). cbn [res_bind].
  rewrite !len_app, len_PutUint32BE, len_PutUint64BE. change (len TransferMagic) with 8.
  replace (8 + (4 + 8) + (len metadata + len payload) =? 20 + len metadata + len payload) with true by lia.
  cbn [negb]. unfold transfer_result, transfer_wire. rewrite !len_app, len_PutUint32BE, len_PutUint64BE, P2.
  change (len TransferMagic) with 8. rewrite <- !app_assoc.
  replace (8 + (4 + 8) + (len metadata + len payload)) with (8 + (4 + (8 + (len metadata + len payload))))
    by lia. done.
Qed.

(** The receiver accepts every transfer it should. *)
Lemma readValidatedTransfer_layout {Hs} offer config (handler : option (canonical.handler_fn Hs)) step
    metadata payload fs h h' rest e :
  admitTransfer offer config = Ok tt -> len metadata = OfferMetadataBytes offer ->
  trustMetadata offer config metadata = Ok tt -> valid_payload (OfferDescriptor offer) payload fs ->
  canonical.handler_runs handler step -> canonical.run_steps step h fs = Some h' ->
  readValidatedTransfer offer config handler (h, Reader (transfer_wire metadata payload ++ rest) e) =
    (Ok (transfer_result offer metadata payload), (h', Reader rest e)).
Proof.
  intros Ha Hm Ht Hp Hh Hrun. destruct (admitTransfer_Ok offer config Ha) as (Hd & M1 & M2 & Hc).
  pose proof (len_nonneg metadata). pose proof (len_nonneg payload). pose proof Hp as [Hl _].
  pose proof Hd as (_ & _ & _ & _ & _ & _ & _ & _ & _ & (_ & Heb) & _).
  assert (transfer_wire metadata payload ++ rest =
    (TransferMagic ++ PutUint32BE (len metadata) ++ PutUint64BE (len payload)) ++ metadata ++ payload ++ rest)
    as -> by (unfold transfer_wire; by rewrite <- !app_assoc).
  unfold readValidatedTransfer. rewrite (bind_lift _ _ tt) by done.
  unfold bind at 1, canonical.on_stream at 1, wrap_err at 1.
  rewrite ReadFull_app by (rewrite !len_app, len_PutUint32BE, len_PutUint64BE; done). cbn [wrap].
  rewrite (bind_lift _ _ (len metadata, len payload)) by
    (apply transferLengths_layout; [done|done| |lia];
     unfold is_u64, maxGenerationStreamingBytes in *; lia).
  cbv beta iota. unfold bind at 1, canonical.on_stream at 1, wrap_err at 1.
  rewrite ReadFull_app by done. cbn [wrap]. rewrite (bind_lift _ _ tt) by done.
  by apply (receivePayload_layout offer handler step metadata payload fs); [|lia|lia|..].
Qed.

End Transfers.

End protocol.
