(* ===== verification/GenerationTransfer.v ===== *)
(** * From a frozen directory to the receiver

    Composes the sealer, the signed metadata and the receiver: a generation sealed by
    [Seal], described by [DescriptorFromSeal] and signed is received intact by
    [readValidatedTransfer]. Also the concrete exchange that instantiates the theorems
    of the generation protocol. *)

From stdpp Require Import gmap.
From S2P Require Import Prelude GoBytes GoStrings Sha256 GoIO GoFS Pki TransportEncoding TransportBatch TransportTrust TransportGeneration GenerationCanonical GenerationSealer GenerationProtocol.

Import transportgeneration protocol.

Section Composition.
Context `{Unicode} `{X509} `{Zstd} `{JSON SignedGeneration}.

Lemma metadata_round_trip `{!JSONLaws SignedGeneration} signed raw :
  json_ok signed -> MarshalSignedGeneration signed = Ok raw -> UnmarshalSignedGeneration raw = Ok signed.
Proof.
  intros Hok Hm. unfold MarshalSignedGeneration in Hm. res_inv Hm. destruct v.
  unfold UnmarshalSignedGeneration. rewrite Heqb. unfold json_DecodeOnly.
  match goal with Hj : json_Marshal _ = Ok _ |- _ => rewrite (json_round_trip _ _ Hok Hj) end.
  cbn. by rewrite E.
Qed.

(** The durable metadata envelope loses nothing: signed generation metadata that
    [MarshalSignedGeneration] wrote is read back by [UnmarshalSignedGeneration] as the
    same signed generation, signature and certificate included. *)
Theorem MarshalSignedGeneration_round_trip `{!JSONLaws SignedGeneration} signed raw :
  json_ok signed -> MarshalSignedGeneration signed = Ok raw -> UnmarshalSignedGeneration raw = Ok signed.
Proof. apply metadata_round_trip. Qed.

Lemma BatchSigningCertificate_parsed signed c :
  validateSignedGenerationCryptographically signed = Ok tt ->
  ParseCertificate (BatchSigningCertificateDER signed) = Ok c -> BatchSigningCertificate signed = Ok c.
Proof.
  intros Hv Hp. unfold validateSignedGenerationCryptographically in Hv. res_inv Hv. destruct v.
  unfold BatchSigningCertificate. rewrite E. cbn. by rewrite Hp.
Qed.

(** The offer [OfferFromPublished] makes from metadata and a signed generation. *)
Definition offer_for (signed : SignedGeneration) (metadata : bytes) : Offer := {|
  OfferVersionText := OfferVersion;
  OfferDescriptor := SignedDescriptor signed;
  OfferMetadataBytes := len metadata;
  OfferMetadataSHA256 := sha256_hex metadata |}.

Lemma trustMetadata_layout `{!JSONLaws SignedGeneration} signed metadata rc c :
  json_ok signed -> MarshalSignedGeneration signed = Ok metadata ->
  ParseCertificate (BatchSigningCertificateDER signed) = Ok c ->
  transporttrust.VerifyBatchSigningCertificate (Some c) (Root rc) (BatchIssuer rc) (BatchCRL rc)
    (Source rc) (CurrentTime rc) = (transporttrust.AuthorizationAuthorized, Ok tt) ->
  trustMetadata (offer_for signed metadata) rc metadata = Ok tt.
Proof.
  intros Hok Hm Hp Hv. unfold trustMetadata. cbn [OfferMetadataSHA256 OfferDescriptor offer_for].
  rewrite bool_decide_eq_true_2 by done. rewrite (metadata_round_trip signed metadata) by done.
  cbn [wrap res_bind negb]. rewrite bool_decide_eq_true_2 by done. cbn [negb].
  rewrite (BatchSigningCertificate_parsed signed c); [|by unfold MarshalSignedGeneration in Hm; res_inv Hm; destruct v|done].
  cbn [res_bind]. rewrite Hv. cbn. by rewrite bool_decide_eq_true_2.
Qed.

(** The sealed file is a valid payload for the descriptor of the seal. *)
Lemma sealed_valid_payload `{!ZstdCodec} config ds f d v r f' d' v' sourceID desc :
  sealer.Seal config ds (f, d, v) = (Ok r, (f', d', v')) -> sealer.DescriptorFromSeal sourceID r = Ok desc ->
  (forall n i, names f !! n = Some i -> len n <= canonical.maxCanonicalArtifactNameBytes) ->
  exists nd fs, lookup_file d' (sealer.sealedName config) = Some nd /\ sealer.frozen_artifacts f fs /\
    valid_payload desc (i_data nd) fs.
Proof.
  intros Hr Hd Hl. pose proof (sealer.Seal_cases config ds f d v) as Hc. rewrite Hr in Hc.
  destruct Hc as (_ & _ & Hnm & _ & _ & _ & fs & ps & enc & nd & Hfa & Hz & Hcat & Hnd & _ & _ & Hdata & Hres).
  exists nd, fs. split; [unfold lookup_file; rewrite Hnm, lookup_insert_eq; exact Hnd|]. split; [done|].
  unfold sealer.DescriptorFromSeal in Hd. res_inv Hd.
  destruct Hres as (R1 & R2 & R3 & R4 & _ & _ & R7 & _ & _ & R10).
  unfold valid_payload.
  cbn [EncodedDataBytes EncodedDataSHA256 ArtifactCount SourceBytes CanonicalBytes CanonicalSHA256].
  rewrite R1, R2, R3, R4, R7, R10.
  split; [done|]. split; [done|]. split.
  { exists EOF. split; [|done]. rewrite Hdata, <- Hcat. by apply NewZstdDecoder_encoded. }
  split; [unfold len; by rewrite length_fmap|]. split; [|split; [apply Hfa|done]].
  eapply sealer.frozen_valid_name; [done|]. apply Forall_forall. intros x Hx.
  destruct Hfa as (Hp & _). assert (x.1 ∈ fs.*1) as Hin by (by apply list_elem_of_fmap_2).
  rewrite Hp, list_elem_of_fmap in Hin. destruct Hin as ([n i] & -> & Hin).
  apply elem_of_map_to_list in Hin. by eapply Hl.
Qed.

(** [C33] The whole path of a generation. A frozen directory sealed by [Seal], described
    by [DescriptorFromSeal], signed and marshalled, and sent as one transfer frame, is
    accepted by the receiver that admits the offer and trusts the certificate: the
    receiver consumes exactly the frame, hands every frozen file to its handler, name
    and complete content, in order, and its result names the descriptor, the metadata
    and the exact bytes of the frame. *)
Theorem generation_end_to_end `{!ZstdCodec} `{!JSONLaws SignedGeneration} {Hs} config ds f d v r f' d' v'
    sourceID desc signed metadata c rc (handler : option (canonical.handler_fn Hs)) step h rest e :
  sealer.Seal config ds (f, d, v) = (Ok r, (f', d', v')) -> sealer.DescriptorFromSeal sourceID r = Ok desc ->
  (forall n i, names f !! n = Some i -> len n <= canonical.maxCanonicalArtifactNameBytes) ->
  SignedDescriptor signed = desc -> json_ok signed -> MarshalSignedGeneration signed = Ok metadata ->
  ParseCertificate (BatchSigningCertificateDER signed) = Ok c ->
  admitTransfer (offer_for signed metadata) rc = Ok tt ->
  transporttrust.VerifyBatchSigningCertificate (Some c) (Root rc) (BatchIssuer rc) (BatchCRL rc)
    (Source rc) (CurrentTime rc) = (transporttrust.AuthorizationAuthorized, Ok tt) ->
  canonical.handler_runs handler step ->
  exists nd fs, lookup_file d' (sealer.sealedName config) = Some nd /\ sealer.frozen_artifacts f fs /\
    forall h', canonical.run_steps step h fs = Some h' ->
      readValidatedTransfer (offer_for signed metadata) rc handler
        (h, Reader (transfer_wire metadata (i_data nd) ++ rest) e) =
      (Ok (transfer_result (offer_for signed metadata) metadata (i_data nd)), (h', Reader rest e)).
Proof.
  intros Hr Hd Hl Hsd Hok Hm Hp Ha Hv Hh.
  destruct (sealed_valid_payload config ds f d v r f' d' v' sourceID desc Hr Hd Hl) as (nd & fs & Hnd & Hfa & Hpay).
  exists nd, fs. split; [done|]. split; [done|]. intros h' Hrun.
  apply (readValidatedTransfer_layout (offer_for signed metadata) rc handler step metadata (i_data nd) fs);
    try done; [by apply (trustMetadata_layout signed metadata rc c)|]. cbn. by rewrite Hsd.
Qed.

End Composition.

(** ** A concrete exchange *)

Definition demoSealedDescriptor : Descriptor := Eval vm_compute in
  match (sealer.demoSeal []).1 with
  | Ok r => match @sealer.DescriptorFromSeal asciiUnicode (bs "FS-01") r with
            | Ok d => d | _ => demoDescriptor end
  | _ => demoDescriptor
  end.

Definition demoSigned : SignedGeneration := {|
  SignedVersion := SignedGenerationVersion; SignedDescriptor := demoSealedDescriptor;
  Signature := sha256 (layout demoSealedDescriptor); BatchSigningCertificateDER := bs "FS-01" |}.

Definition demoMetadata : bytes := bs "{signed generation metadata}".
Definition demoOffer : Offer := offer_for demoSigned demoMetadata.

Definition demoReceive : ReceiveConfig := {|
  BatchCRL := Some Demo.crl; BatchIssuer := Some transporttrust.demoIssuer; CurrentTime := 50;
  MaxCanonicalBytes := 1000; MaxEncodedBytes := 1000; Root := Some transporttrust.demoRoot;
  Source := transporttrust.demoSource |}.

Definition demoPayload : bytes :=
  generationsealer.canonical_bytes [(bs "a.ndjson", [bs "first"]); (bs "b.ndjson", [])].

#[local] Existing Instance asciiUnicode.
#[local] Existing Instance transporttrust.demoX509.
#[local] Existing Instance demoZstd.
#[local] Existing Instance demoZstd_laws.
#[local] Existing Instance demoZstd_codec.
#[local] Instance demoJSON : JSON SignedGeneration := fixedJSON demoSigned demoMetadata.
#[local] Instance demoJSON_laws : JSONLaws SignedGeneration := fixedJSON_laws demoSigned demoMetadata.

Lemma MarshalSignedGeneration_round_trip_witness :
  UnmarshalSignedGeneration demoMetadata = Ok demoSigned.
Proof.
  apply (MarshalSignedGeneration_round_trip demoSigned demoMetadata); [reflexivity|].
  vm_compute. reflexivity.
Defined.

Lemma readValidatedTransfer_sound_witness :
  exists result metadata payload fs,
    sha256_hex metadata = sha256_hex demoMetadata /\ trusted_metadata demoOffer demoReceive metadata /\
    valid_payload demoSealedDescriptor payload fs /\
    result = transfer_result demoOffer metadata payload /\
    transfer_wire demoMetadata demoPayload ++ bs "next" = transfer_wire metadata payload ++ bs "next".
Proof.
  assert (exists result, readValidatedTransfer demoOffer demoReceive None
    (tt, Reader (transfer_wire demoMetadata demoPayload ++ bs "next") EOF) =
    (Ok result, (tt, Reader (bs "next") EOF))) as [result Hr].
  { eexists. vm_compute. reflexivity. }
  destruct (readValidatedTransfer_sound demoOffer demoReceive None tt
    (Reader (transfer_wire demoMetadata demoPayload ++ bs "next") EOF) result tt (Reader (bs "next") EOF) I Hr)
    as (_ & metadata & payload & fs & _ & H1 & H2 & H3 & H4 & H5 & _).
  exists result, metadata, payload, fs. split; [exact H1|]. split; [exact H2|]. split; [exact H3|].
  split; [exact H4|]. exact H5.
Defined.

Lemma generation_end_to_end_witness :
  exists nd fs, lookup_file (sealer.demoSeal []).2.1.2 (bs "generation-g1.figz") = Some nd /\
    sealer.frozen_artifacts sealer.demoFrozen fs /\
    readValidatedTransfer demoOffer demoReceive None
      (tt, Reader (transfer_wire demoMetadata (i_data nd) ++ bs "next") EOF) =
    (Ok (transfer_result demoOffer demoMetadata (i_data nd)), (tt, Reader (bs "next") EOF)).
Proof.
  assert (exists r, (sealer.demoSeal []).1 = Ok r /\
    sealer.DescriptorFromSeal (bs "FS-01") r = Ok demoSealedDescriptor) as (r & Hr & Hd).
  { eexists. split; [vm_compute; reflexivity|]. vm_compute. reflexivity. }
  assert (exists c, ParseCertificate (BatchSigningCertificateDER demoSigned) = Ok c /\
    transporttrust.VerifyBatchSigningCertificate (Some c) (Root demoReceive) (BatchIssuer demoReceive)
      (BatchCRL demoReceive) (Source demoReceive) (CurrentTime demoReceive) =
      (transporttrust.AuthorizationAuthorized, Ok tt)) as (c & Hc & Hv).
  { eexists. split; [vm_compute; reflexivity|]. vm_compute. reflexivity. }
  destruct (generation_end_to_end sealer.demoSealConfig sealer.demoDirState sealer.demoFrozen (empty_dir [])
    (sealer.Env [] [3; 9]) r (sealer.demoSeal []).2.1.1 (sealer.demoSeal []).2.1.2 (sealer.demoSeal []).2.2
    (bs "FS-01") demoSealedDescriptor demoSigned demoMetadata c demoReceive None (fun h _ _ => Some h) tt
    (bs "next") EOF) as (nd & fs & H1 & H2 & H3).
  - rewrite <- Hr. exact (sealer.demoSeal_parts []).
  - exact Hd.
  - intros n i Hn%sealer.demoFrozen_names. unfold canonical.maxCanonicalArtifactNameBytes. lia.
  - reflexivity.
  - reflexivity.
  - vm_compute. reflexivity.
  - exact Hc.
  - vm_compute. reflexivity.
  - exact Hv.
  - apply canonical.no_handler_runs.
  - exists nd, fs. split; [exact H1|]. split; [exact H2|]. apply H3. clear. by induction fs.
Defined.

Definition demoOfferText : bytes := bs "{offer}".

Lemma WriteOffer_ReadOffer_witness :
  exists (w : bytes) out, written w = written (W := bytes) (bs "sent") ++ out /\
    @ReadOffer asciiUnicode (fixedJSON demoOffer demoOfferText) (Reader (out ++ bs "next") EOF) =
      (Ok demoOffer, Reader (bs "next") EOF).
Proof.
  assert (exists w, @WriteOffer asciiUnicode bytes _ (fixedJSON demoOffer demoOfferText) demoOffer (bs "sent") =
    (Ok tt, w)) as [w Hw] by (eexists; vm_compute; reflexivity).
  exists w.
  apply (@WriteOffer_ReadOffer asciiUnicode bytes _ _ (fixedJSON demoOffer demoOfferText)
    (fixedJSON_laws demoOffer demoOfferText) demoOffer (bs "sent") w (bs "next") EOF); [reflexivity|exact Hw].
Defined.

Definition demoDecision : Decision := {|
  DecisionVersionText := DecisionVersion; DecisionSourceID := bs "FS-01"; DecisionGenerationID := bs "g1";
  Accepted := true; Reason := [] |}.

Lemma decision_end_to_end_witness :
  exists (w : bytes) out, written w = written (W := bytes) [] ++ out /\
    @ReadDecision (fixedJSON demoDecision (bs "{decision}")) (Reader (out ++ []) EOF) =
      (Ok demoDecision, Reader [] EOF).
Proof.
  assert (exists w, @WriteDecision bytes _ (fixedJSON demoDecision (bs "{decision}"))
    demoDecision [] = (Ok tt, w)) as [w Hw] by (eexists; vm_compute; reflexivity).
  destruct (@decision_end_to_end asciiUnicode bytes _ _ (fixedJSON demoDecision (bs "{decision}"))
    (fixedJSON_laws demoDecision (bs "{decision}")) demoOffer true [] demoDecision [] w [] EOF)
    as (out & H1 & H2 & _); [reflexivity|vm_compute; reflexivity|exact Hw|].
  exists w, out. split; [exact H1|exact H2].
Defined.

Definition demoTransferResult : TransferResult := transfer_result demoOffer demoMetadata demoPayload.
Definition demoGenerationAck : Acknowledgement := {|
  AckVersionText := AcknowledgementVersion; AckOutcome := AcknowledgementOutcomeRecorded;
  AckDescriptor := demoSealedDescriptor; AckMetadataBytes := len demoMetadata;
  AckMetadataSHA256 := sha256_hex demoMetadata; AckTransferBytes := TransferBytes demoTransferResult;
  AckTransferSHA256 := TransferSHA256 demoTransferResult |}.

Lemma generation_acknowledgement_end_to_end_witness :
  exists (w : bytes) out, written w = written (W := bytes) [] ++ out /\
    @ReadAcknowledgement asciiUnicode (fixedJSON demoGenerationAck (bs "{ack}")) (Reader (out ++ []) EOF) =
      (Ok demoGenerationAck, Reader [] EOF) /\
    AcknowledgementMatches demoGenerationAck demoTransferResult = Ok tt.
Proof.
  assert (exists w, @WriteAcknowledgement asciiUnicode bytes _ (fixedJSON demoGenerationAck (bs "{ack}"))
    demoGenerationAck [] = (Ok tt, w)) as [w Hw] by (eexists; vm_compute; reflexivity).
  destruct (@generation_acknowledgement_end_to_end asciiUnicode bytes _ _
    (fixedJSON demoGenerationAck (bs "{ack}")) (fixedJSON_laws demoGenerationAck (bs "{ack}"))
    AcknowledgementOutcomeRecorded demoTransferResult demoGenerationAck [] w [] EOF)
    as (out & H1 & H2 & H3 & _); [reflexivity|vm_compute; reflexivity|exact Hw|].
  exists w, out. split; [exact H1|]. split; [exact H2|exact H3].
Defined.
