(* ===== verification/GenerationPublished.v ===== *)
(** * Published generations on the sender

    Models [go/internal/transportgeneration/published.go] (loading and verifying a sealed
    generation directory), [wire.go] (streaming it as one transfer) and
    [OfferFromPublished] of [protocol.go]. A generation directory is an entry of the tree
    that is its parent directory. *)

From stdpp Require Import gmap.
From S2P Require Import Prelude GoBytes GoStrings Sha256 GoIO GoFS GoDir GoPublish GoTree Pki TransportEncoding TransportTrust TransportGeneration GenerationCanonical GenerationProtocol GenerationTransfer.

Module genpublished.
Import transportgeneration protocol.

Definition SealedGenerationPayloadName : bytes := bs "payload.figz".
Definition SignedGenerationMetadataName : bytes := bs "signed-generation.json".
Definition sealedGenerationDirectoryPrefix : bytes := bs "generation-".
Definition ErrEncodedLimitExceeded : error := Sentinel "FI generation encoded payload exceeds configured sender limit".

Record PublishedGeneration := {
  DirectoryPath : bytes;
  MetadataPath : bytes;
  PayloadPath : bytes;
  Signed : SignedGeneration
}.

Definition validateEncodedGenerationLimit (encodedBytes maxEncodedBytes : Z) : res unit :=
  if (maxEncodedBytes =? 0) || (encodedBytes <=? maxEncodedBytes) then Ok tt
  else Err (Wrap "%w: encoded=%d max=%d" ErrEncodedLimitExceeded).

Definition signedGenerationsEqual (left right : SignedGeneration) : bool :=
  bool_decide (SignedVersion left = SignedVersion right) &&
  bool_decide (SignedDescriptor left = SignedDescriptor right) &&
  bool_decide (Signature left = Signature right) &&
  bool_decide (BatchSigningCertificateDER left = BatchSigningCertificateDER right).

(** ** Reading one file of the directory *)

(** Open and compare with what [Lstat] saw; an error closes the file. *)
Definition openSame (changed : string) (name : bytes) (initial : FileInfo) : prog dir (nat * FileInfo) :=
  let! file := Open name in
  or_close (
    let! opened := Fstat file in
    fail! negb (bool_decide (fi_ino initial = fi_ino opened)) with Errorf changed ;;
    ret (file, opened)).

(** The name still denotes the open file, with the same size. *)
Definition stillSame (changed : string) (name : bytes) (opened initial : FileInfo) : prog dir unit :=
  let! after := Lstat name in
  fail! negb (bool_decide (fi_ino opened = fi_ino after)) || negb (fi_size after =? fi_size initial)
    with Errorf changed ;;
  ret tt.

(** The read, the close, then the two errors in this order. *)
Definition readAndClose (maxBytes : Z) (file : nat) : prog dir bytes := fun d =>
  match file_reader file d with
  | (Ok r, d) =>
      let raw := ReadAll (limited (maxBytes + 1) r) in
      let '(closed, d) := Close d in
      ((let? raw := raw in check? closed ;; Ok raw), d)
  | (Err e, d) => (Err e, (Close d).2)
  | (Panic, d) => (Panic, d)
  end.

Definition readStableBoundedGenerationFile (name : bytes) (maxBytes : Z) : prog dir bytes :=
  let! initial := Lstat name in
  fail! bool_decide (fi_kind initial = Symlink) || negb (bool_decide (fi_kind initial = Regular)) ||
        (fi_size initial <=? 0) || (maxBytes <? fi_size initial)
    with Errorf "FI generation metadata is not a bounded regular file" ;;
  let! (file, opened) := openSame "FI generation metadata changed while opening" name initial in
  let! raw := readAndClose maxBytes file in
  fail! (len raw =? 0) || (maxBytes <? len raw)
    with Errorf "FI generation metadata size changed while reading" ;;
  check! stillSame "FI generation metadata changed during reading" name opened initial ;;
  ret raw.

(** ** Loading *)

(** The loop over the entries: whether the payload and the metadata were found. *)
Fixpoint checkArtifacts (entries : list (bytes * file_kind)) (foundPayload foundMetadata : bool)
  : res (bool * bool) :=
  match entries with
  | [] => Ok (foundPayload, foundMetadata)
  | (name, kind) :: entries =>
      fail? bool_decide (kind = Symlink) with Errorf "FI sealed-generation directory contains symlink %q" ;;
      if bool_decide (name = SealedGenerationPayloadName) then checkArtifacts entries true foundMetadata
      else if bool_decide (name = SignedGenerationMetadataName) then checkArtifacts entries foundPayload true
      else Err (Errorf "FI sealed-generation directory contains unexpected artifact %q")
  end.

Section Published.
Context `{Unicode} `{X509} `{JSON SignedGeneration}.

Definition LoadSealedGeneration (directoryPath : bytes) : prog tree PublishedGeneration :=
  fail! bool_decide (directoryPath = []) || negb (filepath_IsAbs directoryPath)
    with Errorf "FI sealed-generation directory must be absolute" ;;
  let name := entry_of directoryPath in
  let! info := LstatEntry name in
  fail! bool_decide (fi_kind info = Symlink) || negb (bool_decide (fi_kind info = Directory))
    with Errorf "FI sealed-generation path must name a real directory" ;;
  let! entries := in_sub name ReadDir in
  fail! negb (len entries =? 2)
    with Errorf "FI sealed-generation directory contains %d entries; expected exactly 2" ;;
  let! (foundPayload, foundMetadata) := lift (checkArtifacts entries false false) in
  fail! negb foundPayload || negb foundMetadata with Errorf "FI sealed-generation directory is incomplete" ;;
  let! metadataBytes := wrap_err "read signed FI generation metadata: %w"
    (in_sub name (readStableBoundedGenerationFile SignedGenerationMetadataName maxSignedGenerationMetadataBytes)) in
  let! signed := lift (UnmarshalSignedGeneration metadataBytes) in
  fail! negb (bool_decide (filepath_Base (filepath_Clean directoryPath) =
                           sealedGenerationDirectoryPrefix ++ GenerationID (SignedDescriptor signed)))
    with Errorf "FI sealed-generation directory name must be %q" ;;
  let! payloadInfo := in_sub name (Lstat SealedGenerationPayloadName) in
  fail! bool_decide (fi_kind payloadInfo = Symlink) || negb (bool_decide (fi_kind payloadInfo = Regular))
    with Errorf "FI sealed-generation payload must be a real regular file" ;;
  fail! (fi_size payloadInfo <=? 0) ||
        negb (u64 (fi_size payloadInfo) =? EncodedDataBytes (SignedDescriptor signed))
    with Errorf "FI sealed-generation payload byte count does not match signed descriptor" ;;
  ret {| DirectoryPath := directoryPath;
         MetadataPath := filepath_Join directoryPath SignedGenerationMetadataName;
         PayloadPath := filepath_Join directoryPath SealedGenerationPayloadName;
         Signed := signed |}.

(** [generationCountWriter.Write] for the bytes counted so far. *)
Definition generationCountWriter_Write (counted value : bytes) : res bytes :=
  fail? max_u64 - len counted <? len value with Errorf "FI generation payload byte counter overflow" ;;
  Ok (counted ++ value).

(** [io.Copy] into the hasher and the counter in pieces of 32 KiB; [length data] turns
    suffice. A read error comes after the pieces read before it. *)
Definition copyBufferBytes : Z := 32 * 1024.
Fixpoint countPieces (fuel : nat) (data counted : bytes) : res bytes :=
  match data, fuel with
  | [], _ => Ok counted
  | _ :: _, O => Panic
  | _ :: _, S fuel =>
      let? counted := generationCountWriter_Write counted (take (Z.to_nat copyBufferBytes) data) in
      countPieces fuel (drop (Z.to_nat copyBufferBytes) data) counted
  end.

Definition hashAndClose (file : nat) : prog dir bytes := fun d =>
  match file_reader file d with
  | (Ok r, d) =>
      let copied := (let? counted := countPieces (length (rd_data r)) (rd_data r) [] in
                     check? ReadAll r ;;
                     Ok counted) in
      let '(closed, d) := Close d in
      ((let? counted := copied in check? closed ;; Ok counted), d)
  | (Err e, d) => (Err e, (Close d).2)
  | (Panic, d) => (Panic, d)
  end.

Definition verifyPayload (descriptor : Descriptor) : prog dir unit :=
  let! initial := Lstat SealedGenerationPayloadName in
  fail! negb (bool_decide (fi_kind initial = Regular)) || (fi_size initial <=? 0)
    with Errorf "FI sealed-generation payload is not a regular file" ;;
  let! (file, opened) := openSame "FI sealed-generation payload changed while opening"
                           SealedGenerationPayloadName initial in
  let! counted := hashAndClose file in
  check! stillSame "FI sealed-generation payload changed during verification"
           SealedGenerationPayloadName opened initial ;;
  fail! negb (len counted =? EncodedDataBytes descriptor)
    with Errorf "FI sealed-generation payload byte count changed" ;;
  fail! negb (bool_decide (sha256_hex counted = EncodedDataSHA256 descriptor))
    with Errorf "FI sealed-generation encoded SHA-256 does not match signed descriptor" ;;
  ret tt.

Definition VerifyPublishedGenerationPayload (generation : PublishedGeneration) : prog tree unit :=
  let! current := LoadSealedGeneration (DirectoryPath generation) in
  fail! negb (bool_decide (SignedDescriptor (Signed current) = SignedDescriptor (Signed generation)))
    with Errorf "FI sealed-generation descriptor changed before payload verification" ;;
  in_sub (entry_of (DirectoryPath generation)) (verifyPayload (SignedDescriptor (Signed current))).

(** ** The offer *)

Definition OfferFromPublished (generation : PublishedGeneration) : prog tree Offer :=
  fail! bool_decide (DirectoryPath generation = []) || bool_decide (MetadataPath generation = []) ||
        bool_decide (PayloadPath generation = [])
    with Errorf "FI published generation paths are incomplete" ;;
  let! current := wrap_err "reload FI generation for offer: %w" (LoadSealedGeneration (DirectoryPath generation)) in
  fail! negb (bool_decide (MetadataPath current = MetadataPath generation)) ||
        negb (bool_decide (PayloadPath current = PayloadPath generation)) ||
        negb (signedGenerationsEqual (Signed current) (Signed generation))
    with Errorf "FI published generation changed before offer" ;;
  let! metadata := wrap_err "read FI generation metadata for offer: %w"
    (in_sub (entry_of (DirectoryPath generation))
       (readStableBoundedGenerationFile SignedGenerationMetadataName maxSignedGenerationMetadataBytes)) in
  let! decoded := lift (UnmarshalSignedGeneration metadata) in
  fail! negb (signedGenerationsEqual decoded (Signed current))
    with Errorf "FI generation metadata changed before offer" ;;
  let offer := offer_for (Signed current) metadata in
  check! lift (Offer_Validate offer) ;;
  ret offer.

(** ** The transfer *)

(** [io.MultiWriter(writer, transferHasher, transferCounter).Write]; [sent] are the bytes
    hashed and counted so far. *)
Definition transportWrite {W} `{Writer W} (sent value : bytes) : prog W bytes := fun w =>
  let '((n, e), w) := Write value w in
  match e with
  | Some err => (Err err, w)
  | None => if n =? len value then (generationCountWriter_Write sent value, w) else (Err ErrShortWrite, w)
  end.

(** The pieces [io.CopyN] writes; [length data] turns suffice. *)
Fixpoint sendPieces {W} `{Writer W} (fuel : nat) (data sent : bytes) : prog W bytes :=
  match data, fuel with
  | [], _ => ret sent
  | _ :: _, O => lift Panic
  | _ :: _, S fuel =>
      let! sent := transportWrite sent (take (Z.to_nat copyBufferBytes) data) in
      sendPieces fuel (drop (Z.to_nat copyBufferBytes) data) sent
  end.

(** [io.CopyN(..., payload, n)]: the bytes available are written, then a short source is
    an error. *)
Definition sendPayload {W} `{Writer W} (n : Z) (r : reader) (sent : bytes) : prog W bytes :=
  let data := take (Z.to_nat n) (rd_data r) in
  let! sent := sendPieces (length data) data sent in
  fail! len data <? n with rd_end r ;;
  ret sent.

(** Everything that goes out: header, metadata, payload. *)
Definition sendTransfer {W} `{Writer W} (descriptor : Descriptor) (metadata : bytes) (payload : reader)
  : prog W bytes :=
  let header := TransferMagic ++ PutUint32BE (u32 (len metadata)) ++ PutUint64BE (EncodedDataBytes descriptor) in
  let! sent := wrap_err "write FI generation transport header: %w" (transportWrite [] header) in
  let! sent := wrap_err "write exact FI generation metadata: %w" (transportWrite sent metadata) in
  wrap_err "stream exact FI generation payload: %w"
    (sendPayload (i64 (EncodedDataBytes descriptor)) payload sent).

(** The open payload is streamed and closed on every path; what follows a complete
    stream is looked at before the close, its errors after. *)
Definition streamPayload {W} `{Writer W} (descriptor : Descriptor) (metadata : bytes) (file : nat)
  : prog (W * dir) (bytes * bytes) := fun '(w, d) =>
  match file_reader file d with
  | (Ok r, d) =>
      match sendTransfer descriptor metadata r w with
      | (Ok sent, w) =>
          let n := Z.to_nat (i64 (EncodedDataBytes descriptor)) in
          let trailing := drop n (rd_data r) in
          let '(closed, d) := Close d in
          ((fail? negb (bool_decide (trailing = [])) || negb (errors_Is (rd_end r) EOF)
              with Errorf "FI generation payload contains unexpected trailing bytes" ;;
            check? closed ;;
            Ok (sent, take n (rd_data r))), (w, d))
      | (Err e, w) => (Err e, (w, (Close d).2))
      | (Panic, w) => (Panic, (w, d))
      end
  | (Err e, d) => (Err e, (w, (Close d).2))
  | (Panic, d) => (Panic, (w, d))
  end.

Definition sendFiles {W} `{Writer W} (descriptor : Descriptor) (metadata : bytes) : prog (W * dir) TransferResult :=
  let! initial := on_snd (Lstat SealedGenerationPayloadName) in
  fail! bool_decide (fi_kind initial = Symlink) || negb (bool_decide (fi_kind initial = Regular)) ||
        (fi_size initial <=? 0) || negb (u64 (fi_size initial) =? EncodedDataBytes descriptor)
    with Errorf "FI generation payload changed before transport" ;;
  let! (file, opened) := on_snd (openSame "FI generation payload changed while opening for transport"
                                     SealedGenerationPayloadName initial) in
  let! (sent, payload) := streamPayload descriptor metadata file in
  check! on_snd (stillSame "FI generation payload changed during transport"
                     SealedGenerationPayloadName opened initial) ;;
  fail! negb (bool_decide (sha256_hex payload = EncodedDataSHA256 descriptor))
    with Errorf "FI generation payload SHA-256 changed during transport" ;;
  ret {| ResultDescriptor := descriptor;
         MetadataBytes := len metadata; MetadataSHA256 := sha256_hex metadata;
         PayloadBytes := EncodedDataBytes descriptor; PayloadSHA256 := sha256_hex payload;
         TransferBytes := len sent; TransferSHA256 := sha256_hex sent |}.

(** [sendFiles] on an entry of the tree. *)
Definition in_sub_with {W A} (name : bytes) (p : prog (W * dir) A) : prog (W * tree) A := fun '(w, t) =>
  match t_names t !! name with
  | None => (Err ErrNotExist, (w, t))
  | Some i =>
      match t_nodes t !! i with
      | Some (Sub d) =>
          let '(r, (w, d')) := p (w, set_faults (t_faults t) d) in
          (r, (w, set_tfaults (faults d') (set_tnodes (<[i := Sub (set_faults (faults d) d')]> (t_nodes t)) t)))
      | _ => (Err ENOTDIR, (w, t))
      end
  end.

Definition WritePublishedGeneration {W} `{Writer W} (generation : PublishedGeneration)
  : prog (W * tree) TransferResult :=
  fail! bool_decide (DirectoryPath generation = []) || bool_decide (MetadataPath generation = []) ||
        bool_decide (PayloadPath generation = [])
    with Errorf "FI published generation paths are incomplete" ;;
  let! current := on_snd (wrap_err "reload FI generation before transport: %w"
                             (LoadSealedGeneration (DirectoryPath generation))) in
  fail! negb (bool_decide (MetadataPath current = MetadataPath generation)) ||
        negb (bool_decide (PayloadPath current = PayloadPath generation)) ||
        negb (signedGenerationsEqual (Signed current) (Signed generation))
    with Errorf "FI published generation changed before transport" ;;
  let name := entry_of (DirectoryPath generation) in
  let! metadata := on_snd (wrap_err "read exact FI generation metadata for transport: %w"
    (in_sub name (readStableBoundedGenerationFile SignedGenerationMetadataName maxSignedGenerationMetadataBytes))) in
  let! decoded := lift (UnmarshalSignedGeneration metadata) in
  fail! negb (signedGenerationsEqual decoded (Signed current))
    with Errorf "FI generation metadata bytes changed after durable discovery" ;;
  fail! 2 ^ 32 - 1 <? len metadata with Errorf "FI generation metadata exceeds wire framing range" ;;
  in_sub_with name (sendFiles (SignedDescriptor (Signed current)) metadata).

End Published.

(** ** What the calls establish *)

Lemma quiet_openSame msg name initial : quiet (openSame msg name initial).
Proof. unfold openSame. quiet. Qed.
Lemma quiet_stillSame msg name opened initial : quiet (stillSame msg name opened initial).
Proof. unfold stillSame. quiet. Qed.
Lemma quiet_readAndClose maxBytes file : quiet (readAndClose maxBytes file).
Proof.
  intros d. unfold readAndClose. pose proof (quiet_file_reader file d) as Hf.
  destruct (file_reader file d) as [[r|e|] d1]; [|etrans; [exact Hf|apply quiet_Close]|done].
  pose proof (quiet_Close d1) as Hc. destruct (Close d1) as [closed d2]. by etrans.
Qed.
Lemma quiet_hashAndClose file : quiet (hashAndClose file).
Proof.
  intros d. unfold hashAndClose. pose proof (quiet_file_reader file d) as Hf.
  destruct (file_reader file d) as [[r|e|] d1]; [|etrans; [exact Hf|apply quiet_Close]|done].
  pose proof (quiet_Close d1) as Hc. destruct (Close d1) as [closed d2]. by etrans.
Qed.
#[export] Hint Resolve quiet_openSame quiet_stillSame quiet_readAndClose quiet_hashAndClose : keeps.

Lemma quiet_readStable name maxBytes : quiet (readStableBoundedGenerationFile name maxBytes).
Proof. unfold readStableBoundedGenerationFile. quiet. Qed.
Lemma quiet_verifyPayload descriptor : quiet (verifyPayload descriptor).
Proof. unfold verifyPayload. quiet. Qed.
#[export] Hint Resolve quiet_readStable quiet_verifyPayload : keeps.

Lemma openSame_Ok msg name initial d file opened d' :
  openSame msg name initial d = (Ok (file, opened), d') ->
  (exists fs, d' = set_faults fs d) /\ names d !! name = Some file.
Proof.
  intros Hr. split; [exact (quiet_run _ _ _ _ (quiet_openSame msg name initial) Hr)|].
  apply bind_Ok in Hr as (f & d1 & Ho & Hr). apply Open_Ok in Ho as [_ Hn]. apply or_close_Ok in Hr.
  apply bind_Ok in Hr as (o & d2 & _ & Hr). destruct (negb _) in Hr; [done|]. by injection Hr as -> _ _.
Qed.

Lemma readStable_Ok name maxBytes d raw d' :
  0 <= maxBytes -> readStableBoundedGenerationFile name maxBytes d = (Ok raw, d') ->
  (exists fs, d' = set_faults fs d) /\
  exists nd, lookup_file d name = Some nd /\ i_kind nd = Regular /\ i_data nd = raw /\ 0 < len raw <= maxBytes.
Proof.
  intros Hmax Hr. split; [exact (quiet_run _ _ _ _ (quiet_readStable name maxBytes) Hr)|].
  unfold readStableBoundedGenerationFile in Hr. apply bind_Ok in Hr as (initial & d1 & Hl & Hr).
  apply Lstat_Ok in Hl as ([f1 ->] & i & nd & Hn & Hi & ->). destruct (_ || _) eqn:Eb in Hr; [done|].
  apply bind_Ok in Hr as ([file opened] & d2 & Ho & Hr). apply openSame_Ok in Ho as [[f2 ->] Hf].
  apply bind_Ok in Hr as (raw' & d3 & Ha & Hr). destruct (_ || _) eqn:Es in Hr; [done|].
  apply bind_Ok in Hr as ([] & d4 & _ & Hr). injection Hr as -> _.
  exists nd. cbn [fi_kind info_of] in Eb. bool_hyps. pose proof (len_nonneg raw).
  split; [unfold lookup_file; by rewrite Hn|]. split; [done|]. split; [|lia].
  unfold readAndClose in Ha. destruct (file_reader file _) as [[r|e|] d5] eqn:Ef; [|done|done].
  apply file_reader_Ok in Ef as (_ & nd' & Hi' & Heof). cbn in Hf, Hi'.
  assert (nd' = nd) as -> by congruence. destruct (Close d5) as [closed d6]. injection Ha as Ha _.
  apply res_bind_Ok in Ha as (x & Hx & Ha). apply check_Ok in Ha as [_ [= ->]].
  unfold limited, ReadAll in Hx. destruct (maxBytes + 1 <=? len (rd_data r)) eqn:El.
  - cbn [rd_end rd_data] in Hx. rewrite bool_decide_eq_true_2 in Hx by done. injection Hx as <-.
    assert (len (take (Z.to_nat (maxBytes + 1)) (rd_data r)) = maxBytes + 1)
      by (unfold len in *; rewrite length_take; lia). lia.
  - case_bool_decide as He; [|done]. injection Hx as <-. by rewrite (Heof ltac:(by rewrite He)).
Qed.

Section Facts.
Context `{Unicode} `{X509} `{JSON SignedGeneration}.

Lemma still_Load path : still (LoadSealedGeneration path).
Proof. unfold LoadSealedGeneration. still. Qed.
#[local] Hint Resolve still_Load : keeps.

(** The two files of a generation, synced. *)
Definition holds (metadata payload : bytes) (d : dir) : Prop :=
  (exists nd, stable d SignedGenerationMetadataName nd /\ i_data nd = metadata) /\
  (exists nd, stable d SealedGenerationPayloadName nd /\ i_data nd = payload).

#[export] Instance holds_Durable metadata payload : Durable (holds metadata payload).
Proof.
  split; [done|]. intros d d' Hc [(x & Hx & Hm) (y & Hy & Hp)].
  split; [exists x|exists y]; (split; [|done]); by eapply crash_stable.
Qed.

(** A generation directory: its two files, and what they say. *)
Record generation_at (t : tree) (name metadata payload : bytes) (signed : SignedGeneration) (d : dir) : Prop := {
  ga_node : exists i, t_names t !! name = Some i /\ t_nodes t !! i = Some (Sub d);
  ga_metadata : exists nd, lookup_file d SignedGenerationMetadataName = Some nd /\ i_data nd = metadata;
  ga_payload : exists nd, lookup_file d SealedGenerationPayloadName = Some nd /\ i_data nd = payload;
  ga_signed : UnmarshalSignedGeneration metadata = Ok signed;
  ga_size : u64 (len payload) = EncodedDataBytes (SignedDescriptor signed);
  ga_name : name = sealedGenerationDirectoryPrefix ++ GenerationID (SignedDescriptor signed)
}.

Lemma holds_generation t name metadata payload m p signed d :
  kept (holds metadata payload) t name -> generation_at t name m p signed d ->
  m = metadata /\ p = payload.
Proof.
  intros (i & d0 & Hi & _ & Hd & [(x & (jx & Hx & _ & Hxi & _) & <-) (y & (jy & Hy & _ & Hyi & _) & <-)])
    [(i' & Hi' & Hd') (x' & Hx' & <-) (y' & Hy' & <-) _ _ _].
  assert (d0 = d) as -> by congruence. unfold lookup_file in *. rewrite Hx in Hx'. rewrite Hy in Hy'. cbn in *.
  split; congruence.
Qed.

Lemma load_Ok path t g t' :
  LoadSealedGeneration path t = (Ok g, t') ->
  (exists fs, t' = set_tfaults fs t) /\
  g = {| DirectoryPath := path; MetadataPath := filepath_Join path SignedGenerationMetadataName;
         PayloadPath := filepath_Join path SealedGenerationPayloadName; Signed := Signed g |} /\
  exists metadata payload d, generation_at t (entry_of path) metadata payload (Signed g) d.
Proof.
  intros Hr. split; [exact (still_run _ _ _ _ (still_Load path) Hr)|]. unfold LoadSealedGeneration in Hr.
  destruct (_ || _) in Hr; [done|]. apply bind_Ok in Hr as (info & t1 & Hl & Hr).
  apply LstatEntry_Ok in Hl as ([f1 ->] & i & nd & Hi & Hnd & ->). destruct (_ || _) in Hr; [done|].
  apply bind_Ok in Hr as (entries & t2 & He & Hr). apply in_sub_Ok in He as ([f2 ->] & _); [|quiet].
  destruct (negb _) in Hr; [done|]. apply bind_lift_Ok in Hr as ([fp fm] & _ & Hr).
  destruct (_ || _) in Hr; [done|]. apply bind_Ok in Hr as (metadata & t3 & Hm & Hr).
  apply wrap_err_Ok, in_sub_Ok in Hm as ([f3 ->] & j & d & d' & f4 & Hj & Hd & Hm); [|quiet].
  apply readStable_Ok in Hm as (_ & mn & Hmn & _ & Hmd & _); [|done].
  apply bind_lift_Ok in Hr as (signed & Hs & Hr). destruct (negb _) eqn:Hname in Hr; [done|].
  apply bind_Ok in Hr as (pinfo & t4 & Hp & Hr). apply in_sub_Ok in Hp as ([f5 ->] & j2 & d2 & d2' & f6 & Hj2 & Hd2 & Hp); [|quiet].
  cbn in Hj, Hd, Hj2, Hd2. assert (j2 = j) as -> by congruence. assert (d2 = d) as -> by congruence.
  apply Lstat_Ok in Hp as (_ & k & pn & Hk & Hpn & ->). destruct (_ || _) in Hr; [done|].
  destruct (_ || _) eqn:Hsize in Hr; [done|]. injection Hr as <- _. split; [done|].
  cbn [fi_size info_of] in Hsize. bool_hyps. exists metadata, (i_data pn), d. split; cbn [Signed] in *; try done.
  - by exists j.
  - exists mn. split; [|done]. unfold lookup_file in *. by destruct d.
  - exists pn. split; [|done]. unfold lookup_file. cbn [names inodes set_faults] in Hk, Hpn. by rewrite Hk.
  - lia.
Qed.

(** ** Verification *)

Lemma countPieces_Ok fuel : forall data counted s, countPieces fuel data counted = Ok s -> s = counted ++ data.
Proof.
  induction fuel as [|fuel IH]; intros [|b data] counted s; cbn [countPieces]; [..|intros (c & Hc & Hs)%res_bind_Ok].
  1,3: intros [= <-]; by rewrite app_nil_r.
  - done.
  - apply IH in Hs as ->. assert (c = counted ++ take (Z.to_nat copyBufferBytes) (b :: data)) as ->.
    { unfold generationCountWriter_Write in Hc. destruct (_ <? _) in Hc; [done|]. congruence. }
    by rewrite <- app_assoc, take_drop.
Qed.

Lemma hashAndClose_Ok file d counted d' :
  hashAndClose file d = (Ok counted, d') -> exists nd, inodes d !! file = Some nd /\ i_data nd = counted.
Proof.
  unfold hashAndClose. destruct (file_reader file d) as [[r|e|] d1] eqn:Ef; [|done|done].
  destruct (Close d1) as [closed d2]. intros [= Hc _]. apply res_bind_Ok in Hc as (c & Hc & Hr).
  apply check_Ok in Hr as [_ [= ->]]. apply res_bind_Ok in Hc as (c & Hc & Hr). apply countPieces_Ok in Hc as ->.
  destruct (ReadAll r) as [raw|e|] eqn:Ea; [|done|done]. cbn in Hr. injection Hr as <-.
  destruct (ReadAll_file _ _ _ _ _ Ef Ea) as (nd & Hnd & Hd). exists nd. split; [done|].
  unfold ReadAll in Ea. case_bool_decide; [|done]. by injection Ea as ->.
Qed.

(** The directory holds the two files of a generation, with the signed size and digest. *)
Definition sealed_at (t : tree) (name metadata payload : bytes) (signed : SignedGeneration) : Prop :=
  exists i d, t_names t !! name = Some i /\ t_nodes t !! i = Some (Sub d) /\
    (exists nd, lookup_file d SignedGenerationMetadataName = Some nd /\ i_data nd = metadata) /\
    (exists nd, lookup_file d SealedGenerationPayloadName = Some nd /\ i_data nd = payload) /\
    UnmarshalSignedGeneration metadata = Ok signed /\
    len payload = EncodedDataBytes (SignedDescriptor signed) /\
    sha256_hex payload = EncodedDataSHA256 (SignedDescriptor signed).

Lemma Verify_Ok generation t t' :
  VerifyPublishedGenerationPayload generation t = (Ok tt, t') ->
  exists metadata payload signed d,
    generation_at t (entry_of (DirectoryPath generation)) metadata payload signed d /\
    SignedDescriptor signed = SignedDescriptor (Signed generation) /\
    sealed_at t (entry_of (DirectoryPath generation)) metadata payload signed.
Proof.
  unfold VerifyPublishedGenerationPayload. intros (current & t1 & Hl & Hr)%bind_Ok.
  apply load_Ok in Hl as ([f1 ->] & _ & m & p & d & Hat). destruct (negb _) eqn:Ed in Hr; [done|]. bool_hyps.
  exists m, p, (Signed current), d. split; [done|]. split; [done|].
  apply in_sub_Ok in Hr as (_ & i & d0 & d1 & f2 & Hi & Hd & Hr); [|apply quiet_verifyPayload]. cbn [t_names t_nodes set_tfaults] in Hi, Hd.
  destruct Hat as [(j & Hj & Hdj) Hm (y & Hy & <-) Hu _ _]. assert (j = i) as -> by congruence. assert (d0 = d) as -> by congruence.
  exists i, d. split; [done|]. split; [done|]. split; [done|]. split; [by exists y|]. split; [done|].
  unfold verifyPayload in Hr. apply bind_Ok in Hr as (initial & d2 & Hl & Hr). apply Lstat_Ok in Hl as ([f3 ->] & k & nd & Hk & Hnd & ->).
  destruct (_ || _) in Hr; [done|]. apply bind_Ok in Hr as ([file opened] & d3 & Ho & Hr).
  apply openSame_Ok in Ho as ([f4 ->] & Ho). apply bind_Ok in Hr as (counted & d4 & Hc & Hr).
  apply hashAndClose_Ok in Hc as (nd' & Hnd' & <-). apply bind_Ok in Hr as ([] & d5 & _ & Hr).
  destruct (negb _) eqn:El in Hr; [done|]. destruct (negb _) eqn:Es in Hr; [done|]. bool_hyps.
  cbn [names inodes set_faults] in *. unfold lookup_file in Hy. rewrite Ho in Hy. cbn in Hy.
  assert (nd' = y) as -> by congruence. split; [lia|done].
Qed.

(** ** What goes out *)

Section Send.
Context {W : Type} `{WriterLaws W}.

Lemma transportWrite_Ok sent value (w : W) s w' :
  transportWrite sent value w = (Ok s, w') -> s = sent ++ value /\ written w' = written w ++ value.
Proof.
  unfold transportWrite. destruct (Write value w) as [[n [e|]] w1] eqn:E; [done|].
  apply Write_prefix in E as (x & y & Hp & Hw & Hn). specialize (Hn eq_refl).
  destruct (n =? len value) eqn:En; [|done]. intros [= Hc <-].
  assert (value = x) as ->.
  { rewrite Hp, len_app in En. destruct y; [by rewrite Hp, app_nil_r|].
    rewrite len_cons in En. pose proof (len_nonneg y). lia. }
  unfold generationCountWriter_Write in Hc. destruct (_ <? _) in Hc; [done|]. by injection Hc as <-.
Qed.

Lemma sendPieces_Ok fuel : forall data sent (w : W) s w',
  sendPieces fuel data sent w = (Ok s, w') -> s = sent ++ data /\ written w' = written w ++ data.
Proof.
  induction fuel as [|fuel IH]; intros [|b data] sent w s w'; cbn [sendPieces].
  1,3: intros [= <- <-]; by rewrite !app_nil_r.
  - done.
  - intros (s1 & w1 & H1' & H2')%bind_Ok. apply transportWrite_Ok in H1' as [-> E1].
    apply IH in H2' as [-> E2]. rewrite E2, E1, <- !app_assoc. by rewrite take_drop.
Qed.

Lemma sendTransfer_Ok descriptor metadata r (w : W) s w' :
  sendTransfer descriptor metadata r w = (Ok s, w') ->
  let n := i64 (EncodedDataBytes descriptor) in
  s = TransferMagic ++ PutUint32BE (u32 (len metadata)) ++ PutUint64BE (EncodedDataBytes descriptor) ++
      metadata ++ take (Z.to_nat n) (rd_data r) /\
  n <= len (take (Z.to_nat n) (rd_data r)) /\ written w' = written w ++ s.
Proof.
  intros Hr n. unfold sendTransfer in Hr. apply bind_Ok in Hr as (s1 & w1 & E1%wrap_err_Ok & Hr).
  apply transportWrite_Ok in E1 as [-> E1]. apply bind_Ok in Hr as (s2 & w2 & E2%wrap_err_Ok & Hr).
  apply transportWrite_Ok in E2 as [-> E2]. apply wrap_err_Ok in Hr. unfold sendPayload in Hr.
  apply bind_Ok in Hr as (s3 & w3 & E3 & Hr). apply sendPieces_Ok in E3 as [-> E3]. fold n in Hr |- *.
  destruct (_ <? n) eqn:El in Hr; [done|]. injection Hr as <- <-.
  rewrite E3, E2, E1. rewrite <- !app_assoc. cbn [app]. split; [done|]. split; [|done].
  apply Z.ltb_ge in El. unfold n in *. exact El.
Qed.

Lemma streamPayload_Ok descriptor metadata file (w : W) d sent payload w' d' :
  streamPayload descriptor metadata file (w, d) = (Ok (sent, payload), (w', d')) ->
  u32 (len metadata) = len metadata ->
  exists nd, inodes d !! file = Some nd /\
    (u64 (len (i_data nd)) = EncodedDataBytes descriptor -> i_data nd <> [] ->
     i_data nd = payload /\ len payload = EncodedDataBytes descriptor /\ sent = transfer_wire metadata payload) /\
    written w' = written w ++ sent.
Proof.
  intros Hr Hmd. unfold streamPayload in Hr.
  destruct (file_reader file d) as [[r|e|] d1] eqn:Ef; [|by destruct (Close d1) in Hr|done].
  apply file_reader_Ok in Ef as (_ & nd & Hi & Heof). exists nd. split; [done|].
  destruct (sendTransfer descriptor metadata r w) as [[s|e|] w1] eqn:Es; [|done|done].
  apply sendTransfer_Ok in Es as (-> & Hlen & Hw). destruct (Close d1) as [closed d2].
  injection Hr as Hr -> _. res_inv Hr. bool_hyps.
  match goal with Ht : drop _ _ = [] |- _ => rename Ht into Htrail end.
  match goal with He : errors_Is _ _ = true |- _ => specialize (Heof He) end. subst r. cbn [rd_data] in *.
  split; [|done]. intros Hsz Hne. set (n := i64 (EncodedDataBytes descriptor)) in *.
  assert (take (Z.to_nat n) (i_data nd) = i_data nd) as Htake.
  { rewrite <- (take_drop (Z.to_nat n) (i_data nd)) at 2. by rewrite Htrail, app_nil_r. }
  rewrite Htake in *.
  assert (len (i_data nd) <= n) as Hle.
  { apply (f_equal length) in Htrail. rewrite length_drop in Htrail. cbn in Htrail.
    assert (0 < len (i_data nd)) by (destruct (i_data nd); [done|rewrite len_cons; pose proof (len_nonneg l); lia]).
    unfold len in *. lia. }
  assert (len (i_data nd) = EncodedDataBytes descriptor) as Hl.
  { pose proof (i64_range (EncodedDataBytes descriptor)) as Hb. unfold is_i64 in Hb. fold n in Hb.
    pose proof (len_nonneg (i_data nd)). rewrite <- Hsz. symmetry. apply u64_small. unfold is_u64. lia. }
  split; [done|]. split; [done|]. unfold transfer_wire. by rewrite Hmd, Hl.
Qed.

End Send.

Lemma beside_streamPayload {W} `{Writer W} descriptor metadata file :
  keeps (@beside W dir same_dir) (streamPayload descriptor metadata file).
Proof.
  intros [w d]. unfold streamPayload, beside. pose proof (quiet_file_reader file d) as Hf.
  destruct (file_reader file d) as [[r|e|] d1]; [|etrans; [exact Hf|apply quiet_Close]|done].
  destruct (sendTransfer descriptor metadata r w) as [[sent|e|] w1]; [|etrans; [exact Hf|apply quiet_Close]|done].
  pose proof (quiet_Close d1) as Hc. destruct (Close d1) as [closed d2]. cbn [snd] in *. by etrans.
Qed.

Lemma beside_sendFiles {W} `{Writer W} descriptor metadata :
  keeps (@beside W dir same_dir) (sendFiles descriptor metadata).
Proof. unfold sendFiles. repeat first [ apply beside_streamPayload | keeps1 ]. Qed.

Lemma beside_in_sub_with {W A} name (p : prog (W * dir) A) :
  keeps (@beside W dir same_dir) p -> keeps (@beside W tree same_tree) (in_sub_with name p).
Proof.
  intros Hp [w t]. unfold in_sub_with, beside.
  destruct (t_names t !! name) as [i|]; [|cbn; reflexivity].
  destruct (t_nodes t !! i) as [[d|k]|] eqn:Ei; [|cbn; reflexivity..].
  specialize (Hp (w, set_faults (t_faults t) d)). destruct (p _) as [r [w' d']]. destruct Hp as [f E].
  cbn in E. subst d'. exists f. cbn. destruct d as [a b c n g]; cbn. unfold set_tnodes; cbn.
  rewrite insert_id by exact Ei. by destruct t.
Qed.

Lemma beside_Write {W} `{Writer W} generation :
  keeps (@beside W tree same_tree) (WritePublishedGeneration generation).
Proof.
  unfold WritePublishedGeneration.
  repeat first [ apply beside_in_sub_with, beside_sendFiles | keeps1 | apply still_in_sub; solve [quiet] ].
Qed.

Lemma still_Offer generation : still (OfferFromPublished generation).
Proof. unfold OfferFromPublished. still. Qed.

Lemma signedGenerationsEqual_eq a b : signedGenerationsEqual a b = true -> a = b.
Proof.
  unfold signedGenerationsEqual. rewrite !andb_true_iff, !bool_decide_eq_true.
  destruct a, b; cbn. naive_solver.
Qed.

(** The two files do not depend on the schedule. *)
Lemma generation_at_faults fs t name metadata payload signed d :
  generation_at (set_tfaults fs t) name metadata payload signed d <-> generation_at t name metadata payload signed d.
Proof. split; intros [G1 G2 G3 G4 G5 G6]; by split. Qed.

(** The streaming half of [WritePublishedGeneration]. *)
Lemma sendFiles_Ok {W} `{WriterLaws W} fs t m p signed d name (w : W) result w' t' :
  generation_at t name m p signed d -> len m <= maxSignedGenerationMetadataBytes ->
  in_sub_with name (sendFiles (SignedDescriptor signed) m) (w, set_tfaults fs t) = (Ok result, (w', t')) ->
  written w' = written w ++ transfer_wire m p /\ result = transfer_result (offer_for signed m) m p /\
  len p = EncodedDataBytes (SignedDescriptor signed) /\ sha256_hex p = EncodedDataSHA256 (SignedDescriptor signed).
Proof.
  intros [(i & Hi & Hd) _ (y & Hy & <-) _ Hsz _] Hml Hr. unfold in_sub_with in Hr. cbn [t_names set_tfaults t_nodes] in Hr.
  rewrite Hi, Hd in Hr. destruct (sendFiles _ _ _) as [r [w1 d1]] eqn:E. injection Hr as -> <- _.
  unfold sendFiles in E. apply bind_Ok in E as (initial & s1 & Hl & E). apply on_snd_Ok in Hl as (d2 & Hl & ->).
  apply Lstat_Ok in Hl as ([f1 ->] & k & nd & Hk & Hnd & ->). destruct (_ || _) eqn:Eb in E; [done|].
  apply bind_Ok in E as ([file opened] & s2 & Ho & E). apply on_snd_Ok in Ho as (d3 & Ho & ->).
  apply openSame_Ok in Ho as ([f2 ->] & Ho). cbn [names inodes set_faults] in *.
  assert (file = k) as -> by congruence.
  assert (nd = y) as -> by (unfold lookup_file in Hy; rewrite Hk in Hy; cbn in Hy; congruence).
  apply bind_Ok in E as ([sent payload] & [w2 d4] & Hs & E).
  cbn [fi_size fi_kind info_of] in Eb. bool_hyps.
  apply streamPayload_Ok in Hs as (nd & Hn & Hp & Hw).
  2:{ apply u32_small. unfold is_u32, maxSignedGenerationMetadataBytes in *. pose proof (len_nonneg m). lia. }
  cbn [inodes set_faults] in Hn. assert (nd = y) as -> by congruence.
  destruct Hp as (<- & Hl & ->); [lia|by intros E0; rewrite E0 in *|].
  apply bind_Ok in E as ([] & [w3 d5] & Hss & E). apply on_snd_Ok in Hss as (d6 & _ & [= -> ->]).
  destruct (negb _) eqn:Esha in E; [done|]. bool_hyps. injection E as <- <- _.
  split; [done|]. split; [|done]. unfold transfer_result, offer_for. cbn. by rewrite Hl.
Qed.

Lemma generation_at_det t name m p s d m' p' s' d' :
  generation_at t name m p s d -> generation_at t name m' p' s' d' -> d' = d /\ m' = m /\ p' = p /\ s' = s.
Proof.
  intros [(i & Hi & Hd) (x & Hx & <-) (y & Hy & <-) Hs _ _] [(i' & Hi' & Hd') (x' & Hx' & <-) (y' & Hy' & <-) Hs' _ _].
  assert (d' = d) as -> by congruence. assert (x' = x) as -> by congruence. assert (y' = y) as -> by congruence.
  split_and!; try done. congruence.
Qed.

(** The metadata of a loaded generation, read again. *)
Lemma metadata_again t name m p s d fs raw t' :
  generation_at t name m p s d ->
  in_sub name (readStableBoundedGenerationFile SignedGenerationMetadataName maxSignedGenerationMetadataBytes)
    (set_tfaults fs t) = (Ok raw, t') -> raw = m /\ 0 < len m <= maxSignedGenerationMetadataBytes.
Proof.
  intros [(i & Hi & Hd) (x & Hx & <-) _ _ _ _] Hr.
  apply in_sub_Ok in Hr as (_ & j & d1 & d2 & f & Hj & Hd1 & Hr); [|quiet]. cbn in Hj, Hd1.
  assert (d1 = d) as -> by congruence. apply readStable_Ok in Hr as (_ & nd & Hnd & _ & <- & Hl); [|done].
  assert (nd = x) as -> by (unfold lookup_file in *; destruct d; cbn in *; congruence). done.
Qed.

Lemma Offer_Ok generation t offer t' :
  OfferFromPublished generation t = (Ok offer, t') ->
  exists metadata payload d, generation_at t (entry_of (DirectoryPath generation)) metadata payload (Signed generation) d /\
    offer = offer_for (Signed generation) metadata /\ Offer_Validate offer = Ok tt.
Proof.
  intros Hr. unfold OfferFromPublished in Hr. destruct (_ || _) in Hr; [done|].
  apply bind_Ok in Hr as (current & t1 & Hl%wrap_err_Ok & Hr). apply load_Ok in Hl as ([f ->] & Hc & m & p & d & Hg).
  destruct (_ || _) eqn:Eb in Hr; [done|]. bool_hyps.
  match goal with He : signedGenerationsEqual _ _ = true |- _ => apply signedGenerationsEqual_eq in He; rewrite He in * end.
  apply bind_Ok in Hr as (metadata & t2 & Hm%wrap_err_Ok & Hr). destruct (metadata_again _ _ _ _ _ _ _ _ _ Hg Hm) as [-> _].
  apply bind_lift_Ok in Hr as (decoded & _ & Hr). destruct (negb _) in Hr; [done|].
  apply bind_lift_Ok in Hr as ([] & Hv & Hr). injection Hr as <- _. by exists m, p, d.
Qed.

Lemma Write_Ok {W} `{WriterLaws W} generation (w : W) t result w' t' :
  WritePublishedGeneration generation (w, t) = (Ok result, (w', t')) ->
  (exists fs, t' = set_tfaults fs t) /\
  exists metadata payload d,
    generation_at t (entry_of (DirectoryPath generation)) metadata payload (Signed generation) d /\
    written w' = written w ++ transfer_wire metadata payload /\
    result = transfer_result (offer_for (Signed generation) metadata) metadata payload /\
    len payload = EncodedDataBytes (SignedDescriptor (Signed generation)) /\
    sha256_hex payload = EncodedDataSHA256 (SignedDescriptor (Signed generation)).
Proof.
  intros Hr. split; [exact (keeps_run _ _ _ _ _ (beside_Write generation) Hr)|].
  unfold WritePublishedGeneration in Hr. destruct (_ || _) in Hr; [done|].
  apply bind_Ok in Hr as (current & s1 & Hl & Hr). apply on_snd_Ok in Hl as (t1 & Hl%wrap_err_Ok & ->).
  apply load_Ok in Hl as ([f ->] & Hc & m & p & d & Hg). destruct (_ || _) eqn:Eb in Hr; [done|]. bool_hyps.
  match goal with He : signedGenerationsEqual _ _ = true |- _ => apply signedGenerationsEqual_eq in He; rewrite He in * end.
  apply bind_Ok in Hr as (metadata & s2 & Hm & Hr). apply on_snd_Ok in Hm as (t2 & Hm%wrap_err_Ok & ->).
  destruct (metadata_again _ _ _ _ _ _ _ _ _ Hg Hm) as [-> Hlen].
  apply still_run in Hm as [f2 ->]; [|apply still_in_sub; quiet].
  apply bind_lift_Ok in Hr as (decoded & _ & Hr). destruct (negb _) in Hr; [done|].
  destruct (_ <? _) eqn:El in Hr; [done|]. exists m, p, d. split; [done|].
  rewrite <- (generation_at_faults f) in Hg. by apply (sendFiles_Ok _ _ _ _ _ _ _ _ _ _ _ Hg) in Hr; [|lia].
Qed.

(** [C10] The transfer is the published generation. When [WritePublishedGeneration]
    succeeds, the bytes it wrote are exactly one transfer frame of the two files of the
    generation directory, whose metadata is the signed metadata that was offered; the
    result names this frame, its size and its digests; and the directory is unchanged. *)
Theorem WritePublishedGeneration_sound {W} `{WriterLaws W} generation (w : W) t result w' t' :
  WritePublishedGeneration generation (w, t) = (Ok result, (w', t')) ->
  (exists fs, t' = set_tfaults fs t) /\
  exists metadata payload d,
    generation_at t (entry_of (DirectoryPath generation)) metadata payload (Signed generation) d /\
    written w' = written w ++ transfer_wire metadata payload /\
    result = transfer_result (offer_for (Signed generation) metadata) metadata payload /\
    len payload = EncodedDataBytes (SignedDescriptor (Signed generation)) /\
    sha256_hex payload = EncodedDataSHA256 (SignedDescriptor (Signed generation)).
Proof. apply Write_Ok. Qed.

End Facts.
End genpublished.
