(* ===== verification/GenerationCreate.v ===== *)
(** * Creating a sealed generation

    Models [CreateSealedGeneration] of [go/internal/transportgeneration/published.go] and
    [publish_directory_other.go]: a frozen directory is sealed, described, signed and
    published as a directory of two synced files below the sealed root. *)

From stdpp Require Import gmap.
From S2P Require Import Prelude GoBytes GoStrings Sha256 GoIO GoFS GoDir GoPublish GoTree Pki TransportEncoding TransportTrust TransportGeneration GenerationCanonical GenerationSealer GenerationProtocol GenerationTransfer GenerationPublished.

Module gencreate.
Import transportgeneration protocol genpublished.

Record CreateConfig := {
  BatchSigner : option Signer;
  BatchSigningCertificate : option Certificate;
  FrozenDir : bytes;
  CreateGenerationID : bytes;
  CreateMaxEncodedBytes : Z;
  CreateMaxReadBytesPerSecond : Z;
  SealedRoot : bytes;
  CreateSourceID : bytes
}.

(** What [os.MkdirAll] and [os.Lstat] report on the sealed root, and on the two
    directories [Seal] is given. *)
Record CreateRoots := {
  mkdir_root : res unit;
  root_info : res FileInfo;
  seal_dirs : sealer.DirState
}.

Definition validateCreateConfig `{Unicode} (config : CreateConfig) : res unit :=
  check? validateTextIdentity "source ID" (CreateSourceID config) ;;
  check? validateTextIdentity "generation ID" (CreateGenerationID config) ;;
  fail? ContainsAny (CreateGenerationID config) path_separators
    with Errorf "generation ID must not contain path separators" ;;
  fail? bool_decide (BatchSigner config = None) || bool_decide (BatchSigningCertificate config = None)
    with Errorf "FI generation batch-signing identity is required" ;;
  fail? bool_decide (FrozenDir config = []) || negb (filepath_IsAbs (FrozenDir config))
    with Errorf "FI frozen generation directory must be absolute" ;;
  fail? bool_decide (SealedRoot config = []) || negb (filepath_IsAbs (SealedRoot config))
    with Errorf "FI sealed-generation root must be absolute" ;;
  Ok tt.

Definition validateSealedGenerationRoot (info : res FileInfo) : res unit :=
  let? info := info in
  fail? bool_decide (fi_kind info = Symlink) || negb (bool_decide (fi_kind info = Directory))
    with Errorf "FI sealed-generation root must name a real directory" ;;
  Ok tt.

(** ** Abandoned builds *)

Definition provisionalPrefix (generationID : bytes) : bytes := bs ".generation-" ++ generationID ++ bs "-".
Definition provisionalSuffix : bytes := bs ".open".
Definition isProvisional (generationID name : bytes) : bool :=
  HasPrefix name (provisionalPrefix generationID) && HasSuffix name provisionalSuffix.

(** The loop over the entries. *)
Fixpoint removeAbandoned (generationID : bytes) (entries : list (bytes * file_kind)) : prog tree unit :=
  match entries with
  | [] => ret tt
  | (name, _) :: entries =>
      if negb (isProvisional generationID name) then removeAbandoned generationID entries
      else
        let! info := LstatEntry name in
        fail! bool_decide (fi_kind info = Symlink) || negb (bool_decide (fi_kind info = Directory))
          with Errorf "FI provisional sealed-generation path %q is not a real directory" ;;
        check! wrap_err "remove abandoned FI provisional sealed generation %q: %w" (RemoveAllEntry name) ;;
        removeAbandoned generationID entries
  end.

Definition cleanupProvisionalGenerationDirectories (generationID : bytes) : prog tree unit :=
  let! entries := ReadEntries in
  removeAbandoned generationID entries.

(** ** The files of the provisional directory *)

Definition writeSyncedGenerationFile (name value : bytes) : prog dir unit :=
  let! file := CreateExclusive name 384 in
  check! or_close (FileWrite file value) ;;
  check! or_close (Sync file) ;;
  Close.

(** The loop over the two entries. *)
Fixpoint checkProvisional (entries : list (bytes * file_kind)) : res unit :=
  match entries with
  | [] => Ok tt
  | (name, kind) :: entries =>
      fail? bool_decide (kind = Symlink)
        with Errorf "provisional FI sealed-generation directory contains a symlink" ;;
      fail? negb (bool_decide (name = SealedGenerationPayloadName)) &&
            negb (bool_decide (name = SignedGenerationMetadataName))
        with Errorf "provisional FI sealed-generation directory contains unexpected artifact %q" ;;
      checkProvisional entries
  end.

Definition validateProvisionalGenerationDirectory : prog dir unit :=
  let! entries := ReadDir in
  fail! negb (len entries =? 2)
    with Errorf "provisional FI sealed-generation directory contains %d entries; expected exactly 2" ;;
  lift (checkProvisional entries).

(** [publish_directory_other.go]: [syncGenerationDirectory] on the provisional directory
    and on its parent. *)
Definition syncGenerationDirectory : prog dir unit :=
  check! syscall (ret tt) ;;
  check! or_close SyncDir ;;
  Close.
Definition syncParentDirectory : prog tree unit :=
  check! tcall (ret tt) ;;
  check! (fun t => match SyncRoot t with
                   | (Err e, t) => (Err e, (tcall (ret tt) t).2)
                   | r => r
                   end) ;;
  tcall (ret tt).

Definition publishGenerationPayload (provisionalPath finalPath : bytes) : prog dir unit :=
  Rename (filepath_Base provisionalPath) finalPath.

Definition publishGenerationDirectory (provisional final : bytes) : prog tree unit :=
  check! wrap_err "sync provisional FI sealed-generation directory: %w"
           (in_sub provisional syncGenerationDirectory) ;;
  check! RenameEntry provisional final ;;
  wrap_err "sync FI sealed-generation parent directory: %w" syncParentDirectory.

Section Create.
Context `{Unicode} `{X509} `{Zstd} `{JSON SignedGeneration}.

(** The frozen directory and the clock, and the sealed root. *)
Abbreviation create_state := ((dir * sealer.env) * tree)%type.

(** [Seal] into an entry of the sealed root. *)
Definition sealInto (config : sealer.Config) (ds : sealer.DirState) (name : bytes)
  : prog create_state sealer.Result := fun '((frozen, v), t) =>
  match t_names t !! name with
  | None => (Err ErrNotExist, ((frozen, v), t))
  | Some i =>
      match t_nodes t !! i with
      | Some (Sub d) =>
          let '(r, (frozen, d', v)) := sealer.Seal config ds (frozen, set_faults (t_faults t) d, v) in
          (r, ((frozen, v), set_tfaults (faults d') (set_tnodes (<[i := Sub (set_faults (faults d) d')]> (t_nodes t)) t)))
      | _ => (Err ENOTDIR, ((frozen, v), t))
      end
  end.

(** Everything up to the publication; [provisional] is the name of the new directory. *)
Definition buildProvisional (config : CreateConfig) (roots : CreateRoots) (provisional final : bytes)
  : prog create_state Descriptor :=
  let! sealResult := sealInto {|
    sealer.FrozenDir := FrozenDir config;
    sealer.GenerationID := CreateGenerationID config;
    sealer.MaxReadBytesPerSecond := CreateMaxReadBytesPerSecond config;
    sealer.SealedDir := filepath_Join (SealedRoot config) provisional |} (seal_dirs roots) provisional in
  check! lift (validateEncodedGenerationLimit (sealer.EncodedBytes sealResult) (CreateMaxEncodedBytes config)) ;;
  let! descriptor := lift (sealer.DescriptorFromSeal (CreateSourceID config) sealResult) in
  let! signed := lift (NewSignedGeneration descriptor (BatchSigningCertificate config) (BatchSigner config)) in
  let! metadataBytes := lift (MarshalSignedGeneration signed) in
  check! wrap_err "rename provisional FI generation payload: %w"
           (on_snd (in_sub provisional
              (publishGenerationPayload (sealer.SealedPath sealResult) SealedGenerationPayloadName))) ;;
  let! payloadInfo := on_snd (in_sub provisional (Lstat SealedGenerationPayloadName)) in
  fail! negb (bool_decide (fi_kind payloadInfo = Regular)) ||
        negb (u64 (fi_size payloadInfo) =? EncodedDataBytes descriptor)
    with Errorf "provisional FI generation payload does not match signed byte count" ;;
  check! on_snd (in_sub provisional (writeSyncedGenerationFile SignedGenerationMetadataName metadataBytes)) ;;
  check! on_snd (in_sub provisional validateProvisionalGenerationDirectory) ;;
  check! wrap_err "publish durable FI sealed-generation directory: %w"
           (on_snd (publishGenerationDirectory provisional final)) ;;
  ret descriptor.

(** What was published is loaded and hashed again. *)
Definition confirmPublished (finalDir : bytes) (descriptor : Descriptor) : prog tree PublishedGeneration :=
  let! published := wrap_err "reload published FI sealed generation: %w" (LoadSealedGeneration finalDir) in
  fail! negb (bool_decide (SignedDescriptor (Signed published) = descriptor))
    with Errorf "published FI sealed-generation descriptor changed after publication" ;;
  check! wrap_err "verify newly published FI sealed-generation payload: %w"
           (VerifyPublishedGenerationPayload published) ;;
  ret published.

(** The generation was published before. *)
Definition loadExisting (config : CreateConfig) (finalDir : bytes) : prog tree PublishedGeneration :=
  let! existing := wrap_err "load existing durable FI sealed generation: %w" (LoadSealedGeneration finalDir) in
  fail! negb (bool_decide (SourceID (SignedDescriptor (Signed existing)) = CreateSourceID config)) ||
        negb (bool_decide (GenerationID (SignedDescriptor (Signed existing)) = CreateGenerationID config))
    with Errorf "existing durable FI sealed generation identity conflicts with requested generation" ;;
  check! lift (validateEncodedGenerationLimit (EncodedDataBytes (SignedDescriptor (Signed existing)))
                 (CreateMaxEncodedBytes config)) ;;
  check! wrap_err "verify existing durable FI sealed generation payload: %w"
           (VerifyPublishedGenerationPayload existing) ;;
  ret existing.

(** The deferred removal runs unless the directory was published. *)
Definition createNew (config : CreateConfig) (roots : CreateRoots) (finalDir : bytes)
  : prog create_state PublishedGeneration :=
  let! provisional := on_snd (wrap_err "create provisional FI sealed-generation directory: %w"
    (MkdirTempEntry (provisionalPrefix (CreateGenerationID config)) provisionalSuffix)) in
  let! descriptor := sealer.or_else (buildProvisional config roots provisional (entry_of finalDir))
                       (on_snd (RemoveAllEntry provisional)) in
  on_snd (confirmPublished finalDir descriptor).

Definition CreateSealedGeneration (config : CreateConfig) (roots : CreateRoots)
  : prog create_state PublishedGeneration :=
  check! lift (validateCreateConfig config) ;;
  check! lift (wrap "create FI sealed-generation root: %w" (mkdir_root roots)) ;;
  check! lift (validateSealedGenerationRoot (root_info roots)) ;;
  check! on_snd (cleanupProvisionalGenerationDirectories (CreateGenerationID config)) ;;
  let finalDir := filepath_Join (SealedRoot config) (sealedGenerationDirectoryPrefix ++ CreateGenerationID config) in
  fun s =>
    match on_snd (LstatEntry (entry_of finalDir)) s with
    | (Ok _, s) => on_snd (loadExisting config finalDir) s
    | (Err e, s) => if errors_Is e ErrNotExist then createNew config roots finalDir s
                    else (Err (Wrap "inspect durable FI sealed generation path: %w" e), s)
    | (Panic, s) => (Panic, s)
    end.

End Create.

(** ** What creation touches *)

Section Facts.
Context `{Unicode} `{X509} `{Zstd} `{JSON SignedGeneration}.

(** Directories that are not builds of this generation. *)
Definition others (generationID name : bytes) : Prop := isProvisional generationID name = false.

Lemma temp_provisional id k : isProvisional id (temp_name (provisionalPrefix id) provisionalSuffix k) = true.
Proof.
  unfold isProvisional, temp_name. apply andb_true_iff. split.
  - apply HasPrefix_spec. eauto.
  - apply HasSuffix_spec. rewrite app_assoc. eauto.
Qed.

Lemma not_others id name : isProvisional id name = true -> ~ others id name.
Proof. unfold others. congruence. Qed.

Lemma removeAbandoned_spares id entries : keeps (spares (others id)) (removeAbandoned id entries).
Proof.
  induction entries as [|[name kind] entries IH]; cbn [removeAbandoned]; [apply keeps_ret, _|].
  destruct (isProvisional id name) eqn:Ep; cbn [negb]; [|done].
  apply keeps_bind; [apply _|apply still_spares, still_LstatEntry|intros info].
  apply keeps_if; [apply keeps_throw, _|].
  apply keeps_bind; [apply _|by apply keeps_wrap, RemoveAll_spares, not_others|intros _; exact IH].
Qed.

Lemma cleanup_spares id : keeps (spares (others id)) (cleanupProvisionalGenerationDirectories id).
Proof.
  apply keeps_bind; [apply _|apply still_spares, still_ReadEntries|apply removeAbandoned_spares].
Qed.

(** Names are only taken away. *)
Definition fewer_names (t t' : tree) : Prop := t_names t' ⊆ t_names t.
#[local] Instance fewer_names_PreOrder : PreOrder fewer_names.
Proof. split; [intros t; unfold fewer_names; reflexivity|]. intros a b c Hab Hbc. unfold fewer_names in *. by etrans. Qed.

Lemma still_fewer {A} (p : prog tree A) : still p -> keeps fewer_names p.
Proof. intros Hp t. destruct (Hp t) as [fs ->]. unfold fewer_names. reflexivity. Qed.

Lemma cleanup_names id : keeps fewer_names (cleanupProvisionalGenerationDirectories id).
Proof.
  apply keeps_bind; [apply _|apply still_fewer, still_ReadEntries|intros entries].
  induction entries as [|[name kind] entries IH]; cbn [removeAbandoned]; [apply keeps_ret, _|].
  apply keeps_if; [exact IH|]. apply keeps_bind; [apply _|apply still_fewer, still_LstatEntry|intros info].
  apply keeps_if; [apply keeps_throw, _|]. apply keeps_bind; [apply _| |intros _; exact IH].
  apply keeps_wrap. intros t. unfold RemoveAllEntry, bind, next_tfault, fewer_names.
  destruct t as [m u ns n [|f fs]]; cbn;
    (destruct (m !! name) as [i|]; [|reflexivity]; destruct (ns !! i); [|reflexivity]); [apply delete_subseteq|].
  destruct f; cbn; [reflexivity|apply delete_subseteq].
Qed.

Lemma syncParent_spares Q : keeps (spares Q) syncParentDirectory.
Proof.
  assert (keeps (spares Q) (tcall (ret tt))) as Hc by (apply tcall_spares, keeps_ret, _).
  unfold syncParentDirectory. apply keeps_bind; [apply _|exact Hc|intros _].
  apply keeps_bind; [apply _| |intros _; exact Hc]. intros t. pose proof (SyncRoot_spares Q t) as Hs.
  destruct (SyncRoot t) as [[u|e|] t1]; cbn in *; [done| |done]. etrans; [exact Hs|apply Hc].
Qed.

Lemma publish_directory_spares (Q : bytes -> Prop) provisional final :
  ~ Q provisional -> keeps (spares Q) (publishGenerationDirectory provisional final).
Proof.
  intros Hq. unfold publishGenerationDirectory.
  apply keeps_bind; [apply _|by apply keeps_wrap, in_sub_spares|intros _].
  apply keeps_bind; [apply _|by apply Rename_spares|intros _]. apply keeps_wrap, syncParent_spares.
Qed.

(** The frozen directory is only read. *)
Definition created (Q : bytes -> Prop) (s s' : (dir * sealer.env) * tree) : Prop :=
  same_dir s.1.1 s'.1.1 /\ spares Q s.2 s'.2.

#[export] Instance created_PreOrder Q : PreOrder (created Q).
Proof.
  split; [by intros s; split|]. intros s1 s2 s3 [A1 B1] [A2 B2]. split; by etrans.
Qed.

Lemma on_tree_created {A} Q (p : prog tree A) : keeps (spares Q) p -> keeps (created Q) (on_snd p).
Proof. intros Hp [[f v] t]. specialize (Hp t). unfold on_snd. destruct (p t). by split. Qed.

Lemma sealInto_created (Q : bytes -> Prop) config ds name : ~ Q name -> keeps (created Q) (sealInto config ds name).
Proof.
  intros Hq [[f v] t]. unfold sealInto. destruct (t_names t !! name) as [i|] eqn:Ei; [|reflexivity].
  destruct (t_nodes t !! i) as [[d|k]|]; [|reflexivity..].
  pose proof (sealer.Seal_cases config ds f (set_faults (t_faults t) d) v) as Hc.
  destruct (sealer.Seal config ds (f, set_faults (t_faults t) d, v)) as [r [[f' d'] v']].
  split; [|by eapply set_node_spares]. cbn. destruct r as [r|e|]; destruct Hc as [Hc _]; [exact Hc| |exact Hc].
  apply Hc.
Qed.

Lemma buildProvisional_created (Q : bytes -> Prop) config roots provisional final :
  ~ Q provisional -> keeps (created Q) (buildProvisional config roots provisional final).
Proof.
  intros Hq. unfold buildProvisional.
  apply keeps_bind; [apply _|by apply sealInto_created|intros sealResult].
  repeat first
    [ apply keeps_ret, _ | apply keeps_throw, _ | apply keeps_lift, _ | apply keeps_if
    | apply keeps_wrap | apply keeps_bind; [apply _| |intros ?]
    | apply on_tree_created, in_sub_spares; assumption
    | apply on_tree_created, publish_directory_spares; assumption ].
Qed.

Lemma still_VerifyPublished generation : still (VerifyPublishedGenerationPayload generation).
Proof. unfold VerifyPublishedGenerationPayload. pose proof still_Load. still. Qed.
Lemma still_confirm finalDir descriptor : still (confirmPublished finalDir descriptor).
Proof. unfold confirmPublished. pose proof still_Load. pose proof still_VerifyPublished. still. Qed.
Lemma still_loadExisting config finalDir : still (loadExisting config finalDir).
Proof. unfold loadExisting. pose proof still_Load. pose proof still_VerifyPublished. still. Qed.

Lemma createNew_created config roots finalDir :
  keeps (created (others (CreateGenerationID config))) (createNew config roots finalDir).
Proof.
  set (Q := others _). intros s. unfold createNew.
  set (mk := on_snd (wrap_err _ (MkdirTempEntry _ _))).
  assert (keeps (created Q) mk) as Hmk by (apply on_tree_created, keeps_wrap, MkdirTemp_spares).
  specialize (Hmk s). unfold bind at 1. destruct (mk s) as [provisional s1] eqn:Em. cbn [snd] in Hmk.
  destruct provisional as [provisional|e|]; [|exact Hmk..].
  assert (~ Q provisional) as Hq.
  { destruct s as [fv t]. unfold mk, on_snd in Em. destruct (wrap_err _ _ t) as [r t1] eqn:E.
    injection Em as -> _. apply wrap_err_Ok, tcall_Ok in E as [fs E].
    destruct (unused_temp _ _ _ _ _) as [n|] eqn:Eu; [|done]. injection E as -> _.
    apply unused_temp_spec in Eu as (_ & k & ->). apply not_others, temp_provisional. }
  etrans; [exact Hmk|]. apply keeps_bind; [apply _| |intros descriptor; apply on_tree_created, still_spares, still_confirm].
  intros s2. unfold sealer.or_else.
  pose proof (buildProvisional_created Q config roots provisional (entry_of finalDir) Hq s2) as Hb.
  destruct (buildProvisional _ _ _ _ s2) as [[descriptor|e|] s3]; [exact Hb| |exact Hb]. cbn [snd] in *.
  etrans; [exact Hb|]. by apply on_tree_created, RemoveAll_spares.
Qed.

Lemma Create_created config roots :
  keeps (created (others (CreateGenerationID config))) (CreateSealedGeneration config roots).
Proof.
  unfold CreateSealedGeneration.
  do 3 (apply keeps_bind; [apply _|apply keeps_lift, _|intros _]).
  apply keeps_bind; [apply _|apply on_tree_created, cleanup_spares|intros _ s].
  cbv zeta. set (finalDir := filepath_Join _ _).
  pose proof (on_tree_created (others (CreateGenerationID config)) _
    (still_spares _ _ (still_LstatEntry (entry_of finalDir))) s) as Hl.
  destruct (on_snd (LstatEntry (entry_of finalDir)) s) as [[info|e|] s1]; cbn [snd] in *; [| |exact Hl].
  - etrans; [exact Hl|]. apply on_tree_created, still_spares, still_loadExisting.
  - destruct (errors_Is e ErrNotExist); [|exact Hl]. etrans; [exact Hl|]. apply createNew_created.
Qed.

End Facts.

(** ** The steps of a build *)

Lemma writeSynced_Ok name value d d' :
  writeSyncedGenerationFile name value d = (Ok tt, d') ->
  names d !! name = None /\ names d' = <[name := next_ino d]> (names d) /\
  inodes d' !! next_ino d = Some (Inode Regular 384 value true) /\
  forall j, j <> next_ino d -> inodes d' !! j = inodes d !! j.
Proof.
  unfold writeSyncedGenerationFile. intros (file & d1 & Hc & Hr)%bind_Ok. apply syscall_Ok in Hc as [f1 Hc].
  destruct d as [nm du ind nx fl]. cbn in Hc. destruct (nm !! name) eqn:En; [done|]. injection Hc as <- <-.
  apply bind_Ok in Hr as ([] & d2 & Hw%or_close_Ok & Hr). apply bind_Ok in Hr as ([] & d3 & Hs%or_close_Ok & Hr).
  apply quiet_run in Hr as [f4 ->]; [|apply quiet_Close].
  unfold FileWrite in Hw. apply bind_Ok in Hw as (fault & d4 & Hf & Hw).
  assert (exists f5, d4 = Dir (<[name := nx]> nm) du (<[nx := Inode Regular 384 [] false]> ind) (S nx) f5) as [f5 ->].
  { unfold next_fault in Hf. cbn [faults] in Hf. destruct f1 as [|g f1]; injection Hf as _ <-; by eexists. }
  destruct fault as [k|]; [by apply bind_Ok in Hw as ([] & d5 & _ & Hw)|].
  unfold update_inode in Hw. cbn in Hw. rewrite lookup_insert_eq in Hw. injection Hw as <-.
  apply syscall_Ok in Hs as [f6 Hs]. unfold update_inode in Hs. cbn in Hs. rewrite lookup_insert_eq in Hs.
  injection Hs as <-. cbn. split_and!; try done; [by rewrite lookup_insert_eq|].
  intros j Hj. by rewrite !lookup_insert_ne by congruence.
Qed.

Lemma payload_renamed path name i d d' :
  publishGenerationPayload path SealedGenerationPayloadName d = (Ok tt, d') -> names d = {[ name := i ]} ->
  names d' = {[ SealedGenerationPayloadName := i ]} /\ inodes d' = inodes d /\ next_ino d' = next_ino d.
Proof.
  intros [f Hr]%syscall_Ok Hn. destruct d as [nm du ind nx fl]. cbn in Hn, Hr. subst nm.
  destruct ({[name := i]} !! filepath_Base path) as [j|] eqn:Ej; [|done]. apply lookup_singleton_Some in Ej as [-> <-].
  injection Hr as <-. cbn. split; [|done]. by rewrite delete_singleton_eq.
Qed.

Lemma syncGeneration_Ok d d' :
  syncGenerationDirectory d = (Ok tt, d') ->
  names d' = names d /\ durable d' = names d /\ inodes d' = inodes d.
Proof.
  unfold syncGenerationDirectory. intros ([] & d1 & Ho & Hr)%bind_Ok.
  apply quiet_run in Ho as [f1 ->]; [|apply quiet_syscall, keeps_ret, _].
  apply bind_Ok in Hr as ([] & d2 & Hs%or_close_Ok & Hr). apply quiet_run in Hr as [f2 ->]; [|apply quiet_Close].
  apply syscall_Ok in Hs as [f3 Hs]. injection Hs as <-. done.
Qed.

Lemma syncParent_Ok t t' :
  syncParentDirectory t = (Ok tt, t') -> t_names t' = t_names t /\ t_durable t' = t_names t /\ t_nodes t' = t_nodes t.
Proof.
  assert (still (tcall (ret tt))) as Hc by (apply still_tcall, keeps_ret, _).
  unfold syncParentDirectory. intros ([] & t1 & Ho & Hr)%bind_Ok. apply still_run in Ho as [f1 ->]; [|exact Hc].
  apply bind_Ok in Hr as ([] & t2 & Hs & Hr). apply still_run in Hr as [f2 ->]; [|exact Hc].
  destruct (SyncRoot (set_tfaults f1 t)) as [[[]|e|] t3] eqn:E; [|done|done]. injection Hs as <-.
  apply tcall_Ok in E as [f3 E]. injection E as <-. done.
Qed.

(** The published directory keeps whatever its synced files are. *)
Lemma publishDirectory_kept (P : dir -> Prop) t0 i d provisional final t t' :
  holding t0 i d t -> t_names t0 !! provisional = Some i ->
  publishGenerationDirectory provisional final t = (Ok tt, t') ->
  (forall d', names d' = names d -> durable d' = names d -> inodes d' = inodes d -> P d') ->
  kept P t' final.
Proof.
  intros Hh Hp Hr HP. unfold publishGenerationDirectory in Hr.
  apply bind_Ok in Hr as ([] & t1 & Hs%wrap_err_Ok & Hr).
  eapply in_sub_holding in Hs as (fs & d1 & Hs & [Hn1 Hi1]); [|done|done].
  apply syncGeneration_Ok in Hs as (S1 & S2 & S3). cbn [names durable inodes set_faults] in *.
  apply bind_Ok in Hr as ([] & t2 & Hm & Hr). apply tcall_Ok in Hm as [f2 Hm]. cbn [t_names set_tfaults] in Hm.
  rewrite Hn1, Hp in Hm. destruct (t_names t0 !! final) eqn:Ef; [done|]. injection Hm as <-.
  apply wrap_err_Ok, syncParent_Ok in Hr as (R1 & R2 & R3).
  exists i, (set_faults (faults d) d1). rewrite R1, R2, R3. cbn [t_names t_nodes set_tnames set_tfaults].
  rewrite lookup_insert_eq. split_and!; try done. by apply HP.
Qed.

Section Sound.
Context `{Unicode} `{X509} `{Zstd} `{JSON SignedGeneration} `{!ZstdCodec}.

Lemma sealInto_Ok config ds name f v t r f' v' t' i d :
  sealInto config ds name ((f, v), t) = (Ok r, ((f', v'), t')) ->
  t_names t !! name = Some i -> t_nodes t !! i = Some (Sub d) ->
  exists fs d', sealer.Seal config ds (f, set_faults fs d, v) = (Ok r, (f', d', v')) /\
    holding t i (set_faults (faults d) d') t'.
Proof.
  unfold sealInto. intros Hr Hn Hi. rewrite Hn, Hi in Hr.
  destruct (sealer.Seal _ _ _) as [r1 [[f1 d1] v1]] eqn:E. injection Hr as -> <- <- <-.
  exists (t_faults t), d1. split; [done|]. split; [done|]. cbn. by rewrite lookup_insert_eq.
Qed.

(** A build that was published: two synced files in a durable directory, the payload
    being the frozen files. *)
Lemma buildProvisional_kept config roots provisional final f v t desc f' v' t' i :
  buildProvisional config roots provisional final ((f, v), t) = (Ok desc, ((f', v'), t')) ->
  t_names t !! provisional = Some i -> t_nodes t !! i = Some (Sub (empty_dir [])) ->
  (forall n j, names f !! n = Some j -> len n <= canonical.maxCanonicalArtifactNameBytes) ->
  exists metadata payload fs, kept (holds metadata payload) t' final /\
    sealer.frozen_artifacts f fs /\ valid_payload desc payload fs /\
    SourceID desc = CreateSourceID config /\ GenerationID desc = CreateGenerationID config.
Proof.
  intros Hr Hp Hi Hlen. unfold buildProvisional in Hr.
  apply bind_Ok in Hr as (sr & [[f1 v1] t1] & Hseal & Hr).
  eapply sealInto_Ok in Hseal as (fs0 & d1 & Hseal & Hh1); [|done|done].
  apply bind_lift_Ok in Hr as (u1 & _ & Hr). apply bind_lift_Ok in Hr as (desc0 & Hdesc & Hr).
  destruct (sealed_valid_payload _ _ _ _ _ _ _ _ _ _ _ Hseal Hdesc Hlen) as (nd & fs & Hnd & Hfa & Hval).
  match type of Hseal with sealer.Seal ?c ?ds ?s = _ => pose proof (sealer.Seal_cases c ds f (set_faults fs0 (empty_dir [])) v) as Hc end.
  rewrite Hseal in Hc.
  destruct Hc as (_ & _ & Hnm & _ & Hnx & _ & fs1 & ps & enc & nd1 & _ & _ & _ & Hnd1 & _ & Hsync & _ & Hres).
  cbn [names next_ino set_faults empty_dir] in Hnm, Hnx, Hnd1. rewrite insert_empty in Hnm.
  assert (nd1 = nd) as ->.
  { unfold lookup_file in Hnd. rewrite Hnm, lookup_singleton_eq in Hnd. cbn in Hnd. congruence. }
  apply bind_lift_Ok in Hr as (signed & _ & Hr). apply bind_lift_Ok in Hr as (metadata & _ & Hr).
  apply bind_Ok in Hr as ([] & s2 & Hm%wrap_err_Ok & Hr). apply on_snd_Ok in Hm as (t2 & Hm & ->).
  eapply in_sub_holding in Hm as (fs2 & d2 & Hm & Hh2); [|exact Hh1|exact Hp].
  eapply payload_renamed in Hm as (N2 & I2 & X2); [|exact Hnm]. cbn [inodes next_ino set_faults] in I2, X2.
  apply bind_Ok in Hr as (info & s3 & Hl & Hr). apply on_snd_Ok in Hl as (t3 & Hl & ->).
  eapply still_holding in Hl; [|apply still_in_sub, quiet_Lstat|exact Hh2].
  destruct (_ || _) in Hr; [done|]. apply bind_Ok in Hr as ([] & s4 & Hw & Hr). apply on_snd_Ok in Hw as (t4 & Hw & ->).
  eapply in_sub_holding in Hw as (fs4 & d4 & Hw & Hh4); [|exact Hl|exact Hp].
  apply writeSynced_Ok in Hw as (_ & N4 & I4 & J4). cbn [names inodes next_ino set_faults] in N4, I4, J4.
  apply bind_Ok in Hr as ([] & s5 & Hv & Hr). apply on_snd_Ok in Hv as (t5 & Hv & ->).
  eapply still_holding in Hv; [|apply still_in_sub|exact Hh4].
  2: { unfold validateProvisionalGenerationDirectory. quiet. }
  apply bind_Ok in Hr as ([] & s6 & Hpub%wrap_err_Ok & Hr). apply on_snd_Ok in Hpub as (t6 & Hpub & ->).
  injection Hr as <- _ _ <-. exists metadata, (i_data nd), fs. split; [|split; [exact Hfa|split; [exact Hval|]]].
  - eapply publishDirectory_kept; [exact Hv|exact Hp|exact Hpub|]. intros d' D1 D2 D3. cbn [names inodes set_faults] in D1, D2, D3.
    rewrite N2, X2, Hnx in N4. rewrite X2, Hnx in I4, J4. split.
    + exists (Inode Regular 384 metadata true). split; [|reflexivity]. exists 1%nat. rewrite D1, D2, D3, N4, lookup_insert_eq. by split_and!.
    + exists nd. split; [|done]. exists 0%nat. rewrite D1, D2, D3, N4, lookup_insert_ne by done.
      rewrite lookup_singleton_eq, J4, I2 by done. by split_and!.
  - unfold sealer.DescriptorFromSeal in Hdesc. res_inv Hdesc. cbn [SourceID GenerationID].
    destruct Hres as (_ & _ & _ & _ & _ & _ & _ & -> & _). done.
Qed.

(** A new directory: the build, then the checks on what was published. *)
Lemma createNew_kept config roots finalDir f v t g f' v' t' :
  createNew config roots finalDir ((f, v), t) = (Ok g, ((f', v'), t')) ->
  (forall n j, names f !! n = Some j -> len n <= canonical.maxCanonicalArtifactNameBytes) ->
  exists metadata payload fs, kept (holds metadata payload) t' (sealedGenerationDirectoryPrefix ++ CreateGenerationID config) /\
    sealer.frozen_artifacts f fs /\ valid_payload (SignedDescriptor (Signed g)) payload fs /\
    SourceID (SignedDescriptor (Signed g)) = CreateSourceID config /\
    UnmarshalSignedGeneration metadata = Ok (Signed g) /\
    sealed_at t' (entry_of finalDir) metadata payload (Signed g) /\ DirectoryPath g = finalDir.
Proof.
  intros Hr Hlen. unfold createNew in Hr. apply bind_Ok in Hr as (provisional & s1 & Hm & Hr).
  apply on_snd_Ok in Hm as (t1 & Hm%wrap_err_Ok & ->). apply tcall_Ok in Hm as [f1 Hm].
  destruct (unused_temp _ _ _ _ _) as [name|] eqn:Eu; [|done]. injection Hm as -> <-.
  apply bind_Ok in Hr as (desc & [[f2 v2] t2] & Hb & Hr).
  assert (buildProvisional config roots provisional (entry_of finalDir) ((f, v), Tree
    (<[provisional := t_next t]> (t_names t)) (t_durable t) (<[t_next t := Sub (empty_dir [])]> (t_nodes t))
    (S (t_next t)) f1) = (Ok desc, ((f2, v2), t2))) as Hb'.
  { unfold sealer.or_else in Hb. destruct (buildProvisional _ _ _ _ _) as [[?|?|] ?]; [exact Hb|done|done]. }
  eapply buildProvisional_kept in Hb' as (metadata & payload & fs & Hk & Hfa & Hval & Hs & Hg);
    [|cbn; apply lookup_insert_eq|cbn; apply lookup_insert_eq|done].
  apply on_snd_Ok in Hr as (t3 & Hr & [= -> -> ->]). unfold confirmPublished in Hr.
  apply bind_Ok in Hr as (published & t4 & Hl%wrap_err_Ok & Hr). apply load_Ok in Hl as ([f4 ->] & Hg0 & m & p & d & Hat).
  destruct (negb _) eqn:Ed in Hr; [done|]. bool_hyps.
  apply bind_Ok in Hr as ([] & t5 & Hv%wrap_err_Ok & Hr). injection Hr as -> <-.
  assert (DirectoryPath g = finalDir) as Hdir by (by rewrite Hg0).
  pose proof (Verify_Ok _ _ _ Hv) as (m' & p' & sg & d' & Hat' & _ & Hsealed). rewrite Hdir in Hat', Hsealed.
  apply still_run in Hv as [f5 ->]; [|apply still_VerifyPublished].
  destruct (holds_generation _ _ _ _ _ _ _ _ Hk Hat) as [-> ->].
  rewrite generation_at_faults in Hat'.
  destruct (generation_at_det _ _ _ _ _ _ _ _ _ _ Hat Hat') as (_ & -> & -> & ->). destruct Hat as [_ _ _ Hu _ Hname].
  exists metadata, payload, fs. match goal with E : SignedDescriptor _ = desc |- _ => rewrite E in * end.
  rewrite Hname, Hg in Hk. by split_and!.
Qed.

(** Whether new or found, what is returned was loaded and its payload hashed. *)
Lemma Create_sealed config roots f v t g s' finalDir :
  finalDir = filepath_Join (SealedRoot config) (sealedGenerationDirectoryPrefix ++ CreateGenerationID config) ->
  CreateSealedGeneration config roots ((f, v), t) = (Ok g, s') ->
  (forall n j, names f !! n = Some j -> len n <= canonical.maxCanonicalArtifactNameBytes) ->
  DirectoryPath g = finalDir /\
  exists metadata payload signed, sealed_at s'.2 (entry_of finalDir) metadata payload signed /\
    SignedDescriptor signed = SignedDescriptor (Signed g) /\
    (t_names t !! entry_of finalDir = None ->
     exists fs, sealer.frozen_artifacts f fs /\ valid_payload (SignedDescriptor signed) payload fs).
Proof.
  intros -> Hr Hlen. unfold CreateSealedGeneration in Hr. do 3 apply bind_lift_Ok in Hr as (? & _ & Hr).
  apply bind_Ok in Hr as ([] & s1 & Hc & Hr). apply on_snd_Ok in Hc as (t1 & Hc & ->).
  pose proof (cleanup_names (CreateGenerationID config) t) as Hsub. rewrite Hc in Hsub. cbn [snd] in Hsub.
  cbv zeta in Hr. set (finalDir := filepath_Join _ _) in *. unfold on_snd at 1 in Hr.
  destruct (LstatEntry (entry_of finalDir) t1) as [[info|e|] t2] eqn:El; [| |done].
  - apply on_snd_Ok in Hr as (t3 & Hr & ->). unfold loadExisting in Hr.
    apply bind_Ok in Hr as (existing & t4 & Hl%wrap_err_Ok & Hr). apply load_Ok in Hl as (_ & Hg & _).
    destruct (_ || _) in Hr; [done|]. apply bind_lift_Ok in Hr as (? & _ & Hr).
    apply bind_Ok in Hr as ([] & t5 & Hv%wrap_err_Ok & Hr). injection Hr as -> ->.
    assert (DirectoryPath g = finalDir) as Hdir by (by rewrite Hg). split; [done|].
    pose proof (Verify_Ok _ _ _ Hv) as (m & p & sg & d & _ & Hs & Hsealed). rewrite Hdir in Hsealed.
    apply still_run in Hv as [f5 ->]; [|apply still_VerifyPublished]. exists m, p, sg. split; [done|]. split; [done|].
    apply LstatEntry_Ok in El as (_ & i & nd & Hi & _). apply (lookup_weaken _ _ _ _ Hi) in Hsub. congruence.
  - destruct (errors_Is e ErrNotExist); [|done]. destruct s' as [[f' v'] t'].
    eapply createNew_kept in Hr as (m & p & fs & _ & Hfa & Hval & _ & _ & Hsealed & Hdir); [|done].
    split; [done|]. exists m, p, (Signed g). split; [done|]. split; [done|]. intros _. by exists fs.
Qed.

(** [C20] A created generation is durable and complete. When [CreateSealedGeneration]
    succeeds and the generation did not exist before, its directory is on stable storage
    under the queue name of the generation, with exactly the signed metadata and a payload
    that decodes to every file of the frozen directory with the sizes and digests of the
    signed descriptor. *)
Theorem CreateSealedGeneration_durable config roots f v t g s' :
  CreateSealedGeneration config roots ((f, v), t) = (Ok g, s') ->
  t_names t !! entry_of (filepath_Join (SealedRoot config)
    (sealedGenerationDirectoryPrefix ++ CreateGenerationID config)) = None ->
  (forall n j, names f !! n = Some j -> len n <= canonical.maxCanonicalArtifactNameBytes) ->
  exists metadata payload fs,
    kept (holds metadata payload) s'.2 (sealedGenerationDirectoryPrefix ++ CreateGenerationID config) /\
    sealer.frozen_artifacts f fs /\ valid_payload (SignedDescriptor (Signed g)) payload fs /\
    SourceID (SignedDescriptor (Signed g)) = CreateSourceID config /\
    UnmarshalSignedGeneration metadata = Ok (Signed g).
Proof.
  intros Hr Hnone Hlen. unfold CreateSealedGeneration in Hr. do 3 apply bind_lift_Ok in Hr as (? & _ & Hr).
  apply bind_Ok in Hr as ([] & s1 & Hc & Hr). apply on_snd_Ok in Hc as (t1 & Hc & ->).
  pose proof (cleanup_names (CreateGenerationID config) t) as Hsub. rewrite Hc in Hsub. cbn [snd] in Hsub.
  cbv zeta in Hr. set (finalDir := filepath_Join _ _) in *. unfold on_snd at 1 in Hr.
  destruct (LstatEntry (entry_of finalDir) t1) as [[info|e|] t2] eqn:El; [| |done].
  - apply LstatEntry_Ok in El as (_ & i & nd & Hi & _). apply (lookup_weaken _ _ _ _ Hi) in Hsub. congruence.
  - destruct (errors_Is e ErrNotExist); [|done]. destruct s' as [[f' v'] t']. eapply createNew_kept in Hr as (m & p & fs & ? & ? & ? & ? & ? & _); [|done]. by exists m, p, fs.
Qed.


End Sound.
End gencreate.
