(* ===== verification/GenerationSender.v ===== *)
(** * The generation queue of the sender

    Models [go/internal/transportsender]: [generation_transaction.go] (offer, decision,
    transfer, acknowledgement and retirement of one generation), the queue part of
    [generation_transport.go], [generation_reclaim.go] (removal of retired generations),
    [retry.go], and the Linux variants of the calls that rename and remove
    ([generation_publish_other.go], [generation_reclaim_other.go]). The state is the
    stage root, a [tree], beside the two directions of the connection. *)

From stdpp Require Import gmap.
From S2P Require Import Prelude GoBytes GoStrings Sha256 GoIO GoFS GoDir GoPublish GoTree Pki TransportEncoding TransportTrust TransportGeneration GenerationCanonical GenerationProtocol GenerationTransfer GenerationPublished.

Module gensender.
Import transportgeneration protocol genpublished.

(** ** Retryable failures: [retry.go] *)

Definition ErrRetryableTransport : error := Sentinel "FI transport failure is retryable".
Definition DeadlineExceeded : error := Sentinel "context deadline exceeded".
Definition ErrClosedPipe : error := Sentinel "io: read/write on closed pipe".

Section Retry.
(** Whether the chain of an error contains a [net.Error] ([errors.As]). *)
Context (net_Error : error -> bool).

Definition retryableTransportIOError (e : error) (allowEOF : bool) : bool :=
  errors_Is e DeadlineExceeded || errors_Is e ErrClosedPipe ||
  (allowEOF && errors_Is e EOF) || (allowEOF && errors_Is e ErrUnexpectedEOF) || net_Error e.
Definition retryableAcknowledgementReadError (e : error) : bool := retryableTransportIOError e true.
Definition retryableTransportWriteError (e : error) : bool := retryableTransportIOError e false.

(** A failed transport call: wrapped, and marked when it may be retried. [%w: %w] wraps
    two errors. *)
Definition transported {A} (retryable : error -> bool) (msg : string) (r : res A) : res A :=
  match r with
  | Err e => let wrapped := Wrap msg e in
             Err (if retryable e then Join ErrRetryableTransport wrapped else wrapped)
  | _ => r
  end.
End Retry.

(** ** Generations of the queue *)

Definition generationDirectoryPrefix : bytes := bs "generation-".

Record TransportGeneration := {
  GenerationDir : bytes;
  QueuedGenerationID : bytes;
  Published : PublishedGeneration
}.

Record GenerationRetirementAuthorization := {
  acknowledgement : Acknowledgement;
  transfer : TransferResult
}.

Inductive GenerationRetirementDisposition :=
| GenerationRetirementDispositionAlreadyRetired
| GenerationRetirementDispositionRetired.

Record GenerationRetirementResult := {
  RetirementDisposition : GenerationRetirementDisposition;
  RetiredGenerationID : bytes;
  RetiredPath : bytes;
  RetiredSourceID : bytes;
  RetiredTransferSHA256 : bytes
}.

(** A field not reached yet is [None]. *)
Record GenerationTransportTransactionResult := {
  SentAcknowledgement : option Acknowledgement;
  SentDecision : option Decision;
  SentOffer : option Offer;
  SentRetirement : option GenerationRetirementResult;
  SentTransfer : option TransferResult
}.

Definition validLowerSHA256 (digest : bytes) : bool :=
  match hex_decode digest with
  | Ok raw => (len raw =? 32) && bool_decide (digest = hex_encode raw)
  | _ => false
  end.

Definition generationRetiredDirectoryPrefix : bytes := bs ".fi-generation-retired-".
Definition generationReclaimingDirectoryPrefix : bytes := bs ".fi-generation-reclaiming-".

Definition generationRetirementObjectName (transfer : TransferResult) : bytes :=
  generationRetiredDirectoryPrefix ++ hex_encode (sha256 (
    bs "FI-GENERATION-RETIREMENT-V1" ++ [z2b 0] ++ SourceID (ResultDescriptor transfer) ++ [z2b 0] ++
    GenerationID (ResultDescriptor transfer) ++ [z2b 0] ++ TransferSHA256 transfer)).

Definition sameTransportGenerationSignedIdentity (a b : SignedGeneration) : bool :=
  bool_decide (SignedVersion a = SignedVersion b) && bool_decide (SignedDescriptor a = SignedDescriptor b) &&
  bool_decide (Signature a = Signature b) &&
  bool_decide (BatchSigningCertificateDER a = BatchSigningCertificateDER b).

(** [generation_publish_other.go]; the parent is closed by a [defer]. *)
Definition publishGenerationDirectory (source destination : bytes) : prog tree unit :=
  check! RenameEntry source destination ;;
  check! wrap_err "open FI generation parent directory for sync: %w" (tcall (ret tt)) ;;
  fun t => let '(r, t) := wrap_err "sync FI generation parent directory: %w" SyncRoot t in
           (r, (tcall (ret tt) t).2).

Section Sender.
Context `{Unicode} `{X509} `{JSON SignedGeneration} `{JSON Offer} `{JSON Decision} `{JSON Acknowledgement}.
Context (net_Error : error -> bool).

(** ** Acknowledgements *)

Definition validateGenerationTransferResult (value : TransferResult) : res unit :=
  let descriptor := ResultDescriptor value in
  check? wrap "validate FI generation transfer descriptor: %w" (Validate descriptor) ;;
  fail? (MetadataBytes value =? 0) || (PayloadBytes value =? 0) || (TransferBytes value =? 0)
    with Errorf "FI generation transfer byte counts must be greater than zero" ;;
  fail? negb (PayloadBytes value =? EncodedDataBytes descriptor)
    with Errorf "FI generation transfer payload byte count does not match descriptor" ;;
  fail? negb (bool_decide (PayloadSHA256 value = EncodedDataSHA256 descriptor))
    with Errorf "FI generation transfer payload SHA-256 does not match descriptor" ;;
  fail? negb (validLowerSHA256 (MetadataSHA256 value)) || negb (validLowerSHA256 (PayloadSHA256 value)) ||
        negb (validLowerSHA256 (TransferSHA256 value))
    with Errorf "FI generation %s SHA-256 is invalid" ;;
  let expected := 20 in
  fail? max_u64 - expected <? MetadataBytes value with Errorf "FI generation transfer byte count overflow" ;;
  let expected := u64 (expected + MetadataBytes value) in
  fail? max_u64 - expected <? PayloadBytes value with Errorf "FI generation transfer byte count overflow" ;;
  let expected := u64 (expected + PayloadBytes value) in
  fail? negb (TransferBytes value =? expected)
    with Errorf "FI generation transfer byte count is inconsistent" ;;
  Ok tt.

Definition validateGenerationRetirementAuthorization (value : GenerationRetirementAuthorization) : res unit :=
  match validateGenerationTransferResult (transfer value) with
  | Ok _ =>
      match AcknowledgementMatches (acknowledgement value) (transfer value) with
      | Err _ => Err (Errorf "invalid FI generation retirement authorization acknowledgement")
      | r => r
      end
  | Err _ => Err (Errorf "invalid FI generation retirement authorization transfer")
  | Panic => Panic
  end.

Definition Authorization_Acknowledgement (value : GenerationRetirementAuthorization) : res Acknowledgement :=
  check? validateGenerationRetirementAuthorization value ;;
  Ok (acknowledgement value).

Definition VerifyGenerationAcknowledgement (transfer : TransferResult)
  : prog reader GenerationRetirementAuthorization :=
  check! lift (validateGenerationTransferResult transfer) ;;
  let! acknowledgement := wrap_err "read FI generation acknowledgement: %w" ReadAcknowledgement in
  check! lift (wrap "match FI generation acknowledgement to exact transfer: %w"
                 (AcknowledgementMatches acknowledgement transfer)) ;;
  ret {| acknowledgement := acknowledgement; transfer := transfer |}.

(** ** Retirement *)

Definition validateGenerationForRetirement (generation : TransportGeneration) (transfer : TransferResult)
    (acknowledgement : Acknowledgement) : res unit :=
  fail? bool_decide (GenerationDir generation = []) || bool_decide (QueuedGenerationID generation = [])
    with Errorf "FI transport generation identity is required for retirement" ;;
  fail? negb (filepath_IsAbs (GenerationDir generation))
    with Errorf "FI transport generation directory must be absolute for retirement" ;;
  fail? negb (bool_decide (filepath_Base (filepath_Clean (GenerationDir generation)) =
                           generationDirectoryPrefix ++ QueuedGenerationID generation))
    with Errorf "FI transport generation directory identity is inconsistent before retirement" ;;
  fail? negb (bool_decide (DirectoryPath (Published generation) = GenerationDir generation)) ||
        negb (bool_decide (GenerationID (SignedDescriptor (Signed (Published generation))) =
                           QueuedGenerationID generation))
    with Errorf "FI transport generation published identity is inconsistent before retirement" ;;
  check? validateGenerationTransferResult transfer ;;
  fail? negb (bool_decide (ResultDescriptor transfer = SignedDescriptor (Signed (Published generation))))
    with Errorf "FI generation transfer descriptor does not match queued generation before retirement" ;;
  wrap "validate FI generation retirement acknowledgement: %w" (AcknowledgementMatches acknowledgement transfer).

Definition verifyGenerationMetadataIdentity (transfer : TransferResult) : prog dir unit :=
  let! info := Lstat SignedGenerationMetadataName in
  fail! bool_decide (fi_kind info = Symlink) || negb (bool_decide (fi_kind info = Regular)) || (fi_size info <=? 0)
    with Errorf "FI generation metadata must remain a real regular file before retirement" ;;
  fail! negb (u64 (fi_size info) =? MetadataBytes transfer)
    with Errorf "FI generation metadata byte count changed before retirement" ;;
  let! value := ReadFile SignedGenerationMetadataName in
  fail! negb (bool_decide (sha256_hex value = MetadataSHA256 transfer))
    with Errorf "FI generation metadata SHA-256 changed before retirement" ;;
  ret tt.

Definition verifyRetiredGenerationTombstone (generation : TransportGeneration) (transfer : TransferResult)
  : prog dir unit :=
  let! entries := ReadDir in
  fail! negb (len entries =? 2)
    with Errorf "FI generation retirement tombstone must contain exactly two artifacts" ;;
  let! metadata := wrap_err "read retired FI generation metadata: %w" (ReadFile SignedGenerationMetadataName) in
  fail! negb (len metadata =? MetadataBytes transfer)
    with Errorf "retired FI generation metadata byte count does not match acknowledged transfer" ;;
  fail! negb (bool_decide (sha256_hex metadata = MetadataSHA256 transfer))
    with Errorf "retired FI generation metadata SHA-256 does not match acknowledged transfer" ;;
  let! signed := lift (UnmarshalSignedGeneration metadata) in
  fail! negb (sameTransportGenerationSignedIdentity signed (Signed (Published generation)))
    with Errorf "retired FI generation signed identity does not match acknowledged generation" ;;
  let! payloadInfo := Lstat SealedGenerationPayloadName in
  fail! bool_decide (fi_kind payloadInfo = Symlink) || negb (bool_decide (fi_kind payloadInfo = Regular)) ||
        (fi_size payloadInfo <=? 0) || negb (u64 (fi_size payloadInfo) =? PayloadBytes transfer)
    with Errorf "retired FI generation payload structure does not match acknowledged transfer" ;;
  let! payload := Open SealedGenerationPayloadName in
  defer_close (
    let! r := file_reader payload in
    let! content := lift (ReadAll r) in
    fail! negb (bool_decide (sha256_hex content = PayloadSHA256 transfer))
      with Errorf "retired FI generation payload SHA-256 does not match acknowledged transfer" ;;
    ret tt).

(** The active generation is checked once more and renamed to its tombstone. *)
Definition retireActive (generation : TransportGeneration) (transfer : TransferResult) (finalInfo : FileInfo)
  : prog tree unit :=
  fail! bool_decide (fi_kind finalInfo = Symlink) || negb (bool_decide (fi_kind finalInfo = Directory))
    with Errorf "FI active generation retirement path must name a real directory" ;;
  let! current := wrap_err "reload FI generation before retirement: %w"
                    (LoadSealedGeneration (GenerationDir generation)) in
  fail! negb (sameTransportGenerationSignedIdentity (Signed current) (Signed (Published generation)))
    with Errorf "FI generation signed identity changed before retirement" ;;
  check! in_sub (entry_of (GenerationDir generation)) (verifyGenerationMetadataIdentity transfer) ;;
  wrap_err "publish FI generation retirement tombstone: %w"
    (publishGenerationDirectory (entry_of (GenerationDir generation)) (generationRetirementObjectName transfer)).

Definition retireAgain (generation : TransportGeneration) (transfer : TransferResult) (retiredInfo : FileInfo)
  : prog tree unit :=
  fail! bool_decide (fi_kind retiredInfo = Symlink) || negb (bool_decide (fi_kind retiredInfo = Directory))
    with Errorf "FI generation retirement tombstone must name a real directory" ;;
  in_sub (generationRetirementObjectName transfer) (verifyRetiredGenerationTombstone generation transfer).

Definition RetireTransportGeneration (generation : TransportGeneration)
    (authorization : GenerationRetirementAuthorization) : prog tree GenerationRetirementResult :=
  let! acknowledgement := lift (Authorization_Acknowledgement authorization) in
  let transfer := transfer authorization in
  check! lift (validateGenerationForRetirement generation transfer acknowledgement) ;;
  let result disposition := {|
    RetirementDisposition := disposition;
    RetiredGenerationID := QueuedGenerationID generation;
    RetiredPath := filepath_Join (filepath_Dir (GenerationDir generation)) (generationRetirementObjectName transfer);
    RetiredSourceID := SourceID (ResultDescriptor transfer);
    RetiredTransferSHA256 := TransferSHA256 transfer |} in
  fun t =>
    let '(final, t) := LstatEntry (entry_of (GenerationDir generation)) t in
    let '(retired, t) := LstatEntry (generationRetirementObjectName transfer) t in
    match final, retired with
    | Ok _, Ok _ => (Err (Errorf "FI generation retirement found both active and retired namespace objects"), t)
    | Ok finalInfo, Err _ =>
        (check! retireActive generation transfer finalInfo ;;
         ret (result GenerationRetirementDispositionRetired)) t
    | Err finalErr, Ok retiredInfo =>
        if errors_Is finalErr ErrNotExist
        then (check! retireAgain generation transfer retiredInfo ;;
              ret (result GenerationRetirementDispositionAlreadyRetired)) t
        else (Err (Wrap "inspect FI active generation before retirement: %w" finalErr), t)
    | Err finalErr, Err retiredErr =>
        if errors_Is finalErr ErrNotExist && errors_Is retiredErr ErrNotExist
        then (Err (Errorf "FI generation retirement found neither active generation nor retirement tombstone"), t)
        else if negb (errors_Is finalErr ErrNotExist)
        then (Err (Wrap "inspect FI active generation before retirement: %w" finalErr), t)
        else (Err (Wrap "inspect FI generation retirement tombstone: %w" retiredErr), t)
    | _, _ => (Panic, t)
    end.

(** ** The transaction *)

Definition SendTransportGeneration {W} `{Writer W} (generation : TransportGeneration)
  : prog (W * tree) TransferResult :=
  fail! bool_decide (GenerationDir generation = []) || bool_decide (QueuedGenerationID generation = [])
    with Errorf "FI transport generation identity is required" ;;
  fail! negb (bool_decide (DirectoryPath (Published generation) = GenerationDir generation)) ||
        negb (bool_decide (GenerationID (SignedDescriptor (Signed (Published generation))) =
                           QueuedGenerationID generation))
    with Errorf "FI transport generation in-memory identity is inconsistent" ;;
  WritePublishedGeneration (Published generation).

Definition SendAndRetireTransportGeneration {W} `{Writer W} (generation : TransportGeneration)
    (s : reader * W * tree) : (GenerationTransportTransactionResult * res unit) * (reader * W * tree) :=
  let reached offer decision transfer acknowledgement retirement := {|
    SentAcknowledgement := acknowledgement; SentDecision := decision; SentOffer := offer;
    SentRetirement := retirement; SentTransfer := transfer |} in
  let '(r, w, t) := s in
  let '(offer, t) := OfferFromPublished (Published generation) t in
  stage (reached None None None None None) (r, w, t) (wrap "construct FI generation offer: %w" offer) (fun offer =>
  stage (reached None None None None None) (r, w, t)
    (fail? negb (bool_decide (SourceID (OfferDescriptor offer) =
                              SourceID (SignedDescriptor (Signed (Published generation))))) ||
           negb (bool_decide (GenerationID (OfferDescriptor offer) = QueuedGenerationID generation))
       with Errorf "FI generation offer identity does not match queued generation" ;; Ok tt) (fun _ =>
  let '(sent, w) := WriteOffer offer w in
  stage (reached (Some offer) None None None None) (r, w, t)
    (transported (retryableTransportWriteError net_Error) "send FI generation offer: %w" sent) (fun _ =>
  let '(decision, r) := ReadDecision r in
  stage (reached (Some offer) None None None None) (r, w, t)
    (transported (retryableAcknowledgementReadError net_Error) "read FI generation decision: %w" decision) (fun decision =>
  stage (reached (Some offer) (Some decision) None None None) (r, w, t)
    (check? wrap "validate FI generation decision: %w" (DecisionMatchesOffer decision offer) ;;
     fail? negb (Accepted decision) with Errorf "receiver rejected FI generation: %s" ;; Ok tt) (fun _ =>
  let '(transfer, (w, t)) := SendTransportGeneration generation (w, t) in
  stage (reached (Some offer) (Some decision) None None None) (r, w, t)
    (transported (retryableTransportWriteError net_Error) "send exact FI generation transfer: %w" transfer) (fun transfer =>
  let '(authorization, r) := VerifyGenerationAcknowledgement transfer r in
  stage (reached (Some offer) (Some decision) (Some transfer) None None) (r, w, t)
    (transported (retryableAcknowledgementReadError net_Error)
       "verify FI generation recorded acknowledgement: %w" authorization) (fun authorization =>
  stage (reached (Some offer) (Some decision) (Some transfer) None None) (r, w, t)
    (Authorization_Acknowledgement authorization) (fun acknowledgement =>
  let '(retirement, t) := RetireTransportGeneration generation authorization t in
  ((reached (Some offer) (Some decision) (Some transfer) (Some acknowledgement)
      (match retirement with Ok v => Some v | _ => None end),
    wrap "retire acknowledged FI transport generation: %w" (check? retirement ;; Ok tt)), (r, w, t)))))))))).

(** ** The oldest generation *)

(** The stage root and how paths below it resolve: [eval_entry] is [EvalSymlinks] of an
    entry. *)
Record StageState := { stage_root : RootState; eval_entry : bytes -> res bytes }.

Definition validateOutboundStageDirectoryPath (resolved : res bytes) (path : bytes) : res unit :=
  let? resolved := wrap "resolve FI outbound stage directory: %w" resolved in
  fail? negb (bool_decide (filepath_Clean resolved = filepath_Clean path))
    with Errorf "FI outbound stage directory path must not traverse symlinks" ;;
  Ok tt.

Definition validateGenerationStageRoot (path : bytes) (root : RootState) : res unit :=
  fail? bool_decide (path = []) || negb (filepath_IsAbs path)
    with Errorf "FI generation stage root must be absolute" ;;
  let clean := filepath_Clean path in
  check? wrap "validate FI generation stage root path: %w"
           (validateOutboundStageDirectoryPath (EvalSymlinks root) clean) ;;
  let? info := wrap "inspect FI generation stage root: %w" (RootInfo root) in
  fail? bool_decide (fi_kind info = Symlink) || negb (bool_decide (fi_kind info = Directory))
    with Errorf "FI generation stage root must name a real directory" ;;
  Ok tt.

Definition validateTransportGenerationIdentity (published : PublishedGeneration) (sourceID generationID : bytes)
    (maxEncodedBytes : Z) : res unit :=
  let descriptor := SignedDescriptor (Signed published) in
  fail? negb (bool_decide (SourceID descriptor = sourceID))
    with Errorf "FI transport generation source ID %q does not match configured source %q" ;;
  fail? negb (bool_decide (GenerationID descriptor = generationID))
    with Errorf "FI transport generation directory identity does not match signed descriptor" ;;
  fail? (0 <? maxEncodedBytes) && (maxEncodedBytes <? EncodedDataBytes descriptor)
    with Wrap "%w: encoded=%d max=%d" ErrEncodedLimitExceeded ;;
  Ok tt.

Definition loadTransportGenerationAt (generationDir sourceID generationID : bytes) (maxEncodedBytes : Z)
  : prog tree TransportGeneration :=
  let! published := LoadSealedGeneration generationDir in
  check! lift (validateTransportGenerationIdentity published sourceID generationID maxEncodedBytes) ;;
  check! (if 0 <? maxEncodedBytes then VerifyPublishedGenerationPayload published else ret tt) ;;
  ret {| GenerationDir := generationDir; QueuedGenerationID := generationID; Published := published |}.

(** The loop over the entries of the queue. *)
Fixpoint queuedNames (entries : list (bytes * file_kind)) : res (list bytes) :=
  match entries with
  | [] => Ok []
  | (name, kind) :: entries =>
      if negb (HasPrefix name generationDirectoryPrefix) then queuedNames entries
      else
        fail? bool_decide (kind = Symlink) with Errorf "FI generation queue contains symlink %q" ;;
        fail? negb (bool_decide (kind = Directory)) with Errorf "FI generation queue entry %q is not a directory" ;;
        let? names := queuedNames entries in
        Ok (name :: names)
  end.

Definition NextTransportGeneration (stageRoot sourceID : bytes) (stage : StageState)
  : prog tree (option TransportGeneration) :=
  check! lift (validateGenerationStageRoot stageRoot (stage_root stage)) ;;
  fail! bool_decide (TrimSpace sourceID = []) with Errorf "FI generation source ID is required" ;;
  let! entries := ReadEntries in
  let! names := lift (queuedNames entries) in
  match sort_Strings names with
  | [] => ret None
  | name :: _ =>
      let! generation := wrap_err "load oldest FI transport generation: %w"
        (loadTransportGenerationAt (filepath_Join stageRoot name) sourceID
           (TrimPrefix name generationDirectoryPrefix) 0) in
      ret (Some generation)
  end.

(** ** Reclaiming retired generations: [generation_reclaim.go] *)

Record GenerationReclamationResult := { Reclaimed : Z; ReclaimedDiskBytes : Z; Resumed : Z }.
Record generationRetirementInspection := { DiskBytes : Z; InspectedTransfer : TransferResult }.

Definition generationRetirementMetadataMaxBytes : Z := 512 * 2 ^ 10.

Definition validateGenerationRetirementObjectName (name prefix : bytes) : res unit :=
  fail? negb (HasPrefix name prefix)
    with Errorf "FI generation retirement object %q does not use required prefix %q" ;;
  let digest := TrimPrefix name prefix in
  fail? negb (len digest =? 64) with Errorf "FI generation retirement object %q has invalid digest length" ;;
  fail? negb (validLowerSHA256 digest)
    with Errorf "FI generation retirement object %q has invalid lowercase SHA-256 identity" ;;
  Ok tt.

Definition readGenerationRetirementMetadata : prog dir bytes :=
  let! info := Lstat SignedGenerationMetadataName in
  fail! bool_decide (fi_kind info = Symlink) || negb (bool_decide (fi_kind info = Regular))
    with Errorf "FI generation retirement metadata must be a real regular file" ;;
  fail! (fi_size info <=? 0) || (generationRetirementMetadataMaxBytes <? fi_size info)
    with Errorf "FI generation retirement metadata size is outside bounds" ;;
  let! (file, opened) := openSame "FI generation retirement metadata changed while opening"
                           SignedGenerationMetadataName info in
  let! value := readAndClose generationRetirementMetadataMaxBytes file in
  fail! (len value =? 0) || (generationRetirementMetadataMaxBytes <? len value)
    with Errorf "FI generation retirement metadata size changed while reading" ;;
  fail! negb (len value =? fi_size info)
    with Errorf "FI generation retirement metadata byte count changed while reading" ;;
  check! stillSame "FI generation retirement metadata changed during read" SignedGenerationMetadataName opened info ;;
  ret value.

(** The payload is hashed in full and closed on every path. *)
Definition hashRetiredPayload (n : Z) (file : nat) : prog dir bytes := fun d =>
  match file_reader file d with
  | (Ok r, d) =>
      let content := take (Z.to_nat n) (rd_data r) in
      let '(closed, d) := Close d in
      ((check? wrap "hash retired FI generation payload: %w"
                 (if len content <? n then Err (rd_end r) else Ok tt) ;;
        fail? negb (bool_decide (drop (Z.to_nat n) (rd_data r) = [])) || negb (errors_Is (rd_end r) EOF)
          with Errorf "retired FI generation payload contains unexpected trailing bytes" ;;
        check? closed ;;
        Ok content), d)
  | (Err e, d) => (Err e, (Close d).2)
  | (Panic, d) => (Panic, d)
  end.

Definition verifyGenerationRetirementTransfer (metadata : bytes) (descriptor : Descriptor)
  : prog dir TransferResult :=
  check! lift (Validate descriptor) ;;
  fail! (len metadata =? 0) || (2 ^ 32 - 1 <? len metadata)
    with Errorf "FI generation retirement metadata exceeds transfer framing range" ;;
  let! initial := Lstat SealedGenerationPayloadName in
  fail! bool_decide (fi_kind initial = Symlink) || negb (bool_decide (fi_kind initial = Regular)) ||
        (fi_size initial <=? 0) || negb (u64 (fi_size initial) =? EncodedDataBytes descriptor)
    with Errorf "retired FI generation payload structure does not match signed descriptor" ;;
  let! (file, opened) := openSame "retired FI generation payload changed while opening"
                           SealedGenerationPayloadName initial in
  let! payload := hashRetiredPayload (i64 (EncodedDataBytes descriptor)) file in
  check! stillSame "retired FI generation payload changed during verification"
           SealedGenerationPayloadName opened initial ;;
  fail! negb (bool_decide (sha256_hex payload = EncodedDataSHA256 descriptor))
    with Errorf "retired FI generation payload SHA-256 does not match signed descriptor" ;;
  fail! (max_u64 - 20 <? len metadata) || (max_u64 - u64 (20 + len metadata) <? EncodedDataBytes descriptor)
    with Errorf "FI generation retirement transfer byte count overflow" ;;
  let header := TransferMagic ++ PutUint32BE (u32 (len metadata)) ++ PutUint64BE (EncodedDataBytes descriptor) in
  let result := {|
    ResultDescriptor := descriptor;
    MetadataBytes := len metadata; MetadataSHA256 := sha256_hex metadata;
    PayloadBytes := EncodedDataBytes descriptor; PayloadSHA256 := sha256_hex payload;
    TransferBytes := u64 (u64 (20 + len metadata) + EncodedDataBytes descriptor);
    TransferSHA256 := sha256_hex (header ++ metadata ++ payload) |} in
  check! lift (validateGenerationTransferResult result) ;;
  ret result.

(** The loop over the two artifacts. *)
Fixpoint retiredArtifacts (entries : list (bytes * file_kind)) (foundMetadata foundPayload : bool) : res (bool * bool) :=
  match entries with
  | [] => Ok (foundMetadata, foundPayload)
  | (name, _) :: entries =>
      if bool_decide (name = SealedGenerationPayloadName) then retiredArtifacts entries foundMetadata true
      else if bool_decide (name = SignedGenerationMetadataName) then retiredArtifacts entries true foundPayload
      else Err (Errorf "FI generation retirement tombstone contains unexpected artifact %q")
  end.

Definition inspectGenerationRetirementTombstone (path sourceID : bytes) (stage : StageState)
  : prog tree generationRetirementInspection :=
  fail! bool_decide (path = []) || negb (filepath_IsAbs path)
    with Errorf "FI generation retirement tombstone path must be absolute" ;;
  fail! bool_decide (TrimSpace sourceID = [])
    with Errorf "FI generation source ID is required for retirement reclamation" ;;
  let name := filepath_Base (filepath_Clean path) in
  check! lift (validateGenerationRetirementObjectName name generationRetiredDirectoryPrefix) ;;
  check! lift (wrap "validate FI generation retirement tombstone path: %w"
                 (validateOutboundStageDirectoryPath (eval_entry stage name) path)) ;;
  let! info := LstatEntry name in
  fail! bool_decide (fi_kind info = Symlink) || negb (bool_decide (fi_kind info = Directory))
    with Errorf "FI generation retirement tombstone must name a real directory" ;;
  let! entries := in_sub name ReadDir in
  fail! negb (len entries =? 2)
    with Errorf "FI generation retirement tombstone must contain exactly two artifacts" ;;
  let! (foundMetadata, foundPayload) := lift (retiredArtifacts entries false false) in
  fail! negb foundMetadata || negb foundPayload with Errorf "FI generation retirement tombstone is incomplete" ;;
  let! metadata := wrap_err "read retired FI generation metadata: %w" (in_sub name readGenerationRetirementMetadata) in
  let! signed := lift (wrap "validate retired FI generation metadata: %w" (UnmarshalSignedGeneration metadata)) in
  fail! negb (bool_decide (SourceID (SignedDescriptor signed) = sourceID))
    with Errorf "retired FI generation source ID %q does not match configured source %q" ;;
  let! transfer := in_sub name (verifyGenerationRetirementTransfer metadata (SignedDescriptor signed)) in
  fail! negb (bool_decide (name = generationRetirementObjectName transfer))
    with Errorf "FI generation retirement tombstone name %q does not match verified transfer identity %q" ;;
  fail! max_u64 - PayloadBytes transfer <? MetadataBytes transfer
    with Errorf "FI generation retirement disk byte count overflow" ;;
  ret {| DiskBytes := u64 (MetadataBytes transfer + PayloadBytes transfer); InspectedTransfer := transfer |}.

(** [generation_reclaim_other.go]. *)
Definition removeGenerationReclamationPath (name : bytes) : prog tree bool :=
  check! RemoveAllEntry name ;;
  check! (fun t => match LstatEntry name t with
                   | (Ok _, t) => (Err (Errorf "FI generation reclamation path still exists after removal"), t)
                   | (Err e, t) => if errors_Is e ErrNotExist then (Ok tt, t) else (Err e, t)
                   | (Panic, t) => (Panic, t)
                   end) ;;
  check! tcall (ret tt) ;;
  check! (fun t => match SyncRoot t with
                   | (Err e, t) => (Err e, (tcall (ret tt) t).2)
                   | r => r
                   end) ;;
  check! tcall (ret tt) ;;
  ret true.

(** The loop of [recoverGenerationReclamation]. *)
Fixpoint resumeReclamation (names : list bytes) (resumed : Z) : prog tree Z :=
  match names with
  | [] => ret resumed
  | name :: names =>
      check! lift (validateGenerationRetirementObjectName name generationReclaimingDirectoryPrefix) ;;
      let! info := LstatEntry name in
      fail! bool_decide (fi_kind info = Symlink) || negb (bool_decide (fi_kind info = Directory))
        with Errorf "FI generation reclamation path %q must name a real directory" ;;
      let! removed := wrap_err "resume FI generation byte reclamation for %q: %w"
                        (removeGenerationReclamationPath name) in
      resumeReclamation names (if removed : bool then u64 (resumed + 1) else resumed)
  end.

Definition recoverGenerationReclamation : prog tree Z :=
  let! entries := ReadEntries in
  resumeReclamation (sort_Strings (filter (fun n => HasPrefix n generationReclaimingDirectoryPrefix = true) entries.*1)) 0.

(** The loop over the tombstones, with the result so far. *)
Fixpoint reclaimLoop (stageRoot sourceID : bytes) (st : StageState) (names : list bytes)
    (result : GenerationReclamationResult) (t : tree) : (GenerationReclamationResult * res unit) * tree :=
  match names with
  | [] => ((result, Ok tt), t)
  | name :: names =>
      let '(inspection, t) := inspectGenerationRetirementTombstone (filepath_Join stageRoot name) sourceID st t in
      stage result t (wrap "verify FI generation retirement tombstone %q before reclamation: %w" inspection) (fun inspection =>
      let reclaimingName := generationReclaimingDirectoryPrefix ++ TrimPrefix name generationRetiredDirectoryPrefix in
      let '(found, t) := LstatEntry reclaimingName t in
      stage result t (match found with
                      | Ok _ => Err (Errorf "FI generation reclamation found both retired and reclaiming objects for %q")
                      | Err e => if errors_Is e ErrNotExist then Ok tt
                                 else Err (Wrap "inspect FI generation reclaiming namespace for %q: %w" e)
                      | Panic => Panic
                      end) (fun _ =>
      let '(published, t) := publishGenerationDirectory name reclaimingName t in
      stage result t (wrap "publish FI generation reclamation boundary for %q: %w" published) (fun _ =>
      let '(removed, t) := removeGenerationReclamationPath reclaimingName t in
      stage result t (let? removed := wrap "reclaim FI generation retirement bytes for %q: %w" removed in
                      fail? negb removed
                        with Errorf "FI generation reclamation object %q disappeared before cleanup completed" ;;
                      fail? max_u64 - ReclaimedDiskBytes result <? DiskBytes inspection
                        with Errorf "FI generation reclaimed disk byte counter overflow" ;;
                      Ok tt) (fun _ =>
      reclaimLoop stageRoot sourceID st names
        {| Reclaimed := u64 (Reclaimed result + 1);
           ReclaimedDiskBytes := u64 (ReclaimedDiskBytes result + DiskBytes inspection);
           Resumed := Resumed result |} t))))
  end.

Definition ReclaimGenerationRetirementTombstones (stageRoot sourceID : bytes) (st : StageState) (t : tree)
  : (GenerationReclamationResult * res unit) * tree :=
  let zero := {| Reclaimed := 0; ReclaimedDiskBytes := 0; Resumed := 0 |} in
  stage zero t
    (check? validateGenerationStageRoot stageRoot (stage_root st) ;;
     fail? bool_decide (TrimSpace sourceID = [])
       with Errorf "FI generation source ID is required for retirement reclamation" ;; Ok tt) (fun _ =>
  let '(resumed, t) := recoverGenerationReclamation t in
  stage zero t resumed (fun resumed =>
  let result := {| Reclaimed := 0; ReclaimedDiskBytes := 0; Resumed := resumed |} in
  let '(entries, t) := ReadEntries t in
  stage result t entries (fun entries =>
  reclaimLoop stageRoot sourceID st
    (sort_Strings (filter (fun n => HasPrefix n generationRetiredDirectoryPrefix = true) entries.*1)) result t))).

End Sender.
End gensender.
