(* ===== verification/GenerationQueue.v ===== *)
(** * What the generation queue of the sender guarantees

    Facts about [GenerationSender]: nothing but a verified acknowledgement removes a
    generation from the queue, through any transactions, reclamations, failing calls and
    power failures; retirement is a durable rename; reclamation touches tombstones only. *)

From stdpp Require Import gmap.
From S2P Require Import Prelude GoBytes GoStrings Sha256 GoIO GoFS GoDir GoPublish GoTree Pki TransportEncoding TransportTrust TransportGeneration GenerationCanonical GenerationProtocol GenerationTransfer GenerationPublished GenerationSender.

Module genqueue.
Import transportgeneration protocol genpublished gensender.

(** ** The calls that only look *)

Lemma quiet_verifyGenerationMetadataIdentity transfer : quiet (verifyGenerationMetadataIdentity transfer).
Proof. unfold verifyGenerationMetadataIdentity. quiet. Qed.
Lemma quiet_readGenerationRetirementMetadata : quiet readGenerationRetirementMetadata.
Proof. unfold readGenerationRetirementMetadata. quiet. Qed.
Lemma quiet_hashRetiredPayload n file : quiet (hashRetiredPayload n file).
Proof.
  intros d. unfold hashRetiredPayload. pose proof (quiet_file_reader file d) as Hf.
  destruct (file_reader file d) as [[r|e|] d1]; [|etrans; [exact Hf|apply quiet_Close]|done].
  pose proof (quiet_Close d1) as Hc. destruct (Close d1) as [closed d2]. by etrans.
Qed.
#[export] Hint Resolve quiet_verifyGenerationMetadataIdentity quiet_readGenerationRetirementMetadata
  quiet_hashRetiredPayload : keeps.

Section Facts.
Context `{Unicode} `{X509} `{JSON SignedGeneration} `{JSON Offer} `{JSON Decision} `{JSON Acknowledgement}.
Context (net_Error : error -> bool).

Lemma quiet_verifyRetired generation transfer : quiet (verifyRetiredGenerationTombstone generation transfer).
Proof. unfold verifyRetiredGenerationTombstone. quiet. Qed.
Lemma quiet_verifyTransfer metadata descriptor : quiet (verifyGenerationRetirementTransfer metadata descriptor).
Proof. unfold verifyGenerationRetirementTransfer. quiet. Qed.
#[local] Hint Resolve quiet_verifyRetired quiet_verifyTransfer still_Load : keeps.

Lemma still_inspect path sourceID st : still (inspectGenerationRetirementTombstone path sourceID st).
Proof. unfold inspectGenerationRetirementTombstone. still. Qed.
Lemma still_Verify generation : still (VerifyPublishedGenerationPayload generation).
Proof. unfold VerifyPublishedGenerationPayload. still. Qed.
#[local] Hint Resolve still_Verify : keeps.
Lemma still_Next stageRoot sourceID st : still (NextTransportGeneration stageRoot sourceID st).
Proof. unfold NextTransportGeneration, loadTransportGenerationAt. still. Qed.

(** ** The calls that rename and remove *)

Section Spares.
Context (Q : bytes -> Prop).

Lemma tcall_ret_spares : keeps (spares Q) (tcall (ret tt)).
Proof. apply tcall_spares, keeps_ret, _. Qed.

Lemma publish_spares source destination :
  ~ Q source -> keeps (spares Q) (publishGenerationDirectory source destination).
Proof.
  intros Hq. unfold publishGenerationDirectory.
  apply keeps_bind; [apply _|by apply Rename_spares|intros _].
  apply keeps_bind; [apply _|apply keeps_wrap, tcall_ret_spares|intros _ t].
  pose proof (SyncRoot_spares Q t) as Hs. unfold wrap_err. destruct (SyncRoot t) as [r t1]. cbn in *.
  etrans; [exact Hs|apply tcall_ret_spares].
Qed.

Lemma remove_spares name : ~ Q name -> keeps (spares Q) (removeGenerationReclamationPath name).
Proof.
  intros Hq. unfold removeGenerationReclamationPath.
  apply keeps_bind; [apply _|by apply RemoveAll_spares|intros _].
  apply keeps_bind; [apply _| |intros _].
  { intros t. pose proof (still_spares Q _ (still_LstatEntry name) t) as Hs.
    destruct (LstatEntry name t) as [[i|e|] t1]; cbn in *; [done| |done]. by destruct (errors_Is e ErrNotExist). }
  apply keeps_bind; [apply _|apply tcall_ret_spares|intros _].
  apply keeps_bind; [apply _| |intros _].
  { intros t. pose proof (SyncRoot_spares Q t) as Hs.
    destruct (SyncRoot t) as [[u|e|] t1]; cbn in *; [done| |done]. etrans; [exact Hs|apply tcall_ret_spares]. }
  apply keeps_bind; [apply _|apply tcall_ret_spares|intros _]. apply keeps_ret, _.
Qed.

End Spares.

(** Names the sender keeps for retired generations. *)
Definition queue_name (n : bytes) : Prop :=
  HasPrefix n generationRetiredDirectoryPrefix = false /\ HasPrefix n generationReclaimingDirectoryPrefix = false.

Lemma generation_queue_name id : queue_name (generationDirectoryPrefix ++ id).
Proof. by split. Qed.

Lemma resume_spares names : forall resumed,
  Forall (fun n => HasPrefix n generationReclaimingDirectoryPrefix = true) names ->
  keeps (spares queue_name) (resumeReclamation names resumed).
Proof.
  induction names as [|n names IH]; intros resumed Hall; cbn [resumeReclamation]; [apply keeps_ret, _|].
  apply Forall_cons in Hall as [Hn Hall].
  apply keeps_bind; [apply _|apply keeps_lift, _|intros _].
  apply keeps_bind; [apply _|apply still_spares, still_LstatEntry|intros info].
  apply keeps_if; [apply keeps_throw, _|].
  apply keeps_bind; [apply _|apply keeps_wrap, remove_spares|intros removed; by apply IH].
  unfold queue_name. by intros [_ ?]; congruence.
Qed.

Lemma filter_prefix_sorted prefix (ns : list bytes) :
  Forall (fun n => HasPrefix n prefix = true) (sort_Strings (filter (fun n => HasPrefix n prefix = true) ns)).
Proof. rewrite sort_Strings_perm. apply Forall_forall. by intros n [? _]%list_elem_of_filter. Qed.

Lemma reclaimLoop_spares stageRoot sourceID st names : forall result t,
  Forall (fun n => HasPrefix n generationRetiredDirectoryPrefix = true) names ->
  spares queue_name t (reclaimLoop stageRoot sourceID st names result t).2.
Proof.
  induction names as [|n names IH]; intros result t Hall; cbn [reclaimLoop]; [reflexivity|].
  apply Forall_cons in Hall as [Hn Hall].
  pose proof (still_spares queue_name _ (still_inspect (filepath_Join stageRoot n) sourceID st) t) as S1.
  destruct (inspectGenerationRetirementTombstone (filepath_Join stageRoot n) sourceID st t) as [inspection t1]. cbn [snd] in S1.
  apply stage_keeps; [done|intros i _].
  set (rn := generationReclaimingDirectoryPrefix ++ _).
  pose proof (still_spares queue_name _ (still_LstatEntry rn) t1) as S2.
  destruct (LstatEntry rn t1) as [found t2]. cbn [snd] in S2.
  assert (spares queue_name t t2) as S12 by (by etrans).
  apply stage_keeps; [done|intros _ _].
  assert (~ queue_name n) as Hq1 by (unfold queue_name; intros [? _]; congruence).
  assert (~ queue_name rn) as Hq2.
  { unfold queue_name, rn. intros [_ Hp]. rewrite (proj2 (HasPrefix_spec _ _)) in Hp; [done|eauto]. }
  pose proof (publish_spares queue_name n rn Hq1 t2) as S3.
  destruct (publishGenerationDirectory n rn t2) as [published t3]. cbn [snd] in S3.
  assert (spares queue_name t t3) as S13 by (by etrans).
  apply stage_keeps; [done|intros _ _].
  pose proof (remove_spares queue_name rn Hq2 t3) as S4.
  destruct (removeGenerationReclamationPath rn t3) as [removed t4]. cbn [snd] in S4.
  assert (spares queue_name t t4) as S14 by (by etrans).
  apply stage_keeps; [done|intros _ _]. etrans; [exact S14|by apply IH].
Qed.

Lemma Reclaim_spares stageRoot sourceID st t :
  spares queue_name t (ReclaimGenerationRetirementTombstones stageRoot sourceID st t).2.
Proof.
  unfold ReclaimGenerationRetirementTombstones. apply stage_keeps; [reflexivity|intros _ _].
  assert (spares queue_name t (recoverGenerationReclamation t).2) as S1.
  { revert t. apply keeps_bind; [apply _|apply still_spares, still_ReadEntries|].
    intros entries. apply resume_spares, filter_prefix_sorted. }
  destruct (recoverGenerationReclamation t) as [resumed t1]. cbn [snd] in S1.
  apply stage_keeps; [done|intros r _].
  pose proof (still_spares queue_name _ still_ReadEntries t1) as S2. destruct (ReadEntries t1) as [entries t2].
  cbn [snd] in S2. assert (spares queue_name t t2) as S12 by (by etrans).
  apply stage_keeps; [done|intros es _]. etrans; [exact S12|]. apply reclaimLoop_spares, filter_prefix_sorted.
Qed.

(** ** Retirement *)

Lemma retireActive_spares generation transfer info :
  keeps (spares (fun n => n <> entry_of (GenerationDir generation))) (retireActive generation transfer info).
Proof.
  unfold retireActive. apply keeps_if; [apply keeps_throw, _|].
  apply keeps_bind; [apply _|apply still_spares, keeps_wrap, still_Load|intros current].
  apply keeps_if; [apply keeps_throw, _|].
  apply keeps_bind; [apply _|apply still_spares, still_in_sub; quiet|intros _].
  apply keeps_wrap, publish_spares. tauto.
Qed.

Lemma retireAgain_still generation transfer info : still (retireAgain generation transfer info).
Proof. unfold retireAgain. still. Qed.

Lemma Retire_spares generation authorization :
  keeps (spares (fun n => n <> entry_of (GenerationDir generation))) (RetireTransportGeneration generation authorization).
Proof.
  set (Q := fun n => _). unfold RetireTransportGeneration.
  apply keeps_bind; [apply _|apply keeps_lift, _|intros ack].
  apply keeps_bind; [apply _|apply keeps_lift, _|intros _ t].
  pose proof (still_spares Q _ (still_LstatEntry (entry_of (GenerationDir generation))) t) as S1.
  destruct (LstatEntry (entry_of (GenerationDir generation)) t) as [final t1]. cbn [snd] in S1.
  set (rn := generationRetirementObjectName _).
  pose proof (still_spares Q _ (still_LstatEntry rn) t1) as S2. destruct (LstatEntry rn t1) as [retired t2].
  cbn [snd] in S2. assert (spares Q t t2) as S12 by (by etrans).
  destruct final as [fi|e|], retired as [ri|e'|]; try exact S12.
  - etrans; [exact S12|]. apply keeps_bind; [apply _|apply retireActive_spares|intros _; apply keeps_ret, _].
  - destruct (errors_Is e ErrNotExist); [|exact S12]. etrans; [exact S12|].
    apply keeps_bind; [apply _|apply still_spares, retireAgain_still|intros _; apply keeps_ret, _].
  - destruct (_ && _); [exact S12|]. destruct (negb _); exact S12.
Qed.

(** The entry [old] has become [new], in memory and on disk, and nothing else changed. *)
Definition durably_renamed (old new : bytes) (t t' : tree) : Prop :=
  exists i, t_names t !! old = Some i /\ t_names t' = <[new := i]> (delete old (t_names t)) /\
    t_durable t' = t_names t' /\ t_nodes t' = t_nodes t.

(** Retirement is a durable rename. When [RetireTransportGeneration] reports
    RETIRED, the authorization carries an acknowledgement that matches its transfer, the
    directory of the generation was bound under the active name and now is bound under
    the name of the tombstone only, in memory and on disk, and nothing else changed. *)
Theorem RetireTransportGeneration_retired generation authorization t v t' :
  RetireTransportGeneration generation authorization t = (Ok v, t') ->
  RetirementDisposition v = GenerationRetirementDispositionRetired ->
  AcknowledgementMatches (acknowledgement authorization) (transfer authorization) = Ok tt /\
  durably_renamed (entry_of (GenerationDir generation)) (generationRetirementObjectName (transfer authorization)) t t'.
Proof.
  intros Hr Hv. unfold RetireTransportGeneration in Hr. apply bind_lift_Ok in Hr as (ack & Ha & Hr).
  apply bind_lift_Ok in Hr as ([] & Hval & Hr).
  assert (ack = acknowledgement authorization) as ->
    by (unfold Authorization_Acknowledgement in Ha; res_inv Ha; congruence).
  split. { unfold validateGenerationForRetirement in Hval. res_inv Hval. by destruct v0. }
  unfold durably_renamed.
  pose proof (still_LstatEntry (entry_of (GenerationDir generation)) t) as S1.
  destruct (LstatEntry (entry_of (GenerationDir generation)) t) as [final t1]. destruct S1 as [f1 S1]. cbn [snd] in S1. subst t1.
  set (rn := generationRetirementObjectName _) in *. pose proof (still_LstatEntry rn (set_tfaults f1 t)) as S2.
  destruct (LstatEntry rn (set_tfaults f1 t)) as [retired t2]. destruct S2 as [f2 S2]. cbn in S2. subst t2.
  destruct final as [fi|e|], retired as [ri|e'|]; try done; cycle 1.
  { destruct (errors_Is e ErrNotExist); [|done]. apply bind_Ok in Hr as ([] & t3 & _ & Hr).
    injection Hr as <- _. done. }
  { by destruct (errors_Is e ErrNotExist), (errors_Is e' ErrNotExist). }
  apply bind_Ok in Hr as ([] & t3 & Hra & Hr). injection Hr as _ <-.
  unfold retireActive in Hra. destruct (_ || _) in Hra; [done|].
  apply bind_Ok in Hra as (current & t4 & Hl & Hra). apply still_run in Hl as [f3 ->]; [|apply keeps_wrap, still_Load].
  destruct (negb _) in Hra; [done|]. apply bind_Ok in Hra as ([] & t5 & Hm & Hra).
  apply still_run in Hm as [f4 ->]; [|apply still_in_sub; quiet].
  apply wrap_err_Ok in Hra. unfold publishGenerationDirectory in Hra.
  apply bind_Ok in Hra as ([] & t6 & Hren & Hra). apply tcall_Ok in Hren as [f5 Hren]. cbn [t_names set_tfaults] in Hren.
  destruct (t_names t !! entry_of (GenerationDir generation)) as [i|]; [|done].
  fold rn in Hren. destruct (t_names t !! rn); [done|]. injection Hren as <-. exists i. split; [done|].
  apply bind_Ok in Hra as ([] & t7 & Ho & Hra). apply wrap_err_Ok, tcall_Ok in Ho as [f6 Ho]. injection Ho as <-.
  unfold wrap_err in Hra. destruct (SyncRoot _) as [rs t8] eqn:Es in Hra. destruct rs as [[]|e|]; [|done|done].
  apply tcall_Ok in Es as [f7 Es]. injection Es as <-. injection Hra as <-.
  pose proof (still_tcall (ret tt) (keeps_ret _ tt)) as Hc.
  match goal with |- context [tcall (ret tt) ?x] => destruct (Hc x) as [f8 E8]; rewrite E8 end. done.
Qed.

(** ** The transaction *)

Lemma transported_Ok {A} (retryable : error -> bool) msg (r : res A) a :
  transported retryable msg r = Ok a <-> r = Ok a.
Proof. destruct r; cbn; naive_solver. Qed.

Lemma SendTransport_Ok {W} `{WriterLaws W} generation (w : W) t transfer w' t' :
  SendTransportGeneration generation (w, t) = (Ok transfer, (w', t')) ->
  DirectoryPath (Published generation) = GenerationDir generation /\
  exists metadata payload d,
    generation_at t (entry_of (GenerationDir generation)) metadata payload (Signed (Published generation)) d /\
    written w' = written w ++ transfer_wire metadata payload /\
    transfer = transfer_result (offer_for (Signed (Published generation)) metadata) metadata payload.
Proof.
  unfold SendTransportGeneration. destruct (_ || _); [done|]. destruct (_ || _) eqn:Eb; [done|]. bool_hyps.
  intros (_ & m & p & d & Hg & Hw & Hr & _)%Write_Ok. match goal with E : _ = GenerationDir _ |- _ => rewrite E in Hg end.
  split; [done|]. by exists m, p, d.
Qed.

Lemma SendTransport_same {W} `{Writer W} generation :
  keeps (@beside W tree same_tree) (SendTransportGeneration generation).
Proof. unfold SendTransportGeneration. repeat first [ apply beside_Write | keeps1 ]. Qed.

(** Either no acknowledgement was accepted and the stage root is as it was, or the
    acknowledgement matches the exact transfer of the generation, and only this
    generation may have been retired. *)
Lemma sending_cases {W} `{WriterLaws W} generation r (w : W) t result err r' w' t' :
  SendAndRetireTransportGeneration net_Error generation (r, w, t) = ((result, err), (r', w', t')) ->
  (SentAcknowledgement result = None /\ same_tree t t' /\ err <> Ok tt) \/
  exists ack metadata payload d,
    SentAcknowledgement result = Some ack /\
    generation_at t (entry_of (GenerationDir generation)) metadata payload (Signed (Published generation)) d /\
    AcknowledgementMatches ack
      (transfer_result (offer_for (Signed (Published generation)) metadata) metadata payload) = Ok tt /\
    spares (fun n => n <> entry_of (GenerationDir generation)) t t'.
Proof.
  unfold SendAndRetireTransportGeneration. cbv zeta.
  destruct (OfferFromPublished (Published generation) t) as [offer t1] eqn:Eo.
  apply still_run in Eo as [f1 E1]; [|apply still_Offer]. subst t1.
  assert (same_tree t (set_tfaults f1 t)) as S1 by (by exists f1).
  intros [(offer' & _ & Hk)|(-> & [= -> -> ->] & ?)]%stage_inv; [|by left].
  apply stage_inv in Hk as [(u & _ & Hk)|(-> & [= -> -> ->] & ?)]; [|by left].
  destruct (WriteOffer offer' w) as [sent w1].
  apply stage_inv in Hk as [(u1 & _ & Hk)|(-> & [= -> -> ->] & ?)]; [|by left].
  destruct (ReadDecision r) as [decision r1].
  apply stage_inv in Hk as [(decision' & _ & Hk)|(-> & [= -> -> ->] & ?)]; [|by left].
  apply stage_inv in Hk as [(u2 & _ & Hk)|(-> & [= -> -> ->] & ?)]; [|by left].
  destruct (SendTransportGeneration generation (w1, set_tfaults f1 t)) as [transfer [w2 t2]] eqn:Es.
  pose proof (keeps_run _ _ _ _ _ (SendTransport_same generation) Es) as [f2 S2]. cbn in S2. subst t2.
  change (set_tfaults f2 (set_tfaults f1 t)) with (set_tfaults f2 t) in *.
  assert (same_tree t (set_tfaults f2 t)) as S2 by (by exists f2).
  apply stage_inv in Hk as [(transfer' & Ht%transported_Ok & Hk)|(-> & [= -> -> ->] & ?)]; [|by left]. subst transfer.
  apply SendTransport_Ok in Es as (_ & m & p & d & Hg & _ & ->). rewrite generation_at_faults in Hg.
  destruct (VerifyGenerationAcknowledgement _ r1) as [authorization r2] eqn:Ev.
  apply stage_inv in Hk as [(auth & Ha%transported_Ok & Hk)|(-> & [= -> -> ->] & ?)]; [|by left]. subst authorization.
  unfold VerifyGenerationAcknowledgement in Ev. apply bind_lift_Ok in Ev as (u3 & _ & Ev).
  apply bind_Ok in Ev as (ack & r3 & _ & Ev). apply bind_lift_Ok in Ev as ([] & Hm%wrap_Ok & Ev).
  injection Ev as <- <-.
  apply stage_inv in Hk as [(ack' & Hack & Hk)|(-> & [= -> -> ->] & ?)]; [|by left].
  unfold Authorization_Acknowledgement in Hack. res_inv Hack. cbn [acknowledgement] in *.
  match type of Hk with context [RetireTransportGeneration generation ?a ?x] =>
    pose proof (Retire_spares generation a x) as S3; destruct (RetireTransportGeneration generation a x) as [retired t3] end.
  injection Hk as <- _ <- <- <-. right. eexists _, m, p, d. split_and!; done.
Qed.

(** ** The life of the stage root

    Transactions with any peer, reclamations and power failures, with any faults; the list
    holds the acknowledgements the sender accepted. *)

Inductive sender_step (t : tree) : list Acknowledgement -> tree -> Prop :=
| step_send W `(WriterLaws W) generation r (w : W) fs result err r' w' t' :
    SendAndRetireTransportGeneration net_Error generation (r, w, set_tfaults fs t) = ((result, err), (r', w', t')) ->
    sender_step t (option_list (SentAcknowledgement result)) t'
| step_reclaim stageRoot sourceID st fs outcome t' :
    ReclaimGenerationRetirementTombstones stageRoot sourceID st (set_tfaults fs t) = (outcome, t') ->
    sender_step t [] t'
| step_crash t' : crash_tree t t' -> sender_step t [] t'.

Inductive sender_life : tree -> list Acknowledgement -> tree -> Prop :=
| life_now t : sender_life t [] t
| life_step t acks t1 acks' t' :
    sender_step t acks t1 -> sender_life t1 acks' t' -> sender_life t (acks ++ acks') t'.

Lemma step_keeps t acks t' name metadata payload signed :
  sender_step t acks t' -> tree_wf t -> UnmarshalSignedGeneration metadata = Ok signed ->
  queue_name name ->
  tree_wf t' /\
  (kept (holds metadata payload) t name -> kept (holds metadata payload) t' name \/
   exists ack, ack ∈ acks /\
     AcknowledgementMatches ack (transfer_result (offer_for signed metadata) metadata payload) = Ok tt).
Proof.
  intros [W HW HL generation r w fs result err r' w' t1 Hr|stageRoot sourceID st fs outcome t1 Hr|t1 Hc] Hw Hu Hq.
  - apply sending_cases in Hr as [(-> & [f ->] & _)|(ack & m & p & d & Ha & Hg & Hm & Hs)]; [by split; [|left]|].
    destruct (Hs Hw) as [Hw' Hkeep]. split; [done|]. intros Hk.
    destruct (decide (name = entry_of (GenerationDir generation))) as [->|Hne].
    + right. exists ack. rewrite Ha. split; [by apply list_elem_of_here|]. rewrite generation_at_faults in Hg.
      destruct (holds_generation _ _ _ _ _ _ _ _ Hk Hg) as [-> ->].
      destruct Hg as [_ _ _ Hu' _ _]. assert (Signed (Published generation) = signed) as <- by congruence. done.
    + left. by apply (Hkeep _ _ _ Hne).
  - pose proof (Reclaim_spares stageRoot sourceID st (set_tfaults fs t)) as Hs. rewrite Hr in Hs.
    destruct (Hs Hw) as [Hw' Hkeep]. split; [done|]. intros Hk. left. by apply (Hkeep _ _ _ Hq).
  - destruct (crash_spares queue_name _ _ Hc Hw) as [Hw' Hkeep]. split; [done|]. intros Hk. left. by apply (Hkeep _ _ _ Hq).
Qed.

Lemma life_keeps_generation t acks t' :
  sender_life t acks t' -> forall name metadata payload signed,
  tree_wf t -> UnmarshalSignedGeneration metadata = Ok signed ->
  queue_name name -> kept (holds metadata payload) t name ->
  kept (holds metadata payload) t' name \/
  exists ack, ack ∈ acks /\
    AcknowledgementMatches ack (transfer_result (offer_for signed metadata) metadata payload) = Ok tt.
Proof.
  induction 1 as [t|t acks t1 acks' t' Hs _ IH]; intros name metadata payload signed Hw Hu Hq Hk; [by left|].
  destruct (step_keeps _ _ _ _ _ payload _ Hs Hw Hu Hq) as [Hw1 Hk1]. destruct (Hk1 Hk) as [Hk2|(ack & Hin & Hm)].
  - destruct (IH _ _ _ _ Hw1 Hu Hq Hk2) as [?|(ack & Hin & Hm)]; [by left|].
    right. exists ack. split; [|done]. apply elem_of_app. by right.
  - right. exists ack. split; [|done]. apply elem_of_app. by left.
Qed.

(** [C4] An unacknowledged generation stays. A generation directory that is on stable
    storage under its queue name is still there, both files unchanged, after any
    transactions with any peer, reclamations, failing system calls and power failures,
    unless the sender accepted an acknowledgement that matches exactly its transfer. *)
Theorem unacknowledged_generation_kept t acks t' name metadata payload signed :
  sender_life t acks t' -> tree_wf t -> UnmarshalSignedGeneration metadata = Ok signed ->
  name = generationDirectoryPrefix ++ GenerationID (SignedDescriptor signed) ->
  kept (holds metadata payload) t name ->
  kept (holds metadata payload) t' name \/
  exists ack, ack ∈ acks /\
    AcknowledgementMatches ack (transfer_result (offer_for signed metadata) metadata payload) = Ok tt.
Proof. intros Hl Hw Hu ->. apply (life_keeps_generation t acks t' Hl); [done|done|apply generation_queue_name]. Qed.

End Facts.
End genqueue.
