(* ===== verification/GenerationBuild.v ===== *)
(** * From frozen spools to the queue

    Models [generation_transport.go] (the builds) and the raw-generation helpers of
    [generation.go] in [go/internal/transportsender]: a frozen raw generation is sealed
    below a private build root, removed, and the build is promoted into the stage root. *)

From stdpp Require Import gmap.
From S2P Require Import Prelude GoBytes GoStrings Sha256 GoIO GoFS GoDir GoPublish GoTree Pki TransportEncoding TransportTrust TransportGeneration GenerationCanonical GenerationSealer GenerationProtocol GenerationTransfer GenerationPublished GenerationCreate GenerationSender.

Module genbuild.
Import transportgeneration protocol genpublished gensender.

Definition generationRawRootDirectoryName : bytes := bs "generation-raw".
Definition generationTransportBuildRootDirectoryName : bytes := bs ".fi-generation-build".

Record GenerationSealConfig := {
  BatchSigner : option Signer;
  BatchSigningCertificate : option Certificate;
  MaxEncodedBytes : Z;
  SealSourceID : bytes;
  SpoolDir : bytes;
  StageRoot : bytes
}.
Record RawGeneration := { RawGenerationDir : bytes; RawGenerationID : bytes }.

(** The three directories on the sender's disk, and the clock. *)
Record hosts := Hosts {
  raw_tree : tree;
  build_tree : tree;
  stage_tree : tree;
  host_env : sealer.env
}.

Definition on_raw {A} (p : prog tree A) : prog hosts A := fun h =>
  let '(r, t) := p (raw_tree h) in (r, Hosts t (build_tree h) (stage_tree h) (host_env h)).
Definition on_build {A} (p : prog tree A) : prog hosts A := fun h =>
  let '(r, t) := p (build_tree h) in (r, Hosts (raw_tree h) t (stage_tree h) (host_env h)).
Definition on_stage {A} (p : prog tree A) : prog hosts A := fun h =>
  let '(r, t) := p (stage_tree h) in (r, Hosts (raw_tree h) (build_tree h) t (host_env h)).

(** How the paths around the three directories resolve: [spool.PhysicalSpoolPath], the raw
    and the stage root, [os.MkdirAll] and [os.Lstat] of the build root. *)
Record SenderRoots := {
  physical_spool : res bytes;
  raw_state : RootState;
  stage_state : RootState;
  mkdir_build : res unit;
  build_info : res FileInfo;
  create_roots : gencreate.CreateRoots
}.

(** ** Raw generations *)

Definition validateGenerationSealConfig (config : GenerationSealConfig) (roots : SenderRoots) : res unit :=
  fail? bool_decide (BatchSigner config = None) || bool_decide (BatchSigningCertificate config = None)
    with Errorf "FI generation batch-signing identity is required" ;;
  fail? bool_decide (TrimSpace (SealSourceID config) = []) with Errorf "FI generation source ID is required" ;;
  fail? MaxEncodedBytes config =? 0
    with Errorf "FI generation encoded byte ceiling must be greater than zero" ;;
  check? wrap "resolve physical FI spool path for generation sealing: %w" (physical_spool roots) ;;
  validateGenerationStageRoot (StageRoot config) (stage_state roots).

Definition validateRawGenerationRoot (path : bytes) (root : RootState) : res unit :=
  fail? bool_decide (path = []) || negb (filepath_IsAbs path)
    with Errorf "FI raw-generation root must be absolute" ;;
  check? wrap "validate FI raw-generation root path: %w"
           (validateOutboundStageDirectoryPath (EvalSymlinks root) (filepath_Clean path)) ;;
  let? info := wrap "inspect FI raw-generation root: %w" (RootInfo root) in
  fail? bool_decide (fi_kind info = Symlink) || negb (bool_decide (fi_kind info = Directory))
    with Errorf "FI raw-generation root must name a real directory" ;;
  Ok tt.

(** A raw generation is an entry of the raw root. *)
Definition raw_entry (raw : RawGeneration) : bytes := filepath_Base (RawGenerationDir raw).

Definition validateRawGeneration (raw : RawGeneration) (rawRoot : bytes) : prog tree unit :=
  fail! bool_decide (RawGenerationDir raw = []) || bool_decide (RawGenerationID raw = [])
    with Errorf "FI raw generation identity is required" ;;
  fail! negb (bool_decide (filepath_Base (RawGenerationDir raw) = generationDirectoryPrefix ++ RawGenerationID raw))
    with Errorf "FI raw generation directory identity is inconsistent" ;;
  fail! negb (filepath_IsAbs (RawGenerationDir raw)) with Errorf "FI raw generation directory must be absolute" ;;
  fail! negb (bool_decide (rawRoot = [])) &&
        negb (bool_decide (filepath_Clean (filepath_Dir (RawGenerationDir raw)) = filepath_Clean rawRoot))
    with Errorf "FI raw generation is outside the configured raw-generation root" ;;
  let! info := wrap_err "inspect FI raw generation directory: %w" (LstatEntry (raw_entry raw)) in
  fail! bool_decide (fi_kind info = Symlink) || negb (bool_decide (fi_kind info = Directory))
    with Errorf "FI raw generation path must name a real directory" ;;
  ret tt.

Definition removeRawGenerationDirectory (raw : RawGeneration) : prog tree unit := fun t =>
  match LstatEntry (raw_entry raw) t with
  | (Err e, t) => if errors_Is e ErrNotExist then (Ok tt, t) else (Err e, t)
  | (Panic, t) => (Panic, t)
  | (Ok info, t) =>
      if bool_decide (fi_kind info = Symlink) || negb (bool_decide (fi_kind info = Directory))
      then (Err (Errorf "FI raw generation path is not a real directory"), t)
      else RemoveAllEntry (raw_entry raw) t
  end.

Definition NextRawGeneration (rawRoot : bytes) (root : RootState) : prog tree (option RawGeneration) :=
  check! lift (validateRawGenerationRoot rawRoot root) ;;
  let! entries := ReadEntries in
  let names := (filter (fun e : bytes * file_kind =>
    bool_decide (e.2 = Directory) && HasPrefix e.1 generationDirectoryPrefix = true) entries).*1 in
  match sort_Strings names with
  | [] => ret None
  | name :: _ =>
      let generationID := TrimPrefix name generationDirectoryPrefix in
      fail! bool_decide (generationID = []) with Errorf "FI raw generation has empty identity" ;;
      let raw := {| RawGenerationDir := filepath_Join rawRoot name; RawGenerationID := generationID |} in
      check! validateRawGeneration raw rawRoot ;;
      ret (Some raw)
  end.

(** ** Promotion *)

(** [os.Rename] of a directory from the build root into the stage root. *)
Definition MoveEntry (old new : bytes) : prog hosts unit := fun h =>
  match tcall (ret tt) (stage_tree h) with
  | (Ok _, s) =>
      let b := build_tree h in
      match t_names b !! old with
      | None => (Err ErrNotExist, Hosts (raw_tree h) b s (host_env h))
      | Some i =>
          match t_nodes b !! i, t_names s !! new with
          | None, _ => (Err EIO, Hosts (raw_tree h) b s (host_env h))
          | Some _, Some _ => (Err ErrExist, Hosts (raw_tree h) b s (host_env h))
          | Some nd, None =>
              (Ok tt, Hosts (raw_tree h) (set_tnames (delete old (t_names b)) b)
                        (Tree (<[new := t_next s]> (t_names s)) (t_durable s)
                              (<[t_next s := nd]> (t_nodes s)) (S (t_next s)) (t_faults s)) (host_env h))
          end
      end
  | (Err e, s) => (Err e, Hosts (raw_tree h) (build_tree h) s (host_env h))
  | (Panic, s) => (Panic, Hosts (raw_tree h) (build_tree h) s (host_env h))
  end.

(** [publishGenerationDirectory] between the two roots. *)
Definition promoteGenerationDirectory (source destination : bytes) : prog hosts unit :=
  check! MoveEntry source destination ;;
  check! wrap_err "open FI generation parent directory for sync: %w" (on_stage (tcall (ret tt))) ;;
  fun h => let '(r, h) := wrap_err "sync FI generation parent directory: %w" (on_stage SyncRoot) h in
           (r, (on_stage (tcall (ret tt)) h).2).

(** The build root is private to the sender; its path. *)
Definition ensureTransportGenerationBuildRoot (stageRoot : bytes) (roots : SenderRoots) : res bytes :=
  check? validateGenerationStageRoot stageRoot (stage_state roots) ;;
  check? wrap "create FI transport-generation private build root: %w" (mkdir_build roots) ;;
  let? info := wrap "inspect FI transport-generation private build root: %w" (build_info roots) in
  fail? bool_decide (fi_kind info = Symlink) || negb (bool_decide (fi_kind info = Directory))
    with Errorf "FI transport-generation private build root must name a real directory" ;;
  Ok (filepath_Join stageRoot generationTransportBuildRootDirectoryName).

Section Build.
Context `{Unicode} `{X509} `{Zstd} `{JSON SignedGeneration}.

(** [CreateSealedGeneration] of an entry of the raw root into the build root. *)
Definition createFromRaw (entry : bytes) (config : gencreate.CreateConfig) (roots : gencreate.CreateRoots)
  : prog hosts PublishedGeneration := fun h =>
  let raw := raw_tree h in
  match t_names raw !! entry with
  | None => (Err ErrNotExist, h)
  | Some i =>
      match t_nodes raw !! i with
      | Some (Sub d) =>
          let '(r, ((d', v), b)) :=
            gencreate.CreateSealedGeneration config roots ((set_faults (t_faults raw) d, host_env h), build_tree h) in
          (r, Hosts (set_tfaults (faults d') (set_tnodes (<[i := Sub (set_faults (faults d) d')]> (t_nodes raw)) raw))
                b (stage_tree h) v)
      | _ => (Err ENOTDIR, h)
      end
  end.

(** The generation is in the queue already. *)
Definition reconcilePromoted (config : GenerationSealConfig) (raw : RawGeneration) (finalDir builtDir : bytes)
  : prog hosts TransportGeneration :=
  check! (fun h => match on_build (LstatEntry (entry_of builtDir)) h with
                   | (Ok _, h) => (Err (Errorf "FI transport generation exists in both private and active namespaces"), h)
                   | (Err e, h) =>
                       if errors_Is e ErrNotExist then (Ok tt, h)
                       else (Err (Wrap "inspect private FI transport generation during reconciliation: %w" e), h)
                   | (Panic, h) => (Panic, h)
                   end) ;;
  let! generation := wrap_err "load already-promoted FI transport generation: %w"
    (on_stage (loadTransportGenerationAt finalDir (SealSourceID config) (RawGenerationID raw) (MaxEncodedBytes config))) in
  check! wrap_err "retire reconciled frozen FI generation: %w" (on_raw (removeRawGenerationDirectory raw)) ;;
  ret generation.

(** Build, check, remove the raw directory, promote. *)
Definition buildAndPromote (config : GenerationSealConfig) (roots : SenderRoots) (raw : RawGeneration)
    (buildRoot finalDir : bytes) : prog hosts TransportGeneration :=
  let! published := wrap_err "build semantic-free FI transport generation: %w"
    (createFromRaw (raw_entry raw) {|
       gencreate.BatchSigner := BatchSigner config;
       gencreate.BatchSigningCertificate := BatchSigningCertificate config;
       gencreate.FrozenDir := RawGenerationDir raw;
       gencreate.CreateGenerationID := RawGenerationID raw;
       gencreate.CreateMaxEncodedBytes := MaxEncodedBytes config;
       gencreate.CreateMaxReadBytesPerSecond := 0;
       gencreate.SealedRoot := buildRoot;
       gencreate.CreateSourceID := SealSourceID config |} (create_roots roots)) in
  check! lift (validateTransportGenerationIdentity published (SealSourceID config) (RawGenerationID raw)
                 (MaxEncodedBytes config)) ;;
  check! wrap_err "retire frozen FI generation after durable semantic-free build: %w"
           (on_raw (removeRawGenerationDirectory raw)) ;;
  check! wrap_err "promote built FI transport generation into active queue: %w"
           (promoteGenerationDirectory (entry_of (DirectoryPath published)) (entry_of finalDir)) ;;
  wrap_err "reload promoted FI transport generation: %w"
    (on_stage (loadTransportGenerationAt finalDir (SealSourceID config) (RawGenerationID raw) 0)).

Definition BuildRawTransportGeneration (config : GenerationSealConfig) (roots : SenderRoots) (raw : RawGeneration)
  : prog hosts TransportGeneration :=
  check! lift (validateGenerationSealConfig config roots) ;;
  let! physicalSpoolPath := lift (wrap "resolve physical FI spool path for transport-generation validation: %w"
                                    (physical_spool roots)) in
  let rawRoot := filepath_Join (filepath_Dir physicalSpoolPath) generationRawRootDirectoryName in
  check! on_raw (validateRawGeneration raw rawRoot) ;;
  let! buildRoot := lift (ensureTransportGenerationBuildRoot (StageRoot config) roots) in
  let finalDir := filepath_Join (StageRoot config) (generationDirectoryPrefix ++ RawGenerationID raw) in
  let builtDir := filepath_Join buildRoot (generationDirectoryPrefix ++ RawGenerationID raw) in
  fun h => match on_stage (LstatEntry (entry_of finalDir)) h with
           | (Ok _, h) => reconcilePromoted config raw finalDir builtDir h
           | (Err e, h) => if errors_Is e ErrNotExist then buildAndPromote config roots raw buildRoot finalDir h
                           else (Err (Wrap "inspect promoted FI transport generation: %w" e), h)
           | (Panic, h) => (Panic, h)
           end.

(** ** Recovery of interrupted builds *)

(** The loop over the entries of the build root: the builds found. *)
Fixpoint builtNames (entries : list (bytes * file_kind)) : res (list bytes) :=
  match entries with
  | [] => Ok []
  | (name, kind) :: entries =>
      if HasPrefix name (bs ".generation-") && HasSuffix name (bs ".open") then
        fail? bool_decide (kind = Symlink) || negb (bool_decide (kind = Directory))
          with Errorf "FI transport-generation provisional build %q is not a real directory" ;;
        builtNames entries
      else
        fail? negb (HasPrefix name generationDirectoryPrefix)
          with Errorf "FI transport-generation build root contains unexpected entry %q" ;;
        fail? bool_decide (kind = Symlink) || negb (bool_decide (kind = Directory))
          with Errorf "FI transport-generation build %q is not a real directory" ;;
        let? names := builtNames entries in
        Ok (name :: names)
  end.

Section Recover.
Context (rawRoot stageRoot sourceID : bytes) (maxEncodedBytes : Z) (buildRoot : bytes).

(** One build: verified, its raw generation removed, promoted. *)
Definition recoverBuild (name : bytes) : prog hosts unit :=
  let generationID := TrimPrefix name generationDirectoryPrefix in
  let builtDir := filepath_Join buildRoot name in
  let finalDir := filepath_Join stageRoot name in
  check! (fun h => match on_stage (LstatEntry (entry_of finalDir)) h with
                   | (Ok _, h) => (Err (Errorf "FI transport-generation recovery found both private and active generation %q"), h)
                   | (Err e, h) => if errors_Is e ErrNotExist then (Ok tt, h)
                                   else (Err (Wrap "inspect active FI transport generation during build recovery: %w" e), h)
                   | (Panic, h) => (Panic, h)
                   end) ;;
  check! wrap_err "verify private FI transport generation during recovery: %w"
           (on_build (loadTransportGenerationAt builtDir sourceID generationID maxEncodedBytes)) ;;
  let raw := {| RawGenerationDir := filepath_Join rawRoot name; RawGenerationID := generationID |} in
  check! (fun h => match on_raw (LstatEntry (raw_entry raw)) h with
                   | (Ok _, h) =>
                       (check! on_raw (validateRawGeneration raw rawRoot) ;;
                        wrap_err "retire frozen FI generation during transport-build recovery: %w"
                          (on_raw (removeRawGenerationDirectory raw))) h
                   | (Err e, h) => if errors_Is e ErrNotExist then (Ok tt, h)
                                   else (Err (Wrap "inspect frozen FI generation during transport-build recovery: %w" e), h)
                   | (Panic, h) => (Panic, h)
                   end) ;;
  wrap_err "promote recovered FI transport generation: %w"
    (promoteGenerationDirectory (entry_of builtDir) (entry_of finalDir)).

Fixpoint recoverBuilds (names : list bytes) : prog hosts unit :=
  match names with
  | [] => ret tt
  | name :: names => check! recoverBuild name ;; recoverBuilds names
  end.

(** One raw generation that may have been promoted before. *)
Definition reconcileRaw (name : bytes) : prog hosts unit :=
  let generationID := TrimPrefix name generationDirectoryPrefix in
  let finalDir := filepath_Join stageRoot name in
  fun h => match on_stage (LstatEntry (entry_of finalDir)) h with
           | (Err e, h) => if errors_Is e ErrNotExist then (Ok tt, h)
                           else (Err (Wrap "inspect active FI transport generation during raw reconciliation: %w" e), h)
           | (Panic, h) => (Panic, h)
           | (Ok _, h) =>
               let raw := {| RawGenerationDir := filepath_Join rawRoot name; RawGenerationID := generationID |} in
               (check! wrap_err "verify active FI transport generation during raw reconciliation: %w"
                         (on_stage (loadTransportGenerationAt finalDir sourceID generationID maxEncodedBytes)) ;;
                check! on_raw (validateRawGeneration raw rawRoot) ;;
                wrap_err "retire reconciled frozen FI generation: %w"
                  (on_raw (removeRawGenerationDirectory raw))) h
           end.

Fixpoint reconcileRaws (entries : list (bytes * file_kind)) : prog hosts unit :=
  match entries with
  | [] => ret tt
  | (name, _) :: entries =>
      if negb (HasPrefix name generationDirectoryPrefix) then reconcileRaws entries
      else check! reconcileRaw name ;; reconcileRaws entries
  end.

End Recover.

Definition RecoverTransportGenerationBuilds (roots : SenderRoots) (rawRoot stageRoot sourceID : bytes)
    (maxEncodedBytes : Z) : prog hosts unit :=
  check! lift (validateRawGenerationRoot rawRoot (raw_state roots)) ;;
  check! lift (validateGenerationStageRoot stageRoot (stage_state roots)) ;;
  fail! bool_decide (TrimSpace sourceID = []) with Errorf "FI generation source ID is required" ;;
  fail! maxEncodedBytes =? 0 with Errorf "FI generation encoded byte ceiling must be greater than zero" ;;
  let! buildRoot := lift (ensureTransportGenerationBuildRoot stageRoot roots) in
  let! entries := on_build ReadEntries in
  let! names := lift (builtNames entries) in
  check! recoverBuilds rawRoot stageRoot sourceID maxEncodedBytes buildRoot (sort_Strings names) ;;
  let! rawEntries := on_raw ReadEntries in
  reconcileRaws rawRoot stageRoot sourceID maxEncodedBytes rawEntries.

End Build.

(** ** What a build leaves behind *)

Section Facts.
Context `{Unicode} `{X509} `{Zstd} `{JSON SignedGeneration} `{!ZstdCodec}.

(** Only the schedules differ. *)
Definition same_hosts (h h' : hosts) : Prop :=
  same_tree (raw_tree h) (raw_tree h') /\ same_tree (build_tree h) (build_tree h') /\
  same_tree (stage_tree h) (stage_tree h').
#[local] Instance same_hosts_PreOrder : PreOrder same_hosts.
Proof.
  split; [intros h; unfold same_hosts; split_and!; reflexivity|].
  intros a b c (A1 & A2 & A3) (B1 & B2 & B3). unfold same_hosts. split_and!; by etrans.
Qed.

Lemma on_raw_same {A} (p : prog tree A) : still p -> keeps same_hosts (on_raw p).
Proof.
  intros Hp h. specialize (Hp (raw_tree h)). unfold on_raw. destruct (p (raw_tree h)). split_and!; [exact Hp|reflexivity..].
Qed.
Lemma on_build_same {A} (p : prog tree A) : still p -> keeps same_hosts (on_build p).
Proof.
  intros Hp h. specialize (Hp (build_tree h)). unfold on_build. destruct (p (build_tree h)).
  split_and!; [reflexivity|exact Hp|reflexivity].
Qed.
Lemma on_stage_same {A} (p : prog tree A) : still p -> keeps same_hosts (on_stage p).
Proof.
  intros Hp h. specialize (Hp (stage_tree h)). unfold on_stage. destruct (p (stage_tree h)).
  split_and!; [reflexivity..|exact Hp].
Qed.

Lemma still_validateRaw raw rawRoot : still (validateRawGeneration raw rawRoot).
Proof. unfold validateRawGeneration. still. Qed.
Lemma still_loadAt dir sourceID id n : still (loadTransportGenerationAt dir sourceID id n).
Proof.
  unfold loadTransportGenerationAt. pose proof still_Load. pose proof gencreate.still_VerifyPublished. still.
Qed.

(** The files of a raw generation. *)
Definition intact (d : dir) (t : tree) (name : bytes) : Prop :=
  exists i d', t_names t !! name = Some i /\ t_nodes t !! i = Some (Sub d') /\ same_dir d d'.

Lemma intact_same d t t' name : same_tree t t' -> intact d t name -> intact d t' name.
Proof. by intros [fs ->]. Qed.
Lemma sealed_same t t' name m p sg : same_tree t t' -> sealed_at t name m p sg -> sealed_at t' name m p sg.
Proof. by intros [fs ->]. Qed.

(** Loading with a limit hashes the payload. *)
Lemma loadAt_sealed dir sourceID id n t g t' :
  0 < n -> loadTransportGenerationAt dir sourceID id n t = (Ok g, t') ->
  exists m p sg, sealed_at t (entry_of dir) m p sg /\
    SourceID (SignedDescriptor sg) = sourceID /\ GenerationID (SignedDescriptor sg) = id.
Proof.
  intros Hn. unfold loadTransportGenerationAt. intros (g0 & t1 & Hl & Hr)%bind_Ok.
  apply load_Ok in Hl as ([f1 ->] & Hg & _). apply bind_lift_Ok in Hr as ([] & Hid & Hr).
  replace (0 <? n) with true in Hr by lia. apply bind_Ok in Hr as ([] & t2 & Hv & _).
  apply Verify_Ok in Hv as (m & p & sg & d & _ & Hs & Hsealed). rewrite Hg in Hsealed. cbn [DirectoryPath] in Hsealed.
  exists m, p, sg. split; [exact Hsealed|]. rewrite Hs. unfold validateTransportGenerationIdentity in Hid.
  res_inv Hid. bool_hyps. done.
Qed.

Lemma loadAt_entry dir sourceID id n t g t' :
  loadTransportGenerationAt dir sourceID id n t = (Ok g, t') -> entry_of dir = generationDirectoryPrefix ++ id.
Proof.
  unfold loadTransportGenerationAt. intros (g0 & t1 & Hl & Hr)%bind_Ok.
  apply load_Ok in Hl as (_ & _ & m & p & d & [_ _ _ _ _ Hname]). apply bind_lift_Ok in Hr as ([] & Hid & _).
  unfold validateTransportGenerationIdentity in Hid. res_inv Hid. bool_hyps.
  change sealedGenerationDirectoryPrefix with generationDirectoryPrefix in Hname. congruence.
Qed.

(** The removal touches the raw root only. *)
Lemma removeRaw_others raw h :
  build_tree (on_raw (removeRawGenerationDirectory raw) h).2 = build_tree h /\
  stage_tree (on_raw (removeRawGenerationDirectory raw) h).2 = stage_tree h.
Proof. unfold on_raw. by destruct (removeRawGenerationDirectory raw (raw_tree h)). Qed.

(** The generation is in the build root or in the queue. *)
Definition sealed_in (old new : bytes) (m p : bytes) (sg : SignedGeneration) (h : hosts) : Prop :=
  sealed_at (build_tree h) old m p sg \/ sealed_at (stage_tree h) new m p sg.

(** A step that does not lose it. *)
Definition moves (old new : bytes) (h h' : hosts) : Prop :=
  forall m p sg, sealed_in old new m p sg h -> sealed_in old new m p sg h'.
#[local] Instance moves_PreOrder old new : PreOrder (moves old new).
Proof. split; [by intros h m p sg|]. intros a b c Hab Hbc m p sg Hs. by apply Hbc, Hab. Qed.

Lemma same_moves old new h h' : same_hosts h h' -> moves old new h h'.
Proof. intros (_ & Hb & Ht) m p sg [?|?]; [left|right]; by eapply sealed_same. Qed.
Lemma on_stage_moves {A} old new (q : prog tree A) : still q -> keeps (moves old new) (on_stage q).
Proof. intros Hq h. by apply same_moves, on_stage_same. Qed.

Lemma SyncRoot_moves old new : keeps (moves old new) (on_stage SyncRoot).
Proof.
  intros h m p sg [Hs|Hs]; unfold on_stage; destruct (SyncRoot (stage_tree h)) as [r s1] eqn:E; [by left|right].
  unfold SyncRoot, tcall, bind, next_tfault in E. destruct (t_faults (stage_tree h)) as [|[k|] fs];
    injection E as _ <-; exact Hs.
Qed.

Lemma MoveEntry_moves old new : keeps (moves old new) (MoveEntry old new).
Proof.
  intros h. unfold MoveEntry. pose proof (still_tcall (ret tt) (keeps_ret _ tt) (stage_tree h)) as [fs E].
  destruct (tcall (ret tt) (stage_tree h)) as [[[]|e|] s1]; cbn [snd] in E; subst s1;
    [|by apply same_moves; split_and!; [reflexivity..|exists fs]..].
  assert (moves old new h (Hosts (raw_tree h) (build_tree h) (set_tfaults fs (stage_tree h)) (host_env h))) as Hsame.
  { apply same_moves. split_and!; [reflexivity..|by exists fs]. }
  destruct (t_names (build_tree h) !! old) as [i|] eqn:Ei; [|exact Hsame]. cbn [t_names set_tfaults].
  destruct (t_nodes (build_tree h) !! i) as [nd|] eqn:End; [|exact Hsame].
  destruct (t_names (stage_tree h) !! new) eqn:Enew; [exact Hsame|].
  intros m p sg [(j & d & Hj & Hd & Hrest)|(j & d & Hj & _)]; [|congruence]. right.
  assert (j = i) as -> by congruence. exists (t_next (stage_tree h)), d. cbn. rewrite !lookup_insert_eq.
  split; [done|]. split; [congruence|done].
Qed.

Lemma promote_moves old new : keeps (moves old new) (promoteGenerationDirectory old new).
Proof.
  assert (keeps (moves old new) (on_stage (tcall (ret tt)))) as Hc by (apply on_stage_moves, still_tcall, keeps_ret, _).
  unfold promoteGenerationDirectory. apply keeps_bind; [apply _|apply MoveEntry_moves|intros _].
  apply keeps_bind; [apply _|by apply keeps_wrap|intros _ h].
  pose proof (keeps_wrap _ "sync FI generation parent directory: %w" _ (SyncRoot_moves old new) h) as Hs.
  destruct (wrap_err _ (on_stage SyncRoot) h) as [r h1]. cbn [snd] in *. etrans; [exact Hs|apply Hc].
Qed.

(** The raw root is only looked at. *)
Lemma createFromRaw_names entry config roots h :
  t_names (raw_tree (createFromRaw entry config roots h).2) = t_names (raw_tree h) /\
  stage_tree (createFromRaw entry config roots h).2 = stage_tree h.
Proof.
  unfold createFromRaw. destruct (t_names (raw_tree h) !! entry) as [i|]; [|done].
  destruct (t_nodes (raw_tree h) !! i) as [[d0|k]|]; [|done..].
  by destruct (gencreate.CreateSealedGeneration _ _ _) as [r1 [[d1 v] b]].
Qed.

Lemma createFromRaw_intact entry config roots h r h' d name :
  createFromRaw entry config roots h = (r, h') ->
  intact d (raw_tree h) name -> intact d (raw_tree h') name /\ stage_tree h' = stage_tree h.
Proof.
  unfold createFromRaw. intros Hr Hd. destruct (t_names (raw_tree h) !! entry) as [i|] eqn:Ei; [|by injection Hr as _ <-].
  destruct (t_nodes (raw_tree h) !! i) as [[d0|k]|] eqn:Ed; [|by injection Hr as _ <-..].
  pose proof (gencreate.Create_created config roots ((set_faults (t_faults (raw_tree h)) d0, host_env h), build_tree h)) as [Hs _].
  destruct (gencreate.CreateSealedGeneration _ _ _) as [r1 [[d1 v] b]]. injection Hr as _ <-. cbn [raw_tree stage_tree].
  split; [|done]. destruct Hs as [fs Hs]. cbn [fst snd] in Hs. subst d1.
  destruct Hd as (j & d' & Hj & Hd' & f & Hsame). exists j. destruct (decide (j = i)) as [->|Hne].
  - assert (d' = d0) as -> by congruence. eexists. cbn. rewrite lookup_insert_eq. split_and!; [done|done|].
    subst d0. by eexists.
  - exists d'. cbn. rewrite lookup_insert_ne by congruence. split_and!; [done|done|by exists f].
Qed.

Section NoLoss.
Context (config : GenerationSealConfig) (raw : RawGeneration) (d : dir) (h0 : hosts).

Definition builtDir : bytes :=
  filepath_Join (filepath_Join (StageRoot config) generationTransportBuildRootDirectoryName)
    (generationDirectoryPrefix ++ RawGenerationID raw).
Definition finalDir : bytes := filepath_Join (StageRoot config) (generationDirectoryPrefix ++ RawGenerationID raw).

(** A sealed generation of this identity; of these files, if there was none before. *)
Definition replacement (m p : bytes) (sg : SignedGeneration) : Prop :=
  SourceID (SignedDescriptor sg) = SealSourceID config /\
  GenerationID (SignedDescriptor sg) = RawGenerationID raw /\
  (t_names (build_tree h0) !! entry_of builtDir = None -> t_names (stage_tree h0) !! entry_of finalDir = None ->
   exists fs, sealer.frozen_artifacts d fs /\ valid_payload (SignedDescriptor sg) p fs).

Definition preserved (h : hosts) : Prop :=
  intact d (raw_tree h) (raw_entry raw) \/
  exists m p sg, sealed_in (entry_of builtDir) (entry_of finalDir) m p sg h /\ replacement m p sg.

Lemma preserved_moves h h' m p sg :
  sealed_in (entry_of builtDir) (entry_of finalDir) m p sg h -> replacement m p sg ->
  moves (entry_of builtDir) (entry_of finalDir) h h' -> preserved h'.
Proof. intros Hs Hr Hm. right. exists m, p, sg. split; [by apply Hm|done]. Qed.

Lemma preserved_same h h' : same_hosts h h' -> intact d (raw_tree h) (raw_entry raw) -> preserved h'.
Proof. intros (Hr & _) Hd. left. by eapply intact_same. Qed.

Lemma removeRaw_moves h : moves (entry_of builtDir) (entry_of finalDir) h (on_raw (removeRawGenerationDirectory raw) h).2.
Proof.
  intros m p sg Hs. unfold sealed_in. by destruct (removeRaw_others raw h) as [-> ->].
Qed.

Context (limit_set : 0 < MaxEncodedBytes config).
Context (names_short : forall n j, names d !! n = Some j -> len n <= canonical.maxCanonicalArtifactNameBytes).

Lemma reconcilePromoted_preserved h r h' :
  reconcilePromoted config raw finalDir builtDir h = (r, h') -> same_hosts h0 h ->
  intact d (raw_tree h) (raw_entry raw) -> preserved h'.
Proof.
  unfold reconcilePromoted. intros Hr Hsame Hd.
  apply bind_split in Hr as [([] & h1 & Hl & Hr)| ->]; cycle 1.
  { eapply preserved_same; [|exact Hd]. pose proof (on_build_same _ (still_LstatEntry (entry_of builtDir)) h) as Hb.
    destruct (on_build (LstatEntry (entry_of builtDir)) h) as [[?|e|] h1]; [exact Hb| |exact Hb].
    by destruct (errors_Is e ErrNotExist). }
  assert (same_hosts h h1) as S1.
  { pose proof (on_build_same _ (still_LstatEntry (entry_of builtDir)) h) as Hb.
    destruct (on_build (LstatEntry (entry_of builtDir)) h) as [[?|e|] h2]; [done| |done].
    destruct (errors_Is e ErrNotExist); [|done]. by injection Hl as <-. }
  clear Hl. set (load := loadTransportGenerationAt _ _ _ _) in Hr.
  pose proof (on_stage_same load (still_loadAt _ _ _ _) h1) as S2.
  apply bind_split in Hr as [(g & h2 & Hl & Hr)| ->]; cycle 1.
  { eapply preserved_same; [|exact Hd]. etrans; [exact S1|]. exact (keeps_wrap _ _ _ (on_stage_same load (still_loadAt _ _ _ _)) h1). }
  apply wrap_err_Ok in Hl. rewrite Hl in S2. cbn [snd] in S2.
  unfold on_stage in Hl. destruct (load (stage_tree h1)) as [r1 s1] eqn:El. injection Hl as -> <-.
  apply loadAt_sealed in El as (m & p & sg & Hs & Hsrc & Hid); [|done].
  assert (same_tree (stage_tree h0) (stage_tree h1)) as Hst.
  { etrans; [apply Hsame|apply S1]. }
  assert (replacement m p sg) as Hrep.
  { split; [done|]. split; [done|]. intros _ Hn. exfalso. destruct Hs as (i & ? & Hi & _), Hst as [fs E].
    rewrite E in Hi. cbn in Hi. congruence. }
  eapply (preserved_moves h1); [right; exact Hs|exact Hrep|]. etrans; [by apply same_moves|].
  apply bind_split in Hr as [([] & h3 & Hx & Hr)| ->].
  - injection Hr as _ <-. apply wrap_err_Ok in Hx. match type of Hx with _ ?x = _ => pose proof (removeRaw_moves x) as Hm end.
    by rewrite Hx in Hm.
  - unfold wrap_err. match goal with |- context [on_raw _ ?x] => pose proof (removeRaw_moves x) as Hm; by destruct (on_raw _ x) end.
Qed.

(** What a successful creation from the raw root put into the build root. *)
Lemma createFromRaw_sealed cfg roots h g h' :
  createFromRaw (raw_entry raw) cfg roots h = (Ok g, h') ->
  gencreate.SealedRoot cfg = filepath_Join (StageRoot config) generationTransportBuildRootDirectoryName ->
  gencreate.CreateGenerationID cfg = RawGenerationID raw ->
  same_hosts h0 h -> intact d (raw_tree h) (raw_entry raw) ->
  DirectoryPath g = builtDir /\
  exists m p sg, sealed_at (build_tree h') (entry_of builtDir) m p sg /\
    SignedDescriptor sg = SignedDescriptor (Signed g) /\
    (t_names (build_tree h0) !! entry_of builtDir = None ->
     exists fs, sealer.frozen_artifacts d fs /\ valid_payload (SignedDescriptor sg) p fs).
Proof.
  unfold createFromRaw. intros Hr Hroot Hid (_ & [fb Hb] & _) (i & d' & Hi & Hd' & fd & ->).
  rewrite Hi, Hd' in Hr. destruct (gencreate.CreateSealedGeneration _ _ _) as [r1 [[d1 v] b]] eqn:E.
  injection Hr as -> <-. cbn [build_tree].
  destruct (gencreate.Create_sealed _ _ _ _ _ _ _ builtDir ltac:(unfold builtDir; by rewrite Hroot, Hid) E names_short)
    as (Hdir & m & p & sg & Hs & Hsg & Hfresh).
  split; [done|]. exists m, p, sg. split; [exact Hs|]. split; [done|]. intros Hn. apply Hfresh. by rewrite Hb.
Qed.

Lemma buildAndPromote_preserved roots h r h' :
  buildAndPromote config roots raw (filepath_Join (StageRoot config) generationTransportBuildRootDirectoryName)
    finalDir h = (r, h') ->
  same_hosts h0 h -> intact d (raw_tree h) (raw_entry raw) -> preserved h'.
Proof.
  unfold buildAndPromote. intros Hr Hsame Hd. set (cfg := gencreate.Build_CreateConfig _ _ _ _ _ _ _ _) in Hr.
  apply bind_split in Hr as [(g & h1 & Hc & Hr)| ->]; cycle 1.
  { left. unfold wrap_err. destruct (createFromRaw _ _ _ h) as [r1 h1] eqn:E.
    eapply createFromRaw_intact in E as [E _]; [|exact Hd]. exact E. }
  apply wrap_err_Ok in Hc. pose proof (createFromRaw_intact _ _ _ _ _ _ _ _ Hc Hd) as [Hd1 _].
  destruct (createFromRaw_sealed cfg _ _ _ _ Hc eq_refl eq_refl Hsame Hd) as (Hdir & m & p & sg & Hs & Hsg & Hfresh).
  apply bind_split in Hr as [([] & h2 & Hv & Hr)| ->]; [|by left]. unfold lift in Hv. injection Hv as Hv <-.
  assert (replacement m p sg) as Hrep.
  { unfold validateTransportGenerationIdentity in Hv. res_inv Hv. bool_hyps. rewrite <- Hsg in *.
    split; [done|]. split; [done|]. intros Hn _. by apply Hfresh. }
  eapply (preserved_moves h1); [by left|exact Hrep|]. rewrite Hdir in Hr.
  assert (keeps (moves (entry_of builtDir) (entry_of finalDir)) (on_raw (removeRawGenerationDirectory raw))) as Hrm
    by (intros x; apply removeRaw_moves).
  match type of Hr with ?prog _ = _ => assert (keeps (moves (entry_of builtDir) (entry_of finalDir)) prog) as Hk end.
  { apply keeps_bind; [apply _|by apply keeps_wrap|intros _].
    apply keeps_bind; [apply _|apply keeps_wrap, promote_moves|intros _].
    apply keeps_wrap, on_stage_moves, still_loadAt. }
  exact (keeps_run _ _ _ _ _ Hk Hr).
Qed.

End NoLoss.

(** [C21] A frozen generation is never lost while it is built. Whatever
    [BuildRawTransportGeneration] returns and whichever calls failed in it, either the
    files of the raw generation are all still there, or a generation of this identity,
    whose payload has the signed size and digest, is in the build root or in the queue;
    and unless it was there before, its payload decodes to exactly the files of the raw
    generation. *)
Theorem BuildRawTransportGeneration_preserves config roots raw d h r h' :
  BuildRawTransportGeneration config roots raw h = (r, h') ->
  is_u64 (MaxEncodedBytes config) ->
  (forall n j, names d !! n = Some j -> len n <= canonical.maxCanonicalArtifactNameBytes) ->
  intact d (raw_tree h) (raw_entry raw) -> preserved config raw d h h'.
Proof.
  unfold BuildRawTransportGeneration. intros Hr Hu Hn Hd.
  apply bind_split in Hr as [([] & x & Hc & Hr)| ->]; [|by left]. unfold lift in Hc. injection Hc as Hc <-.
  assert (0 < MaxEncodedBytes config) as Hmax.
  { unfold validateGenerationSealConfig in Hc. destruct (_ || _) in Hc; [done|]. destruct (bool_decide _) in Hc; [done|].
    destruct (MaxEncodedBytes config =? 0) eqn:E in Hc; [done|]. unfold is_u64 in Hu. lia. }
  apply bind_split in Hr as [(spoolPath & x & Hp & Hr)| ->]; [|by left]. injection Hp as Hp <-. cbv zeta in Hr.
  set (root := filepath_Join (filepath_Dir spoolPath) _) in Hr.
  pose proof (on_raw_same _ (still_validateRaw raw root) h) as S1.
  apply bind_split in Hr as [([] & h1 & Hv & Hr)| ->]; [|by eapply preserved_same].
  rewrite Hv in S1. cbn [snd] in S1. assert (intact d (raw_tree h1) (raw_entry raw)) as Hd1 by (by eapply intact_same; [apply S1|]).
  apply bind_split in Hr as [(buildRoot & x & Hb & Hr)| ->]; [|by left]. unfold lift in Hb. injection Hb as Hb <-.
  assert (buildRoot = filepath_Join (StageRoot config) generationTransportBuildRootDirectoryName) as ->.
  { unfold ensureTransportGenerationBuildRoot in Hb. res_inv Hb. done. }
  change (filepath_Join (StageRoot config) (generationDirectoryPrefix ++ RawGenerationID raw)) with (finalDir config raw) in Hr.
  change (filepath_Join (filepath_Join _ _) (generationDirectoryPrefix ++ RawGenerationID raw)) with (builtDir config raw) in Hr.
  pose proof (on_stage_same _ (still_LstatEntry (entry_of (finalDir config raw))) h1) as S2.
  destruct (on_stage (LstatEntry (entry_of (finalDir config raw))) h1) as [[info|e|] h2]; cbn [snd] in S2;
    (assert (same_hosts h h2) as S12 by (by etrans));
    (assert (intact d (raw_tree h2) (raw_entry raw)) as Hd2 by (by eapply intact_same; [apply S2|])).
  - by eapply reconcilePromoted_preserved.
  - destruct (errors_Is e ErrNotExist); [|injection Hr as _ <-; by left]. by eapply buildAndPromote_preserved.
  - injection Hr as _ <-. by left.
Qed.

(** ** What recovery leaves behind *)

Section Recovery.
Context (rawRoot stageRoot sourceID : bytes) (maxEncodedBytes : Z) (name generationID : bytes) (d : dir).
Context (raw_abs : filepath_IsAbs rawRoot = true) (stage_abs : filepath_IsAbs stageRoot = true).
Context (named : name = generationDirectoryPrefix ++ generationID) (plain : plain_element name).
Context (limit_set : 0 < maxEncodedBytes).

(** The directories are directories: one name each, fresh numbers fresh. *)
Definition hosts_ok (h : hosts) : Prop :=
  one_name (t_names (raw_tree h)) /\
  forall n i, t_names (stage_tree h) !! n = Some i -> (i < t_next (stage_tree h))%nat.

(** The generation, raw or sealed. *)
Definition sealed_somewhere (h : hosts) : Prop :=
  exists m p sg, sealed_in name name m p sg h /\
    SourceID (SignedDescriptor sg) = sourceID /\ GenerationID (SignedDescriptor sg) = generationID.
Definition settled (h : hosts) : Prop := intact d (raw_tree h) name \/ sealed_somewhere h.

Definition settles (h h' : hosts) : Prop := hosts_ok h /\ settled h -> hosts_ok h' /\ settled h'.
#[local] Instance settles_PreOrder : PreOrder settles.
Proof. split; [intros h Hh; exact Hh|]. intros a b c Hab Hbc Ha. by apply Hbc, Hab. Qed.

Lemma same_settles h h' : same_hosts h h' -> settles h h'.
Proof.
  intros Hs [[Hw Hb] Hset]. pose proof Hs as ([f1 E1] & _ & [f3 E3]). split.
  - split; [by rewrite E1|by rewrite E3].
  - destruct Hset as [Hi|(m & p & sg & Hin & ?)]; [left; eapply intact_same; [apply Hs|done]|].
    right. exists m, p, sg. split; [by eapply same_moves|done].
Qed.

(** Sealed generations outlive every step on the other directories. *)
Lemma moves_sealed h h' : moves name name h h' -> sealed_somewhere h -> sealed_somewhere h'.
Proof. intros Hm (m & p & sg & Hs & ?). exists m, p, sg. split; [by apply Hm|done]. Qed.

Lemma removeRaw_ok raw h : hosts_ok h -> hosts_ok (on_raw (removeRawGenerationDirectory raw) h).2.
Proof.
  intros [Hw Hb]. unfold hosts_ok. pose proof (removeRaw_others raw h) as [_ ->]. split; [|done].
  unfold on_raw, removeRawGenerationDirectory. pose proof (still_LstatEntry (raw_entry raw) (raw_tree h)) as [f1 E1].
  destruct (LstatEntry (raw_entry raw) (raw_tree h)) as [[info|e|] t1]; cbn [snd] in E1; subst t1; [| |exact Hw].
  - destruct (_ || _); [exact Hw|]. unfold RemoveAllEntry, bind, next_tfault. cbn [t_faults set_tfaults].
    destruct f1 as [|[k|] f1]; cbn [t_names set_tfaults t_nodes];
      (destruct (t_names (raw_tree h) !! _) as [i|]; [|exact Hw]; destruct (t_nodes (raw_tree h) !! i); [|exact Hw]);
      cbn; [by apply one_name_delete|exact Hw|by apply one_name_delete].
  - destruct (errors_Is e ErrNotExist); exact Hw.
Qed.

Lemma removeRaw_intact raw h :
  hosts_ok h -> raw_entry raw <> name -> intact d (raw_tree h) name ->
  intact d (raw_tree (on_raw (removeRawGenerationDirectory raw) h).2) name.
Proof.
  intros [Hw _] Hne (i & d' & Hi & Hd & Hsame). unfold on_raw, removeRawGenerationDirectory.
  pose proof (still_LstatEntry (raw_entry raw) (raw_tree h)) as [f1 E1].
  destruct (LstatEntry (raw_entry raw) (raw_tree h)) as [[info|e|] t1]; cbn [snd] in E1; subst t1; [| |by exists i, d'].
  - destruct (_ || _); [by exists i, d'|]. unfold RemoveAllEntry, bind, next_tfault. cbn [t_faults set_tfaults].
    destruct f1 as [|[k|] f1]; cbn [t_names set_tfaults t_nodes];
      (destruct (t_names (raw_tree h) !! raw_entry raw) as [j|] eqn:Ej; [|by exists i, d'];
       destruct (t_nodes (raw_tree h) !! j) as [nd|]; [|by exists i, d']);
      (assert (j <> i) as Hji by (intros ->; apply Hne; by eapply Hw));
      exists i, d'; cbn; rewrite ?lookup_delete_ne, lookup_insert_ne by done; done.
  - destruct (errors_Is e ErrNotExist); by exists i, d'.
Qed.

(** The removal of a raw generation: another one, or this one when it is sealed. *)
Lemma removeRaw_settles raw h :
  (raw_entry raw = name -> sealed_somewhere h) -> settles h (on_raw (removeRawGenerationDirectory raw) h).2.
Proof.
  intros Hsealed [Hok Hset]. split; [by apply removeRaw_ok|].
  assert (moves name name h (on_raw (removeRawGenerationDirectory raw) h).2) as Hm.
  { intros m p sg Hs. unfold sealed_in. by destruct (removeRaw_others raw h) as [-> ->]. }
  destruct Hset as [Hi|Hs]; [|right; by eapply moves_sealed].
  destruct (decide (raw_entry raw = name)) as [E|Hne]; [right; eapply moves_sealed; eauto|].
  left. by apply removeRaw_intact.
Qed.

Lemma MoveEntry_settles old new : (old = name -> new = name) -> keeps settles (MoveEntry old new).
Proof.
  intros Hname h. unfold MoveEntry. pose proof (still_tcall (ret tt) (keeps_ret _ tt) (stage_tree h)) as [fs E].
  assert (forall s, settles h (Hosts (raw_tree h) (build_tree h) (set_tfaults s (stage_tree h)) (host_env h))) as Hsame.
  { intros s0. apply same_settles. split_and!; [reflexivity..|by exists s0]. }
  destruct (tcall (ret tt) (stage_tree h)) as [[[]|e|] s1]; cbn [snd] in E; subst s1; [|apply Hsame..].
  destruct (t_names (build_tree h) !! old) as [i|] eqn:Ei; [|apply Hsame]. cbn [t_names set_tfaults].
  destruct (t_nodes (build_tree h) !! i) as [nd|] eqn:End; [|apply Hsame].
  destruct (t_names (stage_tree h) !! new) eqn:Enew; [apply Hsame|].
  intros [[Hw Hb] Hset]. split.
  - split; [exact Hw|]. cbn. intros n j. rewrite lookup_insert_Some. intros [[_ <-]|[_ Hj]]; [lia|].
    specialize (Hb n j Hj). lia.
  - destruct Hset as [Hi|(m & p & sg & Hin & Hid)]; [by left|right]. exists m, p, sg. split; [|done].
    destruct Hin as [(j & dd & Hj & Hd & Hrest)|(j & dd & Hj & Hd & Hrest)].
    + destruct (decide (old = name)) as [Eo|Hne].
      * right. exists (t_next (stage_tree h)), dd. cbn. rewrite (Hname Eo), !lookup_insert_eq. split; [done|].
        split; [congruence|done].
      * left. exists j, dd. cbn. by rewrite lookup_delete_ne.
    + right. exists j, dd. cbn. specialize (Hb _ _ Hj).
      rewrite lookup_insert_ne by congruence. rewrite lookup_insert_ne by lia. done.
Qed.

Lemma promote_settles old new : (old = name -> new = name) -> keeps settles (promoteGenerationDirectory old new).
Proof.
  intros Hname. assert (forall A (q : prog tree A), still q -> keeps settles (on_stage q)) as Hst.
  { intros A q Hq h. by apply same_settles, on_stage_same. }
  assert (keeps settles (on_stage SyncRoot)) as Hsync.
  { intros h [[Hw Hb] Hset]. pose proof (SyncRoot_moves name name h) as Hm. unfold on_stage in *.
    destruct (SyncRoot (stage_tree h)) as [r s1] eqn:E. cbn [snd] in *. split.
    - split; [exact Hw|]. cbn [stage_tree]. unfold SyncRoot, tcall, bind, next_tfault in E.
      destruct (t_faults (stage_tree h)) as [|[k|] fs]; injection E as _ <-; exact Hb.
    - destruct Hset as [Hi|Hs]; [by left|right; by eapply moves_sealed]. }
  unfold promoteGenerationDirectory. apply keeps_bind; [apply _|by apply MoveEntry_settles|intros _].
  apply keeps_bind; [apply _|apply keeps_wrap, Hst, still_tcall, keeps_ret, _|intros _ h].
  pose proof (keeps_wrap _ "sync FI generation parent directory: %w" _ Hsync h) as Hs.
  destruct (wrap_err _ (on_stage SyncRoot) h) as [r h1]. cbn [snd] in *. etrans; [exact Hs|].
  apply Hst, still_tcall, keeps_ret, _.
Qed.

Lemma trim_prefix n : HasPrefix n generationDirectoryPrefix = true ->
  generationDirectoryPrefix ++ TrimPrefix n generationDirectoryPrefix = n.
Proof. intros [t ->]%HasPrefix_spec. by rewrite TrimPrefix_app. Qed.

Lemma validateRaw_entry raw root t t' :
  validateRawGeneration raw root t = (Ok tt, t') -> raw_entry raw = generationDirectoryPrefix ++ RawGenerationID raw.
Proof.
  unfold validateRawGeneration. destruct (_ || _); [done|]. destruct (negb _) eqn:E; [done|]. intros _. by bool_hyps.
Qed.

(** The generation found in a directory of either root. *)
Lemma loaded_somewhere (on : forall A, prog tree A -> prog hosts A) dir n h g h' :
  (on = @on_build \/ on = @on_stage) ->
  on _ (loadTransportGenerationAt dir sourceID (TrimPrefix n generationDirectoryPrefix) maxEncodedBytes) h = (Ok g, h') ->
  HasPrefix n generationDirectoryPrefix = true ->
  same_hosts h h' /\ entry_of dir = n /\ (n = name -> sealed_somewhere h').
Proof.
  intros Hon Hl Hp. set (load := loadTransportGenerationAt _ _ _ _) in Hl.
  assert (same_hosts h h') as Hs.
  { destruct Hon as [-> | ->]; [pose proof (on_build_same load (still_loadAt _ _ _ _) h) as Hs
      |pose proof (on_stage_same load (still_loadAt _ _ _ _) h) as Hs]; by rewrite Hl in Hs. }
  split; [done|].
  assert (exists t t', load t = (Ok g, t') /\ (on = @on_build /\ t = build_tree h \/ on = @on_stage /\ t = stage_tree h))
    as (t & t' & El & Ht).
  { destruct Hon as [-> | ->]; unfold on_build, on_stage in Hl;
      (destruct (load _) as [r1 t1] eqn:El; injection Hl as -> _); eauto 6. }
  pose proof (loadAt_entry _ _ _ _ _ _ _ El) as He. rewrite trim_prefix in He by done. split; [done|]. intros ->.
  apply loadAt_sealed in El as (m & p & sg & Hse & Hsrc & Hid); [|done]. rewrite He in Hse.
  exists m, p, sg. split; [|split; [done|]].
  - eapply same_moves; [exact Hs|]. destruct Ht as [[_ ->]|[_ ->]]; [by left|by right].
  - rewrite Hid, named. by rewrite TrimPrefix_app.
Qed.

(** Validation and removal of the raw generation of a name. *)
Lemma retireRaw_settles n msg h :
  HasPrefix n generationDirectoryPrefix = true -> (n = name -> sealed_somewhere h) ->
  let raw := {| RawGenerationDir := filepath_Join rawRoot n;
                RawGenerationID := TrimPrefix n generationDirectoryPrefix |} in
  settles h ((check! on_raw (validateRawGeneration raw rawRoot) ;;
              wrap_err msg (on_raw (removeRawGenerationDirectory raw))) h).2.
Proof.
  intros Hp Hs raw. pose proof (on_raw_same _ (still_validateRaw raw rawRoot) h) as S1. unfold bind.
  destruct (on_raw (validateRawGeneration raw rawRoot) h) as [[[]|e|] h1] eqn:E; cbn [snd] in *; [|by apply same_settles..].
  etrans; [by apply same_settles|]. unfold on_raw in E. destruct (validateRawGeneration raw rawRoot (raw_tree h)) as [r1 t1] eqn:Ev.
  injection E as -> _. apply validateRaw_entry in Ev. cbn [RawGenerationID raw] in Ev. rewrite trim_prefix in Ev by done.
  pose proof (removeRaw_settles raw h1) as Hr. unfold wrap_err. destruct (on_raw (removeRawGenerationDirectory raw) h1).
  apply Hr. rewrite Ev. intros En. eapply moves_sealed; [by apply same_moves|by apply Hs].
Qed.

Lemma recoverBuild_settles buildRoot n :
  HasPrefix n generationDirectoryPrefix = true ->
  keeps settles (recoverBuild rawRoot stageRoot sourceID maxEncodedBytes buildRoot n).
Proof.
  intros Hp h0. unfold recoverBuild. cbv zeta. set (finalDir := filepath_Join stageRoot n).
  set (builtDir := filepath_Join buildRoot n).
  match goal with |- settles h0 (?prog h0).2 => destruct (prog h0) as [r h'] eqn:Hr end. cbn [snd].
  pose proof (on_stage_same _ (still_LstatEntry (entry_of finalDir)) h0) as S1.
  apply bind_split in Hr as [([] & h1 & Hl & Hr)| ->]; cycle 1.
  { apply same_settles. destruct (on_stage (LstatEntry (entry_of finalDir)) h0) as [[?|e|] h1]; [exact S1| |exact S1].
    by destruct (errors_Is e ErrNotExist). }
  assert (same_hosts h0 h1) as S01.
  { destruct (on_stage (LstatEntry (entry_of finalDir)) h0) as [[?|e|] h2]; [done| |done].
    destruct (errors_Is e ErrNotExist); [|done]. by injection Hl as <-. }
  etrans; [by apply same_settles|]. clear h0 S1 Hl S01.
  apply bind_split in Hr as [(g & h2 & Hl & Hr)| ->]; cycle 1.
  { apply same_settles. apply (keeps_wrap same_hosts). apply on_build_same, still_loadAt. }
  apply wrap_err_Ok in Hl. apply (loaded_somewhere (@on_build)) in Hl as (S2 & He & Hs); [|by left|done].
  etrans; [by apply same_settles|]. fold builtDir in He. rewrite He in Hr.
  assert (keeps settles (promoteGenerationDirectory n (entry_of finalDir))) as Hpro.
  { apply promote_settles. intros ->. apply (Join_element stageRoot name plain stage_abs). }
  set (raw := {| RawGenerationDir := filepath_Join rawRoot n; RawGenerationID := _ |}) in Hr.
  pose proof (on_raw_same _ (still_LstatEntry (raw_entry raw)) h2) as S3.
  assert (forall r3 h3, (match on_raw (LstatEntry (raw_entry raw)) h2 with
      | (Ok _, h) => (check! on_raw (validateRawGeneration raw rawRoot) ;;
                        wrap_err "retire frozen FI generation during transport-build recovery: %w"
                          (on_raw (removeRawGenerationDirectory raw))) h
      | (Err e, h) => if errors_Is e ErrNotExist then (Ok tt, h)
                      else (Err (Wrap "inspect frozen FI generation during transport-build recovery: %w" e), h)
      | (Panic, h) => (Panic, h)
      end) = (r3, h3) -> settles h2 h3) as Hraw.
  { intros r3 h3 Hx. destruct (on_raw (LstatEntry (raw_entry raw)) h2) as [[?|e|] h4]; cbn [snd] in S3.
    - etrans; [by apply same_settles|].
      pose proof (retireRaw_settles n "retire frozen FI generation during transport-build recovery: %w" h4 Hp) as Ht.
      cbv zeta in Ht. fold raw in Ht. rewrite Hx in Ht. apply Ht. intros En.
      eapply moves_sealed; [by apply same_moves|by apply Hs].
    - destruct (errors_Is e ErrNotExist); injection Hx as _ <-; by apply same_settles.
    - injection Hx as _ <-. by apply same_settles. }
  apply bind_split in Hr as [([] & h3 & Hx & Hr)| ->].
  - etrans; [by eapply Hraw|]. apply (keeps_wrap settles) with (msg := "promote recovered FI transport generation: %w") in Hpro.
    exact (keeps_run _ _ _ _ _ Hpro Hr).
  - eapply (Hraw _ _ (surjective_pairing _)).
Qed.

Lemma reconcileRaw_settles n :
  HasPrefix n generationDirectoryPrefix = true ->
  keeps settles (reconcileRaw rawRoot stageRoot sourceID maxEncodedBytes n).
Proof.
  intros Hp h0. unfold reconcileRaw. set (finalDir := filepath_Join stageRoot n).
  pose proof (on_stage_same _ (still_LstatEntry (entry_of finalDir)) h0) as S1.
  destruct (on_stage (LstatEntry (entry_of finalDir)) h0) as [[info|e|] h1]; cbn [snd] in S1.
  - etrans; [by apply same_settles|].
    match goal with |- settles h1 (?prog h1).2 => destruct (prog h1) as [r h'] eqn:Hr end. cbn [snd].
    apply bind_split in Hr as [(g & h2 & Hl & Hr)| ->]; cycle 1.
    { apply same_settles. apply (keeps_wrap same_hosts). apply on_stage_same, still_loadAt. }
    apply wrap_err_Ok in Hl. apply (loaded_somewhere (@on_stage)) in Hl as (S2 & _ & Hs); [|by right|done].
    etrans; [by apply same_settles|].
    pose proof (retireRaw_settles n "retire reconciled frozen FI generation: %w" h2 Hp Hs) as Ht.
    cbv zeta in Ht. by rewrite Hr in Ht.
  - destruct (errors_Is e ErrNotExist); by apply same_settles.
  - by apply same_settles.
Qed.

Lemma recoverBuilds_settles buildRoot ns :
  Forall (fun n => HasPrefix n generationDirectoryPrefix = true) ns ->
  keeps settles (recoverBuilds rawRoot stageRoot sourceID maxEncodedBytes buildRoot ns).
Proof.
  induction 1 as [|n ns Hn _ IH]; cbn [recoverBuilds]; [apply keeps_ret, _|].
  apply keeps_bind; [apply _|by apply recoverBuild_settles|intros _; exact IH].
Qed.

Lemma reconcileRaws_settles entries :
  keeps settles (reconcileRaws rawRoot stageRoot sourceID maxEncodedBytes entries).
Proof.
  induction entries as [|[n k] entries IH]; cbn [reconcileRaws]; [apply keeps_ret, _|].
  destruct (HasPrefix n generationDirectoryPrefix) eqn:E; cbn [negb]; [|done].
  apply keeps_bind; [apply _|by apply reconcileRaw_settles|intros _; exact IH].
Qed.

Lemma builtNames_prefix entries ns :
  builtNames entries = Ok ns -> Forall (fun n => HasPrefix n generationDirectoryPrefix = true) ns.
Proof.
  revert ns. induction entries as [|[n k] entries IH]; intros ns; cbn [builtNames]; [by intros [= <-]|].
  destruct (_ && _); [intros Hr; res_inv Hr; eauto|]. intros Hr. res_inv Hr. bool_hyps. constructor; [done|eauto].
Qed.

End Recovery.

(** Recovery never loses a frozen generation. Whatever
    [RecoverTransportGenerationBuilds] returns and whichever calls failed in it, every raw
    generation whose files were there is still there with all its files, or a generation
    of its identity, whose payload has the signed size and digest, is in the build root or
    in the queue under its name. *)
Theorem RecoverTransportGenerationBuilds_preserves roots rawRoot stageRoot sourceID maxEncodedBytes h r h' name id d :
  RecoverTransportGenerationBuilds roots rawRoot stageRoot sourceID maxEncodedBytes h = (r, h') ->
  is_u64 maxEncodedBytes -> name = generationDirectoryPrefix ++ id -> plain_element name ->
  hosts_ok h -> intact d (raw_tree h) name ->
  hosts_ok h' /\ settled sourceID name id d h'.
Proof.
  intros Hr Hu Hn Hp Hok Hd. unfold RecoverTransportGenerationBuilds in Hr.
  assert (hosts_ok h /\ settled sourceID name id d h) as Hstart by (split; [done|by left]).
  apply bind_split in Hr as [([] & x & Hv & Hr)| ->]; [|done]. unfold lift in Hv. injection Hv as Hv <-.
  apply bind_split in Hr as [([] & x & Hw & Hr)| ->]; [|done]. unfold lift in Hw. injection Hw as Hw <-.
  assert (filepath_IsAbs rawRoot = true /\ filepath_IsAbs stageRoot = true) as [Ha Hb].
  { unfold validateRawGenerationRoot in Hv. unfold validateGenerationStageRoot in Hw. res_inv Hv. res_inv Hw. by bool_hyps. }
  destruct (bool_decide _) in Hr; [by injection Hr as _ <-|].
  destruct (maxEncodedBytes =? 0) eqn:Em in Hr; [by injection Hr as _ <-|].
  assert (0 < maxEncodedBytes) as Hmax by (unfold is_u64 in Hu; lia).
  apply bind_split in Hr as [(buildRoot & x & Hbr & Hr)| ->]; [|done]. unfold lift in Hbr. injection Hbr as _ <-.
  match type of Hr with ?prog h = _ => assert (keeps (settles sourceID name id d) prog) as Hk end.
  { apply keeps_bind; [apply settles_PreOrder|intros k; apply same_settles, on_build_same, still_ReadEntries|intros entries].
    intros k. unfold bind at 1, lift. destruct (builtNames entries) as [ns|e|] eqn:Ens; [|intros Hk; exact Hk..].
    revert k. apply keeps_bind; [apply settles_PreOrder| |intros _].
    - apply recoverBuilds_settles; try done. rewrite sort_Strings_perm. by eapply builtNames_prefix.
    - apply keeps_bind; [apply settles_PreOrder|intros k; apply same_settles, on_raw_same, still_ReadEntries|intros rawEntries].
      by apply reconcileRaws_settles. }
  exact (keeps_run _ _ _ _ _ Hk Hr Hstart).
Qed.

End Facts.

(** ** A concrete build *)

Definition demoHosts : hosts := {|
  raw_tree := Tree {[ bs "generation-g1" := 0%nat ]} {[ bs "generation-g1" := 0%nat ]}
                {[ 0%nat := Sub sealer.demoFrozen ]} 1 [];
  build_tree := Tree ∅ ∅ ∅ 0 [];
  stage_tree := Tree ∅ ∅ ∅ 0 [];
  host_env := sealer.Env [] [3; 9] |}.
Definition demoDirectory : FileInfo := {| fi_ino := 1; fi_kind := Directory; fi_perm := 448; fi_size := 0 |}.
Definition demoRootAt (path : bytes) : RootState := {| EvalSymlinks := Ok path; RootInfo := Ok demoDirectory |}.
Definition demoSenderRoots : SenderRoots := {|
  physical_spool := Ok (bs "/var/fi/spool");
  raw_state := demoRootAt (bs "/var/fi/generation-raw");
  stage_state := demoRootAt (bs "/var/stage");
  mkdir_build := Ok tt;
  build_info := Ok demoDirectory;
  create_roots := {| gencreate.mkdir_root := Ok tt; gencreate.root_info := Ok demoDirectory;
                     gencreate.seal_dirs := sealer.demoDirState |} |}.
Definition demoSealer : GenerationSealConfig := {|
  BatchSigner := Some Demo.signer;
  BatchSigningCertificate := Some (Demo.certificate (bs "File Intelligence Batch Signing") (bs "FS-01"));
  MaxEncodedBytes := 1000; SealSourceID := bs "FS-01"; SpoolDir := bs "/var/fi/spool"; StageRoot := bs "/var/stage" |}.
Definition demoRaw : RawGeneration := {|
  RawGenerationDir := bs "/var/fi/generation-raw/generation-g1"; RawGenerationID := bs "g1" |}.

Definition demoCreate : gencreate.CreateConfig := {|
  gencreate.BatchSigner := BatchSigner demoSealer;
  gencreate.BatchSigningCertificate := BatchSigningCertificate demoSealer;
  gencreate.FrozenDir := RawGenerationDir demoRaw;
  gencreate.CreateGenerationID := RawGenerationID demoRaw;
  gencreate.CreateMaxEncodedBytes := MaxEncodedBytes demoSealer;
  gencreate.CreateMaxReadBytesPerSecond := 0;
  gencreate.SealedRoot := bs "/var/stage/.fi-generation-build";
  gencreate.CreateSourceID := SealSourceID demoSealer |}.

#[local] Existing Instance asciiUnicode.
#[local] Existing Instance transporttrust.demoX509.
#[local] Existing Instance demoZstd.
#[local] Existing Instance demoZstd_codec.
#[local] Instance demoBuildJSON : JSON SignedGeneration := fixedJSON demoSigned demoMetadata.


Lemma demo_names_short n j :
  names sealer.demoFrozen !! n = Some j -> len n <= canonical.maxCanonicalArtifactNameBytes.
Proof.
  unfold sealer.demoFrozen. cbn [names list_to_map foldr uncurry fst snd].
  rewrite !lookup_insert_Some, lookup_empty. intros [[<- _]|[_ [[<- _]|[_ ?]]]]; [..|done]; vm_compute; discriminate.
Qed.

Lemma demo_intact : intact sealer.demoFrozen (raw_tree demoHosts) (bs "generation-g1").
Proof. exists 0%nat, sealer.demoFrozen. split_and!; [apply lookup_singleton_eq|apply lookup_singleton_eq|by exists []]. Qed.

Lemma CreateSealedGeneration_durable_witness :
  exists g s' metadata payload,
    gencreate.CreateSealedGeneration demoCreate (create_roots demoSenderRoots)
      ((sealer.demoFrozen, sealer.Env [] [3; 9]), build_tree demoHosts) = (Ok g, s') /\
    kept (holds metadata payload) s'.2 (bs "generation-g1").
Proof.
  destruct (gencreate.CreateSealedGeneration demoCreate (create_roots demoSenderRoots)
              ((sealer.demoFrozen, sealer.Env [] [3; 9]), build_tree demoHosts)) as [r s'] eqn:E.
  assert (match r with Ok _ => true | _ => false end = true) as Hr.
  { change r with ((r, s').1). rewrite <- E. vm_compute. reflexivity. }
  destruct r as [g| |]; [|discriminate Hr..]. exists g, s'.
  destruct (gencreate.CreateSealedGeneration_durable _ _ _ _ _ _ _ E (lookup_empty _) demo_names_short)
    as (m & p & fs & Hk & _).
  exists m, p. split; [reflexivity|exact Hk].
Defined.

(** The promotion fails: the files are gone, the sealed generation is in the build root. *)
Definition demoInterrupted : hosts :=
  Hosts (raw_tree demoHosts) (build_tree demoHosts) (Tree ∅ ∅ ∅ 0 [None; Some 5%nat]) (host_env demoHosts).

Lemma BuildRawTransportGeneration_preserves_witness :
  (exists e, (BuildRawTransportGeneration demoSealer demoSenderRoots demoRaw demoInterrupted).1 = Err e) /\
  t_names (raw_tree (BuildRawTransportGeneration demoSealer demoSenderRoots demoRaw demoInterrupted).2)
    !! bs "generation-g1" = None /\
  preserved demoSealer demoRaw sealer.demoFrozen demoInterrupted
    (BuildRawTransportGeneration demoSealer demoSenderRoots demoRaw demoInterrupted).2.
Proof.
  split; [eexists; vm_compute; reflexivity|]. split; [vm_compute; reflexivity|].
  destruct (BuildRawTransportGeneration demoSealer demoSenderRoots demoRaw demoInterrupted) as [r h'] eqn:E.
  apply (BuildRawTransportGeneration_preserves _ _ _ sealer.demoFrozen _ _ _ E);
    [split; vm_compute; [discriminate|reflexivity]|exact demo_names_short|exact demo_intact].
Defined.

(** A restart after the build and before the files were removed. *)
Definition demoRestart : hosts :=
  (createFromRaw (bs "generation-g1") demoCreate (create_roots demoSenderRoots) demoHosts).2.

Lemma demo_restart_intact : intact sealer.demoFrozen (raw_tree demoRestart) (bs "generation-g1").
Proof.
  unfold demoRestart. destruct (createFromRaw _ _ _ demoHosts) as [r h'] eqn:E.
  by apply (createFromRaw_intact _ _ _ _ _ _ _ _ E demo_intact).
Qed.

Lemma demo_restart_ok : hosts_ok demoRestart.
Proof.
  unfold hosts_ok, demoRestart.
  destruct (createFromRaw_names (bs "generation-g1") demoCreate (create_roots demoSenderRoots) demoHosts) as [-> ->].
  cbn [raw_tree stage_tree demoHosts t_names]. split; [|intros n i Hn; by rewrite lookup_empty in Hn].
  intros n1 n2 i. rewrite !lookup_singleton_Some. by intros [<- _] [<- _].
Qed.

Lemma RecoverTransportGenerationBuilds_preserves_witness :
  (RecoverTransportGenerationBuilds demoSenderRoots (bs "/var/fi/generation-raw") (bs "/var/stage") (bs "FS-01")
     1000 demoRestart).1 = Ok tt /\
  settled (bs "FS-01") (bs "generation-g1") (bs "g1") sealer.demoFrozen
    (RecoverTransportGenerationBuilds demoSenderRoots (bs "/var/fi/generation-raw") (bs "/var/stage") (bs "FS-01")
       1000 demoRestart).2.
Proof.
  split; [vm_compute; reflexivity|].
  destruct (RecoverTransportGenerationBuilds demoSenderRoots (bs "/var/fi/generation-raw") (bs "/var/stage")
              (bs "FS-01") 1000 demoRestart) as [r h'] eqn:E.
  apply (RecoverTransportGenerationBuilds_preserves _ _ _ _ _ _ _ _ _ (bs "g1") sealer.demoFrozen E).
  - split; vm_compute; [discriminate|reflexivity].
  - vm_compute. reflexivity.
  - split_and!; [vm_compute; reflexivity|discriminate..].
  - exact demo_restart_ok.
  - exact demo_restart_intact.
Defined.

End genbuild.
