(* ===== verification/GenerationCustody.v ===== *)
(** * Durable custody of generations

    Models [go/internal/transportgeneration/custody_linux.go] (the transfer is teed into
    a provisional file while it is validated, then published under the name of the
    generation), [custody_read_linux.go] (the recorder's read of a custody object) and
    [custody_restart_linux.go] (what the receiver does with the directory when it
    starts). *)

From stdpp Require Import gmap.
From S2P Require Import Prelude GoBytes GoStrings Sha256 GoIO GoFS GoDir GoPublish Pki TransportEncoding TransportTrust TransportGeneration GenerationCanonical GenerationProtocol.

Module gencustody.
Import transportgeneration protocol.

Definition generationCustodyCompareBufferBytes : Z := 64 * 1024.
Definition generationCustodyIdentityDomain : bytes := bs "FI-GENERATION-CUSTODY-IDENTITY-V1".
Definition ErrGenerationCustodyConflict : error :=
  Sentinel "FI generation identity conflicts with existing durable custody bytes".

Inductive CustodyDisposition :=
| CustodyDispositionDuplicate
| CustodyDispositionExisting
| CustodyDispositionNew.

Record CustodyConfig := { Receive : ReceiveConfig; RootDir : bytes }.

Record CustodyResult := {
  Disposition : CustodyDisposition;
  Transfer : TransferResult;
  CustodyBytes : Z;
  CustodyPath : bytes;
  CustodySHA256 : bytes
}.

Definition generationCustodyObjectName (sourceID generationID : bytes) : bytes :=
  let hashed := generationCustodyIdentityDomain ++ PutUint64BE (len sourceID) ++ sourceID ++
                PutUint64BE (len generationID) ++ generationID in
  bs "generation-" ++ hex_encode (sha256 hashed) ++ bs ".figt".

Definition DurableCustodyObjectName (sourceID generationID : bytes) : bytes :=
  generationCustodyObjectName sourceID generationID.

Definition newGenerationCustodyResult (transfer : TransferResult) (finalPath : bytes)
    (disposition : CustodyDisposition) : CustodyResult := {|
  Disposition := disposition;
  Transfer := transfer;
  CustodyBytes := TransferBytes transfer;
  CustodyPath := finalPath;
  CustodySHA256 := TransferSHA256 transfer |}.

(** ** Comparing with an existing object *)

(** From the second [defer] on: both files are open. *)
Definition compareOpened (firstName secondName : bytes) (expectedSize : Z)
    (openedFirst secondInfo : FileInfo) (first second : nat) : prog dir bool :=
  let changedOpen := Errorf "provisional FI generation custody object changed while being opened" in
  let! openedSecond := instead changedOpen (Fstat second) in
  fail! negb (bool_decide (fi_ino secondInfo = fi_ino openedSecond)) with changedOpen ;;
  let! firstReader := file_reader first in
  let! secondReader := file_reader second in
  let! exact := lift (compareChunks generationCustodyCompareBufferBytes None None
                        (Z.to_nat expectedSize) expectedSize firstReader secondReader) in
  if negb exact then ret false
  else
    let changedFirst := Errorf "existing FI generation custody object changed during comparison" in
    let! currentFirst := instead changedFirst (Lstat firstName) in
    fail! negb (bool_decide (fi_ino openedFirst = fi_ino currentFirst)) ||
          negb (fi_perm currentFirst =? perm_0400) || negb (fi_size currentFirst =? expectedSize)
      with changedFirst ;;
    let changedSecond := Errorf "provisional FI generation custody object changed during comparison" in
    let! currentSecond := instead changedSecond (Lstat secondName) in
    fail! negb (bool_decide (fi_ino openedSecond = fi_ino currentSecond)) ||
          negb (fi_size currentSecond =? expectedSize)
      with changedSecond ;;
    ret true.

(** Between the two [defer]s. *)
Definition compareFirst (firstName secondName : bytes) (expectedSize : Z) (firstInfo : FileInfo)
    (first : nat) : prog dir bool :=
  let changed := Errorf "existing FI generation custody object changed while being opened" in
  let! openedFirst := instead changed (Fstat first) in
  fail! negb (bool_decide (fi_ino firstInfo = fi_ino openedFirst)) with changed ;;
  let! secondInfo := Lstat secondName in
  if negb (bool_decide (fi_kind secondInfo = Regular)) || negb (fi_size secondInfo =? expectedSize)
  then ret false
  else
    let! second := Open secondName in
    defer_close (compareOpened firstName secondName expectedSize openedFirst secondInfo first second).

Definition generationCustodyFilesExactlyEqual (firstName secondName : bytes) (expectedSize : Z)
  : prog dir bool :=
  let! firstInfo := wrap_err "inspect existing FI generation custody object: %w" (Lstat firstName) in
  if negb (bool_decide (fi_kind firstInfo = Regular)) || negb (fi_perm firstInfo =? perm_0400) ||
     negb (fi_size firstInfo =? expectedSize)
  then ret false
  else
    let! first := Open firstName in
    defer_close (compareFirst firstName secondName expectedSize firstInfo first).

(** A failed sync closes the directory and ignores the result. *)
Definition syncGenerationCustodyDirectory : prog dir unit :=
  check! syscall (ret tt) ;;
  check! or_close SyncDir ;;
  Close.

Section Custody.
Context `{Unicode} `{X509} `{Zstd} `{JSON SignedGeneration}.

Definition validateGenerationCustodyConfig (config : CustodyConfig) (root : RootState) : res unit :=
  fail? bool_decide (RootDir config = [])
    with Errorf "FI generation durable custody root directory is required" ;;
  fail? negb (filepath_IsAbs (RootDir config))
    with Errorf "FI generation durable custody root directory must be absolute" ;;
  check? wrap "validate FI generation receiver config: %w" (validateReceiveConfig (Receive config)) ;;
  let? resolvedRoot := wrap "resolve FI generation durable custody root directory: %w" (EvalSymlinks root) in
  fail? negb (bool_decide (filepath_Clean resolvedRoot = filepath_Clean (RootDir config)))
    with Errorf "FI generation durable custody root directory path must not traverse symlinks" ;;
  let? info := wrap "inspect FI generation durable custody root directory: %w" (RootInfo root) in
  fail? bool_decide (fi_kind info = Symlink)
    with Errorf "FI generation durable custody root directory must not be a symlink" ;;
  fail? negb (bool_decide (fi_kind info = Directory))
    with Errorf "FI generation durable custody root path must be a directory" ;;
  fail? negb (Z.land (fi_perm info) 18 =? 0)
    with Errorf "FI generation durable custody root directory must not be group- or other-writable: mode=%04o" ;;
  Ok tt.

(** ** Receiving *)

(** [ReadValidatedTransfer] on the stream alone. *)
Definition readStream (offer : Offer) (config : ReceiveConfig) : prog reader TransferResult := fun r =>
  let '(result, (_, r)) := ReadValidatedTransfer offer config (tt, r) in (result, r).

(** Validation over [io.TeeReader(reader, io.MultiWriter(provisional, hasher, counter))]
    and the comparison of what was teed with the validated transfer. *)
Definition teeTransfer (offer : Offer) (config : CustodyConfig) (provisional : nat)
  : prog (reader * dir) TransferResult :=
  let! (transfer, teed) := wrap_err "validate FI generation before durable custody: %w"
                             (tee_file provisional (readStream offer (Receive config))) in
  fail! negb (len teed =? TransferBytes transfer)
    with Errorf "FI generation provisional custody byte count does not match validated transfer" ;;
  fail! negb (bool_decide (sha256_hex teed = TransferSHA256 transfer))
    with Errorf "FI generation provisional custody SHA-256 does not match validated transfer" ;;
  ret transfer.

Definition custodyMessages : link_messages := {|
  lm_publish := "publish FI generation durable custody object: %w";
  lm_remove_duplicate := "remove duplicate/conflicting provisional FI generation custody object: %w";
  lm_sync_duplicate := "sync FI generation custody directory after identity collision: %w";
  lm_remove := "remove provisional FI generation custody name after publication: %w";
  lm_sync := "sync FI generation durable custody directory: %w" |}.

(** After validation. The provisional name is that of the regular file just written, so
    [os.Stat] of it is [Lstat]. *)
Definition custodyBody (config : CustodyConfig) (provisionalName : bytes) (provisional : nat)
    (transfer : TransferResult) : prog publish_state CustodyResult :=
  check! sealProvisional "make provisional FI generation custody object read-only: %w"
           "sync provisional FI generation custody object: %w"
           "close provisional FI generation custody object: %w" provisional ;;
  let! info := on_dir (wrap_err "stat provisional FI generation custody object: %w" (Lstat provisionalName)) in
  fail! negb (bool_decide (fi_kind info = Regular)) || negb (fi_perm info =? perm_0400)
    with Errorf "provisional FI generation custody object must be a read-only regular file" ;;
  fail! (fi_size info <=? 0) || negb (u64 (fi_size info) =? TransferBytes transfer)
    with Errorf "provisional FI generation custody object size does not match validated transfer" ;;
  let finalName := generationCustodyObjectName (SourceID (ResultDescriptor transfer))
                     (GenerationID (ResultDescriptor transfer)) in
  let finalPath := filepath_Join (RootDir config) finalName in
  publishByLink custodyMessages
    (generationCustodyFilesExactlyEqual finalName provisionalName (fi_size info))
    syncGenerationCustodyDirectory
    (Wrap "%w: source=%q generation=%q path=%s" ErrGenerationCustodyConflict)
    provisionalName finalName
    (newGenerationCustodyResult transfer finalPath CustodyDispositionDuplicate)
    (newGenerationCustodyResult transfer finalPath CustodyDispositionNew).

Definition ReceiveToDurableCustody (offer : Offer) (config : CustodyConfig) (root : RootState)
  : prog (reader * dir) CustodyResult := fun '(r, d) =>
  match validateGenerationCustodyConfig config root with
  | Ok _ =>
      match wrap_err "create provisional FI generation custody object: %w"
              (CreateTemp (bs ".fi-generation-custody-") (bs ".open")) d with
      | (Ok (provisionalName, provisional), d) =>
          let '(teed, (r, d)) := teeTransfer offer config provisional (r, d) in
          let '(result, s) :=
            (let! transfer := lift teed in custodyBody config provisionalName provisional transfer)
              (PS d true true) in
          (result, (r, publishDefer provisionalName s))
      | (Err e, d) => (Err e, (r, d))
      | (Panic, d) => (Panic, (r, d))
      end
  | Err e => (Err e, (r, d))
  | Panic => (Panic, (r, d))
  end.

(** ** Reading custody back: [custody_read_linux.go] *)

Definition validateGenerationCustodyFileInfo (info : FileInfo) (expectedBytes : Z) : res unit :=
  fail? bool_decide (fi_kind info = Symlink) || negb (bool_decide (fi_kind info = Regular)) ||
        negb (fi_perm info =? perm_0400)
    with Errorf "FI generation durable custody object must be a read-only regular file" ;;
  fail? (fi_size info <=? 0) || negb (u64 (fi_size info) =? expectedBytes)
    with Errorf "FI generation durable custody object size does not match validated transfer" ;;
  Ok tt.

(** The offer of a transfer that was accepted before. *)
Definition offer_of (transfer : TransferResult) : Offer := {|
  OfferVersionText := OfferVersion;
  OfferDescriptor := ResultDescriptor transfer;
  OfferMetadataBytes := MetadataBytes transfer;
  OfferMetadataSHA256 := MetadataSHA256 transfer |}.

(** The size of a transfer from its parts, without wrap-around. *)
Definition transferSize (overflow : string) (metadataBytes payloadBytes : Z) : res Z :=
  let expectedTransferBytes := transferHeaderBytes in
  fail? max_u64 - expectedTransferBytes <? metadataBytes with Errorf overflow ;;
  let expectedTransferBytes := u64 (expectedTransferBytes + metadataBytes) in
  fail? max_u64 - expectedTransferBytes <? payloadBytes with Errorf overflow ;;
  Ok (u64 (expectedTransferBytes + payloadBytes)).

Definition validateGenerationCustodyResult (custody : CustodyResult) (root : bytes) : res unit :=
  let transfer := Transfer custody in
  let descriptor := ResultDescriptor transfer in
  check? wrap "validate FI generation durable custody descriptor: %w" (Validate descriptor) ;;
  check? wrap "validate FI generation durable custody metadata identity: %w"
           (Offer_Validate (offer_of transfer)) ;;
  fail? negb (PayloadBytes transfer =? EncodedDataBytes descriptor) ||
        negb (bool_decide (PayloadSHA256 transfer = EncodedDataSHA256 descriptor))
    with Errorf "FI generation durable custody payload identity does not match descriptor" ;;
  check? validateSHA256 "transfer SHA-256" (TransferSHA256 transfer) ;;
  let? expectedTransferBytes := transferSize "FI generation durable custody transfer byte count overflow"
                                  (MetadataBytes transfer) (PayloadBytes transfer) in
  fail? negb (TransferBytes transfer =? expectedTransferBytes) ||
        negb (CustodyBytes custody =? TransferBytes transfer)
    with Errorf "FI generation durable custody byte count is inconsistent" ;;
  check? validateSHA256 "custody SHA-256" (CustodySHA256 custody) ;;
  fail? negb (bool_decide (CustodySHA256 custody = TransferSHA256 transfer))
    with Errorf "FI generation durable custody SHA-256 does not match validated transfer" ;;
  let expectedPath := filepath_Join root (generationCustodyObjectName (SourceID descriptor)
                                            (GenerationID descriptor)) in
  fail? negb (bool_decide (filepath_Clean (CustodyPath custody) = filepath_Clean expectedPath))
    with Errorf "FI generation durable custody path does not match configured custody identity" ;;
  Ok tt.

(** The pass over an open custody object up to [file.Close]: the transfer is read and
    validated, one more byte is tried, the file is closed; then the three errors are
    looked at in this order. *)
Definition readOpened {Hs} (revalidate trailing close : string) (offer : Offer) (config : CustodyConfig)
    (handler : canonical.handler_fn Hs) (file : nat) : prog (Hs * dir) TransferResult := fun '(h, d) =>
  match file_reader file d with
  | (Ok r, d) =>
      let '(transfer, (h, r)) := readValidatedTransfer offer (Receive config) (Some handler) (h, r) in
      let '(closed, d) := Close d in
      ((let? transfer := wrap revalidate transfer in
        fail? negb (bool_decide (rd_data r = [])) || negb (errors_Is (rd_end r) EOF) with Errorf trailing ;;
        check? wrap close closed ;;
        Ok transfer), (h, d))
  | (Err e, d) => (Err e, (h, d))
  | (Panic, d) => (Panic, (h, d))
  end.

(** The object is in the custody directory, under the name of its generation. *)
Definition ReadDurableCustodyArtifacts {Hs} (custody : CustodyResult) (config : CustodyConfig)
    (root : RootState) (handler : canonical.handler_fn Hs) : prog (Hs * dir) TransferResult :=
  check! lift (validateGenerationCustodyConfig config root) ;;
  check! lift (validateGenerationCustodyResult custody (RootDir config)) ;;
  let name := generationCustodyObjectName (SourceID (ResultDescriptor (Transfer custody)))
                (GenerationID (ResultDescriptor (Transfer custody))) in
  let! before := on_snd (wrap_err "inspect FI generation durable custody object: %w" (Lstat name)) in
  check! lift (validateGenerationCustodyFileInfo before (TransferBytes (Transfer custody))) ;;
  let! file := on_snd (wrap_err "open FI generation durable custody object: %w" (Open name)) in
  check! on_snd (or_close (
    let! opened := wrap_err "stat opened FI generation durable custody object: %w" (Fstat file) in
    fail! negb (bool_decide (fi_ino before = fi_ino opened))
      with Errorf "FI generation durable custody object changed while being opened" ;;
    ret tt)) ;;
  let! transfer := readOpened "revalidate FI generation durable custody transfer: %w"
    "FI generation durable custody object contains trailing transfer bytes"
    "close FI generation durable custody object: %w" (offer_of (Transfer custody)) config handler file in
  fail! negb (bool_decide (transfer = Transfer custody))
    with Errorf "FI generation durable custody transfer identity changed during recorder read" ;;
  let! after := on_snd (wrap_err "reinspect FI generation durable custody object: %w" (Lstat name)) in
  fail! negb (bool_decide (fi_ino before = fi_ino after))
    with Errorf "FI generation durable custody object changed during recorder read" ;;
  check! lift (validateGenerationCustodyFileInfo after (TransferBytes (Transfer custody))) ;;
  ret transfer.

(** ** Restart: [custody_restart_linux.go] *)

Definition generationCustodyFinalPrefix : bytes := bs "generation-".
Definition generationCustodyFinalSuffix : bytes := bs ".figt".
Definition generationCustodyProvisionalPrefix : bytes := bs ".fi-generation-custody-".
Definition generationCustodyProvisionalSuffix : bytes := bs ".open".

Record DiscoveredCustody := { DiscoveredBytes : Z; DiscoveredPath : bytes }.
Record CustodyRecoveryResult := { Objects : list DiscoveredCustody; RemovedProvisional : Z }.

Definition isGenerationCustodyFinalName (name : bytes) : bool :=
  if negb (HasPrefix name generationCustodyFinalPrefix) || negb (HasSuffix name generationCustodyFinalSuffix)
  then false
  else
    let hexValue := TrimSuffix (TrimPrefix name generationCustodyFinalPrefix) generationCustodyFinalSuffix in
    if negb (len hexValue =? 64) || negb (bool_decide (ToLower hexValue = hexValue)) then false
    else match hex_decode hexValue with Ok decoded => len decoded =? 32 | _ => false end.

Definition isGenerationCustodyProvisionalName (name : bytes) : bool :=
  HasPrefix name generationCustodyProvisionalPrefix && HasSuffix name generationCustodyProvisionalSuffix.

(** The loop over the entries: the objects found and the provisional names. *)
Fixpoint inspectEntries (root : bytes) (entries : list bytes) : prog dir (list DiscoveredCustody * list bytes) :=
  match entries with
  | [] => ret ([], [])
  | name :: entries =>
      let! info := wrap_err "inspect FI generation custody restart entry %q: %w" (Lstat name) in
      if isGenerationCustodyProvisionalName name then
        fail! bool_decide (fi_kind info = Symlink) || negb (bool_decide (fi_kind info = Regular))
          with Errorf "FI generation provisional custody restart entry %q must be a regular file" ;;
        let! (objects, provisional) := inspectEntries root entries in
        ret (objects, name :: provisional)
      else
        fail! negb (isGenerationCustodyFinalName name)
          with Errorf "unexpected FI generation custody restart entry %q" ;;
        fail! bool_decide (fi_kind info = Symlink) || negb (bool_decide (fi_kind info = Regular)) ||
              negb (fi_perm info =? perm_0400)
          with Errorf "FI generation custody restart object %q must be a read-only regular file" ;;
        fail! fi_size info <=? transferHeaderBytes
          with Errorf "FI generation custody restart object %q is too small" ;;
        let! (objects, provisional) := inspectEntries root entries in
        ret ({| DiscoveredBytes := u64 (fi_size info); DiscoveredPath := filepath_Join root name |} :: objects,
             provisional)
  end.

(** The loop over the provisional names; returns how many were removed. *)
Fixpoint removeProvisionals (provisional : list bytes) (removed : Z) : prog dir Z :=
  match provisional with
  | [] => ret removed
  | name :: provisional =>
      check! wrap_err "remove abandoned FI generation provisional custody entry %q: %w" (Remove name) ;;
      removeProvisionals provisional (u64 (removed + 1))
  end.

Definition RecoverDurableCustodyRoot (config : CustodyConfig) (root : RootState) : prog dir CustodyRecoveryResult :=
  check! lift (validateGenerationCustodyConfig config root) ;;
  let! entries := wrap_err "read FI generation durable custody root: %w" ReadDir in
  let! (objects, provisional) := inspectEntries (RootDir config) entries.*1 in
  let! removed := removeProvisionals provisional 0 in
  check! (if negb (removed =? 0)
          then wrap_err "sync FI generation custody root after restart cleanup: %w" syncGenerationCustodyDirectory
          else ret tt) ;;
  ret {| Objects := objects; RemovedProvisional := removed |}.

(** The offer is recovered from the header and the metadata of the object. *)
Definition readDiscoveredCustodyOffer (discovered : DiscoveredCustody) : prog reader Offer :=
  let! header := wrap_err "read discovered FI generation transfer header: %w" (ReadFull transferHeaderBytes) in
  fail! negb (bool_decide (sub 0 8 header = TransferMagic))
    with Errorf "unexpected discovered FI generation transfer magic" ;;
  let metadataBytes := be_get (sub 8 12 header) in
  let payloadBytes := be_get (sub 12 20 header) in
  fail! (metadataBytes =? 0) || (maxSignedGenerationMetadataBytes <? metadataBytes)
    with Errorf "discovered FI generation metadata byte count is outside bounds" ;;
  let! expectedBytes := lift (transferSize "discovered FI generation transfer byte count overflow"
                                metadataBytes payloadBytes) in
  fail! negb (expectedBytes =? DiscoveredBytes discovered)
    with Errorf "discovered FI generation custody size does not match wire framing" ;;
  let! metadata := wrap_err "read discovered FI generation signed metadata: %w" (ReadFull metadataBytes) in
  let! signed := lift (wrap "validate discovered FI generation signed metadata: %w"
                         (UnmarshalSignedGeneration metadata)) in
  fail! negb (payloadBytes =? EncodedDataBytes (SignedDescriptor signed))
    with Errorf "discovered FI generation payload byte count does not match signed descriptor" ;;
  let offer := {| OfferVersionText := OfferVersion; OfferDescriptor := SignedDescriptor signed;
                  OfferMetadataBytes := metadataBytes; OfferMetadataSHA256 := sha256_hex metadata |} in
  check! lift (wrap "validate discovered FI generation offer identity: %w" (Offer_Validate offer)) ;;
  ret offer.

Definition validateDiscoveredCustody (discovered : DiscoveredCustody) (root : bytes) : res unit :=
  fail? bool_decide (DiscoveredPath discovered = [])
    with Errorf "FI generation discovered custody path is required" ;;
  fail? DiscoveredBytes discovered <=? transferHeaderBytes
    with Errorf "FI generation discovered custody byte count is outside bounds" ;;
  fail? negb (filepath_IsAbs (DiscoveredPath discovered))
    with Errorf "FI generation discovered custody path must be absolute" ;;
  fail? negb (bool_decide (filepath_Clean (filepath_Dir (DiscoveredPath discovered)) = filepath_Clean root))
    with Errorf "FI generation discovered custody path is outside configured custody root" ;;
  fail? negb (isGenerationCustodyFinalName (filepath_Base (DiscoveredPath discovered)))
    with Errorf "FI generation discovered custody filename is invalid" ;;
  Ok tt.

(** From [file.Stat] to the creation of the handler; an error closes the file. *)
Definition openDiscovered {Hs} (discovered : DiscoveredCustody) (factory : Descriptor -> res Hs)
    (before : FileInfo) (file : nat) : prog dir (Offer * Hs) :=
  let! opened := wrap_err "stat opened discovered FI generation custody object: %w" (Fstat file) in
  fail! negb (bool_decide (fi_ino before = fi_ino opened))
    with Errorf "discovered FI generation custody object changed while being opened" ;;
  let! r := file_reader file in
  let! offer := lift (readDiscoveredCustodyOffer discovered r).1 in
  let expectedName := generationCustodyObjectName (SourceID (OfferDescriptor offer))
                        (GenerationID (OfferDescriptor offer)) in
  fail! negb (bool_decide (filepath_Base (DiscoveredPath discovered) = expectedName))
    with Errorf "discovered FI generation custody filename does not match signed generation identity" ;;
  check! wrap_err "rewind discovered FI generation custody object: %w" (syscall (ret tt)) ;;
  let! h := lift (wrap "create FI generation discovered custody artifact handler: %w"
                    (factory (OfferDescriptor offer))) in
  ret (offer, h).

(** [factory] creates the state of the handler; the handler itself is [consume]. *)
Definition ReadDiscoveredDurableCustodyArtifacts {Hs} (discovered : DiscoveredCustody) (config : CustodyConfig)
    (root : RootState) (factory : Descriptor -> res Hs) (consume : canonical.handler_fn Hs)
  : prog dir (CustodyResult * Hs) :=
  check! lift (validateGenerationCustodyConfig config root) ;;
  check! lift (validateDiscoveredCustody discovered (RootDir config)) ;;
  let name := filepath_Base (DiscoveredPath discovered) in
  let! before := wrap_err "inspect discovered FI generation custody object: %w" (Lstat name) in
  check! lift (validateGenerationCustodyFileInfo before (DiscoveredBytes discovered)) ;;
  let! file := wrap_err "open discovered FI generation custody object: %w" (Open name) in
  let! (offer, h) := or_close (openDiscovered discovered factory before file) in
  let! (transfer, h) := (fun d =>
    let '(result, (h, d)) := readOpened "revalidate discovered FI generation custody transfer: %w"
      "discovered FI generation custody object contains trailing transfer bytes"
      "close discovered FI generation custody object: %w" offer config consume file (h, d) in
    ((let? transfer := result in Ok (transfer, h)), d)) in
  fail! negb (TransferBytes transfer =? DiscoveredBytes discovered)
    with Errorf "discovered FI generation custody byte count changed during recorder read" ;;
  let! after := wrap_err "reinspect discovered FI generation custody object: %w" (Lstat name) in
  fail! negb (bool_decide (fi_ino before = fi_ino after))
    with Errorf "discovered FI generation custody object changed during recorder read" ;;
  check! lift (validateGenerationCustodyFileInfo after (DiscoveredBytes discovered)) ;;
  ret (newGenerationCustodyResult transfer (DiscoveredPath discovered) CustodyDispositionExisting, h).

End Custody.
End gencustody.
