(* ===== verification/GenerationStore.v ===== *)
(** * The generation custody directory

    Theorems about [gencustody]: what reception, the recorder's reads and restart
    recovery do to the custody directory under every fault schedule, that it implements
    a write-once store, and that what was taken into custody can be read back. *)

From stdpp Require Import gmap.
From S2P Require Import Prelude GoBytes GoStrings Sha256 GoIO GoFS GoDir GoPublish Pki TransportEncoding TransportTrust TransportGeneration GenerationCanonical GenerationProtocol GenerationTransfer GenerationCustody.

Module genstore.
Import transportgeneration protocol gencustody.

(** The names of custody objects. *)
Definition generation_name (n : bytes) : bool :=
  HasPrefix n generationCustodyFinalPrefix && HasSuffix n generationCustodyFinalSuffix.

Lemma generationCustodyObjectName_object s g : generation_name (generationCustodyObjectName s g) = true.
Proof.
  unfold generation_name, generationCustodyObjectName. rewrite (proj2 (HasPrefix_spec _ _)) by eauto.
  rewrite (proj2 (HasSuffix_spec _ _)); [done|]. eexists. by rewrite app_assoc.
Qed.

Lemma provisional_no_generation k :
  generation_name (temp_name generationCustodyProvisionalPrefix generationCustodyProvisionalSuffix k) = false.
Proof. done. Qed.

Definition generations : publication := {|
  object_name := generation_name;
  temp_prefix := generationCustodyProvisionalPrefix;
  temp_suffix := generationCustodyProvisionalSuffix;
  temp_not_object := provisional_no_generation |}.

#[local] Opaque generationCustodyObjectName.

(** Read-only calls end here when one fails. *)
Ltac failed := do 2 eexists; split; [reflexivity|done].

Section Publish.
Context (I : gmap nat inode) (ino : nat).

#[local] Abbreviation St := (GoDir.St I ino).

Lemma syncGenerationCustodyDirectory_St n m nd fs :
  exists fs', syncGenerationCustodyDirectory (St n m nd fs) = (Ok tt, St n n nd fs') \/
    (exists e m', (m' = m \/ m' = n) /\
      syncGenerationCustodyDirectory (St n m nd fs) = (Err e, St n m' nd fs')).
Proof.
  unfold syncGenerationCustodyDirectory, SyncDir, or_close, bind.
  destruct (syscall_St I ino (ret tt) n m nd fs) as (f1 & [-> | ->]).
  { exists f1. right. exists EIO, m. split; [by left|done]. }
  cbn [ret].
  destruct (syscall_St I ino (fun d => (Ok tt, set_durable (names d) d)) n m nd f1) as (f2 & [-> | ->]).
  - destruct (close_St I ino n m nd f2) as (f3 & [-> | ->]); exists f3; right; exists EIO, m; (split; [by left|done]).
  - change (set_durable (names (St n m nd f2)) (St n m nd f2)) with (St n n nd f2).
    destruct (close_St I ino n n nd f2) as (f3 & [-> | ->]); exists f3; [right|by left].
    exists EIO, n. split; [by right|done].
Qed.

Context (n m : gmap bytes nat) (nd : inode) (prov final : bytes) (j : nat) (ndj : inode).
Hypothesis prov_at : n !! prov = Some ino.
Hypothesis final_at : n !! final = Some j.
Hypothesis j_at : I !! j = Some ndj.
Hypothesis ino_fresh : I !! ino = None.

(** The comparison reads, and reports equality only of equal contents. *)
Definition compared (r : res bool) : Prop :=
  match r with
  | Ok true => i_data ndj = i_data nd
  | Ok false | Err _ => True
  | Panic => False
  end.

Lemma at_j : <[ino := nd]> I !! j = Some ndj.
Proof. rewrite lookup_insert_ne; [done|]. intros ->. congruence. Qed.

Lemma at_ino : <[ino := nd]> I !! ino = Some nd.
Proof. apply lookup_insert_eq. Qed.

Lemma compareOpened_reads : len (i_data ndj) = len (i_data nd) ->
  reads_only I ino (compareOpened final prov (len (i_data nd)) (info_of j ndj) (info_of ino nd) j ino)
    n m nd compared.
Proof.
  intros Hl fs. unfold compareOpened, instead, bind.
  destruct (Fstat_St I ino n m nd fs ino nd at_ino) as (f1 & [-> | ->]); [failed|]. cbn.
  rewrite bool_decide_eq_true_2 by done. cbn.
  destruct (file_reader_St I ino n m nd f1 j ndj at_j) as (f2 & r1 & -> & Hr1).
  destruct (file_reader_St I ino n m nd f2 ino nd at_ino) as (f3 & r2 & -> & Hr2). cbn.
  pose proof (compareChunks_files generationCustodyCompareBufferBytes None None ltac:(done) r1 r2 _ _ Hr1 Hr2
    ltac:(unfold len in Hl; lia)) as Hx.
  destruct (compareChunks _ _ _ _ _ r1 r2) as [[]|e|]; [|failed|failed|done]. cbn.
  destruct (Lstat_St I ino n m nd f3 final j ndj final_at at_j) as (f4 & [-> | ->]); [failed|]. cbn.
  destruct (_ || _); [failed|].
  destruct (Lstat_St I ino n m nd f4 prov ino nd prov_at at_ino) as (f5 & [-> | ->]); [failed|]. cbn.
  destruct (_ || _); [failed|]. do 2 eexists. split; [reflexivity|]. exact Hx.
Qed.

Lemma compareFirst_reads : len (i_data ndj) = len (i_data nd) ->
  reads_only I ino (compareFirst final prov (len (i_data nd)) (info_of j ndj) j) n m nd compared.
Proof.
  intros Hl fs. unfold compareFirst, instead, bind.
  destruct (Fstat_St I ino n m nd fs j ndj at_j) as (f1 & [-> | ->]); [failed|]. cbn.
  rewrite bool_decide_eq_true_2 by done. cbn.
  destruct (Lstat_St I ino n m nd f1 prov ino nd prov_at at_ino) as (f2 & [-> | ->]); [failed|]. cbn.
  destruct (_ || _); [failed|].
  destruct (Open_St I ino n m nd f2 prov ino prov_at) as (f3 & [-> | ->]); [failed|].
  apply (defer_close_reads I ino _ n m nd compared (compareOpened_reads Hl)).
Qed.

Lemma filesExactlyEqual_reads :
  reads_only I ino (generationCustodyFilesExactlyEqual final prov (len (i_data nd))) n m nd compared.
Proof.
  intros fs. unfold generationCustodyFilesExactlyEqual, wrap_err, bind.
  destruct (Lstat_St I ino n m nd fs final j ndj final_at at_j) as (f1 & [-> | ->]); [failed|].
  cbn [wrap info_of fi_kind fi_perm fi_size]. destruct (_ || _) eqn:Eb; [failed|]. bool_hyps.
  destruct (Open_St I ino n m nd f1 final j final_at) as (f2 & [-> | ->]); [failed|].
  apply (defer_close_reads I ino _ n m nd compared). apply compareFirst_reads. lia.
Qed.

End Publish.

(** ** Reception *)

Section Receive.
Context `{Unicode} `{X509} `{Zstd} `{JSON SignedGeneration} `{!ZstdLaws}.

(** What a transfer that was accepted for an offer consists of; [fs] are the artifacts in
    its payload. *)
Definition transfers (offer : Offer) (config : ReceiveConfig) (wire : bytes) (transfer : TransferResult)
    (fs : list (bytes * list bytes)) : Prop :=
  admitTransfer offer config = Ok tt /\
  exists metadata payload,
    len metadata = OfferMetadataBytes offer /\ sha256_hex metadata = OfferMetadataSHA256 offer /\
    trusted_metadata offer config metadata /\ valid_payload (OfferDescriptor offer) payload fs /\
    transfer = transfer_result offer metadata payload /\ wire = transfer_wire metadata payload /\
    trustMetadata offer config metadata = Ok tt.
Definition valid_transfer (offer : Offer) (config : ReceiveConfig) (wire : bytes) (transfer : TransferResult) : Prop :=
  exists fs, transfers offer config wire transfer fs.

Lemma readStream_valid offer config r transfer r' :
  readStream offer config r = (Ok transfer, r') ->
  exists wire, valid_transfer offer config wire transfer /\ rd_data r = wire ++ rd_data r' /\
    TransferBytes transfer = len wire /\ TransferSHA256 transfer = sha256_hex wire /\
    ResultDescriptor transfer = OfferDescriptor offer.
Proof.
  unfold readStream, ReadValidatedTransfer.
  destruct (readValidatedTransfer offer config None (tt, r)) as [result [[] r1]] eqn:Er. intros [= -> ->].
  apply (readValidatedTransfer_steps offer config None (fun _ _ _ _ => True)) in Er
    as (Ha & metadata & payload & fs & Hl & Hs & Ht & Hv & -> & Hd & _ & _ & Htm); [|by intros [] ? ?].
  exists (transfer_wire metadata payload). split; [|done]. exists fs. split; [done|]. by exists metadata, payload.
Qed.

Lemma teeTransfer_cases offer config r I ino n m nd fs :
  i_data nd = [] ->
  exists fs' teed r' result,
    teeTransfer offer config ino (r, St I ino n m nd fs) =
      (result, (r', St I ino n m (Inode (i_kind nd) (i_perm nd) teed false) fs')) /\
    match result with
    | Ok transfer => valid_transfer offer (Receive config) teed transfer /\ rd_data r = teed ++ rd_data r' /\
        TransferBytes transfer = len teed /\ TransferSHA256 transfer = sha256_hex teed /\
        ResultDescriptor transfer = OfferDescriptor offer
    | _ => True
    end.
Proof.
  intros Hnd. unfold teeTransfer, wrap_err, bind.
  destruct (tee_cases I ino (readStream offer (Receive config)) r n m nd fs) as
    (f1 & f & teed & r' & result & src' & -> & _ & Hp & Hok). rewrite Hnd. cbn [app].
  destruct result as [transfer|e|]; cbn; [|by do 4 eexists..].
  destruct (negb _) eqn:E1; [by do 4 eexists|]. destruct (negb (bool_decide _)) eqn:E2; [by do 4 eexists|].
  do 4 eexists. split; [reflexivity|]. cbn.
  apply readStream_valid in Hp as (wire & Hv & Hd & Hrest). destruct (Hok wire Hd) as (-> & Hr & _). done.
Qed.

(** The names and results of one call. *)
Definition final_name (transfer : TransferResult) : bytes :=
  generationCustodyObjectName (SourceID (ResultDescriptor transfer)) (GenerationID (ResultDescriptor transfer)).
Definition result_for (config : CustodyConfig) (transfer : TransferResult) (disposition : CustodyDisposition) :=
  newGenerationCustodyResult transfer (filepath_Join (RootDir config) (final_name transfer)) disposition.

Lemma generation_body_cases config prov transfer N D I ino teed fs :
  N !! prov = None -> prov <> final_name transfer -> I !! ino = None ->
  (forall name j, N !! name = Some j -> is_Some (I !! j)) ->
  exists n m nd fs' op keep result,
    custodyBody config prov ino transfer
      (PS (St I ino (<[prov := ino]> N) D (Inode Regular 384 teed false) fs) true true) =
      (result, PS (St I ino n m nd fs') op keep) /\
    i_kind nd = Regular /\ result <> Panic /\
    ((nd = Inode Regular perm_0400 teed true /\ (forall v, result = Ok v -> op = false) /\
      linked N D I ino prov (final_name transfer) (result_for config transfer CustodyDispositionDuplicate)
        (result_for config transfer CustodyDispositionNew) nd result n m keep) \/
     (leftover D ino prov N n m /\ forall v, result <> Ok v)).
Proof.
  intros HN Hpf HI Hwf. set (final := final_name transfer) in *.
  assert (leftover D ino prov N (<[prov := ino]> N) D) as Hleft by (split; [by right|by left]).
  unfold custodyBody, bind at 1.
  match goal with |- context [sealProvisional ?a ?b ?c] =>
    destruct (seal_cases I ino a b c (Inode Regular 384 teed false) (<[prov := ino]> N) D fs true true) as
      (f2 & nd2 & [u2|e|] & op & -> & Hk2 & Hd2 & Hs) end; [| |done].
  2: do 7 eexists; split_and!; [reflexivity|done|done|by right].
  destruct Hs as [-> ->]. cbn [i_kind i_data]. set (nd := Inode Regular perm_0400 teed true).
  unfold bind, on_dir at 1, wrap_err. cbn [ps_dir provisionalOpen keepProvisional].
  destruct (Lstat_St I ino (<[prov := ino]> N) D nd f2 prov ino nd) as (f3 & [-> | ->]);
    [apply lookup_insert_eq|apply lookup_insert_eq|..].
  { do 7 eexists; split_and!; [reflexivity|done|done|by right]. }
  cbn [wrap info_of fi_kind fi_perm fi_size i_kind i_perm i_data nd].
  destruct (_ || _); [do 7 eexists; split_and!; [reflexivity|done|done|by right]|].
  destruct (_ || _); [do 7 eexists; split_and!; [reflexivity|done|done|by right]|].
  fold (final_name transfer). fold final. fold (result_for config transfer CustodyDispositionDuplicate).
  fold (result_for config transfer CustodyDispositionNew).
  destruct (publishByLink_cases N D I ino prov final HN Hpf Hwf
    (result_for config transfer CustodyDispositionDuplicate) (result_for config transfer CustodyDispositionNew)
    custodyMessages (generationCustodyFilesExactlyEqual final prov (len teed)) syncGenerationCustodyDirectory
    (Wrap "%w: source=%q generation=%q path=%s" ErrGenerationCustodyConflict) nd) with (fs := f3) (op := false)
    as (n & m & f4 & keep & result & E & Hl).
  - intros j ndj Hj Hij fs0.
    destruct (filesExactlyEqual_reads I ino (<[prov := ino]> N) D nd prov final j ndj) with (fs := fs0)
      as (f5 & r5 & E5 & H5); [apply lookup_insert_eq|by rewrite lookup_insert_ne|done|done|].
    exists f5, r5. split; [exact E5|]. by destruct r5 as [[]| |].
  - intros n' m' fs'. apply syncGenerationCustodyDirectory_St.
  - do 7 eexists. split; [exact E|]. split; [done|].
    split; [by destruct result|]. left. done.
Qed.

(** What a successful reception returns and leaves. *)
Definition received (offer : Offer) (config : CustodyConfig) (r r' : reader) (v : CustodyResult)
    (wire : bytes) : Prop :=
  exists transfer, valid_transfer offer (Receive config) wire transfer /\
    rd_data r = wire ++ rd_data r' /\ TransferBytes transfer = len wire /\
    TransferSHA256 transfer = sha256_hex wire /\ ResultDescriptor transfer = OfferDescriptor offer /\
    v = result_for config transfer (Disposition v) /\ Disposition v <> CustodyDispositionExisting.

Lemma generation_reception_cases offer config root r d :
  wf d ->
  exists result r' d', ReceiveToDurableCustody offer config root (r, d) = (result, (r', d')) /\
    ((exists fs', d' = set_faults fs' d /\ (forall v, result <> Ok v)) \/
     exists k nd, effect generations d d' (provisional_name generations k) nd /\
       forall v, result = Ok v -> exists wire, received offer config r r' v wire /\
         published (result_for config (Transfer v) CustodyDispositionDuplicate)
           (result_for config (Transfer v) CustodyDispositionNew) (final_name (Transfer v)) wire d d' nd v).
Proof.
  intros Hwf. pose proof Hwf as (W1 & W2 & W3). unfold ReceiveToDurableCustody.
  destruct (validateGenerationCustodyConfig config root) as [u|e|].
  2,3: do 3 eexists; (split; [reflexivity|]); left; exists (faults d); by destruct d.
  unfold wrap_err.
  destruct (CreateTemp_cases (bs ".fi-generation-custody-") (bs ".open") d) as (f1 & [[e E]|(k & HN & E)]);
    rewrite E; cbn [wrap].
  { do 3 eexists. split; [reflexivity|]. left. by exists f1. }
  change (temp_name (bs ".fi-generation-custody-") (bs ".open") k) with (provisional_name generations k) in *.
  set (prov := provisional_name generations k) in *.
  assert (inodes d !! next_ino d = None) as HI.
  { destruct (inodes d !! next_ino d) eqn:Ei; [|done].
    specialize (W3 (next_ino d) ltac:(by rewrite Ei)). lia. }
  destruct (teeTransfer_cases offer config r (inodes d) (next_ino d) (<[prov := next_ino d]> (names d)) (durable d)
    (Inode Regular 384 [] false) f1 eq_refl) as (f2 & teed & r' & result & -> & Hres).
  unfold bind, lift. cbn [i_kind i_perm]. destruct result as [transfer|e|].
  2,3: do 3 eexists; (split; [reflexivity|]); right; eexists k, _; (split; [|done]);
    eapply (failed_effect generations d k); [done| |left; split; [by right|by left]]; done.
  destruct Hres as (Hv & Hr & Hb & Hsha & Hdesc).
  assert (prov <> final_name transfer) as Hpf.
  { intros Ep. pose proof (provisional_not_object generations k) as Hno. fold prov in Hno.
    rewrite Ep in Hno. unfold final_name in Hno. cbn in Hno. by rewrite generationCustodyObjectName_object in Hno. }
  destruct (generation_body_cases config prov transfer (names d) (durable d) (inodes d) (next_ino d) teed f2 HN Hpf HI W1)
    as (n & m & nd & f3 & op & keep & result & -> & Hkind & Hnp & Hx).
  do 3 eexists. split; [reflexivity|]. right. exists k, nd.
  change (publishDefer prov (PS (St (inodes d) (next_ino d) n m nd f3) op keep)) with
    (cleanup prov op keep (St (inodes d) (next_ino d) n m nd f3)).
  destruct Hx as [(-> & Hop & Hl)|(Hl & Hno)].
  2: { split; [|intros v ->; by destruct (Hno v)]. apply (failed_effect generations d k); auto. }
  destruct (linked_effect generations _ _ d k _ _ result n m f3 op keep Hwf HN
    (generationCustodyObjectName_object _ _) eq_refl Hl Hop) as [He Hpub].
  split; [exact He|]. intros v ->. specialize (Hpub v eq_refl). cbn [i_data] in Hpub. exists teed.
  assert (exists disp, v = result_for config transfer disp /\ disp <> CustodyDispositionExisting) as (disp & -> & Hdisp).
  { destruct Hpub as [_ [(-> & _)|(-> & _)]]; eexists; done. }
  split; [by exists transfer|]. exact Hpub.
Qed.

End Receive.

(** ** Reading back *)

(** A program beside the state of a handler that only reads the directory. *)
Abbreviation quiet_beside := (keeps (beside same_dir)).

Lemma beside_run {Hs A} (p : prog (Hs * dir) A) h d r h' d' :
  quiet_beside p -> p (h, d) = (r, (h', d')) -> exists fs, d' = set_faults fs d.
Proof. intros Hp Hr. exact (keeps_run _ _ _ _ _ Hp Hr). Qed.

Section Read.
Context `{Unicode} `{X509} `{Zstd} `{JSON SignedGeneration}.

Lemma beside_readOpened {Hs} a b c offer config (handler : canonical.handler_fn Hs) file :
  quiet_beside (readOpened a b c offer config handler file).
Proof.
  intros [h d]. unfold readOpened, beside. cbn [snd]. pose proof (quiet_file_reader file d) as Hf.
  destruct (file_reader file d) as [[r|e|] d1]; [|done..].
  destruct (readValidatedTransfer offer (Receive config) (Some handler) (h, r)) as [transfer [h1 r1]].
  pose proof (quiet_Close d1) as Hc. destruct (Close d1) as [closed d2]. cbn [snd] in *. by etrans.
Qed.

Lemma beside_read {Hs} custody config root (handler : canonical.handler_fn Hs) :
  quiet_beside (ReadDurableCustodyArtifacts custody config root handler).
Proof. unfold ReadDurableCustodyArtifacts. repeat first [ apply beside_readOpened | keeps1 | quiet ]. Qed.

Lemma quiet_readOpened {Hs} a b c offer config (consume : canonical.handler_fn Hs) file h :
  quiet (fun d => let '(result, (h, d)) := readOpened a b c offer config consume file (h, d) in
                  ((let? transfer := result in Ok (transfer, h)), d)).
Proof.
  intros d. pose proof (beside_readOpened a b c offer config consume file (h, d)) as E.
  by destruct (readOpened _ _ _ _ _ _ _ _) as [r [h1 d1]].
Qed.

Lemma quiet_readDiscovered {Hs} discovered config root factory (consume : canonical.handler_fn Hs) :
  quiet (ReadDiscoveredDurableCustodyArtifacts discovered config root factory consume).
Proof.
  unfold ReadDiscoveredDurableCustodyArtifacts, openDiscovered. quiet. apply quiet_readOpened.
Qed.

Lemma quiet_inspectEntries root entries : quiet (inspectEntries root entries).
Proof. induction entries as [|name entries IH]; cbn [inspectEntries]; quiet. Qed.

(** Only provisional names are collected for removal. *)
Lemma inspectEntries_provisional root entries d objects provisional d' :
  inspectEntries root entries d = (Ok (objects, provisional), d') ->
  Forall (fun n => isGenerationCustodyProvisionalName n = true) provisional.
Proof.
  revert d objects provisional d'. induction entries as [|name entries IH]; intros d objects provisional d' Hr;
    cbn [inspectEntries] in Hr; [injection Hr as <- <- _; constructor|].
  apply bind_Ok in Hr as (info & d1 & _ & Hr). destruct (isGenerationCustodyProvisionalName name) eqn:Ep.
  - res_inv Hr. destruct v as [os ps]. injection Hr as <- <- <-. constructor; [done|by eapply IH].
  - res_inv Hr. destruct v as [os ps]. injection Hr as <- <- <-. by eapply IH.
Qed.

Lemma provisional_is_no_object n : isGenerationCustodyProvisionalName n = true -> generation_name n = false.
Proof.
  unfold isGenerationCustodyProvisionalName, generation_name. intros [Hp _]%andb_prop.
  apply HasPrefix_spec in Hp as [t ->]. done.
Qed.

Lemma removeProvisionals_tidies provisional : forall removed d result d',
  Forall (fun n => isGenerationCustodyProvisionalName n = true) provisional ->
  removeProvisionals provisional removed d = (result, d') ->
  tidies generations d d' /\ durable d' = durable d /\ result <> Panic.
Proof.
  assert (forall d fs, tidies generations d (set_faults fs d)) as Hid.
  { intros d fs. split; [done|done|by left|by left]. }
  induction provisional as [|name provisional IH]; intros removed d result d' Hp; cbn [removeProvisionals].
  { intros [= <- <-]. by rewrite <- (set_faults_id d) at 2. }
  inversion Hp as [|? ? Hn Hp']; subst. unfold bind, wrap_err, Remove.
  match goal with |- context [syscall ?p d] => destruct (syscall_cases p d) as (f & [E|E]) end; rewrite E; clear E.
  { intros [= <- <-]. done. }
  cbn. destruct (names d !! name); cbn; [|by intros [= <- <-]].
  intros Hr. apply IH in Hr as (Ht & Hd & Hnp); [|done]. split; [|done].
  destruct Ht as [T1 T2 T3 _]. split; [done|done| |by left].
  intros n'. destruct (T3 n') as [E|E]; [|by right]. rewrite E. cbn.
  destruct (decide (n' = name)) as [->|Hne]; [right|left; by rewrite lookup_delete_ne].
  split; [by apply provisional_is_no_object|]. apply lookup_delete_eq.
Qed.

Lemma sync_tidies d r d' :
  syncGenerationCustodyDirectory d = (r, d') ->
  r <> Panic /\ exists fs, d' = set_faults fs d \/ d' = set_faults fs (set_durable (names d) d).
Proof.
  unfold syncGenerationCustodyDirectory, bind, or_close, SyncDir.
  match goal with |- context [syscall ?p d] => destruct (syscall_cases p d) as (f & [E|E]) end; rewrite E; clear E;
    [intros [= <- <-]; split; [done|]; exists f; by left|]. cbn [ret].
  match goal with |- context [syscall ?p (set_faults f d)] =>
    destruct (syscall_cases p (set_faults f d)) as (f2 & [E|E]) end; rewrite E; clear E.
  - destruct (quiet_Close (set_faults f2 (set_faults f d))) as [f3 E3].
    intros [= <- <-]. split; [done|]. exists f3. left. by rewrite E3.
  - intros Hr. cbn in Hr. set (d1 := set_durable _ _) in Hr.
    destruct (syscall_cases (ret tt) d1) as (f3 & [E|E]); unfold Close in Hr; rewrite E in Hr;
      injection Hr as <- <-; (split; [done|]); exists f3; by right.
Qed.

(** Recovery removes leftovers and nothing else, whatever fails. *)
Lemma recover_tidies config root d result d' :
  RecoverDurableCustodyRoot config root d = (result, d') -> tidies generations d d'.
Proof.
  assert (forall d fs, tidies generations d (set_faults fs d)) as Hid.
  { intros d0 fs. split; [done|done|by left|by left]. }
  unfold RecoverDurableCustodyRoot, bind at 1, lift.
  assert (tidies generations d d) as Hdd by (rewrite <- (set_faults_id d) at 2; apply Hid).
  destruct (validateGenerationCustodyConfig config root); [|by intros [= <- <-]..].
  unfold bind at 1. destruct (wrap_err _ ReadDir d) as [entries d1] eqn:E1.
  apply quiet_run in E1 as [f1 ->]; [|quiet].
  destruct entries as [entries|e|]; [|by intros [= <- <-]..].
  unfold bind at 1. destruct (inspectEntries _ _ _) as [found d2] eqn:E2.
  pose proof E2 as E2'. apply quiet_run in E2' as [f2 ->]; [|apply quiet_inspectEntries].
  destruct found as [[objects provisional]|e|]; [|intros [= <- <-]; apply (Hid d f2)..].
  apply inspectEntries_provisional in E2.
  unfold bind at 1. destruct (removeProvisionals provisional 0 _) as [removed d3] eqn:E3.
  apply removeProvisionals_tidies in E3 as ([T1 T2 T3 _] & Hd3 & _); [|done].
  assert (tidies generations d d3) as H3 by (split; [done|done|done|by left]).
  destruct removed as [removed|e|]; [|by intros [= <- <-]..].
  unfold bind at 1. destruct (if negb _ then _ else _) as [synced d4] eqn:E4.
  assert (tidies generations d d4) as H4.
  { destruct (negb _); [|by injection E4 as <- <-]. unfold wrap_err in E4.
    destruct (syncGenerationCustodyDirectory d3) as [s d5] eqn:E5. injection E4 as <- <-.
    apply sync_tidies in E5 as (_ & f & [-> | ->]); (split; [done|done|done|]); [by left|by right]. }
  destruct synced; intros [= <- <-]; done.
Qed.

(** ** Histories of the custody directory

    Receptions, reads by the recorder, restart recovery and power failures, in any order
    and with any faults. *)
Inductive step : dir -> dir -> Prop :=
| step_receive offer config root r fs d result r' d' :
    ReceiveToDurableCustody offer config root (r, set_faults fs d) = (result, (r', d')) -> step d d'
| step_read Hs custody config root (handler : canonical.handler_fn Hs) h fs d result h' d' :
    ReadDurableCustodyArtifacts custody config root handler (h, set_faults fs d) = (result, (h', d')) -> step d d'
| step_discovered Hs discovered config root factory (consume : canonical.handler_fn Hs) fs d result d' :
    ReadDiscoveredDurableCustodyArtifacts discovered config root factory consume (set_faults fs d) = (result, d') ->
    step d d'
| step_recover config root fs d result d' :
    RecoverDurableCustodyRoot config root (set_faults fs d) = (result, d') -> step d d'
| step_crash d d' : crash d d' -> step d d'.

Lemma generation_step_evolves `{!ZstdLaws} d d' : wf d -> step d d' -> evolves generations d d'.
Proof.
  intros Hwf Hs. revert Hwf. destruct Hs as [offer config root r fs d0 result r' d1 Hr
    |Hs custody config root handler h fs d0 result h' d1 Hr
    |Hs discovered config root factory consume fs d0 result d1 Hr
    |config root fs d0 result d1 Hr|d0 d1 Hc]; intros Hwf.
  - destruct (generation_reception_cases offer config root r (set_faults fs d0) Hwf) as
      (res & r1 & d2 & E & [(fs' & -> & _)|(k & nd & He & _)]); rewrite E in Hr; injection Hr as -> -> <-;
      [by eapply (evolves_same _ _ _ fs')|by eapply evolves_effect].
  - apply beside_run in Hr as [f1 ->]; [by eapply (evolves_same _ _ _ f1)|apply beside_read].
  - apply quiet_run in Hr as [f1 ->]; [by eapply (evolves_same _ _ _ f1)|apply quiet_readDiscovered].
  - apply recover_tidies in Hr. by eapply evolves_tidy.
  - by apply evolves_crash.
Qed.

(** [C17] The generation custody directory implements a write-once store. Every history of
    receptions, recorder reads, restart recoveries and power failures, with any failing
    system call, is a run of the abstract store of generations: a name is bound at most
    once, its bytes never change, and what was made permanent survives. *)
Theorem generation_custody_refines_store `{!ZstdLaws} d d' :
  store_inv generations d -> rtc step d d' -> rtc store_step (abs generations d) (abs generations d').
Proof. intros Hinv Hs. by apply (history_store generations step d d' generation_step_evolves Hinv Hs). Qed.

Lemma received_stable `{!ZstdLaws} offer config root r d v r' d' :
  store_inv generations d -> ReceiveToDurableCustody offer config root (r, d) = (Ok v, (r', d')) ->
  store_inv generations d' /\ exists wire nd, received offer config r r' v wire /\
    stable d' (final_name (Transfer v)) nd /\ sealed nd /\ i_data nd = wire.
Proof.
  intros Hinv Hr. pose proof Hinv as [Hobj _]. pose proof Hobj as [Hwf _]. split.
  { apply (evolves_store generations d); [done|]. apply generation_step_evolves; [done|].
    apply (step_receive offer config root r (faults d) d (Ok v) r'). by rewrite set_faults_id. }
  destruct (generation_reception_cases offer config root r d Hwf) as
    (res & r1 & d1 & E & [(fs & _ & Hno)|(k & nd & He & Hdone)]);
    rewrite E in Hr; injection Hr as -> -> ->; [by destruct (Hno v)|].
  destruct (Hdone v eq_refl) as (wire & Hrec & Hpub).
  destruct (published_stable generations _ _ _ _ _ _ _ _ _ Hobj (generationCustodyObjectName_object _ _) He Hpub)
    as (x & Hst & Hse & Hd). by exists wire, x.
Qed.

(** [C16] A generation taken into custody is never lost. When [ReceiveToDurableCustody]
    reports success (new or duplicate), the bytes it took off the stream are one valid
    transfer for the offer, signed for the enrolled source; and in every later state of
    the directory, through any further receptions, reads, recoveries, faults and crashes,
    the name of the generation denotes a synced read-only file with exactly these bytes,
    of the size and digest the result states. *)
Theorem generation_custody_never_lost `{!ZstdLaws} offer config root r d v r' d1 d2 :
  store_inv generations d ->
  ReceiveToDurableCustody offer config root (r, d) = (Ok v, (r', d1)) -> rtc step d1 d2 ->
  exists wire nd, received offer config r r' v wire /\
    stable d2 (final_name (Transfer v)) nd /\ sealed nd /\ i_data nd = wire /\
    CustodyBytes v = len wire /\ CustodySHA256 v = sha256_hex wire.
Proof.
  intros Hinv Hr Hs. destruct (received_stable offer config root r d v r' d1 Hinv Hr) as
    (Hinv1 & wire & nd & Hrec & Hst & Hse & Hd).
  exists wire, nd. split_and!; try done.
  - apply (history_store generations step d1 d2 generation_step_evolves Hinv1 Hs);
      [apply generationCustodyObjectName_object|done].
  - destruct Hrec as (t & _ & _ & Hb & _ & _ & -> & _). exact Hb.
  - destruct Hrec as (t & _ & _ & _ & Hb & _ & -> & _). exact Hb.
Qed.

(** ** Reading back is sound *)

Lemma readOpened_Ok `{!ZstdLaws} {Hs} a b c offer config (handler : canonical.handler_fn Hs) Step file h d transfer h' d' :
  canonical.handler_steps (Some handler) Step ->
  readOpened a b c offer config handler file (h, d) = (Ok transfer, (h', d')) ->
  (exists fs', d' = set_faults fs' d) /\
  exists nd fs, inodes d !! file = Some nd /\ transfers offer (Receive config) (i_data nd) transfer fs /\
    canonical.steps_rel Step h fs h'.
Proof.
  intros Hh Hr.
  split; [exact (beside_run _ _ _ _ _ _ (beside_readOpened a b c offer config handler file) Hr)|].
  unfold readOpened in Hr.
  destruct (file_reader file d) as [[r|e|] d1] eqn:Ef; [|done|done].
  apply file_reader_Ok in Ef as (_ & nd & Hnd & Hend).
  destruct (readValidatedTransfer offer (Receive config) (Some handler) (h, r)) as [t [h2 r2]] eqn:Er.
  destruct (Close d1) as [closed d2]. injection Hr as Hr -> ->. res_inv Hr. bool_hyps.
  apply (readValidatedTransfer_steps offer (Receive config) (Some handler) Step) in Er
    as (Ha & metadata & payload & fs & Hl & Hs' & Ht & Hv & -> & Hd & He & Hst & Htm); [|done].
  exists nd, fs. split; [done|]. split; [|done]. split; [done|]. exists metadata, payload. split_and!; try done.
  rewrite He in *. specialize (Hend ltac:(done)). subst r. cbn [rd_data] in Hd.
  match goal with Hn : rd_data r2 = [] |- _ => by rewrite Hn, app_nil_r in Hd end.
Qed.

Lemma read_Ok `{!ZstdLaws} {Hs} custody config root
    (handler : canonical.handler_fn Hs) Step h d transfer h' d' :
  canonical.handler_steps (Some handler) Step ->
  ReadDurableCustodyArtifacts custody config root handler (h, d) = (Ok transfer, (h', d')) ->
  transfer = Transfer custody /\ (exists fs', d' = set_faults fs' d) /\
  exists nd fs, lookup_file d (final_name transfer) = Some nd /\
    transfers (offer_of transfer) (Receive config) (i_data nd) transfer fs /\
    canonical.steps_rel Step h fs h'.
Proof.
  intros Hh Hr.
  destruct (beside_run _ _ _ _ _ _ (beside_read custody config root handler) Hr) as (f1 & ->).
  unfold ReadDurableCustodyArtifacts in Hr.
  apply bind_lift_Ok in Hr as ([] & _ & Hr). apply bind_lift_Ok in Hr as ([] & _ & Hr).
  apply bind_Ok in Hr as (before & s1 & Hb & Hr). apply on_snd_Ok in Hb as (d1 & Hb & ->).
  apply wrap_err_Ok, Lstat_Ok in Hb as ((f2 & ->) & i & nd & Hn & Hi & ->).
  apply bind_lift_Ok in Hr as ([] & _ & Hr).
  apply bind_Ok in Hr as (file & s2 & Hf & Hr). apply on_snd_Ok in Hf as (d2 & Hf & ->).
  apply wrap_err_Ok, Open_Ok in Hf as ((f3 & ->) & Hf).
  assert (file = i) as -> by (cbn in Hf; unfold final_name in *; congruence).
  apply bind_Ok in Hr as ([] & s3 & Ho & Hr). apply on_snd_Ok in Ho as (d3 & Ho & ->).
  apply or_close_Ok in Ho. apply quiet_run in Ho as [f4 ->]; [|quiet].
  apply bind_Ok in Hr as (t & [h2 d4] & Ht & Hr). destruct (negb _) eqn:Eb in Hr; [done|]. bool_hyps.
  apply (readOpened_Ok _ _ _ _ _ _ Step) in Ht as ((f5 & ->) & nd' & fs & Hnd & Hv & Hst); [|done].
  cbn in Hnd. rewrite Hi in Hnd. injection Hnd as <-.
  apply bind_Ok in Hr as (after & s5 & Ha & Hr). apply on_snd_Ok in Ha as (d5 & Ha & ->).
  destruct (negb _) in Hr; [done|]. apply bind_lift_Ok in Hr as ([] & _ & Hr). injection Hr as -> -> _.
  split; [done|]. split; [by exists f1|]. subst transfer. exists nd, fs. split; [|done].
  unfold lookup_file, final_name. by rewrite Hn.
Qed.

(** The recorder reads what was taken into custody. When
    [ReadDurableCustodyArtifacts] succeeds, the transfer is the one the custody result
    names, the object under the name of its generation holds exactly one valid transfer
    for it, signed for the enrolled source, and the handler was given every artifact of
    its payload, completely and in order. Nothing in the directory changed. *)
Theorem ReadDurableCustodyArtifacts_sound `{!ZstdLaws} {Hs} custody config root
    (handler : canonical.handler_fn Hs) Step h d transfer h' d' :
  canonical.handler_steps (Some handler) Step ->
  ReadDurableCustodyArtifacts custody config root handler (h, d) = (Ok transfer, (h', d')) ->
  transfer = Transfer custody /\ (exists fs', d' = set_faults fs' d) /\
  exists nd fs, lookup_file d (final_name transfer) = Some nd /\
    transfers (offer_of transfer) (Receive config) (i_data nd) transfer fs /\
    canonical.steps_rel Step h fs h'.
Proof. apply read_Ok. Qed.

(** ** Reading back succeeds *)

Lemma offer_of_transfer offer config wire transfer fs :
  transfers offer config wire transfer fs -> offer_of transfer = offer.
Proof.
  intros (Ha & metadata & payload & Hl & Hs & _ & _ & -> & _). unfold admitTransfer in Ha. res_inv Ha.
  match goal with Hv : Offer_Validate offer = Ok ?u |- _ => destruct u; apply Offer_Validate_Ok in Hv as (Hv & _) end.
  destruct offer as [ver desc mb ms]. cbn in *. subst. done.
Qed.

Lemma sha256_hex_valid name x : validateSHA256 name (sha256_hex x) = Ok tt.
Proof. apply generation_validateSHA256_Ok. apply sha256_hex_text. Qed.

(** The sizes of a transfer, all within 64 bits. *)
Lemma transfers_size offer config wire transfer fs :
  transfers offer config wire transfer fs ->
  TransferBytes transfer = len wire /\ TransferSHA256 transfer = sha256_hex wire /\
  len wire = 20 + MetadataBytes transfer + PayloadBytes transfer /\
  0 < MetadataBytes transfer <= maxSignedGenerationMetadataBytes /\
  0 <= PayloadBytes transfer <= maxGenerationStreamingBytes.
Proof.
  intros (Ha & metadata & payload & Hl & Hs & _ & (Hp & _) & -> & -> & _).
  destruct (admitTransfer_Ok offer config Ha) as (Hd & M1 & M2 & _).
  pose proof Hd as (_ & _ & _ & _ & _ & _ & _ & _ & _ & (_ & Heb) & _).
  pose proof (len_nonneg metadata). pose proof (len_nonneg payload).
  cbn [TransferBytes TransferSHA256 MetadataBytes PayloadBytes transfer_result]. split_and!; try done; try lia.
  unfold transfer_wire. rewrite !len_app, len_PutUint32BE, len_PutUint64BE. change (len TransferMagic) with 8. lia.
Qed.

Lemma custody_result_valid offer config wire transfer fs disposition :
  transfers offer (Receive config) wire transfer fs ->
  validateGenerationCustodyResult (result_for config transfer disposition) (RootDir config) = Ok tt.
Proof.
  intros Ht. pose proof (offer_of_transfer _ _ _ _ _ Ht) as Ho.
  destruct (transfers_size _ _ _ _ _ Ht) as (Hb & Hsha & Hlen & Hm & Hp).
  pose proof Ht as (Ha & metadata & payload & Hl & Hs & _ & (Hpl & Hps & _) & Etr & _).
  unfold validateGenerationCustodyResult. cbn [Transfer CustodyBytes CustodySHA256 CustodyPath result_for newGenerationCustodyResult].
  rewrite Ho. unfold admitTransfer in Ha. res_inv Ha.
  match goal with Hv : Offer_Validate offer = Ok ?u |- _ => destruct u; rewrite Hv; pose proof Hv as Hv' end.
  apply Offer_Validate_Ok in Hv' as (_ & Hd & _).
  assert (ResultDescriptor transfer = OfferDescriptor offer) as Hde by (by rewrite Etr).
  rewrite Hde, (proj2 (generation_Validate_Ok _) Hd). cbn [wrap res_bind].
  assert (PayloadBytes transfer = EncodedDataBytes (OfferDescriptor offer)) as -> by (by rewrite Etr).
  rewrite Z.eqb_refl, bool_decide_eq_true_2 by (by rewrite Etr). cbn [negb orb].
  rewrite Hsha, sha256_hex_valid. cbn [res_bind].
  unfold transferSize, transferHeaderBytes, max_u64, maxGenerationStreamingBytes, maxSignedGenerationMetadataBytes in *.
  assert (PayloadBytes transfer = EncodedDataBytes (OfferDescriptor offer)) as Hpb by (by rewrite Etr).
  replace (2 ^ 64 - 1 - 20 <? MetadataBytes transfer) with false by lia.
  rewrite (u64_small (20 + MetadataBytes transfer)) by (unfold is_u64; lia).
  replace (2 ^ 64 - 1 - (20 + MetadataBytes transfer) <? EncodedDataBytes (OfferDescriptor offer)) with false by lia.
  rewrite u64_small by (unfold is_u64; lia). cbn [res_bind]. rewrite Hb, Hlen, Hpb, !Z.eqb_refl. cbn [negb orb].
  rewrite !bool_decide_eq_true_2 by (done || (unfold final_name; by rewrite Hde)).
  by rewrite sha256_hex_valid.
Qed.

Lemma custody_info_valid offer config nd transfer fs i :
  transfers offer config (i_data nd) transfer fs -> sealed nd ->
  validateGenerationCustodyFileInfo (info_of i nd) (TransferBytes transfer) = Ok tt.
Proof.
  intros Ht (Hk & Hp & _). destruct (transfers_size _ _ _ _ _ Ht) as (Hb & _ & Hlen & Hm & Hpb).
  unfold validateGenerationCustodyFileInfo. cbn. rewrite Hk, Hp, bool_decide_eq_false_2, bool_decide_eq_true_2 by done.
  cbn. unfold maxGenerationStreamingBytes, maxSignedGenerationMetadataBytes in *.
  rewrite u64_small by (unfold is_u64; lia). rewrite Hb, Z.eqb_refl.
  replace (len (i_data nd) <=? 0) with false by lia. done.
Qed.

Lemma readOpened_complete {Hs} a b c offer config (handler : canonical.handler_fn Hs) stp nd transfer fs h h' file d :
  transfers offer (Receive config) (i_data nd) transfer fs -> inodes d !! file = Some nd -> faults d = [] ->
  canonical.handler_runs (Some handler) stp -> canonical.run_steps stp h fs = Some h' ->
  readOpened a b c offer config handler file (h, d) = (Ok transfer, (h', d)).
Proof.
  intros (Ha & metadata & payload & Hl & Hs' & _ & Hv & -> & Hw & Htm) Hi Hf Hh Hrun.
  unfold readOpened, file_reader, bind, next_fault. rewrite Hf, Hi, Hw.
  rewrite <- (app_nil_r (transfer_wire metadata payload)).
  rewrite (readValidatedTransfer_layout offer (Receive config) (Some handler) stp metadata payload fs h h') by done.
  unfold Close, syscall, bind, next_fault. rewrite Hf. cbn -[bool_decide errors_Is]. done.
Qed.

Lemma read_complete {Hs} offer config root (handler : canonical.handler_fn Hs) stp nd transfer fs disposition h h' d :
  transfers offer (Receive config) (i_data nd) transfer fs -> sealed nd ->
  lookup_file d (final_name transfer) = Some nd -> faults d = [] ->
  validateGenerationCustodyConfig config root = Ok tt ->
  canonical.handler_runs (Some handler) stp -> canonical.run_steps stp h fs = Some h' ->
  ReadDurableCustodyArtifacts (result_for config transfer disposition) config root handler (h, d) =
    (Ok transfer, (h', d)).
Proof.
  intros Ht Hse Hl Hf Hc Hh Hrun. unfold lookup_file in Hl.
  destruct (names d !! final_name transfer) as [i|] eqn:Hn; [|done]. cbn in Hl.
  unfold ReadDurableCustodyArtifacts. rewrite (bind_lift _ _ tt) by done.
  rewrite (bind_lift _ _ tt) by (by eapply custody_result_valid).
  cbn [Transfer result_for newGenerationCustodyResult]. fold (final_name transfer).
  unfold bind at 1, on_snd at 1, wrap_err at 1. rewrite (Lstat_here _ d i nd) by done. cbn [wrap].
  rewrite (bind_lift _ _ tt) by (by eapply custody_info_valid).
  unfold bind at 1, on_snd at 1, wrap_err at 1. rewrite (Open_here _ d i) by done. cbn [wrap].
  unfold bind at 1, on_snd at 1, or_close, bind at 1, wrap_err at 1. rewrite (Fstat_here d i nd) by done.
  cbn [wrap]. rewrite bool_decide_eq_true_2 by done. cbn [negb ret].
  rewrite (offer_of_transfer _ _ _ _ _ Ht). unfold bind at 1.
  rewrite (readOpened_complete _ _ _ offer config handler stp nd transfer fs h h') by done.
  rewrite bool_decide_eq_true_2 by done. cbn [negb].
  unfold bind at 1, on_snd at 1, wrap_err at 1. rewrite (Lstat_here _ d i nd) by done. cbn [wrap].
  rewrite bool_decide_eq_true_2 by done. cbn [negb].
  by rewrite (bind_lift _ _ tt) by (by eapply custody_info_valid).
Qed.

(** A transfer stays valid under another configuration as long as that one admits the offer and
    still trusts the signed metadata: at its time, with its revocation list and its roots. *)
Lemma transfers_config offer config config' metadata payload transfer fs :
  transfers offer config (transfer_wire metadata payload) transfer fs -> len metadata = OfferMetadataBytes offer ->
  admitTransfer offer config' = Ok tt -> trustMetadata offer config' metadata = Ok tt ->
  transfers offer config' (transfer_wire metadata payload) transfer fs.
Proof.
  intros (_ & metadata' & payload' & Hl & Hs & _ & Hv & Et & Ew & _) Hlm Ha Ht.
  assert (metadata' = metadata /\ payload' = payload) as [-> ->].
  { unfold transfer_wire in Ew. do 3 (apply app_inj_1 in Ew as [_ Ew]; [|rewrite ?length_PutUint32BE, ?length_PutUint64BE; done]).
    symmetry in Ew. apply app_inj_1 in Ew; [done|]. unfold len in *. lia. }
  split; [done|]. exists metadata, payload. split_and!; try done. by eapply trustMetadata_Ok.
Qed.

(** [C18] What was taken into custody can be recorded. After a successful reception, in
    every later state of the custody directory (any receptions, reads, recoveries, faults
    and crashes in between), a read of the object succeeds as soon as no system call fails, with
    any valid configuration of the same custody root that admits the offer and still trusts the
    signed metadata (its certificate chain at the configuration's time, against its revocation
    list, roots and source); the configuration of the reception is one. The read returns the same
    transfer and runs the handler over every artifact of the payload. *)
Theorem custody_readable `{!ZstdLaws} {Hs} offer config root r d v r' d1 d2
    (handler : canonical.handler_fn Hs) stp h :
  store_inv generations d -> ReceiveToDurableCustody offer config root (r, d) = (Ok v, (r', d1)) ->
  rtc step d1 d2 -> faults d2 = [] -> canonical.handler_runs (Some handler) stp ->
  exists metadata payload fs, rd_data r = transfer_wire metadata payload ++ rd_data r' /\
    len metadata = OfferMetadataBytes offer /\
    transfers offer (Receive config) (transfer_wire metadata payload) (Transfer v) fs /\
    admitTransfer offer (Receive config) = Ok tt /\ trustMetadata offer (Receive config) metadata = Ok tt /\
    forall config' root' h',
      validateGenerationCustodyConfig config' root' = Ok tt -> RootDir config' = RootDir config ->
      admitTransfer offer (Receive config') = Ok tt -> trustMetadata offer (Receive config') metadata = Ok tt ->
      canonical.run_steps stp h fs = Some h' ->
      ReadDurableCustodyArtifacts v config' root' handler (h, d2) = (Ok (Transfer v), (h', d2)).
Proof.
  intros Hinv Hr Hrtc Hf Hh. destruct (received_stable offer config root r d v r' d1 Hinv Hr) as
    (Hinv1 & wire & nd & Hrec & Hst & Hse & Hd).
  assert (stable d2 (final_name (Transfer v)) nd) as (i & Hn & _ & Hi & _).
  { apply (history_store generations step d1 d2 generation_step_evolves Hinv1 Hrtc);
      [apply generationCustodyObjectName_object|done]. }
  destruct Hrec as (transfer & [fs Ht] & Hdata & _ & _ & _ & Hv & _).
  assert (Transfer v = transfer) as Htr by (rewrite Hv; done). rewrite Htr in *.
  pose proof Ht as (Ha & metadata & payload & Hl & _ & _ & _ & _ & Hw & Htm).
  exists metadata, payload, fs. rewrite <- Hw. split_and!; [done..|].
  intros config' root' h' Hc Hroot Ha' Htm' Hrun. rewrite Hv. rewrite Hw in Ht, Hd.
  unfold result_for. rewrite <- Hroot. fold (result_for config' transfer (Disposition v)).
  apply (read_complete offer config' root' handler stp nd transfer fs (Disposition v)); try done.
  - rewrite Hd. by eapply transfers_config.
  - unfold lookup_file. by rewrite Hn.
Qed.

(** ** Restart recovery *)

(** An entry recovery accepts: a regular provisional file, or an object of a plausible
    size under a well-formed name. *)
Definition recoverable (d : dir) (n : bytes) : Prop :=
  exists nd, lookup_file d n = Some nd /\ i_kind nd = Regular /\
    (isGenerationCustodyProvisionalName n = true \/
     isGenerationCustodyFinalName n = true /\ i_perm nd = perm_0400 /\ transferHeaderBytes < len (i_data nd)).

Definition discovered_at (root : bytes) (d : dir) (n : bytes) : DiscoveredCustody := {|
  DiscoveredBytes := match lookup_file d n with Some nd => u64 (len (i_data nd)) | None => 0 end;
  DiscoveredPath := filepath_Join root n |}.

#[local] Abbreviation is_provisional := (fun n => isGenerationCustodyProvisionalName n = true).
#[local] Abbreviation is_object := (fun n => isGenerationCustodyProvisionalName n = false).

Lemma inspectEntries_complete root entries d :
  faults d = [] -> Forall (recoverable d) entries ->
  inspectEntries root entries d =
    (Ok (discovered_at root d <$> filter is_object entries, filter is_provisional entries), d).
Proof.
  intros Hf. induction 1 as [|n entries (nd & Hl & Hk & Hc) _ IH]; [done|]. cbn [inspectEntries].
  pose proof Hl as Hl'. unfold lookup_file in Hl. destruct (names d !! n) as [i|] eqn:Hn; [|done]. cbn in Hl.
  unfold bind at 1, wrap_err. rewrite (Lstat_here n d i nd) by done. cbn [wrap].
  rewrite !filter_cons. cbn [info_of fi_kind fi_perm fi_size]. rewrite Hk.
  rewrite bool_decide_eq_false_2, bool_decide_eq_true_2 by done. cbn [orb negb].
  destruct (isGenerationCustodyProvisionalName n) eqn:Ep.
  - unfold bind at 1. rewrite IH. rewrite decide_False, decide_True by done. done.
  - destruct Hc as [?|(Hfin & Hp & Hsz)]; [done|]. rewrite Hfin, Hp, Z.eqb_refl. cbn [negb].
    replace (len (i_data nd) <=? transferHeaderBytes) with false by lia.
    unfold bind at 1. rewrite IH. rewrite decide_True, decide_False by done. rewrite fmap_cons.
    assert (discovered_at root d n = {| DiscoveredBytes := u64 (len (i_data nd));
      DiscoveredPath := filepath_Join root n |}) as -> by (unfold discovered_at; by rewrite Hl'). done.
Qed.

Lemma removeProvisionals_complete provisional : forall removed d,
  faults d = [] -> NoDup provisional -> Forall (fun n => is_Some (names d !! n)) provisional ->
  exists d', removeProvisionals provisional removed d =
      (Ok (if decide (provisional = []) then removed else u64 (removed + len provisional)), d') /\
    faults d' = [] /\ inodes d' = inodes d /\ durable d' = durable d /\
    forall n, names d' !! n = if decide (n ∈ provisional) then None else names d !! n.
Proof.
  induction provisional as [|p provisional IH]; intros removed d Hf Hnd Hall; cbn [removeProvisionals].
  { exists d. split_and!; done. }
  inversion Hnd as [|? ? Hp Hnd']; subst. inversion Hall as [|? ? Hs Hall']; subst.
  unfold bind, wrap_err, Remove. rewrite syscall_here by done. destruct Hs as [i Hi]. rewrite Hi. cbn [wrap].
  set (d1 := set_names (delete p (names d)) d).
  destruct (IH (u64 (removed + 1)) d1) as (d' & -> & Hf' & Hi' & Hd' & Hn'); [done|done| |].
  { apply Forall_forall. intros n Hn. rewrite Forall_forall in Hall'. cbn.
    rewrite lookup_delete_ne; [by apply Hall'|]. by intros ->. }
  exists d'. split; [|split_and!; try done].
  - f_equal. f_equal. rewrite len_cons. destruct (decide (provisional = [])) as [->|]; [done|].
    rewrite decide_False by done. unfold u64. rewrite Zplus_mod_idemp_l. f_equal. lia.
  - intros n. rewrite Hn'. cbn. destruct (decide (n ∈ provisional)) as [Hin|Hin].
    + rewrite decide_True; [done|]. by right.
    + destruct (decide (n = p)) as [->|Hne]; [rewrite decide_True by left; apply lookup_delete_eq|].
      rewrite decide_False by (intros [?|?]%elem_of_cons; done). by apply lookup_delete_ne.
Qed.

(** [C19] Restart recovery cleans up and loses nothing. With a valid configuration, when no
    system call fails and every entry of the directory is [recoverable] (a regular file under a
    provisional name, or a read-only regular file longer than a transfer header under the name of
    a custody object), recovery succeeds: it removes exactly the provisional names, makes this
    permanent when there were any, and reports every custody object, in the order of their names,
    with its size. *)
Theorem RecoverDurableCustodyRoot_complete config root d :
  validateGenerationCustodyConfig config root = Ok tt -> faults d = [] ->
  (forall n i, names d !! n = Some i -> recoverable d n) ->
  exists removed d', RecoverDurableCustodyRoot config root d =
      (Ok {| Objects := discovered_at (RootDir config) d <$> filter is_object (entry_names d);
             RemovedProvisional := removed |}, d') /\
    removed = u64 (len (filter is_provisional (entry_names d))) /\
    (removed <> 0 -> durable d' = names d') /\ inodes d' = inodes d /\
    (forall n, names d' !! n = if isGenerationCustodyProvisionalName n then None else names d !! n).
Proof.
  intros Hc Hf Hall. unfold RecoverDurableCustodyRoot. rewrite (bind_lift _ _ tt) by done.
  unfold bind at 1, wrap_err at 1.
  assert (exists es, ReadDir d = (Ok es, d)) as [es Hes].
  { unfold ReadDir. rewrite syscall_here by done. by eexists. }
  rewrite Hes. apply ReadDir_names in Hes. cbn [wrap].
  assert (Forall (recoverable d) (entry_names d)) as Hent.
  { apply Forall_forall. intros n [i Hi]%entry_names_elem. eauto. }
  unfold bind at 1. rewrite Hes, inspectEntries_complete by done.
  destruct (removeProvisionals_complete (filter is_provisional (entry_names d)) 0 d) as
    (d1 & Er & Hf1 & Hi1 & Hd1 & Hn1); [done|apply NoDup_filter, entry_names_NoDup| |].
  { apply Forall_forall. intros n [_ [i Hi]%entry_names_elem]%list_elem_of_filter. by rewrite Hi. }
  unfold bind at 1. rewrite Er. set (removed := if decide _ then _ else _).
  assert (removed = u64 (len (filter is_provisional (entry_names d)))) as Hrem.
  { unfold removed. destruct (decide _) as [->|]; [done|]. by rewrite Z.add_0_l. }
  assert (forall n, names d1 !! n = if isGenerationCustodyProvisionalName n then None else names d !! n) as Hn.
  { intros n. rewrite Hn1. destruct (decide (n ∈ _)) as [[E _]%list_elem_of_filter|Hin]; [by rewrite E|].
    destruct (isGenerationCustodyProvisionalName n) eqn:En; [|done].
    destruct (names d !! n) as [i|] eqn:Ei; [|done]. destruct Hin.
    apply list_elem_of_filter. split; [done|]. apply entry_names_elem. eauto. }
  exists removed. destruct (negb (removed =? 0)) eqn:E0.
  - exists (set_durable (names d1) d1). split; [|by split_and!].
    unfold bind, wrap_err, syncGenerationCustodyDirectory, or_close, SyncDir, Close.
    unfold bind. do 3 (rewrite syscall_here by done; cbn [ret]). done.
  - exists d1. split; [done|]. split_and!; try done. intros Hne. bool_hyps. lia.
Qed.

Lemma ReadDiscovered_Ok `{!ZstdLaws} {Hs} discovered config root factory
    (consume : canonical.handler_fn Hs) Step d v h' d' :
  canonical.handler_steps (Some consume) Step ->
  ReadDiscoveredDurableCustodyArtifacts discovered config root factory consume d = (Ok (v, h'), d') ->
  (exists fs', d' = set_faults fs' d) /\
  filepath_Base (DiscoveredPath discovered) = final_name (Transfer v) /\
  v = newGenerationCustodyResult (Transfer v) (DiscoveredPath discovered) CustodyDispositionExisting /\
  exists nd fs h, lookup_file d (final_name (Transfer v)) = Some nd /\
    factory (ResultDescriptor (Transfer v)) = Ok h /\
    transfers (offer_of (Transfer v)) (Receive config) (i_data nd) (Transfer v) fs /\
    len (i_data nd) = DiscoveredBytes discovered /\ canonical.steps_rel Step h fs h'.
Proof.
  intros Hh Hr. split; [exact (quiet_run _ _ _ _ (quiet_readDiscovered discovered config root factory consume) Hr)|].
  unfold ReadDiscoveredDurableCustodyArtifacts in Hr.
  apply bind_lift_Ok in Hr as ([] & _ & Hr). apply bind_lift_Ok in Hr as ([] & _ & Hr).
  apply bind_Ok in Hr as (before & s1 & Hb & Hr).
  apply wrap_err_Ok, Lstat_Ok in Hb as ((f2 & ->) & i & nd & Hn & Hi & ->).
  apply bind_lift_Ok in Hr as ([] & _ & Hr).
  apply bind_Ok in Hr as (file & s2 & Hf & Hr).
  apply wrap_err_Ok, Open_Ok in Hf as ((f3 & ->) & Hf). assert (file = i) as -> by (cbn in Hf; congruence).
  apply bind_Ok in Hr as ([offer h] & s3 & Ho & Hr). apply or_close_Ok in Ho.
  pose proof Ho as Hq. apply quiet_run in Hq as [f4 ->]; [|unfold openDiscovered; quiet].
  assert (filepath_Base (DiscoveredPath discovered) = generationCustodyObjectName (SourceID (OfferDescriptor offer))
    (GenerationID (OfferDescriptor offer)) /\ factory (OfferDescriptor offer) = Ok h) as [Hbase Hfac].
  { unfold openDiscovered in Ho. apply bind_Ok in Ho as (opened & t1 & _ & Ho).
    destruct (negb _) in Ho; [done|]. apply bind_Ok in Ho as (rd & t2 & _ & Ho).
    apply bind_lift_Ok in Ho as (o & _ & Ho). destruct (negb _) eqn:Eb in Ho; [done|]. bool_hyps.
    apply bind_Ok in Ho as (? & t3 & _ & Ho). apply bind_lift_Ok in Ho as (h1 & Hfa%wrap_Ok & Ho).
    injection Ho as <- <- _. done. }
  apply bind_Ok in Hr as ([transfer h1] & d4 & Ht & Hr).
  destruct (readOpened _ _ _ offer config consume i _) as [res [h2 d5]] eqn:Ero.
  destruct res as [t| |]; [|done|done]. injection Ht as -> -> ->.
  apply (readOpened_Ok _ _ _ _ _ _ Step) in Ero as (_ & nd' & fs & Hnd & Hv & Hst); [|done].
  cbn in Hnd. rewrite Hi in Hnd. injection Hnd as <-.
  destruct (negb _) eqn:Eb in Hr; [done|]. bool_hyps.
  apply bind_Ok in Hr as (after & s5 & _ & Hr). destruct (negb _) in Hr; [done|].
  apply bind_lift_Ok in Hr as ([] & _ & Hr). injection Hr as <- <- _.
  cbn [Transfer newGenerationCustodyResult].
  pose proof (offer_of_transfer _ _ _ _ _ Hv) as Hoff.
  destruct (transfers_size _ _ _ _ _ Hv) as (Hb & _).
  assert (ResultDescriptor transfer = OfferDescriptor offer) as Hde by (by rewrite <- Hoff).
  unfold final_name. rewrite Hde. split; [done|]. split; [done|]. exists nd, fs, h.
  rewrite Hoff. split_and!; try done; [|lia]. unfold lookup_file. by rewrite <- Hbase, Hn.
Qed.

(** Recording after a restart reads what was taken into custody. When
    [ReadDiscoveredDurableCustodyArtifacts] succeeds, the discovered object holds exactly
    one valid transfer, signed for the enrolled source; its name is the custody name of
    the generation the signed metadata describes; and the handler, started for that
    generation, was given every artifact of the payload. Nothing in the directory
    changed. *)
Theorem ReadDiscoveredDurableCustodyArtifacts_sound `{!ZstdLaws} {Hs} discovered config root factory
    (consume : canonical.handler_fn Hs) Step d v h' d' :
  canonical.handler_steps (Some consume) Step ->
  ReadDiscoveredDurableCustodyArtifacts discovered config root factory consume d = (Ok (v, h'), d') ->
  (exists fs', d' = set_faults fs' d) /\
  filepath_Base (DiscoveredPath discovered) = final_name (Transfer v) /\
  v = newGenerationCustodyResult (Transfer v) (DiscoveredPath discovered) CustodyDispositionExisting /\
  exists nd fs h, lookup_file d (final_name (Transfer v)) = Some nd /\
    factory (ResultDescriptor (Transfer v)) = Ok h /\
    transfers (offer_of (Transfer v)) (Receive config) (i_data nd) (Transfer v) fs /\
    len (i_data nd) = DiscoveredBytes discovered /\ canonical.steps_rel Step h fs h'.
Proof. apply ReadDiscovered_Ok. Qed.

End Read.
End genstore.
