(* ===== verification/GenerationReady.v ===== *)
(** * The ingest-ready queue

    Models [go/internal/generationready/ready_linux.go]: a directory of empty marker
    files, one per recorded generation that waits for ingestion, named like the recorder
    receipt. Markers carry no authority; what matters is that publishing and retiring
    them changes exactly the named entries, durably. *)

From stdpp Require Import gmap.
From S2P Require Import Prelude GoBytes GoStrings GoIO GoFS GoDir GoPublish.

Module generationready.

(** [0o600]. *)
Definition markerMode : Z := 384.

Inductive PublishDisposition := PublishDispositionAlreadyPresent | PublishDispositionNew.

Record PublishResult := { Disposition : PublishDisposition; Path : bytes }.

Section Ready.
Context `{Unicode}.

Definition validateReceiptName (name : bytes) : res unit :=
  fail? bool_decide (TrimSpace name = []) || negb (bool_decide (filepath_Base name = name)) ||
        negb (HasPrefix name (bs "generation-")) || negb (HasSuffix name (bs ".record.json"))
    with Errorf "FI generation ingest-ready name %q is not an exact recorder receipt basename" ;;
  Ok tt.

Definition validateRoot (readyRoot : bytes) (root : RootState) : res unit :=
  fail? bool_decide (TrimSpace readyRoot = []) with Errorf "FI generation ingest-ready root is required" ;;
  fail? negb (filepath_IsAbs readyRoot) with Errorf "FI generation ingest-ready root must be absolute" ;;
  let? resolvedRoot := wrap "resolve FI generation ingest-ready root: %w" (EvalSymlinks root) in
  fail? negb (bool_decide (filepath_Clean resolvedRoot = filepath_Clean readyRoot))
    with Errorf "FI generation ingest-ready root must not traverse symlinks" ;;
  let? rootInfo := wrap "inspect FI generation ingest-ready root: %w" (RootInfo root) in
  fail? bool_decide (fi_kind rootInfo = Symlink) || negb (bool_decide (fi_kind rootInfo = Directory))
    with Errorf "FI generation ingest-ready root must be a real directory" ;;
  fail? negb (Z.land (fi_perm rootInfo) 18 =? 0)
    with Errorf "FI generation ingest-ready root must not be group- or other-writable: mode=%04o" ;;
  Ok tt.

Definition validateMarker (name : bytes) : prog dir unit :=
  let! info := wrap_err "inspect FI generation ingest-ready marker %q: %w" (Lstat name) in
  fail! bool_decide (fi_kind info = Symlink) || negb (bool_decide (fi_kind info = Regular)) ||
        negb (fi_perm info =? markerMode)
    with Errorf "FI generation ingest-ready marker %q must be a %04o regular file" ;;
  fail! negb (fi_size info =? 0) with Errorf "FI generation ingest-ready marker %q must be empty" ;;
  ret tt.

Definition syncDirectory : prog dir unit :=
  check! wrap_err "open FI generation ingest-ready directory for sync %q: %w" (syscall (ret tt)) ;;
  defer_close (wrap_err "sync FI generation ingest-ready directory %q: %w" SyncDir).

(** [_ = os.Remove(path)] before the return of an error. *)
Definition or_remove {A} (name : bytes) (p : prog dir A) : prog dir A := fun d =>
  match p d with
  | (Ok a, d) => (Ok a, d)
  | (r, d) => (r, (Remove name d).2)
  end.

(** The new marker is synced, closed and inspected; a failure takes it back. *)
Definition finishMarker (name : bytes) (file : nat) : prog dir unit :=
  check! or_remove name (or_close (wrap_err "sync FI generation ingest-ready marker %q: %w" (Sync file))) ;;
  check! or_remove name (wrap_err "close FI generation ingest-ready marker %q: %w" Close) ;;
  check! or_remove name (validateMarker name) ;;
  syncDirectory.

Definition Publish (readyRoot : bytes) (root : RootState) (receiptName : bytes) : prog dir PublishResult :=
  check! lift (validateRoot readyRoot root) ;;
  check! lift (validateReceiptName receiptName) ;;
  let path := filepath_Join readyRoot receiptName in
  fun d =>
    match CreateExclusive receiptName markerMode d with
    | (Ok file, d) =>
        (check! finishMarker receiptName file ;;
         ret {| Disposition := PublishDispositionNew; Path := path |}) d
    | (Err e, d) =>
        if errors_Is e ErrExist then
          (check! validateMarker receiptName ;;
           check! syncDirectory ;;
           ret {| Disposition := PublishDispositionAlreadyPresent; Path := path |}) d
        else (Err (Wrap "publish FI generation ingest-ready marker %q: %w" e), d)
    | (Panic, d) => (Panic, d)
    end.

Definition ReceiptNamePresent (readyRoot : bytes) (root : RootState) (receiptName : bytes) : prog dir bool :=
  check! lift (validateRoot readyRoot root) ;;
  check! lift (validateReceiptName receiptName) ;;
  fun d =>
    match Lstat receiptName d with
    | (Ok _, d) => (check! validateMarker receiptName ;; ret true) d
    | (Err e, d) =>
        if errors_Is e ErrNotExist then (Ok false, d)
        else (Err (Wrap "inspect FI generation ingest-ready marker %q: %w" e), d)
    | (Panic, d) => (Panic, d)
    end.

(** The loop over the names; [seen] is the set of those already removed. *)
Fixpoint removeLoop (seen : gset bytes) (names : list bytes) : prog dir unit :=
  match names with
  | [] => ret tt
  | name :: names =>
      check! lift (validateReceiptName name) ;;
      fail! bool_decide (name ∈ seen)
        with Errorf "FI generation ingest-ready marker %q was supplied more than once for removal" ;;
      check! validateMarker name ;;
      check! wrap_err "remove FI generation ingest-ready marker %q: %w" (Remove name) ;;
      removeLoop ({[name]} ∪ seen) names
  end.

Definition RemoveReceiptNames (readyRoot : bytes) (root : RootState) (names : list bytes) : prog dir unit :=
  check! lift (validateRoot readyRoot root) ;;
  check! removeLoop ∅ names ;;
  if len names =? 0 then ret tt else syncDirectory.

(** [directory.ReadDir(n)]: at most [n] entries, in the order the file system has them. *)
Context (directory_order : gmap bytes nat -> list bytes).

Definition ReadDirN (n : Z) : prog dir (list bytes) := syscall (fun d =>
  (Ok (take (Z.to_nat n) (directory_order (names d))), d)).

Fixpoint checkMarkers (entries : list bytes) : prog dir (list bytes) :=
  match entries with
  | [] => ret []
  | name :: entries =>
      check! lift (validateReceiptName name) ;;
      check! validateMarker name ;;
      let! names := checkMarkers entries in
      ret (name :: names)
  end.

Definition ReadReceiptNames (readyRoot : bytes) (root : RootState) (limit : Z) : prog dir (list bytes) :=
  check! lift (validateRoot readyRoot root) ;;
  fail! limit =? 0 with Errorf "FI generation ingest-ready read limit must be greater than zero" ;;
  fail! max_i64 <? limit with Errorf "FI generation ingest-ready read limit exceeds platform bounds" ;;
  check! wrap_err "open FI generation ingest-ready root %q: %w" (syscall (ret tt)) ;;
  defer_close (
    let! entries := wrap_err "read FI generation ingest-ready root %q: %w" (ReadDirN limit) in
    let! names := checkMarkers entries in
    ret (sort_Strings names)).

End Ready.

(** ** What the calls do *)

Section Facts.
Context `{Unicode}.

(** A well-formed marker under [name]. *)
Definition marker_ok (d : dir) (name : bytes) : Prop :=
  exists nd, lookup_file d name = Some nd /\ i_kind nd = Regular /\ i_perm nd = markerMode /\ i_data nd = [].

Lemma marker_same d d' name :
  names d' !! name = names d !! name -> inodes d' = inodes d -> marker_ok d name -> marker_ok d' name.
Proof. intros Hn Hi (nd & Hl & Hm). exists nd. unfold lookup_file in *. by rewrite Hn, Hi. Qed.

Lemma quiet_validateMarker name : quiet (validateMarker name).
Proof. unfold validateMarker. quiet. Qed.

Lemma validateMarker_Ok name d u d' : validateMarker name d = (Ok u, d') -> marker_ok d name.
Proof.
  unfold validateMarker. intros (info & d1 & Hl & Hr)%bind_Ok.
  apply wrap_err_Ok, Lstat_Ok in Hl as (_ & i & nd & Hn & Hi & ->).
  destruct (_ || _) eqn:E1 in Hr; [done|]. destruct (negb _) eqn:E2 in Hr; [done|]. bool_hyps. cbn in *.
  exists nd. unfold lookup_file. rewrite Hn. split_and!; try done; [lia|]. apply len_zero_nil. lia.
Qed.

Lemma syncDirectory_cases d r d' :
  syncDirectory d = (r, d') -> r <> Panic /\ names d' = names d /\ inodes d' = inodes d /\
    match r with Ok _ => durable d' = names d | _ => True end.
Proof.
  unfold syncDirectory, bind, wrap_err, defer_close, SyncDir.
  destruct (syscall_cases (ret tt) d) as (f & [-> | ->]); [by intros [= <- <-]|]. cbn [wrap ret].
  match goal with |- context [syscall ?p (set_faults f d)] =>
    destruct (syscall_cases p (set_faults f d)) as (f2 & [-> | ->]) end.
  - destruct (quiet_Close (set_faults f2 (set_faults f d))) as [f3 E3]. rewrite E3. by intros [= <- <-].
  - match goal with |- context [Close ?x] => destruct (quiet_Close x) as [f3 E3] end.
    cbn [wrap]. rewrite E3. by intros [= <- <-].
Qed.

Lemma validateMarker_np name d d' : validateMarker name d <> (Panic, d').
Proof.
  unfold validateMarker, bind, wrap_err, Lstat.
  match goal with |- context [syscall ?p d] => destruct (syscall_cases p d) as (f & [-> | ->]) end; [done|].
  cbn. destruct (names d !! name) as [i|]; [|done]. destruct (inodes d !! i); [|done]. cbn.
  destruct (_ || _); [done|]. by destruct (negb _).
Qed.

(** The steps after the creation of the marker. *)
Lemma finishMarker_cases I ino N D name fs :
  N !! name = None ->
  exists n m nd fs' result,
    finishMarker name ino (St I ino (<[name := ino]> N) D (Inode Regular markerMode [] false) fs) =
      (result, St I ino n m nd fs') /\
    (n = <[name := ino]> N \/ n = N) /\
    match result with
    | Ok _ => n = <[name := ino]> N /\ m = n /\ nd = Inode Regular markerMode [] true
    | Err _ => True
    | Panic => False
    end.
Proof.
  intros HN. set (N1 := <[name := ino]> N).
  assert (forall e nd fs0, exists n m nd' fs' (result : res unit),
    (@Err unit e, (Remove name (St I ino N1 D nd fs0)).2) = (result, St I ino n m nd' fs') /\
    (n = N1 \/ n = N) /\
    match result with Ok _ => n = N1 /\ m = n /\ nd' = Inode Regular markerMode [] true | Err _ => True | Panic => False end)
    as Hback.
  { intros e nd fs0. destruct (Remove_St I ino N1 D nd fs0 name) as (f & [-> | [[_ ->] | [_ ->]]]); cbn [snd];
      do 5 eexists; (split; [reflexivity|]); (split; [|done]); [by left|by left|right].
    by apply delete_insert_id. }
  unfold finishMarker, bind at 1, or_remove at 1, or_close, wrap_err at 1, Sync.
  edestruct (update_St I ino) as (f1 & [E|E]); rewrite E; clear E; cbn [wrap].
  { edestruct (close_St I ino) as (f2 & [E|E]); rewrite E; apply Hback. }
  cbn [i_kind i_perm i_data]. set (nd := Inode Regular markerMode [] true).
  unfold bind at 1, or_remove at 1, wrap_err at 1.
  destruct (close_St I ino N1 D nd f1) as (f2 & [-> | ->]); cbn [wrap]; [apply Hback|].
  unfold bind at 1, or_remove at 1, validateMarker, bind at 1, wrap_err at 1.
  destruct (Lstat_St I ino N1 D nd f2 name ino nd) as (f3 & [-> | ->]);
    [apply lookup_insert_eq|apply lookup_insert_eq|apply Hback|]. cbn [wrap].
  cbn [info_of fi_kind fi_perm fi_size i_kind i_perm i_data nd].
  rewrite bool_decide_eq_false_2, bool_decide_eq_true_2 by done.
  change (len []) with 0. cbn -[GoDir.St syncDirectory].
  destruct (syncDirectory (St I ino N1 D nd f3)) as [r d'] eqn:Es.
  assert (exists m fs', d' = St I ino N1 m nd fs' /\ r <> Panic /\ (is_ok r = true -> m = N1)) as (m & f4 & -> & Hnp & Hm).
  { unfold syncDirectory, bind, wrap_err, defer_close, SyncDir in Es.
    destruct (syscall_St I ino (ret tt) N1 D nd f3) as (f & [E|E]); rewrite E in Es; cbn [wrap ret] in Es.
    { injection Es as <- <-. by exists D, f. }
    match type of Es with context [syscall ?p ?x] =>
      destruct (syscall_St I ino p N1 D nd f) as (f5 & [E1|E1]); rewrite E1 in Es; clear E1 end.
    - destruct (close_St I ino N1 D nd f5) as (f6 & [E1|E1]); rewrite E1 in Es; injection Es as <- <-; by exists D, f6.
    - change (set_durable (names (St I ino N1 D nd f5)) (St I ino N1 D nd f5)) with (St I ino N1 N1 nd f5) in Es.
      destruct (close_St I ino N1 N1 nd f5) as (f6 & [E1|E1]); rewrite E1 in Es; injection Es as <- <-; by exists N1, f6. }
  do 5 eexists. split; [reflexivity|]. split; [by left|]. destruct r as [[]|e|]; [|done|done].
  by rewrite Hm.
Qed.

(** Publishing a marker touches one entry. Whatever fails, no other marker changes;
    and when [Publish] succeeds, the receipt has a well-formed empty marker, the directory
    as it is seen is the directory on disk, and a new marker is itself synced, so that it
    survives every crash. *)
Theorem Publish_marks readyRoot root name d result d' :
  wf d -> Publish readyRoot root name d = (result, d') ->
  (forall n, n <> name -> names d' !! n = names d !! n) /\
  forall v, result = Ok v -> marker_ok d' name /\ durable d' = names d' /\
    match Disposition v with
    | PublishDispositionNew => names d !! name = None /\ stable d' name (Inode Regular markerMode [] true)
    | PublishDispositionAlreadyPresent => names d' = names d
    end.
Proof.
  intros (W1 & W2 & W3). unfold Publish, bind at 1, lift.
  destruct (validateRoot readyRoot root) as [u|e|] eqn:E1; [|by intros [= <- <-]..].
  unfold bind at 1. destruct (validateReceiptName name) as [u2|e|] eqn:E2; [|by intros [= <- <-]..].
  unfold CreateExclusive.
  match goal with |- context [syscall ?p d] => destruct (syscall_cases p d) as (f & [-> | ->]) end;
    [by intros [= <- <-]|]. cbn [names durable inodes next_ino faults set_faults].
  destruct (names d !! name) as [i|] eqn:Ei.
  - change (errors_Is ErrExist ErrExist) with true. unfold bind at 1.
    destruct (validateMarker name (set_faults f d)) as [r1 d1] eqn:Ev.
    pose proof Ev as Hq. apply quiet_run in Hq as [f1 ->]; [|apply quiet_validateMarker].
    destruct r1 as [u1|e|]; [|by intros [= <- <-]|exfalso; by eapply validateMarker_np].
    apply validateMarker_Ok in Ev. unfold bind.
    destruct (syncDirectory _) as [r2 d2] eqn:Es. apply syncDirectory_cases in Es as (Hnp & Hn & Hi & Hd).
    destruct r2 as [u3|e|]; [| |done]; intros [= <- <-]; (split; [intros n _; by rewrite Hn|]); [|done]. intros v [= <-]. cbn [Disposition]. rewrite Hn. split_and!; try done.
    by apply (marker_same (set_faults f1 (set_faults f d))); [rewrite Hn|done|].
  - match goal with |- context [Dir ?a ?b ?c ?k f] =>
      change (Dir a b c k f) with (St (inodes d) (next_ino d) a b (Inode Regular markerMode [] false) f) end.
    unfold bind. destruct (finishMarker_cases (inodes d) (next_ino d) (names d) (durable d) name f Ei) as
      (n & m & nd & f2 & r & -> & Hn & Hr). destruct r as [u3|e|]; [| |done]; intros [= <- <-];
      (split; [intros x Hx; destruct Hn as [-> | ->]; cbn; [by rewrite lookup_insert_ne|done]|]); [|done].
    intros v [= <-]. destruct Hr as (-> & -> & ->). cbn [Disposition]. split_and!; try done.
    + eexists. unfold lookup_file. cbn. rewrite lookup_insert_eq. cbn. by rewrite lookup_insert_eq.
    + exists (next_ino d). cbn. by rewrite !lookup_insert_eq.
Qed.

Lemma Remove_names name d r d' :
  Remove name d = (r, d') ->
  inodes d' = inodes d /\ names d' = (if is_ok r then delete name (names d) else names d).
Proof.
  unfold Remove. match goal with |- syscall ?p _ = _ -> _ => destruct (syscall_cases p d) as (f & [-> | ->]) end.
  - by intros [= <- <-].
  - cbn. by destruct (names d !! name); intros [= <- <-].
Qed.

Lemma removeLoop_cases ms : forall seen d r d',
  removeLoop seen ms d = (r, d') ->
  inodes d' = inodes d /\ (forall n, n ∉ ms -> names d' !! n = names d !! n) /\
  (is_ok r = true -> NoDup ms /\ (forall n, n ∈ ms -> (n ∉ seen) /\ names d' !! n = None /\ marker_ok d n)).
Proof.
  induction ms as [|m ms IH]; intros seen d r d'; cbn [removeLoop].
  { intros [= <- <-]. split_and!; [done|done|]. intros _. split; [constructor|]. by intros n Hn%elem_of_nil. }
  unfold bind at 1, lift. destruct (validateReceiptName m); [|by intros [= <- <-]..].
  case_bool_decide as Hseen; [by intros [= <- <-]|]. unfold bind at 1.
  destruct (validateMarker m d) as [r1 d1] eqn:Ev.
  pose proof Ev as Hq. apply quiet_run in Hq as [f1 ->]; [|apply quiet_validateMarker].
  destruct r1 as [u1|e|]; [|by intros [= <- <-]..]. apply validateMarker_Ok in Ev.
  unfold bind, wrap_err. destruct (Remove m (set_faults f1 d)) as [r2 d2] eqn:Er.
  apply Remove_names in Er as [Hi2 Hn2]. cbn in Hi2, Hn2.
  destruct r2 as [u2|e|]; cbn [wrap is_ok] in *; [|intros [= <- <-]; by rewrite Hn2..].
  intros (Hi & Ho & Hok)%IH. rewrite Hi2 in Hi. split; [done|]. split.
  { intros n [Hne Hin]%not_elem_of_cons. rewrite Ho, Hn2 by done. by rewrite lookup_delete_ne. }
  intros [Hnd Hall]%Hok. assert (m ∉ ms) as Hm.
  { intros Hin. destruct (Hall m Hin) as [Hs _]. set_solver. }
  split; [by constructor|]. intros n [-> | Hin]%elem_of_cons.
  - split; [done|]. split; [|done]. rewrite Ho, Hn2 by done. apply lookup_delete_eq.
  - destruct (Hall n Hin) as (Hs & Hnone & Hmk). split; [set_solver|]. split; [done|].
    destruct Hmk as (nd & Hl & Hx). exists nd. split; [|done]. unfold lookup_file in *.
    rewrite Hi2, Hn2 in Hl. destruct (decide (n = m)) as [->|]; [by rewrite lookup_delete_eq in Hl|].
    by rewrite lookup_delete_ne in Hl.
Qed.

(** Retiring markers touches the named entries only. Whatever fails, no other marker
    changes; when [RemoveReceiptNames] succeeds, the names were distinct, each had a
    well-formed marker, none has one any more, and this is on disk. *)
Theorem RemoveReceiptNames_retires readyRoot root ms d r d' :
  RemoveReceiptNames readyRoot root ms d = (r, d') ->
  (forall n, n ∉ ms -> names d' !! n = names d !! n) /\
  (is_ok r = true -> NoDup ms /\ (forall n, n ∈ ms -> marker_ok d n /\ names d' !! n = None) /\
                     (ms <> [] -> durable d' = names d')).
Proof.
  unfold RemoveReceiptNames, bind at 1, lift. destruct (validateRoot readyRoot root); [|by intros [= <- <-]..].
  unfold bind. destruct (removeLoop ∅ ms d) as [r1 d1] eqn:Er. apply removeLoop_cases in Er as (Hi & Ho & Hok).
  destruct r1 as [u|e|]; [|by intros [= <- <-]..]. destruct (Hok eq_refl) as [Hnd Hall].
  destruct (len ms =? 0) eqn:E0.
  - intros [= <- <-]. split; [done|]. intros _. split; [done|]. split; [intros n Hn; by destruct (Hall n Hn) as (_ & ? & ?)|].
    intros Hne. destruct Hne. apply len_zero_nil. lia.
  - intros (Hnp & Hn & _ & Hd)%syncDirectory_cases. rewrite Hn. split; [done|]. intros Hr. split; [done|].
    split; [intros n Hin; by destruct (Hall n Hin) as (_ & ? & ?)|]. intros _. by destruct r.
Qed.

Section Read.
Context (directory_order : gmap bytes nat -> list bytes).
Hypothesis order_names : forall m, directory_order m ≡ₚ (map_to_list m).*1.

Lemma checkMarkers_Ok entries : forall d ns d',
  checkMarkers entries d = (Ok ns, d') -> ns = entries /\ (exists fs, d' = set_faults fs d) /\
    Forall (fun n => marker_ok d n /\ validateReceiptName n = Ok tt) entries.
Proof.
  induction entries as [|n entries IH]; intros d ns d'; cbn [checkMarkers].
  { intros [= <- <-]. split; [done|]. split; [|constructor]. exists (faults d). by rewrite set_faults_id. }
  intros ([] & Hv & Hr)%bind_lift_Ok. apply bind_Ok in Hr as ([] & d1 & Hm & Hr).
  pose proof Hm as Hq. apply quiet_run in Hq as [f1 ->]; [|apply quiet_validateMarker].
  apply validateMarker_Ok in Hm. apply bind_Ok in Hr as (ns1 & d2 & Hc & Hr).
  apply IH in Hc as (-> & [f2 ->] & Hall). injection Hr as <- <-. split; [done|]. split; [by exists f2|].
  constructor; [done|]. exact Hall.
Qed.

(** Reading the queue is exact. The names [ReadReceiptNames] returns are sorted and
    distinct, at most [limit], each is a receipt name with a well-formed marker, and when
    there are fewer than [limit] they are all the entries of the directory; reading
    changes nothing. *)
Theorem ReadReceiptNames_exact readyRoot root limit d ns d' :
  0 <= limit -> ReadReceiptNames directory_order readyRoot root limit d = (Ok ns, d') ->
  (exists fs, d' = set_faults fs d) /\ sorted_strings ns /\ NoDup ns /\ len ns <= limit /\
  Forall (fun n => marker_ok d n /\ validateReceiptName n = Ok tt) ns /\
  (len ns < limit -> forall n, n ∈ ns <-> is_Some (names d !! n)).
Proof.
  intros H0 Hr. unfold ReadReceiptNames in Hr. apply bind_lift_Ok in Hr as ([] & _ & Hr).
  destruct (limit =? 0) in Hr; [done|]. destruct (max_i64 <? limit) in Hr; [done|].
  apply bind_Ok in Hr as ([] & d1 & Ho & Hr). apply quiet_run in Ho as [f1 ->]; [|quiet].
  unfold defer_close in Hr.
  destruct (bind (wrap_err _ (ReadDirN directory_order limit)) _ _) as [r d2] eqn:Eb in Hr.
  destruct (quiet_Close d2) as [f2 E2]. injection Hr as -> Hr. rewrite E2 in Hr. subst d'.
  apply bind_Ok in Eb as (entries & d3 & Hrd & Eb).
  apply wrap_err_Ok in Hrd. unfold ReadDirN in Hrd. apply syscall_Ok in Hrd as [f3 Hrd]. injection Hrd as <- <-.
  apply bind_Ok in Eb as (ns1 & d4 & Hc & Eb). apply checkMarkers_Ok in Hc as (-> & [f4 ->] & Hall).
  injection Eb as <- <-. cbn [names set_faults] in *. set (entries := take _ _) in *.
  assert (NoDup (directory_order (names d))) as Hnd by (rewrite order_names; apply NoDup_fst_map_to_list).
  split; [by exists f2|]. split; [apply sort_Strings_sorted|].
  rewrite sort_Strings_perm. split; [by eapply sublist_NoDup, sublist_take|].
  split; [unfold entries, len; rewrite length_take; lia|].
  split; [exact Hall|]. intros Hlt n. rewrite sort_Strings_perm. unfold entries, len in *. rewrite length_take in Hlt.
  rewrite take_ge by lia. rewrite order_names, list_elem_of_fmap. split.
  - intros ([n' i] & -> & Hin%elem_of_map_to_list). by exists i.
  - intros [i Hi]. exists (n, i). split; [done|]. by apply elem_of_map_to_list.
Qed.

End Read.
End Facts.
(** ** A concrete queue *)

#[local] Existing Instance asciiUnicode.

Definition demoReady : bytes := bs "/srv/ready".
Definition demoReadyRoot : RootState := {|
  EvalSymlinks := Ok demoReady;
  RootInfo := Ok {| fi_ino := 2; fi_kind := Directory; fi_perm := 448; fi_size := 0 |} |}.
Definition demoReceiptName : bytes := bs "generation-1.record.json".
Definition demoPublish := Publish demoReady demoReadyRoot demoReceiptName (empty_dir []).
Definition demoReadyDir : dir := demoPublish.2.
Definition demoPublished : PublishResult := {|
  Disposition := PublishDispositionNew; Path := filepath_Join demoReady demoReceiptName |}.

Lemma demoPublish_ok : Publish demoReady demoReadyRoot demoReceiptName (empty_dir []) = (Ok demoPublished, demoReadyDir).
Proof.
  assert (demoPublish.1 = Ok demoPublished) as H1 by (vm_compute; reflexivity).
  unfold demoReadyDir. rewrite <- H1. fold demoPublish. by destruct demoPublish.
Qed.

Lemma Publish_marks_witness : marker_ok demoReadyDir demoReceiptName /\ durable demoReadyDir = names demoReadyDir.
Proof.
  destruct (Publish_marks demoReady demoReadyRoot demoReceiptName (empty_dir []) (Ok demoPublished) demoReadyDir)
    as [_ Hp].
  - split_and!; intros n i Hn || intros i [x Hn]; cbn in Hn; by rewrite lookup_empty in Hn.
  - exact demoPublish_ok.
  - destruct (Hp _ eq_refl) as (H1 & H2 & _). split; [exact H1|exact H2].
Defined.

Lemma RemoveReceiptNames_retires_witness :
  exists d', RemoveReceiptNames demoReady demoReadyRoot [demoReceiptName] demoReadyDir = (Ok tt, d') /\
    names d' !! demoReceiptName = None /\ durable d' = names d'.
Proof.
  destruct (RemoveReceiptNames demoReady demoReadyRoot [demoReceiptName] demoReadyDir) as [r d'] eqn:E.
  exists d'. assert (r = Ok tt) as ->.
  { change r with (r, d').1. rewrite <- E. vm_compute. reflexivity. }
  split; [reflexivity|].
  destruct (RemoveReceiptNames_retires demoReady demoReadyRoot [demoReceiptName] demoReadyDir (Ok tt) d' E) as [_ Hr].
  destruct (Hr eq_refl) as (_ & H1 & H2). split; [|apply H2; discriminate].
  apply H1. by apply list_elem_of_here.
Defined.

Definition demoOrder (m : gmap bytes nat) : list bytes := (map_to_list m).*1.

Lemma ReadReceiptNames_exact_witness :
  exists d', ReadReceiptNames demoOrder demoReady demoReadyRoot 5 demoReadyDir = (Ok [demoReceiptName], d') /\
    forall n, n ∈ [demoReceiptName] <-> is_Some (names demoReadyDir !! n).
Proof.
  destruct (ReadReceiptNames demoOrder demoReady demoReadyRoot 5 demoReadyDir) as [r d'] eqn:E.
  exists d'. assert (r = Ok [demoReceiptName]) as ->.
  { change r with (r, d').1. rewrite <- E. vm_compute. reflexivity. }
  split; [reflexivity|].
  destruct (ReadReceiptNames_exact demoOrder (fun m => reflexivity _) demoReady demoReadyRoot 5 demoReadyDir
              [demoReceiptName] d') as (_ & _ & _ & _ & _ & H1).
  - done.
  - exact E.
  - apply H1. reflexivity.
Defined.

End generationready.
