(* ===== verification/GenerationRecorder.v ===== *)
(** * The recorder's semantic gate

    Models the streaming inspection of batch data and manifests
    ([go/internal/spool/semantic.go], [validateManifest] of [spool.go]) and the
    recorder that requires a generation to consist of batch pairs
    ([go/internal/generationrecorder/validator.go], [record.go]). The recorder is a
    handler of the canonical reader: its methods read the artifact reader of
    [GenerationCanonical]. *)

From S2P Require Import Prelude GoBytes GoStrings Sha256 GoIO Pki TransportGeneration GenerationCanonical GenerationProtocol.

Module spool.

Definition ManifestVersion : bytes := bs "fi-batch-manifest/0.1".

Definition ErrBatchHashMismatch : error := Sentinel "FI batch SHA-256 mismatch".
Definition ErrBatchCountMismatch : error := Sentinel "FI batch record count mismatch".
Definition ErrBatchSizeMismatch : error := Sentinel "FI batch byte count mismatch".

Record CollectorIdentity := {
  ExecutablePath : bytes;
  ExecutableSHA256 : bytes
}.

Record Manifest := {
  Version : bytes;
  BatchID : bytes;
  TargetBatchSize : Z;
  RecordCount : Z;
  DataBytes : Z;
  DataSHA256 : bytes;
  DataFile : bytes;
  Collector : CollectorIdentity;
  CreatedAt : bytes;
  CompletedAt : bytes
}.

Record DataInspection := {
  InspectedBytes : Z;
  InspectedSHA256 : bytes;
  InspectedRecords : Z
}.

Section Spool.
Context `{Unicode}.

Definition validSHA256 (value : bytes) : bool :=
  if negb (len value =? 64) || negb (bool_decide (value = ToLower value)) then false
  else is_ok (hex_decode value).

Definition validateManifest (value : Manifest) : res unit :=
  fail? negb (bool_decide (Version value = ManifestVersion)) || bool_decide (BatchID value = []) ||
        (TargetBatchSize value <=? 0) || (RecordCount value <=? 0) ||
        (TargetBatchSize value <? RecordCount value) || (DataBytes value <=? 0) ||
        negb (validSHA256 (DataSHA256 value)) || bool_decide (DataFile value = []) ||
        bool_decide (CreatedAt value = []) || bool_decide (CompletedAt value = [])
    with Errorf "invalid FI batch manifest" ;;
  fail? negb (bool_decide (filepath_Base (DataFile value) = DataFile value)) ||
        ContainsAny (DataFile value) transportgeneration.path_separators
    with Errorf "manifest data_file must be a local base filename" ;;
  fail? negb (bool_decide (DataFile value = bs "batch-" ++ BatchID value ++ bs ".jsonl"))
    with Errorf "manifest data_file does not match batch_id" ;;
  fail? bool_decide (ExecutablePath (Collector value) = []) ||
        negb (validSHA256 (ExecutableSHA256 (Collector value)))
    with Errorf "invalid manifest collector identity" ;;
  Ok tt.

(** [DecodeManifest(bytes.NewReader(raw))]. *)
Definition DecodeManifest `{JSON Manifest} (raw : bytes) : res Manifest :=
  let? (manifest, rest) := json_Decode raw in
  fail? negb (forallb json_space rest) with Errorf "manifest contains trailing data" ;;
  check? validateManifest manifest ;;
  Ok manifest.

Definition newline : byte := z2b 10.

(** [bytes.Count(chunk, []byte{'\n'})]. *)
Definition count_newlines (chunk : bytes) : Z :=
  len (List.filter (fun c => bool_decide (c = newline)) chunk).

Definition inspectBufferBytes : Z := 128 * 1024.

(** The read loop of [InspectData], with what was hashed so far. A turn that does not
    end it takes at least one byte off the stream, hence the fuel. *)
Fixpoint inspectLoop (fuel : nat) (hashed : bytes) (total records : Z) (last : byte)
  : prog canonical.canonicalArtifactReader (bytes * Z * Z * byte) := fun reader =>
  match fuel with
  | O => (Panic, reader)
  | S fuel' =>
      let '((chunk, readErr), reader) := canonical.Read inspectBufferBytes reader in
      let n := len chunk in
      let hashed := hashed ++ chunk in
      if (0 <? n) && (max_i64 - total <? n) then
        (Err (Errorf "FI batch data byte count overflow"), reader)
      else
      let total := total + n in
      let newlines := count_newlines chunk in
      if (0 <? n) && (max_i64 - records <? newlines) then
        (Err (Errorf "FI batch record count overflow"), reader)
      else
      let records := records + newlines in
      let last := List.last chunk last in
      match readErr with
      | Some e => if bool_decide (e = EOF) then (Ok (hashed, total, records, last), reader)
                  else (Err e, reader)
      | None => inspectLoop fuel' hashed total records last reader
      end
  end.

Definition InspectData : prog canonical.canonicalArtifactReader DataInspection := fun reader =>
  match inspectLoop (S (length (rd_data (canonical.stream reader)))) [] 0 0 (z2b 0) reader with
  | (Ok (hashed, total, records, last), reader) =>
      (fail? (total =? 0) || negb (bool_decide (last = newline))
         with Errorf "batch data is empty or missing final newline" ;;
       Ok {| InspectedBytes := total; InspectedSHA256 := sha256_hex hashed;
             InspectedRecords := records |}, reader)
  | (Err e, reader) => (Err e, reader)
  | (Panic, reader) => (Panic, reader)
  end.

Definition VerifyManifestData (manifest : Manifest) (inspection : DataInspection) : res unit :=
  check? validateManifest manifest ;;
  fail? negb (bool_decide (InspectedSHA256 inspection = DataSHA256 manifest))
    with ErrBatchHashMismatch ;;
  fail? negb (InspectedBytes inspection =? DataBytes manifest) with ErrBatchSizeMismatch ;;
  fail? negb (InspectedRecords inspection =? RecordCount manifest) with ErrBatchCountMismatch ;;
  Ok tt.

End Spool.

(** ** What the streaming inspection computes

    [inspection_of o] is the inspection of the whole content at once. *)
Definition inspection_of (o : bytes) : DataInspection :=
  {| InspectedBytes := len o; InspectedSHA256 := sha256_hex o; InspectedRecords := count_newlines o |}.

Definition ends_with_newline (o : bytes) : Prop := exists body, o = body ++ [newline].

Lemma count_newlines_app a b : count_newlines (a ++ b) = count_newlines a + count_newlines b.
Proof. unfold count_newlines. by rewrite List.filter_app, len_app. Qed.

Lemma count_newlines_range o : 0 <= count_newlines o <= len o.
Proof. unfold count_newlines, len. pose proof (List.filter_length_le (fun c => bool_decide (c = newline)) o). lia. Qed.

Lemma last_cons_default (x : byte) b d : List.last (x :: b) d = List.last b x.
Proof.
  revert x d. induction b as [|y b IH]; intros x d; [done|].
  change (List.last (x :: y :: b) d) with (List.last (y :: b) d). by rewrite !IH.
Qed.

Lemma last_app_default (a b : bytes) d : List.last (a ++ b) d = List.last b (List.last a d).
Proof.
  revert d. induction a as [|x a IH]; intros d; [done|].
  cbn [app]. rewrite !last_cons_default. apply IH.
Qed.

Lemma last_newline o : ends_with_newline o <-> len o <> 0 /\ List.last o (z2b 0) = newline.
Proof.
  split.
  - intros [body ->]. rewrite last_app_default, len_app, len_cons, len_nil.
    pose proof (len_nonneg body). split; [lia|done].
  - intros [Hl He]. destruct o as [|b o _] using rev_ind; [by destruct Hl|].
    exists o. rewrite last_app_default in He. cbn in He. by rewrite He.
Qed.

(** The loop made reads that reached the end of the artifact, and accumulated what
    they returned. *)
Lemma inspectLoop_reads fuel hashed total records last a hashed' total' records' last' a' :
  total <= max_i64 ->
  inspectLoop fuel hashed total records last a = (Ok (hashed', total', records', last'), a') ->
  exists o, canonical.reads a o a' /\ hashed' = hashed ++ o /\ total' = total + len o /\
    records' = records + count_newlines o /\ last' = List.last o last /\ total' <= max_i64.
Proof.
  revert hashed total records last a. induction fuel as [|fuel IH]; intros hashed total records last a Ht; [done|].
  cbn [inspectLoop]. destruct (canonical.Read inspectBufferBytes a) as [[d e] a1] eqn:Er. cbv zeta.
  destruct ((0 <? len d) && (max_i64 - total <? _)) eqn:Eg; [done|].
  destruct ((0 <? len d) && (max_i64 - records <? _)); [done|].
  assert (total + len d <= max_i64) as Ht' by (pose proof (len_nonneg d); lia).
  destruct e as [e|].
  - case_bool_decide; [|done]. subst e. intros [= <- <- <- <- <-]. exists d.
    split; [|done]. by eapply (canonical.reads_eof _ inspectBufferBytes).
  - intros (o & Ho & -> & -> & -> & -> & ?)%IH; [|done]. exists (d ++ o).
    rewrite <- app_assoc, len_app, count_newlines_app, last_app_default.
    split; [|split; [done|split; [lia|split; [lia|split; [done|lia]]]]].
    by eapply (canonical.reads_more _ inspectBufferBytes).
Qed.

(** On a well-framed artifact the loop delivers the whole content, in any division
    into chunks. *)
Lemma inspectLoop_expects fuel hashed total records last a o rest e :
  canonical.expects a o rest e -> (length o < fuel)%nat ->
  0 <= total -> total + len o <= max_i64 -> 0 <= records -> records + count_newlines o <= max_i64 ->
  inspectLoop fuel hashed total records last a =
    (Ok (hashed ++ o, total + len o, records + count_newlines o, List.last o last),
     canonical.exhausted (canonical.fileBytes a + len o) rest e).
Proof.
  revert hashed total records last a o.
  induction fuel as [|fuel IH]; intros hashed total records last a o He Hf Ht Htm Hn Hnm; [lia|].
  cbn [inspectLoop].
  destruct (canonical.Read_expects inspectBufferBytes a o rest e He) as
    [(-> & ->)|(d & o' & a' & -> & -> & Hd & He' & Hfb)]; [done| |]; cbv zeta.
  - change (count_newlines []) with 0. change (len (@nil byte)) with 0. cbn [Z.ltb Z.compare andb].
    rewrite bool_decide_eq_true_2 by done. by rewrite app_nil_r, !Z.add_0_r.
  - rewrite len_app, count_newlines_app in *. pose proof (len_nonneg o').
    pose proof (count_newlines_range o'). pose proof (count_newlines_range d).
    replace (max_i64 - total <? len d) with false by lia.
    replace (max_i64 - records <? count_newlines d) with false by lia. rewrite !andb_false_r.
    rewrite (IH _ _ _ _ _ o'); [|done| |lia|lia|lia|lia].
    + rewrite Hfb, <- app_assoc, last_app_default, <- !Z.add_assoc. done.
    + rewrite length_app in Hf. unfold len in Hd. lia.
Qed.

(** The loop ends on every stream: it never runs out of fuel. *)
Lemma inspectLoop_no_panic fuel hashed total records last a :
  is_u32 (canonical.chunkRemaining a) -> (length (rd_data (canonical.stream a)) < fuel)%nat ->
  (inspectLoop fuel hashed total records last a).1 <> Panic.
Proof.
  revert hashed total records last a. induction fuel as [|fuel IH]; intros hashed total records last a Ha Hf; [lia|].
  cbn [inspectLoop]. destruct (canonical.Read inspectBufferBytes a) as [[d e] a1] eqn:Er. cbv zeta.
  destruct (_ && _); [done|]. destruct (_ && _); [done|]. destruct e as [e|]; [by case_bool_decide|].
  apply canonical.Read_shorter in Er as [? ?]; [|done|done]. apply IH; [done|lia].
Qed.

Lemma InspectData_no_panic a : is_u32 (canonical.chunkRemaining a) -> (InspectData a).1 <> Panic.
Proof.
  intros Ha. unfold InspectData.
  pose proof (inspectLoop_no_panic (S (length (rd_data (canonical.stream a)))) [] 0 0 (z2b 0) a Ha ltac:(lia)).
  destruct (inspectLoop _ _ _ _ _ _) as [[[[[? ?] ?] ?]| |] ?]; [|done|done].
  cbn. by destruct (_ || _).
Qed.

Lemma InspectData_reads a i a' :
  InspectData a = (Ok i, a') ->
  exists o, canonical.reads a o a' /\ i = inspection_of o /\ ends_with_newline o /\ len o <= max_i64.
Proof.
  unfold InspectData. destruct (inspectLoop _ _ _ _ _ _) as [[[[[hashed total] records] last]| |] a1] eqn:El;
    [|done|done].
  apply inspectLoop_reads in El as (o & Ho & -> & -> & -> & -> & ?); [|done].
  destruct (_ || _) eqn:Eb; [done|]. intros [= <- <-]. bool_hyps. exists o.
  split; [done|]. split; [done|]. split; [apply last_newline; split; [lia|done]|lia].
Qed.

Lemma InspectData_expects a o rest e :
  canonical.expects a o rest e -> ends_with_newline o -> len o <= max_i64 ->
  InspectData a = (Ok (inspection_of o), canonical.exhausted (canonical.fileBytes a + len o) rest e).
Proof.
  intros He Hnl Hmax. unfold InspectData. pose proof (count_newlines_range o).
  rewrite (inspectLoop_expects _ _ _ _ _ _ o rest e) by (try done; pose proof (canonical.expects_length _ _ _ _ He); lia).
  apply last_newline in Hnl as [Hl Hnl]. rewrite !Z.add_0_l. cbn [app].
  replace (len o =? 0) with false by lia. by rewrite Hnl.
Qed.

(** The same decision on the whole content in memory. *)
Definition inspect_whole (o : bytes) : res DataInspection :=
  fail? (len o =? 0) || negb (bool_decide (List.last o (z2b 0) = newline))
    with Errorf "batch data is empty or missing final newline" ;;
  Ok (inspection_of o).

(** [C15] The streaming inspection is the inspection of the whole file: for every division
    of the content into legal chunks, [InspectData] hashes, counts and judges exactly the
    content, as [inspect_whole] does on it at once, and leaves the reader behind it. *)
Theorem InspectData_reference cs rest e :
  Forall generationsealer.legal_chunk cs -> len (concat cs) <= max_i64 ->
  InspectData (canonical.newArtifactReader (Reader (generationsealer.chunks_bytes cs ++
    generationsealer.file_end (len (concat cs)) ++ rest) e)) =
  (inspect_whole (concat cs), canonical.exhausted (len (concat cs)) rest e).
Proof.
  intros Hcs Hmax. pose proof (count_newlines_range (concat cs)). pose proof (len_nonneg (concat cs)).
  assert (canonical.expects (canonical.newArtifactReader (Reader (generationsealer.chunks_bytes cs ++
    generationsealer.file_end (len (concat cs)) ++ rest) e)) (concat cs) rest e) as He.
  { apply (canonical.expects_chunks cs 0 rest e); [done|lia|]. unfold max_u64, max_i64 in *. lia. }
  unfold InspectData. rewrite (inspectLoop_expects _ _ _ _ _ _ (concat cs) rest e)
    by (try done; pose proof (canonical.expects_length _ _ _ _ He); lia).
  unfold inspect_whole. by rewrite !Z.add_0_l.
Qed.

Section Spool_Facts.
Context `{Unicode}.

(** A manifest that describes the data. *)
Definition describes (m : Manifest) (o : bytes) : Prop :=
  DataSHA256 m = sha256_hex o /\ DataBytes m = len o /\ RecordCount m = count_newlines o.

Lemma VerifyManifestData_Ok m o :
  VerifyManifestData m (inspection_of o) = Ok tt <-> validateManifest m = Ok tt /\ describes m o.
Proof.
  unfold VerifyManifestData, describes. cbn [InspectedSHA256 InspectedBytes InspectedRecords inspection_of].
  res_iff. naive_solver.
Qed.

Lemma validateManifest_facts m :
  validateManifest m = Ok tt ->
  BatchID m <> [] /\ DataFile m = bs "batch-" ++ BatchID m ++ bs ".jsonl" /\
  0 < RecordCount m <= TargetBatchSize m /\ 0 < DataBytes m.
Proof. unfold validateManifest. res_iff. intros. destruct_and!. split_and!; try done; lia. Qed.

Lemma DecodeManifest_valid `{JSON Manifest} raw m : DecodeManifest raw = Ok m -> validateManifest m = Ok tt.
Proof. unfold DecodeManifest. intros Hd. res_inv Hd. destruct v as [m' rest]. res_inv Hd. by destruct v. Qed.

End Spool_Facts.
End spool.

Module recorder.

Definition maxSupportedManifestBytes : Z := 64 * 2 ^ 20.

Inductive artifactKind := artifactKindData | artifactKindManifest.

Record Config := { MaxManifestBytes : Z }.

Record Result := {
  ArtifactCount : Z;
  BatchCount : Z;
  DataBytes : Z;
  GenerationID : bytes;
  RecordCount : Z;
  SourceBytes : Z;
  SourceID : bytes
}.

Record pendingBatch := {
  batchID : bytes;
  dataName : bytes;
  inspection : spool.DataInspection
}.

Record validator := Validator {
  batchCount : Z;
  config : Config;
  dataBytes : Z;
  pending : option pendingBatch;
  recordCount : Z
}.

Definition validateConfig (config : Config) : res unit :=
  fail? (MaxManifestBytes config =? 0) || (maxSupportedManifestBytes <? MaxManifestBytes config)
    with Errorf "FI generation recorder maximum manifest bytes must be between 1 and %d" ;;
  Ok tt.

Definition parseArtifactName (name : bytes) : res (bytes * artifactKind) :=
  fail? negb (HasPrefix name (bs "batch-")) with Errorf "unexpected FI generation recorder artifact %q" ;;
  if HasSuffix name (bs ".jsonl") then
    let batchID := TrimSuffix (TrimPrefix name (bs "batch-")) (bs ".jsonl") in
    fail? bool_decide (batchID = []) with Errorf "FI generation data artifact has an empty batch ID" ;;
    Ok (batchID, artifactKindData)
  else if HasSuffix name (bs ".manifest.json") then
    let batchID := TrimSuffix (TrimPrefix name (bs "batch-")) (bs ".manifest.json") in
    fail? bool_decide (batchID = []) with Errorf "FI generation manifest artifact has an empty batch ID" ;;
    Ok (batchID, artifactKindManifest)
  else Err (Errorf "unexpected FI generation recorder artifact %q").

(** [io.ReadAll] over [io.LimitedReader{R: reader, N: remaining}]. The result does not
    depend on the size of the buffer, which starts at 512 bytes. *)
Definition readAllBufferBytes : Z := 512.

Fixpoint readAllLoop (fuel : nat) (remaining : Z) (value : bytes)
  : prog canonical.canonicalArtifactReader bytes := fun reader =>
  if remaining <=? 0 then (Ok value, reader)
  else
    match fuel with
    | O => (Panic, reader)
    | S fuel' =>
        let '((chunk, err), reader) := canonical.Read (Z.min remaining readAllBufferBytes) reader in
        let value := value ++ chunk in
        match err with
        | Some e => if bool_decide (e = EOF) then (Ok value, reader) else (Err e, reader)
        | None => readAllLoop fuel' (remaining - len chunk) value reader
        end
    end.

Definition readManifestBytes (maximum : Z) : prog canonical.canonicalArtifactReader bytes := fun reader =>
  if (maximum =? 0) || (maxSupportedManifestBytes <? maximum) then
    (Err (Errorf "FI generation recorder manifest byte limit is outside supported bounds"), reader)
  else
    let '(value, reader) :=
      readAllLoop (S (length (rd_data (canonical.stream reader)))) (maximum + 1) [] reader in
    ((let? value := value in
      fail? maximum <? len value
        with Errorf "FI generation recorder manifest exceeds configured byte limit" ;;
      Ok value), reader).

Section Recorder.
Context `{Unicode} `{JSON spool.Manifest}.

Abbreviation handler_prog A := (prog (validator * canonical.canonicalArtifactReader) A).

(** A read of the artifact, and an update of the validator. *)
Definition on_reader {A} (p : prog canonical.canonicalArtifactReader A) : handler_prog A :=
  fun '(state, reader) => let '(r, reader) := p reader in (r, (state, reader)).
Definition get_state : handler_prog validator := fun '(state, reader) => (Ok state, (state, reader)).
Definition put_state (state : validator) : handler_prog unit := fun '(_, reader) => (Ok tt, (state, reader)).

Definition consumeData (id name : bytes) : handler_prog unit :=
  let! state := get_state in
  match pending state with
  | Some _ => throw (Errorf "FI generation batch %q data appeared before manifest for prior batch %q")
  | None =>
      let! found := wrap_err "inspect FI generation batch %q data: %w" (on_reader spool.InspectData) in
      put_state {| batchCount := batchCount state; config := config state; dataBytes := dataBytes state;
                   pending := Some {| batchID := id; dataName := name; inspection := found |};
                   recordCount := recordCount state |}
  end.

(** [consumeManifest] once the manifest is decoded. *)
Definition acceptManifest (state : validator) (batch : pendingBatch) (id name : bytes)
    (manifest : spool.Manifest) : res validator :=
  let expectedManifestName := bs "batch-" ++ spool.BatchID manifest ++ bs ".manifest.json" in
  fail? negb (bool_decide (spool.BatchID manifest = id)) ||
        negb (bool_decide (name = expectedManifestName))
    with Errorf "FI generation manifest artifact identity does not match manifest batch ID" ;;
  fail? negb (bool_decide (spool.DataFile manifest = dataName batch))
    with Errorf "FI generation manifest data_file does not match paired data artifact" ;;
  check? wrap "verify FI generation batch %q manifest/data pair: %w"
           (spool.VerifyManifestData manifest (inspection batch)) ;;
  fail? spool.InspectedBytes (inspection batch) <? 0
    with Errorf "FI generation batch data byte count is negative" ;;
  let bytes := u64 (spool.InspectedBytes (inspection batch)) in
  fail? max_u64 - dataBytes state <? bytes
    with Errorf "FI generation recorder data byte count overflow" ;;
  fail? spool.RecordCount manifest <? 0 with Errorf "FI generation batch record count is negative" ;;
  let records := u64 (spool.RecordCount manifest) in
  fail? max_u64 - recordCount state <? records
    with Errorf "FI generation recorder record count overflow" ;;
  fail? batchCount state =? max_u64 with Errorf "FI generation recorder batch count overflow" ;;
  Ok {| batchCount := u64 (batchCount state + 1); config := config state;
        dataBytes := u64 (dataBytes state + bytes); pending := None;
        recordCount := u64 (recordCount state + records) |}.

Definition consumeManifest (id name : bytes) : handler_prog unit :=
  let! state := get_state in
  match pending state with
  | None => throw (Errorf "FI generation batch %q manifest has no preceding data artifact")
  | Some batch =>
      fail! negb (bool_decide (batchID batch = id))
        with Errorf "FI generation manifest batch ID %q does not match preceding data batch ID %q" ;;
      let! manifestBytes := wrap_err "read FI generation batch %q manifest: %w"
        (on_reader (readManifestBytes (MaxManifestBytes (config state)))) in
      let! manifest := lift (wrap "decode FI generation batch %q manifest: %w"
                               (spool.DecodeManifest manifestBytes)) in
      let! state := lift (acceptManifest state batch id name manifest) in
      put_state state
  end.

Definition consumeArtifact (name : bytes) : handler_prog unit :=
  let! (id, kind) := lift (parseArtifactName name) in
  match kind with
  | artifactKindData => consumeData id name
  | artifactKindManifest => consumeManifest id name
  end.

Definition newValidator (descriptor : transportgeneration.Descriptor) (config : Config) : res validator :=
  check? validateConfig config ;;
  check? wrap "validate FI generation recorder descriptor: %w" (transportgeneration.Validate descriptor) ;;
  fail? negb (transportgeneration.ArtifactCount descriptor mod 2 =? 0)
    with Errorf "FI generation recorder requires an even artifact count for batch pairs" ;;
  Ok {| batchCount := 0; config := config; dataBytes := 0; pending := None; recordCount := 0 |}.

Definition validator_result (state : validator) (descriptor : transportgeneration.Descriptor)
    (sourceBytes : Z) : res Result :=
  match pending state with
  | Some _ => Err (Errorf "FI generation batch %q is missing its manifest artifact")
  | None =>
      fail? negb (sourceBytes =? transportgeneration.SourceBytes descriptor)
        with Errorf "FI generation recorder source byte count %d does not match signed descriptor %d" ;;
      fail? negb (u64 (batchCount state * 2) =? transportgeneration.ArtifactCount descriptor)
        with Errorf "FI generation recorder batch count does not match canonical artifact count" ;;
      Ok {| ArtifactCount := transportgeneration.ArtifactCount descriptor;
            BatchCount := batchCount state;
            DataBytes := dataBytes state;
            GenerationID := transportgeneration.GenerationID descriptor;
            RecordCount := recordCount state;
            SourceBytes := sourceBytes;
            SourceID := transportgeneration.SourceID descriptor |}
  end.

Definition ValidateCanonical (descriptor : transportgeneration.Descriptor) (config : Config)
  : prog reader Result := fun r =>
  match newValidator descriptor config with
  | Ok state =>
      let '(read, (state, r)) :=
        canonical.ReadCanonicalArtifacts descriptor (Some consumeArtifact) (state, r) in
      ((let? sourceBytes := wrap "validate FI generation recorder artifact stream: %w" read in
        validator_result state descriptor sourceBytes), r)
  | Err e => (Err e, r)
  | Panic => (Panic, r)
  end.

End Recorder.

(** ** Reading a manifest *)

Lemma readAllLoop_reads fuel remaining value a value' a' :
  readAllLoop fuel remaining value a = (Ok value', a') ->
  exists o, canonical.reads a o a' /\ value' = value ++ o.
Proof.
  revert remaining value a. induction fuel as [|fuel IH]; intros remaining value a; cbn [readAllLoop];
    destruct (remaining <=? 0) eqn:Hr; try done.
  1,2: intros [= <- <-]; exists []; rewrite app_nil_r; split; [constructor|done].
  assert (0 <= Z.min remaining readAllBufferBytes < 2 ^ 32) as Hn by (unfold readAllBufferBytes; lia).
  destruct (canonical.Read _ a) as [[d [e|]] a1] eqn:Er; cbv zeta.
  - case_bool_decide; [|done]. subst e. intros [= <- <-]. exists d. split; [|done].
    by eapply canonical.reads_eof.
  - intros (o & Ho & ->)%IH. exists (d ++ o). rewrite <- app_assoc. split; [|done].
    by eapply canonical.reads_more.
Qed.

Lemma readAllLoop_expects fuel remaining value a o rest e :
  canonical.expects a o rest e -> (length o < fuel)%nat -> len o < remaining ->
  readAllLoop fuel remaining value a =
    (Ok (value ++ o), canonical.exhausted (canonical.fileBytes a + len o) rest e).
Proof.
  revert remaining value a o. induction fuel as [|fuel IH]; intros remaining value a o He Hf Hr; [lia|].
  cbn [readAllLoop]. pose proof (len_nonneg o). replace (remaining <=? 0) with false by lia.
  destruct (canonical.Read_expects (Z.min remaining readAllBufferBytes) a o rest e He) as
    [(-> & ->)|(d & o' & a' & -> & -> & Hd & He' & Hfb)]; [unfold readAllBufferBytes; lia| |]; cbv zeta.
  - rewrite bool_decide_eq_true_2 by done. by rewrite len_nil, Z.add_0_r.
  - rewrite len_app in *. rewrite (IH _ _ _ o'); [|done| |lia].
    + by rewrite Hfb, <- app_assoc, <- Z.add_assoc.
    + rewrite length_app in Hf. unfold len in Hd. lia.
Qed.

Lemma readAllLoop_no_panic fuel remaining value a :
  is_u32 (canonical.chunkRemaining a) -> (length (rd_data (canonical.stream a)) < fuel)%nat ->
  (readAllLoop fuel remaining value a).1 <> Panic.
Proof.
  revert remaining value a. induction fuel as [|fuel IH]; intros remaining value a Ha Hf; [lia|].
  cbn [readAllLoop]. destruct (remaining <=? 0) eqn:Hr; [done|].
  destruct (canonical.Read _ a) as [[d [e|]] a1] eqn:Er; cbv zeta; [by case_bool_decide|].
  apply canonical.Read_shorter in Er as [? ?]; [|unfold readAllBufferBytes; lia|done]. apply IH; [done|lia].
Qed.

Lemma readManifestBytes_reads maximum a raw a' :
  readManifestBytes maximum a = (Ok raw, a') -> canonical.reads a raw a' /\ len raw <= maximum.
Proof.
  unfold readManifestBytes. destruct (_ || _); [done|].
  destruct (readAllLoop _ _ _ _) as [[v| |] a1] eqn:El; cbn; [|done|done].
  apply readAllLoop_reads in El as (o & Ho & ->). destruct (maximum <? len ([] ++ o)) eqn:Em; [done|].
  cbn in *. intros [= <- <-]. split; [done|lia].
Qed.

Lemma readManifestBytes_expects maximum a o rest e :
  0 < maximum <= maxSupportedManifestBytes -> canonical.expects a o rest e -> len o <= maximum ->
  readManifestBytes maximum a = (Ok o, canonical.exhausted (canonical.fileBytes a + len o) rest e).
Proof.
  intros Hm He Ho. unfold readManifestBytes, maxSupportedManifestBytes in *.
  replace (_ || _) with false by lia.
  rewrite (readAllLoop_expects _ _ _ _ o rest e); [|done| |lia].
  - cbn. by replace (maximum <? len o) with false by lia.
  - pose proof (canonical.expects_length _ _ _ _ He). lia.
Qed.

(** ** What the handler makes of an artifact *)

Section Facts.
Context `{Unicode} `{JSON spool.Manifest}.

(** The specification of [consumeArtifact]: the next state of the validator as a
    function of the name and the whole content. *)
Definition consumed (h : validator) (name o : bytes) : option validator :=
  match parseArtifactName name, pending h with
  | Ok (id, artifactKindData), None =>
      if (len o <=? max_i64) && negb (len o =? 0) && bool_decide (List.last o (z2b 0) = spool.newline)
      then Some {| batchCount := batchCount h; config := config h; dataBytes := dataBytes h;
                   pending := Some {| batchID := id; dataName := name; inspection := spool.inspection_of o |};
                   recordCount := recordCount h |}
      else None
  | Ok (id, artifactKindManifest), Some batch =>
      if bool_decide (batchID batch = id) && (len o <=? MaxManifestBytes (config h)) then
        match spool.DecodeManifest o with
        | Ok manifest =>
            match acceptManifest h batch id name manifest with Ok h' => Some h' | _ => None end
        | _ => None
        end
      else None
  | _, _ => None
  end.

Lemma consumeArtifact_steps :
  canonical.handler_steps (Some consumeArtifact) (fun h name o h' => consumed h name o = Some h').
Proof.
  intros name h a h' a' Hr. unfold consumeArtifact in Hr.
  apply bind_lift_Ok in Hr as ([id kind] & Hp & Hr). unfold consumed. rewrite Hp.
  destruct kind; cbn [consumeData consumeManifest] in Hr.
  - unfold consumeData in Hr. apply bind_Ok in Hr as (st & s1 & [= <- <-] & Hr).
    destruct (pending h); [done|]. apply bind_Ok in Hr as (i & s1 & Hi%wrap_err_Ok & Hr).
    unfold on_reader in Hi. destruct (spool.InspectData a) as [x a1] eqn:Ei. injection Hi as -> <-.
    injection Hr as <- <-. apply spool.InspectData_reads in Ei as (o & Ho & -> & [Hl Hnl]%spool.last_newline & Hm).
    exists o. split; [done|]. intros _. rewrite Hnl, bool_decide_eq_true_2 by done.
    replace (len o <=? max_i64) with true by lia. by replace (len o =? 0) with false by lia.
  - unfold consumeManifest in Hr. apply bind_Ok in Hr as (st & s1 & [= <- <-] & Hr).
    destruct (pending h) as [batch|]; [|done]. destruct (bool_decide (batchID batch = id)); [|done].
    apply bind_Ok in Hr as (raw & s1 & Hi%wrap_err_Ok & Hr).
    unfold on_reader in Hi. destruct (readManifestBytes _ a) as [x a1] eqn:Ei. injection Hi as -> <-.
    apply readManifestBytes_reads in Ei as [Ho Hlen]. exists raw.
    apply bind_lift_Ok in Hr as (m & Hm%wrap_Ok & Hr). apply bind_lift_Ok in Hr as (st & Hst & Hr).
    injection Hr as <- <-. split; [done|]. intros _.
    replace (len raw <=? _) with true by lia. cbn [andb]. by rewrite Hm, Hst.
Qed.

Lemma consumeArtifact_runs limit :
  0 < limit <= maxSupportedManifestBytes ->
  canonical.handler_runs (Some consumeArtifact)
    (fun h name o => if MaxManifestBytes (config h) =? limit then consumed h name o else None).
Proof.
  intros Hlim name h h' a o rest e He Hfb Hs. destruct (MaxManifestBytes (config h) =? limit) eqn:El; [|done].
  unfold canonical.consumeOne.
  enough (consumeArtifact name (h, a) = (Ok tt, (h', canonical.exhausted (len o) rest e))) as -> by done.
  unfold consumed in Hs. unfold consumeArtifact.
  destruct (parseArtifactName name) as [[id kind]| |]; [|done|done]. rewrite (bind_lift _ _ (id, kind)) by done.
  destruct kind.
  - unfold consumeData. unfold bind at 1, get_state. cbv beta iota.
    destruct (pending h); [done|]. destruct (_ && _) eqn:Eb in Hs; [|done]. injection Hs as <-. bool_hyps.
    unfold bind, wrap_err, on_reader. rewrite (spool.InspectData_expects a o rest e), Hfb; [done|done| |lia].
    apply spool.last_newline. split; [lia|done].
  - unfold consumeManifest. unfold bind at 1, get_state. cbv beta iota.
    destruct (pending h) as [batch|]; [|done]. destruct (bool_decide (batchID batch = id)); [|done].
    destruct (len o <=? _) eqn:Em in Hs; [|done]. cbn [andb negb] in *.
    unfold bind at 1, wrap_err, on_reader. rewrite (readManifestBytes_expects _ a o rest e), Hfb; [|lia|done|lia].
    cbn [wrap]. destruct (spool.DecodeManifest o) as [m| |]; [|done|done].
    rewrite (bind_lift _ _ m) by done. destruct (acceptManifest _ _ _ _ _) as [h1| |]; [|done|done].
    injection Hs as ->. by rewrite (bind_lift _ _ h') by done.
Qed.

(** ** Batch pairs *)

(** The artifacts [d] and [mf] are the data and the manifest of the batch [m]. *)
Definition batch_pair (limit : Z) (d mf : bytes * list bytes) (m : spool.Manifest) : Prop :=
  d.1 = bs "batch-" ++ spool.BatchID m ++ bs ".jsonl" /\
  mf.1 = bs "batch-" ++ spool.BatchID m ++ bs ".manifest.json" /\
  len (canonical.content mf) <= limit /\ spool.DecodeManifest (canonical.content mf) = Ok m /\
  spool.ends_with_newline (canonical.content d) /\ spool.describes m (canonical.content d) /\
  len (canonical.content d) <= max_i64.

Inductive batch_pairs (limit : Z) : list (bytes * list bytes) -> list spool.Manifest -> Prop :=
| batch_pairs_nil : batch_pairs limit [] []
| batch_pairs_cons d mf m fs ms :
    batch_pair limit d mf m -> batch_pairs limit fs ms -> batch_pairs limit (d :: mf :: fs) (m :: ms).

Definition total (f : spool.Manifest -> Z) (ms : list spool.Manifest) : Z :=
  foldr (fun m n => f m + n) 0 ms.

Lemma total_cons f m ms : total f (m :: ms) = f m + total f ms.
Proof. reflexivity. Qed.

(** The validator after the batches [ms]. *)
Definition after_batches (h : validator) (ms : list spool.Manifest) : validator :=
  {| batchCount := batchCount h + len ms; config := config h;
     dataBytes := dataBytes h + total spool.DataBytes ms; pending := None;
     recordCount := recordCount h + total spool.RecordCount ms |}.

Lemma after_batches_nil h : pending h = None -> after_batches h [] = h.
Proof.
  destruct h as [b c d p r]. unfold after_batches. cbn [pending batchCount config dataBytes recordCount].
  intros ->. change (total _ []) with 0. change (len (@nil spool.Manifest)) with 0. by rewrite !Z.add_0_r.
Qed.

Lemma after_batches_cons h m ms : after_batches h (m :: ms) = after_batches (after_batches h [m]) ms.
Proof.
  unfold after_batches. cbn [batchCount config dataBytes recordCount].
  rewrite !(total_cons _ m). change (total _ []) with 0. rewrite (len_cons m ms). change (len [m]) with 1.
  f_equal; lia.
Qed.

Definition counters_ok (h : validator) : Prop :=
  is_u64 (batchCount h) /\ is_u64 (dataBytes h) /\ is_u64 (recordCount h).

Lemma parse_data_name id :
  id <> [] -> parseArtifactName (bs "batch-" ++ id ++ bs ".jsonl") = Ok (id, artifactKindData).
Proof.
  intros Hid. unfold parseArtifactName. rewrite (proj2 (HasPrefix_spec _ _)) by eauto. cbn [negb].
  rewrite TrimPrefix_app, TrimSuffix_app, bool_decide_eq_false_2 by done.
  rewrite (proj2 (HasSuffix_spec _ _)); [done|]. exists (bs "batch-" ++ id). by rewrite app_assoc.
Qed.

Lemma parse_manifest_name id :
  id <> [] -> parseArtifactName (bs "batch-" ++ id ++ bs ".manifest.json") = Ok (id, artifactKindManifest).
Proof.
  intros Hid. unfold parseArtifactName. rewrite (proj2 (HasPrefix_spec _ _)) by eauto. cbn [negb].
  rewrite TrimPrefix_app, TrimSuffix_app, (bool_decide_eq_false_2 (id = [])) by done.
  assert (HasSuffix (bs "batch-" ++ id ++ bs ".manifest.json") (bs ".jsonl") = false) as ->.
  { unfold HasSuffix. rewrite !reverse_app. reflexivity. }
  rewrite (proj2 (HasSuffix_spec _ _)); [done|]. exists (bs "batch-" ++ id). by rewrite app_assoc.
Qed.

(** What [acceptManifest] asks of the pending batch with data [o]. *)
Lemma acceptManifest_Ok h id dn o idm name m h' :
  counters_ok h -> len o <= max_i64 ->
  acceptManifest h {| batchID := id; dataName := dn; inspection := spool.inspection_of o |} idm name m = Ok h' <->
  (spool.BatchID m = idm /\ name = bs "batch-" ++ spool.BatchID m ++ bs ".manifest.json" /\
   spool.DataFile m = dn /\ spool.validateManifest m = Ok tt /\ spool.describes m o) /\
  counters_ok (after_batches h [m]) /\ h' = after_batches h [m].
Proof.
  intros (Hb & Hd & Hr) Hmax. unfold acceptManifest.
  cbn [dataName inspection spool.InspectedBytes spool.inspection_of].
  pose proof (len_nonneg o). pose proof (spool.count_newlines_range o).
  unfold counters_ok, after_batches in *. cbn [batchCount dataBytes recordCount total foldr].
  unfold is_u64, max_u64, max_i64 in *. change (len [m]) with 1.
  res_iff. rewrite spool.VerifyManifestData_Ok. rewrite (u64_small (len o)) by (unfold is_u64; lia).
  split.
  - intros ([-> ->] & -> & [Hv Hdesc] & _ & G1 & _ & G2 & G3 & [= <-]).
    destruct Hdesc as (Hsha & Hbytes & Hrec). rewrite Hrec in *. rewrite Hbytes in *.
    rewrite (u64_small (spool.count_newlines o)) in * by (unfold is_u64; lia).
    rewrite !u64_small by (unfold is_u64; lia). split; [done|]. split; [lia|f_equal; lia].
  - intros ((-> & -> & -> & Hv & Hdesc) & Hc & ->). pose proof Hdesc as (Hsha & Hbytes & Hrec).
    rewrite Hrec, Hbytes in *.
    rewrite (u64_small (spool.count_newlines o)) by (unfold is_u64; lia).
    split_and!; try done; try lia. rewrite !u64_small by (unfold is_u64; lia). do 2 f_equal; lia.
Qed.

(** With no batch open, a data artifact opens one. *)
Lemma consumed_opens h name o h1 :
  pending h = None -> consumed h name o = Some h1 ->
  (exists id, pending h1 = Some {| batchID := id; dataName := name; inspection := spool.inspection_of o |}) /\
  spool.ends_with_newline o /\ len o <= max_i64 /\
  config h1 = config h /\ batchCount h1 = batchCount h /\ dataBytes h1 = dataBytes h /\
  recordCount h1 = recordCount h.
Proof.
  unfold consumed. intros ->. destruct (parseArtifactName name) as [[id []]| |]; try done.
  destruct (_ && _) eqn:Eb; [|done]. intros [= <-]. bool_hyps. cbn. split; [by eexists|].
  split; [apply spool.last_newline; split; [lia|done]|]. split; [lia|done].
Qed.

(** An open batch is closed by its manifest, and the two artifacts are a pair. *)
Lemma consumed_pair h d mf h1 h2 :
  counters_ok h -> pending h = None ->
  consumed h d.1 (canonical.content d) = Some h1 -> consumed h1 mf.1 (canonical.content mf) = Some h2 ->
  exists m, batch_pair (MaxManifestBytes (config h)) d mf m /\ counters_ok h2 /\ h2 = after_batches h [m].
Proof.
  intros Hc Hp H1 H2.
  apply consumed_opens in H1 as ([id Hp1] & Hnl & Hmax & Hcfg & Hb & Hd & Hr); [|done].
  unfold consumed in H2. rewrite Hp1, Hcfg in H2.
  destruct (parseArtifactName mf.1) as [[idm []]| |]; try done.
  destruct (_ && _) eqn:Eb in H2; [|done]. bool_hyps.
  destruct (spool.DecodeManifest _) as [m| |] eqn:Em; [|done|done].
  destruct (acceptManifest _ _ _ _ _) as [h'| |] eqn:Ea; [|done|done]. injection H2 as ->.
  apply acceptManifest_Ok in Ea as ((Hid & Hn & Hdf & Hv & Hdesc) & Hc' & ->);
    [|by unfold counters_ok; rewrite Hb, Hd, Hr|done].
  destruct (spool.validateManifest_facts m Hv) as (_ & Hdf' & _).
  exists m. split; [|split; [done|unfold after_batches; by rewrite Hcfg, Hb, Hd, Hr]].
  unfold batch_pair. split_and!; try done; [congruence|lia].
Qed.

Lemma steps_batch_pairs limit fs h h' :
  counters_ok h -> pending h = None -> MaxManifestBytes (config h) = limit ->
  canonical.steps_rel (fun h name o h' => consumed h name o = Some h') h fs h' -> pending h' = None ->
  exists ms, batch_pairs limit fs ms /\ h' = after_batches h ms /\ counters_ok h'.
Proof.
  intros Hc Hp Hl. remember (length fs) as n eqn:Hn. revert fs h Hn Hc Hp Hl.
  induction n as [n IH] using lt_wf_ind. intros [|d [|mf fs]] h Hn Hc Hp Hl Hs Hp'.
  - cbn in Hs. subst h'. exists []. split; [constructor|]. split; [|done].
    by rewrite after_batches_nil.
  - destruct Hs as (h1 & H1 & Hs). cbn in Hs. subst h1.
    apply consumed_opens in H1 as ([id Hx] & _); [congruence|done].
  - destruct Hs as (h1 & H1 & h2 & H2 & Hs).
    destruct (consumed_pair h d mf h1 h2 Hc Hp H1 H2) as (m & Hpair & Hc2 & ->).
    destruct (IH (length fs) ltac:(subst; cbn; lia) fs (after_batches h [m])) as (ms & Hms & -> & Hc'); try done.
    exists (m :: ms). split; [constructor; [by rewrite <- Hl|done]|]. by rewrite (after_batches_cons h m ms).
Qed.

(** Records are non-empty lines, so the three totals are ordered. *)
Lemma batch_pairs_totals limit fs ms :
  batch_pairs limit fs ms ->
  len fs = 2 * len ms /\
  0 <= len ms <= total spool.RecordCount ms /\
  total spool.RecordCount ms <= total spool.DataBytes ms <= canonical.total_bytes fs.
Proof.
  induction 1 as [|d mf m fs ms Hp _ IH]; [done|].
  destruct Hp as (_ & _ & _ & Hm%spool.DecodeManifest_valid & _ & (_ & Hb & Hr) & _).
  apply spool.validateManifest_facts in Hm as (_ & _ & Hpos & _).
  rewrite !canonical.total_bytes_cons, !total_cons, !len_cons.
  pose proof (spool.count_newlines_range (canonical.content d)).
  pose proof (len_nonneg (canonical.content mf)). lia.
Qed.

Lemma run_batch_pairs limit fs ms h :
  batch_pairs limit fs ms -> counters_ok h -> pending h = None -> MaxManifestBytes (config h) = limit ->
  counters_ok (after_batches h ms) ->
  canonical.run_steps (fun h name o => if MaxManifestBytes (config h) =? limit then consumed h name o else None)
    h fs = Some (after_batches h ms).
Proof.
  intros Hps. revert h. induction Hps as [|d mf m fs ms Hp Hps IH]; intros h Hc Hn Hl Hc'.
  { cbn. by rewrite after_batches_nil. }
  pose proof (batch_pairs_totals _ _ _ Hps) as (_ & Ht1 & Ht2).
  destruct Hp as (Hd & Hmf & Hlim & Hdec & Hnl & Hdesc & Hmax).
  pose proof (spool.DecodeManifest_valid _ _ Hdec) as Hv.
  pose proof (spool.validateManifest_facts _ Hv) as (Hid & Hdf & Hpos & _).
  assert (counters_ok (after_batches h [m])) as Hc1.
  { destruct Hc as (? & ? & ?), Hc' as (? & ? & ?), Hdesc as (_ & Hb & Hr).
    unfold counters_ok, is_u64, after_batches in *. cbn [batchCount dataBytes recordCount] in *.
    rewrite !(total_cons _ m) in *. change (total _ []) with 0. rewrite (len_cons m ms) in *.
    change (len [m]) with 1. pose proof (len_nonneg (canonical.content d)). lia. }
  cbn [canonical.run_steps]. rewrite Hl, Z.eqb_refl.
  unfold consumed at 1. rewrite Hd, (parse_data_name _ Hid), Hn.
  apply spool.last_newline in Hnl as [Hne Hnl].
  rewrite Hnl, (bool_decide_eq_true_2 (spool.newline = spool.newline)) by done.
  replace (_ <=? max_i64) with true by lia. replace (len (canonical.content d) =? 0) with false by lia.
  cbn [andb negb config]. rewrite Hl, Z.eqb_refl.
  unfold consumed at 1. rewrite Hmf, (parse_manifest_name _ Hid). cbn [pending batchID config].
  rewrite bool_decide_eq_true_2 by done. rewrite Hl. replace (_ <=? limit) with true by lia. cbn [andb].
  rewrite Hdec.
  match goal with |- context [acceptManifest ?h1 ?b ?i ?n m] =>
    assert (acceptManifest h1 b i n m = Ok (after_batches h [m])) as -> by
      (apply acceptManifest_Ok; [exact Hc|exact Hmax|done]) end.
  rewrite (after_batches_cons h m ms) in Hc' |- *. by apply IH.
Qed.

(** The result for the batches [ms]. *)
Definition result_of (d : transportgeneration.Descriptor) (ms : list spool.Manifest) : Result := {|
  ArtifactCount := transportgeneration.ArtifactCount d;
  BatchCount := len ms;
  DataBytes := total spool.DataBytes ms;
  GenerationID := transportgeneration.GenerationID d;
  RecordCount := total spool.RecordCount ms;
  SourceBytes := transportgeneration.SourceBytes d;
  SourceID := transportgeneration.SourceID d |}.

Lemma ValidateCanonical_Ok d cfg r res r' :
  ValidateCanonical d cfg r = (Ok res, r') ->
  exists fs ms, rd_data r = generationsealer.canonical_bytes fs ++ rd_data r' /\
    Forall canonical.valid_artifact fs /\ strictly_sorted fs.*1 /\
    batch_pairs (MaxManifestBytes cfg) fs ms /\ res = result_of d ms /\
    transportgeneration.SourceBytes d = canonical.total_bytes fs /\
    transportgeneration.ArtifactCount d = 2 * len ms /\
    0 < BatchCount res <= RecordCount res /\ RecordCount res <= DataBytes res <= SourceBytes res.
Proof.
  unfold ValidateCanonical. destruct (newValidator d cfg) as [st| |] eqn:En; [|done|done].
  assert (st = {| batchCount := 0; config := cfg; dataBytes := 0; pending := None; recordCount := 0 |}) as ->
    by (unfold newValidator in En; res_inv En; done).
  destruct (canonical.ReadCanonicalArtifacts _ _ _) as [[n|e|] [st r1]] eqn:Er; cbn [wrap res_bind]; [|done|done].
  unfold validator_result. destruct (pending st) eqn:Ep; [done|]. intros [= Hv <-]. res_inv Hv. bool_hyps.
  eapply canonical.ReadCanonicalArtifacts_steps in Er
    as (fs & Hcount & Hpos & Hva & Hso & -> & Hmax & Hd & _ & Hs & _); [|apply consumeArtifact_steps].
  eapply steps_batch_pairs in Hs as (ms & Hps & -> & Hc); [|done|done|done|done]. cbn [config] in Hps.
  destruct (batch_pairs_totals _ _ _ Hps) as (Hlen & Hb & Ht).
  exists fs, ms. rewrite Z.eqb_eq in *. cbn [batchCount dataBytes recordCount after_batches].
  rewrite !Z.add_0_l. unfold result_of. split_and!; try done; cbn; try lia; congruence.
Qed.

(** [C31] The recorder's semantic gate is sound. When [ValidateCanonical] succeeds, the
    bytes it consumed are the canonical stream of a list of batch pairs: every
    [batch-<id>.jsonl] is followed by its [batch-<id>.manifest.json] and nothing else
    is present; every manifest is within the configured size, decodes strictly, is
    valid and carries the batch ID of its name; every data file ends with a newline
    and its manifest states its exact SHA-256, byte count and number of lines. The
    counts reported are the exact sums over the batches, with no wrap-around. *)
Theorem ValidateCanonical_sound d cfg r res r' :
  ValidateCanonical d cfg r = (Ok res, r') ->
  exists fs ms, rd_data r = generationsealer.canonical_bytes fs ++ rd_data r' /\
    Forall canonical.valid_artifact fs /\ strictly_sorted fs.*1 /\
    batch_pairs (MaxManifestBytes cfg) fs ms /\ res = result_of d ms /\
    transportgeneration.SourceBytes d = canonical.total_bytes fs /\
    transportgeneration.ArtifactCount d = 2 * len ms /\
    0 < BatchCount res <= RecordCount res /\ RecordCount res <= DataBytes res <= SourceBytes res.
Proof. apply ValidateCanonical_Ok. Qed.

(** [C32] The gate is complete: a canonical stream of batch pairs that agrees with the
    signed descriptor is accepted, in full and up to its last byte, whatever the
    division into chunks, and the result is the exact summary. In particular no
    overflow guard of the recorder fires. *)
Theorem ValidateCanonical_complete d cfg fs ms rest e :
  0 < MaxManifestBytes cfg <= maxSupportedManifestBytes ->
  transportgeneration.ValidDescriptor d -> transportgeneration.ArtifactCount d = len fs ->
  transportgeneration.SourceBytes d = canonical.total_bytes fs ->
  0 < len fs <= canonical.maxReceiveArtifactCount -> Forall canonical.valid_artifact fs ->
  strictly_sorted fs.*1 -> canonical.total_bytes fs <= max_u64 ->
  batch_pairs (MaxManifestBytes cfg) fs ms ->
  ValidateCanonical d cfg (Reader (generationsealer.canonical_bytes fs ++ rest) e) =
    (Ok (result_of d ms), Reader rest e).
Proof.
  intros Hcfg Hd Hcount Hsrc Hn Hva Hso Hmax Hps.
  destruct (batch_pairs_totals _ _ _ Hps) as (Hlen & Hb & Ht).
  set (st := {| batchCount := 0; config := cfg; dataBytes := 0; pending := None; recordCount := 0 |}).
  assert (newValidator d cfg = Ok st) as Hnew.
  { unfold newValidator, validateConfig. replace (_ || _) with false by lia. cbn [res_bind].
    rewrite (proj2 (transportgeneration.generation_Validate_Ok d) Hd). cbn [wrap res_bind].
    rewrite Hcount, Hlen, Z.mul_comm, Z.mod_mul by lia. done. }
  unfold ValidateCanonical. rewrite Hnew.
  rewrite (canonical.ReadCanonicalArtifacts_layout _ _ d fs st (after_batches st ms) rest e
             (consumeArtifact_runs (MaxManifestBytes cfg) Hcfg)); try done.
  - cbn [wrap res_bind]. unfold validator_result, after_batches, result_of, st.
    cbn [pending batchCount dataBytes recordCount]. unfold max_u64, canonical.maxReceiveArtifactCount in *.
    rewrite Hsrc, Hcount, Hlen, Z.eqb_refl, !Z.add_0_l. cbn [negb].
    rewrite u64_small by (unfold is_u64; lia). rewrite (Z.mul_comm (len ms)), Z.eqb_refl. done.
  - apply run_batch_pairs; try done. unfold counters_ok, is_u64, after_batches, max_u64 in *. cbn. lia.
Qed.

End Facts.

(** ** Concrete generations *)

Definition demoData : bytes := bs "{1}" ++ [spool.newline] ++ bs "{2}" ++ [spool.newline].
Definition demoManifest : spool.Manifest := {|
  spool.Version := spool.ManifestVersion; spool.BatchID := bs "07"; spool.TargetBatchSize := 10;
  spool.RecordCount := 2; spool.DataBytes := 8; spool.DataSHA256 := sha256_hex demoData;
  spool.DataFile := bs "batch-07.jsonl";
  spool.Collector := {| spool.ExecutablePath := bs "C:\fi.exe";
                        spool.ExecutableSHA256 := sha256_hex (bs "fi") |};
  spool.CreatedAt := bs "2026-01-01"; spool.CompletedAt := bs "2026-01-02" |}.
Definition demoManifestText : bytes := bs "{manifest}".
Definition demoBatch : list (bytes * list bytes) :=
  [(bs "batch-07.jsonl", [bs "{1}"; [spool.newline] ++ bs "{2}" ++ [spool.newline]]);
   (bs "batch-07.manifest.json", [demoManifestText])].
Definition demoBatchStream : bytes := Eval vm_compute in generationsealer.canonical_bytes demoBatch.

#[local] Existing Instance asciiUnicode.
#[local] Instance demoManifestJSON : JSON spool.Manifest := fixedJSON demoManifest demoManifestText.

Definition demoBatchDescriptor : transportgeneration.Descriptor := {|
  transportgeneration.Version := transportgeneration.DescriptorVersion;
  transportgeneration.SourceID := bs "FS-01"; transportgeneration.GenerationID := bs "g1";
  transportgeneration.DescriptorCanonicalVersion := transportgeneration.CanonicalVersion;
  transportgeneration.DataEncoding := transportgeneration.DataEncodingZstd;
  transportgeneration.ArtifactCount := 2; transportgeneration.SourceBytes := 18;
  transportgeneration.CanonicalBytes := len demoBatchStream;
  transportgeneration.CanonicalSHA256 := sha256_hex demoBatchStream;
  transportgeneration.EncodedDataBytes := 40;
  transportgeneration.EncodedDataSHA256 := sha256_hex (bs "encoded") |}.
Definition demoRecorderConfig : Config := {| MaxManifestBytes := 10 |}.

Lemma demoBatch_pairs : batch_pairs 10 demoBatch [demoManifest].
Proof.
  constructor; [|constructor]. repeat split; try (vm_compute; reflexivity); try (vm_compute; discriminate).
  exists (bs "{1}" ++ [spool.newline] ++ bs "{2}"). reflexivity.
Qed.

Lemma InspectData_reference_witness :
  (spool.InspectData (canonical.newArtifactReader (Reader (generationsealer.chunks_bytes
     [bs "{1}"; [spool.newline] ++ bs "{2}" ++ [spool.newline]] ++ generationsealer.file_end 8 ++ bs "x") EOF))).1 =
  Ok (spool.inspection_of demoData).
Proof.
  pose proof (spool.InspectData_reference [bs "{1}"; [spool.newline] ++ bs "{2}" ++ [spool.newline]] (bs "x") EOF) as Hr.
  change (concat _) with demoData in Hr. change (len demoData) with 8 in Hr. rewrite Hr.
  - vm_compute. reflexivity.
  - repeat constructor; vm_compute; congruence.
  - vm_compute. congruence.
Defined.

Lemma ValidateCanonical_complete_witness :
  ValidateCanonical demoBatchDescriptor demoRecorderConfig (Reader (generationsealer.canonical_bytes demoBatch ++ bs "x") EOF) =
    (Ok (result_of demoBatchDescriptor [demoManifest]), Reader (bs "x") EOF).
Proof.
  apply (ValidateCanonical_complete demoBatchDescriptor demoRecorderConfig demoBatch [demoManifest] (bs "x") EOF);
    try (vm_compute; reflexivity); try (vm_compute; split; congruence).
  - apply transportgeneration.generation_Validate_Ok. vm_compute. reflexivity.
  - repeat constructor; vm_compute; congruence.
  - repeat constructor; vm_compute; congruence.
  - vm_compute. congruence.
  - exact demoBatch_pairs.
Defined.

Lemma ValidateCanonical_sound_witness :
  exists fs ms, demoBatchStream ++ bs "x" = generationsealer.canonical_bytes fs ++ bs "x" /\
    batch_pairs 10 fs ms /\ len ms = 1 /\ total spool.RecordCount ms = 2.
Proof.
  destruct (ValidateCanonical_sound demoBatchDescriptor demoRecorderConfig (Reader (demoBatchStream ++ bs "x") EOF)
              (result_of demoBatchDescriptor [demoManifest]) (Reader (bs "x") EOF))
    as (fs & ms & Hd & _ & _ & Hps & Hres & _).
  - vm_compute. reflexivity.
  - exists fs, ms. split; [exact Hd|]. split; [exact Hps|].
    unfold result_of in Hres. injection Hres as Hl _ Hr. split; [by rewrite <- Hl|by rewrite <- Hr].
Defined.

End recorder.
