(* ===== verification/GenerationRecord.v ===== *)
(** * The durable recorder receipt

    Models [go/internal/generationrecorder/record.go] (the receipt that binds a transfer
    to what the semantic gate found) and [record_linux.go] (validating a canonical
    stream and publishing its receipt atomically in the recorder directory). *)

From stdpp Require Import gmap.
From S2P Require Import Prelude GoBytes GoStrings Sha256 GoIO GoFS GoDir GoPublish Pki TransportGeneration GenerationCanonical GenerationProtocol GenerationRecorder.

Module record.

Definition RecordedReceiptVersion : bytes := bs "fi-generation-recorded/0.1".
Definition maxRecordedReceiptBytes : Z := 256 * 2 ^ 10.
Definition maxRecordedTransportMetadataBytes : Z := 512 * 2 ^ 10.
Definition generationTransferHeaderBytes : Z := 20.

Record RecordedReceipt := {
  Version : bytes;
  Descriptor : transportgeneration.Descriptor;
  MetadataBytes : Z;
  MetadataSHA256 : bytes;
  TransferBytes : Z;
  TransferSHA256 : bytes;
  BatchCount : Z;
  DataBytes : Z;
  RecordCount : Z
}.

Section Receipt.
Context `{Unicode}.

Definition validateRecorderSHA256 (value : bytes) : res unit :=
  fail? negb (len value =? 64) || negb (bool_decide (value = ToLower value))
    with Errorf "invalid FI generation recorder %s" ;;
  match hex_decode value with
  | Ok decoded => fail? negb (len decoded =? 32) with Errorf "invalid FI generation recorder %s" ;; Ok tt
  | Err _ => Err (Errorf "invalid FI generation recorder %s")
  | Panic => Panic
  end.

(** The size a transfer must have, computed without wrap-around. *)
Definition expectedTransferBytes (overflow : string) (metadataBytes payloadBytes : Z) : res Z :=
  let expected := generationTransferHeaderBytes in
  fail? max_u64 - expected <? metadataBytes with Errorf overflow ;;
  let expected := u64 (expected + metadataBytes) in
  fail? max_u64 - expected <? payloadBytes with Errorf overflow ;;
  Ok (u64 (expected + payloadBytes)).

Definition Validate (receipt : RecordedReceipt) : res unit :=
  fail? negb (bool_decide (Version receipt = RecordedReceiptVersion))
    with Errorf "invalid FI generation recorded receipt version" ;;
  check? wrap "invalid FI generation recorded receipt descriptor: %w"
           (transportgeneration.Validate (Descriptor receipt)) ;;
  fail? (MetadataBytes receipt =? 0) || (maxRecordedTransportMetadataBytes <? MetadataBytes receipt)
    with Errorf "FI generation recorded receipt metadata byte count is outside wire bounds" ;;
  check? validateRecorderSHA256 (MetadataSHA256 receipt) ;;
  check? validateRecorderSHA256 (TransferSHA256 receipt) ;;
  let? expected := expectedTransferBytes "FI generation recorded receipt transfer byte count overflow"
                     (MetadataBytes receipt) (transportgeneration.EncodedDataBytes (Descriptor receipt)) in
  fail? negb (TransferBytes receipt =? expected)
    with Errorf "FI generation recorded receipt transfer byte count is inconsistent" ;;
  fail? BatchCount receipt =? 0
    with Errorf "FI generation recorded receipt batch count must be greater than zero" ;;
  fail? (max_u64 / 2 <? BatchCount receipt) ||
        negb (u64 (BatchCount receipt * 2) =? transportgeneration.ArtifactCount (Descriptor receipt))
    with Errorf "FI generation recorded receipt batch count does not match descriptor artifact count" ;;
  fail? (DataBytes receipt =? 0) || (transportgeneration.SourceBytes (Descriptor receipt) <? DataBytes receipt)
    with Errorf "FI generation recorded receipt data byte count is outside source bounds" ;;
  fail? RecordCount receipt =? 0
    with Errorf "FI generation recorded receipt record count must be greater than zero" ;;
  Ok tt.

Definition MarshalRecordedReceipt `{JSON RecordedReceipt} (receipt : RecordedReceipt) : res bytes :=
  check? Validate receipt ;;
  let? raw := json_Marshal receipt in
  fail? maxRecordedReceiptBytes <? len raw + 1
    with Errorf "FI generation recorded receipt exceeds supported byte limit" ;;
  Ok (raw ++ [spool.newline]).

Definition UnmarshalRecordedReceipt `{JSON RecordedReceipt} (raw : bytes) : res RecordedReceipt :=
  fail? (len raw =? 0) || (maxRecordedReceiptBytes <? len raw)
    with Errorf "FI generation recorded receipt byte count is outside bounds" ;;
  let? (receipt, rest) := json_Decode raw in
  fail? negb (forallb json_space rest)
    with Errorf "FI generation recorded receipt contains trailing JSON" ;;
  check? Validate receipt ;;
  Ok receipt.

Definition validateTransferResult (result : protocol.TransferResult) : res unit :=
  let descriptor := protocol.ResultDescriptor result in
  check? wrap "invalid FI generation recorder transfer descriptor: %w"
           (transportgeneration.Validate descriptor) ;;
  fail? (protocol.MetadataBytes result =? 0) ||
        (maxRecordedTransportMetadataBytes <? protocol.MetadataBytes result)
    with Errorf "FI generation recorder transfer metadata byte count is outside wire bounds" ;;
  check? validateRecorderSHA256 (protocol.MetadataSHA256 result) ;;
  fail? negb (protocol.PayloadBytes result =? transportgeneration.EncodedDataBytes descriptor) ||
        negb (bool_decide (protocol.PayloadSHA256 result = transportgeneration.EncodedDataSHA256 descriptor))
    with Errorf "FI generation recorder transfer payload identity does not match descriptor" ;;
  check? validateRecorderSHA256 (protocol.TransferSHA256 result) ;;
  let? expected := expectedTransferBytes "FI generation recorder transfer byte count overflow"
                     (protocol.MetadataBytes result) (protocol.PayloadBytes result) in
  fail? negb (protocol.TransferBytes result =? expected)
    with Errorf "FI generation recorder transfer byte count is inconsistent" ;;
  Ok tt.

Definition recordedReceiptFromResult (transfer : protocol.TransferResult) (semantic : recorder.Result)
  : res RecordedReceipt :=
  check? validateTransferResult transfer ;;
  let descriptor := protocol.ResultDescriptor transfer in
  fail? negb (bool_decide (recorder.SourceID semantic = transportgeneration.SourceID descriptor)) ||
        negb (bool_decide (recorder.GenerationID semantic = transportgeneration.GenerationID descriptor)) ||
        negb (recorder.ArtifactCount semantic =? transportgeneration.ArtifactCount descriptor) ||
        negb (recorder.SourceBytes semantic =? transportgeneration.SourceBytes descriptor)
    with Errorf "FI generation recorder semantic result does not match validated transfer descriptor" ;;
  let receipt := {|
    Version := RecordedReceiptVersion;
    Descriptor := descriptor;
    MetadataBytes := protocol.MetadataBytes transfer;
    MetadataSHA256 := protocol.MetadataSHA256 transfer;
    TransferBytes := protocol.TransferBytes transfer;
    TransferSHA256 := protocol.TransferSHA256 transfer;
    BatchCount := recorder.BatchCount semantic;
    DataBytes := recorder.DataBytes semantic;
    RecordCount := recorder.RecordCount semantic |} in
  check? Validate receipt ;;
  Ok receipt.

End Receipt.

(** ** The recorder directory: [record_linux.go] *)

Definition recordedIdentityDomain : bytes := bs "FI-GENERATION-RECORDED-IDENTITY-V1".
Definition ErrRecordedGenerationConflict : error :=
  Sentinel "FI generation identity conflicts with existing durable recorder receipt".

Record DurableConfig := { RootDir : bytes; Semantic : recorder.Config }.

Inductive RecordedDisposition := RecordedDispositionAlreadyRecorded | RecordedDispositionNew.

Record DurableResult := {
  Disposition : RecordedDisposition;
  Receipt : RecordedReceipt;
  ReceiptBytes : Z;
  ReceiptPath : bytes;
  ReceiptSHA256 : bytes;
  SemanticResult : recorder.Result
}.

Definition recordedObjectName (sourceID generationID : bytes) : bytes :=
  let hashed := recordedIdentityDomain ++ PutUint64BE (len sourceID) ++ sourceID ++
                PutUint64BE (len generationID) ++ generationID in
  bs "generation-" ++ hex_encode (sha256 hashed) ++ bs ".record.json".

Definition validateDurableConfig (config : DurableConfig) (root : RootState) : res unit :=
  check? recorder.validateConfig (Semantic config) ;;
  fail? bool_decide (RootDir config = []) with Errorf "FI generation recorder root directory is required" ;;
  fail? negb (filepath_IsAbs (RootDir config))
    with Errorf "FI generation recorder root directory must be absolute" ;;
  let clean := filepath_Clean (RootDir config) in
  let? resolved := wrap "resolve FI generation recorder root directory: %w" (EvalSymlinks root) in
  fail? negb (bool_decide (resolved = clean))
    with Errorf "FI generation recorder root directory path must not traverse symlinks" ;;
  let? info := wrap "inspect FI generation recorder root directory: %w" (RootInfo root) in
  fail? bool_decide (fi_kind info = Symlink)
    with Errorf "FI generation recorder root directory must not be a symlink" ;;
  fail? negb (bool_decide (fi_kind info = Directory))
    with Errorf "FI generation recorder root path must be a directory" ;;
  fail? negb (Z.land (fi_perm info) 18 =? 0)
    with Errorf "FI generation recorder root directory must not be group- or other-writable: mode=%04o" ;;
  Ok tt.

(** From the open descriptor to its [Close]: the whole content, which must have the
    expected length. *)
Definition readReceipt (initial : FileInfo) (size : Z) (file : nat) : prog dir bytes :=
  let! opened := Fstat file in
  fail! negb (bool_decide (fi_ino initial = fi_ino opened))
    with Errorf "existing FI generation recorder receipt changed while being opened" ;;
  let! r := file_reader file in
  let '(actual, r) := ReadFull size r in
  let! actual := lift actual in
  fail! negb (bool_decide (rd_data r = [])) || negb (errors_Is (rd_end r) EOF)
    with Errorf "existing FI generation recorder receipt contains trailing bytes" ;;
  ret actual.

Definition compareRecordedReceipt (name expected : bytes) : prog dir bool :=
  let! initial := Lstat name in
  fail! bool_decide (fi_kind initial = Symlink) || negb (bool_decide (fi_kind initial = Regular)) ||
        negb (fi_perm initial =? perm_0400)
    with Errorf "existing FI generation recorder receipt must be a read-only regular file" ;;
  if negb (fi_size initial =? len expected) then ret false
  else
    let! file := Open name in
    let! actual := or_close (readReceipt initial (len expected) file) in
    check! Close ;;
    let! final := Lstat name in
    fail! negb (bool_decide (fi_ino initial = fi_ino final))
      with Errorf "existing FI generation recorder receipt changed during comparison" ;;
    ret (bool_decide (actual = expected)).

(** [errors.Join(syncErr, closeErr)]: both calls are made. *)
Definition errors_Join (r1 r2 : res unit) : res unit :=
  match r1, r2 with
  | Err e1, Err e2 => Err (Join e1 e2)
  | Err e, _ | _, Err e => Err (Wrap "errors.Join" e)
  | Panic, _ | _, Panic => Panic
  | Ok _, Ok _ => Ok tt
  end.

Definition syncRecordedDirectory : prog dir unit :=
  check! syscall (ret tt) ;;
  fun d =>
    let '(syncErr, d) := SyncDir d in
    let '(closeErr, d) := Close d in
    (errors_Join syncErr closeErr, d).

(** [os.File.Write] reports an error whenever it writes less than asked, so the loop
    makes one call, and none for an empty value. *)
Definition writeAllRecorded (file : nat) (value : bytes) : prog dir unit :=
  if len value =? 0 then ret tt else FileWrite file value.

(** The final name already exists. The outcome of the comparison is looked at only
    after the provisional file is gone and the directory synced. *)
Definition resolveExisting (provisionalName finalName raw : bytes) : prog publish_state RecordedDisposition :=
  fun s =>
    let '(equal, s) := on_dir (compareRecordedReceipt finalName raw) s in
    (check! on_dir (wrap_err "remove duplicate/conflicting provisional FI generation recorder receipt: %w"
                      (Remove provisionalName)) ;;
     check! set_keep false ;;
     check! on_dir syncRecordedDirectory ;;
     let! equal := lift equal in
     fail! negb equal with ErrRecordedGenerationConflict ;;
     ret RecordedDispositionAlreadyRecorded) s.

(** The final name was linked by this call. *)
Definition finishReceipt (provisionalName finalName raw : bytes) : prog publish_state RecordedDisposition :=
  check! on_dir (wrap_err "remove provisional FI generation recorder receipt name after publication: %w"
                   (Remove provisionalName)) ;;
  check! set_keep false ;;
  check! on_dir syncRecordedDirectory ;;
  let! equal := on_dir (compareRecordedReceipt finalName raw) in
  fail! negb equal
    with Errorf "published FI generation recorder receipt changed after durable publication" ;;
  ret RecordedDispositionNew.

Definition linkReceipt (provisionalName finalName raw : bytes) : prog publish_state RecordedDisposition :=
  let! info := on_dir (Lstat provisionalName) in
  fail! bool_decide (fi_kind info = Symlink) || negb (bool_decide (fi_kind info = Regular)) ||
        negb (fi_perm info =? perm_0400) || negb (fi_size info =? len raw)
    with Errorf "provisional FI generation recorder receipt failed publication invariants" ;;
  fun s =>
    match on_dir (Link provisionalName finalName) s with
    | (Ok _, s) => finishReceipt provisionalName finalName raw s
    | (Err e, s) =>
        if negb (errors_Is e ErrExist)
        then (Err (Wrap "publish FI generation recorder receipt: %w" e), s)
        else resolveExisting provisionalName finalName raw s
    | (Panic, s) => (Panic, s)
    end.

Definition publishBody (provisionalName finalName raw : bytes) (provisional : nat)
  : prog publish_state RecordedDisposition :=
  check! on_dir (writeAllRecorded provisional raw) ;;
  check! sealProvisional "make provisional FI generation recorder receipt read-only: %w"
           "sync provisional FI generation recorder receipt: %w"
           "close provisional FI generation recorder receipt: %w" provisional ;;
  linkReceipt provisionalName finalName raw.

Definition publishRecordedReceipt (finalName raw : bytes) : prog dir RecordedDisposition := fun d =>
  match wrap_err "create provisional FI generation recorder receipt: %w"
          (CreateTemp (bs ".fi-generation-recorded-") (bs ".open")) d with
  | (Ok (provisionalName, provisional), d) =>
      let '(result, s) := publishBody provisionalName finalName raw provisional (PS d true true) in
      (result, publishDefer provisionalName s)
  | (Err e, d) => (Err e, d)
  | (Panic, d) => (Panic, d)
  end.

Section Durable.
Context `{Unicode} `{JSON spool.Manifest} `{JSON RecordedReceipt}.

Definition publishRecordedSemanticResult (transfer : protocol.TransferResult) (semantic : recorder.Result)
    (config : DurableConfig) : prog dir DurableResult :=
  let! receipt := lift (recordedReceiptFromResult transfer semantic) in
  let! raw := lift (MarshalRecordedReceipt receipt) in
  let receiptSHA256 := sha256_hex raw in
  let finalName := recordedObjectName (transportgeneration.SourceID (Descriptor receipt))
                     (transportgeneration.GenerationID (Descriptor receipt)) in
  let finalPath := filepath_Join (RootDir config) finalName in
  let! disposition := publishRecordedReceipt finalName raw in
  ret {| Disposition := disposition; Receipt := receipt; ReceiptBytes := len raw;
         ReceiptPath := finalPath; ReceiptSHA256 := receiptSHA256; SemanticResult := semantic |}.

(** [recordingCountWriter.Write]. *)
Definition recordingCountWriter_Write (value : bytes) (count : Z) : res Z :=
  fail? max_u64 - count <? len value
    with Errorf "FI generation recorder canonical byte count overflow" ;;
  Ok (u64 (count + len value)).

(** The semantic gate over [io.TeeReader(reader, io.MultiWriter(hasher, counter))]: the
    result, the bytes that went through, and the stream. The counter refuses to wrap
    around, which ends the stream with an error. *)
Definition teeValidate (descriptor : transportgeneration.Descriptor) (config : recorder.Config)
  : prog reader (recorder.Result * bytes * Z) := fun r =>
  let '(semantic, r') := recorder.ValidateCanonical descriptor config r in
  let taken := take (length (rd_data r) - length (rd_data r')) (rd_data r) in
  ((let? counted := recordingCountWriter_Write taken 0 in
    let? semantic := semantic in
    Ok (semantic, taken, counted)), r').

Definition RecordCanonicalDurably (transfer : protocol.TransferResult) (config : DurableConfig)
    (root : RootState) : prog (reader * dir) DurableResult := fun '(r, d) =>
  let descriptor := protocol.ResultDescriptor transfer in
  match (check? validateDurableConfig config root ;; validateTransferResult transfer) with
  | Ok _ =>
      let '(teed, r) := teeValidate descriptor (Semantic config) r in
      match
        (let? (semantic, taken, counted) := teed in
         fail? negb (bool_decide (rd_data r = [])) || negb (errors_Is (rd_end r) EOF)
           with Errorf "FI generation recorder canonical stream contains trailing bytes or did not terminate cleanly" ;;
         fail? negb (counted =? transportgeneration.CanonicalBytes descriptor)
           with Errorf "FI generation recorder canonical byte count %d does not match signed descriptor %d" ;;
         fail? negb (bool_decide (sha256_hex taken = transportgeneration.CanonicalSHA256 descriptor))
           with Errorf "FI generation recorder canonical SHA-256 does not match signed descriptor" ;;
         Ok semantic)
      with
      | Ok semantic =>
          let '(result, d) := publishRecordedSemanticResult transfer semantic config d in
          (result, (r, d))
      | Err e => (Err e, (r, d))
      | Panic => (Panic, (r, d))
      end
  | Err e => (Err e, (r, d))
  | Panic => (Panic, (r, d))
  end.

End Durable.

(** ** Receipts *)

Section Receipt_Facts.
Context `{Unicode}.

Lemma receipt_round_trip `{JSONLaws RecordedReceipt} receipt raw :
  json_ok receipt -> MarshalRecordedReceipt receipt = Ok raw -> UnmarshalRecordedReceipt raw = Ok receipt.
Proof.
  intros Hok Hm. unfold MarshalRecordedReceipt in Hm. res_inv Hm. destruct v.
  match goal with Hj : json_Marshal _ = Ok _ |- _ => pose proof (json_delimited _ _ [spool.newline] Hok Hj) as Hd end.
  unfold UnmarshalRecordedReceipt. rewrite len_app, len_cons, len_nil.
  match goal with Hj : json_Marshal _ = Ok ?t |- _ => pose proof (len_nonneg t) end.
  replace (_ || _) with false by lia. rewrite Hd. cbn. by rewrite E.
Qed.

(** A receipt survives its storage: what [MarshalRecordedReceipt] wrote, final
    newline included, is read back by [UnmarshalRecordedReceipt] as the same receipt. *)
Theorem MarshalRecordedReceipt_round_trip `{JSONLaws RecordedReceipt} receipt raw :
  json_ok receipt -> MarshalRecordedReceipt receipt = Ok raw -> UnmarshalRecordedReceipt raw = Ok receipt.
Proof. apply receipt_round_trip. Qed.

(** The receipt of a transfer and the result of the semantic gate. *)
Definition receipt_of (transfer : protocol.TransferResult) (semantic : recorder.Result) : RecordedReceipt := {|
  Version := RecordedReceiptVersion;
  Descriptor := protocol.ResultDescriptor transfer;
  MetadataBytes := protocol.MetadataBytes transfer;
  MetadataSHA256 := protocol.MetadataSHA256 transfer;
  TransferBytes := protocol.TransferBytes transfer;
  TransferSHA256 := protocol.TransferSHA256 transfer;
  BatchCount := recorder.BatchCount semantic;
  DataBytes := recorder.DataBytes semantic;
  RecordCount := recorder.RecordCount semantic |}.

Lemma recordedReceiptFromResult_Ok transfer semantic receipt :
  recordedReceiptFromResult transfer semantic = Ok receipt -> receipt = receipt_of transfer semantic.
Proof. unfold recordedReceiptFromResult. intros Hr. res_inv Hr. done. Qed.

End Receipt_Facts.

(** ** Publication *)

(** The names of receipts. *)
Definition record_name (n : bytes) : bool :=
  HasPrefix n (bs "generation-") && HasSuffix n (bs ".record.json").

Lemma recordedObjectName_record s g : record_name (recordedObjectName s g) = true.
Proof.
  unfold record_name, recordedObjectName. rewrite (proj2 (HasPrefix_spec _ _)) by eauto.
  rewrite (proj2 (HasSuffix_spec _ _)); [done|]. eexists. by rewrite app_assoc.
Qed.

Lemma provisional_no_record k : record_name (temp_name (bs ".fi-generation-recorded-") (bs ".open") k) = false.
Proof. done. Qed.

Definition receipts : publication := {|
  object_name := record_name;
  temp_prefix := bs ".fi-generation-recorded-";
  temp_suffix := bs ".open";
  temp_not_object := provisional_no_record |}.

#[local] Opaque recordedObjectName.

(** Read-only calls end here when one fails. *)
Ltac failed := do 2 eexists; split; [reflexivity|done].

Section Publish.
Context (N D : gmap bytes nat) (I : gmap nat inode) (ino : nat) (prov final raw : bytes).
Hypothesis prov_unused : N !! prov = None.
Hypothesis prov_final : prov <> final.
Hypothesis ino_fresh : I !! ino = None.
Hypothesis names_wf : forall name j, N !! name = Some j -> is_Some (I !! j).

#[local] Abbreviation St := (GoDir.St I ino).
#[local] Abbreviation leftover := (GoDir.leftover D ino prov).

Lemma readReceipt_cases n m nd fs j ndj size :
  <[ino := nd]> I !! j = Some ndj -> len (i_data ndj) = size ->
  exists fs' result, or_close (readReceipt (info_of j ndj) size j) (St n m nd fs) = (result, St n m nd fs') /\
    match result with Ok actual => actual = i_data ndj | Err _ => True | Panic => False end.
Proof.
  intros Hj Hl.
  assert (exists fs' result, readReceipt (info_of j ndj) size j (St n m nd fs) = (result, St n m nd fs') /\
    match result with Ok actual => actual = i_data ndj | Err _ => True | Panic => False end)
    as (f & result & Hr & Hx).
  { unfold readReceipt, bind.
    destruct (Fstat_St I ino n m nd fs j ndj Hj) as (f1 & [-> | ->]); [failed|]. cbn.
    rewrite bool_decide_eq_true_2 by done. cbn.
    destruct (file_reader_St I ino n m nd f1 j ndj Hj) as (f2 & r & -> & [k Hk]).
    destruct (ReadFull size r) as [[actual|e|] r'] eqn:Er; [|failed|].
    - destruct (_ || _) eqn:Eb; cbn; [failed|]. bool_hyps. do 2 eexists. split; [reflexivity|].
      apply ReadFull_Ok in Er as (Hd & _ & Ha). pose proof (len_nonneg (i_data ndj)). specialize (Ha ltac:(lia)).
      match goal with Hn : rd_data r' = [] |- _ => rewrite Hn, app_nil_r in Hd end.
      rewrite Hk in Hd. subst actual. apply take_ge. apply (f_equal Z.to_nat) in Ha.
      unfold len in Ha, Hl. rewrite length_take in Ha. lia.
    - unfold ReadFull in Er. by destruct (size <=? _). }
  unfold or_close. rewrite Hr. destruct result as [a|e|]; [by do 2 eexists| |done].
  destruct (close_St I ino n m nd f) as (f' & [-> | ->]); by do 2 eexists.
Qed.

(** Comparing with an existing receipt only reads. *)
Lemma compareRecordedReceipt_cases n m nd fs j ndj :
  n !! final = Some j -> <[ino := nd]> I !! j = Some ndj ->
  exists fs' result, compareRecordedReceipt final raw (St n m nd fs) = (result, St n m nd fs') /\
    match result with
    | Ok true => i_data ndj = raw
    | Ok false => i_data ndj <> raw
    | Err _ => True
    | Panic => False
    end.
Proof.
  intros Hf Hj. unfold compareRecordedReceipt, bind.
  destruct (Lstat_St I ino n m nd fs final j ndj Hf Hj) as (f1 & [-> | ->]); [failed|].
  cbn [info_of fi_kind fi_perm fi_size]. destruct (_ || _); [failed|].
  destruct (len (i_data ndj) =? len raw) eqn:El; cbn [negb].
  2: { do 2 eexists. split; [reflexivity|]. intros E. rewrite E in El. lia. }
  destruct (Open_St I ino n m nd f1 final j Hf) as (f2 & [-> | ->]); [failed|].
  destruct (readReceipt_cases n m nd f2 j ndj (len raw) Hj ltac:(lia)) as (f3 & [actual|e|] & -> & Hx);
    [|failed|done]. subst actual.
  destruct (close_St I ino n m nd f3) as (f4 & [-> | ->]); [failed|].
  destruct (Lstat_St I ino n m nd f4 final j ndj Hf Hj) as (f5 & [-> | ->]); [failed|].
  cbn. rewrite bool_decide_eq_true_2 by done. cbn. do 2 eexists. split; [reflexivity|].
  by case_bool_decide.
Qed.

Lemma syncRecordedDirectory_St n m nd fs :
  exists fs', syncRecordedDirectory (St n m nd fs) = (Ok tt, St n n nd fs') \/
    (exists e m', (m' = m \/ m' = n) /\
      syncRecordedDirectory (St n m nd fs) = (Err e, St n m' nd fs')).
Proof.
  unfold syncRecordedDirectory, SyncDir, bind.
  destruct (syscall_St I ino (ret tt) n m nd fs) as (f1 & [-> | ->]).
  { exists f1. right. exists EIO, m. split; [by left|done]. }
  cbn [ret].
  destruct (syscall_St I ino (fun d => (Ok tt, set_durable (names d) d)) n m nd f1) as (f2 & [-> | ->]).
  - destruct (close_St I ino n m nd f2) as (f3 & [-> | ->]); exists f3; right; do 2 eexists; (split; [|reflexivity]); by left.
  - change (set_durable (names (St n m nd f2)) (St n m nd f2)) with (St n n nd f2).
    destruct (close_St I ino n n nd f2) as (f3 & [-> | ->]); exists f3; [right|by left].
    do 2 eexists; (split; [|reflexivity]); by right.
Qed.

(** What a publication that ended in [result] left, when the provisional file holds [raw]. *)
Definition outcome (result : res RecordedDisposition) (n m : gmap bytes nat) (keep : bool) : Prop :=
  match result with
  | Ok RecordedDispositionNew => N !! final = None /\ n = <[final := ino]> N /\ m = n /\ keep = false
  | Ok RecordedDispositionAlreadyRecorded => n = N /\ m = N /\ keep = false /\
      exists j ndj, N !! final = Some j /\ I !! j = Some ndj /\ i_data ndj = raw
  | Err _ => leftover N n m \/ (N !! final = None /\ leftover (<[final := ino]> N) n m)
  | Panic => False
  end.

Lemma names_untouched e keep : outcome (Err e) (<[prov := ino]> N) D keep.
Proof. left. split; [by right|by left]. Qed.

Lemma finishReceipt_cases nd fs op :
  N !! final = None ->
  exists n m fs' keep result,
    finishReceipt prov final raw (PS (St (<[final := ino]> (<[prov := ino]> N)) D nd fs) op true) =
      (result, PS (St n m nd fs') op keep) /\ outcome result n m keep.
Proof.
  intros HF. unfold finishReceipt, bind, on_dir, wrap_err. cbn [ps_dir provisionalOpen keepProvisional].
  destruct (Remove_St I ino (<[final := ino]> (<[prov := ino]> N)) D nd fs prov) as
    (f1 & [-> | [[Hn _] | [_ ->]]]); cbn.
  { do 5 eexists. split; [reflexivity|]. right. split; [done|]. split; [right|by left].
    by rewrite insert_insert_ne. }
  { by rewrite lookup_insert_ne, lookup_insert_eq in Hn. }
  assert (delete prov (<[final := ino]> (<[prov := ino]> N)) = <[final := ino]> N) as ->.
  { rewrite delete_insert_ne by done. by rewrite delete_insert_id. }
  destruct (syncRecordedDirectory_St (<[final := ino]> N) D nd f1) as (f2 & [-> | (e & m' & Hm & ->)]); cbn.
  2: { do 5 eexists. split; [reflexivity|]. right. split; [done|]. split; [by left|tauto]. }
  assert (leftover (<[final := ino]> N) (<[final := ino]> N) (<[final := ino]> N)) as Hl
    by (split; [by left|right; by left]).
  destruct (compareRecordedReceipt_cases (<[final := ino]> N) (<[final := ino]> N) nd f2 ino nd) as
    (f3 & [[]|e|] & -> & Hx); [apply lookup_insert_eq|apply lookup_insert_eq|..|done]; cbn;
    do 5 eexists; (split; [reflexivity|]); [done|right|right]; done.
Qed.

Lemma resolveExisting_cases nd fs op j ndj :
  N !! final = Some j -> I !! j = Some ndj ->
  exists n m fs' keep result,
    resolveExisting prov final raw (PS (St (<[prov := ino]> N) D nd fs) op true) =
      (result, PS (St n m nd fs') op keep) /\ outcome result n m keep.
Proof.
  intros HF HI. unfold resolveExisting, on_dir. cbn [ps_dir provisionalOpen keepProvisional].
  destruct (compareRecordedReceipt_cases (<[prov := ino]> N) D nd fs j ndj) as (f1 & equal & -> & Hx);
    [by rewrite lookup_insert_ne|rewrite lookup_insert_ne; [done|intros ->; congruence]|].
  unfold bind, wrap_err. cbn [ps_dir provisionalOpen keepProvisional].
  destruct (Remove_St I ino (<[prov := ino]> N) D nd f1 prov) as (f2 & [-> | [[Hn _] | [_ ->]]]); cbn.
  { do 5 eexists. split; [reflexivity|]. apply names_untouched. }
  { by rewrite lookup_insert_eq in Hn. }
  rewrite delete_insert_id by done.
  destruct (syncRecordedDirectory_St N D nd f2) as (f3 & [-> | (e & m' & Hm & ->)]); cbn.
  2: { do 5 eexists. split; [reflexivity|]. left. split; [by left|tauto]. }
  assert (leftover N N N) as Hl by (split; [by left|right; by left]).
  destruct equal as [[]|e|]; cbn; [..|done]; do 5 eexists; (split; [reflexivity|]); [|by left..].
  split_and!; try done. by exists j, ndj.
Qed.

Lemma linkReceipt_cases fs op :
  let nd := Inode Regular perm_0400 raw true in
  exists n m fs' keep result,
    linkReceipt prov final raw (PS (St (<[prov := ino]> N) D nd fs) op true) =
      (result, PS (St n m nd fs') op keep) /\ outcome result n m keep.
Proof.
  intros nd. assert (i_kind nd = Regular /\ i_perm nd = perm_0400 /\ i_data nd = raw) as (Hk & Hp & Hd) by done.
  clearbody nd. unfold linkReceipt, bind, on_dir. cbn [ps_dir provisionalOpen keepProvisional].
  destruct (Lstat_St I ino (<[prov := ino]> N) D nd fs prov ino nd) as (f1 & [-> | ->]);
    [apply lookup_insert_eq|apply lookup_insert_eq|cbn -[GoDir.St]..].
  { do 5 eexists. split; [reflexivity|]. apply names_untouched. }
  rewrite Hk, Hp, Hd, !Z.eqb_refl, bool_decide_eq_false_2, bool_decide_eq_true_2 by done. cbn -[GoDir.St Link]. unfold Link.
  match goal with |- context [syscall ?p _] =>
    destruct (syscall_St I ino p (<[prov := ino]> N) D nd f1) as (f2 & [E|E]); rewrite E; clear E end; cbn.
  { do 5 eexists. split; [reflexivity|]. apply names_untouched. }
  rewrite lookup_insert_eq, lookup_insert_ne by done. destruct (N !! final) as [j|] eqn:Ej; cbn.
  - destruct (names_wf _ _ Ej) as [ndj Hj].
    change (Dir ?a ?b ?c ?e f2) with (St a b nd f2).
    by apply (resolveExisting_cases nd f2 op j ndj).
  - unfold set_names. cbn. change (Dir ?a ?b ?c ?e f2) with (St a b nd f2). by apply finishReceipt_cases.
Qed.

Lemma publishBody_cases fs :
  exists n m nd fs' op keep result,
    publishBody prov final raw ino (PS (St (<[prov := ino]> N) D (Inode Regular 384 [] false) fs) true true) =
      (result, PS (St n m nd fs') op keep) /\
    i_kind nd = Regular /\ outcome result n m keep /\
    (nd = Inode Regular perm_0400 raw true \/ leftover N n m /\ forall v, result <> Ok v) /\
    (forall v, result = Ok v -> op = false).
Proof.
  assert (leftover N (<[prov := ino]> N) D) as Hl by (split; [by right|by left]).
  unfold publishBody, bind, on_dir, wrap_err. cbn [ps_dir provisionalOpen keepProvisional].
  assert (exists fs' nd' result, writeAllRecorded ino raw (St (<[prov := ino]> N) D (Inode Regular 384 [] false) fs) =
    (result, St (<[prov := ino]> N) D nd' fs') /\ i_kind nd' = Regular /\
    match result with Ok _ => i_data nd' = raw | Err _ => True | Panic => False end)
    as (f1 & nd1 & [u|e|] & -> & Hk1 & Hw); [| |by do 7 eexists; split_and!; [reflexivity|done|apply names_untouched|by right|done]|done].
  { unfold writeAllRecorded. destruct (len raw =? 0) eqn:E0.
    { do 3 eexists. split; [reflexivity|]. split; [done|]. cbn. symmetry. apply len_zero_nil. lia. }
    unfold FileWrite, bind, next_fault. destruct fs as [|[k|] fs]; cbn; unfold update_inode; cbn;
      rewrite lookup_insert_eq; cbn; unfold set_inodes; cbn; rewrite insert_insert_eq;
      do 3 eexists; (split; [reflexivity|]); done. }
  match goal with |- context [sealProvisional ?a ?b ?c] =>
    destruct (seal_cases I ino a b c nd1 (<[prov := ino]> N) D f1 true true) as
      (f2 & nd2 & [u2|e|] & op & -> & Hk2 & Hd2 & Hs) end; [| |done].
  2: do 7 eexists; split_and!; [reflexivity|congruence|apply names_untouched|by right|done].
  destruct Hs as [-> ->]. rewrite Hk1, Hw.
  destruct (linkReceipt_cases f2 false) as (n & m & f5 & keep & result & E & Hp). rewrite E.
  do 7 eexists. split; [reflexivity|]. split; [done|]. split; [done|]. split; [by left|done].
Qed.

End Publish.

(** ** The whole call *)

Lemma publishRecordedReceipt_cases final raw d :
  wf d -> record_name final = true ->
  exists result d', publishRecordedReceipt final raw d = (result, d') /\ result <> Panic /\
    ((exists fs', d' = set_faults fs' d /\ forall v, result <> Ok v) \/
     exists k nd, effect receipts d d' (provisional_name receipts k) nd /\
       forall v, result = Ok v -> names d' = durable d' /\
         match v with
         | RecordedDispositionNew => names d !! final = None /\ names d' = <[final := next_ino d]> (names d) /\
             nd = Inode Regular perm_0400 raw true
         | RecordedDispositionAlreadyRecorded => names d' = names d /\
             exists nd0, lookup_file d final = Some nd0 /\ i_data nd0 = raw
         end).
Proof.
  intros (W1 & W2 & W3) Hrec. unfold publishRecordedReceipt, wrap_err.
  destruct (CreateTemp_cases (bs ".fi-generation-recorded-") (bs ".open") d) as (f1 & [[e E]|(k & HN & E)]);
    rewrite E; cbn [wrap].
  { do 2 eexists. split; [reflexivity|]. split; [done|]. left. by exists f1. }
  set (prov := temp_name (bs ".fi-generation-recorded-") (bs ".open") k) in *.
  assert (inodes d !! next_ino d = None) as HI.
  { destruct (inodes d !! next_ino d) eqn:Ei; [|done].
    specialize (W3 (next_ino d) ltac:(by rewrite Ei)). lia. }
  assert (prov <> final) as Hpf by (intros <-; done).
  destruct (publishBody_cases (names d) (durable d) (inodes d) (next_ino d) prov final raw HN Hpf HI W1 f1)
    as (n & m & nd & f2 & op & keep & result & -> & Hkind & Hp & Hnd & Hop).
  change (publishDefer prov (PS (St (inodes d) (next_ino d) n m nd f2) op keep)) with
    (cleanup prov op keep (St (inodes d) (next_ino d) n m nd f2)).
  do 2 eexists. split; [reflexivity|]. destruct result as [v|e|]; [| |done]; (split; [done|]); right; exists k, nd.
  - rewrite (Hop v eq_refl). destruct Hnd as [-> |[_ Hno]]; [|by destruct (Hno v)].
    destruct v; cbn [outcome] in Hp.
    + destruct Hp as (-> & -> & -> & j & ndj & Hj & Hj' & Hd). cbn [cleanup]. split.
      * split; [done|done|done|]. exists (names d). split; [by left|]. split; [by left|right; by left].
      * intros v [= <-]. split; [done|]. split; [done|]. exists ndj. split; [|done].
        unfold lookup_file. by rewrite Hj.
    + destruct Hp as (Hf & -> & -> & ->). cbn [cleanup]. split; [|by intros v [= <-]].
      split; [done|done|done|]. exists (<[final := next_ino d]> (names d)).
      split; [right; by exists final|]. split; [by left|right; by left].
  - split; [|done]. apply (failed_effect receipts d k); [done|done|].
    destruct Hp as [Hl|[Hf Hl]]; [by left|]. destruct Hnd as [-> |[Hl' _]]; [|by left].
    right. by exists final.
Qed.

(** A receipt that was reported recorded is on stable storage. *)
Lemma publish_stable final raw d v d' :
  object_inv receipts d -> record_name final = true -> publishRecordedReceipt final raw d = (Ok v, d') ->
  exists nd, stable d' final nd /\ sealed nd /\ i_data nd = raw.
Proof.
  intros Hinv Hrec Hr. pose proof Hinv as [Hwf Hseal].
  destruct (publishRecordedReceipt_cases final raw d Hwf Hrec) as
    (res & d1 & E & _ & [(fs & _ & Hno)|(k & nd & He & Hdone)]);
    rewrite E in Hr; injection Hr as -> ->; [by destruct (Hno v)|].
  destruct (Hdone v eq_refl) as [Hnd Hv]. destruct v.
  - destruct Hv as (Hn & x & Hx & <-). unfold lookup_file in Hx.
    destruct (names d !! final) as [i|] eqn:Ei; [|done]. cbn in Hx.
    destruct (Hseal final i Hrec (or_introl Ei)) as (x' & Hx' & Hs).
    assert (x' = x) as -> by congruence.
    exists x. split_and!; try done. exists i. rewrite <- Hnd, Hn. split_and!; try done; [|apply Hs].
    rewrite (eff_inodes _ _ _ _ _ He), lookup_insert_ne; [done|]. intros <-.
    destruct Hwf as (_ & _ & W3). specialize (W3 (next_ino d) ltac:(by rewrite Hx)). lia.
  - destruct Hv as (Hf & Hn & ->). exists (Inode Regular perm_0400 raw true). split; [|done].
    exists (next_ino d). rewrite <- Hnd, Hn, lookup_insert_eq, (eff_inodes _ _ _ _ _ He), lookup_insert_eq. done.
Qed.

(** ** Without faults: new, already recorded or conflict *)

Lemma compareRecordedReceipt_faultless I ino n m nd final raw j ndj :
  n !! final = Some j -> <[ino := nd]> I !! j = Some ndj -> sealed ndj ->
  compareRecordedReceipt final raw (St I ino n m nd []) =
    (Ok (bool_decide (i_data ndj = raw)), St I ino n m nd []).
Proof.
  intros Hf Hj (Hk & Hm & _).
  unfold compareRecordedReceipt, or_close, readReceipt, file_reader, Lstat, Fstat, Open, Close, syscall,
    next_fault, bind.
  cbn. rewrite Hf. cbn. rewrite Hj. cbn. rewrite Hk, Hm, bool_decide_eq_false_2, bool_decide_eq_true_2 by done. cbn.
  destruct (len (i_data ndj) =? len raw) eqn:El; cbn.
  2: { rewrite bool_decide_eq_false_2; [done|]. intros E. rewrite E in El. lia. }
  assert (ReadFull (len raw) (Reader (i_data ndj) EOF) = (Ok (i_data ndj), Reader [] EOF)) as Hread.
  { rewrite <- (app_nil_r (i_data ndj)) at 1. apply ReadFull_app. lia. }
  rewrite Hf. cbn. rewrite Hj. cbn. rewrite bool_decide_eq_true_2 by done. cbn. rewrite Hj, Hread. cbn.
  rewrite (bool_decide_eq_true_2 (Sentinel _ = EOF)) by done. cbn. rewrite Hf. cbn. rewrite Hj. cbn. by rewrite bool_decide_eq_true_2.
Qed.

Lemma publishBody_faultless N D I ino prov final raw :
  N !! prov = None -> prov <> final ->
  publishBody prov final raw ino (PS (St I ino (<[prov := ino]> N) D (Inode Regular 384 [] false) []) true true) =
  linkReceipt prov final raw (PS (St I ino (<[prov := ino]> N) D (Inode Regular perm_0400 raw true) []) false true).
Proof.
  intros HN Hpf. unfold publishBody, bind, on_dir, wrap_err, Chmod, Sync, Close. cbn [ps_dir].
  assert (writeAllRecorded ino raw (St I ino (<[prov := ino]> N) D (Inode Regular 384 [] false) []) =
    (Ok tt, St I ino (<[prov := ino]> N) D (Inode Regular 384 raw false) [])) as -> .
  { unfold writeAllRecorded. destruct (len raw =? 0) eqn:E0; [|].
    - rewrite (len_zero_nil raw) by lia. done.
    - unfold FileWrite, bind, next_fault, update_inode, set_inodes. cbn. rewrite lookup_insert_eq. cbn.
      by rewrite insert_insert_eq. }
  cbn [ps_dir provisionalOpen keepProvisional]. by rewrite seal_faultless.
Qed.

(** What the recorder answers when no system call fails. A receipt for a generation
    that has none is NEW; for a generation whose receipt holds the same bytes it is
    ALREADY_RECORDED; for one whose receipt holds other bytes the call fails with
    [ErrRecordedGenerationConflict], and in the last two cases the directory is left as
    it was. *)
Theorem publish_classification final raw d prov :
  object_inv receipts d -> faults d = [] -> record_name final = true ->
  unused_temp (bs ".fi-generation-recorded-") (bs ".open") (names d) temp_attempts 0 = Some prov ->
  exists d', publishRecordedReceipt final raw d =
      (match lookup_file d final with
       | None => Ok RecordedDispositionNew
       | Some nd => if bool_decide (i_data nd = raw) then Ok RecordedDispositionAlreadyRecorded
                    else Err ErrRecordedGenerationConflict
       end, d') /\
    names d' = match lookup_file d final with
               | None => <[final := next_ino d]> (names d)
               | Some _ => names d
               end.
Proof.
  intros [(W1 & W2 & W3) Hseal] Hnf Hrec Htemp.
  assert (inodes d !! next_ino d = None) as HI.
  { destruct (inodes d !! next_ino d) eqn:Ei; [|done].
    specialize (W3 (next_ino d) ltac:(by rewrite Ei)). lia. }
  apply unused_temp_spec in Htemp as Hprov. destruct Hprov as [HN [k Hk]].
  assert (prov <> final) as Hpf by (intros <-; rewrite Hk in Hrec; done).
  unfold publishRecordedReceipt, wrap_err. rewrite (CreateTemp_faultless _ _ d prov) by done. cbn [wrap].
  rewrite publishBody_faultless by done.
  unfold linkReceipt, Lstat, Link, syscall, next_fault, bind, on_dir. cbn. rewrite lookup_insert_eq. cbn.
  rewrite lookup_insert_eq. cbn.
  rewrite bool_decide_eq_false_2, (bool_decide_eq_true_2 (Regular = Regular)), Z.eqb_refl by done. cbn.
  rewrite lookup_insert_eq, lookup_insert_ne by done. unfold lookup_file.
  destruct (names d !! final) as [j|] eqn:Ej; cbn.
  - destruct (Hseal final j Hrec (or_introl Ej)) as (ndj & Hj & Hsj). rewrite Hj.
    rewrite (bool_decide_eq_true_2 (Sentinel _ = ErrExist)) by done. cbn [orb negb].
    unfold resolveExisting, on_dir. cbn [ps_dir provisionalOpen keepProvisional].
    rewrite (compareRecordedReceipt_faultless _ _ _ _ _ _ _ j ndj);
      [|by rewrite lookup_insert_ne|rewrite lookup_insert_ne; [done|intros E; congruence]|done].
    unfold Remove, syncRecordedDirectory, SyncDir, Close, syscall, next_fault, bind, on_dir, wrap_err. cbn.
    rewrite lookup_insert_eq. cbn. rewrite delete_insert_id by done.
    destruct (bool_decide (i_data ndj = raw)); cbn; eexists; (split; [reflexivity|]); reflexivity.
  - unfold finishReceipt, Remove, syncRecordedDirectory, SyncDir, Close, syscall, next_fault, bind, on_dir, wrap_err.
    cbn. rewrite lookup_insert_ne, lookup_insert_eq by done. cbn.
    rewrite delete_insert_ne, delete_insert_id by done.
    match goal with |- context [compareRecordedReceipt final raw ?x] =>
      change x with (St (inodes d) (next_ino d) (<[final := next_ino d]> (names d))
                       (<[final := next_ino d]> (names d)) (Inode Regular perm_0400 raw true) []) end.
    rewrite (compareRecordedReceipt_faultless _ _ _ _ _ _ _ (next_ino d) (Inode Regular perm_0400 raw true));
      [|apply lookup_insert_eq|apply lookup_insert_eq|done].
    rewrite bool_decide_eq_true_2 by done. cbn. eexists. split; reflexivity.
Qed.

(** ** Recording a generation *)

Section Record.
Context `{Unicode} `{JSON spool.Manifest} `{JSON RecordedReceipt}.

(** The gate ran over exactly the bytes that were hashed and counted. *)
Lemma teeValidate_Ok descriptor config r semantic taken counted r' :
  teeValidate descriptor config r = (Ok (semantic, taken, counted), r') ->
  recorder.ValidateCanonical descriptor config r = (Ok semantic, r') /\
  counted = len taken /\ taken = take (length (rd_data r) - length (rd_data r')) (rd_data r).
Proof.
  unfold teeValidate. destruct (recorder.ValidateCanonical descriptor config r) as [v r1] eqn:Ev.
  intros [= Hv <-]. unfold recordingCountWriter_Write in Hv.
  destruct (_ <? _) eqn:Eo in Hv; [done|]. cbn in Hv. destruct v as [v| |]; [|done|done].
  injection Hv as <- <- <-. split; [done|]. split; [|done].
  rewrite Z.add_0_l. apply u64_small. unfold is_u64. pose proof (len_nonneg (take (length (rd_data r) - length (rd_data r1)) (rd_data r))).
  unfold max_u64 in *. lia.
Qed.

Lemma publishRecordedSemanticResult_cases transfer semantic config d v d' :
  publishRecordedSemanticResult transfer semantic config d = (Ok v, d') ->
  exists raw, let receipt := receipt_of transfer semantic in
    MarshalRecordedReceipt receipt = Ok raw /\ SemanticResult v = semantic /\ Receipt v = receipt /\
    ReceiptBytes v = len raw /\ ReceiptSHA256 v = sha256_hex raw /\
    publishRecordedReceipt
      (recordedObjectName (transportgeneration.SourceID (protocol.ResultDescriptor transfer))
         (transportgeneration.GenerationID (protocol.ResultDescriptor transfer))) raw d =
      (Ok (Disposition v), d').
Proof.
  unfold publishRecordedSemanticResult. intros Hr.
  apply bind_lift_Ok in Hr as (receipt & ->%recordedReceiptFromResult_Ok & Hr).
  apply bind_lift_Ok in Hr as (raw & Hraw & Hr). apply bind_Ok in Hr as (disp & d1 & Hp & Hr).
  injection Hr as <- <-. exists raw. cbn. done.
Qed.

Lemma publishRecordedSemanticResult_evolves transfer semantic config d result d' :
  wf d -> publishRecordedSemanticResult transfer semantic config d = (result, d') -> evolves receipts d d'.
Proof.
  intros Hwf. assert (evolves receipts d d) as Hid by (apply (evolves_same _ _ _ (faults d)); by rewrite set_faults_id).
  unfold publishRecordedSemanticResult, bind, lift.
  destruct (recordedReceiptFromResult _ _) as [receipt|e|]; [|by intros [= <- <-]..].
  destruct (MarshalRecordedReceipt _) as [raw|e|]; [|by intros [= <- <-]..].
  destruct (publishRecordedReceipt_cases (recordedObjectName (transportgeneration.SourceID (Descriptor receipt))
    (transportgeneration.GenerationID (Descriptor receipt))) raw d Hwf (recordedObjectName_record _ _)) as
    (res & d1 & -> & _ & Hc).
  assert (evolves receipts d d1) as Hev.
  { destruct Hc as [(fs & -> & _)|(k & nd & He & _)]; [by eapply evolves_same|].
    apply (evolves_effect _ _ _ (faults d) k nd). by rewrite set_faults_id. }
  destruct res; intros [= <- <-]; done.
Qed.

(** Whatever the call returns, the directory was left alone or one receipt was published. *)
Lemma RecordCanonicalDurably_dir transfer config root r d result r' d' :
  RecordCanonicalDurably transfer config root (r, d) = (result, (r', d')) ->
  d' = d \/ exists s g raw res, publishRecordedReceipt (recordedObjectName s g) raw d = (res, d').
Proof.
  unfold RecordCanonicalDurably.
  destruct (res_bind _ _) as [u|e|]; [|by intros [= <- <- <-]; left..].
  destruct (teeValidate _ _ r) as [teed r1]. destruct (res_bind teed _) as [semantic|e|];
    [|by intros [= <- <- <-]; left..].
  unfold publishRecordedSemanticResult, bind, lift.
  destruct (recordedReceiptFromResult _ _) as [receipt|e|]; [|by intros [= <- <- <-]; left..].
  destruct (MarshalRecordedReceipt _) as [raw|e|]; [|by intros [= <- <- <-]; left..].
  destruct (publishRecordedReceipt _ raw d) as [res d1] eqn:Ep.
  destruct res as [v|e|]; intros [= <- <- <-]; right; by do 4 eexists.
Qed.

(** Histories of the recorder directory: recordings of any stream with any faults,
    interrupted by power failures. *)
Inductive step : dir -> dir -> Prop :=
| step_record transfer config root r fs d result r' d' :
    RecordCanonicalDurably transfer config root (r, set_faults fs d) = (result, (r', d')) -> step d d'
| step_crash d d' : crash d d' -> step d d'.

Lemma step_evolves d d' : wf d -> step d d' -> evolves receipts d d'.
Proof.
  intros Hwf Hs. revert Hwf. destruct Hs as [transfer config root r fs d0 result r' d1 Hr|]; intros Hwf;
    [|by apply evolves_crash].
  apply RecordCanonicalDurably_dir in Hr as [-> |(s & g & raw & res & Hp)]; [by eapply evolves_same|].
  destruct (publishRecordedReceipt_cases (recordedObjectName s g) raw (set_faults fs d0) Hwf
    (recordedObjectName_record s g)) as (res' & d2 & E & _ & [(fs' & -> & _)|(k & nd & He & _)]);
    rewrite E in Hp; injection Hp as -> <-; [by eapply (evolves_same _ _ _ fs')|by eapply evolves_effect].
Qed.

(** The recorder directory implements a write-once store. Every history of
    recordings (any stream, transfer and configuration, any failing system call) and
    power failures is a run of the abstract store of receipts: a receipt name is bound
    at most once, its bytes never change, and what was made permanent survives. *)
Theorem recorder_refines_store d d' :
  store_inv receipts d -> rtc step d d' -> rtc store_step (abs receipts d) (abs receipts d').
Proof.
  intros Hinv Hs. by apply (history_store receipts step d d' step_evolves Hinv Hs).
Qed.

(** What it means that the result [v] was returned for the stream [r]. *)
Definition recorded (transfer : protocol.TransferResult) (config : DurableConfig) (r : reader)
    (v : DurableResult) (fs : list (bytes * list bytes)) (ms : list spool.Manifest) : Prop :=
  let descriptor := protocol.ResultDescriptor transfer in
  rd_data r = generationsealer.canonical_bytes fs /\
  len (rd_data r) = transportgeneration.CanonicalBytes descriptor /\
  sha256_hex (rd_data r) = transportgeneration.CanonicalSHA256 descriptor /\
  recorder.batch_pairs (recorder.MaxManifestBytes (Semantic config)) fs ms /\
  SemanticResult v = recorder.result_of descriptor ms /\
  Receipt v = receipt_of transfer (recorder.result_of descriptor ms).

Lemma RecordCanonicalDurably_Ok transfer config root r d v r' d' :
  RecordCanonicalDurably transfer config root (r, d) = (Ok v, (r', d')) ->
  exists fs ms raw, recorded transfer config r v fs ms /\ rd_data r' = [] /\
    MarshalRecordedReceipt (Receipt v) = Ok raw /\ ReceiptBytes v = len raw /\ ReceiptSHA256 v = sha256_hex raw /\
    publishRecordedReceipt
      (recordedObjectName (transportgeneration.SourceID (protocol.ResultDescriptor transfer))
         (transportgeneration.GenerationID (protocol.ResultDescriptor transfer))) raw d =
      (Ok (Disposition v), d').
Proof.
  unfold RecordCanonicalDurably. destruct (res_bind _ _) as [u|e|]; [|done|done].
  destruct (teeValidate _ _ r) as [teed r1] eqn:Et.
  destruct (res_bind teed _) as [semantic|e|] eqn:Eb; [|done|done].
  destruct teed as [[[semantic' taken] counted]|e|]; [|done|done]. cbn [res_bind] in Eb. res_inv Eb. bool_hyps.
  apply teeValidate_Ok in Et as (Hv & -> & Ht).
  destruct (publishRecordedSemanticResult transfer semantic config d) as [pub d1] eqn:Ep.
  intros [= -> <- <-]. apply publishRecordedSemanticResult_cases in Ep as (raw & Hraw & Hs & Hr & Hb & Hsha & Hp).
  apply recorder.ValidateCanonical_Ok in Hv as (fs & ms & Hd & _ & _ & Hps & -> & _).
  match goal with Hn : rd_data r1 = [] |- _ => rewrite Hn, app_nil_r in Hd; rewrite Hn, Nat.sub_0_r, take_ge in Ht by done end.
  subst taken. exists fs, ms, raw. split; [|by rewrite Hr].
  unfold recorded. rewrite Hr, Hs. split_and!; try done. lia.
Qed.

(** [C30] Nothing is recorded that was not validated, and what is recorded is never lost.
    When [RecordCanonicalDurably] reports success, the stream it read, whole, is the
    canonical stream the descriptor signs (byte count and SHA-256) and consists of valid
    batch pairs; and in every later state of the recorder directory, through any further
    recordings, faults and crashes, the name of the generation denotes a synced read-only
    file holding exactly the receipt, which states the descriptor, the identity of the
    transfer and the exact number of batches, records and data bytes. *)
Theorem recorded_never_lost transfer config root r d v r' d1 d2 :
  store_inv receipts d ->
  RecordCanonicalDurably transfer config root (r, d) = (Ok v, (r', d1)) -> rtc step d1 d2 ->
  exists fs ms raw nd, recorded transfer config r v fs ms /\
    MarshalRecordedReceipt (Receipt v) = Ok raw /\
    stable d2 (recordedObjectName (transportgeneration.SourceID (protocol.ResultDescriptor transfer))
                 (transportgeneration.GenerationID (protocol.ResultDescriptor transfer))) nd /\
    sealed nd /\ i_data nd = raw /\ ReceiptBytes v = len raw /\ ReceiptSHA256 v = sha256_hex raw.
Proof.
  intros Hinv Hr Hs. pose proof Hinv as [Hobj _].
  assert (store_inv receipts d1) as Hinv1.
  { eapply (evolves_store receipts d), step_evolves; [done|apply Hobj|].
    eapply (step_record transfer config root r (faults d)). destruct d. exact Hr. }
  destruct (RecordCanonicalDurably_Ok _ _ _ _ _ _ _ _ Hr) as (fs & ms & raw & Hrec & _ & Hraw & Hb & Hsha & Hp).
  destruct (publish_stable _ _ _ _ _ Hobj (recordedObjectName_record _ _) Hp) as (nd & Hst & Hse & Hd).
  exists fs, ms, raw, nd. split_and!; try done.
  apply (history_store receipts step d1 d2 step_evolves Hinv1 Hs); [apply recordedObjectName_record|done].
Qed.

End Record.

(** ** A concrete recording *)

Definition demoTransfer : protocol.TransferResult := {|
  protocol.ResultDescriptor := recorder.demoBatchDescriptor;
  protocol.MetadataBytes := 100;
  protocol.MetadataSHA256 := sha256_hex (bs "metadata");
  protocol.PayloadBytes := 40;
  protocol.PayloadSHA256 := transportgeneration.EncodedDataSHA256 recorder.demoBatchDescriptor;
  protocol.TransferBytes := 160;
  protocol.TransferSHA256 := sha256_hex (bs "transfer") |}.

Definition demoReceipt : RecordedReceipt :=
  receipt_of demoTransfer (recorder.result_of recorder.demoBatchDescriptor [recorder.demoManifest]).
Definition demoDurable : DurableConfig := {| RootDir := bs "/srv/rec"; Semantic := recorder.demoRecorderConfig |}.
Definition demoRecorderRoot : RootState := {|
  EvalSymlinks := Ok (bs "/srv/rec");
  RootInfo := Ok {| fi_ino := 2; fi_kind := Directory; fi_perm := 448; fi_size := 0 |} |}.

#[local] Existing Instance asciiUnicode.
#[local] Existing Instance recorder.demoManifestJSON.
#[local] Instance demoReceiptJSON : JSON RecordedReceipt := fixedJSON demoReceipt (bs "{receipt}").
#[local] Instance demoReceiptJSON_laws : JSONLaws RecordedReceipt := fixedJSON_laws demoReceipt (bs "{receipt}").

Lemma MarshalRecordedReceipt_round_trip_witness :
  UnmarshalRecordedReceipt (bs "{receipt}" ++ [spool.newline]) = Ok demoReceipt.
Proof.
  apply (MarshalRecordedReceipt_round_trip demoReceipt); [reflexivity|vm_compute; reflexivity].
Defined.

#[local] Transparent recordedObjectName.

Definition demoRecording : res DurableResult * (reader * dir) :=
  RecordCanonicalDurably demoTransfer demoDurable demoRecorderRoot
    (Reader recorder.demoBatchStream EOF, empty_dir []).
Definition demoRecordDir : dir := demoRecording.2.2.
Definition demoRecordResult : DurableResult := {|
  Disposition := RecordedDispositionNew; Receipt := demoReceipt; ReceiptBytes := 10;
  ReceiptPath := filepath_Join (bs "/srv/rec") (recordedObjectName (bs "FS-01") (bs "g1"));
  ReceiptSHA256 := sha256_hex (bs "{receipt}" ++ [spool.newline]);
  SemanticResult := recorder.result_of recorder.demoBatchDescriptor [recorder.demoManifest] |}.

Lemma demoRecording_ok :
  RecordCanonicalDurably demoTransfer demoDurable demoRecorderRoot
    (Reader recorder.demoBatchStream EOF, empty_dir []) =
  (Ok demoRecordResult, (Reader [] EOF, demoRecordDir)).
Proof.
  assert (demoRecording.1 = Ok demoRecordResult /\ demoRecording.2.1 = Reader [] EOF) as [H1 H2]
    by (vm_compute; split; reflexivity).
  unfold demoRecordDir. fold demoRecording. destruct demoRecording as [r [rd d]]. cbn in *. by subst.
Qed.

(** A second recording whose ninth system call fails. *)
Definition demoRecordRetry : dir :=
  (RecordCanonicalDurably demoTransfer demoDurable demoRecorderRoot
     (Reader recorder.demoBatchStream EOF, set_faults (replicate 8 None ++ [Some 0%nat]) demoRecordDir)).2.2.

Lemma demoRecordRetry_step : step demoRecordDir demoRecordRetry.
Proof.
  unfold demoRecordRetry. destruct (RecordCanonicalDurably _ _ _ (_, set_faults _ _)) as [result [r' d']] eqn:E.
  by eapply step_record.
Qed.

Lemma recorded_never_lost_witness :
  exists fs ms raw nd, recorded demoTransfer demoDurable (Reader recorder.demoBatchStream EOF) demoRecordResult fs ms /\
    MarshalRecordedReceipt demoReceipt = Ok raw /\
    stable demoRecordRetry (recordedObjectName (bs "FS-01") (bs "g1")) nd /\
    sealed nd /\ i_data nd = raw /\ ReceiptBytes demoRecordResult = len raw /\
    ReceiptSHA256 demoRecordResult = sha256_hex raw.
Proof.
  apply (recorded_never_lost demoTransfer demoDurable demoRecorderRoot (Reader recorder.demoBatchStream EOF)
           (empty_dir []) demoRecordResult (Reader [] EOF) demoRecordDir demoRecordRetry).
  - exact (empty_store_inv receipts []).
  - exact demoRecording_ok.
  - exact (rtc_once _ _ demoRecordRetry_step).
Defined.

Lemma recorder_refines_store_witness :
  rtc store_step (abs receipts (empty_dir [])) (abs receipts demoRecordRetry).
Proof.
  apply (recorder_refines_store (empty_dir []) demoRecordRetry); [exact (empty_store_inv receipts [])|].
  apply (rtc_l _ _ demoRecordDir); [|exact (rtc_once _ _ demoRecordRetry_step)].
  exact (step_record demoTransfer demoDurable demoRecorderRoot (Reader recorder.demoBatchStream EOF) [] (empty_dir [])
           (Ok demoRecordResult) (Reader [] EOF) demoRecordDir demoRecording_ok).
Defined.

Lemma publish_classification_witness :
  exists d', publishRecordedReceipt (bs "generation-1.record.json") (bs "r") (empty_dir []) =
    (Ok RecordedDispositionNew, d') /\ names d' = <[bs "generation-1.record.json" := 0%nat]> ∅.
Proof.
  destruct (publish_classification (bs "generation-1.record.json") (bs "r") (empty_dir [])
              (temp_name (bs ".fi-generation-recorded-") (bs ".open") 0)) as (d' & Hp & Hn).
  - exact (empty_object_inv receipts []).
  - reflexivity.
  - vm_compute. reflexivity.
  - reflexivity.
  - exists d'. split; [exact Hp|exact Hn].
Defined.

End record.
