(* ===== verification/GenerationRecording.v ===== *)
(** * Recording from custody

    Models [go/internal/generationrecorder/custody_linux.go] and [restart_linux.go]: the
    recorder reopens a custody object, revalidates the whole transfer while its artifacts
    pass the semantic gate, and publishes the receipt. *)

From stdpp Require Import gmap.
From S2P Require Import Prelude GoBytes GoStrings Sha256 GoIO GoFS GoDir GoPublish Pki TransportEncoding TransportTrust TransportGeneration GenerationCanonical GenerationProtocol GenerationTransfer GenerationRecorder GenerationRecord GenerationCustody GenerationStore.

Module recording.
Import transportgeneration protocol.

Section Recording.
Context `{Unicode} `{X509} `{Zstd} `{JSON SignedGeneration} `{JSON spool.Manifest} `{JSON record.RecordedReceipt}.

(** The state is the custody directory and the recorder directory. *)
Definition RecordCustodyDurably (custody : gencustody.CustodyResult) (custodyConfig : gencustody.CustodyConfig)
    (recorderConfig : record.DurableConfig) (custodyRoot recorderRoot : RootState)
  : prog (dir * dir) record.DurableResult := fun '(cd, rd) =>
  match (check? record.validateDurableConfig recorderConfig recorderRoot ;;
         recorder.newValidator (ResultDescriptor (gencustody.Transfer custody)) (record.Semantic recorderConfig)) with
  | Ok state =>
      let '(transfer, (state, cd)) :=
        gencustody.ReadDurableCustodyArtifacts custody custodyConfig custodyRoot recorder.consumeArtifact (state, cd) in
      match (let? transfer := wrap "read FI generation durable custody for recorder: %w" transfer in
             let? semantic := recorder.validator_result state (ResultDescriptor transfer)
                                (SourceBytes (ResultDescriptor transfer)) in
             Ok (transfer, semantic)) with
      | Ok (transfer, semantic) =>
          let '(result, rd) := record.publishRecordedSemanticResult transfer semantic recorderConfig rd in
          (result, (cd, rd))
      | Err e => (Err e, (cd, rd))
      | Panic => (Panic, (cd, rd))
      end
  | Err e => (Err e, (cd, rd))
  | Panic => (Panic, (cd, rd))
  end.

(** The handler factory makes one validator; the guards against a second or a missing
    one cannot fire, since the factory is called exactly once before the result. *)
Definition RecordDiscoveredCustodyDurably (discovered : gencustody.DiscoveredCustody)
    (custodyConfig : gencustody.CustodyConfig) (recorderConfig : record.DurableConfig)
    (custodyRoot recorderRoot : RootState) : prog (dir * dir) record.DurableResult := fun '(cd, rd) =>
  match record.validateDurableConfig recorderConfig recorderRoot with
  | Ok _ =>
      let '(read, cd) :=
        gencustody.ReadDiscoveredDurableCustodyArtifacts discovered custodyConfig custodyRoot
          (fun descriptor => recorder.newValidator descriptor (record.Semantic recorderConfig))
          recorder.consumeArtifact cd in
      match (let? (custody, state) := wrap "read restart-discovered FI generation custody for recorder: %w" read in
             let descriptor := ResultDescriptor (gencustody.Transfer custody) in
             let? semantic := recorder.validator_result state descriptor (SourceBytes descriptor) in
             Ok (gencustody.Transfer custody, semantic)) with
      | Ok (transfer, semantic) =>
          let '(result, rd) := record.publishRecordedSemanticResult transfer semantic recorderConfig rd in
          (result, (cd, rd))
      | Err e => (Err e, (cd, rd))
      | Panic => (Panic, (cd, rd))
      end
  | Err e => (Err e, (cd, rd))
  | Panic => (Panic, (cd, rd))
  end.

(** ** What a success means *)

(** The custody object [content] holds a valid transfer whose artifacts [fs] are the
    batches [ms], and the recorder directory holds the receipt that says so. *)
Record evidence (config : gencustody.CustodyConfig) (recorderConfig : record.DurableConfig)
    (transfer : TransferResult) (v : record.DurableResult) (content : bytes) (rd : dir)
    (fs : list (bytes * list bytes)) (ms : list spool.Manifest) : Prop := {
  ev_transfer : genstore.transfers (gencustody.offer_of transfer) (gencustody.Receive config) content transfer fs;
  ev_batches : recorder.batch_pairs (recorder.MaxManifestBytes (record.Semantic recorderConfig)) fs ms;
  ev_receipt : record.Receipt v = record.receipt_of transfer (recorder.result_of (ResultDescriptor transfer) ms);
  ev_stored : exists raw nd, record.MarshalRecordedReceipt (record.Receipt v) = Ok raw /\
    stable rd (record.recordedObjectName (SourceID (ResultDescriptor transfer))
                 (GenerationID (ResultDescriptor transfer))) nd /\
    sealed nd /\ i_data nd = raw
}.

Lemma gate_Ok d cfg st fs h n semantic :
  recorder.newValidator d cfg = Ok st ->
  canonical.steps_rel (fun h name o h' => recorder.consumed h name o = Some h') st fs h ->
  recorder.validator_result h d n = Ok semantic ->
  exists ms, recorder.batch_pairs (recorder.MaxManifestBytes cfg) fs ms /\ semantic = recorder.result_of d ms.
Proof.
  intros Hn Hs Hr. unfold recorder.newValidator in Hn. res_inv Hn.
  unfold recorder.validator_result in Hr. destruct (recorder.pending h) eqn:Ep; [done|]. res_inv Hr. bool_hyps.
  eapply recorder.steps_batch_pairs in Hs as (ms & Hps & -> & Hc); [|done|done|done|done].
  exists ms. split; [exact Hps|]. unfold recorder.result_of. cbn. rewrite Z.add_0_l in *.
  destruct (recorder.batch_pairs_totals _ _ _ Hps) as (Hlen & Hb & Ht). f_equal; try done; try lia.
Qed.

Lemma publish_evidence `{!ZstdLaws} config recorderConfig transfer semantic content fs ms rd v rd' :
  object_inv record.receipts rd ->
  genstore.transfers (gencustody.offer_of transfer) (gencustody.Receive config) content transfer fs ->
  recorder.batch_pairs (recorder.MaxManifestBytes (record.Semantic recorderConfig)) fs ms ->
  semantic = recorder.result_of (ResultDescriptor transfer) ms ->
  record.publishRecordedSemanticResult transfer semantic recorderConfig rd = (Ok v, rd') ->
  evidence config recorderConfig transfer v content rd' fs ms.
Proof.
  intros Hinv Ht Hps -> Hp.
  apply record.publishRecordedSemanticResult_cases in Hp as (raw & Hraw & _ & Hr & _ & _ & Hpub).
  destruct (record.publish_stable _ _ _ _ _ Hinv (record.recordedObjectName_record _ _) Hpub) as (nd & Hst & Hse & Hd).
  split; [done|done|done|]. exists raw, nd. by rewrite Hr.
Qed.

Lemma record_custody `{!ZstdLaws} custody config recorderConfig croot rroot cd rd v cd' rd' :
  object_inv record.receipts rd ->
  RecordCustodyDurably custody config recorderConfig croot rroot (cd, rd) = (Ok v, (cd', rd')) ->
  (exists fs, cd' = set_faults fs cd) /\
  exists nd fs ms, lookup_file cd (genstore.final_name (gencustody.Transfer custody)) = Some nd /\
    evidence config recorderConfig (gencustody.Transfer custody) v (i_data nd) rd' fs ms.
Proof.
  intros Hinv Hr. unfold RecordCustodyDurably in Hr.
  destruct (res_bind (record.validateDurableConfig _ _) _) as [st|e|] eqn:Ev; [|done|done].
  res_inv Ev.
  destruct (gencustody.ReadDurableCustodyArtifacts _ _ _ _ (st, cd)) as [read [st1 cd1]] eqn:Er.
  destruct (res_bind (wrap _ read) _) as [[transfer semantic]|e|] eqn:Eb; [|done|done].
  destruct (record.publishRecordedSemanticResult _ _ _ rd) as [result rd1] eqn:Ep. injection Hr as -> -> ->.
  apply res_bind_Ok in Eb as (transfer' & Hread%wrap_Ok & Eb). res_inv Eb.
  pose proof (genstore.read_Ok _ _ _ _ _ _ _ _ _ _ recorder.consumeArtifact_steps Er)
    as (-> & Hq & nd & fs & Hl & Ht & Hst).
  split; [done|]. destruct (gate_Ok _ _ _ _ _ _ _ Ev Hst E0) as (ms & Hps & Hsem).
  exists nd, fs, ms. split; [done|]. by eapply publish_evidence.
Qed.

(** Whatever the outcome, custody was only read and the recorder directory took at most
    one publication. *)
Lemma record_custody_dirs custody config recorderConfig croot rroot cd rd r cd' rd' :
  wf rd -> RecordCustodyDurably custody config recorderConfig croot rroot (cd, rd) = (r, (cd', rd')) ->
  evolves genstore.generations cd cd' /\ evolves record.receipts rd rd'.
Proof.
  intros Hwf. unfold RecordCustodyDurably.
  assert (forall P d, evolves P d d) as Hid
    by (intros P d; apply (evolves_same _ _ _ (faults d)); by rewrite set_faults_id).
  destruct (res_bind (record.validateDurableConfig _ _) _) as [st|e|]; [|by intros [= <- <- <-]..].
  destruct (gencustody.ReadDurableCustodyArtifacts _ _ _ _ _) as [read [st1 cd1]] eqn:E.
  apply genstore.beside_run in E as [f ->]; [|apply genstore.beside_read].
  assert (evolves genstore.generations cd (set_faults f cd)) as Hcd by (by eapply evolves_same).
  destruct (res_bind (wrap _ read) _) as [[transfer semantic]|e|]; [|by intros [= <- <- <-]..].
  destruct (record.publishRecordedSemanticResult _ _ _ rd) as [result rd1] eqn:Ep. intros [= <- <- <-].
  split; [done|]. by eapply record.publishRecordedSemanticResult_evolves.
Qed.

Lemma record_discovered_dirs discovered config recorderConfig croot rroot cd rd r cd' rd' :
  wf rd -> RecordDiscoveredCustodyDurably discovered config recorderConfig croot rroot (cd, rd) = (r, (cd', rd')) ->
  evolves genstore.generations cd cd' /\ evolves record.receipts rd rd'.
Proof.
  intros Hwf. unfold RecordDiscoveredCustodyDurably.
  assert (forall P d, evolves P d d) as Hid
    by (intros P d; apply (evolves_same _ _ _ (faults d)); by rewrite set_faults_id).
  destruct (record.validateDurableConfig _ _) as [u|e|]; [|by intros [= <- <- <-]..].
  destruct (gencustody.ReadDiscoveredDurableCustodyArtifacts _ _ _ _ _ cd) as [read cd1] eqn:Er.
  apply quiet_run in Er as [f ->]; [|apply genstore.quiet_readDiscovered].
  assert (evolves genstore.generations cd (set_faults f cd)) as Hcd by (by eapply evolves_same).
  destruct (res_bind (wrap _ read) _) as [[transfer semantic]|e|]; [|by intros [= <- <- <-]..].
  destruct (record.publishRecordedSemanticResult _ _ _ rd) as [result rd1] eqn:Ep. intros [= <- <- <-].
  split; [done|]. by eapply record.publishRecordedSemanticResult_evolves.
Qed.

(** Recording from custody is sound. When [RecordCustodyDurably] succeeds, the custody
    object of the generation holds one valid transfer with the identity the custody result
    states, signed for the enrolled source; its artifacts are valid batch pairs; and the
    receipt, which binds the descriptor, the transfer and the exact counts, is stored under
    the name of the generation, synced and read-only. The custody directory is unchanged. *)
Theorem RecordCustodyDurably_sound `{!ZstdLaws} custody config recorderConfig croot rroot cd rd v cd' rd' :
  object_inv record.receipts rd ->
  RecordCustodyDurably custody config recorderConfig croot rroot (cd, rd) = (Ok v, (cd', rd')) ->
  (exists fs, cd' = set_faults fs cd) /\
  exists nd fs ms, lookup_file cd (genstore.final_name (gencustody.Transfer custody)) = Some nd /\
    evidence config recorderConfig (gencustody.Transfer custody) v (i_data nd) rd' fs ms.
Proof. apply record_custody. Qed.

(** Recording after a restart is sound. When [RecordDiscoveredCustodyDurably] succeeds,
    the discovered object is the custody object of a generation whose signed metadata it
    contains, it holds one valid transfer of valid batch pairs, and the receipt for it is
    stored, synced and read-only. The custody directory is unchanged. *)
Theorem RecordDiscoveredCustodyDurably_sound `{!ZstdLaws} discovered config recorderConfig croot rroot cd rd v cd' rd' :
  object_inv record.receipts rd ->
  RecordDiscoveredCustodyDurably discovered config recorderConfig croot rroot (cd, rd) = (Ok v, (cd', rd')) ->
  (exists fs, cd' = set_faults fs cd) /\
  exists transfer nd fs ms,
    filepath_Base (gencustody.DiscoveredPath discovered) = genstore.final_name transfer /\
    lookup_file cd (genstore.final_name transfer) = Some nd /\
    evidence config recorderConfig transfer v (i_data nd) rd' fs ms.
Proof.
  intros Hinv Hr. unfold RecordDiscoveredCustodyDurably in Hr.
  destruct (record.validateDurableConfig _ _) as [u|e|]; [|done|done].
  destruct (gencustody.ReadDiscoveredDurableCustodyArtifacts _ _ _ _ _ cd) as [read cd1] eqn:Er.
  destruct (res_bind (wrap _ read) _) as [[transfer semantic]|e|] eqn:Eb; [|done|done].
  destruct (record.publishRecordedSemanticResult _ _ _ rd) as [result rd1] eqn:Ep. injection Hr as -> -> ->.
  apply res_bind_Ok in Eb as ([custody state] & Hread%wrap_Ok & Eb). cbv zeta in Eb. res_inv Eb.
  pose proof (genstore.ReadDiscovered_Ok _ _ _ _ _ _ _ _ _ _ recorder.consumeArtifact_steps Er)
    as (Hq & Hbase & _ & nd & fs & h & Hl & Hfac & Ht & _ & Hst).
  split; [done|]. destruct (gate_Ok _ _ _ _ _ _ _ Hfac Hst E) as (ms & Hps & Hsem).
  exists (gencustody.Transfer custody), nd, fs, ms. split_and!; try done. by eapply publish_evidence.
Qed.

End Recording.
End recording.
