(* ===== verification/GenerationReceiver.v ===== *)
(** * The generation transaction of the receiver

    Models [go/internal/transportreceiver/generation_linux.go] (offer, decision, custody,
    recording, ready marker, acknowledgement) and [generation_startup_linux.go] (the
    recording of what custody held when the receiver stopped). *)

From stdpp Require Import gmap.
From S2P Require Import Prelude GoBytes GoStrings Sha256 GoIO GoFS GoDir GoPublish Pki TransportEncoding TransportTrust TransportGeneration GenerationCanonical GenerationProtocol GenerationTransfer GenerationRecorder GenerationRecord GenerationCustody GenerationStore GenerationReady GenerationRecording.

Module genreceiver.
Import transportgeneration protocol.

Definition ErrGenerationNotEnabled : error := Sentinel "FI receiver generation transport is not enabled".
Definition ErrGenerationOfferRejected : error := Sentinel "FI generation offer rejected".

Record GenerationReceiveConfig := {
  Custody : gencustody.CustodyConfig;
  ReadyRoot : bytes;
  Recorder : record.DurableConfig
}.

(** What a transaction reached; a field not reached yet is [None]. *)
Record GenerationReceiveResult := {
  ResultOffer : option Offer;
  ResultDecision : option Decision;
  ResultCustody : option gencustody.CustodyResult;
  ResultRecorder : option record.DurableResult;
  ResultReady : option (res bytes);
  ResultAcknowledgement : option Acknowledgement
}.

Definition noResult : GenerationReceiveResult := {|
  ResultOffer := None; ResultDecision := None; ResultCustody := None; ResultRecorder := None;
  ResultReady := None; ResultAcknowledgement := None |}.

(** The three directories and how their paths resolve. *)
Record roots := { custody_root : RootState; recorder_root : RootState; ready_root : RootState }.

Record gen_state (W : Type) := GS {
  gs_reader : reader;
  gs_writer : W;
  gs_custody : dir;
  gs_recorder : dir;
  gs_ready : dir
}.
Arguments GS {W}.
Arguments gs_reader {W}.
Arguments gs_writer {W}.
Arguments gs_custody {W}.
Arguments gs_recorder {W}.
Arguments gs_ready {W}.

Section Receiver.
Context `{Unicode} `{X509} `{Zstd} `{JSON SignedGeneration} `{JSON spool.Manifest} `{JSON record.RecordedReceipt}.
Context `{JSON Offer} `{JSON Decision} `{JSON Acknowledgement}.

Definition validateGenerationReceiveConfig (config : GenerationReceiveConfig) : res unit :=
  fail? bool_decide (gencustody.RootDir (Custody config) = [])
    with Errorf "FI generation durable custody root directory is required" ;;
  fail? bool_decide (transporttrust.SourceID (Source (gencustody.Receive (Custody config))) = [])
    with Errorf "FI generation source authorization is required" ;;
  fail? MaxCanonicalBytes (gencustody.Receive (Custody config)) =? 0
    with Errorf "FI generation maximum canonical byte count must be greater than zero" ;;
  fail? MaxEncodedBytes (gencustody.Receive (Custody config)) =? 0
    with Errorf "FI generation maximum encoded byte count must be greater than zero" ;;
  fail? bool_decide (record.RootDir (Recorder config) = [])
    with Errorf "FI generation recorder root directory is required" ;;
  fail? bool_decide (ReadyRoot config = []) with Errorf "FI generation ingest-ready root directory is required" ;;
  fail? negb (filepath_IsAbs (ReadyRoot config))
    with Errorf "FI generation ingest-ready root directory must be absolute" ;;
  fail? bool_decide (filepath_Clean (ReadyRoot config) = filepath_Clean (gencustody.RootDir (Custody config))) ||
        bool_decide (filepath_Clean (ReadyRoot config) = filepath_Clean (record.RootDir (Recorder config)))
    with Errorf "FI generation ingest-ready root must be distinct from custody and recorder roots" ;;
  fail? recorder.MaxManifestBytes (record.Semantic (Recorder config)) =? 0
    with Errorf "FI generation recorder maximum manifest byte count must be greater than zero" ;;
  Ok tt.

(** The decision and the reason of a rejection, empty when the offer is accepted. *)
Definition generationAdmissionDecision (offer : Offer) (config : GenerationReceiveConfig) : res (Decision * bytes) :=
  let receive := gencustody.Receive (Custody config) in
  let reject reason := let? decision := NewDecision offer false reason in Ok (decision, reason) in
  if negb (bool_decide (SourceID (OfferDescriptor offer) = transporttrust.SourceID (Source receive)))
  then reject (bs "SOURCE_ID_MISMATCH")
  else if MaxCanonicalBytes receive <? CanonicalBytes (OfferDescriptor offer)
  then reject (bs "CANONICAL_BYTES_EXCEED_LIMIT")
  else if MaxEncodedBytes receive <? EncodedDataBytes (OfferDescriptor offer)
  then reject (bs "ENCODED_BYTES_EXCEED_LIMIT")
  else let? decision := NewDecision offer true [] in Ok (decision, []).

Definition generationAcknowledgementFromRecorded (custody : gencustody.CustodyResult)
    (recorded : record.DurableResult) : res Acknowledgement :=
  let receipt := record.Receipt recorded in
  let transfer := gencustody.Transfer custody in
  fail? negb (bool_decide (record.Descriptor receipt = ResultDescriptor transfer)) ||
        negb (record.MetadataBytes receipt =? MetadataBytes transfer) ||
        negb (bool_decide (record.MetadataSHA256 receipt = MetadataSHA256 transfer)) ||
        negb (record.TransferBytes receipt =? TransferBytes transfer) ||
        negb (bool_decide (record.TransferSHA256 receipt = TransferSHA256 transfer))
    with Errorf "FI generation recorder receipt does not bind exact durable custody transfer identity" ;;
  let outcome := match record.Disposition recorded with
                 | record.RecordedDispositionNew => AcknowledgementOutcomeRecorded
                 | record.RecordedDispositionAlreadyRecorded => AcknowledgementOutcomeAlreadyRecorded
                 end in
  let? acknowledgement := NewAcknowledgement outcome transfer in
  check? AcknowledgementMatches acknowledgement transfer ;;
  Ok acknowledgement.

(** The path of the marker, or the error that becomes the warning. *)
Definition publishGenerationReady (readyRoot : bytes) (root : RootState) (recorded : record.DurableResult)
    (d : dir) : res bytes * dir :=
  let '(ready, d) := generationready.Publish readyRoot root (filepath_Base (record.ReceiptPath recorded)) d in
  ((let? ready := ready in Ok (generationready.Path ready)), d).

(** From the accepted offer to the acknowledgement. *)
Definition receiveAccepted {W} `{Writer W} (config : GenerationReceiveConfig) (rs : roots) (offer : Offer)
    (decision : Decision) (s : gen_state W) : (GenerationReceiveResult * res unit) * gen_state W :=
  let '(GS r w cd rd yd) := s in
  let partial := {| ResultOffer := Some offer; ResultDecision := Some decision; ResultCustody := None;
                    ResultRecorder := None; ResultReady := None; ResultAcknowledgement := None |} in
  let '(custody, (r, cd)) :=
    gencustody.ReceiveToDurableCustody offer (Custody config) (custody_root rs) (r, cd) in
  stage partial (GS r w cd rd yd) (wrap "receive FI generation to durable custody: %w" custody) (fun custody =>
    let partial := {| ResultOffer := Some offer; ResultDecision := Some decision; ResultCustody := Some custody;
                      ResultRecorder := None; ResultReady := None; ResultAcknowledgement := None |} in
    let '(recorded, (cd, rd)) :=
      recording.RecordCustodyDurably custody (Custody config) (Recorder config) (custody_root rs)
        (recorder_root rs) (cd, rd) in
    stage partial (GS r w cd rd yd) (wrap "record FI generation from durable custody: %w" recorded) (fun recorded =>
      let '(ready, yd) := publishGenerationReady (ReadyRoot config) (ready_root rs) recorded yd in
      let partial := {| ResultOffer := Some offer; ResultDecision := Some decision; ResultCustody := Some custody;
                        ResultRecorder := Some recorded; ResultReady := Some ready;
                        ResultAcknowledgement := None |} in
      stage partial (GS r w cd rd yd)
        (wrap "construct FI generation recorded acknowledgement: %w"
           (generationAcknowledgementFromRecorded custody recorded)) (fun acknowledgement =>
          let '(sent, w) := WriteAcknowledgement acknowledgement w in
          (({| ResultOffer := Some offer; ResultDecision := Some decision; ResultCustody := Some custody;
               ResultRecorder := Some recorded; ResultReady := Some ready;
               ResultAcknowledgement := Some acknowledgement |},
            wrap "write FI generation recorded acknowledgement: %w" sent), GS r w cd rd yd)))).

Definition ReceiveGenerationAndAcknowledge {W} `{Writer W} (config : GenerationReceiveConfig) (rs : roots)
    (s : gen_state W) : (GenerationReceiveResult * res unit) * gen_state W :=
  stage noResult s (validateGenerationReceiveConfig config) (fun _ =>
    let '(GS r w cd rd yd) := s in
    let '(offer, r) := ReadOffer r in
    stage noResult (GS r w cd rd yd) (wrap "read FI generation offer: %w" offer) (fun offer =>
      let partial := {| ResultOffer := Some offer; ResultDecision := None; ResultCustody := None;
                        ResultRecorder := None; ResultReady := None; ResultAcknowledgement := None |} in
      stage partial (GS r w cd rd yd) (generationAdmissionDecision offer config) (fun '(decision, rejectReason) =>
        let partial := {| ResultOffer := Some offer; ResultDecision := Some decision; ResultCustody := None;
                          ResultRecorder := None; ResultReady := None; ResultAcknowledgement := None |} in
        let '(sent, w) := WriteDecision decision w in
        stage partial (GS r w cd rd yd) (wrap "write FI generation decision: %w" sent) (fun _ =>
          if negb (bool_decide (rejectReason = []))
          then ((partial, Err (Wrap "%w: %s" ErrGenerationOfferRejected)), GS r w cd rd yd)
          else receiveAccepted config rs offer decision (GS r w cd rd yd))))).

(** ** Startup: [generation_startup_linux.go] *)

(** The settings of the listener that concern generations ([Config] in [listener.go]). *)
Record ListenerConfig := {
  ListenerBatchCRL : option RevocationList;
  ListenerBatchIssuer : option Certificate;
  CustodyRoot : bytes;
  GenerationEnabled : bool;
  GenerationCustodyRoot : bytes;
  GenerationMaxCanonicalBytes : Z;
  GenerationMaxEncodedBytes : Z;
  GenerationMaxManifestBytes : Z;
  GenerationReadyRoot : bytes;
  GenerationRecordedRoot : bytes;
  ListenerRoot : option Certificate;
  ListenerSource : transporttrust.SourceAuthorization
}.

Definition generationListenerEnabled (config : ListenerConfig) : bool := GenerationEnabled config.

Definition generationReceiveConfigFromListener (config : ListenerConfig) (currentTime : Z)
  : GenerationReceiveConfig := {|
  Custody := {|
    gencustody.Receive := {|
      BatchCRL := ListenerBatchCRL config;
      BatchIssuer := ListenerBatchIssuer config;
      CurrentTime := currentTime;
      MaxCanonicalBytes := GenerationMaxCanonicalBytes config;
      MaxEncodedBytes := GenerationMaxEncodedBytes config;
      Root := ListenerRoot config;
      Source := ListenerSource config |};
    gencustody.RootDir := GenerationCustodyRoot config |};
  ReadyRoot := GenerationReadyRoot config;
  Recorder := {|
    record.RootDir := GenerationRecordedRoot config;
    record.Semantic := {| recorder.MaxManifestBytes := GenerationMaxManifestBytes config |} |} |}.

Definition validateGenerationListenerConfig (config : ListenerConfig) : res unit :=
  let configured :=
    negb (bool_decide (GenerationCustodyRoot config = [])) || negb (bool_decide (GenerationReadyRoot config = [])) ||
    negb (bool_decide (GenerationRecordedRoot config = [])) || negb (GenerationMaxCanonicalBytes config =? 0) ||
    negb (GenerationMaxEncodedBytes config =? 0) || negb (GenerationMaxManifestBytes config =? 0) in
  if negb (generationListenerEnabled config) then
    fail? configured with Errorf "FI generation listener settings require explicit enablement" ;;
    Ok tt
  else
    fail? bool_decide (GenerationCustodyRoot config = []) || bool_decide (GenerationReadyRoot config = []) ||
          bool_decide (GenerationRecordedRoot config = []) || (GenerationMaxCanonicalBytes config =? 0) ||
          (GenerationMaxEncodedBytes config =? 0) || (GenerationMaxManifestBytes config =? 0)
      with Errorf "FI generation listener settings must all be configured when enabled" ;;
    fail? negb (filepath_IsAbs (GenerationCustodyRoot config)) || negb (filepath_IsAbs (GenerationReadyRoot config)) ||
          negb (filepath_IsAbs (GenerationRecordedRoot config))
      with Errorf "FI generation listener custody, recorder, and ready roots must be absolute" ;;
    let custodyRoot := filepath_Clean (GenerationCustodyRoot config) in
    let readyRoot := filepath_Clean (GenerationReadyRoot config) in
    let recordedRoot := filepath_Clean (GenerationRecordedRoot config) in
    fail? bool_decide (custodyRoot = recordedRoot) || bool_decide (custodyRoot = readyRoot) ||
          bool_decide (recordedRoot = readyRoot)
      with Errorf "FI generation custody, recorder, and ready roots must be distinct" ;;
    fail? negb (bool_decide (CustodyRoot config = [])) &&
          (bool_decide (custodyRoot = filepath_Clean (CustodyRoot config)) ||
           bool_decide (recordedRoot = filepath_Clean (CustodyRoot config)) ||
           bool_decide (readyRoot = filepath_Clean (CustodyRoot config)))
      with Errorf "FI generation roots must be distinct from batch/recovery custody root" ;;
    fail? (2 ^ 63 - 1 <? GenerationMaxCanonicalBytes config) || (2 ^ 63 - 1 <? GenerationMaxEncodedBytes config)
      with Errorf "FI generation listener transport limits exceed structural safety bounds" ;;
    fail? 64 * 2 ^ 20 <? GenerationMaxManifestBytes config
      with Errorf "FI generation listener manifest limit exceeds semantic safety bound" ;;
    Ok tt.

Record GenerationStartupResult := {
  AlreadyRecorded : Z;
  Discovered : Z;
  ReadyPublished : Z;
  ReadyWarning : option error;
  ReadyWarnings : Z;
  RecordedNew : Z;
  StartupRemovedProvisional : Z
}.

Definition startupResult (discovered removed : Z) : GenerationStartupResult := {|
  AlreadyRecorded := 0; Discovered := discovered; ReadyPublished := 0; ReadyWarning := None;
  ReadyWarnings := 0; RecordedNew := 0; StartupRemovedProvisional := removed |}.

(** The counters after one object was recorded; [ready] is the outcome of the marker. *)
Definition countNew (ready : res bytes) (result : GenerationStartupResult) : GenerationStartupResult := {|
  AlreadyRecorded := AlreadyRecorded result;
  Discovered := Discovered result;
  ReadyPublished := match ready with Ok _ => u64 (ReadyPublished result + 1) | _ => ReadyPublished result end;
  ReadyWarning := match ready, ReadyWarning result with Err e, None => Some e | _, w => w end;
  ReadyWarnings := match ready with Err _ => u64 (ReadyWarnings result + 1) | _ => ReadyWarnings result end;
  RecordedNew := u64 (RecordedNew result + 1);
  StartupRemovedProvisional := StartupRemovedProvisional result |}.
Definition countAlready (result : GenerationStartupResult) : GenerationStartupResult := {|
  AlreadyRecorded := u64 (AlreadyRecorded result + 1); Discovered := Discovered result;
  ReadyPublished := ReadyPublished result; ReadyWarning := ReadyWarning result;
  ReadyWarnings := ReadyWarnings result; RecordedNew := RecordedNew result;
  StartupRemovedProvisional := StartupRemovedProvisional result |}.

(** The loop over the discovered objects. *)
Fixpoint recordDiscovered (config : GenerationReceiveConfig) (rs : roots)
    (objects : list gencustody.DiscoveredCustody) (result : GenerationStartupResult)
    (s : dir * dir * dir) : (GenerationStartupResult * res unit) * (dir * dir * dir) :=
  match objects with
  | [] => ((result, Ok tt), s)
  | discovered :: objects =>
      let '(cd, rd, yd) := s in
      let '(recorded, (cd, rd)) :=
        recording.RecordDiscoveredCustodyDurably discovered (Custody config) (Recorder config)
          (custody_root rs) (recorder_root rs) (cd, rd) in
      match wrap "record restart-discovered FI generation custody %q: %w" recorded with
      | Ok recorded =>
          match record.Disposition recorded with
          | record.RecordedDispositionNew =>
              let '(ready, yd) := publishGenerationReady (ReadyRoot config) (ready_root rs) recorded yd in
              recordDiscovered config rs objects (countNew ready result) (cd, rd, yd)
          | record.RecordedDispositionAlreadyRecorded =>
              recordDiscovered config rs objects (countAlready result) (cd, rd, yd)
          end
      | Err e => ((result, Err e), (cd, rd, yd))
      | Panic => ((result, Panic), (cd, rd, yd))
      end
  end.

Definition RecoverGenerationStartup (config : ListenerConfig) (currentTime : Z) (rs : roots)
    (s : dir * dir * dir) : (GenerationStartupResult * res unit) * (dir * dir * dir) :=
  let zero := startupResult 0 0 in
  match (fail? IsZero currentTime with Errorf "FI generation startup current time is required" ;;
         check? wrap "validate FI generation startup configuration: %w" (validateGenerationListenerConfig config) ;;
         Ok tt) with
  | Ok _ =>
      if negb (generationListenerEnabled config) then ((zero, Ok tt), s)
      else
        let transactionConfig := generationReceiveConfigFromListener config currentTime in
        match wrap "validate FI generation startup receiver boundary: %w"
                (validateGenerationReceiveConfig transactionConfig) with
        | Ok _ =>
            let '(cd, rd, yd) := s in
            let '(recovery, cd) := gencustody.RecoverDurableCustodyRoot (Custody transactionConfig) (custody_root rs) cd in
            match wrap "recover FI generation durable custody at startup: %w" recovery with
            | Ok recovery =>
                recordDiscovered transactionConfig rs (gencustody.Objects recovery)
                  (startupResult (len (gencustody.Objects recovery)) (gencustody.RemovedProvisional recovery))
                  (cd, rd, yd)
            | Err e => ((zero, Err e), (cd, rd, yd))
            | Panic => ((zero, Panic), (cd, rd, yd))
            end
        | Err e => ((zero, Err e), s)
        | Panic => ((zero, Panic), s)
        end
  | Err e => ((zero, Err e), s)
  | Panic => ((zero, Panic), s)
  end.

(** A receiver that does not take generations answers the offer and stops. *)
Definition receiveAuthenticatedGeneration {W} `{Writer W} (config : ListenerConfig) (currentTime : Z) (rs : roots)
    (s : gen_state W) : (GenerationReceiveResult * res unit) * gen_state W :=
  if negb (generationListenerEnabled config) then
    let '(GS r w cd rd yd) := s in
    let '(offer, r) := ReadOffer r in
    stage noResult (GS r w cd rd yd) (wrap "read disabled FI generation offer: %w" offer) (fun offer =>
      let partial := {| ResultOffer := Some offer; ResultDecision := None; ResultCustody := None;
                        ResultRecorder := None; ResultReady := None; ResultAcknowledgement := None |} in
      stage partial (GS r w cd rd yd) (NewDecision offer false (bs "GENERATION_DISABLED")) (fun decision =>
        let partial := {| ResultOffer := Some offer; ResultDecision := Some decision; ResultCustody := None;
                          ResultRecorder := None; ResultReady := None; ResultAcknowledgement := None |} in
        let '(sent, w) := WriteDecision decision w in
        stage partial (GS r w cd rd yd) (wrap "write disabled FI generation decision: %w" sent) (fun _ =>
          ((partial, Err ErrGenerationNotEnabled), GS r w cd rd yd))))
  else ReceiveGenerationAndAcknowledge (generationReceiveConfigFromListener config currentTime) rs s.

End Receiver.

(** ** What an acknowledgement means *)

Section Facts.
Context `{Unicode} `{X509} `{Zstd} `{JSON SignedGeneration} `{JSON spool.Manifest} `{JSON record.RecordedReceipt}.
Context `{JSON Offer} `{JSON Decision} `{JSON Acknowledgement} `{!ZstdLaws}.

#[local] Abbreviation cstore := genstore.generations.
#[local] Abbreviation rstore := record.receipts.

(** The custody object and the receipt of one generation, on stable storage. *)
Definition held (transfer : TransferResult) (wire : bytes) (cd : dir) : Prop :=
  exists nd, stable cd (genstore.final_name transfer) nd /\ sealed nd /\ i_data nd = wire.
Definition receipted (transfer : TransferResult) (receipt : record.RecordedReceipt) (rd : dir) : Prop :=
  exists raw nd, record.MarshalRecordedReceipt receipt = Ok raw /\
    stable rd (record.recordedObjectName (SourceID (ResultDescriptor transfer))
                 (GenerationID (ResultDescriptor transfer))) nd /\ sealed nd /\ i_data nd = raw.

(** The acknowledged transaction: [wire] is the transfer, [fs] its artifacts, [ms] the
    batches they are. *)
Record acknowledged (config : GenerationReceiveConfig) (offer : Offer) (ack : Acknowledgement)
    (transfer : TransferResult) (receipt : record.RecordedReceipt) (wire : bytes)
    (fs : list (bytes * list bytes)) (ms : list spool.Manifest) : Prop := {
  ak_transfer : genstore.transfers offer (gencustody.Receive (Custody config)) wire transfer fs;
  ak_batches : recorder.batch_pairs (recorder.MaxManifestBytes (record.Semantic (Recorder config))) fs ms;
  ak_receipt : receipt = record.receipt_of transfer (recorder.result_of (ResultDescriptor transfer) ms);
  ak_matches : AcknowledgementMatches ack transfer = Ok tt
}.

Lemma acknowledgement_Ok custody recorded ack :
  generationAcknowledgementFromRecorded custody recorded = Ok ack ->
  AcknowledgementMatches ack (gencustody.Transfer custody) = Ok tt.
Proof. unfold generationAcknowledgementFromRecorded. intros Hr. res_inv Hr. by destruct v0. Qed.

(** The two directories only go forward. *)
Lemma receiveAccepted_dirs {W} `{Writer W} config rs offer decision (s : gen_state W) result err s' :
  wf (gs_custody s) -> wf (gs_recorder s) ->
  receiveAccepted config rs offer decision s = ((result, err), s') ->
  rtc (evolves cstore) (gs_custody s) (gs_custody s') /\ rtc (evolves rstore) (gs_recorder s) (gs_recorder s').
Proof.
  intros Hcw Hrw. destruct s as [r w cd rd yd]. unfold receiveAccepted. cbn [gs_custody gs_recorder] in *.
  destruct (gencustody.ReceiveToDurableCustody offer (Custody config) (custody_root rs) (r, cd)) as [custody [r1 cd1]] eqn:Ec.
  assert (evolves cstore cd cd1) as Hc1.
  { apply genstore.generation_step_evolves; [done|].
    apply (genstore.step_receive offer (Custody config) (custody_root rs) r (faults cd) cd custody r1).
    by rewrite set_faults_id. }
  intros [(c & _ & Hk)|(_ & -> & _)]%stage_inv; [|cbn [gs_custody gs_recorder]; split; [by apply rtc_once|constructor]].
  destruct (recording.RecordCustodyDurably c (Custody config) (Recorder config) (custody_root rs)
    (recorder_root rs) (cd1, rd)) as [recorded [cd2 rd2]] eqn:Er.
  apply recording.record_custody_dirs in Er as [Hc2 Hr2]; [|done].
  assert (rtc (evolves cstore) cd cd2) as Hc by (eapply rtc_l; [exact Hc1|by apply rtc_once]).
  assert (rtc (evolves rstore) rd rd2) as Hr by (by apply rtc_once).
  apply stage_inv in Hk as [(v & _ & Hk)|(_ & -> & _)]; [|done].
  destruct (publishGenerationReady (ReadyRoot config) (ready_root rs) v yd) as [ready yd2].
  apply stage_inv in Hk as [(ack & _ & Hk)|(_ & -> & _)]; [|done].
  destruct (WriteAcknowledgement ack w) as [sent w2]. injection Hk as <- <- <-. done.
Qed.

Lemma receiveAccepted_acknowledged {W} `{Writer W} config rs offer decision (s : gen_state W) result err s' ack :
  store_inv cstore (gs_custody s) -> store_inv rstore (gs_recorder s) ->
  receiveAccepted config rs offer decision s = ((result, err), s') ->
  ResultAcknowledgement result = Some ack ->
  ResultOffer result = Some offer /\
  exists custody recorded wire fs ms,
    ResultCustody result = Some custody /\ ResultRecorder result = Some recorded /\
    acknowledged config offer ack (gencustody.Transfer custody) (record.Receipt recorded) wire fs ms /\
    rd_data (gs_reader s) = wire ++ rd_data (gs_reader s') /\
    held (gencustody.Transfer custody) wire (gs_custody s') /\
    receipted (gencustody.Transfer custody) (record.Receipt recorded) (gs_recorder s').
Proof.
  intros Hci Hri. destruct s as [r w cd rd yd]. unfold receiveAccepted. cbn [gs_custody gs_recorder gs_reader] in *.
  destruct (gencustody.ReceiveToDurableCustody offer (Custody config) (custody_root rs) (r, cd)) as [custody [r1 cd1]] eqn:Ec.
  intros [(c & Hc%wrap_Ok & Hk)|(-> & _)]%stage_inv Hack; [|done]. subst custody.
  destruct (genstore.received_stable _ _ _ _ _ _ _ _ Hci Ec) as (Hci1 & wire & nd & Hrec & Hst & Hse & Hd).
  destruct Hrec as (transfer & [fs0 Ht] & Hdata & _ & _ & _ & Hv & _).
  assert (gencustody.Transfer c = transfer) as Htr by (rewrite Hv; done). rewrite <- Htr in Ht.
  destruct (recording.RecordCustodyDurably c (Custody config) (Recorder config) (custody_root rs)
    (recorder_root rs) (cd1, rd)) as [recorded [cd2 rd2]] eqn:Er.
  apply stage_inv in Hk as [(v & Hr%wrap_Ok & Hk)|(-> & _)]; [|done]. subst recorded.
  pose proof (proj1 Hri) as Hro.
  destruct (recording.record_custody _ _ _ _ _ _ _ _ _ _ Hro Er) as ((f & ->) & nd1 & fs & ms & Hl & Hev).
  destruct (publishGenerationReady (ReadyRoot config) (ready_root rs) v yd) as [ready yd2].
  apply stage_inv in Hk as [(a & Ha%wrap_Ok & Hk)|(-> & _)]; [|done].
  destruct (WriteAcknowledgement a w) as [sent w2]. injection Hk as <- <- <-. cbn in Hack. injection Hack as ->.
  cbn [gs_custody gs_recorder gs_reader ResultOffer ResultCustody ResultRecorder]. split; [done|]. exists c, v, wire, fs, ms. split; [done|]. split; [done|].
  assert (nd1 = nd) as ->.
  { destruct Hst as (i & Hn & _ & Hi & _). unfold lookup_file in Hl. rewrite Hn in Hl. cbn in Hl. congruence. }
  destruct Hev as [Ev1 Ev2 Ev3 Ev4]. rewrite Hd in Ev1.
  rewrite (genstore.offer_of_transfer _ _ _ _ _ Ht) in Ev1.
  split; [split; [done|done|done|by eapply acknowledgement_Ok]|]. split; [done|].
  split; [exists nd; split; [exact Hst|done]|]. destruct Ev4 as (raw & ndr & ? & ? & ? & ?). by exists raw, ndr.
Qed.

(** The whole transaction: the offer is read first. *)
Lemma transaction_cases {W} `{Writer W} config rs (s : gen_state W) result err s' :
  ReceiveGenerationAndAcknowledge config rs s = ((result, err), s') ->
  (gs_custody s' = gs_custody s /\ gs_recorder s' = gs_recorder s /\ ResultAcknowledgement result = None /\ err <> Ok tt) \/
  exists offer decision s1, ReadOffer (gs_reader s) = (Ok offer, gs_reader s1) /\
    generationAdmissionDecision offer config = Ok (decision, []) /\
    gs_custody s1 = gs_custody s /\ gs_recorder s1 = gs_recorder s /\ gs_ready s1 = gs_ready s /\
    receiveAccepted config rs offer decision s1 = ((result, err), s').
Proof.
  unfold ReceiveGenerationAndAcknowledge.
  intros [(u & _ & Hk)|(-> & -> & ?)]%stage_inv; [|by left]. destruct s as [r w cd rd yd].
  destruct (ReadOffer r) as [offer r1] eqn:Eo.
  apply stage_inv in Hk as [(o & Ho%wrap_Ok & Hk)|(-> & -> & ?)]; [|by left]. subst offer.
  apply stage_inv in Hk as [([decision reason] & Hd & Hk)|(-> & -> & ?)]; [|by left].
  destruct (WriteDecision decision w) as [sent w1].
  apply stage_inv in Hk as [(u2 & _ & Hk)|(-> & -> & ?)]; [|by left].
  case_bool_decide as Hr; cbn [negb] in Hk; [|injection Hk as <- <- <-; by left]. subst reason.
  right. exists o, decision, (GS r1 w1 cd rd yd). done.
Qed.

Lemma transaction_dirs {W} `{Writer W} config rs (s : gen_state W) result err s' :
  wf (gs_custody s) -> wf (gs_recorder s) ->
  ReceiveGenerationAndAcknowledge config rs s = ((result, err), s') ->
  rtc (evolves cstore) (gs_custody s) (gs_custody s') /\ rtc (evolves rstore) (gs_recorder s) (gs_recorder s').
Proof.
  intros Hc Hr [(-> & -> & _)|(offer & decision & s1 & _ & _ & Ec & Er & _ & Hk)]%transaction_cases;
    [by split; constructor|]. rewrite <- Ec, <- Er in *. by eapply receiveAccepted_dirs.
Qed.

Lemma recordDiscovered_dirs config rs objects : forall result cd rd yd r cd' rd' yd',
  store_inv cstore cd -> store_inv rstore rd ->
  recordDiscovered config rs objects result (cd, rd, yd) = (r, (cd', rd', yd')) ->
  rtc (evolves cstore) cd cd' /\ rtc (evolves rstore) rd rd'.
Proof.
  induction objects as [|o objects IH]; intros result cd rd yd r cd' rd' yd' Hc Hr; cbn [recordDiscovered].
  { intros [= <- <- <- <-]. by split; constructor. }
  destruct (recording.RecordDiscoveredCustodyDurably o (Custody config) (Recorder config) (custody_root rs)
    (recorder_root rs) (cd, rd)) as [recorded [cd1 rd1]] eqn:Er.
  apply recording.record_discovered_dirs in Er as [Hc1 Hr1]; [|apply Hr].
  assert (store_inv cstore cd1 /\ store_inv rstore rd1) as [Hc1' Hr1'].
  { split; by eapply evolves_store. }
  destruct (wrap _ recorded) as [v|e|]; [|by intros [= <- <- <- <-]; split; apply rtc_once..].
  assert (forall result yd1, recordDiscovered config rs objects result (cd1, rd1, yd1) = (r, (cd', rd', yd')) ->
    rtc (evolves cstore) cd cd' /\ rtc (evolves rstore) rd rd') as Hnext.
  { intros result1 yd1 Hk. destruct (IH _ _ _ _ _ _ _ _ Hc1' Hr1' Hk) as [Ha Hb].
    split; by eapply rtc_l. }
  destruct (record.Disposition v); [apply Hnext|].
  destruct (publishGenerationReady (ReadyRoot config) (ready_root rs) v yd) as [ready yd1]. apply Hnext.
Qed.

Lemma startup_dirs config now rs cd rd yd r cd' rd' yd' :
  store_inv cstore cd -> store_inv rstore rd ->
  RecoverGenerationStartup config now rs (cd, rd, yd) = (r, (cd', rd', yd')) ->
  rtc (evolves cstore) cd cd' /\ rtc (evolves rstore) rd rd'.
Proof.
  intros Hc Hr. unfold RecoverGenerationStartup. cbv zeta.
  match goal with |- context [match ?x with Ok _ => _ | _ => _ end] => destruct x end;
    [|by intros [= <- <- <- <-]; split; constructor..].
  destruct (negb _); [by intros [= <- <- <- <-]; split; constructor|].
  destruct (wrap _ (validateGenerationReceiveConfig _)); [|by intros [= <- <- <- <-]; split; constructor..].
  destruct (gencustody.RecoverDurableCustodyRoot _ (custody_root rs) cd) as [recovery cd1] eqn:Erec.
  assert (evolves cstore cd cd1) as Hc1.
  { apply genstore.recover_tidies in Erec. apply (evolves_tidy _ _ _ (faults cd)). by rewrite set_faults_id. }
  assert (store_inv cstore cd1) as Hc1' by (by eapply evolves_store).
  destruct (wrap _ recovery); [|intros [= <- <- <- <-]; split; [by apply rtc_once|constructor]..].
  intros [Ha Hb]%recordDiscovered_dirs; [|done|done]. split; [by eapply rtc_l|done].
Qed.

(** The life of a receiver: transactions on any connection, startups and power failures,
    with any faults. *)
Inductive step : dir * dir * dir -> dir * dir * dir -> Prop :=
| step_transaction W (HW : Writer W) config rs (r : reader) (w : W) f1 f2 f3 cd rd yd outcome s' :
    ReceiveGenerationAndAcknowledge config rs (GS r w (set_faults f1 cd) (set_faults f2 rd) (set_faults f3 yd)) =
      (outcome, s') ->
    step (cd, rd, yd) (gs_custody s', gs_recorder s', gs_ready s')
| step_startup config now rs f1 f2 f3 cd rd yd outcome s' :
    RecoverGenerationStartup config now rs (set_faults f1 cd, set_faults f2 rd, set_faults f3 yd) = (outcome, s') ->
    step (cd, rd, yd) s'
| step_crash cd rd yd cd' rd' yd' :
    crash cd cd' -> crash rd rd' -> crash yd yd' -> step (cd, rd, yd) (cd', rd', yd').

Lemma faults_evolve P fs d : evolves P d (set_faults fs d).
Proof. by eapply evolves_same. Qed.

Lemma step_dirs s s' :
  store_inv cstore s.1.1 -> store_inv rstore s.1.2 -> step s s' ->
  rtc (evolves cstore) s.1.1 s'.1.1 /\ rtc (evolves rstore) s.1.2 s'.1.2.
Proof.
  intros Hc Hr Hs. revert Hc Hr.
  destruct Hs as [W HW config rs r w f1 f2 f3 cd rd yd [result err] s' Hk
    |config now rs f1 f2 f3 cd rd yd outcome [[cd' rd'] yd'] Hk|cd rd yd cd' rd' yd' H1' H2' _]; cbn [fst snd]; intros Hc Hr.
  - apply transaction_dirs in Hk as [Ha Hb]; [|apply Hc|apply Hr]. cbn [gs_custody gs_recorder] in *.
    split; (eapply rtc_l; [apply faults_evolve|done]).
  - apply startup_dirs in Hk as [Ha Hb]; [|exact Hc|exact Hr].
    split; (eapply rtc_l; [apply faults_evolve|done]).
  - split; by apply rtc_once, evolves_crash.
Qed.

Lemma life_keeps s s' :
  store_inv cstore s.1.1 -> store_inv rstore s.1.2 -> rtc step s s' ->
  store_inv cstore s'.1.1 /\ store_inv rstore s'.1.2 /\
  (forall n x, genstore.generation_name n = true -> stable s.1.1 n x -> stable s'.1.1 n x) /\
  (forall n x, record.record_name n = true -> stable s.1.2 n x -> stable s'.1.2 n x).
Proof.
  intros Hc Hr Hs. induction Hs as [|s1 s2 s3 H12 _ IH]; [done|].
  destruct (step_dirs s1 s2 Hc Hr H12) as [Ha Hb].
  destruct (evolution_store _ _ _ Hc Ha) as (Hc2 & _ & Hkc).
  destruct (evolution_store _ _ _ Hr Hb) as (Hr2 & _ & Hkr).
  destruct (IH Hc2 Hr2) as (Hc3 & Hr3 & Hkc3 & Hkr3). split_and!; try done.
  - intros n x Hn Hx. apply Hkc3; [done|]. by apply Hkc.
  - intros n x Hn Hx. apply Hkr3; [done|]. by apply Hkr.
Qed.

Lemma acknowledgement_held {W} `{Writer W} config rs (s : gen_state W) result err s' ack cd rd yd :
  store_inv cstore (gs_custody s) -> store_inv rstore (gs_recorder s) ->
  ReceiveGenerationAndAcknowledge config rs s = ((result, err), s') -> ResultAcknowledgement result = Some ack ->
  rtc step (gs_custody s', gs_recorder s', gs_ready s') (cd, rd, yd) ->
  exists offer rest transfer receipt wire fs ms,
    ReadOffer (gs_reader s) = (Ok offer, rest) /\ rd_data rest = wire ++ rd_data (gs_reader s') /\
    acknowledged config offer ack transfer receipt wire fs ms /\ held transfer wire cd /\ receipted transfer receipt rd.
Proof.
  intros Hc Hr Hk Hack Hlife.
  destruct (transaction_dirs _ _ _ _ _ _ (proj1 (proj1 Hc)) (proj1 (proj1 Hr)) Hk) as [Ha Hb].
  apply evolution_store in Ha as (Hc' & _ & _); [|done]. apply evolution_store in Hb as (Hr' & _ & _); [|done].
  apply transaction_cases in Hk as [(_ & _ & Hno & _)|(offer & decision & s1 & Ho & _ & Ec & Er & _ & Hk)]; [congruence|].
  rewrite <- Ec in Hc. rewrite <- Er in Hr.
  destruct (receiveAccepted_acknowledged _ _ _ _ _ _ _ _ _ Hc Hr Hk Hack) as
    (_ & custody & recorded & wire & fs & ms & _ & _ & Hak & Hd & (nd & Hst & Hse & Hw) & (raw & ndr & Hraw & Hstr & Hser & Hdr)).
  exists offer, (gs_reader s1), (gencustody.Transfer custody), (record.Receipt recorded), wire, fs, ms.
  destruct (life_keeps (gs_custody s', gs_recorder s', gs_ready s') (cd, rd, yd) Hc' Hr' Hlife) as (_ & _ & Hkc & Hkr). cbn [fst snd] in *.
  split_and!; try done.
  - exists nd. split; [|done]. refine (Hkc _ nd (genstore.generationCustodyObjectName_object _ _) Hst).
  - exists raw, ndr. split; [done|]. split; [|done]. exact (Hkr _ ndr (record.recordedObjectName_record _ _) Hstr).
Qed.

(** [C2] An acknowledged generation is never lost. Whenever the receiver has made the
    acknowledgement of a generation transaction (whether or not it could be delivered),
    the bytes after the offer are one valid transfer for it, signed for the enrolled
    source; its artifacts are valid batch pairs; the acknowledgement matches exactly that
    transfer; and in every later state of the receiver, through any further transactions,
    restarts, failing system calls and power failures, the custody object holds exactly
    these bytes and the recorder directory holds the receipt of that transfer, both synced
    and read-only. *)
Theorem acknowledged_generation_never_lost {W} `{Writer W} config rs (s : gen_state W) result err s' ack cd rd yd :
  store_inv cstore (gs_custody s) -> store_inv rstore (gs_recorder s) ->
  ReceiveGenerationAndAcknowledge config rs s = ((result, err), s') -> ResultAcknowledgement result = Some ack ->
  rtc step (gs_custody s', gs_recorder s', gs_ready s') (cd, rd, yd) ->
  exists offer rest transfer receipt wire fs ms,
    ReadOffer (gs_reader s) = (Ok offer, rest) /\ rd_data rest = wire ++ rd_data (gs_reader s') /\
    acknowledged config offer ack transfer receipt wire fs ms /\ held transfer wire cd /\ receipted transfer receipt rd.
Proof. apply acknowledgement_held. Qed.

End Facts.
End genreceiver.
