(* ===== verification/GenerationDelivery.v ===== *)
(** * A generation is delivered or still queued

    The sender's stage root and the receiver's directories as one system: the sender runs
    transactions with any peer but accepts only acknowledgements the receiver has made (the
    mutually authenticated connection carries them); both sides restart and lose power at
    any time. The content of a generation is at every moment in the sender's queue or in
    the receiver's custody. *)

From stdpp Require Import gmap.
From S2P Require Import Prelude GoBytes GoStrings Sha256 GoIO GoFS GoDir GoPublish GoTree Pki TransportEncoding TransportTrust TransportGeneration GenerationCanonical GenerationProtocol GenerationTransfer GenerationPublished GenerationSender GenerationQueue GenerationRecorder GenerationRecord GenerationCustody GenerationStore GenerationReady GenerationRecording GenerationReceiver.

Module delivery.
Import transportgeneration protocol.

Section Facts.
Context `{Unicode} `{X509} `{Zstd} `{JSON SignedGeneration} `{JSON spool.Manifest} `{JSON record.RecordedReceipt}.
Context `{JSON Offer} `{JSON Decision} `{JSON Acknowledgement} `{!ZstdLaws}.
Context (net_Error : error -> bool).

(** The two hosts and the acknowledgements the receiver has made so far. *)
Record system := System {
  sender : tree;
  receiver : dir * dir * dir;
  made : list Acknowledgement
}.

Inductive system_step : system -> system -> Prop :=
| step_sender t t' r acks made :
    genqueue.sender_step net_Error t acks t' -> acks ⊆ made ->
    system_step (System t r made) (System t' r made)
| step_receiver t W `(Writer W) config rs reader (w : W) f1 f2 f3 cd rd yd result err s' made :
    genreceiver.ReceiveGenerationAndAcknowledge config rs
      (genreceiver.GS reader w (set_faults f1 cd) (set_faults f2 rd) (set_faults f3 yd)) = ((result, err), s') ->
    system_step (System t (cd, rd, yd) made)
      (System t (genreceiver.gs_custody s', genreceiver.gs_recorder s', genreceiver.gs_ready s')
         (option_list (genreceiver.ResultAcknowledgement result) ++ made))
| step_receiver_restart t r r' made :
    genreceiver.step r r' -> system_step (System t r made) (System t r' made).

(** What the receiver holds for an acknowledgement. *)
Definition delivered (r : dir * dir * dir) (ack : Acknowledgement) : Prop :=
  exists config offer transfer receipt wire fs ms,
    genreceiver.acknowledged config offer ack transfer receipt wire fs ms /\
    genreceiver.held transfer wire r.1.1 /\ genreceiver.receipted transfer receipt r.1.2.

Definition receiver_ok (r : dir * dir * dir) : Prop :=
  store_inv genstore.generations r.1.1 /\ store_inv record.receipts r.1.2.

(** The invariant of the receiver half. *)
Definition system_ok (s : system) : Prop :=
  tree_wf (sender s) /\ receiver_ok (receiver s) /\ Forall (delivered (receiver s)) (made s).

Lemma receiver_step_ok r r' : genreceiver.step r r' -> receiver_ok r -> receiver_ok r'.
Proof.
  intros Hs [Hc Hr]. destruct (genreceiver.life_keeps r r' Hc Hr (rtc_once _ _ Hs)) as (Hc' & Hr' & _). by split.
Qed.

Lemma restart_delivered r r' ack :
  genreceiver.step r r' -> receiver_ok r -> delivered r ack -> delivered r' ack.
Proof.
  intros Hs [Hc Hr] (config & offer & transfer & receipt & wire & fs & ms & Ha & (nd & Hst & Hse) & (raw & ndr & Hraw & Hstr & Hser)).
  destruct (genreceiver.life_keeps r r' Hc Hr (rtc_once _ _ Hs)) as (_ & _ & Hkc & Hkr).
  exists config, offer, transfer, receipt, wire, fs, ms. split; [done|]. split.
  - exists nd. split; [|done]. exact (Hkc _ nd (genstore.generationCustodyObjectName_object _ _) Hst).
  - exists raw, ndr. split; [done|]. split; [|done]. exact (Hkr _ ndr (record.recordedObjectName_record _ _) Hstr).
Qed.

(** The generation is queued, or the receiver has made an acknowledgement for it. *)
Definition safe (name metadata payload : bytes) (signed : SignedGeneration) (s : system) : Prop :=
  kept (genpublished.holds metadata payload) (sender s) name \/
  exists ack, ack ∈ made s /\
    AcknowledgementMatches ack (transfer_result (offer_for signed metadata) metadata payload) = Ok tt.

Lemma system_step_ok s s' name metadata payload signed :
  system_step s s' -> UnmarshalSignedGeneration metadata = Ok signed -> genqueue.queue_name name ->
  system_ok s -> system_ok s' /\ (safe name metadata payload signed s -> safe name metadata payload signed s').
Proof.
  intros [t t' r acks mk Hs Hsub|t W HW config rs reader w f1 f2 f3 cd rd yd result err s1 mk Hk|t r r' mk Hs] Hu Hq (Hw & Hr & Hm);
    unfold system_ok, safe; cbn [sender receiver made] in *.
  - destruct (genqueue.step_keeps _ _ _ _ name metadata payload signed Hs Hw Hu Hq) as [Hw' Hkept].
    split; [done|]. intros [Hk|?]; [|by right].
    destruct (Hkept Hk) as [?|(ack & Hin & Ha)]; [by left|]. right. exists ack. split; [|done]. by apply Hsub.
  - assert (genreceiver.step (cd, rd, yd) (genreceiver.gs_custody s1, genreceiver.gs_recorder s1, genreceiver.gs_ready s1))
      as Hs by (by eapply genreceiver.step_transaction).
    split; [|intros [?|(ack & ? & ?)]; [by left|right; exists ack; set_solver]].
    split; [done|]. split; [by eapply receiver_step_ok|]. apply Forall_app. split.
    + destruct (genreceiver.ResultAcknowledgement result) as [ack|] eqn:Ea; [|constructor]. apply Forall_singleton.
      destruct Hr as [Hc Hr].
      edestruct (genreceiver.acknowledgement_held config rs) as (offer & rest & transfer & receipt & wire & fs & ms & _ & _ & Ha & Hh & Hp);
        [| |exact Hk|exact Ea|apply rtc_refl|]; [exact Hc|exact Hr|].
      by exists config, offer, transfer, receipt, wire, fs, ms.
    + eapply Forall_impl; [exact Hm|]. intros ack. by apply restart_delivered.
  - split; [|done]. split; [done|]. split; [by eapply receiver_step_ok|].
    eapply Forall_impl; [exact Hm|]. intros ack. by apply restart_delivered.
Qed.

Lemma system_life s s' name metadata payload signed :
  rtc system_step s s' -> UnmarshalSignedGeneration metadata = Ok signed -> genqueue.queue_name name ->
  system_ok s -> safe name metadata payload signed s -> system_ok s' /\ safe name metadata payload signed s'.
Proof.
  intros Hl Hu Hq. induction Hl as [|s1 s2 s3 H12 _ IH]; [done|]. intros Ho Hs.
  destruct (system_step_ok _ _ name metadata payload signed H12 Hu Hq Ho) as [Ho2 Hs2]. auto.
Qed.

(** [C1] No generation is lost. Start with a generation that is on stable storage in the
    sender's queue and a receiver with intact directories that has made no acknowledgement.
    After any interleaving of sender transactions, reclamations, receiver transactions,
    restarts, failing system calls and power failures on both hosts, the generation is
    still in the queue with both files unchanged, or the receiver holds in custody, synced
    and read-only, a transfer that passed every check against the same descriptor and has
    the length and the SHA-256 of the bytes the sender transmits for the generation, with
    its recording receipt. *)
Theorem generation_queued_or_delivered t r name metadata payload signed s' :
  tree_wf t -> store_inv genstore.generations r.1.1 -> store_inv record.receipts r.1.2 ->
  UnmarshalSignedGeneration metadata = Ok signed ->
  name = gensender.generationDirectoryPrefix ++ GenerationID (SignedDescriptor signed) ->
  kept (genpublished.holds metadata payload) t name ->
  rtc system_step (System t r []) s' ->
  kept (genpublished.holds metadata payload) (sender s') name \/
  exists ack config offer transfer receipt wire fs ms,
    genreceiver.acknowledged config offer ack transfer receipt wire fs ms /\
    genreceiver.held transfer wire (receiver s').1.1 /\ genreceiver.receipted transfer receipt (receiver s').1.2 /\
    ResultDescriptor transfer = SignedDescriptor signed /\
    len wire = len (transfer_wire metadata payload) /\
    sha256_hex wire = sha256_hex (transfer_wire metadata payload).
Proof.
  intros Hw Hc Hr Hu -> Hk Hl.
  destruct (system_life _ _ _ metadata payload signed Hl Hu (genqueue.generation_queue_name (GenerationID (SignedDescriptor signed)))) as [(_ & _ & Hm) Hs];
    [by split; [|split; [|constructor]]|by left|].
  destruct Hs as [?|(ack & Hin & Ha)]; [by left|right].
  destruct (proj1 (Forall_forall _ _) Hm ack Hin) as (config & offer & transfer & receipt & wire & fs & ms & Hak & Hh & Hp).
  exists ack, config, offer, transfer, receipt, wire, fs, ms. split_and!; try done;
    destruct Hak as [Ht _ _ Ha'];
    apply AcknowledgementMatches_Ok in Ha as (_ & _ & A1 & _ & A4 & A5);
    apply AcknowledgementMatches_Ok in Ha' as (_ & _ & B1 & _ & B4 & B5);
    destruct (genstore.transfers_size _ _ _ _ _ Ht) as (Hb & Hsha & _); cbn [transfer_result ResultDescriptor TransferBytes TransferSHA256 offer_for OfferDescriptor] in A1, A4, A5; congruence.
Qed.

End Facts.
End delivery.
