(* ===== verification/GenerationExchange.v ===== *)
(** * A concrete generation exchange

    One generation of one batch is offered to a receiver with empty directories: the
    received wire bytes, the configuration and the states the transaction goes through
    are concrete values, on which the theorems of the generation receiver are applied. *)

From stdpp Require Import gmap.
From S2P Require Import Prelude GoBytes GoStrings Sha256 GoIO GoFS GoDir GoPublish GoTree Pki TransportEncoding TransportTrust TransportGeneration GenerationCanonical GenerationProtocol GenerationTransfer GenerationPublished GenerationSender GenerationQueue GenerationRecorder GenerationRecord GenerationCustody GenerationStore GenerationReady GenerationRecording GenerationReceiver GenerationDelivery.

Module exchange.
Import transportgeneration protocol.

(** The generation: the canonical stream is its own encoding under the demo codec. *)
Definition descriptor : Descriptor := {|
  Version := DescriptorVersion; SourceID := bs "FS-01"; GenerationID := bs "g1";
  DescriptorCanonicalVersion := CanonicalVersion; DataEncoding := DataEncodingZstd;
  ArtifactCount := 2; SourceBytes := 18;
  CanonicalBytes := len recorder.demoBatchStream; CanonicalSHA256 := sha256_hex recorder.demoBatchStream;
  EncodedDataBytes := len recorder.demoBatchStream; EncodedDataSHA256 := sha256_hex recorder.demoBatchStream |}.

Definition signed : SignedGeneration := {|
  SignedVersion := SignedGenerationVersion; SignedDescriptor := descriptor;
  Signature := sha256 (layout descriptor); BatchSigningCertificateDER := bs "FS-01" |}.
Definition metadata : bytes := bs "{signed generation metadata}".
Definition offer : Offer := offer_for signed metadata.
Definition wire : bytes := transfer_wire metadata recorder.demoBatchStream.
Definition transfer : TransferResult := transfer_result offer metadata recorder.demoBatchStream.
Definition receipt : record.RecordedReceipt :=
  record.receipt_of transfer (recorder.result_of descriptor [recorder.demoManifest]).
Definition decision : Decision := {|
  DecisionVersionText := DecisionVersion; DecisionSourceID := bs "FS-01"; DecisionGenerationID := bs "g1";
  Accepted := true; Reason := [] |}.
Definition acknowledgement : Acknowledgement := {|
  AckVersionText := AcknowledgementVersion; AckOutcome := AcknowledgementOutcomeRecorded;
  AckDescriptor := descriptor; AckMetadataBytes := len metadata;
  AckMetadataSHA256 := sha256_hex metadata; AckTransferBytes := TransferBytes transfer;
  AckTransferSHA256 := TransferSHA256 transfer |}.

#[local] Existing Instance asciiUnicode.
#[local] Existing Instance transporttrust.demoX509.
#[local] Existing Instance demoZstd.
#[local] Existing Instance demoZstd_laws.
#[local] Existing Instance recorder.demoManifestJSON.
#[local] Instance signedJSON : JSON SignedGeneration := fixedJSON signed metadata.
#[local] Instance receiptJSON : JSON record.RecordedReceipt := fixedJSON receipt (bs "{receipt}").
#[local] Instance offerJSON : JSON Offer := fixedJSON offer (bs "{offer}").
#[local] Instance decisionJSON : JSON Decision := fixedJSON decision (bs "{decision}").
#[local] Instance acknowledgementJSON : JSON Acknowledgement := fixedJSON acknowledgement (bs "{ack}").

Definition rootAt (path : bytes) : RootState := {|
  EvalSymlinks := Ok path;
  RootInfo := Ok {| fi_ino := 2; fi_kind := Directory; fi_perm := 448; fi_size := 0 |} |}.
Definition listener : genreceiver.ListenerConfig := {|
  genreceiver.ListenerBatchCRL := Some Demo.crl; genreceiver.ListenerBatchIssuer := Some transporttrust.demoIssuer;
  genreceiver.CustodyRoot := bs "/srv/batches"; genreceiver.GenerationEnabled := true;
  genreceiver.GenerationCustodyRoot := bs "/srv/custody"; genreceiver.GenerationMaxCanonicalBytes := 1000;
  genreceiver.GenerationMaxEncodedBytes := 1000; genreceiver.GenerationMaxManifestBytes := 10;
  genreceiver.GenerationReadyRoot := bs "/srv/ready"; genreceiver.GenerationRecordedRoot := bs "/srv/rec";
  genreceiver.ListenerRoot := Some transporttrust.demoRoot;
  genreceiver.ListenerSource := transporttrust.demoSource |}.
Definition config : genreceiver.GenerationReceiveConfig := genreceiver.generationReceiveConfigFromListener listener 50.
Definition custodyConfig : gencustody.CustodyConfig := genreceiver.Custody config.
Definition recorderConfig : record.DurableConfig := genreceiver.Recorder config.
Definition roots : genreceiver.roots := {|
  genreceiver.custody_root := rootAt (bs "/srv/custody"); genreceiver.recorder_root := rootAt (bs "/srv/rec");
  genreceiver.ready_root := rootAt (bs "/srv/ready") |}.

(** ** Custody *)

Definition custodyResult : gencustody.CustodyResult := Eval vm_compute in
  gencustody.newGenerationCustodyResult transfer
    (filepath_Join (bs "/srv/custody") (gencustody.generationCustodyObjectName (bs "FS-01") (bs "g1")))
    gencustody.CustodyDispositionNew.
Definition reception : res gencustody.CustodyResult * (reader * dir) :=
  gencustody.ReceiveToDurableCustody offer custodyConfig (rootAt (bs "/srv/custody"))
    (Reader (wire ++ bs "next") EOF, empty_dir []).
Definition custodyDir : dir := reception.2.2.

Lemma reception_ok :
  gencustody.ReceiveToDurableCustody offer custodyConfig (rootAt (bs "/srv/custody"))
    (Reader (wire ++ bs "next") EOF, empty_dir []) =
  (Ok custodyResult, (Reader (bs "next") EOF, custodyDir)).
Proof.
  assert (reception.1 = Ok custodyResult /\ reception.2.1 = Reader (bs "next") EOF) as [H1 H2]
    by (vm_compute; split; reflexivity).
  unfold custodyDir. fold reception. destruct reception as [r [rd d]]. cbn in *. by subst.
Qed.

(** The offer again, with the ninth system call of the custody directory failing. *)
Definition custodyRetry : dir :=
  (gencustody.ReceiveToDurableCustody offer custodyConfig (rootAt (bs "/srv/custody"))
     (Reader wire EOF, set_faults (replicate 8 None ++ [Some 0%nat]) custodyDir)).2.2.
(** After which no call fails. *)
Definition custodyLater : dir :=
  (gencustody.RecoverDurableCustodyRoot custodyConfig (rootAt (bs "/srv/custody")) (set_faults [] custodyRetry)).2.

Lemma custody_steps : rtc genstore.step custodyDir custodyLater.
Proof.
  apply (rtc_l _ _ custodyRetry); [|apply rtc_once].
  - unfold custodyRetry.
    destruct (gencustody.ReceiveToDurableCustody _ _ _ (_, set_faults _ _)) as [result [r' d']] eqn:E.
    by eapply genstore.step_receive.
  - unfold custodyLater.
    destruct (gencustody.RecoverDurableCustodyRoot _ _ (set_faults _ _)) as [result d'] eqn:E.
    by eapply genstore.step_recover.
Qed.

Lemma generation_custody_never_lost_witness :
  exists w nd, genstore.received offer custodyConfig (Reader (wire ++ bs "next") EOF) (Reader (bs "next") EOF)
      custodyResult w /\
    stable custodyLater (genstore.final_name transfer) nd /\ sealed nd /\ i_data nd = w /\
    gencustody.CustodyBytes custodyResult = len w /\ gencustody.CustodySHA256 custodyResult = sha256_hex w.
Proof.
  apply (genstore.generation_custody_never_lost offer custodyConfig (rootAt (bs "/srv/custody"))
           (Reader (wire ++ bs "next") EOF) (empty_dir []) custodyResult (Reader (bs "next") EOF) custodyDir custodyLater).
  - exact (empty_store_inv _ []).
  - exact reception_ok.
  - exact custody_steps.
Defined.

Lemma generation_custody_refines_store_witness :
  rtc store_step (abs genstore.generations (empty_dir [])) (abs genstore.generations custodyLater).
Proof.
  apply (genstore.generation_custody_refines_store (empty_dir []) custodyLater); [exact (empty_store_inv _ [])|].
  apply (rtc_l _ _ custodyDir); [|exact custody_steps].
  exact (genstore.step_receive offer custodyConfig (rootAt (bs "/srv/custody")) (Reader (wire ++ bs "next") EOF) []
           (empty_dir []) (Ok custodyResult) (Reader (bs "next") EOF) custodyDir reception_ok).
Defined.

(** The recorder's validator reads the object back later. *)
Definition validator : recorder.validator := {|
  recorder.batchCount := 0; recorder.config := record.Semantic recorderConfig; recorder.dataBytes := 0;
  recorder.pending := None; recorder.recordCount := 0 |}.

(** The receiver's configuration at a later time, under which the certificate is still valid. *)
Definition laterConfig : gencustody.CustodyConfig :=
  genreceiver.Custody (genreceiver.generationReceiveConfigFromListener listener 60).

Lemma wire_metadata m p : len m = OfferMetadataBytes offer -> wire ++ bs "next" = transfer_wire m p ++ bs "next" -> m = metadata.
Proof.
  intros Hm E. apply app_inv_tail in E. unfold wire, transfer_wire in E.
  do 3 (apply app_inj_1 in E as [_ E]; [|done]). apply app_inj_1 in E as [<- _]; [done|].
  assert (length metadata = Z.to_nat (OfferMetadataBytes offer)) by (vm_compute; reflexivity). unfold len in Hm. lia.
Qed.

Lemma custody_readable_witness :
  exists w fs, wire ++ bs "next" = w ++ bs "next" /\
    genstore.transfers offer (gencustody.Receive custodyConfig) w transfer fs /\
    forall h', canonical.run_steps
        (fun h name o => if recorder.MaxManifestBytes (recorder.config h) =? 10 then recorder.consumed h name o else None)
        validator fs = Some h' ->
      gencustody.ReadDurableCustodyArtifacts custodyResult laterConfig (rootAt (bs "/srv/custody"))
        recorder.consumeArtifact (validator, custodyLater) = (Ok transfer, (h', custodyLater)).
Proof.
  pose proof (genstore.custody_readable offer custodyConfig (rootAt (bs "/srv/custody"))
    (Reader (wire ++ bs "next") EOF) (empty_dir []) custodyResult (Reader (bs "next") EOF) custodyDir custodyLater
    recorder.consumeArtifact
    (fun h name o => if recorder.MaxManifestBytes (recorder.config h) =? 10 then recorder.consumed h name o else None)
    validator) as H.
  destruct H as (m & p & fs & H1 & H2 & H3 & _ & _ & H4).
  - exact (empty_store_inv _ []).
  - exact reception_ok.
  - exact custody_steps.
  - vm_compute. reflexivity.
  - apply (recorder.consumeArtifact_runs 10). vm_compute. split; congruence.
  - exists (transfer_wire m p), fs. split; [exact H1|]. split; [exact H3|]. intros h' Hrun.
    rewrite (wire_metadata m p H2 H1) in H4.
    apply (H4 laterConfig (rootAt (bs "/srv/custody")) h'); [vm_compute; reflexivity..|exact Hrun].
Defined.

(** A directory an interrupted reception left behind: a provisional file and an object. *)
Definition provisional : bytes := bs ".fi-generation-custody-17.open".
Definition object : bytes := Eval vm_compute in gencustody.generationCustodyObjectName (bs "FS-01") (bs "g1").
Definition interrupted : dir :=
  Dir (list_to_map [(provisional, 1%nat); (object, 0%nat)]) ∅
      (list_to_map [(0%nat, Inode Regular perm_0400 wire true); (1%nat, Inode Regular 384 (bs "FIGT") false)]) 2 [].

Lemma interrupted_recoverable n i : names interrupted !! n = Some i -> genstore.recoverable interrupted n.
Proof.
  assert (map_Forall (fun n (_ : nat) => genstore.recoverable interrupted n) (names interrupted)) as Hall.
  { apply map_Forall_insert_2; [|apply map_Forall_insert_2; [|apply map_Forall_empty]].
    - exists (Inode Regular 384 (bs "FIGT") false). split; [vm_compute; reflexivity|]. split; [done|].
      left. vm_compute. reflexivity.
    - exists (Inode Regular perm_0400 wire true). split; [vm_compute; reflexivity|]. split; [done|].
      right. split; [vm_compute; reflexivity|]. split; [done|]. vm_compute. reflexivity. }
  intros Hn. exact (Hall n i Hn).
Qed.

Lemma RecoverDurableCustodyRoot_complete_witness :
  exists removed d', gencustody.RecoverDurableCustodyRoot custodyConfig (rootAt (bs "/srv/custody")) interrupted =
      (Ok {| gencustody.Objects := [{| gencustody.DiscoveredBytes := len wire;
               gencustody.DiscoveredPath := filepath_Join (bs "/srv/custody") object |}];
             gencustody.RemovedProvisional := removed |}, d') /\ removed = 1 /\
    names d' !! provisional = None.
Proof.
  destruct (genstore.RecoverDurableCustodyRoot_complete custodyConfig (rootAt (bs "/srv/custody")) interrupted)
    as (removed & d' & Hr & Hn & _ & _ & Hd).
  - vm_compute. reflexivity.
  - reflexivity.
  - exact interrupted_recoverable.
  - exists removed, d'. split; [|split].
    + rewrite Hr. reflexivity.
    + rewrite Hn. vm_compute. reflexivity.
    + rewrite Hd. replace (gencustody.isGenerationCustodyProvisionalName provisional) with true
        by (vm_compute; reflexivity). reflexivity.
Defined.

(** ** Recording *)

Definition recordRun : res record.DurableResult * (dir * dir) :=
  recording.RecordCustodyDurably custodyResult custodyConfig recorderConfig (rootAt (bs "/srv/custody"))
    (rootAt (bs "/srv/rec")) (custodyLater, empty_dir []).
Definition recordedResult : record.DurableResult := Eval vm_compute in
  match recordRun.1 with Ok v => v | _ => record.demoRecordResult end.

Lemma recordRun_ok : recordRun = (Ok recordedResult, recordRun.2).
Proof.
  assert (recordRun.1 = Ok recordedResult) as H1 by (vm_compute; reflexivity).
  rewrite <- H1. by destruct recordRun.
Qed.

Lemma RecordCustodyDurably_sound_witness :
  exists nd fs ms, lookup_file custodyLater (genstore.final_name transfer) = Some nd /\
    recording.evidence custodyConfig recorderConfig transfer recordedResult (i_data nd) recordRun.2.2 fs ms.
Proof.
  apply (recording.RecordCustodyDurably_sound custodyResult custodyConfig recorderConfig (rootAt (bs "/srv/custody"))
    (rootAt (bs "/srv/rec")) custodyLater (empty_dir []) recordedResult recordRun.2.1 recordRun.2.2).
  - exact (empty_object_inv _ []).
  - fold recordRun. rewrite recordRun_ok at 1. cbn [fst snd]. by destruct recordRun.2.
Defined.

(** After a restart, from the directory entry alone. *)
Definition discovered : gencustody.DiscoveredCustody := {|
  gencustody.DiscoveredBytes := len wire; gencustody.DiscoveredPath := filepath_Join (bs "/srv/custody") object |}.
Definition restart : res record.DurableResult * (dir * dir) :=
  recording.RecordDiscoveredCustodyDurably discovered custodyConfig recorderConfig (rootAt (bs "/srv/custody"))
    (rootAt (bs "/srv/rec")) (interrupted, empty_dir []).

Lemma restart_ok : restart = (Ok recordedResult, restart.2).
Proof.
  assert (restart.1 = Ok recordedResult) as H1 by (vm_compute; reflexivity).
  rewrite <- H1. by destruct restart.
Qed.

Lemma RecordDiscoveredCustodyDurably_sound_witness :
  exists t nd fs ms, object = genstore.final_name t /\
    lookup_file interrupted (genstore.final_name t) = Some nd /\
    recording.evidence custodyConfig recorderConfig t recordedResult (i_data nd) restart.2.2 fs ms.
Proof.
  destruct (recording.RecordDiscoveredCustodyDurably_sound discovered custodyConfig recorderConfig
    (rootAt (bs "/srv/custody")) (rootAt (bs "/srv/rec")) interrupted (empty_dir []) recordedResult
    restart.2.1 restart.2.2) as (_ & t & nd & fs & ms & H1 & H2 & H3).
  - exact (empty_object_inv _ []).
  - fold restart. rewrite restart_ok at 1. cbn [fst snd]. by destruct restart.2.
  - exists t, nd, fs, ms. split; [|split; [exact H2|exact H3]]. rewrite <- H1. vm_compute. reflexivity.
Defined.

(** ** The transaction *)

Definition connection : genreceiver.gen_state bytes :=
  genreceiver.GS (Reader ((WriteOffer offer (W := bytes) []).2 ++ wire) EOF) [] (empty_dir []) (empty_dir []) (empty_dir []).
Definition transaction : (genreceiver.GenerationReceiveResult * res unit) * genreceiver.gen_state bytes :=
  genreceiver.ReceiveGenerationAndAcknowledge config roots connection.
Definition final : genreceiver.gen_state bytes := transaction.2.

(** A restart later, with a failing call, then no marker directory call failing. *)
Definition restarted : dir * dir * dir :=
  (genreceiver.RecoverGenerationStartup listener 60 roots
     (set_faults [None; None; Some 1%nat] (genreceiver.gs_custody final), set_faults [] (genreceiver.gs_recorder final),
      set_faults [] (genreceiver.gs_ready final))).2.

Lemma restarted_step :
  genreceiver.step (genreceiver.gs_custody final, genreceiver.gs_recorder final, genreceiver.gs_ready final) restarted.
Proof.
  unfold restarted. destruct (genreceiver.RecoverGenerationStartup _ _ _ _) as [outcome s'] eqn:E.
  by eapply genreceiver.step_startup.
Qed.

Lemma transaction_acknowledges : genreceiver.ResultAcknowledgement transaction.1.1 = Some acknowledgement.
Proof. vm_compute. reflexivity. Qed.

Lemma acknowledged_generation_never_lost_witness :
  exists o rest t r w fs ms,
    ReadOffer (genreceiver.gs_reader connection) = (Ok o, rest) /\
    rd_data rest = w ++ rd_data (genreceiver.gs_reader final) /\
    genreceiver.acknowledged config o acknowledgement t r w fs ms /\
    genreceiver.held t w restarted.1.1 /\ genreceiver.receipted t r restarted.1.2.
Proof.
  apply (genreceiver.acknowledged_generation_never_lost config roots connection transaction.1.1 transaction.1.2 final
    acknowledgement restarted.1.1 restarted.1.2 restarted.2).
  - exact (empty_store_inv _ []).
  - exact (empty_store_inv _ []).
  - unfold final. fold transaction. by destruct transaction as [[? ?] ?].
  - exact transaction_acknowledges.
  - pose proof (rtc_once _ _ restarted_step) as Hs. by destruct restarted as [[? ?] ?].
Defined.

(** ** The sender *)

Definition generationFiles : dir :=
  let ns := list_to_map [(genpublished.SealedGenerationPayloadName, 0%nat); (genpublished.SignedGenerationMetadataName, 1%nat)] in
  Dir ns ns (list_to_map [(0%nat, Inode Regular 256 recorder.demoBatchStream true); (1%nat, Inode Regular 256 metadata true)]) 2 [].
Definition generationName : bytes := bs "generation-g1".
Definition stageRoot : tree :=
  let ns := list_to_map [(generationName, 0%nat)] in Tree ns ns (list_to_map [(0%nat, Sub generationFiles)]) 1 [].
Definition published : genpublished.PublishedGeneration := {|
  genpublished.DirectoryPath := bs "/stage/generation-g1";
  genpublished.MetadataPath := bs "/stage/generation-g1/signed-generation.json";
  genpublished.PayloadPath := bs "/stage/generation-g1/payload.figz"; genpublished.Signed := signed |}.
Definition queued : gensender.TransportGeneration := {|
  gensender.GenerationDir := bs "/stage/generation-g1"; gensender.QueuedGenerationID := bs "g1";
  gensender.Published := published |}.
Definition noNetError (e : error) : bool := false.

Lemma generationName_entry : entry_of (bs "/stage/generation-g1") = generationName.
Proof. vm_compute. reflexivity. Qed.

Definition sending : res TransferResult * (bytes * tree) :=
  genpublished.WritePublishedGeneration (W := bytes) published ([], stageRoot).
Lemma sending_ok : genpublished.WritePublishedGeneration (W := bytes) published ([], stageRoot) =
  (Ok transfer, (wire, sending.2.2)).
Proof.
  assert (sending.1 = Ok transfer /\ sending.2.1 = wire) as [H1 H2] by (vm_compute; split; reflexivity).
  fold sending. destruct sending as [r [w t]]. cbn [fst snd] in *. by subst.
Qed.

Lemma WritePublishedGeneration_sound_witness :
  exists m p d, genpublished.generation_at stageRoot generationName m p signed d /\
    wire = transfer_wire m p /\ transfer = transfer_result (offer_for signed m) m p.
Proof.
  destruct (genpublished.WritePublishedGeneration_sound published ([] : bytes) stageRoot transfer wire sending.2.2 sending_ok)
    as (_ & m & p & d & H1 & H2 & H3 & _).
  exists m, p, d. rewrite <- generationName_entry. split; [exact H1|]. split; [exact H2|exact H3].
Defined.

(** The connection of the sender, with the answers of the receiver. *)
Definition answers : reader :=
  Reader ((WriteDecision decision (W := bytes) []).2 ++ (WriteAcknowledgement acknowledgement (W := bytes) []).2) EOF.
Definition sent : (gensender.GenerationTransportTransactionResult * res unit) * (reader * bytes * tree) :=
  gensender.SendAndRetireTransportGeneration noNetError (W := bytes) queued (answers, [], stageRoot).
Definition stageAfter : tree := sent.2.2.

Lemma sent_ok : sent.1.2 = Ok tt /\ gensender.SentAcknowledgement sent.1.1 = Some acknowledgement /\
  t_names stageAfter !! generationName = None.
Proof. vm_compute. split_and!; reflexivity. Qed.

Definition authorization : gensender.GenerationRetirementAuthorization := {|
  gensender.acknowledgement := acknowledgement; gensender.transfer := transfer |}.
Definition retirement : res gensender.GenerationRetirementResult * tree :=
  gensender.RetireTransportGeneration queued authorization stageRoot.
Definition retired : gensender.GenerationRetirementResult := Eval vm_compute in {|
  gensender.RetirementDisposition := gensender.GenerationRetirementDispositionRetired;
  gensender.RetiredGenerationID := bs "g1";
  gensender.RetiredPath := filepath_Join (bs "/stage") (gensender.generationRetirementObjectName transfer);
  gensender.RetiredSourceID := bs "FS-01"; gensender.RetiredTransferSHA256 := TransferSHA256 transfer |}.

Lemma RetireTransportGeneration_retired_witness :
  AcknowledgementMatches acknowledgement transfer = Ok tt /\
  genqueue.durably_renamed generationName (gensender.generationRetirementObjectName transfer) stageRoot retirement.2.
Proof.
  rewrite <- generationName_entry.
  apply (genqueue.RetireTransportGeneration_retired queued authorization stageRoot retired retirement.2).
  - assert (retirement.1 = Ok retired) as E by (vm_compute; reflexivity).
    fold retirement. rewrite <- E. by destruct retirement.
  - reflexivity.
Defined.

(** The sync of the stage root fails after the rename; the retry reports success for a
    rename that is still not on disk, where the active name is. *)
Definition unsynced : tree :=
  (gensender.RetireTransportGeneration queued authorization
     (set_tfaults (replicate 17 None ++ [Some 0%nat]) stageRoot)).2.
Lemma already_retired_not_durable :
  let '(result, t) := gensender.RetireTransportGeneration queued authorization (set_tfaults [] unsynced) in
  (gensender.RetirementDisposition <$> match result with Ok v => Some v | _ => None end) =
    Some gensender.GenerationRetirementDispositionAlreadyRetired /\
  t_names t !! generationName = None /\ t_durable t !! generationName = Some 0%nat.
Proof. vm_compute. split_and!; reflexivity. Qed.

(** The sender's transaction, then a reclamation during which the second call fails. *)
Definition stageState : gensender.StageState := {|
  gensender.stage_root := rootAt (bs "/stage"); gensender.eval_entry := Ok |}.
Definition reclaimed : tree :=
  (gensender.ReclaimGenerationRetirementTombstones (bs "/stage") (bs "FS-01") stageState
     (set_tfaults [None; Some 0%nat] stageAfter)).2.

Lemma sender_transaction : genqueue.sender_step noNetError stageRoot [acknowledgement] stageAfter.
Proof.
  pose proof sent_ok as (_ & Ha & _). change [acknowledgement] with (option_list (Some acknowledgement)).
  rewrite <- Ha. unfold stageAfter. destruct sent as [[result err] [[r w] t]] eqn:E.
  eapply (genqueue.step_send noNetError stageRoot bytes _ queued answers [] []). exact E.
Qed.

Lemma sender_reclamation : genqueue.sender_step noNetError stageAfter [] reclaimed.
Proof.
  unfold reclaimed. destruct (gensender.ReclaimGenerationRetirementTombstones _ _ _ _) as [outcome t'] eqn:E.
  by eapply genqueue.step_reclaim.
Qed.

Lemma stageRoot_names : tree_wf stageRoot.
Proof.
  split.
  - intros a b i. cbn [t_names stageRoot]. cbn [list_to_map foldr uncurry].
    rewrite !lookup_insert_Some, lookup_empty. naive_solver.
  - intros a i. cbn [t_names t_durable t_next stageRoot]. cbn [list_to_map foldr uncurry].
    rewrite !lookup_insert_Some, lookup_empty. naive_solver lia.
Qed.

Lemma metadata_signed : UnmarshalSignedGeneration metadata = Ok signed.
Proof. vm_compute. reflexivity. Qed.

Lemma stageRoot_kept : kept (genpublished.holds metadata recorder.demoBatchStream) stageRoot generationName.
Proof.
  exists 0%nat, generationFiles. split; [reflexivity|]. split; [reflexivity|]. split; [reflexivity|]. split.
  - exists (Inode Regular 256 metadata true). split; [|reflexivity]. exists 1%nat. split_and!; reflexivity.
  - exists (Inode Regular 256 recorder.demoBatchStream true). split; [|reflexivity]. exists 0%nat. split_and!; reflexivity.
Qed.

Lemma unacknowledged_generation_kept_witness :
  kept (genpublished.holds metadata recorder.demoBatchStream) reclaimed generationName \/
  exists ack, ack ∈ [acknowledgement] /\ AcknowledgementMatches ack transfer = Ok tt.
Proof.
  apply (genqueue.unacknowledged_generation_kept noNetError stageRoot [acknowledgement] reclaimed generationName
    metadata recorder.demoBatchStream signed).
  - change [acknowledgement] with ([acknowledgement] ++ []). eapply genqueue.life_step; [exact sender_transaction|].
    change (@nil Acknowledgement) with (@nil Acknowledgement ++ []) at 1.
    eapply genqueue.life_step; [exact sender_reclamation|]. constructor.
  - exact stageRoot_names.
  - exact metadata_signed.
  - vm_compute. reflexivity.
  - exact stageRoot_kept.
Defined.

(** ** Both hosts *)

Definition before : delivery.system := delivery.System stageRoot (empty_dir [], empty_dir [], empty_dir []) [].
Definition after : delivery.system :=
  delivery.System stageAfter
    (genreceiver.gs_custody final, genreceiver.gs_recorder final, genreceiver.gs_ready final) [acknowledgement].

Lemma before_after : rtc (delivery.system_step noNetError) before after.
Proof.
  assert (transaction = ((transaction.1.1, transaction.1.2), final)) as E
    by (unfold final; by destruct transaction as [[? ?] ?]).
  assert (delivery.system_step noNetError before (delivery.System stageRoot
    (genreceiver.gs_custody final, genreceiver.gs_recorder final, genreceiver.gs_ready final)
    (option_list (genreceiver.ResultAcknowledgement transaction.1.1) ++ []))) as Hs.
  { apply (delivery.step_receiver noNetError stageRoot bytes _ config roots (genreceiver.gs_reader connection)
      [] [] [] [] (empty_dir []) (empty_dir []) (empty_dir []) transaction.1.1 transaction.1.2 final []).
    change (genreceiver.ReceiveGenerationAndAcknowledge config roots _) with transaction. exact E. }
  rewrite transaction_acknowledges in Hs. eapply rtc_l; [exact Hs|]. apply rtc_once.
  eapply delivery.step_sender; [exact sender_transaction|done].
Qed.

(** The sender has retired the generation: the receiver holds it. *)
Lemma generation_queued_or_delivered_witness :
  t_names (delivery.sender after) !! generationName = None /\
  exists ack config offer transfer receipt w fs ms,
    genreceiver.acknowledged config offer ack transfer receipt w fs ms /\
    genreceiver.held transfer w (delivery.receiver after).1.1 /\ ResultDescriptor transfer = descriptor /\
    len w = len wire /\ sha256_hex w = sha256_hex wire.
Proof.
  split; [exact (proj2 (proj2 sent_ok))|].
  destruct (delivery.generation_queued_or_delivered noNetError stageRoot (empty_dir [], empty_dir [], empty_dir [])
    generationName metadata recorder.demoBatchStream signed after)
    as [(i & d & Hi & _)|(ack & c & o & tr & receipt & w & fs & ms & H1 & H2 & _ & H4 & H5)].
  - exact stageRoot_names.
  - exact (empty_store_inv _ []).
  - exact (empty_store_inv _ []).
  - exact metadata_signed.
  - vm_compute. reflexivity.
  - exact stageRoot_kept.
  - exact before_after.
  - exfalso. pose proof (proj2 (proj2 sent_ok)) as Hn. cbn [delivery.sender after] in Hi. congruence.
  - exists ack, c, o, tr, receipt, w, fs, ms. split; [exact H1|]. split; [exact H2|]. split; [exact H4|exact H5].
Defined.

End exchange.
