(* ===== verification/TransportReceiver.v ===== *)
(** * Receiving a batch into durable custody

    Models [go/internal/transportreceiver]: [intake.go] (reading and validating one
    framed batch), [custody_linux.go] (publishing the exact frame as a durable
    custody object) and [transaction_linux.go] (acknowledging it). *)

From stdpp Require Import gmap.
From S2P Require Import Prelude GoBytes GoStrings GoIO Sha256 Pki GoFS TransportEncoding TransportBatch TransportTrust TransportPackage TransportWire TransportAck.

Module transportreceiver.

Definition intakeFrameMagicV1 : bytes := bs "FIWB0001".
Definition intakeFrameMagicV2 : bytes := bs "FIWB0002".
Definition maxCopyDataBytes : Z := 2 ^ 63 - 1.

Record IntakeConfig := {
  BatchCRL : option RevocationList;
  BatchIssuer : option Certificate;
  CurrentTime : Z;
  MaxDataBytes : Z;
  Root : option Certificate;
  Source : transporttrust.SourceAuthorization
}.

Record IntakeResult := {
  IntakeDataBytes : Z;
  IntakeDataSHA256 : bytes;
  Header : transportwire.Header;
  Manifest : bytes
}.

Section Receiver.
Context `{Unicode} `{X509} `{Zstd}.

Definition validateIntakeConfig (config : IntakeConfig) : res unit :=
  match BatchCRL config with
  | None => Err (Errorf "batch-signing CRL is required")
  | Some _ =>
  match BatchIssuer config with
  | None => Err (Errorf "batch-signing issuing certificate is required")
  | Some _ =>
  fail? IsZero (CurrentTime config) with Errorf "current time is required" ;;
  fail? MaxDataBytes config =? 0
    with Errorf "maximum batch data byte count must be greater than zero" ;;
  match Root config with
  | None => Err (Errorf "FI root certificate is required")
  | Some _ =>
  fail? bool_decide (transporttrust.SourceID (Source config) = [])
    with Errorf "FI source authorization is required" ;;
  Ok tt
  end end end.

(** The magic is read first and replayed in front of the stream. *)
Definition readIntakeHeader : prog reader transportwire.Header :=
  let! magic := wrap_err "read FI batch wire magic: %w" (ReadFull 8) in
  let replay (p : prog reader transportwire.Header) : prog reader transportwire.Header :=
    fun r => p (Reader (magic ++ rd_data r) (rd_end r)) in
  if bool_decide (magic = intakeFrameMagicV1) then
    wrap_err "read FI batch wire 0.1 header: %w" (replay transportwire.ReadHeader)
  else if bool_decide (magic = intakeFrameMagicV2) then
    wrap_err "read FI batch wire 0.2 header: %w" (replay transportwire.ReadHeaderV2)
  else throw (Errorf "FI batch wire frame magic is invalid").

(** The data readers return the digest and what went to [dataWriter]. *)
Definition readValidatedDataV1 (descriptor : transportbatch.Descriptor)
  : prog reader (bytes * bytes) :=
  let! data := wrap_err "read FI batch data payload: %w"
                 (CopyN (transportbatch.DataBytes descriptor)) in
  fail! negb (len data =? transportbatch.DataBytes descriptor)
    with Errorf "read FI batch data payload: wrote %d bytes, want %d" ;;
  let dataSHA256 := sha256_hex data in
  fail! negb (bool_decide (dataSHA256 = transportbatch.DataSHA256 descriptor))
    with Errorf "FI batch data SHA-256 does not match signed descriptor" ;;
  ret (dataSHA256, data).

Definition readValidatedDataV2 (descriptor : transportbatch.Descriptor)
  : prog reader (bytes * bytes) := fun r =>
  let encoded := limited (transportbatch.EncodedDataBytes descriptor) r in
  match transportencoding.NewZstdDecoder encoded with
  | Err e => (Err (Wrap "create FI batch zstd decoder: %w" e), r)
  | Panic => (Panic, r)
  | Ok (decoder, consumed) =>
      let after := Reader (drop (Z.to_nat consumed) (rd_data r)) (rd_end r) in
      let '(copied, decoder) := CopyN (transportbatch.DataBytes descriptor) decoder in
      (let? data := wrap "decode FI batch data payload: %w" copied in
       fail? negb (len data =? transportbatch.DataBytes descriptor)
         with Errorf "decode FI batch data payload: wrote %d bytes, want %d" ;;
       fail? negb (bool_decide (rd_data decoder = []))
         with Errorf "decoded FI batch data exceeds signed canonical byte count" ;;
       fail? negb (errors_Is (rd_end decoder) EOF)
         with Wrap "check decoded FI batch data end: %w" (rd_end decoder) ;;
       fail? negb (transportbatch.EncodedDataBytes descriptor - consumed =? 0)
         with Errorf "FI batch zstd payload ended with %d signed encoded bytes unread" ;;
       let encodedSHA256 := sha256_hex (take (Z.to_nat consumed) (rd_data encoded)) in
       fail? negb (bool_decide (encodedSHA256 = transportbatch.EncodedDataSHA256 descriptor))
         with Errorf "FI batch encoded data SHA-256 does not match signed descriptor" ;;
       let dataSHA256 := sha256_hex data in
       fail? negb (bool_decide (dataSHA256 = transportbatch.DataSHA256 descriptor))
         with Errorf "FI batch data SHA-256 does not match signed descriptor" ;;
       Ok (dataSHA256, data), after)
  end.

(** The bounds a received descriptor must meet before anything is trusted. *)
Definition checkIntakeBounds (config : IntakeConfig) (descriptor : transportbatch.Descriptor)
  : res unit :=
  fail? MaxDataBytes config <? transportbatch.DataBytes descriptor
    with Errorf "batch data byte count %d exceeds receiver limit %d" ;;
  fail? maxCopyDataBytes <? transportbatch.DataBytes descriptor
    with Errorf "batch data byte count %d exceeds supported streaming range" ;;
  if bool_decide (transportbatch.Version descriptor = transportbatch.DescriptorVersionV2) then
    fail? MaxDataBytes config <? transportbatch.EncodedDataBytes descriptor
      with Errorf "batch encoded data byte count %d exceeds receiver limit %d" ;;
    fail? maxCopyDataBytes <? transportbatch.EncodedDataBytes descriptor
      with Errorf "batch encoded data byte count %d exceeds supported streaming range" ;;
    Ok tt
  else Ok tt.

(** Certificate, authorization and signature. *)
Definition checkIntakeTrust (config : IntakeConfig) (header : transportwire.Header) : res unit :=
  let signedBatch := transportwire.SignedBatch header in
  let? certificate := wrap "parse FI batch-signing certificate: %w"
                        (transportpackage.BatchSigningCertificate signedBatch) in
  let '(outcome, err) := transporttrust.VerifySignedBatch
    (transportpackage.Descriptor signedBatch) (transportpackage.Signature signedBatch)
    (Some certificate) (Root config) (BatchIssuer config) (BatchCRL config)
    (Source config) (CurrentTime config) in
  check? wrap "verify signed FI batch: %w" err ;;
  fail? negb (bool_decide (outcome = transporttrust.AuthorizationAuthorized))
    with Errorf "FI batch-signing authorization rejected: %s" ;;
  Ok tt.

Definition ReadValidatedBatch (config : IntakeConfig) : prog reader (IntakeResult * bytes) :=
  check! lift (validateIntakeConfig config) ;;
  let! header := readIntakeHeader in
  let descriptor := transportwire.descriptor header in
  check! lift (checkIntakeBounds config descriptor) ;;
  check! lift (checkIntakeTrust config header) ;;
  let! manifest := wrap_err "read published FI batch manifest payload: %w"
                     (ReadFull (transportwire.ManifestBytes header)) in
  fail! negb (bool_decide (sha256_hex manifest = transportbatch.ManifestSHA256 descriptor))
    with Errorf "published FI batch manifest SHA-256 does not match signed descriptor" ;;
  let! (dataSHA256, data) :=
    (if bool_decide (transportbatch.Version descriptor = transportbatch.DescriptorVersion)
     then readValidatedDataV1 descriptor
     else if bool_decide (transportbatch.Version descriptor = transportbatch.DescriptorVersionV2)
     then readValidatedDataV2 descriptor
     else throw (Errorf "validated FI descriptor version %q is unsupported")) in
  ret ({| IntakeDataBytes := transportbatch.DataBytes descriptor;
          IntakeDataSHA256 := dataSHA256; Header := header; Manifest := manifest |}, data).

(** ** What an accepted batch is *)

(** The wire form of a header, by the version of its descriptor. *)
Definition header_wire (h : transportwire.Header) (hdr : bytes) : Prop :=
  (transportbatch.Version (transportwire.descriptor h) = transportbatch.DescriptorVersion /\
   transportwire.encodeHeader h = Ok hdr) \/
  (transportbatch.Version (transportwire.descriptor h) = transportbatch.DescriptorVersionV2 /\
   transportwire.encodeHeaderV2 h = Ok hdr).

(** How the payload on the wire relates to the logical data. *)
Definition payload_of (d : transportbatch.Descriptor) (payload data : bytes) : Prop :=
  (transportbatch.Version d = transportbatch.DescriptorVersion /\ payload = data) \/
  (transportbatch.Version d = transportbatch.DescriptorVersionV2 /\
   len payload = transportbatch.EncodedDataBytes d /\
   sha256_hex payload = transportbatch.EncodedDataSHA256 d /\
   exists e, transportencoding.NewZstdDecoder (Reader payload EOF) = Ok (Reader data e, len payload) /\
             errors_Is e EOF = true).

(** The signed descriptor was verified for the configured source. *)
Definition trusted_header (config : IntakeConfig) (h : transportwire.Header) : Prop :=
  let sb := transportwire.SignedBatch h in
  exists leaf root issuer crl n e,
    transportpackage.BatchSigningCertificate sb = Ok leaf /\
    Root config = Some root /\ BatchIssuer config = Some issuer /\ BatchCRL config = Some crl /\
    transporttrust.accepted_batch_leaf leaf root issuer crl (Source config) (CurrentTime config) /\
    transportbatch.SourceID (transportpackage.Descriptor sb) =
      transporttrust.SourceID (Source config) /\
    PublicKey leaf = RSAKey n e /\
    VerifyPSS (n, e) (sha256 (transportbatch.layout (transportpackage.Descriptor sb)))
      (transportpackage.Signature sb) = Ok tt.

(** [accepted config result data frame]: [frame] is the exact wire form of a trusted
    batch whose manifest and logical data have the signed sizes and digests. *)
Definition accepted (config : IntakeConfig) (result : IntakeResult) (data frame : bytes) : Prop :=
  let h := Header result in
  let d := transportwire.descriptor h in
  transportwire.ValidHeader h /\ transportwire.Header_typed h /\ trusted_header config h /\
  IntakeDataBytes result = transportbatch.DataBytes d /\
  IntakeDataSHA256 result = transportbatch.DataSHA256 d /\
  len data = transportbatch.DataBytes d /\ sha256_hex data = transportbatch.DataSHA256 d /\
  len data <= MaxDataBytes config /\
  len (Manifest result) = transportwire.ManifestBytes h /\
  sha256_hex (Manifest result) = transportbatch.ManifestSHA256 d /\
  exists hdr payload, header_wire h hdr /\ payload_of d payload data /\
    frame = hdr ++ Manifest result ++ payload.

Lemma readIntakeHeader_Ok r h r' :
  readIntakeHeader r = (Ok h, r') ->
  transportwire.ValidHeader h /\ transportwire.Header_typed h /\ rd_end r' = rd_end r /\
  exists hdr, header_wire h hdr /\ rd_data r = hdr ++ rd_data r'.
Proof.
  unfold readIntakeHeader. intros Hr.
  apply bind_read_Ok in Hr as (magic & r1 & _ & D1 & E1 & Hr); [|lia]. cbv zeta in Hr.
  case_bool_decide as Hm1; [|case_bool_decide as Hm2; [|done]]; apply wrap_err_Ok in Hr;
    [apply transportwire.ReadHeader_inv in Hr as (Hv & Hty & Hver & He & out & Henc & Hd)
    |apply transportwire.ReadHeaderV2_inv in Hr as (Hv & Hty & Hver & He & out & Henc & Hd)];
    cbn [rd_data rd_end] in *; rewrite <- D1 in Hd;
    (split; [done|]); (split; [done|]); (split; [congruence|]); exists out; unfold header_wire; auto.
Qed.

Lemma readValidatedDataV1_Ok d r sha data r' :
  readValidatedDataV1 d r = (Ok (sha, data), r') ->
  sha = transportbatch.DataSHA256 d /\ len data = transportbatch.DataBytes d /\
  sha256_hex data = transportbatch.DataSHA256 d /\
  rd_data r = data ++ rd_data r' /\ rd_end r' = rd_end r.
Proof.
  unfold readValidatedDataV1. intros Hr.
  apply bind_Ok in Hr as (x & r1 & Hx%wrap_err_Ok%CopyN_Ok & Hr).
  destruct (negb _) eqn:E1 in Hr; [done|]. destruct (negb _) eqn:E2 in Hr; [done|].
  injection Hr as <- <- <-. bool_hyps. split_and!; try done; [lia|apply Hx..].
Qed.

Lemma readValidatedDataV2_Ok `{!ZstdLaws} d r sha data r' :
  readValidatedDataV2 d r = (Ok (sha, data), r') -> 0 <= transportbatch.EncodedDataBytes d ->
  exists payload,
    sha = transportbatch.DataSHA256 d /\ len data = transportbatch.DataBytes d /\
    sha256_hex data = transportbatch.DataSHA256 d /\
    len payload = transportbatch.EncodedDataBytes d /\
    sha256_hex payload = transportbatch.EncodedDataSHA256 d /\
    (exists e, transportencoding.NewZstdDecoder (Reader payload EOF) = Ok (Reader data e, len payload) /\
               errors_Is e EOF = true) /\
    rd_data r = payload ++ rd_data r' /\ rd_end r' = rd_end r.
Proof.
  unfold readValidatedDataV2. intros Hr Hpos. set (n := transportbatch.EncodedDataBytes d) in *.
  destruct (transportencoding.NewZstdDecoder (limited n r)) as [[out consumed]|e|] eqn:Ez; try done.
  pose proof (zstd_consumed _ _ _ (NewZstdDecoder_Ok _ _ _ Ez)) as Hc.
  destruct (CopyN _ out) as [copied out'] eqn:Ec. injection Hr as Hr <-.
  res_inv Hr. bool_hyps.
  pose proof (CopyN_Ok _ _ _ _ Ec) as [Hd He].
  assert (consumed = n) as -> by lia.
  unfold limited in Hc, Ez, Heqb3. destruct (n <=? len (rd_data r)) eqn:En; [|lia].
  cbn [rd_data] in *. set (payload := take (Z.to_nat n) (rd_data r)) in *.
  assert (len payload = n) as Hlp by (unfold payload, len in *; rewrite length_take; lia).
  exists payload. rewrite take_ge in Heqb3 by (unfold len in *; lia).
  split_and!; try done; [lia| |unfold payload; by rewrite take_drop].
  exists (rd_end out'). split; [|done]. rewrite Hlp, Ez.
  destruct out as [od oe]. cbn [rd_data rd_end] in *. rewrite He.
  match goal with Hnil : rd_data out' = [] |- _ => rewrite Hnil, app_nil_r in Hd end.
  by subst od.
Qed.

Lemma checkIntakeTrust_Ok config h :
  checkIntakeTrust config h = Ok tt -> trusted_header config h.
Proof.
  unfold checkIntakeTrust, trusted_header. intros Ht. res_inv Ht.
  destruct (transporttrust.VerifySignedBatch _ _ _ _ _ _ _ _) as [o err] eqn:Ev.
  res_inv Ht. destruct v0. subst err.
  apply transporttrust.VerifySignedBatch_Ok in Ev as
    (-> & _ & Hsrc & _ & l & r & i & c & n & e & [= <-] & Hroot & Hissuer & Hcrl & Ha & Hk & Hs).
  by exists v, r, i, c, n, e.
Qed.

Lemma checkIntakeBounds_Ok config d :
  checkIntakeBounds config d = Ok tt -> transportbatch.DataBytes d <= MaxDataBytes config.
Proof. unfold checkIntakeBounds. intros Hb. destruct (_ <? _) eqn:E in Hb; [done|]. lia. Qed.

(** The intake as a whole: what it consumed is exactly an accepted frame. *)
Lemma ReadValidatedBatch_Ok `{!ZstdLaws} config r result data r' :
  ReadValidatedBatch config r = (Ok (result, data), r') ->
  rd_end r' = rd_end r /\
  exists frame, accepted config result data frame /\ rd_data r = frame ++ rd_data r'.
Proof.
  unfold ReadValidatedBatch. intros Hr. apply bind_lift_Ok in Hr as ([] & _ & Hr).
  apply bind_Ok in Hr as (h & r1 & Hh & Hr).
  apply readIntakeHeader_Ok in Hh as (Hv & Htyped & E1 & hdr & Hhdr & D1).
  pose proof Htyped as [(_ & _ & Hty) Htm]. cbv zeta in Hr.
  apply bind_lift_Ok in Hr as ([] & Hb%checkIntakeBounds_Ok & Hr).
  apply bind_lift_Ok in Hr as ([] & Ht%checkIntakeTrust_Ok & Hr).
  apply bind_read_Ok in Hr as (man & r2 & Hml & D2 & E2 & Hr); [|unfold is_u64 in Htm; lia].
  case_bool_decide as Hms; [|done]. cbn [negb] in Hr.
  apply bind_Ok in Hr as ([sha dat] & r3 & Hdat & Hr). injection Hr as <- <- <-.
  assert (exists payload, payload_of (transportwire.descriptor h) payload dat /\
    sha = transportbatch.DataSHA256 (transportwire.descriptor h) /\
    len dat = transportbatch.DataBytes (transportwire.descriptor h) /\
    sha256_hex dat = transportbatch.DataSHA256 (transportwire.descriptor h) /\
    rd_data r2 = payload ++ rd_data r3 /\ rd_end r3 = rd_end r2) as (payload & Hp & -> & Hl & Hs & D3 & E3).
  { case_bool_decide as Hv1.
    - apply readValidatedDataV1_Ok in Hdat as (? & ? & ? & ? & ?). exists dat.
      split_and!; try done. by left.
    - case_bool_decide as Hv2; [|done].
      apply readValidatedDataV2_Ok in Hdat as (payload & ? & ? & ? & ? & ? & ? & ? & ?);
        [|unfold is_u64 in Hty; lia].
      exists payload. split_and!; try done. by right. }
  split; [congruence|]. exists (hdr ++ man ++ payload).
  split; [|by rewrite D1, D2, D3, <- !app_assoc].
  unfold accepted. cbn. split_and!; try done; [lia|]. by exists hdr, payload.
Qed.

(** The readers on the bytes of a frame. *)
Lemma header_wire_magic h hdr :
  transportwire.ValidHeader h -> header_wire h hdr ->
  exists t, (hdr = intakeFrameMagicV1 ++ t /\
             transportbatch.Version (transportwire.descriptor h) = transportbatch.DescriptorVersion /\
             hdr = transportwire.fixedV1 h ++ transportwire.tailV1 h) \/
            (hdr = intakeFrameMagicV2 ++ t /\
             transportbatch.Version (transportwire.descriptor h) = transportbatch.DescriptorVersionV2 /\
             hdr = transportwire.fixedV2 h ++ transportwire.tailV2 h).
Proof.
  intros Hv [(Hver & He)|(Hver & He)].
  - pose proof Hv as ((_ & (_ & _ & _ & _ & Hd1 & Hd2 & _) & _) & _).
    rewrite transportwire.encodeHeader_layout in He by done. injection He as <-.
    eexists. left. split; [|done]. unfold transportwire.fixedV1. by rewrite <- !app_assoc.
  - rewrite transportwire.encodeHeaderV2_layout in He by (by apply transportwire.ValidHeader_V2).
    injection He as <-.
    eexists. right. split; [|done]. unfold transportwire.fixedV2. by rewrite <- !app_assoc.
Qed.

Lemma readIntakeHeader_layout h hdr rest e :
  transportwire.ValidHeader h -> transportwire.Header_typed h -> header_wire h hdr ->
  readIntakeHeader (Reader (hdr ++ rest) e) = (Ok h, Reader rest e).
Proof.
  intros Hv [Hty Htm] Hw. unfold readIntakeHeader.
  destruct (header_wire_magic h hdr Hv Hw) as (t & [(Hm & Hver & Hl)|(Hm & Hver & Hl)]).
  - rewrite Hm, <- app_assoc, bind_read by done. rewrite bool_decide_eq_true_2 by done.
    unfold wrap_err. cbn [rd_data rd_end]. rewrite app_assoc, <- Hm, Hl, <- app_assoc.
    by rewrite transportwire.ReadHeader_layout.
  - rewrite Hm, <- app_assoc, bind_read by done.
    rewrite bool_decide_eq_false_2, bool_decide_eq_true_2 by done.
    unfold wrap_err. cbn [rd_data rd_end]. rewrite app_assoc, <- Hm, Hl, <- app_assoc.
    by rewrite transportwire.ReadHeaderV2_layout.
Qed.

Lemma readValidatedDataV1_layout d data rest e :
  len data = transportbatch.DataBytes d -> sha256_hex data = transportbatch.DataSHA256 d ->
  readValidatedDataV1 d (Reader (data ++ rest) e) = (Ok (sha256_hex data, data), Reader rest e).
Proof.
  intros Hl Hs. unfold readValidatedDataV1, bind, wrap_err. rewrite CopyN_app by done. cbn [wrap].
  rewrite Hl, Z.eqb_refl, Hs, bool_decide_eq_true_2 by done. done.
Qed.

Lemma readValidatedDataV2_layout d payload data rest e x :
  len payload = transportbatch.EncodedDataBytes d ->
  sha256_hex payload = transportbatch.EncodedDataSHA256 d ->
  transportencoding.NewZstdDecoder (Reader payload EOF) = Ok (Reader data x, len payload) -> errors_Is x EOF = true ->
  len data = transportbatch.DataBytes d -> sha256_hex data = transportbatch.DataSHA256 d ->
  readValidatedDataV2 d (Reader (payload ++ rest) e) = (Ok (sha256_hex data, data), Reader rest e).
Proof.
  intros Hpl Hps Hz Hx Hdl Hds. unfold readValidatedDataV2.
  assert (limited (transportbatch.EncodedDataBytes d) (Reader (payload ++ rest) e) = Reader payload EOF)
    as ->.
  { unfold limited. cbn [rd_data]. rewrite <- Hpl, len_app. pose proof (len_nonneg rest).
    replace (len payload <=? len payload + len rest) with true by lia.
    unfold len. by rewrite Nat2Z.id, take_app_length. }
  rewrite Hz. rewrite <- (app_nil_r data) at 1. rewrite CopyN_app by done. cbn [wrap res_bind rd_data rd_end].
  rewrite Hdl, Z.eqb_refl, bool_decide_eq_true_2, Hx, <- Hpl, Z.sub_diag by done. cbn.
  unfold len. rewrite Nat2Z.id, take_ge, drop_app_length by done.
  rewrite Hps, bool_decide_eq_true_2 by done. cbn. rewrite Hds, bool_decide_eq_true_2 by done. done.
Qed.

(** [C38] Intake soundness: a successful [ReadValidatedBatch] consumed exactly one frame,
    the canonical header, the manifest and the payload of a batch signed for the
    enrolled source by an accepted, unrevoked certificate, and the data it passed on
    has the signed size and SHA-256 (after decoding, for 0.2) within the limit. *)
Theorem ReadValidatedBatch_sound `{!ZstdLaws} config r result data r' :
  ReadValidatedBatch config r = (Ok (result, data), r') ->
  rd_end r' = rd_end r /\
  exists frame, accepted config result data frame /\ rd_data r = frame ++ rd_data r'.
Proof. apply ReadValidatedBatch_Ok. Qed.

(** Intake completeness: every well-formed frame whose signature and certificate
    pass the trust checks and whose sizes are within the limits is accepted, whatever
    follows it on the stream. *)
Theorem ReadValidatedBatch_complete config h hdr manifest payload data rest e :
  validateIntakeConfig config = Ok tt -> transportwire.ValidHeader h -> transportwire.Header_typed h ->
  header_wire h hdr -> checkIntakeBounds config (transportwire.descriptor h) = Ok tt ->
  checkIntakeTrust config h = Ok tt -> len manifest = transportwire.ManifestBytes h ->
  sha256_hex manifest = transportbatch.ManifestSHA256 (transportwire.descriptor h) ->
  payload_of (transportwire.descriptor h) payload data ->
  len data = transportbatch.DataBytes (transportwire.descriptor h) ->
  sha256_hex data = transportbatch.DataSHA256 (transportwire.descriptor h) ->
  ReadValidatedBatch config (Reader ((hdr ++ manifest ++ payload) ++ rest) e) =
    (Ok ({| IntakeDataBytes := transportbatch.DataBytes (transportwire.descriptor h);
            IntakeDataSHA256 := transportbatch.DataSHA256 (transportwire.descriptor h);
            Header := h; Manifest := manifest |}, data), Reader rest e).
Proof.
  intros Hcfg Hv Hty Hw Hb Ht Hml Hms Hp Hdl Hds. unfold ReadValidatedBatch.
  rewrite (bind_lift _ _ tt) by done. unfold bind at 1. rewrite <- !app_assoc.
  rewrite (readIntakeHeader_layout h hdr) by done.
  rewrite (bind_lift _ _ tt) by done. rewrite (bind_lift _ _ tt) by done.
  rewrite bind_read by done. rewrite bool_decide_eq_true_2 by done. cbn [negb].
  unfold bind. destruct Hp as [(Hver & ->)|(Hver & Hpl & Hps & x & Hz & Hx)].
  - rewrite bool_decide_eq_true_2 by done.
    rewrite (readValidatedDataV1_layout _ data) by done. by rewrite Hds.
  - rewrite bool_decide_eq_false_2 by (rewrite Hver; apply not_eq_sym, transportbatch.versions_differ).
    rewrite bool_decide_eq_true_2 by done.
    rewrite (readValidatedDataV2_layout _ payload data _ _ x) by done. by rewrite Hds.
Qed.

(** ** Durable custody: [custody_linux.go] *)

Definition custodyCompareBufferBytes : Z := 64 * 1024.
Definition custodyIdentityDomain : bytes := bs "FI-CUSTODY-IDENTITY-V1".
Definition ErrCustodyConflict : error :=
  Sentinel "FI batch identity conflicts with existing durable custody bytes".

Inductive CustodyDisposition := CustodyDispositionDuplicate | CustodyDispositionNew.

Record CustodyConfig := { Intake : IntakeConfig; RootDir : bytes }.

Record DurableCustodyResult := {
  BatchID : bytes;
  DataBytes : Z;
  DataSHA256 : bytes;
  Disposition : CustodyDisposition;
  FrameBytes : Z;
  FramePath : bytes;
  FrameSHA256 : bytes;
  ManifestSHA256 : bytes;
  SourceID : bytes
}.

Definition validateCustodyConfig (config : CustodyConfig) (root : RootState) : res unit :=
  fail? bool_decide (RootDir config = []) with Errorf "durable custody root directory is required" ;;
  fail? negb (filepath_IsAbs (RootDir config))
    with Errorf "durable custody root directory must be absolute" ;;
  check? wrap "validate receiver intake config: %w" (validateIntakeConfig (Intake config)) ;;
  let? resolvedRoot := wrap "resolve durable custody root directory: %w" (EvalSymlinks root) in
  fail? negb (bool_decide (filepath_Clean resolvedRoot = filepath_Clean (RootDir config)))
    with Errorf "durable custody root directory path must not traverse symlinks" ;;
  let? info := wrap "inspect durable custody root directory: %w" (RootInfo root) in
  fail? bool_decide (fi_kind info = Symlink)
    with Errorf "durable custody root directory must not be a symlink" ;;
  fail? negb (bool_decide (fi_kind info = Directory))
    with Errorf "durable custody root path must be a directory" ;;
  fail? negb (Z.land (fi_perm info) 18 =? 0)
    with Errorf "durable custody root directory must not be group- or other-writable: mode=%04o" ;;
  Ok tt.

Definition custodyObjectName (sourceID batchID : bytes) : bytes :=
  let hashed := custodyIdentityDomain ++ PutUint64BE (len sourceID) ++ sourceID ++
                PutUint64BE (len batchID) ++ batchID in
  bs "batch-" ++ hex_encode (sha256 hashed) ++ bs ".fiwb".

Definition filesExactlyEqual (first second : reader) (size : Z) : res bool :=
  compareChunks custodyCompareBufferBytes (Some "read existing FI custody object for comparison: %w")
    (Some "read provisional FI custody object for comparison: %w") (Z.to_nat size) size first second.

(** The part of [existingCustodyMatches] between the two [defer]s. *)
Definition compareOpened (finalName provisionalName : bytes) (expectedSize : Z)
    (pathInfo : FileInfo) (existing : nat) : prog dir bool :=
  let! openedInfo := wrap_err "stat opened existing FI custody object: %w" (Fstat existing) in
  fail! negb (bool_decide (fi_ino pathInfo = fi_ino openedInfo))
    with Errorf "existing FI custody object changed while being opened" ;;
  let! provisional := wrap_err "open provisional FI custody object for comparison: %w"
                        (Open provisionalName) in
  let! first := file_reader existing in
  let! second := file_reader provisional in
  let! exact := lift (filesExactlyEqual first second expectedSize) in
  let! afterInfo := wrap_err "reinspect existing FI custody object: %w" (Lstat finalName) in
  fail! negb (bool_decide (fi_ino openedInfo = fi_ino afterInfo))
    with Errorf "existing FI custody object changed during comparison" ;;
  fail! negb (fi_perm afterInfo =? perm_0400)
    with Errorf "existing FI custody object mode changed during comparison" ;;
  fail! negb (fi_size afterInfo =? expectedSize)
    with Errorf "existing FI custody object size changed during comparison" ;;
  ret exact.

Definition existingCustodyMatches (finalName provisionalName : bytes) (expectedSize : Z)
  : prog dir bool :=
  let! pathInfo := wrap_err "inspect existing FI custody object: %w" (Lstat finalName) in
  fail! negb (bool_decide (fi_kind pathInfo = Regular))
    with Errorf "existing FI custody object must be a regular file" ;;
  fail! negb (fi_perm pathInfo =? perm_0400)
    with Errorf "existing FI custody object mode must be 0400, got %04o" ;;
  if negb (fi_size pathInfo =? expectedSize) then ret false
  else
    let! existing := wrap_err "open existing FI custody object: %w" (Open finalName) in
    compareOpened finalName provisionalName expectedSize pathInfo existing.

Definition syncCustodyDirectory : prog dir unit :=
  check! syscall (ret tt) ;;
  check! SyncDir ;;
  Close.

Definition newDurableCustodyResult (intake : IntakeResult) (info : FileInfo)
    (finalPath frameSHA256 : bytes) (disposition : CustodyDisposition) : DurableCustodyResult :=
  let descriptor := transportwire.descriptor (Header intake) in {|
    BatchID := transportbatch.BatchID descriptor;
    DataBytes := IntakeDataBytes intake;
    DataSHA256 := IntakeDataSHA256 intake;
    Disposition := disposition;
    FrameBytes := fi_size info;
    FramePath := finalPath;
    FrameSHA256 := frameSHA256;
    ManifestSHA256 := transportbatch.ManifestSHA256 descriptor;
    SourceID := transportbatch.SourceID descriptor |}.

(** The local state of [ReceiveToDurableCustody]: the stream, the directory and the
    two flags its deferred function reads. *)
Record custody_state := CS {
  cs_reader : reader;
  cs_dir : dir;
  provisionalOpen : bool;
  keepProvisional : bool
}.

Definition on_dir {A} (p : prog dir A) : prog custody_state A := fun s =>
  let '(r, d) := p (cs_dir s) in (r, CS (cs_reader s) d (provisionalOpen s) (keepProvisional s)).
Definition set_open (b : bool) : prog custody_state unit := fun s =>
  (Ok tt, CS (cs_reader s) (cs_dir s) b (keepProvisional s)).
Definition set_keep (b : bool) : prog custody_state unit := fun s =>
  (Ok tt, CS (cs_reader s) (cs_dir s) (provisionalOpen s) b).

(** [ReadValidatedBatch] over [io.TeeReader(reader, io.MultiWriter(provisional,
    frameHasher))]. Every byte the intake takes is appended to the provisional
    file; when that write fails after [k] bytes, the stream ends there with the
    error of the write. Returns the intake result and the bytes teed. *)
Definition teeIntake (config : IntakeConfig) (provisional : nat)
  : prog custody_state (IntakeResult * bytes) := fun s =>
  match next_fault (cs_dir s) with
  | (Ok fault, d) =>
      let src := cut_reader fault (cs_reader s) in
      let '(result, src') := ReadValidatedBatch config src in
      let taken := (length (rd_data src) - length (rd_data src'))%nat in
      let frame := take taken (rd_data src) in
      let '(_, d) := update_inode provisional (fun nd =>
        Inode (i_kind nd) (i_perm nd) (i_data nd ++ frame) false) d in
      ((let? (intake, _) := wrap "validate FI batch before durable custody: %w" result in
        Ok (intake, frame)),
       CS (Reader (drop taken (rd_data (cs_reader s))) (rd_end (cs_reader s))) d
          (provisionalOpen s) (keepProvisional s))
  | (Err e, d) => (Err e, s)
  | (Panic, d) => (Panic, s)
  end.

(** The name of the final object already exists. *)
Definition resolveCollision (intake : IntakeResult) (info : FileInfo)
    (provisionalName finalName finalPath frameSHA256 : bytes) : prog custody_state DurableCustodyResult :=
  let! exact := on_dir (existingCustodyMatches finalName provisionalName (fi_size info)) in
  check! on_dir (wrap_err "remove duplicate/conflicting provisional FI custody object: %w"
                   (Remove provisionalName)) ;;
  check! set_keep false ;;
  check! on_dir (wrap_err "sync FI durable custody directory after identity collision: %w"
                   syncCustodyDirectory) ;;
  fail! negb exact with Wrap "%w: source=%q batch=%q path=%s" ErrCustodyConflict ;;
  ret (newDurableCustodyResult intake info finalPath frameSHA256 CustodyDispositionDuplicate).

(** The final name was linked by this call. *)
Definition finishPublication (intake : IntakeResult) (info : FileInfo)
    (provisionalName finalName finalPath frameSHA256 : bytes)
  : prog custody_state DurableCustodyResult := fun s =>
  match on_dir (Remove provisionalName) s with
  | (Ok _, s) =>
      (check! set_keep false ;;
       check! on_dir (wrap_err "sync FI durable custody directory: %w" syncCustodyDirectory) ;;
       ret (newDurableCustodyResult intake info finalPath frameSHA256 CustodyDispositionNew)) s
  | (Err e, s) =>
      let '(_, s) := on_dir (Remove finalName) s in
      (Err (Wrap "remove provisional FI custody name after publication: %w" e), s)
  | (Panic, s) => (Panic, s)
  end.

Definition publishCustody (config : CustodyConfig) (intake : IntakeResult) (frame : bytes)
    (provisionalName : bytes) : prog custody_state DurableCustodyResult :=
  let! info := on_dir (wrap_err "stat provisional FI custody object: %w" (Lstat provisionalName)) in
  fail! fi_size info <=? 0 with Errorf "provisional FI custody object is empty" ;;
  let descriptor := transportwire.descriptor (Header intake) in
  let finalName := custodyObjectName (transportbatch.SourceID descriptor)
                     (transportbatch.BatchID descriptor) in
  let finalPath := filepath_Join (RootDir config) finalName in
  let frameSHA256 := hex_encode (sha256 frame) in
  fun s =>
    match on_dir (Link provisionalName finalName) s with
    | (Ok _, s) =>
        finishPublication intake info provisionalName finalName finalPath frameSHA256 s
    | (Err e, s) =>
        if negb (errors_Is e ErrExist)
        then (Err (Wrap "publish FI durable custody object: %w" e), s)
        else resolveCollision intake info provisionalName finalName finalPath frameSHA256 s
    | (Panic, s) => (Panic, s)
    end.

Definition custodyBody (config : CustodyConfig) (provisionalName : bytes) (provisional : nat)
  : prog custody_state DurableCustodyResult :=
  let! (intake, frame) := teeIntake (Intake config) provisional in
  check! on_dir (wrap_err "make provisional FI custody object read-only: %w"
                   (Chmod provisional perm_0400)) ;;
  check! on_dir (wrap_err "sync provisional FI custody object: %w" (Sync provisional)) ;;
  fun s =>
    match on_dir Close s with
    | (Ok _, s) =>
        (check! set_open false ;; publishCustody config intake frame provisionalName) s
    | (Err e, s) =>
        let '(_, s) := set_open false s in
        (Err (Wrap "close provisional FI custody object: %w" e), s)
    | (Panic, s) => (Panic, s)
    end.

(** The deferred function. *)
Definition custodyDefer (provisionalName : bytes) (s : custody_state) : dir :=
  let d := if provisionalOpen s then (Close (cs_dir s)).2 else cs_dir s in
  if keepProvisional s then (Remove provisionalName d).2 else d.

Definition ReceiveToDurableCustody (config : CustodyConfig) (root : RootState)
  : prog (reader * dir) DurableCustodyResult := fun '(r, d) =>
  match validateCustodyConfig config root with
  | Ok _ =>
      match wrap_err "create provisional FI custody object: %w"
              (CreateTemp (bs ".fi-custody-") (bs ".open")) d with
      | (Ok (provisionalName, provisional), d) =>
          let '(result, s) := custodyBody config provisionalName provisional (CS r d true true) in
          (result, (cs_reader s, custodyDefer provisionalName s))
      | (Err e, d) => (Err e, (r, d))
      | (Panic, d) => (Panic, (r, d))
      end
  | Err e => (Err e, (r, d))
  | Panic => (Panic, (r, d))
  end.

(** ** The transaction: [transaction_linux.go] *)

Record ReceiveTransactionResult := {
  Acknowledgement : option transportack.Acknowledgement;
  Custody : option DurableCustodyResult
}.

Definition acknowledgementFromCustody (custody : DurableCustodyResult)
  : res transportack.Acknowledgement :=
  let outcome := match Disposition custody with
                 | CustodyDispositionDuplicate => transportack.OutcomeDurableDuplicate
                 | CustodyDispositionNew => transportack.OutcomeDurableNew
                 end in
  transportack.NewDurableAcknowledgement outcome (SourceID custody) (BatchID custody)
    (DataBytes custody) (DataSHA256 custody) (ManifestSHA256 custody) (FrameBytes custody)
    (FrameSHA256 custody).

(** The result travels with the error; the writer is the connection. *)
Definition ReceiveAndAcknowledge {W} `{Writer W} (config : CustodyConfig) (root : RootState)
    (s : reader * dir) (w : W) : (ReceiveTransactionResult * res unit) * ((reader * dir) * W) :=
  let '(custody, s) := ReceiveToDurableCustody config root s in
  match wrap "establish FI durable receiver custody: %w" custody with
  | Ok custody =>
      match wrap "construct FI durable acknowledgement: %w" (acknowledgementFromCustody custody) with
      | Ok acknowledgement =>
          let '(sent, w) := transportack.WriteAcknowledgement acknowledgement w in
          (({| Acknowledgement := Some acknowledgement; Custody := Some custody |},
            wrap "write FI durable acknowledgement: %w" sent), (s, w))
      | Err e => (({| Acknowledgement := None; Custody := Some custody |}, Err e), (s, w))
      | Panic => (({| Acknowledgement := None; Custody := Some custody |}, Panic), (s, w))
      end
  | Err e => (({| Acknowledgement := None; Custody := None |}, Err e), (s, w))
  | Panic => (({| Acknowledgement := None; Custody := None |}, Panic), (s, w))
  end.

End Receiver.
(** ** A concrete receiver *)

Definition demoIntake : IntakeConfig := {|
  BatchCRL := Some Demo.crl; BatchIssuer := Some transporttrust.demoIssuer; CurrentTime := 50;
  MaxDataBytes := 1000; Root := Some transporttrust.demoRoot;
  Source := transporttrust.demoSource |}.

Definition demoConfig : CustodyConfig := {| Intake := demoIntake; RootDir := bs "/srv/fi" |}.
Definition demoRootState : RootState := {|
  EvalSymlinks := Ok (bs "/srv/fi");
  RootInfo := Ok {| fi_ino := 2; fi_kind := Directory; fi_perm := 448; fi_size := 0 |} |}.

Definition demoHeaderV1 : transportwire.Header := {|
  transportwire.SignedBatch := transportwire.demoPackage transportwire.demoDescriptorV1;
  transportwire.ManifestBytes := 11 |}.

(** The frame of the 0.1 example batch. *)
Definition demoWire : bytes := transportwire.demoFrameV1 ++ transportwire.demoManifest ++ bs "abc!".

Definition demoResult : IntakeResult := {|
  IntakeDataBytes := 4;
  IntakeDataSHA256 := transportbatch.DataSHA256 transportwire.demoDescriptorV1;
  Header := demoHeaderV1; Manifest := transportwire.demoManifest |}.

Lemma demoIntake_accepts :
  @ReadValidatedBatch asciiUnicode transporttrust.demoX509 demoZstd demoIntake
    (Reader (demoWire ++ bs "next") EOF) = (Ok (demoResult, bs "abc!"), Reader (bs "next") EOF).
Proof. vm_compute. reflexivity. Qed.

Lemma ReadValidatedBatch_sound_witness :
  rd_end (Reader (bs "next") EOF) = EOF /\
  exists frame, @accepted asciiUnicode transporttrust.demoX509 demoZstd demoIntake demoResult
                  (bs "abc!") frame /\
                demoWire ++ bs "next" = frame ++ bs "next".
Proof.
  apply (@ReadValidatedBatch_sound asciiUnicode transporttrust.demoX509 demoZstd demoZstd_laws
           demoIntake (Reader (demoWire ++ bs "next") EOF) demoResult (bs "abc!")
           (Reader (bs "next") EOF)).
  exact demoIntake_accepts.
Defined.

Lemma ReadValidatedBatch_complete_witness :
  @ReadValidatedBatch asciiUnicode transporttrust.demoX509 demoZstd demoIntake
    (Reader ((transportwire.demoFrameV1 ++ transportwire.demoManifest ++ bs "abc!") ++ bs "x") EOF) =
    (Ok ({| IntakeDataBytes := 4;
            IntakeDataSHA256 := transportbatch.DataSHA256 transportwire.demoDescriptorV1;
            Header := demoHeaderV1; Manifest := transportwire.demoManifest |}, bs "abc!"),
     Reader (bs "x") EOF).
Proof.
  apply (@ReadValidatedBatch_complete asciiUnicode transporttrust.demoX509 demoZstd demoIntake
           demoHeaderV1 transportwire.demoFrameV1 transportwire.demoManifest (bs "abc!") (bs "abc!")
           (bs "x") EOF); try (vm_compute; reflexivity).
  - apply transportwire.Header_Validate_Ok. vm_compute. reflexivity.
  - vm_compute. repeat split; congruence.
  - left. split; vm_compute; reflexivity.
  - left. split; reflexivity.
Defined.

End transportreceiver.
