(* ===== verification/TransportCustody.v ===== *)
(** * Custody is durable, never overwritten, and acknowledged only then

    Theorems about [transportreceiver.ReceiveToDurableCustody] and
    [ReceiveAndAcknowledge], for every fault schedule. *)

From stdpp Require Import gmap.
From S2P Require Import Prelude GoBytes GoStrings GoIO Sha256 Pki GoFS GoDir TransportEncoding TransportBatch TransportTrust TransportPackage TransportWire TransportAck TransportReceiver.

Import transportreceiver.

#[local] Opaque hex_encode custodyObjectName filepath_Join.

(** ** The provisional phase *)

Section Custody.
Context `{Unicode} `{X509} `{Zstd} `{!ZstdLaws}.

(** The directory before the call ([N], [D], [I]), the inode created by it and the
    provisional and final names. *)
Context (N D : gmap bytes nat) (I : gmap nat inode) (ino : nat) (prov final : bytes).
Hypothesis prov_unused : N !! prov = None.
Hypothesis prov_final : prov <> final.

#[local] Abbreviation St := (GoDir.St I ino).
#[local] Abbreviation leftover := (GoDir.leftover D ino prov).
#[local] Abbreviation syscall_St := (GoDir.syscall_St I ino).
#[local] Abbreviation Remove_St := (GoDir.Remove_St I ino).
#[local] Abbreviation Lstat_St := (GoDir.Lstat_St I ino).
#[local] Abbreviation Fstat_St := (GoDir.Fstat_St I ino).
#[local] Abbreviation Open_St := (GoDir.Open_St I ino).
#[local] Abbreviation file_reader_St := (GoDir.file_reader_St I ino).

Lemma syncCustodyDirectory_St n m nd fs :
  exists fs', syncCustodyDirectory (St n m nd fs) = (Ok tt, St n n nd fs') \/
    (exists e m', (m' = m \/ m' = n) /\
      syncCustodyDirectory (St n m nd fs) = (Err e, St n m' nd fs')).
Proof.
  unfold syncCustodyDirectory, SyncDir, Close, bind, ret.
  destruct (syscall_St (fun s => (Ok tt, s)) n m nd fs) as (fs1 & [E|E]); rewrite E; clear E.
  { exists fs1. right. exists EIO, m. split; [by left|done]. }
  destruct (syscall_St (fun d => (Ok tt, set_durable (names d) d)) n m nd fs1) as (fs2 & [E|E]);
    rewrite E; clear E.
  { exists fs2. right. exists EIO, m. split; [by left|done]. }
  change (set_durable (names (St n m nd fs2)) (St n m nd fs2)) with (St n n nd fs2).
  destruct (syscall_St (fun s => (Ok tt, s)) n n nd fs2) as (fs3 & [E|E]); rewrite E; clear E;
    exists fs3; [right|by left].
  exists EIO, n. split; [by right|done].
Qed.

(** Both outcomes of a publication whose final name was just linked. *)
Lemma finishPublication_cases intake info path sha r nd fs op :
  N !! final = None ->
  exists n m fs' keep result,
    finishPublication intake info prov final path sha
      (CS r (St (<[final := ino]> (<[prov := ino]> N)) D nd fs) op true) =
      (result, CS r (St n m nd fs') op keep) /\
    match result with
    | Ok v => v = newDurableCustodyResult intake info path sha CustodyDispositionNew /\
              n = <[final := ino]> N /\ m = n /\ keep = false
    | Err _ => (leftover N n m \/ leftover (<[final := ino]> N) n m) /\
               (keep = false -> n !! prov = None)
    | Panic => False
    end.
Proof.
  intros HF. unfold finishPublication, on_dir. cbn [cs_dir cs_reader provisionalOpen keepProvisional].
  destruct (Remove_St (<[final := ino]> (<[prov := ino]> N)) D nd fs prov) as
    (fs1 & [-> | [[Hn _] | [_ ->]]]).
  - cbn. destruct (Remove_St (<[final := ino]> (<[prov := ino]> N)) D nd fs1 final) as
      (fs2 & [-> | [[Hn _] | [_ ->]]]); cbn.
    + do 5 eexists. split; [done|]. split; [right|done]. split; [|by left]. right.
      by rewrite insert_insert_ne.
    + by rewrite lookup_insert_eq in Hn.
    + do 5 eexists. split; [done|]. split; [left|done]. split; [|by left]. right.
      rewrite delete_insert_id; [done|]. by rewrite lookup_insert_ne.
  - by rewrite lookup_insert_ne, lookup_insert_eq in Hn.
  - cbn. unfold bind at 1, set_keep. cbn.
    assert (delete prov (<[final := ino]> (<[prov := ino]> N)) = <[final := ino]> N) as ->.
    { rewrite delete_insert_ne by done. by rewrite delete_insert_id. }
    destruct (syncCustodyDirectory_St (<[final := ino]> N) D nd fs1) as
      (fs2 & [E | (e & m' & Hm & E)]); unfold bind, wrap_err; rewrite E; cbn;
      do 5 eexists; (split; [done|]).
    + done.
    + split; [right|intros _; by rewrite lookup_insert_ne]. split; [by left|]. tauto.
Qed.

Hypothesis ino_fresh : I !! ino = None.

(** Comparing with an existing custody object only reads. *)
Lemma existingCustodyMatches_cases n m nd fs j ndj :
  n !! final = Some j -> n !! prov = Some ino -> I !! j = Some ndj ->
  exists fs' result,
    existingCustodyMatches final prov (len (i_data nd)) (St n m nd fs) = (result, St n m nd fs') /\
    match result with
    | Ok true => i_data ndj = i_data nd
    | Ok false => i_data ndj <> i_data nd
    | Err _ => True
    | Panic => False
    end.
Proof.
  intros Hf Hp HI. assert (<[ino := nd]> I !! j = Some ndj) as Hj.
  { rewrite lookup_insert_ne; [done|]. intros ->. congruence. }
  assert (<[ino := nd]> I !! ino = Some nd) as Hi by apply lookup_insert_eq.
  unfold existingCustodyMatches, bind, wrap_err.
  destruct (Lstat_St n m nd fs final j ndj Hf Hj) as (f1 & [E|E]); rewrite E; cbn;
    [do 2 eexists; split; [reflexivity|done]|]. clear E.
  case_bool_decide; cbn; [|do 2 eexists; split; [reflexivity|done]]. destruct (i_perm ndj =? perm_0400); cbn; [|do 2 eexists; split; [reflexivity|done]].
  destruct (len (i_data ndj) =? len (i_data nd)) eqn:El; cbn;
    [|do 2 eexists; split; [done|]; intros E; rewrite E in El; lia].
  destruct (Open_St n m nd f1 final j Hf) as (f2 & [E|E]); rewrite E; cbn; [do 2 eexists; split; [reflexivity|done]|]. clear E.
  unfold compareOpened, bind, wrap_err.
  destruct (Fstat_St n m nd f2 j ndj Hj) as (f3 & [E|E]); rewrite E; cbn; [do 2 eexists; split; [reflexivity|done]|]. clear E.
  case_bool_decide; cbn; [|done].
  destruct (Open_St n m nd f3 prov ino Hp) as (f4 & [E|E]); rewrite E; cbn; [do 2 eexists; split; [reflexivity|done]|]. clear E.
  destruct (file_reader_St n m nd f4 j ndj Hj) as (f5 & r1 & -> & Hr1).
  destruct (file_reader_St n m nd f5 ino nd Hi) as (f6 & r2 & -> & Hr2). cbn.
  pose proof (compareChunks_files custodyCompareBufferBytes (Some "read existing FI custody object for comparison: %w")
    (Some "read provisional FI custody object for comparison: %w") ltac:(done) r1 r2 _ _ Hr1 Hr2
    ltac:(unfold len in El; lia)) as Hx.
  fold (filesExactlyEqual r1 r2 (len (i_data nd))) in Hx.
  destruct (filesExactlyEqual r1 r2 (len (i_data nd))) as [b|e|]; [|do 2 eexists; split; [reflexivity|done]|done].
  cbn. destruct (Lstat_St n m nd f6 final j ndj Hf Hj) as (f7 & [E|E]); rewrite E; cbn; [do 2 eexists; split; [reflexivity|done]|].
  case_bool_decide; cbn; [|do 2 eexists; split; [reflexivity|done]]. destruct (i_perm ndj =? perm_0400); cbn; [|do 2 eexists; split; [reflexivity|done]].
  rewrite El. cbn. do 2 eexists; split; [reflexivity|done].
Qed.

(** The outcomes when the final name exists. *)
Lemma resolveCollision_cases intake info path sha r nd fs op j ndj :
  N !! final = Some j -> I !! j = Some ndj -> fi_size info = len (i_data nd) ->
  exists n m fs' keep result,
    resolveCollision intake info prov final path sha
      (CS r (St (<[prov := ino]> N) D nd fs) op true) = (result, CS r (St n m nd fs') op keep) /\
    (keep = false -> n !! prov = None) /\
    match result with
    | Ok v => v = newDurableCustodyResult intake info path sha CustodyDispositionDuplicate /\
              n = N /\ m = N /\ keep = false /\ i_data ndj = i_data nd
    | Err _ => leftover N n m
    | Panic => False
    end.
Proof.
  intros HF HI Hsz. unfold resolveCollision, bind, on_dir. cbn. rewrite Hsz.
  destruct (existingCustodyMatches_cases (<[prov := ino]> N) D nd fs j ndj) as
    (f1 & [exact|e|] & -> & Hx); [by rewrite lookup_insert_ne|apply lookup_insert_eq|done| | |done].
  2: { cbn. do 5 eexists. split; [done|]. split; [done|]. split; [by right|by left]. }
  cbn. unfold wrap_err. destruct (Remove_St (<[prov := ino]> N) D nd f1 prov) as
    (f2 & [-> | [[Hn _] | [_ ->]]]); cbn.
  { do 5 eexists. split; [done|]. split; [done|]. split; [by right|by left]. }
  { by rewrite lookup_insert_eq in Hn. }
  rewrite delete_insert_id by done.
  destruct (syncCustodyDirectory_St N D nd f2) as (f3 & [-> | (e & m' & Hm & ->)]); cbn.
  2: { do 5 eexists. split; [done|]. split; [done|]. split; [by left|tauto]. }
  destruct exact; cbn; do 5 eexists; (split; [done|]); (split; [done|]); [done|].
  split; [by left|right; by left].
Qed.

(** Publication of a synced, read-only provisional file. *)
Lemma publishCustody_cases config intake frame r fs op :
  final = custodyObjectName (transportbatch.SourceID (transportwire.descriptor (Header intake)))
            (transportbatch.BatchID (transportwire.descriptor (Header intake))) ->
  (forall name j, N !! name = Some j -> is_Some (I !! j)) ->
  let nd := Inode Regular perm_0400 frame true in
  exists n m fs' keep result,
    publishCustody config intake frame prov (CS r (St (<[prov := ino]> N) D nd fs) op true) =
      (result, CS r (St n m nd fs') op keep) /\
    (keep = false -> n !! prov = None) /\
    match result with
    | Ok v => exists disposition,
        v = newDurableCustodyResult intake (info_of ino nd) (filepath_Join (RootDir config) final)
              (hex_encode (sha256 frame)) disposition /\
        keep = false /\ m = n /\ 0 < len frame /\
        match disposition with
        | CustodyDispositionNew => N !! final = None /\ n = <[final := ino]> N
        | CustodyDispositionDuplicate =>
            n = N /\ exists j ndj, N !! final = Some j /\ I !! j = Some ndj /\ i_data ndj = frame
        end
    | Err _ => leftover N n m \/ (N !! final = None /\ leftover (<[final := ino]> N) n m)
    | Panic => False
    end.
Proof.
  intros Hfinal Hwf nd.
  assert (leftover N (<[prov := ino]> N) D) as Hleft by (split; [by right|by left]).
  unfold publishCustody, bind, on_dir, wrap_err. cbn [cs_dir cs_reader provisionalOpen keepProvisional].
  destruct (Lstat_St (<[prov := ino]> N) D nd fs prov ino nd) as (f1 & [E|E]);
    [apply lookup_insert_eq|apply lookup_insert_eq|rewrite E; cbn..].
  { do 5 eexists. split; [reflexivity|]. split; [done|]. by left. }
  clear E. destruct (len frame <=? 0) eqn:El; cbn.
  { do 5 eexists. split; [reflexivity|]. split; [done|]. by left. }
  rewrite <- Hfinal. unfold Link. edestruct (GoDir.syscall_St (A := unit) I ino) as (f2 & [E|E]); rewrite E; cbn.
  { do 5 eexists. split; [reflexivity|]. split; [done|]. by left. }
  clear E. rewrite lookup_insert_eq, lookup_insert_ne by done. destruct (N !! final) as [j|] eqn:Ej; cbn.
  - destruct (Hwf _ _ Ej) as [ndj Hj].
    destruct (resolveCollision_cases intake (info_of ino nd) (filepath_Join (RootDir config) final)
      (hex_encode (sha256 frame)) r nd f2 op j ndj Ej Hj eq_refl) as (n & m & f3 & keep & res & -> & Hk & Hx).
    do 5 eexists. split; [reflexivity|]. split; [done|]. destruct res as [v|e|]; [|by left|done].
    destruct Hx as (-> & -> & -> & -> & Hd). exists CustodyDispositionDuplicate.
    split_and!; try done; [lia|]. by exists j, ndj.
  - destruct (finishPublication_cases intake (info_of ino nd) (filepath_Join (RootDir config) final)
      (hex_encode (sha256 frame)) r nd f2 op Ej) as (n & m & f3 & keep & res & Hres & Hx).
    unfold set_names. cbn. change (Dir ?a ?b ?c ?d f2) with (St a b nd f2). rewrite Hres.
    do 5 eexists. split; [reflexivity|]. destruct res as [v|e|]; [| |done].
    + destruct Hx as (-> & -> & -> & ->). split; [intros _; by rewrite lookup_insert_ne|].
      exists CustodyDispositionNew. split_and!; try done. lia.
    + destruct Hx as [[Hx|Hx] Hk]; (split; [done|]); [by left|by right].
Qed.

End Custody.

(** ** The whole call *)

(** Names that can hold custody, and names of provisional files. *)
Definition custody_name (n : bytes) : bool := HasPrefix n (bs "batch-") && HasSuffix n (bs ".fiwb").

#[local] Transparent custodyObjectName.
Lemma provisional_not_custody k s b :
  temp_name (bs ".fi-custody-") (bs ".open") k <> custodyObjectName s b.
Proof. done. Qed.

Lemma custodyObjectName_custody s b : custody_name (custodyObjectName s b) = true.
Proof.
  unfold custody_name, custodyObjectName. rewrite (proj2 (HasPrefix_spec _ _)) by eauto.
  rewrite (proj2 (HasSuffix_spec _ _)); [done|]. eexists. by rewrite app_assoc.
Qed.

Lemma provisional_no_object k : custody_name (temp_name (bs ".fi-custody-") (bs ".open") k) = false.
Proof. done. Qed.
#[local] Opaque custodyObjectName.

Definition custody : publication := {|
  object_name := custody_name;
  temp_prefix := bs ".fi-custody-";
  temp_suffix := bs ".open";
  temp_not_object := provisional_no_object |}.

(** The invariant of a custody directory: whatever a custody name denotes, now or on
    disk, is a sealed file. *)
Definition custody_inv (d : dir) : Prop := object_inv custody d.

Section Whole.
Context `{Unicode} `{X509} `{Zstd} `{!ZstdLaws}.

(** What a successful call returns and leaves. *)
Definition custody_done (config : CustodyConfig) (d : dir) (r r' : reader) (d' : dir)
    (v : DurableCustodyResult) : Prop :=
  exists intake data frame final,
    accepted (Intake config) intake data frame /\
    rd_data r = frame ++ rd_data r' /\ 0 < len frame /\
    final = custodyObjectName (transportbatch.SourceID (transportwire.descriptor (Header intake)))
              (transportbatch.BatchID (transportwire.descriptor (Header intake))) /\
    (exists info, fi_size info = len frame /\
      v = newDurableCustodyResult intake info (filepath_Join (RootDir config) final)
            (hex_encode (sha256 frame)) (Disposition v)) /\
    names d' = durable d' /\
    match Disposition v with
    | CustodyDispositionNew => names d !! final = None /\
        names d' = <[final := next_ino d]> (names d) /\
        inodes d' !! next_ino d = Some (Inode Regular perm_0400 frame true)
    | CustodyDispositionDuplicate => names d' = names d /\
        exists nd, lookup_file d final = Some nd /\ i_data nd = frame
    end.

Lemma teeIntake_cases config r N D I ino fs nd0 :
  exists fs' frame r' result,
    teeIntake config ino (CS r (St I ino N D nd0 fs) true true) =
      (result, CS r' (St I ino N D
         (Inode (i_kind nd0) (i_perm nd0) (i_data nd0 ++ frame) false) fs') true true) /\
    match result with
    | Ok (intake, frame') => frame' = frame /\ rd_data r = frame ++ rd_data r' /\
        exists data, accepted config intake data frame
    | _ => True
    end.
Proof.
  unfold teeIntake.
  assert (exists f fs', next_fault (St I ino N D nd0 fs) = (Ok f, St I ino N D nd0 fs')) as (f & fs' & Hn).
  { unfold next_fault. destruct fs as [|f fs]; cbn; eauto. }
  cbn [cs_dir cs_reader]. rewrite Hn.
  destruct (ReadValidatedBatch config (cut_reader f r)) as [result src'] eqn:Er.
  unfold update_inode. cbn. rewrite lookup_insert_eq. unfold set_inodes. cbn. rewrite insert_insert_eq.
  do 4 eexists. split; [reflexivity|].
  destruct result as [[intake data]|e|]; cbn; [|done..]. split; [done|].
  apply ReadValidatedBatch_Ok in Er as (_ & frame & Hacc & Hd).
  destruct (cut_reader_prefix f r) as [rest Hrest].
  rewrite Hd, length_app, Nat.add_sub, take_app_length.
  split; [|eauto]. rewrite Hrest, Hd, <- app_assoc. by rewrite drop_app_length.
Qed.

Lemma custodyBody_cases config r N D I ino prov fs :
  N !! prov = None -> (forall s b, prov <> custodyObjectName s b) ->
  (forall name j, N !! name = Some j -> is_Some (I !! j)) -> I !! ino = None ->
  exists n m nd fs' op keep r' result,
    custodyBody config prov ino
      (CS r (St I ino (<[prov := ino]> N) D (Inode Regular 384 [] false) fs) true true) =
      (result, CS r' (St I ino n m nd fs') op keep) /\
    i_kind nd = Regular /\ (keep = false -> n !! prov = None) /\
    match result with
    | Ok v => exists intake data frame disposition final,
        accepted (Intake config) intake data frame /\ rd_data r = frame ++ rd_data r' /\
        nd = Inode Regular perm_0400 frame true /\
        final = custodyObjectName (transportbatch.SourceID (transportwire.descriptor (Header intake)))
                  (transportbatch.BatchID (transportwire.descriptor (Header intake))) /\
        v = newDurableCustodyResult intake (info_of ino nd) (filepath_Join (RootDir config) final)
              (hex_encode (sha256 frame)) disposition /\
        op = false /\ keep = false /\ m = n /\ 0 < len frame /\
        match disposition with
        | CustodyDispositionNew => N !! final = None /\ n = <[final := ino]> N
        | CustodyDispositionDuplicate =>
            n = N /\ exists j ndj, N !! final = Some j /\ I !! j = Some ndj /\ i_data ndj = frame
        end
    | _ => leftover D ino prov N n m \/
           exists final, custody_name final = true /\ N !! final = None /\ sealed nd /\
                         leftover D ino prov (<[final := ino]> N) n m
    end.
Proof.
  intros HN Hprov Hwf HI.
  assert (leftover D ino prov N (<[prov := ino]> N) D) as Hleft by (split; [by right|by left]).
  unfold custodyBody. unfold bind at 1.
  destruct (teeIntake_cases (Intake config) r (<[prov := ino]> N) D I ino fs (Inode Regular 384 [] false))
    as (f1 & frame & r1 & [[intake frame']|e|] & -> & Hres); cbn [i_kind i_perm i_data app].
  2,3: do 8 eexists; (split; [reflexivity|]); (split; [done|]); (split; [done|]); by left.
  destruct Hres as (-> & Hr & data & Hacc).
  unfold bind, on_dir, wrap_err, Chmod, Sync. cbn [cs_dir cs_reader provisionalOpen keepProvisional].
  edestruct (update_St I ino) as (f2 & [E|E]); rewrite E; cbn; clear E.
  { do 8 eexists. split; [reflexivity|]. split; [done|]. split; [done|]. by left. }
  edestruct (update_St I ino) as (f3 & [E|E]); rewrite E; cbn; clear E.
  { do 8 eexists. split; [reflexivity|]. split; [done|]. split; [done|]. by left. }
  unfold Close. edestruct (syscall_St (A := unit) I ino) as (f4 & [E|E]); rewrite E; cbn; clear E.
  { do 8 eexists. split; [reflexivity|]. split; [done|]. split; [done|]. by left. }
  edestruct (publishCustody_cases N D I ino prov) as (n & m & f5 & keep & res & E & Hk & Hx);
    [exact HN|apply Hprov|exact HI|reflexivity|exact Hwf|].
  rewrite E. do 8 eexists. split; [reflexivity|]. split; [done|]. split; [done|].
  destruct res as [v|e|]; [| |done].
  - destruct Hx as (disp & Hv & Hkeep & Hm & Hl & Hd).
    exists intake, data, frame, disp. eexists. split_and!; try done.
  - destruct Hx as [Hx|[Hf Hx]]; [by left|right]. eexists. split; [apply custodyObjectName_custody|]. done.
Qed.

(** The effect of one call, whatever fails. *)
Lemma ReceiveToDurableCustody_cases config root r d :
  wf d ->
  exists result r' d', ReceiveToDurableCustody config root (r, d) = (result, (r', d')) /\
    ((exists fs', d' = set_faults fs' d /\ (forall v, result <> Ok v)) \/
     exists k nd, names d !! temp_name (bs ".fi-custody-") (bs ".open") k = None /\
       effect custody d d' (temp_name (bs ".fi-custody-") (bs ".open") k) nd /\
       forall v, result = Ok v -> custody_done config d r r' d' v).
Proof.
  intros (Hw1 & Hw2 & Hw3). unfold ReceiveToDurableCustody.
  destruct (validateCustodyConfig config root) as [u|e|].
  2,3: do 3 eexists; (split; [reflexivity|]); left; exists (faults d); by destruct d.
  unfold wrap_err.
  destruct (CreateTemp_cases (bs ".fi-custody-") (bs ".open") d) as (f1 & [[e E]|(k & HN & E)]);
    rewrite E; cbn [wrap].
  { do 3 eexists. split; [reflexivity|]. left. by exists f1. }
  set (prov := temp_name (bs ".fi-custody-") (bs ".open") k) in *.
  assert (inodes d !! next_ino d = None) as HI.
  { destruct (inodes d !! next_ino d) eqn:Ei; [|done].
    specialize (Hw3 (next_ino d) ltac:(by rewrite Ei)). lia. }
  destruct (custodyBody_cases config r (names d) (durable d) (inodes d) (next_ino d) prov f1) as
    (n & m & nd & f2 & op & keep & r' & result & -> & Hkind & Hkeep & Hres);
    [done|apply provisional_not_custody|done|done|].
  destruct result as [v|e|].
  - destruct Hres as (intake & data & frame & disp & final & Hacc & Hr & -> & Hfin & Hv & -> & -> & -> & Hl & Hd).
    do 3 eexists. split; [reflexivity|]. right. eexists k, _. split; [done|].
    unfold custodyDefer. cbn [provisionalOpen keepProvisional cs_dir cs_reader]. split.
    + split; [done|done|done|]. exists n. destruct disp.
      * destruct Hd as [-> _]. split; [by left|]. split; [by left|]. right; by left.
      * destruct Hd as [Hf ->]. split; [right|split; [by left|right; by left]].
        exists final. split; [subst final; apply custodyObjectName_custody|]. done.
    + intros v' [= <-]. exists intake, data, frame, final. subst v. split_and!; try done.
      * eexists. split; [|reflexivity]. done.
      * destruct disp; cbn.
        -- destruct Hd as (-> & j & ndj & Hj & Hj' & Hdj). split; [done|]. exists ndj.
           split; [|done]. unfold lookup_file. rewrite Hj. done.
        -- destruct Hd as [Hf ->]. split_and!; try done. apply lookup_insert_eq.
  - do 3 eexists. split; [reflexivity|]. right. exists k, nd. split; [done|]. split; [|done].
    by apply (failed_effect custody d k).
  - do 3 eexists. split; [reflexivity|]. right. exists k, nd. split; [done|]. split; [|done].
    by apply (failed_effect custody d k).
Qed.

(** ** Consequences of the effect *)

(** ** Histories of a custody directory

    Any number of calls, with any configuration, stream and faults, interrupted by
    power failures. *)
Inductive step : dir -> dir -> Prop :=
| step_receive config root r fs d result r' d' :
    ReceiveToDurableCustody config root (r, set_faults fs d) = (result, (r', d')) -> step d d'
| step_crash d d' : crash d d' -> step d d'.

Lemma step_run config root r fs d :
  step d (ReceiveToDurableCustody config root (r, set_faults fs d)).2.2.
Proof.
  destruct (ReceiveToDurableCustody _ _ _) as [result [r' d']] eqn:E. by eapply step_receive.
Qed.

Lemma receive_inv config root r d result r' d' :
  custody_inv d -> ReceiveToDurableCustody config root (r, d) = (result, (r', d')) ->
  custody_inv d' /\ (forall n x, custody_name n = true -> stable d n x -> stable d' n x).
Proof.
  intros Hinv Hr. pose proof Hinv as [Hwf _].
  destruct (ReceiveToDurableCustody_cases config root r d Hwf) as
    (res & r1 & d1 & E & [(fs & -> & _)|(k & nd & _ & He & _)]);
    rewrite E in Hr; injection Hr as -> -> <-.
  - by destruct d.
  - split; [exact (effect_inv custody d d1 k nd Hinv He)|].
    intros n x Hc. exact (effect_stable custody d d1 k nd n x Hwf Hc He).
Qed.

Lemma step_inv d d' :
  custody_inv d -> step d d' ->
  custody_inv d' /\ (forall n x, custody_name n = true -> stable d n x -> stable d' n x).
Proof.
  intros Hinv Hs. revert Hinv.
  destruct Hs as [config root r fs d0 result r' d1 Hr|d0 d1 Hc]; intros Hinv.
  - eapply (receive_inv config root r (set_faults fs d0)); [exact Hinv|exact Hr].
  - split; [by apply (crash_inv custody d0)|]. intros n x _ Hs. by eapply crash_stable.
Qed.

(** The custody directory stays sound through every history: from a sound
    directory, after any sequence of receptions (any streams, any configuration, any
    failing system calls) and power failures, whatever a custody name denotes, in
    memory or on disk, is a complete, synced, read-only regular file. *)
Theorem custody_directory_sound d d' :
  custody_inv d -> rtc step d d' -> custody_inv d'.
Proof.
  intros Hinv Hs. induction Hs as [|d1 d2 d3 H12 _ IH]; [done|].
  apply IH. by eapply step_inv.
Qed.

Lemma receive_refines config root r fs d result r' d' :
  store_inv custody d -> ReceiveToDurableCustody config root (r, set_faults fs d) = (result, (r', d')) ->
  store_inv custody d' /\ rtc store_step (abs custody d) (abs custody d').
Proof.
  intros Hinv Hr. pose proof Hinv as [[Hwf _] _].
  destruct (ReceiveToDurableCustody_cases config root r (set_faults fs d) Hwf) as
    (res & r1 & d1 & E & [(fs' & -> & _)|(k & nd & _ & He & _)]);
    rewrite E in Hr; injection Hr as -> -> <-; [by split; [exact Hinv|constructor]|].
  split; [exact (effect_store_inv custody (set_faults fs d) d1 k nd Hinv He)|].
  exact (effect_refines custody (set_faults fs d) d1 k nd Hwf He).
Qed.

(** The custody directory implements a write-once store. Every history of
    receptions (any streams, any configuration, any failing system calls) and power
    failures is, seen through the contents of the custody objects, a run of the abstract
    store: a name is bound at most once and its bytes never change, and what was made
    permanent survives every crash. *)
Theorem custody_refines_store d d' :
  store_inv custody d -> rtc step d d' -> rtc store_step (abs custody d) (abs custody d').
Proof.
  intros Hinv Hs. induction Hs as [|d1 d2 d3 H12 _ IH]; [constructor|].
  assert (store_inv custody d2 /\ rtc store_step (abs custody d1) (abs custody d2)) as [Hi2 Hr].
  { destruct H12 as [config root r fs d1 result r' d2 Hr|d1 d2 Hc]; [by eapply receive_refines|].
    split; [by eapply crash_store_inv|]. by apply rtc_once, crash_refines. }
  etrans; [exact Hr|by apply IH].
Qed.

(** A returned result is stable. *)
Lemma custody_done_stable config root r d v r' d' :
  custody_inv d -> ReceiveToDurableCustody config root (r, d) = (Ok v, (r', d')) ->
  custody_done config d r r' d' v /\
  exists nd, stable d' (custodyObjectName (SourceID v) (BatchID v)) nd /\ sealed nd /\
    len (i_data nd) = FrameBytes v /\ hex_encode (sha256 (i_data nd)) = FrameSHA256 v /\
    rd_data r = i_data nd ++ rd_data r'.
Proof.
  intros Hinv Hr. pose proof Hinv as [Hwf Hseal].
  destruct (ReceiveToDurableCustody_cases config root r d Hwf) as
    (res & r1 & d1 & E & [(fs & _ & Hno)|(k & nd & _ & He & Hdone)]);
    rewrite E in Hr; injection Hr as -> -> ->; [by destruct (Hno v)|].
  specialize (Hdone v eq_refl). split; [done|].
  destruct Hdone as (intake & data & frame & final & Hacc & Hdata & Hl & Hfin & (info & Hsz & Hv) & Hnd & Hdisp).
  assert (custodyObjectName (SourceID v) (BatchID v) = final) as -> by (rewrite Hv; by subst final).
  assert (FrameBytes v = len frame /\ FrameSHA256 v = hex_encode (sha256 frame)) as [-> ->].
  { rewrite Hv. done. }
  assert (custody_name final = true) as Hc by (subst final; apply custodyObjectName_custody).
  destruct (Disposition v).
  - destruct Hdisp as (Hn & x & Hx & <-). unfold lookup_file in Hx.
    destruct (names d !! final) as [i|] eqn:Ei; [|done]. cbn in Hx.
    destruct (Hseal final i Hc (or_introl Ei)) as (x' & Hx' & Hs).
    assert (x' = x) as -> by congruence.
    exists x. split_and!; try done. exists i. rewrite <- Hnd, Hn. split_and!; try done; [|apply Hs].
    rewrite (eff_inodes _ _ _ _ _ He), lookup_insert_ne; [done|]. intros <-.
    destruct Hwf as (_ & _ & W3). specialize (W3 (next_ino d) ltac:(by rewrite Hx)). lia.
  - destruct Hdisp as (Hf & Hn & Hi). exists (Inode Regular perm_0400 frame true). split; [|done].
    exists (next_ino d). rewrite <- Hnd, Hn, lookup_insert_eq. done.
Qed.

(** Acknowledged custody is never lost. When [ReceiveToDurableCustody] returns
    success (new or duplicate), the bytes it consumed are an accepted frame, and in
    every later state of the directory, through any further receptions, faults and
    crashes, the custody name of that batch denotes a read-only file with exactly
    these bytes, on disk as well as in memory. *)
Theorem custody_never_lost config root r d v r' d1 d2 :
  custody_inv d -> ReceiveToDurableCustody config root (r, d) = (Ok v, (r', d1)) -> rtc step d1 d2 ->
  exists intake data frame nd,
    accepted (Intake config) intake data frame /\ rd_data r = frame ++ rd_data r' /\
    stable d2 (custodyObjectName (SourceID v) (BatchID v)) nd /\ i_data nd = frame /\ sealed nd /\
    FrameBytes v = len frame /\ FrameSHA256 v = hex_encode (sha256 frame).
Proof.
  intros Hinv Hr Hs. pose proof (receive_inv _ _ _ _ _ _ _ Hinv Hr) as [Hinv1 _].
  destruct (custody_done_stable _ _ _ _ _ _ _ Hinv Hr) as
    ((intake & data & frame & final & Hacc & Hdata & _) & nd & Hst & Hse & Hl & Hsha & Hdata').
  assert (i_data nd = frame) as Hfr by (rewrite Hdata' in Hdata; by eapply app_inv_tail).
  subst frame. exists intake, data, (i_data nd), nd. split_and!; try done.
  clear Hr. induction Hs as [|da db dc Hab _ IH]; [done|].
  destruct (step_inv _ _ Hinv1 Hab) as [Hb Hst']. apply IH; [done|].
  apply Hst'; [apply custodyObjectName_custody|done].
Qed.

(** ** Without faults: new, duplicate or conflict *)

Lemma accepted_nonempty config intake data frame :
  accepted config intake data frame -> 0 < len frame.
Proof.
  intros (Hv & _ & _ & _ & _ & _ & _ & _ & Hml & _ & hdr & payload & _ & _ & ->).
  destruct Hv as (_ & Hm & _). rewrite !len_app.
  pose proof (len_nonneg (Manifest intake)). pose proof (len_nonneg hdr).
  pose proof (len_nonneg payload). lia.
Qed.

(** The comparison of a complete provisional file with an existing object. *)
Lemma existingCustodyMatches_faultless I ino n m nd final prov j ndj :
  I !! ino = None -> n !! final = Some j -> n !! prov = Some ino -> I !! j = Some ndj -> sealed ndj ->
  existingCustodyMatches final prov (len (i_data nd)) (St I ino n m nd []) =
    (Ok (bool_decide (i_data ndj = i_data nd)), St I ino n m nd []).
Proof.
  intros HI Hf Hp Hj (Hk & Hm & _). assert (<[ino := nd]> I !! j = Some ndj) as Hj'.
  { rewrite lookup_insert_ne; [done|]. intros ->. congruence. }
  unfold existingCustodyMatches, compareOpened, file_reader, Lstat, Fstat, Open, syscall, next_fault,
    bind, wrap_err. cbn. rewrite Hf. cbn. rewrite Hj'. cbn.
  rewrite Hk, bool_decide_eq_true_2 by done. rewrite Hm. cbn.
  destruct (len (i_data ndj) =? len (i_data nd)) eqn:El; cbn.
  2: { rewrite bool_decide_eq_false_2; [done|]. intros E. rewrite E in El. lia. }
  rewrite Hf. cbn. rewrite Hj'. cbn. rewrite bool_decide_eq_true_2 by done. cbn.
  rewrite Hp. cbn. rewrite Hj'. cbn. rewrite lookup_insert_eq. cbn.
  replace (len (i_data nd)) with (len (i_data ndj)) at 1 by lia.
  unfold filesExactlyEqual. rewrite compareChunks_complete by (done || unfold len in El; lia). cbn.
  rewrite Hf. cbn. rewrite Hj'. cbn. rewrite bool_decide_eq_true_2 by done. cbn. by rewrite Hm, El.
Qed.

(** The state in which publication starts when nothing fails. *)
Lemma custodyBody_faultless config r intake data r' frame N D I ino prov :
  ReadValidatedBatch (Intake config) r = (Ok (intake, data), r') -> rd_data r = frame ++ rd_data r' ->
  rd_end r' = rd_end r ->
  custodyBody config prov ino
    (CS r (St I ino (<[prov := ino]> N) D (Inode Regular 384 [] false) []) true true) =
  publishCustody config intake frame prov
    (CS r' (St I ino (<[prov := ino]> N) D (Inode Regular perm_0400 frame true) []) false true).
Proof.
  intros Hi Hd He.
  unfold custodyBody, teeIntake, Chmod, Sync, Close, syscall, next_fault, bind, on_dir, wrap_err, set_open,
    update_inode, set_inodes. cbn [cs_dir cs_reader faults St cut_reader]. rewrite Hi. cbn.
  rewrite lookup_insert_eq. cbn. rewrite insert_insert_eq.
  rewrite Hd, length_app, Nat.add_sub, take_app_length, drop_app_length, <- He.
  do 2 (rewrite lookup_insert_eq; cbn; rewrite insert_insert_eq). by destruct r'.
Qed.

(** What the receiver answers when no system call fails. A valid frame for an
    identity that is not in custody is NEW; for an identity whose object holds the
    same bytes it is DUPLICATE; for an identity whose object holds other bytes the
    call fails with [ErrCustodyConflict]. In the last two cases the directory is
    left as it was. *)
Theorem custody_classification config root r d intake data r' frame prov :
  custody_inv d -> faults d = [] -> validateCustodyConfig config root = Ok tt ->
  unused_temp (bs ".fi-custody-") (bs ".open") (names d) temp_attempts 0 = Some prov ->
  ReadValidatedBatch (Intake config) r = (Ok (intake, data), r') -> rd_data r = frame ++ rd_data r' ->
  let final := custodyObjectName (transportbatch.SourceID (transportwire.descriptor (Header intake)))
                 (transportbatch.BatchID (transportwire.descriptor (Header intake))) in
  exists result d', ReceiveToDurableCustody config root (r, d) = (result, (r', d')) /\
    match lookup_file d final with
    | None => exists v, result = Ok v /\ Disposition v = CustodyDispositionNew /\
                names d' = <[final := next_ino d]> (names d)
    | Some nd =>
        names d' = names d /\
        if bool_decide (i_data nd = frame)
        then exists v, result = Ok v /\ Disposition v = CustodyDispositionDuplicate
        else exists e, result = Err e /\ errors_Is e ErrCustodyConflict = true
    end.
Proof.
  intros [(W1 & W2 & W3) Hseal] Hnf Hcfg Htemp Hread Hdata final.
  pose proof (ReadValidatedBatch_Ok _ _ _ _ _ Hread) as (Hend & frame' & Hacc & Hd').
  assert (frame' = frame) as -> by (rewrite Hd' in Hdata; by eapply app_inv_tail).
  pose proof (accepted_nonempty _ _ _ _ Hacc) as Hpos.
  apply unused_temp_spec in Htemp as Hprov. destruct Hprov as [HN [k Hk]].
  assert (inodes d !! next_ino d = None) as HI.
  { destruct (inodes d !! next_ino d) eqn:Ei; [|done].
    specialize (W3 (next_ino d) ltac:(by rewrite Ei)). lia. }
  assert (prov <> final) as Hpf by (rewrite Hk; apply provisional_not_custody).
  unfold ReceiveToDurableCustody. rewrite Hcfg. unfold CreateTemp, wrap_err, syscall, bind at 1, next_fault.
  rewrite Hnf, Htemp. cbn [wrap names durable inodes next_ino faults]. rewrite Hnf.
  pose proof (custodyBody_faultless config r intake data r' frame (names d) (durable d) (inodes d)
    (next_ino d) prov Hread Hdata Hend) as Hbody. unfold St in Hbody. rewrite Hbody. clear Hbody.
  unfold publishCustody, Lstat, Link, syscall, next_fault, bind, on_dir, wrap_err. cbn.
  rewrite lookup_insert_eq. cbn. rewrite lookup_insert_eq. cbn.
  replace (len frame <=? 0) with false by lia. fold final. cbn.
  rewrite lookup_insert_eq, lookup_insert_ne by done. unfold lookup_file.
  destruct (names d !! final) as [j|] eqn:Ej; cbn.
  - destruct (Hseal final j) as (ndj & Hj & Hsj); [apply custodyObjectName_custody|by left|]. rewrite Hj.
    unfold resolveCollision, bind, on_dir, wrap_err. cbn [cs_dir cs_reader provisionalOpen keepProvisional fi_size info_of i_data].
    pose proof (existingCustodyMatches_faultless (inodes d) (next_ino d) (<[prov := next_ino d]> (names d))
      (durable d) (Inode Regular perm_0400 frame true) final prov j ndj HI) as Hx.
    cbn [i_data] in Hx. unfold St in Hx. rewrite Hx; [|by rewrite lookup_insert_ne|apply lookup_insert_eq|done|done].
    clear Hx. cbn. rewrite lookup_insert_eq. cbn. rewrite delete_insert_id by done.
    destruct (bool_decide (i_data ndj = frame)); cbn; do 2 eexists; (split; [reflexivity|]);
      (split; [done|]); eauto.
  - unfold finishPublication, on_dir. cbn. rewrite lookup_insert_ne, lookup_insert_eq by done. cbn.
    do 2 eexists. split; [reflexivity|]. cbn. eexists. split; [done|]. split; [done|].
    rewrite delete_insert_ne, delete_insert_id by done. done.
Qed.

(** ** The transaction *)

Abbreviation ReceiveTransactionResult := transportreceiver.ReceiveTransactionResult.

(** No acknowledgement without custody. If [ReceiveAndAcknowledge] put as much as
    one byte on the connection, custody had succeeded before: the directory it leaves
    holds the consumed frame durably under the acknowledged identity. A validation
    failure, a storage failure or a conflict writes nothing. *)
Theorem acknowledge_only_after_custody {W} `{WriterLaws W} config root r d (w : W) tr err r' d' w' :
  custody_inv d ->
  ReceiveAndAcknowledge config root (r, d) w = ((tr, err), ((r', d'), w')) ->
  written w' <> written w ->
  exists v nd, Custody tr = Some v /\
    stable d' (custodyObjectName (SourceID v) (BatchID v)) nd /\ sealed nd /\
    rd_data r = i_data nd ++ rd_data r' /\
    len (i_data nd) = FrameBytes v /\ hex_encode (sha256 (i_data nd)) = FrameSHA256 v.
Proof.
  intros Hinv Hr Hw. unfold ReceiveAndAcknowledge in Hr.
  destruct (ReceiveToDurableCustody config root (r, d)) as [[v|e|] [r1 d1]] eqn:Ec; cbn [wrap] in Hr;
    [|by injection Hr as <- <- <- <- <-..].
  destruct (custody_done_stable _ _ _ _ _ _ _ Hinv Ec) as (_ & nd & Hs & Hse & Hl & Hh & Hd).
  destruct (acknowledgementFromCustody v) as [a|e|]; cbn [wrap] in Hr;
    [|by injection Hr as <- <- <- <- <-..].
  destruct (transportack.WriteAcknowledgement a w) as [sent w1].
  injection Hr as <- <- <- <- <-. by exists v, nd.
Qed.

(** End to end. When a reception succeeds, the acknowledgement bytes the source
    receives make its [VerifyDurableAcknowledgement] authorise retirement of exactly
    the batch whose frame is in custody: identity, sizes and digests of the frame the
    receiver consumed, which is on stable storage under the name of that identity. *)
Theorem receive_acknowledge_retire {W} `{WriterLaws W} config root r d (w : W) tr r' d' w' rest e :
  custody_inv d -> is_u64 (len (rd_data r)) ->
  ReceiveAndAcknowledge config root (r, d) w = ((tr, Ok tt), ((r', d'), w')) ->
  exists intake data frame nd outcome out,
    accepted (Intake config) intake data frame /\ rd_data r = frame ++ rd_data r' /\
    stable d' (custodyObjectName (transportbatch.SourceID (transportwire.descriptor (Header intake)))
                 (transportbatch.BatchID (transportwire.descriptor (Header intake)))) nd /\
    i_data nd = frame /\
    let sent := {| transportsender.Descriptor := transportwire.descriptor (Header intake);
                   transportsender.FrameBytes := len frame;
                   transportsender.FrameSHA256 := hex_encode (sha256 frame) |} in
    written w' = written w ++ out /\
    transportsender.VerifyDurableAcknowledgement sent (Reader (out ++ rest) e) =
      (Ok {| transportsender.acknowledgement := transportsender.ack_for outcome sent |},
       Reader rest e).
Proof.
  intros Hinv Hu64 Hr. unfold ReceiveAndAcknowledge in Hr.
  destruct (ReceiveToDurableCustody config root (r, d)) as [[v|x|] [r1 d1]] eqn:Ec; cbn [wrap] in Hr;
    [|discriminate..].
  destruct (custody_done_stable _ _ _ _ _ _ _ Hinv Ec) as
    ((intake & data & frame & final & Hacc & Hdata & Hpos & _ & (info & Hsz & Hv) & _) & nd &
     Hst & _ & _ & _ & Hnd).
  assert (i_data nd = frame) as Hfr by (rewrite Hnd in Hdata; by eapply app_inv_tail).
  destruct (acknowledgementFromCustody v) as [a|x|] eqn:Ea; cbn [wrap] in Hr; [|discriminate..].
  destruct (transportack.WriteAcknowledgement a w) as [sent w1] eqn:Ew.
  injection Hr as <- Hsent <- <- <-. destruct sent as [[]|x|]; try discriminate. clear Hsent.
  set (sent := {| transportsender.Descriptor := transportwire.descriptor (Header intake);
                  transportsender.FrameBytes := len frame;
                  transportsender.FrameSHA256 := hex_encode (sha256 frame) |}).
  assert (a = transportsender.ack_for (transportack.Outcome a) sent) as Ha.
  { unfold acknowledgementFromCustody, transportack.NewDurableAcknowledgement in Ea. res_inv Ea.
    rewrite Hv. cbn. rewrite Hsz. destruct Hacc as (_ & _ & _ & -> & -> & _). done. }
  rewrite Ha in Ew.
  assert (transportsender.SentFrame_Validate sent = Ok tt) as Hval.
  { destruct Hacc as (((_ & Hd & _) & _) & _). unfold transportsender.SentFrame_Validate. res_iff.
    rewrite transportbatch.Descriptor_Validate_Ok, transportsender.validateFrameSHA256_Ok. cbn.
    split; [exact Hd|]. split; [lia|]. split; [|done]. apply sha256_text_encode, sha256_len. }
  destruct (transportsender.acknowledgement_accepted (transportack.Outcome a) sent w w1 rest e) as
    (out & Hout & Hver); [done|apply Hacc| |done|].
  { cbn. rewrite Hdata, len_app in Hu64. unfold is_u64 in *. pose proof (len_nonneg (rd_data r1)). lia. }
  exists intake, data, frame, nd, (transportack.Outcome a), out. split_and!; try done.
  by rewrite Hv in Hst.
Qed.

End Whole.

(** ** A concrete reception *)

#[local] Existing Instance asciiUnicode.
#[local] Existing Instance transporttrust.demoX509.
#[local] Existing Instance demoZstd.
#[local] Existing Instance demoZstd_laws.

#[local] Opaque ReceiveToDurableCustody.

Definition demoReception : res DurableCustodyResult * (reader * dir) :=
  ReceiveToDurableCustody demoConfig demoRootState (Reader (demoWire ++ bs "next") EOF, empty_dir []).

Definition demoDir : dir := demoReception.2.2.

Definition demoCustody : DurableCustodyResult := Eval vm_compute in
  match demoReception.1 with
  | Ok v => v
  | _ => {| BatchID := []; DataBytes := 0; DataSHA256 := []; Disposition := CustodyDispositionNew;
            FrameBytes := 0; FramePath := []; FrameSHA256 := []; ManifestSHA256 := []; SourceID := [] |}
  end.

Lemma empty_custody fs : custody_inv (empty_dir fs).
Proof. exact (empty_object_inv custody fs). Qed.

Lemma demoReception_ok :
  ReceiveToDurableCustody demoConfig demoRootState
    (Reader (demoWire ++ bs "next") EOF, empty_dir []) =
  (Ok demoCustody, (Reader (bs "next") EOF, demoDir)).
Proof.
  assert (demoReception.1 = Ok demoCustody /\ demoReception.2.1 = Reader (bs "next") EOF) as [H1 H2]
    by (vm_compute; split; reflexivity).
  unfold demoDir. fold demoReception. destruct demoReception as [r [rd d]]. cbn in *. by subst.
Qed.

(** A second reception in which the third system call fails. *)
Definition demoRetry : dir :=
  (ReceiveToDurableCustody demoConfig demoRootState
     (Reader demoWire EOF, set_faults [None; None; Some 0%nat] demoDir)).2.2.

Lemma demoRetry_step : step demoDir demoRetry.
Proof.
  exact (step_run demoConfig demoRootState (Reader demoWire EOF) [None; None; Some 0%nat] demoDir).
Qed.

Lemma demoDir_step : step (empty_dir []) demoDir.
Proof.
  exact (step_receive demoConfig demoRootState (Reader (demoWire ++ bs "next") EOF) [] (empty_dir [])
           (Ok demoCustody) (Reader (bs "next") EOF) demoDir demoReception_ok).
Qed.

Lemma custody_directory_sound_witness :
  rtc step (empty_dir []) demoDir /\ custody_inv demoDir.
Proof.
  split; [exact (rtc_once _ _ demoDir_step)|].
  exact (custody_directory_sound _ _ (empty_custody []) (rtc_once _ _ demoDir_step)).
Defined.

Lemma custody_refines_store_witness :
  rtc step (empty_dir []) demoDir /\ rtc store_step (abs custody (empty_dir [])) (abs custody demoDir).
Proof.
  split; [exact (rtc_once _ _ demoDir_step)|].
  refine (custody_refines_store (empty_dir []) demoDir _ (rtc_once _ _ demoDir_step)).
  exact (empty_store_inv custody []).
Defined.

Lemma custody_never_lost_witness :
  exists intake data frame nd,
    accepted (Intake demoConfig) intake data frame /\ demoWire ++ bs "next" = frame ++ bs "next" /\
    stable demoRetry (custodyObjectName (SourceID demoCustody) (BatchID demoCustody)) nd /\
    i_data nd = frame /\ sealed nd /\
    FrameBytes demoCustody = len frame /\ FrameSHA256 demoCustody = hex_encode (sha256 frame).
Proof.
  apply (custody_never_lost demoConfig demoRootState (Reader (demoWire ++ bs "next") EOF) (empty_dir [])
           demoCustody (Reader (bs "next") EOF) demoDir demoRetry).
  - apply empty_custody.
  - exact demoReception_ok.
  - exact (rtc_once _ _ demoRetry_step).
Defined.

Definition demoPipe : pipe := Pipe [] 7 2000.

Definition demoTransaction :=
  ReceiveAndAcknowledge demoConfig demoRootState
    (Reader (demoWire ++ bs "next") EOF, empty_dir []) demoPipe.

Lemma demoTransaction_ok :
  exists tr w, demoTransaction = ((tr, Ok tt), ((Reader (bs "next") EOF, demoDir), w)) /\
    pipe_out w <> [].
Proof.
  unfold demoTransaction, ReceiveAndAcknowledge. rewrite demoReception_ok.
  cbn [wrap]. eexists _, _.
  destruct (acknowledgementFromCustody demoCustody) as [a|e|] eqn:Ea; [|vm_compute in Ea; discriminate Ea..].
  cbn [wrap]. destruct (transportack.WriteAcknowledgement a demoPipe) as [sent w] eqn:Ew.
  vm_compute in Ea. injection Ea as <-. vm_compute in Ew. injection Ew as <- <-.
  split; [reflexivity|]. discriminate.
Qed.

Lemma custody_classification_witness :
  exists result d', ReceiveToDurableCustody demoConfig demoRootState
      (Reader (demoWire ++ bs "next") EOF, demoDir) = (result, (Reader (bs "next") EOF, d')) /\
    names d' = names demoDir /\
    exists v, result = Ok v /\ Disposition v = CustodyDispositionDuplicate.
Proof.
  destruct (custody_classification demoConfig demoRootState (Reader (demoWire ++ bs "next") EOF) demoDir
    demoResult (bs "abc!") (Reader (bs "next") EOF) demoWire
    (temp_name (bs ".fi-custody-") (bs ".open") 0)) as (result & d' & Hr & Hc).
  - eapply (@receive_inv asciiUnicode transporttrust.demoX509 demoZstd demoZstd_laws);
      [apply (empty_custody [])|exact demoReception_ok].
  - vm_compute. reflexivity.
  - vm_compute. reflexivity.
  - vm_compute. reflexivity.
  - exact demoIntake_accepts.
  - vm_compute. reflexivity.
  - exists result, d'. split; [exact Hr|].
    match type of Hc with match ?l with _ => _ end =>
      let v := eval vm_compute in l in replace l with v in Hc by (vm_compute; reflexivity) end.
    destruct Hc as [Hn Hc]. split; [exact Hn|].
    match type of Hc with if ?b then _ else _ => replace b with true in Hc by (vm_compute; reflexivity) end.
    exact Hc.
Defined.

Lemma acknowledge_only_after_custody_witness :
  exists tr v nd, Custody tr = Some v /\
    stable demoDir (custodyObjectName (SourceID v) (BatchID v)) nd /\ sealed nd /\
    demoWire ++ bs "next" = i_data nd ++ bs "next" /\
    len (i_data nd) = FrameBytes v /\ hex_encode (sha256 (i_data nd)) = FrameSHA256 v.
Proof.
  destruct demoTransaction_ok as (tr & w & Ht & Hw). exists tr.
  change (written (W := pipe) w <> written (W := pipe) demoPipe) in Hw.
  apply (acknowledge_only_after_custody (W := pipe) demoConfig demoRootState
    (Reader (demoWire ++ bs "next") EOF) (empty_dir []) demoPipe tr (Ok tt)
    (Reader (bs "next") EOF) demoDir w (empty_custody []) Ht Hw).
Defined.

Lemma receive_acknowledge_retire_witness :
  exists w intake data frame nd outcome out,
    accepted (Intake demoConfig) intake data frame /\
    demoWire ++ bs "next" = frame ++ bs "next" /\
    stable demoDir
      (custodyObjectName (transportbatch.SourceID (transportwire.descriptor (Header intake)))
         (transportbatch.BatchID (transportwire.descriptor (Header intake)))) nd /\
    i_data nd = frame /\
    let sent := {| transportsender.Descriptor := transportwire.descriptor (Header intake);
                   transportsender.FrameBytes := len frame;
                   transportsender.FrameSHA256 := hex_encode (sha256 frame) |} in
    written (W := pipe) w = written (W := pipe) demoPipe ++ out /\
    transportsender.VerifyDurableAcknowledgement sent (Reader (out ++ bs "x") EOF) =
      (Ok {| transportsender.acknowledgement := transportsender.ack_for outcome sent |},
       Reader (bs "x") EOF).
Proof.
  destruct demoTransaction_ok as (tr & w & Ht & _). exists w.
  refine (receive_acknowledge_retire (W := pipe) demoConfig demoRootState
    (Reader (demoWire ++ bs "next") EOF) (empty_dir []) demoPipe tr
    (Reader (bs "next") EOF) demoDir w (bs "x") EOF (empty_custody []) _ Ht).
  vm_compute. split; congruence.
Defined.
