(* ===== verification/Records.v ===== *)
(** * Source records

    Models [go/internal/records]: the identities, the canonical text forms and the
    validators the collector and the backend share ([identity.go], [validation.go],
    [states.go], [stream.go], [usn.go], [usn_continuity_gap.go], [parent_binding.go],
    [content_hash.go], [content_prefix.go], [observation.go], [operation.go]). A Go string
    type such as [StreamKind] is the byte string it is: a decoded record can hold any. *)

From stdpp Require Import sorting.
From S2P Require Import Prelude GoBytes GoStrings GoText.
From Stdlib Require Import Strings.Byte.

Module records.

(** ** Validation errors *)

(** [&ValidationError{Code, Field}], by the text of its [Error] method; the index of an
    element is not kept. *)
Definition invalid (code field : string) : error := Errorf (String.append code (String.append ": " field)).

Definition require (value : bytes) (field : string) : res unit :=
  fail? bool_decide (value = []) with invalid "Required" field ;; Ok tt.

(** ** Canonical text *)

Definition canonicalUnsigned (value : bytes) : res Z :=
  if bool_decide (value = bs "0") then Ok 0 else
  match value with
  | [] => Err (Errorf "not canonical unsigned decimal")
  | c :: digits =>
      fail? negb (between 49 57 c) with Errorf "not canonical unsigned decimal" ;;
      fail? negb (all_digits digits) with Errorf "not canonical unsigned decimal" ;;
      ParseUint value 64
  end.

Definition validateDecimal (value : bytes) (field : string) : res unit :=
  match canonicalUnsigned value with
  | Ok _ => Ok tt
  | Err _ => Err (invalid "InvalidDecimal" field)
  | Panic => Panic
  end.

Definition validateDecimalMax (value : bytes) (maximum : Z) (field : string) : res unit :=
  match canonicalUnsigned value with
  | Ok parsed => fail? maximum <? parsed with invalid "OutOfRange" field ;; Ok tt
  | Err _ => Err (invalid "InvalidDecimal" field)
  | Panic => Panic
  end.

(** The loop [for _, item := range ...] over fields and values. *)
Fixpoint validateDecimals (items : list (string * bytes)) : res unit :=
  match items with
  | [] => Ok tt
  | (field, value) :: items => check? validateDecimal value field ;; validateDecimals items
  end.

(** The characters [=+/ \t\r\n]. *)
Definition notBase64URL : bytes := bs "=+/ " ++ [x09; x0d; x0a].

Definition decodeBase64URL (value : bytes) (field : string) : res bytes :=
  fail? ContainsAny value notBase64URL with invalid "InvalidBase64URL" field ;;
  match b64_decode true value with
  | Ok decoded =>
      fail? negb (bool_decide (b64_encode decoded = value)) with invalid "InvalidBase64URL" field ;;
      Ok decoded
  | Err _ => Err (invalid "InvalidBase64URL" field)
  | Panic => Panic
  end.

(** Little-endian pairs of bytes. *)
Fixpoint units_of (raw : bytes) : list Z :=
  match raw with
  | a :: b :: raw => le_get [a; b] :: units_of raw
  | _ => []
  end.
Definition bytes_of (units : list Z) : bytes := concat (map PutUint16LE units).

Definition decodeUTF16LEBase64URLUnits (value : bytes) (field : string) : res (list Z) :=
  let? decoded := decodeBase64URL value field in
  fail? negb (len decoded mod 2 =? 0) with invalid "InvalidUTF16LE" field ;;
  Ok (units_of decoded).

Definition validateUTF16LEBase64URL (value : bytes) (field : string) : res unit :=
  check? decodeUTF16LEBase64URLUnits value field ;; Ok tt.

Definition upper_hex (c : byte) : bool := between 48 57 c || between 65 70 c.
Definition validateHex32 (value : bytes) (field : string) : res unit :=
  fail? negb (len value =? 10) || negb (bool_decide (sub 0 2 value = bs "0x")) with invalid "InvalidHex32" field ;;
  fail? negb (forallb upper_hex (drop 2 value)) with invalid "InvalidHex32" field ;;
  Ok tt.

(** The layout has 30 characters. *)
Definition validateTimestamp (value : bytes) (field : string) : res unit :=
  fail? negb (len value =? 30) with invalid "InvalidTimestamp" field ;;
  match Parse_nano value with
  | Ok (parsed, _) =>
      fail? negb (bool_decide (Format_nano parsed = value)) with invalid "InvalidTimestamp" field ;; Ok tt
  | Err _ => Err (invalid "InvalidTimestamp" field)
  | Panic => Panic
  end.

Definition ValidateObservedAt (value : bytes) : res unit := validateTimestamp value "observed_at".

Definition hex_char (c : byte) : bool := between 48 57 c || between 97 102 c || between 65 70 c.
(** The loop over the 36 characters of the identifier. *)
Fixpoint guid_chars (index : Z) (guid : bytes) : bool :=
  match guid with
  | [] => true
  | c :: guid =>
      (if (index =? 8) || (index =? 13) || (index =? 18) || (index =? 23) then between 45 45 c else hex_char c) &&
      guid_chars (index + 1) guid
  end.
Definition volumePrefix : bytes := bs "\\?\Volume{".
Definition volumeSuffix : bytes := bs "}\".
Definition validateVolumeGUIDPath (value : bytes) (field : string) : res unit :=
  fail? negb (HasPrefix value volumePrefix) || negb (HasSuffix value volumeSuffix)
    with invalid "InvalidVolumeGUID" field ;;
  let? guid := slice (len volumePrefix) (len value - 2) value in
  fail? negb (len guid =? 36) with invalid "InvalidVolumeGUID" field ;;
  fail? negb (guid_chars 0 guid) with invalid "InvalidVolumeGUID" field ;;
  Ok tt.

(** ** Identities *)

Definition maxNTFSFileReferenceNumber : Z := 281474976710655.
Definition maxNTFSSequenceNumber : Z := 65535.

Record VolumeIdentity := { VolumeMethodVersion : bytes; VolumeGUID : bytes; VolumeSerial : bytes }.
Record NTFSObjectIdentity := { MethodVersion : bytes; FileReferenceNumber : bytes; SequenceNumber : bytes }.
Record GovernedRootIdentity := {
  RootScopeID : bytes;
  RequestedPathUTF16LEBase64URL : bytes;
  ResolvedPathUTF16LEBase64URL : bytes;
  RootMethodVersion : bytes;
  RootVolumeIdentity : VolumeIdentity;
  RootObjectIdentity : NTFSObjectIdentity
}.

#[global] Instance VolumeIdentity_eq_decision : EqDecision VolumeIdentity.
Proof. solve_decision. Defined.
#[global] Instance NTFSObjectIdentity_eq_decision : EqDecision NTFSObjectIdentity.
Proof. solve_decision. Defined.
#[global] Instance GovernedRootIdentity_eq_decision : EqDecision GovernedRootIdentity.
Proof. solve_decision. Defined.

Definition ValidateVolumeIdentity (identity : VolumeIdentity) : res unit :=
  check? require (VolumeMethodVersion identity) "volume_identity.method_version" ;;
  check? require (VolumeGUID identity) "volume_identity.volume_guid" ;;
  check? validateVolumeGUIDPath (VolumeGUID identity) "volume_identity.volume_guid" ;;
  validateDecimal (VolumeSerial identity) "volume_identity.volume_serial".

Definition ValidateNTFSObjectIdentity (identity : NTFSObjectIdentity) : res unit :=
  check? require (MethodVersion identity) "object_identity.method_version" ;;
  check? validateDecimalMax (FileReferenceNumber identity) maxNTFSFileReferenceNumber
           "object_identity.file_reference_number" ;;
  validateDecimalMax (SequenceNumber identity) maxNTFSSequenceNumber "object_identity.sequence_number".

Definition ValidateGovernedRootIdentity (root : GovernedRootIdentity) : res unit :=
  check? require (RootScopeID root) "governed_root.scope_id" ;;
  check? require (RequestedPathUTF16LEBase64URL root) "governed_root.requested_path_utf16le_base64url" ;;
  check? validateUTF16LEBase64URL (RequestedPathUTF16LEBase64URL root) "governed_root.requested_path_utf16le_base64url" ;;
  check? require (ResolvedPathUTF16LEBase64URL root) "governed_root.resolved_path_utf16le_base64url" ;;
  check? validateUTF16LEBase64URL (ResolvedPathUTF16LEBase64URL root) "governed_root.resolved_path_utf16le_base64url" ;;
  check? require (RootMethodVersion root) "governed_root.method_version" ;;
  check? ValidateVolumeIdentity (RootVolumeIdentity root) ;;
  ValidateNTFSObjectIdentity (RootObjectIdentity root).

Record PathContainment := { ContainmentMethodVersion : bytes }.
Record PathBinding := { BindingRequestedPath : bytes; BindingResolvedPath : bytes }.

Definition ValidatePathBinding (binding : PathBinding) : res unit :=
  check? require (BindingRequestedPath binding) "path_binding.requested_path_utf16le_base64url" ;;
  check? validateUTF16LEBase64URL (BindingRequestedPath binding) "path_binding.requested_path_utf16le_base64url" ;;
  check? require (BindingResolvedPath binding) "path_binding.resolved_path_utf16le_base64url" ;;
  validateUTF16LEBase64URL (BindingResolvedPath binding) "path_binding.resolved_path_utf16le_base64url".

Definition ValidatePathContainment (containment : PathContainment) : res unit :=
  require (ContainmentMethodVersion containment) "containment.method_version".

(** The binding of an object to its parent directory. *)
Record ParentObjectBinding := {
  ParentState : bytes;
  ParentObjectIdentity : option NTFSObjectIdentity;
  ParentReasonCode : bytes
}.
Definition ParentBindingError : bytes := bs "Error".
Definition ParentBindingGovernedRoot : bytes := bs "GovernedRoot".
Definition ParentBindingPresent : bytes := bs "Present".

Definition ParentObjectBindingFor (identity : NTFSObjectIdentity) : ParentObjectBinding :=
  {| ParentState := ParentBindingPresent; ParentObjectIdentity := Some identity; ParentReasonCode := [] |}.
Definition ParentObjectBindingError (reasonCode : bytes) : ParentObjectBinding :=
  {| ParentState := ParentBindingError; ParentObjectIdentity := None; ParentReasonCode := reasonCode |}.

Definition ValidateParentObjectBinding (binding : ParentObjectBinding) : res unit :=
  if bool_decide (ParentState binding = ParentBindingGovernedRoot) then
    fail? negb (bool_decide (ParentObjectIdentity binding = None)) || negb (bool_decide (ParentReasonCode binding = []))
      with invalid "Conflict" "parent_binding" ;;
    Ok tt
  else if bool_decide (ParentState binding = ParentBindingPresent) then
    match ParentObjectIdentity binding with
    | None => Err (invalid "Required" "parent_binding.object_identity")
    | Some identity =>
        fail? negb (bool_decide (ParentReasonCode binding = [])) with invalid "Conflict" "parent_binding.reason_code" ;;
        ValidateNTFSObjectIdentity identity
    end
  else if bool_decide (ParentState binding = ParentBindingError) then
    fail? negb (bool_decide (ParentObjectIdentity binding = None)) with invalid "Conflict" "parent_binding.object_identity" ;;
    fail? bool_decide (ParentReasonCode binding = []) with invalid "Required" "parent_binding.reason_code" ;;
    Ok tt
  else Err (invalid "UnsupportedValue" "parent_binding.state").

(** ** Streams *)

Record StreamIdentity := {
  Kind : bytes;
  NameUTF16LEBase64URL : bytes;
  StreamType : bytes;
  RawNameUTF16LEBase64URL : bytes
}.
#[global] Instance StreamIdentity_eq_decision : EqDecision StreamIdentity.
Proof. solve_decision. Defined.

Definition StreamDefaultData : bytes := bs "DefaultData".
Definition StreamNamedData : bytes := bs "NamedData".
Definition StreamOther : bytes := bs "Other".

Definition encodeUTF16LEBase64URL (units : list Z) : bytes := b64_encode (bytes_of units).

(** [string(runesFromUTF16CodeUnits(units))]: each unit is a code point of its own, a
    surrogate becomes U+FFFD. *)
Definition utf8_unit (u : Z) : bytes :=
  if u <? 128 then [z2b u]
  else if u <? 2048 then [z2b (Z.lor 192 (Z.shiftr u 6)); z2b (Z.lor 128 (Z.land u 63))]
  else if (55296 <=? u) && (u <=? 57343) then [z2b 239; z2b 191; z2b 189]
  else [z2b (Z.lor 224 (Z.shiftr u 12)); z2b (Z.lor 128 (Z.land (Z.shiftr u 6) 63)); z2b (Z.lor 128 (Z.land u 63))].
Definition string_of_units (units : list Z) : bytes := concat (map utf8_unit units).

(** The positions of the first and the last colon, -1 when there is none. *)
Fixpoint colons (i : Z) (name : list Z) (first last : Z) : Z * Z :=
  match name with
  | [] => (first, last)
  | unit :: name =>
      if unit =? 58 then colons (i + 1) name (if first <? 0 then i else first) i
      else colons (i + 1) name first last
  end.

Definition StreamIdentityFromRawUTF16 (name : list Z) : StreamIdentity :=
  let raw := encodeUTF16LEBase64URL name in
  let '(first, last) := colons 0 name (-1) (-1) in
  if negb (first =? 0) || (last <=? first) then
    {| Kind := StreamOther; NameUTF16LEBase64URL := encodeUTF16LEBase64URL name; StreamType := bs "Unknown";
       RawNameUTF16LEBase64URL := raw |}
  else
    let streamName := take (Z.to_nat (last - (first + 1))) (drop (Z.to_nat (first + 1)) name) in
    let streamType := string_of_units (drop (Z.to_nat (last + 1)) name) in
    if bool_decide (streamName = []) && bool_decide (streamType = bs "$DATA") then
      {| Kind := StreamDefaultData; NameUTF16LEBase64URL := []; StreamType := streamType; RawNameUTF16LEBase64URL := raw |}
    else
      {| Kind := if bool_decide (streamType = bs "$DATA") then StreamNamedData else StreamOther;
         NameUTF16LEBase64URL := encodeUTF16LEBase64URL streamName; StreamType := streamType;
         RawNameUTF16LEBase64URL := raw |}.

Definition ValidateStreamIdentity (identity : StreamIdentity) : res unit :=
  check? require (RawNameUTF16LEBase64URL identity) "stream_identity.raw_name_utf16le_base64url" ;;
  let? rawUnits := decodeUTF16LEBase64URLUnits (RawNameUTF16LEBase64URL identity)
                     "stream_identity.raw_name_utf16le_base64url" in
  check? (if bool_decide (Kind identity = StreamDefaultData) then
            fail? negb (bool_decide (NameUTF16LEBase64URL identity = [])) ||
                  negb (bool_decide (StreamType identity = bs "$DATA"))
              with invalid "Conflict" "stream_identity" ;;
            Ok tt
          else if bool_decide (Kind identity = StreamNamedData) || bool_decide (Kind identity = StreamOther) then
            check? require (NameUTF16LEBase64URL identity) "stream_identity.name_utf16le_base64url" ;;
            check? validateUTF16LEBase64URL (NameUTF16LEBase64URL identity) "stream_identity.name_utf16le_base64url" ;;
            require (StreamType identity) "stream_identity.stream_type"
          else Err (invalid "UnsupportedValue" "stream_identity.kind")) ;;
  fail? negb (bool_decide (identity = StreamIdentityFromRawUTF16 rawUnits)) with invalid "Conflict" "stream_identity" ;;
  Ok tt.

(** ** Observations *)

Definition ObservationStateError : bytes := bs "Error".
Definition ObservationStatePresent : bytes := bs "Present".
Definition validateObservationState (state : bytes) (field : string) : res unit :=
  fail? negb (bool_decide (state = ObservationStateError) || bool_decide (state = ObservationStatePresent))
    with invalid "UnsupportedValue" field ;;
  Ok tt.

Definition observationStatuses : list bytes :=
  [bs "ChangedDuringCollection"; bs "Complete"; bs "Partial"; bs "ReplacedDuringCollection"].
Definition ValidateObservationStatus (status : bytes) : res unit :=
  fail? negb (bool_decide (status ∈ observationStatuses)) with invalid "UnsupportedValue" "observation_status" ;; Ok tt.

Definition SubjectDirectory : bytes := bs "Directory".
Definition SubjectFile : bytes := bs "File".
Definition ValidateSubjectKind (kind : bytes) : res unit :=
  fail? negb (bool_decide (kind = SubjectDirectory) || bool_decide (kind = SubjectFile))
    with invalid "UnsupportedValue" "subject_kind" ;;
  Ok tt.

Record MetadataObservation := {
  LogicalSize : bytes; AllocatedSize : bytes;
  CreationTime : bytes; LastWriteTime : bytes; ChangeTime : bytes; LastAccessTime : bytes;
  RawAttributes : bytes; LinkCount : bytes
}.

Fixpoint validateTimestamps (items : list (string * bytes)) : res unit :=
  match items with
  | [] => Ok tt
  | (field, value) :: items => check? validateTimestamp value field ;; validateTimestamps items
  end.

Definition ValidateMetadataObservation (metadata : MetadataObservation) : res unit :=
  check? validateDecimals
    [("metadata.logical_size", LogicalSize metadata); ("metadata.allocated_size", AllocatedSize metadata);
     ("metadata.raw_attributes", RawAttributes metadata); ("metadata.link_count", LinkCount metadata)]%string ;;
  validateTimestamps
    [("metadata.creation_time", CreationTime metadata); ("metadata.last_write_time", LastWriteTime metadata);
     ("metadata.change_time", ChangeTime metadata); ("metadata.last_access_time", LastAccessTime metadata)]%string.

(** Collections keyed by a text, strictly sorted: the loop keeps the previous key, and an
    empty one compares with nothing. *)
Fixpoint validateSorted {A} (key : A -> bytes) (check : A -> res unit) (unsorted : error) (previous : bytes)
    (items : list A) : res unit :=
  match items with
  | [] => Ok tt
  | item :: items =>
      check? check item ;;
      fail? negb (bool_decide (previous = [])) && bytes_leb (key item) previous with unsorted ;;
      validateSorted key check unsorted (key item) items
  end.

Record ObservationWarning := { WarningCode : bytes; Detail : bytes }.
Definition ValidateObservationWarnings (warnings : list ObservationWarning) : res unit :=
  validateSorted WarningCode (fun warning => require (WarningCode warning) "warnings[%d].code")
    (invalid "UnsortedCollection" "warnings") [] warnings.

Record StreamObservation := {
  Identity : StreamIdentity; StreamLogicalSize : bytes; StreamAllocatedSize : bytes
}.
Record StreamInventory := { InventoryState : bytes; Streams : list StreamObservation; InventoryReasonCode : bytes }.

Definition ValidateStreamInventory (inventory : StreamInventory) : res unit :=
  check? validateObservationState (InventoryState inventory) "stream_inventory.state" ;;
  if bool_decide (InventoryState inventory = ObservationStateError) then
    check? require (InventoryReasonCode inventory) "stream_inventory.reason_code" ;;
    fail? negb (bool_decide (Streams inventory = [])) with invalid "Conflict" "stream_inventory.streams" ;;
    Ok tt
  else
    fail? negb (bool_decide (InventoryReasonCode inventory = [])) with invalid "Conflict" "stream_inventory.reason_code" ;;
    validateSorted (fun stream => RawNameUTF16LEBase64URL (Identity stream))
      (fun stream =>
         check? ValidateStreamIdentity (Identity stream) ;;
         check? validateDecimal (StreamLogicalSize stream) "stream_inventory.streams[%d].logical_size" ;;
         validateDecimal (StreamAllocatedSize stream) "stream_inventory.streams[%d].allocated_size")
      (invalid "UnsortedCollection" "stream_inventory.streams") [] (Streams inventory).

(** ** Content *)

Record ContentPrefixObservation := {
  PrefixState : bytes; BytesObserved : bytes; PrefixBase64URL : bytes; PrefixReasonCode : bytes; PrefixDetail : bytes
}.
Definition ContentPrefixMaxBytes : Z := 16.
Definition ContentPrefixError : bytes := bs "Error".
Definition ContentPrefixNotApplicable : bytes := bs "NotApplicable".
Definition ContentPrefixPresent : bytes := bs "Present".

Definition ValidateContentPrefixObservation (value : ContentPrefixObservation) : res unit :=
  if bool_decide (PrefixState value = ContentPrefixNotApplicable) then
    fail? negb (bool_decide (BytesObserved value = [])) || negb (bool_decide (PrefixBase64URL value = [])) ||
          negb (bool_decide (PrefixReasonCode value = [])) || negb (bool_decide (PrefixDetail value = []))
      with invalid "Conflict" "content_prefix" ;;
    Ok tt
  else if bool_decide (PrefixState value = ContentPrefixError) then
    check? require (PrefixReasonCode value) "content_prefix.reason_code" ;;
    fail? negb (bool_decide (BytesObserved value = [])) || negb (bool_decide (PrefixBase64URL value = []))
      with invalid "Conflict" "content_prefix" ;;
    Ok tt
  else if bool_decide (PrefixState value = ContentPrefixPresent) then
    fail? negb (bool_decide (PrefixReasonCode value = [])) || negb (bool_decide (PrefixDetail value = []))
      with invalid "Conflict" "content_prefix" ;;
    let? count := match canonicalUnsigned (BytesObserved value) with
                  | Ok count => fail? ContentPrefixMaxBytes <? count
                                  with invalid "InvalidDecimal" "content_prefix.bytes_observed" ;; Ok count
                  | Err _ => Err (invalid "InvalidDecimal" "content_prefix.bytes_observed")
                  | Panic => Panic
                  end in
    let? decoded := decodeBase64URL (PrefixBase64URL value) "content_prefix.prefix_base64url" in
    fail? negb (u64 (len decoded) =? count) with invalid "Conflict" "content_prefix" ;;
    Ok tt
  else Err (invalid "UnsupportedValue" "content_prefix.state").

Record ContentHashObservation := {
  HashState : bytes; BytesHashed : bytes; MD5 : bytes; SHA1 : bytes; SHA256 : bytes;
  HashReasonCode : bytes; HashDetail : bytes
}.
Definition ContentHashError : bytes := bs "Error".
Definition ContentHashNotApplicable : bytes := bs "NotApplicable".
Definition ContentHashPresent : bytes := bs "Present".

Definition validateLowerHexHash `{Unicode} (value : bytes) (length : Z) (field : string) : res unit :=
  fail? negb (len value =? length) || negb (bool_decide (value = ToLower value)) with invalid "InvalidHash" field ;;
  fail? negb (forallb lower_hex value) with invalid "InvalidHash" field ;;
  fail? bool_decide (value = []) with Errorf "empty hash: %s" ;;
  Ok tt.

Definition ValidateContentHashObservation `{Unicode} (value : ContentHashObservation) : res unit :=
  if bool_decide (HashState value = ContentHashNotApplicable) then
    fail? negb (bool_decide (BytesHashed value = [])) || negb (bool_decide (MD5 value = [])) ||
          negb (bool_decide (SHA1 value = [])) || negb (bool_decide (SHA256 value = [])) ||
          negb (bool_decide (HashReasonCode value = [])) || negb (bool_decide (HashDetail value = []))
      with invalid "Conflict" "content_hashes" ;;
    Ok tt
  else if bool_decide (HashState value = ContentHashError) then
    check? require (HashReasonCode value) "content_hashes.reason_code" ;;
    fail? negb (bool_decide (BytesHashed value = [])) || negb (bool_decide (MD5 value = [])) ||
          negb (bool_decide (SHA1 value = [])) || negb (bool_decide (SHA256 value = []))
      with invalid "Conflict" "content_hashes" ;;
    Ok tt
  else if bool_decide (HashState value = ContentHashPresent) then
    fail? negb (bool_decide (HashReasonCode value = [])) || negb (bool_decide (HashDetail value = []))
      with invalid "Conflict" "content_hashes" ;;
    check? validateDecimal (BytesHashed value) "content_hashes.bytes_hashed" ;;
    check? validateLowerHexHash (MD5 value) 32 "content_hashes.md5" ;;
    check? validateLowerHexHash (SHA1 value) 40 "content_hashes.sha1" ;;
    validateLowerHexHash (SHA256 value) 64 "content_hashes.sha256"
  else Err (invalid "UnsupportedValue" "content_hashes.state").

(** ** The change journal *)

Record USNJournalState := {
  JournalObservedAt : bytes; JournalCollectionMethod : bytes; JournalScopeID : bytes;
  JournalVolumeIdentity : VolumeIdentity; JournalID : bytes; FirstUSN : bytes; NextUSN : bytes;
  LowestValidUSN : bytes; MaxUSN : bytes; MaximumSize : bytes; AllocationDelta : bytes
}.

Record USNChangeObservation := {
  MajorVersion : bytes; MinorVersion : bytes;
  FileIdentity : NTFSObjectIdentity; ParentIdentity : NTFSObjectIdentity;
  USN : bytes; Timestamp : bytes; ReasonRaw : bytes; ReasonNames : list bytes;
  SourceInfoRaw : bytes; SecurityID : bytes; FileAttributesRaw : bytes;
  FileNameUTF16LEBase64URL : bytes
}.

Record USNReadBatch := {
  BatchObservedAt : bytes; BatchCollectionMethod : bytes; BatchScopeID : bytes;
  BatchVolumeIdentity : VolumeIdentity; BatchJournalID : bytes; StartUSN : bytes; BatchNextUSN : bytes;
  Records : list USNChangeObservation
}.

#[global] Instance USNJournalState_eq_decision : EqDecision USNJournalState.
Proof. solve_decision. Defined.
#[global] Instance USNChangeObservation_eq_decision : EqDecision USNChangeObservation.
Proof. solve_decision. Defined.

Definition ValidateUSNJournalState (state : USNJournalState) : res unit :=
  check? require (JournalObservedAt state) "usn_journal_state.observed_at" ;;
  check? ValidateObservedAt (JournalObservedAt state) ;;
  check? require (JournalCollectionMethod state) "usn_journal_state.collection_method" ;;
  check? require (JournalScopeID state) "usn_journal_state.scope_id" ;;
  check? ValidateVolumeIdentity (JournalVolumeIdentity state) ;;
  validateDecimals
    [("usn_journal_state.journal_id", JournalID state); ("usn_journal_state.first_usn", FirstUSN state);
     ("usn_journal_state.next_usn", NextUSN state); ("usn_journal_state.lowest_valid_usn", LowestValidUSN state);
     ("usn_journal_state.max_usn", MaxUSN state); ("usn_journal_state.maximum_size", MaximumSize state);
     ("usn_journal_state.allocation_delta", AllocationDelta state)]%string.

(** [sort.StringsAreSorted], and no two neighbours equal. *)
Fixpoint StringsAreSorted (names : list bytes) : bool :=
  match names with
  | a :: (b :: _) as rest => negb (bytes_ltb b a) && StringsAreSorted rest
  | _ => true
  end.
Fixpoint hasDuplicate (names : list bytes) : bool :=
  match names with
  | a :: (b :: _) as rest => bool_decide (b = a) || hasDuplicate rest
  | _ => false
  end.

Definition ValidateUSNChangeObservation (record : USNChangeObservation) : res unit :=
  fail? negb (bool_decide (MajorVersion record = bs "2")) with invalid "UnsupportedValue" "usn_change.major_version" ;;
  check? validateDecimal (MinorVersion record) "usn_change.minor_version" ;;
  check? ValidateNTFSObjectIdentity (FileIdentity record) ;;
  check? ValidateNTFSObjectIdentity (ParentIdentity record) ;;
  check? validateDecimals
    [("usn_change.usn", USN record); ("usn_change.reason_raw", ReasonRaw record);
     ("usn_change.source_info_raw", SourceInfoRaw record); ("usn_change.security_id", SecurityID record);
     ("usn_change.file_attributes_raw", FileAttributesRaw record)]%string ;;
  check? ValidateObservedAt (Timestamp record) ;;
  check? validateUTF16LEBase64URL (FileNameUTF16LEBase64URL record) "usn_change.file_name_utf16le_base64url" ;;
  fail? negb (StringsAreSorted (ReasonNames record)) with invalid "UnsortedCollection" "usn_change.reason_names" ;;
  fail? hasDuplicate (ReasonNames record) with invalid "DuplicateValue" "usn_change.reason_names" ;;
  Ok tt.

(** The loop over the records: [previousUSN] is the number of the record before. *)
Fixpoint validateChanges (previousUSN : option Z) (changes : list USNChangeObservation) : res unit :=
  match changes with
  | [] => Ok tt
  | record :: changes =>
      check? ValidateUSNChangeObservation record ;;
      let? currentUSN := match canonicalUnsigned (USN record) with
                         | Err _ => Err (invalid "InvalidDecimal" "usn_read_batch.records[%d].usn")
                         | r => r
                         end in
      fail? match previousUSN with Some previous => currentUSN <? previous | None => false end
        with invalid "UnsortedCollection" "usn_read_batch.records" ;;
      validateChanges (Some currentUSN) changes
  end.

Definition ValidateUSNReadBatch (batch : USNReadBatch) : res unit :=
  check? require (BatchObservedAt batch) "usn_read_batch.observed_at" ;;
  check? ValidateObservedAt (BatchObservedAt batch) ;;
  check? require (BatchCollectionMethod batch) "usn_read_batch.collection_method" ;;
  check? require (BatchScopeID batch) "usn_read_batch.scope_id" ;;
  check? ValidateVolumeIdentity (BatchVolumeIdentity batch) ;;
  check? validateDecimals
    [("usn_read_batch.journal_id", BatchJournalID batch); ("usn_read_batch.start_usn", StartUSN batch);
     ("usn_read_batch.next_usn", BatchNextUSN batch)]%string ;;
  validateChanges None (Records batch).

(** A break in the journal's continuity. The six numbers are checked in the order of a Go
    map, which is not specified: only the field an error names depends on it. *)
Record USNContinuityGapObservation := {
  GapObservedAt : bytes; GapCollectionMethod : bytes; GapScopeID : bytes; GapGovernedRoot : bytes;
  GapReasonCode : bytes; CheckpointJournalID : bytes; CheckpointNextUSN : bytes; CurrentJournalID : bytes;
  CurrentFirstUSN : bytes; CurrentLowestValidUSN : bytes; CurrentNextUSN : bytes;
  CoverageState : bytes; ReconciliationAction : bytes
}.
Definition USNContinuityGapCoverageIncomplete : bytes := bs "Incomplete".
Definition USNContinuityGapReconcileBaselineAndCatchUp : bytes := bs "CurrentStateBaselineAndUSNCatchUp".
Definition WindowsUSNCollectionMethod : bytes := bs "WindowsNTFSUSNJournalV0".

Definition ValidateUSNContinuityGapObservation (value : USNContinuityGapObservation) : res unit :=
  check? ValidateObservedAt (GapObservedAt value) ;;
  fail? negb (bool_decide (GapCollectionMethod value = WindowsUSNCollectionMethod)) ||
        bool_decide (GapScopeID value = []) || bool_decide (GapGovernedRoot value = []) ||
        bool_decide (GapReasonCode value = []) ||
        negb (bool_decide (CoverageState value = USNContinuityGapCoverageIncomplete)) ||
        negb (bool_decide (ReconciliationAction value = USNContinuityGapReconcileBaselineAndCatchUp))
    with Errorf "invalid USN continuity gap observation" ;;
  validateDecimals
    [("usn_continuity_gap.checkpoint_journal_id", CheckpointJournalID value);
     ("usn_continuity_gap.checkpoint_next_usn", CheckpointNextUSN value);
     ("usn_continuity_gap.current_journal_id", CurrentJournalID value);
     ("usn_continuity_gap.current_first_usn", CurrentFirstUSN value);
     ("usn_continuity_gap.current_lowest_valid_usn", CurrentLowestValidUSN value);
     ("usn_continuity_gap.current_next_usn", CurrentNextUSN value)]%string.

(** ** Operations *)

Record OperationRecord := {
  OperationID : bytes; OperationScopeID : bytes; OperationKind : bytes;
  StartedAt : bytes; FinishedAt : bytes; Outcome : bytes; ReasonCode : bytes
}.
#[global] Instance OperationRecord_eq_decision : EqDecision OperationRecord.
Proof. solve_decision. Defined.

Definition operationKinds : list bytes :=
  [bs "ActivityRead"; bs "Baseline"; bs "ProtectedRead"; bs "Reconciliation"; bs "ReObservation";
   bs "SupportingSourceRefresh"; bs "USNCatchUp"; bs "USNRead"; bs "WindowsSecurityCatchUp"].
Definition validOperationKind (value : bytes) : bool := bool_decide (value ∈ operationKinds).

Definition OperationComplete : bytes := bs "Complete".
Definition OperationFailed : bytes := bs "Failed".
Definition OperationInterrupted : bytes := bs "Interrupted".
Definition OperationPartial : bytes := bs "Partial".
Definition validOperationOutcome (value : bytes) : bool :=
  bool_decide (value ∈ [OperationComplete; OperationFailed; OperationInterrupted; OperationPartial]).

Definition validOperationID (value : bytes) : bool :=
  (len value =? 35) && HasPrefix value (bs "op-") && forallb lower_hex (drop 3 value).

Definition parseOperationTimestamp (value : bytes) : res Time :=
  fail? negb (len value =? 30) with Errorf "invalid timestamp" ;;
  match Parse_nano value with
  | Ok (parsed, _) =>
      fail? negb (bool_decide (Format_nano parsed = value)) with Errorf "invalid timestamp" ;; Ok parsed
  | Err _ => Err (Errorf "invalid timestamp")
  | Panic => Panic
  end.

Definition ValidateOperationRecord (value : OperationRecord) : res unit :=
  fail? negb (validOperationID (OperationID value)) with Errorf "InvalidOperationID: operation_id" ;;
  fail? bool_decide (TrimSpace (OperationScopeID value) = []) with Errorf "Required: scope_id" ;;
  fail? negb (validOperationKind (OperationKind value)) with Errorf "UnsupportedValue: kind" ;;
  let? started := match parseOperationTimestamp (StartedAt value) with
                  | Err _ => Err (Errorf "InvalidTimestamp: started_at") | r => r end in
  let? finished := match parseOperationTimestamp (FinishedAt value) with
                   | Err _ => Err (Errorf "InvalidTimestamp: finished_at") | r => r end in
  fail? time_Before finished started with Errorf "InvalidRange: finished_at" ;;
  fail? negb (validOperationOutcome (Outcome value)) with Errorf "UnsupportedValue: outcome" ;;
  if bool_decide (Outcome value = OperationComplete) then Ok tt else
  fail? bool_decide (TrimSpace (ReasonCode value) = []) with Errorf "Required: reason_code" ;;
  Ok tt.

(** ** What the checks mean *)

(** The decimals are exactly the printed unsigned 64-bit numbers. *)
Lemma canonicalUnsigned_spec v n : canonicalUnsigned v = Ok n <-> is_u64 n /\ v = FormatUint n.
Proof.
  unfold canonicalUnsigned. case_bool_decide as E0.
  { subst v. split.
    - intros [= <-]. split; [unfold is_u64; lia|reflexivity].
    - intros [Hn En]. destruct (FormatUint_digits n Hn) as (_ & <- & _). by rewrite <- En. }
  destruct v as [|c digits].
  { split; [done|]. intros [Hn En]. by destruct (FormatUint_digits n Hn) as (_ & _ & []). }
  split.
  - intros H. res_inv H. bool_hyps. apply ParseUint_spec in H as (_ & Ha & Hn & Hlt); [|lia]. subst n.
    rewrite FormatUint_unique by done. split; [|done]. split; [|done]. by apply decimal_ge.
  - intros [Hn En]. destruct (FormatUint_first n Hn) as [->|(c' & s & Ef & Hc)]; [by rewrite En in E0|].
    rewrite Ef in En. injection En as -> ->. rewrite Hc.
    destruct (FormatUint_digits n Hn) as (Ha & _ & _). rewrite Ef in Ha. cbn in Ha. apply andb_prop in Ha as [_ Ha].
    unfold all_digits. rewrite Ha. cbn [negb]. rewrite <- Ef. apply ParseUint_FormatUint; [lia|exact Hn].
Qed.

Lemma canonicalUnsigned_FormatUint n : is_u64 n -> canonicalUnsigned (FormatUint n) = Ok n.
Proof. intros. by apply canonicalUnsigned_spec. Qed.

Lemma canonicalUnsigned_no_panic v : no_panic (canonicalUnsigned v).
Proof.
  unfold canonicalUnsigned, ParseUint. assert (forall m n s, no_panic (parseDigits m n s)) as Hp.
  { intros m n s. revert n. induction s as [|c s IH]; intros n; cbn [parseDigits]; no_panic. }
  no_panic.
Qed.

Lemma validateDecimal_FormatUint n field : is_u64 n -> validateDecimal (FormatUint n) field = Ok tt.
Proof. intros. unfold validateDecimal. by rewrite canonicalUnsigned_FormatUint. Qed.

Lemma validateDecimalMax_FormatUint n m field : 0 <= n <= m -> m <= max_u64 -> validateDecimalMax (FormatUint n) m field = Ok tt.
Proof.
  intros. unfold validateDecimalMax. rewrite canonicalUnsigned_FormatUint by (unfold is_u64, max_u64 in *; lia).
  by rewrite (proj2 (Z.ltb_ge _ _)) by lia.
Qed.

(** The encoded texts are exactly the encodings. *)
Lemma encoded_no_special d : ContainsAny (b64_encode d) notBase64URL = false.
Proof.
  unfold ContainsAny. pose proof (b64_encode_alphabet d) as Ha.
  induction (b64_encode d) as [|c t IH]; [done|]. cbn [existsb forallb] in *. apply andb_prop in Ha as [Hc Ha]. rewrite IH by done.
  rewrite orb_false_r. apply bool_decide_eq_false_2. intros Hin.
  repeat (apply elem_of_cons in Hin as [->|Hin]; [vm_compute in Hc; discriminate Hc|]). by apply elem_of_nil in Hin.
Qed.

Lemma decodeBase64URL_spec v field d : decodeBase64URL v field = Ok d <-> v = b64_encode d.
Proof.
  unfold decodeBase64URL. split.
  - intros H. res_inv H. destruct (b64_decode true v) as [d'| |]; [|done..]. res_inv H. by bool_hyps.
  - intros ->. rewrite encoded_no_special, b64_decode_encode. by rewrite bool_decide_eq_true_2.
Qed.

Lemma units_of_bytes_of units : Forall is_u16 units -> units_of (bytes_of units) = units.
Proof.
  induction 1 as [|u units Hu _ IH]; [done|]. unfold bytes_of. cbn [map concat].
  pose proof (len_PutUint16LE u) as Hl. pose proof (le_get_PutUint16 u Hu) as Hg.
  destruct (PutUint16LE u) as [|a [|b [|? ?]]]; try (by cbn in Hl; unfold len in Hl; cbn in Hl; lia).
  cbn [app units_of]. rewrite Hg. f_equal. exact IH.
Qed.

Lemma bytes_of_units_of raw : len raw mod 2 = 0 -> bytes_of (units_of raw) = raw.
Proof.
  induction raw as [| |a b raw IH] using list_pair_ind; [done|done|]. intros Hm. cbn [units_of]. unfold bytes_of. cbn [map concat].
  rewrite PutUint16LE_get by done. cbn [app]. do 2 f_equal. apply IH. rewrite !len_cons in Hm.
  replace (1 + (1 + len raw)) with (len raw + 1 * 2) in Hm by lia. by rewrite Z_mod_plus_full in Hm.
Qed.

Lemma units_of_u16 raw : Forall is_u16 (units_of raw).
Proof. induction raw as [| |a b raw IH] using list_pair_ind; cbn [units_of]; constructor; [by apply le_get_u16|done]. Qed.

Lemma decodeUTF16_spec v field units :
  decodeUTF16LEBase64URLUnits v field = Ok units <-> Forall is_u16 units /\ v = encodeUTF16LEBase64URL units.
Proof.
  unfold decodeUTF16LEBase64URLUnits, encodeUTF16LEBase64URL. split.
  - intros H. res_inv H. bool_hyps. apply decodeBase64URL_spec in E as ->. split; [apply units_of_u16|].
    rewrite bytes_of_units_of; [done|lia].
  - intros [Hu ->]. rewrite (proj2 (decodeBase64URL_spec _ _ _)) by done. cbn [res_bind].
    assert (len (bytes_of units) mod 2 = 0) as Hl.
    { unfold bytes_of. clear Hu. induction units as [|u units IH]; [done|]. cbn [map concat]. rewrite len_app, len_PutUint16LE.
      rewrite <- Zplus_mod_idemp_r, IH. reflexivity. }
    rewrite Hl. cbn [negb Z.eqb]. by rewrite units_of_bytes_of.
Qed.

(** The timestamps are exactly the printed times. *)
Lemma validateTimestamp_spec v field : validateTimestamp v field = Ok tt <-> exists t, valid_time t /\ v = Format_nano t.
Proof.
  unfold validateTimestamp. split.
  - intros H. res_inv H. destruct (Parse_nano v) as [[t z]| |] eqn:Ep; [|done..]. res_inv H. bool_hyps.
    exists t. split; [by eapply Parse_nano_valid|done].
  - intros (t & Ht & ->). rewrite len_Format_nano by done. cbn [Z.eqb negb]. rewrite Parse_Format_nano by done.
    by rewrite bool_decide_eq_true_2.
Qed.

Lemma Format_nano_inj t u : valid_time t -> valid_time u -> Format_nano t = Format_nano u -> t = u.
Proof.
  intros Ht Hu E. pose proof (Parse_Format_nano t Ht) as Pt. rewrite E, Parse_Format_nano in Pt by done. congruence.
Qed.

(** A strictly sorted list passes the two checks of the validators. *)
Lemma strictly_sorted_checks names :
  strictly_sorted names -> StringsAreSorted names = true /\ hasDuplicate names = false.
Proof.
  induction 1 as [|a [|b names] Hs [IH1 IH2] Ha]; [done|done|].
  apply List.Forall_inv in Ha. cbn [StringsAreSorted hasDuplicate] in *. rewrite IH1, IH2.
  apply bytes_ltb_leb in Ha as [Hle Hne]. unfold bytes_leb in Hle. rewrite Hle. split; [done|].
  rewrite bool_decide_eq_false_2 by congruence. done.
Qed.

(** *** No validator panics *)

Lemma volume_path_room v :
  HasPrefix v volumePrefix = true -> HasSuffix v volumeSuffix = true -> len volumePrefix <= len v - 2.
Proof.
  intros [a ->]%HasPrefix_spec [b E]%HasSuffix_spec. rewrite len_app.
  destruct a as [|x [|y a]]; [| |rewrite !len_cons; pose proof (len_nonneg a); lia]; exfalso;
    apply (f_equal reverse) in E; rewrite !reverse_app in E; cbn in E; discriminate E.
Qed.

Lemma validateVolumeGUIDPath_no_panic v field : no_panic (validateVolumeGUIDPath v field).
Proof.
  unfold validateVolumeGUIDPath. destruct (_ || _) eqn:E; [done|]. bool_hyps.
  rewrite slice_Ok; [no_panic|apply len_nonneg|by apply volume_path_room|lia].
Qed.

Lemma b64_groups_no_panic strict s : no_panic (b64_groups strict s).
Proof.
  revert s. fix IH 1. intros [|a [|b [|c [|d s]]]]; cbn [b64_groups]; [done|done|no_panic|no_panic|].
  repeat case_match; try done. apply no_panic_bind; [apply IH|done].
Qed.

Lemma decodeBase64URL_no_panic v field : no_panic (decodeBase64URL v field).
Proof.
  unfold decodeBase64URL, b64_decode. apply no_panic_if; [done|]. apply no_panic_cases; [apply b64_groups_no_panic|intros; no_panic|done].
Qed.

#[local] Hint Resolve canonicalUnsigned_no_panic validateVolumeGUIDPath_no_panic decodeBase64URL_no_panic : nopanic.

Lemma require_no_panic v field : no_panic (require v field).
Proof. unfold require. no_panic. Qed.
Lemma validateDecimal_no_panic v field : no_panic (validateDecimal v field).
Proof. unfold validateDecimal. apply no_panic_cases; intros; no_panic. Qed.
Lemma validateDecimalMax_no_panic v m field : no_panic (validateDecimalMax v m field).
Proof. unfold validateDecimalMax. apply no_panic_cases; intros; no_panic. Qed.
Lemma validateDecimals_no_panic items : no_panic (validateDecimals items).
Proof. induction items as [|[field v] items IH]; cbn [validateDecimals]; [done|]. pose proof validateDecimal_no_panic. no_panic. Qed.
Lemma validateUTF16_no_panic v field : no_panic (validateUTF16LEBase64URL v field).
Proof. unfold validateUTF16LEBase64URL, decodeUTF16LEBase64URLUnits. no_panic. Qed.

Lemma time_Parse_no_panic fraction zone_of v :
  (forall s, no_panic (fraction s)) -> (forall s, no_panic (zone_of s)) -> no_panic (time_Parse fraction zone_of v).
Proof.
  intros Hf Hz. assert (forall s, no_panic (atoi s)) by (intros s; unfold atoi; no_panic).
  assert (forall p s, no_panic (skip p s)) by (intros p s; unfold skip; no_panic).
  assert (forall f s, no_panic (getnum f s)) by (intros f s; unfold getnum; no_panic).
  unfold time_Parse. repeat first [done|apply no_panic_if|apply no_panic_bind; [auto|intros ? _]|
    match goal with p : (_ * _)%type |- _ => destruct p end].
Qed.
Lemma Parse_nano_no_panic v : no_panic (Parse_nano v).
Proof.
  apply time_Parse_no_panic; intros s.
  - unfold fraction_nano, parseNanoseconds, atoi. no_panic.
  - unfold zone_literal, skip. no_panic.
Qed.
Lemma validateTimestamp_no_panic v field : no_panic (validateTimestamp v field).
Proof. unfold validateTimestamp. apply no_panic_if; [done|]. apply no_panic_cases; [apply Parse_nano_no_panic|intros []; no_panic|done]. Qed.

#[local] Hint Resolve require_no_panic validateDecimal_no_panic validateDecimalMax_no_panic validateDecimals_no_panic
  validateUTF16_no_panic validateTimestamp_no_panic : nopanic.

Lemma ValidateVolumeIdentity_no_panic v : no_panic (ValidateVolumeIdentity v).
Proof. unfold ValidateVolumeIdentity. no_panic. Qed.
Lemma ValidateNTFSObjectIdentity_no_panic v : no_panic (ValidateNTFSObjectIdentity v).
Proof. unfold ValidateNTFSObjectIdentity. no_panic. Qed.
Lemma ValidateGovernedRootIdentity_no_panic v : no_panic (ValidateGovernedRootIdentity v).
Proof. pose proof ValidateVolumeIdentity_no_panic. pose proof ValidateNTFSObjectIdentity_no_panic. unfold ValidateGovernedRootIdentity. no_panic. Qed.
Lemma ValidateUSNJournalState_no_panic v : no_panic (ValidateUSNJournalState v).
Proof. pose proof ValidateVolumeIdentity_no_panic. unfold ValidateUSNJournalState, ValidateObservedAt. no_panic. Qed.
Lemma ValidateUSNChangeObservation_no_panic v : no_panic (ValidateUSNChangeObservation v).
Proof. pose proof ValidateNTFSObjectIdentity_no_panic. unfold ValidateUSNChangeObservation, ValidateObservedAt. no_panic. Qed.

(** Stream names of index allocations, and names without a type, give identities that the
    validator refuses. *)
Example stream_identity_refused :
  let refused name := match ValidateStreamIdentity (StreamIdentityFromRawUTF16 name) with Ok _ => false | _ => true end in
  refused [58; 58; 36; 73; 78; 68; 69; 88; 95; 65; 76; 76; 79; 67; 65; 84; 73; 79; 78] = true /\
  refused [58; 102; 111; 111; 58] = true /\ refused [58; 58; 36; 68; 65; 84; 65] = false.
Proof. vm_compute. auto. Qed.

End records.
