(* ===== verification/Brokers.v ===== *)
(** * The privileged broker protocols

    Models [go/internal/windows/usnbroker/protocol.go] and
    [go/internal/windows/objbroker/protocol.go]: the framed requests and responses the
    collector exchanges with its two privileged helpers over a named pipe, byte exact. *)

From S2P Require Import Prelude GoBytes GoStrings GoText GoIO.

(** ** Reading blocks *)

(** An optional block: nothing is read when its length is zero. *)
Definition readBlock (n : Z) : prog reader bytes := if n =? 0 then ret [] else ReadFull n.

Lemma read_bytes {B} n (k : bytes -> prog reader B) d rest e :
  len d = n -> bind (ReadFull n) k (Reader (d ++ rest) e) = k d (Reader rest e).
Proof. intros Hl. unfold bind. by rewrite ReadFull_app. Qed.

Lemma read_bytes_Ok {B} n (k : bytes -> prog reader B) r b r' :
  bind (ReadFull n) k r = (Ok b, r') -> 0 <= n ->
  exists d r1, len d = n /\ rd_data r = d ++ rd_data r1 /\ rd_end r1 = rd_end r /\ k d r1 = (Ok b, r').
Proof.
  intros (d & r1 & Hd & Hk)%bind_Ok Hn. apply ReadFull_Ok in Hd as (H1 & H2 & H3). exists d, r1. auto.
Qed.

Lemma readBlock_app {B} n (k : bytes -> prog reader B) d rest e :
  len d = n -> bind (readBlock n) k (Reader (d ++ rest) e) = k d (Reader rest e).
Proof.
  intros <-. unfold readBlock. destruct (Z.eqb_spec (len d) 0) as [Hz|]; [|by apply read_bytes].
  by apply len_zero_nil in Hz as ->.
Qed.

Lemma readBlock_Ok n r d r' : readBlock n r = (Ok d, r') -> 0 <= n ->
  len d = n /\ rd_data r = d ++ rd_data r' /\ rd_end r' = rd_end r.
Proof.
  unfold readBlock. destruct (Z.eqb_spec n 0) as [->|]; [by intros [= <- <-]|]. intros Hr Hn.
  apply ReadFull_Ok in Hr as (? & ? & ?). auto.
Qed.

Lemma u64_is_u64 z : is_u64 (u64 z).
Proof. unfold is_u64, u64. apply Z.mod_pos_bound. lia. Qed.

Module usnbroker.

Definition ProtocolVersion : Z := 1.
Definition MaxUSNDataBytes : Z := 1024 * 1024.
Definition MaxSACLDescriptorBytes : Z := 128 * 1024.

Definition operationQuery : Z := 1.
Definition operationRead : Z := 2.
Definition operationContainment : Z := 3.
Definition operationSACL : Z := 4.
Definition operationAuditPolicy : Z := 5.

Definition requestHeaderSize : Z := 24.
Definition responseHeaderSize : Z := 76.
Definition maxRootBytes : Z := 32 * 1024.
Definition maxErrorBytes : Z := 4 * 1024.

Definition requestMagic : bytes := bs "FIUQ".
Definition responseMagic : bytes := bs "FIUR".

Record Journal := {
  JournalID : Z; FirstUSN : Z; NextUSN : Z; LowestValidUSN : Z; MaxUSN : Z; MaximumSize : Z; AllocationDelta : Z
}.
Record request := {
  Operation : Z; GovernedRoot : bytes; StartUSN : Z; FileReferenceNumber : Z; SequenceNumber : Z
}.
Record response := { ResponseJournal : Journal; Data : bytes; ErrorCode : Z; Error : bytes }.

Definition request_of (operation : Z) (start reference sequence : Z) (root : bytes) : request := {|
  Operation := operation; GovernedRoot := root; StartUSN := start; FileReferenceNumber := reference;
  SequenceNumber := sequence |}.

(** The switch of [readRequest] on the operation: the three numbers of the request. *)
Definition requestFields (operation rootLength payload auxiliary : Z) : res (Z * Z * Z) :=
  if operation =? operationQuery then
    fail? negb (payload =? 0) || negb (auxiliary =? 0)
      with Errorf "FI USN query request contains unexpected fields" ;;
    Ok (0, 0, 0)
  else if operation =? operationRead then
    fail? i64 payload <? 0 with Errorf "FI USN start USN must not be negative" ;;
    fail? negb (auxiliary =? 0) with Errorf "FI USN read request reserved field is not zero" ;;
    Ok (i64 payload, 0, 0)
  else if operation =? operationAuditPolicy then
    fail? negb (rootLength =? 0) || negb (payload =? 0) || negb (auxiliary =? 0)
      with Errorf "FI audit-policy request must contain no root or parameters" ;;
    Ok (0, 0, 0)
  else if (operation =? operationContainment) || (operation =? operationSACL) then
    fail? 2 ^ 48 <=? payload with Errorf "FI privileged object request file reference exceeds 48 bits" ;;
    fail? negb (Z.shiftr auxiliary 16 =? 0) with Errorf "FI privileged object request reserved field is not zero" ;;
    Ok (0, payload, u16 auxiliary)
  else Err (Errorf "unsupported FI USN operation").

Definition readRequest : prog reader request :=
  let! header := ReadFull requestHeaderSize in
  fail! negb (bool_decide (sub 0 4 header = requestMagic)) with Errorf "invalid FI USN request magic" ;;
  fail! negb (le_get (sub 4 6 header) =? ProtocolVersion) with Errorf "unsupported FI USN protocol version" ;;
  let operation := le_get (sub 6 8 header) in
  let rootLength := le_get (sub 8 12 header) in
  let payload := le_get (sub 12 20 header) in
  let auxiliary := le_get (sub 20 24 header) in
  fail! (maxRootBytes <? rootLength) || ((rootLength =? 0) && negb (operation =? operationAuditPolicy))
    with Errorf "invalid FI USN governed-root length" ;;
  let! (start, reference, sequence) := lift (requestFields operation rootLength payload auxiliary) in
  let! rootBytes := ReadFull rootLength in
  fail! negb (utf8_ValidString rootBytes) with Errorf "FI USN governed root is not valid UTF-8" ;;
  ret (request_of operation start reference sequence rootBytes).

(** The switch of [writeRequest]: the two numbers on the wire. *)
Definition requestNumbers (value : request) : res (Z * Z) :=
  if Operation value =? operationQuery then
    fail? negb (StartUSN value =? 0) || negb (FileReferenceNumber value =? 0) || negb (SequenceNumber value =? 0)
      with Errorf "FI USN query request contains unexpected fields" ;;
    Ok (0, 0)
  else if Operation value =? operationRead then
    fail? StartUSN value <? 0 with Errorf "FI USN start USN must not be negative" ;;
    fail? negb (FileReferenceNumber value =? 0) || negb (SequenceNumber value =? 0)
      with Errorf "FI USN read request contains unexpected containment fields" ;;
    Ok (u64 (StartUSN value), 0)
  else if Operation value =? operationAuditPolicy then
    fail? negb (bool_decide (GovernedRoot value = [])) || negb (StartUSN value =? 0) ||
          negb (FileReferenceNumber value =? 0) || negb (SequenceNumber value =? 0)
      with Errorf "FI audit-policy request must contain no root or parameters" ;;
    Ok (0, 0)
  else if (Operation value =? operationContainment) || (Operation value =? operationSACL) then
    fail? negb (StartUSN value =? 0) with Errorf "FI privileged object request has unexpected start USN" ;;
    fail? 2 ^ 48 <=? FileReferenceNumber value
      with Errorf "FI privileged object request file reference exceeds 48 bits" ;;
    Ok (FileReferenceNumber value, u32 (SequenceNumber value))
  else Err (Errorf "unsupported FI USN operation").

Definition encodeRequestHeader (value : request) (payload auxiliary : Z) : bytes :=
  let header := zeros requestHeaderSize in
  let header := put 0 4 requestMagic header in
  let header := put 4 6 (PutUint16LE ProtocolVersion) header in
  let header := put 6 8 (PutUint16LE (Operation value)) header in
  let header := put 8 12 (PutUint32LE (u32 (len (GovernedRoot value)))) header in
  let header := put 12 20 (PutUint64LE payload) header in
  put 20 24 (PutUint32LE auxiliary) header.

Definition writeRequest {W} `{Writer W} (value : request) : prog W unit :=
  let rootBytes := GovernedRoot value in
  fail! (maxRootBytes <? len rootBytes) ||
        ((len rootBytes =? 0) && negb (Operation value =? operationAuditPolicy)) ||
        negb (utf8_ValidString rootBytes)
    with Errorf "invalid FI USN governed root" ;;
  let! (payload, auxiliary) := lift (requestNumbers value) in
  check! writeAll (encodeRequestHeader value payload auxiliary) ;;
  writeAll rootBytes.

(** *** Responses *)

Definition journalAt (header : bytes) : Journal := {|
  JournalID := le_get (sub 12 20 header);
  FirstUSN := i64 (le_get (sub 20 28 header));
  NextUSN := i64 (le_get (sub 28 36 header));
  LowestValidUSN := i64 (le_get (sub 36 44 header));
  MaxUSN := i64 (le_get (sub 44 52 header));
  MaximumSize := le_get (sub 52 60 header);
  AllocationDelta := le_get (sub 60 68 header) |}.

Definition unspecified : bytes := bs "unspecified helper failure".

Definition readResponse : prog reader response :=
  let! header := ReadFull responseHeaderSize in
  fail! negb (bool_decide (sub 0 4 header = responseMagic)) with Errorf "invalid FI USN response magic" ;;
  fail! negb (le_get (sub 4 6 header) =? ProtocolVersion) with Errorf "unsupported FI USN protocol version" ;;
  let status := le_get (sub 6 8 header) in
  fail! 1 <? status with Errorf "invalid FI USN response status" ;;
  let dataLength := le_get (sub 68 72 header) in
  let errorLength := le_get (sub 72 76 header) in
  fail! MaxUSNDataBytes <? dataLength with Errorf "FI USN response exceeds data limit" ;;
  fail! maxErrorBytes <? errorLength with Errorf "FI USN response exceeds error limit" ;;
  fail! (status =? 0) && negb (errorLength =? 0) with Errorf "successful FI USN response contains an error" ;;
  fail! (status =? 1) && negb (dataLength =? 0) with Errorf "failed FI USN response contains data" ;;
  let! data := readBlock dataLength in
  let! errorBytes := readBlock errorLength in
  fail! negb (errorLength =? 0) && negb (utf8_ValidString errorBytes)
    with Errorf "FI USN response error is not valid UTF-8" ;;
  ret {| ResponseJournal := journalAt header; Data := data; ErrorCode := le_get (sub 8 12 header);
         Error := if (status =? 1) && bool_decide (errorBytes = []) then unspecified else errorBytes |}.

Definition encodeResponseHeader (value : response) : bytes :=
  let j := ResponseJournal value in
  let header := zeros responseHeaderSize in
  let header := put 0 4 responseMagic header in
  let header := put 4 6 (PutUint16LE ProtocolVersion) header in
  let header := put 6 8 (PutUint16LE (if bool_decide (Error value = []) then 0 else 1)) header in
  let header := put 8 12 (PutUint32LE (ErrorCode value)) header in
  let header := put 12 20 (PutUint64LE (JournalID j)) header in
  let header := put 20 28 (PutUint64LE (u64 (FirstUSN j))) header in
  let header := put 28 36 (PutUint64LE (u64 (NextUSN j))) header in
  let header := put 36 44 (PutUint64LE (u64 (LowestValidUSN j))) header in
  let header := put 44 52 (PutUint64LE (u64 (MaxUSN j))) header in
  let header := put 52 60 (PutUint64LE (MaximumSize j)) header in
  let header := put 60 68 (PutUint64LE (AllocationDelta j)) header in
  let header := put 68 72 (PutUint32LE (u32 (len (Data value)))) header in
  put 72 76 (PutUint32LE (u32 (len (Error value)))) header.

Definition writeResponse {W} `{Writer W} (value : response) : prog W unit :=
  fail! MaxUSNDataBytes <? len (Data value) with Errorf "FI USN response exceeds data limit" ;;
  fail! (maxErrorBytes <? len (Error value)) || negb (utf8_ValidString (Error value))
    with Errorf "invalid FI USN response error" ;;
  fail! negb (bool_decide (Error value = [])) && negb (len (Data value) =? 0)
    with Errorf "failed FI USN response must not contain data" ;;
  check! writeAll (encodeResponseHeader value) ;;
  check! writeAll (Data value) ;;
  writeAll (Error value).

(** *** Layouts *)

Lemma len_requestMagic : len requestMagic = 4. Proof. reflexivity. Qed.
Lemma len_responseMagic : len responseMagic = 4. Proof. reflexivity. Qed.
#[local] Hint Rewrite len_requestMagic len_responseMagic : lens.

Definition requestLayout (value : request) (payload auxiliary : Z) : bytes :=
  requestMagic ++ PutUint16LE ProtocolVersion ++ PutUint16LE (Operation value) ++
  PutUint32LE (u32 (len (GovernedRoot value))) ++ PutUint64LE payload ++ PutUint32LE auxiliary.

Lemma encodeRequestHeader_layout value payload auxiliary :
  encodeRequestHeader value payload auxiliary = requestLayout value payload auxiliary.
Proof. unfold encodeRequestHeader, requestHeaderSize. fill_header. unfold requestLayout. by rewrite <- ?app_assoc, ?app_nil_r. Qed.

Lemma requestLayout_fields value payload auxiliary : let f := requestLayout value payload auxiliary in
  len f = 24 /\ sub 0 4 f = requestMagic /\ sub 4 6 f = PutUint16LE ProtocolVersion /\
  sub 6 8 f = PutUint16LE (Operation value) /\ sub 8 12 f = PutUint32LE (u32 (len (GovernedRoot value))) /\
  sub 12 20 f = PutUint64LE payload /\ sub 20 24 f = PutUint32LE auxiliary.
Proof. cbv zeta. unfold requestLayout. split_and!; first [len_solve|field]. Qed.

(** The fields of a request have their widths. *)
Definition request_typed (value : request) : Prop :=
  is_u16 (Operation value) /\ is_i64 (StartUSN value) /\ is_u64 (FileReferenceNumber value) /\
  is_u16 (SequenceNumber value).

Lemma requestNumbers_fields value payload auxiliary :
  request_typed value -> requestNumbers value = Ok (payload, auxiliary) ->
  is_u64 payload /\ is_u32 auxiliary /\
  requestFields (Operation value) (len (GovernedRoot value)) payload auxiliary =
    Ok (StartUSN value, FileReferenceNumber value, SequenceNumber value).
Proof.
  intros (_ & Hs & Hf & Hq). unfold requestNumbers, requestFields. unfold is_u64, is_u32, is_i64, is_u16 in *.
  destruct (Operation value =? operationQuery); [|destruct (Operation value =? operationRead);
    [|destruct (Operation value =? operationAuditPolicy); [|destruct (_ || _); [|done]]]];
    intros H; res_inv H; bool_hyps; repeat match goal with E : (_ =? _) = true |- _ => apply Z.eqb_eq in E; rewrite E end.
  - done.
  - rewrite i64_u64, Heqb by done. split; [unfold u64; apply Z.mod_pos_bound; lia|done].
  - match goal with E : GovernedRoot value = [] |- _ => rewrite E end. done.
  - rewrite Heqb0, u32_small by (unfold is_u32; lia). apply Z.leb_gt in Heqb0.
    rewrite Z.shiftr_div_pow2, Z.div_small by lia. cbn [Z.eqb negb].
    rewrite u16_small by (unfold is_u16; lia). split; [lia|]. split; [lia|done].
Qed.

(** The guards of [writeRequest]. *)
Definition request_sendable (value : request) (payload auxiliary : Z) : Prop :=
  len (GovernedRoot value) <= maxRootBytes /\
  (len (GovernedRoot value) = 0 -> Operation value = operationAuditPolicy) /\
  utf8_ValidString (GovernedRoot value) = true /\ requestNumbers value = Ok (payload, auxiliary).

Lemma readRequest_layout value payload auxiliary rest e :
  request_typed value -> request_sendable value payload auxiliary ->
  readRequest (Reader (requestLayout value payload auxiliary ++ GovernedRoot value ++ rest) e) = (Ok value, Reader rest e).
Proof.
  intros Ht (Hl & Hz & Hu & Hn). destruct (requestNumbers_fields _ _ _ Ht Hn) as (Hp & Ha & Hf).
  destruct (requestLayout_fields value payload auxiliary) as (L & F1 & F2 & F3 & F4 & F5 & F6).
  unfold readRequest, requestHeaderSize. rewrite read_bytes by done. rewrite F1, F2, F3, F4, F5, F6.
  rewrite bool_decide_eq_true_2 by done. cbn [negb]. destruct Ht as (Ho & _).
  pose proof (len_nonneg (GovernedRoot value)). unfold maxRootBytes in *.
  rewrite u32_small by (unfold is_u32; lia). rewrite !le_get_PutUint16, !le_get_PutUint32, le_get_PutUint64
    by (unfold is_u32, is_u16, ProtocolVersion in *; lia || done). rewrite Z.eqb_refl. cbn [negb].
  rewrite (proj2 (Z.ltb_ge _ _)) by lia. cbn [orb].
  assert (((len (GovernedRoot value) =? 0) && negb (Operation value =? operationAuditPolicy)) = false) as ->.
  { destruct (Z.eqb_spec (len (GovernedRoot value)) 0); [|done]. rewrite Hz by done. reflexivity. }
  cbv beta iota. rewrite (bind_lift _ _ _ _ Hf). cbv beta iota. rewrite read_bytes by done. rewrite Hu. cbn [negb]. by destruct value.
Qed.

Lemma writeRequest_Ok {W} `{WriterLaws W} value (w w' : W) :
  writeRequest value w = (Ok tt, w') -> exists payload auxiliary,
    request_sendable value payload auxiliary /\
    written w' = written w ++ requestLayout value payload auxiliary ++ GovernedRoot value.
Proof.
  unfold writeRequest. cbv zeta. intros Hw. destruct (_ || _) eqn:Hg in Hw; [discriminate|].
  apply bind_lift_Ok in Hw as ([payload auxiliary] & Hn & Hw). exists payload, auxiliary. rewrite encodeRequestHeader_layout in Hw.
  split; [|eapply emits_Ok; [|exact Hw]; apply emits_seq; apply writeAll_emits].
  bool_hyps. split_and!; [lia| |done|done]. intros Hz.
  match goal with G : (_ && _) = false |- _ => apply andb_false_iff in G as [G|G]; [lia|]; bool_hyps; lia end.
Qed.

(** A request is read back as it was written, whatever follows it on the pipe. *)
Theorem writeRequest_readRequest {W} `{WriterLaws W} value (w w' : W) rest e :
  request_typed value -> writeRequest value w = (Ok tt, w') ->
  exists out, written w' = written w ++ out /\ readRequest (Reader (out ++ rest) e) = (Ok value, Reader rest e).
Proof.
  intros Ht (payload & auxiliary & Hs & Hw)%writeRequest_Ok. eexists. split; [exact Hw|].
  rewrite <- app_assoc. by apply readRequest_layout.
Qed.

(** What [requestFields] accepts is what [requestNumbers] produces. *)
Lemma requestFields_numbers operation root payload auxiliary start reference sequence :
  is_u64 payload -> is_u32 auxiliary ->
  requestFields operation (len root) payload auxiliary = Ok (start, reference, sequence) ->
  requestNumbers (request_of operation start reference sequence root) = Ok (payload, auxiliary) /\
  is_i64 start /\ is_u64 reference /\ is_u16 sequence.
Proof.
  intros Hp Ha. unfold requestNumbers, requestFields. cbn [Operation GovernedRoot StartUSN FileReferenceNumber SequenceNumber request_of].
  unfold is_u64, is_u32, is_u16 in *.
  destruct (operation =? operationQuery); [|destruct (operation =? operationRead);
    [|destruct (operation =? operationAuditPolicy); [|destruct (_ || _); [|done]]]];
    intros H; res_inv H; bool_hyps; repeat match goal with E : (_ =? _) = true |- _ => apply Z.eqb_eq in E end; subst.
  - cbn. split_and!; unfold is_i64; try lia. done.
  - rewrite Heqb. cbn [negb orb]. split_and!; try lia; [|apply i64_range].
    cbn. do 2 f_equal. apply Z.ltb_ge in Heqb. unfold i64, u64 in *.
    destruct (Z.lt_ge_cases payload (2 ^ 63)).
    + rewrite (Z.mod_small (payload + 2 ^ 63)) in Heqb |- * by lia. rewrite Z.mod_small; lia.
    + rewrite <- (Z_mod_plus_full (payload + 2 ^ 63) (-1)), Z.mod_small in Heqb by lia. lia.
  - match goal with E : len root = 0 |- _ => apply len_zero_nil in E as -> end. cbn. split_and!; unfold is_i64; try lia. done.
  - match goal with E : (2 ^ 48 <=? _) = false |- _ => rewrite E end. cbn [negb Z.eqb]. rewrite Z.shiftr_div_pow2 in * by lia.
    assert (auxiliary < 2 ^ 16) by (Z.div_mod_to_equations; lia).
    rewrite u16_small by (unfold is_u16; lia). rewrite u32_small by (unfold is_u32; lia). split_and!; unfold is_i64; try lia. done.
Qed.

(** The converse: the bytes [readRequest] consumed are the ones [writeRequest] writes for
    the request it returned, and nothing after them was consumed. *)
Theorem readRequest_canonical r value r' :
  readRequest r = (Ok value, r') -> exists payload auxiliary,
    request_typed value /\ request_sendable value payload auxiliary /\ rd_end r' = rd_end r /\
    rd_data r = requestLayout value payload auxiliary ++ GovernedRoot value ++ rd_data r'.
Proof.
  unfold readRequest, requestHeaderSize. intros Hr.
  apply read_bytes_Ok in Hr as (f & r1 & Hf & D1 & E1 & Hr); [|lia]. res_inv Hr. cbv zeta in Hr. res_inv Hr. bool_hyps.
  destruct v as [[start reference] sequence].
  assert (forall lo hi, 0 <= lo -> lo <= hi -> hi <= 24 -> len (sub lo hi f) = hi - lo) as Hlen by (intros; apply len_sub; lia).
  pose proof (le_get_u16 (sub 6 8 f) ltac:(by rewrite Hlen by lia)) as U1.
  pose proof (le_get_u32 (sub 8 12 f) ltac:(by rewrite Hlen by lia)) as U2.
  pose proof (le_get_u64 (sub 12 20 f) ltac:(by rewrite Hlen by lia)) as U3.
  pose proof (le_get_u32 (sub 20 24 f) ltac:(by rewrite Hlen by lia)) as U4.
  apply read_bytes_Ok in Hr as (root & r2 & Hroot & D2 & E2 & Hr); [|apply U2]. res_inv Hr. bool_hyps.
  rewrite <- Hroot in E, U2, H, H0. destruct (requestFields_numbers _ _ _ _ _ _ _ U3 U4 E) as (Hn & T1 & T2 & T3).
  exists (le_get (sub 12 20 f)), (le_get (sub 20 24 f)). split_and!; [done| |congruence|].
  - split_and!; [cbn; lia| |done|done]. cbn. intros Hz.
    match goal with G : (_ && _) = false |- _ => apply andb_false_iff in G as [G|G]; [lia|]; bool_hyps; lia end.
  - rewrite D1, D2. cbn [GovernedRoot request_of]. f_equal. unfold requestLayout. cbn [Operation GovernedRoot request_of].
    apply Z.eqb_eq in Heqb0. rewrite <- Heqb, <- Heqb0, u32_small, Hroot by done.
    rewrite !PutUint16LE_get, !PutUint32LE_get, PutUint64LE_get by (by rewrite Hlen by lia).
    rewrite <- (sub_whole 24 f) at 1 by done.
    by rewrite (sub_split 0 4 24), (sub_split 4 6 24), (sub_split 6 8 24), (sub_split 8 12 24), (sub_split 12 20 24) by lia.
Qed.

(** *** Responses *)

Definition responseLayout (value : response) : bytes :=
  let j := ResponseJournal value in
  responseMagic ++ PutUint16LE ProtocolVersion ++ PutUint16LE (if bool_decide (Error value = []) then 0 else 1) ++
  PutUint32LE (ErrorCode value) ++ PutUint64LE (JournalID j) ++ PutUint64LE (u64 (FirstUSN j)) ++
  PutUint64LE (u64 (NextUSN j)) ++ PutUint64LE (u64 (LowestValidUSN j)) ++ PutUint64LE (u64 (MaxUSN j)) ++
  PutUint64LE (MaximumSize j) ++ PutUint64LE (AllocationDelta j) ++ PutUint32LE (u32 (len (Data value))) ++
  PutUint32LE (u32 (len (Error value))).

Lemma encodeResponseHeader_layout value : encodeResponseHeader value = responseLayout value.
Proof. unfold encodeResponseHeader, responseHeaderSize. cbv zeta. fill_header. reflexivity. Qed.

Lemma responseLayout_fields value : let f := responseLayout value in let j := ResponseJournal value in
  len f = 76 /\ sub 0 4 f = responseMagic /\ sub 4 6 f = PutUint16LE ProtocolVersion /\
  sub 6 8 f = PutUint16LE (if bool_decide (Error value = []) then 0 else 1) /\
  sub 8 12 f = PutUint32LE (ErrorCode value) /\ sub 12 20 f = PutUint64LE (JournalID j) /\
  sub 20 28 f = PutUint64LE (u64 (FirstUSN j)) /\ sub 28 36 f = PutUint64LE (u64 (NextUSN j)) /\
  sub 36 44 f = PutUint64LE (u64 (LowestValidUSN j)) /\ sub 44 52 f = PutUint64LE (u64 (MaxUSN j)) /\
  sub 52 60 f = PutUint64LE (MaximumSize j) /\ sub 60 68 f = PutUint64LE (AllocationDelta j) /\
  sub 68 72 f = PutUint32LE (u32 (len (Data value))) /\ sub 72 76 f = PutUint32LE (u32 (len (Error value))).
Proof. cbv zeta. unfold responseLayout. cbv zeta. split_and!; first [len_solve|field]. Qed.

Definition response_typed (value : response) : Prop :=
  let j := ResponseJournal value in
  is_u32 (ErrorCode value) /\ is_u64 (JournalID j) /\ is_i64 (FirstUSN j) /\ is_i64 (NextUSN j) /\
  is_i64 (LowestValidUSN j) /\ is_i64 (MaxUSN j) /\ is_u64 (MaximumSize j) /\ is_u64 (AllocationDelta j).

(** The guards of [writeResponse]. *)
Definition response_sendable (value : response) : Prop :=
  len (Data value) <= MaxUSNDataBytes /\ len (Error value) <= maxErrorBytes /\
  utf8_ValidString (Error value) = true /\ (Error value <> [] -> Data value = []).

Lemma readResponse_layout value rest e :
  response_typed value -> response_sendable value ->
  readResponse (Reader (responseLayout value ++ Data value ++ Error value ++ rest) e) = (Ok value, Reader rest e).
Proof.
  intros (T1 & T2 & T3 & T4 & T5 & T6 & T7 & T8) (Hd & He & Hu & Hx).
  destruct (responseLayout_fields value) as (L & F1 & F2 & F3 & F4 & F5 & F6 & F7 & F8 & F9 & F10 & F11 & F12 & F13).
  pose proof (len_nonneg (Data value)). pose proof (len_nonneg (Error value)). unfold MaxUSNDataBytes, maxErrorBytes in *.
  unfold readResponse, responseHeaderSize, journalAt. rewrite read_bytes by done.
  rewrite F1, F2, F3, F4, F5, F6, F7, F8, F9, F10, F11, F12, F13.
  rewrite bool_decide_eq_true_2 by done. cbn [negb]. rewrite !(u32_small (len _)) by (unfold is_u32; lia).
  rewrite !le_get_PutUint16 by (unfold is_u16, ProtocolVersion; case_bool_decide; lia).
  rewrite !le_get_PutUint32 by (unfold is_u32 in *; lia). rewrite !le_get_PutUint64 by (first [done|apply u64_is_u64]).
  rewrite !i64_u64 by done. rewrite Z.eqb_refl. cbn [negb]. unfold MaxUSNDataBytes, maxErrorBytes.
  rewrite (proj2 (Z.ltb_ge (1024 * 1024) _)), (proj2 (Z.ltb_ge (4 * 1024) _)) by lia.
  case_bool_decide as Ee.
  - rewrite Ee. change (len (@nil byte)) with 0. cbn [Z.ltb Z.compare Z.eqb negb andb]. rewrite readBlock_app by done.
    cbn. destruct value as [[] ? ? ?]. cbn in *. by rewrite Ee.
  - rewrite (Hx Ee). change (len (@nil byte)) with 0. change (1 <? 1) with false. change (1 =? 0) with false. change (1 =? 1) with true.
    cbn [andb negb Z.eqb].
    rewrite (readBlock_app 0 _ [] (Error value ++ rest)) by done. rewrite readBlock_app by done.
    rewrite Hu, andb_false_r. rewrite bool_decide_eq_false_2 by done. destruct value as [[] ? ? ?]. cbn in *. by rewrite (Hx Ee).
Qed.

Lemma writeResponse_Ok {W} `{WriterLaws W} value (w w' : W) :
  writeResponse value w = (Ok tt, w') ->
  response_sendable value /\ written w' = written w ++ responseLayout value ++ Data value ++ Error value.
Proof.
  unfold writeResponse. rewrite encodeResponseHeader_layout. intros Hw.
  destruct (_ <? _) eqn:G1 in Hw; [discriminate|]. destruct (_ || _) eqn:G2 in Hw; [discriminate|].
  destruct (_ && _) eqn:G3 in Hw; [discriminate|]. bool_hyps. split.
  - split_and!; [lia|lia|done|]. intros Hne. apply andb_false_iff in G3 as [G|G]; bool_hyps; [done|].
    apply len_zero_nil. lia.
  - eapply emits_Ok; [|exact Hw]. repeat (apply emits_seq; [apply writeAll_emits|]). apply writeAll_emits.
Qed.

(** [C29] A response is read back as it was written, an error with its text and no data. *)
Theorem writeResponse_readResponse {W} `{WriterLaws W} value (w w' : W) rest e :
  response_typed value -> writeResponse value w = (Ok tt, w') ->
  exists out, written w' = written w ++ out /\ readResponse (Reader (out ++ rest) e) = (Ok value, Reader rest e).
Proof.
  intros Ht (Hs & Hw)%writeResponse_Ok. eexists. split; [exact Hw|].
  rewrite <- !app_assoc. by apply readResponse_layout.
Qed.

(** A helper cannot make the collector read or keep more than the protocol allows: what
    [readResponse] returns is within the two limits, an error carries no data, and the
    bytes it consumed are the header and the two blocks. *)
Theorem readResponse_bounded r value r' :
  readResponse r = (Ok value, r') ->
  len (Data value) <= MaxUSNDataBytes /\ len (Error value) <= maxErrorBytes /\
  (Error value <> [] -> Data value = []) /\ response_typed value /\
  exists header, len header = responseHeaderSize /\ rd_end r' = rd_end r /\
    (rd_data r = header ++ Data value ++ Error value ++ rd_data r' \/
     (Error value = unspecified /\ rd_data r = header ++ rd_data r')).
Proof.
  unfold readResponse, responseHeaderSize. intros Hr.
  apply read_bytes_Ok in Hr as (f & r1 & Hf & D1 & E1 & Hr); [|lia]. cbv zeta in Hr. res_inv Hr. bool_hyps.
  assert (forall lo hi, 0 <= lo -> lo <= hi -> hi <= 76 -> len (sub lo hi f) = hi - lo) as Hlen by (intros; apply len_sub; lia).
  pose proof (le_get_u16 (sub 6 8 f) ltac:(by rewrite Hlen by lia)) as U1.
  pose proof (le_get_u32 (sub 68 72 f) ltac:(by rewrite Hlen by lia)) as U2.
  pose proof (le_get_u32 (sub 72 76 f) ltac:(by rewrite Hlen by lia)) as U3.
  apply readBlock_Ok in E as (Ld & D2 & E2); [|apply U2]. apply readBlock_Ok in E0 as (Le & D3 & E3); [|apply U3].
  cbn [Data Error ErrorCode ResponseJournal]. unfold is_u16, is_u32, MaxUSNDataBytes, maxErrorBytes in *. bool_hyps.
  assert ((le_get (sub 6 8 f) =? 1) = true -> v = []) as Hdata.
  { intros Hs. rewrite Hs in Heqb5. apply len_zero_nil. cbn [andb] in Heqb5. bool_hyps. lia. }
  assert (v0 <> [] -> (le_get (sub 6 8 f) =? 1) = true) as Herr.
  { intros Hv. destruct (Z.eqb_spec (le_get (sub 6 8 f)) 1); [done|]. exfalso. apply Hv, len_zero_nil.
    rewrite (proj2 (Z.eqb_eq (le_get (sub 6 8 f)) 0)) in Heqb4 by lia. cbn [andb] in Heqb4. bool_hyps. lia. }
  split; [lia|]. set (silent := (le_get (sub 6 8 f) =? 1) && bool_decide (v0 = [])).
  split; [destruct silent; [vm_compute; discriminate|lia]|]. split.
  { unfold silent. destruct (le_get (sub 6 8 f) =? 1) eqn:Es; [by auto|]. cbn [andb]. intros Hv. discriminate (Herr Hv). }
  split; [unfold response_typed, journalAt; cbn; split_and!; first [apply i64_range|apply le_get_u64; by rewrite Hlen by lia|apply le_get_u32; by rewrite Hlen by lia]|].
  exists f. split; [done|]. split; [congruence|]. destruct silent eqn:Eb.
  - right. split; [done|]. apply andb_prop in Eb as [Hs Hv]. apply bool_decide_eq_true_1 in Hv as ->.
    rewrite D1, D2, D3, (Hdata Hs). done.
  - left. by rewrite D1, D2, D3.
Qed.

(** *** A request and a response *)

Definition demoRequest : request :=
  {| Operation := operationRead; GovernedRoot := bs "C:\data"; StartUSN := 4096; FileReferenceNumber := 0; SequenceNumber := 0 |}.
Definition demoResponse : response := {|
  ResponseJournal := {| JournalID := 9; FirstUSN := 0; NextUSN := 4168; LowestValidUSN := 0; MaxUSN := 2 ^ 62;
                        MaximumSize := 1; AllocationDelta := 1 |};
  Data := bs "data"; ErrorCode := 0; Error := [] |}.

Lemma writeRequest_readRequest_witness :
  exists out, written (writeRequest demoRequest ([] : bytes)).2 = written ([] : bytes) ++ out /\
    readRequest (Reader (out ++ bs "next") EOF) = (Ok demoRequest, Reader (bs "next") EOF).
Proof.
  apply (writeRequest_readRequest demoRequest ([] : bytes) (writeRequest demoRequest ([] : bytes)).2 (bs "next") EOF); [repeat split; vm_compute; congruence|].
  vm_compute. reflexivity.
Defined.

Lemma writeResponse_readResponse_witness :
  exists out, written (writeResponse demoResponse ([] : bytes)).2 = written ([] : bytes) ++ out /\
    readResponse (Reader (out ++ bs "next") EOF) = (Ok demoResponse, Reader (bs "next") EOF).
Proof.
  apply (writeResponse_readResponse demoResponse ([] : bytes) (writeResponse demoResponse ([] : bytes)).2 (bs "next") EOF); [repeat split; vm_compute; congruence|].
  vm_compute. reflexivity.
Defined.

Definition demoWire : bytes := written (writeResponse demoResponse ([] : bytes)).2 ++ bs "next".

Lemma readResponse_bounded_witness :
  (readResponse (Reader demoWire EOF)).1 = Ok demoResponse /\ len (Data demoResponse) <= MaxUSNDataBytes.
Proof.
  split; [vm_compute; reflexivity|].
  apply (readResponse_bounded (Reader demoWire EOF) demoResponse (readResponse (Reader demoWire EOF)).2). vm_compute. reflexivity.
Defined.

End usnbroker.

Module objbroker.

Definition ProtocolVersion : Z := 1.
Definition operationObserveObject : Z := 1.
Definition requestHeaderSize : Z := 24.
Definition responseHeaderSize : Z := 20.
Definition maxRootBytes : Z := 32 * 1024.
Definition maxErrorBytes : Z := 4 * 1024.

Definition maxNativeStreamSourceBytes : Z := 4 * 1024 * 1024.
Definition maxSecurityDescriptorBytes : Z := 128 * 1024.
Definition maxSACLDescriptorBytes : Z := 128 * 1024.
Definition maxReparseSourceBytes : Z := 16 * 1024.
Definition maxFinalPathUTF16Units : Z := 64 * 1024.
Definition maxObservationPathFields : Z := 4.
Definition observationFixedAllowanceBytes : Z := 1 * 1024 * 1024.
Definition MaxObservationBytes : Z :=
  12 * maxNativeStreamSourceBytes +
  4 * (maxSecurityDescriptorBytes + maxSACLDescriptorBytes + maxReparseSourceBytes) +
  8 * (maxObservationPathFields * maxFinalPathUTF16Units * 2) + observationFixedAllowanceBytes.

Definition requestMagic : bytes := bs "FIOQ".
Definition responseMagic : bytes := bs "FIOR".

Record request := { Operation : Z; GovernedRoot : bytes; FileReferenceNumber : Z; SequenceNumber : Z }.
Record response := { Data : bytes; ErrorCode : Z; Error : bytes }.

Definition readRequest : prog reader request :=
  let! header := ReadFull requestHeaderSize in
  fail! negb (bool_decide (sub 0 4 header = requestMagic)) with Errorf "invalid FI object request magic" ;;
  fail! negb (le_get (sub 4 6 header) =? ProtocolVersion) with Errorf "unsupported FI object protocol version" ;;
  let operation := le_get (sub 6 8 header) in
  let rootLength := le_get (sub 8 12 header) in
  let fileReferenceNumber := le_get (sub 12 20 header) in
  let sequenceNumber := le_get (sub 20 22 header) in
  let reserved := le_get (sub 22 24 header) in
  fail! negb (operation =? operationObserveObject) with Errorf "unsupported FI object operation" ;;
  fail! (rootLength =? 0) || (maxRootBytes <? rootLength) with Errorf "invalid FI object governed-root length" ;;
  fail! 2 ^ 48 <=? fileReferenceNumber with Errorf "FI object file reference exceeds 48 bits" ;;
  fail! negb (reserved =? 0) with Errorf "FI object request reserved field is not zero" ;;
  let! rootBytes := ReadFull rootLength in
  fail! negb (utf8_ValidString rootBytes) with Errorf "FI object governed root is not valid UTF-8" ;;
  ret {| Operation := operation; GovernedRoot := rootBytes; FileReferenceNumber := fileReferenceNumber;
         SequenceNumber := sequenceNumber |}.

Definition encodeRequestHeader (value : request) : bytes :=
  let header := zeros requestHeaderSize in
  let header := put 0 4 requestMagic header in
  let header := put 4 6 (PutUint16LE ProtocolVersion) header in
  let header := put 6 8 (PutUint16LE (Operation value)) header in
  let header := put 8 12 (PutUint32LE (u32 (len (GovernedRoot value)))) header in
  let header := put 12 20 (PutUint64LE (FileReferenceNumber value)) header in
  put 20 22 (PutUint16LE (SequenceNumber value)) header.

Definition writeRequest {W} `{Writer W} (value : request) : prog W unit :=
  fail! negb (Operation value =? operationObserveObject) with Errorf "unsupported FI object operation" ;;
  let rootBytes := GovernedRoot value in
  fail! (len rootBytes =? 0) || (maxRootBytes <? len rootBytes) || negb (utf8_ValidString rootBytes)
    with Errorf "invalid FI object governed root" ;;
  fail! 2 ^ 48 <=? FileReferenceNumber value with Errorf "FI object file reference exceeds 48 bits" ;;
  check! writeAll (encodeRequestHeader value) ;;
  writeAll rootBytes.

Definition unspecified : bytes := bs "unspecified helper failure".

Definition readResponse : prog reader response :=
  let! header := ReadFull responseHeaderSize in
  fail! negb (bool_decide (sub 0 4 header = responseMagic)) with Errorf "invalid FI object response magic" ;;
  fail! negb (le_get (sub 4 6 header) =? ProtocolVersion) with Errorf "unsupported FI object protocol version" ;;
  let status := le_get (sub 6 8 header) in
  fail! 1 <? status with Errorf "invalid FI object response status" ;;
  let dataLength := le_get (sub 12 16 header) in
  let errorLength := le_get (sub 16 20 header) in
  fail! MaxObservationBytes <? dataLength with Errorf "FI object response exceeds observation limit" ;;
  fail! maxErrorBytes <? errorLength with Errorf "FI object response exceeds error limit" ;;
  fail! (status =? 0) && negb (errorLength =? 0) with Errorf "successful FI object response contains an error" ;;
  fail! (status =? 1) && negb (dataLength =? 0) with Errorf "failed FI object response contains observation data" ;;
  let! data := readBlock dataLength in
  let! errorBytes := readBlock errorLength in
  fail! negb (errorLength =? 0) && negb (utf8_ValidString errorBytes)
    with Errorf "FI object response error is not valid UTF-8" ;;
  ret {| Data := data; ErrorCode := le_get (sub 8 12 header);
         Error := if (status =? 1) && bool_decide (errorBytes = []) then unspecified else errorBytes |}.

Definition encodeResponseHeader (value : response) : bytes :=
  let header := zeros responseHeaderSize in
  let header := put 0 4 responseMagic header in
  let header := put 4 6 (PutUint16LE ProtocolVersion) header in
  let header := put 6 8 (PutUint16LE (if bool_decide (Error value = []) then 0 else 1)) header in
  let header := put 8 12 (PutUint32LE (ErrorCode value)) header in
  let header := put 12 16 (PutUint32LE (u32 (len (Data value)))) header in
  put 16 20 (PutUint32LE (u32 (len (Error value)))) header.

Definition writeResponse {W} `{Writer W} (value : response) : prog W unit :=
  fail! MaxObservationBytes <? len (Data value) with Errorf "FI object response exceeds observation limit" ;;
  fail! (maxErrorBytes <? len (Error value)) || negb (utf8_ValidString (Error value))
    with Errorf "invalid FI object response error" ;;
  fail! negb (bool_decide (Error value = [])) && negb (len (Data value) =? 0)
    with Errorf "failed FI object response must not contain observation data" ;;
  check! writeAll (encodeResponseHeader value) ;;
  check! writeAll (Data value) ;;
  writeAll (Error value).

(** [decimalUint32] prints a number into a ten-byte array from the right. *)
Fixpoint decimalLoop (fuel : nat) (value : Z) (acc : bytes) : bytes :=
  match fuel with
  | O => acc
  | S fuel => if value =? 0 then acc else decimalLoop fuel (value / 10) (z2b (48 + value mod 10) :: acc)
  end.
Definition decimalUint32 (value : Z) : bytes := if value =? 0 then bs "0" else decimalLoop 10 value [].

(** *** Layouts *)

Lemma len_objectMagic : len requestMagic = 4 /\ len responseMagic = 4. Proof. done. Qed.
Definition requestLayout (value : request) : bytes :=
  requestMagic ++ PutUint16LE ProtocolVersion ++ PutUint16LE (Operation value) ++
  PutUint32LE (u32 (len (GovernedRoot value))) ++ PutUint64LE (FileReferenceNumber value) ++
  PutUint16LE (SequenceNumber value) ++ PutUint16LE 0.

Lemma encodeRequestHeader_filled value : encodeRequestHeader value = requestLayout value.
Proof.
  destruct len_objectMagic as [Hm _]. unfold encodeRequestHeader, requestHeaderSize. cbv zeta.
  rewrite put_first by len_solve. repeat (rewrite put_next by len_solve).
  unfold requestLayout. rewrite <- !app_assoc. reflexivity.
Qed.

Lemma requestLayout_slots value : let f := requestLayout value in
  len f = 24 /\ sub 0 4 f = requestMagic /\ sub 4 6 f = PutUint16LE ProtocolVersion /\
  sub 6 8 f = PutUint16LE (Operation value) /\ sub 8 12 f = PutUint32LE (u32 (len (GovernedRoot value))) /\
  sub 12 20 f = PutUint64LE (FileReferenceNumber value) /\ sub 20 22 f = PutUint16LE (SequenceNumber value) /\
  sub 22 24 f = PutUint16LE 0.
Proof. destruct len_objectMagic as [Hm _]. cbv zeta. unfold requestLayout. split_and!; first [len_solve|field]. Qed.

Definition object_request_typed (value : request) : Prop :=
  is_u64 (FileReferenceNumber value) /\ is_u16 (SequenceNumber value).

(** An object request is read back as it was written. *)
Theorem writeObjectRequest_read {W} `{WriterLaws W} value (w w' : W) rest e :
  object_request_typed value -> writeRequest value w = (Ok tt, w') ->
  exists out, written w' = written w ++ out /\ readRequest (Reader (out ++ rest) e) = (Ok value, Reader rest e).
Proof.
  intros (Hf & Hq). unfold writeRequest. cbv zeta. intros Hw.
  destruct (negb _) eqn:G1 in Hw; [discriminate|]. destruct (_ || _) eqn:G2 in Hw; [discriminate|].
  destruct (_ <=? _) eqn:G3 in Hw; [discriminate|]. bool_hyps. rewrite encodeRequestHeader_filled in Hw.
  exists (requestLayout value ++ GovernedRoot value).
  split; [eapply emits_Ok; [|exact Hw]; apply emits_seq; apply writeAll_emits|]. rewrite <- app_assoc.
  destruct (requestLayout_slots value) as (L & F1 & F2 & F3 & F4 & F5 & F6 & F7).
  unfold readRequest, requestHeaderSize. rewrite read_bytes by done. rewrite F1, F2, F3, F4, F5, F6, F7.
  rewrite bool_decide_eq_true_2 by done. cbn [negb]. apply Z.eqb_eq in G1.
  pose proof (len_nonneg (GovernedRoot value)). unfold maxRootBytes in *.
  rewrite u32_small by (unfold is_u32; lia).
  rewrite !le_get_PutUint16, le_get_PutUint32, le_get_PutUint64
    by (unfold is_u32, is_u16, ProtocolVersion, operationObserveObject in *; lia || done).
  rewrite Z.eqb_refl, G1, Z.eqb_refl, G3. cbn [negb Z.eqb]. unfold maxRootBytes.
  rewrite (proj2 (Z.eqb_neq _ _)), (proj2 (Z.ltb_ge _ _)) by lia. cbn [orb].
  rewrite read_bytes by done. match goal with G : utf8_ValidString _ = true |- _ => rewrite G end. cbn [negb].
  destruct value. cbn in *. by rewrite G1.
Qed.

Definition responseLayout (value : response) : bytes :=
  responseMagic ++ PutUint16LE ProtocolVersion ++ PutUint16LE (if bool_decide (Error value = []) then 0 else 1) ++
  PutUint32LE (ErrorCode value) ++ PutUint32LE (u32 (len (Data value))) ++ PutUint32LE (u32 (len (Error value))).

Lemma encodeResponseHeader_filled value : encodeResponseHeader value = responseLayout value.
Proof. destruct len_objectMagic as [_ Hm]. unfold encodeResponseHeader, responseHeaderSize. cbv zeta. fill_header. reflexivity. Qed.

Lemma responseLayout_slots value : let f := responseLayout value in
  len f = 20 /\ sub 0 4 f = responseMagic /\ sub 4 6 f = PutUint16LE ProtocolVersion /\
  sub 6 8 f = PutUint16LE (if bool_decide (Error value = []) then 0 else 1) /\
  sub 8 12 f = PutUint32LE (ErrorCode value) /\ sub 12 16 f = PutUint32LE (u32 (len (Data value))) /\
  sub 16 20 f = PutUint32LE (u32 (len (Error value))).
Proof. destruct len_objectMagic as [_ Hm]. cbv zeta. unfold responseLayout. split_and!; first [len_solve|field]. Qed.

(** An object response is read back as it was written. *)
Theorem writeObjectResponse_read {W} `{WriterLaws W} value (w w' : W) rest e :
  is_u32 (ErrorCode value) -> writeResponse value w = (Ok tt, w') ->
  exists out, written w' = written w ++ out /\ readResponse (Reader (out ++ rest) e) = (Ok value, Reader rest e).
Proof.
  intros Hc. unfold writeResponse. rewrite encodeResponseHeader_filled. intros Hw.
  destruct (_ <? _) eqn:G1 in Hw; [discriminate|]. destruct (_ || _) eqn:G2 in Hw; [discriminate|].
  destruct (_ && _) eqn:G3 in Hw; [discriminate|]. bool_hyps.
  exists (responseLayout value ++ Data value ++ Error value). split.
  { eapply emits_Ok; [|exact Hw]. repeat (apply emits_seq; [apply writeAll_emits|]). apply writeAll_emits. }
  rewrite <- !app_assoc. destruct (responseLayout_slots value) as (L & F1 & F2 & F3 & F4 & F5 & F6).
  assert (Error value <> [] -> Data value = []) as Hx.
  { intros Hne. apply andb_false_iff in G3 as [G|G]; bool_hyps; [done|]. apply len_zero_nil. lia. }
  pose proof (len_nonneg (Data value)). pose proof (len_nonneg (Error value)).
  apply Z.ltb_ge in G1. assert (MaxObservationBytes < 2 ^ 32) by (vm_compute; reflexivity). unfold maxErrorBytes in *.
  unfold readResponse, responseHeaderSize. rewrite read_bytes by done. rewrite F1, F2, F3, F4, F5, F6.
  rewrite bool_decide_eq_true_2 by done. cbn [negb]. rewrite !(u32_small (len _)) by (unfold is_u32; lia).
  rewrite !le_get_PutUint16 by (unfold is_u16, ProtocolVersion; case_bool_decide; lia).
  rewrite !le_get_PutUint32 by (unfold is_u32 in *; lia). rewrite Z.eqb_refl. cbn [negb]. unfold maxErrorBytes.
  rewrite (proj2 (Z.ltb_ge MaxObservationBytes _)), (proj2 (Z.ltb_ge (4 * 1024) _)) by lia.
  match goal with G : utf8_ValidString _ = true |- _ => rename G into Hu end.
  case_bool_decide as Ee.
  - rewrite Ee. change (len (@nil byte)) with 0. cbn [Z.ltb Z.compare Z.eqb negb andb]. rewrite readBlock_app by done.
    cbn. destruct value. cbn in *. by rewrite Ee.
  - rewrite (Hx Ee). change (len (@nil byte)) with 0. change (1 <? 1) with false. change (1 =? 0) with false. change (1 =? 1) with true.
    cbn [andb negb Z.eqb].
    rewrite (readBlock_app 0 _ [] (Error value ++ rest)) by done. rewrite readBlock_app by done.
    rewrite Hu, andb_false_r. rewrite bool_decide_eq_false_2 by done. destruct value. cbn in *. by rewrite (Hx Ee).
Qed.

(** The hand-written decimal is [strconv.FormatUint]. *)
Lemma decimalLoop_dec_rev fuel value acc :
  0 < value < 10 ^ Z.of_nat fuel -> decimalLoop fuel value acc = reverse (dec_rev fuel value) ++ acc.
Proof.
  revert value acc. induction fuel as [|fuel IH]; intros value acc Hv; [cbn in Hv; lia|].
  rewrite Nat2Z.inj_succ, Z.pow_succ_r in Hv by lia. cbn [decimalLoop dec_rev]. rewrite (proj2 (Z.eqb_neq _ _)) by lia.
  rewrite reverse_cons, <- app_assoc. cbn [app]. fold (dec_digit (value mod 10)). destruct (Z.ltb_spec value 10).
  - rewrite Z.div_small by lia. destruct fuel; [done|]. reflexivity.
  - rewrite IH; [done|]. split; [apply Z.div_str_pos; lia|apply Z.div_lt_upper_bound; lia].
Qed.

Lemma dec_rev_fuel f g n : 0 <= n < 10 ^ Z.of_nat f -> (0 < f <= g)%nat -> dec_rev f n = dec_rev g n.
Proof.
  revert g n. induction f as [|f IH]; intros g n Hn Hg; [lia|]. destruct g as [|g]; [lia|]. cbn [dec_rev].
  destruct (Z.ltb_spec n 10); [done|]. rewrite Nat2Z.inj_succ, Z.pow_succ_r in Hn by lia.
  f_equal. destruct f as [|f]; [cbn in Hn; lia|].
  apply IH; [split; [apply Z.div_pos; lia|apply Z.div_lt_upper_bound; lia]|lia].
Qed.

(** The helper's error number prints as [strconv] would print it. *)
Theorem decimalUint32_FormatUint value : is_u32 value -> decimalUint32 value = FormatUint value.
Proof.
  unfold is_u32, decimalUint32, FormatUint. intros Hv. destruct (Z.eqb_spec value 0) as [->|]; [reflexivity|].
  rewrite decimalLoop_dec_rev, app_nil_r by (cbn; lia). f_equal. apply dec_rev_fuel; [cbn; lia|lia].
Qed.

End objbroker.
