(* ===== verification/Usn.v ===== *)
(** * The NTFS change journal

    Models [go/internal/windows/usn/usn.go]: the decoder of the buffers the journal
    returns, the identity of the volume and the two operations [QueryJournal] and
    [ReadJournal]. The Win32 calls on the root handle and the two calls of the broker
    client are parameters ([RootHandle], [broker]); [int] has 64 bits. *)

From stdpp Require Import sorting.
From S2P Require Import Prelude GoBytes GoStrings GoText GoIO Records Brokers.

Module usn.
Import records.

Definition CollectionMethod : bytes := bs "WindowsNTFSUSNJournalV0".
Definition IdentityMethodVersion : bytes := bs "windows-file-id-info-ntfs/0.1".
Definition usnV2HeaderSize : Z := 60.
Definition maximumFinalPathUTF16Units : Z := 64 * 1024.

Definition ErrMalformedUSNBuffer : error := Sentinel "Windows returned a malformed USN journal buffer".
Definition ErrUnsupportedUSNRecord : error := Sentinel "unsupported USN record version".
Definition ErrNotNTFS : error := Sentinel "path is not on an NTFS volume".

(** ** Decoding *)

(** The little-endian number in [raw[lo:hi]]. *)
Definition le_at (lo hi : Z) (raw : bytes) : res Z := let? field := slice lo hi raw in Ok (le_get field).

Definition identityFromReference (reference : Z) : NTFSObjectIdentity := {|
  MethodVersion := IdentityMethodVersion;
  FileReferenceNumber := FormatUint (Z.land reference 281474976710655);
  SequenceNumber := FormatUint (Z.shiftr reference 48) |}.

Definition knownReasons : list (Z * bytes) :=
  [(1, bs "DataOverwrite"); (2, bs "DataExtend"); (4, bs "DataTruncation"); (16, bs "NamedDataOverwrite");
   (32, bs "NamedDataExtend"); (64, bs "NamedDataTruncation"); (256, bs "FileCreate"); (512, bs "FileDelete");
   (1024, bs "EAChange"); (2048, bs "SecurityChange"); (4096, bs "RenameOldName"); (8192, bs "RenameNewName");
   (16384, bs "IndexableChange"); (32768, bs "BasicInfoChange"); (65536, bs "HardLinkChange");
   (131072, bs "CompressionChange"); (262144, bs "EncryptionChange"); (524288, bs "ObjectIDChange");
   (1048576, bs "ReparsePointChange"); (2097152, bs "StreamChange"); (4194304, bs "TransactedChange");
   (8388608, bs "IntegrityChange"); (2147483648, bs "Close")].
Definition reasonNames (reason : Z) : list bytes :=
  sort_Strings (List.filter (fun item : Z * bytes => negb (Z.land reason item.1 =? 0)) knownReasons).*2.

Definition windowsUnixEpochOffsetSeconds : Z := 11644473600.
Definition filetimeToCanonical (value : Z) : res bytes :=
  fail? value <? 0 with Errorf "negative Windows file time" ;;
  let seconds := Z.quot value 10000000 - windowsUnixEpochOffsetSeconds in
  let nanoseconds := Z.rem value 10000000 * 100 in
  Ok (Format_nano (time_Unix seconds nanoseconds)).

Definition parseV2Record (raw : bytes) (major minor : Z) : res USNChangeObservation :=
  fail? len raw <? usnV2HeaderSize with ErrMalformedUSNBuffer ;;
  let? fileRef := le_at 8 16 raw in
  let? parentRef := le_at 16 24 raw in
  let? usnField := le_at 24 32 raw in
  let usnValue := i64 usnField in
  let? timeField := le_at 32 40 raw in
  let timestamp := i64 timeField in
  let? reason := le_at 40 44 raw in
  let? sourceInfo := le_at 44 48 raw in
  let? securityID := le_at 48 52 raw in
  let? attributes := le_at 52 56 raw in
  let? nameLength := le_at 56 58 raw in
  let? nameOffset := le_at 58 60 raw in
  fail? (usnValue <? 0) || (nameLength <? 0) || negb (Z.rem nameLength 2 =? 0) || (nameOffset <? usnV2HeaderSize) ||
        (len raw <? nameOffset + nameLength)
    with ErrMalformedUSNBuffer ;;
  let? fileName := slice nameOffset (nameOffset + nameLength) raw in
  let? canonicalTimestamp := filetimeToCanonical timestamp in
  Ok {| MajorVersion := FormatUint major; MinorVersion := FormatUint minor;
        FileIdentity := identityFromReference fileRef; ParentIdentity := identityFromReference parentRef;
        USN := FormatUint (u64 usnValue); Timestamp := canonicalTimestamp;
        ReasonRaw := FormatUint reason; ReasonNames := reasonNames reason;
        SourceInfoRaw := FormatUint sourceInfo; SecurityID := FormatUint securityID;
        FileAttributesRaw := FormatUint attributes; FileNameUTF16LEBase64URL := b64_encode fileName |}.

(** The loop over the records. A record has at least sixty bytes, so [length buffer] turns
    are enough. *)
Fixpoint parseRecords (fuel : nat) (buffer : bytes) (offset : Z) : res (list USNChangeObservation) :=
  match fuel with
  | O => Panic
  | S fuel =>
      if len buffer <=? offset then Ok [] else
      fail? len buffer - offset <? 8 with ErrMalformedUSNBuffer ;;
      let? recordLength := le_at offset (offset + 4) buffer in
      let? major := le_at (offset + 4) (offset + 6) buffer in
      let? minor := le_at (offset + 6) (offset + 8) buffer in
      fail? (recordLength <? usnV2HeaderSize) || (len buffer <? i64 (offset + recordLength))
        with ErrMalformedUSNBuffer ;;
      fail? negb (major =? 2) with Wrap "%w: %d.%d" ErrUnsupportedUSNRecord ;;
      let? raw := slice offset (i64 (offset + recordLength)) buffer in
      let? record := parseV2Record raw major minor in
      let? changes := parseRecords fuel buffer (i64 (offset + recordLength)) in
      Ok (record :: changes)
  end.

Definition parseReadBuffer (buffer : bytes) : res (Z * list USNChangeObservation) :=
  fail? len buffer <? 8 with ErrMalformedUSNBuffer ;;
  let? next := le_at 0 8 buffer in
  let nextUSN := i64 next in
  fail? nextUSN <? 0 with ErrMalformedUSNBuffer ;;
  let? changes := parseRecords (S (length buffer)) buffer 8 in
  Ok (nextUSN, changes).

Definition parseUSN (value : bytes) : res Z :=
  fail? bool_decide (value = []) || ((1 <? len value) && bool_decide (head value = Some (z2b 48)))
    with Errorf "USN must be canonical unsigned decimal" ;;
  let? parsed := wrap "USN: %w" (ParseUint value 63) in
  Ok (i64 parsed).

(** ** The volume of the governed root *)

(** [syscall.UTF16ToString]: up to the first zero unit; an unpaired surrogate keeps its
    three-byte form. *)
Definition utf8_three_of (u : Z) : bytes :=
  [z2b (Z.lor 224 (Z.shiftr u 12)); z2b (Z.lor 128 (Z.land (Z.shiftr u 6) 63)); z2b (Z.lor 128 (Z.land u 63))].
Definition utf8_pair (hi lo : Z) : bytes :=
  let r := (hi - 55296) * 1024 + (lo - 56320) + 65536 in
  [z2b (Z.lor 240 (Z.shiftr r 18)); z2b (Z.lor 128 (Z.land (Z.shiftr r 12) 63));
   z2b (Z.lor 128 (Z.land (Z.shiftr r 6) 63)); z2b (Z.lor 128 (Z.land r 63))].
Fixpoint UTF16ToString (units : list Z) : bytes :=
  match units with
  | [] => []
  | u :: rest =>
      if u =? 0 then []
      else if u <? 128 then z2b u :: UTF16ToString rest
      else if u <? 2048 then z2b (Z.lor 192 (Z.shiftr u 6)) :: z2b (Z.lor 128 (Z.land u 63)) :: UTF16ToString rest
      else match rest with
           | v :: rest' =>
               if (55296 <=? u) && (u <=? 56319) && (56320 <=? v) && (v <=? 57343)
               then utf8_pair u v ++ UTF16ToString rest'
               else utf8_three_of u ++ UTF16ToString rest
           | [] => utf8_three_of u
           end
  end.

Definition volumePathPrefix : list Z := [92; 92; 63; 92; 86; 111; 108; 117; 109; 101; 123].
(** The loop that looks for the closing brace and the backslash, from position [i]. *)
Fixpoint guidEnd (i : Z) (rest : list Z) : option Z :=
  match rest with
  | a :: (b :: _) as rest' => if (a =? 125) && (b =? 92) then Some i else guidEnd (i + 1) rest'
  | _ => None
  end.
Definition volumeGUIDFromFinalPath (path : list Z) : res bytes :=
  fail? len path <? len volumePathPrefix with Errorf "final path is not a volume-GUID path" ;;
  fail? negb (bool_decide (take (length volumePathPrefix) path = volumePathPrefix))
    with Errorf "final path is not a volume-GUID path" ;;
  match guidEnd (len volumePathPrefix) (drop (length volumePathPrefix) path) with
  | Some i => Ok (UTF16ToString (take (Z.to_nat (i + 2)) path))
  | None => Err (Errorf "volume GUID terminator missing")
  end.

Definition finalPathBufferLength (required : Z) : res Z :=
  fail? maximumFinalPathUTF16Units <=? required with Errorf "final path exceeds bounded UTF-16 limit: %d >= %d" ;;
  Ok (required + 1).

(** The open root handle: whether it opened, the file system's name, the volume serial
    number and, for each attempt and buffer size, what [GetFinalPathNameByHandleW] returned
    and wrote. *)
Record RootHandle := {
  open_root : res unit;
  fs_name : res (list Z);
  volume_serial : res Z;
  final_path : nat -> Z -> res (Z * list Z)
}.

(** Three attempts, each with the buffer the last one asked for. *)
Fixpoint finalVolumePath (handle : RootHandle) (attempts : nat) (size : Z) : res (list Z) :=
  match attempts with
  | O => Err (Errorf "final path exceeded retry bound")
  | S attempts =>
      let? (length, buffer) := final_path handle attempts size in
      if length <? size then Ok (take (Z.to_nat length) buffer) else
      let? nextSize := finalPathBufferLength length in
      finalVolumePath handle attempts nextSize
  end.

Section Operations.
Context `{Unicode}.

Definition queryVolumeIdentity (handle : RootHandle) : res VolumeIdentity :=
  check? open_root handle ;;
  let? name := fs_name handle in
  fail? negb (EqualFold (UTF16ToString name) (bs "NTFS")) with ErrNotNTFS ;;
  let? serial := volume_serial handle in
  let? path := finalVolumePath handle 3 512 in
  let? volumeGUID := volumeGUIDFromFinalPath path in
  let identity := {| VolumeMethodVersion := IdentityMethodVersion; VolumeGUID := volumeGUID;
                     VolumeSerial := FormatUint serial |} in
  check? ValidateVolumeIdentity identity ;;
  Ok identity.

(** The two calls of the broker client. *)
Record broker := {
  broker_Query : bytes -> res usnbroker.Journal;
  broker_Read : bytes -> Z -> res (usnbroker.Journal * bytes)
}.

(** [ctx] is the error of a cancelled context; [now] is the clock. *)
Definition validateContext (ctx : option error) : res unit :=
  match ctx with Some e => Err e | None => Ok tt end.

Definition QueryJournal (ctx : option error) (handle : RootHandle) (b : broker) (now : Time)
    (scopeID governedRoot : bytes) : res USNJournalState :=
  check? validateContext ctx ;;
  fail? bool_decide (scopeID = []) with Errorf "scope ID is required" ;;
  let? identity := queryVolumeIdentity handle in
  let? journal := broker_Query b governedRoot in
  let state := {|
    JournalObservedAt := Format_nano now; JournalCollectionMethod := CollectionMethod; JournalScopeID := scopeID;
    JournalVolumeIdentity := identity;
    JournalID := FormatUint (usnbroker.JournalID journal);
    FirstUSN := FormatUint (u64 (usnbroker.FirstUSN journal));
    NextUSN := FormatUint (u64 (usnbroker.NextUSN journal));
    LowestValidUSN := FormatUint (u64 (usnbroker.LowestValidUSN journal));
    MaxUSN := FormatUint (u64 (usnbroker.MaxUSN journal));
    MaximumSize := FormatUint (usnbroker.MaximumSize journal);
    AllocationDelta := FormatUint (usnbroker.AllocationDelta journal) |} in
  check? ValidateUSNJournalState state ;;
  Ok state.

Definition ReadJournal (ctx : option error) (handle : RootHandle) (b : broker) (now : Time)
    (scopeID governedRoot startUSN : bytes) : res USNReadBatch :=
  check? validateContext ctx ;;
  let? start := parseUSN startUSN in
  let? identity := queryVolumeIdentity handle in
  let? (journal, buffer) := broker_Read b governedRoot start in
  let? (next, changes) := parseReadBuffer buffer in
  let batch := {|
    BatchObservedAt := Format_nano now; BatchCollectionMethod := CollectionMethod; BatchScopeID := scopeID;
    BatchVolumeIdentity := identity; BatchJournalID := FormatUint (usnbroker.JournalID journal);
    StartUSN := FormatUint (u64 start); BatchNextUSN := FormatUint (u64 next); Records := changes |} in
  check? ValidateUSNReadBatch batch ;;
  Ok batch.

End Operations.

(** ** Every access is inside the buffer *)

Lemma le_at_Ok lo hi raw : 0 <= lo -> lo <= hi -> hi <= len raw -> le_at lo hi raw = Ok (le_get (sub lo hi raw)).
Proof. intros. unfold le_at. by rewrite slice_Ok. Qed.

Lemma le_at_no_panic lo hi raw : 0 <= lo -> lo <= hi -> hi <= len raw -> no_panic (le_at lo hi raw).
Proof. intros. by rewrite le_at_Ok. Qed.

Lemma le_at_nonneg lo hi raw n : le_at lo hi raw = Ok n -> 0 <= n.
Proof. unfold le_at. intros H. res_inv H. apply le_get_range. Qed.

Lemma parseV2Record_no_panic raw major minor : no_panic (parseV2Record raw major minor).
Proof.
  unfold parseV2Record, usnV2HeaderSize. destruct (Z.ltb_spec (len raw) 60) as [|Hl]; [done|].
  do 10 (apply no_panic_bind; [apply le_at_no_panic; lia|intros ? ?]; cbv zeta).
  destruct (_ || _) eqn:E; [done|]. bool_hyps.
  repeat match goal with G : le_at _ _ _ = Ok _ |- _ => apply le_at_nonneg in G end.
  apply no_panic_bind; [rewrite slice_Ok by lia; done|intros ? _].
  apply no_panic_bind; [unfold filetimeToCanonical; no_panic|done].
Qed.

Lemma parseRecords_no_panic fuel buffer offset :
  0 <= offset -> len buffer <= 2 ^ 62 -> len buffer - offset < Z.of_nat fuel -> (0 < fuel)%nat ->
  no_panic (parseRecords fuel buffer offset).
Proof.
  revert offset. induction fuel as [|fuel IH]; [lia|]. intros offset Ho Hb Hf _. cbn [parseRecords].
  destruct (Z.leb_spec (len buffer) offset); [done|]. destruct (Z.ltb_spec (len buffer - offset) 8); [done|].
  do 3 (apply no_panic_bind; [apply le_at_no_panic; lia|intros ? ?]).
  destruct (_ || _) eqn:E; [done|]. destruct (negb _); [done|]. bool_hyps. unfold usnV2HeaderSize in *.
  assert (is_u32 a) as Ha.
  { match goal with G : le_at offset _ _ = Ok a |- _ => rewrite le_at_Ok in G by lia; injection G as <- end.
    apply le_get_u32. rewrite len_sub; lia. }
  assert (i64 (offset + a) = offset + a) as Ei by (apply i64_small; unfold is_i64, is_u32 in *; lia).
  rewrite Ei in *.
  apply no_panic_bind; [rewrite slice_Ok by lia; done|intros ? _].
  apply no_panic_bind; [apply parseV2Record_no_panic|intros ? _].
  apply no_panic_bind; [apply IH; lia|done].
Qed.

(** [C28] The decoder never reads outside the buffer and always returns: no buffer Windows or a
    broken helper hands over makes it panic or loop. *)
Theorem parseReadBuffer_no_panic buffer : len buffer <= 2 ^ 62 -> parseReadBuffer buffer <> Panic.
Proof.
  intros Hb. change (no_panic (parseReadBuffer buffer)). unfold parseReadBuffer.
  destruct (Z.ltb_spec (len buffer) 8); [done|].
  apply no_panic_bind; [apply le_at_no_panic; lia|intros ? _]. cbv zeta. destruct (_ <? 0); [done|].
  apply no_panic_bind; [|done]. apply parseRecords_no_panic; unfold len in *; lia.
Qed.

(** ** The format of the journal's buffers

    The reference: a [USN_RECORD_V2] as Windows lays it out, with the bytes between the
    header and the name, and after it. *)

Record USN_RECORD_V2 := {
  v_minor : Z; v_file : Z; v_parent : Z; v_usn : Z; v_time : Z; v_reason : Z; v_source : Z; v_security : Z;
  v_attributes : Z; v_gap : bytes; v_name : bytes; v_tail : bytes
}.

Definition v2_length (r : USN_RECORD_V2) : Z := 60 + len (v_gap r) + len (v_name r) + len (v_tail r).
Definition v2_header (r : USN_RECORD_V2) : bytes :=
  PutUint32LE (v2_length r) ++ PutUint16LE 2 ++ PutUint16LE (v_minor r) ++ PutUint64LE (v_file r) ++
  PutUint64LE (v_parent r) ++ PutUint64LE (v_usn r) ++ PutUint64LE (v_time r) ++ PutUint32LE (v_reason r) ++
  PutUint32LE (v_source r) ++ PutUint32LE (v_security r) ++ PutUint32LE (v_attributes r) ++
  PutUint16LE (len (v_name r)) ++ PutUint16LE (60 + len (v_gap r)).
Definition v2_bytes (r : USN_RECORD_V2) : bytes := v2_header r ++ v_gap r ++ v_name r ++ v_tail r.

(** The fields an observation is made of have their widths, and the name is whole UTF-16 units. *)
Definition v2_fields_valid (r : USN_RECORD_V2) : Prop :=
  is_u16 (v_minor r) /\ is_u64 (v_file r) /\ is_u64 (v_parent r) /\ 0 <= v_usn r < 2 ^ 63 /\ 0 <= v_time r < 2 ^ 63 /\
  is_u32 (v_reason r) /\ is_u32 (v_source r) /\ is_u32 (v_security r) /\ is_u32 (v_attributes r) /\
  is_u16 (len (v_name r)) /\ len (v_name r) mod 2 = 0.
Definition v2_valid (r : USN_RECORD_V2) : Prop :=
  v2_fields_valid r /\ is_u16 (60 + len (v_gap r)) /\ is_u32 (v2_length r).

Definition v2_timestamp (r : USN_RECORD_V2) : Time :=
  time_Unix (v_time r / 10000000 - windowsUnixEpochOffsetSeconds) (v_time r mod 10000000 * 100).
Definition v2_observation (r : USN_RECORD_V2) : USNChangeObservation := {|
  MajorVersion := FormatUint 2; MinorVersion := FormatUint (v_minor r);
  FileIdentity := identityFromReference (v_file r); ParentIdentity := identityFromReference (v_parent r);
  USN := FormatUint (v_usn r); Timestamp := Format_nano (v2_timestamp r);
  ReasonRaw := FormatUint (v_reason r); ReasonNames := reasonNames (v_reason r);
  SourceInfoRaw := FormatUint (v_source r); SecurityID := FormatUint (v_security r);
  FileAttributesRaw := FormatUint (v_attributes r); FileNameUTF16LEBase64URL := b64_encode (v_name r) |}.

Lemma len_v2_header r : len (v2_header r) = 60.
Proof. unfold v2_header. len_solve. Qed.
#[local] Hint Rewrite len_v2_header : lens.
Lemma len_v2_bytes r : len (v2_bytes r) = v2_length r.
Proof. unfold v2_bytes, v2_length. rewrite !len_app, len_v2_header. lia. Qed.

Lemma v2_fields r rest : let f := v2_header r ++ rest in
  sub 0 4 f = PutUint32LE (v2_length r) /\ sub 4 6 f = PutUint16LE 2 /\ sub 6 8 f = PutUint16LE (v_minor r) /\
  sub 8 16 f = PutUint64LE (v_file r) /\ sub 16 24 f = PutUint64LE (v_parent r) /\ sub 24 32 f = PutUint64LE (v_usn r) /\
  sub 32 40 f = PutUint64LE (v_time r) /\ sub 40 44 f = PutUint32LE (v_reason r) /\
  sub 44 48 f = PutUint32LE (v_source r) /\ sub 48 52 f = PutUint32LE (v_security r) /\
  sub 52 56 f = PutUint32LE (v_attributes r) /\ sub 56 58 f = PutUint16LE (len (v_name r)) /\
  sub 58 60 f = PutUint16LE (60 + len (v_gap r)).
Proof. cbv zeta. unfold v2_header. rewrite <- !app_assoc. split_and!; field. Qed.

Lemma filetimeToCanonical_Ok t : 0 <= t ->
  filetimeToCanonical t = Ok (Format_nano (time_Unix (t / 10000000 - windowsUnixEpochOffsetSeconds) (t mod 10000000 * 100))).
Proof.
  intros. unfold filetimeToCanonical. rewrite (proj2 (Z.ltb_ge _ _)) by lia.
  by rewrite Z.quot_div_nonneg, Z.rem_mod_nonneg by lia.
Qed.

Lemma parseV2Record_bytes r : v2_valid r -> parseV2Record (v2_bytes r) 2 (v_minor r) = Ok (v2_observation r).
Proof.
  intros ((Hm & Hf & Hp & Hu & Ht & Hr & Hs & Hse & Ha & Hn & Heven) & Hg & Hl).
  pose proof (len_nonneg (v_gap r)). pose proof (len_nonneg (v_name r)). pose proof (len_nonneg (v_tail r)).
  pose proof (len_v2_bytes r) as L. unfold v2_length in L.
  unfold parseV2Record, usnV2HeaderSize. rewrite (proj2 (Z.ltb_ge _ _)) by lia.
  rewrite !le_at_Ok by lia. cbn [res_bind].
  pose proof (v2_fields r (v_gap r ++ v_name r ++ v_tail r)) as F. cbv zeta in F. fold (v2_bytes r) in F.
  destruct F as (_ & _ & _ & -> & -> & -> & -> & -> & -> & -> & -> & -> & ->).
  cbv zeta. rewrite !le_get_PutUint64, !le_get_PutUint32, !le_get_PutUint16 by (first [done|unfold is_u64; lia]).
  cbn [res_bind]. rewrite !(i64_small (v_usn r)), !(i64_small (v_time r)) by (unfold is_i64; lia).
  rewrite (proj2 (Z.ltb_ge (v_usn r) _)), (proj2 (Z.ltb_ge (len (v_name r)) _)), (proj2 (Z.ltb_ge (60 + _) _)) by lia.
  rewrite Z.rem_mod_nonneg, Heven by lia. cbn [Z.eqb negb orb]. rewrite (proj2 (Z.ltb_ge (len (v2_bytes r)) _)) by lia.
  rewrite slice_Ok by lia. cbn [res_bind]. rewrite filetimeToCanonical_Ok by lia. cbn [res_bind].
  unfold v2_bytes. rewrite (app_assoc (v2_header r)), sub_app_field by (rewrite ?len_app, ?len_v2_header; lia).
  by rewrite u64_small by (unfold is_u64; lia).
Qed.


(** The record some bytes hold, with a given minor version. *)
Definition v2_of (raw : bytes) (minor : Z) : USN_RECORD_V2 :=
  let nameLength := le_get (sub 56 58 raw) in
  let nameOffset := le_get (sub 58 60 raw) in {|
  v_minor := minor; v_file := le_get (sub 8 16 raw); v_parent := le_get (sub 16 24 raw);
  v_usn := le_get (sub 24 32 raw); v_time := le_get (sub 32 40 raw); v_reason := le_get (sub 40 44 raw);
  v_source := le_get (sub 44 48 raw); v_security := le_get (sub 48 52 raw); v_attributes := le_get (sub 52 56 raw);
  v_gap := sub 60 nameOffset raw; v_name := sub nameOffset (nameOffset + nameLength) raw;
  v_tail := sub (nameOffset + nameLength) (len raw) raw |}.

(** A non-negative [int64] is its own bits. *)
Lemma i64_nonneg z : is_u64 z -> (i64 z <? 0) = false -> 0 <= z < 2 ^ 63 /\ i64 z = z.
Proof.
  unfold is_u64, i64. intros Hz Hn. apply Z.ltb_ge in Hn.
  destruct (Z.lt_ge_cases z (2 ^ 63)); [rewrite Z.mod_small by lia; lia|].
  rewrite <- (Z_mod_plus_full (z + 2 ^ 63) (-1)), Z.mod_small in Hn by lia. lia.
Qed.

(** Whatever bytes the decoder accepts, the observation it returns is that of the record they
    hold: the name lies inside the record and is whole UTF-16 units, the times are not negative. *)
Lemma parseV2Record_fields raw minor c :
  parseV2Record raw 2 minor = Ok c -> is_u16 minor ->
  60 <= len raw /\ 60 <= le_get (sub 58 60 raw) /\ le_get (sub 58 60 raw) + le_get (sub 56 58 raw) <= len raw /\
  v2_fields_valid (v2_of raw minor) /\ c = v2_observation (v2_of raw minor).
Proof.
  unfold parseV2Record, usnV2HeaderSize. intros H Hm. destruct (Z.ltb_spec (len raw) 60) as [|H60]; [done|].
  rewrite !le_at_Ok in H by lia. cbn [res_bind] in H. cbv zeta in H. res_inv H. bool_hyps.
  assert (forall lo hi, 0 <= lo -> lo <= hi -> hi <= 60 -> len (sub lo hi raw) = hi - lo) as Hs by (intros; apply len_sub; lia).
  pose proof (le_get_u64 (sub 24 32 raw) ltac:(by rewrite Hs by lia)) as U1.
  pose proof (le_get_u64 (sub 32 40 raw) ltac:(by rewrite Hs by lia)) as U2.
  pose proof (le_get_u16 (sub 56 58 raw) ltac:(by rewrite Hs by lia)) as U3.
  pose proof (le_get_u16 (sub 58 60 raw) ltac:(by rewrite Hs by lia)) as U4.
  match goal with G : (i64 (le_get (sub 24 32 raw)) <? 0) = false |- _ => apply i64_nonneg in G as [Hu Eu]; [|done] end.
  match goal with G : filetimeToCanonical _ = Ok _ |- _ => rename G into Hft end.
  assert ((i64 (le_get (sub 32 40 raw)) <? 0) = false) as Htn.
  { unfold filetimeToCanonical in Hft. destruct (i64 (le_get (sub 32 40 raw)) <? 0); [discriminate Hft|done]. }
  apply i64_nonneg in Htn as [Ht Et]; [|done]. rewrite Et in Hft.
  set (n := le_get (sub 56 58 raw)) in *. set (o := le_get (sub 58 60 raw)) in *. unfold is_u16 in *.
  match goal with G : slice _ _ _ = Ok _ |- _ => rewrite slice_Ok in G by lia; injection G as <- end.
  rewrite filetimeToCanonical_Ok in Hft by lia. injection Hft as <-.
  assert (n mod 2 = 0).
  { match goal with G : (Z.rem n 2 =? 0) = true |- _ => apply Z.eqb_eq in G; rewrite Z.rem_mod_nonneg in G by lia; exact G end. }
  split_and!; [lia..| |].
  - unfold v2_fields_valid. cbn. fold n o. rewrite len_sub by lia. replace (o + n - o) with n by lia. unfold is_u16.
    split_and!; try lia;
      first [apply le_get_u64; by rewrite Hs by lia|apply le_get_u32; by rewrite Hs by lia|apply le_get_u16; by rewrite Hs by lia].
  - unfold v2_observation, v2_timestamp, v2_of.
    cbn [v_minor v_file v_parent v_usn v_time v_reason v_source v_security v_attributes v_name].
    rewrite Eu, u64_small by done. reflexivity.
Qed.

(** When the header names the length and the version too, the bytes are exactly that record. *)
Lemma parseV2Record_inv raw minor c :
  parseV2Record raw 2 minor = Ok c -> is_u32 (len raw) -> le_get (sub 0 4 raw) = len raw ->
  le_get (sub 4 6 raw) = 2 -> le_get (sub 6 8 raw) = minor ->
  v2_valid (v2_of raw minor) /\ raw = v2_bytes (v2_of raw minor) /\ c = v2_observation (v2_of raw minor).
Proof.
  intros H Hlen Hl Hmaj Hmin. assert (is_u16 minor) as Hm.
  { rewrite <- Hmin. apply le_get_u16. rewrite len_sub; [done|lia..|]. unfold parseV2Record, usnV2HeaderSize in H.
    destruct (Z.ltb_spec (len raw) 60); [done|lia]. }
  apply parseV2Record_fields in H as (H60 & Ho & Hn & Hf & Hc); [|done].
  assert (forall lo hi, 0 <= lo -> lo <= hi -> hi <= 60 -> len (sub lo hi raw) = hi - lo) as Hs by (intros; apply len_sub; lia).
  pose proof (le_get_u16 (sub 56 58 raw) ltac:(by rewrite Hs by lia)) as U3.
  pose proof (le_get_u16 (sub 58 60 raw) ltac:(by rewrite Hs by lia)) as U4.
  set (n := le_get (sub 56 58 raw)) in *. set (o := le_get (sub 58 60 raw)) in *. unfold is_u16 in *.
  assert (len (sub 60 o raw) = o - 60 /\ len (sub o (o + n) raw) = n /\ len (sub (o + n) (len raw) raw) = len raw - (o + n)) as (L1 & L2 & L3).
  { split_and!; rewrite len_sub; lia. }
  assert (v2_length (v2_of raw minor) = len raw) as Ltot by (unfold v2_length, v2_of; cbn; fold n o; lia).
  split; [|split; [|done]].
  - split_and!; [done| |by rewrite Ltot]. cbn. fold n o. unfold is_u16. lia.
  - unfold v2_bytes, v2_header. rewrite Ltot. cbn. fold n o. rewrite L1, L2, <- Hmin.
    replace (60 + (o - 60)) with o by lia. rewrite <- Hl, <- Hmaj at 1. unfold n, o.
    rewrite !PutUint16LE_get, !PutUint32LE_get, !PutUint64LE_get by (by rewrite Hs by lia). fold n o.
    rewrite <- (sub_whole (len raw) raw) at 1 by done.
    rewrite (sub_split 0 4), (sub_split 4 6), (sub_split 6 8), (sub_split 8 16), (sub_split 16 24), (sub_split 24 32),
      (sub_split 32 40), (sub_split 40 44), (sub_split 44 48), (sub_split 48 52), (sub_split 52 56), (sub_split 56 58),
      (sub_split 58 60), (sub_split 60 o), (sub_split o (o + n)) by lia. by rewrite <- !app_assoc.
Qed.

(** A buffer is the next USN and the records one after the other. *)
Definition records_bytes (rs : list USN_RECORD_V2) : bytes := concat (map v2_bytes rs).
Definition buffer_bytes (next : Z) (rs : list USN_RECORD_V2) : bytes := PutUint64LE next ++ records_bytes rs.

Lemma v2_length_bounds r : v2_valid r -> 60 <= v2_length r /\ is_u32 (v2_length r).
Proof.
  intros H. split; [unfold v2_length|apply H].
  pose proof (len_nonneg (v_gap r)). pose proof (len_nonneg (v_name r)). pose proof (len_nonneg (v_tail r)). lia.
Qed.

(** The first eight bytes of a record. *)
Lemma v2_bytes_prefix r : v2_valid r ->
  le_get (sub 0 4 (v2_bytes r)) = v2_length r /\ le_get (sub 4 6 (v2_bytes r)) = 2 /\
  le_get (sub 6 8 (v2_bytes r)) = v_minor r.
Proof.
  intros H. pose proof (v2_fields r (v_gap r ++ v_name r ++ v_tail r)) as F. cbv zeta in F. fold (v2_bytes r) in F.
  destruct F as (-> & -> & -> & _). rewrite le_get_PutUint32, !le_get_PutUint16; [done| |done|apply H]. apply H.
Qed.

(** A slice that lies in the middle of a concatenation. *)
Lemma sub_middle a b c lo hi : 0 <= lo -> lo <= hi -> hi <= len b ->
  sub (len a + lo) (len a + hi) (a ++ b ++ c) = sub lo hi b.
Proof.
  intros. rewrite <- (sub_whole (len b) b) at 1 by done. rewrite (sub_split 0 lo), (sub_split lo hi) by lia.
  rewrite <- !app_assoc, app_assoc. apply sub_app_field; [rewrite len_app|]; rewrite len_sub; lia.
Qed.

Lemma sub_middle_0 a b c hi : 0 <= hi -> hi <= len b -> sub (len a) (len a + hi) (a ++ b ++ c) = sub 0 hi b.
Proof. intros. rewrite <- (sub_middle a b c 0 hi) by lia. by rewrite Z.add_0_r. Qed.

Lemma parseRecords_bytes rs pre fuel :
  Forall v2_valid rs -> len (pre ++ records_bytes rs) <= 2 ^ 62 -> (length rs < fuel)%nat ->
  parseRecords fuel (pre ++ records_bytes rs) (len pre) = Ok (map v2_observation rs).
Proof.
  revert pre fuel. induction rs as [|r rs IH]; intros pre [|fuel] Hv Hb Hf; try (cbn in Hf; lia).
  - cbn [parseRecords records_bytes map concat]. rewrite app_nil_r, Z.leb_refl. done.
  - apply Forall_cons in Hv as [Hr Hv]. cbn [parseRecords map]. cbn in Hf.
    change (records_bytes (r :: rs)) with (v2_bytes r ++ records_bytes rs) in *.
    pose proof (v2_length_bounds r Hr) as [L60 L32]. pose proof (len_v2_bytes r) as L. pose proof (len_nonneg pre).
    pose proof (len_nonneg (records_bytes rs)). pose proof (v2_bytes_prefix r Hr) as (P1 & P2 & P3).
    assert (len (pre ++ v2_bytes r ++ records_bytes rs) = len pre + v2_length r + len (records_bytes rs)) as Lt
      by (rewrite !len_app; lia).
    rewrite Lt in Hb. rewrite Lt. rewrite (proj2 (Z.leb_gt _ _)), (proj2 (Z.ltb_ge _ 8)) by lia. rewrite !le_at_Ok by lia.
    cbn [res_bind].
    rewrite sub_middle_0, !sub_middle, P1, P2, P3 by lia. cbn [res_bind].
    rewrite i64_small by (unfold is_i64; lia). unfold usnV2HeaderSize.
    rewrite !(proj2 (Z.ltb_ge _ _)) by lia. cbn [orb negb Z.eqb Pos.eqb].
    rewrite slice_Ok by lia. cbn [res_bind].
    rewrite sub_middle_0, sub_whole, parseV2Record_bytes by lia || done. cbn [res_bind].
    replace (len pre + v2_length r) with (len (pre ++ v2_bytes r)) by (rewrite len_app; lia).
    rewrite app_assoc, IH; [done|done| |lia]. rewrite <- app_assoc, Lt. lia.
Qed.

(** A slice of a slice. *)
Lemma sub_of_sub lo a b hi (raw : bytes) : 0 <= lo -> 0 <= a -> a <= b -> lo + b <= hi -> hi <= len raw ->
  sub a b (sub lo hi raw) = sub (lo + a) (lo + b) raw.
Proof.
  intros. rewrite (sub_split lo (lo + a) hi), (sub_split (lo + a) (lo + b) hi) by lia.
  apply sub_app_field; rewrite len_sub; lia.
Qed.

Lemma parseRecords_inv fuel buffer offset changes :
  parseRecords fuel buffer offset = Ok changes -> 0 <= offset <= len buffer -> len buffer <= 2 ^ 62 ->
  exists rs, Forall v2_valid rs /\ sub offset (len buffer) buffer = records_bytes rs /\ changes = map v2_observation rs.
Proof.
  revert offset changes. induction fuel as [|fuel IH]; intros offset changes H Ho Hb; [done|]. cbn [parseRecords] in H.
  destruct (Z.leb_spec (len buffer) offset).
  { injection H as <-. exists []. split_and!; [constructor| |done].
    apply len_zero_nil. rewrite len_sub; lia. }
  destruct (Z.ltb_spec (len buffer - offset) 8); [done|]. rewrite !le_at_Ok in H by lia. cbn [res_bind] in H.
  set (n := le_get (sub offset (offset + 4) buffer)) in *.
  assert (is_u32 n) as Hn by (apply le_get_u32; rewrite len_sub; lia).
  assert (i64 (offset + n) = offset + n) as En by (apply i64_small; unfold is_i64, is_u32 in *; lia).
  rewrite En in H. unfold usnV2HeaderSize in H. res_inv H. bool_hyps.
  match goal with G : slice _ _ _ = Ok _ |- _ => rewrite slice_Ok in G by lia; injection G as <- end.
  match goal with G : (le_get (sub (offset + 4) _ _) =? 2) = true |- _ => apply Z.eqb_eq in G; rename G into Hmaj end.
  match goal with G : parseV2Record _ _ _ = _ |- _ => rewrite Hmaj in G; rename G into Hrec end.
  match goal with G : parseRecords _ _ _ = _ |- _ => apply IH in G as (rs & Hv & Hs & ->); [|lia|done] end.
  set (raw := sub offset (offset + n) buffer) in *.
  assert (len raw = n) as Lraw by (unfold raw; rewrite len_sub; lia).
  assert (forall a b, 0 <= a -> a <= b -> b <= 8 -> sub a b raw = sub (offset + a) (offset + b) buffer) as Hsub
    by (intros; apply sub_of_sub; lia).
  apply parseV2Record_inv in Hrec as (V & Eb & ->); rewrite ?Lraw, ?Hsub, ?Z.add_0_r by lia; try done.
  set (r := v2_of raw _) in *. exists (r :: rs). split_and!; [by constructor| |done].
  change (records_bytes (r :: rs)) with (v2_bytes r ++ records_bytes rs).
  rewrite <- Eb, <- Hs. apply sub_split; lia.
Qed.

(** [C26] The decoder accepts a buffer exactly when it is the next USN followed by well-formed
    version 2 records, and then it returns that USN and one observation per record, in order. *)
Theorem parseReadBuffer_exact buffer next changes :
  len buffer <= 2 ^ 62 ->
  parseReadBuffer buffer = Ok (next, changes) <->
  exists rs, 0 <= next < 2 ^ 63 /\ Forall v2_valid rs /\ buffer = buffer_bytes next rs /\ changes = map v2_observation rs.
Proof.
  intros Hb. unfold parseReadBuffer. split.
  - destruct (Z.ltb_spec (len buffer) 8); [done|]. rewrite le_at_Ok by lia. cbn [res_bind]. cbv zeta. intros H'. res_inv H'.
    assert (is_u64 (le_get (sub 0 8 buffer))) by (apply le_get_u64; rewrite len_sub; lia).
    match goal with G : (i64 _ <? 0) = false |- _ => apply i64_nonneg in G as [Hu Eu]; [|done] end.
    match goal with G : parseRecords _ _ _ = _ |- _ => apply parseRecords_inv in G as (rs & Hv & Hs & ->); [|lia|done] end.
    exists rs. rewrite Eu. split_and!; try done; try lia. unfold buffer_bytes.
    rewrite PutUint64LE_get by (rewrite len_sub; lia). rewrite <- Hs, <- (sub_split 0) by lia. by rewrite sub_whole.
  - intros (rs & Hn & Hv & -> & ->). unfold buffer_bytes in *.
    assert (len (PutUint64LE next) = 8) as L8 by apply len_PutUint64LE.
    pose proof (len_nonneg (records_bytes rs)). rewrite len_app, (proj2 (Z.ltb_ge _ 8)) by lia.
    rewrite le_at_Ok by (rewrite ?len_app; lia). cbn [res_bind]. cbv zeta.
    rewrite sub_here, le_get_PutUint64, i64_small by (first [done|unfold is_u64, is_i64; lia]).
    rewrite (proj2 (Z.ltb_ge next 0)) by lia. rewrite <- L8 at 1. rewrite parseRecords_bytes; [done..|].
    rewrite length_app. enough (length rs <= length (records_bytes rs))%nat by lia. clear -Hv.
    induction Hv as [|r rs Hr _ IH]; [done|]. change (records_bytes (r :: rs)) with (v2_bytes r ++ records_bytes rs).
    rewrite length_app. cbn [length]. pose proof (len_v2_bytes r). pose proof (v2_length_bounds r Hr). unfold len in *. lia.
Qed.

(** ** What the decoder hands on *)

Lemma knownReasons_nodup : NoDup knownReasons.*2.
Proof. apply (bool_decide_unpack _). vm_compute. exact I. Qed.

(** The names of a reason are sorted, without duplicates. *)
Lemma reasonNames_strict reason : strictly_sorted (reasonNames reason).
Proof.
  unfold reasonNames. apply sorted_nodup_strict; [apply sort_Strings_sorted|].
  rewrite sort_Strings_perm. generalize knownReasons_nodup.
  induction knownReasons as [|[k n] known IH]; cbn [List.filter fmap list_fmap fst snd]; intros Hn; [constructor|].
  apply NoDup_cons in Hn as [Hin Hn]. destruct (negb _); [|by apply IH]. cbn [fmap list_fmap snd]. constructor; [|by apply IH].
  contradict Hin. apply list_elem_of_fmap in Hin as (x & -> & Hx). apply list_elem_of_fmap. exists x. split; [done|].
  apply list_elem_of_In, filter_In in Hx as [Hx _]. by apply list_elem_of_In.
Qed.

(** A file reference is a record number of 48 bits and a sequence number of 16. *)
Lemma reference_parts reference : is_u64 reference ->
  Z.land reference 281474976710655 = reference mod 2 ^ 48 /\ Z.shiftr reference 48 = reference / 2 ^ 48 /\
  0 <= reference mod 2 ^ 48 < 2 ^ 48 /\ 0 <= reference / 2 ^ 48 < 2 ^ 16.
Proof.
  unfold is_u64. intros Hr. split_and!; [apply (Z.land_ones reference 48)|apply Z.shiftr_div_pow2|apply Z.mod_pos_bound..| |];
    [lia..|apply Z.div_pos; lia|apply Z.div_lt_upper_bound; lia].
Qed.

Lemma identityFromReference_valid reference :
  is_u64 reference -> ValidateNTFSObjectIdentity (identityFromReference reference) = Ok tt.
Proof.
  intros (El & Es & Hl & Hs)%reference_parts.
  unfold ValidateNTFSObjectIdentity, identityFromReference. cbn [MethodVersion FileReferenceNumber SequenceNumber].
  rewrite El, Es, !validateDecimalMax_FormatUint; [done|..];
    unfold maxNTFSFileReferenceNumber, maxNTFSSequenceNumber, max_u64; lia.
Qed.

Lemma FormatUint_inj a b : is_u64 a -> is_u64 b -> FormatUint a = FormatUint b -> a = b.
Proof. intros Ha Hb E. pose proof (canonicalUnsigned_FormatUint a Ha) as Pa. rewrite E, canonicalUnsigned_FormatUint in Pa by done. congruence. Qed.

Lemma identityFromReference_inj a b : is_u64 a -> is_u64 b -> identityFromReference a = identityFromReference b -> a = b.
Proof.
  unfold identityFromReference. intros (La & Sa & Ha & Ha')%reference_parts (Lb & Sb & Hb & Hb')%reference_parts [= El Es].
  rewrite La, Lb in El. rewrite Sa, Sb in Es. apply FormatUint_inj in El, Es; unfold is_u64; try lia.
  rewrite (Z.div_mod a (2 ^ 48)), (Z.div_mod b (2 ^ 48)) by lia. congruence.
Qed.

(** The last file time whose canonical form has a four-digit year. *)
Definition maximum_filetime : Z := (253402300800 + windowsUnixEpochOffsetSeconds) * 10000000.

Lemma v2_timestamp_valid r : 0 <= v_time r < maximum_filetime -> valid_time (v2_timestamp r).
Proof.
  unfold maximum_filetime, windowsUnixEpochOffsetSeconds. intros Ht. pose proof (Z.mod_pos_bound (v_time r) 10000000 ltac:(lia)).
  pose proof (Z.div_pos (v_time r) 10000000 ltac:(lia) ltac:(lia)).
  assert (v_time r / 10000000 < 253402300800 + 11644473600) by (apply Z.div_lt_upper_bound; lia).
  apply time_Unix_valid; unfold windowsUnixEpochOffsetSeconds; lia.
Qed.

(** A file time counts hundreds of nanoseconds: the civil time keeps all of it. *)
Lemma v2_timestamp_inj r r' : 0 <= v_time r -> 0 <= v_time r' -> v2_timestamp r = v2_timestamp r' -> v_time r = v_time r'.
Proof.
  unfold v2_timestamp. intros H H' E. pose proof (f_equal unix_seconds E) as Es. pose proof (f_equal nanosecond E) as En.
  rewrite !time_Unix_seconds in Es. rewrite !time_Unix_nanosecond in En.
  rewrite (Z.div_mod (v_time r) 10000000), (Z.div_mod (v_time r') 10000000) by lia. lia.
Qed.

Lemma v2_observation_valid r :
  v2_fields_valid r -> v_time r < maximum_filetime -> ValidateUSNChangeObservation (v2_observation r) = Ok tt.
Proof.
  intros (Hm & Hf & Hp & Hu & Ht & Hr & Hs & Hse & Ha & Hn & Heven) Htime.
  unfold ValidateUSNChangeObservation, v2_observation, ValidateObservedAt.
  cbn [MajorVersion MinorVersion FileIdentity ParentIdentity USN Timestamp ReasonRaw ReasonNames SourceInfoRaw SecurityID
       FileAttributesRaw FileNameUTF16LEBase64URL].
  rewrite bool_decide_eq_true_2 by done. cbn [negb].
  rewrite validateDecimal_FormatUint by (unfold is_u16, is_u64 in *; lia). cbn [res_bind].
  rewrite !identityFromReference_valid by done. cbn [res_bind validateDecimals].
  rewrite !validateDecimal_FormatUint by (unfold is_u32, is_u64 in *; lia). cbn [res_bind].
  rewrite (proj2 (validateTimestamp_spec _ _)) by (exists (v2_timestamp r); split; [apply v2_timestamp_valid; lia|done]). cbn [res_bind].
  unfold validateUTF16LEBase64URL, decodeUTF16LEBase64URLUnits.
  rewrite (proj2 (decodeBase64URL_spec _ _ (v_name r))) by done. cbn [res_bind]. rewrite Heven. cbn [res_bind negb Z.eqb].
  destruct (strictly_sorted_checks _ (reasonNames_strict (v_reason r))) as [-> ->]. done.
Qed.

(** [C27] Whatever bytes the record decoder accepts, if their time stamp is before the year
    10000 the observation it returns passes the validation of the record model: its decimals,
    identities and time are canonical, its name is whole UTF-16 units, its reasons are sorted. *)
Theorem parseV2Record_valid raw minor change :
  is_u16 minor -> le_get (sub 32 40 raw) < maximum_filetime ->
  parseV2Record raw 2 minor = Ok change -> ValidateUSNChangeObservation change = Ok tt.
Proof.
  intros Hm Ht H. apply parseV2Record_fields in H as (_ & _ & _ & Hf & ->); [|done]. by apply v2_observation_valid.
Qed.

#[local] Opaque FormatUint Format_nano b64_encode reasonNames identityFromReference time_Unix.

(** An observation keeps everything its record says: two records with the same observation
    differ at most in padding. *)
Theorem v2_observation_lossless r r' :
  v2_valid r -> v2_valid r' -> v_time r < maximum_filetime -> v_time r' < maximum_filetime ->
  v2_observation r = v2_observation r' ->
  v_minor r = v_minor r' /\ v_file r = v_file r' /\ v_parent r = v_parent r' /\ v_usn r = v_usn r' /\
  v_time r = v_time r' /\ v_reason r = v_reason r' /\ v_source r = v_source r' /\ v_security r = v_security r' /\
  v_attributes r = v_attributes r' /\ v_name r = v_name r'.
Proof.
  intros ((Hm & Hf & Hp & Hu & Ht & Hr & Hs & Hse & Ha & Hn & Heven) & Hg & Hl)
    ((Hm' & Hf' & Hp' & Hu' & Ht' & Hr' & Hs' & Hse' & Ha' & Hn' & Heven') & Hg' & Hl') T T'.
  intros E. unfold is_u16, is_u32 in *.
  pose proof (f_equal MinorVersion E) as E1. pose proof (f_equal FileIdentity E) as E2.
  pose proof (f_equal ParentIdentity E) as E3. pose proof (f_equal USN E) as E4. pose proof (f_equal Timestamp E) as E5.
  pose proof (f_equal ReasonRaw E) as E6. pose proof (f_equal SourceInfoRaw E) as E7. pose proof (f_equal SecurityID E) as E8.
  pose proof (f_equal FileAttributesRaw E) as E9. pose proof (f_equal FileNameUTF16LEBase64URL E) as E10.
  unfold v2_observation in *.
  cbn [MinorVersion FileIdentity ParentIdentity USN Timestamp ReasonRaw SourceInfoRaw SecurityID
       FileAttributesRaw FileNameUTF16LEBase64URL] in E1, E2, E3, E4, E5, E6, E7, E8, E9, E10.
  apply FormatUint_inj in E1, E4, E6, E7, E8, E9; try (unfold is_u64; lia).
  apply identityFromReference_inj in E2, E3; try done.
  apply Format_nano_inj, v2_timestamp_inj in E5; try (apply v2_timestamp_valid); try lia.
  pose proof (b64_decode_encode true (v_name r)) as D. rewrite E10, b64_decode_encode in D.
  injection D as D. clear E E10. by split_and!.
Qed.

(** ** A buffer with one record: the creation of a file [a.txt] *)

Definition demoRecord : USN_RECORD_V2 := {|
  v_minor := 0; v_file := 281474976710999; v_parent := 1407374883553285; v_usn := 4096; v_time := 134116992000000000;
  v_reason := 256; v_source := 0; v_security := 0; v_attributes := 32; v_gap := [];
  v_name := bytes_of [97; 46; 116; 120; 116]; v_tail := zeros 2 |}.

Lemma demoRecord_valid : v2_valid demoRecord.
Proof. repeat split; vm_compute; congruence. Qed.

Lemma parseReadBuffer_exact_witness :
  parseReadBuffer (buffer_bytes 4168 [demoRecord]) = Ok (4168, [v2_observation demoRecord]) <->
  exists rs, 0 <= 4168 < 2 ^ 63 /\ Forall v2_valid rs /\ buffer_bytes 4168 [demoRecord] = buffer_bytes 4168 rs /\
    [v2_observation demoRecord] = map v2_observation rs.
Proof. apply parseReadBuffer_exact. vm_compute. discriminate. Defined.

(** A record whose length field runs past the buffer. *)
Lemma parseReadBuffer_no_panic_witness : parseReadBuffer (PutUint64LE 8 ++ PutUint32LE 4294967295 ++ zeros 4) <> Panic.
Proof. apply parseReadBuffer_no_panic. vm_compute. discriminate. Defined.

Lemma parseV2Record_valid_witness :
  exists change, parseV2Record (v2_bytes demoRecord) 2 0 = Ok change /\ ValidateUSNChangeObservation change = Ok tt.
Proof.
  exists (v2_observation demoRecord). assert (parseV2Record (v2_bytes demoRecord) 2 0 = Ok (v2_observation demoRecord)) as H.
  { apply parseV2Record_bytes, demoRecord_valid. }
  split; [exact H|]. apply (parseV2Record_valid (v2_bytes demoRecord) 0); [split; lia|vm_compute; reflexivity|exact H].
Defined.

(** With an odd name length the decoder refuses the same bytes. *)
Example parseV2Record_odd_name :
  parseV2Record (<[56%nat := z2b 9]> (v2_bytes demoRecord)) 2 0 = Err ErrMalformedUSNBuffer.
Proof. vm_compute. reflexivity. Qed.

Lemma v2_observation_lossless_witness : v_file demoRecord = v_file demoRecord /\ v_name demoRecord = v_name demoRecord.
Proof.
  destruct (v2_observation_lossless demoRecord demoRecord demoRecord_valid demoRecord_valid) as (_ & Hf & _ & _ & _ & _ & _ & _ & _ & Hn);
    [vm_compute; reflexivity..|]. exact (conj Hf Hn).
Defined.

End usn.
