(* ===== verification/Reobserve.v ===== *)
(** * Fresh observation of the objects a journal batch names

    Models [go/internal/windows/usn/reobserve_windows.go] and
    [containment_windows.go]: the distinct objects of a batch, the attempt to observe each
    of them again, the fallback to the privileged helpers and the classification of
    failures. The collector, the backup observer and the containment helper are parameters,
    and so is what an observation holds. *)

From stdpp Require Import gmap.
From S2P Require Import Prelude GoBytes GoStrings GoText GoIO GoFS Records Brokers Usn.

Module reobserve.
Import records.

#[global] Instance NTFSObjectIdentity_eq_decision : EqDecision NTFSObjectIdentity.
Proof. solve_decision. Defined.
#[global] Instance NTFSObjectIdentity_countable : Countable NTFSObjectIdentity.
Proof.
  apply (inj_countable' (fun i => (MethodVersion i, FileReferenceNumber i, SequenceNumber i))
           (fun '(m, f, s) => {| MethodVersion := m; FileReferenceNumber := f; SequenceNumber := s |})).
  by intros [].
Defined.

(** ** Errors of the collection

    The errors here carry the stage and the operation of [*ntfs.Error] and Windows error
    numbers, and their text is kept in the results. *)

Inductive collect_error :=
| ErrOutsideGovernedRoot
| Errno (code : Z) (text : bytes)
| NTFSError (stage op : bytes) (cause : collect_error)
| Message (text : bytes)
| Wrapped (prefix : bytes) (cause : collect_error)
| Joined (errs : list collect_error).

(** The texts of joined errors, one per line. *)
Fixpoint join_lines (texts : list bytes) : bytes :=
  match texts with
  | [] => []
  | [t] => t
  | t :: texts => t ++ z2b 10 :: join_lines texts
  end.

(** [err.Error()]. *)
Fixpoint error_text (e : collect_error) : bytes :=
  match e with
  | ErrOutsideGovernedRoot => bs "path is outside the governed root"
  | Errno _ text | Message text => text
  | NTFSError stage op cause => bs "ntfs " ++ stage ++ bs "/" ++ op ++ bs ": " ++ error_text cause
  | Wrapped prefix cause => prefix ++ error_text cause
  | Joined errs => join_lines (map error_text errs)
  end.
(** The chain of wrapped errors in the order [errors.Is] and [errors.As] walk it. *)
Fixpoint chain (e : collect_error) : list collect_error :=
  e :: match e with
       | NTFSError _ _ cause | Wrapped _ cause => chain cause
       | Joined errs => concat (map chain errs)
       | _ => []
       end.

(** [errors.Is(err, code)] for a Windows error number, [errors.Is(err, ErrOutsideGovernedRoot)],
    and the first [*ntfs.Error] that [errors.As] finds. *)
Definition Is_errno (e : collect_error) (code : Z) : bool :=
  existsb (fun l => match l with Errno c _ => c =? code | _ => false end) (chain e).
Definition Is_outside (e : collect_error) : bool :=
  existsb (fun l => match l with ErrOutsideGovernedRoot => true | _ => false end) (chain e).
Fixpoint first_ntfs (l : list collect_error) : option (bytes * bytes) :=
  match l with
  | [] => None
  | NTFSError stage op _ :: _ => Some (stage, op)
  | _ :: l => first_ntfs l
  end.
Definition As_ntfs (e : collect_error) : option (bytes * bytes) := first_ntfs (chain e).

Definition ERROR_FILE_NOT_FOUND : Z := 2.
Definition ERROR_PATH_NOT_FOUND : Z := 3.
Definition ERROR_ACCESS_DENIED : Z := 5.
Definition windowsErrorInvalidParameter : Z := 87.
Definition StageOpen : bytes := bs "Open".

(** The failure is the opening by File ID itself. *)
Definition at_OpenFileById (e : collect_error) : bool :=
  match As_ntfs e with
  | Some (stage, op) => bool_decide (stage = StageOpen) && bool_decide (op = bs "OpenFileById")
  | None => false
  end.

Definition IsOpenFileByIDAccessDenied (e : collect_error) : bool :=
  at_OpenFileById e && Is_errno e ERROR_ACCESS_DENIED.

Inductive ReobservationStatus :=
| ReobservationObserved | ReobservationOutsideGovernedRoot | ReobservationUnavailable | ReobservationError.
#[global] Instance ReobservationStatus_eq_decision : EqDecision ReobservationStatus.
Proof. solve_decision. Defined.

Definition ReobservationReasonContainedObjectAccessDenied : bytes := bs "ContainedObjectAccessDenied".
Definition ReobservationReasonBackupAuthorityObservationFailed : bytes := bs "BackupAuthorityObservationFailed".

Definition classifyReobservationError (e : collect_error) : ReobservationStatus * bytes :=
  if Is_outside e then (ReobservationOutsideGovernedRoot, bs "OutsideGovernedRoot")
  else if at_OpenFileById e &&
          (Is_errno e ERROR_FILE_NOT_FOUND || Is_errno e ERROR_PATH_NOT_FOUND || Is_errno e windowsErrorInvalidParameter)
  then (ReobservationUnavailable, bs "ObjectUnavailableAfterUSN")
  else (ReobservationError, bs "ReobservationFailed").

(** ** The distinct objects of a batch *)

Record reobservationCandidate := Candidate { identity : NTFSObjectIdentity; triggerUSNs : list bytes }.

(** One turn of the loop: the map from identities to positions and the candidates so far. *)
Definition addCandidate (positions : gmap NTFSObjectIdentity nat) (candidates : list reobservationCandidate)
    (change : USNChangeObservation) : gmap NTFSObjectIdentity nat * list reobservationCandidate :=
  match positions !! FileIdentity change with
  | None => (<[FileIdentity change := length candidates]> positions,
             candidates ++ [Candidate (FileIdentity change) [USN change]])
  | Some position =>
      (positions,
       alter (fun c => if bool_decide (last (triggerUSNs c) = Some (USN change)) then c
                       else Candidate (identity c) (triggerUSNs c ++ [USN change])) position candidates)
  end.

Definition distinctReobservationCandidates (changes : list USNChangeObservation) : list reobservationCandidate :=
  (fold_left (fun '(positions, candidates) change => addCandidate positions candidates change) changes (∅, [])).2.

(** ** Observing them again *)

(** The answers of the containment helper. *)
Inductive ContainmentResult := ContainmentContained | ContainmentOutside | ContainmentUnavailable | ContainmentOther.

Section Reobserve.
Context {Observation : Type}.

Record ChangeReobservation := {
  ReFileIdentity : NTFSObjectIdentity;
  TriggerUSNs : list bytes;
  Status : ReobservationStatus;
  ReReasonCode : bytes;
  ReError : bytes;
  ReObservation : option Observation
}.

(** The collaborators: the context's error when the [i]-th object is reached, the ordinary
    collection, the backup observer and the containment helper. *)
Record dependencies := {
  ctx_Err : nat -> option bytes;
  collect : bytes -> bytes -> NTFSObjectIdentity -> Observation + collect_error;
  observeBackup : bytes -> NTFSObjectIdentity -> Observation + collect_error;
  checkContainment : bytes -> NTFSObjectIdentity -> ContainmentResult + collect_error
}.

Definition observedReobservation (candidate : reobservationCandidate) (observation : Observation) : ChangeReobservation :=
  {| ReFileIdentity := identity candidate; TriggerUSNs := triggerUSNs candidate; Status := ReobservationObserved;
     ReReasonCode := []; ReError := []; ReObservation := Some observation |}.

(** A result without an observation. *)
Definition failedReobservation (candidate : reobservationCandidate) (status : ReobservationStatus) (reason text : bytes)
  : ChangeReobservation :=
  {| ReFileIdentity := identity candidate; TriggerUSNs := triggerUSNs candidate; Status := status;
     ReReasonCode := reason; ReError := text; ReObservation := None |}.

Definition classifyBackupAuthorityFailure (deps : dependencies) (governedRoot : bytes) (candidate : reobservationCandidate)
    (ordinaryErr backupErr : collect_error) : ChangeReobservation :=
  let backup := Wrapped (bs "FIObjReader observation: ") backupErr in
  let errorText := error_text (Joined [ordinaryErr; backup]) in
  match checkContainment deps governedRoot (identity candidate) with
  | inr containmentErr =>
      failedReobservation candidate ReobservationError (bs "ReobservationFailed")
        (error_text (Joined [ordinaryErr; backup; Wrapped (bs "FIUSNReader containment: ") containmentErr]))
  | inl ContainmentOutside =>
      failedReobservation candidate ReobservationOutsideGovernedRoot (bs "OutsideGovernedRoot") []
  | inl ContainmentUnavailable =>
      failedReobservation candidate ReobservationUnavailable (bs "ObjectUnavailableAfterUSN") []
  | inl ContainmentContained =>
      failedReobservation candidate ReobservationError ReobservationReasonBackupAuthorityObservationFailed errorText
  | inl ContainmentOther =>
      failedReobservation candidate ReobservationError (bs "ReobservationFailed") errorText
  end.

(** The body of the loop for the [i]-th candidate. *)
Definition reobserveCandidate (deps : dependencies) (scopeID governedRoot : bytes) (i : nat)
    (candidate : reobservationCandidate) : ChangeReobservation :=
  match ctx_Err deps i with
  | Some text => failedReobservation candidate ReobservationError (bs "ContextCanceled") text
  | None =>
      match collect deps scopeID governedRoot (identity candidate) with
      | inl observation => observedReobservation candidate observation
      | inr err =>
          if IsOpenFileByIDAccessDenied err then
            match observeBackup deps governedRoot (identity candidate) with
            | inl backupObservation => observedReobservation candidate backupObservation
            | inr backupErr => classifyBackupAuthorityFailure deps governedRoot candidate err backupErr
            end
          else
            let '(status, reason) := classifyReobservationError err in
            failedReobservation candidate status reason (error_text err)
      end
  end.

Record ReobservationBatch := { USNBatch : USNReadBatch; Reobservations : list ChangeReobservation }.

Definition reobserveBatchWithDependencies (deps : dependencies) (governedRoot : bytes) (batch : USNReadBatch)
  : ReobservationBatch :=
  {| USNBatch := batch;
     Reobservations := imap (reobserveCandidate deps (BatchScopeID batch) governedRoot)
                         (distinctReobservationCandidates (Records batch)) |}.

(** The outcome of the journaled operation; [cancelled] is the context at the end. *)
Definition reobservationOperationOutcome (cancelled : bool) (result : ReobservationBatch) : bytes * bytes :=
  if cancelled then (OperationInterrupted, bs "ContextCanceled")
  else if existsb (fun o => bool_decide (Status o = ReobservationError)) (Reobservations result)
  then (OperationPartial, bs "OneOrMoreReobservationsFailed")
  else (OperationComplete, []).

End Reobserve.
Arguments ChangeReobservation : clear implicits.
Arguments dependencies : clear implicits.
Arguments ReobservationBatch : clear implicits.

(** ** The candidates are exactly the distinct objects of the batch

    The reference: the identities in the order they are first seen, each with the USNs of
    its records, where a USN repeated by its immediate neighbour is kept once. *)

Definition first_seen {A} `{EqDecision A} (l : list A) : list A :=
  fold_left (fun acc x => if decide (x ∈ acc) then acc else acc ++ [x]) l [].
Definition squeeze (l : list bytes) : list bytes :=
  fold_left (fun acc x => if bool_decide (last acc = Some x) then acc else acc ++ [x]) l [].
Definition changes_of (changes : list USNChangeObservation) (id : NTFSObjectIdentity) : list USNChangeObservation :=
  List.filter (fun c => bool_decide (FileIdentity c = id)) changes.
Definition candidate_of (changes : list USNChangeObservation) (id : NTFSObjectIdentity) : reobservationCandidate :=
  Candidate id (squeeze (map USN (changes_of changes id))).

Lemma first_seen_snoc {A} `{EqDecision A} (l : list A) x :
  first_seen (l ++ [x]) = if decide (x ∈ first_seen l) then first_seen l else first_seen l ++ [x].
Proof. unfold first_seen. by rewrite fold_left_app. Qed.

Lemma first_seen_elem {A} `{EqDecision A} (l : list A) x : x ∈ first_seen l <-> x ∈ l.
Proof.
  induction l as [|y l IH] using rev_ind; [done|]. rewrite first_seen_snoc, elem_of_app, list_elem_of_singleton.
  destruct (decide _) as [Hy|_].
  - rewrite IH. split; [auto|]. intros [?| ->]; [done|by apply IH].
  - by rewrite elem_of_app, list_elem_of_singleton, IH.
Qed.

Lemma first_seen_NoDup {A} `{EqDecision A} (l : list A) : NoDup (first_seen l).
Proof.
  induction l as [|y l IH] using rev_ind; [constructor|]. rewrite first_seen_snoc. destruct (decide _) as [|Hy]; [done|].
  apply NoDup_app. split_and!; [done| |apply NoDup_singleton]. by intros x Hx ->%list_elem_of_singleton.
Qed.

Lemma squeeze_snoc l x : squeeze (l ++ [x]) = if bool_decide (last (squeeze l) = Some x) then squeeze l else squeeze l ++ [x].
Proof. unfold squeeze. by rewrite fold_left_app. Qed.

Lemma squeeze_elem l x : x ∈ squeeze l <-> x ∈ l.
Proof.
  induction l as [|y l IH] using rev_ind; [done|]. rewrite squeeze_snoc, elem_of_app, list_elem_of_singleton. case_bool_decide as Hy.
  - rewrite IH. split; [auto|]. intros [?| ->]; [done|]. apply IH. apply last_Some in Hy as [l' ->]. rewrite elem_of_app. right. by left.
  - by rewrite elem_of_app, list_elem_of_singleton, IH.
Qed.

Lemma changes_of_snoc changes c id :
  changes_of (changes ++ [c]) id = changes_of changes id ++ (if bool_decide (FileIdentity c = id) then [c] else []).
Proof. unfold changes_of. rewrite List.filter_app. cbn [List.filter]. by case_bool_decide. Qed.

Lemma changes_of_elem changes id c : c ∈ changes_of changes id <-> c ∈ changes /\ FileIdentity c = id.
Proof.
  unfold changes_of. rewrite list_elem_of_In, filter_In, <- list_elem_of_In. by rewrite bool_decide_eq_true.
Qed.

(** A record of another object does not change a candidate. *)
Lemma candidate_of_other changes c id : FileIdentity c <> id -> candidate_of (changes ++ [c]) id = candidate_of changes id.
Proof. intros Hn. unfold candidate_of. by rewrite changes_of_snoc, bool_decide_eq_false_2, app_nil_r. Qed.

Lemma candidate_of_same changes c : let old := candidate_of changes (FileIdentity c) in
  candidate_of (changes ++ [c]) (FileIdentity c) =
  if bool_decide (last (triggerUSNs old) = Some (USN c)) then old else Candidate (identity old) (triggerUSNs old ++ [USN c]).
Proof.
  unfold candidate_of. cbn [identity triggerUSNs]. rewrite changes_of_snoc, bool_decide_eq_true_2, map_app by done. cbn [map].
  rewrite squeeze_snoc. by case_bool_decide.
Qed.

(** What the loop has built after the records [changes]. *)
Lemma candidates_built changes :
  let ids := first_seen (map FileIdentity changes) in
  let '(positions, candidates) :=
    fold_left (fun '(positions, candidates) change => addCandidate positions candidates change) changes (∅, []) in
  candidates = map (candidate_of changes) ids /\ forall id p, positions !! id = Some p <-> ids !! p = Some id.
Proof.
  induction changes as [|c changes IH] using rev_ind; [split; [done|]; intros id p; by rewrite lookup_empty, (lookup_nil p : first_seen (map FileIdentity []) !! p = None)|].
  cbv zeta in *. rewrite fold_left_app, map_app. cbn [fold_left map]. rewrite first_seen_snoc.
  destruct (fold_left _ changes _) as [positions candidates]. destruct IH as [-> Hp]. set (ids := first_seen _) in *.
  pose proof (first_seen_NoDup (map FileIdentity changes)) as Hnd. fold ids in Hnd. unfold addCandidate.
  destruct (positions !! FileIdentity c) as [p|] eqn:E.
  - apply Hp in E. rewrite decide_True by (by eapply list_elem_of_lookup_2). split; [|done].
    apply list_eq. intros q. destruct (decide (q = p)) as [->|Hq].
    + rewrite list_lookup_alter, decide_True, !list_lookup_fmap, E by done. cbn [fmap option_fmap option_map]. by rewrite candidate_of_same.
    + rewrite list_lookup_alter_ne, !list_lookup_fmap by done. destruct (ids !! q) as [id|] eqn:Eq; [|done].
      cbn [fmap option_fmap option_map]. rewrite candidate_of_other; [done|]. intros <-. apply Hq. by eapply NoDup_lookup.
  - assert (FileIdentity c ∉ ids) as Hn.
    { intros [p Hi]%list_elem_of_lookup. apply Hp in Hi. congruence. }
    rewrite decide_False by done. split.
    + rewrite map_app. cbn [map]. f_equal.
      * apply map_ext_in. intros id Hid%list_elem_of_In. symmetry. apply candidate_of_other. by intros <-.
      * rewrite candidate_of_same. cbn. assert (changes_of changes (FileIdentity c) = []) as ->; [|done].
        apply elem_of_nil_inv. intros x [Hx Ex]%changes_of_elem. apply Hn, first_seen_elem. rewrite <- Ex. by apply list_elem_of_fmap_2.
    + intros id p. rewrite length_map. destruct (decide (id = FileIdentity c)) as [->|Hid].
      * rewrite lookup_insert_eq. split; [intros [= <-]; by rewrite lookup_app_r, Nat.sub_diag by lia|].
        intros [Hl|[Hge Hl]]%lookup_app_Some; [by apply list_elem_of_lookup_2 in Hl|].
        apply list_lookup_singleton_Some in Hl as [Hl _]. f_equal. lia.
      * rewrite lookup_insert_ne, Hp by done. split; [by apply lookup_app_l_Some|].
        intros [Hl|[_ Hl]]%lookup_app_Some; [done|]. by apply list_lookup_singleton_Some in Hl as [_ <-].
Qed.

(** The loop computes the reference: every object of the batch once, in the order the
    journal first names it, with all of its USNs. *)
Lemma distinctReobservationCandidates_reference changes :
  distinctReobservationCandidates changes = map (candidate_of changes) (first_seen (map FileIdentity changes)).
Proof.
  unfold distinctReobservationCandidates. pose proof (candidates_built changes) as H. cbv zeta in H.
  destruct (fold_left _ changes _) as [positions candidates]. apply H.
Qed.

Section Results.
Context {Observation : Type} (deps : dependencies Observation) (governedRoot : bytes).

(** Whatever the collaborators answer, the batch is kept whole, and its objects have one
    result each, in order, with every USN that named them. *)
Lemma reobserveBatch_complete batch :
  let result := reobserveBatchWithDependencies deps governedRoot batch in
  USNBatch result = batch /\
  map ReFileIdentity (Reobservations result) = first_seen (map FileIdentity (Records batch)) /\
  NoDup (map ReFileIdentity (Reobservations result)) /\
  (forall change, change ∈ Records batch ->
     exists r, r ∈ Reobservations result /\ ReFileIdentity r = FileIdentity change /\ USN change ∈ TriggerUSNs r).
Proof.
  cbv zeta. set (result := reobserveBatchWithDependencies deps governedRoot batch).
  assert (forall i c, let r := reobserveCandidate deps (BatchScopeID batch) governedRoot i c in
    ReFileIdentity r = identity c /\ TriggerUSNs r = triggerUSNs c) as Hc.
  { intros i c. unfold reobserveCandidate, classifyBackupAuthorityFailure. repeat case_match; done. }
  assert (map ReFileIdentity (Reobservations result) = first_seen (map FileIdentity (Records batch))) as Hids.
  { unfold result, reobserveBatchWithDependencies. cbn [Reobservations]. rewrite distinctReobservationCandidates_reference.
    apply list_eq. intros i. rewrite list_lookup_fmap, list_lookup_imap, list_lookup_fmap.
    destruct (first_seen _ !! i) as [id|]; [|done]. cbn [fmap option_fmap option_map]. f_equal. apply Hc. }
  split_and!; [done|done|rewrite Hids; apply first_seen_NoDup|]. intros change Hin.
  assert (FileIdentity change ∈ first_seen (map FileIdentity (Records batch))) as Hid
    by (apply first_seen_elem; by apply list_elem_of_fmap_2).
  apply list_elem_of_lookup in Hid as [i Hi].
  exists (reobserveCandidate deps (BatchScopeID batch) governedRoot i (candidate_of (Records batch) (FileIdentity change))).
  destruct (Hc i (candidate_of (Records batch) (FileIdentity change))) as [Ei Et]. split_and!; [|done|].
  - unfold result, reobserveBatchWithDependencies. cbn [Reobservations]. rewrite distinctReobservationCandidates_reference.
    apply list_elem_of_lookup. exists i. by rewrite list_lookup_imap, list_lookup_fmap, Hi.
  - rewrite Et. apply squeeze_elem. apply list_elem_of_fmap_2. by apply changes_of_elem.
Qed.

(** The privileged helpers are asked about an object only when the ordinary opening of that
    object by its File ID was denied: otherwise the result does not depend on them. *)
Theorem reobserve_helpers_only_on_denied scopeID i candidate deps' :
  ctx_Err deps' = ctx_Err deps -> collect deps' = collect deps ->
  (forall err, collect deps scopeID governedRoot (identity candidate) = inr err -> IsOpenFileByIDAccessDenied err = false) ->
  reobserveCandidate deps' scopeID governedRoot i candidate = reobserveCandidate deps scopeID governedRoot i candidate.
Proof.
  intros Ec El Hd. unfold reobserveCandidate. rewrite Ec, El. destruct (ctx_Err deps i); [done|].
  destruct (collect deps scopeID governedRoot (identity candidate)) as [|err]; [done|]. by rewrite Hd.
Qed.

End Results.

End reobserve.
