(* ===== verification/UsnScope.v ===== *)
(** * Which objects of a journal batch belong to the governed root

    Models the scope rules of [go/cmd/fi/usn_spool_windows.go]: the direct rule on a fresh
    observation and the recorded parents, the fixed point over unavailable ancestors of the
    same batch, and the counts of the selection. The journal covers a whole volume; an object
    outside the root is left out, one whose scope cannot be told is kept. *)

From stdpp Require Import gmap.
From S2P Require Import Prelude GoBytes GoStrings GoText GoIO GoFS Records Brokers Usn Reobserve.

Module usnscope.
Import records reobserve.

Inductive scopeBasis :=
| CurrentObjectContained | CurrentObjectContainedByHelper | RecordedAncestorContained | RecordedParentContained
| ScopeUnresolvedIncluded.
#[global] Instance scopeBasis_eq_decision : EqDecision scopeBasis.
Proof. solve_decision. Defined.

Inductive parentScopeStatus := parentScopeContained | parentScopeOutside | parentScopeUnavailable | parentScopeError.
Record parentScopeResult := { ParentStatus : parentScopeStatus; ParentError : bytes }.

Definition scopeBasisProvesGovernedRootContainment (basis : scopeBasis) : bool :=
  match basis with ScopeUnresolvedIncluded => false | _ => true end.

Definition groupUSNChanges (changes : list USNChangeObservation)
  : gmap NTFSObjectIdentity (list USNChangeObservation) :=
  fold_left (fun grouped change =>
               <[FileIdentity change := default [] (grouped !! FileIdentity change) ++ [change]]> grouped) changes ∅.

Section Scope.
Context {Observation : Type}.
Abbreviation ChangeReobservation := (ChangeReobservation Observation).

Record selectedUSNObject := {
  SelReobservation : ChangeReobservation;
  SelChanges : list USNChangeObservation;
  ScopeBasis : scopeBasis;
  ScopeDetail : bytes
}.

Record usnScopeSelection := {
  Selected : list selectedUSNObject;
  SelectedUSNRecords : Z;
  IgnoredVolumeObjects : Z;
  IgnoredVolumeUSNRecords : Z;
  ScopeUnresolvedObjects : Z
}.

(** ** The recorded parents of one object *)

(** [checkRecordedParentScope]; the two helpers as in the re-observation. *)
Definition checkRecordedParentScope (deps : dependencies Observation) (scopeID governedRoot : bytes)
    (parent : NTFSObjectIdentity) : parentScopeResult :=
  match collect deps scopeID governedRoot parent with
  | inl _ => {| ParentStatus := parentScopeContained; ParentError := [] |}
  | inr err =>
      if Is_outside err then {| ParentStatus := parentScopeOutside; ParentError := [] |} else
      let rest :=
        if at_OpenFileById err &&
           (Is_errno err ERROR_FILE_NOT_FOUND || Is_errno err ERROR_PATH_NOT_FOUND ||
            Is_errno err windowsErrorInvalidParameter)
        then {| ParentStatus := parentScopeUnavailable; ParentError := [] |}
        else {| ParentStatus := parentScopeError; ParentError := error_text err |} in
      if IsOpenFileByIDAccessDenied err then
        match checkContainment deps governedRoot parent with
        | inr containmentErr =>
            {| ParentStatus := parentScopeError;
               ParentError := error_text (Joined [err; Wrapped (bs "FIUSNReader parent containment: ") containmentErr]) |}
        | inl ContainmentContained => {| ParentStatus := parentScopeContained; ParentError := [] |}
        | inl ContainmentOutside => {| ParentStatus := parentScopeOutside; ParentError := [] |}
        | inl ContainmentUnavailable => {| ParentStatus := parentScopeUnavailable; ParentError := [] |}
        | inl ContainmentOther => rest
        end
      else rest
  end.

(** The loop over the records of an object: each recorded parent is looked at once. [None]
    when one of them is contained, otherwise the first unresolved detail. *)
Fixpoint parentsLoop (root : NTFSObjectIdentity) (checkParent : NTFSObjectIdentity -> parentScopeResult)
    (seen : gset NTFSObjectIdentity) (unresolvedDetail : bytes) (changes : list USNChangeObservation) : option bytes :=
  match changes with
  | [] => Some unresolvedDetail
  | change :: changes =>
      let parent := ParentIdentity change in
      if bool_decide (parent ∈ seen) then parentsLoop root checkParent seen unresolvedDetail changes else
      let seen := {[parent]} ∪ seen in
      if bool_decide (parent = root) then None else
      let result := checkParent parent in
      match ParentStatus result with
      | parentScopeContained => None
      | parentScopeOutside | parentScopeUnavailable => parentsLoop root checkParent seen unresolvedDetail changes
      | parentScopeError =>
          parentsLoop root checkParent seen
            (if bool_decide (unresolvedDetail = []) then ParentError result else unresolvedDetail) changes
      end
  end.

Definition noChangesDetail : bytes := bs "object had no USN changes available for recorded-parent scope proof".

Definition selectUSNObjectForSpool (r : ChangeReobservation) (changes : list USNChangeObservation)
    (root : NTFSObjectIdentity) (checkParent : NTFSObjectIdentity -> parentScopeResult) : option selectedUSNObject :=
  let selection basis detail :=
    Some {| SelReobservation := r; SelChanges := changes; ScopeBasis := basis; ScopeDetail := detail |} in
  if bool_decide (Status r = ReobservationObserved) && (if ReObservation r is Some _ then true else false)
  then selection CurrentObjectContained []
  else if bool_decide (Status r = ReobservationError) &&
          bool_decide (ReReasonCode r = ReobservationReasonContainedObjectAccessDenied)
  then selection CurrentObjectContainedByHelper []
  else match parentsLoop root checkParent ∅ [] changes with
       | None => selection RecordedParentContained []
       | Some unresolvedDetail =>
           if negb (bool_decide (unresolvedDetail = [])) || bool_decide (changes = [])
           then selection ScopeUnresolvedIncluded
                  (if bool_decide (unresolvedDetail = []) then noChangesDetail else unresolvedDetail)
           else None
       end.

(** ** Unavailable ancestors of the same batch *)

Fixpoint ancestorsLoop (byIdentity : gmap NTFSObjectIdentity ChangeReobservation) (provenContained : gset NTFSObjectIdentity)
    (seen : gset NTFSObjectIdentity) (changes : list USNChangeObservation) : option NTFSObjectIdentity :=
  match changes with
  | [] => None
  | change :: changes =>
      let parent := ParentIdentity change in
      if bool_decide (parent ∈ seen) then ancestorsLoop byIdentity provenContained seen changes else
      let seen := {[parent]} ∪ seen in
      match byIdentity !! parent with
      | Some p =>
          if bool_decide (Status p = ReobservationUnavailable) && bool_decide (parent ∈ provenContained) then Some parent
          else ancestorsLoop byIdentity provenContained seen changes
      | None => ancestorsLoop byIdentity provenContained seen changes
      end
  end.

Definition ancestorDetail (parent : NTFSObjectIdentity) : bytes :=
  bs "recorded unavailable parent identity " ++ FileReferenceNumber parent ++ bs "/" ++ SequenceNumber parent ++
  bs " has proven governed-root scope within the same USN batch".

Definition selectUSNObjectForRecordedAncestor (r : ChangeReobservation) (changes : list USNChangeObservation)
    (byIdentity : gmap NTFSObjectIdentity ChangeReobservation) (provenContained : gset NTFSObjectIdentity)
  : option selectedUSNObject :=
  if negb (bool_decide (Status r = ReobservationUnavailable)) then None else
  match ancestorsLoop byIdentity provenContained ∅ changes with
  | Some parent => Some {| SelReobservation := r; SelChanges := changes; ScopeBasis := RecordedAncestorContained;
                           ScopeDetail := ancestorDetail parent |}
  | None => None
  end.

(** ** The whole batch *)

Section Batch.
Context (changes : gmap NTFSObjectIdentity (list USNChangeObservation)) (root : NTFSObjectIdentity)
        (checkParent : NTFSObjectIdentity -> parentScopeResult).

Definition objectChanges (r : ChangeReobservation) : list USNChangeObservation :=
  default [] (changes !! ReFileIdentity r).

Definition direct (r : ChangeReobservation) : option selectedUSNObject :=
  selectUSNObjectForSpool r (objectChanges r) root checkParent.

(** The first pass: a slot per object and the identities proven to be contained. *)
Fixpoint directPass (reobservations : list ChangeReobservation) (provenContained : gset NTFSObjectIdentity)
  : list (option selectedUSNObject) * gset NTFSObjectIdentity :=
  match reobservations with
  | [] => ([], provenContained)
  | r :: rest =>
      let proven := match direct r with
                    | Some selection => if scopeBasisProvesGovernedRootContainment (ScopeBasis selection)
                                        then {[ReFileIdentity r]} ∪ provenContained else provenContained
                    | None => provenContained
                    end in
      let '(slots, proven) := directPass rest proven in
      (direct r :: slots, proven)
  end.

(** One turn of the second loop, and whether it made progress. *)
Fixpoint ancestorPass (byIdentity : gmap NTFSObjectIdentity ChangeReobservation)
    (reobservations : list ChangeReobservation) (slots : list (option selectedUSNObject))
    (provenContained : gset NTFSObjectIdentity)
  : list (option selectedUSNObject) * gset NTFSObjectIdentity * bool :=
  match reobservations, slots with
  | r :: rest, Some selection :: slots =>
      let '(slots, proven, progress) := ancestorPass byIdentity rest slots provenContained in
      (Some selection :: slots, proven, progress)
  | r :: rest, None :: slots =>
      match selectUSNObjectForRecordedAncestor r (objectChanges r) byIdentity provenContained with
      | None =>
          let '(slots, proven, progress) := ancestorPass byIdentity rest slots provenContained in
          (None :: slots, proven, progress)
      | Some selection =>
          let '(slots, proven, _) := ancestorPass byIdentity rest slots ({[ReFileIdentity r]} ∪ provenContained) in
          (Some selection :: slots, proven, true)
      end
  | _, _ => (slots, provenContained, false)
  end.

(** The loop runs until a turn selects nothing. *)
Fixpoint ancestorLoop (fuel : nat) (byIdentity : gmap NTFSObjectIdentity ChangeReobservation)
    (reobservations : list ChangeReobservation) (slots : list (option selectedUSNObject))
    (provenContained : gset NTFSObjectIdentity) : res (list (option selectedUSNObject)) :=
  match fuel with
  | O => Panic
  | S fuel =>
      let '(slots, proven, progress) := ancestorPass byIdentity reobservations slots provenContained in
      if progress then ancestorLoop fuel byIdentity reobservations slots proven else Ok slots
  end.

Definition byIdentityOf (reobservations : list ChangeReobservation) : gmap NTFSObjectIdentity ChangeReobservation :=
  fold_left (fun m r => <[ReFileIdentity r := r]> m) reobservations ∅.

(** The last pass: the selected objects in order, and the counts. *)
Definition addSelection (result : usnScopeSelection) (r : ChangeReobservation) (slot : option selectedUSNObject)
  : usnScopeSelection :=
  match slot with
  | None => {| Selected := Selected result; SelectedUSNRecords := SelectedUSNRecords result;
               IgnoredVolumeObjects := IgnoredVolumeObjects result + 1;
               IgnoredVolumeUSNRecords := IgnoredVolumeUSNRecords result + len (objectChanges r);
               ScopeUnresolvedObjects := ScopeUnresolvedObjects result |}
  | Some selection =>
      {| Selected := Selected result ++ [selection];
         SelectedUSNRecords := SelectedUSNRecords result + len (objectChanges r);
         IgnoredVolumeObjects := IgnoredVolumeObjects result;
         IgnoredVolumeUSNRecords := IgnoredVolumeUSNRecords result;
         ScopeUnresolvedObjects :=
           ScopeUnresolvedObjects result + (if bool_decide (ScopeBasis selection = ScopeUnresolvedIncluded) then 1 else 0) |}
  end.

Definition collectSelection (reobservations : list ChangeReobservation) (slots : list (option selectedUSNObject))
  : usnScopeSelection :=
  fold_left (fun result '(r, slot) => addSelection result r slot) (zip reobservations slots)
    {| Selected := []; SelectedUSNRecords := 0; IgnoredVolumeObjects := 0; IgnoredVolumeUSNRecords := 0;
       ScopeUnresolvedObjects := 0 |}.

Definition selectUSNObjectsForSpool (reobservations : list ChangeReobservation) : res usnScopeSelection :=
  let '(slots, proven) := directPass reobservations ∅ in
  let? slots := ancestorLoop (S (length reobservations)) (byIdentityOf reobservations) reobservations slots proven in
  Ok (collectSelection reobservations slots).

End Batch.
End Scope.
Arguments selectedUSNObject : clear implicits.
Arguments usnScopeSelection : clear implicits.

(** ** Grouping the records *)

Lemma groupUSNChanges_lookup cs id : default [] (groupUSNChanges cs !! id) = changes_of cs id.
Proof.
  induction cs as [|c cs IH] using rev_ind; [done|]. unfold groupUSNChanges in *. rewrite fold_left_app, changes_of_snoc. cbn [fold_left].
  set (m := fold_left _ cs ∅) in *. case_bool_decide as E.
  - subst id. rewrite lookup_insert_eq. cbn [default from_option]. by rewrite IH.
  - rewrite lookup_insert_ne by done. by rewrite IH, app_nil_r.
Qed.

(** ** The specification

    Stated on the observation, the recorded parents and the verdict on each of them, without
    the functions above. [direct_rule r basis detail]: the object is in scope by itself,
    - because it was observed inside the root, or a helper said that it is inside,
    - because one of its records names a parent that is the root or inside it,
    - or, with no such parent, because the scope cannot be told: the verdict on some recorded
      parent is an error (the detail is the first error in journal order), or the journal left
      no record at all. *)

Section Spec.
Context {Observation : Type}.
Abbreviation ChangeReobservation := (ChangeReobservation Observation).
Context (changes : gmap NTFSObjectIdentity (list USNChangeObservation)) (root : NTFSObjectIdentity)
        (checkParent : NTFSObjectIdentity -> parentScopeResult) (reobservations : list ChangeReobservation).
Abbreviation direct := (@direct Observation changes root checkParent).
Abbreviation objectChanges := (@objectChanges Observation changes).

Definition observed_inside (r : ChangeReobservation) : Prop :=
  Status r = ReobservationObserved /\ exists observation, ReObservation r = Some observation.
Definition helper_inside (r : ChangeReobservation) : Prop :=
  Status r = ReobservationError /\ ReReasonCode r = ReobservationReasonContainedObjectAccessDenied.

(** The verdict on a recorded parent: inside the root, or an error with its text. *)
Definition parent_inside (parent : NTFSObjectIdentity) : Prop :=
  parent = root \/ ParentStatus (checkParent parent) = parentScopeContained.
Definition parent_unknown (parent : NTFSObjectIdentity) (text : bytes) : Prop :=
  ParentStatus (checkParent parent) = parentScopeError /\ ParentError (checkParent parent) = text /\ text <> [].
Definition names_inside (cs : list USNChangeObservation) : Prop :=
  exists c, c ∈ cs /\ parent_inside (ParentIdentity c).
(** [text] is the first error among the recorded parents of [cs]. *)
Definition first_unknown (cs : list USNChangeObservation) (text : bytes) : Prop :=
  exists before c after, cs = before ++ c :: after /\ parent_unknown (ParentIdentity c) text /\
    forall b text', b ∈ before -> ~ parent_unknown (ParentIdentity b) text'.

Inductive direct_rule (r : ChangeReobservation) : scopeBasis -> bytes -> Prop :=
| rule_observed : observed_inside r -> direct_rule r CurrentObjectContained []
| rule_helper : helper_inside r -> direct_rule r CurrentObjectContainedByHelper []
| rule_parent :
    ~ observed_inside r -> ~ helper_inside r -> names_inside (objectChanges r) ->
    direct_rule r RecordedParentContained []
| rule_unknown text :
    ~ observed_inside r -> ~ helper_inside r -> ~ names_inside (objectChanges r) ->
    first_unknown (objectChanges r) text -> direct_rule r ScopeUnresolvedIncluded text
| rule_no_records :
    ~ observed_inside r -> ~ helper_inside r -> objectChanges r = [] ->
    direct_rule r ScopeUnresolvedIncluded
      (bs "object had no USN changes available for recorded-parent scope proof").

(** [r] is unavailable and records [parent], an unavailable object of the batch. *)
Definition recorded_ancestor (r : ChangeReobservation) (parent : NTFSObjectIdentity) : Prop :=
  Status r = ReobservationUnavailable /\ (exists c, c ∈ objectChanges r /\ ParentIdentity c = parent) /\
  exists p, p ∈ reobservations /\ ReFileIdentity p = parent /\ Status p = ReobservationUnavailable.

Definition not_direct (r : ChangeReobservation) : Prop := forall basis detail, ~ direct_rule r basis detail.

(** The objects of the batch that are known to be inside: by the direct rule with any basis but
    the unresolved one, or through a chain of unavailable recorded ancestors. *)
Inductive proven : NTFSObjectIdentity -> Prop :=
| proven_direct r basis detail :
    r ∈ reobservations -> direct_rule r basis detail -> basis <> ScopeUnresolvedIncluded -> proven (ReFileIdentity r)
| proven_ancestor r parent :
    r ∈ reobservations -> not_direct r -> recorded_ancestor r parent -> proven parent -> proven (ReFileIdentity r).

(** The scope of the batch: why [r] belongs to it, and the detail recorded with it. *)
Inductive in_scope (r : ChangeReobservation) : scopeBasis -> bytes -> Prop :=
| scope_direct basis detail : direct_rule r basis detail -> in_scope r basis detail
| scope_ancestor parent :
    not_direct r -> recorded_ancestor r parent -> proven parent ->
    in_scope r RecordedAncestorContained (ancestorDetail parent).

(** *** The direct decision follows the rule *)

Definition no_unknown (cs : list USNChangeObservation) : Prop :=
  forall c text, c ∈ cs -> ~ parent_unknown (ParentIdentity c) text.

(** What the loop over the records [cs] answers when it starts with [detail]. *)
Definition loop_result (detail : bytes) (cs : list USNChangeObservation) (o : option bytes) : Prop :=
  match o with
  | None => names_inside cs
  | Some d => ~ names_inside cs /\
              ((detail <> [] /\ d = detail) \/
               (detail = [] /\ (first_unknown cs d \/ (d = [] /\ no_unknown cs))))
  end.

Lemma loop_result_cons detail detail' c cs o :
  ~ parent_inside (ParentIdentity c) ->
  (detail' = detail /\ (detail = [] -> forall text, ~ parent_unknown (ParentIdentity c) text) \/
   detail = [] /\ parent_unknown (ParentIdentity c) detail') ->
  loop_result detail' cs o -> loop_result detail (c :: cs) o.
Proof.
  intros Hc Hd H. destruct o as [d|]; cbn [loop_result] in *.
  2: { destruct H as (c' & ? & ?). exists c'. split; [by right|done]. }
  destruct H as [Hn H]. split; [intros (c' & [->|?]%elem_of_cons & ?); [done|]; apply Hn; by exists c'|].
  destruct Hd as [[-> Hd]|[-> Hd]].
  - destruct H as [[? ->]|[-> H]]; [by left|right]. split; [done|]. specialize (Hd eq_refl).
    destruct H as [(before & c' & after & -> & Hu & Hb)|[-> Hno]].
    + left. exists (c :: before), c', after. split_and!; [done|done|]. intros b text' [->|?]%elem_of_cons; auto.
    + right. split; [done|]. intros c' text [->|?]%elem_of_cons; [done|by apply Hno].
  - right. split; [done|]. left. destruct H as [[? ->]|[-> _]]; [|by destruct Hd as (_ & _ & ?)].
    exists [], c, cs. split_and!; [done|done|]. by intros b text' ?%elem_of_nil.
Qed.

Lemma parentsLoop_spec (seen : gset NTFSObjectIdentity) detail cs :
  (forall p, p ∈ seen -> ~ parent_inside p /\ (detail = [] -> forall text, ~ parent_unknown p text)) ->
  loop_result detail cs (parentsLoop root checkParent seen detail cs).
Proof.
  revert seen detail. induction cs as [|c cs IH]; intros seen detail Hseen; cbn [parentsLoop].
  { split; [by intros (c & ?%elem_of_nil & _)|]. destruct (decide (detail = [])) as [->|]; [right|by left].
    split; [done|]. right. split; [done|]. by intros c text ?%elem_of_nil. }
  destruct (decide (ParentIdentity c ∈ seen)) as [Hin|Hin].
  { rewrite bool_decide_eq_true_2 by done. destruct (Hseen _ Hin). eapply loop_result_cons; [done|by left|by apply IH]. }
  rewrite (bool_decide_eq_false_2 (_ ∈ seen)) by done. case_bool_decide as Hroot; [exists c; split; [by left|by left]|].
  destruct (ParentStatus (checkParent (ParentIdentity c))) eqn:Es.
  { exists c. split; [by left|by right]. }
  all: assert (~ parent_inside (ParentIdentity c)) as Hc by (intros [?|?]; congruence).
  1,2: assert (forall text, ~ parent_unknown (ParentIdentity c) text) as Hk by (intros text (? & _); congruence);
    eapply loop_result_cons; [done|by left|]; apply IH; intros p [->%elem_of_singleton|?]%elem_of_union; auto.
  apply (loop_result_cons _ (if bool_decide (detail = []) then ParentError (checkParent (ParentIdentity c)) else detail)); [done| |].
  - case_bool_decide; [|left; split; [done|intros; done]]. destruct (decide (ParentError (checkParent (ParentIdentity c)) = [])) as [Ee|Ee].
    + left. rewrite Ee. split; [done|]. by intros _ text (_ & <- & ?).
    + right. by split_and!.
  - apply IH. intros p [->%elem_of_singleton|Hp]%elem_of_union.
    + split; [done|]. intros Hd text (_ & <- & Ht). case_bool_decide; congruence.
    + destruct (Hseen p Hp) as [? Hu]. split; [done|]. intros Hd. apply Hu. by case_bool_decide.
Qed.

Lemma first_unknown_fun cs text text' : first_unknown cs text -> first_unknown cs text' -> text = text'.
Proof.
  intros (before & c & after & -> & Hu & Hb) (before' & c' & after' & E & Hu' & Hb').
  revert before' Hb' E. induction before as [|b before IH]; intros [|b' before'] Hb' E; injection E as <- E.
  - destruct Hu as (_ & <- & _), Hu' as (_ & <- & _). done.
  - by destruct (Hb' c text ltac:(by left)).
  - by destruct (Hb b text' ltac:(by left)).
  - eapply (IH ltac:(intros; eapply Hb; by right) before'); [intros; eapply Hb'; by right|done].
Qed.

(** At most one reason and one detail for an object. *)
Lemma direct_rule_fun (r : ChangeReobservation) basis detail basis' detail' :
  direct_rule r basis detail -> direct_rule r basis' detail' -> basis = basis' /\ detail = detail'.
Proof.
  assert (observed_inside r -> ~ helper_inside r) by (intros [? _] [? _]; congruence).
  assert (forall text, first_unknown (objectChanges r) text -> objectChanges r <> []) as Hu.
  { by intros text ([] & c & after & -> & _). }
  assert (names_inside (objectChanges r) -> objectChanges r <> []) by (intros (c & Hc & _) E; rewrite E in Hc; by apply elem_of_nil in Hc).
  destruct 1 as [| | |text ??? Hf|], 1 as [| | |text' ??? Hf'|]; try (exfalso; tauto); try done.
  - split; [done|by eapply first_unknown_fun].
  - by destruct (Hu _ Hf).
  - by destruct (Hu _ Hf').
Qed.

Lemma direct_sound (r : ChangeReobservation) :
  match direct r with
  | Some s => SelReobservation s = r /\ SelChanges s = objectChanges r /\ direct_rule r (ScopeBasis s) (ScopeDetail s)
  | None => not_direct r
  end.
Proof.
  unfold usnscope.direct, selectUSNObjectForSpool.
  destruct (bool_decide (Status r = ReobservationObserved) && _) eqn:E1.
  { apply andb_true_iff in E1 as [Hs%bool_decide_eq_true_1 Ho]. split_and!; [done..|]. apply rule_observed. split; [done|].
    destruct (ReObservation r) as [o|]; [by exists o|done]. }
  assert (~ observed_inside r) as Hno.
  { intros [Hs [o Ho]]. by rewrite bool_decide_eq_true_2, Ho in E1. }
  destruct (bool_decide (Status r = ReobservationError) && _) eqn:E2.
  { apply andb_true_iff in E2 as [Hs%bool_decide_eq_true_1 Hh%bool_decide_eq_true_1]. split_and!; [done..|]. by apply rule_helper. }
  assert (~ helper_inside r) as Hnh.
  { intros [Hs Hh]. by rewrite !bool_decide_eq_true_2 in E2. }
  pose proof (parentsLoop_spec ∅ [] (objectChanges r) ltac:(set_solver)) as Hl.
  destruct (parentsLoop root checkParent ∅ [] (objectChanges r)) as [d|]; cbn [loop_result] in Hl.
  2: { split_and!; [done..|]. by apply rule_parent. }
  destruct Hl as [Hn [[? _]|[_ [Hf|[-> Hnu]]]]]; [done|..].
  - assert (d <> []) as Hd by (by destruct Hf as (? & ? & ? & _ & (_ & _ & ?) & _)).
    rewrite (bool_decide_eq_false_2 (d = [])) by done. cbn [negb orb]. split_and!; [done..|]. by apply rule_unknown.
  - rewrite (bool_decide_eq_true_2 ([] = [])) by done. cbn [negb orb]. clear E1 E2. case_bool_decide as Hcs.
    + split_and!; [done..|]. by apply rule_no_records.
    + intros basis detail Hr. destruct Hr as [| | |text ??? (before & c & after & E & Hu & _)|]; try done.
      apply (Hnu c text); [|done]. rewrite E, elem_of_app. right. by left.
Qed.

(** The direct decision is the rule: it keeps an object for the reason and with the detail the
    rule gives, and leaves it out when the rule gives none. *)
Lemma direct_Some (r : ChangeReobservation) (s : selectedUSNObject Observation) :
  direct r = Some s <->
  SelReobservation s = r /\ SelChanges s = objectChanges r /\ direct_rule r (ScopeBasis s) (ScopeDetail s).
Proof.
  pose proof (direct_sound r) as H. destruct (direct r) as [s'|].
  - split; [by intros [= <-]|]. intros (? & ? & Hs). destruct H as (? & ? & H), s, s'. cbn in *. subst.
    by destruct (direct_rule_fun r _ _ _ _ H Hs) as [-> ->].
  - split; [done|]. by intros (_ & _ & ?%H).
Qed.

Lemma direct_None (r : ChangeReobservation) : direct r = None <-> not_direct r.
Proof.
  split; [intros E; pose proof (direct_sound r) as H; by rewrite E in H|]. intros Hn.
  destruct (direct r) as [s|] eqn:E; [|done]. apply direct_Some in E as (_ & _ & ?%Hn). done.
Qed.

Context (Hnodup : NoDup (map ReFileIdentity reobservations)).

Lemma byIdentityOf_lookup id r :
  byIdentityOf reobservations !! id = Some r <-> r ∈ reobservations /\ ReFileIdentity r = id.
Proof.
  revert id r Hnodup. clear. unfold byIdentityOf. induction reobservations as [|x l IH] using rev_ind; intros id r Hnd.
  { cbn. rewrite lookup_empty. split; [done|]. by intros [?%elem_of_nil _]. }
  rewrite fold_left_app, map_app in *. cbn [fold_left map] in *. apply NoDup_app in Hnd as (Hnd & Hx & _).
  rewrite elem_of_app, list_elem_of_singleton. destruct (decide (ReFileIdentity x = id)) as [<-|Hn].
  - rewrite lookup_insert_eq. split; [intros [= <-]; auto|]. intros [[Hr| ->] E]; [|done].
    destruct (Hx (ReFileIdentity r)); [by apply list_elem_of_fmap_2|rewrite E; by left].
  - rewrite lookup_insert_ne, IH by done. split; [naive_solver|]. intros [[?| ->] ?]; auto; congruence.
Qed.

(** The loop over recorded parents finds an ancestor exactly when there is one. *)
Definition good (P : gset NTFSObjectIdentity) (parent : NTFSObjectIdentity) : Prop :=
  exists p, byIdentityOf reobservations !! parent = Some p /\ Status p = ReobservationUnavailable /\ parent ∈ P.

Lemma ancestorsLoop_spec (P seen : gset NTFSObjectIdentity) cs :
  (forall parent, parent ∈ seen -> ~ good P parent) ->
  match ancestorsLoop (byIdentityOf reobservations) P seen cs with
  | Some parent => good P parent /\ exists c, c ∈ cs /\ ParentIdentity c = parent
  | None => forall c, c ∈ cs -> ~ good P (ParentIdentity c)
  end.
Proof.
  revert seen. induction cs as [|c cs IH]; intros seen Hseen; cbn [ancestorsLoop]; [by intros c ?%elem_of_nil|].
  set (B := byIdentityOf reobservations) in *.
  assert (forall seen', (forall parent, parent ∈ seen' -> ~ good P parent) -> ParentIdentity c ∈ seen' ->
    match ancestorsLoop B P seen' cs with
    | Some parent => good P parent /\ exists c', c' ∈ c :: cs /\ ParentIdentity c' = parent
    | None => forall c', c' ∈ c :: cs -> ~ good P (ParentIdentity c')
    end) as Hnext.
  { intros seen' Hs' Hc. specialize (IH seen' Hs'). destruct (ancestorsLoop B P seen' cs) as [parent|].
    - destruct IH as (Hg & c' & Hc' & E). split; [done|]. exists c'. split; [by right|done].
    - intros c' [->|Hc']%elem_of_cons; auto. }
  case_bool_decide as Hin; [by apply Hnext|].
  assert (~ good P (ParentIdentity c) -> forall parent, parent ∈ {[ParentIdentity c]} ∪ seen -> ~ good P parent) as Hadd.
  { intros Hng parent [->%elem_of_singleton|?]%elem_of_union; auto. }
  destruct (B !! ParentIdentity c) as [p|] eqn:E.
  2: { apply Hnext; [|set_solver]. apply Hadd. intros (p & Ep & _). unfold B in E. congruence. }
  case_bool_decide as Hs; [|apply Hnext; [|set_solver]; apply Hadd; intros (p' & Ep & ? & _); unfold B in E; congruence].
  cbn [andb]. case_bool_decide as HP; [|apply Hnext; [|set_solver]; apply Hadd; by intros (p' & _ & _ & ?)].
  split; [by exists p|]. exists c. split; [by left|done].
Qed.

Lemma ancestor_spec (P : gset NTFSObjectIdentity) r :
  match selectUSNObjectForRecordedAncestor r (objectChanges r) (byIdentityOf reobservations) P with
  | Some selection => SelReobservation selection = r /\ SelChanges selection = objectChanges r /\
                      ScopeBasis selection = RecordedAncestorContained /\
                      exists parent, ScopeDetail selection = ancestorDetail parent /\ recorded_ancestor r parent /\ parent ∈ P
  | None => forall parent, recorded_ancestor r parent -> parent ∉ P
  end.
Proof.
  unfold selectUSNObjectForRecordedAncestor. case_bool_decide as Hs; cbn [negb].
  2: { by intros parent (? & _). }
  pose proof (ancestorsLoop_spec P ∅ (objectChanges r) ltac:(set_solver)) as Hl.
  destruct (ancestorsLoop _ P ∅ _) as [parent|].
  - destruct Hl as ((p & Hp & Hsp & HP) & Hc). split_and!; try done. exists parent. split_and!; [done| |done]. split_and!; try done.
    apply byIdentityOf_lookup in Hp as [Hp Ep]. by exists p.
  - intros parent (_ & (c & Hc & <-) & p & Hp & Ep & Hsp) HP. apply (Hl c Hc). exists p. split; [by apply byIdentityOf_lookup|done].
Qed.

(** ** The loops establish it *)

(** What the passes maintain: a slot holds a selection that the rules justify, the proven
    set is sound, and it has every object selected with a proof of containment. *)
Definition slot_ok (P : gset NTFSObjectIdentity) (r : ChangeReobservation)
    (slot : option (selectedUSNObject Observation)) : Prop :=
  match slot with
  | Some selection =>
      SelReobservation selection = r /\ SelChanges selection = objectChanges r /\
      (direct r = Some selection \/
       (direct r = None /\ ScopeBasis selection = RecordedAncestorContained /\
        exists parent, ScopeDetail selection = ancestorDetail parent /\ recorded_ancestor r parent /\ proven parent)) /\
      (scopeBasisProvesGovernedRootContainment (ScopeBasis selection) = true -> ReFileIdentity r ∈ P)
  | None => direct r = None
  end.
Definition sound (P : gset NTFSObjectIdentity) : Prop := forall id, id ∈ P -> proven id.
(** No empty slot can be filled. *)
Definition closed (P : gset NTFSObjectIdentity) (r : ChangeReobservation)
    (slot : option (selectedUSNObject Observation)) : Prop :=
  slot = None -> forall parent, recorded_ancestor r parent -> parent ∉ P.
Definition empty_slots (slots : list (option (selectedUSNObject Observation))) : nat :=
  length (List.filter (fun s => if s is Some _ then false else true) slots).

Lemma slot_ok_mono P P' r slot : P ⊆ P' -> slot_ok P r slot -> slot_ok P' r slot.
Proof. intros HP. destruct slot as [selection|]; [|done]. intros (? & ? & ? & ?). split_and!; auto. Qed.

Lemma proves_iff basis : scopeBasisProvesGovernedRootContainment basis = true <-> basis <> ScopeUnresolvedIncluded.
Proof. by destruct basis. Qed.

Lemma directPass_ok pre l P slots P' :
  reobservations = pre ++ l -> directPass changes root checkParent l P = (slots, P') ->
  sound P -> slots = map direct l /\ P ⊆ P' /\ sound P' /\
  (forall r selection, r ∈ l -> direct r = Some selection ->
     scopeBasisProvesGovernedRootContainment (ScopeBasis selection) = true -> ReFileIdentity r ∈ P').
Proof.
  revert pre P slots P'. induction l as [|r l IH]; intros pre P slots P' Hre H HP; cbn [directPass] in H.
  { injection H as <- <-. split_and!; try done. by intros r selection ?%elem_of_nil. }
  set (P1 := match direct r with Some _ => _ | None => _ end) in H.
  destruct (directPass changes root checkParent l P1) as [slots1 P2] eqn:E. injection H as <- <-.
  assert (P ⊆ P1) as Hsub by (unfold P1; repeat case_match; set_solver).
  eapply (IH (pre ++ [r])) in E as (-> & Hsub2 & Hs & Hc); [|by rewrite <- app_assoc|].
  - split_and!; [done|set_solver|done|]. intros r' selection [->|Hr']%elem_of_cons Hd Hb; [|by eapply Hc].
    apply Hsub2. unfold P1. rewrite Hd, Hb. set_solver.
  - intros id. unfold P1. destruct (direct r) as [selection|] eqn:Ed; [|apply HP]. destruct (scopeBasisProvesGovernedRootContainment _) eqn:Eb; [|apply HP].
    intros [->%elem_of_singleton|?]%elem_of_union; [|by apply HP]. apply direct_Some in Ed as (_ & _ & Ed).
    apply (proven_direct r _ _ ltac:(rewrite Hre, elem_of_app; right; by left) Ed). by apply proves_iff.
Qed.

Lemma directPass_slots slots P :
  directPass changes root checkParent reobservations ∅ = (slots, P) ->
  Forall2 (slot_ok P) reobservations slots /\ sound P.
Proof.
  intros H. apply (directPass_ok []) in H as (-> & _ & Hs & Hc); [|done|by intros id ?%elem_of_empty]. split; [|done].
  assert (forall l, (forall r, r ∈ l -> r ∈ reobservations) -> Forall2 (slot_ok P) l (map direct l)) as Hl; [|by apply Hl].
  induction l as [|r l IH]; intros Hin; constructor; [|apply IH; intros; apply Hin; by right].
  unfold slot_ok. destruct (direct r) as [selection|] eqn:E; [|done].
  pose proof (proj1 (direct_Some r selection) E) as (? & ? & _). split_and!; auto. intros. eapply Hc; eauto. apply Hin. by left.
Qed.

Lemma ancestorPass_ok l slots P slots' P' progress :
  ancestorPass changes (byIdentityOf reobservations) l slots P = (slots', P', progress) ->
  (forall r, r ∈ l -> r ∈ reobservations) -> Forall2 (slot_ok P) l slots -> sound P ->
  Forall2 (slot_ok P') l slots' /\ P ⊆ P' /\ sound P' /\
  if progress then (empty_slots slots' < empty_slots slots)%nat
  else slots' = slots /\ P' = P /\ Forall2 (closed P) l slots.
Proof.
  intros H Hin Hok. revert slots' P' progress P H Hin Hok. revert slots.
  induction l as [|r l IH]; intros slots slots' P' progress P H Hin Hok HP.
  { apply Forall2_nil_inv_l in Hok as ->. injection H as <- <- <-. by split_and!. }
  apply Forall2_cons_inv_l in Hok as (slot & slots1 & Hs & Hok & ->).
  assert (forall r', r' ∈ l -> r' ∈ reobservations) as Hin' by (intros; apply Hin; by right). cbn [ancestorPass] in H.
  destruct slot as [selection|].
  - destruct (ancestorPass _ _ l slots1 P) as [[slots2 P2] pr] eqn:E. injection H as <- <- <-.
    apply IH in E as (Hok2 & Hsub & Hs2 & Hpr); try done. split_and!; try done; [constructor; [by eapply slot_ok_mono|done]|].
    destruct pr; [done|]. destruct Hpr as (-> & -> & Hcl). split_and!; [done..|]. by constructor.
  - pose proof (ancestor_spec P r) as Ha. destruct (selectUSNObjectForRecordedAncestor r _ _ P) as [selection|].
    + destruct Ha as (Hr & Hc & Hb & parent & Hdet & Hra & HPp).
      assert (proven (ReFileIdentity r)) as Hpr.
      { apply (proven_ancestor r parent); [apply Hin; by left|by apply direct_None|done|by apply HP]. }
      destruct (ancestorPass _ _ l slots1 _) as [[slots2 P2] pr] eqn:E. injection H as <- <- <-.
      apply IH in E as (Hok2 & Hsub & Hs2 & Hprog); try done.
      * split_and!; [|set_solver|done|].
        -- constructor; [|done]. split_and!; [done..| |intros _; apply Hsub; set_solver].
           right. split_and!; [done..|]. exists parent. split_and!; [done|done|by apply HP].
        -- unfold empty_slots. cbn [List.filter length]. fold (empty_slots slots2) (empty_slots slots1).
           destruct pr; [lia|]. destruct Hprog as (-> & _). lia.
      * eapply Forall2_impl; [done|]. intros. eapply slot_ok_mono; [|done]. set_solver.
      * intros id [->%elem_of_singleton|?]%elem_of_union; auto.
    + destruct (ancestorPass _ _ l slots1 P) as [[slots2 P2] pr] eqn:E. injection H as <- <- <-.
      apply IH in E as (Hok2 & Hsub & Hs2 & Hpr); try done. split_and!; try done; [by constructor|].
      destruct pr; [unfold empty_slots in *; cbn [List.filter length]; lia|]. destruct Hpr as (-> & -> & Hcl). split_and!; [done..|]. constructor; [by intros _|done].
Qed.

Lemma ancestorLoop_ok fuel slots P :
  Forall2 (slot_ok P) reobservations slots -> sound P -> (empty_slots slots < fuel)%nat ->
  exists slots' P', ancestorLoop changes fuel (byIdentityOf reobservations) reobservations slots P = Ok slots' /\
    Forall2 (slot_ok P') reobservations slots' /\ sound P' /\ Forall2 (closed P') reobservations slots'.
Proof.
  revert slots P. induction fuel as [|fuel IH]; intros slots P Hok HP Hf; [lia|]. cbn [ancestorLoop].
  destruct (ancestorPass _ _ reobservations slots P) as [[slots1 P1] pr] eqn:E.
  apply ancestorPass_ok in E as (Hok1 & _ & HP1 & Hpr); try done. destruct pr; [apply IH; [done..|lia]|].
  destruct Hpr as (-> & -> & Hcl). exists slots, P. by split_and!.
Qed.

(** In a closed state the proven set is complete, so the filled slots are those in scope, each
    with the reason and the detail of the rule. *)
Definition slot_exact (r : ChangeReobservation) (slot : option (selectedUSNObject Observation)) : Prop :=
  match slot with
  | Some s => in_scope r (ScopeBasis s) (ScopeDetail s)
  | None => forall basis detail, ~ in_scope r basis detail
  end.

Lemma closed_complete slots P :
  Forall2 (slot_ok P) reobservations slots -> sound P -> Forall2 (closed P) reobservations slots ->
  Forall2 slot_exact reobservations slots.
Proof.
  intros Hok HP Hcl. assert (forall r, r ∈ reobservations -> exists slot, slot_ok P r slot /\ closed P r slot) as Hslot.
  { intros r [i Hi]%list_elem_of_lookup. destruct (Forall2_lookup_l _ _ _ _ _ Hok Hi) as (slot & Hj & Hs).
    exists slot. split; [done|]. destruct (Forall2_lookup_l _ _ _ _ _ Hcl Hi) as (slot' & Hj' & Hc). rewrite Hj in Hj'. by injection Hj' as <-. }
  assert (forall id, proven id -> id ∈ P) as Hcomp.
  { induction 1 as [r basis detail Hr Hd Hb|r parent Hr Hd%direct_None Hra _ IH].
    - destruct (Hslot r Hr) as ([sel|] & Hs & _); [|by apply direct_None in Hs; destruct (Hs basis detail)].
      destruct Hs as (_ & _ & [(_ & _ & Hd')%direct_Some|(Hd'%direct_None & _)] & Hin); [|by destruct (Hd' basis detail)].
      apply Hin, proves_iff. by destruct (direct_rule_fun r _ _ _ _ Hd Hd') as [<- _].
    - destruct (Hslot r Hr) as ([sel|] & Hs & Hc); [|by destruct (Hc eq_refl parent)].
      destruct Hs as (_ & _ & [Hd'|(_ & Hb & _)] & Hin); [congruence|]. apply Hin. by rewrite Hb. }
  apply Forall2_same_length_lookup. split; [by eapply Forall2_length|]. intros i r slot Hi Hj.
  pose proof (Forall2_lookup_lr _ _ _ _ _ _ Hok Hi Hj) as Hs. pose proof (Forall2_lookup_lr _ _ _ _ _ _ Hcl Hi Hj) as Hc.
  destruct slot as [sel|]; cbn in Hs |- *.
  - destruct Hs as (_ & _ & [(_ & _ & Hd)%direct_Some|(Hd%direct_None & -> & parent & -> & Ha & Hp)] & _);
      [by apply scope_direct|by apply scope_ancestor].
  - intros basis detail [basis' detail' Hd|parent Hd Hra Hp]; [by apply direct_None in Hs; apply (Hs basis' detail')|].
    destruct (Hc eq_refl parent Hra). by apply Hcomp.
Qed.

(** ** The selection *)

(** The counts of the last pass: nothing is dropped and nothing is counted twice. *)
Lemma collectSelection_spec slots :
  length slots = length reobservations ->
  let result := collectSelection changes reobservations slots in
  Selected result = omap id slots /\
  len (Selected result) + IgnoredVolumeObjects result = len reobservations /\
  SelectedUSNRecords result + IgnoredVolumeUSNRecords result = len (concat (map objectChanges reobservations)) /\
  ScopeUnresolvedObjects result =
    len (List.filter (fun s => bool_decide (ScopeBasis s = ScopeUnresolvedIncluded)) (Selected result)).
Proof.
  clear Hnodup. intros Hl. cbv zeta. unfold collectSelection.
  revert slots Hl. induction reobservations as [|r l IH] using rev_ind; intros slots Hl.
  { destruct slots; [done|discriminate Hl]. }
  rewrite length_app in Hl. cbn [length] in Hl.
  destruct slots as [|slot slots _] using rev_ind; [cbn in Hl; lia|]. rewrite length_app in Hl. cbn [length] in Hl.
  specialize (IH slots ltac:(lia)). rewrite zip_with_app, fold_left_app by lia. cbn [zip_with fold_left].
  set (result := fold_left _ (zip l slots) _) in *. destruct IH as (I1 & I2 & I3 & I4).
  rewrite map_app, concat_app, !len_app, omap_app. cbn [map concat]. rewrite app_nil_r, len_cons.
  change (len (@nil ChangeReobservation)) with 0.
  destruct slot as [selection|]; cbn [addSelection Selected IgnoredVolumeObjects SelectedUSNRecords IgnoredVolumeUSNRecords
    ScopeUnresolvedObjects].
  - rewrite len_app, List.filter_app, len_app, I1. cbn [omap list_omap List.filter id]. rewrite I1 in *. split_and!; [done|..].
    + change (len [selection]) with 1. lia.
    + lia.
    + case_bool_decide; [change (len [selection]) with 1|change (len []) with 0]; lia.
  - cbn [omap list_omap id]. rewrite app_nil_r. split_and!; [done|lia..|done].
Qed.

Lemma selected_sublist P slots :
  Forall2 (slot_ok P) reobservations slots -> map SelReobservation (omap id slots) `sublist_of` reobservations.
Proof.
  clear Hnodup. intros H. induction H as [|r slot rs slots Hs H IH]; [constructor|]. destruct slot as [s|]; cbn.
  - destruct Hs as (-> & _). by constructor.
  - by constructor.
Qed.

(** The selection always terminates, and it selects exactly the objects in scope. *)
Lemma selectUSNObjectsForSpool_exact :
  exists result, selectUSNObjectsForSpool changes root checkParent reobservations = Ok result /\
    map SelReobservation (Selected result) `sublist_of` reobservations /\
    (forall s, s ∈ Selected result ->
       SelChanges s = objectChanges (SelReobservation s) /\ in_scope (SelReobservation s) (ScopeBasis s) (ScopeDetail s)) /\
    (forall r basis detail, r ∈ reobservations -> in_scope r basis detail ->
       exists s, s ∈ Selected result /\ SelReobservation s = r) /\
    len (Selected result) + IgnoredVolumeObjects result = len reobservations /\
    SelectedUSNRecords result + IgnoredVolumeUSNRecords result = len (concat (map objectChanges reobservations)) /\
    ScopeUnresolvedObjects result =
      len (List.filter (fun s => bool_decide (ScopeBasis s = ScopeUnresolvedIncluded)) (Selected result)).
Proof.
  unfold selectUSNObjectsForSpool. destruct (directPass changes root checkParent reobservations ∅) as [slots0 P0] eqn:E.
  apply directPass_slots in E as [Hok0 HP0].
  destruct (ancestorLoop_ok (S (length reobservations)) slots0 P0) as (slots & P & -> & Hok & HP & Hcl); [done..| |].
  { unfold empty_slots. pose proof (Forall2_length _ _ _ Hok0).
    pose proof (List.filter_length_le (fun s : option (selectedUSNObject Observation) => if s is Some _ then false else true) slots0). lia. }
  cbn [res_bind]. pose proof (closed_complete slots P Hok HP Hcl) as Hex.
  destruct (collectSelection_spec slots) as (Hsel & Hcount & Hrec & Hun); [symmetry; by eapply Forall2_length|].
  eexists. split; [reflexivity|]. rewrite Hsel in *. split_and!; [by eapply selected_sublist| | |done|done|done].
  - intros s ([s'|] & [i Hi]%list_elem_of_lookup & [= ->])%list_elem_of_omap.
    destruct (Forall2_lookup_r _ _ _ _ _ Hok Hi) as (r & Hr & -> & Ec & _).
    split; [done|]. exact (Forall2_lookup_lr _ _ _ _ _ _ Hex Hr Hi).
  - intros r basis detail [i Hi]%list_elem_of_lookup Hin.
    destruct (Forall2_lookup_l _ _ _ _ _ Hok Hi) as (slot & Hj & Hs). pose proof (Forall2_lookup_lr _ _ _ _ _ _ Hex Hi Hj) as He.
    destruct slot as [s|]; [|by destruct (He basis detail)]. exists s. split; [|apply Hs].
    apply list_elem_of_omap. exists (Some s). split; [by eapply list_elem_of_lookup_2|done].
Qed.

End Spec.

(** ** A re-observed batch *)

(** Grouping by distinct identities partitions the records. *)
Lemma changes_partition cs ids :
  NoDup ids -> (forall c, c ∈ cs -> FileIdentity c ∈ ids) -> len (concat (map (changes_of cs) ids)) = len cs.
Proof.
  intros Hnd. induction cs as [|c cs IH] using rev_ind; intros Hin.
  { induction ids as [|id ids IHi]; [done|]. cbn [map concat]. rewrite len_app. apply NoDup_cons in Hnd as [_ Hnd].
    rewrite IHi; [done|done|]. by intros c ?%elem_of_nil. }
  rewrite len_app, <- IH by (intros; apply Hin; rewrite elem_of_app; auto). change (len [c]) with 1.
  assert (FileIdentity c ∈ ids) as Hc by (apply Hin; rewrite elem_of_app; right; by left). clear IH Hin.
  assert (forall ids', FileIdentity c ∉ ids' -> map (changes_of (cs ++ [c])) ids' = map (changes_of cs) ids') as Hne.
  { intros ids' Hn. apply map_ext_in. intros id Hid%list_elem_of_In. rewrite changes_of_snoc, bool_decide_eq_false_2, app_nil_r; [done|].
    by intros <-. }
  apply list_elem_of_split in Hc as (l1 & l2 & ->). apply NoDup_app in Hnd as (_ & Hd & Hnd2). apply NoDup_cons in Hnd2 as [Hn2 _].
  rewrite !map_app, !concat_app, !len_app. cbn [map concat]. rewrite !len_app, changes_of_snoc, bool_decide_eq_true_2, len_app by done.
  rewrite !Hne by (first [done|intros Hi; apply (Hd _ Hi); by left]). change (len [c]) with 1. lia.
Qed.

Section Reobserved.
Context {Observation : Type} (deps : dependencies Observation) (governedRoot : bytes) (batch : USNReadBatch)
        (root : NTFSObjectIdentity) (checkParent : NTFSObjectIdentity -> parentScopeResult).

(** No re-observation carries the reason the selection takes for the helper's word. *)
Lemma reobserved_not_helper r :
  r ∈ Reobservations (reobserveBatchWithDependencies deps governedRoot batch) -> ~ helper_inside r.
Proof.
  intros (i & c & -> & _)%elem_of_lookup_imap_1 [_ Hr]. revert Hr.
  unfold reobserveCandidate, classifyBackupAuthorityFailure, classifyReobservationError. repeat case_match; simplify_eq; cbn; discriminate.
Qed.


End Reobserved.

(** ** Small batches *)

Definition demoObject (n : Z) : NTFSObjectIdentity := usn.identityFromReference n.
Definition demoChange (object parent number : Z) : USNChangeObservation := {|
  MajorVersion := bs "2"; MinorVersion := bs "0"; FileIdentity := demoObject object; ParentIdentity := demoObject parent;
  USN := FormatUint number; Timestamp := []; ReasonRaw := bs "512"; ReasonNames := [bs "FileDelete"];
  SourceInfoRaw := bs "0"; SecurityID := bs "0"; FileAttributesRaw := bs "0"; FileNameUTF16LEBase64URL := [] |}.
Definition demoReobservation (object : Z) (status : ReobservationStatus) (reason : bytes) : ChangeReobservation unit := {|
  ReFileIdentity := demoObject object; TriggerUSNs := []; Status := status; ReReasonCode := reason; ReError := [];
  ReObservation := None |}.
Definition demoOutside (_ : NTFSObjectIdentity) : parentScopeResult :=
  {| ParentStatus := parentScopeOutside; ParentError := [] |}.
Definition demoUnavailable (_ : NTFSObjectIdentity) : parentScopeResult :=
  {| ParentStatus := parentScopeUnavailable; ParentError := [] |}.

(** A directory tree 7/8/9 was created under the root 5 and deleted; the journal names the
    innermost object first. All three are selected, a fourth object elsewhere is not. *)
Example nested_delete_selected :
  match selectUSNObjectsForSpool
          (groupUSNChanges [demoChange 9 8 1; demoChange 8 7 2; demoChange 7 5 3; demoChange 6 3 4])
          (demoObject 5) demoUnavailable
          (map (fun n => demoReobservation n ReobservationUnavailable []) [9; 8; 7; 6]) with
  | Ok result => map ScopeBasis (Selected result) = [RecordedAncestorContained; RecordedAncestorContained; RecordedParentContained] /\
                 IgnoredVolumeObjects result = 1
  | _ => False
  end.
Proof. vm_compute. auto. Qed.

(** A batch with every kind of object: the deleted tree 7/8/9 under the root 5, 10 observed
    inside, 6 below an unavailable directory elsewhere, 11 below a directory whose scope could
    not be told. *)
Definition demoDeps : dependencies unit := {|
  ctx_Err := fun _ => None;
  collect := fun _ _ id => if bool_decide (id = demoObject 10) then inl tt
                           else inr (NTFSError StageOpen (bs "OpenFileById") (Errno ERROR_FILE_NOT_FOUND []));
  observeBackup := fun _ _ => inr (Message []);
  checkContainment := fun _ _ => inl ContainmentOther |}.
Definition demoCheckParent (id : NTFSObjectIdentity) : parentScopeResult :=
  if bool_decide (id = demoObject 4) then {| ParentStatus := parentScopeError; ParentError := bs "denied" |}
  else {| ParentStatus := parentScopeUnavailable; ParentError := [] |}.
Definition demoBatch : USNReadBatch := {|
  BatchObservedAt := []; BatchCollectionMethod := []; BatchScopeID := [];
  BatchVolumeIdentity := {| VolumeMethodVersion := []; VolumeGUID := []; VolumeSerial := [] |};
  BatchJournalID := []; StartUSN := []; BatchNextUSN := [];
  Records := [demoChange 9 8 1; demoChange 8 7 2; demoChange 7 5 3; demoChange 10 3 4; demoChange 6 3 5;
              demoChange 11 4 6; demoChange 6 3 7] |}.


(** The reason the collector gives today to an object that the helper proved to be inside the
    root is not one the selection knows: with a recorded parent outside, the object is left out.
    With the historical reason it is kept. *)
Example helper_contained_object_ignored :
  let select reason := selectUSNObjectForSpool (demoReobservation 9 ReobservationError reason) [demoChange 9 3 1]
                         (demoObject 5) demoOutside in
  select ReobservationReasonBackupAuthorityObservationFailed = None /\
  option_map ScopeBasis (select ReobservationReasonContainedObjectAccessDenied) = Some CurrentObjectContainedByHelper.
Proof. vm_compute. auto. Qed.

End usnscope.
