(* ===== verification/Checkpoint.v ===== *)
(** * The USN checkpoint

    Models [go/internal/windows/checkpoint]: the validation of a checkpoint, the comparison
    with the current root and journal, and the state file with its conflict check. The state
    is the directory of the state file; [name] is its base name. The collection of the
    governed root and the journal query are arguments (what they returned), and so is the
    clock. [JSON USNCheckpoint] is the indented text the encoder writes, without its final
    newline. *)

From stdpp Require Import gmap.
From S2P Require Import Prelude GoBytes GoStrings GoText GoIO GoFS GoDir GoPublish GoWin GenerationProtocol Records.

Module checkpoint.
Import records.

Definition SchemaVersion : bytes := bs "fi-usn-checkpoint/0.1".

Definition ErrInvalidCheckpoint : error := Sentinel "invalid FI USN checkpoint".
Definition ErrContinuityGap : error := Sentinel "USN continuity gap".
Definition ErrCheckpointConflict : error := Sentinel "USN checkpoint changed since it was read".

Inductive ContinuityStatus := ContinuityContinuous | ContinuityGap.
#[global] Instance ContinuityStatus_eq_decision : EqDecision ContinuityStatus.
Proof. solve_decision. Defined.

Record USNCheckpoint := {
  CheckpointVersion : bytes;
  CheckpointScopeID : bytes;
  CheckpointRoot : GovernedRootIdentity;
  CheckpointJournal : bytes;
  CheckpointNext : bytes;
  UpdatedAt : bytes
}.

Record ContinuityAssessment := {
  CheckedAt : bytes;
  AssessmentStatus : ContinuityStatus;
  AssessmentReason : bytes;
  AssessedCheckpoint : USNCheckpoint;
  CurrentGovernedRoot : GovernedRootIdentity;
  AssessedJournal : USNJournalState
}.

(** ** Without I/O *)

Definition canonicalUnsigned (value : bytes) : res Z :=
  if bool_decide (value = bs "0") then Ok 0 else
  match value with
  | [] => Err (Errorf "not canonical unsigned decimal")
  | c :: digits =>
      fail? negb (between 49 57 c) with Errorf "not canonical unsigned decimal" ;;
      fail? negb (all_digits digits) with Errorf "not canonical unsigned decimal" ;;
      ParseUint value 64
  end.

Definition Validate (value : USNCheckpoint) : res unit :=
  fail? negb (bool_decide (CheckpointVersion value = SchemaVersion))
    with Wrap "%w: unsupported version" ErrInvalidCheckpoint ;;
  fail? bool_decide (CheckpointScopeID value = []) ||
        negb (bool_decide (CheckpointScopeID value = RootScopeID (CheckpointRoot value)))
    with Wrap "%w: scope mismatch" ErrInvalidCheckpoint ;;
  check? match ValidateGovernedRootIdentity (CheckpointRoot value) with
         | Err _ => Err (Wrap "%w: governed root: %v" ErrInvalidCheckpoint) | r => r end ;;
  check? match canonicalUnsigned (CheckpointJournal value) with
         | Err _ => Err (Wrap "%w: journal_id" ErrInvalidCheckpoint) | r => r end ;;
  check? match canonicalUnsigned (CheckpointNext value) with
         | Err _ => Err (Wrap "%w: next_usn" ErrInvalidCheckpoint) | r => r end ;;
  match Parse_RFC3339Nano (UpdatedAt value) with
  | Ok (_, UTC) => Ok tt
  | Panic => Panic
  | _ => Err (Wrap "%w: updated_at" ErrInvalidCheckpoint)
  end.

Definition sameVolume (left right : VolumeIdentity) : bool :=
  bool_decide (VolumeGUID left = VolumeGUID right) && bool_decide (VolumeSerial left = VolumeSerial right).
Definition sameObject (left right : NTFSObjectIdentity) : bool :=
  bool_decide (FileReferenceNumber left = FileReferenceNumber right) &&
  bool_decide (SequenceNumber left = SequenceNumber right).

Definition gap (value : ContinuityAssessment) (reason : bytes) : ContinuityAssessment := {|
  CheckedAt := CheckedAt value; AssessmentStatus := ContinuityGap; AssessmentReason := reason;
  AssessedCheckpoint := AssessedCheckpoint value; CurrentGovernedRoot := CurrentGovernedRoot value;
  AssessedJournal := AssessedJournal value |}.

Definition Assess (now : Time) (value : USNCheckpoint) (currentRoot : GovernedRootIdentity) (journal : USNJournalState)
  : res ContinuityAssessment :=
  check? Validate value ;;
  check? ValidateGovernedRootIdentity currentRoot ;;
  check? ValidateUSNJournalState journal ;;
  let assessment := {|
    CheckedAt := Format_RFC3339Nano now; AssessmentStatus := ContinuityContinuous; AssessmentReason := [];
    AssessedCheckpoint := value; CurrentGovernedRoot := currentRoot; AssessedJournal := journal |} in
  if negb (bool_decide (CheckpointScopeID value = JournalScopeID journal)) ||
     negb (bool_decide (CheckpointScopeID value = RootScopeID currentRoot))
  then Ok (gap assessment (bs "ScopeChanged"))
  else if negb (sameVolume (RootVolumeIdentity (CheckpointRoot value)) (RootVolumeIdentity currentRoot))
  then Ok (gap assessment (bs "GovernedRootVolumeChanged"))
  else if negb (sameObject (RootObjectIdentity (CheckpointRoot value)) (RootObjectIdentity currentRoot))
  then Ok (gap assessment (bs "GovernedRootObjectChanged"))
  else if negb (sameVolume (RootVolumeIdentity (CheckpointRoot value)) (JournalVolumeIdentity journal))
  then Ok (gap assessment (bs "JournalVolumeChanged"))
  else if negb (bool_decide (CheckpointJournal value = JournalID journal))
  then Ok (gap assessment (bs "JournalIDChanged"))
  else
    let checkpointUSN := match canonicalUnsigned (CheckpointNext value) with Ok n => n | _ => 0 end in
    let? firstUSN := canonicalUnsigned (FirstUSN journal) in
    let? lowestValidUSN := canonicalUnsigned (LowestValidUSN journal) in
    let? nextUSN := canonicalUnsigned (NextUSN journal) in
    Ok (if negb (lowestValidUSN =? 0) && (checkpointUSN <? lowestValidUSN)
        then gap assessment (bs "CheckpointBeforeLowestValidUSN")
        else if checkpointUSN <? firstUSN then gap assessment (bs "CheckpointAgedOut")
        else if nextUSN <? checkpointUSN then gap assessment (bs "CheckpointAheadOfJournal")
        else assessment).

Definition ValidateAdvance (assessment : ContinuityAssessment) (expectedCurrentUSN newNextUSN : bytes) : res unit :=
  fail? negb (bool_decide (AssessmentStatus assessment = ContinuityContinuous)) with ErrContinuityGap ;;
  fail? negb (bool_decide (CheckpointNext (AssessedCheckpoint assessment) = expectedCurrentUSN)) with ErrCheckpointConflict ;;
  let? current := canonicalUnsigned expectedCurrentUSN in
  let? next := canonicalUnsigned newNextUSN in
  let? journalNext := canonicalUnsigned (NextUSN (AssessedJournal assessment)) in
  fail? next <? current with Errorf "checkpoint cannot move backward" ;;
  fail? journalNext <? next with Errorf "checkpoint cannot move beyond current journal NextUSN" ;;
  Ok tt.

(** ** The state file *)

Definition tempPrefix : bytes := bs ".fi-usn-".
Definition tempSuffix : bytes := bs ".tmp".

(** A scope is part of the file's name. *)
Definition scope_char (c : byte) : bool :=
  between 97 122 c || between 65 90 c || between 48 57 c ||
  bool_decide (c = z2b 45) || bool_decide (c = z2b 95) || bool_decide (c = z2b 46).
Definition safeScopeID (value : bytes) : bool :=
  negb (bool_decide (value = [])) && forallb scope_char value && negb (HasPrefix value (bs ".")).
Definition DefaultPath (FI_STATE_DIR ProgramData scopeID : bytes) : res bytes :=
  fail? negb (safeScopeID scopeID) with Errorf "invalid scope id for state filename" ;;
  let? base :=
    if bool_decide (FI_STATE_DIR = []) then
      fail? bool_decide (ProgramData = []) with Errorf "ProgramData is not set" ;;
      Ok (filepath_Join (filepath_Join ProgramData (bs "FI")) (bs "state"))
    else Ok FI_STATE_DIR in
  Ok (filepath_Join base (scopeID ++ bs "-usn.json")).

Section State.
Context `{JSON USNCheckpoint}.

(** The decoder reads the whole file; a read error ends the text early and is what the
    second [Decode] reports. *)
Definition decodeCheckpoint (r : reader) : res USNCheckpoint :=
  match json_Decode (rd_data r) with
  | Ok (value, rest) =>
      fail? negb (forallb json_space rest) || negb (bool_decide (rd_end r = EOF))
        with Wrap "%w: trailing data" ErrInvalidCheckpoint ;;
      check? Validate value ;;
      Ok value
  | Err _ => Err (Wrap "%w: %v" ErrInvalidCheckpoint)
  | Panic => Panic
  end.

Definition Load (name : bytes) : prog dir USNCheckpoint :=
  let! file := Open name in
  defer_close (let! r := file_reader file in lift (decodeCheckpoint r)).

Definition Save (name : bytes) (value : USNCheckpoint) : prog dir unit :=
  check! lift (Validate value) ;;
  check! syscall (ret tt) ;;
  fun d =>
    match json_Marshal value with
    | Ok text => replaceWith tempPrefix tempSuffix name (text ++ [z2b 10]) d
    | Err e => (let! (temp, file) := CreateTemp tempPrefix tempSuffix in
                fun d => (Err e, (Remove temp (Close d).2).2)) d
    | Panic => (Panic, d)
    end.

Definition Check (now : Time) (name : bytes) (root : res GovernedRootIdentity) (journal : res USNJournalState)
  : prog dir ContinuityAssessment :=
  let! value := Load name in
  let! root := lift root in
  let! journal := lift journal in
  lift (Assess now value root journal).

Definition Advance (now : Time) (name : bytes) (assessment : ContinuityAssessment) (expectedCurrentUSN newNextUSN : bytes)
  : prog dir USNCheckpoint :=
  check! lift (ValidateAdvance assessment expectedCurrentUSN newNextUSN) ;;
  let! current := Load name in
  fail! negb (bool_decide (CheckpointNext current = expectedCurrentUSN)) ||
        negb (bool_decide (CheckpointJournal current = CheckpointJournal (AssessedCheckpoint assessment))) ||
        negb (sameVolume (RootVolumeIdentity (CheckpointRoot current))
                         (RootVolumeIdentity (CheckpointRoot (AssessedCheckpoint assessment)))) ||
        negb (sameObject (RootObjectIdentity (CheckpointRoot current))
                         (RootObjectIdentity (CheckpointRoot (AssessedCheckpoint assessment))))
    with ErrCheckpointConflict ;;
  let current := {| CheckpointVersion := CheckpointVersion current; CheckpointScopeID := CheckpointScopeID current;
                    CheckpointRoot := CheckpointRoot current; CheckpointJournal := CheckpointJournal current;
                    CheckpointNext := newNextUSN; UpdatedAt := Format_RFC3339Nano now |} in
  check! Save name current ;;
  ret current.

Definition Initialize (now : Time) (scopeID name : bytes) (root : res GovernedRootIdentity) (journal : res USNJournalState)
  : prog dir (USNCheckpoint * USNJournalState) :=
  let! root := lift root in
  let! journal := lift journal in
  fail! negb (sameVolume (RootVolumeIdentity root) (JournalVolumeIdentity journal))
    with Errorf "governed root and USN journal volume identities do not match" ;;
  let value := {| CheckpointVersion := SchemaVersion; CheckpointScopeID := scopeID; CheckpointRoot := root;
                  CheckpointJournal := JournalID journal; CheckpointNext := NextUSN journal;
                  UpdatedAt := Format_RFC3339Nano now |} in
  check! Save name value ;;
  ret (value, journal).

End State.

(** ** Continuity *)

Lemma canonicalUnsigned_same value : canonicalUnsigned value = records.canonicalUnsigned value.
Proof. done. Qed.

(** The journal still holds everything from the checkpoint on. *)
Definition journal_covers (journal : USNJournalState) (usn : Z) : Prop :=
  exists first lowest next,
    records.canonicalUnsigned (FirstUSN journal) = Ok first /\ records.canonicalUnsigned (LowestValidUSN journal) = Ok lowest /\
    records.canonicalUnsigned (NextUSN journal) = Ok next /\ first <= usn <= next /\ (lowest = 0 \/ lowest <= usn).

(** The same root object on the same volume, in the same journal and scope. *)
Definition same_source (value : USNCheckpoint) (root : GovernedRootIdentity) (journal : USNJournalState) : Prop :=
  CheckpointScopeID value = JournalScopeID journal /\ CheckpointScopeID value = RootScopeID root /\
  sameVolume (RootVolumeIdentity (CheckpointRoot value)) (RootVolumeIdentity root) = true /\
  sameObject (RootObjectIdentity (CheckpointRoot value)) (RootObjectIdentity root) = true /\
  sameVolume (RootVolumeIdentity (CheckpointRoot value)) (JournalVolumeIdentity journal) = true /\
  CheckpointJournal value = JournalID journal.

Lemma Validate_next value : Validate value = Ok tt -> exists n, is_u64 n /\ CheckpointNext value = FormatUint n.
Proof.
  intros H. unfold Validate in H. res_inv H.
  destruct (canonicalUnsigned (CheckpointNext value)) as [n| |] eqn:En; [|done..].
  rewrite canonicalUnsigned_same in En. apply canonicalUnsigned_spec in En. eauto.
Qed.

(** A branch that reports a gap because the source is another one. *)
Ltac gap_case H :=
  injection H as <-; split; [intros Hd; discriminate Hd|intros [(? & ? & ? & ? & ? & ?) _]; congruence].

(** [C24] An assessment says [Continuous] exactly when the checkpoint's source is the current one
    and the journal covers the checkpoint: nothing between the two was lost. *)
Theorem Assess_continuous now value root journal assessment usn :
  Assess now value root journal = Ok assessment -> CheckpointNext value = FormatUint usn -> is_u64 usn ->
  AssessmentStatus assessment = ContinuityContinuous <-> same_source value root journal /\ journal_covers journal usn.
Proof.
  intros H En Hu. unfold Assess in H. unfold same_source.
  destruct (Validate value) as [[]| |]; [|done..]. destruct (ValidateGovernedRootIdentity root) as [[]| |]; [|done..].
  destruct (ValidateUSNJournalState journal) as [[]| |]; [|done..]. cbn [res_bind] in H.
  destruct (bool_decide_reflect (CheckpointScopeID value = JournalScopeID journal)); [|gap_case H].
  destruct (bool_decide_reflect (CheckpointScopeID value = RootScopeID root)); [|gap_case H]. cbn [negb orb] in H.
  destruct (sameVolume _ (RootVolumeIdentity root)); [|gap_case H]. destruct (sameObject _ _); [|gap_case H].
  destruct (sameVolume _ (JournalVolumeIdentity journal)); [|gap_case H]. cbn [negb] in H.
  destruct (bool_decide_reflect (CheckpointJournal value = JournalID journal)); [|gap_case H].
  cbn [negb] in H. rewrite En, canonicalUnsigned_same, canonicalUnsigned_FormatUint in H by done. res_inv H.
  unfold journal_covers. rewrite canonicalUnsigned_same in *.
  repeat match goal with
         | |- context [?a <? ?b] => destruct (Z.ltb_spec a b)
         | |- context [?a =? ?b] => destruct (Z.eqb_spec a b)
         end; (split; cbn;
    [intros Hs; first [discriminate Hs|split; [by split_and!|exists v, v0, v1; split_and!; first [assumption|lia]]]
    |intros (_ & first & lowest & next & F1 & F2 & F3 & Hr & Hl); rewrite E in F1; rewrite E0 in F2; rewrite E1 in F3; simplify_eq; first [done|exfalso; lia]]).
Qed.

(** ** The state file over its whole life *)

Section Life.
Context `{JSONLaws USNCheckpoint} (name : bytes) (Hname : forall k, name <> temp_name tempPrefix tempSuffix k).

(** The checkpoint that [Advance] writes over [c]. *)
Definition moved (c : USNCheckpoint) (next at_ : bytes) : USNCheckpoint := {|
  CheckpointVersion := CheckpointVersion c; CheckpointScopeID := CheckpointScopeID c; CheckpointRoot := CheckpointRoot c;
  CheckpointJournal := CheckpointJournal c; CheckpointNext := next; UpdatedAt := at_ |}.

(** A binding denotes the checkpoint [c]: a synced file with its text. *)
Definition denotes (d : dir) (m : gmap bytes nat) (c : USNCheckpoint) : Prop :=
  exists i nd text, m !! name = Some i /\ inodes d !! i = Some nd /\ i_synced nd = true /\
    json_Marshal c = Ok text /\ i_data nd = text ++ [z2b 10] /\ json_ok c /\ Validate c = Ok tt.

(** [c'] is the same checkpoint, possibly further on. *)
Definition advances (c c' : USNCheckpoint) : Prop :=
  (exists next at_, c' = moved c next at_) /\
  exists n n', records.canonicalUnsigned (CheckpointNext c) = Ok n /\ records.canonicalUnsigned (CheckpointNext c') = Ok n' /\ n <= n'.

(** The name denotes a checkpoint now and on disk, and the one now is not behind. *)
Definition state_ok (d : dir) (visible stored : USNCheckpoint) : Prop :=
  wf d /\ denotes d (names d) visible /\ denotes d (durable d) stored /\ advances stored visible.

Lemma Validate_canonical c : Validate c = Ok tt -> exists n, records.canonicalUnsigned (CheckpointNext c) = Ok n.
Proof. intros (n & Hn & ->)%Validate_next. exists n. by apply canonicalUnsigned_FormatUint. Qed.

Lemma advances_refl c : Validate c = Ok tt -> advances c c.
Proof.
  intros (n & E)%Validate_canonical. split; [exists (CheckpointNext c), (UpdatedAt c); by destruct c|]. exists n, n. split_and!; done.
Qed.

Lemma advances_trans a b c : advances a b -> advances b c -> advances a c.
Proof.
  intros [(n1 & t1 & ->) (x & y & Ex & Ey & Hxy)] [(n2 & t2 & ->) (y' & z & Ey' & Ez & Hyz)].
  split; [by exists n2, t2|]. exists x, z. split_and!; try done. assert (y = y') by congruence. lia.
Qed.

(** A load sees the checkpoint the name denotes, and changes nothing. *)
Lemma quiet_Load : quiet (Load name).
Proof. unfold Load. quiet. Qed.

Lemma Load_denotes d c v d' : denotes d (names d) c -> Load name d = (Ok v, d') -> v = c.
Proof.
  intros (i & nd & text & Hi & Hnd & Hsync & Hm & Hdata & Hok & Hval) H'. unfold Load in H'.
  apply bind_Ok in H' as (file & d1 & Ho & H'). apply Open_Ok in Ho as [[fs ->] Hf]. assert (file = i) as -> by congruence.
  unfold defer_close in H'. destruct (bind _ _ _) as [r2 d2] eqn:Eb. injection H' as -> _.
  apply bind_Ok in Eb as (r & d3 & Hr & Hd). apply file_reader_Ok in Hr as (_ & nd' & Hnd' & Hr). cbn in Hnd'.
  assert (nd' = nd) as -> by congruence. unfold lift in Hd. injection Hd as Hd _. unfold decodeCheckpoint in Hd.
  destruct (json_Decode (rd_data r)) as [[w rest]| |] eqn:Ew; [|done..]. res_inv Hd. bool_hyps.
  rewrite Hr in Ew by (match goal with G : rd_end r = EOF |- _ => by rewrite G end). cbn [rd_data] in Ew.
  rewrite Hdata, (json_delimited c text [z2b 10] Hok Hm) in Ew. congruence.
Qed.

Lemma Save_replaced d v r d' : wf d -> Save name v d = (r, d') ->
  (unchanged name d d' /\ r <> Ok tt) \/
  exists text, Validate v = Ok tt /\ json_Marshal v = Ok text /\ replaced name (text ++ [z2b 10]) d d' /\
    (r = Ok tt -> exists nd, stable d' name nd /\ i_data nd = text ++ [z2b 10]).
Proof.
  intros Hwf Hs. unfold Save, lift in Hs. unfold bind at 1 in Hs. destruct (Validate v) as [[]|e|].
  2,3: injection Hs as <- <-; left; split; [|done]; rewrite <- (set_faults_id d) at 2; by apply unchanged_faults.
  unfold bind at 1 in Hs. destruct (syscall_cases (ret tt) d) as (fs & [E|E]); rewrite E in Hs; cbn in Hs.
  { injection Hs as <- <-. left. split; [by apply unchanged_faults|done]. }
  assert (wf (set_faults fs d)) as Hwf' by apply Hwf.
  destruct (json_Marshal v) as [text|e|].
  - right. exists text. apply replaceWith_spec in Hs as [Hr Hok]; [|done..]. split_and!; try done. by destruct Hr.
  - left. eapply (abandon_unchanged tempPrefix tempSuffix name) in Hs as [[] Hne]; done.
  - left. injection Hs as <- <-. split; [by apply unchanged_faults|done].
Qed.

Lemma denotes_kept d d' m' m c :
  (forall i, is_Some (inodes d !! i) -> inodes d' !! i = inodes d !! i) -> m' !! name = m !! name ->
  denotes d m c -> denotes d' m' c.
Proof.
  intros Hi Hn (i & nd & text & H1 & H2 & Hrest). exists i, nd, text. rewrite Hn, Hi by eauto. eauto.
Qed.

Lemma denotes_valid d m c : denotes d m c -> Validate c = Ok tt.
Proof. by intros (? & ? & ? & _ & _ & _ & _ & _ & _ & ?). Qed.

(** Saving a checkpoint that advances both the visible and the stored one. *)
Lemma Save_state d visible stored v r d' :
  state_ok d visible stored -> json_ok v -> advances visible v -> Save name v d = (r, d') ->
  exists visible' stored', state_ok d' visible' stored' /\ advances visible visible' /\ advances stored stored' /\
    (visible' = visible \/ visible' = v) /\ (stored' = stored \/ stored' = v) /\ (r = Ok tt -> visible' = v /\ stored' = v).
Proof.
  intros (Hwf & Hv & Hs & Ha) Hjok Hadv Hsave. pose proof (denotes_valid _ _ _ Hv) as Vv. pose proof (denotes_valid _ _ _ Hs) as Vs.
  apply Save_replaced in Hsave as [[[U1 U2 U3 U4] Hne]|(text & Hval & Hm & [R1 R2 R3 R4] & Hok)]; [..|done].
  { exists visible, stored. split_and!; try (by apply advances_refl); [split_and!; try done; by eapply denotes_kept|by left|by left|done]. }
  assert (forall m', (exists i nd, m' !! name = Some i /\ inodes d' !! i = Some nd /\ i_data nd = text ++ [z2b 10] /\ i_synced nd = true) ->
    denotes d' m' v) as Hnew by (intros m' (i & nd & ? & ? & ? & ?); exists i, nd, text; by split_and!).
  assert (advances v v) as Hvv by (by apply advances_refl). assert (advances stored v) as Hsv by (by eapply advances_trans).
  destruct r as [[]|e|].
  { destruct (Hok eq_refl) as (nd & (i & S1 & S2 & S3 & S4) & Hd). exists v, v.
    split_and!; try done; auto. split_and!; try done; apply Hnew; exists i, nd; by split_and!. }
  all: destruct R4 as [E4|(i & nd & D1 & D2 & D3 & D4 & D5)];
    [|exists v, v; split_and!; try done; auto; split_and!; try done; apply Hnew; exists i, nd; by split_and!].
  all: assert (denotes d' (durable d') stored) as Hs' by (by eapply denotes_kept).
  all: destruct R3 as [E3|E3]; [exists visible, stored|exists v, stored]; split_and!; try done; try (by apply advances_refl); auto;
    split_and!; try done; [by eapply denotes_kept|by apply Hnew].
Qed.

(** The strings [Advance] puts in, a canonical number and a time, are ASCII. *)
Context (Hascii : forall c next at_, json_ok c -> Validate (moved c next at_) = Ok tt -> json_ok (moved c next at_)).

Lemma state_faults d visible stored fs : state_ok d visible stored -> state_ok (set_faults fs d) visible stored.
Proof. intros (Hwf & Hv & Hs & Ha). split_and!; [apply Hwf|exact Hv|exact Hs|done]. Qed.

Lemma Advance_state now assessment expected next d visible stored r d' :
  state_ok d visible stored -> Advance now name assessment expected next d = (r, d') ->
  exists visible' stored', state_ok d' visible' stored' /\ advances visible visible' /\ advances stored stored' /\
    (visible' = visible /\ stored' = stored \/ CheckpointNext visible = expected /\ exists v, CheckpointNext v = next /\
       (visible' = visible \/ visible' = v) /\ (stored' = stored \/ stored' = v)) /\
    forall c, r = Ok c -> visible' = c /\ stored' = c /\ CheckpointNext c = next /\ CheckpointNext visible = expected.
Proof.
  intros Hst Hr. pose proof Hst as (Hwf & Hv & Hs & Ha).
  assert (forall fs, exists visible' stored', state_ok (set_faults fs d) visible' stored' /\ advances visible visible' /\ advances stored stored' /\
    visible' = visible /\ stored' = stored) as Hsame.
  { intros fs. exists visible, stored. split_and!; [by apply state_faults|by eapply advances_refl, denotes_valid..|done|done]. }
  assert (forall fs (e : error), (Err e, set_faults fs d) = (r, d') \/ (Panic, set_faults fs d) = (r, d') ->
    exists visible' stored', state_ok d' visible' stored' /\ advances visible visible' /\ advances stored stored' /\
    (visible' = visible /\ stored' = stored \/ CheckpointNext visible = expected /\ exists v, CheckpointNext v = next /\
       (visible' = visible \/ visible' = v) /\ (stored' = stored \/ stored' = v)) /\
    forall c, r = Ok c -> visible' = c /\ stored' = c /\ CheckpointNext c = next /\ CheckpointNext visible = expected) as Hfail.
  { intros fs e He. destruct (Hsame fs) as (v & s & ? & ? & ? & ? & ?). exists v, s. destruct He as [[= <- <-]|[= <- <-]]; split_and!; auto; done. }
  pose proof (set_faults_id d) as Hid. unfold Advance, lift in Hr. unfold bind at 1 in Hr.
  destruct (ValidateAdvance assessment expected next) as [[]|e|] eqn:Eva.
  2: apply (Hfail (faults d) e); rewrite Hid; auto.
  2: apply (Hfail (faults d) EOF); rewrite Hid; auto.
  unfold bind at 1 in Hr. destruct (Load name d) as [rl d1] eqn:El.
  destruct (quiet_run _ _ _ _ quiet_Load El) as [fs ->].
  destruct rl as [current|e|]; [|by apply (Hfail fs e); auto|by apply (Hfail fs EOF); auto].
  apply (Load_denotes d visible) in El as ->; [|done].
  destruct (_ || _) eqn:Ec in Hr; [apply (Hfail fs ErrCheckpointConflict); auto|]. bool_hyps.
  match goal with G : CheckpointNext visible = expected |- _ => rename G into Enext end.
  change {| CheckpointVersion := _; UpdatedAt := _ |} with (moved visible next (Format_RFC3339Nano now)) in Hr.
  set (v := moved visible next (Format_RFC3339Nano now)) in *.
  destruct (Validate v) as [[]|e|] eqn:Evv.
  2,3: unfold bind, Save, lift in Hr; unfold bind at 1 in Hr; rewrite Evv in Hr; first [apply (Hfail fs e); by left|apply (Hfail fs EOF); by right].
  assert (advances visible v) as Hadv.
  { split; [by eexists _, _|]. unfold ValidateAdvance in Eva. res_inv Eva. rewrite canonicalUnsigned_same in *.
    bool_hyps. rewrite Enext. cbn. do 2 eexists. split_and!; [eassumption..|lia]. }
  apply state_faults with (fs := fs) in Hst. unfold bind in Hr. destruct (Save name v (set_faults fs d)) as [rs d2] eqn:Es.
  destruct Hv as (iv & ndv & tv & Hv'). assert (json_ok visible) as Hj by tauto.
  eapply Save_state in Es as (visible' & stored' & Hst' & Ha1 & Ha2 & Hc1 & Hc2 & Hok); [|done|by apply Hascii|done].
  exists visible', stored'. destruct rs as [[]|e|]; injection Hr as <- <-; split_and!; try done;
    try (right; split; [done|]; exists v; by split_and!).
  intros c [= <-]. destruct (Hok eq_refl) as [-> ->]. by split_and!.
Qed.

Lemma crash_wf_dir d d' : crash d d' -> wf d -> wf d'.
Proof.
  intros (Hn & Hd & Hk & Hi) (W1 & W2 & W3).
  assert (forall i, is_Some (inodes d !! i) <-> is_Some (inodes d' !! i)) as Hs.
  { intros i. specialize (Hi i). destruct (inodes d !! i); [destruct Hi as (? & -> & _)|rewrite Hi]; split; eauto. }
  assert (forall n i, names d' !! n = Some i -> is_Some (inodes d' !! i)) as Hb.
  { intros n i Hni. apply Hs. destruct (Hn n) as [E|E]; rewrite E in Hni; eauto. }
  split_and!; [done|rewrite Hd; done|]. intros i Hi'. rewrite Hk. by apply W3, Hs.
Qed.

Lemma crash_state d d' visible stored : state_ok d visible stored -> crash d d' ->
  exists c, state_ok d' c c /\ (c = visible \/ c = stored).
Proof.
  intros (Hwf & Hv & Hs & Ha) Hc. pose proof Hc as (Hn & Hd & Hk & Hi).
  assert (forall m c, denotes d m c -> names d' !! name = m !! name -> denotes d' (names d') c) as Hkeep.
  { intros m c (i & nd & text & H1 & H2 & H3 & Hrest) E. exists i, nd, text. rewrite E. split_and!; try done; [|naive_solver..].
    specialize (Hi i). rewrite H2 in Hi. destruct Hi as (nd' & E' & _ & Hnd). by rewrite E', Hnd. }
  assert (wf d') as Hwf' by (by eapply crash_wf_dir).
  destruct (Hn name) as [E|E]; [exists visible|exists stored]; (split; [|auto]); split_and!; try done;
    try (by eapply advances_refl, denotes_valid); rewrite ?Hd; by eapply Hkeep.
Qed.

(** The life of the state file: advances and checks by the collector, with any arguments and
    failures, and power failures. *)
Inductive life_step (d d' : dir) : Prop :=
| life_advance now assessment expected next r : Advance now name assessment expected next d = (r, d') -> life_step d d'
| life_check now root journal r : Check now name root journal d = (r, d') -> life_step d d'
| life_crash : crash d d' -> life_step d d'.

Lemma life_step_state d d' visible stored : state_ok d visible stored -> life_step d d' ->
  exists visible' stored', state_ok d' visible' stored' /\ advances stored stored'.
Proof.
  intros Hst [now assessment expected next r Hr|now root journal r Hr|Hc].
  - eapply Advance_state in Hr as (v & s & ? & _ & ? & _ & _); eauto.
  - assert (quiet (Check now name root journal)) as Hq by (pose proof quiet_Load; unfold Check; quiet).
    destruct (quiet_run _ _ _ _ Hq Hr) as [fs ->]. exists visible, stored. split; [by apply state_faults|].
    by eapply advances_refl, denotes_valid, Hst.
  - destruct (crash_state d d' visible stored Hst Hc) as (c & Hst' & Hcase). exists c, c. split; [done|].
    destruct Hst as (_ & Hv & Hs & Ha). destruct Hcase as [->| ->]; [done|]. by eapply advances_refl, denotes_valid.
Qed.

Lemma life_state d d' : rtc life_step d d' -> forall visible stored, state_ok d visible stored ->
  exists visible' stored', state_ok d' visible' stored' /\ advances stored stored'.
Proof.
  induction 1 as [d|d d1 d2 Hstep _ IH]; intros visible stored Hst.
  - exists visible, stored. split; [done|]. by eapply advances_refl, denotes_valid, Hst.
  - destruct (life_step_state d d1 visible stored Hst Hstep) as (v1 & s1 & Hst1 & Ha1).
    destruct (IH v1 s1 Hst1) as (v2 & s2 & Hst2 & Ha2). exists v2, s2. split; [done|]. by eapply advances_trans.
Qed.

(** [C23] Once an advance was reported as done, no later sequence of advances, failures and power
    failures takes the checkpoint back: whatever a later load returns is the same checkpoint
    with a next USN that is not smaller. *)
Theorem Advance_never_undone now assessment expected next d visible stored c d1 d2 v d3 :
  state_ok d visible stored -> Advance now name assessment expected next d = (Ok c, d1) ->
  rtc life_step d1 d2 -> Load name d2 = (Ok v, d3) -> CheckpointNext c = next /\ advances visible c /\ advances c v.
Proof.
  intros Hst Hadv Hlife Hload. eapply Advance_state in Hadv as (v1 & s1 & Hst1 & Ha1 & _ & _ & Hok); [|done].
  destruct (Hok c eq_refl) as (-> & -> & En & _). split_and!; [done..|]. clear Hst Ha1 Hok En.
  destruct (life_state d1 d2 Hlife c c Hst1) as (v2 & s2 & Hst2 & Hs2).
  apply (Load_denotes d2 v2) in Hload as ->; [|apply Hst2]. eapply advances_trans; [done|]. apply Hst2.
Qed.

End Life.

(** ** A state file

    A codec that writes the fields one after the other, each with its length in unary. *)

Definition field_text (f : bytes) : bytes := replicate (length f) (z2b 46) ++ z2b 58 :: f.
Fixpoint field_of (n : nat) (raw : bytes) : res (bytes * bytes) :=
  match raw with
  | [] => Err ErrUnexpectedEOF
  | c :: raw =>
      if bool_decide (c = z2b 46) then field_of (S n) raw
      else if bool_decide (c = z2b 58) && (n <=? length raw)%nat then Ok (take n raw, drop n raw)
      else Err (Errorf "json: unexpected text")
  end.
Fixpoint fields_of (k : nat) (raw : bytes) : res (list bytes * bytes) :=
  match k with
  | O => Ok ([], raw)
  | S k => let? (f, raw) := field_of 0 raw in let? (fs, raw) := fields_of k raw in Ok (f :: fs, raw)
  end.

Lemma field_of_text f rest : field_of 0 (field_text f ++ rest) = Ok (f, rest).
Proof.
  unfold field_text. assert (forall k n, field_of n ((replicate k (z2b 46) ++ z2b 58 :: f) ++ rest) =
    field_of (n + k) (z2b 58 :: f ++ rest)) as Hk.
  { induction k as [|k IH]; intros n; cbn [replicate app field_of]; [by rewrite Nat.add_0_r|].
    rewrite bool_decide_eq_true_2 by done. rewrite IH. by replace (S n + k)%nat with (n + S k)%nat by lia. }
  rewrite Hk. cbn [field_of]. rewrite bool_decide_eq_false_2, bool_decide_eq_true_2 by done.
  rewrite (proj2 (Nat.leb_le _ _)) by (rewrite length_app; lia). cbn [andb Nat.add]. by rewrite take_app_length, drop_app_length.
Qed.

Lemma fields_of_text fs rest : fields_of (length fs) (concat (map field_text fs) ++ rest) = Ok (fs, rest).
Proof.
  induction fs as [|f fs IH]; [done|]. cbn [map concat length fields_of]. rewrite <- app_assoc, field_of_text. cbn [res_bind]. by rewrite IH.
Qed.

Definition checkpoint_fields (c : USNCheckpoint) : list bytes :=
  let r := CheckpointRoot c in let v := RootVolumeIdentity r in let o := RootObjectIdentity r in
  [CheckpointVersion c; CheckpointScopeID c; CheckpointJournal c; CheckpointNext c; UpdatedAt c; RootScopeID r;
   RequestedPathUTF16LEBase64URL r; ResolvedPathUTF16LEBase64URL r; RootMethodVersion r;
   VolumeMethodVersion v; VolumeGUID v; VolumeSerial v; MethodVersion o; FileReferenceNumber o; SequenceNumber o].
Definition checkpoint_of (fs : list bytes) : res USNCheckpoint :=
  match fs with
  | [a; b; c; d; e; f; g; h; i; j; k; l; m; n; o] =>
      Ok {| CheckpointVersion := a; CheckpointScopeID := b; CheckpointJournal := c; CheckpointNext := d; UpdatedAt := e;
            CheckpointRoot := {| RootScopeID := f; RequestedPathUTF16LEBase64URL := g; ResolvedPathUTF16LEBase64URL := h;
              RootMethodVersion := i;
              RootVolumeIdentity := {| VolumeMethodVersion := j; VolumeGUID := k; VolumeSerial := l |};
              RootObjectIdentity := {| MethodVersion := m; FileReferenceNumber := n; SequenceNumber := o |} |} |}
  | _ => Err (Errorf "json: unexpected text")
  end.

Definition demoJSON : JSON USNCheckpoint := {|
  json_Marshal c := Ok (concat (map field_text (checkpoint_fields c)));
  json_Decode raw := let? (fs, rest) := fields_of 15 raw in let? c := checkpoint_of fs in Ok (c, rest) |}.
Definition demoJSONLaws : @JSONLaws USNCheckpoint demoJSON.
Proof.
  refine (@Build_JSONLaws USNCheckpoint demoJSON (fun _ => True) _).
  intros c raw rest _ Hm. assert (raw = concat (map field_text (checkpoint_fields c))) as ->.
  { change (Ok (concat (map field_text (checkpoint_fields c))) = Ok raw) in Hm. revert Hm.
    generalize (concat (map field_text (checkpoint_fields c))). congruence. }
  unfold json_Decode, demoJSON. change 15%nat with (length (checkpoint_fields c)). rewrite fields_of_text. cbn [res_bind]. by destruct c as [? ? [? ? ? ? [] []] ? ? ?].
Defined.

Definition demoVolume : VolumeIdentity := {|
  VolumeMethodVersion := bs "windows-file-id-info-ntfs/0.1";
  VolumeGUID := bs "\\?\Volume{00112233-4455-6677-8899-aabbccddeeff}\"; VolumeSerial := bs "77" |}.
Definition demoRoot : GovernedRootIdentity := {|
  RootScopeID := bs "scope"; RequestedPathUTF16LEBase64URL := b64_encode (bytes_of [67; 58]);
  ResolvedPathUTF16LEBase64URL := b64_encode (bytes_of [67; 58]); RootMethodVersion := bs "windows-file-id-info-ntfs/0.1";
  RootVolumeIdentity := demoVolume;
  RootObjectIdentity := {| MethodVersion := bs "windows-file-id-info-ntfs/0.1"; FileReferenceNumber := bs "5";
                           SequenceNumber := bs "5" |} |}.
Definition demoTime : Time := time_Unix 1767225600 5.
Definition demoCheckpoint : USNCheckpoint := {|
  CheckpointVersion := SchemaVersion; CheckpointScopeID := bs "scope"; CheckpointRoot := demoRoot;
  CheckpointJournal := bs "9"; CheckpointNext := bs "4096"; UpdatedAt := Format_RFC3339Nano demoTime |}.
Definition demoJournal : USNJournalState := {|
  JournalObservedAt := Format_nano demoTime; JournalCollectionMethod := bs "WindowsNTFSUSNJournalV0";
  JournalScopeID := bs "scope"; JournalVolumeIdentity := demoVolume; JournalID := bs "9"; FirstUSN := bs "1024";
  NextUSN := bs "8192"; LowestValidUSN := bs "0"; MaxUSN := bs "9223372036854775807"; MaximumSize := bs "1";
  AllocationDelta := bs "1" |}.

Example demo_assessment :
  Validate demoCheckpoint = Ok tt /\
  (let? a := Assess demoTime demoCheckpoint demoRoot demoJournal in Ok (AssessmentStatus a)) = Ok ContinuityContinuous.
Proof. vm_compute. auto. Qed.

Definition demoState : dir :=
  let text := match @json_Marshal _ demoJSON demoCheckpoint with Ok t => t | _ => [] end in
  Dir {[bs "scope-usn.json" := 0%nat]} {[bs "scope-usn.json" := 0%nat]}
      {[0%nat := Inode Regular 384 (text ++ [z2b 10]) true]} 1 [].
Definition demoAssessment : ContinuityAssessment :=
  match Assess demoTime demoCheckpoint demoRoot demoJournal with
  | Ok a => a
  | _ => {| CheckedAt := []; AssessmentStatus := ContinuityGap; AssessmentReason := []; AssessedCheckpoint := demoCheckpoint;
            CurrentGovernedRoot := demoRoot; AssessedJournal := demoJournal |}
  end.
Lemma Assess_continuous_witness :
  AssessmentStatus demoAssessment = ContinuityContinuous <-> same_source demoCheckpoint demoRoot demoJournal /\ journal_covers demoJournal 4096.
Proof.
  apply (Assess_continuous demoTime demoCheckpoint demoRoot demoJournal demoAssessment 4096).
  - vm_compute. reflexivity.
  - vm_compute. reflexivity.
  - unfold is_u64. lia.
Defined.

Definition demoAdvance (d : dir) : res USNCheckpoint * dir :=
  @Advance demoJSON demoTime (bs "scope-usn.json") demoAssessment (bs "4096") (bs "6000") d.
Definition demoAdvanced : USNCheckpoint := moved demoCheckpoint (bs "6000") (Format_RFC3339Nano demoTime).

Lemma demoState_ok :
  @state_ok demoJSON demoJSONLaws (bs "scope-usn.json") demoState demoCheckpoint demoCheckpoint.
Proof.
  assert (Validate demoCheckpoint = Ok tt) as Hv by (vm_compute; reflexivity).
  split_and!; [| | |by apply advances_refl].
  - unfold demoState. cbv zeta. split_and!; cbn [names durable inodes next_ino].
    + intros n i [_ <-]%lookup_singleton_Some. rewrite lookup_singleton_eq. eauto.
    + intros n i [_ <-]%lookup_singleton_Some. rewrite lookup_singleton_eq. eauto.
    + intros i [nd [<- _]%lookup_singleton_Some]. lia.
  - do 3 eexists. unfold demoState. cbn [names inodes]. rewrite !lookup_singleton_eq. split_and!; first [reflexivity|exact Hv].
  - do 3 eexists. unfold demoState. cbn [durable inodes]. rewrite !lookup_singleton_eq. split_and!; first [reflexivity|exact Hv].
Qed.

(** The advance succeeds, a second one with the same expectation is a conflict, and a load
    finds the checkpoint of the first. *)
Lemma Advance_never_undone_witness :
  (demoAdvance demoState).1 = Ok demoAdvanced /\
  (demoAdvance (demoAdvance demoState).2).1 = Err ErrCheckpointConflict /\ advances demoAdvanced demoAdvanced.
Proof.
  split; [vm_compute; reflexivity|]. split; [vm_compute; reflexivity|].
  pose proof (@Advance_never_undone demoJSON demoJSONLaws (bs "scope-usn.json")) as Hthm.
  refine (proj2 (proj2 (Hthm _ _ demoTime demoAssessment (bs "4096") (bs "6000") demoState demoCheckpoint demoCheckpoint demoAdvanced
    (demoAdvance demoState).2 (demoAdvance (demoAdvance demoState).2).2 demoAdvanced
    (@Load demoJSON (bs "scope-usn.json") (demoAdvance (demoAdvance demoState).2).2).2 demoState_ok _ _ _))).
  - intros k E. pose proof (f_equal (fun s => nth 0 s (z2b 0)) E) as Eh. cbv in Eh. discriminate Eh.
  - intros. exact I.
  - vm_compute. reflexivity.
  - apply rtc_once. apply (@life_advance demoJSON _ _ _ demoTime demoAssessment (bs "4096") (bs "6000")
      (demoAdvance (demoAdvance demoState).2).1). apply (surjective_pairing (demoAdvance (demoAdvance demoState).2)).
  - vm_compute. reflexivity.
Defined.

End checkpoint.
