(* ===== verification/Operation.v ===== *)
(** * The operation journal of the collector

    Models [go/internal/windows/operation]: every bounded operation of the collector has a
    Started line, flushed before the work begins, and a Finished line; after a restart the
    operations that were left open are closed as interrupted. The state is the directory of
    the journal file and the number of times the clock or the random source were asked. *)

From stdpp Require Import gmap.
From S2P Require Import Prelude GoBytes GoStrings GoText GoIO GoFS GoDir GoPublish GoCalls GenerationProtocol Records Checkpoint.

Module operation.
Import records.

(** ** Operations *)

Record Started := { StartID : bytes; StartScopeID : bytes; StartKind : bytes; StartTime : bytes }.

(** [rand.Read] and [time.Now]. *)
Class OperationClock := { operationNow : nat -> bytes; newOperationID : nat -> res bytes }.

Record ops_state := Ops { ops_dir : dir; ops_tick : nat }.

Definition on_journal {A} (p : prog dir A) : prog ops_state A := fun s =>
  let '(r, d) := p (ops_dir s) in (r, Ops d (ops_tick s)).

Section Operations.
Context {C : OperationClock}.

Definition canonicalNow : prog ops_state bytes := fun s => (Ok (operationNow (ops_tick s)), Ops (ops_dir s) (S (ops_tick s))).
Definition freshOperationID : prog ops_state bytes := fun s => (newOperationID (ops_tick s), Ops (ops_dir s) (S (ops_tick s))).

Definition Start (scopeID kind : bytes) : prog ops_state Started :=
  fail! bool_decide (TrimSpace scopeID = []) with Errorf "scope id is required" ;;
  let! operationID := freshOperationID in
  let! startedAt := canonicalNow in
  check! lift (ValidateOperationRecord {|
    OperationID := operationID; OperationScopeID := scopeID; OperationKind := kind; StartedAt := startedAt;
    FinishedAt := startedAt; Outcome := OperationComplete; ReasonCode := [] |}) ;;
  ret {| StartID := operationID; StartScopeID := scopeID; StartKind := kind; StartTime := startedAt |}.

Definition Finish (value : Started) (outcome reasonCode : bytes) : prog ops_state OperationRecord :=
  let! finishedAt := canonicalNow in
  let record := {| OperationID := StartID value; OperationScopeID := StartScopeID value; OperationKind := StartKind value;
                   StartedAt := StartTime value; FinishedAt := finishedAt; Outcome := outcome; ReasonCode := reasonCode |} in
  check! lift (ValidateOperationRecord record) ;;
  ret record.

End Operations.

(** ** Entries *)

Definition JournalStarted : bytes := bs "Started".
Definition JournalFinished : bytes := bs "Finished".

(** [EntryRecord] has the remaining fields, those of an operation record. *)
Record JournalEntry := { Event : bytes; EntryRecord : OperationRecord }.
#[global] Instance JournalEntry_eq_decision : EqDecision JournalEntry.
Proof. solve_decision. Defined.

Definition safeScopeID : bytes -> bool := checkpoint.safeScopeID.

Definition DefaultJournalPath (FI_STATE_DIR ProgramData scopeID : bytes) : res bytes :=
  fail? negb (safeScopeID scopeID) with Errorf "invalid scope id for operation journal filename" ;;
  let? base :=
    if bool_decide (FI_STATE_DIR = []) then
      fail? bool_decide (ProgramData = []) with Errorf "ProgramData is not set" ;;
      Ok (filepath_Join (filepath_Join ProgramData (bs "FI")) (bs "state"))
    else Ok FI_STATE_DIR in
  Ok (filepath_Join base (scopeID ++ bs "-operations.jsonl")).

Definition validateJournalEntry (entry : JournalEntry) : res unit :=
  let record := EntryRecord entry in
  if bool_decide (Event entry = JournalStarted) then
    fail? negb (bool_decide (FinishedAt record = [])) with Errorf "StartedEntryHasFinishedAt" ;;
    fail? negb (bool_decide (Outcome record = [])) with Errorf "StartedEntryHasOutcome" ;;
    fail? negb (bool_decide (TrimSpace (ReasonCode record) = [])) with Errorf "StartedEntryHasReasonCode" ;;
    ValidateOperationRecord {|
      OperationID := OperationID record; OperationScopeID := OperationScopeID record; OperationKind := OperationKind record;
      StartedAt := StartedAt record; FinishedAt := StartedAt record; Outcome := OperationComplete; ReasonCode := [] |}
  else if bool_decide (Event entry = JournalFinished) then ValidateOperationRecord record
  else Err (Errorf "UnsupportedValue: event").

Definition startedEntry (value : Started) : JournalEntry := {|
  Event := JournalStarted;
  EntryRecord := {| OperationID := StartID value; OperationScopeID := StartScopeID value; OperationKind := StartKind value;
                    StartedAt := StartTime value; FinishedAt := []; Outcome := []; ReasonCode := [] |} |}.
Definition finishedEntry (record : OperationRecord) : JournalEntry := {| Event := JournalFinished; EntryRecord := record |}.

(** [os.OpenFile(path, O_CREATE|O_APPEND|O_WRONLY, perm)]. *)
Definition OpenAppend (name : bytes) (perm : Z) : prog dir nat := syscall (fun d =>
  match names d !! name with
  | Some i => (Ok i, d)
  | None =>
      (Ok (next_ino d),
       Dir (<[name := next_ino d]> (names d)) (durable d)
           (<[next_ino d := Inode Regular perm [] false]> (inodes d)) (S (next_ino d)) (faults d))
  end).

(** ** Lines

    [bufio.Scanner] with [ScanLines]: the pieces between newlines, the last one also when no
    newline follows it. *)
Fixpoint rawLines (line data : bytes) : list bytes :=
  match data with
  | [] => if bool_decide (line = []) then [] else [line]
  | b :: data => if bool_decide (b = z2b 10) then line :: rawLines [] data else rawLines (line ++ [b]) data
  end.
Definition dropCR (line : bytes) : bytes :=
  match reverse line with
  | b :: rest => if bool_decide (b = z2b 13) then reverse rest else line
  | [] => line
  end.

(** A line must fit into the scanner's buffer. *)
Definition maxLineBytes : Z := 1024 * 1024.
Definition ErrTooLong : error := Sentinel "bufio.Scanner: token too long".

Section Journal.
Context {C : OperationClock} `{JSON JournalEntry}.

Definition appendEntry (name : bytes) (entry : JournalEntry) : prog dir unit :=
  check! lift (validateJournalEntry entry) ;;
  check! syscall (ret tt) ;;
  let! file := OpenAppend name 384 in
  check! or_close (let! text := lift (json_Marshal entry) in FileWrite file (text ++ [z2b 10])) ;;
  check! or_close (Sync file) ;;
  Close.

Definition AppendStarted (name : bytes) (started : Started) : prog ops_state unit :=
  on_journal (appendEntry name (startedEntry started)).
Definition AppendFinished (name : bytes) (record : OperationRecord) : prog ops_state unit :=
  on_journal (appendEntry name (finishedEntry record)).

(** One line of the journal; a terminal record without an event is an older Finished line. *)
Definition decodeEntry (line : bytes) : res JournalEntry :=
  let? entry := match json_DecodeOnly "%w" "invalid character after top-level value" line with
                | Err _ => Err (Errorf "invalid JSON") | r => r end in
  let entry := if bool_decide (Event entry = []) && negb (bool_decide (Outcome (EntryRecord entry) = []))
               then finishedEntry (EntryRecord entry) else entry in
  check? validateJournalEntry entry ;;
  Ok entry.

Fixpoint readLines (lines : list bytes) : res (list JournalEntry) :=
  match lines with
  | [] => Ok []
  | raw :: lines =>
      fail? maxLineBytes <=? len raw with ErrTooLong ;;
      let line := dropCR raw in
      if bool_decide (TrimSpace line = []) then readLines lines else
      let? entry := decodeEntry line in
      let? rest := readLines lines in
      Ok (entry :: rest)
  end.

Definition ReadAll (name : bytes) : prog dir (list JournalEntry) :=
  let! file := Open name in
  defer_close (let! r := file_reader file in
    lift (let? entries := readLines (rawLines [] (rd_data r)) in
          if bool_decide (rd_end r = EOF) then Ok entries else Err (rd_end r))).


(** ** Recovery *)

Record lifecycle := {
  startedByID : gmap bytes Started; finishedByID : gset bytes; startedOrder : list bytes
}.

Definition noteEntry (scopeID : bytes) (l : lifecycle) (entry : JournalEntry) : res lifecycle :=
  let record := EntryRecord entry in
  let id := OperationID record in
  fail? negb (bool_decide (OperationScopeID record = scopeID)) with Errorf "OperationJournalScopeMismatch: %s" ;;
  if bool_decide (Event entry = JournalStarted) then
    fail? bool_decide (is_Some (startedByID l !! id)) with Errorf "DuplicateStartedOperation: %s" ;;
    Ok {| startedByID := <[id := {| StartID := id; StartScopeID := OperationScopeID record; StartKind := OperationKind record;
                                    StartTime := StartedAt record |}]> (startedByID l);
          finishedByID := finishedByID l; startedOrder := startedOrder l ++ [id] |}
  else if bool_decide (Event entry = JournalFinished) then
    fail? bool_decide (id ∈ finishedByID l) with Errorf "DuplicateFinishedOperation: %s" ;;
    check? match startedByID l !! id with
           | Some started =>
               fail? negb (bool_decide (OperationScopeID record = StartScopeID started)) ||
                     negb (bool_decide (OperationKind record = StartKind started)) ||
                     negb (bool_decide (StartedAt record = StartTime started))
                 with Errorf "OperationLifecycleMismatch: %s" ;;
               Ok tt
           | None => Ok tt
           end ;;
    Ok {| startedByID := startedByID l; finishedByID := {[id]} ∪ finishedByID l; startedOrder := startedOrder l |}
  else Ok l.

Fixpoint noteEntries (scopeID : bytes) (entries : list JournalEntry) (l : lifecycle) : res lifecycle :=
  match entries with
  | [] => Ok l
  | entry :: entries => let? l := noteEntry scopeID l entry in noteEntries scopeID entries l
  end.

(** The records recovered so far are returned beside an error. *)
Fixpoint closeOperations (name : bytes) (l : lifecycle) (order : list bytes) (recovered : list OperationRecord)
  : prog ops_state (list OperationRecord * option error) :=
  match order with
  | [] => ret (recovered, None)
  | id :: order =>
      if bool_decide (id ∈ finishedByID l) then closeOperations name l order recovered else
      let started := default {| StartID := []; StartScopeID := []; StartKind := []; StartTime := [] |} (startedByID l !! id) in
      fun s =>
          match Finish started OperationInterrupted (bs "ProcessRestart") s with
          | (Ok record, s) =>
              match AppendFinished name record s with
              | (Ok _, s) => closeOperations name l order (recovered ++ [record]) s
              | (Err e, s) => (Ok (recovered, Some e), s)
              | (Panic, s) => (Panic, s)
              end
          | (Err e, s) => (Ok (recovered, Some e), s)
          | (Panic, s) => (Panic, s)
          end
  end.

Definition RecoverInterrupted (name scopeID : bytes) : prog ops_state (list OperationRecord * option error) :=
  if negb (safeScopeID scopeID) then ret ([], Some (Errorf "invalid scope id for operation journal recovery")) else
  fun s =>
    match on_journal (ReadAll name) s with
    | (Ok entries, s) =>
        match noteEntries scopeID entries {| startedByID := ∅; finishedByID := ∅; startedOrder := [] |} with
        | Ok l => closeOperations name l (startedOrder l) [] s
        | Err e => (Ok ([], Some e), s)
        | Panic => (Panic, s)
        end
    | (Err e, s) => (Ok ([], if errors_Is e ErrNotExist then None else Some e), s)
    | (Panic, s) => (Panic, s)
    end.

End Journal.

(** ** What the journal file holds *)

Section Content.
Context `{JSONLaws JournalEntry}.

(** The compact text of an entry is an object on one line; the lines of the journal are
    shorter than the scanner's buffer. *)
Definition line_of (e : JournalEntry) (t : bytes) : Prop :=
  json_Marshal e = Ok t /\ json_ok e /\ validateJournalEntry e = Ok tt /\
  (z2b 10 ∉ t) /\ dropCR t = t /\ TrimSpace t <> [] /\ len t < maxLineBytes.

Definition journal_text (texts : list bytes) : bytes := concat (map (fun t => t ++ [z2b 10]) texts).

Definition journal_holds (d : dir) (name : bytes) (es : list JournalEntry) : Prop :=
  exists i nd texts, names d !! name = Some i /\ inodes d !! i = Some nd /\ i_data nd = journal_text texts /\ Forall2 line_of es texts.

Lemma rawLines_line line t rest : z2b 10 ∉ t -> rawLines line (t ++ [z2b 10] ++ rest) = (line ++ t) :: rawLines [] rest.
Proof.
  revert line. induction t as [|b t IH]; intros line Hn; cbn [app rawLines].
  - rewrite bool_decide_eq_true_2 by done. by rewrite app_nil_r.
  - apply not_elem_of_cons in Hn as [Hb Hn]. rewrite bool_decide_eq_false_2 by congruence. rewrite IH by done. by rewrite <- app_assoc.
Qed.

Lemma rawLines_text texts : Forall (fun t => z2b 10 ∉ t) texts -> rawLines [] (journal_text texts) = texts.
Proof.
  induction 1 as [|t texts Hn _ IH]; [done|]. unfold journal_text in *. cbn [map concat].
  by rewrite <- app_assoc, rawLines_line, IH.
Qed.

Lemma valid_event e : validateJournalEntry e = Ok tt -> Event e = JournalStarted \/ Event e = JournalFinished.
Proof.
  unfold validateJournalEntry. case_bool_decide; [by left|]. case_bool_decide; [by right|done].
Qed.

Lemma decodeEntry_line e t : line_of e t -> decodeEntry t = Ok e.
Proof.
  intros (Hm & Hok & Hv & _). unfold decodeEntry, json_DecodeOnly. rewrite (json_round_trip e t) by done. cbn [wrap res_bind forallb negb].
  rewrite (bool_decide_eq_false_2 (Event e = [])) by (destruct (valid_event e Hv) as [->| ->]; discriminate). cbn [andb]. by rewrite Hv.
Qed.

Lemma readLines_text es texts : Forall2 line_of es texts -> readLines texts = Ok es.
Proof.
  induction 1 as [|e t es texts Hl _ IH]; [done|]. pose proof Hl as (_ & _ & _ & _ & Hcr & Ht & Hlen). cbn [readLines].
  rewrite (proj2 (Z.leb_gt _ _)) by done. rewrite Hcr, bool_decide_eq_false_2 by done. rewrite (decodeEntry_line e t) by done.
  cbn [res_bind]. by rewrite IH.
Qed.

(** Reading returns the entries, or fails. *)
Lemma ReadAll_holds d name es r d' : journal_holds d name es -> ReadAll name d = (r, d') ->
  (exists fs, d' = set_faults fs d) /\ forall es', r = Ok es' -> es' = es.
Proof.
  intros (i & nd & texts & Hn & Hi & Hd & Hl) Hr.
  assert (quiet (ReadAll name)) as Hq.
  { unfold ReadAll. apply keeps_bind; [apply _|apply quiet_Open|intros f]. apply quiet_defer_close.
    apply keeps_bind; [apply _|apply quiet_file_reader|intros rd]. apply keeps_lift, _. }
  split; [by eapply quiet_run|]. intros es' ->. unfold ReadAll in Hr. apply bind_Ok in Hr as (f & d1 & Ho & Hr).
  apply Open_Ok in Ho as [[fs ->] Hf]. assert (f = i) as -> by congruence.
  unfold defer_close in Hr. destruct ((let! r := file_reader i in _) (set_faults fs d)) as [rr d2] eqn:E. injection Hr as -> _.
  apply bind_Ok in E as (rd & d3 & Hrd & Hx). apply file_reader_Ok in Hrd as (_ & nd' & Hnd' & Hrd). cbn in Hnd'.
  assert (nd' = nd) as -> by congruence. unfold lift in Hx. injection Hx as Hx _.
  destruct (readLines (rawLines [] (rd_data rd))) as [es2| |] eqn:Er; cbn [res_bind] in Hx; [|done..].
  case_bool_decide as He; [|done]. injection Hx as <-. rewrite Hrd in Er by (by rewrite He). cbn [rd_data] in Er.
  rewrite Hd, rawLines_text, (readLines_text es texts) in Er; [congruence|done|].
  clear -Hl. induction Hl as [|? ? ? ? (_ & _ & _ & ? & _)]; by constructor.
Qed.

(** ** Appending *)

(** Nothing but the end of the file [i] changes. *)
Definition grown (i : nat) (d d' : dir) : Prop :=
  names d' = names d /\ durable d' = durable d /\ next_ino d' = next_ino d /\ (forall j, j <> i -> inodes d' !! j = inodes d !! j) /\
  (forall nd, inodes d !! i = Some nd -> exists nd' q, inodes d' !! i = Some nd' /\ i_kind nd' = i_kind nd /\ i_data nd' = i_data nd ++ q).

#[local] Instance grown_PreOrder i : PreOrder (grown i).
Proof.
  split.
  - intros d. split_and!; try done. intros nd Hnd. exists nd, []. by rewrite app_nil_r.
  - intros d1 d2 d3 (N1 & D1 & K1 & O1 & G1) (N2 & D2 & K2 & O2 & G2). split_and!; [congruence..| |].
    + intros j Hj. by rewrite O2, O1.
    + intros nd (nd' & q & H1 & Ek & E1)%G1. destruct (G2 nd' H1) as (nd2 & q2 & H2 & Ek2 & E2). exists nd2, (q ++ q2).
      split_and!; [done|congruence|]. by rewrite E2, E1, app_assoc.
Qed.

Lemma grown_faults i fs d : grown i d (set_faults fs d).
Proof. split_and!; try done. intros nd Hnd. exists nd, []. by rewrite app_nil_r. Qed.
Lemma grown_quiet {A} i (p : prog dir A) : quiet p -> keeps (grown i) p.
Proof. intros Hq d. destruct (p d) as [r d'] eqn:E. destruct (quiet_run _ _ _ _ Hq E) as [fs ->]. apply grown_faults. Qed.
Lemma touched_grown i d d' : touched i d d' ->
  (forall nd, inodes d !! i = Some nd -> exists nd' q, inodes d' !! i = Some nd' /\ i_kind nd' = i_kind nd /\ i_data nd' = i_data nd ++ q) ->
  grown i d d'.
Proof. intros [] Hg. unfold grown. by split_and!. Qed.

Lemma grown_Write i p d nd r d' : inodes d !! i = Some nd -> FileWrite i p d = (r, d') ->
  grown i d d' /\ (r = Ok tt -> exists nd', inodes d' !! i = Some nd' /\ i_data nd' = i_data nd ++ p).
Proof.
  intros Hnd Hr. eapply FileWrite_touched in Hr as (T & nd' & q & Hnd' & Hk & Hd & Hq); [|done]. split.
  - apply touched_grown; [done|]. intros nd0 E. assert (nd0 = nd) as -> by congruence. eauto.
  - intros ->. exists nd'. split; [done|]. by rewrite Hd, (Hq eq_refl).
Qed.

Lemma grown_Sync i d nd r d' : inodes d !! i = Some nd -> Sync i d = (r, d') ->
  grown i d d' /\ exists nd', inodes d' !! i = Some nd' /\ i_data nd' = i_data nd /\ (r = Ok tt -> i_synced nd' = true).
Proof.
  intros Hnd Hr. eapply Sync_touched in Hr as (T & nd' & Hnd' & Hk & Hd & Hs); [|done]. split; [|by exists nd'].
  apply touched_grown; [done|]. intros nd0 E. assert (nd0 = nd) as -> by congruence. exists nd', []. by rewrite app_nil_r.
Qed.

Lemma or_close_inv {A} (p : prog dir A) d r d' : or_close p d = (r, d') ->
  exists d1, p d = (r, d1) /\ ((exists a, r = Ok a) /\ d' = d1 \/ exists fs, d' = set_faults fs d1).
Proof.
  unfold or_close. destruct (p d) as [[a|e|] d1]; intros [= <- <-]; exists d1; split; try done; [left; eauto|right..];
    (destruct (Close d1) as [rc dc] eqn:Ec; by apply (quiet_run _ _ _ _ quiet_Close) in Ec as [fs ->]; exists fs).
Qed.

(** An append only adds to the file, and when it succeeds it added the line and flushed it. *)
Lemma appendEntry_grown name entry d i nd r d' :
  names d !! name = Some i -> inodes d !! i = Some nd -> appendEntry name entry d = (r, d') ->
  grown i d d' /\ (r = Ok tt -> validateJournalEntry entry = Ok tt /\ exists t nd', json_Marshal entry = Ok t /\
    inodes d' !! i = Some nd' /\ i_data nd' = i_data nd ++ t ++ [z2b 10] /\ i_synced nd' = true).
Proof.
  intros Hn Hnd Hr. unfold appendEntry in Hr. unfold bind at 1, lift at 1 in Hr.
  destruct (validateJournalEntry entry) as [[]|e|]; [|injection Hr as <- <-; by split..].
  unfold bind at 1 in Hr. destruct (syscall (ret tt) d) as [r1 d1] eqn:E1.
  apply (quiet_run _ _ _ _ (quiet_syscall _ (keeps_ret _ _))) in E1 as [fs1 ->].
  destruct r1 as [[]|e|]; [|injection Hr as <- <-; split; [apply grown_faults|done]..].
  unfold bind at 1 in Hr. destruct (OpenAppend name 384 (set_faults fs1 d)) as [r2 d2] eqn:E2.
  assert ((exists fs, d2 = set_faults fs d) /\ forall j, r2 = Ok j -> j = i) as [[fs2 ->] Hj].
  { unfold OpenAppend in E2. apply same_syscall in E2 as [(fs & -> & -> & _)|(fs & E2 & _)]; [split; [by exists fs|done]|].
    cbn in E2. rewrite Hn in E2. injection E2 as <- <-. split; [by exists fs|]. by intros j [= <-]. }
  destruct r2 as [j|e|]; [|injection Hr as <- <-; split; [apply grown_faults|done]..]. rewrite (Hj j eq_refl) in Hr. clear Hj.
  unfold bind at 1 in Hr. destruct (or_close _ (set_faults fs2 d)) as [r3 d3] eqn:E3. apply or_close_inv in E3 as (d3' & E3 & H3).
  unfold bind at 1, lift in E3.
  assert (grown i d d3 /\ (r3 = Ok tt -> exists t nd', json_Marshal entry = Ok t /\ inodes d3 !! i = Some nd' /\ i_data nd' = i_data nd ++ t ++ [z2b 10])) as [G3 Hok3].
  { destruct (json_Marshal entry) as [t|e|].
    - eapply (grown_Write i _ _ nd) in E3 as [G Hok]; [|done]. destruct H3 as [[_ ->]|[fs ->]].
      + split; [etrans; [apply grown_faults|exact G]|]. intros E. destruct (Hok E) as (nd' & ? & ?). by exists t, nd'.
      + split; [etrans; [apply grown_faults|etrans; [exact G|apply grown_faults]]|]. intros E. destruct (Hok E) as (nd' & ? & ?). by exists t, nd'.
    - injection E3 as <- <-. destruct H3 as [[[? ?] _]|[fs ->]]; [done|]. split; [apply (grown_faults i fs d)|done].
    - injection E3 as <- <-. destruct H3 as [[[? ?] _]|[fs ->]]; [done|]. split; [apply (grown_faults i fs d)|done]. }
  destruct r3 as [[]|e|]; [|injection Hr as <- <-; by split..]. destruct (Hok3 eq_refl) as (t & nd3 & Ht & Hnd3 & Hd3).
  unfold bind at 1 in Hr. destruct (or_close (Sync i) d3) as [r4 d4] eqn:E4. apply or_close_inv in E4 as (d4' & E4 & H4).
  eapply grown_Sync in E4 as (G4 & nd4 & Hnd4 & Hd4 & Hs4); [|done].
  assert (grown i d d4 /\ inodes d4 !! i = Some nd4) as [G4' Hnd4'].
  { destruct H4 as [[_ ->]|[fs ->]]; (split; [|done]); etrans; [exact G3|done|exact G3|etrans; [exact G4|apply grown_faults]]. }
  destruct r4 as [[]|e|]; [|injection Hr as <- <-; by split..].
  apply (quiet_run _ _ _ _ quiet_Close) in Hr as [fs5 ->]. split; [etrans; [exact G4'|apply grown_faults]|].
  intros _. split; [done|]. exists t, nd4. split_and!; [done|done|congruence|by apply Hs4].
Qed.

(** ** Which operations are open *)

Definition id_of (e : JournalEntry) : bytes := OperationID (EntryRecord e).
Definition started_of (e : JournalEntry) : Started := {|
  StartID := id_of e; StartScopeID := OperationScopeID (EntryRecord e); StartKind := OperationKind (EntryRecord e);
  StartTime := StartedAt (EntryRecord e) |}.
Definition started_ids (es : list JournalEntry) : list bytes := map id_of (List.filter (fun e => bool_decide (Event e = JournalStarted)) es).
Definition finished_ids (es : list JournalEntry) : list bytes := map id_of (List.filter (fun e => bool_decide (Event e = JournalFinished)) es).
Definition open_ids (es : list JournalEntry) : list bytes := List.filter (fun id => bool_decide (id ∉ finished_ids es)) (started_ids es).

(** The record that closes an operation after a restart. *)
Definition interrupted (started : Started) (finishedAt : bytes) : OperationRecord := {|
  OperationID := StartID started; OperationScopeID := StartScopeID started; OperationKind := StartKind started;
  StartedAt := StartTime started; FinishedAt := finishedAt; Outcome := OperationInterrupted; ReasonCode := bs "ProcessRestart" |}.

Lemma noteEntries_spec scopeID es l l' : Forall (fun e => validateJournalEntry e = Ok tt) es -> noteEntries scopeID es l = Ok l' ->
  startedOrder l' = startedOrder l ++ started_ids es /\
  (forall id, id ∈ finishedByID l' <-> id ∈ finishedByID l \/ id ∈ finished_ids es) /\
  (forall id st, startedByID l !! id = Some st -> startedByID l' !! id = Some st) /\
  (forall id, id ∈ started_ids es -> exists e, e ∈ es /\ Event e = JournalStarted /\ id_of e = id /\ startedByID l' !! id = Some (started_of e)).
Proof.
  intros Hv. revert l. induction Hv as [|e es He _ IH]; intros l Hn; cbn [noteEntries] in Hn.
  { injection Hn as <-. cbn. rewrite app_nil_r. split_and!; set_solver. }
  destruct (noteEntry scopeID l e) as [l1| |] eqn:E1; cbn [res_bind] in Hn; [|done..]. apply IH in Hn as (Ho & Hf & Hm & Hs). clear IH.
  unfold noteEntry in E1. destruct (negb _) in E1; [done|]. unfold started_ids, finished_ids in *.
  destruct (valid_event e He) as [Ee|Ee].
  - rewrite (bool_decide_eq_true_2 _ Ee) in E1. case_bool_decide as Hdup; [done|]. injection E1 as <-. cbn [startedByID finishedByID startedOrder] in *.
    cbn [List.filter]. rewrite (bool_decide_eq_true_2 _ Ee), (bool_decide_eq_false_2 (Event e = JournalFinished)) by (rewrite Ee; discriminate).
    cbn [map]. split_and!.
    + by rewrite Ho, <- app_assoc.
    + done.
    + intros id st E. apply Hm. rewrite lookup_insert_ne; [done|]. intros <-. apply Hdup. by exists st.
    + intros id [->|Hin]%elem_of_cons.
      * exists e. split_and!; [by left|done|done|]. apply Hm. by rewrite lookup_insert_eq.
      * destruct (Hs id Hin) as (e' & ? & ? & ? & ?). exists e'. split_and!; try done. by right.
  - rewrite (bool_decide_eq_false_2 (Event e = JournalStarted)) in E1 by (rewrite Ee; discriminate). rewrite (bool_decide_eq_true_2 _ Ee) in E1.
    case_bool_decide as Hdup; [done|].
    assert (l1 = {| startedByID := startedByID l; finishedByID := {[id_of e]} ∪ finishedByID l; startedOrder := startedOrder l |}) as ->.
    { destruct (match startedByID l !! OperationID (EntryRecord e) with Some _ => _ | None => _ end) as [[]| |] in E1; cbn [res_bind] in E1; [by injection E1 as <-|done..]. }
    cbn [startedByID finishedByID startedOrder] in *. cbn [List.filter].
    rewrite (bool_decide_eq_true_2 _ Ee), (bool_decide_eq_false_2 (Event e = JournalStarted)) by (rewrite Ee; discriminate). cbn [map].
    split_and!; try done.
    + intros id. rewrite Hf, elem_of_cons. set_solver.
    + intros id Hin. destruct (Hs id Hin) as (e' & ? & ? & ? & ?). exists e'. split_and!; try done. by right.
Qed.

Lemma started_ids_app es es' : started_ids (es ++ es') = started_ids es ++ started_ids es'.
Proof. unfold started_ids. by rewrite List.filter_app, map_app. Qed.
Lemma finished_ids_app es es' : finished_ids (es ++ es') = finished_ids es ++ finished_ids es'.
Proof. unfold finished_ids. by rewrite List.filter_app, map_app. Qed.
Lemma finished_entries rs : started_ids (map finishedEntry rs) = [] /\ finished_ids (map finishedEntry rs) = map OperationID rs.
Proof.
  induction rs as [|r rs [IH1 IH2]]; [done|]. unfold started_ids, finished_ids in *. cbn [map List.filter finishedEntry Event].
  rewrite (bool_decide_eq_false_2 (JournalFinished = JournalStarted)), (bool_decide_eq_true_2 (JournalFinished = JournalFinished)) by done.
  cbn [map]. by rewrite IH1, IH2.
Qed.

(** Once every open operation has a Finished entry, none is open. *)
Lemma open_ids_closed es rs : map OperationID rs = open_ids es -> open_ids (es ++ map finishedEntry rs) = [].
Proof.
  intros E. unfold open_ids. destruct (finished_entries rs) as [Es Ef]. rewrite started_ids_app, finished_ids_app, Es, Ef, app_nil_r, E.
  assert (forall ids, (forall id, id ∈ ids -> id ∈ started_ids es) ->
    List.filter (fun id => bool_decide (id ∉ finished_ids es ++ open_ids es)) ids = []) as Hall; [|by apply Hall].
  induction ids as [|id ids IH]; intros Hin; [done|]. cbn [List.filter]. rewrite bool_decide_eq_false_2, IH; [done|set_solver|].
  intros Hn. rewrite elem_of_app in Hn. destruct (decide (id ∈ finished_ids es)); [tauto|]. apply Hn. right.
  unfold open_ids. apply list_elem_of_In, filter_In. split; [apply list_elem_of_In, Hin; by left|by apply bool_decide_eq_true_2].
Qed.

(** ** Recovery closes exactly what is open *)

(** The text of a closing entry is a line like the entry it closes. *)
Definition closing_lines : Prop := forall e te finishedAt t,
  line_of e te -> Event e = JournalStarted -> let entry := finishedEntry (interrupted (started_of e) finishedAt) in
  validateJournalEntry entry = Ok tt -> json_Marshal entry = Ok t -> line_of entry t.

Context {C : OperationClock} (Hclosing : closing_lines).

Lemma append_holds name es e te finishedAt d r d' : journal_holds d name es -> line_of e te -> Event e = JournalStarted ->
  appendEntry name (finishedEntry (interrupted (started_of e) finishedAt)) d = (r, d') -> r = Ok tt ->
  journal_holds d' name (es ++ [finishedEntry (interrupted (started_of e) finishedAt)]).
Proof.
  intros (i & nd & texts & Hn & Hi & Hd & Hl) He Ee Ha ->. eapply appendEntry_grown in Ha as [(En & _) Hok]; [|done..].
  destruct (Hok eq_refl) as (Hv & t & nd' & Ht & Hi' & Hd' & _). exists i, nd', (texts ++ [t]). split_and!; [by rewrite En|done| |].
  - unfold journal_text. rewrite map_app, concat_app. cbn. by rewrite app_nil_r, Hd', Hd.
  - apply Forall2_app; [done|]. constructor; [|constructor]. by eapply Hclosing.
Qed.

Lemma holds_line d name es e : journal_holds d name es -> e ∈ es -> exists te, line_of e te.
Proof.
  intros (_ & _ & texts & _ & _ & _ & Hl) [i He]%list_elem_of_lookup. destruct (Forall2_lookup_l _ _ _ _ _ Hl He) as (te & _ & ?). by exists te.
Qed.
Lemma holds_valid d name es : journal_holds d name es -> Forall (fun e => validateJournalEntry e = Ok tt) es.
Proof. intros Hj. apply Forall_forall. intros e He. by destruct (holds_line _ _ _ _ Hj He) as (? & _ & _ & ? & _). Qed.

Definition closes (es : list JournalEntry) (r : OperationRecord) : Prop :=
  exists e finishedAt, e ∈ es /\ Event e = JournalStarted /\ r = interrupted (started_of e) finishedAt.

Lemma closeOperations_spec name l es0 es order recovered s recs s' :
  journal_holds (ops_dir s) name es -> (forall e, e ∈ es0 -> e ∈ es) ->
  (forall id, id ∈ order -> exists e, e ∈ es0 /\ Event e = JournalStarted /\ id_of e = id /\ startedByID l !! id = Some (started_of e)) ->
  closeOperations name l order recovered s = (Ok (recs, None), s') ->
  exists new, recs = recovered ++ new /\ journal_holds (ops_dir s') name (es ++ map finishedEntry new) /\
    map OperationID new = List.filter (fun id => bool_decide (id ∉ finishedByID l)) order /\ Forall (closes es0) new.
Proof.
  revert es recovered s. induction order as [|id order IH]; intros es recovered s Hj Hsub Hst Hr; cbn [closeOperations] in Hr.
  { injection Hr as <- <-. exists []. cbn. by rewrite !app_nil_r. }
  cbn [List.filter]. assert (forall id, id ∈ order -> exists e, e ∈ es0 /\ Event e = JournalStarted /\ id_of e = id /\ startedByID l !! id = Some (started_of e)) as Hst'
    by (intros; apply Hst; by right).
  case_bool_decide as Hin; [rewrite bool_decide_eq_false_2 by tauto; by eapply IH|rewrite bool_decide_eq_true_2 by done].
  destruct (Hst id ltac:(by left)) as (e & He & Ee & Eid & El). rewrite El in Hr. cbn [default] in Hr.
  unfold Finish, bind, canonicalNow, lift, ret in Hr. cbn [ops_dir ops_tick] in Hr.
  set (finishedAt := operationNow (ops_tick s)) in *. change {| OperationID := _; ReasonCode := _ |} with (interrupted (started_of e) finishedAt) in Hr.
  destruct (ValidateOperationRecord (interrupted (started_of e) finishedAt)) as [[]| |]; [|done..].
  unfold AppendFinished, on_journal in Hr. cbn [ops_dir ops_tick] in Hr.
  destruct (appendEntry name _ (ops_dir s)) as [ra da] eqn:Ea. destruct ra as [[]| |]; [|done..].
  destruct (holds_line _ _ _ e Hj (Hsub e He)) as [te Hte].
  eapply append_holds in Ea; [|done..].
  destruct (IH _ _ (Ops da (S (ops_tick s))) Ea (fun e' He' => proj2 (elem_of_app _ _ _) (or_introl (Hsub e' He'))) Hst' Hr) as (new & -> & Hj' & Eids & Hnew).
  exists (interrupted (started_of e) finishedAt :: new). rewrite <- app_assoc in *. split_and!; try done.
  - cbn [map]. rewrite Eids. cbn. by rewrite <- Eid.
  - constructor; [|done]. by exists e, finishedAt.
Qed.

(** No line of the journal is mistaken for a missing file. *)
Definition plain {A} (r : res A) : Prop := forall e, r = Err e -> errors_Is e ErrNotExist = false.

Lemma plain_Ok {A} (a : A) : plain (Ok a).
Proof. done. Qed.
Lemma plain_Errorf {A} msg : plain (@Err A (Errorf msg)).
Proof. by intros e [= <-]. Qed.
Lemma plain_if {A} (b : bool) (p q : res A) : plain p -> plain q -> plain (if b then p else q).
Proof. by destruct b. Qed.
Lemma plain_bind {A B} (p : res A) (k : A -> res B) : plain p -> (forall a, plain (k a)) -> plain (res_bind p k).
Proof. destruct p; cbn; [auto| |done]. intros Hp _ e' [= <-]. by apply Hp. Qed.
#[local] Ltac plains := repeat first [ apply plain_Ok | apply plain_Errorf | apply plain_if | apply plain_bind; [|intros ?]
  | match goal with |- plain (match ?x with _ => _ end) => destruct x; [done|apply plain_Errorf|done] end ].

Lemma plain_record r : plain (ValidateOperationRecord r).
Proof. unfold ValidateOperationRecord. plains. Qed.
Lemma plain_entry e : plain (validateJournalEntry e).
Proof. unfold validateJournalEntry. plains; apply plain_record. Qed.
Lemma plain_readLines lines : plain (readLines lines).
Proof.
  induction lines as [|raw lines IH]; [done|]. cbn [readLines]. apply plain_if; [by intros e [= <-]|]. apply plain_if; [done|].
  apply plain_bind; [|intros entry; by apply plain_bind]. unfold decodeEntry. plains; try apply plain_entry; destruct (json_DecodeOnly _ _ _); first [done|apply plain_Errorf].
Qed.

Lemma ReadAll_missing name d e d' i : names d !! name = Some i -> ReadAll name d = (Err e, d') -> errors_Is e ErrNotExist = false.
Proof.
  intros Hn Hr. unfold ReadAll, bind at 1 in Hr. destruct (Open name d) as [[j|e1|] d1] eqn:Eo; [| |done].
  2: { injection Hr as <- <-. unfold Open in Eo. apply same_syscall in Eo as [(fs & [= ->] & _)|(fs & Eo & _)]; [done|].
       cbn in Eo. by rewrite Hn in Eo. }
  unfold defer_close in Hr. destruct ((let! r := file_reader j in _) d1) as [rr d2] eqn:E. injection Hr as -> _.
  unfold bind in E. destruct (file_reader j d1) as [[rd|e2|] d3] eqn:Ef; [| |done].
  - assert (errors_Is (rd_end rd) ErrNotExist = false) as Hend.
    { unfold file_reader, bind, next_fault in Ef. destruct d1 as [n m I k [|[x|] fs]]; cbn in Ef; destruct (I !! j); first [discriminate Ef|by injection Ef as <- _]. }
    unfold lift in E. injection E as E _. revert E. pose proof (plain_readLines (rawLines [] (rd_data rd))) as Hp.
    destruct (readLines _) as [es|e3|]; cbn [res_bind]; [case_bool_decide; by intros [= <-]|intros [= <-]; by apply Hp|done].
  - injection E as -> _. unfold file_reader, bind, next_fault in Ef. destruct d1 as [n m I k [|[x|] fs]]; cbn in Ef; destruct (I !! j); first [discriminate Ef|by injection Ef as <- _].
Qed.

Lemma RecoverInterrupted_spec name scopeID es s recs s' :
  journal_holds (ops_dir s) name es -> RecoverInterrupted name scopeID s = (Ok (recs, None), s') ->
  journal_holds (ops_dir s') name (es ++ map finishedEntry recs) /\ map OperationID recs = open_ids es /\ Forall (closes es) recs.
Proof.
  intros Hj Hr. unfold RecoverInterrupted in Hr. destruct (negb _) in Hr; [done|]. unfold on_journal in Hr.
  destruct (ReadAll name (ops_dir s)) as [r d'] eqn:E. pose proof E as E'. eapply ReadAll_holds in E' as [[fs ->] Hok]; [|done].
  destruct r as [es'|e|]; [|exfalso|done].
  2: { destruct Hj as (i & _ & _ & Hn & _). apply (ReadAll_missing _ _ _ _ i) in E; [|done]. by rewrite E in Hr. }
  rewrite (Hok es' eq_refl) in Hr. clear Hok E.
  destruct (noteEntries _ _ _) as [l| |] eqn:En in Hr; [|done..].
  apply noteEntries_spec in En as (Eo & Ef & _ & Hst); [|by eapply holds_valid]. cbn [startedOrder app] in Eo.
  eapply (closeOperations_spec name l es es) in Hr as (new & -> & Hj' & Eids & Hnew); [|done|done|by rewrite Eo].
  cbn [app]. split_and!; try done. rewrite Eids, Eo. unfold open_ids. apply List.filter_ext. intros id. apply bool_decide_ext.
  rewrite Ef. cbn. set_solver.
Qed.

End Content.

(** [C25] After a recovery that succeeds every operation the journal had open is closed, in the
    order in which they started and as interrupted by a restart; the older entries are
    unchanged. A second recovery finds nothing to close. *)
Theorem RecoverInterrupted_closes `{JSONLaws JournalEntry} {C : OperationClock} name scopeID es s recs s1 recs2 s2 :
  closing_lines -> journal_holds (ops_dir s) name es ->
  RecoverInterrupted name scopeID s = (Ok (recs, None), s1) -> RecoverInterrupted name scopeID s1 = (Ok (recs2, None), s2) ->
  map OperationID recs = open_ids es /\ Forall (closes es) recs /\
  journal_holds (ops_dir s1) name (es ++ map finishedEntry recs) /\ recs2 = [].
Proof.
  intros Hc Hj H1 H2. eapply RecoverInterrupted_spec in H1 as (Hj1 & Eids & Hcl); [|done..]. split_and!; try done.
  eapply RecoverInterrupted_spec in H2 as (_ & E2 & _); [|done..]. rewrite open_ids_closed in E2 by done. by destruct recs2.
Qed.

(** ** A journal with one open operation *)

Definition demoStarted : Started := {|
  StartID := bs "op-00112233445566778899aabbccddeeff"; StartScopeID := bs "scope"; StartKind := bs "USNRead";
  StartTime := bs "2026-01-01T00:00:00.000000000Z" |}.
Definition demoOpen : JournalEntry := startedEntry demoStarted.
Definition demoClosed : JournalEntry := finishedEntry (interrupted demoStarted (bs "2026-01-01T00:00:01.000000000Z")).
Definition demoOperationClock : OperationClock := {|
  operationNow k := bs "2026-01-01T00:00:01.000000000Z"; newOperationID k := Ok (StartID demoStarted) |}.

(** A codec that knows these two entries. *)
Definition demoOpenText : bytes := bs "{open}".
Definition demoClosedText : bytes := bs "{closed}".
Definition demoEntryJSON : JSON JournalEntry := {|
  json_Marshal e := if bool_decide (e = demoOpen) then Ok demoOpenText else if bool_decide (e = demoClosed) then Ok demoClosedText
                    else Err (Errorf "unknown entry");
  json_Decode raw := if HasPrefix raw demoOpenText then Ok (demoOpen, drop (length demoOpenText) raw)
                     else if HasPrefix raw demoClosedText then Ok (demoClosed, drop (length demoClosedText) raw)
                     else Err (Errorf "invalid character") |}.
#[local] Existing Instance demoEntryJSON.
#[local] Existing Instance demoOperationClock.

Definition demoEntryLaws : JSONLaws JournalEntry.
Proof.
  refine (@Build_JSONLaws JournalEntry demoEntryJSON (fun e => e = demoOpen \/ e = demoClosed) _).
  intros e raw rest He Hm. unfold json_Decode, json_Marshal, demoEntryJSON in *. destruct He as [->| ->].
  - rewrite bool_decide_eq_true_2 in Hm by done. injection Hm as <-. rewrite (proj2 (HasPrefix_spec _ _)) by eauto. by rewrite drop_app_length.
  - rewrite bool_decide_eq_false_2, bool_decide_eq_true_2 in Hm by (vm_compute; congruence). injection Hm as <-.
    assert (HasPrefix (demoClosedText ++ rest) demoOpenText = false) as -> by reflexivity.
    rewrite (proj2 (HasPrefix_spec _ _)) by eauto. by rewrite drop_app_length.
Defined.
#[local] Existing Instance demoEntryLaws.

Lemma demo_lines : line_of demoOpen demoOpenText /\ line_of demoClosed demoClosedText.
Proof.
  split; (split_and!; [vm_compute; reflexivity|vm_compute; auto|vm_compute; reflexivity| |vm_compute; reflexivity|vm_compute; discriminate|vm_compute; reflexivity]);
    vm_compute; intros Hin; repeat (apply elem_of_cons in Hin as [Hin|Hin]; [discriminate Hin|]); by apply elem_of_nil in Hin.
Qed.

Lemma demo_closing : closing_lines.
Proof.
  intros e te finishedAt t _ _ entry _. unfold json_Marshal, demoEntryJSON. case_bool_decide as E1; [intros [= <-]; rewrite E1; apply demo_lines|].
  case_bool_decide as E2; [intros [= <-]; rewrite E2; apply demo_lines|done].
Qed.

Definition demoJournalName : bytes := bs "scope-operations.jsonl".
Definition demoJournal (text : bytes) (fs : list (option nat)) : ops_state :=
  Ops (Dir {[demoJournalName := 0%nat]} {[demoJournalName := 0%nat]} {[0%nat := Inode Regular 384 text true]} 1 fs) 0.
Definition demoRecovery (s : ops_state) := RecoverInterrupted demoJournalName (bs "scope") s.

Lemma RecoverInterrupted_closes_witness :
  let s := demoJournal (demoOpenText ++ [z2b 10]) [] in
  (demoRecovery s).1 = Ok ([EntryRecord demoClosed], None) /\ map OperationID [EntryRecord demoClosed] = open_ids [demoOpen] /\
  journal_holds (ops_dir (demoRecovery s).2) demoJournalName [demoOpen; demoClosed].
Proof.
  cbv zeta. split; [vm_compute; reflexivity|].
  destruct (RecoverInterrupted_closes demoJournalName (bs "scope") [demoOpen] (demoJournal (demoOpenText ++ [z2b 10]) []) [EntryRecord demoClosed]
    (demoRecovery (demoJournal (demoOpenText ++ [z2b 10]) [])).2 [] (demoRecovery (demoRecovery (demoJournal (demoOpenText ++ [z2b 10]) [])).2).2)
    as (E & _ & Hj & _); [apply demo_closing| |vm_compute; reflexivity..|exact (conj E Hj)].
  exists 0%nat, (Inode Regular 384 (demoOpenText ++ [z2b 10]) true), [demoOpenText]. split_and!; [reflexivity..|].
  constructor; [apply demo_lines|constructor].
Defined.

(** A line that was cut by a failing write stops every later recovery: the journal is never
    repaired, and the collector does not start its work while recovery fails. *)
Example torn_line_blocks_recovery :
  let s := (AppendFinished demoJournalName (EntryRecord demoClosed) (demoJournal (demoOpenText ++ [z2b 10]) [None; None; Some 3%nat])).2 in
  let outcome s := match (demoRecovery s).1 with Ok (_, Some _) => false | _ => true end in
  outcome s = false /\ outcome (demoRecovery s).2 = false /\ faults (ops_dir (demoRecovery s).2) = [].
Proof. vm_compute. auto. Qed.

End operation.
