(* ===== verification/SpoolWriter.v ===== *)
(** * The collector's spool writer

    Models [go/internal/spool/spool.go], [writer_retry.go] and the helpers of
    [publication_recovery.go] they share: records are appended to a work file, a full batch
    gets a manifest that is verified against the file, and both are moved into the active
    spool. The spool directory and the collector's work directory are siblings; the state
    holds their parent, so that an entry is [directory ++ "/" ++ name]. The random part of a
    batch ID and the clock are parameters ([Clock]); acquiring and releasing the publication
    boundary are calls that may fail. *)

From stdpp Require Import gmap.
From S2P Require Import Prelude GoBytes GoStrings Sha256 GoText GoIO GoFS GoDir GoPublish GoWin Pki TransportGeneration GenerationCanonical GenerationProtocol GenerationRecorder.

Module spoolwriter.
Import spool.

Definition RecordVersion : bytes := bs "fi-spool-record/0.1".
Definition DefaultBatchSize : Z := 262144.
Definition DefaultTargetBatchBytes : Z := 32 * 1024 * 1024.
Definition DefaultMaxBatchBytes : Z := 64 * 1024 * 1024.

Definition ErrWriterClosed : error := Sentinel "FI spool writer is closed".
Definition ErrRecordTooLarge : error := Sentinel "FI spool record exceeds maximum batch bytes".
Definition ErrWriterPendingFinalization : error := Sentinel "FI spool writer has a batch pending finalization".

#[global] Instance CollectorIdentity_eq_decision : EqDecision CollectorIdentity.
Proof. solve_decision. Defined.
#[global] Instance Manifest_eq_decision : EqDecision Manifest.
Proof. solve_decision. Defined.

(** An entry of one of the sibling directories. *)
Definition in_dir (directory name : bytes) : bytes := directory ++ bs "/" ++ name.

(** [durableRename] on Windows. *)
Definition durableRename : bytes -> bytes -> prog dir unit := MoveFileExW false.

(** ** Inspecting a data file *)

(** [file.Read(buffer)]: up to [n] bytes, the end only when nothing is left. *)
Definition file_Read (n : Z) (r : reader) : (bytes * option error) * reader :=
  match rd_data r with
  | [] => (([], Some (rd_end r)), r)
  | _ => ((take (Z.to_nat n) (rd_data r), None), Reader (drop (Z.to_nat n) (rd_data r)) (rd_end r))
  end.

(** The loop; a turn that does not end it takes at least one byte, hence the fuel. *)
Fixpoint inspectFile (fuel : nat) (hashed : bytes) (total records : Z) (last : byte) (r : reader)
  : res (bytes * Z * Z * byte) :=
  match fuel with
  | O => Panic
  | S fuel =>
      let '((chunk, readErr), r) := file_Read inspectBufferBytes r in
      let hashed := hashed ++ chunk in
      let total := total + len chunk in
      let records := records + count_newlines chunk in
      let last := List.last chunk last in
      match readErr with
      | None => inspectFile fuel hashed total records last r
      | Some e => if bool_decide (e = EOF) then Ok (hashed, total, records, last) else Err e
      end
  end.

Definition inspectDataFile (path : bytes) : prog dir (bytes * Z * Z) :=
  let! file := Open path in
  defer_close (let! r := file_reader file in
    lift (let? (hashed, total, records, last) := inspectFile (S (length (rd_data r))) [] 0 0 (z2b 0) r in
          fail? (total =? 0) || negb (bool_decide (last = newline))
            with Errorf "batch data is empty or missing final newline" ;;
          Ok (sha256_hex hashed, total, records))).

Definition recoveryRegularFileExists (path : bytes) : prog dir bool := fun d =>
  match Lstat path d with
  | (Err e, d) => if errors_Is e ErrNotExist then (Ok false, d)
                  else (Err (Wrap "inspect FI publication recovery path %q: %w" e), d)
  | (Panic, d) => (Panic, d)
  | (Ok info, d) => if bool_decide (fi_kind info = Regular) then (Ok true, d)
                    else (Err (Errorf "FI publication recovery path %q is not a regular file"), d)
  end.

Section Spool.
Context `{Unicode} `{JSON Manifest}.

(** The manifest file at [path]; the descriptor is closed on every path. *)
Definition readPreparedPublicationManifest (path : bytes) : prog dir Manifest :=
  let! file := Open path in
  let! manifest := or_close (let! r := file_reader file in
    lift (let? (manifest, rest) := json_Decode (rd_data r) in
          fail? negb (forallb json_space rest) || negb (bool_decide (rd_end r = EOF))
            with Errorf "manifest contains trailing data" ;;
          Ok manifest)) in
  check! Close ;;
  check! lift (validateManifest manifest) ;;
  ret manifest.

Definition verifyPreparedManifestAgainstData (manifest : Manifest) (dataPath : bytes) : prog dir unit :=
  let! (digest, dataBytes, records) := inspectDataFile dataPath in
  fail! negb (bool_decide (digest = DataSHA256 manifest)) with ErrBatchHashMismatch ;;
  fail! negb (dataBytes =? DataBytes manifest) with ErrBatchSizeMismatch ;;
  fail! negb (records =? RecordCount manifest) with ErrBatchCountMismatch ;;
  ret tt.

(** [VerifyManifest(directory/name)]: the data file is in the same directory. *)
Definition VerifyManifest (directory name : bytes) : prog dir Manifest :=
  let! manifest := readPreparedPublicationManifest (in_dir directory name) in
  check! verifyPreparedManifestAgainstData manifest (in_dir directory (DataFile manifest)) ;;
  ret manifest.

Definition verifyExpectedManifestFile (path : bytes) (expected : Manifest) : prog dir unit :=
  let! actual := wrap_err "read FI prepared manifest for retry: %w" (readPreparedPublicationManifest path) in
  fail! negb (bool_decide (actual = expected)) with Errorf "FI prepared manifest does not match writer pending state" ;;
  ret tt.

(** [writeManifest(directory/name, value)]: unless it was published, the new file is closed
    and removed by the deferred function. *)
Definition writeManifest (directory name : bytes) (value : Manifest) : prog dir unit :=
  let tempName := name ++ bs ".open" in
  let tempPath := in_dir directory tempName in
  let! file := CreateExclusive tempPath 384 in
  fun d =>
    match (let! text := lift (json_Marshal value) in
           check! FileWrite file (text ++ [newline]) ;;
           check! Sync file ;;
           check! Close ;;
           check! wrap_err "verify unpublished FI batch manifest: %w" (VerifyManifest directory tempName) ;;
           durableRename tempPath (in_dir directory name)) d with
    | (Ok _, d) => (Ok tt, d)
    | (r, d) => (r, (Remove tempPath (Close d).2).2)
    end.

End Spool.

(** ** The writer *)

Record preparedBatch := {
  openPath : bytes; workDataPath : bytes; workManifestName : bytes; dataName : bytes; manifestName : bytes;
  manifest : Manifest; dataPrepared : bool; manifestPrepared : bool
}.

Record FinalizedBatch := { FinalData : bytes; FinalManifest : bytes; FinalizedManifest : Manifest }.

(** [w_file] is the open descriptor, [w_hasher] what the hash has consumed. *)
Record Writer := {
  w_dir : bytes; w_workDir : bytes; w_batchSize : Z; w_targetBatchBytes : Z; w_maxBatchBytes : Z;
  w_collector : CollectorIdentity;
  w_file : option nat; w_openPath : bytes; w_batchID : bytes; w_createdAt : bytes;
  w_count : Z; w_dataBytes : Z; w_hasher : option bytes;
  w_pending : option preparedBatch; w_closed : bool; w_finalized : list FinalizedBatch
}.

(** The writer, the disk, and how often the clock was read. *)
Record spool_state := SS { writer : Writer; disk : dir; tick : nat }.

Class Clock := { canonicalNow : nat -> bytes; newBatchID : nat -> res bytes }.

Definition on_disk {A} (p : prog dir A) : prog spool_state A := fun s =>
  let '(r, d) := p (disk s) in (r, SS (writer s) d (tick s)).
Definition now {C : Clock} : prog spool_state bytes := fun s => (Ok (canonicalNow (tick s)), SS (writer s) (disk s) (S (tick s))).
Definition freshBatchID {C : Clock} : prog spool_state bytes := fun s =>
  (newBatchID (tick s), SS (writer s) (disk s) (S (tick s))).
Definition get : prog spool_state Writer := fun s => (Ok (writer s), s).
Definition put (w : Writer) : prog spool_state unit := fun s => (Ok tt, SS w (disk s) (tick s)).

(** The fields of the current batch. *)
Definition set_current (file : option nat) (path id created : bytes) (count dataBytes : Z) (hasher : option bytes)
    (w : Writer) : Writer := {|
  w_dir := w_dir w; w_workDir := w_workDir w; w_batchSize := w_batchSize w; w_targetBatchBytes := w_targetBatchBytes w;
  w_maxBatchBytes := w_maxBatchBytes w; w_collector := w_collector w;
  w_file := file; w_openPath := path; w_batchID := id; w_createdAt := created; w_count := count; w_dataBytes := dataBytes;
  w_hasher := hasher; w_pending := w_pending w; w_closed := w_closed w; w_finalized := w_finalized w |}.
Definition set_pending (pending : option preparedBatch) (w : Writer) : Writer := {|
  w_dir := w_dir w; w_workDir := w_workDir w; w_batchSize := w_batchSize w; w_targetBatchBytes := w_targetBatchBytes w;
  w_maxBatchBytes := w_maxBatchBytes w; w_collector := w_collector w;
  w_file := w_file w; w_openPath := w_openPath w; w_batchID := w_batchID w; w_createdAt := w_createdAt w;
  w_count := w_count w; w_dataBytes := w_dataBytes w; w_hasher := w_hasher w; w_pending := pending;
  w_closed := w_closed w; w_finalized := w_finalized w |}.
Definition set_finalized (finalized : list FinalizedBatch) (w : Writer) : Writer := {|
  w_dir := w_dir w; w_workDir := w_workDir w; w_batchSize := w_batchSize w; w_targetBatchBytes := w_targetBatchBytes w;
  w_maxBatchBytes := w_maxBatchBytes w; w_collector := w_collector w;
  w_file := w_file w; w_openPath := w_openPath w; w_batchID := w_batchID w; w_createdAt := w_createdAt w;
  w_count := w_count w; w_dataBytes := w_dataBytes w; w_hasher := w_hasher w; w_pending := w_pending w;
  w_closed := w_closed w; w_finalized := finalized |}.
Definition set_closed (w : Writer) : Writer := {|
  w_dir := w_dir w; w_workDir := w_workDir w; w_batchSize := w_batchSize w; w_targetBatchBytes := w_targetBatchBytes w;
  w_maxBatchBytes := w_maxBatchBytes w; w_collector := w_collector w;
  w_file := w_file w; w_openPath := w_openPath w; w_batchID := w_batchID w; w_createdAt := w_createdAt w;
  w_count := w_count w; w_dataBytes := w_dataBytes w; w_hasher := w_hasher w; w_pending := w_pending w;
  w_closed := true; w_finalized := w_finalized w |}.
(** [w.file = nil], and [resetCurrent], which leaves the descriptor alone. *)
Definition no_file (w : Writer) : Writer :=
  set_current None (w_openPath w) (w_batchID w) (w_createdAt w) (w_count w) (w_dataBytes w) (w_hasher w) w.
Definition resetCurrent (w : Writer) : Writer := set_current (w_file w) [] [] [] 0 0 None w.

Definition modify (f : Writer -> Writer) : prog spool_state unit := fun s => (Ok tt, SS (f (writer s)) (disk s) (tick s)).

Definition with_dataPrepared (p : preparedBatch) : preparedBatch := {|
  openPath := openPath p; workDataPath := workDataPath p; workManifestName := workManifestName p; dataName := dataName p;
  manifestName := manifestName p; manifest := manifest p; dataPrepared := true; manifestPrepared := manifestPrepared p |}.
Definition with_manifestPrepared (p : preparedBatch) : preparedBatch := {|
  openPath := openPath p; workDataPath := workDataPath p; workManifestName := workManifestName p; dataName := dataName p;
  manifestName := manifestName p; manifest := manifest p; dataPrepared := dataPrepared p; manifestPrepared := true |}.

Section Writer.
Context `{Unicode} `{JSON Manifest} {C : Clock}.

Definition openBatch : prog spool_state unit :=
  let! id := freshBatchID in
  let! w := get in
  let path := in_dir (w_workDir w) (bs "batch-" ++ id ++ bs ".open") in
  let! file := on_disk (CreateExclusive path 384) in
  let! createdAt := now in
  modify (set_current (Some file) path id createdAt 0 0 (Some [])).

(** The two directories of a publication: what exists, and the completion of each state. *)
Definition publishBody (w : Writer) (p : preparedBatch) : prog dir (bytes * bytes) :=
  let dataPath := in_dir (w_dir w) (dataName p) in
  let manifestPath := in_dir (w_dir w) (manifestName p) in
  let workManifestPath := in_dir (w_workDir w) (workManifestName p) in
  let! workDataExists := recoveryRegularFileExists (workDataPath p) in
  let! workManifestExists := recoveryRegularFileExists workManifestPath in
  let! publishedDataExists := recoveryRegularFileExists dataPath in
  let! publishedManifestExists := recoveryRegularFileExists manifestPath in
  match workDataExists, workManifestExists, publishedDataExists, publishedManifestExists with
  | true, true, false, false =>
      check! verifyExpectedManifestFile workManifestPath (manifest p) ;;
      check! wrap_err "publish FI batch data: %w" (durableRename (workDataPath p) dataPath) ;;
      fun d =>
        match durableRename workManifestPath manifestPath d with
        | (Ok _, d) => (Ok (dataPath, manifestPath), d)
        | (Err e, d) =>
            match durableRename dataPath (workDataPath p) d with
            | (Err e', d) => (Err (Join (Wrap "publish FI batch manifest: %w" e)
                                        (Wrap "rollback FI batch data publication: %w" e')), d)
            | (_, d) => (Err (Wrap "publish FI batch manifest: %w" e), d)
            end
        | (Panic, d) => (Panic, d)
        end
  | false, true, true, false =>
      check! verifyExpectedManifestFile workManifestPath (manifest p) ;;
      check! wrap_err "verify interrupted same-writer FI publication: %w"
               (verifyPreparedManifestAgainstData (manifest p) dataPath) ;;
      check! wrap_err "complete interrupted same-writer FI publication: %w" (durableRename workManifestPath manifestPath) ;;
      ret (dataPath, manifestPath)
  | false, false, true, true =>
      check! verifyExpectedManifestFile manifestPath (manifest p) ;;
      check! wrap_err "verify already-published same-writer FI batch: %w" (VerifyManifest (w_dir w) (manifestName p)) ;;
      ret (dataPath, manifestPath)
  | _, _, _, _ => throw (Errorf "FI prepared publication has inconsistent retry state")
  end.

(** The boundary is released on every path, and a failure to release it is an error. *)
Definition publishPreparedBatch (w : Writer) (p : preparedBatch) : prog dir (bytes * bytes) :=
  check! wrap_err "acquire FI spool publish boundary: %w" (syscall (ret tt)) ;;
  fun d =>
    let '(r, d) := publishBody w p d in
    match r, syscall (ret tt) d with
    | Panic, (_, d) => (Panic, d)
    | Ok x, (Ok _, d) => (Ok x, d)
    | Ok _, (r', d) => (match r' with Err e => Err e | _ => Panic end, d)
    | Err e, (Err e', d) => (Err (Join e e'), d)
    | Err e, (_, d) => (Err e, d)
    end.

Definition prepareData (p : preparedBatch) : prog dir unit :=
  let! openExists := recoveryRegularFileExists (openPath p) in
  let! workDataExists := recoveryRegularFileExists (workDataPath p) in
  match openExists, workDataExists with
  | true, true => throw (Errorf "FI pending batch has both open and completed work data")
  | true, false => wrap_err "promote completed FI collector work data: %w" (durableRename (openPath p) (workDataPath p))
  | false, true => wrap_err "verify retried FI collector work data: %w"
                     (verifyPreparedManifestAgainstData (manifest p) (workDataPath p))
  | false, false => throw (Errorf "FI pending batch data is missing from collector work state")
  end.

Definition prepareManifest (w : Writer) (p : preparedBatch) : prog dir unit :=
  let! workManifestExists := recoveryRegularFileExists (in_dir (w_workDir w) (workManifestName p)) in
  if workManifestExists : bool then
    check! verifyExpectedManifestFile (in_dir (w_workDir w) (workManifestName p)) (manifest p) ;;
    check! wrap_err "verify retried FI collector work manifest: %w" (VerifyManifest (w_workDir w) (workManifestName p)) ;;
    ret tt
  else writeManifest (w_workDir w) (workManifestName p) (manifest p).

Definition finishPendingBatch : prog spool_state unit :=
  let! w := get in
  match w_pending w with
  | None => ret tt
  | Some p =>
      fail! (if w_file w is Some _ then true else false)
        with Errorf "FI spool writer has pending finalization while data file remains open" ;;
      let! p :=
        if dataPrepared p then ret p else
        check! on_disk (prepareData p) ;;
        let p := with_dataPrepared p in
        check! modify (set_pending (Some p)) ;;
        ret p in
      let! p :=
        if manifestPrepared p then ret p else
        check! on_disk (prepareManifest w p) ;;
        let p := with_manifestPrepared p in
        check! modify (set_pending (Some p)) ;;
        ret p in
      let! (dataPath, manifestPath) := on_disk (publishPreparedBatch w p) in
      check! modify (fun w => set_finalized (w_finalized w ++
        [{| FinalData := dataPath; FinalManifest := manifestPath; FinalizedManifest := manifest p |}]) w) ;;
      check! modify (set_pending None) ;;
      modify resetCurrent
  end.

(** [w.file.Close()] and [w.file = nil], which happens whatever the call returns. *)
Definition closeFile : prog spool_state unit := fun s =>
  let '(r, s) := on_disk Close s in let '(_, s) := modify no_file s in (r, s).

Definition finalizeCurrent : prog spool_state unit :=
  let! w := get in
  match w_pending w, w_file w with
  | Some _, _ => finishPendingBatch
  | None, None => ret tt
  | None, Some file =>
      if w_count w =? 0 then fun s =>
        let '(closeErr, s) := closeFile s in
        let '(_, s) := modify resetCurrent s in
        let '(removeErr, s) := on_disk (Remove (w_openPath w)) s in
        (match closeErr, removeErr with
         | Ok _, Ok _ => Ok tt
         | Err e, Err e' => Err (Join e e')
         | Err e, _ | Ok _, Err e => Err e
         | _, _ => Panic
         end, s)
      else
      match w_hasher w with
      | None => throw (Errorf "FI spool batch hash state is unavailable")
      | Some hashed =>
          check! on_disk (Sync file) ;;
          let! completedAt := now in
          let name := bs "batch-" ++ w_batchID w ++ bs ".jsonl" in
          let value := {|
            Version := ManifestVersion; BatchID := w_batchID w; TargetBatchSize := w_batchSize w; RecordCount := w_count w;
            DataBytes := w_dataBytes w; DataSHA256 := sha256_hex hashed; DataFile := name; Collector := w_collector w;
            CreatedAt := w_createdAt w; CompletedAt := completedAt |} in
          let manifestFile := bs "batch-" ++ w_batchID w ++ bs ".manifest.json" in
          check! modify (set_pending (Some {|
            openPath := w_openPath w; workDataPath := in_dir (w_workDir w) name; workManifestName := manifestFile;
            dataName := name; manifestName := manifestFile; manifest := value;
            dataPrepared := false; manifestPrepared := false |})) ;;
          check! wrap_err "close completed FI collector work data: %w" closeFile ;;
          finishPendingBatch
      end
  end.

End Writer.

(** ** Appending records *)

Record SpoolRecord := { SRVersion : bytes; RecordKind : bytes; ScopeID : bytes; WrittenAt : bytes; Payload : bytes }.

Section Append.
Context `{Unicode} `{JSON Manifest} `{JSON SpoolRecord} {C : Clock}.

(** [payload] is what [json.Marshal(payload)] returned. *)
Definition Append (recordKind scopeID : bytes) (payload : res bytes) : prog spool_state unit :=
  let! w := get in
  fail! w_closed w with ErrWriterClosed ;;
  fail! (if w_pending w is Some _ then true else false) with ErrWriterPendingFinalization ;;
  fail! bool_decide (recordKind = []) || bool_decide (scopeID = []) with Errorf "record kind and scope ID are required" ;;
  let! rawPayload := lift payload in
  let! writtenAt := now in
  let! encoded := lift (json_Marshal {| SRVersion := RecordVersion; RecordKind := recordKind; ScopeID := scopeID;
                                        WrittenAt := writtenAt; Payload := rawPayload |}) in
  let encoded := encoded ++ [newline] in
  let encodedBytes := len encoded in
  fail! w_maxBatchBytes w <? encodedBytes
    with Wrap "%w: record bytes %d exceed limit %d" ErrRecordTooLarge ;;
  check! (if w_file w is Some _ then ret tt else openBatch) ;;
  let! w := get in
  check! (if (0 <? w_count w) && (i64 (w_targetBatchBytes w - encodedBytes) <? w_dataBytes w)
          then check! finalizeCurrent ;; openBatch else ret tt) ;;
  let! w := get in
  match w_file w, w_hasher w with
  | Some file, Some hashed =>
      check! on_disk (FileWrite file encoded) ;;
      let w := set_current (Some file) (w_openPath w) (w_batchID w) (w_createdAt w) (w_count w + 1)
                 (w_dataBytes w + encodedBytes) (Some (hashed ++ encoded)) w in
      check! put w ;;
      if (w_batchSize w <=? w_count w) || (w_targetBatchBytes w <=? w_dataBytes w) then finalizeCurrent else ret tt
  | _, _ => lift Panic
  end.

Definition Close : prog spool_state unit :=
  let! w := get in
  if w_closed w then ret tt else
  check! finalizeCurrent ;;
  modify set_closed.

Definition FinalizedBatches (w : Writer) : list FinalizedBatch := w_finalized w.

End Append.

(** [NewWriter] after the directories were resolved and created. *)
Definition newWriter (policy : option (Z * Z * Z)) (dir workDir : bytes) (batchSize : Z) (collector : CollectorIdentity) : Writer :=
  let '(size, target, max) := match policy with
                              | Some (records, bytes, target) => (records, target, bytes)
                              | None => (batchSize, DefaultTargetBatchBytes, DefaultMaxBatchBytes)
                              end in {|
  w_dir := dir; w_workDir := workDir; w_batchSize := size; w_targetBatchBytes := target; w_maxBatchBytes := max;
  w_collector := collector; w_file := None; w_openPath := []; w_batchID := []; w_createdAt := []; w_count := 0;
  w_dataBytes := 0; w_hasher := None; w_pending := None; w_closed := false; w_finalized := [] |}.

(** ** Configuration *)

Record Policy := { PolicyDirectory : bytes; MaxBatchRecords : Z; MaxRecordBytes : Z; TargetBatchBytes : Z }.
#[global] Instance Policy_eq_decision : EqDecision Policy.
Proof. solve_decision. Defined.

(** The state is the policy of the process, which [currentPolicy] reads. *)
Definition ConfigurePolicy (value : Policy) : prog (option Policy) unit :=
  fail! bool_decide (PolicyDirectory value = []) with Errorf "FI spool policy directory is required" ;;
  fail! MaxBatchRecords value <=? 0 with Errorf "FI spool policy max batch records must be greater than zero" ;;
  fail! MaxRecordBytes value <=? 0 with Errorf "FI spool policy max record bytes must be greater than zero" ;;
  fail! TargetBatchBytes value <=? 0 with Errorf "FI spool policy target batch bytes must be greater than zero" ;;
  fun configured =>
    match configured with
    | Some policy => if bool_decide (policy = value) then (Ok tt, configured)
                     else (Err (Errorf "FI spool policy is already configured with different startup values"), configured)
    | None => (Ok tt, Some value)
    end.

Definition DefaultDir (policy : option Policy) (FI_SPOOL_DIR ProgramData : bytes) : res bytes :=
  match policy with
  | Some value => Ok (PolicyDirectory value)
  | None =>
      if negb (bool_decide (FI_SPOOL_DIR = [])) then Ok FI_SPOOL_DIR else
      fail? bool_decide (ProgramData = []) with Errorf "ProgramData is not set" ;;
      Ok (filepath_Join (filepath_Join ProgramData (bs "FI")) (bs "spool"))
  end.

Definition collectorWorkDirectoryPrefix : bytes := bs ".fi-".
Definition collectorWorkDirectorySuffix : bytes := bs "-collector-work".

Definition CollectorWorkPath (spoolPath : bytes) : res bytes :=
  fail? bool_decide (spoolPath = []) || negb (filepath_IsAbs spoolPath) with Errorf "FI spool directory must be absolute" ;;
  let resolved := filepath_Clean spoolPath in
  let base := filepath_Base resolved in
  fail? bool_decide (base = bs ".") || bool_decide (base = bs "/") || bool_decide (base = [])
    with Errorf "physical FI spool directory has invalid base name" ;;
  let workDir := filepath_Join (filepath_Dir resolved)
                   (collectorWorkDirectoryPrefix ++ base ++ collectorWorkDirectorySuffix) in
  fail? bool_decide (filepath_Clean workDir = filepath_Clean resolved)
    with Errorf "FI collector work directory cannot equal active spool directory" ;;
  Ok workDir.

(** The paths of the platform: the two resolvers of [workdir_windows.go], and the kind of
    what [os.Lstat] finds at a path outside the two directories. *)
Record Platform := {
  resolveDirectoryPath : bytes -> res bytes;
  resolveDirectoryIdentityPath : bytes -> res bytes;
  LstatKind : bytes -> res file_kind
}.

Definition PhysicalSpoolPath (platform : Platform) (spoolDir : bytes) : res bytes :=
  fail? bool_decide (spoolDir = []) || negb (filepath_IsAbs spoolDir) with Errorf "FI spool directory must be absolute" ;;
  let? resolved := wrap "resolve physical FI spool path: %w" (resolveDirectoryIdentityPath platform (filepath_Clean spoolDir)) in
  fail? negb (filepath_IsAbs resolved) with Errorf "physical FI spool path must be absolute" ;;
  Ok (filepath_Clean resolved).

Definition PhysicalSpoolDir (platform : Platform) (spoolDir : bytes) : res bytes :=
  let? resolved := PhysicalSpoolPath platform spoolDir in
  let? kind := wrap "inspect physical FI spool directory: %w" (LstatKind platform resolved) in
  fail? negb (bool_decide (kind = GoFS.Directory)) with Errorf "physical FI spool path must name a real directory" ;;
  Ok resolved.

Definition CollectorWorkDir (platform : Platform) (spoolDir : bytes) : res bytes :=
  let? resolved := PhysicalSpoolDir platform spoolDir in
  CollectorWorkPath resolved.

(** [NewWriter]: the writer keeps the names of the two directories below their parent. *)
Definition NewWriter `{Unicode} (platform : Platform) (policy : option Policy) (dir : bytes) (batchSize : Z)
    (collector : CollectorIdentity) : prog spool_state unit :=
  fail! bool_decide (dir = []) with Errorf "spool directory is required" ;;
  fail! batchSize <=? 0 with Errorf "batch size must be greater than zero" ;;
  fail! bool_decide (ExecutablePath collector = []) || negb (validSHA256 (ExecutableSHA256 collector))
    with Errorf "collector executable identity is invalid" ;;
  fail! (if policy is Some value then negb (bool_decide (dir = PolicyDirectory value)) else false)
    with Errorf "FI spool writer directory %q does not match configured directory %q" ;;
  check! on_disk (syscall (ret tt)) ;;
  let! publicationDir := lift (wrap "resolve FI spool publication directory: %w" (resolveDirectoryPath platform (filepath_Clean dir))) in
  let! workDir := lift (CollectorWorkDir platform dir) in
  check! on_disk (wrap_err "create FI collector work directory: %w" (syscall (ret tt))) ;;
  let! kind := lift (wrap "inspect FI collector work directory: %w" (LstatKind platform workDir)) in
  fail! negb (bool_decide (kind = GoFS.Directory)) with Errorf "FI collector work path must name a real directory" ;;
  put (newWriter (option_map (fun value => (MaxBatchRecords value, MaxRecordBytes value, TargetBatchBytes value)) policy)
         (filepath_Base publicationDir) (filepath_Base workDir) batchSize collector).

Example work_directory : CollectorWorkPath (bs "/srv/fi/spool/") = Ok (bs "/srv/fi/.fi-spool-collector-work").
Proof. vm_compute. reflexivity. Qed.

End spoolwriter.
