(* ===== verification/SpoolSafety.v ===== *)
(** * The spool writer keeps what it accepted

    Proofs about [SpoolWriter]: an invariant over all sequences of appends and closes under
    every schedule of failures. A batch is listed as finalized only when its data file and
    its manifest are in the active spool and agree, and the data of the finalized batches
    together with the batch in progress are the accepted records, in order. *)

From stdpp Require Import gmap.
From S2P Require Import Prelude GoBytes GoStrings Sha256 GoText GoIO GoFS GoDir GoPublish GoWin GoCalls Pki TransportGeneration GenerationCanonical GenerationProtocol GenerationRecorder SpoolWriter.

Module spoolsafety.
Import spool spoolwriter.

Section Reads.
Context `{Unicode} `{JSON Manifest}.

Lemma reads_exists path : reads (recoveryRegularFileExists path).
Proof.
  intros d. unfold recoveryRegularFileExists. pose proof (reads_Lstat path d) as Hl. destruct (Lstat path d) as [[info|e|] d1]; cbn in Hl.
  - by case_bool_decide.
  - by destruct (errors_Is e ErrNotExist).
  - done.
Qed.
Lemma reads_inspect path : reads (inspectDataFile path).
Proof. unfold inspectDataFile. reads. Qed.
Lemma reads_readManifest path : reads (readPreparedPublicationManifest path).
Proof. unfold readPreparedPublicationManifest. reads. Qed.
#[local] Hint Resolve reads_exists reads_inspect reads_readManifest : keeps.
Lemma reads_verifyData m path : reads (verifyPreparedManifestAgainstData m path).
Proof. unfold verifyPreparedManifestAgainstData. reads. Qed.
#[local] Hint Resolve reads_verifyData : keeps.
Lemma reads_Verify directory name : reads (VerifyManifest directory name).
Proof. unfold VerifyManifest. reads. Qed.
Lemma reads_verifyExpected path m : reads (verifyExpectedManifestFile path m).
Proof. unfold verifyExpectedManifestFile. reads. Qed.
End Reads.
#[export] Hint Resolve reads_exists reads_inspect reads_readManifest reads_verifyData reads_Verify reads_verifyExpected : keeps.

(** A move: nothing, or the name moved; on disk too when it is reported as done. *)
Lemma durableRename_cases source destination d r d' :
  durableRename source destination d = (r, d') ->
  (r <> Ok tt /\ r <> Panic /\ same d d') \/
  (exists i, names d !! source = Some i /\ names d !! destination = None /\
     names d' = <[destination := i]> (delete source (names d)) /\ inodes d' = inodes d /\ next_ino d' = next_ino d /\ r <> Panic /\
     (clean d -> clean d' /\ r = Ok tt) /\
     durable d' = if r is Ok _ then <[destination := i]> (delete source (durable d)) else durable d).
Proof.
  unfold durableRename, MoveFileExW, next_fault. destruct d as [n m I k fs]. cbn.
  assert (forall f fs', same (Dir n m I k (f :: fs')) (Dir n m I k fs')) as Hs by (intros; split_and!; try done; apply clean_tail).
  destruct fs as [|[[|x]|] fs]; cbn; destruct (n !! source) as [i|] eqn:Es; cbn;
    try (destruct (n !! destination) eqn:Ed; cbn); intros [= <- <-];
    first [left; split_and!; try done; apply Hs|right; exists i; cbn].
  - split_and!; try done.
  - split_and!; try done. by intros ?%clean_head.
  - split_and!; try done. intros Hc. split; [by eapply clean_tail|done].
Qed.

(** What the reading calls saw. *)

Lemma exists_Ok path d b d' : wf d -> recoveryRegularFileExists path d = (Ok b, d') ->
  if b : bool then exists i nd, names d !! path = Some i /\ inodes d !! i = Some nd /\ i_kind nd = Regular
  else names d !! path = None.
Proof.
  intros (W1 & _ & _). unfold recoveryRegularFileExists. destruct (Lstat path d) as [[info|e|] d1] eqn:E; [..|done].
  - apply Lstat_Ok in E as (_ & i & nd & Hn & Hi & ->). case_bool_decide as Hk; intros [= <- _]. by exists i, nd.
  - destruct (errors_Is e ErrNotExist) eqn:Ee; intros [= <- _]. unfold Lstat in E.
    apply same_syscall in E as [(fs & [= ->] & _)|(fs & E & _)]; [discriminate Ee|]. cbn in E.
    destruct (names d !! path) as [i|] eqn:En; [|done]. destruct (W1 _ _ En) as [nd Hnd]. by rewrite Hnd in E.
Qed.

(** The inspection of a whole file. *)
Definition agrees (m : Manifest) (data : bytes) : Prop :=
  DataSHA256 m = sha256_hex data /\ DataBytes m = len data /\ RecordCount m = count_newlines data /\ ends_with_newline data.

Lemma inspectFile_Ok fuel hashed total records last r x :
  inspectFile fuel hashed total records last r = Ok x -> rd_end r = EOF /\
  x = (hashed ++ rd_data r, total + len (rd_data r), records + count_newlines (rd_data r), List.last (rd_data r) last).
Proof.
  revert hashed total records last r. induction fuel as [|fuel IH]; intros hashed total records last r; [done|].
  cbn [inspectFile]. unfold file_Read. destruct r as [data e]. cbn [rd_data rd_end]. destruct data as [|b tail] eqn:Ed.
  - case_bool_decide as He; [|done]. intros [= <-]. split; [done|].
    rewrite app_nil_r. change (len (@nil byte)) with 0. change (count_newlines []) with 0. by rewrite !Z.add_0_r.
  - rewrite <- Ed. clear Ed b tail. set (n := Z.to_nat inspectBufferBytes). intros H. apply IH in H as [He ->]. cbn [rd_end rd_data] in *.
    split; [done|]. pose proof (take_drop n data) as Et.
    assert (len data = len (take n data) + len (drop n data)) by (by rewrite <- len_app, Et).
    assert (count_newlines data = count_newlines (take n data) + count_newlines (drop n data)) by (by rewrite <- count_newlines_app, Et).
    assert (List.last data last = List.last (drop n data) (List.last (take n data) last)) by (by rewrite <- last_app_default, Et).
    rewrite <- app_assoc, Et. f_equal; [f_equal; [f_equal|]|]; try lia; congruence.
Qed.

Lemma inspect_Ok path d digest total records d' :
  inspectDataFile path d = (Ok (digest, total, records), d') ->
  exists i nd, names d !! path = Some i /\ inodes d !! i = Some nd /\ digest = sha256_hex (i_data nd) /\
    total = len (i_data nd) /\ records = count_newlines (i_data nd) /\ ends_with_newline (i_data nd).
Proof.
  unfold inspectDataFile. intros H. apply bind_Ok in H as (i & d1 & Ho & H). apply Open_Ok in Ho as [[fs ->] Hi].
  unfold defer_close in H. destruct (bind _ _ _) as [r2 d2] eqn:Eb. injection H as -> _.
  apply bind_Ok in Eb as (r & d3 & Hr & Hd). apply file_reader_Ok in Hr as (_ & nd & Hnd & Hr). cbn in Hnd.
  apply (f_equal fst) in Hd. cbn [lift fst] in Hd. destruct (inspectFile _ _ _ _ _ r) as [[[[h t] n] l]| |] eqn:Ei; [|done..].
  apply inspectFile_Ok in Ei as [He Ei]. rewrite Hr in Ei by (by rewrite He). cbn [rd_data] in Ei.
  injection Ei as -> -> -> ->. cbn [res_bind] in Hd. res_inv Hd. bool_hyps. exists i, nd. split_and!; try done.
  apply last_newline. split; [|done]. intros Hz. by rewrite Hz in *.
Qed.

Section Manifests.
Context `{Unicode} `{JSON Manifest}.

(** The manifest a file's content stands for. *)
Definition decodes (raw : bytes) (m : Manifest) : Prop :=
  exists rest, json_Decode raw = Ok (m, rest) /\ forallb json_space rest = true /\ validateManifest m = Ok tt.

Lemma decodes_fun raw m m' : decodes raw m -> decodes raw m' -> m = m'.
Proof. intros (r & E & _) (r' & E' & _). congruence. Qed.

Lemma readManifest_Ok path d m d' : readPreparedPublicationManifest path d = (Ok m, d') ->
  exists i nd, names d !! path = Some i /\ inodes d !! i = Some nd /\ decodes (i_data nd) m.
Proof.
  unfold readPreparedPublicationManifest. intros H1. apply bind_Ok in H1 as (i & d1 & Ho & H1). apply Open_Ok in Ho as [[fs ->] Hi].
  apply bind_Ok in H1 as (m' & d2 & Hm%or_close_Ok & H1). apply bind_Ok in Hm as (r & d3 & Hr & Hd).
  apply file_reader_Ok in Hr as (_ & nd & Hnd & Hr). cbn in Hnd. unfold lift in Hd. injection Hd as Hd _.
  destruct (json_Decode (rd_data r)) as [[m2 rest]| |] eqn:Ej; [|done..]. cbn [res_bind] in Hd. res_inv Hd. bool_hyps.
  match goal with G : rd_end r = EOF |- _ => rewrite Hr in Ej by (by rewrite G) end. cbn [rd_data] in Ej.
  apply bind_Ok in H1 as ([] & d4 & _ & H1). apply bind_Ok in H1 as ([] & d5 & Hv & H1). unfold lift in Hv. injection Hv as Hv _.
  injection H1 as -> _. exists i, nd. split_and!; try done. by exists rest.
Qed.

Lemma verifyData_Ok m path d u d' : verifyPreparedManifestAgainstData m path d = (Ok u, d') ->
  exists i nd, names d !! path = Some i /\ inodes d !! i = Some nd /\ agrees m (i_data nd).
Proof.
  unfold verifyPreparedManifestAgainstData. intros H1. apply bind_Ok in H1 as ([[digest total] n] & d1 & Hi & H1).
  apply inspect_Ok in Hi as (i & nd & Hn & Hnd & -> & -> & -> & He). exists i, nd. split_and!; try done.
  case_bool_decide as E1; cbn [negb] in H1; [|done]. destruct (Z.eqb_spec (len (i_data nd)) (DataBytes m)); cbn [negb] in H1; [|done].
  destruct (Z.eqb_spec (count_newlines (i_data nd)) (RecordCount m)); cbn [negb] in H1; [|done]. by split_and!.
Qed.

Lemma VerifyManifest_Ok directory name d m d' : VerifyManifest directory name d = (Ok m, d') ->
  exists i nd j ndj, names d !! in_dir directory name = Some i /\ inodes d !! i = Some nd /\ decodes (i_data nd) m /\
    names d !! in_dir directory (DataFile m) = Some j /\ inodes d !! j = Some ndj /\ agrees m (i_data ndj).
Proof.
  unfold VerifyManifest. intros H1. apply bind_Ok in H1 as (m' & d1 & Hm & H1).
  pose proof (keeps_run _ _ _ _ _ (reads_readManifest _) Hm) as (En & _ & Ei & _). apply readManifest_Ok in Hm as (i & nd & Hi & Hnd & Hd).
  apply bind_Ok in H1 as ([] & d2 & Hv & H1). injection H1 as -> _. apply verifyData_Ok in Hv as (j & ndj & Hj & Hndj & Ha).
  rewrite En in Hj. rewrite Ei in Hndj. exists i, nd, j, ndj. by split_and!.
Qed.

Lemma verifyExpected_Ok path m d u d' : verifyExpectedManifestFile path m d = (Ok u, d') ->
  exists i nd, names d !! path = Some i /\ inodes d !! i = Some nd /\ decodes (i_data nd) m.
Proof.
  unfold verifyExpectedManifestFile. intros H1. apply bind_Ok in H1 as (m' & d1 & Hm & H1).
  unfold wrap_err in Hm. destruct (readPreparedPublicationManifest path d) as [[m2|e|] d2] eqn:E; [|done..]. injection Hm as -> ->.
  case_bool_decide as Em; cbn [negb] in H1; [|done]. subst m'. by eapply readManifest_Ok.
Qed.

End Manifests.

(** ** The paths of a batch *)

Definition slash_free (s : bytes) : Prop := z2b 47 ∉ s.

Lemma in_dir_inj a b x y : slash_free a -> slash_free b -> in_dir a x = in_dir b y -> a = b /\ x = y.
Proof.
  unfold in_dir, slash_free. revert b. induction a as [|c a IH]; intros [|c' b] Ha Hb E.
  - by injection E.
  - injection E as E _. destruct Hb. rewrite <- E. by left.
  - injection E as E _. destruct Ha. rewrite E. by left.
  - injection E as -> E. apply not_elem_of_cons in Ha as [_ Ha]. apply not_elem_of_cons in Hb as [_ Hb].
    destruct (IH b Ha Hb E) as [-> ->]. done.
Qed.

Inductive place := KOpn | KWdat | KWman | KWtmp | KPdat | KPman | KPtmp.
#[global] Instance place_eq_decision : EqDecision place.
Proof. solve_decision. Defined.

Definition suffix (k : place) : bytes :=
  match k with
  | KOpn => bs ".open" | KWdat | KPdat => bs ".jsonl" | KWman | KPman => bs ".manifest.json"
  | KWtmp | KPtmp => bs ".manifest.json.open"
  end.

(** The length of a batch ID: a time and eight random bytes. *)
Definition id_length : nat := 43.

Section Batches.
Context `{Unicode} `{JSON Manifest} (work pub : bytes) (Hwork : slash_free work) (Hpub : slash_free pub) (Hne : work <> pub).

Definition path (k : place) (id : bytes) : bytes :=
  in_dir (match k with KPdat | KPman | KPtmp => pub | _ => work end) (bs "batch-" ++ id ++ suffix k).

Lemma path_inj k k' id id' : length id = id_length -> length id' = id_length -> path k id = path k' id' -> k = k' /\ id = id'.
Proof.
  intros Hl Hl' E. unfold path in E. apply in_dir_inj in E as [Ed En]; [|by destruct k|by destruct k'].
  apply app_inv_head in En. apply app_inj_1 in En as [-> Es]; [|congruence]. split; [|done].
  destruct k, k'; try done; try (by discriminate Es); by symmetry in Ed.
Qed.

Lemma path_ne k k' id : length id = id_length -> k <> k' -> path k id <> path k' id.
Proof. intros Hl Hk E. by apply path_inj in E as [? _]. Qed.

(** An operation on one batch leaves the other batches and all old files alone. *)
Record frame (id : bytes) (d d' : dir) : Prop := {
  fr_wf : wf d';
  fr_names n : (forall k, n <> path k id) -> names d' !! n = names d !! n /\ durable d' !! n = durable d !! n;
  fr_inodes i : (i < next_ino d)%nat -> inodes d' !! i = inodes d !! i;
  fr_next : (next_ino d <= next_ino d')%nat;
  fr_clean : clean d -> clean d'
}.

Lemma frame_same id d d' : wf d -> same d d' -> frame id d d'.
Proof.
  intros Hwf Hs. pose proof (same_wf _ _ Hs Hwf). destruct Hs as (En & Ed & Ei & Ek & Hc). constructor; try done.
  - by rewrite En, Ed.
  - by rewrite Ei.
  - by rewrite Ek.
Qed.

Lemma frame_trans id d1 d2 d3 : frame id d1 d2 -> frame id d2 d3 -> frame id d1 d3.
Proof.
  intros [] []. constructor; try done; [|..|lia|auto].
  - intros n Hn. destruct (fr_names0 n Hn), (fr_names1 n Hn). split; congruence.
  - intros i Hi. rewrite fr_inodes1 by lia. auto.
Qed.

(** A move within the batch. *)
Lemma rename_frame id k k' d r d' :
  wf d -> length id = id_length -> k <> k' -> durableRename (path k id) (path k' id) d = (r, d') ->
  frame id d d' /\ r <> Panic /\
  ((r <> Ok tt /\ same d d') \/
   (exists i, names d !! path k id = Some i /\ names d !! path k' id = None /\ names d' !! path k' id = Some i /\
      names d' !! path k id = None /\ inodes d' = inodes d /\ (clean d -> r = Ok tt) /\
      (r = Ok tt -> durable d' !! path k' id = Some i /\ durable d' !! path k id = None) /\
      (r <> Ok tt -> durable d' = durable d) /\
      (forall k2, k2 <> k -> k2 <> k' -> names d' !! path k2 id = names d !! path k2 id /\ durable d' !! path k2 id = durable d !! path k2 id))).
Proof.
  intros Hwf Hl Hk Hr. pose proof (path_ne k k' id Hl Hk) as Hp.
  apply durableRename_cases in Hr as [(Hne' & Hpan & Hs)|(i & Hs & Hd & En & Ei & Ek & Hpan & Hc & Ed)].
  { split_and!; [by apply frame_same|done|by left]. }
  destruct Hwf as (W1 & W2 & W3).
  assert (forall n, n <> path k id -> n <> path k' id -> names d' !! n = names d !! n /\ durable d' !! n = durable d !! n) as Hother.
  { intros n H1 H2. rewrite En, lookup_insert_ne, lookup_delete_ne by congruence. split; [done|].
    rewrite Ed. destruct r; [|done..]. by rewrite lookup_insert_ne, lookup_delete_ne by congruence. }
  assert (names d' !! path k' id = Some i) as Hn1 by (by rewrite En, lookup_insert_eq).
  assert (names d' !! path k id = None) as Hn2 by (rewrite En, lookup_insert_ne by congruence; apply lookup_delete_eq).
  split; [|split; [done|right]].
  - constructor; [split_and!|..|by rewrite Ek|by intros [? _]%Hc].
    + intros n j. rewrite En, Ei. intros [[<- <-]|[_ [_ Hn]%lookup_delete_Some]]%lookup_insert_Some; eauto.
    + intros n j. rewrite Ei, Ed. destruct r; eauto. intros [[<- <-]|[_ [_ Hn]%lookup_delete_Some]]%lookup_insert_Some; eauto.
    + intros j. rewrite Ei, Ek. apply W3.
    + intros n Hn. apply Hother; apply Hn.
    + intros j _. by rewrite Ei.
  - exists i. split_and!; try done.
    + by intros [_ ?]%Hc.
    + intros ->. rewrite Ed, lookup_insert_eq, lookup_insert_ne, lookup_delete_eq by congruence. done.
    + intros Hr. rewrite Ed. by destruct r as [[]| |].
    + intros k2 H1 H2. apply Hother; by apply path_ne.
Qed.

End Batches.

(** ** The schedule *)

Lemma tidy_rename a b : keeps tidy (durableRename a b).
Proof.
  intros d Hc. destruct (durableRename a b d) as [r d'] eqn:E. apply durableRename_cases in E as [(_ & _ & (_ & _ & _ & _ & Hs))|(i & _ & _ & _ & _ & _ & _ & Hk & _)].
  - cbn. auto.
  - cbn. by destruct (Hk Hc).
Qed.
#[export] Hint Resolve tidy_rename : keeps.

(** ** Creating a file under a new name *)

Lemma Create_writing path perm d r d' :
  CreateExclusive path perm d = (r, d') ->
  (exists fs, d' = set_faults fs d /\ forall i, r <> Ok i) \/
  (r = Ok (next_ino d) /\ names d !! path = None /\ writing d path d' /\ inodes d' !! next_ino d = Some (Inode Regular perm [] false)).
Proof.
  unfold CreateExclusive. intros H. destruct (syscall_cases (fun d : dir => match names d !! path with
    | Some _ => (Err ErrExist, d)
    | None => (Ok (next_ino d), Dir (<[path := next_ino d]> (names d)) (durable d)
       (<[next_ino d := Inode Regular perm [] false]> (inodes d)) (S (next_ino d)) (faults d)) end) d) as (fs & [E|E]);
    rewrite E in H; [injection H as <- <-; left; by exists fs|]. cbn in H.
  destruct (names d !! path) eqn:En; injection H as <- <-; [left; by exists fs|right]. split_and!; try done; [|cbn; by rewrite lookup_insert_eq].
  constructor; cbn.
  - intros n Hn. by rewrite lookup_insert_ne.
  - by rewrite lookup_insert_eq.
  - done.
  - intros i Hi. by rewrite lookup_insert_ne.
  - rewrite lookup_insert_eq. eauto.
  - done.
Qed.

Lemma writing_wf d temp d' : wf d -> writing d temp d' -> wf d'.
Proof.
  intros Hwf Hw. apply (writing_unchanged (temp ++ [z2b 0]) d temp) in Hw as []; try done.
  intros E. apply (f_equal length) in E. rewrite length_app in E. cbn in E. lia.
Qed.

Section Create.
Context `{Unicode} `{JSON Manifest} (work pub : bytes) (Hwork : slash_free work) (Hpub : slash_free pub) (Hne : work <> pub).
Abbreviation path := (path work pub).
Abbreviation frame := (frame work pub).

(** The schedule has no failure after an effect, from the start. *)
Context (C : Prop).

Lemma writing_frame id k d d' : wf d -> writing d (path k id) d' -> (clean d -> clean d') -> frame id d d'.
Proof.
  intros Hwf Hw Hc. pose proof (writing_wf _ _ _ Hwf Hw) as Hwf'. destruct Hw as [H1 H2 H3 H4 H5 H6]. constructor; try done.
  - intros n Hn. rewrite H1, H3 by apply Hn. done.
  - intros i Hi. apply H4. lia.
  - lia.
Qed.

(** The name under which a manifest is written first. *)
Lemma temp_path id : in_dir work ((bs "batch-" ++ id ++ suffix KWman) ++ bs ".open") = path KWtmp id.
Proof. unfold spoolsafety.path. f_equal. by rewrite <- !app_assoc. Qed.

(** The content of a manifest file, and that the manifest agrees with the data file it was
    checked against. *)
Definition manifest_file (d : dir) (g : nat) (m : Manifest) : Prop :=
  exists nd, inodes d !! g = Some nd /\ i_synced nd = true /\ i_kind nd = Regular /\ decodes (i_data nd) m.

(** The new file was removed, or is still there: nothing else changed. *)
Lemma abandon_frame id d d1 : wf d -> length id = id_length -> writing d (path KWtmp id) d1 -> (clean d -> clean d1) ->
  let d' := (Remove (path KWtmp id) (GoFS.Close d1).2).2 in
  frame id d d' /\ forall k, k <> KWtmp -> names d' !! path k id = names d !! path k id /\ durable d' !! path k id = durable d !! path k id.
Proof.
  intros Hwf Hl Hw Hc. cbv zeta. destruct (GoFS.Close d1) as [rc d2] eqn:Ec. cbn [snd].
  assert (clean d1 -> clean d2) as Hc2 by (pose proof (tidy_reads _ reads_Close d1) as Ht; rewrite Ec in Ht; exact Ht).
  eapply (Close_writing d (path KWtmp id)) in Ec as [Hw2 _]; [|done].
  pose proof (writing_wf _ _ _ Hwf Hw2) as Hwf2. destruct Hw2 as [H1 H2 H3 H4 H5 H6].
  pose proof (tidy_Remove (path KWtmp id) d2) as Hc3.
  assert (forall n, n <> path KWtmp id -> let d' := (Remove (path KWtmp id) d2).2 in
    wf d' /\ inodes d' = inodes d2 /\ next_ino d' = next_ino d2 /\ names d' !! n = names d !! n /\ durable d' !! n = durable d !! n) as Hrem.
  { intros n Hn. destruct (Remove_other n d2 (path KWtmp id) ltac:(congruence) Hwf2) as (A & B & G & D).
    cbv zeta. rewrite G, D, H1, H3 by congruence. split_and!; try done.
    unfold Remove, syscall, bind, next_fault. destruct d2 as [? ? ? ? [|[]]]; cbn; repeat case_match; done. }
  assert (path KOpn id <> path KWtmp id) as Hk0 by (by apply path_ne).
  destruct (Hrem _ Hk0) as (A & B & G & _). split.
  - constructor; [done|..].
    + intros n Hn. by destruct (Hrem n (Hn KWtmp)) as (_ & _ & _ & ?).
    + intros i Hi. rewrite B. apply H4. lia.
    + lia.
    + unfold tidy in Hc3. auto.
  - intros k Hk. by destruct (Hrem (path k id)) as (_ & _ & _ & ?); [by apply path_ne|].
Qed.

(** The calls between the creation and the deferred function. *)
Definition manifestBody (id : bytes) (file : nat) (value : Manifest) : prog dir unit :=
  let! text := lift (json_Marshal value) in
  check! FileWrite file (text ++ [newline]) ;;
  check! Sync file ;;
  check! GoFS.Close ;;
  check! wrap_err "verify unpublished FI batch manifest: %w"
           (VerifyManifest work ((bs "batch-" ++ id ++ suffix KWman) ++ bs ".open")) ;;
  durableRename (path KWtmp id) (in_dir work (bs "batch-" ++ id ++ suffix KWman)).

Lemma tidy_body id file value : keeps tidy (manifestBody id file value).
Proof. unfold manifestBody. repeat keeps1. Qed.

Lemma manifestBody_spec id value d d0 r d1 :
  wf d -> length id = id_length -> writing d (path KWtmp id) d0 ->
  inodes d0 !! next_ino d = Some (Inode Regular 384 [] false) -> manifestBody id (next_ino d) value d0 = (r, d1) ->
  (r <> Ok tt /\ writing d (path KWtmp id) d1) \/
  (exists d2 m, writing d (path KWtmp id) d2 /\ durableRename (path KWtmp id) (path KWman id) d2 = (r, d1) /\ (clean d0 -> clean d2) /\
     manifest_file d2 (next_ino d) m /\
     (in_dir work (DataFile m) = path KWdat id ->
        exists j nd, names d !! path KWdat id = Some j /\ inodes d !! j = Some nd /\ agrees m (i_data nd))).
Proof.
  intros Hwf Hl Hw Hnd Hr. unfold manifestBody, lift in Hr. unfold bind at 1 in Hr.
  destruct (json_Marshal value) as [text|e|]; [|left; by injection Hr as <- <-..].
  unfold bind at 1 in Hr. destruct (FileWrite (next_ino d) (text ++ [newline]) d0) as [r1 e1] eqn:E1.
  pose proof (tidy_FileWrite (next_ino d) (text ++ [newline]) d0) as T1. rewrite E1 in T1. cbn in T1.
  pose proof (FileWrite_writing _ d (path KWtmp id) d0 r1 e1 Hw E1) as Hw1.
  destruct r1 as [[]| |]; [|left; by injection Hr as <- <-..].
  unfold bind at 1 in Hr. destruct (Sync (next_ino d) e1) as [r2 e2] eqn:E2.
  pose proof (tidy_Sync (next_ino d) e1) as T2. rewrite E2 in T2. cbn in T2.
  assert (exists nd1, inodes e1 !! next_ino d = Some nd1 /\ i_kind nd1 = Regular) as (nd1 & Hn1 & Hk1).
  { unfold FileWrite, bind, next_fault in E1. destruct (faults d0) as [|[x|] fs]; unfold update_inode in E1; cbn in E1; rewrite Hnd in E1;
      try discriminate E1; injection E1 as <-; cbn; rewrite lookup_insert_eq; eauto. }
  assert (inodes e2 !! next_ino d = Some (Inode (i_kind nd1) (i_perm nd1) (i_data nd1) true) \/ r2 <> Ok tt) as Hsync.
  { unfold Sync in E2. apply same_syscall in E2 as [(fs & -> & _)|(fs & E2 & _)]; [by right|left].
    unfold update_inode in E2. cbn in E2. rewrite Hn1 in E2. injection E2 as _ <-. cbn. by rewrite lookup_insert_eq. }
  pose proof (Sync_writing d (path KWtmp id) e1 r2 e2 Hw1 E2) as [Hw2 _].
  destruct r2 as [[]| |]; [|left; by injection Hr as <- <-..]. destruct Hsync as [Hn2|?]; [|done].
  unfold bind at 1 in Hr. destruct (GoFS.Close e2) as [r3 e3] eqn:E3.
  pose proof (tidy_reads _ reads_Close e2) as T3. rewrite E3 in T3. cbn in T3.
  eapply (Close_writing d (path KWtmp id)) in E3 as [Hw3 Hi3]; [|done].
  destruct r3 as [[]| |]; [|left; by injection Hr as <- <-..].
  unfold bind at 1 in Hr. unfold wrap_err in Hr.
  destruct (VerifyManifest work ((bs "batch-" ++ id ++ suffix KWman) ++ bs ".open") e3) as [r4 e4] eqn:E4.
  pose proof (reads_Verify work ((bs "batch-" ++ id ++ suffix KWman) ++ bs ".open") e3) as Hs4. rewrite E4 in Hs4. cbn [snd] in Hs4.
  assert (writing d (path KWtmp id) e4) as Hw4.
  { destruct Hs4 as (En & Ed & Ei & Ek & _), Hw3. constructor; rewrite ?En, ?Ed, ?Ei, ?Ek; done. }
  destruct r4 as [m| |]; [|left; by injection Hr as <- <-..]. right. exists e4, m.
  apply VerifyManifest_Ok in E4 as (i & nd & j & ndj & Hi & Hndi & Hdec & Hj & Hndj & Ha). rewrite temp_path in Hi.
  assert (i = next_ino d) as -> by (destruct Hw3; congruence). destruct Hs4 as (En & Ed & Ei & Ek & T4).
  split_and!; [done|exact Hr|unfold tidy in *; auto| |].
  - exists nd. rewrite Ei, Hi3 in *. rewrite Hn2 in Hndi. injection Hndi as <-. cbn. by split_and!.
  - intros Epath. rewrite Epath in Hj. exists j, ndj. destruct Hw3 as [N1 N2 N3 N4 N5 N6].
    rewrite N1 in Hj by (by apply path_ne). split_and!; try done. rewrite <- Hndj. symmetry. apply N4. intros ->.
    destruct Hwf as (W1 & _ & W3). apply W1, W3 in Hj. lia.
Qed.

(** Removing a name that is not there. *)
Lemma Remove_absent name d : names d !! name = None -> same d (Remove name d).2.
Proof.
  intros Hn. destruct (Remove name d) as [r d'] eqn:E. unfold Remove in E.
  apply same_syscall in E as [(fs & _ & _ & Hs)|(fs & E & Hs)]; [done|]. cbn in E. rewrite Hn in E. by injection E as _ <-.
Qed.

Lemma writeManifest_spec id value d r d' :
  wf d -> length id = id_length ->
  writeManifest work (bs "batch-" ++ id ++ suffix KWman) value d = (r, d') ->
  frame id d d' /\
  (forall k, k <> KWman -> k <> KWtmp -> names d' !! path k id = names d !! path k id /\ durable d' !! path k id = durable d !! path k id) /\
  ((r <> Ok tt /\ names d' !! path KWman id = names d !! path KWman id /\ durable d' !! path KWman id = durable d !! path KWman id) \/
   (exists g m, names d' !! path KWman id = Some g /\ (next_ino d <= g)%nat /\ manifest_file d' g m /\
      (in_dir work (DataFile m) = path KWdat id ->
         exists j nd, names d !! path KWdat id = Some j /\ inodes d !! j = Some nd /\ agrees m (i_data nd)) /\
      (clean d -> r = Ok tt) /\ (r = Ok tt -> durable d' !! path KWman id = Some g) /\
      (r <> Ok tt -> durable d' !! path KWman id = durable d !! path KWman id))).
Proof.
  intros Hwf Hl Hr. unfold writeManifest in Hr. rewrite temp_path in Hr. unfold bind at 1 in Hr.
  destruct (CreateExclusive (path KWtmp id) 384 d) as [rc d0] eqn:Ecr.
  assert (clean d -> clean d0) as Hc0 by (pose proof (tidy_Create (path KWtmp id) 384 d) as Ht; rewrite Ecr in Ht; exact Ht).
  apply Create_writing in Ecr as [(fs & -> & Hno)|(-> & Hnt & Hw & Hnd0)].
  { assert (same d (set_faults fs d)) as Hs by (by split_and!).
    destruct rc as [i|e|]; [by destruct (Hno i)|..]; injection Hr as <- <-; (split_and!; [by apply frame_same|done|by left]). }
  assert (forall d1 (rr : res unit), writing d (path KWtmp id) d1 -> (clean d0 -> clean d1) -> rr <> Ok tt ->
    (rr, (Remove (path KWtmp id) (GoFS.Close d1).2).2) = (r, d') ->
    frame id d d' /\ (forall k, k <> KWman -> k <> KWtmp -> names d' !! path k id = names d !! path k id /\ durable d' !! path k id = durable d !! path k id) /\
    (r <> Ok tt /\ names d' !! path KWman id = names d !! path KWman id /\ durable d' !! path KWman id = durable d !! path KWman id)) as Hstop.
  { intros d1 rr Hw1 Hc1 Hne1 [= <- <-]. destruct (abandon_frame id d d1 Hwf Hl Hw1 ltac:(auto)) as [Hf Hk].
    split_and!; [done|intros; by apply Hk|done|by apply Hk|by apply Hk]. }
  change (match manifestBody id (next_ino d) value d0 with
          | (Ok _, d) => (Ok tt, d) | (r, d) => (r, (Remove (path KWtmp id) (GoFS.Close d).2).2) end = (r, d')) in Hr.
  pose proof (tidy_body id (next_ino d) value d0) as Tb. destruct (manifestBody id (next_ino d) value d0) as [rb d1] eqn:Eb. cbn in Tb.
  apply (manifestBody_spec id value d) in Eb as [[Hneb Hwb]|(d2 & m & Hw2 & Hren & Hc2 & Hmf & Hag)]; try done.
  { destruct rb as [[]| |]; [done|..]; (destruct (Hstop d1 _ Hwb Tb Hneb Hr) as (? & ? & ?); split_and!; [done|done|by left]). }
  pose proof (writing_frame id KWtmp d d2 Hwf Hw2 ltac:(auto)) as F2. pose proof (writing_wf _ _ _ Hwf Hw2) as Hwf2.
  apply rename_frame in Hren as (F3 & Hpan & [[Hner Hs]|(i & Hi & Hfree & Hn1 & Hn2 & Hin & Hcl & Hdur & Hndur & Hoth)]); try done.
  { assert (writing d (path KWtmp id) d1) as Hw1.
    { destruct Hs as (En & Ed & Ei & Ek & _), Hw2. constructor; rewrite ?En, ?Ed, ?Ei, ?Ek; done. }
    destruct rb as [[]| |]; [done|..]; (destruct (Hstop d1 _ Hw1 Tb Hner Hr) as (? & ? & ?); split_and!; [done|done|by left]). }
  destruct Hw2 as [N1 N2 N3 N4 N5 N6]. assert (i = next_ino d) as -> by congruence.
  assert (exists ds, same d1 ds /\ (rb, ds) = (r, d')) as (ds & Hs & Heq).
  { destruct rb as [[]|e|]; [exists d1; by split|..|done]. eexists. split; [|exact Hr]. etrans; [exact (reads_Close d1)|].
    apply Remove_absent. by destruct (reads_Close d1) as (-> & _). }
  injection Heq as -> ->. pose proof Hs as (En & Ed & Ei & Ek & Hc3).
  assert (frame id d d') as Hf by (eapply frame_trans; [exact F2|]; eapply frame_trans; [exact F3|]; apply frame_same; [apply F3|done]).
  split_and!; [done|..].
  - intros k H1 H2. rewrite En, Ed. destruct (Hoth k H2 H1) as [-> ->]. rewrite N1, N3 by (by apply path_ne). done.
  - right. exists (next_ino d), m. rewrite En, Ed. split_and!; try done.
    + destruct Hmf as (nd & A & B). exists nd. rewrite Ei, Hin. done.
    + intros Hcd. apply Hcl. auto.
    + intros Hok. by apply Hdur.
    + intros Hne'. rewrite Hndur by done. by rewrite N3.
Qed.

(** ** A batch that waits for its publication

    The data file is at one of three places, the manifest nowhere, in the work directory or
    in the spool. *)

Definition batch_name (k : place) (id : bytes) : bytes := bs "batch-" ++ id ++ suffix k.

(** The file has the accepted bytes, or a failed write left more. *)
Definition holds (nd : inode) (h : bytes) : Prop := i_data nd = h \/ len h < len (i_data nd).

Definition data_place (k : place) : Prop := k = KOpn \/ k = KWdat \/ k = KPdat.
Definition manifest_place (k : place) : Prop := k = KWman \/ k = KPman.
Definition final_place (k : place) : Prop := k = KWdat \/ k = KPdat \/ manifest_place k.

Definition manifest_at (d : dir) (id : bytes) (f : nat) (p : preparedBatch) (mg : option (place * nat)) : Prop :=
  match mg with
  | None => forall k, manifest_place k -> names d !! path k id = None
  | Some (km, g) =>
      manifest_place km /\ (forall k, manifest_place k -> names d !! path k id = if decide (k = km) then Some g else None) /\
      (g < next_ino d)%nat /\
      exists m, manifest_file d g m /\ (m = manifest p -> exists nd, inodes d !! f = Some nd /\ agrees m (i_data nd))
  end.

Record pending_ok (d : dir) (id : bytes) (f : nat) (h : bytes) (p : preparedBatch) (l : place) (mg : option (place * nat)) : Prop := {
  po_wf : wf d;
  po_id : length id = id_length;
  po_paths : openPath p = path KOpn id /\ workDataPath p = path KWdat id /\ workManifestName p = batch_name KWman id /\
             dataName p = batch_name KPdat id /\ manifestName p = batch_name KPman id;
  po_manifest : DataFile (manifest p) = batch_name KWdat id /\ DataBytes (manifest p) = len h;
  po_data : exists nd, inodes d !! f = Some nd /\ i_synced nd = true /\ i_kind nd = Regular /\ holds nd h;
  po_place : data_place l;
  po_loc k : data_place k -> names d !! path k id = if decide (k = l) then Some f else None;
  po_man : manifest_at d id f p mg;
  po_prepared : (dataPrepared p = true -> l <> KOpn) /\ (manifestPrepared p = true -> mg <> None) /\ (mg <> None -> l <> KOpn) /\
                (l = KPdat \/ (exists g, mg = Some (KPman, g)) -> dataPrepared p = true /\ manifestPrepared p = true);
  po_clean : C -> clean d;
  po_settled : C -> forall k, final_place k -> durable d !! path k id = names d !! path k id
}.

Lemma manifest_at_same d d' id f p mg : same d d' -> manifest_at d id f p mg -> manifest_at d' id f p mg.
Proof.
  intros (En & Ed & Ei & Ek & _) Hm. unfold manifest_at, manifest_file in *. by rewrite En, Ei, Ek.
Qed.

Lemma pending_same d d' id f h p l mg : same d d' -> pending_ok d id f h p l mg -> pending_ok d' id f h p l mg.
Proof.
  intros Hs []. pose proof Hs as (En & Ed & Ei & Ek & Hc). constructor; try done; rewrite ?En, ?Ed, ?Ei; try done.
  - by eapply same_wf.
  - by eapply manifest_at_same.
  - auto.
Qed.

(** The flags may be raised when they are true. *)
Lemma pending_flags d id f h p l mg p' : pending_ok d id f h p l mg ->
  openPath p' = openPath p -> workDataPath p' = workDataPath p -> workManifestName p' = workManifestName p ->
  dataName p' = dataName p -> manifestName p' = manifestName p -> manifest p' = manifest p ->
  (dataPrepared p' = true -> l <> KOpn) -> (manifestPrepared p' = true -> mg <> None) ->
  (l = KPdat \/ (exists g, mg = Some (KPman, g)) -> dataPrepared p' = true /\ manifestPrepared p' = true) ->
  pending_ok d id f h p' l mg.
Proof.
  intros [] E1 E2 E3 E4 E5 E6 H1 H2 H3. constructor; rewrite ?E1, ?E2, ?E3, ?E4, ?E5, ?E6; try done.
  - unfold manifest_at in *. by rewrite E6.
  - split_and!; try done. by destruct po_prepared0 as (_ & _ & ? & _).
Qed.

(** The data file moves from one place to another. *)
Lemma pending_move_data d id f h p l l' mg r d' :
  pending_ok d id f h p l mg -> data_place l' -> l <> l' -> l' <> KOpn ->
  (l' = KPdat -> dataPrepared p = true /\ manifestPrepared p = true) ->
  durableRename (path l id) (path l' id) d = (r, d') ->
  frame id d d' /\ r <> Panic /\ exists l2, pending_ok d' id f h p l2 mg /\ (r = Ok tt -> l2 = l') /\ (l2 = l \/ l2 = l').
Proof.
  intros [] Hl' Hne' Hko Hflag Hr. apply rename_frame in Hr as (Hf & Hpan & [[Hr Hs]|(i & Hi & Hfree & Hn1 & Hn2 & Hin & Hcl & Hdur & Hndur & Hoth)]); try done.
  { split_and!; try done. exists l. split_and!; [by eapply pending_same; [|by constructor]|done|by left]. }
  assert (i = f) as -> by (rewrite po_loc0, decide_True in Hi by done; congruence).
  split_and!; try done. exists l'. split_and!; [|done|by right].
  assert (forall k, manifest_place k -> names d' !! path k id = names d !! path k id) as Hman.
  { intros k Hk. apply Hoth; intros ->; destruct Hk as [->| ->]; repeat destruct Hl' as [|Hl']; repeat destruct po_place0 as [|po_place0]; done. }
  constructor; try done.
  - apply Hf.
  - by rewrite Hin.
  - intros k Hk. destruct (decide (k = l')) as [->|Hk1]; [done|]. destruct (decide (k = l)) as [->|Hk2]; [done|].
    destruct (Hoth k Hk2 Hk1) as [-> _]. by rewrite po_loc0, decide_False.
  - unfold manifest_at, manifest_file in *. destruct mg as [[km g]|].
    + destruct po_man0 as (A & B & G & D). rewrite Hin. split_and!; try done; [intros k Hk; rewrite Hman by done; by apply B|].
      destruct Hf. lia.
    + intros k Hk. rewrite Hman by done. by apply po_man0.
  - destruct po_prepared0 as (A & B & D & E). split_and!; try done. intros [->|Hm]; [by apply Hflag|apply E; by right].
  - intros HC. by apply Hf, po_clean0.
  - intros HC k Hk. specialize (Hcl (po_clean0 HC)). destruct (Hdur Hcl) as [D1 D2].
    destruct (decide (k = l')) as [->|Hk1]; [congruence|]. destruct (decide (k = l)) as [->|Hk2]; [congruence|].
    destruct (Hoth k Hk2 Hk1) as [-> ->]. by apply po_settled0.
Qed.


Lemma frame_refl id d : wf d -> frame id d d.
Proof. intros Hwf. apply frame_same; [done|reflexivity]. Qed.

(** A reading call before the rest. *)
Lemma read_step {A} (q : prog dir A) d d1 (r : res A) id f h p l mg :
  reads q -> q d = (r, d1) -> pending_ok d id f h p l mg -> pending_ok d1 id f h p l mg /\ frame id d d1 /\ same d d1.
Proof.
  intros Hq Hr Hp. pose proof (keeps_run _ _ _ _ _ Hq Hr) as Hs. split_and!; [by eapply pending_same|apply frame_same; [apply Hp|done]|done].
Qed.

Lemma prepareData_ok d id f h p l mg r d' :
  pending_ok d id f h p l mg -> prepareData p d = (r, d') ->
  exists l', pending_ok d' id f h p l' mg /\ frame id d d' /\ (r = Ok tt -> l' <> KOpn).
Proof.
  intros Hp Hr. pose proof (po_paths _ _ _ _ _ _ _ Hp) as (Eo & Ew & _). unfold prepareData in Hr. rewrite Eo, Ew in Hr.
  unfold bind at 1 in Hr. destruct (recoveryRegularFileExists (path KOpn id) d) as [b1 d1] eqn:E1.
  destruct (read_step _ _ _ _ _ _ _ _ _ _ (reads_exists _) E1 Hp) as (Hp1 & F1 & S1).
  destruct b1 as [b1| |]; [|injection Hr as <- <-; by exists l..]. apply exists_Ok in E1; [|apply Hp].
  unfold bind at 1 in Hr. destruct (recoveryRegularFileExists (path KWdat id) d1) as [b2 d2] eqn:E2.
  destruct (read_step _ _ _ _ _ _ _ _ _ _ (reads_exists _) E2 Hp1) as (Hp2 & F2 & S2). pose proof (frame_trans _ _ _ _ _ _ F1 F2) as F12.
  destruct b2 as [b2| |]; [|injection Hr as <- <-; by exists l..]. apply exists_Ok in E2; [|apply Hp1].
  destruct b1, b2; unfold wrap_err, throw in Hr.
  - injection Hr as <- <-. by exists l.
  - destruct E1 as (i & nd & Hi & _). assert (l = KOpn) as ->.
    { rewrite (po_loc _ _ _ _ _ _ _ Hp) in Hi by (by left). by destruct (decide (KOpn = l)). }
    destruct (durableRename (path KOpn id) (path KWdat id) d2) as [r3 d3] eqn:E3.
    eapply pending_move_data in E3 as (F3 & _ & l2 & Hp3 & Hok & _); [|done|right; by left|done..].
    assert (d3 = d' /\ (r = Ok tt -> r3 = Ok tt)) as [<- Hrr] by (destruct r3 as [[]| |]; injection Hr as <- <-; split; congruence).
    exists l2. split_and!; [done|by eapply frame_trans|]. intros Ho. by rewrite Hok by auto.
  - destruct (verifyPreparedManifestAgainstData (manifest p) (path KWdat id) d2) as [r3 d3] eqn:E3.
    destruct (read_step _ _ _ _ _ _ _ _ _ _ (reads_verifyData _ _) E3 Hp2) as (Hp3 & F3 & S3).
    assert (d3 = d') as <- by (destruct r3 as [[]| |]; by injection Hr).
    exists l. split_and!; [done|by eapply frame_trans|]. intros _ ->. rewrite (po_loc _ _ _ _ _ _ _ Hp) in E1 by (by left). by rewrite decide_True in E1.
  - injection Hr as <- <-. by exists l.
Qed.

Lemma prepareManifest_ok w d id f h p l mg r d' :
  w_workDir w = work -> pending_ok d id f h p l mg -> l <> KOpn -> manifestPrepared p = false -> prepareManifest w p d = (r, d') ->
  exists mg', pending_ok d' id f h p l mg' /\ frame id d d' /\ (r = Ok tt -> mg' <> None).
Proof.
  intros Ew Hp Hl Hmp Hr. pose proof Hp as [Hwf Hid (_ & _ & Enm & _) [Hdf Hdb] (ndf & Hndf & Hsf & Hkf & Hhf) Hpl Hloc Hman (Hf1 & Hf2 & Hf3 & Hf4) Hcl Hset].
  assert (l = KWdat) as ->.
  { destruct Hpl as [->|[->| ->]]; [done|done|]. destruct Hf4 as [_ E]; [by left|congruence]. }
  unfold prepareManifest in Hr. rewrite Ew, Enm in Hr. change (in_dir work (batch_name KWman id)) with (path KWman id) in Hr.
  unfold bind at 1 in Hr. destruct (recoveryRegularFileExists (path KWman id) d) as [b1 d1] eqn:E1.
  destruct (read_step _ _ _ _ _ _ _ _ _ _ (reads_exists _) E1 Hp) as (Hp1 & F1 & S1).
  destruct b1 as [b1| |]; [|injection Hr as <- <-; by exists mg..]. apply exists_Ok in E1; [|done]. destruct b1.
  - destruct E1 as (i & nd & Hi & _).
    assert (mg <> None) as Hmg. { intros ->. cbn in Hman. rewrite Hman in Hi by (by left). done. }
    assert (reads (check! verifyExpectedManifestFile (path KWman id) (manifest p) ;;
      check! wrap_err "verify retried FI collector work manifest: %w" (VerifyManifest work (batch_name KWman id)) ;; ret tt)) as Hq by reads.
    destruct (read_step _ _ _ _ _ _ _ _ _ _ Hq Hr Hp1) as (Hp2 & F2 & S2). exists mg. split_and!; [done|by eapply frame_trans|done].
  - assert (mg = None) as ->.
    { destruct mg as [[km g]|]; [|done]. destruct Hman as ([->| ->] & B & _); [rewrite B, decide_True in E1 by (done || by left); done|].
      destruct Hf4 as [_ E]; [right; by exists g|congruence]. }
    pose proof (po_wf _ _ _ _ _ _ _ Hp1) as Hwf1.
    change (writeManifest work (bs "batch-" ++ id ++ suffix KWman) (manifest p) d1 = (r, d')) in Hr.
    apply writeManifest_spec in Hr as (F2 & Hoth & Hcase); [|done..]. pose proof (frame_trans _ _ _ _ _ _ F1 F2) as F12.
    destruct S1 as (En1 & Ed1 & Ei1 & Ek1 & Hc1).
    assert (forall k, k <> KWman -> k <> KWtmp -> names d' !! path k id = names d !! path k id /\ durable d' !! path k id = durable d !! path k id) as Hoth'.
    { intros k H1 H2. destruct (Hoth k H1 H2) as [-> ->]. by rewrite En1, Ed1. }
    assert (inodes d' !! f = Some ndf) as Hndf'.
    { rewrite (fr_inodes _ _ _ _ _ F12); [done|]. destruct Hwf as (_ & _ & W3). apply W3. eauto. }
    pose proof (fr_wf _ _ _ _ _ F2) as Hwf'. pose proof (po_paths _ _ _ _ _ _ _ Hp) as Hpaths. pose proof (po_manifest _ _ _ _ _ _ _ Hp) as Hmf.
    pose proof (po_prepared _ _ _ _ _ _ _ Hp) as Hprep.
    assert (exists nd, inodes d' !! f = Some nd /\ i_synced nd = true /\ i_kind nd = Regular /\ holds nd h) as Hex by (by exists ndf).
    assert (C -> clean d') as Hcl' by (intros HC; apply F12, Hcl, HC).
    assert (forall k, data_place k -> names d' !! path k id = if decide (k = KWdat) then Some f else None) as Hloc'.
    { intros k Hk. destruct (Hoth' k) as [-> _]; [by destruct Hk as [->|[->| ->]]..|]. by apply Hloc. }
    assert (pending_ok d' id f h p KWdat (if decide (names d' !! path KWman id = None) then None else
      match names d' !! path KWman id with Some g => Some (KWman, g) | None => None end) /\ (r = Ok tt -> names d' !! path KWman id <> None)) as [Hp' Hok].
    { destruct Hcase as [(Hr & En & Ed)|(g & m & Hg & Hge & (ndg & Hndg & Hsg & Hkg & Hdec) & Hag & Hcr & Hd1 & Hd2)].
      - assert (names d' !! path KWman id = None) as HN by (rewrite En, En1; apply Hman; by left). split; [|done]. rewrite decide_True by done.
        constructor; try done.
        + intros k [->| ->]; [done|]. destruct (Hoth' KPman) as [-> _]; [done..|]. apply Hman. by right.
        + intros HC k Hk. destruct (decide (k = KWman)) as [->|Hkm]; [rewrite Ed, En, Ed1, En1; by apply Hset|].
          destruct (Hoth' k Hkm) as [-> ->]; [by destruct Hk as [->|[->|[->| ->]]]|]. by apply Hset.
      - split; [|by rewrite Hg]. rewrite decide_False, Hg by (by rewrite Hg). constructor; try done.
        + split_and!; [by left| | |].
          * intros k [->| ->]; [done|]. destruct (Hoth' KPman) as [-> _]; [done..|]. apply Hman. by right.
          * destruct (fr_wf _ _ _ _ _ F2) as (_ & _ & W3). apply W3. eauto.
          * exists m. split; [by exists ndg|]. intros ->. exists ndf. split; [done|]. rewrite Hdf in Hag. destruct (Hag eq_refl) as (j & nd & Hj & Hnd & Ha).
            rewrite En1, Hloc, decide_True in Hj by (done || (right; by left)). injection Hj as <-. rewrite Ei1, Hndf in Hnd. by injection Hnd as <-.
        + split_and!; try done. intros [E|[g' E]]; [done|]. by injection E.
        + intros HC k Hk. destruct (decide (k = KWman)) as [->|Hkm].
          * rewrite Hg. apply Hd1, Hcr, Hc1, Hcl, HC.
          * destruct (Hoth' k Hkm) as [-> ->]; [by destruct Hk as [->|[->|[->| ->]]]|]. by apply Hset. }
    eexists. split_and!; [exact Hp'|done|]. intros Ho. specialize (Hok Ho). rewrite decide_False by done. by destruct (names d' !! path KWman id).
Qed.

(** The manifest moves from the work directory into the spool. *)
Lemma pending_move_manifest d id f h p g r d' :
  pending_ok d id f h p KPdat (Some (KWman, g)) -> durableRename (path KWman id) (path KPman id) d = (r, d') ->
  frame id d d' /\ exists km, pending_ok d' id f h p KPdat (Some (km, g)) /\ (r = Ok tt -> km = KPman).
Proof.
  intros [] Hr. apply rename_frame in Hr as (Hf & Hpan & [[Hr Hs]|(i & Hi & Hfree & Hn1 & Hn2 & Hin & Hcl & Hdur & Hndur & Hoth)]); try done.
  { split_and!; try done. exists KWman. split; [by eapply pending_same; [|by constructor]|done]. }
  pose proof po_man0 as (A & B & G & D). assert (i = g) as -> by (rewrite B, decide_True in Hi by (done || by left); congruence).
  split; [done|]. exists KPman. split; [|done]. constructor; try done.
  - apply (fr_wf _ _ _ _ _ Hf).
  - by rewrite Hin.
  - intros k Hk. destruct (Hoth k) as [-> _]; [by destruct Hk as [->|[->| ->]]..|]. by apply po_loc0.
  - unfold manifest_at, manifest_file in *. rewrite Hin. split_and!; [by right|by intros k [->| ->]| |done].
    pose proof (fr_next _ _ _ _ _ Hf). lia.
  - destruct po_prepared0 as (P1 & P2 & P3 & P4). split_and!; try done. intros _. apply P4. by left.
  - intros HC. by apply Hf, po_clean0.
  - intros HC k Hk. destruct (Hdur (Hcl (po_clean0 HC))) as [D1 D2].
    destruct (decide (k = KPman)) as [->|Hk1]; [congruence|]. destruct (decide (k = KWman)) as [->|Hk2]; [congruence|].
    destruct (Hoth k Hk2 Hk1) as [-> ->]. by apply po_settled0.
Qed.

(** The spool has the batch: both files, and the manifest is the expected one. *)
Definition published_ok (d : dir) (id : bytes) (f : nat) (h : bytes) (p : preparedBatch) : Prop :=
  exists g nd, pending_ok d id f h p KPdat (Some (KPman, g)) /\ inodes d !! g = Some nd /\ decodes (i_data nd) (manifest p).

Lemma decodes_kept id d d' g nd : frame id d d' -> wf d -> inodes d !! g = Some nd -> inodes d' !! g = Some nd.
Proof. intros Hf (_ & _ & W3) Hg. rewrite (fr_inodes _ _ _ _ _ Hf); [done|]. apply W3. eauto. Qed.

Lemma manifest_of d id f h p l mg k i :
  pending_ok d id f h p l mg -> manifest_place k -> names d !! path k id = Some i -> mg = Some (k, i).
Proof.
  intros Hp Hk Hi. pose proof (po_man _ _ _ _ _ _ _ Hp) as Hm. destruct mg as [[km g]|]; cbn in Hm; [|by rewrite Hm in Hi].
  destruct Hm as (_ & B & _). rewrite B in Hi by done. destruct (decide (k = km)) as [->|]; congruence.
Qed.
Lemma data_of d id f h p l mg k i :
  pending_ok d id f h p l mg -> data_place k -> names d !! path k id = Some i -> l = k.
Proof. intros Hp Hk. rewrite (po_loc _ _ _ _ _ _ _ Hp) by done. by destruct (decide (k = l)). Qed.

Lemma publishNew_ok d id f h p mg r d' :
  pending_ok d id f h p KWdat mg -> mg <> None -> dataPrepared p = true -> manifestPrepared p = true ->
  (check! verifyExpectedManifestFile (path KWman id) (manifest p) ;;
   check! wrap_err "publish FI batch data: %w" (durableRename (path KWdat id) (path KPdat id)) ;;
   fun d =>
     match durableRename (path KWman id) (path KPman id) d with
     | (Ok _, d) => (Ok (path KPdat id, path KPman id), d)
     | (Err e, d) =>
         match durableRename (path KPdat id) (path KWdat id) d with
         | (Err e', d) => (Err (Join (Wrap "publish FI batch manifest: %w" e) (Wrap "rollback FI batch data publication: %w" e')), d)
         | (_, d) => (Err (Wrap "publish FI batch manifest: %w" e), d)
         end
     | (Panic, d) => (Panic, d)
     end) d = (r, d') ->
  exists l' mg', pending_ok d' id f h p l' mg' /\ mg' <> None /\ frame id d d' /\
    forall x, r = Ok x -> x = (path KPdat id, path KPman id) /\ published_ok d' id f h p.
Proof.
  intros Hp Hmg Hdp Hmp Hr. unfold bind at 1 in Hr. destruct (verifyExpectedManifestFile (path KWman id) (manifest p) d) as [r1 d1] eqn:E1.
  destruct (read_step _ _ _ _ _ _ _ _ _ _ (reads_verifyExpected _ _) E1 Hp) as (Hp1 & F1 & S1).
  destruct r1 as [[]| |]; [|injection Hr as <- <-; by exists KWdat, mg..].
  apply verifyExpected_Ok in E1 as (g & nd & Hg & Hnd & Hdec). apply (manifest_of _ _ _ _ _ _ _ _ _ Hp) in Hg as ->; [|by left].
  unfold bind at 1 in Hr. unfold wrap_err in Hr. destruct (durableRename (path KWdat id) (path KPdat id) d1) as [r2 d2] eqn:E2.
  eapply pending_move_data in E2 as (F2 & Hpan2 & l2 & Hp2 & Hok2 & Hl2); [|done|by right; right|done..].
  pose proof (frame_trans _ _ _ _ _ _ F1 F2) as F12.
  destruct r2 as [[]| |]; [|injection Hr as <- <-; by exists l2, (Some (KWman, g))|done]. rewrite (Hok2 eq_refl) in Hp2. clear Hl2 Hok2 l2.
  destruct (durableRename (path KWman id) (path KPman id) d2) as [r3 d3] eqn:E3.
  eapply pending_move_manifest in E3 as (F3 & km & Hp3 & Hok3); [|done]. pose proof (frame_trans _ _ _ _ _ _ F12 F3) as F13.
  destruct r3 as [[]|e|].
  - injection Hr as <- <-. rewrite (Hok3 eq_refl) in Hp3. exists KPdat, (Some (KPman, g)). split_and!; [done..|].
    intros x [= <-]. split; [done|]. exists g, nd. split_and!; [done| |done]. eapply decodes_kept; [exact F13|apply Hp|done].
  - destruct (durableRename (path KPdat id) (path KWdat id) d3) as [r4 d4] eqn:E4.
    eapply pending_move_data in E4 as (F4 & Hpan4 & l4 & Hp4 & _); [|done|right; by left|done..].
    assert (d4 = d' /\ forall x, r <> Ok x) as [<- Hnr] by (destruct r4 as [[]| |]; injection Hr as <- <-; by split).
    exists l4, (Some (km, g)). split_and!; [done|done|by eapply frame_trans|]. intros x Hx. by destruct (Hnr x).
  - injection Hr as <- <-. by exists KPdat, (Some (km, g)).
Qed.

Lemma publishBody_ok w d id f h p l mg r d' :
  w_workDir w = work -> w_dir w = pub -> pending_ok d id f h p l mg -> dataPrepared p = true -> manifestPrepared p = true ->
  publishBody w p d = (r, d') ->
  exists l' mg', pending_ok d' id f h p l' mg' /\ frame id d d' /\
    forall x, r = Ok x -> x = (path KPdat id, path KPman id) /\ published_ok d' id f h p.
Proof.
  intros Eww Ewd Hp Hdp Hmp Hr. pose proof (po_paths _ _ _ _ _ _ _ Hp) as (_ & Ewdat & Ewman & Epd & Epm).
  unfold publishBody in Hr. rewrite Eww, Ewd, Ewdat, Ewman, Epd, Epm in Hr.
  change (in_dir pub (batch_name KPdat id)) with (path KPdat id) in Hr. change (in_dir pub (batch_name KPman id)) with (path KPman id) in Hr.
  change (in_dir work (batch_name KWman id)) with (path KWman id) in Hr. cbv zeta in Hr.
  unfold bind at 1 in Hr. destruct (recoveryRegularFileExists (path KWdat id) d) as [b1 d1] eqn:E1.
  destruct (read_step _ _ _ _ _ _ _ _ _ _ (reads_exists _) E1 Hp) as (Hp1 & F1 & S1).
  destruct b1 as [b1| |]; [|injection Hr as <- <-; by exists l, mg..]. apply exists_Ok in E1; [|apply Hp].
  unfold bind at 1 in Hr. destruct (recoveryRegularFileExists (path KWman id) d1) as [b2 d2] eqn:E2.
  destruct (read_step _ _ _ _ _ _ _ _ _ _ (reads_exists _) E2 Hp1) as (Hp2 & F2 & S2). pose proof (frame_trans _ _ _ _ _ _ F1 F2) as F12.
  destruct b2 as [b2| |]; [|injection Hr as <- <-; by exists l, mg..]. apply exists_Ok in E2; [|apply Hp1].
  unfold bind at 1 in Hr. destruct (recoveryRegularFileExists (path KPdat id) d2) as [b3 d3] eqn:E3.
  destruct (read_step _ _ _ _ _ _ _ _ _ _ (reads_exists _) E3 Hp2) as (Hp3 & F3 & S3). pose proof (frame_trans _ _ _ _ _ _ F12 F3) as F13.
  destruct b3 as [b3| |]; [|injection Hr as <- <-; by exists l, mg..]. apply exists_Ok in E3; [|apply Hp2].
  unfold bind at 1 in Hr. destruct (recoveryRegularFileExists (path KPman id) d3) as [b4 d4] eqn:E4.
  destruct (read_step _ _ _ _ _ _ _ _ _ _ (reads_exists _) E4 Hp3) as (Hp4 & F4 & S4). pose proof (frame_trans _ _ _ _ _ _ F13 F4) as F14.
  destruct b4 as [b4| |]; [|injection Hr as <- <-; by exists l, mg..]. apply exists_Ok in E4; [|apply Hp3].
  assert ((Err (Errorf "FI prepared publication has inconsistent retry state"), d4) = (r, d') ->
    exists l' mg', pending_ok d' id f h p l' mg' /\ frame id d d' /\
    forall x, r = Ok x -> x = (path KPdat id, path KPman id) /\ published_ok d' id f h p) as Hbad by (intros [= <- <-]; by exists l, mg).
  destruct b1, b2, b3, b4; try (by apply Hbad).
  - destruct E1 as (i & nd & Hi & _). apply (data_of _ _ _ _ _ _ _ _ _ Hp) in Hi as ->; [|right; by left].
    destruct E2 as (j & ndj & Hj & Hndj & _). apply (manifest_of _ _ _ _ _ _ _ _ _ Hp1) in Hj as ->; [|by left].
    apply (publishNew_ok d4 id f h p (Some (KWman, j))) in Hr as (l' & mg' & Hp' & _ & F5 & Hok); try done.
    exists l', mg'. split_and!; [done|by eapply frame_trans|done].
  - destruct E3 as (i & nd & Hi & _). apply (data_of _ _ _ _ _ _ _ _ _ Hp2) in Hi as ->; [|by right; right].
    destruct E2 as (j & ndj & Hj & Hndj & _). apply (manifest_of _ _ _ _ _ _ _ _ _ Hp1) in Hj as ->; [|by left].
    unfold bind at 1 in Hr. destruct (verifyExpectedManifestFile (path KWman id) (manifest p) d4) as [r5 d5] eqn:E5.
    destruct (read_step _ _ _ _ _ _ _ _ _ _ (reads_verifyExpected _ _) E5 Hp4) as (Hp5 & F5 & S5). pose proof (frame_trans _ _ _ _ _ _ F14 F5) as F15.
    destruct r5 as [[]| |]; [|injection Hr as <- <-; by exists KPdat, (Some (KWman, j))..].
    apply verifyExpected_Ok in E5 as (g & ndg & Hg & Hndg & Hdec).
    pose proof (manifest_of _ _ _ _ _ _ _ _ _ Hp4 (or_introl eq_refl) Hg) as [= <-].
    unfold bind at 1, wrap_err at 1 in Hr. destruct (verifyPreparedManifestAgainstData (manifest p) (path KPdat id) d5) as [r6 d6] eqn:E6.
    destruct (read_step _ _ _ _ _ _ _ _ _ _ (reads_verifyData _ _) E6 Hp5) as (Hp6 & F6 & S6). pose proof (frame_trans _ _ _ _ _ _ F15 F6) as F16.
    destruct r6 as [[]| |]; [|injection Hr as <- <-; by exists KPdat, (Some (KWman, j))..].
    unfold bind at 1, wrap_err at 1 in Hr. destruct (durableRename (path KWman id) (path KPman id) d6) as [r7 d7] eqn:E7.
    eapply pending_move_manifest in E7 as (F7 & km & Hp7 & Hok7); [|done]. pose proof (frame_trans _ _ _ _ _ _ F16 F7) as F17.
    destruct r7 as [[]| |]; [|injection Hr as <- <-; by exists KPdat, (Some (km, j))..]. rewrite (Hok7 eq_refl) in Hp7.
    injection Hr as <- <-. exists KPdat, (Some (KPman, j)). split_and!; [done..|]. intros x [= <-]. split; [done|].
    exists j, ndg. split_and!; [done| |done]. assert (inodes d !! j = Some ndg) as Hd0.
    { rewrite <- Hndg. destruct S1 as (_ & _ & I1 & _), S2 as (_ & _ & I2 & _), S3 as (_ & _ & I3 & _), S4 as (_ & _ & I4 & _). congruence. }
    eapply decodes_kept; [exact F17|apply Hp|done].
  - destruct E3 as (i & nd & Hi & _). apply (data_of _ _ _ _ _ _ _ _ _ Hp2) in Hi as ->; [|by right; right].
    destruct E4 as (j & ndj & Hj & Hndj & _). apply (manifest_of _ _ _ _ _ _ _ _ _ Hp3) in Hj as ->; [|by right].
    unfold bind at 1 in Hr. destruct (verifyExpectedManifestFile (path KPman id) (manifest p) d4) as [r5 d5] eqn:E5.
    destruct (read_step _ _ _ _ _ _ _ _ _ _ (reads_verifyExpected _ _) E5 Hp4) as (Hp5 & F5 & S5). pose proof (frame_trans _ _ _ _ _ _ F14 F5) as F15.
    destruct r5 as [[]| |]; [|injection Hr as <- <-; by exists KPdat, (Some (KPman, j))..].
    apply verifyExpected_Ok in E5 as (g & ndg & Hg & Hndg & Hdec).
    pose proof (manifest_of _ _ _ _ _ _ _ _ _ Hp4 (or_intror eq_refl) Hg) as [= <-].
    unfold bind at 1, wrap_err in Hr. destruct (VerifyManifest pub (batch_name KPman id) d5) as [r6 d6] eqn:E6.
    destruct (read_step _ _ _ _ _ _ _ _ _ _ (reads_Verify _ _) E6 Hp5) as (Hp6 & F6 & S6). pose proof (frame_trans _ _ _ _ _ _ F15 F6) as F16.
    destruct r6 as [m'| |]; injection Hr as <- <-; exists KPdat, (Some (KPman, j)); (split_and!; [done..|]); [|done..].
    intros x [= <-]. split; [done|]. exists j, ndg. split_and!; [done| |done].
    destruct S5 as (_ & _ & I5 & _), S6 as (_ & _ & I6 & _). congruence.
Qed.

(** ** Publication with the boundary *)

Lemma publishPrepared_ok w d id f h p l mg r d' :
  w_workDir w = work -> w_dir w = pub -> pending_ok d id f h p l mg -> dataPrepared p = true -> manifestPrepared p = true ->
  publishPreparedBatch w p d = (r, d') ->
  exists l' mg', pending_ok d' id f h p l' mg' /\ frame id d d' /\
    forall x, r = Ok x -> x = (path KPdat id, path KPman id) /\ published_ok d' id f h p.
Proof.
  intros Eww Ewd Hp Hdp Hmp Hr. unfold publishPreparedBatch in Hr. assert (reads (syscall (ret tt))) as Hq by apply reads_Close.
  unfold bind, wrap_err in Hr. destruct (syscall (ret tt) d) as [r1 d1] eqn:E1.
  destruct (read_step _ _ _ _ _ _ _ _ _ _ Hq E1 Hp) as (Hp1 & F1 & S1).
  destruct r1 as [[]| |]; [|injection Hr as <- <-; by exists l, mg..].
  destruct (publishBody w p d1) as [r2 d2] eqn:E2. eapply publishBody_ok in E2 as (l2 & mg2 & Hp2 & F2 & Hok2); [|done..].
  pose proof (frame_trans _ _ _ _ _ _ F1 F2) as F12. destruct (syscall (ret tt) d2) as [r3 d3] eqn:E3.
  destruct (read_step _ _ _ _ _ _ _ _ _ _ Hq E3 Hp2) as (Hp3 & F3 & S3). pose proof (frame_trans _ _ _ _ _ _ F12 F3) as F13.
  assert (d3 = d' /\ forall x, r = Ok x -> r2 = Ok x) as [<- Hrr].
  { destruct r2 as [x| |], r3 as [[]| |]; injection Hr as <- <-; by split. }
  exists l2, mg2. split_and!; [done..|]. intros x Hx%Hrr. destruct (Hok2 x Hx) as [-> (g & nd & Hg & Hnd & Hdec)]. split; [done|].
  exists g, nd. split_and!; [by eapply pending_same| |done]. destruct S3 as (_ & _ & -> & _). done.
Qed.

(** A finalized batch: data and manifest are in the spool and agree. *)
Record entry := Entry { e_id : bytes; e_f : nat; e_g : nat; e_h : bytes }.

Record final_ok (d : dir) (e : entry) (fb : FinalizedBatch) : Prop := {
  fo_id : length (e_id e) = id_length;
  fo_paths : FinalData fb = path KPdat (e_id e) /\ FinalManifest fb = path KPman (e_id e);
  fo_names : names d !! path KPdat (e_id e) = Some (e_f e) /\ names d !! path KPman (e_id e) = Some (e_g e);
  fo_data : exists nd, inodes d !! e_f e = Some nd /\ i_data nd = e_h e /\ i_synced nd = true /\ i_kind nd = Regular;
  fo_manifest : manifest_file d (e_g e) (FinalizedManifest fb);
  fo_agrees : agrees (FinalizedManifest fb) (e_h e);
  fo_durable : C -> durable d !! path KPdat (e_id e) = Some (e_f e) /\ durable d !! path KPman (e_id e) = Some (e_g e)
}.

Lemma published_final d id f h p : published_ok d id f h p ->
  exists g, final_ok d (Entry id f g h) {| FinalData := path KPdat id; FinalManifest := path KPman id; FinalizedManifest := manifest p |} /\
    (g < next_ino d)%nat /\ (f < next_ino d)%nat.
Proof.
  intros (g & ndg & [] & Hndg & Hdec). exists g. destruct po_man0 as (_ & B & Hg & m & (nd2 & Hnd2 & Hs & Hk & Hd2) & Hag).
  assert (nd2 = ndg) as -> by congruence. pose proof (decodes_fun _ _ _ Hd2 Hdec) as ->. specialize (Hag eq_refl).
  destruct po_data0 as (nd & Hnd & Hs' & Hk' & Hh). destruct Hag as (nd' & Hnd' & Ha). assert (nd' = nd) as -> by congruence.
  assert (i_data nd = h) as Ed.
  { destruct Hh as [|Hlt]; [done|]. destruct Ha as (_ & Hb & _), po_manifest0 as [_ Hb']. lia. }
  assert (names d !! path KPdat id = Some f) as N1 by (rewrite po_loc0, decide_True by (done || by right; right); done).
  assert (names d !! path KPman id = Some g) as N2 by (rewrite B, decide_True by (done || by right); done).
  split_and!; [|done|destruct po_wf0 as (_ & _ & W3); apply W3; eauto].
  constructor; cbn [e_id e_f e_g e_h FinalData FinalManifest FinalizedManifest]; try done.
  - exists nd. by split_and!.
  - exists ndg. by split_and!.
  - by rewrite <- Ed.
  - intros HC. rewrite !po_settled0 by (done || (right; by left) || (right; right; by right)). done.
Qed.

Lemma final_frame id d d' e fb : frame id d d' -> wf d -> length id = id_length -> e_id e <> id -> final_ok d e fb -> final_ok d' e fb.
Proof.
  intros Hf Hwf Hl Hid []. assert (forall k, names d' !! path k (e_id e) = names d !! path k (e_id e) /\ durable d' !! path k (e_id e) = durable d !! path k (e_id e)) as Hn.
  { intros k. apply (fr_names _ _ _ _ _ Hf). intros k' E. apply path_inj in E as [_ ?]; done. }
  destruct fo_data0 as (nd & Hnd & Hrest), fo_manifest0 as (ndg & Hndg & Hrestg).
  constructor; try done.
  - destruct (Hn KPdat) as [-> _], (Hn KPman) as [-> _]. done.
  - exists nd. split; [by eapply decodes_kept|done].
  - exists ndg. split; [by eapply decodes_kept|done].
  - destruct (Hn KPdat) as [_ ->], (Hn KPman) as [_ ->]. done.
Qed.

(** ** The invariant of the writer *)

Context {K : Clock} (Hids : forall k id, newBatchID k = Ok id -> length id = id_length)
        (Hinj : forall k k' id, newBatchID k = Ok id -> newBatchID k' = Ok id -> k = k').

(** The batches that earlier writers finalized. *)
Context (old : list (entry * FinalizedBatch)).

Definition unused (d : dir) (id : bytes) : Prop := forall k, names d !! path k id = None /\ durable d !! path k id = None.

(** The current batch is being written. *)
Record opened (d : dir) (w : Writer) (id : bytes) (f : nat) (h : bytes) : Prop := {
  op_file : w_file w = Some f;
  op_pending : w_pending w = None;
  op_hasher : w_hasher w = Some h;
  op_id : w_batchID w = id;
  op_path : w_openPath w = path KOpn id;
  op_bytes : w_dataBytes w = len h;
  op_count : 0 <= w_count w /\ (w_count w = 0 -> h = []);
  op_name : names d !! path KOpn id = Some f;
  op_free k : k <> KOpn -> names d !! path k id = None /\ durable d !! path k id = None;
  op_data : exists nd, inodes d !! f = Some nd /\ i_kind nd = Regular /\ holds nd h
}.

Inductive phase (d : dir) (w : Writer) : option (bytes * nat) -> bytes -> Prop :=
| phase_idle : w_file w = None -> w_pending w = None -> w_hasher w = None -> phase d w None []
| phase_opened id f h : opened d w id f h -> phase d w (Some (id, f)) h
| phase_waiting id f h p l mg : w_file w = None -> w_pending w = Some p -> w_hasher w = Some h ->
    pending_ok d id f h p l mg -> phase d w (Some (id, f)) h.

(** The IDs that were drawn before [t]. *)
Definition drawn (t : nat) (id : bytes) : Prop := exists k, (k < t)%nat /\ newBatchID k = Ok id.

Record inv (s : spool_state) (es : list entry) (cur : option (bytes * nat)) (h : bytes) : Prop := {
  iv_wf : wf (disk s);
  iv_dirs : w_dir (writer s) = pub /\ w_workDir (writer s) = work;
  iv_clean : C -> clean (disk s);
  iv_final : Forall2 (final_ok (disk s)) es (old.*2 ++ w_finalized (writer s));
  iv_prefix : exists new, es = old.*1 ++ new;
  iv_drawn : Forall (fun e => drawn (tick s) (e_id e)) es;
  iv_phase : phase (disk s) (writer s) cur h;
  iv_cur id f : cur = Some (id, f) -> drawn (tick s) id /\ Forall (fun e => e_id e <> id /\ e_f e <> f /\ e_g e <> f) es;
  iv_unused k id : (tick s <= k)%nat -> newBatchID k = Ok id -> unused (disk s) id
}.

(** Every record that was accepted so far, in order. *)
Definition accepted (es : list entry) (h : bytes) : bytes := concat (map e_h es) ++ h.

Lemma drawn_length t id : drawn t id -> length id = id_length.
Proof. intros (k & _ & E). by eapply Hids. Qed.
Lemma drawn_mono t t' id : (t <= t')%nat -> drawn t id -> drawn t' id.
Proof. intros Ht (k & Hk & E). exists k. split; [lia|done]. Qed.

(** A disk operation on the current batch [id], which may end it. *)
Lemma inv_frame_to s es id f h d' w' t' cur' h' :
  inv s es (Some (id, f)) h -> frame id (disk s) d' -> (tick s <= t')%nat ->
  w_dir w' = pub -> w_workDir w' = work -> w_finalized w' = w_finalized (writer s) ->
  cur' = Some (id, f) \/ cur' = None -> phase d' w' cur' h' -> inv (SS w' d' t') es cur' h'.
Proof.
  intros [] Hf Ht Hd Hw Hfin Hcur Hph. destruct (iv_cur0 id f eq_refl) as [Hdr Hother]. pose proof (drawn_length _ _ Hdr) as Hl.
  constructor; cbn [disk writer tick]; try done.
  - apply (fr_wf _ _ _ _ _ Hf).
  - intros HC. by apply (fr_clean _ _ _ _ _ Hf), iv_clean0.
  - rewrite Hfin. apply Forall2_same_length_lookup. split; [by eapply Forall2_length|]. intros i e fb He Hfb.
    eapply final_frame; [exact Hf|done|done| |by eapply Forall2_lookup_lr]. by apply (Forall_lookup_1 _ _ _ _ Hother He).
  - eapply Forall_impl; [exact iv_drawn0|]. intros e. by apply drawn_mono.
  - intros id' f' E. destruct Hcur as [->| ->]; [|done]. injection E as <- <-. split; [by eapply drawn_mono|done].
  - intros k id' Hk E k'. destruct (fr_names _ _ _ _ _ Hf (path k' id')) as [-> ->]; [|by apply (iv_unused0 k id'); [lia|]].
    intros k2 Ep. apply path_inj in Ep as [_ ->]; try done; [|by eapply Hids]. destruct Hdr as (k3 & Hk3 & E3).
    pose proof (Hinj _ _ _ E E3). lia.
Qed.

Lemma inv_frame s es id f h d' w' t' :
  inv s es (Some (id, f)) h -> frame id (disk s) d' -> (tick s <= t')%nat ->
  w_dir w' = pub -> w_workDir w' = work -> w_finalized w' = w_finalized (writer s) -> phase d' w' (Some (id, f)) h ->
  inv (SS w' d' t') es (Some (id, f)) h.
Proof. intros. eapply inv_frame_to; eauto. Qed.

Lemma pending_frame d id f h p l mg : pending_ok d id f h p l mg -> (f < next_ino d)%nat.
Proof. intros []. destruct po_data0 as (nd & Hnd & _). destruct po_wf0 as (_ & _ & W3). apply W3. eauto. Qed.

(** Finishing a pending batch. *)
Lemma finishPending_ok s es id f h p l mg r s' :
  inv s es (Some (id, f)) h -> w_file (writer s) = None -> w_pending (writer s) = Some p -> w_hasher (writer s) = Some h ->
  pending_ok (disk s) id f h p l mg -> finishPendingBatch s = (r, s') ->
  exists es' cur' h', inv s' es' cur' h' /\ accepted es' h' = accepted es h /\ tick s' = tick s /\
    (r = Ok tt -> cur' = None /\ h' = []) /\ (forall e, e ∈ es -> e ∈ es').
Proof.
  intros Hi Hfile Hpend Hhash Hp Hr. destruct s as [w d t]. cbn [disk writer] in *. pose proof (iv_dirs _ _ _ _ Hi) as [Ed Ew]. cbn in Ed, Ew.
  assert (forall p' l' mg' d' (rr : res unit), pending_ok d' id f h p' l' mg' -> frame id d d' -> rr <> Ok tt ->
    (rr, SS (set_pending (Some p') w) d' t) = (r, s') ->
    exists es' cur' h', inv s' es' cur' h' /\ accepted es' h' = accepted es h /\ tick s' = t /\ (r = Ok tt -> cur' = None /\ h' = []) /\ (forall e, e ∈ es -> e ∈ es')) as Hstop.
  { intros p' l' mg' d' rr Hp' Hf Hne' [= <- <-]. exists es, (Some (id, f)), h. split_and!; try done.
    eapply (inv_frame (SS w d t)); try done. by eapply phase_waiting. }
  assert (set_pending (Some p) w = w) as Hsame by (unfold set_pending; rewrite <- Hpend; by destruct w).
  unfold finishPendingBatch in Hr. unfold bind at 1 in Hr. cbn [get writer] in Hr. rewrite Hpend, Hfile in Hr.
  unfold bind at 1 in Hr.
  destruct ((if dataPrepared p then ret p else
      check! on_disk (prepareData p) ;; let p := with_dataPrepared p in check! modify (set_pending (Some p)) ;; ret p) (SS w d t))
    as [r1 s1] eqn:E1.
  assert (exists p1 l1 d1, s1 = SS (set_pending (Some p1) w) d1 t /\ pending_ok d1 id f h p1 l1 mg /\ frame id d d1 /\
    (forall x, r1 = Ok x -> x = p1 /\ dataPrepared p1 = true) /\ manifestPrepared p1 = manifestPrepared p) as (p1 & l1 & d1 & -> & Hp1 & F1 & Hok1 & Hmp1).
  { destruct (dataPrepared p) eqn:Edp.
    - injection E1 as <- <-. exists p, l, d. rewrite Hsame. split_and!; try done; [apply frame_refl, Hp|]. intros x [= <-]. done.
    - unfold bind, on_disk in E1. cbn [disk] in E1. destruct (prepareData p d) as [rp dp] eqn:Ep.
      eapply prepareData_ok in Ep as (l1 & Hp1 & F1 & Hok); [|done]. destruct rp as [[]| |]; injection E1 as <- <-.
      2,3: exists p, l1, dp; rewrite Hsame; by split_and!.
      exists (with_dataPrepared p), l1, dp. split_and!; try done; [|by intros x [= <-]].
      eapply pending_flags; [exact Hp1|done..| |cbn; by destruct (po_prepared _ _ _ _ _ _ _ Hp1) as (_ & ? & _)|].
      + intros _. by apply Hok.
      + intros Hx. destruct (po_prepared _ _ _ _ _ _ _ Hp1) as (_ & _ & _ & Hx'). by destruct (Hx' Hx). }
  destruct r1 as [x| |]; [|by eapply (Hstop p1); [..|exact Hr]..]. destruct (Hok1 x eq_refl) as [-> Hdp1]. clear Hok1 E1.
  unfold bind at 1 in Hr.
  destruct ((if manifestPrepared p1 then ret p1 else
      check! on_disk (prepareManifest w p1) ;; let p := with_manifestPrepared p1 in check! modify (set_pending (Some p)) ;; ret p)
      (SS (set_pending (Some p1) w) d1 t)) as [r2 s2] eqn:E2.
  assert (exists p2 mg2 d2, s2 = SS (set_pending (Some p2) w) d2 t /\ pending_ok d2 id f h p2 l1 mg2 /\ frame id d d2 /\
    (forall x, r2 = Ok x -> x = p2 /\ dataPrepared p2 = true /\ manifestPrepared p2 = true)) as (p2 & mg2 & d2 & -> & Hp2 & F2 & Hok2).
  { destruct (manifestPrepared p1) eqn:Emp.
    - injection E2 as <- <-. exists p1, mg, d1. split_and!; try done. intros x [= <-]. done.
    - unfold bind, on_disk in E2. cbn [disk] in E2. destruct (prepareManifest w p1 d1) as [rp dp] eqn:Ep.
      assert (l1 <> KOpn) as Hl1 by (destruct (po_prepared _ _ _ _ _ _ _ Hp1) as (Hx & _); by apply Hx).
      eapply prepareManifest_ok in Ep as (mg2 & Hp2 & F2 & Hok); [|done..]. pose proof (frame_trans _ _ _ _ _ _ F1 F2) as F12.
      destruct rp as [[]| |]; injection E2 as <- <-.
      2,3: exists p1, mg2, dp; by split_and!.
      exists (with_manifestPrepared p1), mg2, dp. split_and!; try done; [|by intros x [= <-]].
      eapply pending_flags; [exact Hp2|reflexivity..| | |]; cbn; [by intros _|intros _; by apply Hok|done]. }
  destruct r2 as [x| |]; [|by eapply (Hstop p2); [..|exact Hr]..]. destruct (Hok2 x eq_refl) as (-> & Hdp2 & Hmp2). clear Hok2 E2.
  unfold bind at 1 in Hr. unfold on_disk at 1 in Hr. cbn [disk writer tick] in Hr.
  destruct (publishPreparedBatch w p2 d2) as [r3 d3] eqn:E3.
  eapply publishPrepared_ok in E3 as (l3 & mg3 & Hp3 & F3 & Hok3); [|done..]. pose proof (frame_trans _ _ _ _ _ _ F2 F3) as F13.
  destruct r3 as [[dataPath manifestPath]| |]; [|by eapply (Hstop p2); [..|exact Hr]..].
  destruct (Hok3 _ eq_refl) as [[= -> ->] Hpub']. apply published_final in Hpub' as (g & Hfin & Hg & Hf).
  injection Hr as <- <-. exists (es ++ [Entry id f g h]), None, []. destruct (iv_cur _ _ _ _ Hi id f eq_refl) as [Hdr Hother].
  pose proof (inv_frame (SS w d t) es id f h d3 (set_pending (Some p2) w) t Hi F13 ltac:(cbn; lia) Ed Ew eq_refl) as Hi3.
  assert (phase d3 (set_pending (Some p2) w) (Some (id, f)) h) as Hph by (by eapply phase_waiting). specialize (Hi3 Hph).
  split_and!; try done.
  - destruct Hi3. constructor; cbn in *; try done.
    + rewrite app_assoc. apply Forall2_app; [done|]. constructor; [done|constructor].
    + destruct iv_prefix0 as [new ->]. eexists. by rewrite <- app_assoc.
    + apply Forall_app. split; [done|]. by constructor.
    + by constructor.
  - unfold accepted. rewrite map_app, concat_app. cbn. by rewrite !app_nil_r.
  - intros e He. rewrite elem_of_app. by left.
Qed.

(** The open batch after such a call. *)
Lemma inv_touched s es id f h w' d' t' h' nd :
  inv s es (Some (id, f)) h -> opened (disk s) (writer s) id f h -> touched f (disk s) d' -> inodes d' !! f = Some nd ->
  (tick s <= t')%nat -> w_dir w' = pub -> w_workDir w' = work -> w_finalized w' = w_finalized (writer s) ->
  phase d' w' (Some (id, f)) h' -> inv (SS w' d' t') es (Some (id, f)) h'.
Proof.
  intros [] Hop T Hnd Ht Hd Hw Hfin Hph. destruct (iv_cur0 id f eq_refl) as [Hdr Hother].
  pose proof T as [En Ed Ek Ho Hc].
  constructor; cbn [disk writer tick]; try done.
  - eapply touched_wf; [done..| |done]. destruct (op_data _ _ _ _ _ Hop) as (x & Hx & _). eauto.
  - auto.
  - rewrite Hfin. apply Forall2_same_length_lookup. split; [by eapply Forall2_length|]. intros i e fb He Hfb.
    destruct (Forall_lookup_1 _ _ _ _ Hother He) as (_ & H1 & H2). pose proof (Forall2_lookup_lr _ _ _ _ _ _ iv_final0 He Hfb) as [].
    constructor; rewrite ?En, ?Ed, ?Ho by done; try done. unfold manifest_file. by rewrite Ho.
  - eapply Forall_impl; [exact iv_drawn0|]. intros e. by apply drawn_mono.
  - intros id' f' [= <- <-]. split; [by eapply drawn_mono|done].
  - intros k id' Hk E k'. rewrite En, Ed. apply (iv_unused0 k id'); [lia|done].
Qed.

Lemma Remove_frame id k d r d' : wf d -> Remove (path k id) d = (r, d') -> frame id d d'.
Proof.
  intros Hwf Hr. unfold Remove in Hr. apply same_syscall in Hr as [(fs & _ & _ & Hs)|(fs & Hr & Hs)]; [by apply frame_same|].
  pose proof (same_wf _ _ Hs Hwf) as (W1 & W2 & W3). destruct Hs as (_ & _ & _ & _ & Hc). cbn in Hr.
  destruct (names d !! path k id) as [j|]; injection Hr as <- <-; [|by apply frame_same; [|by split_and!]].
  constructor; cbn; try done.
  - split_and!; cbn; try done. intros n i [_ Hn]%lookup_delete_Some. eauto.
  - intros n Hn. split; [|done]. apply lookup_delete_ne. by apply not_eq_sym.
Qed.

(** Writer changes that leave disk and counters alone. *)
Lemma finalizeCurrent_ok s es cur h r s' :
  inv s es cur h -> finalizeCurrent s = (r, s') ->
  exists es' cur' h', inv s' es' cur' h' /\ accepted es' h' = accepted es h /\ (tick s <= tick s')%nat /\
    (r = Ok tt -> cur' = None /\ h' = []).
Proof.
  intros Hi Hr. destruct s as [w d t]. unfold finalizeCurrent in Hr. unfold bind at 1 in Hr. cbn [get writer] in Hr.
  pose proof (iv_phase _ _ _ _ Hi) as Hph. cbn [disk writer] in Hph.
  inversion Hph as [Hf0 Hp0 Hh0 E1 E2|id f h0 Hop E1 E2|id f h0 p l mg Hf0 Hp0 Hh0 Hpo E1 E2]; subst.
  - rewrite Hp0, Hf0 in Hr. injection Hr as <- <-. exists es, None, []. by split_and!.
  - pose proof Hop as []. rewrite op_pending0, op_file0 in Hr. destruct op_data0 as (nd & Hnd & Hkind & Hholds).
    pose proof (iv_dirs _ _ _ _ Hi) as [Ed Ew]. cbn in Ed, Ew. destruct (Z.eqb_spec (w_count w) 0) as [Hz|Hz].
    + (* an empty batch is dropped *)
      assert (h = []) as -> by (by apply op_count0). rewrite op_path0 in Hr.
      unfold closeFile, on_disk, modify in Hr. cbn [disk writer tick] in Hr. pose proof (reads_Close d) as Hs. destruct (GoFS.Close d) as [rc d1].
      cbn [disk writer tick] in Hr. cbn [snd] in Hs. pose proof (iv_wf _ _ _ _ Hi) as Hwf. cbn in Hwf.
      pose proof (same_wf _ _ Hs Hwf) as Hwf1. destruct (Remove (path KOpn id) d1) as [rr d2] eqn:Er.
      assert (frame id d d2) as Hf.
      { eapply frame_trans; [apply frame_same; [exact Hwf|exact Hs]|]. by eapply Remove_frame. }
      assert (s' = SS (resetCurrent (no_file w)) d2 t) as -> by (destruct rc as [[]| |], rr as [[]| |]; by injection Hr).
      exists es, None, []. split_and!; try done. eapply (inv_frame_to (SS w d t)); try done; [by right|].
      by apply phase_idle.
    + rewrite op_hasher0 in Hr. unfold bind at 1 in Hr. unfold on_disk at 1 in Hr. cbn [disk] in Hr.
      destruct (Sync f d) as [r1 d1] eqn:E1. eapply Sync_touched in E1 as (T1 & nd1 & Hnd1 & Hk1 & Hd1 & Hs1); [|done].
      assert (holds nd1 h) as Hh1 by (unfold holds; by rewrite Hd1).
      assert (opened d1 w id f h) as Hop1.
      { destruct T1. constructor; try done; [by rewrite to_names|intros k Hk; rewrite to_names, to_durable; by apply op_free0|].
        exists nd1. split_and!; [done|congruence|done]. }
      destruct r1 as [[]|e|].
      2,3: injection Hr as <- <-; exists es, (Some (id, f)), h; split_and!; try done;
        eapply (inv_touched (SS w d t)); try done; by constructor.
      specialize (Hs1 eq_refl). unfold bind at 1 in Hr. cbn [now writer disk tick] in Hr. unfold bind at 1 in Hr. cbn [modify writer disk tick] in Hr.
      match type of Hr with context [set_pending (Some ?q)] => set (p := q) in Hr end.
      assert (inv (SS w d1 (S t)) es (Some (id, f)) h) as Hi1.
      { eapply (inv_touched (SS w d t)); try done; [cbn; lia|by constructor]. }
      assert (pending_ok d1 id f h p KOpn None) as Hpo.
      { destruct Hop1. constructor; try done.
        - apply Hi1.
        - destruct (iv_cur _ _ _ _ Hi1 id f eq_refl) as [Hdr _]. by eapply drawn_length.
        - unfold p. cbn [openPath workDataPath workManifestName dataName manifestName]. by rewrite Ew, op_id0.
        - unfold p. cbn [manifest DataFile DataBytes]. by rewrite op_id0.
        - exists nd1. split_and!; try done. congruence.
        - by left.
        - intros k Hk. destruct (decide (k = KOpn)) as [->|Hko]; [done|]. by apply op_free1.
        - intros k Hk. apply op_free1. by destruct Hk as [->| ->].
        - split_and!; try done. intros [E|[g E]]; discriminate E.
        - apply Hi1.
        - intros HC k Hk. destruct (op_free1 k) as [-> ->]; [by destruct Hk as [->|[->|[->| ->]]]|done]. }
      unfold bind at 1, wrap_err in Hr. unfold closeFile, on_disk, modify in Hr. cbn [disk writer tick] in Hr.
      pose proof (reads_Close d1) as Hsc. destruct (GoFS.Close d1) as [rc d2]. cbn [snd] in Hsc. cbn [disk writer tick] in Hr.
      assert (pending_ok d2 id f h p KOpn None) as Hpo2 by (by eapply pending_same).
      assert (frame id d1 d2) as Hf2 by (apply frame_same; [apply Hi1|done]).
      set (w2 := no_file (set_pending (Some p) w)) in Hr.
      assert (inv (SS w2 d2 (S t)) es (Some (id, f)) h) as Hi2.
      { eapply (inv_frame (SS w d1 (S t))); try done. by eapply phase_waiting. }
      destruct rc as [[]| |].
      2,3: injection Hr as <- <-; exists es, (Some (id, f)), h; split_and!; try done; cbn; lia.
      eapply finishPending_ok in Hr as (es' & cur' & h' & Hi' & Hacc & Htick & Hok & _); [|exact Hi2|done..].
      exists es', cur', h'. split_and!; try done. cbn in *. lia.
  - rewrite Hp0 in Hr. eapply finishPending_ok in Hr as (es' & cur' & h' & Hi' & Hacc & Htick & Hok & _); [|done..].
    exists es', cur', h'. split_and!; [done|done| |done]. cbn in *. lia.
Qed.

Lemma openBatch_ok s es r s' :
  inv s es None [] -> openBatch s = (r, s') ->
  exists cur', inv s' es cur' [] /\ (tick s <= tick s')%nat /\
    (r = Ok tt -> exists id f, cur' = Some (id, f) /\ opened (disk s') (writer s') id f []).
Proof.
  intros Hi Hr. destruct s as [w d t]. pose proof Hi as []. cbn [disk writer tick] in *. destruct iv_dirs0 as [Ed Ew].
  unfold openBatch in Hr. unfold bind at 1 in Hr. cbn [freshBatchID writer disk tick] in Hr.
  assert (forall d2 t2, wf d2 -> same d d2 -> (t <= t2)%nat -> inv (SS w d2 t2) es None []) as Hkeep.
  { intros d2 t2 Hwf2 (En & Ed2 & Ei & Ek & Hc) Ht. constructor; cbn [disk writer tick]; try done.
    - auto.
    - eapply Forall2_impl; [exact iv_final0|]. intros e fb []. constructor; rewrite ?En, ?Ed2, ?Ei; try done.
      unfold manifest_file. by rewrite Ei.
    - eapply Forall_impl; [exact iv_drawn0|]. intros e. by apply drawn_mono.
    - inversion iv_phase0. by constructor.
    - intros k id Hk E k'. rewrite En, Ed2. apply (iv_unused0 k id); [lia|done]. }
  destruct (newBatchID t) as [id|e|] eqn:Eid.
  2,3: injection Hr as <- <-; exists None; split_and!; try done; [apply Hkeep; [done|reflexivity|lia]|cbn; lia].
  unfold bind at 1 in Hr. cbn [get writer] in Hr. unfold bind at 1 in Hr. unfold on_disk in Hr. cbn [disk writer tick] in Hr. rewrite Ew in Hr.
  change (in_dir work (bs "batch-" ++ id ++ bs ".open")) with (path KOpn id) in Hr.
  destruct (CreateExclusive (path KOpn id) 384 d) as [rc d1] eqn:Ec.
  pose proof (tidy_Create (path KOpn id) 384 d) as Ht1. rewrite Ec in Ht1. cbn [snd] in Ht1. unfold tidy in Ht1.
  apply Create_writing in Ec as [(fs & -> & Hno)|(-> & _ & Hw & Hnd)].
  { assert (exists rr : res unit, r = rr /\ rr <> Ok tt /\ s' = SS w (set_faults fs d) (S t)) as (rr & -> & Hnr & ->).
    { destruct rc as [i|e|]; [by destruct (Hno i)|..]; injection Hr as <- <-; eexists; by split_and!. }
    exists None. split_and!; try done; [apply Hkeep; [done|by split_and!|lia]|cbn; lia]. }
  injection Hr as <- <-. pose proof (Hids _ _ Eid) as Hl. pose proof (writing_frame id KOpn d d1 iv_wf0 Hw Ht1) as Hf.
  exists (Some (id, next_ino d)). pose proof (iv_unused0 t id ltac:(lia) Eid) as Hun.
  assert (opened d1 (set_current (Some (next_ino d)) (path KOpn id) id (canonicalNow (S t)) 0 0 (Some []) w) id (next_ino d) []) as Hop.
  { destruct Hw. constructor; cbn [set_current w_file w_pending w_hasher w_batchID w_openPath w_dataBytes w_count]; try done.
    - by inversion iv_phase0.
    - intros k Hk. rewrite wr_names, wr_durable by (by apply path_ne). apply Hun.
    - eexists. split_and!; [exact Hnd|done|by left]. }
  assert (forall e, e ∈ es -> e_id e <> id) as Hid.
  { intros e He E. rewrite Forall_forall in iv_drawn0. destruct (iv_drawn0 e He) as (k & Hk & Ek). rewrite E in Ek.
    pose proof (Hinj _ _ _ Ek Eid). lia. }
  split_and!; [|cbn; lia|intros _; by exists id, (next_ino d)]. constructor; cbn [disk writer tick]; try done.
  - apply (fr_wf _ _ _ _ _ Hf).
  - auto.
  - apply Forall2_same_length_lookup. split; [by eapply Forall2_length|]. intros i e fb He Hfb.
    eapply final_frame; [exact Hf|done|done| |by eapply Forall2_lookup_lr]. apply Hid. by eapply list_elem_of_lookup_2.
  - eapply Forall_impl; [exact iv_drawn0|]. intros e. apply drawn_mono. lia.
  - by constructor.
  - intros id' f' [= <- <-]. split; [exists t; split; [lia|done]|]. apply Forall_forall. intros e He. split_and!; [by apply Hid|..].
    all: apply list_elem_of_lookup in He as [i He]; destruct (Forall2_lookup_l _ _ _ _ _ iv_final0 He) as (fb & _ & []);
      destruct iv_wf0 as (W1 & _ & W3).
    + destruct fo_data0 as (nd & Hnde & _). intros E. specialize (W3 (e_f e) ltac:(eauto)). lia.
    + destruct fo_manifest0 as (nd & Hnde & _). intros E. specialize (W3 (e_g e) ltac:(eauto)). lia.
  - intros k id' Hk E k'. destruct (fr_names _ _ _ _ _ Hf (path k' id')) as [-> ->]; [|apply (iv_unused0 k id'); [lia|done]].
    intros k2 Ep. apply path_inj in Ep as [_ ->]; try done; [|by eapply Hids]. pose proof (Hinj _ _ _ E Eid). lia.
Qed.

Context `{JSON SpoolRecord}.

(** What a call added to the accepted bytes: nothing, or the line of the record. *)
Definition appended (recordKind scopeID : bytes) (payload : res bytes) (x : bytes) : Prop :=
  exists writtenAt raw line, payload = Ok raw /\
    json_Marshal {| SRVersion := RecordVersion; RecordKind := recordKind; ScopeID := scopeID; WrittenAt := writtenAt; Payload := raw |} = Ok line /\
    x = line ++ [newline].

(** The part of [Append] after the record is encoded and a batch is open. *)
Definition appendEncoded (encoded : bytes) : prog spool_state unit :=
  let! w := get in
  match w_file w, w_hasher w with
  | Some file, Some hashed =>
      check! on_disk (FileWrite file encoded) ;;
      let w := set_current (Some file) (w_openPath w) (w_batchID w) (w_createdAt w) (w_count w + 1)
                 (w_dataBytes w + len encoded) (Some (hashed ++ encoded)) w in
      check! put w ;;
      if (w_batchSize w <=? w_count w) || (w_targetBatchBytes w <=? w_dataBytes w) then finalizeCurrent else ret tt
  | _, _ => lift Panic
  end.

Lemma holds_app nd nd' h q : holds nd h -> i_data nd' = i_data nd ++ q -> holds nd' (h ++ q).
Proof. unfold holds. intros [<-|Hl] ->; [by left|right]. rewrite !len_app. lia. Qed.
Lemma holds_more nd nd' h q : holds nd h -> i_data nd' = i_data nd ++ q -> holds nd' h.
Proof.
  unfold holds. intros Hh ->. rewrite len_app. pose proof (len_nonneg q). destruct Hh as [<-|Hl]; [|right; lia].
  destruct q as [|b q]; [left; by rewrite app_nil_r|right]. rewrite len_cons. pose proof (len_nonneg q). lia.
Qed.

Lemma appendEncoded_ok s es id f h encoded r s' :
  inv s es (Some (id, f)) h -> opened (disk s) (writer s) id f h -> appendEncoded encoded s = (r, s') ->
  exists es' cur' h', inv s' es' cur' h' /\
    (accepted es' h' = accepted es h ++ encoded \/ (accepted es' h' = accepted es h /\ r <> Ok tt)).
Proof.
  intros Hi Hop Hr. destruct s as [w d t]. cbn [disk writer tick] in *. pose proof Hop as []. pose proof (iv_dirs _ _ _ _ Hi) as [Ed Ew]. cbn in Ed, Ew.
  unfold appendEncoded in Hr. unfold bind at 1 in Hr. cbn [get writer] in Hr. rewrite op_file0, op_hasher0 in Hr.
  destruct op_data0 as (nd & Hnd & Hk & Hh). unfold bind at 1 in Hr. unfold on_disk in Hr. cbn [disk writer tick] in Hr.
  destruct (FileWrite f encoded d) as [r1 d1] eqn:E1. eapply FileWrite_touched in E1 as (T1 & nd1 & q & Hnd1 & Hk1 & Hd1 & Hq); [|done].
  assert (forall w', w_dir w' = pub -> w_workDir w' = work -> w_finalized w' = w_finalized w -> forall h', opened d1 w' id f h' ->
    inv (SS w' d1 t) es (Some (id, f)) h') as Hinv.
  { intros w' ? ? ? h' Hop'. eapply (inv_touched (SS w d t)); try done. by constructor. }
  destruct r1 as [[]| |].
  2,3: injection Hr as <- <-; exists es, (Some (id, f)), h; split; [|by right]; apply Hinv; try done; destruct T1; constructor; try done;
    [by rewrite to_names|intros k Hk'; rewrite to_names, to_durable; by apply op_free0|];
    exists nd1; split_and!; [done|congruence|by eapply holds_more].
  rewrite (Hq eq_refl) in Hd1. unfold bind at 1 in Hr. cbn [put disk tick] in Hr.
  set (w2 := set_current _ _ _ _ _ _ _ _) in Hr.
  assert (inv (SS w2 d1 t) es (Some (id, f)) (h ++ encoded)) as Hi2.
  { apply Hinv; try done. destruct T1. constructor; unfold w2; cbn [set_current w_file w_pending w_hasher w_batchID w_openPath w_dataBytes w_count]; try done.
    - rewrite len_app. lia.
    - split; lia.
    - by rewrite to_names.
    - intros k Hk'. rewrite to_names, to_durable. by apply op_free0.
    - exists nd1. split_and!; [done|congruence|by eapply holds_app]. }
  assert (accepted es (h ++ encoded) = accepted es h ++ encoded) as Hacc by (unfold accepted; by rewrite app_assoc).
  destruct (_ || _) in Hr.
  - eapply finalizeCurrent_ok in Hr as (es' & cur' & h' & Hi' & Ha' & _ & _); [|done]. exists es', cur', h'. split; [done|left]. congruence.
  - injection Hr as <- <-. exists es, (Some (id, f)), (h ++ encoded). split; [done|by left].
Qed.

Lemma inv_tick w d t t' es cur h : inv (SS w d t) es cur h -> (t <= t')%nat -> inv (SS w d t') es cur h.
Proof.
  intros [] Ht. constructor; cbn [disk writer tick] in *; try done.
  - eapply Forall_impl; [exact iv_drawn0|]. intros e. by apply drawn_mono.
  - intros id f E. destruct (iv_cur0 id f E). split; [by eapply drawn_mono|done].
  - intros k id Hk. apply iv_unused0. lia.
Qed.

(** [Append] once the record is encoded: a batch is made ready, then the line is written. *)
Definition appendReady (w : Writer) (encodedBytes : Z) : prog spool_state unit :=
  check! (if w_file w is Some _ then ret tt else openBatch) ;;
  let! w := get in
  if (0 <? w_count w) && (i64 (w_targetBatchBytes w - encodedBytes) <? w_dataBytes w)
  then check! finalizeCurrent ;; openBatch else ret tt.

(** Before a record is written a batch is open; the batch before it may have been finalized. *)
Lemma readyBatch_ok (w : Writer) s es cur h encodedBytes r s' :
  inv s es cur h -> w_pending (writer s) = None -> writer s = w ->
  appendReady w encodedBytes s = (r, s') ->
  exists es' cur' h', inv s' es' cur' h' /\ accepted es' h' = accepted es h /\
    (r = Ok tt -> exists id f, cur' = Some (id, f) /\ opened (disk s') (writer s') id f h').
Proof.
  intros Hi Hpend <- Hr. unfold appendReady, bind at 1 in Hr.
  destruct ((if w_file (writer s) is Some _ then ret tt else openBatch) s) as [r1 s1] eqn:E1.
  assert (exists cur1 h1, inv s1 es cur1 h1 /\ accepted es h1 = accepted es h /\
    (r1 = Ok tt -> exists id f, cur1 = Some (id, f) /\ opened (disk s1) (writer s1) id f h1)) as (cur1 & h1 & Hi1 & Ha1 & Hok1).
  { pose proof (iv_phase _ _ _ _ Hi) as Hph.
    inversion Hph as [Hf0 Hp0 Hh0 Ec Eh|id f h0 Hop Ec Eh|id f h0 p l mg Hf0 Hp0 Hh0 Hpo Ec Eh]; subst; [|rewrite (op_file _ _ _ _ _ Hop) in E1|congruence].
    - rewrite Hf0 in E1. eapply openBatch_ok in E1 as (cur1 & Hi1 & _ & Hok); [|done]. by exists cur1, [].
    - injection E1 as <- <-. exists (Some (id, f)), h. split_and!; try done. intros _. by exists id, f. }
  destruct r1 as [[]| |]; [|injection Hr as <- <-; by exists es, cur1, h1..].
  destruct (Hok1 eq_refl) as (id & f & -> & Hop). unfold bind at 1 in Hr. cbn [get] in Hr. destruct (_ && _) in Hr.
  - unfold bind at 1 in Hr. destruct (finalizeCurrent s1) as [r2 s2] eqn:E2.
    eapply finalizeCurrent_ok in E2 as (es2 & cur2 & h2 & Hi2 & Ha2 & _ & Hok2); [|done].
    destruct r2 as [[]| |]; [|injection Hr as <- <-; exists es2, cur2, h2; split_and!; [done|congruence|done]..].
    destruct (Hok2 eq_refl) as [-> ->]. eapply openBatch_ok in Hr as (cur3 & Hi3 & _ & Hok3); [|done].
    exists es2, cur3, []. split_and!; [done|congruence|done].
  - injection Hr as <- <-. by exists es, (Some (id, f)), h1.
Qed.

Lemma ready_then_append w encoded s :
  (check! (if w_file w is Some _ then ret tt else openBatch) ;;
   let! w := get in
   check! (if (0 <? w_count w) && (i64 (w_targetBatchBytes w - len encoded) <? w_dataBytes w)
           then check! finalizeCurrent ;; openBatch else ret tt) ;;
   appendEncoded encoded) s = (check! appendReady w (len encoded) ;; appendEncoded encoded) s.
Proof. unfold appendReady, bind, get. destruct (w_file w); [done|]. by destruct (openBatch s) as [[[]|e|] s1]. Qed.

Lemma Append_ok recordKind scopeID payload s es cur h r s' :
  inv s es cur h -> Append recordKind scopeID payload s = (r, s') ->
  exists es' cur' h' x, inv s' es' cur' h' /\ accepted es' h' = accepted es h ++ x /\
    (appended recordKind scopeID payload x \/ (x = [] /\ r <> Ok tt)).
Proof.
  intros Hi Hr. assert (forall (rr : res unit) t', (tick s <= t')%nat -> rr <> Ok tt -> (rr, SS (writer s) (disk s) t') = (r, s') ->
    exists es' cur' h' x, inv s' es' cur' h' /\ accepted es' h' = accepted es h ++ x /\
    (appended recordKind scopeID payload x \/ (x = [] /\ r <> Ok tt))) as Hstop.
  { intros rr t' Ht Hne' [= <- <-]. exists es, cur, h, []. rewrite app_nil_r. split_and!; [|done|by right].
    destruct s. by eapply inv_tick. }
  assert (s = SS (writer s) (disk s) (tick s)) as Es by (by destruct s).
  unfold Append in Hr. unfold bind at 1 in Hr. cbn [get] in Hr.
  destruct (w_closed (writer s)); [eapply (Hstop _ (tick s)); [lia| |rewrite <- Es; exact Hr]; done|].
  destruct (w_pending (writer s)) as [p|] eqn:Ep; [eapply (Hstop _ (tick s)); [lia| |rewrite <- Es; exact Hr]; done|].
  destruct (_ || _) in Hr; [eapply (Hstop _ (tick s)); [lia| |rewrite <- Es; exact Hr]; done|].
  unfold bind at 1 in Hr. cbn [lift] in Hr. destruct payload as [raw|e|]; [|eapply (Hstop _ (tick s)); [lia| |rewrite <- Es; exact Hr]; done..].
  unfold bind at 1 in Hr. cbn [now] in Hr. unfold bind at 1 in Hr. cbn [lift] in Hr.
  destruct (json_Marshal _) as [line|e|] eqn:Ej; [|eapply (Hstop _ (S (tick s))); [lia| |exact Hr]; done..].
  destruct (w_maxBatchBytes (writer s) <? _); [eapply (Hstop _ (S (tick s))); [lia| |exact Hr]; done|].
  assert (inv (SS (writer s) (disk s) (S (tick s))) es cur h) as Hi1 by (destruct s; eapply inv_tick; [exact Hi|cbn; lia]).
  set (s1 := SS (writer s) (disk s) (S (tick s))) in *. set (encoded := line ++ [newline]) in *.
  change ((check! (if w_file (writer s) is Some _ then ret tt else openBatch) ;;
   let! w := get in
   check! (if (0 <? w_count w) && (i64 (w_targetBatchBytes w - len encoded) <? w_dataBytes w)
           then check! finalizeCurrent ;; openBatch else ret tt) ;;
   appendEncoded encoded) s1 = (r, s')) in Hr.
  rewrite ready_then_append in Hr. unfold bind at 1 in Hr. destruct (appendReady _ _ s1) as [r2 s2] eqn:E2.
  eapply readyBatch_ok in E2 as (es2 & cur2 & h2 & Hi2 & Ha2 & Hok2); [|exact Hi1|done|done].
  destruct r2 as [[]| |]; [|injection Hr as <- <-; exists es2, cur2, h2, []; rewrite app_nil_r; split_and!; [done..|by right]..].
  destruct (Hok2 eq_refl) as (id & f & -> & Hop).
  eapply appendEncoded_ok in Hr as (es' & cur' & h' & Hi' & [Ha'|[Ha' Hr]]); [..|done|done].
  - exists es', cur', h', encoded. split_and!; [done|by rewrite Ha', Ha2|left]. by exists (canonicalNow (tick s)), raw, line.
  - exists es', cur', h', []. rewrite app_nil_r. split_and!; [done|congruence|by right].
Qed.


(** ** Sequences of calls *)

Inductive call := DoAppend (recordKind scopeID : bytes) (payload : res bytes) | DoClose.

Definition perform (c : call) : prog spool_state unit :=
  match c with DoAppend recordKind scopeID payload => Append recordKind scopeID payload | DoClose => Close end.

Fixpoint perform_all (cs : list call) (s : spool_state) : list (res unit) * spool_state :=
  match cs with
  | [] => ([], s)
  | c :: cs => let '(r, s) := perform c s in let '(rs, s) := perform_all cs s in (r :: rs, s)
  end.

(** What a call adds to the accepted bytes: a record that was appended successfully is one
    line; an append that failed is one line (it was the finalization after it that failed)
    or nothing; a close adds nothing. *)
Definition adds (c : call) (r : res unit) (x : bytes) : Prop :=
  match c with
  | DoAppend recordKind scopeID payload => appended recordKind scopeID payload x \/ (x = [] /\ r <> Ok tt)
  | DoClose => x = []
  end.

(** Only [Close] closes the writer. *)
Definition same_closed (s s' : spool_state) : Prop := w_closed (writer s') = w_closed (writer s).

#[local] Instance same_closed_PreOrder : PreOrder same_closed.
Proof. split; [done|]. intros s1 s2 s3. unfold same_closed. congruence. Qed.

Lemma closed_on_disk {A} (p : prog dir A) : keeps same_closed (on_disk p).
Proof. intros s. unfold on_disk. by destruct (p (disk s)). Qed.
Lemma closed_modify f : (forall w, w_closed (f w) = w_closed w) -> keeps same_closed (modify f).
Proof. intros Hf s. apply Hf. Qed.
Lemma closed_get : keeps same_closed get.
Proof. done. Qed.
Lemma closed_now : keeps same_closed now.
Proof. done. Qed.
Lemma closed_fresh : keeps same_closed freshBatchID.
Proof. done. Qed.
Lemma closed_closeFile : keeps same_closed closeFile.
Proof.
  intros s. unfold closeFile. pose proof (closed_on_disk GoFS.Close s) as Hc. destruct (on_disk GoFS.Close s) as [r s1]. exact Hc.
Qed.
#[local] Hint Resolve closed_on_disk closed_get closed_now closed_fresh closed_closeFile : keeps.
#[local] Ltac closing := repeat first [ keeps1 | apply closed_modify; done ].

Lemma closed_finishPending : keeps same_closed finishPendingBatch.
Proof. unfold finishPendingBatch. closing. Qed.
Lemma closed_openBatch : keeps same_closed openBatch.
Proof. unfold openBatch. closing. Qed.
#[local] Hint Resolve closed_finishPending closed_openBatch : keeps.
Lemma closed_finalize : keeps same_closed finalizeCurrent.
Proof.
  unfold finalizeCurrent. closing. intros s. pose proof (closed_closeFile s) as Hc. destruct (closeFile s) as [r1 s1].
  cbn [modify]. set (s2 := SS _ _ _). pose proof (closed_on_disk (Remove (w_openPath a)) s2) as Hd.
  destruct (on_disk _ s2) as [r2 s3]. cbn [snd] in *. unfold same_closed in *. by rewrite Hd, <- Hc.
Qed.
#[local] Hint Resolve closed_finalize : keeps.

Lemma closed_appendEncoded encoded : keeps same_closed (appendEncoded encoded).
Proof.
  intros s. unfold appendEncoded, bind at 1. cbn [get]. destruct (w_file (writer s)) as [file|]; [|done].
  destruct (w_hasher (writer s)) as [hashed|]; [|done]. unfold bind at 1.
  pose proof (closed_on_disk (FileWrite file encoded) s) as Hd. destruct (on_disk _ s) as [[[]| |] s1]; try exact Hd.
  unfold bind at 1. cbn [put]. set (s2 := SS _ _ _). transitivity s2; [done|]. destruct (_ || _); [apply closed_finalize|done].
Qed.

Lemma closed_Append recordKind scopeID payload : keeps same_closed (Append recordKind scopeID payload).
Proof.
  unfold Append. apply keeps_bind; [apply _|apply closed_get|intros w].
  do 3 (apply keeps_if; [closing|]). do 2 (apply keeps_bind; [apply _|closing|intros ?]).
  apply keeps_bind; [apply _|closing|intros line]. apply keeps_if; [closing|].
  do 3 (apply keeps_bind; [apply _|closing|intros ?]). apply (closed_appendEncoded (line ++ [newline])).
Qed.

(** What holds after every sequence of calls. *)
Definition steady (s : spool_state) (es : list entry) (cur : option (bytes * nat)) (h : bytes) : Prop :=
  inv s es cur h /\ (w_closed (writer s) = true -> h = []).

Lemma perform_ok c s es cur h r s' : steady s es cur h -> perform c s = (r, s') ->
  exists es' cur' h' x, steady s' es' cur' h' /\ accepted es' h' = accepted es h ++ x /\ adds c r x.
Proof.
  intros [Hi Hc] Hr. destruct c as [recordKind scopeID payload|]; cbn [perform adds] in *.
  - pose proof (closed_Append recordKind scopeID payload s) as Hk. rewrite Hr in Hk. cbn [snd] in Hk.
    destruct (w_closed (writer s)) eqn:Ec.
    + unfold Append, bind at 1 in Hr. cbn [get] in Hr. rewrite Ec in Hr. injection Hr as <- <-.
      exists es, cur, h, []. rewrite app_nil_r. split_and!; [split; auto|done|by right].
    + eapply Append_ok in Hr as (es' & cur' & h' & x & Hi' & Ha & Hx); [|done]. exists es', cur', h', x.
      split_and!; try done. split; [done|]. unfold same_closed in Hk. rewrite Hk. congruence.
  - unfold Close, bind at 1 in Hr. cbn [get] in Hr. destruct (w_closed (writer s)) eqn:Ec.
    { injection Hr as <- <-. exists es, cur, h, []. rewrite app_nil_r. split_and!; [split; auto|done..]. }
    unfold bind at 1 in Hr. destruct (finalizeCurrent s) as [r1 s1] eqn:E1.
    pose proof (closed_finalize s) as Hk. rewrite E1 in Hk. cbn [snd] in Hk. unfold same_closed in Hk.
    eapply finalizeCurrent_ok in E1 as (es' & cur' & h' & Hi' & Ha & _ & Hok); [|done].
    exists es', cur', h', []. rewrite app_nil_r.
    destruct r1 as [[]| |]; injection Hr as <- <-; split_and!; try done; [|by split; [|rewrite Hk, Ec]..].
    split; [|by destruct (Hok eq_refl)]. destruct (Hok eq_refl) as [-> ->]. destruct Hi'. constructor; cbn [disk writer tick]; try done.
    inversion iv_phase0. by constructor.
Qed.

Lemma perform_all_ok cs s es cur h rs s' : steady s es cur h -> perform_all cs s = (rs, s') ->
  exists es' cur' h' (xs : list bytes), steady s' es' cur' h' /\ accepted es' h' = accepted es h ++ concat xs /\
    Forall3 adds cs rs xs.
Proof.
  revert s es cur h rs. induction cs as [|c cs IH]; intros s es cur h rs Hs Hr; cbn [perform_all] in Hr.
  { injection Hr as <- <-. exists es, cur, h, []. rewrite app_nil_r. split_and!; [done..|constructor]. }
  destruct (perform c s) as [r1 s1] eqn:E1. destruct (perform_all cs s1) as [rs2 s2] eqn:E2. injection Hr as <- <-.
  eapply perform_ok in E1 as (es1 & cur1 & h1 & x & Hs1 & Ha1 & Hx); [|done].
  eapply IH in E2 as (es' & cur' & h' & xs & Hs' & Ha' & Hxs); [|done].
  exists es', cur', h', (x :: xs). cbn [concat]. split_and!; [done|by rewrite Ha', Ha1, app_assoc|by constructor].
Qed.

End Create.

(** ** The contract of the writer *)

Section Contract.
Context `{Unicode} `{JSON Manifest} `{JSON SpoolRecord} {K : Clock}.

(** A batch of the active spool that holds [data]: its data file was synced, its manifest
    decodes to the one that was reported and states the digest, size and record count of
    exactly this data; when [durably], both names survive a crash. *)
Record in_spool (durably : Prop) (d : dir) (fb : FinalizedBatch) (data : bytes) : Prop := {
  is_data : exists i nd, names d !! FinalData fb = Some i /\ inodes d !! i = Some nd /\ i_kind nd = Regular /\
    i_data nd = data /\ i_synced nd = true /\ (durably -> durable d !! FinalData fb = Some i);
  is_manifest : exists i nd, names d !! FinalManifest fb = Some i /\ inodes d !! i = Some nd /\ i_kind nd = Regular /\
    decodes (i_data nd) (FinalizedManifest fb) /\ i_synced nd = true /\ (durably -> durable d !! FinalManifest fb = Some i);
  is_agrees : agrees (FinalizedManifest fb) data
}.

(** Batch IDs are never repeated, and none of their files exists when the writer starts. *)
Record fresh_ids (pub work : bytes) (d : dir) (t : nat) : Prop := {
  fi_length k id : newBatchID k = Ok id -> length id = id_length;
  fi_inj k k' id : newBatchID k = Ok id -> newBatchID k' = Ok id -> k = k';
  fi_unused k id : (t <= k)%nat -> newBatchID k = Ok id -> unused work pub d id
}.

Lemma final_in_spool work pub (C : Prop) d e fb : final_ok work pub C d e fb -> in_spool C d fb (e_h e).
Proof.
  intros [Hl [E1 E2] [N1 N2] (nd & Hnd & Hd & Hs & Hk) (ndg & Hndg & Hsg & Hkg & Hdec) Ha Hdur]. constructor; [..|done].
  - exists (e_f e), nd. rewrite E1. split_and!; try done. intros HC. by destruct (Hdur HC).
  - exists (e_g e), ndg. rewrite E2. split_and!; try done. intros HC. by destruct (Hdur HC).
Qed.

Lemma newWriter_inv policy pub work batchSize collector d t old (C : Prop) :
  wf d -> (C -> clean d) -> (forall k id, (t <= k)%nat -> newBatchID k = Ok id -> unused work pub d id) ->
  Forall (fun e => drawn t (e_id e)) old.*1 -> Forall2 (final_ok work pub C d) old.*1 old.*2 ->
  inv work pub C old (SS (newWriter policy pub work batchSize collector) d t) old.*1 None [].
Proof.
  intros Hwf Hc Hun Hdr Hold. destruct policy as [[[]]|]; constructor; cbn [disk writer tick newWriter w_finalized]; try done;
    first [by rewrite app_nil_r|by exists []; rewrite app_nil_r|by apply phase_idle].
Qed.

(** [C11] Whatever is appended, whatever fails and wherever it fails: the batches the writer
    reports as finalized are in the active spool, each verified against its manifest, and
    their data followed by the batch in progress are the accepted records, each exactly once
    and in the order of the calls. A writer that closed has every accepted record in a
    finalized batch. When every call that fails has no effect ([clean]: no move is reported as
    failed after it took place, no write after a part of it was written), the finalized batches
    survive a crash. *)
Theorem spool_holds_accepted_records policy pub work batchSize collector d t calls results s' :
  slash_free pub -> slash_free work -> work <> pub -> wf d -> fresh_ids pub work d t ->
  perform_all calls (SS (newWriter policy pub work batchSize collector) d t) = (results, s') ->
  exists (datas lines : list bytes) (rest : bytes),
    Forall2 (in_spool (clean d) (disk s')) (FinalizedBatches (writer s')) datas /\
    concat datas ++ rest = concat lines /\ Forall3 adds calls results lines /\
    (w_closed (writer s') = true -> rest = []).
Proof.
  intros Hp Hw Hne Hwf [Hids Hinj Hun] Hr.
  eapply (perform_all_ok work pub Hw Hp Hne (clean d) Hids Hinj [] calls _ [] None []) in Hr
    as (es & cur & h & xs & [Hi Hc] & Ha & Hx); [|split; [|done]; by apply (newWriter_inv _ _ _ _ _ _ _ [])].
  exists (map e_h es), xs, h. split_and!; try done. destruct Hi. rewrite Forall2_fmap_r. apply Forall2_flip.
  eapply Forall2_impl; [exact iv_final0|]. intros e fb. apply final_in_spool.
Qed.

End Contract.

(** ** A run *)

Section Demo.

#[local] Existing Instance asciiUnicode.

Definition demoID : bytes := bs "20260101T000000.000000000Z-0011223344556677".
Definition demoClock : Clock := {|
  canonicalNow k := bs "2026-01-01T00:00:00.000000000Z";
  newBatchID k := if (k =? 1)%nat then Ok demoID else Err (Errorf "no randomness") |}.
#[local] Existing Instance demoClock.
Definition demoLine : bytes := bs "{record}".
Definition demoCollector : CollectorIdentity :=
  {| ExecutablePath := bs "C:\fi.exe"; ExecutableSHA256 := sha256_hex (bs "fi") |}.
Definition demoBatchManifest : Manifest := {|
  Version := ManifestVersion; BatchID := demoID; TargetBatchSize := 10; RecordCount := 1; DataBytes := 9;
  DataSHA256 := sha256_hex (demoLine ++ [newline]); DataFile := bs "batch-" ++ demoID ++ bs ".jsonl";
  Collector := demoCollector; CreatedAt := canonicalNow 2; CompletedAt := canonicalNow 3 |}.
#[local] Instance demoManifestCodec : JSON Manifest := fixedJSON demoBatchManifest (bs "{manifest}").
#[local] Instance demoRecordCodec : JSON SpoolRecord :=
  {| json_Marshal := fun _ => Ok demoLine; json_Decode := fun _ => Err (Errorf "not used") |}.

Definition demoCalls : list call := [DoAppend (bs "observation") (bs "scope") (Ok (bs "1")); DoClose].
Definition demoRun (calls : list call) (fs : list (option nat)) : list (res unit) * spool_state :=
  perform_all calls (SS (newWriter None (bs "spool") (bs "work") 10 demoCollector) (empty_dir fs) 0).

Lemma demo_fresh fs : fresh_ids (bs "spool") (bs "work") (empty_dir fs) 0.
Proof.
  split; cbn [newBatchID demoClock].
  - intros k id. destruct (Nat.eqb_spec k 1); [|done]. by intros [= <-].
  - intros k k' id. destruct (Nat.eqb_spec k 1), (Nat.eqb_spec k' 1); congruence.
  - intros k id _ _ p. by split.
Qed.

Lemma empty_wf fs : wf (empty_dir fs).
Proof. split_and!; [by intros ? ? ?..|]. by intros ? [? ?]. Qed.

(** One record, then the writer closes: the record is in the one finalized batch. *)
Lemma spool_holds_accepted_records_witness :
  (demoRun demoCalls []).1 = [Ok tt; Ok tt] /\
  (exists (datas lines : list bytes) (rest : bytes),
    Forall2 (in_spool (clean (empty_dir [])) (disk (demoRun demoCalls []).2)) (FinalizedBatches (writer (demoRun demoCalls []).2)) datas /\
    concat datas ++ rest = concat lines /\ Forall3 adds demoCalls (demoRun demoCalls []).1 lines /\
    (w_closed (writer (demoRun demoCalls []).2) = true -> rest = [])) /\
  length (FinalizedBatches (writer (demoRun demoCalls []).2)) = 1%nat.
Proof.
  split; [vm_compute; reflexivity|]. split; [|vm_compute; reflexivity].
  apply (spool_holds_accepted_records None (bs "spool") (bs "work") 10 demoCollector (empty_dir []) 0 demoCalls).
  - vm_compute. intros Hin. repeat (apply elem_of_cons in Hin as [Hin|Hin]; [discriminate Hin|]). by apply elem_of_nil in Hin.
  - vm_compute. intros Hin. repeat (apply elem_of_cons in Hin as [Hin|Hin]; [discriminate Hin|]). by apply elem_of_nil in Hin.
  - vm_compute. discriminate.
  - apply empty_wf.
  - apply demo_fresh.
  - apply surjective_pairing.
Defined.

(** A failing call anywhere in the run is repaired by closing again: two closes later every
    single failure that has no effect is behind the writer. *)
Definition is_ok (r : res unit) : bool := if r is Ok _ then true else false.
Definition retried (fs : list (option nat)) : list bool := map is_ok (demoRun (demoCalls ++ [DoClose]) fs).1.
Example close_again_recovers :
  forallb (fun i => bool_decide (retried (replicate i None ++ [Some O]) !! 2%nat = Some true)) (seq 5 40) = true.
Proof. vm_compute. reflexivity. Qed.

(** When the move of the manifest is reported as failed although it took effect, the data is
    moved back: the spool holds a manifest without data, and no retry leaves that state. *)
Example manifest_without_data :
  let '(results, s) := demoRun (demoCalls ++ [DoClose; DoClose]) (replicate 28 None ++ [Some 1%nat]) in
  map is_ok results = [true; false; false; false] /\
  is_Some (names (disk s) !! path (bs "work") (bs "spool") KPman demoID) /\
  names (disk s) !! path (bs "work") (bs "spool") KPdat demoID = None /\
  is_Some (names (disk s) !! path (bs "work") (bs "spool") KWdat demoID) /\ faults (disk s) = [].
Proof. vm_compute. eauto 8. Qed.

End Demo.

End spoolsafety.
