(* ===== verification/SpoolRecovery.v ===== *)
(** * Recovery of the spool

    Models [go/internal/spool/publication_recovery.go], [publication_startup_recovery.go],
    [publication_structure.go] and [recovery.go]: what a collector does at start-up with the
    batches an earlier process left in the work directory or half published, what a rollover
    repairs, the structural check of the active spool, and the preservation of interrupted
    artifacts. The disk is that of [SpoolWriter], the parent of the sibling directories; the
    quarantine is a third sibling. *)

From stdpp Require Import gmap.
From S2P Require Import Prelude GoBytes GoStrings Sha256 GoText GoIO GoFS GoDir GoPublish GoWin GoCalls Pki TransportGeneration GenerationCanonical GenerationProtocol GenerationRecorder SpoolWriter SpoolSafety.

Module spoolrecovery.
Import spool spoolwriter.

(** ** Directories below the parent *)

(** The name of the entry of [directory] at [path], if it is one. *)
Definition entry_of (directory path : bytes) : option bytes :=
  if HasPrefix path (directory ++ bs "/") then
    let name := drop (S (length directory)) path in
    if bool_decide (z2b 47 ∈ name) then None else Some name
  else None.

(** [os.ReadDir] of one of the directories: the entries with their types, sorted by name. *)
Definition ReadDirOf (directory : bytes) : prog dir (list (bytes * file_kind)) := syscall (fun d =>
  (Ok ((fun n => (n, match (names d !! in_dir directory n) ≫= (fun i => inodes d !! i) with
                     | Some nd => i_kind nd
                     | None => OtherKind
                     end)) <$> sort_Strings (omap (entry_of directory) (map_to_list (names d)).*1)), d)).

(** [os.Mkdir], and [os.MkdirAll] of a path whose parents are given outermost first. *)
Definition Mkdir (path : bytes) : prog dir unit := syscall (fun d =>
  match names d !! path with
  | Some _ => (Err ErrExist, d)
  | None => (Ok tt, Dir (<[path := next_ino d]> (names d)) (durable d)
                        (<[next_ino d := Inode GoFS.Directory 448 [] true]> (inodes d)) (S (next_ino d)) (faults d))
  end).
Fixpoint MkdirAll (paths : list bytes) : prog dir unit :=
  match paths with
  | [] => ret tt
  | path :: paths => fun d =>
      match names d !! path with
      | Some i =>
          if (if inodes d !! i is Some nd then bool_decide (i_kind nd = GoFS.Directory) else false) then MkdirAll paths d
          else (Err (Sentinel "not a directory"), d)
      | None => (check! Mkdir path ;; MkdirAll paths) d
      end
  end.

Definition batchPrefix : bytes := bs "batch-".
Definition manifestSuffix : bytes := bs ".manifest.json".
Definition dataSuffix : bytes := bs ".jsonl".
Definition openSuffix : bytes := bs ".open".

Definition isManifestName (name : bytes) : bool := HasPrefix name batchPrefix && HasSuffix name manifestSuffix.
Definition isDataName (name : bytes) : bool := HasPrefix name batchPrefix && HasSuffix name dataSuffix.
Definition isOpenName (name : bytes) : bool := HasPrefix name batchPrefix && HasSuffix name openSuffix.

(** A loop over entries that stops at the first error. *)
Fixpoint each {S A} (body : A -> prog S unit) (l : list A) : prog S unit :=
  match l with
  | [] => ret tt
  | a :: l => check! body a ;; each body l
  end.

Definition requirePublicationPathAbsent (path : bytes) : prog dir unit := fun d =>
  match Lstat path d with
  | (Err e, d) => if errors_Is e ErrNotExist then (Ok tt, d)
                  else (Err (Wrap "inspect FI publication destination %q: %w" e), d)
  | (Panic, d) => (Panic, d)
  | (Ok _, d) => (Err (Errorf "FI publication destination already exists: %q"), d)
  end.

Section Recovery.
Context `{Unicode} `{JSON Manifest} {C : Clock}.

(** ** Prepared publications *)

(** A pair in the work directory: verified, then data and manifest are moved; when the move
    of the manifest fails, that of the data is undone. *)
Definition publishAbandoned (work name workDataPath publicationDataPath publicationManifestPath : bytes) : prog dir Z :=
  check! wrap_err "verify abandoned prepared FI publication %q: %w" (VerifyManifest work name) ;;
  check! requirePublicationPathAbsent publicationDataPath ;;
  check! requirePublicationPathAbsent publicationManifestPath ;;
  check! wrap_err "publish abandoned FI batch data %q: %w" (durableRename workDataPath publicationDataPath) ;;
  fun d =>
    match durableRename (in_dir work name) publicationManifestPath d with
    | (Ok _, d) => (Ok 1, d)
    | (Err e, d) =>
        match durableRename publicationDataPath workDataPath d with
        | (Err e', d) => (Err (Join (Wrap "publish abandoned FI batch manifest %q: %w" e)
                                    (Wrap "rollback abandoned FI batch data %q: %w" e')), d)
        | (_, d) => (Err (Wrap "publish abandoned FI batch manifest %q: %w" e), d)
        end
    | (Panic, d) => (Panic, d)
    end.

(** One manifest of the work directory: the number of batches it published. *)
Definition recoverEntry (pub work : bytes) (includeUnstartedPrepared : bool) (entry : bytes * file_kind) : prog dir Z :=
  let '(name, kind) := entry in
  if negb (isManifestName name) then ret 0 else
  fail! negb (bool_decide (kind = Regular)) with Errorf "FI prepared publication manifest %q is not a regular file" ;;
  let workManifestPath := in_dir work name in
  let! manifest := wrap_err "read prepared FI publication manifest %q: %w" (readPreparedPublicationManifest workManifestPath) in
  let expectedManifestName := batchPrefix ++ BatchID manifest ++ manifestSuffix in
  fail! negb (bool_decide (name = expectedManifestName))
    with Errorf "prepared FI publication manifest name %q does not match batch ID %q" ;;
  let workDataPath := in_dir work (DataFile manifest) in
  let publicationDataPath := in_dir pub (DataFile manifest) in
  let publicationManifestPath := in_dir pub expectedManifestName in
  let! workDataExists := recoveryRegularFileExists workDataPath in
  let! publicationDataExists := recoveryRegularFileExists publicationDataPath in
  let! publicationManifestExists := recoveryRegularFileExists publicationManifestPath in
  fail! publicationManifestExists with Errorf "prepared FI publication %q conflicts with an already-published manifest" ;;
  match workDataExists, publicationDataExists with
  | true, true => throw (Errorf "prepared FI publication %q has duplicate work and published data files")
  | false, true =>
      check! wrap_err "verify interrupted FI publication %q: %w" (verifyPreparedManifestAgainstData manifest publicationDataPath) ;;
      check! wrap_err "complete interrupted FI publication %q: %w" (durableRename workManifestPath publicationManifestPath) ;;
      ret 1
  | true, false =>
      if negb includeUnstartedPrepared then ret 0 else
      publishAbandoned work name workDataPath publicationDataPath publicationManifestPath
  | false, false => throw (Errorf "prepared FI publication %q has a manifest but no matching data file")
  end.

Fixpoint recoverEntries (pub work : bytes) (includeUnstartedPrepared : bool) (recovered : Z) (entries : list (bytes * file_kind))
  : prog dir Z :=
  match entries with
  | [] => ret recovered
  | entry :: entries =>
      let! n := recoverEntry pub work includeUnstartedPrepared entry in
      recoverEntries pub work includeUnstartedPrepared (recovered + n) entries
  end.

(** [os.Lstat] of a directory: its absence is a value. *)
Definition directoryExists (platform : Platform) (path : bytes) (inspect : error -> error) (notDirectory : string) : res bool :=
  match LstatKind platform path with
  | Ok kind => fail? negb (bool_decide (kind = GoFS.Directory)) with Errorf notDirectory ;; Ok true
  | Err e => if errors_Is e ErrNotExist then Ok false else Err (inspect e)
  | Panic => Panic
  end.

(** The count of an unsuccessful recovery is dropped: no caller uses it. *)
Definition recoverPreparedPublicationsLocked (platform : Platform) (spoolDir : bytes) (includeUnstartedPrepared : bool) : prog dir Z :=
  fail! bool_decide (spoolDir = []) || negb (filepath_IsAbs spoolDir) with Errorf "FI spool directory must be absolute" ;;
  let! publicationDir := lift (wrap "resolve FI publication directory for recovery: %w"
                                 (resolveDirectoryPath platform (filepath_Clean spoolDir))) in
  let! kind := lift (wrap "inspect FI publication directory for recovery: %w" (LstatKind platform publicationDir)) in
  fail! negb (bool_decide (kind = GoFS.Directory)) with Errorf "FI publication recovery path must name a real directory" ;;
  let! workDir := lift (CollectorWorkDir platform spoolDir) in
  let! exists_ := lift (directoryExists platform workDir (Wrap "inspect FI collector work directory for recovery: %w")
                           "FI collector recovery work path must name a real directory") in
  if negb exists_ then ret 0 else
  let! entries := wrap_err "scan FI collector work directory for recovery: %w" (ReadDirOf (filepath_Base workDir)) in
  recoverEntries (filepath_Base publicationDir) (filepath_Base workDir) includeUnstartedPrepared 0 entries.

Definition RecoverInterruptedPublicationsLocked (platform : Platform) (spoolDir : bytes) : prog dir Z :=
  recoverPreparedPublicationsLocked platform spoolDir false.

(** ** Start-up *)

Definition startupRecoveryDirectories (platform : Platform) (spoolDir : bytes) : res (bytes * bytes) :=
  fail? bool_decide (spoolDir = []) || negb (filepath_IsAbs spoolDir) with Errorf "FI spool directory must be absolute" ;;
  let? publicationDir := resolveDirectoryPath platform (filepath_Clean spoolDir) in
  let? workDir := CollectorWorkDir platform spoolDir in
  Ok (publicationDir, workDir).

Definition salvageEntry (directory : bytes) (entry : bytes * file_kind) : prog dir unit :=
  let '(name, kind) := entry in
  if negb (HasPrefix name batchPrefix && HasSuffix name (manifestSuffix ++ openSuffix)) then ret tt else
  fail! negb (bool_decide (kind = Regular)) with Errorf "FI provisional manifest %q is not a regular file" ;;
  let openPath := in_dir directory name in
  let finalPath := TrimSuffix openPath openSuffix in
  fun d =>
    match Lstat finalPath d with
    | (Ok _, d) => (Err (Errorf "FI provisional manifest %q conflicts with final manifest"), d)
    | (Panic, d) => (Panic, d)
    | (Err e, d) =>
        if negb (errors_Is e ErrNotExist) then (Err e, d) else
        match VerifyManifest directory name d with
        | (Err _, d) => (Ok tt, d)
        | (Panic, d) => (Panic, d)
        | (Ok _, d) => wrap_err "salvage verified FI provisional manifest %q: %w" (durableRename openPath finalPath) d
        end
    end.

Definition salvageDirectory (platform : Platform) (directory : bytes) : prog dir unit :=
  let! exists_ := lift (directoryExists platform directory id "FI startup recovery directory %q is not a real directory") in
  if negb exists_ then ret tt else
  let! entries := ReadDirOf (filepath_Base directory) in
  each (salvageEntry (filepath_Base directory)) entries.

Definition salvageStartupManifestOpensLocked (platform : Platform) (spoolDir : bytes) : prog dir unit :=
  let! (publicationDir, workDir) := lift (startupRecoveryDirectories platform spoolDir) in
  each (salvageDirectory platform) [workDir; publicationDir].

(** *** The quarantine

    [q] is the directory of this recovery, made when the first artifact is moved. *)

Definition collectorQuarantineDirectorySuffix : bytes := bs "-collector-quarantine".

Definition collectorQuarantineRoot (platform : Platform) (spoolDir : bytes) : res bytes :=
  let? (publicationDir, _) := startupRecoveryDirectories platform spoolDir in
  Ok (filepath_Join (filepath_Dir publicationDir)
        (collectorWorkDirectoryPrefix ++ filepath_Base publicationDir ++ collectorQuarantineDirectorySuffix)).

Definition quarantineDirectory (platform : Platform) (spoolDir : bytes) (q : option bytes) : prog spool_state bytes :=
  match q with
  | Some directory => ret directory
  | None =>
      let! root := lift (collectorQuarantineRoot platform spoolDir) in
      check! on_disk (wrap_err "create FI collector quarantine root: %w" (syscall (ret tt))) ;;
      let! kind := lift (LstatKind platform root) in
      fail! negb (bool_decide (kind = GoFS.Directory)) with Errorf "FI collector quarantine root is not a real directory" ;;
      let! recoveryID := freshBatchID in
      let directory := in_dir (filepath_Base root) (bs "recovery-" ++ recoveryID) in
      check! on_disk (wrap_err "create FI collector quarantine generation: %w" (Mkdir directory)) ;;
      ret directory
  end.

(** [move]: [name] is the base name of the artifact. *)
Definition quarantine_move (platform : Platform) (spoolDir : bytes) (q : option bytes) (directory name label : bytes)
  : prog spool_state (option bytes) :=
  let! qdir := quarantineDirectory platform spoolDir q in
  let destination := in_dir qdir (label ++ bs "-" ++ name) in
  check! on_disk (requirePublicationPathAbsent destination) ;;
  check! on_disk (wrap_err "quarantine FI collector artifact %q: %w" (durableRename (in_dir directory name) destination)) ;;
  ret (Some qdir).

Fixpoint quarantineWorkEntries (platform : Platform) (spoolDir directory : bytes) (q : option bytes) (entries : list (bytes * file_kind))
  : prog spool_state (option bytes) :=
  match entries with
  | [] => ret q
  | (name, kind) :: entries =>
      fail! negb (bool_decide (kind = Regular)) with Errorf "FI collector work residual %q is not a regular file" ;;
      fail! negb (isOpenName name) && negb (isDataName name) with Errorf "unexpected FI collector work artifact %q" ;;
      let! q := quarantine_move platform spoolDir q directory name (bs "work") in
      quarantineWorkEntries platform spoolDir directory q entries
  end.

Definition quarantineCollectorWorkResiduals (platform : Platform) (spoolDir workDir : bytes) (q : option bytes)
  : prog spool_state (option bytes) :=
  let! exists_ := lift (directoryExists platform workDir id "FI collector work recovery path is not a real directory") in
  if negb exists_ then ret q else
  let! entries := on_disk (ReadDirOf (filepath_Base workDir)) in
  quarantineWorkEntries platform spoolDir (filepath_Base workDir) q entries.

(** The first loop: every entry is a regular file of a known kind. *)
Definition checkSpoolEntry (entry : bytes * file_kind) : res unit :=
  let '(name, kind) := entry in
  fail? negb (bool_decide (kind = Regular)) with Errorf "FI active spool artifact %q is not a regular file" ;;
  fail? negb (isManifestName name) && negb (isDataName name) && negb (isOpenName name) with Errorf "unexpected FI active spool artifact %q" ;;
  Ok tt.
Fixpoint checkSpoolEntries (entries : list (bytes * file_kind)) : res unit :=
  match entries with
  | [] => Ok tt
  | entry :: entries => check? checkSpoolEntry entry ;; checkSpoolEntries entries
  end.

(** The manifests and data files of the listing. *)
Definition manifestsOf (entries : list (bytes * file_kind)) : list bytes := filter (fun n => isManifestName n) entries.*1.
Definition dataFilesOf (entries : list (bytes * file_kind)) : list bytes :=
  filter (fun n => negb (isManifestName n) && isDataName n) entries.*1.

Definition isResidual (manifests : list bytes) (name : bytes) : bool :=
  if HasSuffix name manifestSuffix then false
  else if HasSuffix name dataSuffix
  then negb (bool_decide (TrimSuffix name dataSuffix ++ manifestSuffix ∈ manifests))
  else HasSuffix name openSuffix.

Fixpoint quarantineSpoolEntries (platform : Platform) (spoolDir directory : bytes) (manifests : list bytes) (q : option bytes)
    (entries : list (bytes * file_kind)) : prog spool_state (option bytes) :=
  match entries with
  | [] => ret q
  | (name, _) :: entries =>
      if negb (isResidual manifests name) then quarantineSpoolEntries platform spoolDir directory manifests q entries else
      let! q := quarantine_move platform spoolDir q directory name (bs "spool") in
      quarantineSpoolEntries platform spoolDir directory manifests q entries
  end.

Definition quarantinePublicationResiduals (platform : Platform) (spoolDir publicationDir : bytes) (q : option bytes)
  : prog spool_state (option bytes) :=
  let! entries := on_disk (ReadDirOf (filepath_Base publicationDir)) in
  check! lift (checkSpoolEntries entries) ;;
  let manifests := manifestsOf entries in
  fail! negb (forallb (fun m => bool_decide (TrimSuffix m manifestSuffix ++ dataSuffix ∈ dataFilesOf entries)) manifests)
    with Errorf "published FI manifest %q has no matching data file" ;;
  quarantineSpoolEntries platform spoolDir (filepath_Base publicationDir) manifests q entries.

Definition quarantineStartupIncompleteArtifactsLocked (platform : Platform) (spoolDir : bytes) : prog spool_state unit :=
  let! (publicationDir, workDir) := lift (startupRecoveryDirectories platform spoolDir) in
  let! q := quarantineCollectorWorkResiduals platform spoolDir workDir None in
  check! quarantinePublicationResiduals platform spoolDir publicationDir q ;;
  ret tt.

(** The publication boundary is acquired first and released on every path. *)
Definition RecoverAbandonedPublications (platform : Platform) (spoolDir : bytes) : prog spool_state Z :=
  check! on_disk (wrap_err "acquire FI spool publication boundary for startup recovery: %w" (syscall (ret tt))) ;;
  fun s =>
    let '(r, s) :=
      (let! recovered := on_disk (recoverPreparedPublicationsLocked platform spoolDir true) in
       check! on_disk (salvageStartupManifestOpensLocked platform spoolDir) ;;
       let! additional := on_disk (recoverPreparedPublicationsLocked platform spoolDir true) in
       check! quarantineStartupIncompleteArtifactsLocked platform spoolDir ;;
       ret (recovered + additional)) s in
    match r, on_disk (syscall (ret tt)) s with
    | Panic, (_, s) => (Panic, s)
    | Ok x, (Ok _, s) => (Ok x, s)
    | Ok _, (r', s) => (match r' with Err e => Err e | _ => Panic end, s)
    | Err e, (Err e', s) => (Err (Join e e'), s)
    | Err e, (_, s) => (Err e, s)
    end.

(** ** The structure of the active spool *)

Definition batchIDOf (suffix name : bytes) : bytes := TrimSuffix (drop (length batchPrefix) name) suffix.

(** One entry: the IDs of the data files and of the manifests so far. *)
Definition structureEntry (data manifests : list bytes) (entry : bytes * file_kind) : prog dir (list bytes * list bytes) :=
  let '(name, kind) := entry in
  fail! bool_decide (kind = Symlink) with Errorf "FI published spool artifact %q is a symbolic link" ;;
  check! wrap_err "inspect FI published spool artifact %q: %w" (syscall (ret tt)) ;;
  fail! negb (bool_decide (kind = Regular)) with Errorf "FI published spool artifact %q is not a regular file" ;;
  if isManifestName name then
    let id := batchIDOf manifestSuffix name in
    fail! bool_decide (id = []) with Errorf "FI published spool manifest %q has an empty batch ID" ;;
    fail! bool_decide (id ∈ manifests) with Errorf "FI published spool has duplicate manifest batch ID %q" ;;
    ret (data, id :: manifests)
  else if isDataName name then
    let id := batchIDOf dataSuffix name in
    fail! bool_decide (id = []) with Errorf "FI published spool data file %q has an empty batch ID" ;;
    fail! bool_decide (id ∈ data) with Errorf "FI published spool has duplicate data batch ID %q" ;;
    ret (id :: data, manifests)
  else throw (Errorf "unexpected FI published spool artifact %q").

Fixpoint structureEntries (data manifests : list bytes) (entries : list (bytes * file_kind)) : prog dir (list bytes * list bytes) :=
  match entries with
  | [] => ret (data, manifests)
  | entry :: entries => let! (data, manifests) := structureEntry data manifests entry in structureEntries data manifests entries
  end.

(** [directory] is the name of [spoolDir] below the parent. *)
Definition ValidateStructureAt (spoolDir directory : bytes) : prog dir Z :=
  fail! bool_decide (spoolDir = []) || negb (filepath_IsAbs spoolDir) with Errorf "FI published spool directory must be absolute" ;;
  let! entries := wrap_err "read FI published spool directory: %w" (ReadDirOf directory) in
  let! (data, manifests) := structureEntries [] [] entries in
  fail! negb (forallb (fun id => bool_decide (id ∈ manifests)) data) with Errorf "FI published spool data %q has no matching manifest" ;;
  fail! negb (forallb (fun id => bool_decide (id ∈ data)) manifests)
    with Errorf "FI published spool manifest %q has no matching data file" ;;
  ret (len data).
Definition ValidatePublishedSpoolStructureLocked (spoolDir : bytes) : prog dir Z := ValidateStructureAt spoolDir (filepath_Base spoolDir).

End Recovery.

(** ** Interrupted artifacts *)

Definition InterruptedDirName : bytes := bs "interrupted".

Inductive InterruptedArtifactKind :=
| InterruptedOpenData | InterruptedOpenManifest | InterruptedOrphanData | InterruptedOrphanManifest.
#[global] Instance InterruptedArtifactKind_eq_decision : EqDecision InterruptedArtifactKind.
Proof. solve_decision. Defined.

Record PreservedInterruptedArtifact := {
  PreservedBatchID : bytes; PreservedKind : InterruptedArtifactKind; OriginalPath : bytes; PreservedPath : bytes
}.
Record InterruptedRecoverySummary := {
  SummarySpoolDir : bytes; InterruptedDir : bytes; PreservedCount : Z; Preserved : list PreservedInterruptedArtifact
}.

(** The names of the four artifacts of a batch. *)
Record batchArtifacts := { dataOpen : option bytes; manifestOpen : option bytes; dataFinal : option bytes; manifestFinal : option bytes }.
Definition noArtifacts : batchArtifacts := {| dataOpen := None; manifestOpen := None; dataFinal := None; manifestFinal := None |}.

Definition classifySpoolArtifact (name : bytes) : option (bytes * InterruptedArtifactKind) :=
  if negb (HasPrefix name batchPrefix) then None else
  let candidate suffix kind rest :=
    if negb (HasSuffix name suffix) then rest else
    let batchID := TrimSuffix (drop (length batchPrefix) name) suffix in
    if bool_decide (batchID = []) then None else Some (batchID, kind) in
  candidate (manifestSuffix ++ openSuffix) InterruptedOpenManifest
    (candidate manifestSuffix InterruptedOrphanManifest
       (candidate dataSuffix InterruptedOrphanData
          (candidate openSuffix InterruptedOpenData None))).

Definition noteArtifact (name : bytes) (kind : InterruptedArtifactKind) (a : batchArtifacts) : batchArtifacts :=
  match kind with
  | InterruptedOpenData => {| dataOpen := Some name; manifestOpen := manifestOpen a; dataFinal := dataFinal a; manifestFinal := manifestFinal a |}
  | InterruptedOpenManifest => {| dataOpen := dataOpen a; manifestOpen := Some name; dataFinal := dataFinal a; manifestFinal := manifestFinal a |}
  | InterruptedOrphanData => {| dataOpen := dataOpen a; manifestOpen := manifestOpen a; dataFinal := Some name; manifestFinal := manifestFinal a |}
  | InterruptedOrphanManifest => {| dataOpen := dataOpen a; manifestOpen := manifestOpen a; dataFinal := dataFinal a; manifestFinal := Some name |}
  end.

Definition collectArtifacts (entries : list (bytes * file_kind)) : gmap bytes batchArtifacts :=
  fold_left (fun batches '(name, kind) =>
    if bool_decide (kind = GoFS.Directory) then batches else
    match classifySpoolArtifact name with
    | None => batches
    | Some (batchID, kind) => <[batchID := noteArtifact name kind (default noArtifacts (batches !! batchID))]> batches
    end) entries ∅.

(** [toPreserve] of one batch, without the absent ones. *)
Definition toPreserve (a : batchArtifacts) : list (InterruptedArtifactKind * bytes) :=
  omap (fun '(kind, name) => (fun n => (kind, n)) <$> name)
    ([(InterruptedOpenData, dataOpen a); (InterruptedOpenManifest, manifestOpen a)] ++
     (match dataFinal a, manifestFinal a with
      | Some n, None => [(InterruptedOrphanData, Some n)]
      | None, Some n => [(InterruptedOrphanManifest, Some n)]
      | _, _ => []
      end)).

Definition preserveInterruptedArtifact (directory batchID : bytes) (kind : InterruptedArtifactKind) (name : bytes)
  : prog dir PreservedInterruptedArtifact :=
  let interruptedDir := in_dir directory InterruptedDirName in
  let batchDir := in_dir interruptedDir batchID in
  check! MkdirAll [interruptedDir; batchDir] ;;
  let source := in_dir directory name in
  let destination := in_dir batchDir name in
  fun d =>
    match Lstat destination d with
    | (Ok _, d) => (Err (Errorf "interrupted spool destination already exists: %s"), d)
    | (Panic, d) => (Panic, d)
    | (Err e, d) =>
        if negb (errors_Is e ErrNotExist) then (Err e, d) else
        (check! wrap_err "preserve interrupted spool artifact %q: %w" (durableRename source destination) ;;
         ret {| PreservedBatchID := batchID; PreservedKind := kind; OriginalPath := source; PreservedPath := destination |}) d
    end.

(** The two loops; what was preserved before an error is part of the summary. *)
Fixpoint preserveArtifacts (directory : bytes) (summary : InterruptedRecoverySummary)
    (artifacts : list (bytes * (InterruptedArtifactKind * bytes))) : prog dir (InterruptedRecoverySummary * option error) :=
  match artifacts with
  | [] => ret (summary, None)
  | (batchID, (kind, name)) :: artifacts => fun d =>
      match preserveInterruptedArtifact directory batchID kind name d with
      | (Ok preserved, d) =>
          preserveArtifacts directory
            {| SummarySpoolDir := SummarySpoolDir summary; InterruptedDir := InterruptedDir summary;
               PreservedCount := PreservedCount summary + 1; Preserved := Preserved summary ++ [preserved] |} artifacts d
      | (Err e, d) => (Ok (summary, Some e), d)
      | (Panic, d) => (Panic, d)
      end
  end.

Definition PreserveInterruptedArtifacts (spoolDir : bytes) : prog dir (InterruptedRecoverySummary * option error) :=
  let directory := filepath_Base spoolDir in
  fail! bool_decide (TrimSpace spoolDir = []) with Errorf "spool directory is required" ;;
  check! syscall (ret tt) ;;
  let summary := {| SummarySpoolDir := spoolDir; InterruptedDir := in_dir spoolDir InterruptedDirName;
                    PreservedCount := 0; Preserved := [] |} in
  let! entries := ReadDirOf directory in
  let batches := collectArtifacts entries in
  preserveArtifacts directory summary
    (concat (map (fun batchID => map (pair batchID) (toPreserve (default noArtifacts (batches !! batchID))))
                 (sort_Strings (map_to_list batches).*1))).

(** ** Names *)

Import spoolsafety.

(** A name does not end in two of the suffixes. *)
#[local] Ltac suffix_clash E :=
  apply HasSuffix_spec in E as [? E]; apply (f_equal reverse) in E; rewrite !reverse_app in E; discriminate E.

Section Names.
Context (work pub : bytes) (Hwork : slash_free work) (Hpub : slash_free pub) (Hne : work <> pub).
Abbreviation path := (path work pub).

Definition file_suffix (s : bytes) : Prop := s = dataSuffix \/ s = manifestSuffix.

(** Where a data file or a manifest is, its suffix and its ID are told by its name. *)
Lemma suffix_inj x y s k : file_suffix s -> x ++ s = y ++ suffix k -> s = suffix k /\ x = y.
Proof.
  intros Hs E. assert (s = suffix k) as ->.
  { apply (f_equal reverse) in E. rewrite !reverse_app in E. destruct Hs as [->| ->], k; try done; discriminate E. }
  split; [done|]. by apply app_inj_2 in E as [].
Qed.

Lemma file_path directory x s k id : slash_free directory -> file_suffix s ->
  in_dir directory (batchPrefix ++ x ++ s) = path k id ->
  s = suffix k /\ x = id /\ directory = match k with KPdat | KPman | KPtmp => pub | _ => work end.
Proof.
  intros Hd Hs E. unfold spoolsafety.path in E. apply in_dir_inj in E as [-> En]; [|done|by destruct k].
  unfold batchPrefix in En. apply app_inv_head in En. apply suffix_inj in En as [-> ->]; done.
Qed.

(** A path below a third directory is none of a batch. *)
Lemma outside_path q name k id : slash_free q -> q <> work -> q <> pub -> in_dir q name <> path k id.
Proof.
  intros Hq H1 H2 E. unfold spoolsafety.path in E. apply in_dir_inj in E as [E _]; [|done|by destruct k]. by destruct k.
Qed.

Lemma in_dir_assoc q a b : in_dir (in_dir q a) b = in_dir q (a ++ bs "/" ++ b).
Proof. unfold in_dir. by rewrite <- !app_assoc. Qed.

Lemma entry_of_spec directory p name :
  entry_of directory p = Some name <-> p = in_dir directory name /\ slash_free name.
Proof.
  unfold entry_of, slash_free, in_dir. destruct (HasPrefix p (directory ++ bs "/")) eqn:Hp.
  - apply HasPrefix_spec in Hp as [t ->]. rewrite <- app_assoc.
    replace (drop (S (length directory)) (directory ++ bs "/" ++ t)) with t.
    2: { rewrite <- Nat.add_1_r, <- drop_drop, drop_app_length. done. }
    case_bool_decide as Hs; split.
    + done.
    + intros [E Hn]. apply app_inv_head, (app_inv_head (bs "/")) in E as ->. done.
    + intros [= <-]. done.
    + intros [E Hn]. apply app_inv_head, (app_inv_head (bs "/")) in E as ->. done.
  - split; [done|]. intros [-> _]. rewrite (proj2 (HasPrefix_spec _ _)) in Hp; [done|]. exists name. by rewrite <- app_assoc.
Qed.

End Names.

(** What a listing shows. *)
Lemma ReadDirOf_Ok directory d es d' : ReadDirOf directory d = (Ok es, d') ->
  same d d' /\ NoDup es.*1 /\ forall n, n ∈ es.*1 <-> slash_free n /\ is_Some (names d !! in_dir directory n).
Proof.
  intros Hr. unfold ReadDirOf in Hr. apply same_syscall in Hr as [(fs & E & _)|(fs & Hr & Hs)]; [done|].
  injection Hr as <- <-. split; [done|]. cbn [names set_faults].
  assert (forall (f : bytes -> file_kind) l, ((fun n => (n, f n)) <$> l).*1 = l) as ->
    by (intros f l; rewrite <- list_fmap_compose; induction l; [done|]; cbn; by f_equal).
  split.
  - rewrite sort_Strings_perm. pose proof (NoDup_fst_map_to_list (names d)) as Hnd. revert Hnd. generalize (map_to_list (names d)).*1. intros l.
    induction l as [|p l IH]; [constructor|]. intros [Hp Hl]%NoDup_cons. cbn. destruct (entry_of directory p) as [n|] eqn:En; [|auto].
    constructor; [|auto]. intros (p' & Hp' & En')%list_elem_of_omap. apply entry_of_spec in En as [-> _], En' as [-> _]; done.
  - intros n. rewrite sort_Strings_perm, list_elem_of_omap. split.
    + intros (p & ([q i] & -> & Hm)%list_elem_of_fmap & [E Hn]%entry_of_spec). cbn in E. subst q. split; [done|].
      apply elem_of_map_to_list in Hm. eauto.
    + intros [Hn [i Hi]]. exists (in_dir directory n). split; [|by apply entry_of_spec].
      apply list_elem_of_fmap. exists (in_dir directory n, i). split; [done|]. by apply elem_of_map_to_list.
Qed.

Lemma ReadDirOf_kinds directory d es d' n : ReadDirOf directory d = (Ok es, d') -> n ∈ es.*1 ->
  exists k, (n, k) ∈ es /\ k = match (names d !! in_dir directory n) ≫= (fun i => inodes d !! i) with
                                | Some nd => i_kind nd
                                | None => OtherKind
                                end.
Proof.
  intros Hr Hn. apply list_elem_of_fmap in Hn as ([n' k] & -> & Hin). exists k. split; [done|]. unfold ReadDirOf in Hr.
  apply same_syscall in Hr as [(fs & E & _)|(fs & Hr & Hs)]; [done|]. injection Hr as <- _. cbn [names inodes set_faults] in Hin.
  apply list_elem_of_fmap in Hin as (m & [= -> ->] & _). done.
Qed.

(** ** What recovery never does

    Files keep their content and a name, complete pairs of the active spool stay where they
    are, and no file appears under an ID that no file had. [except] is the batch whose
    publication may be rolled back. *)

Section Careful.
Context `{Unicode} `{JSON Manifest} {K : Clock}.
Context (work pub q : bytes) (Hwork : slash_free work) (Hpub : slash_free pub) (Hne : work <> pub)
        (Hq : slash_free q) (Hqwork : q <> work) (Hqpub : q <> pub).
Abbreviation path := (path work pub).

Definition pair_at (d : dir) (id : bytes) : Prop := is_Some (names d !! path KPdat id) /\ is_Some (names d !! path KPman id).

Record careful_change (except : option bytes) (d d' : dir) : Prop := {
  cf_wf : wf d';
  cf_inodes i nd : inodes d !! i = Some nd -> inodes d' !! i = Some nd;
  cf_files n i : names d !! n = Some i -> exists n', names d' !! n' = Some i;
  cf_pairs id k : except <> Some id -> pair_at d id -> k = KPdat \/ k = KPman ->
    names d' !! path k id = names d !! path k id /\ durable d' !! path k id = durable d !! path k id;
  cf_unused id : unused work pub d id -> unused work pub d' id;
  cf_clean : clean d -> clean d'
}.
Definition careful (except : option bytes) (d d' : dir) : Prop := wf d -> careful_change except d d'.

#[local] Instance careful_PreOrder except : PreOrder (careful except).
Proof.
  split.
  - intros d Hwf. constructor; eauto.
  - intros d1 d2 d3 H12 H23 Hwf. specialize (H12 Hwf) as []. specialize (H23 cf_wf0) as []. constructor; auto.
    + intros n i Hn. apply cf_files0 in Hn as [n' Hn]. eauto.
    + intros id k Hx Hp Hk. assert (pair_at d2 id) as Hp2.
      { split; (erewrite (proj1 (cf_pairs0 id _ Hx Hp _)); apply Hp). }
      destruct (cf_pairs0 id k Hx Hp Hk) as [<- <-]. by apply cf_pairs1.
  Unshelve. all: auto.
Qed.

Lemma careful_same except d d' : same d d' -> careful except d d'.
Proof.
  intros Hs Hwf. pose proof (same_wf _ _ Hs Hwf). destruct Hs as (En & Ed & Ei & Ek & Hc). constructor; rewrite ?En, ?Ed, ?Ei; eauto.
  intros id Hu k. by rewrite En, Ed.
Qed.

Lemma careful_upgrade x d d' : ~ pair_at d x -> careful (Some x) d d' -> careful None d d'.
Proof.
  intros Hx Hc Hwf. destruct (Hc Hwf). constructor; auto. intros id k _ Hp Hk. apply cf_pairs0; auto. by intros [= ->].
Qed.

Lemma careful_rename except source destination d :
  (forall id k, except <> Some id -> pair_at d id -> k = KPdat \/ k = KPman -> source <> path k id) ->
  (forall k id, destination = path k id -> exists k', source = path k' id) ->
  careful except d (durableRename source destination d).2.
Proof.
  intros Hsrc Hdst Hwf. destruct (durableRename source destination d) as [r d'] eqn:E. cbn [snd].
  apply durableRename_cases in E as [(_ & _ & Hs)|(i & Hs & Hd & En & Ei & Ek & _ & Hc & Ed)]; [by apply careful_same|].
  assert (destination <> source) as Hdiff by congruence. destruct Hwf as (W1 & W2 & W3).
  constructor; rewrite ?Ei; try done.
  - split_and!.
    + intros n j. rewrite En, Ei. intros [[<- <-]|[_ [_ Hn]%lookup_delete_Some]]%lookup_insert_Some; eauto.
    + intros n j. rewrite Ei, Ed. destruct r; eauto. intros [[<- <-]|[_ [_ Hn]%lookup_delete_Some]]%lookup_insert_Some; eauto.
    + intros j. rewrite Ei, Ek. apply W3.
  - intros n j Hn. rewrite En. destruct (decide (n = source)) as [->|Hn'].
    + exists destination. by rewrite lookup_insert_eq, <- Hn, Hs.
    + exists n. by rewrite lookup_insert_ne, lookup_delete_ne by congruence.
  - intros id k Hx Hp Hk. pose proof (Hsrc id k Hx Hp Hk) as Hs1.
    assert (destination <> path k id) as Hd1 by (intros ->; destruct Hp as [[? ?] [? ?]], Hk as [->| ->]; congruence).
    rewrite En, lookup_insert_ne, lookup_delete_ne by congruence. split; [done|]. rewrite Ed. destruct r; [|done..].
    by rewrite lookup_insert_ne, lookup_delete_ne by congruence.
  - intros id Hu k. assert (destination <> path k id) as Hd1.
    { intros (k' & E')%Hdst. destruct (Hu k') as [Hu' _]. rewrite <- E' in Hu'. congruence. }
    destruct (Hu k) as [U1 U2]. rewrite En, lookup_insert_ne by congruence.
    split; [by apply lookup_delete_None; right|]. rewrite Ed. destruct r; [|done..].
    rewrite lookup_insert_ne by congruence. by apply lookup_delete_None; right.
  - by intros [? _]%Hc.
Qed.

(** Reading first, then the rest. *)
Lemma careful_after_read {A B} except (p : prog dir A) (k : A -> prog dir B) d : reads p ->
  (forall a d1, p d = (Ok a, d1) -> same d d1 -> careful except d1 (k a d1).2) -> careful except d (bind p k d).2.
Proof.
  intros Hp Hk. specialize (Hp d). unfold bind. destruct (p d) as [[a|e|] d1] eqn:E; cbn [snd] in *.
  - etrans; [by apply careful_same|by apply Hk].
  - by apply careful_same.
  - by apply careful_same.
Qed.
Lemma careful_wrap {A} except msg (p : prog dir A) d : careful except d (p d).2 -> careful except d (wrap_err msg p d).2.
Proof. unfold wrap_err. by destruct (p d). Qed.
Lemma careful_done {A} except (r : res A) d : careful except d ((r, d) : res A * dir).2.
Proof. reflexivity. Qed.
Lemma careful_bind {A B} except (p : prog dir A) (k : A -> prog dir B) d : careful except d (p d).2 ->
  (forall a d1, p d = (Ok a, d1) -> careful except d1 (k a d1).2) -> careful except d (bind p k d).2.
Proof.
  intros Hp Hk. unfold bind. destruct (p d) as [[a|e|] d1] eqn:E; cbn [snd] in *; [|done..]. etrans; [exact Hp|by apply Hk].
Qed.

(** The moves of a publication. *)
Lemma careful_publish except x k k' d :
  (k = KWdat /\ k' = KPdat \/ k = KWman /\ k' = KPman) -> careful except d (durableRename (path k x) (path k' x) d).2.
Proof.
  intros Hk. apply careful_rename.
  - intros id k2 _ _ Hk2 E. destruct Hk as [[-> _]|[-> _]]; apply file_path in E as (_ & _ & E); try done;
      first [by left|by right|by destruct Hk2 as [->| ->]].
  - intros k2 id E. destruct Hk as [[-> ->]|[-> ->]]; apply file_path in E as (_ & <- & _); first [done|by left|by right|eauto].
Qed.
Lemma careful_rollback x d : careful (Some x) d (durableRename (path KPdat x) (path KWdat x) d).2.
Proof.
  apply careful_rename.
  - intros id k Hx _ _ E. apply file_path in E as (_ & -> & _); [done..|by left].
  - intros k id E. apply file_path in E as (_ & <- & _); [eauto|done..|by left].
Qed.

(** *** One prepared publication *)

Lemma validateManifest_file m : validateManifest m = Ok tt -> DataFile m = batchPrefix ++ BatchID m ++ dataSuffix.
Proof. unfold validateManifest. intros Hv. res_inv Hv. by bool_hyps. Qed.

Lemma reads_absent p : reads (requirePublicationPathAbsent p).
Proof.
  intros d. unfold requirePublicationPathAbsent. pose proof (reads_Lstat p d) as Hl. destruct (Lstat p d) as [[info|e|] d1]; cbn in Hl; try done.
  by destruct (errors_Is e ErrNotExist).
Qed.

(** The manifest in the work directory and the data it was checked against. *)
Definition checked (d : dir) (x : bytes) (k : place) : Prop :=
  exists g ndg m f nd, names d !! path KWman x = Some g /\ inodes d !! g = Some ndg /\ decodes (i_data ndg) m /\
    names d !! path k x = Some f /\ inodes d !! f = Some nd /\ agrees m (i_data nd).

Inductive recovery_step (x : bytes) (include : bool) (d : dir) (r : res Z) (d' : dir) : Prop :=
| step_waits : same d d' -> (forall n, r = Ok n -> include = false) -> recovery_step x include d r d'
| step_completes d1 r1 : same d d1 -> names d !! path KPman x = None -> checked d x KPdat ->
    durableRename (path KWman x) (path KPman x) d1 = (r1, d') -> (forall n, r = Ok n -> r1 = Ok tt) -> recovery_step x include d r d'
| step_publishes d1 r1 d2 : same d d1 -> names d !! path KPman x = None -> names d !! path KPdat x = None -> checked d x KWdat ->
    durableRename (path KWdat x) (path KPdat x) d1 = (r1, d2) ->
    ((d' = d2 /\ forall n, r <> Ok n) \/
     (r1 = Ok tt /\ exists r2 d3, durableRename (path KWman x) (path KPman x) d2 = (r2, d3) /\
        ((r2 = Ok tt /\ d' = d3) \/ (d' = (durableRename (path KPdat x) (path KWdat x) d3).2 /\ forall n, r <> Ok n)))) ->
    recovery_step x include d r d'.

Lemma publishAbandoned_steps x d d1 r d' g ndg m :
  same d d1 -> names d !! path KPman x = None -> names d !! path KPdat x = None ->
  names d !! path KWman x = Some g -> inodes d !! g = Some ndg -> decodes (i_data ndg) m -> BatchID m = x ->
  publishAbandoned work (batchPrefix ++ x ++ manifestSuffix) (path KWdat x) (path KPdat x) (path KPman x) d1 = (r, d') ->
  recovery_step x true d r d'.
Proof.
  intros Hs1 Hpm Hpd Hg Hndg Hdec Ex Hr. unfold publishAbandoned in Hr. change (in_dir work (batchPrefix ++ x ++ manifestSuffix)) with (path KWman x) in Hr.
  assert (forall d0, same d d0 -> (forall n, r <> Ok n) -> d' = d0 -> recovery_step x true d r d') as Hstop.
  { intros d0 Hs Hno ->. apply step_waits; [done|]. intros n E. by destruct (Hno n). }
  unfold bind at 1 in Hr. destruct (wrap_err _ _ d1) as [r2 d2] eqn:E2.
  assert (same d d2) as Hs2 by (etrans; [exact Hs1|exact (keeps_run _ _ _ _ _ (keeps_wrap _ _ _ (reads_Verify _ _)) E2)]).
  destruct r2 as [m'|e|]; [|injection Hr as <- <-; by apply (Hstop d2)..].
  apply wrap_err_Ok, VerifyManifest_Ok in E2 as (g' & ndg' & f & nd & Hg' & Hndg' & Hdec' & Hf & Hnd & Hag).
  rewrite (proj1 Hs1) in Hg', Hf. assert (inodes d1 = inodes d) as Ei by apply Hs1. rewrite Ei in Hndg', Hnd.
  change (in_dir work (batchPrefix ++ x ++ manifestSuffix)) with (path KWman x) in Hg'. assert (g' = g) as -> by congruence. assert (ndg' = ndg) as -> by congruence.
  pose proof (decodes_fun _ _ _ Hdec' Hdec) as ->. rewrite validateManifest_file in Hf by (destruct Hdec as (? & _ & _ & ?); done).
  unfold bind at 1 in Hr. destruct (requirePublicationPathAbsent (path KPdat x) d2) as [r3 d3] eqn:E3.
  assert (same d d3) as Hs3 by (etrans; [exact Hs2|exact (keeps_run _ _ _ _ _ (reads_absent _) E3)]).
  destruct r3 as [[]|e|]; [|injection Hr as <- <-; by apply (Hstop d3)..].
  unfold bind at 1 in Hr. destruct (requirePublicationPathAbsent (path KPman x) d3) as [r4 d4] eqn:E4.
  assert (same d d4) as Hs4 by (etrans; [exact Hs3|exact (keeps_run _ _ _ _ _ (reads_absent _) E4)]).
  destruct r4 as [[]|e|]; [|injection Hr as <- <-; by apply (Hstop d4)..].
  unfold bind at 1, wrap_err at 1 in Hr. destruct (durableRename (path KWdat x) (path KPdat x) d4) as [r5 d5] eqn:E5.
  eapply step_publishes; [exact Hs4|done..| |exact E5|].
  { subst x. by exists g, ndg, m, f, nd. }
  destruct r5 as [[]|e|]; cbn [wrap] in Hr; [right; split; [done|]|injection Hr as <- <-; by left..].
  destruct (durableRename (path KWman x) (path KPman x) d5) as [r6 d6] eqn:E6. exists r6, d6. split; [done|].
  destruct r6 as [[]|e|]; [injection Hr as <- <-; by left|..].
  - right. destruct (durableRename (path KPdat x) (path KWdat x) d6) as [[[]| |] d7]; injection Hr as <- <-; done.
  - apply durableRename_cases in E6 as [(_ & Hp & _)|(? & _ & _ & _ & _ & _ & Hp & _)]; done.
Qed.

Lemma recoverEntry_steps include name kind d r d' :
  wf d -> recoverEntry pub work include (name, kind) d = (r, d') ->
  (same d d' /\ (isManifestName name = true -> forall n, r <> Ok n)) \/
  exists x, name = batchPrefix ++ x ++ manifestSuffix /\ recovery_step x include d r d'.
Proof.
  intros Hwf Hr. unfold recoverEntry in Hr. destruct (isManifestName name); [|injection Hr as <- <-; by left]. cbn [negb] in Hr.
  destruct (negb (bool_decide (kind = Regular))); [injection Hr as <- <-; by left|].
  unfold bind at 1 in Hr. destruct (wrap_err _ _ d) as [rm d1] eqn:Em.
  pose proof (keeps_run _ _ _ _ _ (keeps_wrap _ _ _ (reads_readManifest (in_dir work name))) Em) as Hs1.
  destruct rm as [m|e|]; [|injection Hr as <- <-; by left..]. apply wrap_err_Ok, readManifest_Ok in Em as (g & ndg & Hg & Hndg & Hdec).
  destruct (bool_decide_reflect (name = batchPrefix ++ BatchID m ++ manifestSuffix)) as [En|]; [|injection Hr as <- <-; by left]. cbn [negb] in Hr.
  set (x := BatchID m) in *. assert (DataFile m = batchPrefix ++ x ++ dataSuffix) as Ef.
  { destruct Hdec as (rest & _ & _ & Hv). by apply validateManifest_file. }
  rewrite Ef in Hr. rewrite En in Hg, Hr. change (in_dir work (batchPrefix ++ x ++ manifestSuffix)) with (path KWman x) in *.
  change (in_dir pub (batchPrefix ++ x ++ manifestSuffix)) with (path KPman x) in Hr.
  change (in_dir work (batchPrefix ++ x ++ dataSuffix)) with (path KWdat x) in Hr.
  change (in_dir pub (batchPrefix ++ x ++ dataSuffix)) with (path KPdat x) in Hr.
  right. exists x. split; [done|]. clear En Ef name kind.
  assert (forall d0, same d d0 -> (forall n, r <> Ok n) -> d' = d0 -> recovery_step x include d r d') as Hstop.
  { intros d0 Hs Hno ->. apply step_waits; [done|]. intros n E. by destruct (Hno n). }
  unfold bind at 1 in Hr. destruct (recoveryRegularFileExists (path KWdat x) d1) as [r2 d2] eqn:E2.
  assert (same d d2) as Hs2 by (etrans; [exact Hs1|exact (keeps_run _ _ _ _ _ (reads_exists _) E2)]).
  destruct r2 as [wde|e|]; [|injection Hr as <- <-; by apply (Hstop d2)..].
  unfold bind at 1 in Hr. destruct (recoveryRegularFileExists (path KPdat x) d2) as [r3 d3] eqn:E3.
  assert (same d d3) as Hs3 by (etrans; [exact Hs2|exact (keeps_run _ _ _ _ _ (reads_exists _) E3)]).
  destruct r3 as [pde|e|]; [|injection Hr as <- <-; by apply (Hstop d3)..].
  unfold bind at 1 in Hr. destruct (recoveryRegularFileExists (path KPman x) d3) as [r4 d4] eqn:E4.
  assert (same d d4) as Hs4 by (etrans; [exact Hs3|exact (keeps_run _ _ _ _ _ (reads_exists _) E4)]).
  destruct r4 as [pme|e|]; [|injection Hr as <- <-; by apply (Hstop d4)..].
  destruct pme; [injection Hr as <- <-; by apply (Hstop d4)|].
  apply exists_Ok in E3; [|by eapply same_wf]. apply exists_Ok in E4; [|by eapply same_wf].
  assert (names d !! path KPman x = None) as Hpm by (by destruct Hs3 as (<- & _)).
  destruct wde, pde; [injection Hr as <- <-; by apply (Hstop d4)|..|injection Hr as <- <-; by apply (Hstop d4)].
  - destruct include; cbn [negb] in Hr; [|injection Hr as <- <-; by apply step_waits].
    eapply (publishAbandoned_steps x d d4); [done|done|by destruct Hs2 as (<- & _)|done..|exact Hr].
  - unfold bind at 1 in Hr. destruct (wrap_err _ _ d4) as [r5 d5] eqn:E5.
    assert (same d d5) as Hs5 by (etrans; [exact Hs4|exact (keeps_run _ _ _ _ _ (keeps_wrap _ _ _ (reads_verifyData _ _)) E5)]).
    destruct r5 as [[]|e|]; [|injection Hr as <- <-; by apply (Hstop d5)..].
    apply wrap_err_Ok, verifyData_Ok in E5 as (f & nd & Hf & Hnd & Hag). rewrite (proj1 Hs4) in Hf.
    assert (inodes d4 = inodes d) as Ei by apply Hs4. rewrite Ei in Hnd.
    assert (checked d x KPdat) as Hck by (exists g, ndg, m, f, nd; split_and!; done).
    unfold bind, wrap_err in Hr. destruct (durableRename (path KWman x) (path KPman x) d5) as [r6 d6] eqn:E6.
    assert (d' = d6) as -> by (by destruct r6; injection Hr).
    eapply step_completes; [exact Hs5|done..|exact E6|]. intros n ->. by destruct r6 as [[]| |].
Qed.

Lemma step_careful x include d r d' : recovery_step x include d r d' -> careful None d d'.
Proof.
  intros [Hs _|d1 r1 Hs _ _ Hr _|d1 r1 d2 Hs Hpm _ _ H1 Hrest].
  - by apply careful_same.
  - etrans; [by apply careful_same|]. pose proof (careful_publish None x KWman KPman d1 ltac:(auto)) as Hp. by rewrite Hr in Hp.
  - assert (careful (Some x) d d2) as H12.
    { etrans; [by apply careful_same|]. pose proof (careful_publish (Some x) x KWdat KPdat d1 ltac:(auto)) as Hp. by rewrite H1 in Hp. }
    apply (careful_upgrade x); [intros [_ [? ?]]; congruence|]. destruct Hrest as [[-> _]|(_ & r2 & d3 & H2 & Hrest)]; [done|].
    assert (careful (Some x) d d3) as H13.
    { etrans; [exact H12|]. pose proof (careful_publish (Some x) x KWman KPman d2 ltac:(auto)) as Hp. by rewrite H2 in Hp. }
    destruct Hrest as [[_ ->]|[-> _]]; [done|]. etrans; [exact H13|apply careful_rollback].
Qed.

(** The names that are not those of batch [x] stay. *)
Definition only (x : bytes) (d d' : dir) : Prop := forall n, (forall k, n <> path k x) -> names d' !! n = names d !! n.

Lemma only_rename x k k' d r d' : durableRename (path k x) (path k' x) d = (r, d') -> only x d d'.
Proof.
  intros Hr n Hn. apply durableRename_cases in Hr as [(_ & _ & Hs)|(i & _ & _ & En & _)]; [by rewrite (proj1 Hs)|].
  by rewrite En, lookup_insert_ne, lookup_delete_ne by (intros <-; by eapply Hn).
Qed.

Lemma step_only x include d r d' : recovery_step x include d r d' -> only x d d'.
Proof.
  intros [Hs _|d1 r1 Hs _ _ Hr _|d1 r1 d2 Hs _ _ _ H1 Hrest] n Hn.
  - by rewrite (proj1 Hs).
  - rewrite (only_rename _ _ _ _ _ _ Hr n Hn). by rewrite (proj1 Hs).
  - assert (names d2 !! n = names d !! n) as E2 by (rewrite (only_rename _ _ _ _ _ _ H1 n Hn); by rewrite (proj1 Hs)).
    destruct Hrest as [[-> _]|(_ & r2 & d3 & H2 & Hrest)]; [done|].
    assert (names d3 !! n = names d !! n) as E3 by (by rewrite (only_rename _ _ _ _ _ _ H2 n Hn)).
    destruct Hrest as [[_ ->]|[-> _]]; [done|].
    destruct (durableRename (path KPdat x) (path KWdat x) d3) as [r4 d4] eqn:H4. cbn [snd]. by rewrite (only_rename _ _ _ _ _ _ H4 n Hn).
Qed.

(** A batch of the active spool whose manifest file [g] was checked against its data. *)
Definition published_pair (d : dir) (x : bytes) (g : nat) : Prop :=
  exists ndg m f nd, names d !! path KPman x = Some g /\ inodes d !! g = Some ndg /\ decodes (i_data ndg) m /\
    names d !! path KPdat x = Some f /\ inodes d !! f = Some nd /\ agrees m (i_data nd).

Lemma published_careful d d' x g : wf d -> careful None d d' -> published_pair d x g -> published_pair d' x g.
Proof.
  intros Hwf Hc (ndg & m & f & nd & H1 & H2 & H3 & H4 & H5 & H6). destruct (Hc Hwf). assert (pair_at d x) as Hp by (split; eauto).
  exists ndg, m, f, nd. destruct (cf_pairs0 x KPman) as [-> _]; auto. destruct (cf_pairs0 x KPdat) as [-> _]; auto.
  split_and!; auto.
Qed.

Lemma rename_Ok k k' x d d' : durableRename (path k x) (path k' x) d = (Ok tt, d') ->
  exists i, names d !! path k x = Some i /\ names d' = <[path k' x := i]> (delete (path k x) (names d)) /\ inodes d' = inodes d.
Proof. intros [([] & _)|(i & Hs & _ & En & Ei & _)]%durableRename_cases; [done|eauto]. Qed.

Definition file_place (k : place) : bool := match k with KWdat | KWman | KPdat | KPman => true | _ => false end.
Lemma path_differs x k k' : file_place k = true -> k <> k' -> path k x <> path k' x.
Proof.
  intros Hk Hd E. assert (file_suffix (suffix k)) as Hs by (destruct k; first [by left|by right|done]).
  unfold spoolsafety.path in E at 1. apply file_path in E as (E1 & _ & E2); try done; [|by destruct k].
  destruct k, k'; first [done|by vm_compute in E1|by symmetry in E2].
Qed.

Lemma step_published x d r d' n g : recovery_step x true d r d' -> r = Ok n -> names d !! path KWman x = Some g -> published_pair d' x g.
Proof.
  intros Hst Er Hg. destruct Hst as [_ Hno|d1 r1 Hs _ (g' & ndg & m & f & nd & Hg' & Hndg & Hdec & Hf & Hnd & Hag) Hr Hok
    |d1 r1 d2 Hs _ _ (g' & ndg & m & f & nd & Hg' & Hndg & Hdec & Hf & Hnd & Hag) H1 Hrest].
  - by specialize (Hno n Er).
  - assert (g' = g) as -> by congruence. rewrite (Hok n Er) in Hr. apply rename_Ok in Hr as (i & Hi & En & Ei).
    destruct Hs as (Es & _ & Eis & _). rewrite Es in Hi, En. rewrite Eis in Ei. assert (i = g) as -> by congruence.
    exists ndg, m, f, nd. rewrite En, Ei, lookup_insert_eq, lookup_insert_ne, lookup_delete_ne by (by apply path_differs).
    split_and!; done.
  - assert (g' = g) as -> by congruence. destruct Hrest as [[_ Hno]|(-> & r2 & d3 & H2 & [[-> ->]|[_ Hno]])]; [by destruct (Hno n)| |by destruct (Hno n)].
    destruct Hs as (Es & _ & Eis & _). apply rename_Ok in H1 as (i & Hi & En & Ei). rewrite Es in Hi, En. rewrite Eis in Ei.
    assert (i = f) as -> by congruence. apply rename_Ok in H2 as (j & Hj & En2 & Ei2). rewrite Ei in Ei2.
    rewrite En, lookup_insert_ne, lookup_delete_ne in Hj by (by apply path_differs).
    assert (j = g) as -> by congruence. exists ndg, m, f, nd.
    rewrite En2, Ei2, lookup_insert_eq, lookup_insert_ne, lookup_delete_ne, En, lookup_insert_eq by (by apply path_differs).
    split_and!; done.
Qed.

(** *** All prepared publications *)

Lemma isManifestName_file x : isManifestName (batchPrefix ++ x ++ manifestSuffix) = true.
Proof. apply andb_true_iff. split; [apply HasPrefix_spec; eauto|apply HasSuffix_spec]. exists (batchPrefix ++ x). by rewrite app_assoc. Qed.

Lemma recoverEntry_careful include entry d : careful None d (recoverEntry pub work include entry d).2.
Proof.
  intros Hwf. destruct entry as [name kind], (recoverEntry pub work include (name, kind) d) as [r d'] eqn:E.
  apply recoverEntry_steps in E as [[Hs _]|(x & _ & Hst)]; [by apply careful_same|by eapply step_careful|done].
Qed.

Lemma recoverEntries_careful include acc es d : careful None d (recoverEntries pub work include acc es d).2.
Proof.
  revert acc d. induction es as [|e es IH]; intros acc d; cbn [recoverEntries]; [apply careful_done|].
  apply careful_bind; [apply recoverEntry_careful|]. intros n d1 _. apply IH.
Qed.

Lemma recoverEntries_published acc es d n d' x g : wf d -> NoDup es.*1 -> recoverEntries pub work true acc es d = (Ok n, d') ->
  batchPrefix ++ x ++ manifestSuffix ∈ es.*1 -> names d !! path KWman x = Some g -> published_pair d' x g.
Proof.
  revert acc d. induction es as [|[name kind] es IH]; intros acc d Hwf Hnd Hr Hin Hg; [by apply elem_of_nil in Hin|].
  cbn [recoverEntries] in Hr. apply bind_Ok in Hr as (n1 & d1 & H1 & Hr). rewrite fmap_cons in Hnd, Hin. cbn [fst] in Hnd, Hin.
  apply NoDup_cons in Hnd as [Hnotin Hnd].
  pose proof (recoverEntry_careful true (name, kind) d) as Hc1. rewrite H1 in Hc1. pose proof (cf_wf _ _ _ (Hc1 Hwf)) as Hwf1.
  pose proof (recoverEntries_careful true (acc + n1) es d1) as Hc2. rewrite Hr in Hc2. cbn [snd] in *.
  apply recoverEntry_steps in H1 as [[Hs Hno]|(x' & -> & Hst)]; [..|done].
  - apply elem_of_cons in Hin as [<-|Hin]; [by destruct (Hno (isManifestName_file x) n1)|].
    eapply IH; [done..| |by rewrite (proj1 Hs)]. done.
  - apply elem_of_cons in Hin as [E|Hin].
    + apply app_inv_head in E. apply app_inj_2 in E as [<- _]; [|done]. eapply published_careful; [done..|by eapply step_published].
    + eapply IH; [done..|]. rewrite (step_only _ _ _ _ _ Hst); [done|]. intros k E. unfold spoolsafety.path in E at 1.
      apply file_path in E as (_ & -> & _); [|done..|by right]. done.
Qed.

(** The directories the platform names. *)
Definition dirs_at (platform : Platform) (spoolDir : bytes) : Prop :=
  (forall publication, resolveDirectoryPath platform (filepath_Clean spoolDir) = Ok publication -> filepath_Base publication = pub) /\
  (forall workDir, CollectorWorkDir platform spoolDir = Ok workDir -> filepath_Base workDir = work /\ LstatKind platform workDir = Ok GoFS.Directory) /\
  (forall root, collectorQuarantineRoot platform spoolDir = Ok root -> filepath_Base root = q).

(** A recovery of prepared publications runs over a listing of the work directory. *)
Lemma recoverPrepared_entries platform spoolDir include (R : dir -> dir -> Prop) `{!PreOrder R} d :
  (forall publication, resolveDirectoryPath platform (filepath_Clean spoolDir) = Ok publication -> filepath_Base publication = pub) ->
  (forall workDir, CollectorWorkDir platform spoolDir = Ok workDir -> filepath_Base workDir = work) ->
  (forall d d', same d d' -> R d d') ->
  (forall es d, R d (recoverEntries pub work include 0 es d).2) ->
  R d (recoverPreparedPublicationsLocked platform spoolDir include d).2.
Proof.
  intros H1 H2 Hsame Hes. unfold recoverPreparedPublicationsLocked. destruct (_ || _); [reflexivity|]. unfold lift, bind at 1.
  destruct (wrap _ (resolveDirectoryPath _ _)) as [publication|e|] eqn:E1; [|reflexivity..]. apply wrap_Ok in E1. unfold bind at 1.
  destruct (wrap _ (LstatKind _ _)) as [kind|e|]; [|reflexivity..]. destruct (negb _); [reflexivity|]. unfold bind at 1.
  destruct (CollectorWorkDir _ _) as [workDir|e|] eqn:E3; [|reflexivity..]. unfold bind at 1.
  destruct (directoryExists _ _ _ _) as [[]|e|]; [|reflexivity..]. cbn [negb]. unfold bind at 1.
  destruct (wrap_err _ _ d) as [r d1] eqn:E4. assert (same d d1) as Hs.
  { pose proof (keeps_wrap same "scan FI collector work directory for recovery: %w" (ReadDirOf (filepath_Base workDir))
      (reads_syscall (fun d => (Ok _, d)) (fun d => same_refl d)) d) as Hk. by rewrite E4 in Hk. }
  destruct r as [es|e|]; [|by apply Hsame..]. rewrite (H1 _ E1), (H2 _ eq_refl). etrans; [by apply Hsame|apply Hes].
Qed.

(** Careful, and nothing but files of batches in the two directories gets or loses its name. *)
Definition careful_here (d d' : dir) : Prop :=
  wf d -> careful_change None d d' /\ forall n, (forall k x, n <> path k x) -> names d' !! n = names d !! n.
#[export] Instance careful_here_PreOrder : PreOrder careful_here.
Proof.
  split; [intros d Hwf; split; [by apply (careful_PreOrder None)|done]|].
  intros d1 d2 d3 H12 H23 Hwf. destruct (H12 Hwf) as [C1 N1], (H23 (cf_wf _ _ _ C1)) as [C2 N2].
  split; [eapply (careful_PreOrder None); [by intros _|by intros _|done]|]. intros n Hn. by rewrite N2, N1.
Qed.

Lemma recoverEntries_here include acc es d : careful_here d (recoverEntries pub work include acc es d).2.
Proof.
  revert acc d. induction es as [|[name kind] es IH]; intros acc d; [reflexivity|]. cbn [recoverEntries]. unfold bind.
  pose proof (recoverEntry_careful include (name, kind) d) as Hc. destruct (recoverEntry pub work include (name, kind) d) as [r d1] eqn:E.
  assert (careful_here d d1) as H1.
  { intros Hwf. split; [by apply Hc|]. intros n Hn.
    apply recoverEntry_steps in E as [[Hs _]|(x & _ & Hst)]; [by rewrite (proj1 Hs)| |done]. eapply step_only; [exact Hst|eauto]. }
  destruct r as [v|e|]; [|done..]. etrans; [exact H1|apply IH].
Qed.

Context (platform : Platform) (spoolDir : bytes) (Hdirs : dirs_at platform spoolDir).

Lemma recoverPrepared_careful include d : careful None d (recoverPreparedPublicationsLocked platform spoolDir include d).2.
Proof.
  destruct Hdirs as (H1 & H2 & _). apply recoverPrepared_entries; [apply _|done|intros w Hw; by apply H2|apply careful_same|].
  intros es d0. apply recoverEntries_careful.
Qed.

Lemma recoverPrepared_Ok d n d' x g : wf d -> recoverPreparedPublicationsLocked platform spoolDir true d = (Ok n, d') ->
  slash_free x -> names d !! path KWman x = Some g -> published_pair d' x g.
Proof.
  intros Hwf Hr Hx Hg. unfold recoverPreparedPublicationsLocked in Hr. destruct Hdirs as (H1 & H2 & _). res_inv Hr.
  rename v into publication, v1 into workDir. destruct (H2 _ E1) as [Ew Ek]. rewrite (H1 _ E), Ew in Hr.
  unfold directoryExists in E2. rewrite Ek, bool_decide_eq_true_2 in E2 by done. injection E2 as <-. cbn [negb] in Hr.
  apply bind_Ok in Hr as (es & d1 & Hes & Hr). apply wrap_err_Ok in Hes. apply ReadDirOf_Ok in Hes as (Hs & Hnd & Hall).
  eapply recoverEntries_published; [by eapply same_wf|done..| |by rewrite (proj1 Hs)]. apply Hall. split; [|by exists g].
  unfold slash_free in *. rewrite !elem_of_app. intros [Hin|[Hin|Hin]]; [|done|]; vm_compute in Hin;
    repeat (apply elem_of_cons in Hin as [Hin|Hin]; [discriminate Hin|]); by apply elem_of_nil in Hin.
Qed.

(** *** Provisional manifests *)

Lemma salvageEntry_careful directory entry d : directory = work \/ directory = pub ->
  careful None d (salvageEntry directory entry d).2.
Proof.
  intros Hd. destruct entry as [name kind]. unfold salvageEntry. assert (slash_free directory) as Hsl by (by destruct Hd as [->| ->]).
  destruct (HasPrefix name batchPrefix && HasSuffix name (manifestSuffix ++ openSuffix)) eqn:En; [|apply careful_done]. cbn [negb].
  destruct (negb _); [apply careful_done|]. apply andb_true_iff in En as [_ [t ->]%HasSuffix_spec].
  replace (TrimSuffix _ _) with (in_dir directory (t ++ manifestSuffix)).
  2: { symmetry. etrans; [|apply (TrimSuffix_app _ openSuffix)]. f_equal. unfold in_dir. by rewrite <- !app_assoc. }
  set (final := in_dir directory (t ++ manifestSuffix)).
  pose proof (reads_Lstat final d) as Hl. destruct (Lstat final d) as [[info|e|] d1]; cbn [snd] in *; [by apply careful_same| |by apply careful_same].
  destruct (negb _); [by apply careful_same|]. etrans; [by apply careful_same|].
  pose proof (reads_Verify directory (t ++ manifestSuffix ++ openSuffix) d1) as Hv.
  destruct (VerifyManifest _ _ d1) as [[m|e'|] d2]; cbn [snd] in Hv; [|by apply careful_same..]. etrans; [by apply careful_same|].
  apply careful_wrap, careful_rename.
  - intros id k _ _ Hk E. symmetry in E. unfold spoolsafety.path in E. apply in_dir_inj in E as [_ E]; [|by destruct k|done].
    rewrite !app_assoc in E. apply (f_equal reverse) in E. rewrite !reverse_app in E. by destruct Hk as [->| ->].
  - intros k id E. unfold final, spoolsafety.path in E. apply in_dir_inj in E as [E1 E2]; [|done|by destruct k].
    rewrite app_assoc in E2. apply suffix_inj in E2 as [Es ->]; [|by right].
    exists (if decide (directory = work) then KWtmp else KPtmp). unfold spoolsafety.path. rewrite <- app_assoc.
    destruct Hd as [->| ->]; [by rewrite decide_True|by rewrite decide_False].
Qed.

Lemma each_careful {A} (body : A -> prog dir unit) l d : (forall a d, careful None d (body a d).2) -> careful None d (each body l d).2.
Proof.
  intros Hb. revert d. induction l as [|a l IH]; intros d; cbn [each]; [apply careful_done|].
  apply careful_bind; [apply Hb|]. intros _ d1 _. apply IH.
Qed.

Lemma salvage_careful d : careful None d (salvageStartupManifestOpensLocked platform spoolDir d).2.
Proof.
  unfold salvageStartupManifestOpensLocked, lift. apply careful_bind; [apply careful_done|]. intros [publication workDir] d1 [= E <-].
  unfold startupRecoveryDirectories in E. res_inv E. destruct Hdirs as (H1 & H2 & _).
  assert (forall directory, filepath_Base directory = work \/ filepath_Base directory = pub ->
    forall d, careful None d (salvageDirectory platform directory d).2) as Hone.
  { intros directory Hd d0. unfold salvageDirectory, lift. apply careful_bind; [apply careful_done|]. intros [] d1 [= _ <-]; [|apply careful_done].
    cbn [negb]. apply careful_after_read; [apply reads_syscall; by intros ?|]. intros es d1 _ _. apply each_careful.
    intros e d2. by apply salvageEntry_careful. }
  cbn [each]. apply careful_bind; [apply Hone; left; by apply H2|]. intros _ d1 _.
  apply careful_bind; [apply Hone; right; by apply H1|]. intros _ d2 _. apply careful_done.
Qed.

(** *** The quarantine *)

Definition under (p : bytes) : Prop := exists r, p = in_dir q r.

Lemma under_path p k id : under p -> p <> path k id.
Proof. intros [r ->]. by apply outside_path. Qed.

Lemma Mkdir_spec p d r d' : (forall k id, p <> path k id) -> wf d -> Mkdir p d = (r, d') ->
  careful_change None d d' /\ forall n, n <> p -> names d' !! n = names d !! n.
Proof.
  intros Hp Hwf Hr. assert (keeps tidy (Mkdir p)) as Ht by (apply tidy_syscall; intros d0; by destruct (names d0 !! p)).
  specialize (Ht d). rewrite Hr in Ht. cbn [snd] in Ht. unfold Mkdir in Hr.
  apply same_syscall in Hr as [(fs & _ & _ & Hs)|(fs & Hr & Hs)]; [split; [by apply careful_same|]; intros n _; by rewrite (proj1 Hs)|].
  cbn in Hr. destruct (names d !! p) eqn:En; [injection Hr as <- <-; split; [by apply careful_same|done]|].
  injection Hr as <- <-. destruct Hwf as (W1 & W2 & W3).
  assert (forall i, is_Some (inodes d !! i) -> i <> next_ino d) as Hnew by (intros i Hi%W3 ->; lia).
  split; [|intros n Hn; cbn; by rewrite lookup_insert_ne]. constructor; cbn [names durable inodes next_ino]; try done.
  - split_and!; cbn [names durable inodes next_ino].
    + intros n i [[<- <-]|[_ Hn]]%lookup_insert_Some; [rewrite lookup_insert_eq; eauto|].
      rewrite lookup_insert_ne; eauto. by apply not_eq_sym, Hnew, (W1 n).
    + intros n i Hn. rewrite lookup_insert_ne; eauto. by apply not_eq_sym, Hnew, (W2 n).
    + intros i Hi. destruct (decide (i = next_ino d)) as [->|Hd]; [lia|]. rewrite lookup_insert_ne in Hi by done. specialize (W3 i Hi). lia.
  - intros i nd Hi. rewrite lookup_insert_ne; [done|]. apply not_eq_sym, Hnew. eauto.
  - intros n i Hn. exists n. rewrite lookup_insert_ne; [done|]. intros ->. congruence.
  - intros id k _ _ _. rewrite lookup_insert_ne by apply Hp. done.
  - intros id Hu k. cbn [names durable]. rewrite lookup_insert_ne by apply Hp. apply Hu.
Qed.

(** A step of the quarantine: outside it, only the name [source] may change. *)
Record moved_away (source : bytes) (s s' : spool_state) : Prop := {
  ma_careful : careful None (disk s) (disk s');
  ma_tick : (tick s <= tick s')%nat;
  ma_names n : ~ under n -> n <> source -> names (disk s') !! n = names (disk s) !! n
}.

Lemma quarantineDirectory_spec qd s r s' source : (forall x, qd = Some x -> under x) -> wf (disk s) ->
  quarantineDirectory platform spoolDir qd s = (r, s') -> moved_away source s s' /\ forall x, r = Ok x -> under x.
Proof.
  intros Hqd Hwf Hr. assert (forall d, same (disk s) d -> forall w t, (tick s <= t)%nat -> moved_away source s (SS w d t)) as Hsame.
  { intros d Hs w t Ht. constructor; [by apply careful_same|done|]. intros n _ _. cbn. by rewrite (proj1 Hs). }
  assert (moved_away source s s) as Hrefl by (destruct s; apply Hsame; [apply same_refl|done]).
  unfold quarantineDirectory, lift in Hr. destruct qd as [x|]; [injection Hr as <- <-; split; [done|]; intros ? [= <-]; auto|].
  unfold bind at 1 in Hr. destruct (collectorQuarantineRoot platform spoolDir) as [root| |] eqn:Er; [|injection Hr as <- <-; done..].
  destruct Hdirs as (_ & _ & H3). rewrite (H3 _ Er) in Hr. unfold bind at 1, on_disk at 1 in Hr.
  destruct (wrap_err _ _ (disk s)) as [r1 d1] eqn:E1.
  assert (same (disk s) d1) as Hs1.
  { eapply (keeps_run same (wrap_err "create FI collector quarantine root: %w" (syscall (ret tt)))); [|exact E1].
    apply keeps_wrap, reads_syscall. by intros ?. }
  destruct r1 as [[]| |]; [|injection Hr as <- <-; split; [by apply Hsame|done]..].
  unfold bind at 1 in Hr. destruct (LstatKind platform root) as [kind| |]; [|injection Hr as <- <-; split; [by apply Hsame|done]..].
  destruct (negb _); [injection Hr as <- <-; split; [by apply Hsame|done]|]. unfold bind at 1, freshBatchID in Hr. cbn [writer disk tick] in Hr.
  destruct (newBatchID (tick s)) as [id| |]; [|injection Hr as <- <-; split; [apply Hsame; [done|lia]|done]..].
  unfold bind at 1, on_disk, wrap_err in Hr. cbn [writer disk tick] in Hr. set (p := in_dir q (bs "recovery-" ++ id)) in *.
  assert (under p) as Hp by (by eexists). destruct (Mkdir p d1) as [r2 d2] eqn:E2.
  destruct (Mkdir_spec p d1 r2 d2 (fun k id => under_path p k id Hp) (same_wf _ _ Hs1 Hwf) E2) as [Hc Hn].
  assert (moved_away source s (SS (writer s) d2 (S (tick s)))) as Hm.
  { constructor; cbn [disk tick]; [|lia|].
    - etrans; [by apply careful_same|]. by intros _.
    - intros n Hu _. rewrite Hn by (by intros ->). by rewrite (proj1 Hs1). }
  destruct r2 as [[]| |]; injection Hr as <- <-; (split; [done|]); [by intros x [= <-]|done..].
Qed.

Lemma quarantine_move_spec qd directory name label s r s' : (forall x, qd = Some x -> under x) -> wf (disk s) ->
  (directory = work \/ directory = pub) ->
  (forall id, in_dir directory name <> path KPman id /\
     (in_dir directory name = path KPdat id -> names (disk s) !! path KPman id = None)) ->
  quarantine_move platform spoolDir qd directory name label s = (r, s') ->
  moved_away (in_dir directory name) s s' /\
  forall q', r = Ok q' -> names (disk s') !! in_dir directory name = None /\ forall x, q' = Some x -> under x.
Proof.
  intros Hqd Hwf Hd Hpair Hr. unfold quarantine_move in Hr. unfold bind at 1 in Hr.
  destruct (quarantineDirectory platform spoolDir qd s) as [r1 s1] eqn:E1.
  eapply (quarantineDirectory_spec _ _ _ _ (in_dir directory name)) in E1 as [[Hc1 Ht1 Hn1] Hu]; [|done..].
  destruct r1 as [x| |]; [|injection Hr as <- <-; done..]. specialize (Hu x eq_refl) as Hux.
  assert (under (in_dir x (label ++ bs "-" ++ name))) as Hdst by (destruct Hux as [y ->]; rewrite in_dir_assoc; by eexists).
  set (dst := in_dir x (label ++ bs "-" ++ name)) in *. unfold bind at 1, on_disk at 1 in Hr.
  destruct (requirePublicationPathAbsent dst (disk s1)) as [r2 d2] eqn:E2.
  pose proof (keeps_run _ _ _ _ _ (reads_absent _) E2) as Hs2.
  assert (forall w, moved_away (in_dir directory name) s (SS w d2 (tick s1))) as Hm2.
  { intros w. constructor; cbn [disk tick]; [etrans; [exact Hc1|by apply careful_same]|done|]. intros n H1 H2. rewrite (proj1 Hs2). auto. }
  destruct r2 as [[]| |]; [|injection Hr as <- <-; done..].
  unfold bind at 1, on_disk, wrap_err in Hr. cbn [writer disk tick] in Hr.
  destruct (durableRename (in_dir directory name) dst d2) as [r3 d3] eqn:E3.
  assert (forall k id, ~ under (path k id)) as Hnu by (intros k id Hk; by apply (under_path _ k id) in Hk).
  assert (careful None d2 d3) as Hc3.
  { assert (d3 = (durableRename (in_dir directory name) dst d2).2) as -> by (by rewrite E3). apply careful_rename.
    - intros id k _ [_ [i Hi]] Hk E. destruct (Hpair id) as [Hman Hdat]. destruct Hk as [->| ->]; [|done].
      rewrite (proj1 Hs2), Hn1, (Hdat E) in Hi by (first [apply Hnu|congruence]). done.
    - intros k id E. by apply (under_path _ k id) in Hdst. }
  assert (~ under (in_dir directory name)) as Hsrc.
  { intros [y E]. apply in_dir_inj in E as [E _]; [|by destruct Hd as [->| ->]|done]. by destruct Hd as [->| ->]. }
  destruct (Hm2 (writer s1)) as [Hc2 Ht2 Hn2]. cbn [disk tick] in Hc2, Ht2, Hn2.
  assert (s' = SS (writer s1) d3 (tick s1)) as -> by (by destruct r3 as [[]| |]; injection Hr).
  assert (forall n, ~ under n -> n <> in_dir directory name -> names d3 !! n = names (disk s) !! n) as Hn3.
  { intros n H1 H2. rewrite <- Hn2 by done. apply durableRename_cases in E3 as [(_ & _ & Hs)|(i & _ & _ & En & _)]; [by rewrite (proj1 Hs)|].
    by rewrite En, lookup_insert_ne, lookup_delete_ne by (intros E; by subst n). }
  split; [constructor; [by etrans|done|exact Hn3]|]. cbn [disk]. intros q' ->. destruct r3 as [[]| |]; [|done..]. injection Hr as <-.
  split; [|by intros ? [= <-]]. apply durableRename_cases in E3 as [([] & _)|(i & _ & _ & En & _)]; [done|].
  rewrite En, lookup_insert_ne by (intros E; apply Hsrc; by rewrite <- E). apply lookup_delete_eq.
Qed.

(** A directory was swept of the entries [gone]; what is not in the quarantine stays otherwise. *)
Record swept (directory : bytes) (gone : bytes -> Prop) (s s' : spool_state) : Prop := {
  sw_gone n : gone n -> names (disk s') !! in_dir directory n = None;
  sw_rest p : ~ under p -> (forall n, gone n -> p <> in_dir directory n) -> names (disk s') !! p = names (disk s) !! p
}.

Lemma swept_cons directory (gone gone' : bytes -> Prop) name s s1 s2 : slash_free directory -> directory <> q ->
  moved_away (in_dir directory name) s s1 -> names (disk s1) !! in_dir directory name = None -> swept directory gone s1 s2 ->
  (forall n, gone' n <-> n = name \/ gone n) -> (forall n, {gone n} + {~ gone n}) -> swept directory gone' s s2.
Proof.
  intros Hsl Hdq [_ _ Hn] Hnone [Hg Hr] Hiff Hdec. assert (forall n, ~ under (in_dir directory n)) as Hnu
    by (intros n [y E]; apply in_dir_inj in E as [? _]; done).
  assert (forall n m, in_dir directory n = in_dir directory m -> n = m) as Hinj by (intros n m E; by apply in_dir_inj in E as [_ ?]).
  constructor.
  - intros n [->|Hgn]%Hiff; [|auto]. destruct (Hdec name) as [Hy|Hno]; [auto|].
    rewrite Hr; [done|auto|]. intros m Hm E. apply Hinj in E as ->. done.
  - intros p Hp Hne'. rewrite Hr; [|done|]. 2: { intros n Hgn. apply Hne', Hiff. by right. }
    apply Hn; [done|]. apply Hne', Hiff. by left.
Qed.

Lemma quarantineWork_spec es qd s r s' : (forall x, qd = Some x -> under x) -> wf (disk s) ->
  quarantineWorkEntries platform spoolDir work qd es s = (r, s') ->
  careful None (disk s) (disk s') /\ (tick s <= tick s')%nat /\
  forall q', r = Ok q' -> swept work (fun n => n ∈ es.*1) s s' /\ forall x, q' = Some x -> under x.
Proof.
  revert qd s. induction es as [|[name kind] es IH]; intros qd s Hqd Hwf Hr; cbn [quarantineWorkEntries] in Hr.
  { injection Hr as <- <-. split_and!; [done..|]. intros q' [= <-]. split; [|done]. constructor; [by intros n ?%elem_of_nil|done]. }
  destruct (negb _); [injection Hr as <- <-; by split_and!|]. destruct (_ && _); [injection Hr as <- <-; by split_and!|].
  unfold bind at 1 in Hr. destruct (quarantine_move _ _ _ _ _ _ s) as [r1 s1] eqn:E1.
  apply quarantine_move_spec in E1 as [Hm Hok]; [|done|done|by left|].
  2: { intros id. split; [intros E|intros E; exfalso]; symmetry in E; unfold spoolsafety.path in E; apply in_dir_inj in E as [E _]; done. }
  pose proof (cf_wf _ _ _ (ma_careful _ _ _ Hm Hwf)) as Hwf1. pose proof (ma_tick _ _ _ Hm) as Ht1. pose proof (ma_careful _ _ _ Hm) as Hc1.
  destruct r1 as [qd1| |]; [|injection Hr as <- <-; by split_and!..]. destruct (Hok qd1 eq_refl) as [Hnone Hqd1].
  apply IH in Hr as (Hc & Ht & Hres); [|done..]. split_and!; [by etrans|lia|]. intros q' Eq. destruct (Hres q' Eq) as [Hsw Hq']. split; [|done].
  eapply (swept_cons work _ _ name); [done|by apply not_eq_sym|done..| |]; cbv beta.
  - intros n. rewrite fmap_cons, elem_of_cons. done.
  - intros n. destruct (decide (n ∈ es.*1)); auto.
Qed.

(** A residual of the active spool is no half of a pair. *)
Lemma residual_not_pair (d : dir) manifests name id : isResidual manifests name = true -> slash_free name ->
  (forall n, slash_free n -> is_Some (names d !! in_dir pub n) -> isManifestName n = true -> n ∈ manifests) ->
  in_dir pub name <> path KPman id /\ (in_dir pub name = path KPdat id -> names d !! path KPman id = None).
Proof.
  intros Hres Hsl Hall. split; intros E; unfold spoolsafety.path in E; apply in_dir_inj in E as [_ ->]; try done; unfold isResidual in Hres.
  - rewrite (proj2 (HasSuffix_spec _ _)) in Hres; [done|]. exists (bs "batch-" ++ id). by rewrite <- app_assoc.
  - destruct (HasSuffix _ manifestSuffix); [done|]. rewrite (proj2 (HasSuffix_spec _ _)) in Hres.
    2: { exists (bs "batch-" ++ id). by rewrite <- app_assoc. }
    rewrite app_assoc, (TrimSuffix_app _ dataSuffix), <- app_assoc in Hres. apply negb_true_iff, bool_decide_eq_false in Hres.
    destruct (names d !! path KPman id) as [i|] eqn:En; [|done]. destruct Hres. apply Hall; [|by exists i|apply isManifestName_file].
    unfold slash_free in *. rewrite !elem_of_app in Hsl |- *. intros [Hin|[Hin|Hin]]; [apply Hsl; by left|apply Hsl; right; by left|].
    vm_compute in Hin. repeat (apply elem_of_cons in Hin as [Hin|Hin]; [discriminate Hin|]). by apply elem_of_nil in Hin.
Qed.

Lemma quarantineSpool_spec manifests es qd s r s' : (forall x, qd = Some x -> under x) -> wf (disk s) -> Forall slash_free es.*1 ->
  (forall n, slash_free n -> is_Some (names (disk s) !! in_dir pub n) -> isManifestName n = true -> n ∈ manifests) ->
  quarantineSpoolEntries platform spoolDir pub manifests qd es s = (r, s') ->
  careful None (disk s) (disk s') /\ (tick s <= tick s')%nat /\
  forall q', r = Ok q' -> swept pub (fun n => n ∈ es.*1 /\ isResidual manifests n = true) s s'.
Proof.
  revert qd s. induction es as [|[name kind] es IH]; intros qd s Hqd Hwf Hsl Hall Hr; cbn [quarantineSpoolEntries] in Hr.
  { injection Hr as <- <-. split_and!; [done..|]. intros q' [= <-]. constructor; [by intros n [?%elem_of_nil _]|done]. }
  rewrite fmap_cons in Hsl. apply Forall_cons in Hsl as [Hname Hsl]. cbn [fst] in Hname.
  destruct (isResidual manifests name) eqn:Eres; cbn [negb] in Hr.
  2: { apply IH in Hr as (Hc & Ht & Hres); [|done..]. split_and!; [done..|]. intros q' Eq. destruct (Hres q' Eq) as [Hg Hrest].
       constructor.
       - intros n [[->|Hn]%elem_of_cons Hn2]; [cbn in Hn2; congruence|auto].
       - intros p Hp Hne'. apply Hrest; [done|]. intros n [Hn Hn2]. apply Hne'. split; [by right|done]. }
  unfold bind at 1 in Hr. destruct (quarantine_move _ _ _ _ _ _ s) as [r1 s1] eqn:E1.
  apply quarantine_move_spec in E1 as [Hm Hok]; [|done|done|by right|by intros id; eapply residual_not_pair].
  pose proof (cf_wf _ _ _ (ma_careful _ _ _ Hm Hwf)) as Hwf1. pose proof (ma_tick _ _ _ Hm) as Ht1. pose proof (ma_careful _ _ _ Hm) as Hc1.
  destruct r1 as [qd1| |]; [|injection Hr as <- <-; by split_and!..]. destruct (Hok qd1 eq_refl) as [Hnone Hqd1].
  apply IH in Hr as (Hc & Ht & Hres); [|done..|].
  2: { intros n Hn [i Hi] Hman. apply Hall; [done| |done]. rewrite (ma_names _ _ _ Hm) in Hi; [by exists i| |intros E; congruence].
       intros [y E]. apply in_dir_inj in E as [? _]; [by symmetry in H1|done..]. }
  split_and!; [by etrans|lia|]. intros q' Eq.
  eapply (swept_cons pub _ _ name); [done|by apply not_eq_sym|done|done|by eapply Hres| |]; cbv beta.
  - intros n. rewrite fmap_cons, elem_of_cons. cbn [fst]. split; [intros [[->|?] ?]; auto|intros [->|[? ?]]; auto].
  - intros n. destruct (decide (n ∈ es.*1 /\ isResidual manifests n = true)); auto.
Qed.

(** What a name with both ends is. *)
Lemma both_ends name s : HasPrefix name batchPrefix = true -> HasSuffix name s = true -> file_suffix s ->
  exists x, name = batchPrefix ++ x ++ s.
Proof.
  intros [u ->]%HasPrefix_spec [t E]%HasSuffix_spec Hs. assert (exists x, t = batchPrefix ++ x) as [x ->].
  { destruct Hs as [->| ->]; do 6 (destruct t as [|? t]; [discriminate E|]); injection E as <- <- <- <- <- <- E; by exists t. }
  exists x. by rewrite <- app_assoc in E.
Qed.

(** Every entry of the active spool is half of a pair. *)
Definition all_paired (d : dir) : Prop := forall n, slash_free n -> is_Some (names d !! in_dir pub n) ->
  exists id, (n = batchPrefix ++ id ++ dataSuffix \/ n = batchPrefix ++ id ++ manifestSuffix) /\ pair_at d id.

Lemma checkSpoolEntries_Ok es n : checkSpoolEntries es = Ok tt -> n ∈ es.*1 ->
  isManifestName n = true \/ isDataName n = true \/ isOpenName n = true.
Proof.
  induction es as [|[name kind] es IH]; intros Hc Hin; [by apply elem_of_nil in Hin|]. cbn [checkSpoolEntries] in Hc.
  rewrite fmap_cons in Hin. apply elem_of_cons in Hin as [->|Hin]; res_inv Hc; [|auto]. cbn [fst].
  unfold checkSpoolEntry in E. res_inv E. destruct (isManifestName name), (isDataName name), (isOpenName name); auto; done.
Qed.

Lemma file_slash_free x s : file_suffix s -> slash_free (batchPrefix ++ x ++ s) <-> slash_free x.
Proof.
  intros Hs. unfold slash_free. rewrite !elem_of_app. split; [intros Hn Hx; apply Hn; auto|].
  intros Hx [Hin|[Hin|Hin]]; [|done|destruct Hs as [->| ->]]; vm_compute in Hin;
    repeat (apply elem_of_cons in Hin as [Hin|Hin]; [discriminate Hin|]); by apply elem_of_nil in Hin.
Qed.

Lemma not_residual manifests x s : file_suffix s -> batchPrefix ++ x ++ manifestSuffix ∈ manifests ->
  isResidual manifests (batchPrefix ++ x ++ s) = false.
Proof.
  intros Hs Hin. unfold isResidual. destruct (HasSuffix _ manifestSuffix); [done|]. rewrite app_assoc. destruct Hs as [->| ->].
  - rewrite (proj2 (HasSuffix_spec _ dataSuffix)), TrimSuffix_app, <- app_assoc by eauto. by rewrite bool_decide_eq_true_2.
  - destruct (HasSuffix _ dataSuffix) eqn:E; [|destruct (HasSuffix _ openSuffix) eqn:E'; [|done]].
    + suffix_clash E.
    + suffix_clash E'.
Qed.

Lemma swept_paired es s s' : swept pub (fun n => n ∈ es.*1 /\ isResidual (manifestsOf es) n = true) s s' ->
  (forall n, n ∈ es.*1 <-> slash_free n /\ is_Some (names (disk s) !! in_dir pub n)) -> checkSpoolEntries es = Ok tt ->
  forallb (fun m => bool_decide (TrimSuffix m manifestSuffix ++ dataSuffix ∈ dataFilesOf es)) (manifestsOf es) = true ->
  all_paired (disk s').
Proof.
  intros [Hgone Hrest] Hes Hcheck Hdata n Hn [i Hi].
  assert (forall m, ~ under (in_dir pub m)) as Hnu by (intros m [y E]; apply in_dir_inj in E as [E _]; [by symmetry in E|done..]).
  assert (forall m, m ∈ es.*1 -> isResidual (manifestsOf es) m = false -> is_Some (names (disk s') !! in_dir pub m)) as Hstay.
  { intros m Hm Hr. rewrite Hrest; [by apply Hes|done|]. intros m' [_ Hm'] E. apply in_dir_inj in E as [_ ->]; [congruence|done..]. }
  assert (n ∈ es.*1) as Hin.
  { destruct (decide (n ∈ es.*1)) as [|Hno]; [done|]. rewrite Hrest in Hi; [apply Hes; eauto|done|].
    intros m [Hm _] E. apply in_dir_inj in E as [_ ->]; done. }
  assert (isResidual (manifestsOf es) n = false) as Hres.
  { destruct (isResidual (manifestsOf es) n) eqn:E; [|done]. rewrite Hgone in Hi; [done|by split]. }
  assert (forall x, batchPrefix ++ x ++ manifestSuffix ∈ manifestsOf es -> pair_at (disk s') x) as Hpair.
  { intros x Hx. rewrite forallb_forall in Hdata. specialize (Hdata _ (proj1 (list_elem_of_In _ _) Hx)). apply bool_decide_eq_true in Hdata.
    rewrite app_assoc, (TrimSuffix_app _ manifestSuffix), <- app_assoc in Hdata.
    apply list_elem_of_filter in Hdata as [_ Hdata]. pose proof Hx as [_ Hx']%list_elem_of_filter.
    split; apply Hstay; try done; apply not_residual; first [done|by left|by right]. }
  destruct (checkSpoolEntries_Ok es n Hcheck Hin) as [Hm|[Hd|Ho]].
  - pose proof Hm as [Hp Hs]%andb_true_iff. destruct (both_ends n manifestSuffix) as [x ->]; [done..|by right|].
    exists x. split; [by right|]. apply Hpair. apply list_elem_of_filter. split; [by rewrite Hm|done].
  - pose proof Hd as [Hp Hs]%andb_true_iff. destruct (both_ends n dataSuffix) as [x ->]; [done..|by left|].
    exists x. split; [by left|]. apply Hpair. unfold isResidual in Hres.
    destruct (HasSuffix (batchPrefix ++ x ++ dataSuffix) manifestSuffix) eqn:E.
    { suffix_clash E. }
    rewrite Hs in Hres. apply negb_false_iff, bool_decide_eq_true in Hres. by rewrite app_assoc, (TrimSuffix_app _ dataSuffix), <- app_assoc in Hres.
  - apply andb_true_iff in Ho as [_ Ho]. unfold isResidual in Hres. apply HasSuffix_spec in Ho as [t ->].
    rewrite (proj2 (HasSuffix_spec _ openSuffix)) in Hres by eauto.
    destruct (HasSuffix _ manifestSuffix) eqn:E1; [|destruct (HasSuffix _ dataSuffix) eqn:E2; [|done]].
    + suffix_clash E1.
    + suffix_clash E2.
Qed.

(** *** The whole recovery *)

Lemma quarantineResiduals_spec publication qd s r s' : (forall x, qd = Some x -> under x) -> wf (disk s) -> filepath_Base publication = pub ->
  quarantinePublicationResiduals platform spoolDir publication qd s = (r, s') ->
  careful None (disk s) (disk s') /\ (tick s <= tick s')%nat /\
  forall q', r = Ok q' -> all_paired (disk s') /\ forall n, names (disk s') !! in_dir work n = names (disk s) !! in_dir work n.
Proof.
  intros Hqd Hwf Ep Hr. unfold quarantinePublicationResiduals in Hr. rewrite Ep in Hr. unfold bind at 1, on_disk at 1 in Hr.
  destruct (ReadDirOf pub (disk s)) as [r1 d1] eqn:E1.
  assert (same (disk s) d1) as Hs1 by (eapply (keeps_run same); [|exact E1]; apply reads_syscall; by intros ?).
  destruct r1 as [es| |]; [|injection Hr as <- <-; split_and!; [by apply careful_same|done..]..].
  apply ReadDirOf_Ok in E1 as (_ & _ & Hes). unfold bind at 1, lift in Hr.
  destruct (checkSpoolEntries es) as [[]| |] eqn:Ec; [|injection Hr as <- <-; split_and!; [by apply careful_same|done..]..].
  destruct (forallb _ _) eqn:Ed; cbn [negb] in Hr; [|injection Hr as <- <-; split_and!; [by apply careful_same|done..]].
  assert (forall n, n ∈ es.*1 <-> slash_free n /\ is_Some (names d1 !! in_dir pub n)) as Hes1 by (intros n; rewrite (proj1 Hs1); apply Hes).
  apply quarantineSpool_spec in Hr as (Hc & Ht & Hres); [|done|by eapply same_wf| |].
  - cbn [disk tick] in *. split_and!; [etrans; [by apply careful_same|done]|done|]. intros q' Eq. specialize (Hres q' Eq) as Hsw.
    split; [by eapply swept_paired|]. intros n. destruct Hsw as [_ Hrest]. rewrite Hrest; [by cbn [disk]; rewrite (proj1 Hs1)|..].
    + intros [y E]. apply in_dir_inj in E as [E _]; [by symmetry in E|done..].
    + intros m _ E. apply in_dir_inj in E as [E _]; done.
  - apply Forall_forall. intros n Hn. by apply Hes.
  - cbn [disk]. intros n Hn Hb Hm. apply list_elem_of_filter. split; [by rewrite Hm|]. by apply Hes1.
Qed.

Lemma quarantineStartup_spec s r s' : wf (disk s) -> quarantineStartupIncompleteArtifactsLocked platform spoolDir s = (r, s') ->
  careful None (disk s) (disk s') /\ (tick s <= tick s')%nat /\
  (r = Ok tt -> all_paired (disk s') /\ forall n, slash_free n -> names (disk s') !! in_dir work n = None).
Proof.
  intros Hwf Hr. unfold quarantineStartupIncompleteArtifactsLocked in Hr. unfold bind at 1, lift in Hr.
  destruct (startupRecoveryDirectories platform spoolDir) as [[publication workDir]| |] eqn:Es; [|injection Hr as <- <-; by split_and!..].
  unfold startupRecoveryDirectories in Es. res_inv Es. destruct Hdirs as (H1 & H2 & _). destruct (H2 workDir) as [Ew Ek]; [done|].
  specialize (H1 publication ltac:(done)) as Ep. unfold bind at 1 in Hr.
  destruct (quarantineCollectorWorkResiduals platform spoolDir workDir None s) as [r1 s1] eqn:E1.
  assert (careful None (disk s) (disk s1) /\ (tick s <= tick s1)%nat /\ forall q', r1 = Ok q' ->
    (forall x, q' = Some x -> under x) /\ forall n, slash_free n -> names (disk s1) !! in_dir work n = None) as (Hc1 & Ht1 & Hok1).
  { unfold quarantineCollectorWorkResiduals, lift in E1. unfold bind at 1, directoryExists in E1. rewrite Ek, Ew, bool_decide_eq_true_2 in E1 by done.
    cbn [negb] in E1. unfold bind at 1, on_disk at 1 in E1. destruct (ReadDirOf work (disk s)) as [r2 d2] eqn:E2.
    assert (same (disk s) d2) as Hs2 by (eapply (keeps_run same); [|exact E2]; apply reads_syscall; by intros ?).
    destruct r2 as [es| |]; [|injection E1 as <- <-; split_and!; [by apply careful_same|done..]..].
    apply ReadDirOf_Ok in E2 as (_ & _ & Hes). apply quarantineWork_spec in E1 as (Hc & Ht & Hres); [|done|by eapply same_wf].
    cbn [disk tick] in *. split_and!; [etrans; [by apply careful_same|done]|done|]. intros q' Eq. destruct (Hres q' Eq) as [[Hg Hrest] Hu].
    split; [done|]. intros n Hn. destruct (decide (n ∈ es.*1)) as [|Hno]; [auto|]. rewrite Hrest; cbn [disk].
    - rewrite (proj1 Hs2). destruct (names (disk s) !! in_dir work n) eqn:En; [|done]. destruct Hno. apply Hes. by rewrite En.
    - intros [y E9]. apply in_dir_inj in E9 as [E9 _]; [by symmetry in E9|done..].
    - intros m Hm E9. apply in_dir_inj in E9 as [_ ->]; done. }
  destruct r1 as [q1| |]; [|injection Hr as <- <-; by split_and!..]. destruct (Hok1 q1 eq_refl) as [Hq1 Hempty].
  unfold bind at 1 in Hr. destruct (quarantinePublicationResiduals platform spoolDir publication q1 s1) as [r3 s3] eqn:E3.
  apply quarantineResiduals_spec in E3 as (Hc3 & Ht3 & Hok3); [|done|apply (cf_wf _ _ _ (Hc1 Hwf))|done].
  destruct r3 as [q3| |]; injection Hr as <- <-; (split_and!; [by etrans|lia|]); [|done..].
  intros _. destruct (Hok3 q3 eq_refl) as [Hp Hw]. split; [done|]. intros n Hn. rewrite Hw. auto.
Qed.

Lemma on_disk_careful {A} (p : prog dir A) s r s' : (forall d, careful None d (p d).2) -> on_disk p s = (r, s') ->
  p (disk s) = (r, disk s') /\ careful None (disk s) (disk s') /\ tick s' = tick s.
Proof.
  intros Hp Hr. specialize (Hp (disk s)). unfold on_disk in Hr. destruct (p (disk s)) as [r1 d1]. injection Hr as <- <-. done.
Qed.

(** Between the two calls on the publication boundary. *)
Definition recoverUnderBoundary : prog spool_state Z :=
  let! recovered := on_disk (recoverPreparedPublicationsLocked platform spoolDir true) in
  check! on_disk (salvageStartupManifestOpensLocked platform spoolDir) ;;
  let! additional := on_disk (recoverPreparedPublicationsLocked platform spoolDir true) in
  check! quarantineStartupIncompleteArtifactsLocked platform spoolDir ;;
  ret (recovered + additional).

Lemma recoverUnderBoundary_spec s r s' : wf (disk s) -> recoverUnderBoundary s = (r, s') ->
  careful None (disk s) (disk s') /\ (tick s <= tick s')%nat /\
  forall n, r = Ok n ->
    (forall x g, slash_free x -> names (disk s) !! path KWman x = Some g -> published_pair (disk s') x g) /\
    all_paired (disk s') /\ forall m, slash_free m -> names (disk s') !! in_dir work m = None.
Proof.
  intros Hwf Hr. unfold recoverUnderBoundary in Hr. unfold bind at 1 in Hr. destruct (on_disk _ s) as [r1 s1] eqn:E1.
  apply on_disk_careful in E1 as (E1 & Hc1 & Ht1); [|apply recoverPrepared_careful]. pose proof (cf_wf _ _ _ (Hc1 Hwf)) as Hwf1.
  destruct r1 as [n1| |]; [|injection Hr as <- <-; split_and!; [done|lia|done]..].
  unfold bind at 1 in Hr. destruct (on_disk _ s1) as [r2 s2] eqn:E2. apply on_disk_careful in E2 as (_ & Hc2 & Ht2); [|apply salvage_careful].
  pose proof (cf_wf _ _ _ (Hc2 Hwf1)) as Hwf2. assert (careful None (disk s) (disk s2)) as Hc12 by (by etrans).
  destruct r2 as [[]| |]; [|injection Hr as <- <-; split_and!; [done|lia|done]..].
  unfold bind at 1 in Hr. destruct (on_disk _ s2) as [r3 s3] eqn:E3. apply on_disk_careful in E3 as (_ & Hc3 & Ht3); [|apply recoverPrepared_careful].
  pose proof (cf_wf _ _ _ (Hc3 Hwf2)) as Hwf3. assert (careful None (disk s) (disk s3)) as Hc13 by (by etrans).
  destruct r3 as [n3| |]; [|injection Hr as <- <-; split_and!; [done|lia|done]..].
  unfold bind at 1 in Hr. destruct (quarantineStartupIncompleteArtifactsLocked platform spoolDir s3) as [r4 s4] eqn:E4.
  apply quarantineStartup_spec in E4 as (Hc4 & Ht4 & Hok4); [|done].
  assert (careful None (disk s) (disk s4)) as Hc14 by (by etrans).
  destruct r4 as [[]| |]; injection Hr as <- <-; (split_and!; [done|lia|]); [|done..]. intros n _. destruct (Hok4 eq_refl) as [Hp He].
  split_and!; [|done..]. intros x g Hx Hg. eapply (published_careful (disk s1)); [done|etrans; [exact Hc2|etrans; [exact Hc3|exact Hc4]]|].
  eapply recoverPrepared_Ok; [exact Hwf|exact E1|done..].
Qed.

Lemma RecoverAbandoned_spec s r s' : wf (disk s) -> RecoverAbandonedPublications platform spoolDir s = (r, s') ->
  careful None (disk s) (disk s') /\ (tick s <= tick s')%nat /\
  forall n, r = Ok n ->
    (forall x g, slash_free x -> names (disk s) !! path KWman x = Some g -> published_pair (disk s') x g) /\
    all_paired (disk s') /\ forall m, slash_free m -> names (disk s') !! in_dir work m = None.
Proof.
  assert (reads (@syscall unit (ret tt))) as Hsys by (apply reads_syscall, keeps_ret, _).
  assert (forall d, careful None d (syscall (ret tt) d).2) as Hcall by (intros d; by apply careful_same).
  intros Hwf Hr. unfold RecoverAbandonedPublications in Hr. fold recoverUnderBoundary in Hr. unfold bind at 1 in Hr.
  destruct (on_disk _ s) as [r1 s1] eqn:E1. apply on_disk_careful in E1 as (E1 & Hc1 & Ht1); [|intros d; by apply careful_wrap].
  assert (same (disk s) (disk s1)) as Hs1 by (eapply (keeps_run same); [|exact E1]; by apply keeps_wrap).
  destruct r1 as [[]| |]; [|injection Hr as <- <-; split_and!; [done|lia|done]..].
  destruct (recoverUnderBoundary s1) as [r2 s2] eqn:E2. apply recoverUnderBoundary_spec in E2 as (Hc2 & Ht2 & Hok2); [|apply (cf_wf _ _ _ (Hc1 Hwf))].
  destruct (on_disk (syscall (ret tt)) s2) as [r3 s3] eqn:E3. apply on_disk_careful in E3 as (E3 & Hc3 & Ht3); [|done].
  pose proof (keeps_run _ _ _ _ _ Hsys E3) as Hs3. assert (s' = s3) as -> by (by destruct r2, r3 as [[]| |]; injection Hr).
  split_and!; [etrans; [exact Hc1|by etrans]|lia|]. intros n ->. destruct r2 as [n2| |]; [|by destruct r3; injection Hr..].
  destruct (Hok2 n2 eq_refl) as (Hpub2 & Hpair2 & Hempty2). destruct Hs3 as (En & Ed & Ei & _). split_and!.
  - intros x g Hx Hg. unfold published_pair. rewrite En, Ei. apply Hpub2; [done|]. by rewrite (proj1 Hs1).
  - unfold all_paired, pair_at. rewrite En. apply Hpair2.
  - rewrite En. apply Hempty2.
Qed.

(** [C12] The recovery at start-up loses nothing, whatever it finds and whatever fails: every
    file keeps its content and a name, and the complete batches of the active spool stay where
    they are. When it succeeds, every manifest of the work directory is published, next to
    data it was checked against; every file of the active spool belongs to a complete batch;
    and the work directory is empty. *)
Theorem RecoverAbandonedPublications_sound s r s' : wf (disk s) -> RecoverAbandonedPublications platform spoolDir s = (r, s') ->
  (forall n i nd, names (disk s) !! n = Some i -> inodes (disk s) !! i = Some nd ->
     exists n', names (disk s') !! n' = Some i /\ inodes (disk s') !! i = Some nd) /\
  (forall id k, pair_at (disk s) id -> k = KPdat \/ k = KPman -> names (disk s') !! path k id = names (disk s) !! path k id) /\
  forall n, r = Ok n ->
    (forall x g, slash_free x -> names (disk s) !! path KWman x = Some g -> published_pair (disk s') x g) /\
    all_paired (disk s') /\ forall m, slash_free m -> names (disk s') !! in_dir work m = None.
Proof.
  intros Hwf Hr. apply RecoverAbandoned_spec in Hr as (Hc & _ & Hok); [|done]. destruct (Hc Hwf). split_and!; [..|done].
  - intros n i nd Hn Hi. destruct (cf_files0 n i Hn) as [n' Hn']. eauto.
  - intros id k Hp Hk. by apply cf_pairs0.
Qed.

(** *** Interrupted artifacts *)

Definition artifact_suffix (kind : InterruptedArtifactKind) : bytes :=
  match kind with
  | InterruptedOpenData => openSuffix | InterruptedOpenManifest => manifestSuffix ++ openSuffix
  | InterruptedOrphanData => dataSuffix | InterruptedOrphanManifest => manifestSuffix
  end.
Definition artifact_of (kind : InterruptedArtifactKind) (a : batchArtifacts) : option bytes :=
  match kind with
  | InterruptedOpenData => dataOpen a | InterruptedOpenManifest => manifestOpen a
  | InterruptedOrphanData => dataFinal a | InterruptedOrphanManifest => manifestFinal a
  end.

Lemma classify_name name id kind : classifySpoolArtifact name = Some (id, kind) -> id <> [] /\ exists t, name = t ++ artifact_suffix kind.
Proof.
  unfold classifySpoolArtifact. destruct (HasPrefix name batchPrefix); [|done]. cbn [negb].
  destruct (HasSuffix name (manifestSuffix ++ openSuffix)) eqn:E1; cbn [negb].
  { case_bool_decide; [done|]. intros [= <- <-]. split; [done|]. by apply HasSuffix_spec. }
  destruct (HasSuffix name manifestSuffix) eqn:E2; cbn [negb].
  { case_bool_decide; [done|]. intros [= <- <-]. split; [done|]. by apply HasSuffix_spec. }
  destruct (HasSuffix name dataSuffix) eqn:E3; cbn [negb].
  { case_bool_decide; [done|]. intros [= <- <-]. split; [done|]. by apply HasSuffix_spec. }
  destruct (HasSuffix name openSuffix) eqn:E4; cbn [negb]; [|done].
  case_bool_decide; [done|]. intros [= <- <-]. split; [done|]. by apply HasSuffix_spec.
Qed.

Lemma classify_file x s kind : x <> [] -> (s = dataSuffix /\ kind = InterruptedOrphanData \/ s = manifestSuffix /\ kind = InterruptedOrphanManifest) ->
  classifySpoolArtifact (batchPrefix ++ x ++ s) = Some (x, kind).
Proof.
  intros Hx Hk. unfold classifySpoolArtifact. rewrite (proj2 (HasPrefix_spec _ _)) by eauto. cbn [negb]. rewrite drop_app_length.
  destruct (HasSuffix (batchPrefix ++ x ++ s) (manifestSuffix ++ openSuffix)) eqn:E1.
  { destruct Hk as [[-> _]|[-> _]]; suffix_clash E1. }
  destruct Hk as [[-> ->]|[-> ->]].
  - destruct (HasSuffix (batchPrefix ++ x ++ dataSuffix) manifestSuffix) eqn:E2; [suffix_clash E2|]. cbn [negb].
    rewrite (proj2 (HasSuffix_spec _ _)) by (rewrite app_assoc; eauto). cbn [negb]. by rewrite TrimSuffix_app, bool_decide_eq_false_2.
  - rewrite (proj2 (HasSuffix_spec _ _)) by (rewrite app_assoc; eauto). cbn [negb]. by rewrite TrimSuffix_app, bool_decide_eq_false_2.
Qed.

(** Every classified entry is noted under its batch, and nothing else is. *)
Lemma collectArtifacts_spec es name id kind : classifySpoolArtifact name = Some (id, kind) ->
  (exists k, (name, k) ∈ es /\ k <> GoFS.Directory) -> is_Some (collectArtifacts es !! id ≫= artifact_of kind).
Proof.
  intros Hc. unfold collectArtifacts. rewrite <- (reverse_involutive es). generalize (reverse es). clear es. intros es.
  induction es as [|[n0 k0] es IH]; [by intros (k & Hin%elem_of_nil & _)|]. rewrite reverse_cons, fold_left_app. cbn [fold_left].
  intros (k & Hin & Hk). rewrite elem_of_app, list_elem_of_singleton in Hin.
  destruct Hin as [Hin|[= <- <-]].
  - assert (is_Some (collectArtifacts (reverse es) !! id ≫= artifact_of kind)) as [n Hn] by (apply IH; eauto).
    fold (collectArtifacts (reverse es)). case_bool_decide; [by rewrite Hn|]. destruct (classifySpoolArtifact n0) as [[id0 kind0]|]; [|by rewrite Hn].
    destruct (decide (id0 = id)) as [->|Hd]; [|by rewrite lookup_insert_ne, Hn]. rewrite lookup_insert_eq. cbn.
    destruct (collectArtifacts (reverse es) !! id) as [a|]; [|done]. cbn in *. destruct kind, kind0; cbn in *; eauto.
  - rewrite bool_decide_eq_false_2, Hc, lookup_insert_eq by done. cbn. destruct kind; cbn; eauto.
Qed.

Lemma collectArtifacts_sound es id a kind name : collectArtifacts es !! id = Some a -> artifact_of kind a = Some name ->
  classifySpoolArtifact name = Some (id, kind) /\ name ∈ es.*1.
Proof.
  unfold collectArtifacts. rewrite <- (reverse_involutive es). generalize (reverse es). clear es. intros es. revert a.
  induction es as [|[n0 k0] es IH]; intros a; [done|]. rewrite reverse_cons, fold_left_app, fmap_app. cbn [fold_left].
  fold (collectArtifacts (reverse es)). intros Ha Hn.
  assert (forall a', collectArtifacts (reverse es) !! id = Some a' -> artifact_of kind a' = Some name ->
    classifySpoolArtifact name = Some (id, kind) /\ name ∈ (reverse es).*1 ++ [(n0, k0)].*1) as Hold.
  { intros a' H1' H2'. destruct (IH a' H1' H2') as [? ?]. split; [done|]. apply elem_of_app. by left. }
  case_bool_decide; [by eapply Hold|]. destruct (classifySpoolArtifact n0) as [[id0 kind0]|] eqn:Ec; [|by eapply Hold].
  apply lookup_insert_Some in Ha as [[-> <-]|[_ Ha]]; [|by eapply Hold].
  destruct (decide (kind0 = kind)) as [->|Hd].
  - assert (name = n0) as -> by (destruct kind; by injection Hn). split; [done|]. apply elem_of_app. right. by left.
  - destruct (collectArtifacts (reverse es) !! id) as [a'|] eqn:Ea; cbn in Hn; [|destruct kind, kind0; done].
    eapply Hold; [done|]. destruct kind, kind0; done.
Qed.

Definition preserved_path (n : bytes) : Prop := exists r, n = in_dir pub (InterruptedDirName ++ r).

Lemma preserved_not_path n k id : preserved_path n -> n <> path k id.
Proof.
  intros [r ->] E. unfold spoolsafety.path in E. apply in_dir_inj in E as [_ E]; [|done|by destruct k]. discriminate E.
Qed.

(** A step of the preservation: no batch appears in the active spool. *)
Record preserving (d d' : dir) : Prop := {
  pv_careful : careful None d d';
  pv_names n : ~ preserved_path n -> is_Some (names d' !! n) -> is_Some (names d !! n)
}.
#[local] Instance preserving_PreOrder : PreOrder preserving.
Proof.
  split; [intros d; constructor; [done|auto]|]. intros d1 d2 d3 [H1 H2] [H3 H4]. constructor; [by etrans|auto].
Qed.
Lemma preserving_same d d' : same d d' -> preserving d d'.
Proof. intros Hs. constructor; [by apply careful_same|]. intros n _. by rewrite (proj1 Hs). Qed.

Lemma MkdirAll_preserving paths : Forall preserved_path paths -> forall d, wf d -> preserving d (MkdirAll paths d).2.
Proof.
  induction 1 as [|p paths Hp Hps IH]; intros d Hwf; cbn [MkdirAll]; [done|].
  destruct (names d !! p) as [i|]; [destruct (if inodes d !! i is Some nd then _ else _); [auto|done]|].
  unfold bind. destruct (Mkdir p d) as [r d1] eqn:E.
  destruct (Mkdir_spec p d r d1 (fun k id => preserved_not_path p k id Hp) Hwf E) as [Hc Hn].
  assert (preserving d d1) as H1 by (constructor; [by intros _|]; intros n Hnp; rewrite Hn; [done|by intros ->]).
  destruct r as [[]| |]; [|done..]. etrans; [exact H1|apply IH, (cf_wf _ _ _ Hc)].
Qed.

Lemma preserveOne_spec id kind name d : wf d ->
  (forall x k, pair_at d x -> k = KPdat \/ k = KPman -> in_dir pub name <> path k x) ->
  preserving d (preserveInterruptedArtifact pub id kind name d).2.
Proof.
  intros Hwf Hpair. unfold preserveInterruptedArtifact. set (dst := in_dir _ name).
  assert (preserved_path dst) as Hdst.
  { exists (bs "/" ++ id ++ bs "/" ++ name). unfold dst. by rewrite !in_dir_assoc. }
  assert (Forall preserved_path [in_dir pub InterruptedDirName; in_dir (in_dir pub InterruptedDirName) id]) as Hdirs2.
  { repeat constructor; [exists []; by rewrite app_nil_r|exists (bs "/" ++ id); by rewrite in_dir_assoc]. }
  unfold bind at 1. pose proof (MkdirAll_preserving _ Hdirs2 d Hwf) as H1. destruct (MkdirAll _ d) as [r1 d1]. cbn [snd] in H1.
  destruct r1 as [[]| |]; [|done..]. etrans; [exact H1|]. pose proof (reads_Lstat dst d1) as Hl.
  destruct (Lstat dst d1) as [[info|e|] d2]; cbn [snd] in *; [by apply preserving_same| |by apply preserving_same].
  destruct (negb _); [by apply preserving_same|]. etrans; [by apply preserving_same|]. unfold bind, wrap_err.
  assert (forall x, pair_at d2 x -> pair_at d x) as Hback.
  { intros x [P1 P2]. rewrite (proj1 Hl) in P1, P2. split; (apply (pv_names _ _ H1); [|done]); intros Hp; by eapply preserved_not_path. }
  assert (careful None d2 (durableRename (in_dir pub name) dst d2).2) as Hc.
  { apply careful_rename; [intros x k _ Hp; apply Hpair; auto|]. intros k x E. by apply (preserved_not_path dst k x) in Hdst. }
  destruct (durableRename (in_dir pub name) dst d2) as [r3 d3] eqn:E3. cbn [snd] in Hc.
  assert (preserving d2 d3) as H3.
  { constructor; [done|]. intros n Hn Hb. apply durableRename_cases in E3 as [(_ & _ & Hs)|(i & _ & _ & En & _)]; [by rewrite (proj1 Hs) in Hb|].
    rewrite En, lookup_insert_ne in Hb by (by intros <-). destruct Hb as [j [_ Hj]%lookup_delete_Some]. eauto. }
  destruct r3 as [[]| |]; done.
Qed.

Lemma preserveArtifacts_spec summary l d : wf d ->
  (forall id kind name, (id, (kind, name)) ∈ l -> forall x k, pair_at d x -> k = KPdat \/ k = KPman -> in_dir pub name <> path k x) ->
  preserving d (preserveArtifacts pub summary l d).2.
Proof.
  revert summary d. induction l as [|[id [kind name]] l IH]; intros summary d Hwf Hl; cbn [preserveArtifacts]; [done|].
  pose proof (preserveOne_spec id kind name d Hwf) as H1. destruct (preserveInterruptedArtifact pub id kind name d) as [r d1].
  cbn [snd] in H1. specialize (H1 ltac:(eapply Hl; by left)). destruct r; [|done..]. etrans; [exact H1|].
  apply IH; [apply (cf_wf _ _ _ (pv_careful _ _ H1 Hwf))|]. intros id' kind' name' Hin x k [P1 P2]. eapply Hl; [by right|].
  split; (apply (pv_names _ _ H1); [|done]); intros Hp; by eapply preserved_not_path.
Qed.

(** No directory of the active spool has the name of a batch. *)
Definition batches_are_files (d : dir) : Prop := forall n i nd, HasPrefix n batchPrefix = true ->
  names d !! in_dir pub n = Some i -> inodes d !! i = Some nd -> i_kind nd <> GoFS.Directory.

Lemma toPreserve_spec a kind name : (kind, name) ∈ toPreserve a -> artifact_of kind a = Some name /\
  (kind = InterruptedOrphanData -> manifestFinal a = None) /\ (kind = InterruptedOrphanManifest -> dataFinal a = None).
Proof.
  unfold toPreserve. intros ([k0 [n|]] & Hin & E)%list_elem_of_omap; [|done]. injection E as -> ->.
  destruct a as [[] [] [] []]; cbn in *; repeat (apply elem_of_cons in Hin as [Hin|Hin]; [by simplify_eq|]); by apply elem_of_nil in Hin.
Qed.

(** What is preserved is no half of a pair. *)
Lemma preserved_not_pair d es d' id kind name x k : slash_free pub -> batches_are_files d -> wf d -> ReadDirOf pub d = (Ok es, d') ->
  (kind, name) ∈ toPreserve (default noArtifacts (collectArtifacts es !! id)) -> pair_at d x -> k = KPdat \/ k = KPman ->
  in_dir pub name <> path k x.
Proof.
  intros Hsl Hfiles (W1 & _ & _) Hes Hin Hp Hk E. apply toPreserve_spec in Hin as (Ha & Hd & Hm).
  destruct (collectArtifacts es !! id) as [a|] eqn:Ea; cbn in Ha, Hd, Hm; [|by destruct kind].
  destruct (collectArtifacts_sound _ _ _ _ _ Ea Ha) as [Hc Hn]. pose proof (classify_name _ _ _ Hc) as (Hid & t & Et).
  pose proof (ReadDirOf_Ok _ _ _ _ Hes) as (_ & _ & Hall). apply Hall in Hn as [Hname _].
  unfold spoolsafety.path in E. apply in_dir_inj in E as [_ E]; [|done|by destruct k]. subst name.
  assert (slash_free x) as Hx by (destruct Hk as [->| ->]; (eapply file_slash_free; [|exact Hname]); [by left|by right]).
  assert (forall s, file_suffix s -> batchPrefix ++ x ++ s ∈ es.*1 /\ exists k, (batchPrefix ++ x ++ s, k) ∈ es /\ k <> GoFS.Directory) as Hboth.
  { intros s Hs. assert (batchPrefix ++ x ++ s ∈ es.*1) as Hs1.
    { apply Hall. split; [by apply file_slash_free|]. destruct Hp, Hs as [->| ->]; done. }
    split; [done|]. destruct (ReadDirOf_kinds _ _ _ _ _ Hes Hs1) as (k0 & Hk0 & ->). eexists. split; [done|].
    apply Hall in Hs1 as [_ [i Hi]]. rewrite Hi. cbn. destruct (W1 _ _ Hi) as [nd Hnd]. rewrite Hnd.
    eapply Hfiles; [|done..]. apply HasPrefix_spec. eauto. }
  assert (x <> []) as Hxe by (intros ->; destruct Hk as [->| ->]; vm_compute in Hc; discriminate Hc).
  destruct Hk as [->| ->]; cbn [suffix] in Hc.
  - change (bs "batch-" ++ x ++ bs ".jsonl") with (batchPrefix ++ x ++ dataSuffix) in Hc.
    rewrite (classify_file x dataSuffix InterruptedOrphanData) in Hc by auto. injection Hc as -> <-.
    destruct (collectArtifacts_spec es (batchPrefix ++ id ++ manifestSuffix) id InterruptedOrphanManifest) as [n Hn];
      [by apply classify_file; auto|by apply Hboth; right|]. rewrite Ea in Hn. cbn in Hn. by rewrite Hd in Hn.
  - change (bs "batch-" ++ x ++ bs ".manifest.json") with (batchPrefix ++ x ++ manifestSuffix) in Hc.
    rewrite (classify_file x manifestSuffix InterruptedOrphanManifest) in Hc by auto. injection Hc as -> <-.
    destruct (collectArtifacts_spec es (batchPrefix ++ id ++ dataSuffix) id InterruptedOrphanData) as [n Hn];
      [by apply classify_file; auto|by apply Hboth; left|]. rewrite Ea in Hn. cbn in Hn. by rewrite Hm in Hn.
Qed.

Lemma Preserve_careful d : batches_are_files d -> filepath_Base spoolDir = pub -> careful None d (PreserveInterruptedArtifacts spoolDir d).2.
Proof.
  intros Hfiles Eb Hwf0. pose proof Hwf0 as Hwf. revert Hwf0. unfold PreserveInterruptedArtifacts. rewrite Eb. destruct (bool_decide _); [apply careful_done|].
  assert (reads (@syscall unit (ret tt))) as Hsys by (apply reads_syscall, keeps_ret, _).
  apply careful_after_read; [done|]. intros _ d1 _ Hs1. pose proof (same_wf _ _ Hs1 Hwf) as Hwf1.
  apply careful_after_read; [apply reads_syscall; by intros ?|].
  intros es d2 Hes Hs2 Hwf2. eapply pv_careful; [|done]. apply preserveArtifacts_spec; [done|]. intros id kind name Hin x k Hp Hk.
  apply list_elem_of_In, in_concat in Hin as (l & Hl & Hin). apply in_map_iff in Hl as (id' & <- & _).
  apply in_map_iff in Hin as ([kind' name'] & [= -> -> ->] & Hin%list_elem_of_In).
  apply (preserved_not_pair d1 es d2 id kind name x k); [done| |done..| |done].
  - intros n i nd. rewrite (proj1 Hs1). destruct Hs1 as (_ & _ & -> & _). apply Hfiles.
  - split; destruct Hp as [P1 P2]; by rewrite (proj1 Hs2) in P1, P2.
Qed.

End Careful.
(** ** Runs *)

Section Demo.
#[local] Existing Instance asciiUnicode.
#[local] Instance demoRecoveryClock : Clock := {|
  canonicalNow := @canonicalNow spoolsafety.demoClock;
  newBatchID k := if (k =? 1)%nat then Ok demoID else Ok (bs "again") |}.
#[local] Existing Instance spoolsafety.demoManifestCodec.
#[local] Existing Instance spoolsafety.demoRecordCodec.

Definition demoSpoolDir : bytes := bs "/srv/spool".
Definition demoWork : bytes := bs ".fi-spool-collector-work".
Definition demoQuarantine : bytes := bs ".fi-spool-collector-quarantine".
Definition demoPlatform : Platform := {|
  resolveDirectoryPath p := Ok p; resolveDirectoryIdentityPath p := Ok p; LstatKind _ := Ok GoFS.Directory |}.

(** A writer that meets the failures [fs] while it writes and closes one record, and the
    recovery of the process after it. *)
Definition demoInterrupted (fs : list (option nat)) : spool_state :=
  let s := (perform_all demoCalls (SS (newWriter None (bs "spool") demoWork 10 demoCollector) (empty_dir fs) 0)).2 in
  SS (writer s) (set_faults [] (disk s)) (tick s).
Definition demoRecovered (s : spool_state) : res Z * spool_state := RecoverAbandonedPublications demoPlatform demoSpoolDir s.
Definition demoPath : place -> bytes -> bytes := path demoWork (bs "spool").
Definition demoValid (s : spool_state) : res Z := (ValidatePublishedSpoolStructureLocked demoSpoolDir (disk s)).1.
Definition fails_at (i : nat) : list (option nat) := replicate i None ++ [Some O].

(** [wf] of a given disk by computation. *)
Definition wf_check (d : dir) : bool :=
  bool_decide (map_Forall (fun _ i => is_Some (inodes d !! i)) (names d)) &&
  bool_decide (map_Forall (fun _ i => is_Some (inodes d !! i)) (durable d)) &&
  bool_decide (map_Forall (fun i _ => (i < next_ino d)%nat) (inodes d)).
Lemma wf_check_wf d : wf_check d = true -> wf d.
Proof.
  unfold wf_check. rewrite !andb_true_iff, !bool_decide_eq_true. intros [[H1 H2] H3]. split_and!; [exact H1|exact H2|].
  intros i [nd Hi]. exact (H3 i nd Hi).
Qed.

(** Whichever single call of the writer fails, the next process recovers, and the structure of
    the active spool is valid. *)
Example recovery_after_any_failure :
  forallb (fun i => let '(r, s) := demoRecovered (demoInterrupted (fails_at i)) in
                    match r, demoValid s with Ok _, Ok _ => true | _, _ => false end) (seq 0 40) = true.
Proof. vm_compute. reflexivity. Qed.

(** The batch was prepared, its publication had not begun. *)
Lemma RecoverAbandonedPublications_sound_witness :
  let s := demoInterrupted (fails_at 19) in
  (demoRecovered s).1 = Ok 1 /\ is_Some (names (disk s) !! demoPath KWman demoID) /\
  forall n, (demoRecovered s).1 = Ok n ->
    (forall x g, slash_free x -> names (disk s) !! demoPath KWman x = Some g -> published_pair demoWork (bs "spool") (disk (demoRecovered s).2) x g) /\
    all_paired demoWork (bs "spool") (disk (demoRecovered s).2) /\
    forall m, slash_free m -> names (disk (demoRecovered s).2) !! in_dir demoWork m = None.
Proof.
  cbv zeta. split; [vm_compute; reflexivity|]. split; [vm_compute; eauto|].
  assert (forall p : bytes, bool_decide (z2b 47 ∈ p) = false -> slash_free p) as Hsl by (intros p Hp; by apply bool_decide_eq_false in Hp).
  refine (proj2 (proj2 (RecoverAbandonedPublications_sound demoWork (bs "spool") demoQuarantine _ _ _ _ _ _ demoPlatform demoSpoolDir _
    (demoInterrupted (fails_at 19)) (demoRecovered (demoInterrupted (fails_at 19))).1 (demoRecovered (demoInterrupted (fails_at 19))).2 _ _))).
  - apply Hsl. vm_compute. reflexivity.
  - apply Hsl. vm_compute. reflexivity.
  - vm_compute. discriminate.
  - apply Hsl. vm_compute. reflexivity.
  - vm_compute. discriminate.
  - vm_compute. discriminate.
  - split_and!.
    + intros publication E. vm_compute in E. injection E as <-. vm_compute. reflexivity.
    + intros workDir E. vm_compute in E. injection E as <-. split; vm_compute; reflexivity.
    + intros root E. vm_compute in E. injection E as <-. vm_compute. reflexivity.
  - apply wf_check_wf. vm_compute. reflexivity.
  - apply surjective_pairing.
Defined.

(** The data of a batch is in the active spool, its manifest still in the work directory: two
    calls failed. Recovery alone completes the publication. The preservation of interrupted
    artifacts takes the data away, and leaves a directory in the active spool: afterwards
    every recovery fails, and so does the structural check of every rollover. *)
Definition demoHalf : spool_state := demoInterrupted (replicate 28 None ++ [Some O; Some O]).
Definition demoPreserved (s : spool_state) : spool_state :=
  SS (writer s) (PreserveInterruptedArtifacts demoSpoolDir (disk s)).2 (tick s).
Definition succeeds {A} (r : res A) : bool := if r is Ok _ then true else false.
Example preservation_blocks_recovery :
  (demoRecovered demoHalf).1 = Ok 1 /\ demoValid (demoRecovered demoHalf).2 = Ok 1 /\
  succeeds (demoRecovered (demoPreserved demoHalf)).1 = false /\
  demoValid (demoPreserved demoHalf) = Err (Errorf "FI published spool artifact %q is not a regular file").
Proof. vm_compute. auto 6. Qed.

End Demo.
End spoolrecovery.
