(* ===== verification/SpoolRollover.v ===== *)
(** * The rollover of the spool into raw generations

    Models the rollover of [go/internal/transportsender/generation.go], with
    [generation_publish_windows.go], [spool_security_windows.go] and [validateRecoverySpoolDir]
    of [recovery.go]: under the publication boundary the sender repairs an interrupted
    rollover and interrupted publications, checks the structure of the active spool, moves the
    whole directory below [generation-raw] and promotes an empty directory in its place. The
    disk is the parent of the sibling directories, as in [SpoolRecovery]; a path below the
    parent is written without it. *)

From stdpp Require Import gmap.
From S2P Require Import Prelude GoBytes GoStrings Sha256 GoText GoIO GoFS GoDir GoPublish GoWin GoCalls Pki TransportGeneration GenerationCanonical GenerationProtocol GenerationRecorder GenerationSender GenerationBuild SpoolWriter SpoolSafety SpoolRecovery.

Module spoolrollover.
Import spool spoolwriter spoolrecovery.

(** ** Moving directories *)

(** [path] is [directory] or below it. *)
Definition within (directory path : bytes) : bool :=
  bool_decide (path = directory) || HasPrefix path (directory ++ bs "/").

(** The bindings after a directory was moved: those within it are renamed. *)
Definition relocate1 (source destination : bytes) (binding : bytes * nat) : option (bytes * nat) :=
  let '(path, i) := binding in
  if within destination path then None
  else if within source path then Some (destination ++ drop (length source) path, i)
  else Some (path, i).
Definition relocate (source destination : bytes) (m : gmap bytes nat) : gmap bytes nat :=
  list_to_map (omap (relocate1 source destination) (map_to_list m)).

Definition occupied (directory : bytes) (d : dir) : bool := existsb (fun b => within directory b.1) (map_to_list (names d)).

(** [MoveFileExW] with [MOVEFILE_WRITE_THROUGH] of a directory: an existing destination is not
    replaced; the failures are those of [GoWin.MoveFileExW]. *)
Definition MoveDirectoryExW (source destination : bytes) : prog dir unit := fun d =>
  match next_fault d with
  | (Ok fault, d) =>
      match names d !! source, fault with
      | _, Some O => (Err EIO, d)
      | None, _ => (Err ErrNotExist, d)
      | Some _, _ =>
          if occupied destination d then (Err ErrExist, d) else
          let moved := set_names (relocate source destination (names d)) d in
          match fault with
          | None => (Ok tt, set_durable (relocate source destination (durable d)) moved)
          | Some _ => (Err EIO, moved)
          end
      end
  | (Err e, d) => (Err e, d)
  | (Panic, d) => (Panic, d)
  end.

Definition hasBelow (directory : bytes) (d : dir) : bool :=
  existsb (fun b => HasPrefix b.1 (directory ++ bs "/")) (map_to_list (names d)).

(** [os.Remove] of a directory. *)
Definition RemoveDirectory (path : bytes) : prog dir unit := syscall (fun d =>
  match names d !! path with
  | None => (Err ErrNotExist, d)
  | Some _ => if hasBelow path d then (Err (Sentinel "directory not empty"), d)
              else (Ok tt, set_names (delete path (names d)) d)
  end).

(** [os.ReadDir] of the parent. *)
Definition ReadParent : prog dir (list (bytes * file_kind)) := syscall (fun d =>
  (Ok ((fun n => (n, match (names d !! n) ≫= (fun i => inodes d !! i) with
                     | Some nd => i_kind nd
                     | None => OtherKind
                     end)) <$> sort_Strings (filter (fun n => z2b 47 ∉ n) (map_to_list (names d)).*1)), d)).

(** What the sender's process meets: the paths of the platform, [filepath.EvalSymlinks], the
    formatted time, eight random bytes, and whether the account has [WRITE_DAC] on the
    replacement directory by another entry than that of its owner (an administrator). *)
Record SenderPlatform := {
  paths : Platform;
  EvalSymlinksAt : bytes -> res bytes;
  formattedNow : bytes;
  rand_Read : res bytes;
  administrator : bool
}.

Definition NewGenerationID (platform : SenderPlatform) : res bytes :=
  let? random := rand_Read platform in
  Ok (formattedNow platform ++ bs "-" ++ hex_encode random).

(** [os.Lstat] of a directory below the parent at the time of a call; the platform may fail. *)
Definition platform_at (platform : Platform) (d : dir) : Platform := {|
  resolveDirectoryPath := resolveDirectoryPath platform;
  resolveDirectoryIdentityPath := resolveDirectoryIdentityPath platform;
  LstatKind path :=
    match LstatKind platform path with
    | Ok _ => match (names d !! filepath_Base path) ≫= (fun i => inodes d !! i) with
              | Some nd => Ok (i_kind nd)
              | None => Err ErrNotExist
              end
    | r => r
    end
|}.

(** ** Parts of the rollover *)

Definition generationRawRootDirectoryName : bytes := genbuild.generationRawRootDirectoryName.
Definition generationDirectoryPrefix : bytes := gensender.generationDirectoryPrefix.
Definition generationRolloverNextPrefix : bytes := bs ".fi-spool-next-".
Definition activeSpoolModifyMask : Z := 1245631.

Definition nextDirectory (generationID : bytes) : bytes := generationRolloverNextPrefix ++ generationID.
Definition rawDirectory (generationID : bytes) : bytes :=
  in_dir generationRawRootDirectoryName (generationDirectoryPrefix ++ generationID).

(** The descriptor of [replacementSpoolDACLSDDL] gives the owner no [WRITE_DAC]: an account
    that is no administrator sets it once. *)
Definition secureReplacementSpoolDirectory (platform : SenderPlatform) (path : bytes) : prog dir unit := syscall (fun d =>
  match names d !! path with
  | None => (Err (Wrap "apply protected replacement FI spool DACL to %s: %w" ErrNotExist), d)
  | Some i =>
      match inodes d !! i with
      | None => (Err EIO, d)
      | Some nd =>
          if (i_perm nd =? activeSpoolModifyMask) && negb (administrator platform)
          then (Err (Wrap "apply protected replacement FI spool DACL to %s: %w" (Sentinel "access denied")), d)
          else update_inode i (fun nd => Inode (i_kind nd) activeSpoolModifyMask (i_data nd) (i_synced nd)) d
      end
  end).

Definition publishGenerationDirectory (platform : SenderPlatform) (source destination : bytes) : prog dir unit :=
  check! (if HasPrefix (filepath_Base source) generationRolloverNextPrefix
          then wrap_err "secure replacement FI active spool before promotion: %w" (secureReplacementSpoolDirectory platform source)
          else ret tt) ;;
  MoveDirectoryExW source destination.

Definition directoryHasEntries (path : bytes) : prog dir bool :=
  let! _ := Open path in
  defer_close (syscall (fun d => (Ok (hasBelow path d), d))).

(** [validateRawGenerationRoot] with [os.Lstat] on the disk. *)
Definition validateRawRoot (platform : SenderPlatform) (rawRoot : bytes) : prog dir unit := fun d =>
  let '(info, d) := Lstat generationRawRootDirectoryName d in
  (genbuild.validateRawGenerationRoot rawRoot {| EvalSymlinks := EvalSymlinksAt platform (filepath_Clean rawRoot); RootInfo := info |}, d).

Definition validateRecoverySpoolDir (platform : SenderPlatform) (path : bytes) : prog dir unit :=
  fail! bool_decide (path = []) || negb (filepath_IsAbs path) with Errorf "FI recovery spool directory must be absolute" ;;
  check! lift (wrap "validate FI recovery spool directory path: %w"
                 (gensender.validateOutboundStageDirectoryPath (EvalSymlinksAt platform (filepath_Clean path)) (filepath_Clean path))) ;;
  let! info := wrap_err "inspect FI recovery spool directory: %w" (Lstat (filepath_Base path)) in
  fail! negb (bool_decide (fi_kind info = GoFS.Directory)) with Errorf "FI recovery spool path must name a real directory" ;;
  ret tt.

Definition EnsureGenerationRawRoot (platform : SenderPlatform) (spoolDir : bytes) : prog dir bytes :=
  let! physicalSpoolPath := lift (wrap "resolve physical FI generation spool path: %w" (PhysicalSpoolPath (paths platform) spoolDir)) in
  let parent := filepath_Dir physicalSpoolPath in
  let! kind := lift (wrap "inspect FI generation spool parent: %w" (LstatKind (paths platform) parent)) in
  fail! negb (bool_decide (kind = GoFS.Directory)) with Errorf "FI generation spool parent must be a real directory" ;;
  let rawRoot := filepath_Join parent generationRawRootDirectoryName in
  check! wrap_err "create FI raw-generation root: %w" (MkdirAll [generationRawRootDirectoryName]) ;;
  check! validateRawRoot platform rawRoot ;;
  ret rawRoot.

(** ** Repairing an interrupted rollover *)

(** The first loop of the recovery: the replacement directories of the parent. *)
Fixpoint nextDirectories (entries : list (bytes * file_kind)) : prog dir (list bytes) :=
  match entries with
  | [] => ret []
  | (name, kind) :: entries =>
      if negb (HasPrefix name generationRolloverNextPrefix) then nextDirectories entries else
      check! wrap_err "inspect FI rollover-next recovery directory: %w" (syscall (ret tt)) ;;
      fail! negb (bool_decide (kind = GoFS.Directory)) with Errorf "FI rollover-next recovery path %q is not a real directory" ;;
      let! names := nextDirectories entries in
      ret (name :: names)
  end.

(** From the replacement directory found to its promotion. *)
Definition restoreActive (platform : SenderPlatform) (physicalSpoolDir nextName : bytes) : prog dir unit :=
  let parent := filepath_Dir (filepath_Clean physicalSpoolDir) in
  let generationID := TrimPrefix nextName generationRolloverNextPrefix in
  fail! bool_decide (generationID = []) with Errorf "FI interrupted rollover next-directory has empty generation ID" ;;
  let! hasEntries := wrap_err "inspect interrupted FI rollover replacement directory: %w" (directoryHasEntries nextName) in
  fail! (hasEntries : bool) with Errorf "interrupted FI rollover replacement directory is not empty" ;;
  let rawRoot := filepath_Join parent generationRawRootDirectoryName in
  check! wrap_err "validate interrupted FI rollover raw root: %w" (validateRawRoot platform rawRoot) ;;
  let rawDir := filepath_Join rawRoot (generationDirectoryPrefix ++ generationID) in
  let! rawInfo := wrap_err "inspect interrupted FI frozen generation: %w" (Lstat (rawDirectory generationID)) in
  fail! negb (bool_decide (fi_kind rawInfo = GoFS.Directory)) with Errorf "interrupted FI frozen generation is not a real directory" ;;
  let! pairs := wrap_err "validate interrupted FI frozen generation structure: %w"
                  (ValidateStructureAt rawDir (rawDirectory generationID)) in
  fail! pairs =? 0 with Errorf "interrupted FI frozen generation contains no published batches" ;;
  wrap_err "restore FI active spool after interrupted rollover: %w"
    (publishGenerationDirectory platform nextName (filepath_Base physicalSpoolDir)).

Definition recoverInterruptedRolloverLocked (platform : SenderPlatform) (physicalSpoolDir : bytes) : prog dir unit := fun d =>
  match Lstat (filepath_Base physicalSpoolDir) d with
  | (Ok activeInfo, d) =>
      (fail! negb (bool_decide (fi_kind activeInfo = GoFS.Directory))
         with Errorf "FI physical active spool must name a real directory" ;; ret tt) d
  | (Panic, d) => (Panic, d)
  | (Err e, d) =>
      if negb (errors_Is e ErrNotExist) then (Err (Wrap "inspect FI physical active spool during rollover recovery: %w" e), d) else
      (let! entries := wrap_err "scan FI spool parent for interrupted rollover: %w" ReadParent in
       let! nextNames := nextDirectories entries in
       match nextNames with
       | [nextName] => restoreActive platform physicalSpoolDir nextName
       | _ => throw (Errorf "FI active spool is missing with %d rollover-next recovery directories; expected exactly 1")
       end) d
  end.

Definition cleanupEntry (entry : bytes * file_kind) : prog dir unit :=
  let '(name, kind) := entry in
  if negb (bool_decide (kind = GoFS.Directory)) || negb (HasPrefix name generationRolloverNextPrefix) then ret tt else
  let! hasEntries := directoryHasEntries name in
  fail! (hasEntries : bool) with Errorf "FI rollover next-directory %q is unexpectedly non-empty" ;;
  wrap_err "remove abandoned FI rollover next-directory: %w" (RemoveDirectory name).

Definition cleanupRolloverNextDirectories : prog dir unit :=
  let! entries := wrap_err "scan FI active-spool parent for rollover remnants: %w" ReadParent in
  each cleanupEntry entries.

(** ** The rollover *)

Section Rollover.
Context `{Unicode} `{JSON Manifest} (platform : SenderPlatform).

(** The deferred functions: the replacement directory is removed unless it was promoted, and
    the boundary is released. *)
Definition removing {A} (path : bytes) (p : prog dir A) : prog dir A := fun d =>
  match p d with
  | (Ok a, d) => (Ok a, d)
  | (r, d) => (r, (RemoveDirectory path d).2)
  end.
Definition releasing {A} (p : prog dir A) : prog dir A := fun d =>
  match p d with
  | (Panic, d) => (Panic, (syscall (ret tt) d).2)
  | (Ok a, d) => (check! syscall (ret tt) ;; ret a) d
  | (Err e, d) => match syscall (ret tt) d with
                  | (Err e', d) => (Err (Join e e'), d)
                  | (_, d) => (Err e, d)
                  end
  end.

(** Both moves, the first undone when the second fails. *)
Definition exchange (active generationID : bytes) : prog dir unit :=
  check! wrap_err "freeze FI active spool generation: %w" (publishGenerationDirectory platform active (rawDirectory generationID)) ;;
  fun d =>
    match publishGenerationDirectory platform (nextDirectory generationID) active d with
    | (Ok _, d) => (Ok tt, d)
    | (Panic, d) => (Panic, d)
    | (Err e, d) =>
        match publishGenerationDirectory platform (rawDirectory generationID) active d with
        | (Err e', d) => (Err (Join (Wrap "promote replacement FI active spool: %w" e) (Wrap "rollback frozen FI active spool: %w" e')), d)
        | (Panic, d) => (Panic, d)
        | (Ok _, d) => (Err (Wrap "promote replacement FI active spool: %w" e), d)
        end
    end.

(** From the structural check to the raw generation. *)
Definition freeze (physicalSpoolDir rawRoot : bytes) : prog dir (option genbuild.RawGeneration) :=
  let! pairs := wrap_err "validate FI active spool structure before rollover: %w" (ValidatePublishedSpoolStructureLocked physicalSpoolDir) in
  if pairs =? 0 then ret None else
  let! generationID := lift (wrap "create FI generation ID: %w" (NewGenerationID platform)) in
  check! wrap_err "create next FI active-spool directory: %w" (Mkdir (nextDirectory generationID)) ;;
  check! removing (nextDirectory generationID) (exchange (filepath_Base physicalSpoolDir) generationID) ;;
  ret (Some {| genbuild.RawGenerationDir := filepath_Join rawRoot (generationDirectoryPrefix ++ generationID);
               genbuild.RawGenerationID := generationID |}).

(** What comes before it. *)
Definition repair (physicalSpoolDir : bytes) : prog dir bytes :=
  check! wrap_err "recover interrupted FI spool rollover: %w" (recoverInterruptedRolloverLocked platform physicalSpoolDir) ;;
  check! validateRecoverySpoolDir platform physicalSpoolDir ;;
  let! rawRoot := EnsureGenerationRawRoot platform physicalSpoolDir in
  check! cleanupRolloverNextDirectories ;;
  check! wrap_err "recover interrupted FI spool publication before rollover: %w"
           (fun d => RecoverInterruptedPublicationsLocked (platform_at (paths platform) d) physicalSpoolDir d) ;;
  ret rawRoot.

Definition RolloverPublishedSpool (spoolDir : bytes) : prog dir (option genbuild.RawGeneration) :=
  let! physicalSpoolDir := lift (wrap "resolve physical FI active spool path for rollover: %w" (PhysicalSpoolPath (paths platform) spoolDir)) in
  check! wrap_err "acquire FI spool rollover boundary: %w" (syscall (ret tt)) ;;
  releasing (let! rawRoot := repair physicalSpoolDir in freeze physicalSpoolDir rawRoot).

End Rollover.

(** ** Paths within a directory *)

Import spoolsafety.

Definition tail (r : bytes) : Prop := r = [] \/ exists r', r = bs "/" ++ r'.

Lemma within_spec directory p : within directory p = true <-> exists r, p = directory ++ r /\ tail r.
Proof.
  unfold within, tail. rewrite orb_true_iff, bool_decide_eq_true, HasPrefix_spec. split.
  - intros [->|[t ->]]; [exists []; rewrite app_nil_r; auto|]. exists (bs "/" ++ t). rewrite <- app_assoc. eauto.
  - intros (r & -> & [->|[r' ->]]); [left; by rewrite app_nil_r|]. right. exists r'. by rewrite <- app_assoc.
Qed.
Lemma within_file directory n : within directory (in_dir directory n) = true.
Proof. apply within_spec. exists (bs "/" ++ n). split; [done|right; eauto]. Qed.

(** Neither directory is within the other. *)
Definition apart (s t : bytes) : Prop := within s t = false /\ within t s = false.
Lemma apart_sym s t : apart s t -> apart t s.
Proof. by intros []. Qed.

Lemma within_apart s t p : apart s t -> within s p = true -> within t p = false.
Proof.
  intros [Hst Hts] (r & -> & Hr)%within_spec. destruct (within t (s ++ r)) eqn:E; [|done]. exfalso.
  apply within_spec in E as (r' & E & Hr'). apply app_eq_app in E as (l & [[E1 E2]|[E1 E2]]).
  - assert (within t s = true); [|congruence]. apply within_spec. exists l. split; [done|]. destruct Hr' as [->|[r2 ->]].
    + symmetry in E2. apply app_nil in E2 as [-> _]. by left.
    + destruct l as [|c l]; [by left|]. injection E2 as <- E2. right. by exists l.
  - assert (within s t = true); [|congruence]. apply within_spec. exists l. split; [done|]. destruct Hr as [->|[r2 ->]].
    + symmetry in E2. apply app_nil in E2 as [-> _]. by left.
    + destruct l as [|c l]; [by left|]. injection E2 as <- E2. right. by exists l.
Qed.

Section Relocate.
Context (s t : bytes) (Hst : apart s t).

Definition origin (n : bytes) : bytes := if within t n then s ++ drop (length t) n else n.

Lemma relocate1_inv p i n j : relocate1 s t (p, i) = Some (n, j) -> j = i /\ p = origin n /\ (within s n = true -> False).
Proof.
  unfold relocate1, origin. destruct (within t p) eqn:Et; [done|]. destruct (within s p) eqn:Es; intros [= <- <-]; (split; [done|]).
  - apply within_spec in Es as (r & -> & Hr). rewrite drop_app_length.
    assert (within t (t ++ r) = true) as Htr by (apply within_spec; eauto). rewrite Htr, drop_app_length. split; [done|].
    intros Hs. by rewrite (within_apart s t _ Hst Hs) in Htr.
  - rewrite Et. split; [done|congruence].
Qed.

Lemma relocate_lookup m n : relocate s t m !! n = if within s n then None else m !! origin n.
Proof.
  unfold relocate. set (l := omap (relocate1 s t) (map_to_list m)).
  assert (forall n i, (n, i) ∈ l <-> exists p, m !! p = Some i /\ relocate1 s t (p, i) = Some (n, i)) as Hl.
  { intros n' i. unfold l. rewrite list_elem_of_omap. split.
    - intros ([p j] & Hm & E). pose proof (relocate1_inv _ _ _ _ E) as (-> & _). exists p. split; [by apply elem_of_map_to_list|done].
    - intros (p & Hm & E). exists (p, i). split; [by apply elem_of_map_to_list|done]. }
  assert (forall i, list_to_map (M := gmap bytes nat) l !! n = Some i <-> within s n = false /\ m !! origin n = Some i) as Hiff.
  { intros i. rewrite <- elem_of_list_to_map'; [rewrite Hl; split|].
    - intros (p & Hm & E). apply relocate1_inv in E as (_ & -> & Hs). split; [by destruct (within s n); [destruct Hs|]|done].
    - intros [Hs Hm]. exists (origin n). split; [done|]. unfold origin in *. unfold relocate1. destruct (within t n) eqn:Et.
      + apply within_spec in Et as (r & -> & Hr). rewrite drop_app_length in *.
        assert (within s (s ++ r) = true) as Hw by (apply within_spec; eauto).
        by rewrite (within_apart s t _ Hst Hw), Hw, drop_app_length.
      + by rewrite Et, Hs.
    - intros j [p [Hp Ej]]%Hl [p' [Hp' Ei]]%Hl. apply relocate1_inv in Ej as (_ & -> & _), Ei as (_ & -> & _). congruence. }
  destruct (within s n) eqn:Hs.
  - destruct (list_to_map l !! n) as [i|]; [|done]. by destruct (proj1 (Hiff i) eq_refl).
  - apply option_eq. intros i. rewrite Hiff. by intuition.
Qed.

Lemma relocate_in m n : relocate s t m !! in_dir t n = m !! in_dir s n.
Proof.
  pose proof (within_file t n) as Hw. rewrite relocate_lookup, (within_apart t s _ (apart_sym _ _ Hst) Hw).
  unfold origin. rewrite Hw. unfold in_dir. by rewrite drop_app_length.
Qed.
Lemma relocate_root m : relocate s t m !! t = m !! s.
Proof.
  destruct Hst as [H1 H2]. assert (within t t = true) as Hw by (apply within_spec; exists []; rewrite app_nil_r; split; [done|by left]).
  rewrite relocate_lookup, H1. unfold origin. by rewrite Hw, drop_all, app_nil_r.
Qed.
Lemma relocate_out m n : within s n = false -> within t n = false -> relocate s t m !! n = m !! n.
Proof. intros Hs Ht. rewrite relocate_lookup, Hs. unfold origin. by rewrite Ht. Qed.
Lemma relocate_gone m n : within s n = true -> relocate s t m !! n = None.
Proof. intros Hs. by rewrite relocate_lookup, Hs. Qed.
Lemma relocate_range m n i : relocate s t m !! n = Some i -> exists p, m !! p = Some i.
Proof. rewrite relocate_lookup. destruct (within s n); [done|eauto]. Qed.

End Relocate.

(** ** What the calls do *)

Lemma existsb_names (f : bytes -> bool) (m : gmap bytes nat) :
  existsb (fun b => f b.1) (map_to_list m) = false <-> forall p, f p = true -> m !! p = None.
Proof.
  split.
  - intros H p Hp. destruct (m !! p) as [i|] eqn:E; [|done]. exfalso. apply not_true_iff_false in H. apply H, existsb_exists. exists (p, i).
    split; [|done]. apply list_elem_of_In, elem_of_map_to_list, E.
  - intros H. apply not_true_is_false. intros ([p i] & Hin%list_elem_of_In%elem_of_map_to_list & Hf)%existsb_exists. cbn in Hf.
    by rewrite (H p Hf) in Hin.
Qed.
Lemma occupied_spec directory d : occupied directory d = false <-> forall p, within directory p = true -> names d !! p = None.
Proof. apply existsb_names. Qed.
Lemma hasBelow_spec directory d : hasBelow directory d = false <-> forall n, names d !! in_dir directory n = None.
Proof.
  unfold hasBelow. rewrite (existsb_names (fun p => HasPrefix p (directory ++ bs "/"))). split.
  - intros H n. apply H, HasPrefix_spec. exists n. unfold in_dir. by rewrite <- app_assoc.
  - intros H p [n ->]%HasPrefix_spec. rewrite <- app_assoc. apply H.
Qed.

Lemma MoveDirectory_cases s t d r d' : MoveDirectoryExW s t d = (r, d') ->
  ((exists e, r = Err e) /\ same d d') \/
  (is_Some (names d !! s) /\ (forall p, within t p = true -> names d !! p = None) /\
   names d' = relocate s t (names d) /\ inodes d' = inodes d /\ next_ino d' = next_ino d /\
   ((r = Ok tt /\ durable d' = relocate s t (durable d)) \/ ((exists e, r = Err e) /\ durable d' = durable d))).
Proof.
  unfold MoveDirectoryExW, next_fault. destruct d as [n m I k fs]. cbn.
  assert (forall f fs', same (Dir n m I k (f :: fs')) (Dir n m I k fs')) as Hs by (intros; split_and!; try done; apply clean_tail).
  destruct fs as [|[[|x]|] fs]; cbn; destruct (n !! s) as [i|] eqn:Es; cbn;
    try (destruct (occupied t _) eqn:Eo; cbn); intros [= <- <-];
    first [left; split; [by eexists|first [apply Hs|apply same_refl]]
          |right; pose proof (proj1 (occupied_spec _ _) Eo) as Eo'; cbn in *; split_and!; try done; eauto].
Qed.

Lemma Mkdir_cases p d r d' : Mkdir p d = (r, d') ->
  ((exists e, r = Err e) /\ same d d') \/
  (r = Ok tt /\ names d !! p = None /\ names d' = <[p := next_ino d]> (names d) /\ durable d' = durable d /\
   inodes d' = <[next_ino d := Inode GoFS.Directory 448 [] true]> (inodes d) /\ next_ino d' = S (next_ino d)).
Proof.
  intros H. apply same_syscall in H as [(fs & -> & _ & Hs)|(fs & H & Hs)]; [eauto|]. cbn [names set_faults] in H.
  destruct (names d !! p) eqn:E; injection H as <- <-; [left; eauto|]. right. by split_and!.
Qed.

Lemma RemoveDirectory_cases p d r d' : RemoveDirectory p d = (r, d') ->
  ((exists e, r = Err e) /\ same d d') \/
  (r = Ok tt /\ is_Some (names d !! p) /\ (forall n, names d !! in_dir p n = None) /\
   names d' = delete p (names d) /\ durable d' = durable d /\ inodes d' = inodes d /\ next_ino d' = next_ino d).
Proof.
  intros H. apply same_syscall in H as [(fs & -> & _ & Hs)|(fs & H & Hs)]; [eauto|]. cbn [names set_faults] in H.
  destruct (names d !! p) eqn:E; [|injection H as <- <-; left; eauto].
  destruct (hasBelow p _) eqn:Eb; injection H as <- <-; [left; eauto|]. right. pose proof (proj1 (hasBelow_spec _ _) Eb) as Eb'. split_and!; eauto.
Qed.

Definition protected (nd : inode) : inode := Inode (i_kind nd) activeSpoolModifyMask (i_data nd) (i_synced nd).
Lemma secure_cases platform p d r d' : secureReplacementSpoolDirectory platform p d = (r, d') ->
  ((exists e, r = Err e) /\ same d d') \/
  (r = Ok tt /\ exists i nd, names d !! p = Some i /\ inodes d !! i = Some nd /\ names d' = names d /\ durable d' = durable d /\
   inodes d' = <[i := protected nd]> (inodes d) /\ next_ino d' = next_ino d).
Proof.
  intros H. apply same_syscall in H as [(fs & -> & _ & Hs)|(fs & H & Hs)]; [eauto|]. cbn [names inodes set_faults] in H.
  destruct (names d !! p) as [i|] eqn:E; [|injection H as <- <-; left; eauto].
  destruct (inodes d !! i) as [nd|] eqn:Ei; [|injection H as <- <-; left; eauto].
  destruct (_ && _); [injection H as <- <-; left; eauto|]. unfold update_inode in H. cbn [inodes set_faults] in H. rewrite Ei in H.
  injection H as <- <-. right. split; [done|]. by exists i, nd.
Qed.

Lemma ReadParent_Ok d es d' : ReadParent d = (Ok es, d') ->
  same d d' /\ NoDup es.*1 /\ (forall n, n ∈ es.*1 <-> slash_free n /\ is_Some (names d !! n)) /\
  forall n k, (n, k) ∈ es -> k = match (names d !! n) ≫= (fun i => inodes d !! i) with Some nd => i_kind nd | None => OtherKind end.
Proof.
  intros Hr. apply same_syscall in Hr as [(fs & E & _)|(fs & Hr & Hs)]; [done|]. injection Hr as <- <-. cbn [names inodes set_faults].
  split; [done|]. assert (forall (f : bytes -> file_kind) l, ((fun n => (n, f n)) <$> l).*1 = l) as ->
    by (intros f l; rewrite <- list_fmap_compose; induction l; [done|]; cbn; by f_equal).
  split_and!.
  - rewrite sort_Strings_perm. apply NoDup_filter, NoDup_fst_map_to_list.
  - intros n. rewrite sort_Strings_perm, list_elem_of_filter, list_elem_of_fmap. unfold slash_free. split.
    + intros [Hn ([p i] & -> & Hm)]. apply elem_of_map_to_list in Hm. eauto.
    + intros [Hn [i Hi]]. split; [done|]. exists (n, i). split; [done|]. by apply elem_of_map_to_list.
  - by intros n k (m & [= -> ->] & _)%list_elem_of_fmap.
Qed.

(** ** The structural check *)

Lemma ReadDirOf_entry directory d es d' n k : ReadDirOf directory d = (Ok es, d') -> (n, k) ∈ es ->
  k = match (names d !! in_dir directory n) ≫= (fun i => inodes d !! i) with Some nd => i_kind nd | None => OtherKind end.
Proof.
  intros Hr Hin. apply same_syscall in Hr as [(fs & E & _)|(fs & Hr & Hs)]; [done|]. injection Hr as <- _.
  by apply list_elem_of_fmap in Hin as (m & [= -> ->] & _).
Qed.

Definition dataName (id : bytes) : bytes := batchPrefix ++ id ++ dataSuffix.
Definition manifestName (id : bytes) : bytes := batchPrefix ++ id ++ manifestSuffix.

Lemma batchIDOf_name s id : batchIDOf s (batchPrefix ++ id ++ s) = id.
Proof. unfold batchIDOf. rewrite drop_app_length. apply TrimSuffix_app. Qed.
Lemma isManifestName_iff n : isManifestName n = true <-> n = manifestName (batchIDOf manifestSuffix n).
Proof.
  split; [|intros ->; apply isManifestName_file]. unfold isManifestName. intros [H1 H2]%andb_true_iff.
  destruct (both_ends n manifestSuffix H1 H2) as [x ->]; [by right|]. by rewrite batchIDOf_name.
Qed.
Lemma isDataName_iff n : isDataName n = true <-> n = dataName (batchIDOf dataSuffix n).
Proof.
  split.
  - unfold isDataName. intros [H1 H2]%andb_true_iff. destruct (both_ends n dataSuffix H1 H2) as [x ->]; [by left|]. by rewrite batchIDOf_name.
  - intros ->. unfold isDataName. rewrite (proj2 (HasPrefix_spec _ batchPrefix)) by (unfold dataName; eauto).
    apply HasSuffix_spec. exists (batchPrefix ++ batchIDOf dataSuffix n). unfold dataName. by rewrite <- app_assoc.
Qed.
Lemma data_not_manifest id : isManifestName (dataName id) = false.
Proof.
  destruct (isManifestName (dataName id)) eqn:E; [|done]. apply isManifestName_iff in E. apply (f_equal reverse) in E.
  unfold dataName, manifestName in E. rewrite !reverse_app in E. discriminate E.
Qed.

Lemma data_ne_manifest id id' : dataName id <> manifestName id'.
Proof. intros E. pose proof (data_not_manifest id) as Hn. rewrite E in Hn. unfold manifestName in Hn. by rewrite (isManifestName_file id') in Hn. Qed.
Lemma dataName_inj id id' : dataName id = dataName id' -> id = id'.
Proof. intros E%(f_equal (batchIDOf dataSuffix)). unfold dataName in E. by rewrite !batchIDOf_name in E. Qed.
Lemma manifestName_inj id id' : manifestName id = manifestName id' -> id = id'.
Proof. intros E%(f_equal (batchIDOf manifestSuffix)). unfold manifestName in E. by rewrite !batchIDOf_name in E. Qed.

(** What the loop saw of the entries. *)
Definition entry_ok (data manifests : list bytes) (e : bytes * file_kind) : Prop :=
  e.2 = Regular /\ exists id, id <> [] /\ (e.1 = manifestName id /\ id ∈ manifests \/ e.1 = dataName id /\ id ∈ data).
Lemma entry_ok_mono data manifests data' manifests' e : data ⊆ data' -> manifests ⊆ manifests' ->
  entry_ok data manifests e -> entry_ok data' manifests' e.
Proof. intros Hd Hm (Hk & id & Hid & [[E Hin]|[E Hin]]); split; eauto 6. Qed.

Lemma structureEntry_Ok data manifests e d data' manifests' d' :
  structureEntry data manifests e d = (Ok (data', manifests'), d') ->
  same d d' /\ data ⊆ data' /\ manifests ⊆ manifests' /\ entry_ok data' manifests' e /\
  (forall id, id ∈ data' -> id ∈ data \/ e.1 = dataName id) /\ (forall id, id ∈ manifests' -> id ∈ manifests \/ e.1 = manifestName id).
Proof.
  destruct e as [name kind]. unfold structureEntry. destruct (bool_decide (kind = Symlink)); [done|].
  intros (u & d1 & Hi & Hr)%bind_Ok. apply wrap_err_Ok in Hi.
  assert (same d d1) as Hs by (eapply (keeps_run same); [apply reads_syscall, keeps_ret, _|exact Hi]).
  case_bool_decide as Hk; [|done]. cbn [negb] in Hr. destruct (isManifestName name) eqn:Em.
  - apply isManifestName_iff in Em. set (id := batchIDOf manifestSuffix name) in *. case_bool_decide as Hid; [done|]. case_bool_decide; [done|].
    injection Hr as <- <- <-. split_and!; [done|set_solver..| |set_solver|cbn; set_solver]. split; [done|]. exists id. set_solver.
  - destruct (isDataName name) eqn:Ed; [|done]. apply isDataName_iff in Ed. set (id := batchIDOf dataSuffix name) in *.
    case_bool_decide as Hid; [done|]. case_bool_decide; [done|].
    injection Hr as <- <- <-. split_and!; [done|set_solver..| |cbn; set_solver|set_solver]. split; [done|]. exists id. set_solver.
Qed.

Lemma structureEntries_Ok es data manifests d data' manifests' d' :
  structureEntries data manifests es d = (Ok (data', manifests'), d') ->
  same d d' /\ data ⊆ data' /\ manifests ⊆ manifests' /\ Forall (entry_ok data' manifests') es /\
  (forall id, id ∈ data' -> id ∈ data \/ dataName id ∈ es.*1) /\ (forall id, id ∈ manifests' -> id ∈ manifests \/ manifestName id ∈ es.*1).
Proof.
  revert data manifests d. induction es as [|e es IH]; intros data manifests d; cbn [structureEntries].
  { intros [= <- <- <-]. split_and!; auto; done. }
  intros ([data1 manifests1] & d1 & He & Hr)%bind_Ok. apply structureEntry_Ok in He as (Hs1 & Hd1 & Hm1 & Hok & Hdi & Hmi).
  apply IH in Hr as (Hs2 & Hd2 & Hm2 & Hall & Hdi2 & Hmi2). split_and!.
  - by etrans.
  - by etrans.
  - by etrans.
  - constructor; [by eapply entry_ok_mono|done].
  - intros id Hid. rewrite fmap_cons, elem_of_cons. destruct (Hdi2 _ Hid) as [?|?]; [|auto]. destruct (Hdi id) as [?|E]; auto.
  - intros id Hid. rewrite fmap_cons, elem_of_cons. destruct (Hmi2 _ Hid) as [?|?]; [|auto]. destruct (Hmi id) as [?|E]; auto.
Qed.

(** A directory of pairs of regular files and nothing else. *)
Definition pair_in (directory : bytes) (d : dir) (id : bytes) : Prop :=
  is_Some (names d !! in_dir directory (dataName id)) /\ is_Some (names d !! in_dir directory (manifestName id)).
Definition structured (directory : bytes) (d : dir) : Prop := forall n i, slash_free n -> names d !! in_dir directory n = Some i ->
  (exists nd, inodes d !! i = Some nd /\ i_kind nd = Regular) /\
  exists id, id <> [] /\ (n = manifestName id \/ n = dataName id) /\ pair_in directory d id.

Lemma ValidateStructure_sound spoolDir directory d n d' : wf d -> ValidateStructureAt spoolDir directory d = (Ok n, d') ->
  same d d' /\ structured directory d /\
  (if n =? 0 then forall m, slash_free m -> names d !! in_dir directory m = None else exists id, id <> [] /\ slash_free id /\ pair_in directory d id).
Proof.
  intros Hwf Hr. unfold ValidateStructureAt in Hr. destruct (_ || _); [done|].
  apply bind_Ok in Hr as (es & d1 & Hes & Hr). apply wrap_err_Ok in Hes. pose proof (ReadDirOf_Ok _ _ _ _ Hes) as (Hs1 & _ & Hall).
  apply bind_Ok in Hr as ([data manifests] & d2 & Hst & Hr). apply structureEntries_Ok in Hst as (Hs2 & _ & _ & Hok & Hdi & Hmi).
  destruct (negb (forallb _ data)) eqn:F1; [done|]. destruct (negb (forallb _ manifests)) eqn:F2; [done|]. injection Hr as <- <-.
  apply negb_false_iff in F1, F2. rewrite forallb_forall in F1, F2. rewrite Forall_forall in Hok.
  assert (forall id, id ∈ data <-> id ∈ manifests) as Hdm.
  { intros id. split; intros Hid.
    - specialize (F1 id (proj1 (list_elem_of_In _ _) Hid)). by apply bool_decide_eq_true in F1.
    - specialize (F2 id (proj1 (list_elem_of_In _ _) Hid)). by apply bool_decide_eq_true in F2. }
  assert (forall id, id ∈ data -> slash_free id /\ pair_in directory d id) as Hpair.
  { intros id Hid. destruct (Hdi id Hid) as [E|Hd]; [by apply elem_of_nil in E|].
    destruct (Hmi id (proj1 (Hdm id) Hid)) as [E|Hm]; [by apply elem_of_nil in E|]. apply Hall in Hd as [Hsl Hd], Hm as [_ Hm].
    split; [|by split]. eapply file_slash_free; [by left|exact Hsl]. }
  assert (forall m, slash_free m -> is_Some (names d !! in_dir directory m) -> exists k, (m, k) ∈ es /\ entry_ok data manifests (m, k)) as Hent.
  { intros m Hm Hi. assert (m ∈ es.*1) as ([m' k] & -> & Hin)%list_elem_of_fmap by (apply Hall; auto). exists k. split; [done|]. by apply Hok. }
  split; [by etrans|]. split.
  - intros m i Hm Hi. destruct (Hent m Hm) as (k & Hin & Hk & id & Hid & Hcase); [eauto|]. split.
    + destruct (ReadDirOf_kinds _ _ _ _ m Hes) as (k' & Hin' & Ek'); [apply Hall; eauto|]. rewrite Hi in Ek'. cbn in Ek'.
      destruct (proj1 Hwf _ _ Hi) as [nd Hnd]. rewrite Hnd in Ek'. exists nd. split; [done|].
      destruct (Hok (m, k')) as [Ek2 _]; [done|]. cbn in Ek2. congruence.
    + exists id. split; [done|]. cbn in Hcase. split; [naive_solver|]. apply Hpair. destruct Hcase as [[_ ?]|[_ ?]]; [by apply Hdm|done].
  - destruct (len data =? 0) eqn:El.
    + intros m Hm. destruct (names d !! in_dir directory m) as [i|] eqn:E; [|done]. exfalso.
      destruct (Hent m Hm) as (k & _ & _ & id & _ & Hcase); [eauto|]. assert (id ∈ data) as Hin.
      { destruct Hcase as [[_ ?]|[_ ?]]; [by apply Hdm|done]. }
      destruct data; [by apply elem_of_nil in Hin|]. apply Z.eqb_eq in El. unfold len in El. cbn [length] in El. lia.
    + destruct data as [|id data]; [done|]. assert (id ∈ id :: data) as Hin by set_solver. exists id.
      destruct (Hpair id Hin) as [Hsl Hp]. split_and!; [|done|done]. destruct (Hdi id Hin) as [E|Hd]; [by apply elem_of_nil in E|].
      destruct (Hent (dataName id)) as (k & _ & _ & id' & Hid' & Hcase); [by apply Hall|by apply Hall|]. cbn [fst] in Hcase.
      destruct Hcase as [[E _]|[E%dataName_inj _]]; [by apply data_ne_manifest in E|by subst].
Qed.

(** Without failures the check accepts such a directory. *)
Lemma syscall_calm {A} (p : prog dir A) d : faults d = [] -> syscall p d = p d.
Proof. destruct d as [n m I k fs]. cbn. by intros ->. Qed.

Lemma structureEntry_calm data manifests name id d : faults d = [] -> id <> [] ->
  (name = manifestName id /\ id ∉ manifests -> structureEntry data manifests (name, Regular) d = (Ok (data, id :: manifests), d)) /\
  (name = dataName id /\ id ∉ data -> structureEntry data manifests (name, Regular) d = (Ok (id :: data, manifests), d)).
Proof.
  intros Hf Hid. split; intros [-> Hnew]; unfold structureEntry; rewrite (bool_decide_eq_false_2 (Regular = Symlink)) by done;
    unfold bind, wrap_err; rewrite syscall_calm by done; cbn [ret]; rewrite (bool_decide_eq_true_2 (Regular = Regular)) by done; cbn [negb].
  - unfold manifestName. rewrite isManifestName_file, batchIDOf_name. rewrite !bool_decide_eq_false_2 by done. done.
  - rewrite data_not_manifest, (proj2 (isDataName_iff _)) by (unfold dataName; by rewrite batchIDOf_name).
    unfold dataName. rewrite batchIDOf_name, !bool_decide_eq_false_2 by done. done.
Qed.

Lemma structureEntries_calm es data manifests d : faults d = [] -> NoDup es.*1 ->
  Forall (fun e : bytes * file_kind => e.2 = Regular /\ exists id, id <> [] /\ (e.1 = manifestName id \/ e.1 = dataName id)) es ->
  (forall id, id ∈ data -> dataName id ∉ es.*1) -> (forall id, id ∈ manifests -> manifestName id ∉ es.*1) ->
  exists data' manifests', structureEntries data manifests es d = (Ok (data', manifests'), d) /\
    (forall id, id ∈ data' <-> id ∈ data \/ dataName id ∈ es.*1) /\ (forall id, id ∈ manifests' <-> id ∈ manifests \/ manifestName id ∈ es.*1).
Proof.
  intros Hf. revert data manifests. induction es as [|[name kind] es IH]; intros data manifests Hnd Hall Hd Hm.
  { exists data, manifests. split; [done|]. cbn. set_solver. }
  rewrite fmap_cons in *. cbn [fst] in *. apply NoDup_cons in Hnd as [Hn Hnd].
  apply Forall_cons in Hall as [(Hk & id & Hid & Hcase) Hall]. cbn [fst snd] in Hk, Hcase. subst kind.
  cbn [structureEntries]. unfold bind at 1. destruct (structureEntry_calm data manifests name id d Hf Hid) as [E1 E2].
  destruct Hcase as [->| ->].
  - rewrite E1. 2: { split; [done|]. intros Hin. apply (Hm id Hin). set_solver. }
    destruct (IH data (id :: manifests)) as (data' & manifests' & -> & Hd' & Hm'); [done|done|set_solver| |].
    { intros x [->|Hx]%elem_of_cons; [done|]. intros Hin. apply (Hm x Hx). set_solver. }
    exists data', manifests'. split; [done|]. split; intros x; [rewrite Hd'|rewrite Hm']; rewrite ?elem_of_cons.
    + split; [tauto|]. intros [?|[E|?]]; [auto|by apply data_ne_manifest in E|auto].
    + split; [intros [[->|?]|?]; auto|]. intros [?|[E%manifestName_inj|?]]; auto.
  - rewrite E2. 2: { split; [done|]. intros Hin. apply (Hd id Hin). set_solver. }
    destruct (IH (id :: data) manifests) as (data' & manifests' & -> & Hd' & Hm'); [done|done| |set_solver|].
    { intros x [->|Hx]%elem_of_cons; [done|]. intros Hin. apply (Hd x Hx). set_solver. }
    exists data', manifests'. split; [done|]. split; intros x; [rewrite Hd'|rewrite Hm']; rewrite ?elem_of_cons.
    + split; [intros [[->|?]|?]; auto|]. intros [?|[E%dataName_inj|?]]; auto.
    + split; [tauto|]. intros [?|[E|?]]; [auto|symmetry in E; by apply data_ne_manifest in E|auto].
Qed.

Lemma ReadDirOf_calm directory d : faults d = [] -> exists es, ReadDirOf directory d = (Ok es, d).
Proof. intros Hf. unfold ReadDirOf. rewrite syscall_calm by done. eauto. Qed.

Lemma ValidateStructure_complete spoolDir directory d id : wf d -> faults d = [] -> spoolDir <> [] -> filepath_IsAbs spoolDir = true ->
  structured directory d -> slash_free id -> pair_in directory d id ->
  exists n, n <> 0 /\ ValidateStructureAt spoolDir directory d = (Ok n, d).
Proof.
  intros Hwf Hf Habs1 Habs2 Hstr Hid [Hdat Hman]. unfold ValidateStructureAt. rewrite bool_decide_eq_false_2, Habs2 by done. cbn [orb negb].
  destruct (ReadDirOf_calm directory d Hf) as [es Hes]. unfold bind at 1, wrap_err. rewrite Hes. cbn [wrap]. unfold bind at 1.
  pose proof (ReadDirOf_Ok _ _ _ _ Hes) as (_ & Hnd & Hall).
  assert (forall n, n ∈ es.*1 -> exists i nd id, names d !! in_dir directory n = Some i /\ inodes d !! i = Some nd /\ i_kind nd = Regular /\
    id <> [] /\ (n = manifestName id \/ n = dataName id) /\ slash_free n /\ pair_in directory d id) as Hent.
  { intros n [Hn [i Hi]]%Hall. destruct (Hstr n i Hn Hi) as ((nd & Hnd' & Hk) & x & Hx & Hcase & Hp). by exists i, nd, x. }
  destruct (structureEntries_calm es [] [] d Hf Hnd) as (data & manifests & -> & Hd & Hm); [|by intros ? ?%elem_of_nil..|].
  { apply Forall_forall. intros [n k] Hin. assert (n ∈ es.*1) as Hn by (apply list_elem_of_fmap; by exists (n, k)).
    destruct (Hent n Hn) as (i & nd & x & Hi & Hnd' & Hk & Hx & Hcase & _). cbn [fst snd]. split; [|eauto].
    rewrite (ReadDirOf_entry _ _ _ _ _ _ Hes Hin), Hi. cbn. by rewrite Hnd'. }
  assert (forall x, slash_free (dataName x) <-> slash_free (manifestName x)) as Hsl.
  { intros x. unfold dataName, manifestName. rewrite !file_slash_free by (by (left + right)). done. }
  assert (forall x, dataName x ∈ es.*1 -> manifestName x ∈ es.*1) as H1.
  { intros x Hin. destruct (Hent _ Hin) as (i & nd & y & _ & _ & _ & _ & [E|E%dataName_inj] & Hs & Hp);
      [by apply data_ne_manifest in E|subst y]. apply Hall. split; [by apply Hsl|apply Hp]. }
  assert (forall x, manifestName x ∈ es.*1 -> dataName x ∈ es.*1) as H2.
  { intros x Hin. destruct (Hent _ Hin) as (i & nd & y & _ & _ & _ & _ & [E%manifestName_inj|E] & Hs & Hp);
      [subst y|symmetry in E; by apply data_ne_manifest in E]. apply Hall. split; [by apply Hsl|apply Hp]. }
  cbn [fst snd]. rewrite (proj2 (forallb_forall _ data)), (proj2 (forallb_forall _ manifests)).
  - cbn [negb]. exists (len data). split; [|done]. assert (id ∈ data) as Hin.
    { apply Hd. right. apply Hall. split; [apply file_slash_free; [by left|done]|done]. }
    destruct data; [by apply elem_of_nil in Hin|]. unfold len. cbn [length]. lia.
  - intros x Hx%list_elem_of_In. apply bool_decide_eq_true, Hd. apply Hm in Hx as [Hx|Hx]; [by apply elem_of_nil in Hx|auto].
  - intros x Hx%list_elem_of_In. apply bool_decide_eq_true, Hm. apply Hd in Hx as [Hx|Hx]; [by apply elem_of_nil in Hx|auto].
Qed.

(** ** What a rollover never does

    Every published batch stays published: the files of a pair, with their contents, are
    together in the active spool or together in one raw generation. *)

Lemma within_plain a p : slash_free p -> within a p = true -> p = a.
Proof.
  intros Hp (r & -> & [->|[r' ->]])%within_spec; [by rewrite app_nil_r|]. exfalso. apply Hp, elem_of_app. right. by left.
Qed.
Lemma within_in_dir a b n : slash_free a -> slash_free b -> within a (in_dir b n) = true -> a = b.
Proof.
  intros Ha Hb (r & E & [->|[r' ->]])%within_spec.
  - rewrite app_nil_r in E. exfalso. apply Ha. rewrite <- E. unfold in_dir. apply elem_of_app. right. by left.
  - by apply (in_dir_inj b a) in E as [-> _].
Qed.
Lemma rawRoot_slash_free : slash_free generationRawRootDirectoryName.
Proof. apply (bool_decide_eq_false (z2b 47 ∈ generationRawRootDirectoryName)). vm_compute. reflexivity. Qed.
Lemma nextPrefix_slash_free : slash_free generationRolloverNextPrefix.
Proof. apply (bool_decide_eq_false (z2b 47 ∈ generationRolloverNextPrefix)). vm_compute. reflexivity. Qed.
Lemma next_slash_free g : slash_free g -> slash_free (nextDirectory g).
Proof.
  intros Hg. unfold slash_free, nextDirectory. rewrite elem_of_app. intros [Hin|Hin]; [|done]. by apply nextPrefix_slash_free in Hin.
Qed.
Lemma raw_file g n : in_dir (rawDirectory g) n = in_dir generationRawRootDirectoryName ((generationDirectoryPrefix ++ g) ++ bs "/" ++ n).
Proof. apply in_dir_assoc. Qed.
Lemma within_raw g g' n : slash_free g -> slash_free g' -> within (rawDirectory g) (in_dir (rawDirectory g') n) = true -> g = g'.
Proof.
  intros Hg Hg' (r & E & Hr)%within_spec. rewrite raw_file in E. unfold rawDirectory at 1, in_dir in E. rewrite <- !app_assoc in E.
  do 3 apply app_inv_head in E. destruct Hr as [->|[r' ->]].
  - rewrite app_nil_r in E. exfalso. apply Hg. rewrite <- E. apply elem_of_app. right. by left.
  - by apply (in_dir_inj g' g) in E as [-> _].
Qed.

Section Conservation.
Context (active work : bytes).

(** The directories below the parent are four different ones. *)
Record layout : Prop := {
  la_active : slash_free active;
  la_work : slash_free work;
  la_differ : work <> active;
  la_raw : active <> generationRawRootDirectoryName;
  la_work_raw : work <> generationRawRootDirectoryName;
  la_next : HasPrefix active generationRolloverNextPrefix = false;
  la_work_next : HasPrefix work generationRolloverNextPrefix = false
}.
Context (L : layout).

Lemma active_raw g : apart active (rawDirectory g).
Proof.
  destruct L. split.
  - destruct (within active (rawDirectory g)) eqn:E; [|done]. by apply within_in_dir in E; [|done|apply rawRoot_slash_free].
  - destruct (within (rawDirectory g) active) eqn:E; [|done]. apply within_plain in E as ->; [|done]. exfalso. apply la_active0.
    unfold rawDirectory, in_dir. apply elem_of_app. right. by left.
Qed.
Lemma next_ne_active g : nextDirectory g <> active.
Proof. destruct L. intros <-. unfold nextDirectory in la_next0. rewrite (proj2 (HasPrefix_spec _ _)) in la_next0; [done|eauto]. Qed.
Lemma next_active g : slash_free g -> apart (nextDirectory g) active.
Proof.
  intros Hg%next_slash_free. pose proof (next_ne_active g) as Hne. destruct L. split.
  - destruct (within (nextDirectory g) active) eqn:E; [|done]. apply within_plain in E; [|done]. congruence.
  - destruct (within active (nextDirectory g)) eqn:E; [|done]. by apply within_plain in E.
Qed.

Definition home (directory : bytes) : Prop := directory = active \/ exists g, slash_free g /\ directory = rawDirectory g.
Definition batch_at (directory : bytes) (d : dir) (id : bytes) (f g : nat) : Prop :=
  names d !! in_dir directory (dataName id) = Some f /\ names d !! in_dir directory (manifestName id) = Some g.
Definition stored (d : dir) (id : bytes) (f g : nat) : Prop := exists directory, home directory /\ batch_at directory d id f g.

Record conserved (d d' : dir) : Prop := {
  co_wf : wf d';
  co_inodes i nd : inodes d !! i = Some nd -> exists nd', inodes d' !! i = Some nd' /\ i_kind nd' = i_kind nd /\ i_data nd' = i_data nd;
  co_stored id f g : stored d id f g -> stored d' id f g
}.
Definition conserves (d d' : dir) : Prop := wf d -> conserved d d'.
#[local] Instance conserves_PreOrder : PreOrder conserves.
Proof.
  split; [intros d Hwf; constructor; eauto|]. intros d1 d2 d3 H12 H23 Hwf. destruct (H12 Hwf) as [W2 I2 S2], (H23 W2) as [W3 I3 S3].
  constructor; [done| |auto]. intros i nd Hi. destruct (I2 _ _ Hi) as (nd2 & Hi2 & ? & ?), (I3 _ _ Hi2) as (nd3 & Hi3 & ? & ?).
  exists nd3. split_and!; congruence.
Qed.

Lemma conserves_same d d' : same d d' -> conserves d d'.
Proof.
  intros Hs Hwf. pose proof (same_wf _ _ Hs Hwf). destruct Hs as (En & _ & Ei & _). constructor; [done|rewrite Ei; eauto|].
  intros id f g (D & HD & Hb). exists D. split; [done|]. unfold batch_at. by rewrite En.
Qed.
Lemma conserves_reads {A} (p : prog dir A) : reads p -> keeps conserves p.
Proof. intros Hp d. apply conserves_same, Hp. Qed.

(** Names that are none of a home keep the batches. *)
Lemma conserves_names d d' : wf d' -> (forall i nd, inodes d !! i = Some nd -> inodes d' !! i = Some nd) ->
  (forall directory n i, home directory -> names d !! in_dir directory n = Some i -> names d' !! in_dir directory n = Some i) -> conserves d d'.
Proof.
  intros Hwf Hi Hn _. constructor; [done|eauto|]. intros id f g (D & HD & Hf & Hg). exists D. split; [done|]. split; auto.
Qed.

Lemma conserves_Mkdir p : keeps conserves (Mkdir p).
Proof.
  intros d Hwf. destruct (Mkdir p d) as [r d'] eqn:E. cbn. pose proof Hwf as (W1 & W2 & W3).
  apply Mkdir_cases in E as [[_ Hs]|(_ & Hn & En & Ed & Ei & Ek)]; [by apply conserves_same|].
  assert (inodes d !! next_ino d = None) as Hfresh.
  { destruct (inodes d !! next_ino d) eqn:E; [|done]. specialize (W3 (next_ino d) ltac:(by rewrite E)). lia. }
  revert Hwf. apply conserves_names.
  - unfold wf. rewrite En, Ed, Ei, Ek. split_and!.
    + intros n i [[<- <-]|[Hne Hi]]%lookup_insert_Some; [rewrite lookup_insert_eq; eauto|]. apply lookup_insert_is_Some'. eauto.
    + intros n i Hi. apply lookup_insert_is_Some'. eauto.
    + intros i [<-|Hi]%lookup_insert_is_Some'; [lia|]. specialize (W3 i Hi). lia.
  - intros i nd Hi. rewrite Ei, lookup_insert_ne; [done|congruence].
  - intros D n i _ Hi. rewrite En, lookup_insert_ne; [done|congruence].
Qed.

Lemma home_not_next directory n : home directory -> HasPrefix (in_dir directory n) generationRolloverNextPrefix = false.
Proof.
  intros HD. destruct (HasPrefix _ _) eqn:E; [|done]. apply HasPrefix_spec in E as [x E]. destruct HD as [->|(g & _ & ->)].
  - exfalso. destruct L. unfold in_dir in E. apply app_eq_app in E as (l & [[E1 E2]|[E1 E2]]).
    + rewrite (proj2 (HasPrefix_spec active _)) in la_next0; [done|eauto].
    + destruct l as [|c l]; [rewrite app_nil_r in E1; rewrite <- E1 in la_next0; vm_compute in la_next0; discriminate la_next0|]. injection E2 as <- _.
      apply nextPrefix_slash_free. rewrite E1. apply elem_of_app. right. by left.
  - by vm_compute in E.
Qed.

Lemma conserves_Remove p : HasPrefix p generationRolloverNextPrefix = true -> keeps conserves (RemoveDirectory p).
Proof.
  intros Hp d Hwf. destruct (RemoveDirectory p d) as [r d'] eqn:E. cbn. pose proof Hwf as (W1 & W2 & W3).
  apply RemoveDirectory_cases in E as [[_ Hs]|(_ & _ & _ & En & Ed & Ei & Ek)]; [by apply conserves_same|].
  revert Hwf. apply conserves_names; [|by rewrite Ei|].
  - unfold wf. rewrite En, Ed, Ei, Ek. split_and!; [|done..]. intros n i [_ Hi]%lookup_delete_Some. eauto.
  - intros D n i HD Hi. rewrite En, lookup_delete_ne; [done|]. intros ->. by rewrite home_not_next in Hp.
Qed.

Lemma conserves_secure platform p : keeps conserves (secureReplacementSpoolDirectory platform p).
Proof.
  intros d Hwf. destruct (secureReplacementSpoolDirectory platform p d) as [r d'] eqn:E. cbn. pose proof Hwf as (W1 & W2 & W3).
  apply secure_cases in E as [[_ Hs]|(_ & j & ndj & Hn & Hj & En & Ed & Ei & Ek)]; [by apply conserves_same|].
  assert (forall i, is_Some (inodes d' !! i) <-> is_Some (inodes d !! i)) as Hsome.
  { intros i. rewrite Ei, lookup_insert_is_Some'. split; [intros [<-|?]; eauto|auto]. }
  constructor.
  - unfold wf. rewrite En, Ed, Ek. setoid_rewrite Hsome. done.
  - intros i nd Hi. rewrite Ei. destruct (decide (i = j)) as [->|Hne]; [|rewrite lookup_insert_ne by done; eauto].
    rewrite lookup_insert_eq. assert (ndj = nd) as -> by congruence. by exists (protected nd).
  - intros id f g (D & HD & Hb). exists D. split; [done|]. unfold batch_at. by rewrite En.
Qed.

(** A directory is moved: [home]s are moved to [home]s. *)
Lemma conserves_move s t : apart s t ->
  (forall directory n, home directory -> within s (in_dir directory n) = true -> directory = s /\ home t) ->
  keeps conserves (MoveDirectoryExW s t).
Proof.
  intros Hst Hhome d Hwf. destruct (MoveDirectoryExW s t d) as [r d'] eqn:E. cbn. pose proof Hwf as (W1 & W2 & W3).
  apply MoveDirectory_cases in E as [[_ Hs]|(_ & Hfree & En & Ei & Ek & Hd)]; [by apply conserves_same|].
  constructor; [|rewrite Ei; eauto|].
  - unfold wf. rewrite Ei, Ek, En. split_and!; [intros n i [p Hp]%relocate_range; eauto| |done].
    destruct Hd as [[_ ->]|[_ ->]]; [intros n i [p Hp]%relocate_range; eauto|done].
  - intros id f g (D & HD & Hf & Hg). destruct (within s (in_dir D (dataName id))) eqn:Ew.
    + destruct (Hhome _ _ HD Ew) as [-> Ht]. exists t. split; [done|]. unfold batch_at. by rewrite En, !relocate_in.
    + exists D. split; [done|]. assert (forall n, names d !! in_dir D n <> None -> within t (in_dir D n) = false) as Hout.
      { intros n Hn. destruct (within t (in_dir D n)) eqn:E; [|done]. by apply Hfree in E. }
      assert (within s (in_dir D (manifestName id)) = false) as Ew2.
      { destruct (within s (in_dir D (manifestName id))) eqn:E; [|done]. destruct (Hhome _ _ HD E) as [-> _]. by rewrite within_file in Ew. }
      unfold batch_at. rewrite En, !relocate_out; try done; apply Hout; congruence.
Qed.

Lemma conserves_freeze g : slash_free g -> keeps conserves (MoveDirectoryExW active (rawDirectory g)).
Proof.
  intros Hg. apply conserves_move; [apply active_raw|]. intros D n HD Hw. split; [|right; by exists g].
  destruct HD as [->|(g' & _ & ->)]; [done|]. rewrite raw_file in Hw. apply within_in_dir in Hw; [by destruct L|apply L|apply rawRoot_slash_free].
Qed.
Lemma conserves_promote g : slash_free g -> keeps conserves (MoveDirectoryExW (nextDirectory g) active).
Proof.
  intros Hg. apply conserves_move; [by apply next_active|]. intros D n HD Hw. exfalso. pose proof (home_not_next D n HD) as Hp.
  apply within_spec in Hw as (r & E & _). rewrite E in Hp. unfold nextDirectory in Hp. rewrite <- app_assoc in Hp.
  rewrite (proj2 (HasPrefix_spec _ _)) in Hp; [done|eauto].
Qed.
Lemma conserves_rollback g : slash_free g -> keeps conserves (MoveDirectoryExW (rawDirectory g) active).
Proof.
  intros Hg. apply conserves_move; [apply apart_sym, active_raw|]. intros D n HD Hw. split; [|by left].
  destruct HD as [->|(g' & Hg' & ->)].
  - exfalso. destruct L. apply within_spec in Hw as (r & E & _). unfold rawDirectory, in_dir in E. rewrite <- !app_assoc in E.
    apply (in_dir_inj active) in E as [E _]; [done|done|apply rawRoot_slash_free].
  - by apply within_raw in Hw as ->.
Qed.

(** *** The programs *)

Context `{Unicode} `{JSON Manifest} (platform : SenderPlatform) (physical : bytes).

(** How the platform names the directories. *)
Record resolved : Prop := {
  re_active : filepath_Base physical = active;
  re_publication publication : resolveDirectoryPath (paths platform) (filepath_Clean physical) = Ok publication -> filepath_Base publication = active;
  re_work resolved workDir : PhysicalSpoolPath (paths platform) physical = Ok resolved -> CollectorWorkPath resolved = Ok workDir ->
    filepath_Base workDir = work;
  re_now : slash_free (formattedNow platform)
}.
Context (R : resolved).

Lemma hex_slash_free s : slash_free (hex_encode s).
Proof.
  assert (forall n, 0 <= n < 16 -> hex_digit n <> z2b 47) as Hdigit.
  { intros n Hn E. pose proof (fromHexChar_digit n Hn) as Hd. rewrite E in Hd. by vm_compute in Hd. }
  unfold slash_free. induction s as [|b s IH]; cbn [hex_encode]; [by intros ?%elem_of_nil|]. pose proof (b2z_range b) as Hb.
  rewrite !elem_of_cons. intros [E|[E|Hin]]; [| |done]; symmetry in E; (eapply Hdigit; [|exact E]).
  - split; [apply Z.div_pos; lia|apply Z.div_lt_upper_bound; lia].
  - apply Z.mod_pos_bound. lia.
Qed.
Lemma NewGenerationID_slash_free g : NewGenerationID platform = Ok g -> slash_free g.
Proof.
  unfold NewGenerationID. destruct (rand_Read platform) as [random|e|]; [|done..]. intros [= <-]. unfold slash_free. rewrite !elem_of_app.
  intros [Hin|Hin]; [exact (re_now R Hin)|]. apply elem_of_cons in Hin as [Hin|Hin]; [|exact (hex_slash_free _ Hin)].
  vm_compute in Hin. discriminate Hin.
Qed.

Lemma conserves_publish s t : keeps conserves (MoveDirectoryExW s t) -> keeps conserves (publishGenerationDirectory platform s t).
Proof.
  intros Hm. apply keeps_bind; [apply _| |done]. apply keeps_if; [|apply keeps_ret, _]. apply keeps_wrap, conserves_secure.
Qed.

Lemma reads_hasEntries p : reads (directoryHasEntries p).
Proof. apply keeps_bind; [apply _|apply reads_Open|]. intros _. apply reads_defer_close, reads_syscall. by intros d. Qed.
Lemma reads_ReadParent : reads ReadParent.
Proof. apply reads_syscall. by intros d. Qed.
Lemma reads_validateRawRoot rawRoot : reads (validateRawRoot platform rawRoot).
Proof. intros d. unfold validateRawRoot. pose proof (reads_Lstat generationRawRootDirectoryName d) as Hl. by destruct (Lstat _ d). Qed.
Lemma reads_nextDirectories es : reads (nextDirectories es).
Proof.
  induction es as [|[name kind] es IH]; cbn [nextDirectories]; [apply keeps_ret, _|]. apply keeps_if; [done|].
  apply keeps_bind; [apply _|apply keeps_wrap, reads_syscall, keeps_ret, _|]. intros _. apply keeps_if; [apply keeps_throw, _|].
  apply keeps_bind; [apply _|done|]. intros ?. apply keeps_ret, _.
Qed.
Lemma reads_structure spoolDir directory : reads (ValidateStructureAt spoolDir directory).
Proof.
  apply keeps_if; [apply keeps_throw, _|]. apply keeps_bind; [apply _|apply keeps_wrap, reads_syscall; by intros d|]. intros es.
  apply keeps_bind; [apply _| |intros [data manifests]; repeat keeps1]. 
  enough (forall data manifests, reads (structureEntries data manifests es)) as Hes by apply Hes.
  induction es as [|[name kind] es IH]; intros data manifests; cbn [structureEntries]; [apply keeps_ret, _|].
  apply keeps_bind; [apply _| |intros [? ?]; apply IH]. unfold structureEntry. reads.
Qed.
Lemma reads_recoveryDir : reads (validateRecoverySpoolDir platform physical).
Proof. unfold validateRecoverySpoolDir. reads. Qed.

Lemma nextDirectories_Ok es d ns d' : nextDirectories es d = (Ok ns, d') ->
  ns = (filter (fun e => HasPrefix e.1 generationRolloverNextPrefix = true) es).*1 /\
  Forall (fun e => HasPrefix e.1 generationRolloverNextPrefix = true -> e.2 = GoFS.Directory) es.
Proof.
  revert d ns d'. induction es as [|[name kind] es IH]; intros d ns d'; cbn [nextDirectories]; [by intros [= <- _]|].
  destruct (HasPrefix name _) eqn:Hp; cbn [negb].
  - intros (u & d1 & _ & Hr)%bind_Ok. case_bool_decide as Hk; [|done]. cbn [negb] in Hr. apply bind_Ok in Hr as (ns' & d2 & Hr & [= <- _]).
    apply IH in Hr as [-> Hall]. rewrite filter_cons, decide_True by done. split; [done|]. by constructor.
  - intros [-> Hall]%IH. rewrite filter_cons, decide_False by (cbn [fst]; by rewrite Hp). split; [done|]. constructor; [cbn [fst]; by rewrite Hp|done].
Qed.

Lemma next_of name : slash_free name -> HasPrefix name generationRolloverNextPrefix = true -> exists g, slash_free g /\ name = nextDirectory g.
Proof.
  intros Hs [g ->]%HasPrefix_spec. exists g. split; [|done]. intros Hg. apply Hs, elem_of_app. by right.
Qed.

Lemma conserves_restore g : slash_free g -> keeps conserves (restoreActive platform physical (nextDirectory g)).
Proof.
  intros Hg. unfold restoreActive. apply keeps_if; [apply keeps_throw, _|].
  apply keeps_bind; [apply _|apply keeps_wrap, conserves_reads, reads_hasEntries|]. intros b. apply keeps_if; [apply keeps_throw, _|].
  apply keeps_bind; [apply _|apply keeps_wrap, conserves_reads, reads_validateRawRoot|]. intros _.
  apply keeps_bind; [apply _|apply keeps_wrap, conserves_reads, reads_Lstat|]. intros info. apply keeps_if; [apply keeps_throw, _|].
  apply keeps_bind; [apply _|apply keeps_wrap, conserves_reads, reads_structure|]. intros pairs. apply keeps_if; [apply keeps_throw, _|].
  apply keeps_wrap, conserves_publish. rewrite (re_active R). by apply conserves_promote.
Qed.

(** The recovery of an interrupted rollover reads, or promotes the replacement directory. *)
Lemma recoverRollover_inv d r d' : recoverInterruptedRolloverLocked platform physical d = (r, d') ->
  (same d d' /\ (r = Ok tt -> is_Some (names d !! active))) \/
  exists d1 g, names d !! active = None /\ same d d1 /\ slash_free g /\ restoreActive platform physical (nextDirectory g) d1 = (r, d').
Proof.
  unfold recoverInterruptedRolloverLocked. rewrite (re_active R). pose proof (reads_Lstat active d) as Hs0.
  destruct (Lstat active d) as [[info|e|] d0] eqn:El; cbn in Hs0; [|destruct (errors_Is e ErrNotExist) eqn:Ee|]; cbn [negb].
  - apply Lstat_Ok in El as (_ & i & nd & Hn & _). intros Hr. left. unfold ret, throw in Hr. destruct (negb _); injection Hr as <- <-; eauto.
  - unfold bind at 1. pose proof (keeps_wrap same "scan FI spool parent for interrupted rollover: %w" _ reads_ReadParent d0) as Hs1.
    destruct (wrap_err _ ReadParent d0) as [[es|e1|] d1] eqn:Er; cbn in Hs1; [|intros [= <- <-]; left; split; [by etrans|done]..].
    apply wrap_err_Ok, ReadParent_Ok in Er as (_ & _ & Hall & _). unfold bind at 1. pose proof (reads_nextDirectories es d1) as Hs2.
    destruct (nextDirectories es d1) as [[ns|e2|] d2] eqn:En; cbn in Hs2; [|intros [= <- <-]; left; split; [by do 2 (etrans; [done|])|done]..].
    assert (same d d2) as Hs by (by do 2 (etrans; [done|])). apply nextDirectories_Ok in En as [Ens _].
    destruct ns as [|n [|n' ns]]; [intros [= <- <-]; left; by split| |intros [= <- <-]; left; by split]. intros Hr. right.
    assert (n ∈ [n]) as Hn by set_solver. rewrite Ens in Hn. apply list_elem_of_fmap in Hn as ([m k] & -> & [Hp Hin]%list_elem_of_filter).
    destruct (next_of m) as (g & Hg & Em); [|done|].
    { apply Hall. apply list_elem_of_fmap. by exists (m, k). }
    exists d2, g. split_and!; [|done..|cbn [fst] in *; by rewrite <- Em].
    apply same_syscall in El as [(fs & [= ->] & _)|(fs & El & _)]; [done|]. cbn in El. destruct (names d !! active) as [i|]; [|done].
    destruct (inodes d !! i); [done|]. by injection El as <- _.
  - intros [= <- <-]. left. by split.
  - intros [= <- <-]. left. by split.
Qed.
Lemma conserves_recoverRollover : keeps conserves (recoverInterruptedRolloverLocked platform physical).
Proof.
  intros d. destruct (recoverInterruptedRolloverLocked platform physical d) as [r d'] eqn:E.
  apply recoverRollover_inv in E as [[Hs _]|(d1 & g & _ & Hs & Hg & E)]; [by apply conserves_same|].
  etrans; [by apply conserves_same|]. exact (keeps_run _ _ _ _ _ (conserves_restore g Hg) E).
Qed.

Lemma keeps_each {A} (Q : dir -> dir -> Prop) `{!PreOrder Q} (body : A -> prog dir unit) l : (forall a, keeps Q (body a)) -> keeps Q (each body l).
Proof. intros Hb. induction l as [|a l IH]; cbn [each]; [apply keeps_ret, _|]. apply keeps_bind; [apply _|done|by intros _]. Qed.
Lemma conserves_cleanup : keeps conserves cleanupRolloverNextDirectories.
Proof.
  apply keeps_bind; [apply _|apply keeps_wrap, conserves_reads, reads_ReadParent|]. intros es. apply keeps_each; [apply _|]. intros [name kind].
  unfold cleanupEntry. destruct (_ || _) eqn:E; [apply keeps_ret, _|]. apply orb_false_iff in E as [_ Hp%negb_false_iff].
  apply keeps_bind; [apply _|apply conserves_reads, reads_hasEntries|]. intros b. apply keeps_if; [apply keeps_throw, _|].
  by apply keeps_wrap, conserves_Remove.
Qed.
Lemma conserves_MkdirAll ps : keeps conserves (MkdirAll ps).
Proof.
  induction ps as [|p ps IH]; intros d; cbn [MkdirAll]; [reflexivity|]. destruct (names d !! p) as [i|].
  - destruct (match inodes d !! i with Some _ => _ | None => _ end); [apply IH|reflexivity].
  - revert d. apply keeps_bind; [apply _|apply conserves_Mkdir|by intros _].
Qed.
Lemma conserves_rawRoot : keeps conserves (EnsureGenerationRawRoot platform physical).
Proof.
  unfold EnsureGenerationRawRoot. apply keeps_bind; [apply _|apply keeps_lift, _|]. intros p.
  apply keeps_bind; [apply _|apply keeps_lift, _|]. intros k. apply keeps_if; [apply keeps_throw, _|].
  apply keeps_bind; [apply _|apply keeps_wrap, conserves_MkdirAll|]. intros _.
  apply keeps_bind; [apply _|apply conserves_reads, reads_validateRawRoot|]. intros _. apply keeps_ret, _.
Qed.

(** The recovery of interrupted publications. *)
Definition recoverPublications : prog dir Z := fun d => RecoverInterruptedPublicationsLocked (platform_at (paths platform) d) physical d.
Lemma recoverPublications_here d : careful_here work active d (recoverPublications d).2.
Proof.
  unfold recoverPublications, RecoverInterruptedPublicationsLocked. apply (recoverPrepared_entries work active); [apply _|..].
  - intros publication Hp. by apply (re_publication R).
  - intros w Hw. unfold CollectorWorkDir, PhysicalSpoolDir in Hw. res_inv Hw. res_inv E. exact (re_work R _ w E0 Hw).
  - intros d0 d' Hs Hwf. split; [by apply (careful_same work active None)|]. intros n _. by rewrite (proj1 Hs).
  - intros es d0. apply recoverEntries_here; apply L.
Qed.

(** Names outside the batches of the two directories. *)
Lemma raw_not_batch g n k x : in_dir (rawDirectory g) n <> path work active k x.
Proof. rewrite raw_file. destruct L. apply outside_path; try done. apply rawRoot_slash_free. Qed.
Lemma plain_not_batch n k x : slash_free n -> n <> path work active k x.
Proof. intros Hn ->. apply Hn. unfold path, in_dir. apply elem_of_app. right. by left. Qed.

Lemma conserves_recoverPublications : keeps conserves recoverPublications.
Proof.
  intros d Hwf. destruct (recoverPublications_here d Hwf) as [Hc Hn]. destruct Hc as [W I _ P _ _]. constructor; [done|eauto|].
  intros id f g (D & HD & Hf & Hg). exists D. split; [done|]. destruct HD as [->|(x & _ & ->)].
  - assert (pair_at work active d id) as Hp by (split; eauto). split.
    + rewrite <- Hf. by apply (P id KPdat); auto.
    + rewrite <- Hg. by apply (P id KPman); auto.
  - unfold batch_at. rewrite !Hn by (intros; apply raw_not_batch). done.
Qed.

Lemma conserves_repair : keeps conserves (repair platform physical).
Proof.
  unfold repair. apply keeps_bind; [apply _|apply keeps_wrap, conserves_recoverRollover|]. intros _.
  apply keeps_bind; [apply _|apply conserves_reads, reads_recoveryDir|]. intros _.
  apply keeps_bind; [apply _|apply conserves_rawRoot|]. intros rawRoot. apply keeps_bind; [apply _|apply conserves_cleanup|]. intros _.
  apply keeps_bind; [apply _|apply keeps_wrap, conserves_recoverPublications|]. intros n. apply keeps_ret, _.
Qed.

(** *** While the active spool is there

    Before the exchange it keeps its name, and no replacement directory appears. *)

Definition dir_at (d : dir) (p : bytes) : Prop := exists i nd, names d !! p = Some i /\ inodes d !! i = Some nd /\ i_kind nd = GoFS.Directory.
Definition next_name (n : bytes) : Prop := slash_free n /\ HasPrefix n generationRolloverNextPrefix = true.

Record steady_change (d d' : dir) : Prop := {
  sc_conserved : conserved d d';
  sc_active : names d' !! active = names d !! active;
  sc_batches id f g : batch_at active d id f g -> batch_at active d' id f g /\
    forall n, n = dataName id \/ n = manifestName id -> durable d' !! in_dir active n = durable d !! in_dir active n;
  sc_raw i : names d !! generationRawRootDirectoryName = Some i -> names d' !! generationRawRootDirectoryName = Some i;
  sc_next n : next_name n -> (names d' !! n = names d !! n \/ names d' !! n = None /\ forall m, names d' !! in_dir n m = None) /\
    forall m, names d' !! in_dir n m = names d !! in_dir n m \/ names d' !! in_dir n m = None
}.
Definition steady (d d' : dir) : Prop := wf d -> is_Some (names d !! active) -> steady_change d d'.
#[local] Instance steady_PreOrder : PreOrder steady.
Proof.
  split; [intros d Hwf Ha; constructor; auto; by apply conserves_PreOrder|]. intros d1 d2 d3 H12 H23 Hwf Ha.
  destruct (H12 Hwf Ha) as [C1 A1 B1 R1 N1]. destruct H23 as [C2 A2 B2 R2 N2]; [apply C1|by rewrite A1|]. constructor; [|congruence| |auto|].
  - eapply conserves_PreOrder; [by intros _|by intros _|done].
  - intros id f g Hb. destruct (B1 _ _ _ Hb) as [Hb2 E1], (B2 _ _ _ Hb2) as [Hb3 E2]. split; [done|]. intros n Hn. by rewrite E2, E1.
  - intros n Hn. destruct (N1 n Hn) as [M1 F1], (N2 n Hn) as [M2 F2]. split; [|intros m; destruct (F2 m) as [->|?]; auto].
    destruct M2 as [->|?]; [|auto]. destruct M1 as [->|[-> M1]]; [auto|]. right. split; [done|]. intros m. destruct (F2 m) as [->|?]; auto.
Qed.

Lemma steady_same d d' : same d d' -> steady d d'.
Proof.
  intros Hs Hwf Ha. pose proof (conserves_same _ _ Hs Hwf). destruct Hs as (En & Ed & _).
  constructor; unfold batch_at; rewrite ?En, ?Ed; auto.
Qed.
Lemma steady_reads {A} (p : prog dir A) : reads p -> keeps steady p.
Proof. intros Hp d. apply steady_same, Hp. Qed.

Lemma active_not_next n : next_name n -> n <> active.
Proof. intros [_ Hp] ->. by rewrite (la_next L) in Hp. Qed.
Lemma raw_not_next n : next_name n -> n <> generationRawRootDirectoryName.
Proof. intros [_ Hp] ->. by vm_compute in Hp. Qed.
Lemma plain_not_in p a n : slash_free p -> p <> in_dir a n.
Proof. intros Hp ->. apply Hp. unfold in_dir. apply elem_of_app. right. by left. Qed.

Lemma steady_recoverRollover : keeps steady (recoverInterruptedRolloverLocked platform physical).
Proof.
  intros d Hwf Ha. destruct (recoverInterruptedRolloverLocked platform physical d) as [r d'] eqn:E.
  apply recoverRollover_inv in E as [[Hs _]|(d1 & g & Hn & _)]; [by apply steady_same|rewrite Hn in Ha; by destruct Ha].
Qed.
Lemma steady_Remove p : HasPrefix p generationRolloverNextPrefix = true -> keeps steady (RemoveDirectory p).
Proof.
  intros Hp d Hwf Ha. pose proof (conserves_Remove p Hp d Hwf) as Hc. destruct (RemoveDirectory p d) as [r d'] eqn:Er. cbn [snd] in *.
  apply RemoveDirectory_cases in Er as [[_ Hs]|(_ & _ & Hbelow & En & Ed & _)]; [by apply steady_same|].
  assert (forall n, n <> p -> names d' !! n = names d !! n) as Hn by (intros n Hne; by rewrite En, lookup_delete_ne).
  constructor; [done|..].
  - apply Hn. intros E. by rewrite <- E, (la_next L) in Hp.
  - intros id f g [Hf Hg]. unfold batch_at. rewrite Ed, !Hn; [done|..]; intros E; rewrite <- E, home_not_next in Hp by (by left); done.
  - intros i Hi. rewrite Hn; [done|]. intros E. rewrite <- E in Hp. by vm_compute in Hp.
  - intros n [Hs Hnext]. split; [|intros m].
    + destruct (decide (n = p)) as [->|Hne]; [|left; auto]. right. rewrite En, lookup_delete_eq. split; [done|]. intros m.
      apply lookup_delete_None. auto.
    + destruct (decide (in_dir n m = p)) as [<-|]; [|auto]. right. by rewrite En, lookup_delete_eq.
Qed.
Lemma steady_cleanup : keeps steady cleanupRolloverNextDirectories.
Proof.
  apply keeps_bind; [apply _|apply keeps_wrap, steady_reads, reads_ReadParent|]. intros es.
  apply keeps_each; [apply _|]. intros [name kind]. unfold cleanupEntry. destruct (_ || _) eqn:E; [apply keeps_ret, _|]. apply orb_false_iff in E as [_ Hp%negb_false_iff].
  apply keeps_bind; [apply _|apply steady_reads, reads_hasEntries|]. intros b. apply keeps_if; [apply keeps_throw, _|]. apply keeps_wrap.
  by apply steady_Remove.
Qed.
Lemma steady_rawRoot : keeps steady (EnsureGenerationRawRoot platform physical).
Proof.
  unfold EnsureGenerationRawRoot. apply keeps_bind; [apply _|apply keeps_lift, _|]. intros p.
  apply keeps_bind; [apply _|apply keeps_lift, _|]. intros k. apply keeps_if; [apply keeps_throw, _|].
  apply keeps_bind; [apply _|apply keeps_wrap|].
  - intros d. cbn [MkdirAll]. destruct (names d !! generationRawRootDirectoryName) as [i|]; [by destruct (match inodes d !! i with Some _ => _ | None => _ end)|].
    revert d. apply keeps_bind; [apply _| |intros _; apply keeps_ret, _]. intros d Hwf Ha.
    pose proof (conserves_Mkdir generationRawRootDirectoryName d Hwf) as Hc. destruct (Mkdir _ d) as [r d'] eqn:Er. cbn [snd] in *.
    apply Mkdir_cases in Er as [[_ Hs]|(_ & Hn & En & Ed & _)]; [by apply steady_same|].
    assert (forall n, n <> generationRawRootDirectoryName -> names d' !! n = names d !! n) as Hne by (intros; by rewrite En, lookup_insert_ne).
    assert (forall a n, in_dir a n <> generationRawRootDirectoryName) as Hin
      by (intros a n E; symmetry in E; by apply plain_not_in in E; [|apply rawRoot_slash_free]).
    constructor; [done|..].
    + apply Hne, L.
    + intros id f g Hb. unfold batch_at. by rewrite Ed, !Hne.
    + intros i Hi. by rewrite Hi in Hn.
    + intros n Hnext. split; [left; apply Hne; by apply raw_not_next|]. intros m. left. by apply Hne.
  - intros _. apply keeps_bind; [apply _|apply steady_reads, reads_validateRawRoot|]. intros _. apply keeps_ret, _.
Qed.
Lemma steady_recoverPublications : keeps steady recoverPublications.
Proof.
  intros d Hwf Ha. pose proof (conserves_recoverPublications d Hwf) as Hc. destruct (recoverPublications_here d Hwf) as [[_ _ _ P _ _] Hn].
  constructor; [done|..].
  - apply Hn. intros k x. apply plain_not_batch, L.
  - intros id f g [Hf Hg]. assert (pair_at work active d id) as Hp by (split; eauto).
    destruct (P id KPdat) as [N1 D1], (P id KPman) as [N2 D2]; auto. split; [split; [by rewrite <- Hf|by rewrite <- Hg]|].
    intros n [->| ->]; [exact D1|exact D2].
  - intros i Hi. rewrite Hn; [done|]. intros k x. apply plain_not_batch, rawRoot_slash_free.
  - intros n Hnext. split; [left; apply Hn; intros k x; apply plain_not_batch, Hnext|]. intros m. left. apply Hn. intros k x.
    destruct L, Hnext as [Hs Hp]. apply outside_path; try done; intros ->; congruence.
Qed.
Lemma steady_repair : keeps steady (repair platform physical).
Proof.
  unfold repair. apply keeps_bind; [apply _|apply keeps_wrap, steady_recoverRollover|]. intros _.
  apply keeps_bind; [apply _|apply steady_reads, reads_recoveryDir|]. intros _.
  apply keeps_bind; [apply _|apply steady_rawRoot|]. intros rawRoot. apply keeps_bind; [apply _|apply steady_cleanup|]. intros _.
  apply keeps_bind; [apply _|apply keeps_wrap, steady_recoverPublications|]. intros n. apply keeps_ret, _.
Qed.

(** *** The exchange *)

(** A publication of a directory: no name changed, or the directory was moved. *)
Inductive publication (s t : bytes) (d : dir) (r : res unit) (d' : dir) : Prop :=
| pub_failed e : r = Err e -> names d' = names d -> durable d' = durable d -> publication s t d r d'
| pub_moved : is_Some (names d !! s) -> (forall p, within t p = true -> names d !! p = None) -> names d' = relocate s t (names d) ->
    (r = Ok tt /\ durable d' = relocate s t (durable d) \/ (exists e, r = Err e) /\ durable d' = durable d) -> publication s t d r d'.

Lemma publish_inv s t d r d' : publishGenerationDirectory platform s t d = (r, d') -> publication s t d r d'.
Proof.
  unfold publishGenerationDirectory, bind at 1.
  assert (forall d1, names d1 = names d -> durable d1 = durable d -> MoveDirectoryExW s t d1 = (r, d') -> publication s t d r d') as Hmove.
  { intros d1 En Ed [[[e ->] (En' & Ed' & _)]|(Hs & Hfree & En' & _ & _ & Hd)]%MoveDirectory_cases.
    - eapply pub_failed; [done|congruence..].
    - rewrite En, Ed in *. by apply pub_moved. }
  destruct (HasPrefix _ _); [|by apply Hmove]. unfold wrap_err. destruct (secureReplacementSpoolDirectory platform s d) as [r1 d1] eqn:Es.
  apply secure_cases in Es as [[[e ->] (En & Ed & _)]|(-> & i & nd & _ & _ & En & Ed & _)]; cbn [wrap].
  - intros [= <- <-]. by eapply pub_failed.
  - by apply Hmove.
Qed.

Lemma next_raw g : slash_free g -> apart (nextDirectory g) (rawDirectory g).
Proof.
  intros Hg. pose proof (next_slash_free g Hg) as Hn. split.
  - destruct (within (nextDirectory g) (rawDirectory g)) eqn:E; [|done]. by apply within_in_dir in E; [|done|apply rawRoot_slash_free].
  - destruct (within (rawDirectory g) (nextDirectory g)) eqn:E; [|done]. apply within_plain in E; [|done]. exfalso.
    by eapply plain_not_in, E.
Qed.

Lemma within_self s : within s s = true.
Proof. apply within_spec. exists []. rewrite app_nil_r. split; [done|by left]. Qed.

(** The active spool is the old one or the replacement, or it is frozen and missing. *)
Definition exchanged (g : bytes) (d d' : dir) : Prop :=
  is_Some (names d' !! active) /\ (names d' !! active = names d !! active \/ names d' !! active = names d !! nextDirectory g) \/
  names d' = relocate active (rawDirectory g) (names d).

Lemma rollback_exchanged g d d1 d2 r3 d3 : names d1 = relocate active (rawDirectory g) (names d) ->
  (is_Some (names d2 !! active) /\ names d2 !! active = names d !! nextDirectory g \/ names d2 = names d1) ->
  publication (rawDirectory g) active d2 r3 d3 -> exchanged g d d3.
Proof.
  intros En1 H2 [e3 _ En3 _|Hs Hfree En3 _].
  - destruct H2 as [[Ha H2]|H2]; [left; rewrite En3; auto|]. right. congruence.
  - destruct H2 as [[Ha _]|H2]; [rewrite (Hfree active) in Ha by apply within_self; by destruct Ha|]. left.
    pose proof (apart_sym _ _ (active_raw g)) as Hra. rewrite En3, relocate_root by done. split; [done|]. left.
    by rewrite H2, En1, relocate_root by apply active_raw.
Qed.

Lemma exchange_fails g d r d' : slash_free g -> exchange platform active g d = (r, d') -> r <> Ok tt -> is_Some (names d !! active) -> exchanged g d d'.
Proof.
  unfold exchange. intros Hg Hr Hfail Ha. unfold bind, wrap_err in Hr.
  destruct (publishGenerationDirectory platform active (rawDirectory g) d) as [r1 d1] eqn:E1. apply publish_inv in E1.
  destruct E1 as [e -> En1 _|_ _ En1 [[-> _]|[[e ->] _]]]; cbn [wrap] in Hr.
  - injection Hr as <- <-. left. rewrite En1. auto.
  - destruct (publishGenerationDirectory platform (nextDirectory g) active d1) as [r2 d2] eqn:E2. apply publish_inv in E2.
    assert (forall e, r2 = Err e -> d' = (publishGenerationDirectory platform (rawDirectory g) active d2).2) as Hd'.
    { intros e ->. destruct (publishGenerationDirectory platform (rawDirectory g) active d2) as [[] d3]; by injection Hr as _ <-. }
    destruct (publishGenerationDirectory platform (rawDirectory g) active d2) as [r3 d3] eqn:E3. apply publish_inv in E3. cbn [snd] in Hd'.
    destruct E2 as [e -> En2 _|Hs _ En2 [[-> _]|[[e ->] _]]].
    + rewrite (Hd' e eq_refl). eapply rollback_exchanged; [done|by right|done].
    + by injection Hr as <- <-.
    + rewrite (Hd' e eq_refl). eapply rollback_exchanged; [done| |done]. left. pose proof (next_active g Hg) as Hna.
      rewrite En2, relocate_root by done. split; [done|]. rewrite En1. pose proof (within_self (nextDirectory g)) as Hw.
      apply relocate_out; [apply active_raw|by apply (within_apart _ _ _ Hna)|by apply (within_apart _ _ _ (next_raw g Hg))].
  - injection Hr as <- <-. by right.
Qed.

Lemma exchange_Ok g d d' : slash_free g -> exchange platform active g d = (Ok tt, d') ->
  names d' !! active = names d !! nextDirectory g /\ (forall n, names d' !! in_dir active n = names d !! in_dir (nextDirectory g) n) /\
  (forall n, names d' !! in_dir (rawDirectory g) n = names d !! in_dir active n) /\
  (forall n, durable d' !! in_dir (rawDirectory g) n = durable d !! in_dir active n) /\ is_Some (names d !! nextDirectory g).
Proof.
  unfold exchange. intros Hg Hr. apply bind_Ok in Hr as ([] & d1 & E1%wrap_err_Ok%publish_inv & Hr).
  destruct (publishGenerationDirectory platform (nextDirectory g) active d1) as [r2 d2] eqn:E2. apply publish_inv in E2.
  assert (r2 = Ok tt /\ d' = d2) as [-> ->].
  { destruct r2 as [[]|e|]; [by injection Hr as <-|by destruct (publishGenerationDirectory platform (rawDirectory g) active d2) as [[]]|done]. }
  destruct E1 as [e E1 _ _|_ _ En1 [[_ Ed1]|[[e E1] _]]]; [done| |done].
  destruct E2 as [e E2 _ _|Hs _ En2 [[_ Ed2]|[[e E2] _]]]; [done| |done].
  pose proof (active_raw g) as Har. pose proof (next_active g Hg) as Hna. pose proof (next_raw g Hg) as Hnr.
  assert (forall (m : gmap bytes nat) n, within (nextDirectory g) n = true -> relocate active (rawDirectory g) m !! n = m !! n) as Hnext.
  { intros m n Hn. apply relocate_out; [done|by apply (within_apart _ _ _ Hna)|by apply (within_apart _ _ _ Hnr)]. }
  pose proof (within_self (nextDirectory g)) as Hnn.
  assert (forall (m : gmap bytes nat) n, relocate (nextDirectory g) active (relocate active (rawDirectory g) m) !! in_dir (rawDirectory g) n = m !! in_dir active n) as Hraw.
  { intros m n. pose proof (within_file (rawDirectory g) n) as Hw.
    rewrite relocate_out; [by apply relocate_in|done|by apply (within_apart _ _ _ (apart_sym _ _ Hnr))|by apply (within_apart _ _ _ (apart_sym _ _ Har))]. }
  rewrite En1, (Hnext _ _ Hnn) in Hs. rewrite En2, Ed2, En1, Ed1. split_and!; try done.
  - rewrite relocate_root by done. by apply Hnext.
  - intros n. rewrite relocate_in by done. apply Hnext, within_file.
Qed.

Lemma conserves_exchange g : slash_free g -> keeps conserves (exchange platform active g).
Proof.
  intros Hg. unfold exchange. apply keeps_bind; [apply _|by apply keeps_wrap, conserves_publish, conserves_freeze|]. intros _ d.
  pose proof (conserves_publish _ _ (conserves_promote g Hg) d) as H2.
  destruct (publishGenerationDirectory platform (nextDirectory g) active d) as [[u|e|] d2]; cbn [snd] in *; [done| |done].
  pose proof (conserves_publish _ _ (conserves_rollback g Hg) d2) as H3.
  destruct (publishGenerationDirectory platform (rawDirectory g) active d2) as [[u|e3|] d3]; cbn [snd] in *; by etrans.
Qed.
Lemma next_has_prefix g : HasPrefix (nextDirectory g) generationRolloverNextPrefix = true.
Proof. apply HasPrefix_spec. by exists g. Qed.
Lemma conserves_removing g : slash_free g -> keeps conserves (removing (nextDirectory g) (exchange platform active g)).
Proof.
  intros Hg d. pose proof (conserves_exchange g Hg d) as H1. unfold removing. destruct (exchange platform active g d) as [[u|e|] d1]; [done|..];
    (etrans; [exact H1|]; apply conserves_Remove, next_has_prefix).
Qed.
Lemma conserves_freezing rawRoot : keeps conserves (freeze platform physical rawRoot).
Proof.
  unfold freeze. apply keeps_bind; [apply _|apply keeps_wrap, conserves_reads, reads_structure|]. intros pairs. apply keeps_if; [apply keeps_ret, _|].
  intros d. unfold bind at 1, lift. destruct (wrap _ (NewGenerationID platform)) as [g|e|] eqn:Eg; [|reflexivity..].
  apply wrap_Ok, NewGenerationID_slash_free in Eg. revert d. apply keeps_bind; [apply _|apply keeps_wrap, conserves_Mkdir|]. intros _.
  rewrite (re_active R). apply keeps_bind; [apply _|by apply conserves_removing|]. intros _. apply keeps_ret, _.
Qed.

Lemma releasing_inv {A} (p : prog dir A) d r d' : releasing p d = (r, d') ->
  exists r0 d0, p d = (r0, d0) /\ same d0 d' /\ forall a, r = Ok a -> r0 = Ok a.
Proof.
  unfold releasing. destruct (p d) as [r0 d0]. pose proof (reads_syscall (ret tt) (keeps_ret same tt) d0) as Hs. intros Hr. exists r0, d0. split; [done|].
  unfold bind in Hr. destruct (syscall (ret tt) d0) as [r1 d1]; cbn [snd] in Hs. destruct r0 as [a|e|], r1 as [u|e1|]; injection Hr as <- <-; split; try done; congruence.
Qed.

(** *** What a successful rollover leaves *)

(** Nothing is below a replacement directory that is not there. *)
Definition tidy_next (d : dir) : Prop := forall n m, next_name n -> names d !! n = None -> names d !! in_dir n m = None.

Lemma steady_tidy d d' : steady_change d d' -> tidy_next d -> tidy_next d'.
Proof.
  intros [_ _ _ _ N] Ht n m Hn E. destruct (N n Hn) as [[En|[_ F]] G]; [|done]. destruct (G m) as [->|?]; [|done]. apply Ht; [done|congruence].
Qed.

Lemma conserved_dir d d' p : conserved d d' -> names d' !! p = names d !! p -> dir_at d p -> dir_at d' p.
Proof.
  intros [_ I _] En (i & nd & Hn & Hi & Hk). destruct (I _ _ Hi) as (nd' & Hi' & Hk' & _). exists i, nd'. split_and!; congruence.
Qed.
Lemma conserved_structured d d' s t : wf d -> conserved d d' -> (forall n, names d' !! in_dir t n = names d !! in_dir s n) ->
  structured s d -> structured t d'.
Proof.
  intros Hwf [_ I _] En Hst n i Hn Hi. rewrite En in Hi. destruct (Hst n i Hn Hi) as ((nd & Hnd & Hk) & id & Hid & Hcase & Hp). split.
  - destruct (I _ _ Hnd) as (nd' & Hnd' & Hk' & _). exists nd'. split; congruence.
  - exists id. split; [done|]. split; [done|]. unfold pair_in. by rewrite !En.
Qed.

Record freezes (g : bytes) (d d' : dir) : Prop := {
  fr_names n : names d' !! in_dir (rawDirectory g) n = names d !! in_dir active n;
  fr_durable n : durable d' !! in_dir (rawDirectory g) n = durable d !! in_dir active n;
  fr_structured : structured (rawDirectory g) d';
  fr_pair : exists id, slash_free id /\ pair_in (rawDirectory g) d' id;
  fr_active : dir_at d' active;
  fr_empty : tidy_next d -> forall n, names d' !! in_dir active n = None
}.

Lemma freeze_Ok rawRoot d x d' : wf d -> freeze platform physical rawRoot d = (Ok x, d') ->
  match x with
  | None => same d d' /\ forall n, slash_free n -> names d !! in_dir active n = None
  | Some raw => NewGenerationID platform = Ok (genbuild.RawGenerationID raw) /\ freezes (genbuild.RawGenerationID raw) d d'
  end.
Proof.
  intros Hwf Hr. unfold freeze in Hr. apply bind_Ok in Hr as (pairs & d1 & Hv%wrap_err_Ok & Hr).
  unfold ValidatePublishedSpoolStructureLocked in Hv. rewrite (re_active R) in *. apply ValidateStructure_sound in Hv as (Hs & Hst & Hpairs); [|done].
  destruct (pairs =? 0); [by injection Hr as <- <-|]. apply bind_Ok in Hr as (g & d1' & Hg & Hr). injection Hg as Hg <-. apply wrap_Ok in Hg.
  pose proof (NewGenerationID_slash_free g Hg) as Hgs. pose proof (same_wf _ _ Hs Hwf) as Hwf1.
  apply bind_Ok in Hr as (u & d2 & Hm%wrap_err_Ok & Hr). pose proof (keeps_run _ _ _ _ _ (conserves_Mkdir (nextDirectory g)) Hm Hwf1) as Hc2.
  apply bind_Ok in Hr as (u3 & d3 & Hx & [= <- <-]). cbn [genbuild.RawGenerationID]. split; [done|].
  unfold removing in Hx. destruct (exchange platform active g d2) as [[v|e|] d3'] eqn:Ex; [|done..]. injection Hx as -> ->. destruct u3.
  pose proof (keeps_run _ _ _ _ _ (conserves_exchange g Hgs) Ex (co_wf _ _ Hc2)) as Hc3.
  apply exchange_Ok in Ex as (Xa & Xb & Xn & Xd & Xs); [|done].
  apply Mkdir_cases in Hm as [[[e E] _]|(_ & Mn & En & Ed & Ei & _)]; [done|]. pose proof (next_slash_free g Hgs) as Hns.
  assert (forall a n, names d2 !! in_dir a n = names d !! in_dir a n) as Hin.
  { intros a n. rewrite En, lookup_insert_ne by (by apply plain_not_in). by rewrite (proj1 Hs). }
  assert (forall n, names d3 !! in_dir (rawDirectory g) n = names d !! in_dir active n) as Hraw by (intros n; by rewrite Xn, Hin).
  constructor.
  - done.
  - intros n. by rewrite Xd, Ed, (proj1 (proj2 Hs)).
  - eapply (conserved_structured d); [done| |done|done]. eapply conserves_PreOrder; [by apply conserves_same|intros _|done].
    eapply conserves_PreOrder; [by intros _|by intros _|done].
  - destruct Hpairs as (id & _ & Hid & Hp). exists id. split; [done|]. unfold pair_in. by rewrite !Hraw.
  - destruct (co_inodes _ _ Hc3 (next_ino d1) (Inode GoFS.Directory 448 [] true)) as (nd & Hnd & Hk & _); [by rewrite Ei, lookup_insert_eq|].
    exists (next_ino d1), nd. rewrite Xa, En, lookup_insert_eq. done.
  - intros Ht n. rewrite Xb, Hin. apply Ht; [split; [done|apply next_has_prefix]|]. by rewrite <- (proj1 Hs).
Qed.

(** The rollover inside the boundary. *)
Lemma rollover_inv spoolDir d r d' : PhysicalSpoolPath (paths platform) spoolDir = Ok physical ->
  RolloverPublishedSpool platform spoolDir d = (r, d') ->
  (same d d' /\ forall a, r <> Ok a) \/
  exists d1 r0 d0, same d d1 /\ (let! rawRoot := repair platform physical in freeze platform physical rawRoot) d1 = (r0, d0) /\
    same d0 d' /\ forall a, r = Ok a -> r0 = Ok a.
Proof.
  intros Hphys Hr. unfold RolloverPublishedSpool in Hr. rewrite Hphys in Hr. unfold bind at 1, lift in Hr. cbn [wrap] in Hr.
  pose proof (keeps_wrap same "acquire FI spool rollover boundary: %w" _ (reads_syscall (ret tt) (keeps_ret same tt)) d) as Hs.
  unfold bind at 1 in Hr. destruct (wrap_err _ (syscall (ret tt)) d) as [[u|e|] d1]; cbn [snd] in Hs.
  - right. apply releasing_inv in Hr as (r0 & d0 & Hr & Hs0 & Ha). by exists d1, r0, d0.
  - injection Hr as <- <-. left. by split.
  - injection Hr as <- <-. left. by split.
Qed.

Lemma rollover_conserved spoolDir d r d' : wf d -> PhysicalSpoolPath (paths platform) spoolDir = Ok physical ->
  RolloverPublishedSpool platform spoolDir d = (r, d') -> conserved d d'.
Proof.
  intros Hwf Hphys Hr. apply (rollover_inv _ _ _ _ Hphys) in Hr as [[Hs _]|(d1 & r0 & d0 & Hs & Hr & Hs0 & _)]; [by apply conserves_same|].
  revert Hwf. change (conserves d d'). etrans; [by apply conserves_same|].
  etrans; [exact (keeps_run _ _ _ _ _ (keeps_bind _ _ _ conserves_repair conserves_freezing) Hr)|by apply conserves_same].
Qed.

(** [C13] A rollover, under every schedule of failing calls: files keep their contents; every
    published batch, in the active spool or in a raw generation, stays one. When it succeeds,
    the raw generation it names holds whatever was published in the active spool, durably if it
    was durable, consists of pairs of regular files with at least one of them, and the active
    spool is a directory, an empty one if the active spool was there at the start. When it finds
    nothing to roll over, nothing is published. *)
Theorem RolloverPublishedSpool_freezes spoolDir d r d' : wf d -> tidy_next d -> PhysicalSpoolPath (paths platform) spoolDir = Ok physical ->
  RolloverPublishedSpool platform spoolDir d = (r, d') ->
  conserved d d' /\
  match r with
  | Ok (Some raw) =>
      let rawDir := rawDirectory (genbuild.RawGenerationID raw) in
      structured rawDir d' /\ (exists id, slash_free id /\ pair_in rawDir d' id) /\ dir_at d' active /\
      (is_Some (names d !! active) -> (forall n, names d' !! in_dir active n = None) /\
       forall id f g, batch_at active d id f g -> batch_at rawDir d' id f g /\
         forall n, n = dataName id \/ n = manifestName id -> durable d' !! in_dir rawDir n = durable d !! in_dir active n)
  | Ok None => forall n, slash_free n -> names d' !! in_dir active n = None
  | _ => True
  end.
Proof.
  intros Hwf Ht Hphys Hr. split; [by eapply rollover_conserved|].
  apply (rollover_inv _ _ _ _ Hphys) in Hr as [[Hs Hno]|(d1 & r0 & d0 & Hs & Hr & Hs0 & Hr0)]; [destruct r as [x|e|]; [by destruct (Hno x)|done..]|].
  pose proof (same_wf _ _ Hs Hwf) as Hwf1. destruct r as [x|e|]; [|done..]. specialize (Hr0 x eq_refl). subst r0.
  apply bind_Ok in Hr as (rawRoot & d2 & Hrep & Hf). pose proof (keeps_run _ _ _ _ _ conserves_repair Hrep Hwf1) as Hc2.
  pose proof (keeps_run _ _ _ _ _ steady_repair Hrep Hwf1) as Hsteady. apply freeze_Ok in Hf; [|apply Hc2].
  destruct Hs as (En & Ed & Ei & _), Hs0 as (En0 & Ed0 & Ei0 & _). destruct x as [raw|].
  - destruct Hf as [_ [F1 F2 F3 F4 F5 F6]]. unfold structured, pair_in, dir_at, batch_at. rewrite En0, Ed0, Ei0. split_and!; try done.
    intros Ha. rewrite <- En in Ha. specialize (Hsteady Ha). split.
    + apply F6. apply (steady_tidy d1); [done|]. unfold tidy_next. by rewrite En.
    + intros id f g Hb. destruct (sc_batches _ _ Hsteady id f g) as [Hb2 E2]; [unfold batch_at; by rewrite En|].
      rewrite !F1. split; [done|]. intros n Hn. by rewrite F2, E2, Ed.
  - destruct Hf as [(E2 & _) Hn]. intros n Hsl. by rewrite En0, E2, Hn.
Qed.

(** *** Interrupted rollovers *)

(** The active spool is missing, a raw generation of pairs took its place; what it holds of the
    spool as it was is [moved_from]. *)
Record frozen (g : bytes) (d : dir) : Prop := {
  fz_active p : within active p = true -> names d !! p = None;
  fz_root : dir_at d generationRawRootDirectoryName;
  fz_raw : dir_at d (rawDirectory g);
  fz_structured : structured (rawDirectory g) d;
  fz_pair : exists id, slash_free id /\ pair_in (rawDirectory g) d id;
  fz_id : slash_free g /\ g <> []
}.
(** Its replacement is the only one and empty. *)
Record replacement (g : bytes) (d : dir) : Prop := {
  rp_next : dir_at d (nextDirectory g);
  rp_empty n : names d !! in_dir (nextDirectory g) n = None;
  rp_only n : next_name n -> is_Some (names d !! n) -> n = nextDirectory g
}.
Definition next_dirs (d : dir) : Prop := forall n, next_name n -> is_Some (names d !! n) -> dir_at d n.

Lemma steady_next_dirs d d' : steady_change d d' -> next_dirs d -> next_dirs d'.
Proof.
  intros [C _ _ _ N] Hd n Hn Hs. destruct (N n Hn) as [[En|[En _]] _]; [|rewrite En in Hs; by destruct Hs].
  apply (conserved_dir d); [done..|]. apply Hd; [done|by rewrite <- En].
Qed.

Lemma cleanupEntry_Ok e d d' : cleanupEntry e d = (Ok tt, d') ->
  (forall n, names d !! n = None -> names d' !! n = None) /\
  (e.2 = GoFS.Directory -> HasPrefix e.1 generationRolloverNextPrefix = true -> names d' !! e.1 = None).
Proof.
  destruct e as [name kind]. unfold cleanupEntry. cbn [fst snd]. case_bool_decide as Hk; cbn [negb orb].
  2: { intros [= <-]. by split. }
  destruct (HasPrefix name _); cbn [negb]; [|intros [= <-]; by split].
  intros (b & d1 & Hb & Hr)%bind_Ok. pose proof (keeps_run _ _ _ _ _ (reads_hasEntries name) Hb) as (En & _).
  destruct b; [done|]. apply wrap_err_Ok, RemoveDirectory_cases in Hr as [[[e E] _]|(_ & _ & _ & En' & _)]; [done|]. rewrite En', En.
  split; [|intros _ _; apply lookup_delete_eq]. intros n Hn. apply lookup_delete_None. auto.
Qed.
Lemma cleanup_Ok d d' : next_dirs d -> cleanupRolloverNextDirectories d = (Ok tt, d') -> forall n, next_name n -> names d' !! n = None.
Proof.
  intros Hdirs (es & d1 & Hes%wrap_err_Ok & Hr)%bind_Ok n Hn. apply ReadParent_Ok in Hes as ((En & _) & _ & Hall & Hkind).
  assert (names d1 !! n = None \/ (n, GoFS.Directory) ∈ es) as Hcase.
  { rewrite En. destruct (names d !! n) as [i|] eqn:Ei; [right|by left]. assert (n ∈ es.*1) as ([m k] & -> & Hin)%list_elem_of_fmap
      by (apply Hall; split; [apply Hn|eauto]). cbn in *. destruct (Hdirs m Hn) as (j & nd & Ej & Hnd & Hk); [eauto|].
    rewrite (Hkind _ _ Hin), Ej in Hin. cbn in Hin. by rewrite Hnd, Hk in Hin. }
  clear Hall Hkind En. revert d1 Hr Hcase. induction es as [|e es IH]; intros d1; cbn [each].
  - intros [= <-] [?|Hin]; [done|by apply elem_of_nil in Hin].
  - intros ([] & d2 & He & Hr)%bind_Ok Hcase. apply cleanupEntry_Ok in He as [H1 H2]. apply (IH d2 Hr).
    destruct Hcase as [?|[<-|Hin]%elem_of_cons]; [left; auto|left; apply H2; [done|apply Hn]|auto].
Qed.

Lemma repair_Ok d rawRoot d' : wf d -> is_Some (names d !! active) -> next_dirs d -> repair platform physical d = (Ok rawRoot, d') ->
  (forall n, next_name n -> names d' !! n = None) /\ dir_at d' generationRawRootDirectoryName.
Proof.
  intros Hwf Ha Hd Hr. unfold repair in Hr. apply bind_Ok in Hr as (u1 & d1 & H1%wrap_err_Ok & Hr).
  apply bind_Ok in Hr as (u2 & d2 & H2 & Hr). apply bind_Ok in Hr as (rr & d3 & H3 & Hr). apply bind_Ok in Hr as ([] & d4 & H4 & Hr).
  apply bind_Ok in Hr as (u5 & d5 & H5%wrap_err_Ok & [= _ <-]).
  pose proof (keeps_run _ _ _ _ _ steady_recoverRollover H1) as S1. pose proof (keeps_run _ _ _ _ _ (steady_reads _ reads_recoveryDir) H2) as S2.
  pose proof (keeps_run _ _ _ _ _ steady_rawRoot H3) as S3. assert (steady d d3) as S13 by (etrans; [exact S1|]; by etrans).
  specialize (S13 Hwf Ha). pose proof (co_wf _ _ (sc_conserved _ _ S13)) as Hwf3. assert (is_Some (names d3 !! active)) as Ha3 by (by rewrite (sc_active _ _ S13)).
  pose proof (keeps_run _ _ _ _ _ steady_cleanup H4) as S4. pose proof (keeps_run _ _ _ _ _ steady_recoverPublications H5) as S5.
  assert (steady d3 d5) as S35 by (by etrans). specialize (S35 Hwf3 Ha3). pose proof (S4 Hwf3 Ha3) as S4'.
  assert (is_Some (names d4 !! active)) as Ha4 by (by rewrite (sc_active _ _ S4')). specialize (S5 (co_wf _ _ (sc_conserved _ _ S4')) Ha4). split.
  - intros n Hn. pose proof (cleanup_Ok d3 d4 (steady_next_dirs _ _ S13 Hd) H4 n Hn) as E4.
    destruct (sc_next _ _ S5 n Hn) as [[->|[? _]] _]; done.
  - unfold EnsureGenerationRawRoot in H3. apply bind_Ok in H3 as (pp & dx & _ & H3). apply bind_Ok in H3 as (kk & dy & _ & H3).
    destruct (negb _); [done|]. apply bind_Ok in H3 as (uu & dz & _ & H3). apply bind_Ok in H3 as (vv & dw & Hv & [= _ <-]).
    unfold validateRawRoot in Hv. destruct (Lstat generationRawRootDirectoryName dz) as [info dw'] eqn:El. injection Hv as Hv ->.
    unfold genbuild.validateRawGenerationRoot in Hv. res_inv Hv. cbn [RootInfo] in *. destruct info as [info|e|]; [|done..].
    apply Lstat_Ok in El as ([fs ->] & i & nd & Hn & Hi & ->). apply (conserved_dir (set_faults fs dz)).
    + apply S35.
    + cbn [names set_faults]. by rewrite (sc_raw _ _ S35 i), Hn.
    + exists i, nd. split_and!; [done..|]. injection E0 as <-.
      apply orb_false_iff in Heqb0 as [_ Hk%negb_false_iff]. by apply bool_decide_eq_true in Hk.
Qed.

Lemma NewGenerationID_nonempty g : NewGenerationID platform = Ok g -> g <> [].
Proof.
  unfold NewGenerationID. destruct (rand_Read platform) as [random|e|]; [|done..]. intros [= <-] E. by apply app_nil in E as [_ E].
Qed.

(** Both depend on the names and the kinds of the files. *)
Lemma frozen_frame g d d' : wf d -> conserved d d' -> (forall n, n <> nextDirectory g -> names d' !! n = names d !! n) -> frozen g d -> frozen g d'.
Proof.
  intros Hwf Hc Hn [F1 F2 F3 F4 (id & Hid & Hp) [Hg Hg']]. pose proof (next_slash_free g Hg) as Hns.
  assert (forall a n, in_dir a n <> nextDirectory g) as Hin by (intros a n E; symmetry in E; by apply plain_not_in in E).
  constructor.
  - intros p Hin'. rewrite Hn; [by apply F1|]. intros ->. pose proof (within_apart _ _ _ (apart_sym _ _ (next_active g Hg)) Hin') as Hw.
    by rewrite within_self in Hw.
  - apply (conserved_dir d); [done| |done]. apply Hn. intros E. symmetry in E. eapply raw_not_next; [|exact E]. split; [done|apply next_has_prefix].
  - apply (conserved_dir d); [done| |done]. apply Hn, Hin.
  - eapply conserved_structured; [exact Hwf|done| |done]. intros n. by apply Hn.
  - exists id. split; [done|]. unfold pair_in. by rewrite !Hn.
  - done.
Qed.
Lemma replacement_same g d d' : same d d' -> replacement g d -> replacement g d'.
Proof. intros (En & _ & Ei & _) [H1 H2 H3]. constructor; unfold dir_at; rewrite ?En, ?Ei; done. Qed.
Lemma dir_at_same d d' p : same d d' -> dir_at d p -> dir_at d' p.
Proof. intros (En & _ & Ei & _). unfold dir_at. by rewrite En, Ei. Qed.

(** The exchange was stopped between its two moves. *)
Lemma relocated_frozen g d d' : wf d -> conserved d d' -> names d' = relocate active (rawDirectory g) (names d) ->
  slash_free g -> g <> [] -> dir_at d active -> dir_at d generationRawRootDirectoryName -> structured active d ->
  (exists id, slash_free id /\ pair_in active d id) -> frozen g d'.
Proof.
  intros Hwf Hc En Hg Hg' Ha Hroot Hst (id & Hid & Hp). pose proof (active_raw g) as Har.
  assert (forall n, names d' !! in_dir (rawDirectory g) n = names d !! in_dir active n) as Hraw by (intros n; by rewrite En, relocate_in).
  constructor.
  - intros p Hw. by rewrite En, relocate_gone.
  - apply (conserved_dir d); [done| |done]. rewrite En. pose proof rawRoot_slash_free as Hrs. apply relocate_out; [done|..].
    + destruct (within active generationRawRootDirectoryName) eqn:E; [|done]. apply within_plain in E; [|done]. by destruct (la_raw L).
    + destruct (within (rawDirectory g) generationRawRootDirectoryName) eqn:E; [|done]. apply within_plain in E; [|done]. by eapply plain_not_in in E.
  - destruct Ha as (i & nd & Hn & Hi & Hk). destruct (co_inodes _ _ Hc _ _ Hi) as (nd' & Hi' & Hk' & _). exists i, nd'.
    rewrite En, relocate_root by done. split_and!; congruence.
  - by eapply conserved_structured.
  - exists id. split; [done|]. unfold pair_in. by rewrite !Hraw.
  - done.
Qed.
Lemma relocated_replacement g d d' : conserved d d' -> names d' = relocate active (rawDirectory g) (names d) ->
  slash_free g -> replacement g d -> replacement g d'.
Proof.
  intros Hc En Hg [N1 N2 N3]. assert (forall n, within (nextDirectory g) n = true -> names d' !! n = names d !! n) as Hnext.
  { intros n Hn. rewrite En. apply relocate_out; [apply active_raw|by apply (within_apart _ _ _ (next_active g Hg))|by apply (within_apart _ _ _ (next_raw g Hg))]. }
  constructor.
  - apply (conserved_dir d); [done| |done]. apply Hnext, within_self.
  - intros n. rewrite Hnext by apply within_file. apply N2.
  - intros n Hn Hs. apply N3; [done|]. rewrite En, relocate_out in Hs; [done|apply active_raw|..].
    + destruct (within active n) eqn:E; [|done]. apply within_plain in E; [|apply Hn]. by apply active_not_next in Hn.
    + destruct (within (rawDirectory g) n) eqn:E; [|done]. apply within_plain in E; [|apply Hn]. by eapply plain_not_in in E; [|apply Hn].
Qed.

(** Raw generation [g] of [d'] holds every batch the active spool of [d] held, the same files. *)
Definition moved_from (d : dir) (g : bytes) (d' : dir) : Prop :=
  forall id f h, batch_at active d id f h -> batch_at (rawDirectory g) d' id f h.
Definition left_behind (d d' : dir) : Prop := dir_at d' active \/
  exists g, NewGenerationID platform = Ok g /\ frozen g d' /\ moved_from d g d' /\
    (replacement g d' \/ names d' !! nextDirectory g = None).
Lemma left_behind_mono d1 d2 d' : (forall id f h, batch_at active d1 id f h -> batch_at active d2 id f h) ->
  left_behind d2 d' -> left_behind d1 d'.
Proof. intros Hx [?|(g & Hg & Hf & Hm & Hr)]; [by left|right]. exists g. split_and!; [done..| |done]. intros id f h Hb. by apply Hm, Hx. Qed.

Lemma removing_leaves g d r d' : wf d -> NewGenerationID platform = Ok g -> dir_at d active -> dir_at d generationRawRootDirectoryName ->
  structured active d -> (exists id, slash_free id /\ pair_in active d id) -> replacement g d ->
  removing (nextDirectory g) (exchange platform active g) d = (r, d') -> left_behind d d'.
Proof.
  intros Hwf Hg Ha Hroot Hst Hp Hrep Hr. pose proof (NewGenerationID_slash_free g Hg) as Hgs. pose proof (NewGenerationID_nonempty g Hg) as Hge.
  unfold removing in Hr. destruct (exchange platform active g d) as [r1 d1] eqn:Ex.
  pose proof (keeps_run _ _ _ _ _ (conserves_exchange g Hgs) Ex Hwf) as Hc. pose proof (co_wf _ _ Hc) as Hwf1.
  pose proof (exchange_fails g d r1 d1 Hgs Ex) as Hf. assert (r1 = Ok tt \/ r1 <> Ok tt) as [->|Hne] by (destruct r1 as [[]|e|]; [by left|by right..]).
  { injection Hr as <- <-. left. apply exchange_Ok in Ex as (Xa & _); [|done]. destruct (rp_next _ _ Hrep) as (i & nd & Hn & Hi & Hk).
    destruct (co_inodes _ _ Hc _ _ Hi) as (nd' & Hi' & Hk' & _). exists i, nd'. split_and!; congruence. }
  assert (d' = (RemoveDirectory (nextDirectory g) d1).2) as -> by (destruct r1 as [[]|e|]; [done|by injection Hr as _ <-..]). clear Hr.
  destruct (RemoveDirectory (nextDirectory g) d1) as [r2 d2] eqn:Er. cbn [snd].
  pose proof (keeps_run _ _ _ _ _ (conserves_Remove _ (next_has_prefix g)) Er Hwf1) as Hc2.
  assert (forall n, n <> nextDirectory g -> names d2 !! n = names d1 !! n) as Hn2.
  { apply RemoveDirectory_cases in Er as [[_ (En & _)]|(_ & _ & _ & En & _)]; intros n Hn; rewrite En; [done|by apply lookup_delete_ne]. }
  destruct Hf as [[[i Hi] Hcase]|Hrel]; [done|destruct Ha as (i & nd & -> & _); eauto|..].
  - left. apply (conserved_dir d1); [done|apply Hn2; intros E; by apply (next_ne_active g)|].
    assert (exists p, dir_at d p /\ names d1 !! active = names d !! p) as (p & (j & nd & Hj & Hnd & Hk) & Ep)
      by (destruct Hcase as [E|E]; [by exists active|exists (nextDirectory g); split; [apply Hrep|done]]).
    destruct (co_inodes _ _ Hc _ _ Hnd) as (nd' & Hnd' & Hk' & _). exists j, nd'. split_and!; congruence.
  - right. exists g. split; [done|]. split.
    + eapply frozen_frame; [exact Hwf1|done|done|]. exact (relocated_frozen g d d1 Hwf Hc Hrel Hgs Hge Ha Hroot Hst Hp).
    + split. { intros id f h. unfold batch_at. rewrite !Hn2 by (intros E; symmetry in E; eapply plain_not_in; [|exact E]; by apply next_slash_free).
        by rewrite Hrel, !relocate_in by apply active_raw. }
      apply RemoveDirectory_cases in Er as [[_ Hs]|(_ & _ & _ & En & _)]; [left|right; by rewrite En, lookup_delete_eq].
      eapply replacement_same; [exact Hs|]. exact (relocated_replacement g d d1 Hc Hrel Hgs Hrep).
Qed.

Lemma freeze_leaves rawRoot d r d' : wf d -> dir_at d active -> dir_at d generationRawRootDirectoryName -> tidy_next d ->
  (forall n, next_name n -> names d !! n = None) -> freeze platform physical rawRoot d = (r, d') -> left_behind d d'.
Proof.
  intros Hwf Ha Hroot Ht Hclear Hr. unfold freeze in Hr. unfold bind at 1, wrap_err in Hr. unfold ValidatePublishedSpoolStructureLocked in Hr.
  rewrite (re_active R) in Hr. pose proof (reads_structure physical active d) as Hs.
  destruct (ValidateStructureAt physical active d) as [[pairs|e|] d1] eqn:Ev; cbn [snd wrap] in *;
    [|injection Hr as <- <-; left; by eapply dir_at_same..].
  apply ValidateStructure_sound in Ev as (_ & Hst & Hpairs); [|done].
  destruct (pairs =? 0); [injection Hr as <- <-; left; by eapply dir_at_same|]. destruct Hpairs as (id & _ & Hid & Hp).
  unfold bind at 1, lift in Hr. destruct (wrap _ (NewGenerationID platform)) as [g|e|] eqn:Eg; [|injection Hr as <- <-; left; by eapply dir_at_same..].
  apply wrap_Ok in Eg. pose proof (NewGenerationID_slash_free g Eg) as Hgs. pose proof (next_slash_free g Hgs) as Hns.
  pose proof (same_wf _ _ Hs Hwf) as Hwf1. unfold bind at 1, wrap_err in Hr. destruct (Mkdir (nextDirectory g) d1) as [r2 d2] eqn:Em.
  pose proof (keeps_run _ _ _ _ _ (conserves_Mkdir (nextDirectory g)) Em Hwf1) as Hc2.
  apply Mkdir_cases in Em as [[[e ->] Hs2]|(-> & _ & En & _ & Ei & _)]; cbn [wrap] in Hr.
  { injection Hr as <- <-. left. by eapply dir_at_same, dir_at_same. }
  assert (forall n, n <> nextDirectory g -> names d2 !! n = names d !! n) as Hn.
  { intros n Hne. rewrite En, lookup_insert_ne by congruence. by rewrite (proj1 Hs). }
  assert (conserved d d2) as Hc by (eapply conserves_PreOrder; [by apply conserves_same|by intros _|done]).
  assert (forall a n, names d2 !! in_dir a n = names d !! in_dir a n) as Hin by (intros a n; apply Hn; intros E; symmetry in E; by apply plain_not_in in E).
  unfold bind at 1 in Hr. destruct (removing (nextDirectory g) (exchange platform active g) d2) as [r3 d3] eqn:Ex.
  assert (d' = d3) as -> by (destruct r3; by injection Hr as _ <-).
  apply (left_behind_mono d d2); [intros ???; unfold batch_at; by rewrite !Hin|].
  eapply (removing_leaves g d2); [apply Hc|done|..|exact Ex].
  - apply (conserved_dir d); [done|apply Hn; intros E; by apply (next_ne_active g)|done].
  - apply (conserved_dir d); [done| |done]. apply Hn. intros E. symmetry in E. eapply raw_not_next; [|exact E]. split; [done|apply next_has_prefix].
  - by apply (conserved_structured d d2 active active).
  - exists id. split; [done|]. unfold pair_in. by rewrite !Hin.
  - constructor.
    + exists (next_ino d1), (Inode GoFS.Directory 448 [] true). by rewrite En, Ei, !lookup_insert_eq.
    + intros n. rewrite Hin. apply Ht; [split; [done|apply next_has_prefix]|]. apply Hclear. split; [done|apply next_has_prefix].
    + intros n Hnext Hsome. destruct (decide (n = nextDirectory g)) as [|Hne]; [done|]. rewrite Hn, Hclear in Hsome by done. by destruct Hsome.
Qed.

Lemma rollover_leaves spoolDir d r d' : wf d -> tidy_next d -> next_dirs d -> dir_at d active ->
  PhysicalSpoolPath (paths platform) spoolDir = Ok physical -> RolloverPublishedSpool platform spoolDir d = (r, d') -> left_behind d d'.
Proof.
  intros Hwf Ht Hd Ha Hphys Hr. apply (rollover_inv _ _ _ _ Hphys) in Hr as [[Hs _]|(d1 & r0 & d0 & Hs & Hr & Hs0 & _)].
  { left. by eapply dir_at_same. }
  assert (left_behind d d0) as [Hl|(g & Hg & Hf & Hm & Hrep)].
  2: { left. by eapply dir_at_same. }
  2: { right. exists g. split; [done|]. pose proof Hs0 as (En0 & _).
       split; [|split; [intros id f h Hb%Hm; unfold batch_at; by rewrite En0|]]; [|destruct Hrep as [?|?]; [left; by eapply replacement_same|right; by rewrite En0]].
       destruct Hf as [F1 F2 F3 F4 F5 F6]. pose proof (dir_at_same _ _ generationRawRootDirectoryName Hs0 F2). pose proof (dir_at_same _ _ (rawDirectory g) Hs0 F3).
       destruct Hs0 as (_ & _ & Ei & _). constructor; unfold structured, pair_in; rewrite ?En0, ?Ei; done. }
  pose proof (same_wf _ _ Hs Hwf) as Hwf1. pose proof (dir_at_same _ _ _ Hs Ha) as Ha1. destruct Hs as (En & _ & Ei & _).
  assert (is_Some (names d1 !! active)) as Hsome by (destruct Ha1 as (i & nd & -> & _); eauto).
  assert (next_dirs d1) as Hd1 by (unfold next_dirs, dir_at; by rewrite En, Ei). assert (tidy_next d1) as Ht1 by (unfold tidy_next; by rewrite En).
  unfold bind in Hr. destruct (repair platform physical d1) as [r1 d2] eqn:Er.
  pose proof (keeps_run _ _ _ _ _ steady_repair Er Hwf1 Hsome) as Hst. pose proof (sc_conserved _ _ Hst) as Hc.
  assert (dir_at d2 active) as Ha2 by (eapply conserved_dir; [done|apply Hst|done]).
  destruct r1 as [rawRoot|e|]; [|injection Hr as <- <-; by left..].
  destruct (repair_Ok _ _ _ Hwf1 Hsome Hd1 Er) as [Hclear Hroot].
  apply (left_behind_mono d d2). { intros id f h Hb. apply (sc_batches _ _ Hst id f h). unfold batch_at. by rewrite En. }
  eapply freeze_leaves; [..|exact Hr]; [apply Hc|done|done| |done].
  by eapply steady_tidy.
Qed.

(** *** Recovery without failures *)

Lemma Lstat_calm p d i nd : faults d = [] -> names d !! p = Some i -> inodes d !! i = Some nd -> Lstat p d = (Ok (info_of i nd), d).
Proof. intros Hf Hn Hi. unfold Lstat. by rewrite syscall_calm, Hn, Hi. Qed.
Lemma Lstat_absent_calm p d : faults d = [] -> names d !! p = None -> Lstat p d = (Err ErrNotExist, d).
Proof. intros Hf Hn. unfold Lstat. by rewrite syscall_calm, Hn. Qed.
Lemma hasEntries_calm p d : faults d = [] -> is_Some (names d !! p) -> directoryHasEntries p d = (Ok (hasBelow p d), d).
Proof.
  intros Hf [i Hi]. unfold directoryHasEntries, bind, Open, defer_close, GoFS.Close. rewrite syscall_calm, Hi by done.
  by rewrite !syscall_calm by done.
Qed.
Lemma nextDirectories_calm es d : faults d = [] ->
  Forall (fun e : bytes * file_kind => HasPrefix e.1 generationRolloverNextPrefix = true -> e.2 = GoFS.Directory) es ->
  nextDirectories es d = (Ok (filter (fun e => HasPrefix e.1 generationRolloverNextPrefix = true) es).*1, d).
Proof.
  intros Hf. induction es as [|[name kind] es IH]; intros Hall; [done|]. apply Forall_cons in Hall as [Hk Hall]. cbn [fst snd nextDirectories] in *.
  rewrite filter_cons. destruct (HasPrefix name generationRolloverNextPrefix) eqn:Hp; cbn [negb].
  - rewrite decide_True by done. unfold bind, wrap_err. rewrite syscall_calm by done. cbn. rewrite bool_decide_eq_true_2 by auto. cbn [negb]. by rewrite IH.
  - rewrite decide_False by (cbn [fst]; by rewrite Hp). by apply IH.
Qed.
Lemma single {A} (x : A) l : NoDup l -> x ∈ l -> (forall y, y ∈ l -> y = x) -> l = [x].
Proof.
  intros Hnd Hin Hall. destruct l as [|a [|b l]].
  - by apply elem_of_nil in Hin.
  - by rewrite (Hall a) by set_solver.
  - exfalso. apply NoDup_cons in Hnd as [Ha _]. apply Ha. rewrite (Hall a), (Hall b) by set_solver. set_solver.
Qed.
Lemma nextDirectories_found g d es : wf d -> faults d = [] -> slash_free g -> replacement g d -> ReadParent d = (Ok es, d) ->
  nextDirectories es d = (Ok [nextDirectory g], d).
Proof.
  intros Hwf Hf Hg [N1 N2 N3] (_ & Hnd & Hall & Hkind)%ReadParent_Ok. rewrite nextDirectories_calm; [|done|].
  - do 2 f_equal. apply single.
    + eapply sublist_NoDup; [exact Hnd|]. apply fmap_sublist, sublist_filter.
    + destruct N1 as (i & nd & Hi & _). assert (nextDirectory g ∈ es.*1) as ([n k] & En & Hin)%list_elem_of_fmap
        by (apply Hall; split; [by apply next_slash_free|eauto]). cbn in En. subst n.
      apply list_elem_of_fmap. exists (nextDirectory g, k). split; [done|]. apply list_elem_of_filter. split; [apply next_has_prefix|done].
    + intros y ([n k] & -> & [Hp Hin]%list_elem_of_filter)%list_elem_of_fmap. cbn [fst] in *.
      assert (n ∈ es.*1) as [Hs Hi]%Hall by (apply list_elem_of_fmap; by exists (n, k)). by apply N3.
  - apply Forall_forall. intros [n k] Hin Hp. cbn [fst snd] in *.
    assert (n ∈ es.*1) as [Hs Hi]%Hall by (apply list_elem_of_fmap; by exists (n, k)).
    assert (n = nextDirectory g) as -> by (by apply N3). destruct N1 as (i & nd & Hn & Hnd' & Hk). rewrite (Hkind _ _ Hin), Hn. cbn. by rewrite Hnd'.
Qed.

(** The account may set the descriptor of the replacement. *)
Definition settable (g : bytes) (d : dir) : Prop := administrator platform = true \/
  forall i nd, names d !! nextDirectory g = Some i -> inodes d !! i = Some nd -> i_perm nd <> activeSpoolModifyMask.
(** The path of the raw root passes its check when it is a directory. *)
Definition rawRootPath : bytes := filepath_Join (filepath_Dir (filepath_Clean physical)) generationRawRootDirectoryName.
Definition usable (g : bytes) : Prop :=
  (forall info, fi_kind info = GoFS.Directory -> genbuild.validateRawGenerationRoot rawRootPath
     {| EvalSymlinks := EvalSymlinksAt platform (filepath_Clean rawRootPath); RootInfo := Ok info |} = Ok tt) /\
  filepath_IsAbs (filepath_Join rawRootPath (generationDirectoryPrefix ++ g)) = true.

Lemma Base_plain p : slash_free p -> p <> [] -> filepath_Base p = p.
Proof.
  intros Hs Hne. unfold filepath_Base. rewrite bool_decide_eq_false_2 by done.
  assert (trim_slashes_rev (reverse p) = reverse p) as ->.
  { destruct (reverse p) as [|b q] eqn:E; [done|]. cbn. rewrite bool_decide_eq_false_2; [done|]. intros ->. apply Hs.
    rewrite <- (reverse_involutive p), E. apply elem_of_reverse. by left. }
  rewrite reverse_involutive, last_element_plain.
  2: { apply not_true_iff_false. intros (b & Hb%list_elem_of_In & E%bool_decide_eq_true)%existsb_exists. subst b. by apply Hs. }
  cbn. by rewrite bool_decide_eq_false_2.
Qed.

Lemma promote_calm g d : faults d = [] -> slash_free g -> replacement g d -> settable g d ->
  (forall p, within active p = true -> names d !! p = None) ->
  exists d', publishGenerationDirectory platform (nextDirectory g) active d = (Ok tt, d') /\
    names d' = relocate (nextDirectory g) active (names d) /\ durable d' = relocate (nextDirectory g) active (durable d).
Proof.
  intros Hf Hg [(i & nd & Hn & Hi & _) _ _] Hset Hfree. unfold publishGenerationDirectory, bind, wrap_err.
  rewrite (Base_plain (nextDirectory g)), next_has_prefix by (done || by apply next_slash_free). unfold secureReplacementSpoolDirectory. rewrite syscall_calm, Hn, Hi by done.
  replace ((i_perm nd =? activeSpoolModifyMask) && negb (administrator platform)) with false.
  2: { symmetry. apply andb_false_iff. destruct Hset as [->|Hp]; [by right|]. left. apply Z.eqb_neq. eauto. }
  unfold update_inode. rewrite Hi. cbn [wrap]. unfold MoveDirectoryExW, next_fault. destruct d as [n m I k fs]. cbn in Hf |- *. subst fs. cbn. cbn in Hn.
  rewrite Hn. replace (occupied active _) with false by (symmetry; by apply occupied_spec). by eexists.
Qed.

Lemma restore_calm g d : wf d -> faults d = [] -> frozen g d -> replacement g d -> settable g d -> usable g ->
  exists d', restoreActive platform physical (nextDirectory g) d = (Ok tt, d') /\ names d' = relocate (nextDirectory g) active (names d).
Proof.
  intros Hwf Hf [F1 (ir & ndr & Hnr & Hir & Hkr) (iw & ndw & Hnw & Hiw & Hkw) F4 (id & Hid & Hp) [Hg Hge]] Hrep Hset [U1 U2].
  unfold restoreActive. replace (TrimPrefix (nextDirectory g) generationRolloverNextPrefix) with g by (symmetry; apply TrimPrefix_app).
  rewrite bool_decide_eq_false_2 by done. unfold bind at 1, wrap_err at 1.
  rewrite hasEntries_calm by (done || (destruct (rp_next _ _ Hrep) as (i & nd & -> & _); eauto)). cbn [wrap].
  rewrite (proj2 (hasBelow_spec _ d)) by apply (rp_empty _ _ Hrep). fold rawRootPath. unfold bind at 1, wrap_err at 1, validateRawRoot.
  rewrite (Lstat_calm _ _ _ _ Hf Hnr Hir), U1 by done. cbn [wrap]. unfold bind at 1, wrap_err at 1.
  rewrite (Lstat_calm _ _ _ _ Hf Hnw Hiw). cbn [wrap]. rewrite bool_decide_eq_true_2 by done. cbn [negb]. unfold bind at 1, wrap_err at 1.
  destruct (ValidateStructure_complete (filepath_Join rawRootPath (generationDirectoryPrefix ++ g)) (rawDirectory g) d id) as (n & Hn & ->); try done.
  { intros E. by rewrite E in U2. }
  cbn [wrap]. rewrite (proj2 (Z.eqb_neq n 0)) by done. rewrite (re_active R).
  destruct (promote_calm g d Hf Hg Hrep Hset F1) as (d' & Hpub & En & _). unfold wrap_err. rewrite Hpub. by exists d'.
Qed.

Lemma recoverRollover_calm g d : wf d -> faults d = [] -> frozen g d -> replacement g d -> settable g d -> usable g ->
  exists d', recoverInterruptedRolloverLocked platform physical d = (Ok tt, d') /\ dir_at d' active /\
    (forall n, names d' !! in_dir active n = None) /\ forall n, names d' !! in_dir generationRawRootDirectoryName n = names d !! in_dir generationRawRootDirectoryName n.
Proof.
  intros Hwf Hf Hfz Hrep Hset Hu. pose proof (fz_id _ _ Hfz) as [Hg _]. pose proof (next_active g Hg) as Hna.
  destruct (restore_calm g d Hwf Hf Hfz Hrep Hset Hu) as (d' & Hr & En). exists d'.
  pose proof (keeps_run _ _ _ _ _ (conserves_restore g Hg) Hr Hwf) as Hc. split_and!.
  - unfold recoverInterruptedRolloverLocked. rewrite (re_active R), Lstat_absent_calm by (done || apply (fz_active _ _ Hfz), within_self).
    replace (errors_Is ErrNotExist ErrNotExist) with true by reflexivity. cbn [negb]. unfold bind at 1, wrap_err, ReadParent.
    rewrite syscall_calm by done. cbn [wrap]. unfold bind. erewrite nextDirectories_found; [exact Hr|done..|].
    unfold ReadParent. by rewrite syscall_calm.
  - destruct (rp_next _ _ Hrep) as (i & nd & Hn & Hi & Hk). destruct (co_inodes _ _ Hc _ _ Hi) as (nd' & Hi' & Hk' & _).
    exists i, nd'. rewrite En, relocate_root by done. split_and!; congruence.
  - intros n. rewrite En, relocate_in by done. apply (rp_empty _ _ Hrep).
  - intros n. rewrite En. apply relocate_out; [done|..].
    + destruct (within (nextDirectory g) _) eqn:E; [|done]. apply within_in_dir in E; [|by apply next_slash_free|apply rawRoot_slash_free].
      symmetry in E. exfalso. eapply raw_not_next; [|symmetry; exact E]. split; [by apply next_slash_free|apply next_has_prefix].
    + destruct (within active _) eqn:E; [|done]. apply within_in_dir in E; [|apply L|apply rawRoot_slash_free]. by destruct (la_raw L).
Qed.

(** [C14] A rollover of a spool whose active directory is there, under every schedule of failing
    calls: files keep their contents, and when it ends the active spool is there, or it is missing
    and one raw generation of complete pairs holds every batch it held, the same files. In that
    case the recovery at the next rollover, run with no call failing, succeeds: it puts an empty
    active directory in place, changes no name below the raw root and no content. The provisos:
    - before the rollover, what is named like a replacement directory is a directory, and
      nothing is below one that is not there ([next_dirs], [tidy_next]);
    - the replacement directory was not removed;
    - the account may set its descriptor ([settable]);
    - the path of the raw root passes its checks ([usable]). *)
Theorem RolloverPublishedSpool_recoverable spoolDir d r d' : wf d -> tidy_next d -> next_dirs d -> dir_at d active ->
  PhysicalSpoolPath (paths platform) spoolDir = Ok physical -> RolloverPublishedSpool platform spoolDir d = (r, d') ->
  conserved d d' /\
  (dir_at d' active \/
   exists g, NewGenerationID platform = Ok g /\ frozen g d' /\ moved_from d g d' /\
     (names d' !! nextDirectory g = None \/
      (settable g d' -> usable g -> exists d'', recoverInterruptedRolloverLocked platform physical (set_faults [] d') = (Ok tt, d'') /\
         dir_at d'' active /\ (forall n, names d'' !! in_dir active n = None) /\
         (forall n, names d'' !! in_dir generationRawRootDirectoryName n = names d' !! in_dir generationRawRootDirectoryName n) /\
         conserved d' d'' /\ moved_from d g d''))).
Proof.
  intros Hwf Ht Hd Ha Hphys Hr. pose proof (rollover_conserved _ _ _ _ Hwf Hphys Hr) as Hc. split; [done|].
  destruct (rollover_leaves _ _ _ _ Hwf Ht Hd Ha Hphys Hr) as [Hl|(g & Hg & Hf & Hm & [Hrep|Hn])]; [by left|right; exists g..];
    (split_and!; [done..|]); [right|by left].
  pose proof (co_wf _ _ Hc) as Hwf'. intros Hset Hu.
  destruct (recoverRollover_calm g (set_faults [] d')) as (d'' & Hr'' & Hact & Hempty & Hraw); try done; [by destruct Hf|by destruct Hrep|].
  exists d''. split_and!; try done.
  - pose proof (keeps_run _ _ _ _ _ conserves_recoverRollover Hr'') as Hc''.
    eapply conserves_PreOrder; [apply (conserves_same d' (set_faults [] d')); split_and!; try done; intros _; constructor|exact Hc''|done].
  - intros id f h [Hb1 Hb2]%Hm. unfold batch_at. rewrite !raw_file, !Hraw, <- !raw_file in *. done.
Qed.

(** When the replacement directory is gone as well, no rollover succeeds, whatever the calls
    do, and none changes anything. *)
Lemma rollover_stuck spoolDir d r d' : names d !! active = None -> (forall n, next_name n -> names d !! n = None) ->
  PhysicalSpoolPath (paths platform) spoolDir = Ok physical -> RolloverPublishedSpool platform spoolDir d = (r, d') ->
  same d d' /\ forall a, r <> Ok a.
Proof.
  intros Ha Hn Hphys Hr. apply (rollover_inv _ _ _ _ Hphys) in Hr as [?|(d1 & r0 & d0 & Hs & Hr & Hs0 & Hr0)]; [done|].
  assert (same d1 d0 /\ forall a, r0 <> Ok a) as [H1 H2]; [|split; [by do 2 (etrans; [done|])|intros a Er; by destruct (H2 a), (Hr0 a Er)]].
  destruct Hs as (En & _). rewrite <- En in Ha. clear Hr0 Hs0. unfold repair, bind, wrap_err in Hr.
  destruct (recoverInterruptedRolloverLocked platform physical d1) as [r1 d2] eqn:Erec.
  apply recoverRollover_inv in Erec as [[Hs1 Hok]|(d1' & g & _ & Hs1 & Hg & Hrest)].
  - destruct r1 as [[]|e|]; [destruct (Hok eq_refl) as [i Hi]; congruence|by injection Hr as <- <-..].
  - assert (same d1 d2 /\ r1 <> Ok tt) as [Hs2 Hno].
    { unfold restoreActive in Hrest. destruct (bool_decide (TrimPrefix _ _ = [])); [by injection Hrest as <- <-|]. unfold bind at 1, wrap_err in Hrest.
      pose proof (reads_hasEntries (nextDirectory g) d1') as He. destruct (directoryHasEntries (nextDirectory g) d1') as [[b|e|] d3] eqn:Ee; cbn [snd wrap] in *;
        [|injection Hrest as <- <-; split; [by etrans|done]..]. exfalso. unfold directoryHasEntries in Ee. apply bind_Ok in Ee as (f & d4 & Ho & _).
      apply Open_Ok in Ho as [_ Ho]. destruct Hs1 as (En1 & _). rewrite En1, En, Hn in Ho; [done|]. split; [by apply next_slash_free|apply next_has_prefix]. }
    destruct r1 as [[]|e|]; [done|by injection Hr as <- <-..].
Qed.

End Conservation.

(** ** A spool with one batch *)

Section Demo.
#[local] Existing Instance asciiUnicode.
#[local] Existing Instance spoolsafety.demoManifestCodec.

Definition demoMkdir (name : bytes) (d : dir) : dir := (Mkdir name d).2.
Definition demoActive (fs : list (option nat)) : dir :=
  set_faults fs (demoMkdir demoWork (demoMkdir (bs "spool") (disk (demoRecovered (demoInterrupted [])).2))).
Definition demoSender (admin : bool) : SenderPlatform := {|
  paths := demoPlatform; EvalSymlinksAt p := Ok p; formattedNow := bs "20260101T000000.000000000Z"; rand_Read := Ok (bs "12345678");
  administrator := admin |}.
Definition demoRoll (admin : bool) (d : dir) : res (option genbuild.RawGeneration) * dir := RolloverPublishedSpool (demoSender admin) demoSpoolDir d.
Definition demoAgain (admin : bool) (d : dir) : res (option genbuild.RawGeneration) * dir := demoRoll admin (set_faults [] d).
Definition demoPresent (d : dir) : bool := if names d !! bs "spool" is Some _ then true else false.

(** Whichever single call fails, or the process dies before it with an administrator's
    account, the next rollover succeeds and the active spool is there. *)
Definition demoDies (i : nat) : list (option nat) := replicate i None ++ replicate 30 (Some O).
Example rollover_after_any_failure :
  forallb (fun i => let '(r, d) := demoAgain false (demoRoll false (demoActive (fails_at i))).2 in succeeds r && demoPresent d) (seq 0 30) &&
  forallb (fun i => let '(r, d) := demoAgain true (demoRoll true (demoActive (demoDies i))).2 in succeeds r && demoPresent d) (seq 0 30) = true.
Proof. vm_compute. reflexivity. Qed.

(** A process that dies between the descriptor and the move of the replacement: the account
    that set it cannot set it again, and every later rollover fails. *)
Example descriptor_blocks_recovery :
  let d := (demoRoll false (demoActive (demoDies 13))).2 in
  demoPresent d = false /\ succeeds (demoAgain false d).1 = false /\ demoPresent (demoAgain false d).2 = false /\
  succeeds (demoAgain true d).1 = true.
Proof. vm_compute. auto. Qed.

(** The promotion and the rollback fail: the deferred function removes the replacement
    directory, which the recovery needs. *)
Definition demoStuck : dir := (demoRoll true (demoActive (replicate 13 None ++ [Some O; Some O]))).2.

Lemma demo_plain (p : bytes) : bool_decide (z2b 47 ∈ p) = false -> slash_free p.
Proof. intros Hp. by apply bool_decide_eq_false in Hp. Qed.
Lemma demo_layout : layout (bs "spool") demoWork.
Proof.
  constructor; try (apply demo_plain; vm_compute; reflexivity); try (vm_compute; reflexivity); (vm_compute; discriminate).
Qed.
Lemma demo_resolved admin : resolved (bs "spool") demoWork (demoSender admin) demoSpoolDir.
Proof.
  constructor.
  - vm_compute. reflexivity.
  - intros p E. vm_compute in E. injection E as <-. vm_compute. reflexivity.
  - intros q w E E'. vm_compute in E. injection E as <-. vm_compute in E'. injection E' as <-. vm_compute. reflexivity.
  - apply demo_plain. vm_compute. reflexivity.
Qed.
Definition no_next (d : dir) : bool := negb (existsb (fun b => HasPrefix b.1 generationRolloverNextPrefix) (map_to_list (names d))).
Lemma no_next_spec d : no_next d = true -> forall n, HasPrefix n generationRolloverNextPrefix = true -> names d !! n = None.
Proof. intros H%negb_true_iff. by apply (existsb_names (fun p => HasPrefix p generationRolloverNextPrefix)). Qed.
Lemma no_next_tidy d : no_next d = true -> tidy_next d /\ next_dirs d.
Proof.
  intros H. pose proof (no_next_spec d H) as Hn. split.
  - intros n m [_ [x ->]%HasPrefix_spec] _. apply Hn, HasPrefix_spec. unfold in_dir. rewrite <- app_assoc. eauto.
  - intros n [_ Hp] Hs. rewrite (Hn n Hp) in Hs. by destruct Hs.
Qed.

Lemma demo_stuck_forever fs r d' : demoRoll true (set_faults fs demoStuck) = (r, d') -> same (set_faults fs demoStuck) d' /\ forall a, r <> Ok a.
Proof.
  apply (rollover_stuck (bs "spool") demoWork demo_layout (demoSender true) demoSpoolDir (demo_resolved true)).
  - vm_compute. reflexivity.
  - intros n [_ Hp]. cbn [names set_faults]. apply no_next_spec; [vm_compute; reflexivity|done].
  - vm_compute. reflexivity.
Qed.

Definition demoGeneration : bytes := bs "20260101T000000.000000000Z-3132333435363738".

Lemma RolloverPublishedSpool_freezes_witness :
  let d := demoActive [] in let d' := (demoRoll false d).2 in
  (exists f g, batch_at (bs "spool") d demoID f g /\ batch_at (rawDirectory demoGeneration) d' demoID f g) /\
  structured (rawDirectory demoGeneration) d' /\ forall n, names d' !! in_dir (bs "spool") n = None.
Proof.
  cbv zeta. destruct (no_next_tidy (demoActive [])) as [Ht _]; [vm_compute; reflexivity|].
  assert (wf (demoActive [])) as Hwf by (apply wf_check_wf; vm_compute; reflexivity).
  destruct (demoRoll false (demoActive [])) as [r d'] eqn:E.
  pose proof (proj2 (RolloverPublishedSpool_freezes (bs "spool") demoWork demo_layout (demoSender false) demoSpoolDir (demo_resolved false) demoSpoolDir
    (demoActive []) r d' Hwf Ht ltac:(vm_compute; reflexivity) E)) as H.
  assert (r = Ok (Some {| genbuild.RawGenerationDir := bs "/srv/generation-raw/generation-" ++ demoGeneration; genbuild.RawGenerationID := demoGeneration |})) as ->.
  { transitivity (demoRoll false (demoActive [])).1; [by rewrite E|vm_compute; reflexivity]. }
  cbn [genbuild.RawGenerationID snd] in *. destruct H as (H1 & _ & _ & H2). destruct H2 as [H2 H3]; [vm_compute; eauto|]. split; [|split; [exact H1|exact H2]].
  destruct (names (demoActive []) !! in_dir (bs "spool") (dataName demoID)) as [f|] eqn:Ef; [|by vm_compute in Ef].
  destruct (names (demoActive []) !! in_dir (bs "spool") (manifestName demoID)) as [g|] eqn:Eg; [|by vm_compute in Eg].
  exists f, g. assert (batch_at (bs "spool") (demoActive []) demoID f g) as Hb by (by split). split; [exact Hb|]. apply (H3 _ _ _ Hb).
Defined.

Lemma RolloverPublishedSpool_recoverable_witness :
  let d := demoActive (demoDies 12) in let d' := (demoRoll false d).2 in
  names d' !! bs "spool" = None /\
  exists d'', recoverInterruptedRolloverLocked (demoSender false) demoSpoolDir (set_faults [] d') = (Ok tt, d'') /\ dir_at d'' (bs "spool") /\
    exists f h, batch_at (bs "spool") d demoID f h /\ batch_at (rawDirectory demoGeneration) d'' demoID f h.
Proof.
  cbv zeta. split; [vm_compute; reflexivity|]. destruct (no_next_tidy (demoActive (demoDies 12))) as [Ht Hd]; [vm_compute; reflexivity|].
  destruct (demoRoll false (demoActive (demoDies 12))) as [r d'] eqn:E. cbn [snd].
  assert (d' = (demoRoll false (demoActive (demoDies 12))).2) as Ed by (by rewrite E).
  destruct (RolloverPublishedSpool_recoverable (bs "spool") demoWork demo_layout (demoSender false) demoSpoolDir (demo_resolved false) demoSpoolDir
    (demoActive (demoDies 12)) r d') as (_ & [(i & nd & Hn & _)|(g & Hg & _ & _ & [Hn|Hrec])]).
  - apply wf_check_wf. vm_compute. reflexivity.
  - exact Ht.
  - exact Hd.
  - do 2 eexists. split_and!; vm_compute; reflexivity.
  - vm_compute. reflexivity.
  - exact E.
  - rewrite Ed in Hn. by vm_compute in Hn.
  - vm_compute in Hg. injection Hg as <-. rewrite Ed in Hn. by vm_compute in Hn.
  - assert (g = demoGeneration) as -> by (vm_compute in Hg; injection Hg as <-; vm_compute; reflexivity).
    destruct Hrec as (d'' & H1 & H2 & _ & _ & _ & H3).
    + right. intros i nd Hi Hnd. rewrite Ed in Hi, Hnd. vm_compute in Hi. injection Hi as <-. vm_compute in Hnd. injection Hnd as <-. vm_compute. discriminate.
    + split; [|vm_compute; reflexivity]. intros [ino k perm size] Hk. cbn in Hk. subst k. vm_compute. reflexivity.
    + exists d''. split; [exact H1|]. split; [exact H2|].
      destruct (names (demoActive (demoDies 12)) !! in_dir (bs "spool") (dataName demoID)) as [f|] eqn:Ef; [|by vm_compute in Ef].
      destruct (names (demoActive (demoDies 12)) !! in_dir (bs "spool") (manifestName demoID)) as [h|] eqn:Eh; [|by vm_compute in Eh].
      assert (batch_at (bs "spool") (demoActive (demoDies 12)) demoID f h) as Hb by (by split). exists f, h. split; [exact Hb|]. apply (H3 _ _ _ Hb).
Defined.

End Demo.
End spoolrollover.
