(* ===== verification/BatchSender.v ===== *)
(** * The sender of single batches

    Models [go/internal/transportbatch/published.go] and, of [go/internal/transportsender],
    [queue.go], [stage.go], [stage_v2.go], [stage_windows.go], [stage_concurrent_windows.go],
    [transaction.go], [retire.go], [cleanup.go] and [cleanup_windows.go]: a published batch
    becomes one exact staged frame, the frame is sent, the batch is removed from the spool
    when the receiver acknowledged the frame, and the frame last. The spool is the disk of
    [SpoolWriter] (paths below the parent), the stage directory a disk of its own. *)

From stdpp Require Import gmap.
From S2P Require Import Prelude GoBytes GoStrings Sha256 GoText GoIO GoFS GoDir GoPublish GoTree GoCalls GoWin Pki TransportEncoding TransportBatch TransportTrust TransportPackage TransportWire TransportAck TransportReceiver TransportGeneration GenerationCanonical GenerationProtocol GenerationRecorder GenerationPublished GenerationSender SpoolWriter SpoolSafety SpoolRecovery.

Module batchsender.
Import spool spoolwriter.

#[global] Instance SentFrame_eq_decision : EqDecision transportsender.SentFrame.
Proof. solve_decision. Defined.

(** ** Descriptors of published batches *)

Record EncodedRepresentation := { DataEncoding : bytes; EncodedDataBytes : Z; EncodedDataSHA256 : bytes }.

Definition manifestFileName (batchID : bytes) : bytes := bs "batch-" ++ batchID ++ bs ".manifest.json".
Definition dataFileName (batchID : bytes) : bytes := bs "batch-" ++ batchID ++ bs ".jsonl".

(** The directory of a manifest below the parent, and a file of it. *)
Definition spoolOf (manifestPath : bytes) : bytes := filepath_Base (filepath_Dir manifestPath).
Definition siblingOf (manifestPath name : bytes) : bytes := in_dir (spoolOf manifestPath) name.

(** What the staging code meets outside its two directories: [filepath.EvalSymlinks],
    [os.Lstat] of the stage directory, the network errors. *)
Record StageEnv := {
  EvalSymlinksOf : bytes -> res bytes;
  StageInfo : bytes -> res file_kind;
  net_Error : error -> bool
}.

(** [os.SameFile]. *)
Definition SameFile (a b : FileInfo) : bool := (fi_ino a =? fi_ino b)%nat.
Definition writable (info : FileInfo) : bool := negb (Z.land (fi_perm info) 146 =? 0).

Definition maxOutboundCopyDataBytes : Z := 2 ^ 63 - 1.
Definition outboundFrameIdentityDomain : bytes := bs "FI-SOURCE-OUTBOUND-IDENTITY-V1".
Definition outboundFrameMagicV1 : bytes := bs "FIWB0001".
Definition outboundFrameMagicV2 : bytes := bs "FIWB0002".
Definition ErrOutboundSigningIdentityRequired : error := Sentinel "FI outbound batch-signing identity is required".

Section Sender.
Context `{Unicode} `{JSON Manifest} `{X509} `{Zstd} (env : StageEnv).

Definition EncodedRepresentation_Validate (representation : EncodedRepresentation) : res unit :=
  fail? negb (bool_decide (DataEncoding representation = transportencoding.DataEncodingZstd))
    with Errorf "encoded representation data encoding must be %q, got %q" ;;
  fail? EncodedDataBytes representation =? 0 with Errorf "encoded representation byte count must be greater than zero" ;;
  check? transportbatch.validateSHA256 "encoded representation SHA-256" (EncodedDataSHA256 representation) ;;
  Ok tt.

Definition DescriptorFromPublishedManifest (sourceID manifestPath : bytes) : prog dir transportbatch.Descriptor :=
  check! lift (transportbatch.validateText "source ID" sourceID) ;;
  fail! bool_decide (manifestPath = []) with Errorf "published manifest path is required" ;;
  let name := filepath_Base manifestPath in
  let! before := wrap_err "read published FI batch manifest: %w" (ReadFile (siblingOf manifestPath name)) in
  let! manifest := wrap_err "verify published FI batch manifest: %w" (VerifyManifest (spoolOf manifestPath) name) in
  let! after := wrap_err "re-read published FI batch manifest after verification: %w" (ReadFile (siblingOf manifestPath name)) in
  fail! negb (bool_decide (before = after)) with Errorf "published FI batch manifest changed during transport descriptor construction" ;;
  fail! negb (bool_decide (name = manifestFileName (BatchID manifest))) with Errorf "published FI batch manifest filename must be %q" ;;
  fail! RecordCount manifest <=? 0 with Errorf "verified FI batch manifest record count must be greater than zero" ;;
  fail! DataBytes manifest <=? 0 with Errorf "verified FI batch manifest data byte count must be greater than zero" ;;
  let descriptor := {|
    transportbatch.Version := transportbatch.DescriptorVersion;
    transportbatch.SourceID := sourceID;
    transportbatch.BatchID := BatchID manifest;
    transportbatch.RecordCount := u64 (RecordCount manifest);
    transportbatch.DataBytes := u64 (DataBytes manifest);
    transportbatch.DataSHA256 := DataSHA256 manifest;
    transportbatch.DataEncoding := [];
    transportbatch.EncodedDataBytes := 0;
    transportbatch.EncodedDataSHA256 := [];
    transportbatch.ManifestSHA256 := sha256_hex after |} in
  check! lift (wrap "validate descriptor from published FI batch: %w" (transportbatch.Validate descriptor)) ;;
  ret descriptor.

(** The 0.2 descriptor of a canonical one. *)
Definition withEncoding (canonical : transportbatch.Descriptor) (representation : EncodedRepresentation) : transportbatch.Descriptor := {|
  transportbatch.Version := transportbatch.DescriptorVersionV2;
  transportbatch.SourceID := transportbatch.SourceID canonical;
  transportbatch.BatchID := transportbatch.BatchID canonical;
  transportbatch.RecordCount := transportbatch.RecordCount canonical;
  transportbatch.DataBytes := transportbatch.DataBytes canonical;
  transportbatch.DataSHA256 := transportbatch.DataSHA256 canonical;
  transportbatch.DataEncoding := DataEncoding representation;
  transportbatch.EncodedDataBytes := EncodedDataBytes representation;
  transportbatch.EncodedDataSHA256 := EncodedDataSHA256 representation;
  transportbatch.ManifestSHA256 := transportbatch.ManifestSHA256 canonical |}.

Definition DescriptorFromPublishedManifestV2 (sourceID manifestPath : bytes) (representation : EncodedRepresentation)
  : prog dir transportbatch.Descriptor :=
  check! lift (EncodedRepresentation_Validate representation) ;;
  let! canonical := DescriptorFromPublishedManifest sourceID manifestPath in
  let descriptor := withEncoding canonical representation in
  check! lift (wrap "validate descriptor 0.2 from published FI batch: %w" (transportbatch.Validate descriptor)) ;;
  ret descriptor.

(** ** Staged frames *)

Record OutboundFrameConfig := {
  BatchSigner : option Signer;
  BatchSigningCertificate : option Certificate;
  ManifestPath : bytes;
  ConfigSourceID : bytes;
  StageDir : bytes
}.

Inductive OutboundFrameDisposition := OutboundFrameDispositionExisting | OutboundFrameDispositionNew | OtherDisposition (s : bytes).

Record OutboundFrame := { Disposition : OutboundFrameDisposition; FramePath : bytes; Sent : transportsender.SentFrame }.

Definition outboundFrameObjectName (sourceID batchID : bytes) : bytes :=
  bs "outbound-" ++ sha256_hex (outboundFrameIdentityDomain ++ PutUint64BE (u64 (len sourceID)) ++ sourceID ++
                                PutUint64BE (u64 (len batchID)) ++ batchID) ++ bs ".fiwb".

Definition verifyStagedOutboundSignature (value : transportpackage.SignedBatch) : res unit :=
  let? certificate := wrap "parse staged FI batch-signing certificate: %w" (transportpackage.BatchSigningCertificate value) in
  match PublicKey certificate with
  | RSAKey n e =>
      let? input := wrap "construct staged FI batch signature input: %w" (transportbatch.SignatureInput (transportpackage.Descriptor value)) in
      wrap "staged FI batch signature verification failed: %w" (VerifyPSS (n, e) (sha256 input) (transportpackage.Signature value))
  | _ => Err (Errorf "staged FI batch-signing certificate RSA public key is required")
  end.

Definition stagedDescriptorMatchesExpected (actual expected : transportbatch.Descriptor) : res unit :=
  check? wrap "validate expected FI outbound descriptor: %w" (transportbatch.Validate expected) ;;
  if bool_decide (transportbatch.Version expected = transportbatch.DescriptorVersion) then
    if bool_decide (transportbatch.Version actual = transportbatch.DescriptorVersion) then
      fail? negb (bool_decide (actual = expected)) with Errorf "staged FI outbound descriptor does not match published batch" ;;
      Ok tt
    else if bool_decide (transportbatch.Version actual = transportbatch.DescriptorVersionV2) then
      fail? negb (bool_decide (transportbatch.SourceID actual = transportbatch.SourceID expected)) ||
            negb (bool_decide (transportbatch.BatchID actual = transportbatch.BatchID expected)) ||
            negb (transportbatch.RecordCount actual =? transportbatch.RecordCount expected) ||
            negb (transportbatch.DataBytes actual =? transportbatch.DataBytes expected) ||
            negb (bool_decide (transportbatch.DataSHA256 actual = transportbatch.DataSHA256 expected)) ||
            negb (bool_decide (transportbatch.ManifestSHA256 actual = transportbatch.ManifestSHA256 expected))
        with Errorf "staged FI outbound 0.2 descriptor does not match canonical published batch" ;;
      Ok tt
    else Err (Errorf "staged FI outbound descriptor version %q is unsupported")
  else if bool_decide (transportbatch.Version expected = transportbatch.DescriptorVersionV2) then
    fail? negb (bool_decide (actual = expected)) with Errorf "staged FI outbound 0.2 descriptor does not match prepared frame" ;;
    Ok tt
  else Err (Errorf "expected FI outbound descriptor version %q is unsupported").

(** The end of the frame: one more [Read]. *)
Definition frameEnds : prog reader unit := fun r =>
  if negb (bool_decide (rd_data r = [])) then (Err (Errorf "staged FI outbound frame contains trailing bytes"), r)
  else if negb (errors_Is (rd_end r) EOF) then (Err (Wrap "check staged FI outbound frame end: %w" (rd_end r)), r)
  else (Ok tt, r).

(** The reads of [validateStagedOutboundFrameV1]. *)
Definition readFrameV1 (expected : transportbatch.Descriptor) : prog reader transportbatch.Descriptor :=
  let! header := wrap_err "read staged FI outbound frame header: %w" transportwire.ReadHeader in
  fail! negb (bool_decide (transportwire.descriptor header = expected))
    with Errorf "staged FI outbound descriptor does not match published batch" ;;
  check! lift (verifyStagedOutboundSignature (transportwire.SignedBatch header)) ;;
  let! manifest := wrap_err "read staged FI outbound manifest: %w" (ReadFull (transportwire.ManifestBytes header)) in
  fail! negb (bool_decide (sha256_hex manifest = transportbatch.ManifestSHA256 expected))
    with Errorf "staged FI outbound manifest SHA-256 mismatch" ;;
  fail! maxOutboundCopyDataBytes <? transportbatch.DataBytes expected
    with Errorf "staged FI outbound data byte count exceeds supported range" ;;
  let! data := wrap_err "read staged FI outbound data: %w" (CopyN (transportbatch.DataBytes expected)) in
  fail! negb (len data =? transportbatch.DataBytes expected) with Errorf "staged FI outbound data byte count mismatch" ;;
  fail! negb (bool_decide (sha256_hex data = transportbatch.DataSHA256 expected)) with Errorf "staged FI outbound data SHA-256 mismatch" ;;
  check! frameEnds ;;
  ret expected.

(** The encoded payload of a 0.2 frame; the tee hashes what the decoder takes. *)
Definition readEncoded (actual : transportbatch.Descriptor) : prog reader unit := fun r =>
  let encoded := limited (transportbatch.EncodedDataBytes actual) r in
  match transportencoding.NewZstdDecoder encoded with
  | Err e => (Err (Wrap "create staged FI outbound zstd decoder: %w" e), r)
  | Panic => (Panic, r)
  | Ok (decoder, consumed) =>
      let after := Reader (drop (Z.to_nat consumed) (rd_data r)) (rd_end r) in
      let '(copied, decoder) := CopyN (transportbatch.DataBytes actual) decoder in
      (let? data := wrap "decode staged FI outbound data: %w" copied in
       fail? negb (len data =? transportbatch.DataBytes actual) with Errorf "staged FI outbound decoded byte count mismatch" ;;
       fail? negb (bool_decide (rd_data decoder = []))
         with Errorf "staged FI outbound decoded data exceeds signed canonical byte count" ;;
       fail? negb (errors_Is (rd_end decoder) EOF) with Wrap "check staged FI outbound decoded data end: %w" (rd_end decoder) ;;
       fail? negb (transportbatch.EncodedDataBytes actual - consumed =? 0)
         with Errorf "staged FI outbound zstd decoder did not consume the signed encoded payload" ;;
       fail? negb (bool_decide (sha256_hex (take (Z.to_nat consumed) (rd_data encoded)) = transportbatch.EncodedDataSHA256 actual))
         with Errorf "staged FI outbound encoded data SHA-256 mismatch" ;;
       fail? negb (bool_decide (sha256_hex data = transportbatch.DataSHA256 actual))
         with Errorf "staged FI outbound canonical data SHA-256 mismatch" ;;
       Ok tt, after)
  end.

Definition readFrameV2 (expected : transportbatch.Descriptor) : prog reader transportbatch.Descriptor :=
  let! header := wrap_err "read staged FI outbound frame 0.2 header: %w" transportwire.ReadHeaderV2 in
  let actual := transportwire.descriptor header in
  check! lift (stagedDescriptorMatchesExpected actual expected) ;;
  check! lift (verifyStagedOutboundSignature (transportwire.SignedBatch header)) ;;
  let! manifest := wrap_err "read staged FI outbound manifest: %w" (ReadFull (transportwire.ManifestBytes header)) in
  fail! negb (bool_decide (sha256_hex manifest = transportbatch.ManifestSHA256 actual))
    with Errorf "staged FI outbound manifest SHA-256 mismatch" ;;
  fail! maxOutboundCopyDataBytes <? transportbatch.DataBytes actual
    with Errorf "staged FI outbound canonical data byte count exceeds supported range" ;;
  fail! maxOutboundCopyDataBytes <? transportbatch.EncodedDataBytes actual
    with Errorf "staged FI outbound encoded data byte count exceeds supported range" ;;
  check! readEncoded actual ;;
  check! frameEnds ;;
  ret actual.

(** What surrounds the reads: the file is regular, read-only and not replaced meanwhile. *)
Definition validateStagedWith (read : transportbatch.Descriptor -> prog reader transportbatch.Descriptor) (name : bytes)
    (expected : transportbatch.Descriptor) : prog dir transportsender.SentFrame :=
  let! pathInfo := Lstat name in
  fail! negb (bool_decide (fi_kind pathInfo = Regular)) with Errorf "staged FI outbound frame must be a regular file" ;;
  fail! writable pathInfo with Errorf "staged FI outbound frame must be read-only" ;;
  fail! fi_size pathInfo <=? 0 with Errorf "staged FI outbound frame is empty" ;;
  let! file := Open name in
  defer_close (
    let! openedInfo := Fstat file in
    fail! negb (SameFile pathInfo openedInfo) with Errorf "staged FI outbound frame changed while being opened" ;;
    let! r := file_reader file in
    let '(result, after) := read expected r in
    let frame := take (length (rd_data r) - length (rd_data after)) (rd_data r) in
    let! descriptor := lift result in
    let! afterOpen := Fstat file in
    fail! negb (SameFile openedInfo afterOpen) || negb (fi_size afterOpen =? fi_size pathInfo)
      with Errorf "staged FI outbound frame changed during validation" ;;
    let! afterPath := Lstat name in
    fail! negb (SameFile afterOpen afterPath) || writable afterPath
      with Errorf "staged FI outbound frame path changed during validation" ;;
    fail! negb (len frame =? fi_size pathInfo) with Errorf "staged FI outbound frame size changed during validation" ;;
    ret {| transportsender.Descriptor := descriptor; transportsender.FrameBytes := len frame; transportsender.FrameSHA256 := sha256_hex frame |}).

Definition validateStagedOutboundFrameV1 : bytes -> transportbatch.Descriptor -> prog dir transportsender.SentFrame := validateStagedWith readFrameV1.
Definition validateStagedOutboundFrameV2 : bytes -> transportbatch.Descriptor -> prog dir transportsender.SentFrame := validateStagedWith readFrameV2.

Definition readStagedOutboundFrameMagic (name : bytes) : prog dir bytes :=
  let! file := wrap_err "open staged FI outbound frame magic: %w" (Open name) in
  defer_close (let! r := file_reader file in lift (wrap "read staged FI outbound frame magic: %w" (ReadFull 8 r).1)).

Definition validateStagedOutboundFrame (name : bytes) (expected : transportbatch.Descriptor) : prog dir transportsender.SentFrame :=
  let! magic := readStagedOutboundFrameMagic name in
  if bool_decide (magic = outboundFrameMagicV1) then validateStagedOutboundFrameV1 name expected
  else if bool_decide (magic = outboundFrameMagicV2) then validateStagedOutboundFrameV2 name expected
  else throw (Errorf "staged FI outbound frame magic is invalid").

(** ** Preparing a frame *)

Definition validateOutboundFrameConfig (config : OutboundFrameConfig) : res unit :=
  fail? bool_decide (ConfigSourceID config = []) with Errorf "FI outbound source ID is required" ;;
  fail? bool_decide (ManifestPath config = []) with Errorf "published FI manifest path is required" ;;
  fail? negb (filepath_IsAbs (ManifestPath config)) with Errorf "published FI manifest path must be absolute" ;;
  fail? bool_decide (StageDir config = []) with Errorf "FI outbound stage directory is required" ;;
  fail? negb (filepath_IsAbs (StageDir config)) with Errorf "FI outbound stage directory must be absolute" ;;
  check? gensender.validateOutboundStageDirectoryPath (EvalSymlinksOf env (StageDir config)) (StageDir config) ;;
  let? kind := wrap "inspect FI outbound stage directory: %w" (StageInfo env (StageDir config)) in
  fail? negb (bool_decide (kind = GoFS.Directory)) with Errorf "FI outbound stage path must be a real directory" ;;
  Ok tt.

Definition inspectOutboundFramePath (name : bytes) : prog dir bool := fun d =>
  match Lstat name d with
  | (Err e, d) => if errors_Is e ErrNotExist then (Ok false, d) else (Err (Wrap "inspect FI outbound frame: %w" e), d)
  | (Panic, d) => (Panic, d)
  | (Ok info, d) =>
      (fail! negb (bool_decide (fi_kind info = Regular)) with Errorf "FI outbound frame path must name a regular file" ;;
       fail! writable info with Errorf "FI outbound frame must be read-only before reuse: mode=%04o" ;;
       ret true) d
  end.

Definition openOutboundData (name : bytes) : prog dir nat :=
  let! pathInfo := wrap_err "inspect published FI data for outbound frame: %w" (Lstat name) in
  fail! negb (bool_decide (fi_kind pathInfo = Regular)) with Errorf "published FI data for outbound frame must be a regular file" ;;
  let! file := wrap_err "open published FI data for outbound frame: %w" (Open name) in
  let! openedInfo := or_close (wrap_err "stat opened published FI data for outbound frame: %w" (Fstat file)) in
  check! or_close (fail! negb (SameFile pathInfo openedInfo)
    with Errorf "published FI data changed while being opened for outbound staging" ;; ret tt) ;;
  ret file.

Definition outboundPublishedDataName (batchID : bytes) : res bytes :=
  let expectedData := dataFileName batchID in
  fail? negb (bool_decide (filepath_Base expectedData = expectedData)) with Errorf "FI batch ID cannot map to an outbound data filename" ;;
  Ok expectedData.

(** [ensureOutboundDataEOF] and [ensureOutboundEncodedEOF] with their messages. *)
Definition ensureEOF (exceeds check : string) (r : reader) : res unit :=
  fail? negb (bool_decide (rd_data r = [])) with Errorf exceeds ;;
  fail? negb (errors_Is (rd_end r) EOF) with Wrap check (rd_end r) ;;
  Ok tt.
Definition ensureOutboundDataEOF : reader -> res unit :=
  ensureEOF "published FI data exceeds signed descriptor byte count" "check published FI data end: %w".
Definition ensureOutboundEncodedEOF : reader -> res unit :=
  ensureEOF "FI outbound encoded payload exceeds signed encoded byte count" "check FI outbound encoded payload end: %w".

Fixpoint writePieces (file : nat) (pieces : list bytes) : prog dir unit :=
  match pieces with
  | [] => ret tt
  | piece :: pieces => check! FileWrite file piece ;; writePieces file pieces
  end.

(** [io.CopyN] into the encoder and its [Close]: the representation, which is what the hash
    and the counter behind the encoder saw. *)
Definition compress (canonical : transportbatch.Descriptor) (file : nat) (data : reader) : prog dir EncodedRepresentation :=
  let! encoder := lift (wrap "create FI outbound zstd encoder: %w" transportencoding.NewZstdEncoder) in
  let n := Z.to_nat (transportbatch.DataBytes canonical) in
  let copied := take n (rd_data data) in
  let '(outs, encoder) := zstd_Write copied encoder in
  check! wrap_err "compress FI outbound data payload: %w" (writePieces file outs) ;;
  fun d =>
    let '(closed, d) := writePieces file (zstd_Close encoder) d in
    (fail! len copied <? transportbatch.DataBytes canonical with Wrap "compress FI outbound data payload: %w" (rd_end data) ;;
     check! lift (wrap "finalize FI outbound zstd payload: %w" closed) ;;
     check! lift (ensureOutboundDataEOF (Reader (drop n (rd_data data)) (rd_end data))) ;;
     fail! negb (bool_decide (sha256_hex copied = transportbatch.DataSHA256 canonical))
       with Errorf "published FI data changed while outbound payload was being compressed" ;;
     let encoded := concat outs ++ concat (zstd_Close encoder) in
     fail! len encoded =? 0 with Errorf "FI outbound zstd payload must contain at least one byte" ;;
     fail! maxOutboundCopyDataBytes <? len encoded with Errorf "FI outbound encoded byte count %d exceeds supported streaming range" ;;
     let representation := {| DataEncoding := transportencoding.DataEncodingZstd; EncodedDataBytes := len encoded;
                              EncodedDataSHA256 := sha256_hex encoded |} in
     check! lift (wrap "validate FI outbound encoded representation: %w" (EncodedRepresentation_Validate representation)) ;;
     ret representation) d.

(** The provisional file after it was written. *)
Definition settleEncoded (file : nat) (representation : EncodedRepresentation) : prog dir unit :=
  check! wrap_err "sync provisional FI encoded payload: %w" (Sync file) ;;
  let! info := wrap_err "stat provisional FI encoded payload: %w" (Fstat file) in
  fail! (fi_size info <=? 0) || negb (u64 (fi_size info) =? EncodedDataBytes representation)
    with Errorf "provisional FI encoded payload size does not match encoded representation" ;;
  wrap_err "rewind provisional FI encoded payload: %w" (syscall (ret tt)).

(** A deferred function that runs unless the program succeeded. *)
Definition unless_ok {S A B} (p : prog S A) (cleanup : prog S B) : prog S A := fun s =>
  match p s with
  | (Ok a, s) => (Ok a, s)
  | (r, s) => (r, (cleanup s).2)
  end.
Definition finally {S A B} (p : prog S A) (cleanup : prog S B) : prog S A := fun s =>
  let '(r, s) := p s in (r, (cleanup s).2).
Definition discard (name : bytes) : prog dir unit := fun d => (Remove name (GoFS.Close d).2).

(** The name and the descriptor of the encoded payload, and its representation. *)
Definition createOutboundEncodedPayload (config : OutboundFrameConfig) (canonical : transportbatch.Descriptor)
  : prog (dir * dir) (bytes * nat * EncodedRepresentation) :=
  fail! negb (bool_decide (transportbatch.Version canonical = transportbatch.DescriptorVersion))
    with Errorf "canonical FI outbound descriptor version must be %q, got %q" ;;
  fail! maxOutboundCopyDataBytes <? transportbatch.DataBytes canonical
    with Errorf "FI outbound data byte count %d exceeds supported streaming range" ;;
  let! dataName := lift (outboundPublishedDataName (transportbatch.BatchID canonical)) in
  let! data := on_fst (openOutboundData (siblingOf (ManifestPath config) dataName)) in
  finally
    (let! (encodedName, encoded) := on_snd (wrap_err "create provisional FI encoded payload: %w" (CreateTemp (bs ".fi-encoded-") (bs ".open"))) in
     unless_ok
       (let! r := on_fst (file_reader data) in
        let! representation := on_snd (compress canonical encoded r) in
        check! on_snd (settleEncoded encoded representation) ;;
        ret (encodedName, encoded, representation))
       (on_snd (discard encodedName)))
    (on_fst GoFS.Close).

Definition descriptorV2FromCanonical (canonical : transportbatch.Descriptor) (representation : EncodedRepresentation)
  : res transportbatch.Descriptor :=
  fail? negb (bool_decide (transportbatch.Version canonical = transportbatch.DescriptorVersion))
    with Errorf "canonical FI outbound descriptor version must be %q, got %q" ;;
  check? wrap "validate canonical FI outbound descriptor: %w" (transportbatch.Validate canonical) ;;
  check? wrap "validate FI outbound encoded representation: %w" (EncodedRepresentation_Validate representation) ;;
  let value := withEncoding canonical representation in
  check? wrap "validate FI outbound descriptor 0.2: %w" (transportbatch.Validate value) ;;
  Ok value.

(** A file as a writer. *)
Definition fileWriter (file : nat) : GoIO.Writer dir := {|
  GoIO.Write p d := match FileWrite file p d with
               | (Ok _, d) => ((len p, None), d)
               | (Err e, d) => ((0, Some e), d)
               | (Panic, d) => ((0, Some EIO), d)
               end |}.

(** The provisional frame: header, manifest, encoded payload, read-only, synced, closed. *)
Definition writeProvisional (file encoded : nat) (signedBatch : transportpackage.SignedBatch) (manifest : bytes)
    (descriptor : transportbatch.Descriptor) : prog dir unit :=
  check! wrap_err "write FI outbound frame 0.2 header: %w" (@transportwire.WriteHeaderV2 _ _ dir (fileWriter file) signedBatch manifest) ;;
  check! wrap_err "write FI outbound manifest payload: %w" (FileWrite file manifest) ;;
  let! r := file_reader encoded in
  let n := Z.to_nat (transportbatch.EncodedDataBytes descriptor) in
  let copied := take n (rd_data r) in
  check! wrap_err "write FI outbound encoded payload: %w" (FileWrite file copied) ;;
  fail! len copied <? transportbatch.EncodedDataBytes descriptor with Wrap "write FI outbound encoded payload: %w" (rd_end r) ;;
  check! lift (ensureOutboundEncodedEOF (Reader (drop n (rd_data r)) (rd_end r))) ;;
  fail! negb (bool_decide (sha256_hex copied = transportbatch.EncodedDataSHA256 descriptor))
    with Errorf "FI outbound encoded payload changed while frame was being staged" ;;
  check! wrap_err "make provisional FI outbound frame read-only: %w" (Chmod file 256) ;;
  check! wrap_err "sync provisional FI outbound frame: %w" (Sync file) ;;
  wrap_err "close provisional FI outbound frame: %w" GoFS.Close.

Definition publishOutboundFrame (source destination : bytes) : prog dir bool := fun d =>
  match MoveFileExW false source destination d with
  | (Ok _, d) => (Ok true, d)
  | (Err e, d) => if errors_Is e ErrExist then (Ok false, d) else (Err e, d)
  | (Panic, d) => (Panic, d)
  end.

Definition ERROR_SHARING_VIOLATION : error := Sentinel "The process cannot access the file because it is being used by another process.".
Definition isConcurrentOutboundValidationRetryable (e : error) : bool := errors_Is e ERROR_SHARING_VIOLATION.
Definition concurrentOutboundValidationAttempts : nat := 50.

Fixpoint validateAttempts (attempts : nat) (lastErr : error) (name : bytes) (expected : transportbatch.Descriptor)
  : prog dir transportsender.SentFrame := fun d =>
  match attempts with
  | O => (Err lastErr, d)
  | S attempts =>
      match validateStagedOutboundFrame name expected d with
      | (Err e, d) => if isConcurrentOutboundValidationRetryable e then validateAttempts attempts e name expected d else (Err e, d)
      | r => r
      end
  end.
Definition validateConcurrentlyPublishedOutboundFrame (name : bytes) (expected : transportbatch.Descriptor) : prog dir transportsender.SentFrame :=
  validateAttempts concurrentOutboundValidationAttempts EIO name expected.

(** From the written provisional frame to its final name; [provisionalName] is removed by the
    deferred function unless the frame was moved. *)
Definition publishProvisional (provisionalName finalName : bytes) (canonical descriptor : transportbatch.Descriptor)
  : prog dir (OutboundFrameDisposition * transportsender.SentFrame) :=
  let! provisionalSent := wrap_err "validate provisional FI outbound frame 0.2: %w" (validateStagedOutboundFrame provisionalName descriptor) in
  let! published := wrap_err "publish FI outbound frame: %w" (publishOutboundFrame provisionalName finalName) in
  if (published : bool) then ret (OutboundFrameDispositionNew, provisionalSent) else
  let! existingSent := wrap_err "validate concurrently published FI outbound frame: %w"
                         (validateConcurrentlyPublishedOutboundFrame finalName canonical) in
  check! wrap_err "remove superseded provisional FI outbound frame: %w" (Remove provisionalName) ;;
  ret (OutboundFrameDispositionExisting, existingSent).

Definition stageFrame (finalName : bytes) (manifest : bytes) (encoded : nat) (signedBatch : transportpackage.SignedBatch)
    (canonical descriptor : transportbatch.Descriptor) : prog dir (OutboundFrameDisposition * transportsender.SentFrame) :=
  let! (provisionalName, provisional) := wrap_err "create provisional FI outbound frame: %w" (CreateTemp (bs ".fi-outbound-") (bs ".open")) in
  fun d =>
    match writeProvisional provisional encoded signedBatch manifest descriptor d with
    | (Ok _, d) => unless_ok (publishProvisional provisionalName finalName canonical descriptor) (Remove provisionalName) d
    | (Err e, d) => (Err e, (discard provisionalName d).2)
    | (Panic, d) => (Panic, (discard provisionalName d).2)
    end.

Definition prepareNewOutboundFrameV2 (config : OutboundFrameConfig) (certificate : Certificate) (signer : Signer)
    (canonical : transportbatch.Descriptor) (finalName : bytes) : prog (dir * dir) OutboundFrame :=
  let! manifest := on_fst (wrap_err "read published FI manifest for outbound frame: %w"
                     (ReadFile (siblingOf (ManifestPath config) (filepath_Base (ManifestPath config))))) in
  fail! negb (bool_decide (sha256_hex manifest = transportbatch.ManifestSHA256 canonical))
    with Errorf "published FI manifest changed after descriptor construction" ;;
  let! (encodedName, encoded, representation) := createOutboundEncodedPayload config canonical in
  finally
    (let! descriptor := lift (descriptorV2FromCanonical canonical representation) in
     let! signedBatch := lift (wrap "sign FI outbound batch 0.2: %w"
                                 (transportpackage.NewSignedBatch descriptor (Some certificate) (Some signer))) in
     let! (disposition, sent) := on_snd (stageFrame finalName manifest encoded signedBatch canonical descriptor) in
     ret {| Disposition := disposition; FramePath := filepath_Join (StageDir config) finalName; Sent := sent |})
    (on_snd (discard encodedName)).

Definition PrepareOutboundFrame (config : OutboundFrameConfig) : prog (dir * dir) OutboundFrame :=
  check! lift (validateOutboundFrameConfig config) ;;
  let! descriptor := on_fst (wrap_err "construct FI descriptor for outbound staging: %w"
                       (DescriptorFromPublishedManifest (ConfigSourceID config) (ManifestPath config))) in
  let finalName := outboundFrameObjectName (transportbatch.SourceID descriptor) (transportbatch.BatchID descriptor) in
  let! exists_ := on_snd (inspectOutboundFramePath finalName) in
  if (exists_ : bool) then
    let! sent := on_snd (wrap_err "validate existing FI outbound frame: %w" (validateStagedOutboundFrame finalName descriptor)) in
    ret {| Disposition := OutboundFrameDispositionExisting; FramePath := filepath_Join (StageDir config) finalName; Sent := sent |}
  else
    match BatchSigningCertificate config, BatchSigner config with
    | None, _ => throw (Wrap "%w: batch-signing certificate is required to create a new outbound frame" ErrOutboundSigningIdentityRequired)
    | _, None => throw (Wrap "%w: batch signer is required to create a new outbound frame" ErrOutboundSigningIdentityRequired)
    | Some certificate, Some signer => prepareNewOutboundFrameV2 config certificate signer descriptor finalName
    end.

(** ** Retiring a published batch *)

Definition validateRetirementManifestPath (manifestPath batchID : bytes) : res bytes :=
  fail? bool_decide (manifestPath = []) with Errorf "published FI batch manifest path is required" ;;
  fail? bool_decide (batchID = []) with Errorf "authorized FI batch ID is required" ;;
  let expectedManifest := manifestFileName batchID in
  let expectedData := dataFileName batchID in
  fail? negb (bool_decide (filepath_Base expectedManifest = expectedManifest)) ||
        negb (bool_decide (filepath_Base expectedData = expectedData)) ||
        ContainsAny expectedManifest (bs "/\\") || ContainsAny expectedData (bs "/\\")
    with Errorf "authorized FI batch ID cannot map to a local spool filename" ;;
  fail? negb (bool_decide (filepath_Base (filepath_Clean manifestPath) = expectedManifest))
    with Errorf "published FI batch manifest filename must be %q" ;;
  Ok (filepath_Join (filepath_Dir manifestPath) expectedData).

Definition hashRetirementFile (name : bytes) (initial : FileInfo) : prog dir (bytes * Z) :=
  let! file := Open name in
  defer_close (
    let! opened := Fstat file in
    fail! negb (SameFile initial opened) with Errorf "FI retirement file changed while being opened" ;;
    fail! negb (bool_decide (fi_kind opened = Regular)) with Errorf "FI retirement file must remain a regular file" ;;
    let! r := file_reader file in
    let! content := lift (ReadAll r) in
    let! afterOpen := Fstat file in
    fail! negb (SameFile opened afterOpen) || negb (fi_size afterOpen =? len content)
      with Errorf "FI retirement file changed during verification" ;;
    let! afterPath := Lstat name in
    fail! negb (SameFile afterOpen afterPath) with Errorf "FI retirement file path changed during verification" ;;
    fail! negb (bool_decide (fi_kind afterPath = Regular)) with Errorf "FI retirement file path no longer names a regular file" ;;
    ret (sha256_hex content, u64 (len content))).

(** [exists] with [info], or not. *)
Definition inspectRetirementFile (name : bytes) : prog dir (option FileInfo) := fun d =>
  match Lstat name d with
  | (Err e, d) => if errors_Is e ErrNotExist then (Ok None, d) else (Err (Wrap "inspect %s: %w" e), d)
  | (Panic, d) => (Panic, d)
  | (Ok info, d) => if bool_decide (fi_kind info = Regular) then (Ok (Some info), d) else (Err (Errorf "%s must be a regular file"), d)
  end.

Definition verifyRetirementData (name : bytes) (info : FileInfo) (wantBytes : Z) (wantSHA256 : bytes) : prog dir unit :=
  let! (digest, bytes) := wrap_err "verify published FI batch data before retirement: %w" (hashRetirementFile name info) in
  fail! negb (bytes =? wantBytes) with Errorf "published FI batch data byte count %d does not match authorized byte count %d" ;;
  fail! negb (bool_decide (digest = wantSHA256))
    with Errorf "published FI batch data SHA-256 does not match retirement authorization" ;;
  ret tt.

Definition verifyRetirementManifest (name : bytes) (info : FileInfo) (wantSHA256 : bytes) : prog dir unit :=
  let! (digest, bytes) := wrap_err "verify published FI batch manifest before retirement: %w" (hashRetirementFile name info) in
  fail! bytes =? 0 with Errorf "published FI batch manifest is empty" ;;
  fail! negb (bool_decide (digest = wantSHA256))
    with Errorf "published FI batch manifest SHA-256 does not match retirement authorization" ;;
  ret tt.

(** The zero value of the disposition is [RetirementUnknown]. *)
Inductive RetirementDisposition :=
| RetirementUnknown | RetirementDispositionAlreadyComplete | RetirementDispositionComplete | RetirementDispositionResumed.

Record RetirementResult := {
  RetiredBatchID : bytes; RetiredDataPath : bytes; DataRemoved : bool; RetiredDisposition : RetirementDisposition;
  RetiredManifestPath : bytes; ManifestRemoved : bool; RetiredSourceID : bytes }.
Definition noRetirement : RetirementResult := {|
  RetiredBatchID := []; RetiredDataPath := []; DataRemoved := false; RetiredDisposition := RetirementUnknown;
  RetiredManifestPath := []; ManifestRemoved := false; RetiredSourceID := [] |}.

(** What happens before anything is removed: which of the two files are there, verified. *)
Definition inspectRetirement (manifestName dataName : bytes) (acknowledgement : transportack.Acknowledgement)
  : prog dir (option FileInfo * option FileInfo) :=
  let! manifestState := inspectRetirementFile manifestName in
  let! dataState := inspectRetirementFile dataName in
  check! (match manifestState with
          | Some info => verifyRetirementManifest manifestName info (transportack.ManifestSHA256 acknowledgement)
          | None => ret tt
          end) ;;
  check! (match dataState with
          | Some info => verifyRetirementData dataName info (transportack.DataBytes acknowledgement) (transportack.DataSHA256 acknowledgement)
          | None => ret tt
          end) ;;
  ret (manifestState, dataState).

Definition removeIf (present : option FileInfo) (name : bytes) : prog dir unit :=
  match present with Some _ => Remove name | None => ret tt end.

Definition RetirePublishedBatch (manifestPath : bytes) (authorization : transportsender.RetirementAuthorization) (d : dir)
  : (RetirementResult * res unit) * dir :=
  stage noRetirement d (wrap "validate FI retirement authorization: %w" (transportsender.RetirementAuthorization_Acknowledgement authorization))
  (fun acknowledgement =>
  stage noRetirement d (validateRetirementManifestPath manifestPath (transportack.BatchID acknowledgement)) (fun dataPath =>
  let manifestName := siblingOf manifestPath (manifestFileName (transportack.BatchID acknowledgement)) in
  let dataName := siblingOf manifestPath (dataFileName (transportack.BatchID acknowledgement)) in
  let '(inspected, d) := inspectRetirement manifestName dataName acknowledgement d in
  stage noRetirement d inspected (fun '(manifestState, dataState) =>
  let result disposition manifestRemoved dataRemoved := {|
    RetiredBatchID := transportack.BatchID acknowledgement; RetiredDataPath := dataPath; DataRemoved := dataRemoved;
    RetiredDisposition := disposition; RetiredManifestPath := manifestPath; ManifestRemoved := manifestRemoved;
    RetiredSourceID := transportack.SourceID acknowledgement |} in
  let present (state : option FileInfo) := match state with Some _ => true | None => false end in
  let disposition := match manifestState, dataState with
                     | None, None => RetirementDispositionAlreadyComplete
                     | Some _, Some _ => RetirementDispositionComplete
                     | _, _ => RetirementDispositionResumed
                     end in
  let '(removed, d) := removeIf manifestState manifestName d in
  stage (result disposition false false) d (wrap "remove published FI batch manifest: %w" removed) (fun _ =>
  let '(removed, d) := removeIf dataState dataName d in
  stage (result disposition (present manifestState) false) d (wrap "remove published FI batch data: %w" removed) (fun _ =>
  ((result disposition (present manifestState) (present dataState), Ok tt), d)))))).

(** ** The transport transaction *)

Record TransportTransactionResult := {
  Authorization : option transportsender.RetirementAuthorization; Retirement : RetirementResult; TransactionSent : option transportsender.SentFrame }.

(** The frame of an outbound value in the stage directory. *)
Definition frameName (outbound : OutboundFrame) : bytes := filepath_Base (filepath_Clean (FramePath outbound)).

(** The checks shared by [validateTransportTransaction] and [validateOutboundCleanupPaths];
    [directory] is the message of the failed directory check. *)
Definition validateFramePath (directory : string) (outbound : OutboundFrame) : res unit :=
  fail? (match Disposition outbound with OtherDisposition _ => true | _ => false end)
    with Errorf "unsupported FI outbound frame disposition %q" ;;
  let descriptor := transportsender.Descriptor (Sent outbound) in
  fail? negb (bool_decide (frameName outbound =
                           outboundFrameObjectName (transportbatch.SourceID descriptor) (transportbatch.BatchID descriptor)))
    with Errorf "staged FI outbound frame filename must be %q" ;;
  let frameDir := filepath_Dir (FramePath outbound) in
  wrap directory (gensender.validateOutboundStageDirectoryPath (EvalSymlinksOf env frameDir) frameDir).

Definition validateTransportTransaction (outbound : OutboundFrame) (manifestPath : bytes) : prog dir unit :=
  check! lift (wrap "validate prepared FI outbound frame facts: %w" (transportsender.SentFrame_Validate (Sent outbound))) ;;
  fail! bool_decide (FramePath outbound = []) with Errorf "staged FI outbound frame path is required" ;;
  fail! negb (filepath_IsAbs (FramePath outbound)) with Errorf "staged FI outbound frame path must be absolute" ;;
  fail! bool_decide (manifestPath = []) with Errorf "published FI batch manifest path is required" ;;
  fail! negb (filepath_IsAbs manifestPath) with Errorf "published FI batch manifest path must be absolute" ;;
  check! lift (validateFramePath "validate FI outbound frame directory: %w" outbound) ;;
  check! lift (wrap "validate FI source retirement path before send: %w"
                 (validateRetirementManifestPath manifestPath (transportbatch.BatchID (transportsender.Descriptor (Sent outbound))))) ;;
  let! current := wrap_err "validate exact staged FI outbound frame before send: %w"
                    (validateStagedOutboundFrame (frameName outbound) (transportsender.Descriptor (Sent outbound))) in
  fail! negb (bool_decide (current = Sent outbound)) with Errorf "staged FI outbound frame facts changed after preparation" ;;
  ret tt.

(** [io.MultiWriter(writer, hasher).Write] and the pieces [io.CopyN] hands to it. *)
Definition multiWrite {W} `{GoIO.Writer W} (piece : bytes) : prog W unit := fun w =>
  let '((n, e), w) := GoIO.Write piece w in
  match e with
  | Some err => (Err err, w)
  | None => if n =? len piece then (Ok tt, w) else (Err ErrShortWrite, w)
  end.
Fixpoint sendFrame {W} `{GoIO.Writer W} (fuel : nat) (data : bytes) : prog W unit :=
  match data, fuel with
  | [], _ => ret tt
  | _ :: _, O => lift Panic
  | _ :: _, S fuel =>
      check! multiWrite (take (Z.to_nat genpublished.copyBufferBytes) data) ;;
      sendFrame fuel (drop (Z.to_nat genpublished.copyBufferBytes) data)
  end.

Definition sendPreparedOutboundFrame {W} `{GoIO.Writer W} (outbound : OutboundFrame) : prog (W * dir) unit :=
  let name := frameName outbound in
  let frameBytes := transportsender.FrameBytes (Sent outbound) in
  let! pathInfo := on_snd (wrap_err "inspect staged FI outbound frame before send: %w" (Lstat name)) in
  fail! negb (bool_decide (fi_kind pathInfo = Regular)) with Errorf "staged FI outbound frame must be a regular file before send" ;;
  fail! writable pathInfo with Errorf "staged FI outbound frame must remain read-only before send" ;;
  fail! (fi_size pathInfo <=? 0) || negb (u64 (fi_size pathInfo) =? frameBytes)
    with Errorf "staged FI outbound frame size %d does not match prepared frame size %d" ;;
  fail! maxOutboundCopyDataBytes <? frameBytes with Errorf "staged FI outbound frame byte count %d exceeds supported streaming range" ;;
  let! file := on_snd (wrap_err "open staged FI outbound frame for send: %w" (Open name)) in
  finally
    (let! openedInfo := on_snd (wrap_err "stat opened FI outbound frame: %w" (Fstat file)) in
     fail! negb (SameFile pathInfo openedInfo) with Errorf "staged FI outbound frame changed while being opened for send" ;;
     let! r := on_snd (file_reader file) in
     let data := take (Z.to_nat frameBytes) (rd_data r) in
     check! wrap_err "stream staged FI outbound frame: %w" (on_fst (sendFrame (length data) data)) ;;
     fail! len data <? frameBytes with Wrap "stream staged FI outbound frame: %w" (rd_end r) ;;
     fail! negb (bool_decide (drop (Z.to_nat frameBytes) (rd_data r) = []))
       with Errorf "staged FI outbound frame contains trailing bytes during send" ;;
     fail! negb (errors_Is (rd_end r) EOF) with Wrap "check staged FI outbound frame end after send: %w" (rd_end r) ;;
     let! afterOpen := on_snd (wrap_err "re-stat sent FI outbound frame: %w" (Fstat file)) in
     fail! negb (SameFile openedInfo afterOpen) || negb (fi_size afterOpen =? fi_size pathInfo)
       with Errorf "staged FI outbound frame changed during send" ;;
     let! afterPath := on_snd (wrap_err "re-inspect sent FI outbound frame path: %w" (Lstat name)) in
     fail! negb (SameFile afterOpen afterPath) with Errorf "staged FI outbound frame path changed during send" ;;
     fail! writable afterPath with Errorf "staged FI outbound frame became writable during send" ;;
     fail! negb (bool_decide (sha256_hex data = transportsender.FrameSHA256 (Sent outbound)))
       with Errorf "sent FI outbound frame SHA-256 does not match prepared exact frame" ;;
     ret tt)
    (on_snd GoFS.Close).

(** The state: the two directions of the connection, the spool and the stage directory. *)
Definition SendAndRetirePreparedFrame {W} `{GoIO.Writer W} (outbound : OutboundFrame) (manifestPath : bytes)
    (s : reader * W * dir * dir) : (TransportTransactionResult * res unit) * (reader * W * dir * dir) :=
  let reached authorization retirement sent := {| Authorization := authorization; Retirement := retirement; TransactionSent := sent |} in
  let '(r, w, spool, staged) := s in
  let '(valid, staged) := validateTransportTransaction outbound manifestPath staged in
  stage (reached None noRetirement None) (r, w, spool, staged) valid (fun _ =>
  let '(sent, (w, staged)) := sendPreparedOutboundFrame outbound (w, staged) in
  stage (reached None noRetirement (Some (Sent outbound))) (r, w, spool, staged)
    (gensender.transported (gensender.retryableTransportWriteError (net_Error env)) "send exact FI outbound frame: %w" sent) (fun _ =>
  let '(authorization, r) := transportsender.VerifyDurableAcknowledgement (Sent outbound) r in
  stage (reached None noRetirement (Some (Sent outbound))) (r, w, spool, staged)
    (gensender.transported (gensender.retryableAcknowledgementReadError (net_Error env))
       "verify FI durable receiver acknowledgement: %w" authorization) (fun authorization =>
  let '((retirement, retired), spool) := RetirePublishedBatch manifestPath authorization spool in
  ((reached (Some authorization) retirement (Some (Sent outbound)), wrap "retire FI published source batch: %w" retired),
   (r, w, spool, staged))))).

(** ** Removing the staged frame *)

(** [os.Chmod] of a path. *)
Definition ChmodPath (name : bytes) (perm : Z) : prog dir unit := syscall (fun d =>
  match names d !! name with
  | None => (Err ErrNotExist, d)
  | Some i => update_inode i (fun nd => Inode (i_kind nd) perm (i_data nd) false) d
  end).

(** Whether it was removed, with the error. *)
Definition removeOutboundFrame (name : bytes) (d : dir) : (bool * res unit) * dir :=
  match ChmodPath name 384 d with
  | (Err e, d) => if errors_Is e ErrNotExist then ((false, Ok tt), d) else ((false, Err e), d)
  | (Panic, d) => ((false, Panic), d)
  | (Ok _, d) =>
      match Remove name d with
      | (Ok _, d) => ((true, Ok tt), d)
      | (Panic, d) => ((false, Panic), d)
      | (Err e, d) =>
          if errors_Is e ErrNotExist then ((false, Ok tt), d) else
          match ChmodPath name 256 d with
          | (Err restoreErr, d) => ((false, Err (if errors_Is restoreErr ErrNotExist then e else Join e restoreErr)), d)
          | (Panic, d) => ((false, Panic), d)
          | (Ok _, d) => ((false, Err e), d)
          end
      end
  end.

Inductive OutboundCleanupDisposition :=
| OutboundCleanupUnknown | OutboundCleanupDispositionAlreadyRemoved | OutboundCleanupDispositionRemoved.

Record OutboundCleanupResult := {
  CleanupBatchID : bytes; CleanupDisposition : OutboundCleanupDisposition; CleanupFramePath : bytes; CleanupSourceID : bytes }.

Definition inspectOutboundCleanupFrame (name : bytes) : prog dir (option FileInfo) := fun d =>
  match Lstat name d with
  | (Err e, d) => if errors_Is e ErrNotExist then (Ok None, d)
                  else (Err (Wrap "inspect staged FI outbound frame for cleanup: %w" e), d)
  | (Panic, d) => (Panic, d)
  | (Ok info, d) =>
      (fail! negb (bool_decide (fi_kind info = Regular)) with Errorf "staged FI outbound cleanup path must name a regular file" ;;
       fail! writable info with Errorf "staged FI outbound frame must remain read-only before cleanup" ;;
       ret (Some info)) d
  end.

Definition requireAbsent (name : bytes) : prog dir unit := fun d =>
  match Lstat name d with
  | (Ok _, d) => (Err (Errorf "%s still exists; staged FI outbound frame must be retained"), d)
  | (Err e, d) => if errors_Is e ErrNotExist then (Ok tt, d) else (Err (Wrap "inspect %s before outbound cleanup: %w" e), d)
  | (Panic, d) => (Panic, d)
  end.
Definition requireRetiredSourceArtifacts (manifestName dataName : bytes) : prog dir unit :=
  check! requireAbsent manifestName ;; requireAbsent dataName.

Definition validateOutboundCleanupPaths (outbound : OutboundFrame) (manifestPath : bytes) : res bytes :=
  fail? bool_decide (FramePath outbound = []) with Errorf "staged FI outbound frame path is required" ;;
  fail? negb (filepath_IsAbs (FramePath outbound)) with Errorf "staged FI outbound frame path must be absolute" ;;
  check? validateFramePath "validate FI outbound cleanup directory: %w" outbound ;;
  wrap "validate FI retired source paths for outbound cleanup: %w"
    (validateRetirementManifestPath manifestPath (transportbatch.BatchID (transportsender.Descriptor (Sent outbound)))).

(** The checks of [CleanupRetiredOutboundFrame] up to the frame itself: nothing left to do, or
    the frame may be removed. *)
Definition approveCleanup (outbound : OutboundFrame) (manifestPath : bytes) (authorization : transportsender.RetirementAuthorization)
  : prog (dir * dir) bool :=
  check! lift (wrap "validate FI outbound cleanup frame facts: %w" (transportsender.SentFrame_Validate (Sent outbound))) ;;
  let! acknowledgement := lift (wrap "validate FI outbound cleanup authorization: %w"
                                  (transportsender.RetirementAuthorization_Acknowledgement authorization)) in
  check! lift (wrap "match FI outbound cleanup authorization to staged frame: %w"
                 (transportsender.acknowledgementMatchesSentFrame acknowledgement (Sent outbound))) ;;
  check! lift (validateOutboundCleanupPaths outbound manifestPath) ;;
  let batchID := transportbatch.BatchID (transportsender.Descriptor (Sent outbound)) in
  let retired := requireRetiredSourceArtifacts (siblingOf manifestPath (manifestFileName batchID)) (siblingOf manifestPath (dataFileName batchID)) in
  check! on_fst retired ;;
  let! initialInfo := on_snd (inspectOutboundCleanupFrame (frameName outbound)) in
  match initialInfo with
  | None => ret false
  | Some initialInfo =>
      let! current := on_snd (wrap_err "validate exact FI outbound frame before cleanup: %w"
                        (validateStagedOutboundFrame (frameName outbound) (transportsender.Descriptor (Sent outbound)))) in
      fail! negb (bool_decide (current = Sent outbound)) with Errorf "staged FI outbound frame facts changed before cleanup" ;;
      let! afterValidation := on_snd (fun d =>
        match Lstat (frameName outbound) d with
        | (Err e, d) => if errors_Is e ErrNotExist then (Ok None, d)
                        else (Err (Wrap "re-inspect staged FI outbound frame before cleanup: %w" e), d)
        | (Panic, d) => (Panic, d)
        | (Ok info, d) => (Ok (Some info), d)
        end) in
      match afterValidation with
      | None => ret false
      | Some afterValidation =>
          fail! negb (SameFile initialInfo afterValidation) with Errorf "staged FI outbound frame path changed before cleanup" ;;
          fail! negb (bool_decide (fi_kind afterValidation = Regular)) || writable afterValidation
            with Errorf "staged FI outbound frame must remain a read-only regular file before cleanup" ;;
          check! on_fst retired ;;
          ret true
      end
  end.

Definition CleanupRetiredOutboundFrame (outbound : OutboundFrame) (manifestPath : bytes)
    (authorization : transportsender.RetirementAuthorization) (s : dir * dir) : (option OutboundCleanupResult * res unit) * (dir * dir) :=
  let result disposition := Some {|
    CleanupBatchID := transportbatch.BatchID (transportsender.Descriptor (Sent outbound)); CleanupDisposition := disposition;
    CleanupFramePath := FramePath outbound; CleanupSourceID := transportbatch.SourceID (transportsender.Descriptor (Sent outbound)) |} in
  let '(approved, (spool, staged)) := approveCleanup outbound manifestPath authorization s in
  stage None (spool, staged) approved (fun approved =>
  if (approved : bool) then
    let '((removed, err), staged) := removeOutboundFrame (frameName outbound) staged in
    ((result (if removed then OutboundCleanupDispositionRemoved else OutboundCleanupDispositionAlreadyRemoved),
      wrap "remove retired FI outbound frame: %w" err), (spool, staged))
  else ((result OutboundCleanupDispositionAlreadyRemoved, Ok tt), (spool, staged))).

(** ** The queue of published batches *)

Record PublishedBatchQueue := { manifestPaths : list bytes; queueSpoolDir : bytes }.

Definition publishedBatchReadChunk : nat := Z.to_nat 4096.

Definition Advance (manifestPath : bytes) : prog PublishedBatchQueue unit := fun queue =>
  match manifestPaths queue with
  | [] => (Err (Errorf "FI published-batch queue is empty"), queue)
  | current :: rest =>
      if negb (bool_decide (filepath_Clean manifestPath = current))
      then (Err (Errorf "FI published-batch queue current manifest is %q, not %q"), queue)
      else (Ok tt, {| manifestPaths := rest; queueSpoolDir := queueSpoolDir queue |})
  end.

(** [stat] is [os.Stat] of the cleaned path. *)
Definition NewPublishedBatchQueue (stat : bytes -> res file_kind) (spoolDir : bytes) : res PublishedBatchQueue :=
  fail? bool_decide (spoolDir = []) with Errorf "FI Phase 1 spool directory is required" ;;
  fail? negb (filepath_IsAbs spoolDir) with Errorf "FI Phase 1 spool directory must be absolute" ;;
  let clean := filepath_Clean spoolDir in
  let? kind := wrap "inspect FI Phase 1 spool directory: %w" (stat clean) in
  fail? negb (bool_decide (kind = GoFS.Directory)) with Errorf "FI Phase 1 spool path must name a directory" ;;
  Ok {| manifestPaths := []; queueSpoolDir := clean |}.

Definition isPublishedBatchManifestName (name : bytes) : bool :=
  if negb (HasPrefix name (bs "batch-")) || negb (HasSuffix name (bs ".manifest.json")) then false
  else negb (bool_decide (TrimSuffix (TrimPrefix name (bs "batch-")) (bs ".manifest.json") = [])).

(** The entries of one call of [directory.ReadDir]: [Info] is an [Lstat]. *)
Fixpoint scanEntries (spoolDir : bytes) (entries : list (bytes * file_kind)) (manifestPaths : list bytes) : prog dir (list bytes) :=
  match entries with
  | [] => ret manifestPaths
  | (name, kind) :: entries =>
      if negb (isPublishedBatchManifestName name) then scanEntries spoolDir entries manifestPaths else
      if bool_decide (kind = Symlink) then scanEntries spoolDir entries manifestPaths else
      let! info := wrap_err "inspect FI published-batch queue entry %q: %w" (Lstat (in_dir (filepath_Base spoolDir) name)) in
      scanEntries spoolDir entries
        (if bool_decide (fi_kind info = Regular) then manifestPaths ++ [filepath_Join spoolDir name] else manifestPaths)
  end.

(** The loop over [ReadDir(publishedBatchReadChunk)], which reports [io.EOF] with no entries
    at the end; each turn before takes entries, hence the fuel. *)
Fixpoint scanChunks (fuel : nat) (spoolDir : bytes) (entries : list (bytes * file_kind)) (manifestPaths : list bytes) : prog dir (list bytes) :=
  match fuel with
  | O => lift Panic
  | S fuel => fun d =>
      match syscall (ret tt) d with
      | (Err e, d) => (Err (Wrap "scan FI Phase 1 spool directory: %w" e), d)
      | (Panic, d) => (Panic, d)
      | (Ok _, d) =>
          match entries with
          | [] => (Ok manifestPaths, d)
          | _ :: _ =>
              (let! manifestPaths := scanEntries spoolDir (take publishedBatchReadChunk entries) manifestPaths in
               scanChunks fuel spoolDir (drop publishedBatchReadChunk entries) manifestPaths) d
          end
      end
  end.

(** The entries in the order of the directory. *)
Definition entriesOf (directory : bytes) (d : dir) : list (bytes * file_kind) :=
  omap (fun '(path, i) =>
    name ← spoolrecovery.entry_of directory path; Some (name, match inodes d !! i with Some nd => i_kind nd | None => OtherKind end))
    (map_to_list (names d)).

Definition scanPublishedBatchManifests (spoolDir : bytes) : prog dir (list bytes) :=
  check! wrap_err "open FI Phase 1 spool directory: %w" (syscall (ret tt)) ;;
  defer_close (fun d =>
    let entries := entriesOf (filepath_Base spoolDir) d in
    (let! manifestPaths := scanChunks (S (length entries)) spoolDir entries [] in ret (sort_Strings manifestPaths)) d).

Definition Next : prog (PublishedBatchQueue * dir) (option bytes) := fun '(queue, d) =>
  let head (paths : list bytes) := match paths with [] => None | path :: _ => Some path end in
  match manifestPaths queue with
  | _ :: _ => (Ok (head (manifestPaths queue)), (queue, d))
  | [] =>
      match scanPublishedBatchManifests (queueSpoolDir queue) d with
      | (Ok paths, d) => (Ok (head paths), ({| manifestPaths := paths; queueSpoolDir := queueSpoolDir queue |}, d))
      | (Err e, d) => (Err e, (queue, d))
      | (Panic, d) => (Panic, (queue, d))
      end
  end.

End Sender.
End batchsender.
