(* ===== verification/BatchStage.v ===== *)
(** * Staged frames of single batches

    What [batchsender] stages and reads back, under every schedule of faults: a frame that
    passes [validateStagedOutboundFrame] is a complete wire frame of the published batch, and
    [PrepareOutboundFrame] adds such a frame without touching the spool or any file that was
    staged before. *)

From stdpp Require Import gmap.
From S2P Require Import Prelude GoBytes GoStrings Sha256 GoText GoIO GoFS GoDir GoPublish GoTree GoCalls GoWin Pki TransportEncoding TransportBatch TransportTrust TransportPackage TransportWire TransportAck TransportReceiver TransportGeneration GenerationCanonical GenerationProtocol GenerationRecorder GenerationPublished GenerationSender SpoolWriter SpoolSafety SpoolRecovery BatchSender.

Module batchstage.
Import spool spoolwriter batchsender.

(** ** Programs that only read *)

Lemma Lstat_absent name d e d' : Lstat name d = (Err e, d') -> errors_Is e ErrNotExist = true -> names d !! name = None.
Proof.
  unfold Lstat. destruct (syscall_cases (fun d => match names d !! name with
    | None => (Err ErrNotExist, d)
    | Some i => match inodes d !! i with None => (Err EIO, d) | Some nd => (Ok (info_of i nd), d) end end) d) as (fs & [-> | ->]).
  - by intros [= <- _].
  - cbn. destruct (names d !! name) as [i|]; [|done]. destruct (inodes d !! i); [done|]. by intros [= <- _].
Qed.

Section Frames.
Context `{Unicode} `{JSON Manifest} `{X509} `{Zstd} (env : StageEnv).

(** The signature verifies under the certificate that travels with the batch. *)
Definition self_signed (value : transportpackage.SignedBatch) : Prop :=
  exists leaf n e, transportpackage.BatchSigningCertificate value = Ok leaf /\ PublicKey leaf = RSAKey n e /\
    VerifyPSS (n, e) (sha256 (transportbatch.layout (transportpackage.Descriptor value))) (transportpackage.Signature value) = Ok tt.

(** [frame] is the complete wire form of a batch with this descriptor: header, manifest and
    payload, with the sizes and digests the descriptor states, and nothing after them. *)
Definition exact_frame (descriptor : transportbatch.Descriptor) (frame : bytes) : Prop :=
  exists h hdr manifest payload data,
    transportwire.ValidHeader h /\ transportwire.Header_typed h /\ transportreceiver.header_wire h hdr /\
    transportwire.descriptor h = descriptor /\ self_signed (transportwire.SignedBatch h) /\
    len manifest = transportwire.ManifestBytes h /\ sha256_hex manifest = transportbatch.ManifestSHA256 descriptor /\
    transportreceiver.payload_of descriptor payload data /\
    len data = transportbatch.DataBytes descriptor /\ sha256_hex data = transportbatch.DataSHA256 descriptor /\
    frame = hdr ++ manifest ++ payload.

(** The batch of a descriptor, without the form of its payload. *)
Definition same_batch (a b : transportbatch.Descriptor) : Prop :=
  transportbatch.SourceID a = transportbatch.SourceID b /\ transportbatch.BatchID a = transportbatch.BatchID b /\
  transportbatch.RecordCount a = transportbatch.RecordCount b /\ transportbatch.DataBytes a = transportbatch.DataBytes b /\
  transportbatch.DataSHA256 a = transportbatch.DataSHA256 b /\ transportbatch.ManifestSHA256 a = transportbatch.ManifestSHA256 b.

#[export] Instance same_batch_Equivalence : Equivalence same_batch.
Proof.
  split.
  - intros a. by split_and!.
  - intros a b (? & ? & ? & ? & ? & ?). by split_and!.
  - intros a b c (? & ? & ? & ? & ? & ?) (? & ? & ? & ? & ? & ?). split_and!; congruence.
Qed.

Lemma verifyStaged_signed value : verifyStagedOutboundSignature value = Ok tt -> self_signed value.
Proof.
  unfold verifyStagedOutboundSignature. intros Hv. res_inv Hv. destruct (PublicKey v) as [n e|] eqn:Ek; [|done]. res_inv Hv.
  match goal with Hi : transportbatch.SignatureInput _ = Ok _ |- _ => apply transportbatch.SignatureInput_Ok in Hi as [_ ->] end.
  by exists v, n, e.
Qed.

Lemma staged_matches actual expected : stagedDescriptorMatchesExpected actual expected = Ok tt ->
  actual = expected \/ (transportbatch.Version expected = transportbatch.DescriptorVersion /\
                        transportbatch.Version actual = transportbatch.DescriptorVersionV2 /\ same_batch actual expected).
Proof.
  unfold stagedDescriptorMatchesExpected. intros Hm. res_inv Hm.
  case_bool_decide as Hx; [case_bool_decide as Hy; [|case_bool_decide as Hz]|case_bool_decide as Hx2]; try done;
    [left; by case_bool_decide| |left; by case_bool_decide].
  right. split; [done|]. split; [done|]. destruct (_ || _) eqn:Hb in Hm; [done|]. bool_hyps. unfold same_batch. split_and!; try done; lia.
Qed.

Lemma frameEnds_Ok r r' : frameEnds r = (Ok tt, r') -> rd_data r = [] /\ errors_Is (rd_end r) EOF = true /\ r' = r.
Proof.
  unfold frameEnds. case_bool_decide; [|done]. cbn. destruct (errors_Is _ _) eqn:E; [|done]. by intros [= <-].
Qed.

(** The payload check is the receiver's, with other messages. *)
Lemma readEncoded_receiver actual r r' : readEncoded actual r = (Ok tt, r') ->
  exists sha data, transportreceiver.readValidatedDataV2 actual r = (Ok (sha, data), r').
Proof.
  unfold readEncoded, transportreceiver.readValidatedDataV2. destruct (transportencoding.NewZstdDecoder _) as [[decoder consumed]|e|]; try done.
  destruct (CopyN _ decoder) as [[data|e|] decoder']; cbn; try done. intros Hr. injection Hr as Hr <-. res_inv Hr.
  repeat match goal with Hb : _ = false |- _ => rewrite Hb; clear Hb end. eauto.
Qed.

Lemma readFrameV1_Ok expected r d r' : readFrameV1 expected r = (Ok d, r') ->
  d = expected /\ rd_data r' = [] /\ errors_Is (rd_end r) EOF = true /\ exact_frame expected (rd_data r).
Proof.
  unfold readFrameV1. intros Hr. apply bind_Ok in Hr as (h & r1 & Hh & Hr). apply wrap_err_Ok in Hh.
  apply transportwire.ReadHeader_inv in Hh as (Hv & Hty & Hver & He & hdr & Henc & Hd).
  case_bool_decide as Hx; cbn [negb] in Hr; [|done]. apply bind_lift_Ok in Hr as ([] & Hs & Hr). apply verifyStaged_signed in Hs.
  apply bind_read_Ok in Hr as (man & r2 & Hml & D2 & E2 & Hr); [|destruct Hty as [_ Htm]; unfold is_u64 in Htm; lia].
  case_bool_decide as Hms; cbn [negb] in Hr; [|done]. destruct (_ <? _) in Hr; [done|].
  apply bind_Ok in Hr as (data & r3 & Hc & Hr). apply wrap_err_Ok, CopyN_Ok in Hc as [D3 E3].
  destruct (negb (len data =? _)) eqn:Hl in Hr; [done|]. case_bool_decide as Hds; cbn [negb] in Hr; [|done].
  apply bind_Ok in Hr as ([] & r4 & Hf & Hr). apply frameEnds_Ok in Hf as (Hn & Heof & ->). injection Hr as <- <-. bool_hyps.
  split; [done|]. split; [done|]. split; [congruence|].
  exists h, hdr, man, data, data. split_and!; try done; try lia.
  - left. split; done.
  - left. split; [by rewrite <- Hx|done].
  - by rewrite Hd, D2, D3, Hn, app_nil_r.
Qed.

Lemma readFrameV2_Ok `{!ZstdLaws} expected r d r' : readFrameV2 expected r = (Ok d, r') ->
  (d = expected \/ same_batch d expected) /\ rd_data r' = [] /\ errors_Is (rd_end r) EOF = true /\ exact_frame d (rd_data r).
Proof.
  unfold readFrameV2. intros Hr. apply bind_Ok in Hr as (h & r1 & Hh & Hr). apply wrap_err_Ok in Hh.
  apply transportwire.ReadHeaderV2_inv in Hh as (Hv & Hty & Hver & He & hdr & Henc & Hd). cbv zeta in Hr.
  apply bind_lift_Ok in Hr as ([] & Hx & Hr). apply staged_matches in Hx.
  apply bind_lift_Ok in Hr as ([] & Hs & Hr). apply verifyStaged_signed in Hs.
  apply bind_read_Ok in Hr as (man & r2 & Hml & D2 & E2 & Hr); [|destruct Hty as [_ Htm]; unfold is_u64 in Htm; lia].
  case_bool_decide as Hms; cbn [negb] in Hr; [|done]. destruct (_ <? _) in Hr; [done|]. destruct (_ <? _) in Hr; [done|].
  apply bind_Ok in Hr as ([] & r3 & Hc & Hr). apply readEncoded_receiver in Hc as (sha & data & Hc).
  apply transportreceiver.readValidatedDataV2_Ok in Hc as (payload & _ & Hl & Hds & Hpl & Hps & Hz & D3 & E3);
    [|destruct Hty as [(_ & _ & Hty) _]; unfold is_u64 in Hty; lia].
  apply bind_Ok in Hr as ([] & r4 & Hf & Hr). apply frameEnds_Ok in Hf as (Hn & Heof & ->). injection Hr as <- <-.
  split; [tauto|]. split; [done|]. split; [congruence|].
  exists h, hdr, man, payload, data. split_and!; try done.
  - right. split; done.
  - right. split_and!; done.
  - by rewrite Hd, D2, D3, Hn, app_nil_r.
Qed.

(** ** Frames in the stage directory *)

(** [name] is a read-only regular file holding the exact frame [sent] describes. *)
Definition holds_frame (d : dir) (name : bytes) (sent : transportsender.SentFrame) : Prop :=
  exists i nd, names d !! name = Some i /\ inodes d !! i = Some nd /\ i_kind nd = Regular /\ Z.land (i_perm nd) 146 = 0 /\
    exact_frame (transportsender.Descriptor sent) (i_data nd) /\ i_data nd <> [] /\
    transportsender.FrameBytes sent = len (i_data nd) /\ transportsender.FrameSHA256 sent = sha256_hex (i_data nd).

Lemma quiet_validateStagedWith read name expected : quiet (validateStagedWith read name expected).
Proof.
  unfold validateStagedWith. quiet.
Qed.
Lemma quiet_validateStaged name expected : quiet (validateStagedOutboundFrame name expected).
Proof.
  unfold validateStagedOutboundFrame, readStagedOutboundFrameMagic, validateStagedOutboundFrameV1, validateStagedOutboundFrameV2.
  quiet; apply quiet_validateStagedWith.
Qed.

Lemma validateStagedWith_Ok (read : transportbatch.Descriptor -> prog reader transportbatch.Descriptor) name expected d sent d' :
  (forall r x r', read expected r = (Ok x, r') -> (x = expected \/ same_batch x expected) /\ rd_data r' = [] /\
                  errors_Is (rd_end r) EOF = true /\ exact_frame x (rd_data r)) ->
  validateStagedWith read name expected d = (Ok sent, d') ->
  holds_frame d name sent /\ (transportsender.Descriptor sent = expected \/ same_batch (transportsender.Descriptor sent) expected).
Proof.
  intros Hread Hv. unfold validateStagedWith in Hv.
  apply bind_Ok in Hv as (info & d1 & Hl & Hv). apply Lstat_Ok in Hl as ([fs1 ->] & i & nd & Hn & Hi & ->).
  case_bool_decide as Hk; cbn [negb] in Hv; [|done]. destruct (writable _) eqn:Hw in Hv; [done|]. destruct (_ <=? 0) eqn:Hz in Hv; [done|].
  apply bind_Ok in Hv as (file & d2 & Ho & Hv). apply Open_Ok in Ho as ([fs2 ->] & Ho). cbn in Ho. assert (file = i) as -> by congruence.
  unfold defer_close in Hv. destruct (bind (Fstat i) _ _) as [rr d3] eqn:Hb. injection Hv as -> _.
  apply bind_Ok in Hb as (o & d4 & Hf & Hb). apply Fstat_Ok in Hf as ([fs4 ->] & nd1 & Hi1 & ->). cbn in Hi1. assert (nd1 = nd) as -> by congruence.
  destruct (negb (SameFile _ _)) in Hb; [done|].
  apply bind_Ok in Hb as (r & d5 & Hfr & Hb). apply file_reader_Ok in Hfr as ([fs5 ->] & nd2 & Hi2 & Hr). cbn in Hi2. assert (nd2 = nd) as -> by congruence.
  destruct (read expected r) as [result after] eqn:Er. apply bind_lift_Ok in Hb as (x & -> & Hb).
  apply Hread in Er as (Hx & Ha & Heof & Hex). specialize (Hr Heof). subst r. cbn [rd_data] in *.
  rewrite Ha, Nat.sub_0_r, take_ge in Hb by lia. cbv zeta in Hb. res_inv Hb. split; [|done].
  exists i, nd. cbn in Hk, Hz. split_and!; try done.
  - unfold writable in Hw. cbn in Hw. apply negb_false_iff in Hw. lia.
  - intros En. rewrite En in Hz. done.
Qed.

Lemma validateStaged_Ok `{!ZstdLaws} name expected d sent d' :
  validateStagedOutboundFrame name expected d = (Ok sent, d') ->
  holds_frame d name sent /\ same_batch (transportsender.Descriptor sent) expected.
Proof.
  intros Hv. unfold validateStagedOutboundFrame in Hv. apply bind_Ok in Hv as (magic & d1 & Hm & Hv).
  assert (same_dir d d1) as [fs ->].
  { eapply (keeps_run same_dir); [|exact Hm]. unfold readStagedOutboundFrameMagic. quiet. }
  assert (holds_frame (set_faults fs d) name sent /\
    (transportsender.Descriptor sent = expected \/ same_batch (transportsender.Descriptor sent) expected)) as [Hh Hs].
  { case_bool_decide; [|case_bool_decide; [|done]].
    - eapply validateStagedWith_Ok; [|exact Hv]. intros r x r' Hr. apply readFrameV1_Ok in Hr as (-> & ? & ? & ?). eauto.
    - eapply validateStagedWith_Ok; [|exact Hv]. intros r x r' Hr. by apply readFrameV2_Ok in Hr. }
  split; [exact Hh|]. by destruct Hs as [->|].
Qed.

(** ** The published batch *)

(** The spool holds the batch a descriptor was made from. *)
Definition describes_batch (d : dir) (manifestPath : bytes) (descriptor : transportbatch.Descriptor) : Prop :=
  exists manifest mnd dnd, lookup_file d (siblingOf manifestPath (manifestFileName (BatchID manifest))) = Some mnd /\
    lookup_file d (siblingOf manifestPath (dataFileName (BatchID manifest))) = Some dnd /\
    spoolsafety.decodes (i_data mnd) manifest /\ spoolsafety.agrees manifest (i_data dnd) /\
    transportbatch.BatchID descriptor = BatchID manifest /\
    transportbatch.ManifestSHA256 descriptor = sha256_hex (i_data mnd) /\
    transportbatch.DataSHA256 descriptor = sha256_hex (i_data dnd) /\
    transportbatch.DataBytes descriptor = u64 (len (i_data dnd)).

Lemma quiet_Verify directory name : quiet (VerifyManifest directory name).
Proof.
  unfold VerifyManifest, readPreparedPublicationManifest, verifyPreparedManifestAgainstData, inspectDataFile. quiet.
Qed.
Lemma quiet_Descriptor sourceID manifestPath : quiet (DescriptorFromPublishedManifest sourceID manifestPath).
Proof. unfold DescriptorFromPublishedManifest. repeat first [apply quiet_ReadFile | apply quiet_Verify | keeps1]. Qed.

Lemma Descriptor_Ok sourceID manifestPath d descriptor d' :
  DescriptorFromPublishedManifest sourceID manifestPath d = (Ok descriptor, d') ->
  describes_batch d manifestPath descriptor /\ transportbatch.SourceID descriptor = sourceID /\
  transportbatch.Validate descriptor = Ok tt.
Proof.
  unfold DescriptorFromPublishedManifest. intros Hr. apply bind_lift_Ok in Hr as (_ & _ & Hr). case_bool_decide; [done|]. cbv zeta in Hr.
  apply bind_Ok in Hr as (before & d1 & Hb & Hr). apply wrap_err_Ok, ReadFile_Ok in Hb as ([fs1 ->] & _).
  apply bind_Ok in Hr as (manifest & d2 & Hv & Hr). apply wrap_err_Ok in Hv.
  pose proof (keeps_run _ _ _ _ _ (quiet_Verify _ _) Hv) as [fs2 ->]. apply spoolsafety.VerifyManifest_Ok in Hv as (i & nd & j & ndj & Hi & Hnd & Hdec & Hj & Hndj & Ha).
  apply bind_Ok in Hr as (after & d3 & Hf & Hr). apply wrap_err_Ok, ReadFile_Ok in Hf as (_ & nd' & Hl & <-).
  case_bool_decide as Hba; cbn [negb] in Hr; [|done]. case_bool_decide as Hname; cbn [negb] in Hr; [|done].
  destruct (_ <=? 0) in Hr; [done|]. destruct (_ <=? 0) in Hr; [done|]. apply bind_lift_Ok in Hr as ([] & Hval & Hr). apply wrap_Ok in Hval. injection Hr as <- _.
  unfold lookup_file in Hl. cbn in Hl. unfold siblingOf in Hl. cbn in Hi, Hnd, Hj, Hndj. rewrite Hi in Hl. cbn in Hl. rewrite Hnd in Hl. injection Hl as <-.
  split; [|done]. exists manifest, nd, ndj. unfold lookup_file, siblingOf. rewrite <- Hname, Hi.
  assert (DataFile manifest = dataFileName (BatchID manifest)) as Hdf.
  { destruct Hdec as (rest & _ & _ & Hvm). unfold validateManifest in Hvm. res_inv Hvm. bool_hyps. done. }
  rewrite <- Hdf, Hj. cbn. pose proof Ha as (Ha1 & Ha2 & _). split_and!; try done. by rewrite Ha2.
Qed.

(** ** What preparation does to the stage directory *)

(** [d] came from [d0] by adding files: the entries of [d0] are still there, also on disk, and
    its files are unchanged. *)
Record grown (d0 d : dir) : Prop := {
  gr_names n i : names d0 !! n = Some i -> names d !! n = Some i;
  gr_durable n i : names d0 !! n = Some i -> durable d0 !! n = Some i -> durable d !! n = Some i;
  gr_inodes i : (i < next_ino d0)%nat -> inodes d !! i = inodes d0 !! i;
  gr_next : (next_ino d0 <= next_ino d)%nat
}.
Lemma grown_refl d : grown d d.
Proof. by split. Qed.
Lemma grown_same d0 d d' : same_dir d d' -> grown d0 d -> grown d0 d'.
Proof. by intros [fs ->] []. Qed.

(** The programs that keep it so, for a [d0] of long ago. *)
Definition grows (d0 d d' : dir) : Prop := grown d0 d -> grown d0 d'.
#[local] Instance grows_PreOrder d0 : PreOrder (grows d0).
Proof. split; [by intros d ?|]. intros a b c H3 H4 H5. auto. Qed.

Lemma grows_quiet {A} d0 (p : prog dir A) : quiet p -> keeps (grows d0) p.
Proof. intros Hp d Hg. eapply grown_same; [apply Hp|done]. Qed.

Lemma grows_syscall {A} d0 (p : prog dir A) : keeps (grows d0) p -> keeps (grows d0) (syscall p).
Proof.
  intros Hp d Hg. destruct (syscall_cases p d) as (fs & [-> | ->]); cbn; [|apply Hp]; by eapply grown_same; [eexists|].
Qed.

Lemma grows_update d0 i f : (next_ino d0 <= i)%nat -> keeps (grows d0) (update_inode i f).
Proof.
  intros Hi d [G1 G2 G3 G4]. unfold update_inode. destruct (inodes d !! i); [|done]. split; cbn; try done.
  intros j Hj. rewrite lookup_insert_ne by lia. auto.
Qed.
Lemma grows_FileWrite d0 i p : (next_ino d0 <= i)%nat -> keeps (grows d0) (FileWrite i p).
Proof.
  intros Hi. unfold FileWrite. apply keeps_bind; [apply _| |].
  - intros d [G1 G2 G3 G4]. unfold next_fault. destruct (faults d); by split.
  - intros [k|]; [apply keeps_bind; [apply _| |intros; apply keeps_throw, _]|]; by apply grows_update.
Qed.
Lemma grows_Chmod d0 i perm : (next_ino d0 <= i)%nat -> keeps (grows d0) (Chmod i perm).
Proof. intros Hi. by apply grows_syscall, grows_update. Qed.
Lemma grows_Sync d0 i : (next_ino d0 <= i)%nat -> keeps (grows d0) (Sync i).
Proof. intros Hi. by apply grows_syscall, grows_update. Qed.
Lemma grows_Remove d0 name : names d0 !! name = None -> keeps (grows d0) (Remove name).
Proof.
  intros Hn. apply grows_syscall. intros d [G1 G2 G3 G4]. destruct (names d !! name) as [j|]; [|done]. split; cbn; try done.
  intros n i Hi. rewrite lookup_delete_ne by congruence. auto.
Qed.

Lemma grows_Move d0 source destination : names d0 !! source = None -> keeps (grows d0) (MoveFileExW false source destination).
Proof.
  intros Hs d G. unfold MoveFileExW. destruct (next_fault d) as [f d1] eqn:Ef.
  assert (grown d0 d1) as [G1 G2 G3 G4].
  { destruct G. unfold next_fault in Ef. destruct (faults d); injection Ef as <- <-; by split. }
  destruct f as [f|e|]; try (by split). destruct (names d1 !! source) as [i|] eqn:Ei; destruct f as [[|k]|]; try (by split).
  all: destruct (names d1 !! destination) as [j|] eqn:Ed; cbn [negb andb]; [by split|].
  all: assert (forall n x, names d0 !! n = Some x -> n <> destination /\ n <> source) as Hne
    by (intros n x Hx; split; intros ->; [apply G1 in Hx; congruence|congruence]).
  all: split; cbn; [intros n x Hx|intros n x Hx Hdx|done|done]; destruct (Hne _ _ Hx);
    try rewrite lookup_insert_ne, lookup_delete_ne by done; auto.
Qed.

(** A new provisional file is none of the old ones. *)
Lemma CreateTemp_grown d0 prefix suffix d r d' : CreateTemp prefix suffix d = (r, d') -> grown d0 d -> grown d0 d' /\
  forall name file, r = Ok (name, file) -> names d0 !! name = None /\ (next_ino d0 <= file)%nat /\
    names d' !! name = Some file /\ (exists k, name = temp_name prefix suffix k) /\ (file < next_ino d')%nat.
Proof.
  unfold CreateTemp. intros Hc Hg. match type of Hc with syscall ?p _ = _ => destruct (syscall_cases p d) as (fs & [E|E]) end; rewrite E in Hc; clear E.
  { injection Hc as <- <-. split; [by eapply grown_same; [eexists|]|done]. }
  cbn [names set_faults] in Hc. destruct (unused_temp prefix suffix (names d) temp_attempts 0) as [name|] eqn:Eu.
  2:{ injection Hc as <- <-. split; [by eapply grown_same; [eexists|]|done]. }
  injection Hc as <- <-. apply unused_temp_spec in Eu as [Hn Hk]. destruct Hg as [G1 G2 G3 G4].
  assert (names d0 !! name = None) as Hn0 by (destruct (names d0 !! name) eqn:E0; [apply G1 in E0; congruence|done]).
  split.
  - split; cbn; [| | |lia]; try done.
    + intros n i Hi. rewrite lookup_insert_ne by congruence. auto.
    + intros i Hi. rewrite lookup_insert_ne by lia. auto.
  - intros ? ? [= <- <-]. cbn. rewrite lookup_insert_eq. split_and!; try done; lia.
Qed.

Lemma keeps_CopyBuffer {W} `{GoIO.Writer W} (R : W -> W -> Prop) `{!PreOrder R} value :
  (forall p w, R w (GoIO.Write p w).2) -> keeps R (CopyBuffer value).
Proof.
  intros Hw w. unfold CopyBuffer. destruct value as [|b value]; [reflexivity|]. specialize (Hw (b :: value) w).
  destruct (GoIO.Write (b :: value) w) as [[n [e|]] w1]; [done|]. by destruct (n =? _).
Qed.

Lemma grows_header d0 file signedBatch manifest : (next_ino d0 <= file)%nat ->
  keeps (grows d0) (@transportwire.WriteHeaderV2 _ _ dir (fileWriter file) signedBatch manifest).
Proof.
  intros Hf. unfold transportwire.WriteHeaderV2.
  assert (forall value, keeps (grows d0) (@CopyBuffer dir (fileWriter file) value)) as Hl.
  { intros value. apply (@keeps_CopyBuffer dir (fileWriter file) _ _). intros p d. pose proof (grows_FileWrite d0 file p Hf d) as Hw.
    cbn. by destruct (FileWrite file p d) as [[]]. }
  repeat first [apply Hl | keeps1].
Qed.

Lemma grows_writePieces d0 file pieces : (next_ino d0 <= file)%nat -> keeps (grows d0) (writePieces file pieces).
Proof.
  intros Hf. induction pieces as [|p pieces IH]; cbn [writePieces]; [apply keeps_ret, _|].
  apply keeps_bind; [apply _|by apply grows_FileWrite|done].
Qed.
Lemma grows_compress d0 canonical file data : (next_ino d0 <= file)%nat -> keeps (grows d0) (compress canonical file data).
Proof.
  intros Hf. unfold compress. apply keeps_bind; [apply _|apply keeps_lift, _|intros encoder].
  destruct (zstd_Write _ encoder) as [outs encoder']. apply keeps_bind; [apply _|by apply keeps_wrap, grows_writePieces|intros _ d].
  pose proof (grows_writePieces d0 file (zstd_Close encoder') Hf d) as Hw. destruct (writePieces _ _ d) as [closed d1]. cbn [snd] in Hw.
  etrans; [exact Hw|]. apply (grows_quiet d0). quiet.
Qed.
Lemma grows_settle d0 file representation : (next_ino d0 <= file)%nat -> keeps (grows d0) (settleEncoded file representation).
Proof.
  intros Hf. unfold settleEncoded. apply keeps_bind; [apply _|by apply keeps_wrap, grows_Sync|intros _]. apply grows_quiet. quiet.
Qed.
Lemma grows_discard d0 name : names d0 !! name = None -> keeps (grows d0) (discard name).
Proof.
  intros Hn d. unfold discard. etrans; [apply (grows_quiet d0 GoFS.Close quiet_Close d)|]. by apply grows_Remove.
Qed.
Lemma grows_provisional d0 file encoded signedBatch manifest descriptor : (next_ino d0 <= file)%nat ->
  keeps (grows d0) (writeProvisional file encoded signedBatch manifest descriptor).
Proof.
  intros Hf. unfold writeProvisional.
  repeat first [ by apply keeps_wrap, grows_header | by apply keeps_wrap, grows_FileWrite | by apply keeps_wrap, grows_Chmod | by apply keeps_wrap, grows_Sync
               | apply grows_quiet, quiet_file_reader | apply keeps_wrap, grows_quiet, quiet_Close | keeps1 ].
Qed.

(** ** Publication of a provisional frame *)

Lemma provisional_synced file encoded signedBatch manifest descriptor d d' :
  writeProvisional file encoded signedBatch manifest descriptor d = (Ok tt, d') ->
  exists nd, inodes d' !! file = Some nd /\ i_synced nd = true.
Proof.
  unfold writeProvisional. intros Hr. apply bind_Ok in Hr as ([] & d1 & _ & Hr). apply bind_Ok in Hr as ([] & d2 & _ & Hr).
  apply bind_Ok in Hr as (r & d3 & _ & Hr). apply bind_Ok in Hr as ([] & d4 & _ & Hr). destruct (_ <? _) in Hr; [done|].
  apply bind_lift_Ok in Hr as ([] & _ & Hr). destruct (negb _) in Hr; [done|]. apply bind_Ok in Hr as ([] & d5 & _ & Hr).
  apply bind_Ok in Hr as ([] & d6 & Hs & Hr). apply wrap_err_Ok in Hr, Hs.
  pose proof (keeps_run _ _ _ _ _ quiet_Close Hr) as [fs ->]. cbn. unfold Sync in Hs. apply syscall_Ok in Hs as [fs' Hs].
  unfold update_inode in Hs. destruct (inodes (set_faults fs' d5) !! file) as [nd|]; [|done]. injection Hs as <-. cbn. rewrite lookup_insert_eq. eauto.
Qed.

(** Writing to a descriptor leaves the entries alone. *)
Lemma provisional_names file encoded signedBatch manifest descriptor d r d' n i :
  writeProvisional file encoded signedBatch manifest descriptor d = (r, d') -> (file <= next_ino d)%nat ->
  names d !! n = Some i -> names d' !! n = Some i.
Proof.
  intros Hr Hf Hn. set (d0 := Dir (names d) (durable d) (inodes d) file (faults d)).
  assert (grown d0 d) as Hg by (by split).
  assert (grown d0 d') as Hg' by (eapply (keeps_run (grows d0)); [apply grows_provisional|exact Hr|exact Hg]; cbn; lia).
  exact (gr_names _ _ Hg' n i Hn).
Qed.

Lemma quiet_validateAttempts attempts : forall e name expected, quiet (validateAttempts attempts e name expected).
Proof.
  induction attempts as [|attempts IH]; intros e name expected d; cbn [validateAttempts]; [reflexivity|].
  pose proof (quiet_validateStaged name expected d) as Hq. destruct (validateStagedOutboundFrame name expected d) as [[v|e'|] d1]; try done.
  destruct (isConcurrentOutboundValidationRetryable e'); [|done]. etrans; [exact Hq|apply IH].
Qed.
Lemma validateAttempts_Ok `{!ZstdLaws} attempts : forall e name expected d sent d',
  validateAttempts attempts e name expected d = (Ok sent, d') -> holds_frame d name sent /\ same_batch (transportsender.Descriptor sent) expected.
Proof.
  induction attempts as [|attempts IH]; intros e name expected d sent d' Hr; cbn [validateAttempts] in Hr; [done|].
  destruct (validateStagedOutboundFrame name expected d) as [[v|e'|] d1] eqn:E; [injection Hr as -> _; by eapply validateStaged_Ok| |done].
  destruct (isConcurrentOutboundValidationRetryable e'); [|done].
  pose proof (keeps_run _ _ _ _ _ (quiet_validateStaged name expected) E) as [fs ->]. apply IH in Hr as [Hh ?]. split; [exact Hh|done].
Qed.

Lemma publishOutbound_Ok source destination d b d' : publishOutboundFrame source destination d = (Ok b, d') ->
  inodes d' = inodes d /\ (if b then exists i, names d !! source = Some i /\ names d' !! destination = Some i /\ durable d' !! destination = Some i
                           else names d' = names d).
Proof.
  unfold publishOutboundFrame, MoveFileExW. destruct (next_fault d) as [f d1] eqn:Ef.
  assert (names d1 = names d /\ inodes d1 = inodes d) as [En Ei] by (unfold next_fault in Ef; by destruct (faults d); injection Ef as <- <-).
  destruct f as [f|e|]; [| |done]. 2:{ by destruct (errors_Is e ErrExist); intros [= <- <-]. }
  rewrite En. destruct (names d !! source) as [i|] eqn:Es; destruct f as [[|k]|]; cbn; try (by intros [= <- <-]).
  all: destruct (names d !! destination); cbn; intros [= <- <-]; cbn; try done.
  split; [done|]. exists i. rewrite !lookup_insert_eq. done.
Qed.

Lemma grows_publish d0 prov final canonical descriptor : names d0 !! prov = None ->
  keeps (grows d0) (publishProvisional prov final canonical descriptor).
Proof.
  intros Hp. unfold publishProvisional, validateConcurrentlyPublishedOutboundFrame.
  apply keeps_bind; [apply _|apply keeps_wrap, grows_quiet, quiet_validateStaged|intros provisionalSent].
  apply keeps_bind; [apply _|apply keeps_wrap|intros published].
  { intros d. pose proof (grows_Move d0 prov final Hp d) as Hm. unfold publishOutboundFrame.
    destruct (MoveFileExW false prov final d) as [[[]|e|] d1]; [done|by destruct (errors_Is e ErrExist)|done]. }
  apply keeps_if; [apply keeps_ret, _|]. apply keeps_bind; [apply _|apply keeps_wrap, grows_quiet, quiet_validateAttempts|intros existingSent].
  apply keeps_bind; [apply _|by apply keeps_wrap, grows_Remove|intros _; apply keeps_ret, _].
Qed.

Lemma holds_frame_names d d' name sent : inodes d' = inodes d -> names d' !! name = names d !! name -> holds_frame d name sent -> holds_frame d' name sent.
Proof. intros Ei En (i & nd & Hn & Hi & Hx). exists i, nd. by rewrite Ei, En. Qed.

Lemma Remove_inodes name d r d' : Remove name d = (r, d') -> inodes d' = inodes d /\ durable d' = durable d /\
  forall n, n <> name -> names d' !! n = names d !! n.
Proof.
  unfold Remove. intros Hr. match type of Hr with syscall ?p _ = _ => destruct (syscall_cases p d) as (fs & [E|E]) end; rewrite E in Hr; clear E.
  { by injection Hr as <- <-. }
  cbn in Hr. destruct (names d !! name) as [j|]; injection Hr as <- <-; [|done]. cbn. split; [done|]. split; [done|]. intros n Hn. by rewrite lookup_delete_ne.
Qed.

(** After publication the final name holds an exact frame of the batch, the one just written or
    the one another preparer published before. *)
Lemma publishProvisional_Ok `{!ZstdLaws} prov final canonical descriptor d disposition sent d' : prov <> final ->
  same_batch descriptor canonical -> publishProvisional prov final canonical descriptor d = (Ok (disposition, sent), d') ->
  inodes d' = inodes d /\ holds_frame d' final sent /\ same_batch (transportsender.Descriptor sent) canonical /\
  (disposition = OutboundFrameDispositionNew -> exists i, names d !! prov = Some i /\ names d' !! final = Some i /\ durable d' !! final = Some i).
Proof.
  intros Hne Hsame Hr. unfold publishProvisional in Hr. apply bind_Ok in Hr as (provisionalSent & d1 & Hv & Hr). apply wrap_err_Ok in Hv.
  pose proof (keeps_run _ _ _ _ _ (quiet_validateStaged _ _) Hv) as [fs ->]. apply validateStaged_Ok in Hv as [Hh Hb].
  apply bind_Ok in Hr as (published & d2 & Hp & Hr). apply wrap_err_Ok, publishOutbound_Ok in Hp as [Ei Hp]. destruct published.
  - injection Hr as <- <- <-. destruct Hp as (i & Hi & Hf & Hd). split; [done|]. split.
    + destruct Hh as (j & nd & Hj & Hnd & Hx). cbn in Hi. assert (j = i) as -> by congruence. exists i, nd. rewrite Ei. done.
    + split; [by etrans|]. intros _. by exists i.
  - apply bind_Ok in Hr as (existingSent & d3 & Hc & Hr). apply wrap_err_Ok in Hc. unfold validateConcurrentlyPublishedOutboundFrame in Hc.
    pose proof (keeps_run _ _ _ _ _ (quiet_validateAttempts _ _ _ _) Hc) as [fs2 ->]. apply validateAttempts_Ok in Hc as [Hh2 Hb2].
    apply bind_Ok in Hr as ([] & d4 & Hrm & Hr). apply wrap_err_Ok, Remove_inodes in Hrm as (Ei2 & _ & En2). injection Hr as <- <- <-.
    split; [by rewrite Ei2|]. split; [|done]. eapply holds_frame_names; [exact Ei2|by apply En2|exact Hh2].
Qed.

(** A name of the final frames; provisional names are none. *)
Definition frame_name (name : bytes) : Prop := HasPrefix name (bs "outbound-") = true.
Lemma temp_not_frame prefix suffix k name : HasPrefix prefix (bs ".fi-") = true -> frame_name name -> temp_name prefix suffix k <> name.
Proof.
  intros [t ->]%HasPrefix_spec [u ->]%HasPrefix_spec E. unfold temp_name in E. discriminate E.
Qed.
Lemma outbound_frame_name sourceID batchID : frame_name (outboundFrameObjectName sourceID batchID).
Proof. apply HasPrefix_spec. eexists. reflexivity. Qed.

(** What a call that returned [(disposition, sent)] left under [final]. *)
Definition staged_frame (final : bytes) (canonical : transportbatch.Descriptor) (disposition : OutboundFrameDisposition)
    (sent : transportsender.SentFrame) (d : dir) : Prop :=
  holds_frame d final sent /\ same_batch (transportsender.Descriptor sent) canonical /\
  (disposition = OutboundFrameDispositionNew -> exists nd, stable d final nd).

Lemma staged_frame_names final canonical disposition sent d d' : inodes d' = inodes d -> durable d' = durable d ->
  names d' !! final = names d !! final -> staged_frame final canonical disposition sent d -> staged_frame final canonical disposition sent d'.
Proof.
  intros Ei Ed En (Hh & Hb & Hs). split; [by eapply holds_frame_names|]. split; [done|]. intros Hn. destruct (Hs Hn) as (nd & j & H3 & H4 & H5 & H6).
  exists nd, j. by rewrite Ei, Ed, En.
Qed.

Lemma discard_names name d r d' : discard name d = (r, d') -> inodes d' = inodes d /\ durable d' = durable d /\
  forall n, n <> name -> names d' !! n = names d !! n.
Proof.
  unfold discard. intros Hr. destruct (GoFS.Close d) as [rc d1] eqn:Ec. pose proof (keeps_run _ _ _ _ _ quiet_Close Ec) as [fs ->].
  by apply Remove_inodes in Hr.
Qed.

Lemma stageFrame_spec `{!ZstdLaws} d0 final manifest encoded signedBatch canonical descriptor d r d' :
  frame_name final -> same_batch descriptor canonical -> grown d0 d ->
  stageFrame final manifest encoded signedBatch canonical descriptor d = (r, d') ->
  grown d0 d' /\ forall disposition sent, r = Ok (disposition, sent) -> staged_frame final canonical disposition sent d'.
Proof.
  intros Hfn Hsame Hg Hr. unfold stageFrame in Hr. unfold bind at 1, wrap_err in Hr.
  destruct (CreateTemp (bs ".fi-outbound-") (bs ".open") d) as [[[prov file]|e|] d1] eqn:Ec; cbn [wrap] in Hr;
    (eapply CreateTemp_grown in Ec as [Hg1 Ht]; [|exact Hg]); [|injection Hr as <- <-; by split..].
  destruct (Ht _ _ eq_refl) as (Hp0 & Hf0 & Hp1 & [k ->] & Hf1). clear Ht. set (prov := temp_name _ _ k) in *.
  assert (prov <> final) as Hne by (by apply temp_not_frame).
  destruct (writeProvisional file encoded signedBatch manifest descriptor d1) as [[[]|e|] d2] eqn:Ew;
    pose proof (keeps_run _ _ _ _ _ (grows_provisional d0 file encoded signedBatch manifest descriptor Hf0) Ew Hg1) as Hg2.
  2,3: injection Hr as <- <-; split; [by apply grows_discard|done].
  assert (names d2 !! prov = Some file) as Hp2 by (eapply provisional_names; [exact Ew|lia|done]).
  apply provisional_synced in Ew as (nd & Hnd & Hsync).
  unfold unless_ok in Hr. destruct (publishProvisional prov final canonical descriptor d2) as [[[disposition sent]|e|] d3] eqn:Ep;
    pose proof (keeps_run _ _ _ _ _ (grows_publish d0 prov final canonical descriptor Hp0) Ep Hg2) as Hg3.
  2,3: injection Hr as <- <-; split; [by apply grows_Remove|done].
  injection Hr as <- <-. split; [done|]. intros ? ? [= <- <-].
  apply publishProvisional_Ok in Ep as (Ei & Hh & Hb & Hn); [|done..]. split; [done|]. split; [done|]. intros Hnew.
  destruct (Hn Hnew) as (j & Hj & Hjn & Hjd). exists nd, j. assert (j = file) as -> by congruence. by rewrite Ei.
Qed.

(** ** Preparation *)

(** The spool is only read, the stage directory grows. *)
Definition prepares (d0 : dir) (s s' : dir * dir) : Prop := grown d0 s.2 -> same_dir s.1 s'.1 /\ grown d0 s'.2.
#[local] Instance prepares_PreOrder d0 : PreOrder (prepares d0).
Proof.
  split; [intros s Hg; split; [reflexivity|done]|]. intros a b c H3 H4 Hg. destruct (H3 Hg) as [? Hg']. destruct (H4 Hg'). split; [by etrans|done].
Qed.
Lemma prepares_fst {A} d0 (p : prog dir A) : quiet p -> keeps (prepares d0) (on_fst p).
Proof. intros Hp [s t] Hg. specialize (Hp s). unfold on_fst. by destruct (p s). Qed.
Lemma prepares_snd {A} d0 (p : prog dir A) : keeps (grows d0) p -> keeps (prepares d0) (on_snd p).
Proof. intros Hp [s t] Hg. specialize (Hp t Hg). unfold on_snd. destruct (p t). split; [cbn; reflexivity|done]. Qed.
Lemma keeps_unless {S A B} (R : S -> S -> Prop) `{!PreOrder R} (p : prog S A) (q : prog S B) :
  keeps R p -> keeps R q -> keeps R (unless_ok p q).
Proof.
  intros Hp Hq s. unfold unless_ok. specialize (Hp s). destruct (p s) as [[a|e|] s1]; cbn; [done|..]; (etrans; [exact Hp|apply Hq]).
Qed.
Lemma keeps_final {S A B} (R : S -> S -> Prop) `{!PreOrder R} (p : prog S A) (q : prog S B) :
  keeps R p -> keeps R q -> keeps R (finally p q).
Proof. intros Hp Hq s. unfold finally. specialize (Hp s). destruct (p s) as [r s1]. cbn. etrans; [exact Hp|apply Hq]. Qed.

Lemma temp_bind {A} d0 msg prefix suffix (k : bytes * nat -> prog (dir * dir) A) :
  (forall name file, names d0 !! name = None -> (next_ino d0 <= file)%nat -> keeps (prepares d0) (k (name, file))) ->
  keeps (prepares d0) (bind (on_snd (wrap_err msg (CreateTemp prefix suffix))) k).
Proof.
  intros Hk [sp st] Hg. unfold bind, on_snd, wrap_err. destruct (CreateTemp prefix suffix st) as [r st1] eqn:Ec.
  eapply CreateTemp_grown in Ec as [Hg1 Ht]; [|exact Hg]. destruct r as [[name file]|e|]; cbn [wrap]; [|by split..].
  destruct (Ht _ _ eq_refl) as (Hn & Hf & _). by apply (Hk name file Hn Hf (sp, st1)).
Qed.

Lemma quiet_openData name : quiet (openOutboundData name).
Proof. unfold openOutboundData. quiet. Qed.

Lemma prepares_create d0 config canonical : keeps (prepares d0) (createOutboundEncodedPayload config canonical).
Proof.
  unfold createOutboundEncodedPayload. repeat apply keeps_if; try apply keeps_throw, _.
  apply keeps_bind; [apply _|apply keeps_lift, _|intros dataName]. apply keeps_bind; [apply _|apply prepares_fst, quiet_openData|intros data].
  apply keeps_final; [apply _| |apply prepares_fst, quiet_Close]. apply temp_bind. intros encodedName encoded Hn Hf.
  apply keeps_unless; [apply _| |by apply prepares_snd, grows_discard].
  apply keeps_bind; [apply _|apply prepares_fst, quiet_file_reader|intros r].
  apply keeps_bind; [apply _|by apply prepares_snd, grows_compress|intros representation].
  apply keeps_bind; [apply _|by apply prepares_snd, grows_settle|intros _; apply keeps_ret, _].
Qed.

Lemma create_Ok d0 config canonical sp st name file representation s' : grown d0 st ->
  createOutboundEncodedPayload config canonical (sp, st) = (Ok (name, file, representation), s') ->
  names d0 !! name = None /\ exists k, name = temp_name (bs ".fi-encoded-") (bs ".open") k.
Proof.
  intros Hg Hr. unfold createOutboundEncodedPayload in Hr. destruct (negb _) in Hr; [done|]. destruct (_ <? _) in Hr; [done|].
  apply bind_lift_Ok in Hr as (dataName & _ & Hr). apply bind_Ok in Hr as (data & [sp1 st1] & Ho & Hr). apply on_fst_Ok in Ho as (? & _ & [= <- ->]).
  unfold finally in Hr. destruct (bind (on_snd _) _ _) as [rr s1] eqn:Eb. injection Hr as -> _.
  apply bind_Ok in Eb as ([n f] & [sp2 st2] & Hc & Eb). apply on_snd_Ok in Hc as (? & Hc & [= -> ->]). apply wrap_err_Ok in Hc.
  eapply CreateTemp_grown in Hc as [_ Ht]; [|exact Hg]. destruct (Ht _ _ eq_refl) as (Hn & _ & _ & Hk & _).
  unfold unless_ok in Eb. destruct (bind (on_fst _) _ _) as [[a|e|] s2] eqn:Ex; [|done..]. injection Eb as -> _.
  apply bind_Ok in Ex as (r & s3 & _ & Ex). apply bind_Ok in Ex as (rep & s4 & _ & Ex). apply bind_Ok in Ex as ([] & s5 & _ & Ex).
  injection Ex as -> -> -> _. done.
Qed.

Lemma descriptorV2_batch canonical representation d : descriptorV2FromCanonical canonical representation = Ok d -> same_batch d canonical.
Proof. unfold descriptorV2FromCanonical. intros Hr. res_inv Hr. by split_and!. Qed.

Lemma prepareNew_spec `{!ZstdLaws} d0 config certificate signer canonical final sp st r sp' st' :
  frame_name final -> grown d0 st ->
  prepareNewOutboundFrameV2 config certificate signer canonical final (sp, st) = (r, (sp', st')) ->
  same_dir sp sp' /\ grown d0 st' /\ forall v, r = Ok v -> FramePath v = filepath_Join (StageDir config) final /\
    staged_frame final canonical (Disposition v) (Sent v) st'.
Proof.
  intros Hfn Hg Hr. unfold prepareNewOutboundFrameV2 in Hr. unfold bind at 1 in Hr. unfold on_fst at 1 in Hr.
  destruct (wrap_err _ (ReadFile _) sp) as [rm sp1] eqn:Em.
  pose proof (keeps_run same_dir _ _ _ _ (keeps_wrap _ _ _ (quiet_ReadFile _)) Em) as Hq1.
  destruct rm as [manifest|e|]; [|injection Hr as <- <- <-; by split_and!..].
  destruct (negb _) in Hr; [injection Hr as <- <- <-; by split_and!|].
  unfold bind at 1 in Hr. destruct (createOutboundEncodedPayload config canonical (sp1, st)) as [rc [sp2 st2]] eqn:Ec.
  destruct (keeps_run _ _ _ _ _ (prepares_create d0 config canonical) Ec Hg) as [Hq2 Hg2]. cbn in Hq2, Hg2.
  assert (same_dir sp sp2) as Hq by (by etrans).
  destruct rc as [[[encodedName encoded] representation]|e|]; [|injection Hr as <- <- <-; by split_and!..].
  apply (create_Ok d0) in Ec as (Hn & k & ->); [|done]. set (encodedName := temp_name _ _ k) in *.
  assert (encodedName <> final) as Hne by (by apply temp_not_frame).
  unfold finally in Hr. destruct (bind (lift _) _ (sp2, st2)) as [rb [sp3 st3]] eqn:Eb.
  unfold on_snd at 1 in Hr. destruct (discard encodedName st3) as [rd st4] eqn:Ed. injection Hr as <- <- <-.
  cut (sp3 = sp2 /\ grown d0 st3 /\ forall v, rb = Ok v -> FramePath v = filepath_Join (StageDir config) final /\
    staged_frame final canonical (Disposition v) (Sent v) st3).
  { intros (-> & Hg3 & Hv). split; [done|]. split; [eapply (keeps_run (grows d0)); [by apply grows_discard|exact Ed|done]|].
    intros v ->. destruct (Hv v eq_refl) as [Hp Hs]. split; [done|]. apply discard_names in Ed as (Ei & Edu & En).
    eapply staged_frame_names; [done..|by apply En|done]. }
  clear Ed. unfold bind at 1, lift in Eb. destruct (descriptorV2FromCanonical canonical representation) as [descriptor|e|] eqn:Edesc;
    [|injection Eb as <- <- <-; by split_and!..]. apply descriptorV2_batch in Edesc.
  unfold bind at 1 in Eb. destruct (wrap _ (transportpackage.NewSignedBatch _ _ _)) as [signedBatch|e|]; [|injection Eb as <- <- <-; by split_and!..].
  unfold bind, on_snd in Eb. destruct (stageFrame final manifest encoded signedBatch canonical descriptor st2) as [rs st5] eqn:Es.
  apply (stageFrame_spec d0) in Es as [Hg5 Hs]; [|done..].
  destruct rs as [[disposition sent]|e|]; injection Eb as <- <- <-; (split; [done|]); (split; [done|]); [|done..].
  intros v [= <-]. cbn. split; [done|]. by apply Hs.
Qed.

Lemma grown_lookup d0 d name nd : wf d0 -> grown d0 d -> lookup_file d0 name = Some nd -> lookup_file d name = Some nd.
Proof.
  intros (_ & _ & W3) [G1 _ G3 _] Hl. unfold lookup_file in *. destruct (names d0 !! name) as [i|] eqn:En; [|done]. cbn in Hl.
  rewrite (G1 _ _ En). cbn. rewrite G3; [done|]. by apply W3; exists nd.
Qed.

Lemma inspectFrame_Ok name d b d' : inspectOutboundFramePath name d = (Ok b, d') -> same_dir d d' /\ (b = false -> names d !! name = None).
Proof.
  unfold inspectOutboundFramePath. destruct (Lstat name d) as [[info|e|] d1] eqn:E; [|destruct (errors_Is e _) eqn:Ee|]; try done;
    pose proof (keeps_run _ _ _ _ _ (quiet_Lstat name) E) as Hq.
  - intros Hr. res_inv Hr. by split.
  - intros [= <- <-]. split; [done|]. intros _. by eapply Lstat_absent.
Qed.
Lemma quiet_inspectFrame name : quiet (inspectOutboundFramePath name).
Proof.
  intros d. unfold inspectOutboundFramePath. pose proof (quiet_Lstat name d) as Hl. destruct (Lstat name d) as [[info|e|] d1]; [|by destruct (errors_Is e _)|done].
  etrans; [exact Hl|]. apply (keeps_if same_dir); [apply keeps_throw, _|]. apply keeps_if; [apply keeps_throw, _|apply keeps_ret, _].
Qed.

Lemma prepare_spec `{!ZstdLaws} config sp st r sp' st' :
  PrepareOutboundFrame env config (sp, st) = (r, (sp', st')) ->
  same_dir sp sp' /\ grown st st' /\ forall v, r = Ok v -> exists canonical,
    describes_batch sp (ManifestPath config) canonical /\ transportbatch.SourceID canonical = ConfigSourceID config /\
    let final := outboundFrameObjectName (transportbatch.SourceID canonical) (transportbatch.BatchID canonical) in
    FramePath v = filepath_Join (StageDir config) final /\ staged_frame final canonical (Disposition v) (Sent v) st'.
Proof.
  intros Hr. unfold PrepareOutboundFrame in Hr. unfold bind at 1, lift in Hr.
  pose proof (grown_refl st) as Hg. assert (same_dir sp sp) as Hq0 by reflexivity.
  destruct (validateOutboundFrameConfig env config) as [[]|e|]; [|injection Hr as <- <- <-; by split_and!..].
  unfold bind at 1, on_fst at 1 in Hr. destruct (wrap_err _ (DescriptorFromPublishedManifest _ _) sp) as [rd sp1] eqn:Ed.
  pose proof (keeps_run same_dir _ _ _ _ (keeps_wrap _ _ _ (quiet_Descriptor _ _)) Ed) as Hq1.
  destruct rd as [canonical|e|]; [|injection Hr as <- <- <-; by split_and!..]. apply wrap_err_Ok, Descriptor_Ok in Ed as (Hd & Hs & _). cbv zeta in Hr.
  set (final := outboundFrameObjectName _ _) in *. assert (frame_name final) as Hfn by apply outbound_frame_name.
  unfold bind at 1, on_snd at 1 in Hr. destruct (inspectOutboundFramePath final st) as [ri st1] eqn:Ei.
  pose proof (keeps_run same_dir _ _ _ _ (quiet_inspectFrame final) Ei) as Hq2. pose proof (grown_same _ _ _ Hq2 Hg) as Hg1.
  destruct ri as [ex|e|]; [|injection Hr as <- <- <-; by split_and!..]. destruct ex.
  - unfold bind at 1, on_snd at 1 in Hr. destruct (wrap_err _ (validateStagedOutboundFrame _ _) st1) as [rv st2] eqn:Ev.
    pose proof (keeps_run same_dir _ _ _ _ (keeps_wrap _ _ _ (quiet_validateStaged _ _)) Ev) as Hq3. pose proof (grown_same _ _ _ Hq3 Hg1) as Hg2.
    destruct rv as [sent|e|]; injection Hr as <- <- <-; (split; [done|]); (split; [done|]); [|done..].
    intros v [= <-]. exists canonical. split; [done|]. split; [done|]. cbn. split; [done|]. apply wrap_err_Ok, validateStaged_Ok in Ev as [Hh Hb].
    destruct Hq3 as [fs ->]. by split_and!.
  - destruct (BatchSigningCertificate config) as [certificate|]; [|injection Hr as <- <- <-; by split_and!].
    destruct (BatchSigner config) as [signer|]; [|injection Hr as <- <- <-; by split_and!].
    apply (prepareNew_spec st) in Hr as (Hq3 & Hg3 & Hv); [|done..]. split; [by etrans|]. split; [done|].
    intros v Hok. exists canonical. split; [done|]. split; [done|]. by apply Hv.
Qed.

(** [C7] Staging. Whatever fails on disk, [PrepareOutboundFrame] leaves the spool as it is and every
    file that was staged before with its name and content. When it succeeds, the frame it names
    is a read-only file holding the complete wire frame (header, manifest, payload, signature
    verified under the certificate that travels with it) of the batch published in the spool:
    same batch ID, same manifest digest, same data digest and size. A frame it created is on
    disk before it returns. *)
Theorem PrepareOutboundFrame_stages `{!ZstdLaws} config sp st r sp' st' :
  wf st -> PrepareOutboundFrame env config (sp, st) = (r, (sp', st')) ->
  same_dir sp sp' /\ (forall name nd, lookup_file st name = Some nd -> lookup_file st' name = Some nd) /\
  forall v, r = Ok v -> exists canonical,
    describes_batch sp (ManifestPath config) canonical /\ transportbatch.SourceID canonical = ConfigSourceID config /\
    let final := outboundFrameObjectName (transportbatch.SourceID canonical) (transportbatch.BatchID canonical) in
    FramePath v = filepath_Join (StageDir config) final /\ staged_frame final canonical (Disposition v) (Sent v) st'.
Proof.
  intros Hw Hr. apply prepare_spec in Hr as (Hq & Hg & Hv). split; [done|]. split; [|done]. intros name nd. by apply grown_lookup.
Qed.

End Frames.
End batchstage.
