(* ===== verification/BatchRetire.v ===== *)
(** * Sending and retiring single batches

    What the transport transaction and the cleanup of [batchsender] may remove, under every
    schedule of faults and whatever arrives on the connection: the staged frame survives the
    transaction, the files of a published batch go only after the exact frame was sent and a
    durable acknowledgement of it was read, and the frame goes last. *)

From stdpp Require Import gmap.
From S2P Require Import Prelude GoBytes GoStrings Sha256 GoText GoIO GoFS GoDir GoPublish GoTree GoCalls GoWin Pki TransportEncoding TransportBatch TransportTrust TransportPackage TransportWire TransportAck TransportReceiver TransportGeneration GenerationCanonical GenerationProtocol GenerationRecorder GenerationPublished GenerationSender SpoolWriter SpoolSafety SpoolRecovery BatchSender BatchStage.

Module batchretire.
Import spool spoolwriter batchsender batchstage.

Lemma same_dir_set fs d : same_dir d (set_faults fs d).
Proof. by exists fs. Qed.
#[local] Hint Resolve same_dir_set : core.

Section Retire.
Context `{Unicode} `{JSON Manifest} `{X509} `{Zstd} (env : StageEnv).

(** ** Retirement *)

(** If [name] is there, it is a regular file with such a content. *)
Definition verified (d : dir) (name : bytes) (P : bytes -> Prop) : Prop :=
  forall i, names d !! name = Some i -> exists nd, inodes d !! i = Some nd /\ i_kind nd = Regular /\ P (i_data nd).

(** The spool loses nothing, or the two files of one batch, the manifest first, and what was
    there of them is what [descriptor] describes. *)
Definition retires (manifestName dataName : bytes) (descriptor : transportbatch.Descriptor) (d d' : dir) : Prop :=
  inodes d' = inodes d /\ durable d' = durable d /\ next_ino d' = next_ino d /\
  (names d' = names d \/
   (verified d manifestName (fun text => sha256_hex text = transportbatch.ManifestSHA256 descriptor) /\
    verified d dataName (fun data => u64 (len data) = transportbatch.DataBytes descriptor /\ sha256_hex data = transportbatch.DataSHA256 descriptor) /\
    (names d' = delete manifestName (names d) \/ names d' = delete dataName (delete manifestName (names d))))).

Lemma quiet_hashRetirementFile name info : quiet (hashRetirementFile name info).
Proof. unfold hashRetirementFile. quiet. Qed.

Lemma hashRetirementFile_Ok name i nd d digest n d' :
  hashRetirementFile name (info_of i nd) d = (Ok (digest, n), d') -> names d !! name = Some i -> inodes d !! i = Some nd ->
  digest = sha256_hex (i_data nd) /\ n = u64 (len (i_data nd)).
Proof.
  unfold hashRetirementFile. intros Hr Hn Hi. apply bind_Ok in Hr as (file & d1 & Ho & Hr). apply Open_Ok in Ho as ([fs1 ->] & Ho).
  assert (file = i) as -> by congruence. unfold defer_close in Hr. destruct (bind (Fstat i) _ _) as [rr d2] eqn:Hb. injection Hr as -> _.
  apply bind_Ok in Hb as (o & d3 & Hf & Hb). apply Fstat_Ok in Hf as ([fs3 ->] & _).
  destruct (negb _) in Hb; [done|]. destruct (negb _) in Hb; [done|].
  apply bind_Ok in Hb as (r & d4 & Hfr & Hb). apply bind_lift_Ok in Hb as (content & Ha & Hb).
  destruct (ReadAll_file _ _ _ _ _ Hfr Ha) as (nd' & Hi' & <-). cbn in Hi'. assert (nd' = nd) as -> by congruence.
  res_inv Hb. done.
Qed.

Lemma inspectRetirementFile_Ok name d state d' : inspectRetirementFile name d = (Ok state, d') -> same_dir d d' /\
  match state with
  | None => names d !! name = None
  | Some info => exists i nd, names d !! name = Some i /\ inodes d !! i = Some nd /\ info = info_of i nd /\ i_kind nd = Regular
  end.
Proof.
  unfold inspectRetirementFile. destruct (Lstat name d) as [[info|e|] d1] eqn:E; [|destruct (errors_Is e _) eqn:Ee|]; try done.
  - case_bool_decide as Hk; [|done]. intros [= <- <-]. apply Lstat_Ok in E as ([fs ->] & i & nd & Hn & Hi & ->). split; [auto|]. by exists i, nd.
  - intros [= <- <-]. split; [eapply (keeps_run same_dir); [apply quiet_Lstat|exact E]|by eapply Lstat_absent].
Qed.

Lemma quiet_inspectRetirement m dn ack : quiet (inspectRetirement m dn ack).
Proof.
  assert (forall name, quiet (inspectRetirementFile name)) as Hq.
  { intros name d. unfold inspectRetirementFile. pose proof (quiet_Lstat name d) as Hl. destruct (Lstat name d) as [[info|e|] d1];
      [by case_bool_decide|by destruct (errors_Is e _)|done]. }
  unfold inspectRetirement, verifyRetirementManifest, verifyRetirementData.
  repeat first [apply Hq | progress quiet | apply quiet_hashRetirementFile].
Qed.

(** Nothing is removed before every file that is there was found to be the acknowledged one. *)
Lemma inspectRetirement_Ok m dn ack d ms ds d' : inspectRetirement m dn ack d = (Ok (ms, ds), d') ->
  same_dir d d' /\ (ms = None <-> names d !! m = None) /\ (ds = None <-> names d !! dn = None) /\
  verified d m (fun text => sha256_hex text = transportack.ManifestSHA256 ack) /\
  verified d dn (fun data => u64 (len data) = transportack.DataBytes ack /\ sha256_hex data = transportack.DataSHA256 ack).
Proof.
  intros Hr. pose proof (keeps_run _ _ _ _ _ (quiet_inspectRetirement m dn ack) Hr) as Hq. split; [exact Hq|]. clear Hq.
  unfold inspectRetirement in Hr.
  apply bind_Ok in Hr as (ms' & d1 & Hm & Hr). apply inspectRetirementFile_Ok in Hm as [[fs1 ->] Hm].
  apply bind_Ok in Hr as (ds' & d2 & Hd & Hr). apply inspectRetirementFile_Ok in Hd as [[fs2 ->] Hd]. cbn in Hd.
  apply bind_Ok in Hr as ([] & d3 & Hvm & Hr). apply bind_Ok in Hr as ([] & d4 & Hvd & Hr). injection Hr as -> -> _.
  assert (same_dir (set_faults fs2 (set_faults fs1 d)) d3) as [fs3 ->].
  { eapply (keeps_run same_dir); [|exact Hvm]. destruct ms; [|quiet]. unfold verifyRetirementManifest, hashRetirementFile. quiet. }
  split; [destruct ms; [destruct Hm as (i & nd & Hn & _); rewrite Hn|]; naive_solver|].
  split; [destruct ds; [destruct Hd as (i & nd & Hn & _); rewrite Hn|]; naive_solver|]. split.
  - intros i Hi. destruct ms as [info|]; [|congruence]. destruct Hm as (j & nd & Hn & Hnd & -> & Hk). assert (j = i) as -> by congruence.
    exists nd. split; [done|]. split; [done|]. unfold verifyRetirementManifest in Hvm.
    apply bind_Ok in Hvm as ([digest n] & d5 & Hh & Hvm). apply wrap_err_Ok, (hashRetirementFile_Ok _ i nd) in Hh as [-> ->]; [|done..].
    destruct (_ =? 0) in Hvm; [done|]. by case_bool_decide.
  - intros i Hi. destruct ds as [info|]; [|congruence]. destruct Hd as (j & nd & Hn & Hnd & -> & Hk). assert (j = i) as -> by congruence.
    exists nd. split; [done|]. split; [done|]. unfold verifyRetirementData in Hvd.
    apply bind_Ok in Hvd as ([digest n] & d5 & Hh & Hvd). apply wrap_err_Ok, (hashRetirementFile_Ok _ i nd) in Hh as [-> ->]; [|done..].
    destruct (negb (_ =? _)) eqn:Hl in Hvd; [done|]. apply negb_false_iff in Hl. case_bool_decide; [|done]. split; [lia|done].
Qed.

Lemma removeIf_cases state name d r d' : removeIf state name d = (r, d') -> (state = None <-> names d !! name = None) ->
  inodes d' = inodes d /\ durable d' = durable d /\ next_ino d' = next_ino d /\
  (names d' = delete name (names d) \/ (names d' = names d /\ r <> Ok tt)).
Proof.
  intros Hr Hs. destruct state as [info|].
  - cbn in Hr. unfold Remove in Hr.
    destruct (syscall_cases (fun d => match names d !! name with None => (Err ErrNotExist, d) | Some _ => (Ok tt, set_names (delete name (names d)) d) end) d)
      as (fs & [E|E]); rewrite E in Hr; [injection Hr as <- <-; cbn; split_and!; try done; by right|]. cbn in Hr.
    destruct (names d !! name) eqn:En; [|by specialize (proj2 Hs eq_refl)]. injection Hr as <- <-. cbn. auto.
  - injection Hr as <- <-. rewrite delete_id by (by apply Hs). auto.
Qed.

Lemma RetirePublishedBatch_spec manifestPath auth ack d result err d' :
  transportsender.RetirementAuthorization_Acknowledgement auth = Ok ack ->
  RetirePublishedBatch manifestPath auth d = ((result, err), d') ->
  let m := siblingOf manifestPath (manifestFileName (transportack.BatchID ack)) in
  let dn := siblingOf manifestPath (dataFileName (transportack.BatchID ack)) in
  inodes d' = inodes d /\ durable d' = durable d /\ next_ino d' = next_ino d /\
  (err = Ok tt -> names d' = delete dn (delete m (names d))) /\
  (names d' = names d \/
   (verified d m (fun text => sha256_hex text = transportack.ManifestSHA256 ack) /\
    verified d dn (fun data => u64 (len data) = transportack.DataBytes ack /\ sha256_hex data = transportack.DataSHA256 ack) /\
    (names d' = delete m (names d) \/ names d' = delete dn (delete m (names d))))).
Proof.
  intros Ha Hr m dn. unfold RetirePublishedBatch in Hr. rewrite Ha in Hr. cbn [wrap] in Hr.
  apply stage_inv in Hr as [(? & [= <-] & Hr)|(_ & -> & ?)]; [|split_and!; try done; by left].
  apply stage_inv in Hr as [(dataPath & Hp & Hr)|(_ & -> & ?)]; [|split_and!; try done; by left]. fold m dn in Hr.
  destruct (inspectRetirement m dn ack d) as [[[ms ds]|e|] d1] eqn:Ei; cbn [stage] in Hr;
    [|injection Hr as _ <- <-; pose proof (keeps_run _ _ _ _ _ (quiet_inspectRetirement m dn ack) Ei) as [fs ->]; cbn; split_and!; try done; by left..].
  apply inspectRetirement_Ok in Ei as ([fs ->] & Hms & Hds & Hvm & Hvd).
  destruct (removeIf ms m _) as [r1 d2] eqn:E1. apply removeIf_cases in E1 as (I1 & D1 & X1 & N1); [|done]. cbn in I1, D1, X1, N1.
  apply stage_inv in Hr as [([] & Hr1 & Hr)|(_ & -> & He)].
  2:{ rewrite I1, D1, X1. split_and!; try done. destruct N1 as [->|[-> _]]; auto 10. }
  apply wrap_Ok in Hr1. subst r1. destruct N1 as [N1|[_ ?]]; [|done].
  destruct (removeIf ds dn d2) as [r2 d3] eqn:E2.
  assert (m <> dn) as Hne.
  { unfold m, dn, siblingOf, in_dir, manifestFileName, dataFileName. intros E. apply app_inv_head in E. apply app_inv_head in E.
    rewrite !app_assoc in E. apply (f_equal reverse) in E. rewrite !reverse_app in E. discriminate E. }
  apply removeIf_cases in E2 as (I2 & D2 & X2 & N2); [|by rewrite N1, lookup_delete_ne].
  rewrite I1 in I2. rewrite D1 in D2. rewrite X1 in X2. rewrite N1 in N2.
  apply stage_inv in Hr as [([] & Hr2 & Hr)|(_ & -> & He)].
  2:{ rewrite I2, D2, X2. split_and!; try done. destruct N2 as [->|[-> _]]; auto 10. }
  apply wrap_Ok in Hr2. subst r2. destruct N2 as [N2|[_ ?]]; [|done]. injection Hr as _ <- <-.
  rewrite I2, D2, X2, N2. split_and!; try done. auto.
Qed.

(** ** Sending *)

Lemma sendFrame_Ok {W} `{WriterLaws W} fuel : forall data (w w' : W),
  sendFrame fuel data w = (Ok tt, w') -> written w' = written w ++ data.
Proof.
  induction fuel as [|fuel IH]; intros [|b data] w w' Hs; cbn [sendFrame] in Hs.
  1,3: injection Hs as <-; by rewrite app_nil_r.
  - done.
  - apply bind_Ok in Hs as ([] & w1 & Hm & Hs). apply IH in Hs. unfold multiWrite in Hm.
    destruct (GoIO.Write _ w) as [[n [e|]] w2] eqn:Ew; [done|]. destruct (n =? _) eqn:En; [|done]. injection Hm as <-.
    apply Write_prefix in Ew as (x & y & Hxy & Hw & Hn). specialize (Hn eq_refl).
    assert (y = []) as ->.
    { apply (f_equal len) in Hxy. rewrite len_app in Hxy. destruct y; [done|]. rewrite len_cons in Hxy. pose proof (len_nonneg y). lia. }
    rewrite app_nil_r in Hxy. by rewrite Hs, Hw, <- Hxy, <- app_assoc, take_drop.
Qed.

Lemma sendPrepared_quiet {W} `{GoIO.Writer W} outbound : keeps (@beside W dir same_dir) (sendPreparedOutboundFrame outbound).
Proof.
  unfold sendPreparedOutboundFrame. repeat first [keeps1 | apply keeps_final; [apply _| |]].
Qed.

Lemma sendPrepared_Ok {W} `{WriterLaws W} outbound (w : W) st w' st' :
  sendPreparedOutboundFrame outbound (w, st) = (Ok tt, (w', st')) ->
  exists nd, lookup_file st (frameName outbound) = Some nd /\ written w' = written w ++ i_data nd /\
    sha256_hex (i_data nd) = transportsender.FrameSHA256 (Sent outbound).
Proof.
  unfold sendPreparedOutboundFrame. intros Hs.
  apply bind_Ok in Hs as (info & [w1 d1] & Hl & Hs). apply on_snd_Ok in Hl as (? & Hl & [= <- <-]). apply wrap_err_Ok in Hl.
  apply Lstat_Ok in Hl as ([fs1 ->] & i & nd & Hn & Hi & ->).
  do 4 (destruct (_ : bool) in Hs; [done|]).
  apply bind_Ok in Hs as (file & [w2 d2] & Ho & Hs). apply on_snd_Ok in Ho as (? & Ho & [= <- <-]). apply wrap_err_Ok in Ho.
  apply Open_Ok in Ho as ([fs2 ->] & Ho). cbn in Ho. assert (file = i) as -> by congruence.
  unfold finally in Hs. destruct (bind (on_snd _) _ _) as [rr [w3 d3]] eqn:Hb. cbn in Hs. destruct (GoFS.Close d3) as [rc d4]. injection Hs as -> <- _.
  apply bind_Ok in Hb as (o & [w4 d5] & Hf & Hb). apply on_snd_Ok in Hf as (? & Hf & [= <- <-]). apply wrap_err_Ok in Hf.
  apply Fstat_Ok in Hf as ([fs3 ->] & _). destruct (negb (SameFile _ _)) in Hb; [done|].
  apply bind_Ok in Hb as (r & [w5 d6] & Hr & Hb). apply on_snd_Ok in Hr as (? & Hr & [= <- <-]).
  apply file_reader_Ok in Hr as ([fs4 ->] & nd' & Hi' & Hr). cbn in Hi'. assert (nd' = nd) as -> by congruence.
  apply bind_Ok in Hb as ([] & [w6 d7] & Hx & Hb). apply wrap_err_Ok in Hx. apply on_fst_Ok in Hx as (? & Hx & [= <- ->]). apply sendFrame_Ok in Hx.
  destruct (_ <? _) in Hb; [done|]. destruct (bool_decide (drop _ _ = [])) eqn:Hd in Hb; cbn [negb] in Hb; [|done]; apply bool_decide_eq_true in Hd.
  destruct (errors_Is _ _) eqn:Heof in Hb; cbn [negb] in Hb; [|done]. specialize (Hr Heof). subst r. cbn [rd_data] in *.
  assert (take (Z.to_nat (transportsender.FrameBytes (Sent outbound))) (i_data nd) = i_data nd) as Ht.
  { rewrite <- (take_drop (Z.to_nat (transportsender.FrameBytes (Sent outbound))) (i_data nd)) at 2. by rewrite Hd, app_nil_r. }
  rewrite Ht in *.
  apply bind_Ok in Hb as (o2 & [w8 d8] & Hf & Hb). apply on_snd_Ok in Hf as (? & Hf & [= <- <-]). destruct (_ || _) in Hb; [done|].
  apply bind_Ok in Hb as (o3 & [w9 d9] & Hf' & Hb). apply on_snd_Ok in Hf' as (? & Hf' & [= <- <-]).
  destruct (negb _) in Hb; [done|]. destruct (writable _) in Hb; [done|]. case_bool_decide as Hsha; [|done]. injection Hb as -> _.
  exists nd. split_and!; try done. unfold lookup_file. by rewrite Hn.
Qed.

Lemma quiet_validateTransaction outbound manifestPath : quiet (validateTransportTransaction env outbound manifestPath).
Proof. unfold validateTransportTransaction. repeat first [apply quiet_validateStaged | keeps1]. Qed.

Lemma validateTransaction_Ok `{!ZstdLaws} outbound manifestPath d d' :
  validateTransportTransaction env outbound manifestPath d = (Ok tt, d') -> holds_frame d (frameName outbound) (Sent outbound).
Proof.
  unfold validateTransportTransaction. intros Hv. apply bind_lift_Ok in Hv as (_ & _ & Hv). do 4 (destruct (_ : bool) in Hv; [done|]).
  apply bind_lift_Ok in Hv as (_ & _ & Hv). apply bind_lift_Ok in Hv as (_ & _ & Hv).
  apply bind_Ok in Hv as (current & d1 & Hc & Hv). apply wrap_err_Ok in Hc. apply validateStaged_Ok in Hc as [Hh _].
  case_bool_decide as Hx; [|done]. by subst.
Qed.

Lemma transported_Ok_iff {A} retryable msg (r : res A) a : gensender.transported retryable msg r = Ok a <-> r = Ok a.
Proof. destruct r; cbn; [done|split; [by destruct (retryable e)|done]..|done]. Qed.

(** The names of the two spool files of the batch of an outbound frame. *)
Definition manifestOf (outbound : OutboundFrame) (manifestPath : bytes) : bytes :=
  siblingOf manifestPath (manifestFileName (transportbatch.BatchID (transportsender.Descriptor (Sent outbound)))).
Definition dataOf (outbound : OutboundFrame) (manifestPath : bytes) : bytes :=
  siblingOf manifestPath (dataFileName (transportbatch.BatchID (transportsender.Descriptor (Sent outbound)))).

(** The exact frame was written to the connection, and what came back on it is a durable
    acknowledgement of that frame. *)
Definition delivered {W} `{WriterLaws W} (outbound : OutboundFrame) (staged : dir) (w w' : W) (r r' : reader) : Prop :=
  exists nd outcome, lookup_file staged (frameName outbound) = Some nd /\
    exact_frame (transportsender.Descriptor (Sent outbound)) (i_data nd) /\
    len (i_data nd) = transportsender.FrameBytes (Sent outbound) /\ sha256_hex (i_data nd) = transportsender.FrameSHA256 (Sent outbound) /\
    written w' = written w ++ i_data nd /\
    (outcome = transportack.OutcomeDurableNew \/ outcome = transportack.OutcomeDurableDuplicate) /\
    transportack.ReadAcknowledgement r = (Ok (transportsender.ack_for outcome (Sent outbound)), r').

Lemma ReadDurable_Ok sent r auth r' : transportsender.VerifyDurableAcknowledgement sent r = (Ok auth, r') ->
  exists outcome, (outcome = transportack.OutcomeDurableNew \/ outcome = transportack.OutcomeDurableDuplicate) /\
    transportack.ReadAcknowledgement r = (Ok (transportsender.ack_for outcome sent), r') /\
    transportsender.RetirementAuthorization_Acknowledgement auth = Ok (transportsender.ack_for outcome sent).
Proof.
  intros Hv. unfold transportsender.VerifyDurableAcknowledgement in Hv. apply bind_lift_Ok in Hv as ([] & _ & Hv).
  apply bind_Ok in Hv as (ack & r1 & Hr & Hv). apply wrap_err_Ok in Hr. apply bind_lift_Ok in Hv as ([] & Hm & Hv). injection Hv as <- <-.
  pose proof (transportack.ReadAcknowledgement_Ok _ _ _ Hr) as [Hva _]. pose proof Hva as (Hver & Ho & _).
  apply transportsender.matches_ack_for in Hm; [|done]. exists (transportack.Outcome ack). rewrite <- Hm. split; [tauto|]. split; [done|].
  unfold transportsender.RetirementAuthorization_Acknowledgement, transportsender.RetirementAuthorization_validate. cbn.
  by rewrite (proj2 (transportack.Ack_Validate_Ok _) Hva).
Qed.

Lemma transaction_spec `{!ZstdLaws} {W} `{WriterLaws W} outbound manifestPath r (w : W) sp st result err r' w' sp' st' :
  SendAndRetirePreparedFrame env outbound manifestPath (r, w, sp, st) = ((result, err), (r', w', sp', st')) ->
  same_dir st st' /\
  ((delivered outbound st w w' r r' /\ retires (manifestOf outbound manifestPath) (dataOf outbound manifestPath)
                                        (transportsender.Descriptor (Sent outbound)) sp sp' /\
    (err = Ok tt -> names sp' !! manifestOf outbound manifestPath = None /\ names sp' !! dataOf outbound manifestPath = None)) \/
   (sp' = sp /\ err <> Ok tt)).
Proof.
  intros Hr. unfold SendAndRetirePreparedFrame in Hr.
  destruct (validateTransportTransaction env outbound manifestPath st) as [valid st1] eqn:Ev.
  pose proof (keeps_run _ _ _ _ _ (quiet_validateTransaction outbound manifestPath) Ev) as Hq1.
  apply stage_inv in Hr as [([] & -> & Hr)|(_ & [= -> -> -> ->] & ?)]; [|by auto]. apply validateTransaction_Ok in Ev.
  destruct (sendPreparedOutboundFrame outbound (w, st1)) as [sent [w1 st2]] eqn:Es.
  pose proof (keeps_run _ _ _ _ _ (sendPrepared_quiet outbound) Es) as Hq2. unfold beside in Hq2. cbn in Hq2.
  assert (same_dir st st2) as Hq by (by etrans).
  apply stage_inv in Hr as [([] & Hs & Hr)|(_ & [= -> -> -> ->] & ?)]; [|by auto]. apply transported_Ok_iff in Hs. subst sent.
  apply sendPrepared_Ok in Es as (nd & Hnd & Hw & Hsha).
  destruct (transportsender.VerifyDurableAcknowledgement (Sent outbound) r) as [auth r1] eqn:Ea.
  apply stage_inv in Hr as [(a & Hs & Hr)|(_ & [= -> -> -> ->] & ?)]; [|by auto]. apply transported_Ok_iff in Hs. subst auth.
  apply ReadDurable_Ok in Ea as (outcome & Ho & Hread & Hauth).
  destruct (RetirePublishedBatch manifestPath a sp) as [[retirement retired] sp1] eqn:Er. injection Hr as _ <- <- <- <- <-.
  apply (RetirePublishedBatch_spec _ _ _ _ _ _ _ Hauth) in Er as (I1 & D1 & X1 & Hok & Hn).
  cbn [transportsender.ack_for transportack.BatchID transportack.ManifestSHA256 transportack.DataBytes transportack.DataSHA256] in Hok, Hn.
  fold (manifestOf outbound manifestPath) (dataOf outbound manifestPath) in Hok, Hn. split; [done|]. left.
  destruct Hq1 as [fs1 ->]. destruct Ev as (i & nd' & Hi & Hnd' & _ & _ & Hex & _ & Hlen & _).
  assert (nd' = nd) as -> by (unfold lookup_file in Hnd; cbn in Hnd; rewrite Hi in Hnd; cbn in Hnd; congruence).
  split; [by exists nd, outcome|]. split; [done|]. intros He. apply wrap_Ok in He. rewrite Hok by done.
  rewrite !lookup_delete_None. auto.
Qed.

(** [C6] The spool gives up nothing the receiver does not hold. Whatever arrives on the connection
    and whatever fails on disk, one [SendAndRetirePreparedFrame] leaves the staged frame as it
    is, and the spool too unless the exact staged frame was written to the connection and a
    durable acknowledgement naming that frame, its digests and sizes was read back. Then only
    the two files of that batch may go, the manifest before the data, after both were found to
    be what was acknowledged; on success both are gone. *)
Theorem SendAndRetirePreparedFrame_safe `{!ZstdLaws} {W} `{WriterLaws W} outbound manifestPath r (w : W) sp st result err r' w' sp' st' :
  SendAndRetirePreparedFrame env outbound manifestPath (r, w, sp, st) = ((result, err), (r', w', sp', st')) ->
  same_dir st st' /\
  ((delivered outbound st w w' r r' /\ retires (manifestOf outbound manifestPath) (dataOf outbound manifestPath)
                                        (transportsender.Descriptor (Sent outbound)) sp sp' /\
    (err = Ok tt -> names sp' !! manifestOf outbound manifestPath = None /\ names sp' !! dataOf outbound manifestPath = None)) \/
   (sp' = sp /\ err <> Ok tt)).
Proof. apply transaction_spec. Qed.

(** ** Cleanup *)

Lemma requireAbsent_Ok name d d' : requireAbsent name d = (Ok tt, d') -> same_dir d d' /\ names d !! name = None.
Proof.
  unfold requireAbsent. destruct (Lstat name d) as [[info|e|] d1] eqn:E; try done. destruct (errors_Is e _) eqn:Ee; [|done].
  intros [= <-]. split; [eapply (keeps_run same_dir); [apply quiet_Lstat|exact E]|by eapply Lstat_absent].
Qed.

Lemma quiet_requireAbsent name : quiet (requireAbsent name).
Proof.
  intros d. unfold requireAbsent. pose proof (quiet_Lstat name d) as Hl.
  destruct (Lstat name d) as [[info|e|] d1]; [done|by destruct (errors_Is e _)|done].
Qed.

(** Both halves of the state as they were, up to the schedule. *)
Definition same_dirs (s s' : dir * dir) : Prop := same_dir s.1 s'.1 /\ same_dir s.2 s'.2.
#[local] Instance same_dirs_PreOrder : PreOrder same_dirs.
Proof. split; [intros s; split; reflexivity|]. intros a b c [? ?] [? ?]. split; by etrans. Qed.
Lemma same_on_fst {A} (p : prog dir A) : quiet p -> keeps same_dirs (on_fst p).
Proof. intros Hp [s t]. specialize (Hp s). unfold on_fst. destruct (p s). by split. Qed.
Lemma same_on_snd {A} (p : prog dir A) : quiet p -> keeps same_dirs (on_snd p).
Proof. intros Hp [s t]. specialize (Hp t). unfold on_snd. destruct (p t). by split. Qed.

Lemma same_approveCleanup outbound manifestPath auth : keeps same_dirs (approveCleanup env outbound manifestPath auth).
Proof.
  assert (forall name (f g : FileInfo -> prog dir (option FileInfo)) h, (forall x, quiet (f x)) ->
    quiet (fun d => match Lstat name d with
                    | (Err e, d) => if errors_Is e ErrNotExist then (Ok None, d) else (Err (h e), d)
                    | (Panic, d) => (Panic, d)
                    | (Ok info, d) => f info d
                    end)) as Hq.
  { intros name f g h Hf d. pose proof (quiet_Lstat name d) as Hl. destruct (Lstat name d) as [[info|e|] d1]; [|by destruct (errors_Is e _)|done].
    etrans; [exact Hl|apply Hf]. }
  unfold approveCleanup, inspectOutboundCleanupFrame, requireRetiredSourceArtifacts.
  repeat first [ apply same_on_fst; repeat first [apply quiet_requireAbsent | keeps1]
               | apply same_on_snd; first [apply (Hq _ _ (fun _ => ret None)); intros; quiet | apply keeps_wrap, quiet_validateStaged]
               | keeps1 ].
Qed.

Lemma approveCleanup_Ok `{!ZstdLaws} outbound manifestPath auth sp st b sp' st' :
  approveCleanup env outbound manifestPath auth (sp, st) = (Ok b, (sp', st')) ->
  (exists outcome, transportsender.RetirementAuthorization_Acknowledgement auth = Ok (transportsender.ack_for outcome (Sent outbound))) /\
  names sp !! manifestOf outbound manifestPath = None /\ names sp !! dataOf outbound manifestPath = None /\
  (if b then holds_frame st (frameName outbound) (Sent outbound) else names st !! frameName outbound = None).
Proof.
  unfold approveCleanup. intros Ha. apply bind_lift_Ok in Ha as ([] & _ & Ha). apply bind_lift_Ok in Ha as (ack & Hack & Ha). apply wrap_Ok in Hack.
  apply bind_lift_Ok in Ha as ([] & Hm & Ha). apply wrap_Ok in Hm. apply bind_lift_Ok in Ha as (dp & _ & Ha). cbv zeta in Ha.
  fold (manifestOf outbound manifestPath) (dataOf outbound manifestPath) in Ha.
  split.
  { exists (transportack.Outcome ack). rewrite Hack. f_equal. apply transportsender.matches_ack_for; [|done].
    unfold transportsender.RetirementAuthorization_Acknowledgement, transportsender.RetirementAuthorization_validate in Hack. res_inv Hack.
    match goal with Hv : transportack.Validate _ = Ok ?u |- _ => destruct u; apply transportack.Ack_Validate_Ok in Hv as [Hv _]; exact Hv end. }
  apply bind_Ok in Ha as ([] & [sp1 st1] & Hr & Ha). apply on_fst_Ok in Hr as (? & Hr & [= <- ->]).
  unfold requireRetiredSourceArtifacts in Hr. apply bind_Ok in Hr as ([] & sp2 & Hr1 & Hr2).
  apply requireAbsent_Ok in Hr1 as [[fs1 ->] Hn1], Hr2 as [[fs2 ->] Hn2]. split; [done|]. split; [done|].
  apply bind_Ok in Ha as (initial & [sp3 st3] & Hi & Ha). apply on_snd_Ok in Hi as (st4 & Hi & [= -> ->]).
  unfold inspectOutboundCleanupFrame in Hi. destruct (Lstat (frameName outbound) st) as [[info|e|] st5] eqn:El; [|destruct (errors_Is e _) eqn:Ee|]; try done.
  2:{ injection Hi as <- <-. injection Ha as <- _ _. by eapply Lstat_absent. }
  res_inv Hi. apply Lstat_Ok in El as ([fs3 ->] & _).
  apply bind_Ok in Ha as (current & [sp6 st6] & Hc & Ha). apply on_snd_Ok in Hc as (st7 & Hc & [= -> ->]). apply wrap_err_Ok in Hc.
  pose proof (keeps_run _ _ _ _ _ (quiet_validateStaged _ _) Hc) as [fs4 ->]. apply validateStaged_Ok in Hc as [Hh _].
  case_bool_decide as Hx; cbn [negb] in Ha; [|done]. subst current.
  apply bind_Ok in Ha as (after & [sp8 st8] & Hl & Ha). apply on_snd_Ok in Hl as (st9 & Hl & [= -> ->]).
  destruct (Lstat (frameName outbound) _) as [[info'|e|] st10] eqn:El2 in Hl; [|destruct (errors_Is e _) eqn:Ee in Hl|]; try done.
  - injection Hl as <- <-. destruct (negb _) in Ha; [done|]. destruct (_ || _) in Ha; [done|].
    apply bind_Ok in Ha as ([] & [sp11 st11] & _ & Ha). injection Ha as <- _ _. exact Hh.
  - injection Hl as <- <-. injection Ha as <- _ _. by apply Lstat_absent in El2.
Qed.

(** Only [name] may differ: its entry may be gone, its file may have other permissions. *)
Definition only_frame (name : bytes) (d d' : dir) : Prop :=
  durable d' = durable d /\ next_ino d' = next_ino d /\ (names d' = names d \/ names d' = delete name (names d)) /\
  (forall i, names d !! name <> Some i -> inodes d' !! i = inodes d !! i) /\
  (forall i nd, inodes d !! i = Some nd -> exists nd', inodes d' !! i = Some nd' /\ i_data nd' = i_data nd /\ i_kind nd' = i_kind nd).

#[local] Instance only_frame_Reflexive name : Reflexive (only_frame name).
Proof. intros d. split_and!; eauto. Qed.

Lemma ChmodPath_only name perm d r d' : ChmodPath name perm d = (r, d') ->
  only_frame name d d' /\ names d' = names d /\ (forall e, r = Err e -> errors_Is e ErrNotExist = true -> names d !! name = None).
Proof.
  unfold ChmodPath. destruct (syscall_cases (fun d => match names d !! name with
    | None => (Err ErrNotExist, d)
    | Some i => update_inode i (fun nd => Inode (i_kind nd) perm (i_data nd) false) d end) d) as (fs & [-> | ->]).
  - intros [= <- <-]. split; [by split_and!; eauto|]. split; [done|]. by intros e [= <-].
  - cbn. destruct (names d !! name) as [i|] eqn:En; [|intros [= <- <-]; split; [by split_and!; eauto|done]].
    unfold update_inode. cbn. destruct (inodes d !! i) as [nd|] eqn:Ei; intros [= <- <-].
    + split; [|done]. split_and!; try done; [by left|..]; cbn.
      * intros j Hj. rewrite lookup_insert_ne; congruence.
      * intros j nd' Hj. destruct (decide (i = j)) as [<-|]; [rewrite lookup_insert_eq|rewrite lookup_insert_ne by done]; [|by eauto].
        eexists. split; [done|]. cbn. split; congruence.
    + split; [by split_and!; eauto|]. split; [done|]. by intros e [= <-].
Qed.

Lemma only_frame_trans name d1 d2 d3 : names d2 = names d1 -> only_frame name d1 d2 -> only_frame name d2 d3 -> only_frame name d1 d3.
Proof.
  intros En (D1 & X1 & N1 & O1 & A1) (D2 & X2 & N2 & O2 & A2). rewrite En in N2, O2. split_and!; try congruence.
  - intros i Hi. by rewrite O2, O1.
  - intros i nd Hi. destruct (A1 _ _ Hi) as (nd1 & Hi1 & ? & ?). destruct (A2 _ _ Hi1) as (nd2 & Hi2 & ? & ?). exists nd2. split; [done|]. split; congruence.
Qed.

Lemma Remove_only name d r d' : Remove name d = (r, d') -> only_frame name d d' /\ (r = Ok tt -> names d' !! name = None) /\
  (forall e, r = Err e -> names d' = names d /\ (errors_Is e ErrNotExist = true -> names d !! name = None)) /\ r <> Panic.
Proof.
  unfold Remove. destruct (syscall_cases (fun d => match names d !! name with
    | None => (Err ErrNotExist, d) | Some _ => (Ok tt, set_names (delete name (names d)) d) end) d) as (fs & [-> | ->]).
  - intros [= <- <-]. split; [by split_and!; eauto|]. split; [done|]. split; [|done]. by intros e [= <-].
  - cbn. destruct (names d !! name) as [i|] eqn:En; intros [= <- <-]; (split; [by split_and!; cbn; eauto|]); cbn.
    + rewrite lookup_delete_eq. done.
    + split; [done|]. split; [|done]. by intros e [= <-].
Qed.

Lemma removeOutboundFrame_spec name d removed err d' : removeOutboundFrame name d = ((removed, err), d') ->
  only_frame name d d' /\ (err = Ok tt -> names d' !! name = None).
Proof.
  unfold removeOutboundFrame. destruct (ChmodPath name 384 d) as [r1 d1] eqn:E1. apply ChmodPath_only in E1 as (O1 & N1 & A1).
  destruct r1 as [[]|e|]; [| |by intros [= _ <- <-]].
  2:{ destruct (errors_Is e _) eqn:Ee; intros [= _ <- <-]; (split; [done|]); [|done]. intros _. rewrite N1. by eapply A1. }
  destruct (Remove name d1) as [r2 d2] eqn:E2. apply Remove_only in E2 as (O2 & R2 & A2 & P2).
  pose proof (only_frame_trans _ _ _ _ N1 O1 O2) as O12.
  destruct r2 as [[]|e|]; [intros [= _ <- <-]; by auto| |done]. destruct (A2 _ eq_refl) as [N2 A2'].
  destruct (errors_Is e _) eqn:Ee. { intros [= _ <- <-]. split; [done|]. intros _. rewrite N2. auto. }
  destruct (ChmodPath name 256 d2) as [r3 d3] eqn:E3. apply ChmodPath_only in E3 as (O3 & N3 & A3).
  assert (only_frame name d d3) as O by (eapply only_frame_trans; [|exact O12|exact O3]; congruence).
  by destruct r3 as [[]|e3|]; intros [= _ <- <-].
Qed.

Lemma cleanup_spec `{!ZstdLaws} outbound manifestPath auth sp st result err sp' st' :
  CleanupRetiredOutboundFrame env outbound manifestPath auth (sp, st) = ((result, err), (sp', st')) ->
  same_dir sp sp' /\ (err = Ok tt -> names st' !! frameName outbound = None) /\
  (same_dir st st' \/
   ((exists outcome, transportsender.RetirementAuthorization_Acknowledgement auth = Ok (transportsender.ack_for outcome (Sent outbound))) /\
    names sp !! manifestOf outbound manifestPath = None /\ names sp !! dataOf outbound manifestPath = None /\
    holds_frame st (frameName outbound) (Sent outbound) /\ only_frame (frameName outbound) st st')).
Proof.
  unfold CleanupRetiredOutboundFrame. destruct (approveCleanup env outbound manifestPath auth (sp, st)) as [approved [sp1 st1]] eqn:Ea.
  pose proof (keeps_run _ _ _ _ _ (same_approveCleanup outbound manifestPath auth) Ea) as [Hsp Hst]. cbn in Hsp, Hst.
  intros Hr. apply stage_inv in Hr as [(b & -> & Hr)|(_ & [= -> ->] & ?)]; [|split; [done|]; split; [done|]; by left].
  apply approveCleanup_Ok in Ea as (Hack & Hm & Hd & Hb). destruct Hst as [fs ->]. destruct b.
  - destruct (removeOutboundFrame _ _) as [[removed e] st2] eqn:Er. injection Hr as _ <- <- <-.
    apply removeOutboundFrame_spec in Er as [Ho Hok]. split; [done|]. split; [|by right]. intros He%wrap_Ok. auto.
  - injection Hr as _ <- <- <-. split; [done|]. split; [done|]. left. auto.
Qed.

(** [C8] The staged frame goes last. [CleanupRetiredOutboundFrame] changes nothing in the spool, and
    nothing in the stage directory unless the authorization it was given is the durable
    acknowledgement of exactly this frame and both files of the batch are gone from the spool;
    then it touches the one frame only, and whoever sees it succeed sees the frame gone. *)
Theorem CleanupRetiredOutboundFrame_last `{!ZstdLaws} outbound manifestPath auth sp st result err sp' st' :
  CleanupRetiredOutboundFrame env outbound manifestPath auth (sp, st) = ((result, err), (sp', st')) ->
  same_dir sp sp' /\ (err = Ok tt -> names st' !! frameName outbound = None) /\
  (same_dir st st' \/
   ((exists outcome, transportsender.RetirementAuthorization_Acknowledgement auth = Ok (transportsender.ack_for outcome (Sent outbound))) /\
    names sp !! manifestOf outbound manifestPath = None /\ names sp !! dataOf outbound manifestPath = None /\
    holds_frame st (frameName outbound) (Sent outbound) /\ only_frame (frameName outbound) st st')).
Proof. apply cleanup_spec. Qed.

End Retire.
End batchretire.
