(* ===== verification/BatchDelivery.v ===== *)
(** * From the spool into custody

    The two ends of a single batch together: the transport transaction of [batchsender] on one
    side of the connection, [transportreceiver] on the other. *)

From stdpp Require Import gmap.
From S2P Require Import Prelude GoBytes GoStrings Sha256 GoText GoIO GoFS GoDir GoPublish GoTree GoCalls GoWin Pki TransportEncoding TransportBatch TransportTrust TransportPackage TransportWire TransportAck TransportReceiver TransportCustody TransportGeneration GenerationCanonical GenerationProtocol GenerationRecorder GenerationPublished GenerationSender SpoolWriter SpoolSafety SpoolRecovery BatchSender BatchStage BatchRetire.

Module batchdelivery.
Import batchsender batchstage batchretire.

(** ** What follows on the stream does not matter to a read that succeeded *)

Definition local_read {A} (p : prog reader A) : Prop :=
  forall d e a r', p (Reader d e) = (Ok a, r') ->
    rd_end r' = e /\ forall d' e', p (Reader (d ++ d') e') = (Ok a, Reader (rd_data r' ++ d') e').

Lemma local_ReadFull n : local_read (ReadFull n).
Proof.
  intros d e a r'. unfold ReadFull. cbn [rd_data rd_end]. destruct (n <=? len d) eqn:E; [|done]. intros [= <- <-]. split; [done|]. intros d' e'.
  cbn [rd_data rd_end]. rewrite len_app. pose proof (len_nonneg d'). replace (n <=? len d + len d') with true by lia.
  unfold len in *. rewrite take_app_le, drop_app_le by lia. done.
Qed.
Lemma local_ret {A} (a : A) : local_read (ret a).
Proof. intros d e b r' [= <- <-]. by split. Qed.
Lemma local_throw {A} e : local_read (@throw reader A e).
Proof. by intros d e' a r'. Qed.
Lemma local_lift {A} (m : res A) : local_read (lift m).
Proof. intros d e a r' [= -> <-]. by split. Qed.
Lemma local_wrap {A} msg (p : prog reader A) : local_read p -> local_read (wrap_err msg p).
Proof.
  intros Hp d e a r' Hr%wrap_err_Ok. destruct (Hp _ _ _ _ Hr) as [He Hx]. split; [done|]. intros d' e'. by apply wrap_err_Ok, Hx.
Qed.
Lemma local_bind {A B} (p : prog reader A) (k : A -> prog reader B) : local_read p -> (forall a, local_read (k a)) -> local_read (bind p k).
Proof.
  intros Hp Hk d e b r' (a & [d1 e1] & Hr & Hb)%bind_Ok. destruct (Hp _ _ _ _ Hr) as [He Hx]. cbn in He. subst e1.
  destruct (Hk _ _ _ _ _ Hb) as [He' Hy]. split; [done|]. intros d' e'. apply bind_Ok. exists a, (Reader (d1 ++ d') e'). split; [apply Hx|apply Hy].
Qed.
Lemma local_if {A} (b : bool) (p q : prog reader A) : local_read p -> local_read q -> local_read (if b then p else q).
Proof. by destruct b. Qed.

Create HintDb local_read.
#[export] Hint Resolve local_ReadFull local_ret local_throw local_lift local_wrap local_bind local_if : local_read.

Lemma local_ReadAcknowledgement `{Unicode} : local_read transportack.ReadAcknowledgement.
Proof. unfold transportack.ReadAcknowledgement, transportack.readString. cbv zeta. repeat (auto with local_read; intros; apply local_bind || apply local_if). Qed.

Section Delivery.
Context `{Unicode} `{JSON Manifest} `{X509} `{Zstd} `{!ZstdLaws} (env : StageEnv).

(** What a receiver put on the connection is, read back as an acknowledgement, the one it made
    from its custody. *)
Lemma acknowledged_is_custody {W} `{WriterLaws W} config root r d (w : W) tr err r' d' w' out e ack rest :
  custody_inv d -> is_u64 (len (rd_data r)) ->
  transportreceiver.ReceiveAndAcknowledge config root (r, d) w = ((tr, err), ((r', d'), w')) -> written w' = written w ++ out ->
  transportack.ReadAcknowledgement (Reader out e) = (Ok ack, rest) ->
  exists v, transportreceiver.ReceiveToDurableCustody config root (r, d) = (Ok v, (r', d')) /\
    transportreceiver.acknowledgementFromCustody v = Ok ack.
Proof.
  intros Hinv Hu Hr Hout Hread. unfold transportreceiver.ReceiveAndAcknowledge in Hr.
  assert (out <> []) as Hne.
  { intros ->. unfold transportack.ReadAcknowledgement in Hread. apply bind_read_Ok in Hread as (f & r1 & Hf & Hd & _); [|done].
    cbn in Hd. symmetry in Hd. apply app_nil in Hd as [-> _]. done. }
  destruct (transportreceiver.ReceiveToDurableCustody config root (r, d)) as [[v|x|] [r1 d1]] eqn:Ec; cbn [wrap] in Hr.
  2,3: injection Hr as <- <- <- <- <-; rewrite <- (app_nil_r (written w)) in Hout at 1; apply app_inv_head in Hout; congruence.
  destruct (transportreceiver.acknowledgementFromCustody v) as [a|x|] eqn:Ea; cbn [wrap] in Hr.
  2,3: injection Hr as <- <- <- <- <-; rewrite <- (app_nil_r (written w)) in Hout at 1; apply app_inv_head in Hout; congruence.
  destruct (transportack.WriteAcknowledgement a w) as [sent w1] eqn:Ew. injection Hr as <- <- <- <- <-. exists v. split; [done|]. f_equal.
  destruct (transportack.WriteAcknowledgement_emits a w) as (dd & Hw & [dd' Hdd] & _). rewrite Ew in Hw. cbn in Hw.
  rewrite Hw in Hout. apply app_inv_head in Hout. subst dd.
  destruct (local_ReadAcknowledgement _ _ _ _ Hread) as [_ Hx]. specialize (Hx dd' EOF). rewrite <- Hdd in Hx.
  assert (transportack.ValidAck a /\ transportack.Acknowledgement_typed a) as [Hva Hty].
  { destruct (custody_done_stable _ _ _ _ _ _ _ Hinv Ec) as
      ((intake & data & frame & final & Hacc & Hdata & Hpos & _ & (info & Hsz & Hv) & _) & _).
    unfold transportreceiver.acknowledgementFromCustody, transportack.NewDurableAcknowledgement in Ea. res_inv Ea.
    match goal with Hval : transportack.Validate _ = Ok ?u |- _ => destruct u; apply transportack.Ack_Validate_Ok in Hval; split; [exact Hval|] end.
    rewrite Hv. split; cbn.
    - destruct Hacc as (_ & ((_ & Hdb & _) & _) & _ & -> & _). exact Hdb.
    - rewrite Hsz. rewrite Hdata, len_app in Hu. unfold is_u64 in *. pose proof (len_nonneg (rd_data r1)). lia. }
  pose proof (transportack.ReadAcknowledgement_layout a [] EOF Hva Hty) as Hl. rewrite app_nil_r in Hl. rewrite Hl in Hx. by injection Hx as ->.
Qed.

(** Custody survives every later history of the receiver's directory. *)
Lemma custody_survives d d' name nd : custody_inv d -> custody_name name = true -> rtc step d d' -> stable d name nd -> stable d' name nd.
Proof.
  intros Hinv Hc Hs. revert Hinv. induction Hs as [|x y z Hxy _ IH]; [done|]. intros Hinv Hst.
  destruct (step_inv _ _ Hinv Hxy) as [Hy Hk]. by apply IH, Hk.
Qed.

(** The directory holds, durably and sealed, a trusted batch of the identity of [sent] in a
    frame of its size and SHA-256. *)
Definition in_custody (config : transportreceiver.CustodyConfig) (sent : transportsender.SentFrame) (d : dir) : Prop :=
  exists intake data nd, transportreceiver.accepted (transportreceiver.Intake config) intake data (i_data nd) /\
    transportbatch.SourceID (transportwire.descriptor (transportreceiver.Header intake)) = transportbatch.SourceID (transportsender.Descriptor sent) /\
    transportbatch.BatchID (transportwire.descriptor (transportreceiver.Header intake)) = transportbatch.BatchID (transportsender.Descriptor sent) /\
    stable d (transportreceiver.custodyObjectName (transportbatch.SourceID (transportsender.Descriptor sent))
                (transportbatch.BatchID (transportsender.Descriptor sent))) nd /\ sealed nd /\
    len (i_data nd) = transportsender.FrameBytes sent /\ sha256_hex (i_data nd) = transportsender.FrameSHA256 sent.

(** [C5] A batch leaves the spool only into custody. Let a receiver take whatever arrives, and let
    what it puts on its side of the connection, complete or cut off anywhere, be all the sender
    reads. If one [SendAndRetirePreparedFrame] then removes anything from the spool, the
    receiver's directory holds a trusted batch under the identity of the removed one, in a
    frame of the size and SHA-256 the sender staged, and does so through every later history of
    receptions, failing calls and power failures. *)
Theorem batch_leaves_spool_into_custody {W1} `{WriterLaws W1} {W2} `{WriterLaws W2} config root rr dd (w0 : W1) tr e1 rr' dd1 w1 out e
    outbound manifestPath (w : W2) sp st result err r' w' sp' st' dd2 :
  custody_inv dd -> is_u64 (len (rd_data rr)) ->
  transportreceiver.ReceiveAndAcknowledge config root (rr, dd) w0 = ((tr, e1), ((rr', dd1), w1)) -> written w1 = written w0 ++ out ->
  SendAndRetirePreparedFrame env outbound manifestPath (Reader out e, w, sp, st) = ((result, err), (r', w', sp', st')) ->
  names sp' <> names sp -> rtc step dd1 dd2 ->
  in_custody config (Sent outbound) dd2.
Proof.
  intros Hinv Hu Hr Hout Hsend Hne Hsteps.
  pose proof (transaction_spec env _ _ _ _ _ _ _ _ _ _ _ _ Hsend) as (_ & [((fnd & outcome & _ & _ & _ & _ & _ & _ & Hread) & _)|(-> & _)]); [|done].
  destruct (acknowledged_is_custody _ _ _ _ _ _ _ _ _ _ _ _ _ _ Hinv Hu Hr Hout Hread) as (v & Hc & Ha).
  pose proof (receive_inv _ _ _ _ _ _ _ Hinv Hc) as [Hinv1 _].
  destruct (custody_done_stable _ _ _ _ _ _ _ Hinv Hc) as
    ((intake & data & frame & final & Hacc & Hdata & Hpos & _ & (info & Hsz & Hv) & _) & nd & Hst & Hse & Hl & Hh & Hd).
  assert (i_data nd = frame) as Hfr by (rewrite Hd in Hdata; by eapply app_inv_tail).
  assert (transportreceiver.SourceID v = transportbatch.SourceID (transportsender.Descriptor (Sent outbound)) /\
          transportreceiver.BatchID v = transportbatch.BatchID (transportsender.Descriptor (Sent outbound)) /\
          transportreceiver.FrameBytes v = transportsender.FrameBytes (Sent outbound) /\
          transportreceiver.FrameSHA256 v = transportsender.FrameSHA256 (Sent outbound)) as (G2 & G3 & G7 & G8).
  { unfold transportreceiver.acknowledgementFromCustody, transportack.NewDurableAcknowledgement in Ha.
    apply res_bind_Ok in Ha as (? & _ & Ha). injection Ha. intros. by split_and!. }
  exists intake, data, nd. rewrite Hfr at 1. split; [done|].
  assert (transportreceiver.SourceID v = transportbatch.SourceID (transportwire.descriptor (transportreceiver.Header intake)) /\
          transportreceiver.BatchID v = transportbatch.BatchID (transportwire.descriptor (transportreceiver.Header intake))) as [Es Eb] by (by rewrite Hv).
  split; [congruence|]. split; [congruence|]. split; [|split_and!; [done|congruence|rewrite <- G8; exact Hh]].
  apply (custody_survives dd1); [done|apply custodyObjectName_custody|done|]. by rewrite <- G2, <- G3.
Qed.

End Delivery.
End batchdelivery.
