(* ===== verification/BatchQueue.v ===== *)
(** * The queue of published batches

    [PublishedBatchQueue] of [batchsender]: its snapshot is exactly the published manifests of
    the spool in the order of their names, and the batch it names first is the oldest one. *)

From stdpp Require Import gmap.
From S2P Require Import Prelude GoBytes GoStrings Sha256 GoText GoIO GoFS GoDir GoPublish GoTree GoCalls GoWin Pki TransportEncoding TransportBatch TransportTrust TransportPackage TransportWire TransportAck TransportReceiver TransportGeneration GenerationCanonical GenerationProtocol GenerationRecorder GenerationPublished GenerationSender SpoolWriter SpoolSafety SpoolRecovery BatchSender BatchStage.

Module batchqueue.
Import spoolwriter spoolsafety batchsender.

(** A published manifest of the spool, as the queue names it. *)
Definition published_manifest (spoolDir : bytes) (d : dir) (path : bytes) : Prop :=
  exists name nd, isPublishedBatchManifestName name = true /\ slash_free name /\
    lookup_file d (in_dir (filepath_Base spoolDir) name) = Some nd /\ i_kind nd = Regular /\ path = filepath_Join spoolDir name.

(** What one pass over some entries adds. *)
Definition listed (spoolDir : bytes) (d : dir) (entries : list (bytes * file_kind)) (path : bytes) : Prop :=
  exists name kind nd, (name, kind) ∈ entries /\ isPublishedBatchManifestName name = true /\ kind <> Symlink /\
    lookup_file d (in_dir (filepath_Base spoolDir) name) = Some nd /\ i_kind nd = Regular /\ path = filepath_Join spoolDir name.

Lemma listed_faults spoolDir fs d entries path : listed spoolDir (set_faults fs d) entries path <-> listed spoolDir d entries path.
Proof. done. Qed.
Lemma listed_nil spoolDir d path : ~ listed spoolDir d [] path.
Proof. intros (name & kind & nd & Hin & _). by apply not_elem_of_nil in Hin. Qed.
Lemma listed_cons spoolDir d name kind entries path : listed spoolDir d ((name, kind) :: entries) path <->
  listed spoolDir d [(name, kind)] path \/ listed spoolDir d entries path.
Proof.
  split.
  - intros (n & k & nd & [[= <- <-]|Hin]%elem_of_cons & Hx); [left|right]; exists n, k, nd; (split; [|done]); [by apply list_elem_of_singleton|done].
  - intros [(n & k & nd & E%list_elem_of_singleton & Hx)|(n & k & nd & Hin & Hx)]; exists n, k, nd; (split; [|done]); [rewrite E|]; set_solver.
Qed.
Lemma listed_app spoolDir d es es' path : listed spoolDir d (es ++ es') path <-> listed spoolDir d es path \/ listed spoolDir d es' path.
Proof.
  split.
  - intros (n & k & nd & [Hin|Hin]%elem_of_app & Hx); [left|right]; by exists n, k, nd.
  - intros [(n & k & nd & Hin & Hx)|(n & k & nd & Hin & Hx)]; exists n, k, nd; (split; [|done]); set_solver.
Qed.

Lemma scanEntries_Ok spoolDir entries : forall acc d paths d', scanEntries spoolDir entries acc d = (Ok paths, d') ->
  same_dir d d' /\ forall path, path ∈ paths <-> path ∈ acc \/ listed spoolDir d entries path.
Proof.
  induction entries as [|[name kind] entries IH]; intros acc d paths d' Hr; cbn [scanEntries] in Hr.
  { injection Hr as <- <-. split; [reflexivity|]. intros path. split; [auto|]. intros [?|[]%listed_nil]. done. }
  assert (forall path, ~ listed spoolDir d [(name, kind)] path ->
    (listed spoolDir d ((name, kind) :: entries) path <-> listed spoolDir d entries path)) as Hskip by (intros path; rewrite (listed_cons _ _ _ _ entries); intros Hno; split; [by intros [?|?]|by right]).
  destruct (isPublishedBatchManifestName name) eqn:Ep; cbn [negb] in Hr.
  2:{ apply IH in Hr as [Hq Hm]. split; [done|]. intros path. rewrite Hskip; [done|]. intros (n & k & nd & [= -> ->]%list_elem_of_singleton & ? & _). congruence. }
  case_bool_decide as Hk.
  { apply IH in Hr as [Hq Hm]. split; [done|]. intros path. rewrite Hskip; [done|]. by intros (n & k & nd & [= -> ->]%list_elem_of_singleton & _ & ? & _). }
  apply bind_Ok in Hr as (info & d1 & Hl & Hr). apply wrap_err_Ok, Lstat_Ok in Hl as ([fs ->] & i & nd & Hn & Hi & ->).
  assert (lookup_file d (in_dir (filepath_Base spoolDir) name) = Some nd) as Hlk by (unfold lookup_file; by rewrite Hn).
  apply IH in Hr as [Hq Hm]. split; [etrans; [by eexists|exact Hq]|]. intros path. rewrite Hm, (listed_cons _ _ _ _ entries), listed_faults. cbn [fi_kind info_of]. clear Hm.
  case_bool_decide as Hreg.
  - rewrite elem_of_app, list_elem_of_singleton. split; [|intros [?|[(n & k & nd' & [= -> ->]%list_elem_of_singleton & _ & _ & ? & _ & ->)|?]]; auto].
    intros [[?| ->]|?]; [auto| |auto]. right. left. exists name, kind, nd. split_and!; try done. by apply list_elem_of_singleton.
  - split; [tauto|]. intros [?|[(n & k & nd' & [= -> ->]%list_elem_of_singleton & _ & _ & Hl' & Hr' & _)|?]]; [auto|congruence|auto].
Qed.

Lemma scanChunks_Ok spoolDir fuel : forall entries acc d paths d', scanChunks fuel spoolDir entries acc d = (Ok paths, d') ->
  same_dir d d' /\ forall path, path ∈ paths <-> path ∈ acc \/ listed spoolDir d entries path.
Proof.
  induction fuel as [|fuel IH]; intros entries acc d paths d' Hr; cbn [scanChunks] in Hr; [done|].
  destruct (syscall (ret tt) d) as [[[]|e|] d1] eqn:Es; [|done..]. pose proof (keeps_run _ _ _ _ _ quiet_Close Es) as [fs ->].
  destruct entries as [|entry entries].
  { injection Hr as <- <-. split; [by eexists|]. intros path. split; [auto|]. intros [?|[]%listed_nil]. done. }
  apply bind_Ok in Hr as (acc1 & d2 & H1 & Hr). apply scanEntries_Ok in H1 as [[fs2 ->] H1]. apply IH in Hr as [Hq Hm].
  split; [etrans; [|exact Hq]; by eexists|]. intros path. rewrite Hm, H1, !listed_faults.
  rewrite <- (take_drop publishedBatchReadChunk (entry :: entries)) at 3. rewrite listed_app. tauto.
Qed.

Lemma entriesOf_listed spoolDir d path : listed spoolDir d (entriesOf (filepath_Base spoolDir) d) path <-> published_manifest spoolDir d path.
Proof.
  split.
  - intros (name & kind & nd & Hin & Hp & Hk & Hl & Hr & ->). exists name, nd. unfold entriesOf in Hin.
    apply list_elem_of_omap in Hin as ([p i] & Hm & He). destruct (spoolrecovery.entry_of _ p) as [n|] eqn:En; [|done]. cbn in He. injection He as -> _.
    apply spoolrecovery.entry_of_spec in En as [-> Hs]. done.
  - intros (name & nd & Hp & Hs & Hl & Hr & ->). exists name, (i_kind nd), nd. split_and!; try done; [|congruence].
    unfold lookup_file in Hl. destruct (names d !! in_dir (filepath_Base spoolDir) name) as [i|] eqn:En; [|done]. cbn in Hl.
    apply list_elem_of_omap. exists (in_dir (filepath_Base spoolDir) name, i). split; [by apply elem_of_map_to_list|].
    rewrite (proj2 (spoolrecovery.entry_of_spec _ _ name)) by done. cbn. by rewrite Hl.
Qed.

Lemma scan_Ok spoolDir d paths d' : scanPublishedBatchManifests spoolDir d = (Ok paths, d') ->
  same_dir d d' /\ sorted_strings paths /\ forall path, path ∈ paths <-> published_manifest spoolDir d path.
Proof.
  unfold scanPublishedBatchManifests. intros Hr. apply bind_Ok in Hr as ([] & d1 & Ho & Hr). apply wrap_err_Ok in Ho.
  pose proof (keeps_run _ _ _ _ _ quiet_Close Ho) as [fs ->]. unfold defer_close in Hr. destruct (bind (scanChunks _ _ _ _) _ _) as [rr d2] eqn:Eb.
  injection Hr as -> Hd. apply bind_Ok in Eb as (ps & d3 & Hs & Hx). injection Hx as <- <-. apply scanChunks_Ok in Hs as [Hq Hm].
  split; [|split; [apply sort_Strings_sorted|]].
  - subst d'. destruct Hq as [fs3 ->]. etrans; [|apply quiet_Close]. by eexists.
  - intros path. rewrite sort_Strings_perm, Hm. change (entriesOf (filepath_Base spoolDir) (set_faults fs d)) with (entriesOf (filepath_Base spoolDir) d).
    rewrite listed_faults, entriesOf_listed. split; [|auto]. intros [[]%not_elem_of_nil|?]. done.
Qed.

(** Every turn of the loop takes an entry, so the fuel is never used up. *)
Lemma scanEntries_no_panic spoolDir entries : forall acc d, (scanEntries spoolDir entries acc d).1 <> Panic.
Proof.
  induction entries as [|[name kind] entries IH]; intros acc d; cbn [scanEntries]; [done|]. destruct (negb _); [auto|]. case_bool_decide; [auto|].
  unfold bind, wrap_err, Lstat. match goal with |- context [syscall ?p d] => destruct (syscall_cases p d) as (fs & [-> | ->]) end; [done|]. cbn.
  destruct (names d !! _) as [i|]; [|done]. destruct (inodes d !! i); cbn; [auto|done].
Qed.
Lemma scanChunks_no_panic spoolDir fuel : forall entries acc d, (length entries < fuel)%nat -> (scanChunks fuel spoolDir entries acc d).1 <> Panic.
Proof.
  induction fuel as [|fuel IH]; intros entries acc d Hf; [lia|]. cbn [scanChunks]. destruct (syscall_cases (ret tt) d) as (fs & [-> | ->]); [done|]. cbn.
  destruct entries as [|entry entries]; [done|]. unfold bind. pose proof (scanEntries_no_panic spoolDir (take publishedBatchReadChunk (entry :: entries)) acc (set_faults fs d)) as Hp.
  destruct (scanEntries _ _ _ _) as [[ps|e|] d1]; [|done..]. apply IH. rewrite length_drop. cbn [length] in *. unfold publishedBatchReadChunk. lia.
Qed.

Lemma quiet_scanEntries spoolDir entries : forall acc, quiet (scanEntries spoolDir entries acc).
Proof.
  induction entries as [|[name kind] entries IH]; intros acc; cbn [scanEntries]; [apply keeps_ret, _|]. apply keeps_if; [auto|]. apply keeps_if; [auto|].
  apply keeps_bind; [apply _|apply keeps_wrap, quiet_Lstat|auto].
Qed.
Lemma quiet_scanChunks spoolDir fuel : forall entries acc, quiet (scanChunks fuel spoolDir entries acc).
Proof.
  induction fuel as [|fuel IH]; intros entries acc; cbn [scanChunks]; [apply keeps_lift, _|]. intros d. pose proof (quiet_Close d) as Hc.
  unfold GoFS.Close in Hc. destruct (syscall (ret tt) d) as [[[]|e|] d1]; [|done..]. destruct entries as [|e es]; [done|].
  etrans; [exact Hc|]. apply (keeps_bind same_dir); [apply quiet_scanEntries|auto].
Qed.
Lemma quiet_scan spoolDir : quiet (scanPublishedBatchManifests spoolDir).
Proof.
  unfold scanPublishedBatchManifests. apply keeps_bind; [apply _|apply keeps_wrap, quiet_Close|intros _]. apply quiet_defer_close. intros d.
  apply (keeps_bind same_dir); [apply quiet_scanChunks|intros; apply keeps_ret, _].
Qed.

(** [C9] The oldest published batch comes first. When the queue has no batch left, [Next] takes a
    snapshot: it never gives up half way, it changes nothing on disk, and it names the first
    of the published manifests of the spool in the order of their names, or none when there
    are none. The rest of the snapshot is the other published manifests, in order. *)
Theorem Next_oldest queue d r queue' d' : manifestPaths queue = [] -> Next (queue, d) = (r, (queue', d')) ->
  r <> Panic /\ same_dir d d' /\ forall next, r = Ok next ->
    sorted_strings (manifestPaths queue') /\
    (forall path, path ∈ manifestPaths queue' <-> published_manifest (queueSpoolDir queue) d path) /\
    match next with
    | None => forall path, ~ published_manifest (queueSpoolDir queue) d path
    | Some first => published_manifest (queueSpoolDir queue) d first /\
        forall path, published_manifest (queueSpoolDir queue) d path -> bytes_leb first path = true
    end.
Proof.
  intros Hempty. unfold Next. rewrite Hempty. destruct (scanPublishedBatchManifests (queueSpoolDir queue) d) as [rs d1] eqn:Es.
  assert (rs <> Panic) as Hnp.
  { intros ->. unfold scanPublishedBatchManifests in Es. unfold bind at 1, wrap_err in Es.
    destruct (syscall_cases (ret tt) d) as (fs & [E|E]); rewrite E in Es; [done|]. cbn [wrap ret] in Es. unfold defer_close, bind in Es.
    set (es := entriesOf (filepath_Base (queueSpoolDir queue)) (set_faults fs d)) in *.
    pose proof (scanChunks_no_panic (queueSpoolDir queue) (S (length es)) es [] (set_faults fs d) ltac:(lia)) as Hp.
    destruct (scanChunks _ _ _ _ _) as [[ps|e|] d2]; cbn in Es, Hp; by destruct (GoFS.Close d2); injection Es. }
  assert (same_dir d d1) as Hq.
  { eapply (keeps_run same_dir); [apply quiet_scan|exact Es]. }
  destruct rs as [paths|e|]; intros [= <- <- <-]; [|by split_and!|done]. split; [done|]. split; [done|]. intros next [= <-].
  apply scan_Ok in Es as (_ & Hs & Hm). cbn [manifestPaths]. split; [done|]. split; [done|]. destruct paths as [|first rest].
  - intros path Hp. apply Hm in Hp. by apply not_elem_of_nil in Hp.
  - split; [apply Hm; set_solver|]. intros path Hp. apply Hm in Hp. inversion Hs as [|? ? _ Hall]; subst.
    apply elem_of_cons in Hp as [->|Hp]; [unfold bytes_leb; by rewrite bytes_ltb_irrefl|].
    rewrite List.Forall_forall in Hall. apply Hall. by apply list_elem_of_In.
Qed.

End batchqueue.
