(* ===== verification/BatchExchange.v ===== *)
(** * One batch from the spool to the receiver, on concrete directories

    The batch a collector published is queued, staged, sent to a receiver, retired and its
    frame removed; the theorems of [BatchStage], [BatchRetire], [BatchDelivery] and
    [BatchQueue] apply to the run. *)

From stdpp Require Import gmap.
From S2P Require Import Prelude GoBytes GoStrings Sha256 GoText GoIO GoFS GoDir GoPublish GoTree GoCalls GoWin Pki TransportEncoding TransportBatch TransportTrust TransportPackage TransportWire TransportAck TransportReceiver TransportCustody TransportGeneration GenerationCanonical GenerationProtocol GenerationRecorder GenerationPublished GenerationSender SpoolWriter SpoolSafety SpoolRecovery BatchSender BatchStage BatchRetire BatchDelivery BatchQueue.

Module batchexchange.
Import spoolwriter batchsender batchstage batchretire.

#[local] Existing Instance asciiUnicode.
#[local] Existing Instance transporttrust.demoX509.
#[local] Existing Instance demoZstd.
#[local] Existing Instance demoZstd_laws.
#[local] Existing Instance spoolsafety.demoManifestCodec.

(** The spool after one record was written and its batch published. *)
Definition demoSpool : dir := disk (spoolrecovery.demoInterrupted []).
Definition demoEnv : StageEnv := {| EvalSymlinksOf p := Ok p; StageInfo _ := Ok GoFS.Directory; net_Error _ := false |}.
Definition demoManifestPath : bytes := bs "/srv/spool/" ++ manifestFileName spoolsafety.demoID.
Definition demoFrameConfig : OutboundFrameConfig := {|
  BatchSigner := Some Demo.signer; BatchSigningCertificate := Some transporttrust.demoLeaf;
  ManifestPath := demoManifestPath; ConfigSourceID := bs "FS-01"; StageDir := bs "/srv/stage" |}.

Definition demoQueue : PublishedBatchQueue := {| manifestPaths := []; queueSpoolDir := bs "/srv/spool" |}.
Definition demoNext : res (option bytes) * (PublishedBatchQueue * dir) := Next (demoQueue, demoSpool).

Definition demoPrepared : res OutboundFrame * (dir * dir) := PrepareOutboundFrame demoEnv demoFrameConfig (demoSpool, empty_dir []).
Definition demoOutbound : OutboundFrame := Eval vm_compute in
  match demoPrepared.1 with
  | Ok v => v
  | _ => {| Disposition := OtherDisposition []; FramePath := []; Sent := transportsender.demoSent |}
  end.
Definition demoStage : dir := demoPrepared.2.2.
Definition demoFrame : bytes := Eval vm_compute in
  match lookup_file demoStage (frameName demoOutbound) with Some nd => i_data nd | None => [] end.

(** The receiver takes the frame and acknowledges it over a connection that accepts seven
    bytes at a time. *)
Definition demoReceiver := transportreceiver.ReceiveAndAcknowledge transportreceiver.demoConfig transportreceiver.demoRootState
  (Reader demoFrame EOF, empty_dir []) demoPipe.
Definition demoCustodyDir : dir := demoReceiver.2.1.2.
Definition demoAck : bytes := Eval vm_compute in pipe_out demoReceiver.2.2.

Definition demoTransacted := SendAndRetirePreparedFrame (W := bytes) demoEnv demoOutbound demoManifestPath
  (Reader demoAck EOF, [], demoSpool, demoStage).
Definition demoRetiredSpool : dir := demoTransacted.2.1.2.
Definition demoAuthorization : transportsender.RetirementAuthorization :=
  {| transportsender.acknowledgement := transportsender.ack_for transportack.OutcomeDurableNew (Sent demoOutbound) |}.
Definition demoCleaned := CleanupRetiredOutboundFrame demoEnv demoOutbound demoManifestPath demoAuthorization (demoRetiredSpool, demoTransacted.2.2).

(** The queue names the batch, staging creates the frame, the transaction retires the batch
    and the cleanup removes the frame. *)
Example demo_run :
  demoNext.1 = Ok (Some demoManifestPath) /\ demoPrepared.1 = Ok demoOutbound /\ Disposition demoOutbound = OutboundFrameDispositionNew /\
  demoReceiver.1.2 = Ok tt /\ demoTransacted.1.2 = Ok tt /\ RetiredDisposition (Retirement demoTransacted.1.1) = RetirementDispositionComplete /\
  demoTransacted.2.1.1.2 = demoFrame /\ names demoRetiredSpool !! manifestOf demoOutbound demoManifestPath = None /\
  demoCleaned.1.2 = Ok tt /\ names demoCleaned.2.2 !! frameName demoOutbound = None.
Proof. vm_compute. repeat split. Qed.

#[local] Opaque PrepareOutboundFrame SendAndRetirePreparedFrame CleanupRetiredOutboundFrame Next transportreceiver.ReceiveAndAcknowledge.

(** The parts of the run, without evaluating the directories. *)
Lemma demoPrepared_parts : PrepareOutboundFrame demoEnv demoFrameConfig (demoSpool, empty_dir []) = (Ok demoOutbound, (demoPrepared.2.1, demoStage)).
Proof.
  assert (demoPrepared.1 = Ok demoOutbound) as E by (vm_compute; reflexivity). unfold demoStage. fold demoPrepared. destruct demoPrepared as [r [sp st]]. cbn in *. by subst.
Qed.
Lemma demoReceiver_parts : transportreceiver.ReceiveAndAcknowledge transportreceiver.demoConfig transportreceiver.demoRootState
    (Reader demoFrame EOF, empty_dir []) demoPipe =
  ((demoReceiver.1.1, Ok tt), ((demoReceiver.2.1.1, demoCustodyDir), demoReceiver.2.2)).
Proof.
  assert (demoReceiver.1.2 = Ok tt) as E by (vm_compute; reflexivity). unfold demoCustodyDir. fold demoReceiver. destruct demoReceiver as [[tr err] [[r d] w]]. cbn in *. by subst.
Qed.
Lemma demoTransacted_parts : SendAndRetirePreparedFrame (W := bytes) demoEnv demoOutbound demoManifestPath (Reader demoAck EOF, [], demoSpool, demoStage) =
  ((demoTransacted.1.1, Ok tt), (demoTransacted.2.1.1.1, demoFrame, demoRetiredSpool, demoTransacted.2.2)).
Proof.
  assert (demoTransacted.1.2 = Ok tt /\ demoTransacted.2.1.1.2 = demoFrame) as [E1 E2] by (vm_compute; split; reflexivity).
  unfold demoRetiredSpool. fold demoTransacted. destruct demoTransacted as [[result err] [[[r w] sp] st]]. cbn in *. by subst.
Qed.
Lemma demo_retired : names demoRetiredSpool <> names demoSpool.
Proof.
  intros E. apply (f_equal (fun m => m !! manifestOf demoOutbound demoManifestPath)) in E. vm_compute in E. discriminate E.
Qed.

Lemma PrepareOutboundFrame_stages_witness : exists canonical,
  describes_batch demoSpool demoManifestPath canonical /\ transportbatch.SourceID canonical = bs "FS-01" /\
  staged_frame (outboundFrameObjectName (transportbatch.SourceID canonical) (transportbatch.BatchID canonical)) canonical
    OutboundFrameDispositionNew (Sent demoOutbound) demoStage.
Proof.
  assert (wf (empty_dir [])) as Hw by (split_and!; intros *; vm_compute; try (intros [= ]); by intros [? ?]).
  pose proof (PrepareOutboundFrame_stages demoEnv demoFrameConfig demoSpool (empty_dir []) (Ok demoOutbound) demoPrepared.2.1 demoStage Hw demoPrepared_parts) as Hs.
  destruct Hs as (_ & _ & Hv).
  destruct (Hv demoOutbound eq_refl) as (canonical & H1 & H2 & H3 & H4). exists canonical. split; [exact H1|]. split; [exact H2|].
  exact H4.
Defined.

Lemma SendAndRetirePreparedFrame_safe_witness :
  delivered demoOutbound demoStage (W := bytes) [] demoFrame (Reader demoAck EOF) demoTransacted.2.1.1.1 /\
  names demoRetiredSpool !! manifestOf demoOutbound demoManifestPath = None /\ names demoRetiredSpool !! dataOf demoOutbound demoManifestPath = None.
Proof.
  destruct (SendAndRetirePreparedFrame_safe demoEnv demoOutbound demoManifestPath (Reader demoAck EOF) (W := bytes) [] demoSpool demoStage
    demoTransacted.1.1 (Ok tt) demoTransacted.2.1.1.1 demoFrame demoRetiredSpool demoTransacted.2.2 demoTransacted_parts) as (_ & [(Hd & _ & Hgone)|(_ & Hno)]).
  - split; [exact Hd|]. exact (Hgone eq_refl).
  - by destruct Hno.
Defined.

Lemma CleanupRetiredOutboundFrame_last_witness : names demoCleaned.2.2 !! frameName demoOutbound = None.
Proof.
  assert (CleanupRetiredOutboundFrame demoEnv demoOutbound demoManifestPath demoAuthorization (demoRetiredSpool, demoTransacted.2.2) =
    ((demoCleaned.1.1, Ok tt), (demoCleaned.2.1, demoCleaned.2.2))) as E.
  { assert (demoCleaned.1.2 = Ok tt) as E by (vm_compute; reflexivity). fold demoCleaned. destruct demoCleaned as [[result err] [sp st]]. cbn in *. by subst. }
  pose proof (CleanupRetiredOutboundFrame_last demoEnv demoOutbound demoManifestPath demoAuthorization demoRetiredSpool demoTransacted.2.2
    demoCleaned.1.1 (Ok tt) demoCleaned.2.1 demoCleaned.2.2 E) as Hc.
  destruct Hc as (_ & Hc & _). exact (Hc eq_refl).
Defined.

Lemma batch_leaves_spool_into_custody_witness : batchdelivery.in_custody transportreceiver.demoConfig (Sent demoOutbound) demoCustodyDir.
Proof.
  apply (batchdelivery.batch_leaves_spool_into_custody (W1 := pipe) (W2 := bytes) demoEnv transportreceiver.demoConfig transportreceiver.demoRootState
    (Reader demoFrame EOF) (empty_dir []) demoPipe demoReceiver.1.1 (Ok tt) demoReceiver.2.1.1 demoCustodyDir demoReceiver.2.2 demoAck EOF
    demoOutbound demoManifestPath [] demoSpool demoStage demoTransacted.1.1 (Ok tt) demoTransacted.2.1.1.1 demoFrame demoRetiredSpool demoTransacted.2.2 demoCustodyDir).
  - apply empty_custody.
  - vm_compute. split; congruence.
  - exact demoReceiver_parts.
  - vm_compute. reflexivity.
  - exact demoTransacted_parts.
  - exact demo_retired.
  - apply rtc_refl.
Defined.

Lemma Next_oldest_witness : batchqueue.published_manifest (bs "/srv/spool") demoSpool demoManifestPath /\
  forall path, batchqueue.published_manifest (bs "/srv/spool") demoSpool path -> bytes_leb demoManifestPath path = true.
Proof.
  assert (Next (demoQueue, demoSpool) = (Ok (Some demoManifestPath), (demoNext.2.1, demoNext.2.2))) as E.
  { assert (demoNext.1 = Ok (Some demoManifestPath)) as E by (vm_compute; reflexivity). fold demoNext. destruct demoNext as [r [q d]]. cbn in *. by subst. }
  pose proof (batchqueue.Next_oldest demoQueue demoSpool (Ok (Some demoManifestPath)) demoNext.2.1 demoNext.2.2 eq_refl E) as Hn.
  destruct Hn as (_ & _ & H1). exact (proj2 (proj2 (H1 _ eq_refl))).
Defined.

End batchexchange.
