(* ===== verification/UsnSpool.v ===== *)
(** * From the journal to the spool

    Models [writeUSNSpoolNext] of [go/cmd/fi/usn_spool_windows.go] with what it runs:
    [ReadAndReobserveJournaled] of [go/internal/windows/usn/operation_windows.go],
    [validateUSNNextBatch] of [usn_next_windows.go] and [finalizeSpoolWriterOnReturn] of
    [spool_writer_return_windows.go]. One run reads a bounded range of the journal, observes
    its objects again, appends a record for each object in scope and advances the checkpoint.
    The state is the spool with its writer, the directory of the checkpoint and the one of
    the operation journal (the two files share a directory on disk and no call touches both).
    What the environment answers during a run is the record [run_env]. *)

From stdpp Require Import gmap.
From S2P Require Import Prelude GoBytes GoStrings Sha256 GoText GoIO GoFS GoDir GoPublish GoCalls GoWin Pki TransportGeneration GenerationCanonical GenerationProtocol GenerationRecorder Records Brokers Usn Reobserve UsnScope Checkpoint Operation SpoolWriter SpoolSafety SpoolRecovery.

Module usnspool.
Import records usn reobserve usnscope checkpoint operation.

(** What the spool record needs of an [ntfs.Observation]. *)
Class NTFSObservation (Observation : Type) := {
  ContentHashes : Observation -> option ContentHashObservation;
  withoutContentHashes : Observation -> Observation
}.

Section Run.
Context {Observation : Type} `{NTFSObservation Observation} `{Unicode} {K : OperationClock} {C : spoolwriter.Clock}.
Context `{JSON USNCheckpoint} `{JSON JournalEntry} `{JSON spool.Manifest} `{JSON spoolwriter.SpoolRecord}.

(** ** The journaled re-observation *)

Record JournaledReobservationResult := {
  USNReadOperation : OperationRecord;
  ReObservationOperation : OperationRecord;
  Result : ReobservationBatch Observation
}.

(** What one run gets from outside: the environment variables, the context, the clock, the
    Windows calls and the helpers, the resource journal, the executable and the state of the
    supporting SIDs. *)
Record run_env := {
  FI_STATE_DIR : bytes; ProgramData : bytes; FI_SPOOL_DIR : bytes;
  shouldRecoverInterrupted : bool;
  ctx_read : option error; ctx_done : bool; ctx_loop : nat -> option error;
  time_check : Time; time_read : Time; time_refresh : Time; time_advance : Time;
  root_check : res GovernedRootIdentity; journal_check : res USNJournalState;
  root_refresh : res GovernedRootIdentity; journal_refresh : res USNJournalState;
  root_handle : RootHandle; reader_broker : broker;
  reobserve_deps : dependencies Observation; parent_deps : dependencies Observation;
  resource_path : res unit;
  read_resources : res unit; read_resources_finish : res unit;
  reobserve_resources : res unit; reobserve_resources_finish : res unit;
  env_platform : spoolwriter.Platform; env_policy : option spoolwriter.Policy;
  current_executable : res spool.CollectorIdentity;
  merge_SIDs : list (selectedUSNObject Observation) -> res unit
}.

(** [errors.Join(err, p())] after a failure. *)
Definition join_after {S A} (e : error) (p : prog S unit) : prog S A := fun s =>
  match p s with
  | (Ok _, s) => (Err e, s)
  | (Err e', s) => (Err (Join e e'), s)
  | (Panic, s) => (Panic, s)
  end.
Definition join_res (e : error) (r : res unit) : error := match r with Err e' => Join e e' | _ => e end.

Definition finishFailedOperation (journalName : bytes) (started : Started) (reason : bytes) : prog ops_state unit :=
  let! record := Finish started OperationFailed reason in
  AppendFinished journalName record.

Definition OperationUSNRead : bytes := bs "USNRead".
Definition OperationReObservation : bytes := bs "ReObservation".

(** [started.Finish] and [AppendFinished], each error joined with that of the resource
    journal, which is an error of its own. *)
Definition finishOperation (journalName : bytes) (started : Started) (outcome reason : bytes) (resources : res unit)
  : prog ops_state OperationRecord := fun s =>
  match (let! record := Finish started outcome reason in check! AppendFinished journalName record ;; ret record) s with
  | (Err e, s) => (Err (join_res e resources), s)
  | (Ok record, s) => (match resources with Ok _ => Ok record | Err e => Err e | Panic => Panic end, s)
  | (Panic, s) => (Panic, s)
  end.

Definition ReadAndReobserveJournaled (env : run_env) (scopeID governedRoot startUSN : bytes)
  : prog ops_state JournaledReobservationResult :=
  let journalName := scopeID ++ bs "-operations.jsonl" in
  check! lift (DefaultJournalPath (FI_STATE_DIR env) (ProgramData env) scopeID) ;;
  check! lift (resource_path env) ;;
  check! (if shouldRecoverInterrupted env then
            let! (_, err) := RecoverInterrupted journalName scopeID in
            match err with Some e => throw e | None => ret tt end
          else ret tt) ;;
  let! readStarted := Start scopeID OperationUSNRead in
  check! AppendStarted journalName readStarted ;;
  check! match read_resources env with
         | Err e => join_after e (finishFailedOperation journalName readStarted (bs "ResourceJournalStartFailed"))
         | r => lift r
         end ;;
  let! batch := match ReadJournal (ctx_read env) (root_handle env) (reader_broker env) (time_read env) scopeID governedRoot startUSN with
                | Err e => join_after (join_res e (read_resources_finish env))
                             (finishFailedOperation journalName readStarted (bs "USNReadFailed"))
                | r => lift r
                end in
  let! readRecord := finishOperation journalName readStarted OperationComplete [] (read_resources_finish env) in
  let! reobserveStarted := Start scopeID OperationReObservation in
  check! AppendStarted journalName reobserveStarted ;;
  check! match reobserve_resources env with
         | Err e => join_after e (finishFailedOperation journalName reobserveStarted (bs "ResourceJournalStartFailed"))
         | r => lift r
         end ;;
  let result := reobserveBatchWithDependencies (reobserve_deps env) governedRoot batch in
  let '(outcome, reason) := reobservationOperationOutcome (ctx_done env) result in
  let! reobserveRecord := finishOperation journalName reobserveStarted outcome reason (reobserve_resources_finish env) in
  ret {| USNReadOperation := readRecord; ReObservationOperation := reobserveRecord; Result := result |}.

(** ** The next batch *)

Definition ErrUSNContinuityGap : error := Sentinel "USN continuity gap".

Definition validateUSNNextBatch (assessment : ContinuityAssessment) (batch : USNReadBatch) : res unit :=
  let value := AssessedCheckpoint assessment in
  fail? negb (bool_decide (AssessmentStatus assessment = ContinuityContinuous)) with ErrUSNContinuityGap ;;
  fail? negb (bool_decide (BatchScopeID batch = CheckpointScopeID value)) with Errorf "USN batch scope does not match checkpoint" ;;
  fail? negb (bool_decide (BatchJournalID batch = CheckpointJournal value))
    with Errorf "USN journal changed between checkpoint check and read" ;;
  fail? negb (bool_decide (StartUSN batch = CheckpointNext value)) with Errorf "USN batch did not start at checkpoint NextUSN" ;;
  fail? negb (bool_decide (VolumeGUID (BatchVolumeIdentity batch) = VolumeGUID (RootVolumeIdentity (CheckpointRoot value)))) ||
        negb (bool_decide (VolumeSerial (BatchVolumeIdentity batch) = VolumeSerial (RootVolumeIdentity (CheckpointRoot value))))
    with Errorf "USN batch volume does not match checkpoint governed-root volume" ;;
  Ok tt.

(** ** The state of a run *)

Record collector_state := CS { cs_spool : spoolwriter.spool_state; cs_state : dir; cs_ops : ops_state }.

Definition on_spool {A} (p : prog spoolwriter.spool_state A) : prog collector_state A := fun s =>
  let '(r, x) := p (cs_spool s) in (r, CS x (cs_state s) (cs_ops s)).
Definition on_state {A} (p : prog dir A) : prog collector_state A := fun s =>
  let '(r, x) := p (cs_state s) in (r, CS (cs_spool s) x (cs_ops s)).
Definition on_ops {A} (p : prog ops_state A) : prog collector_state A := fun s =>
  let '(r, x) := p (cs_ops s) in (r, CS (cs_spool s) (cs_state s) x).

Definition advanceUSNAfterScopeDecision (env : run_env) (stateName : bytes) (assessment : ContinuityAssessment) (batch : USNReadBatch)
  : prog dir (ContinuityAssessment * USNCheckpoint) :=
  let! refreshed := Check (time_refresh env) stateName (root_refresh env) (journal_refresh env) in
  fail! negb (bool_decide (AssessmentStatus refreshed = ContinuityContinuous)) with Wrap "%w: %s" ErrUSNContinuityGap ;;
  check! lift (validateUSNNextBatch refreshed batch) ;;
  let! advanced := Advance (time_advance env) stateName refreshed (CheckpointNext (AssessedCheckpoint assessment)) (BatchNextUSN batch) in
  ret (refreshed, advanced).

(** ** What is written *)

Record spooledUSNReadBoundary := {
  BoundaryObservedAt : bytes; BoundaryCollectionMethod : bytes; BoundaryVolumeIdentity : VolumeIdentity; BoundaryJournalID : bytes;
  BoundaryStartUSN : bytes; BoundaryNextUSN : bytes; SourceRecordCount : Z; SourceDistinctObjectCount : Z;
  SelectedRecordCount : Z; SelectedObjectCount : Z; IgnoredVolumeRecordCount : Z; IgnoredVolumeObjectCount : Z;
  ScopeUnresolvedObjectCount : Z; USNReadOperationID : bytes; ReObservationOperationID : bytes
}.

Record spooledUSNObjectObservation := {
  ObjectFileIdentity : NTFSObjectIdentity; ObjectChanges : list USNChangeObservation; ObjectScopeBasis : scopeBasis;
  ObjectScopeDetail : bytes; ObjectStatus : ReobservationStatus; ObjectReasonCode : bytes; ObjectError : bytes;
  ObjectNTFS : option Observation; ObjectContentHashes : option ContentHashObservation
}.

Context `{JSON spooledUSNReadBoundary} `{JSON spooledUSNObjectObservation}.

Definition boundaryOf (result : JournaledReobservationResult) (selection : usnScopeSelection Observation)
  : spooledUSNReadBoundary :=
  let batch := USNBatch (Result result) in {|
  BoundaryObservedAt := BatchObservedAt batch; BoundaryCollectionMethod := BatchCollectionMethod batch;
  BoundaryVolumeIdentity := BatchVolumeIdentity batch; BoundaryJournalID := BatchJournalID batch;
  BoundaryStartUSN := StartUSN batch; BoundaryNextUSN := BatchNextUSN batch;
  SourceRecordCount := len (Records batch); SourceDistinctObjectCount := len (Reobservations (Result result));
  SelectedRecordCount := SelectedUSNRecords selection; SelectedObjectCount := len (Selected selection);
  IgnoredVolumeRecordCount := IgnoredVolumeUSNRecords selection; IgnoredVolumeObjectCount := IgnoredVolumeObjects selection;
  ScopeUnresolvedObjectCount := ScopeUnresolvedObjects selection;
  USNReadOperationID := OperationID (USNReadOperation result); ReObservationOperationID := OperationID (ReObservationOperation result) |}.

(** The record of one object, and whether its hashes are an error. *)
Definition objectRecord (selection : selectedUSNObject Observation) : res (spooledUSNObjectObservation * bool) :=
  let r := SelReobservation selection in
  let record ntfs hashes := {|
    ObjectFileIdentity := ReFileIdentity r; ObjectChanges := SelChanges selection; ObjectScopeBasis := ScopeBasis selection;
    ObjectScopeDetail := ScopeDetail selection; ObjectStatus := Status r; ObjectReasonCode := ReReasonCode r; ObjectError := ReError r;
    ObjectNTFS := ntfs; ObjectContentHashes := hashes |} in
  match ReObservation r with
  | Some observation =>
      if bool_decide (Status r = ReobservationObserved) then
        match ContentHashes observation with
        | None => Err (Errorf "USN re-observation missing integrated content hashes")
        | Some hashes =>
            check? ValidateContentHashObservation hashes ;;
            Ok (record (Some (withoutContentHashes observation)) (Some hashes), bool_decide (HashState hashes = ContentHashError))
        end
      else Ok (record (Some observation) None, false)
  | None => Ok (record None None, false)
  end.

(** ** The run *)

Record usnSpoolNextSummary := {
  StatePath : bytes; SpoolDir : bytes; Assessment : option ContinuityAssessment; SummaryStartUSN : bytes; SummaryNextUSN : bytes;
  SourceUSNRecords : Z; DistinctObjects : Z; SummarySelectedUSNRecords : Z; SelectedObjects : Z; SummaryIgnoredVolumeUSNRecords : Z;
  SummaryIgnoredVolumeObjects : Z; SummaryScopeUnresolvedObjects : Z; SpooledObjects : Z; OutsideScopeObjects : Z;
  UnavailableObjects : Z; ReobservationErrors : Z; HashErrors : Z; Batches : list spoolwriter.FinalizedBatch; VerifiedBatches : Z;
  CheckpointAdvanced : bool; AdvancedCheckpoint : option USNCheckpoint
}.

Definition emptySummary : usnSpoolNextSummary := {|
  StatePath := []; SpoolDir := []; Assessment := None; SummaryStartUSN := []; SummaryNextUSN := []; SourceUSNRecords := 0;
  DistinctObjects := 0; SummarySelectedUSNRecords := 0; SelectedObjects := 0; SummaryIgnoredVolumeUSNRecords := 0;
  SummaryIgnoredVolumeObjects := 0; SummaryScopeUnresolvedObjects := 0; SpooledObjects := 0; OutsideScopeObjects := 0;
  UnavailableObjects := 0; ReobservationErrors := 0; HashErrors := 0; Batches := []; VerifiedBatches := 0;
  CheckpointAdvanced := false; AdvancedCheckpoint := None |}.

(** The summary before the writer exists: paths, assessment, the counts of the source and of
    the selection. *)
Definition with_path (statePath : bytes) : usnSpoolNextSummary := {|
  StatePath := statePath; SpoolDir := []; Assessment := None; SummaryStartUSN := []; SummaryNextUSN := []; SourceUSNRecords := 0;
  DistinctObjects := 0; SummarySelectedUSNRecords := 0; SelectedObjects := 0; SummaryIgnoredVolumeUSNRecords := 0;
  SummaryIgnoredVolumeObjects := 0; SummaryScopeUnresolvedObjects := 0; SpooledObjects := 0; OutsideScopeObjects := 0;
  UnavailableObjects := 0; ReobservationErrors := 0; HashErrors := 0; Batches := []; VerifiedBatches := 0;
  CheckpointAdvanced := false; AdvancedCheckpoint := None |}.
Definition with_assessment (assessment : ContinuityAssessment) (s : usnSpoolNextSummary) : usnSpoolNextSummary := {|
  StatePath := StatePath s; SpoolDir := SpoolDir s; Assessment := Some assessment;
  SummaryStartUSN := CheckpointNext (AssessedCheckpoint assessment); SummaryNextUSN := SummaryNextUSN s;
  SourceUSNRecords := SourceUSNRecords s; DistinctObjects := DistinctObjects s;
  SummarySelectedUSNRecords := SummarySelectedUSNRecords s; SelectedObjects := SelectedObjects s;
  SummaryIgnoredVolumeUSNRecords := SummaryIgnoredVolumeUSNRecords s; SummaryIgnoredVolumeObjects := SummaryIgnoredVolumeObjects s;
  SummaryScopeUnresolvedObjects := SummaryScopeUnresolvedObjects s; SpooledObjects := SpooledObjects s;
  OutsideScopeObjects := OutsideScopeObjects s; UnavailableObjects := UnavailableObjects s;
  ReobservationErrors := ReobservationErrors s; HashErrors := HashErrors s; Batches := Batches s; VerifiedBatches := VerifiedBatches s;
  CheckpointAdvanced := CheckpointAdvanced s; AdvancedCheckpoint := AdvancedCheckpoint s |}.
Definition with_selection (spoolDir : bytes) (result : ReobservationBatch Observation) (selection : usnScopeSelection Observation)
    (s : usnSpoolNextSummary) : usnSpoolNextSummary := {|
  StatePath := StatePath s; SpoolDir := spoolDir; Assessment := Assessment s; SummaryStartUSN := SummaryStartUSN s;
  SummaryNextUSN := BatchNextUSN (USNBatch result); SourceUSNRecords := len (Records (USNBatch result));
  DistinctObjects := len (Reobservations result); SummarySelectedUSNRecords := SelectedUSNRecords selection;
  SelectedObjects := len (Selected selection); SummaryIgnoredVolumeUSNRecords := IgnoredVolumeUSNRecords selection;
  SummaryIgnoredVolumeObjects := IgnoredVolumeObjects selection; SummaryScopeUnresolvedObjects := ScopeUnresolvedObjects selection;
  SpooledObjects := SpooledObjects s; OutsideScopeObjects := OutsideScopeObjects s; UnavailableObjects := UnavailableObjects s;
  ReobservationErrors := ReobservationErrors s; HashErrors := HashErrors s; Batches := Batches s; VerifiedBatches := VerifiedBatches s;
  CheckpointAdvanced := CheckpointAdvanced s; AdvancedCheckpoint := AdvancedCheckpoint s |}.
(** One object is counted by its status before it is appended, then by its hashes and as
    spooled. *)
Definition count_object (status : option ReobservationStatus) (hashError spooled : bool) (s : usnSpoolNextSummary) : usnSpoolNextSummary :=
  let one (b : bool) := if b then 1 else 0 in {|
  StatePath := StatePath s; SpoolDir := SpoolDir s; Assessment := Assessment s; SummaryStartUSN := SummaryStartUSN s;
  SummaryNextUSN := SummaryNextUSN s; SourceUSNRecords := SourceUSNRecords s; DistinctObjects := DistinctObjects s;
  SummarySelectedUSNRecords := SummarySelectedUSNRecords s; SelectedObjects := SelectedObjects s;
  SummaryIgnoredVolumeUSNRecords := SummaryIgnoredVolumeUSNRecords s; SummaryIgnoredVolumeObjects := SummaryIgnoredVolumeObjects s;
  SummaryScopeUnresolvedObjects := SummaryScopeUnresolvedObjects s; SpooledObjects := SpooledObjects s + one spooled;
  OutsideScopeObjects := OutsideScopeObjects s + one (bool_decide (status = Some ReobservationOutsideGovernedRoot));
  UnavailableObjects := UnavailableObjects s + one (bool_decide (status = Some ReobservationUnavailable));
  ReobservationErrors := ReobservationErrors s + one (bool_decide (status = Some ReobservationError));
  HashErrors := HashErrors s + one hashError; Batches := Batches s; VerifiedBatches := VerifiedBatches s;
  CheckpointAdvanced := CheckpointAdvanced s; AdvancedCheckpoint := AdvancedCheckpoint s |}.
Definition with_batches (batches : list spoolwriter.FinalizedBatch) (s : usnSpoolNextSummary) : usnSpoolNextSummary := {|
  StatePath := StatePath s; SpoolDir := SpoolDir s; Assessment := Assessment s; SummaryStartUSN := SummaryStartUSN s;
  SummaryNextUSN := SummaryNextUSN s; SourceUSNRecords := SourceUSNRecords s; DistinctObjects := DistinctObjects s;
  SummarySelectedUSNRecords := SummarySelectedUSNRecords s; SelectedObjects := SelectedObjects s;
  SummaryIgnoredVolumeUSNRecords := SummaryIgnoredVolumeUSNRecords s; SummaryIgnoredVolumeObjects := SummaryIgnoredVolumeObjects s;
  SummaryScopeUnresolvedObjects := SummaryScopeUnresolvedObjects s; SpooledObjects := SpooledObjects s;
  OutsideScopeObjects := OutsideScopeObjects s; UnavailableObjects := UnavailableObjects s;
  ReobservationErrors := ReobservationErrors s; HashErrors := HashErrors s; Batches := batches; VerifiedBatches := len batches;
  CheckpointAdvanced := CheckpointAdvanced s; AdvancedCheckpoint := AdvancedCheckpoint s |}.
Definition with_advanced (refreshed : ContinuityAssessment) (advanced : USNCheckpoint) (s : usnSpoolNextSummary) : usnSpoolNextSummary := {|
  StatePath := StatePath s; SpoolDir := SpoolDir s; Assessment := Some refreshed; SummaryStartUSN := SummaryStartUSN s;
  SummaryNextUSN := SummaryNextUSN s; SourceUSNRecords := SourceUSNRecords s; DistinctObjects := DistinctObjects s;
  SummarySelectedUSNRecords := SummarySelectedUSNRecords s; SelectedObjects := SelectedObjects s;
  SummaryIgnoredVolumeUSNRecords := SummaryIgnoredVolumeUSNRecords s; SummaryIgnoredVolumeObjects := SummaryIgnoredVolumeObjects s;
  SummaryScopeUnresolvedObjects := SummaryScopeUnresolvedObjects s; SpooledObjects := SpooledObjects s;
  OutsideScopeObjects := OutsideScopeObjects s; UnavailableObjects := UnavailableObjects s;
  ReobservationErrors := ReobservationErrors s; HashErrors := HashErrors s; Batches := Batches s; VerifiedBatches := VerifiedBatches s;
  CheckpointAdvanced := true; AdvancedCheckpoint := Some advanced |}.

(** The variable [summary] beside the state: what an early return returns. *)
Abbreviation run_state := (collector_state * usnSpoolNextSummary)%type.
Definition note (f : usnSpoolNextSummary -> usnSpoolNextSummary) : prog run_state unit := fun '(s, x) => (Ok tt, (s, f x)).

(** The loop over the selected objects; [i] counts the turns. *)
Fixpoint appendObjects (env : run_env) (scopeID : bytes) (i : nat) (selected : list (selectedUSNObject Observation))
  : prog run_state unit :=
  match selected with
  | [] => ret tt
  | selection :: selected =>
      check! match ctx_loop env i with Some e => throw e | None => ret tt end ;;
      check! note (count_object (Some (Status (SelReobservation selection))) false false) ;;
      let! (record, hashError) := lift (objectRecord selection) in
      check! note (count_object None hashError false) ;;
      check! on_fst (on_spool (spoolwriter.Append (bs "USNObjectObservation") scopeID (json_Marshal record))) ;;
      check! note (count_object None false true) ;;
      appendObjects env scopeID (S i) selected
  end.

Definition advanceAndNote (env : run_env) (stateName : bytes) (assessment : ContinuityAssessment) (batch : USNReadBatch)
  : prog run_state unit :=
  let! (refreshed, advanced) := on_fst (on_state (advanceUSNAfterScopeDecision env stateName assessment batch)) in
  note (with_advanced refreshed advanced).

(** After [NewWriter]: the records, the close, the SIDs and the checkpoint. *)
Definition spoolSelected (env : run_env) (scopeID stateName : bytes) (assessment : ContinuityAssessment)
    (result : JournaledReobservationResult) (selection : usnScopeSelection Observation) : prog run_state unit :=
  check! on_fst (on_spool (spoolwriter.Append (bs "USNReadBoundary") scopeID (json_Marshal (boundaryOf result selection)))) ;;
  check! appendObjects env scopeID 0 (Selected selection) ;;
  check! on_fst (on_spool spoolwriter.Close) ;;
  check! (fun '(s, x) => (Ok tt, (s, with_batches (spoolwriter.FinalizedBatches (spoolwriter.writer (cs_spool s))) x))) ;;
  check! lift (merge_SIDs env (Selected selection)) ;;
  advanceAndNote env stateName assessment (USNBatch (Result result)).

(** The deferred function: the writer is closed again, the summary reports what was
    finalized, and the two errors are joined. *)
Definition finalizeSpoolWriterOnReturn (p : prog run_state unit) : prog run_state unit := fun s =>
  let '(r, (s, x)) := p s in
  let '(closeErr, s) := on_spool spoolwriter.Close s in
  let x := with_batches (spoolwriter.FinalizedBatches (spoolwriter.writer (cs_spool s))) x in
  (match r, closeErr with
   | Panic, _ | _, Panic => Panic
   | Ok _, Ok _ => Ok tt
   | Err e, Ok _ | Ok _, Err e => Err e
   | Err e, Err e' => Err (Join e e')
   end, (s, x)).

Definition writeUSNSpoolNext (env : run_env) (scopeID governedRoot : bytes) : prog run_state unit :=
  let stateName := scopeID ++ bs "-usn.json" in
  check! note (fun _ => emptySummary) ;;
  let! statePath := lift (DefaultPath (FI_STATE_DIR env) (ProgramData env) scopeID) in
  check! note (fun _ => with_path statePath) ;;
  let! assessment := on_fst (on_state (Check (time_check env) stateName (root_check env) (journal_check env))) in
  check! note (with_assessment assessment) ;;
  fail! negb (bool_decide (AssessmentStatus assessment = ContinuityContinuous)) with Wrap "%w: %s" ErrUSNContinuityGap ;;
  let! result := on_fst (on_ops (ReadAndReobserveJournaled env scopeID governedRoot (CheckpointNext (AssessedCheckpoint assessment)))) in
  let batch := USNBatch (Result result) in
  check! lift (validateUSNNextBatch assessment batch) ;;
  let! selection := lift (selectUSNObjectsForSpool (groupUSNChanges (Records batch))
                            (RootObjectIdentity (CurrentGovernedRoot assessment))
                            (checkRecordedParentScope (parent_deps env) scopeID governedRoot) (Reobservations (Result result))) in
  check! note (with_selection [] (Result result) selection) ;;
  let! dir := lift (spoolwriter.DefaultDir (env_policy env) (FI_SPOOL_DIR env) (ProgramData env)) in
  check! note (with_selection dir (Result result) selection) ;;
  if bool_decide (length (Selected selection) = 0%nat) then advanceAndNote env stateName assessment batch else
  let! executable := lift (current_executable env) in
  check! on_fst (on_spool (spoolwriter.NewWriter (env_platform env) (env_policy env) dir spoolwriter.DefaultBatchSize executable)) ;;
  finalizeSpoolWriterOnReturn (spoolSelected env scopeID stateName assessment result selection).

End Run.
(** ** No range is skipped

    The history of a collector: runs with any answers of the environment and any failures,
    recoveries of the spool, and power failures. *)

Section Safety.
Context {Observation : Type} `{NTFSObservation Observation} `{Unicode} {K : OperationClock} {C : spoolwriter.Clock}.
Context `{JSONLaws USNCheckpoint} `{JSON JournalEntry} `{JSON spool.Manifest} `{JSON spoolwriter.SpoolRecord}.
Context `{JSON spooledUSNReadBoundary} `{JSON (spooledUSNObjectObservation (Observation:=Observation))}.
Context (scopeID governedRoot pub work : bytes).
Abbreviation stateName := (scopeID ++ bs "-usn.json").
Abbreviation run_env := (run_env (Observation:=Observation)).

(** The spool of a run is the directory [pub] and its collector work directory [work]. *)
Definition spool_at (env : run_env) : Prop := forall dir publication workDir,
  spoolwriter.DefaultDir (env_policy env) (FI_SPOOL_DIR env) (ProgramData env) = Ok dir ->
  spoolwriter.resolveDirectoryPath (env_platform env) (filepath_Clean dir) = Ok publication ->
  spoolwriter.CollectorWorkDir (env_platform env) dir = Ok workDir ->
  filepath_Base publication = pub /\ filepath_Base workDir = work.

Definition disk_of (s : collector_state) : dir := spoolwriter.disk (cs_spool s).
Definition tick_of (s : collector_state) : nat := spoolwriter.tick (cs_spool s).

(** What a collector does: a run, the recovery of the spool at start-up and the preservation of
    interrupted artifacts. A run starts with a writer and an operation journal of its own, and
    each has its own failures to come. [durably] chooses between two kinds of histories. Without
    it the calls fail in any way, and there is no power failure. With it the power may fail
    between two steps, and every step has a [clean] schedule for the spool: a call on the spool's
    disk that fails has no effect, neither a move that is reported as failed after it took place
    nor a part of a write. The disk of the checkpoint fails in any way in both. *)
Inductive history_step (durably : Prop) (s s' : collector_state) : Prop :=
| history_run env w fs fs' ops x r x' : spool_at env -> (durably -> clean (set_faults fs (disk_of s))) ->
    writeUSNSpoolNext env scopeID governedRoot
      (CS (spoolwriter.SS w (set_faults fs (disk_of s)) (tick_of s)) (set_faults fs' (cs_state s)) ops, x) = (r, (s', x')) ->
    history_step durably s s'
| history_recover platform spoolDir quarantine w fs r : spoolrecovery.dirs_at work pub quarantine platform spoolDir ->
    spoolsafety.slash_free quarantine -> quarantine <> work -> quarantine <> pub -> (durably -> clean (set_faults fs (disk_of s))) ->
    spoolrecovery.RecoverAbandonedPublications platform spoolDir (spoolwriter.SS w (set_faults fs (disk_of s)) (tick_of s)) = (r, cs_spool s') ->
    cs_state s' = cs_state s -> history_step durably s s'
| history_preserve spoolDir fs r : filepath_Base spoolDir = pub -> spoolrecovery.batches_are_files pub (disk_of s) ->
    (durably -> clean (set_faults fs (disk_of s))) ->
    spoolrecovery.PreserveInterruptedArtifacts spoolDir (set_faults fs (disk_of s)) = (r, disk_of s') ->
    tick_of s' = tick_of s -> cs_state s' = cs_state s -> history_step durably s s'
| history_power : durably -> crash (disk_of s) (disk_of s') -> crash (cs_state s) (cs_state s') -> tick_of s' = tick_of s ->
    history_step durably s s'.

(** The line of the record of an object. *)
Definition object_line (o : selectedUSNObject Observation) (line : bytes) : Prop :=
  exists record hashError, objectRecord o = Ok (record, hashError) /\
    spoolsafety.appended (bs "USNObjectObservation") scopeID (json_Marshal record) line.

(** The lines of a run are in consecutive batches: the boundary, then one record for each
    selected object. *)
Definition spooled (batches : list (spoolwriter.FinalizedBatch * bytes)) (result : JournaledReobservationResult)
    (selection : usnScopeSelection Observation) : Prop :=
  exists before part after boundary lines, batches = before ++ part ++ after /\
    concat part.*2 = boundary ++ concat lines /\
    spoolsafety.appended (bs "USNReadBoundary") scopeID (json_Marshal (boundaryOf result selection)) boundary /\
    Forall2 object_line (Selected selection) lines.

(** The range of a batch is accounted for: the batch was read from the journal, its objects
    were observed again, and what the scope selection kept is in the spool. *)
Definition accounted (batches : list (spoolwriter.FinalizedBatch * bytes)) (batch : USNReadBatch) : Prop :=
  exists env result selection root,
    ReadJournal (ctx_read env) (root_handle env) (reader_broker env) (time_read env) scopeID governedRoot (StartUSN batch) = Ok batch /\
    Result result = reobserveBatchWithDependencies (reobserve_deps env) governedRoot batch /\
    selectUSNObjectsForSpool (groupUSNChanges (Records batch)) root (checkRecordedParentScope (parent_deps env) scopeID governedRoot)
      (Reobservations (Result result)) = Ok selection /\
    (Selected selection = [] \/ spooled batches result selection).

(** Ranges that follow each other. *)
Inductive ranges (P : USNReadBatch -> Prop) (from : bytes) : bytes -> Prop :=
| ranges_none : ranges P from from
| ranges_next batch : ranges P from (StartUSN batch) -> P batch -> ranges P from (BatchNextUSN batch).

Lemma ranges_mono (P Q : USNReadBatch -> Prop) from to : (forall b, P b -> Q b) -> ranges P from to -> ranges Q from to.
Proof. induction 2; [constructor|econstructor; eauto]. Qed.

Lemma spooled_more batches more result selection : spooled batches result selection -> spooled (batches ++ more) result selection.
Proof.
  intros (before & part & after & boundary & lines & -> & Hrest). exists before, part, (after ++ more), boundary, lines.
  by rewrite <- !app_assoc.
Qed.
Lemma accounted_more batches more b : accounted batches b -> accounted (batches ++ more) b.
Proof.
  intros (env & result & selection & root & ? & ? & ? & Hsp). exists env, result, selection, root. split_and!; try done.
  destruct Hsp; [by left|right; by apply spooled_more].
Qed.

(** *** Calls that change neither the spool nor the checkpoint *)

Definition calm (a b : collector_state * usnSpoolNextSummary) : Prop :=
  same (disk_of a.1) (disk_of b.1) /\ tick_of b.1 = tick_of a.1 /\ same_dir (cs_state a.1) (cs_state b.1).
#[local] Instance calm_PreOrder : PreOrder calm.
Proof.
  split; [intros a; by split_and!|]. intros a b c (Ha & Hb & Hc) (Ha' & Hb' & Hc').
  split_and!; [by etrans|congruence|by etrans].
Qed.

Lemma calm_note f : keeps calm (note f).
Proof. intros [s x]. by split_and!. Qed.
Lemma calm_on_ops {A} (p : prog ops_state A) : keeps calm (on_fst (on_ops p)).
Proof. intros [s x]. unfold on_fst, on_ops. destruct (p (cs_ops s)). by split_and!. Qed.
Lemma calm_on_state {A} (p : prog dir A) : quiet p -> keeps calm (on_fst (on_state p)).
Proof.
  intros Hp [s x]. unfold on_fst, on_state. specialize (Hp (cs_state s)). destruct (p (cs_state s)). by split_and!.
Qed.
Lemma calm_on_spool {A} (p : prog spoolwriter.spool_state A) :
  keeps (fun a b => same (spoolwriter.disk a) (spoolwriter.disk b) /\ spoolwriter.tick b = spoolwriter.tick a) p ->
  keeps calm (on_fst (on_spool p)).
Proof.
  intros Hp [s x]. unfold on_fst, on_spool. specialize (Hp (cs_spool s)). destruct (p (cs_spool s)).
  destruct Hp. by split_and!.
Qed.
Lemma quiet_Check now root journal : quiet (Check now stateName root journal).
Proof. pose proof (quiet_Load stateName) as Hq. unfold Check. quiet. Qed.

Definition still (a b : spoolwriter.spool_state) : Prop :=
  same (spoolwriter.disk a) (spoolwriter.disk b) /\ spoolwriter.tick b = spoolwriter.tick a.
#[local] Instance still_PreOrder : PreOrder still.
Proof. split; [intros a; by split|]. intros a b c [Ha Hb] [Ha' Hb']. split; [by etrans|congruence]. Qed.

Lemma still_on_disk {A} (p : prog dir A) : reads p -> keeps still (spoolwriter.on_disk p).
Proof. intros Hp s. unfold spoolwriter.on_disk. specialize (Hp (spoolwriter.disk s)). by destruct (p (spoolwriter.disk s)). Qed.
Lemma still_put w : keeps still (spoolwriter.put w).
Proof. by intros s. Qed.
Lemma still_NewWriter platform policy dir batchSize collector :
  keeps still (spoolwriter.NewWriter platform policy dir batchSize collector).
Proof.
  assert (reads (@syscall unit (ret tt))) as Hs by (apply reads_syscall, keeps_ret, _).
  unfold spoolwriter.NewWriter. repeat first [keeps1|apply still_put|apply still_on_disk].
Qed.

(** A writer that was made is a new one, on the two directories. *)
Lemma NewWriter_Ok platform policy dir batchSize collector s s' :
  spoolwriter.NewWriter platform policy dir batchSize collector s = (Ok tt, s') ->
  exists limits publication workDir, spoolwriter.resolveDirectoryPath platform (filepath_Clean dir) = Ok publication /\
    spoolwriter.CollectorWorkDir platform dir = Ok workDir /\
    spoolwriter.writer s' = spoolwriter.newWriter limits (filepath_Base publication) (filepath_Base workDir) batchSize collector.
Proof.
  unfold spoolwriter.NewWriter. intros Hr. res_inv Hr. do 3 eexists. split_and!; [eassumption..|]. injection Hr as <-. done.
Qed.

(** *** The invariant *)

Context (Hscope : safeScopeID scopeID = true) (Hpub : spoolsafety.slash_free pub) (Hwork : spoolsafety.slash_free work) (Hne : work <> pub).
Context (Hids : forall k id, spoolwriter.newBatchID k = Ok id -> length id = spoolsafety.id_length)
        (Hinj : forall k k' id, spoolwriter.newBatchID k = Ok id -> spoolwriter.newBatchID k' = Ok id -> k = k').
Context (durably : Prop) (start : bytes).

Lemma state_name k : stateName <> temp_name tempPrefix tempSuffix k.
Proof.
  pose proof Hscope as Hs. unfold safeScopeID in Hs. apply andb_true_iff in Hs as [Hs Hp]. intros E.
  destruct scopeID as [|c rest]; [done|]. injection E as -> _.
  rewrite (proj2 (HasPrefix_spec _ _)) in Hp; [done|]. by exists rest.
Qed.

Definition batches_of (old : list (spoolsafety.entry * spoolwriter.FinalizedBatch)) : list (spoolwriter.FinalizedBatch * bytes) :=
  map (fun '(e, fb) => (fb, spoolsafety.e_h e)) old.

Record spool_ok (d : dir) (t : nat) (old : list (spoolsafety.entry * spoolwriter.FinalizedBatch)) : Prop := {
  so_wf : wf d;
  so_final : Forall2 (spoolsafety.final_ok work pub durably d) old.*1 old.*2;
  so_drawn : Forall (fun e => spoolsafety.drawn t (spoolsafety.e_id e)) old.*1;
  so_unused k id : (t <= k)%nat -> spoolwriter.newBatchID k = Ok id -> spoolsafety.unused work pub d id
}.

Record good (s : collector_state) (old : list (spoolsafety.entry * spoolwriter.FinalizedBatch)) (visible stored : USNCheckpoint) : Prop := {
  gd_spool : spool_ok (disk_of s) (tick_of s) old;
  gd_state : state_ok stateName (cs_state s) visible stored;
  gd_visible : ranges (accounted (batches_of old)) start (CheckpointNext visible);
  gd_stored : ranges (accounted (batches_of old)) start (CheckpointNext stored)
}.

Definition some_good (s : collector_state) : Prop := exists old visible stored, good s old visible stored.

Lemma spool_same d d' t old : names d' = names d -> durable d' = durable d -> inodes d' = inodes d -> wf d' ->
  spool_ok d t old -> spool_ok d' t old.
Proof.
  intros En Ed Ei Hwf []. constructor; try done.
  - eapply Forall2_impl; [exact so_final0|]. intros e fb []. constructor; unfold spoolsafety.manifest_file in *; rewrite ?En, ?Ed, ?Ei; done.
  - intros k id Hk E k'. rewrite En, Ed. by apply (so_unused0 k id).
Qed.

Lemma good_calm a b old visible stored : calm a b -> good a.1 old visible stored -> good b.1 old visible stored.
Proof.
  intros (Hs & Ht & [fs Hst]) []. constructor; try done.
  - rewrite Ht. pose proof (same_wf _ _ Hs (so_wf _ _ _ gd_spool0)). destruct Hs as (? & ? & ? & _). by eapply spool_same.
  - rewrite Hst. by apply state_faults.
Qed.

Lemma spool_careful d d' t t' old : (t <= t')%nat -> spool_ok d t old -> spoolrecovery.careful work pub None d d' -> spool_ok d' t' old.
Proof.
  intros Ht [] Hc. destruct (Hc so_wf0). constructor; try done.
  - eapply Forall2_impl; [exact so_final0|]. intros e fb [Hl Hp [N1 N2] (nd & Hnd & Hrest) (ndg & Hndg & Hrestg) Ha Hdur].
    assert (spoolrecovery.pair_at work pub d (spoolsafety.e_id e)) as Hpair by (split; eauto).
    destruct (cf_pairs _ spoolsafety.KPdat ltac:(done) Hpair ltac:(auto)) as [E1 E2], (cf_pairs _ spoolsafety.KPman ltac:(done) Hpair ltac:(auto)) as [E3 E4].
    constructor; rewrite ?E1, ?E2, ?E3, ?E4; auto; [exists nd; auto|exists ndg; auto].
  - eapply Forall_impl; [exact so_drawn0|]. intros e (k & Hk & E). exists k. split; [lia|done].
  - intros k id Hk E. apply cf_unused, (so_unused0 k); [lia|done].
Qed.

Lemma spool_crash d d' t old : durably -> crash d d' -> spool_ok d t old -> spool_ok d' t old.
Proof.
  intros HC Hc []. pose proof (crash_wf_dir _ _ Hc so_wf0) as Hwf. destruct Hc as (Hn & Hd & _ & Hi). constructor; try done.
  - eapply Forall2_impl; [exact so_final0|]. intros e fb []. destruct (fo_durable HC) as [D1 D2], fo_names as [N1 N2].
    assert (forall i nd, inodes d !! i = Some nd -> i_synced nd = true -> inodes d' !! i = Some nd) as Hkeep.
    { intros i nd E Esy. specialize (Hi i). rewrite E in Hi. destruct Hi as (nd' & -> & _ & Hsame). by rewrite Hsame. }
    assert (forall k f, names d !! spoolsafety.path work pub k (spoolsafety.e_id e) = Some f ->
      durable d !! spoolsafety.path work pub k (spoolsafety.e_id e) = Some f ->
      names d' !! spoolsafety.path work pub k (spoolsafety.e_id e) = Some f) as Hname.
    { intros k f E1 E2. destruct (Hn (spoolsafety.path work pub k (spoolsafety.e_id e))) as [E|E]; by rewrite E. }
    destruct fo_data as (nd & G1 & G2 & G3 & G4), fo_manifest as (ndg & F1 & F2 & F3 & F4).
    constructor; rewrite ?Hd; auto; [exists nd; auto|exists ndg; auto].
  - intros k id Hk E k'. destruct (so_unused0 k id Hk E k') as [E1 E2]. rewrite Hd.
    destruct (Hn (spoolsafety.path work pub k' id)) as [->| ->]; done.
Qed.

(** *** The checkpoint moves over an accounted range *)

(** The strings an advance puts into a checkpoint can be encoded. *)
Context (Hascii : forall c next at_, json_ok c -> Validate (moved c next at_) = Ok tt -> json_ok (moved c next at_)).

Lemma validateUSNNextBatch_start assessment batch :
  validateUSNNextBatch assessment batch = Ok tt -> StartUSN batch = CheckpointNext (AssessedCheckpoint assessment).
Proof. unfold validateUSNNextBatch. intros Hv. res_inv Hv. by bool_hyps. Qed.

Lemma advanceAndNote_good (env : run_env) assessment batch s x r s' x' old visible stored :
  good s old visible stored -> validateUSNNextBatch assessment batch = Ok tt -> accounted (batches_of old) batch ->
  advanceAndNote env stateName assessment batch (s, x) = (r, (s', x')) ->
  cs_spool s' = cs_spool s /\ exists visible' stored', good s' old visible' stored'.
Proof.
  intros Hg Hv%validateUSNNextBatch_start Hacc Hr. unfold advanceAndNote, bind at 1, on_fst, on_state in Hr.
  destruct (advanceUSNAfterScopeDecision env stateName assessment batch (cs_state s)) as [r1 d1] eqn:E1.
  assert (s' = CS (cs_spool s) d1 (cs_ops s)) as -> by (by destruct r1 as [[]| |]; injection Hr).
  split; [done|]. clear Hr r x'. destruct Hg as [Hsp Hst Hvis Hsto].
  assert (forall d, same_dir (cs_state s) d -> state_ok stateName d visible stored) as Hquiet by (intros d [fs ->]; by apply state_faults).
  cut (exists visible' stored', state_ok stateName d1 visible' stored' /\
    ranges (accounted (batches_of old)) start (CheckpointNext visible') /\ ranges (accounted (batches_of old)) start (CheckpointNext stored')).
  { intros (v & t & ? & ? & ?). exists v, t. by constructor. }
  unfold advanceUSNAfterScopeDecision in E1. unfold bind at 1 in E1.
  pose proof (quiet_Check (time_refresh env) (root_refresh env) (journal_refresh env) (cs_state s)) as Hq.
  destruct (Check _ _ _ _ _) as [[refreshed|e|] d2]; cbn [snd] in Hq;
    [|injection E1 as _ <-; exists visible, stored; by auto..].
  destruct (negb _); [injection E1 as _ <-; exists visible, stored; by auto|]. unfold bind at 1, lift in E1.
  destruct (validateUSNNextBatch refreshed batch) as [[]| |]; [|injection E1 as _ <-; exists visible, stored; by auto..].
  unfold bind at 1 in E1. destruct (Advance _ _ _ _ _ d2) as [r3 d3] eqn:E3.
  assert (d1 = d3) as -> by (by destruct r3; injection E1).
  eapply (Advance_state stateName state_name Hascii) in E3 as (v' & t' & Hst' & _ & _ & Hcase & _); [|by apply Hquiet].
  exists v', t'. split; [done|]. destruct Hcase as [[-> ->]|(Hexp & v & Hnext & Hc1 & Hc2)]; [done|].
  assert (ranges (accounted (batches_of old)) start (CheckpointNext v)) as Hv'.
  { rewrite Hnext. constructor; [|done]. by rewrite Hv, <- Hexp. }
  destruct Hc1 as [->| ->], Hc2 as [->| ->]; auto.
Qed.

(** *** The writer of a run *)

Abbreviation steady := (spoolsafety.steady work pub durably).

(** When a run is over, what its writer finalized is kept with the earlier batches. *)
Lemma steady_settle old s es cur h : steady old s es cur h ->
  exists new, es = old.*1 ++ new /\ spool_ok (spoolwriter.disk s) (spoolwriter.tick s) (old ++ zip new (spoolwriter.w_finalized (spoolwriter.writer s))) /\
    batches_of (old ++ zip new (spoolwriter.w_finalized (spoolwriter.writer s))) =
      batches_of old ++ batches_of (zip new (spoolwriter.w_finalized (spoolwriter.writer s))) /\
    (batches_of (zip new (spoolwriter.w_finalized (spoolwriter.writer s)))).*2 = map spoolsafety.e_h new.
Proof.
  intros [[] _]. destruct iv_prefix as [new ->]. exists new.
  assert (length new = length (spoolwriter.w_finalized (spoolwriter.writer s))) as Hl.
  { apply Forall2_length in iv_final. rewrite !length_app, !length_fmap in iv_final. lia. }
  assert ((zip new (spoolwriter.w_finalized (spoolwriter.writer s))).*1 = new) as E1 by (apply fst_zip; lia).
  assert ((zip new (spoolwriter.w_finalized (spoolwriter.writer s))).*2 = spoolwriter.w_finalized (spoolwriter.writer s)) as E2
    by (apply snd_zip; lia).
  split_and!; [done|constructor; rewrite ?fmap_app, ?E1, ?E2; done|apply map_app|].
  rewrite <- E1 at 2. unfold batches_of. generalize (zip new (spoolwriter.w_finalized (spoolwriter.writer s))).
  intros l. induction l as [|[e fb] l IHl]; [done|]. cbn. by f_equal.
Qed.

Lemma append_step old recordKind payload s (x : usnSpoolNextSummary) r s' x' es cur h :
  steady old (cs_spool s) es cur h ->
  on_fst (on_spool (spoolwriter.Append recordKind scopeID payload)) (s, x) = (r, (s', x')) ->
  exists es' cur' h' line, steady old (cs_spool s') es' cur' h' /\ cs_state s' = cs_state s /\
    spoolsafety.accepted es' h' = spoolsafety.accepted es h ++ line /\
    (r = Ok tt -> spoolsafety.appended recordKind scopeID payload line).
Proof.
  intros Hs Hr. unfold on_fst, on_spool in Hr. destruct (spoolwriter.Append _ _ _ (cs_spool s)) as [r1 s1] eqn:E1.
  injection Hr as <- <- _. eapply (spoolsafety.perform_ok work pub Hwork Hpub Hne durably Hids Hinj old
    (spoolsafety.DoAppend recordKind scopeID payload)) in E1 as (es' & cur' & h' & line & Hs' & Ha & Hl); [|done].
  exists es', cur', h', line. split_and!; try done. intros ->. by destruct Hl as [|[_ []]].
Qed.

Lemma appendObjects_ok old (env : run_env) i selected s x r s' x' es cur h :
  steady old (cs_spool s) es cur h -> appendObjects env scopeID i selected (s, x) = (r, (s', x')) ->
  exists es' cur' h' lines, steady old (cs_spool s') es' cur' h' /\ cs_state s' = cs_state s /\
    spoolsafety.accepted es' h' = spoolsafety.accepted es h ++ concat lines /\ (r = Ok tt -> Forall2 object_line selected lines).
Proof.
  revert i s x es cur h. induction selected as [|o selected IH]; intros i s x es cur h Hs Hr.
  { injection Hr as <- <- _. exists es, cur, h, []. rewrite app_nil_r. by split_and!. }
  cbn [appendObjects] in Hr. unfold bind at 1 in Hr.
  assert (r <> Ok tt -> s' = s -> exists es' cur' h' lines, steady old (cs_spool s') es' cur' h' /\ cs_state s' = cs_state s /\
    spoolsafety.accepted es' h' = spoolsafety.accepted es h ++ concat lines /\ (r = Ok tt -> Forall2 object_line (o :: selected) lines)) as Hstop.
  { intros ? ->. exists es, cur, h, []. rewrite app_nil_r. by split_and!. }
  destruct (ctx_loop env i); [injection Hr as <- <- _; by apply Hstop|]. cbn [ret] in Hr. unfold bind at 1 in Hr. cbn [note] in Hr.
  unfold bind at 1, lift in Hr. destruct (objectRecord o) as [[record hashError]| |] eqn:Eo; [|injection Hr as <- <- _; by apply Hstop..].
  unfold bind at 1 in Hr. cbn [note] in Hr. unfold bind at 1 in Hr.
  match type of Hr with context [on_fst ?p ?st] => destruct (on_fst p st) as [r1 [s1 x1]] eqn:E1 end.
  eapply append_step in E1 as (es1 & cur1 & h1 & line & Hs1 & Hst1 & Ha1 & Hl); [|done].
  destruct r1 as [[]|e|].
  2,3: injection Hr as <- <- _; exists es1, cur1, h1, [line]; cbn [concat]; rewrite app_nil_r; by split_and!.
  unfold bind at 1 in Hr. cbn [note] in Hr. eapply IH in Hr as (es' & cur' & h' & lines & Hs' & Hst' & Ha' & Hls); [|done].
  exists es', cur', h', (line :: lines). cbn [concat]. split_and!; [done|congruence|by rewrite Ha', Ha1, app_assoc|].
  intros ->. constructor; [|by apply Hls]. exists record, hashError. auto.
Qed.

Lemma Close_step old s r s' es cur h : steady old s es cur h -> spoolwriter.Close s = (r, s') ->
  exists es' cur' h', steady old s' es' cur' h' /\ spoolsafety.accepted es' h' = spoolsafety.accepted es h /\
    (r = Ok tt -> spoolwriter.w_closed (spoolwriter.writer s') = true).
Proof.
  intros Hs Hr. assert (r = Ok tt -> spoolwriter.w_closed (spoolwriter.writer s') = true) as Hclosed.
  { intros ->. unfold spoolwriter.Close, bind at 1 in Hr. cbn [spoolwriter.get] in Hr.
    destruct (spoolwriter.w_closed (spoolwriter.writer s)) eqn:Ec; [by injection Hr as <-|].
    apply bind_Ok in Hr as ([] & s1 & _ & Hr). by injection Hr as <-. }
  eapply (spoolsafety.perform_ok work pub Hwork Hpub Hne durably Hids Hinj old spoolsafety.DoClose) in Hr
    as (es' & cur' & h' & x & Hs' & Ha & ->); [|done].
  exists es', cur', h'. rewrite app_nil_r in Ha. by split_and!.
Qed.

(** What the run established before it made its writer. *)
Record selected_by (env : run_env) (assessment : ContinuityAssessment) (result : JournaledReobservationResult)
    (selection : usnScopeSelection Observation) : Prop := {
  sb_read : ReadJournal (ctx_read env) (root_handle env) (reader_broker env) (time_read env) scopeID governedRoot
              (StartUSN (USNBatch (Result result))) = Ok (USNBatch (Result result));
  sb_result : Result result = reobserveBatchWithDependencies (reobserve_deps env) governedRoot (USNBatch (Result result));
  sb_selection : selectUSNObjectsForSpool (groupUSNChanges (Records (USNBatch (Result result))))
      (RootObjectIdentity (CurrentGovernedRoot assessment)) (checkRecordedParentScope (parent_deps env) scopeID governedRoot)
      (Reobservations (Result result)) = Ok selection;
  sb_next : validateUSNNextBatch assessment (USNBatch (Result result)) = Ok tt
}.

Lemma selected_accounted env assessment result selection batches :
  selected_by env assessment result selection -> Selected selection = [] \/ spooled batches result selection ->
  accounted batches (USNBatch (Result result)).
Proof. intros [] Hsp. by exists env, result, selection, (RootObjectIdentity (CurrentGovernedRoot assessment)). Qed.

(** A run whose writer is as it should be, with the checkpoint untouched. *)
Record running (old : list (spoolsafety.entry * spoolwriter.FinalizedBatch)) (visible stored : USNCheckpoint) (d : dir) (s : collector_state)
    (es : list spoolsafety.entry) (cur : option (bytes * nat)) (h : bytes) : Prop := {
  rn_steady : steady old (cs_spool s) es cur h;
  rn_same : cs_state s = d;
  rn_state : state_ok stateName d visible stored;
  rn_visible : ranges (accounted (batches_of old)) start (CheckpointNext visible);
  rn_stored : ranges (accounted (batches_of old)) start (CheckpointNext stored)
}.

Lemma running_good old visible stored d s es cur h : running old visible stored d s es cur h ->
  exists new, es = old.*1 ++ map fst new /\ good s (old ++ new) visible stored /\
    (batches_of new).*2 = map spoolsafety.e_h (map fst new).
Proof.
  intros [Hs <- Hst Hv Ht]. destruct (steady_settle _ _ _ _ _ Hs) as (new & -> & Hok & Eb & Ed).
  set (z := zip new _) in *. assert (map fst z = new) as Ez.
  { destruct Hs as [[] _]. apply (fst_zip new). apply Forall2_length in iv_final. rewrite !length_app, !length_fmap in iv_final. lia. }
  exists z. rewrite Ez. split_and!; try done. constructor; try done; rewrite Eb; (eapply ranges_mono; [|done]); intros b; apply accounted_more.
Qed.

Lemma spoolSelected_good (env : run_env) assessment result selection old visible stored d s x r s' x' :
  selected_by env assessment result selection -> running old visible stored d s old.*1 None [] ->
  spoolSelected env scopeID stateName assessment result selection (s, x) = (r, (s', x')) ->
  (exists es cur h, running old visible stored d s' es cur h) \/
  (spoolwriter.w_closed (spoolwriter.writer (cs_spool s')) = true /\ some_good s').
Proof.
  intros Hsel [Hs0 Hst0 Hok Hv Ht] Hr. unfold spoolSelected in Hr.
  apply bind_split in Hr as [([] & [s1 x1] & E1 & Hr)|Hr].
  2: { destruct (on_fst _ (s, x)) as [r1 [s1 x1]] eqn:E1. injection Hr as -> _.
       eapply append_step in E1 as (es & cur & h & line & Hs1 & E & _); [|done]. left. exists es, cur, h. by constructor; [|congruence|..]. }
  eapply append_step in E1 as (es1 & cur1 & h1 & boundary & Hs1 & Est1 & Ha1 & Hb); [|done]. specialize (Hb eq_refl).
  apply bind_split in Hr as [([] & [s2 x2] & E2 & Hr)|Hr].
  2: { destruct (appendObjects _ _ _ _ (s1, x1)) as [r2 [s2 x2]] eqn:E2. injection Hr as -> _.
       eapply appendObjects_ok in E2 as (es & cur & h & lines & Hs2 & E & _); [|done]. left. exists es, cur, h. by constructor; [|congruence|..]. }
  eapply appendObjects_ok in E2 as (es2 & cur2 & h2 & lines & Hs2 & Est2 & Ha2 & Hl); [|done]. specialize (Hl eq_refl).
  unfold bind at 1 in Hr. unfold on_fst at 1, on_spool at 1 in Hr. destruct (spoolwriter.Close (cs_spool s2)) as [r3 sp3] eqn:E3.
  eapply Close_step in E3 as (es3 & cur3 & h3 & Hs3 & Ha3 & Hclosed); [|done].
  set (s3 := CS sp3 (cs_state s2) (cs_ops s2)) in *.
  assert (running old visible stored d s3 es3 cur3 h3) as Hrun by (by constructor; [|unfold s3; cbn; congruence|..]).
  destruct r3 as [[]| |]; [|injection Hr as _ <- _; by left; exists es3, cur3, h3..]. specialize (Hclosed eq_refl).
  unfold bind at 1 in Hr. unfold bind at 1, lift in Hr.
  destruct (merge_SIDs env (Selected selection)) as [[]| |]; [|injection Hr as _ <- _; by left; exists es3, cur3, h3..].
  destruct (running_good _ _ _ _ _ _ _ _ Hrun) as (new & Enew & Hgood & Edata).
  destruct Hs3 as [_ Hempty]. specialize (Hempty Hclosed) as ->.
  assert (spooled (batches_of (old ++ new)) result selection) as Hsp.
  { exists (batches_of old), (batches_of new), [], boundary, lines. split_and!; try done.
    - rewrite app_nil_r. apply map_app.
    - rewrite Edata. rewrite Ha2, Ha1, Enew in Ha3. unfold spoolsafety.accepted in Ha3.
      rewrite !app_nil_r, map_app, concat_app, <- app_assoc in Ha3. by apply app_inv_head in Ha3. }
  eapply advanceAndNote_good in Hr as (Ecs & v & t & Hg); [|done|by apply Hsel|by eapply selected_accounted; [|right]].
  right. rewrite Ecs. split; [done|]. by exists (old ++ new), v, t.
Qed.

Lemma finalize_good (env : run_env) assessment result selection old visible stored d s x r s' x' :
  selected_by env assessment result selection -> running old visible stored d s old.*1 None [] ->
  finalizeSpoolWriterOnReturn (spoolSelected env scopeID stateName assessment result selection) (s, x) = (r, (s', x')) ->
  some_good s'.
Proof.
  intros Hsel Hrun Hr. unfold finalizeSpoolWriterOnReturn in Hr.
  destruct (spoolSelected _ _ _ _ _ _ _) as [r1 [s1 x1]] eqn:E1. unfold on_spool in Hr.
  destruct (spoolwriter.Close (cs_spool s1)) as [r2 sp2] eqn:E2. injection Hr as _ <- _.
  eapply spoolSelected_good in E1 as [(es & cur & h & [Hs Hst Hok Hv Ht])|[Hcl Hg]]; [..|done|done].
  - eapply Close_step in E2 as (es' & cur' & h' & Hs' & _); [|done].
    assert (running old visible stored d (CS sp2 (cs_state s1) (cs_ops s1)) es' cur' h') as Hrun' by (by constructor).
    apply running_good in Hrun' as (new & _ & Hg & _). by exists (old ++ new), visible, stored.
  - unfold spoolwriter.Close, bind at 1 in E2. cbn [spoolwriter.get] in E2. rewrite Hcl in E2. injection E2 as _ <-.
    destruct Hg as (old' & v & t & []). exists old', v, t. by constructor.
Qed.

(** *** One run *)

Lemma join_after_Ok {S A} e (p : prog S unit) s (a : A) s' : join_after e p s <> (Ok a, s').
Proof. unfold join_after. by destruct (p s) as [[]]. Qed.

Lemma ReadAndReobserve_Ok (env : run_env) startUSN s result s' :
  ReadAndReobserveJournaled env scopeID governedRoot startUSN s = (Ok result, s') ->
  ReadJournal (ctx_read env) (root_handle env) (reader_broker env) (time_read env) scopeID governedRoot startUSN = Ok (USNBatch (Result result)) /\
  Result result = reobserveBatchWithDependencies (reobserve_deps env) governedRoot (USNBatch (Result result)).
Proof.
  unfold ReadAndReobserveJournaled. intros Hr. do 6 apply bind_Ok in Hr as (? & ? & _ & Hr).
  apply bind_Ok in Hr as (batch & s1 & Hb & Hr).
  destruct (ReadJournal _ _ _ _ _ _ _) as [b| |] eqn:E; [|by apply join_after_Ok in Hb|done]. injection Hb as -> _.
  do 4 apply bind_Ok in Hr as (? & ? & _ & Hr).
  destruct (reobservationOperationOutcome _ _) as [outcome reason]. apply bind_Ok in Hr as (? & ? & _ & Hr).
  injection Hr as <- _. done.
Qed.

(** A run that has not written anything yet. *)
Definition ready (st : collector_state * usnSpoolNextSummary) old visible stored : Prop :=
  good st.1 old visible stored /\ (durably -> clean (disk_of st.1)).

Lemma ready_calm a b old visible stored : calm a b -> ready a old visible stored -> ready b old visible stored.
Proof. intros Hc [Hg Hk]. split; [by eapply good_calm|]. destruct Hc as ((_ & _ & _ & _ & Hc) & _). auto. Qed.

(** A step that changes nothing here, then the rest. *)
Lemma calm_bind {A} (p : prog (collector_state * usnSpoolNextSummary) A) (k : A -> prog _ unit) st r st' old visible stored :
  bind p k st = (r, st') -> ready st old visible stored -> keeps calm p ->
  (forall a st1, p st = (Ok a, st1) -> k a st1 = (r, st') -> ready st1 old visible stored -> some_good st'.1) ->
  some_good st'.1.
Proof.
  intros Hr Hg Hp Hk. specialize (Hp st). unfold bind in Hr.
  destruct (p st) as [[a|e|] st1] eqn:E; cbn [snd] in Hp; (pose proof (ready_calm _ _ _ _ _ Hp Hg) as Hg1).
  - by eapply Hk.
  - injection Hr as _ <-. exists old, visible, stored. by apply Hg1.
  - injection Hr as _ <-. exists old, visible, stored. by apply Hg1.
Qed.

Lemma good_running s x old visible stored limits batchSize collector :
  ready (s, x) old visible stored ->
  spoolwriter.writer (cs_spool s) = spoolwriter.newWriter limits pub work batchSize collector ->
  running old visible stored (cs_state s) s old.*1 None [].
Proof.
  intros [[[] Hst Hv Ht] Hclean] Ew. constructor; try done. destruct s as [[w d t] st ops]. cbn in *. subst w. split; [|done].
  by apply spoolsafety.newWriter_inv.
Qed.

#[local] Hint Resolve calm_note calm_on_ops quiet_Check still_NewWriter : keeps.
#[local] Tactic Notation "calm_step" hyp(Hr) hyp(Hg) ident(name) ident(E) :=
  refine (calm_bind _ _ _ _ _ _ _ _ Hr Hg _ _);
  [first [solve [keeps1]|solve [apply calm_on_state; keeps1]|solve [apply calm_on_spool; keeps1]]
  |clear Hg Hr; let st := fresh "st" in intros name st E Hr' Hg'; cbv beta in Hr'; rename Hr' into Hr; rename Hg' into Hg].
#[local] Ltac stop_here Hr Hg := injection Hr as _ <-; do 3 eexists; exact (proj1 Hg).

Lemma run_good (env : run_env) st r st' old visible stored :
  spool_at env -> ready st old visible stored -> writeUSNSpoolNext env scopeID governedRoot st = (r, st') -> some_good st'.1.
Proof.
  intros Hat Hg Hr. unfold writeUSNSpoolNext in Hr.
  calm_step Hr Hg u0 E0. calm_step Hr Hg statePath E1. calm_step Hr Hg u1 E2. calm_step Hr Hg assessment Eassess.
  calm_step Hr Hg u2 E3. destruct (negb _); [stop_here Hr Hg|].
  calm_step Hr Hg result Eresult. cbv zeta in Hr. calm_step Hr Hg u3 Evalid. calm_step Hr Hg selection Esel.
  calm_step Hr Hg u4 E4. calm_step Hr Hg directory Edir. calm_step Hr Hg u5 E5.
  destruct u3. injection Evalid as Evalid _. injection Esel as Esel _. injection Edir as Edir _.
  assert (exists s s', ReadAndReobserveJournaled env scopeID governedRoot (CheckpointNext (AssessedCheckpoint assessment)) s = (Ok result, s'))
    as (os & os' & [Hread Hres]%ReadAndReobserve_Ok).
  { match type of Eresult with on_fst _ ?s = _ => destruct s as [cs x] end. unfold on_fst, on_ops in Eresult.
    destruct (ReadAndReobserveJournaled _ _ _ _ _) as [rr os] eqn:Eo. injection Eresult as -> _. eauto. }
  assert (selected_by env assessment result selection) as Hsel.
  { constructor; try done. by rewrite (validateUSNNextBatch_start _ _ Evalid). }
  destruct (bool_decide_reflect (length (Selected selection) = 0%nat)) as [Hz%length_zero_iff_nil|_].
  { match type of Hr with advanceAndNote _ _ _ _ ?s = _ => destruct s as [cs x] end. destruct st' as [s' x'].
    eapply advanceAndNote_good in Hr as (_ & v & t & Hg'); [|exact (proj1 Hg)|done|by eapply selected_accounted; [|left]].
    by exists old, v, t. }
  calm_step Hr Hg executable E6. calm_step Hr Hg u6 Ew.
  match type of Ew with on_fst _ ?s = (_, ?s1) => destruct s as [cs x], s1 as [s1 x1] end. destruct st' as [s' x'], u6.
  unfold on_fst, on_spool in Ew. destruct (spoolwriter.NewWriter _ _ _ _ _ _) as [rw sp] eqn:En. injection Ew as -> <- _.
  apply NewWriter_Ok in En as (limits & publication & workDir & Ep & Ewd & Enew).
  destruct (Hat _ _ _ Edir Ep Ewd) as [Eb1 Eb2]. rewrite Eb1, Eb2 in Enew.
  eapply finalize_good; [exact Hsel| |exact Hr]. eapply good_running; [exact Hg|exact Enew].
Qed.

(** *** The history *)

Lemma spool_faults d fs t old : spool_ok d t old -> spool_ok (set_faults fs d) t old.
Proof. intros Hsp. apply (spool_same d); [done..|apply (so_wf _ _ _ Hsp)|done]. Qed.

Lemma step_good s s' : some_good s -> history_step durably s s' -> some_good s'.
Proof.
  intros (old & visible & stored & [Hsp Hst Hv Ht]).
  intros [env w fs fs' ops x r x' Hat Hc Hr|platform spoolDir qn w fs r Hd Hq Hqw Hqp Hc Hr Es|spoolDir fs r Eb Hf Hc Hr Et Es|HC Hcd Hcs Et].
  - refine (run_good env _ r (s', x') old visible stored Hat _ Hr). split; [|done].
    constructor; [|by apply state_faults|done..]. by apply spool_faults.
  - apply (spool_faults _ fs) in Hsp. eapply (spoolrecovery.RecoverAbandoned_spec work pub qn) in Hr as (Hcf & Htick & _); [|try done..|apply (so_wf _ _ _ Hsp)].
    exists old, visible, stored. constructor; [|by rewrite Es|done..]. by eapply spool_careful.
  - apply (spool_faults _ fs) in Hsp. pose proof (spoolrecovery.Preserve_careful work pub work Hwork Hpub Hne spoolDir (set_faults fs (disk_of s))) as Hcf.
    rewrite Hr in Hcf. exists old, visible, stored. constructor; [|by rewrite Es|done..]. rewrite Et.
    eapply spool_careful; [done|exact Hsp|]. apply Hcf; [|done]. exact Hf.
  - destruct (crash_state _ _ _ _ _ Hst Hcs) as (c & Hst' & Hcase). exists old, c, c.
    constructor; [rewrite Et; by eapply spool_crash|done|by destruct Hcase as [->| ->]..].
Qed.


End Safety.

(** ** A run

    The journal holds the creation of one file below the governed root. *)

Section Demo.
#[local] Existing Instance asciiUnicode.
#[local] Existing Instance spoolsafety.demoClock.
#[local] Existing Instance demoOperationClock.
#[local] Existing Instance checkpoint.demoJSON.
#[local] Existing Instance checkpoint.demoJSONLaws.

Definition constantJSON (A : Type) (text : bytes) : JSON A :=
  {| json_Marshal := fun _ => Ok text; json_Decode := fun _ => Err (Errorf "not used") |}.
#[local] Instance demoSpooledEntry : JSON JournalEntry := constantJSON JournalEntry (bs "{entry}").
#[local] Instance demoSpooledBoundary : JSON spooledUSNReadBoundary := constantJSON spooledUSNReadBoundary (bs "{boundary}").
#[local] Instance demoSpooledObject : JSON (spooledUSNObjectObservation (Observation:=unit)) := constantJSON _ (bs "{object}").
#[local] Instance demoSpooledRecord : JSON spoolwriter.SpoolRecord := constantJSON spoolwriter.SpoolRecord spoolsafety.demoLine.
#[local] Instance demoObservation : NTFSObservation unit := {|
  ContentHashes _ := Some {| HashState := ContentHashNotApplicable; BytesHashed := []; MD5 := []; SHA1 := []; SHA256 := [];
                             HashReasonCode := []; HashDetail := [] |};
  withoutContentHashes o := o |}.

Definition demoTwoLines : bytes := (spoolsafety.demoLine ++ [spool.newline]) ++ (spoolsafety.demoLine ++ [spool.newline]).
Definition demoRunManifest : spool.Manifest := {|
  spool.Version := spool.ManifestVersion; spool.BatchID := spoolsafety.demoID; spool.TargetBatchSize := spoolwriter.DefaultBatchSize;
  spool.RecordCount := 2; spool.DataBytes := 18; spool.DataSHA256 := sha256_hex demoTwoLines;
  spool.DataFile := bs "batch-" ++ spoolsafety.demoID ++ bs ".jsonl"; spool.Collector := spoolsafety.demoCollector;
  spool.CreatedAt := spoolwriter.canonicalNow 2; spool.CompletedAt := spoolwriter.canonicalNow 3 |}.
#[local] Instance demoRunManifestCodec : JSON spool.Manifest := fixedJSON demoRunManifest (bs "{manifest}").

Definition demoUnits (b : bytes) : list Z := map b2z b.
Definition demoHandle : RootHandle :=
  let path := demoUnits (VolumeGUID demoVolume ++ bs "data") in {|
  open_root := Ok tt; fs_name := Ok (demoUnits (bs "NTFS")); volume_serial := Ok 77; final_path := fun _ _ => Ok (len path, path) |}.
Definition demoBroker : broker := {|
  broker_Query _ := Err (Errorf "not used");
  broker_Read _ _ := Ok ({| usnbroker.JournalID := 9; usnbroker.FirstUSN := 1024; usnbroker.NextUSN := 8192;
                            usnbroker.LowestValidUSN := 0; usnbroker.MaxUSN := 9223372036854775807; usnbroker.MaximumSize := 1;
                            usnbroker.AllocationDelta := 1 |}, buffer_bytes 4168 [demoRecord]) |}.
Definition demoDependencies : dependencies unit := {|
  ctx_Err _ := None; collect _ _ _ := inl tt; observeBackup _ _ := inl tt; checkContainment _ _ := inl ContainmentContained |}.
Definition demoPlatform : spoolwriter.Platform := {|
  spoolwriter.resolveDirectoryPath p := Ok p; spoolwriter.resolveDirectoryIdentityPath p := Ok p;
  spoolwriter.LstatKind _ := Ok GoFS.Directory |}.
Definition demoEnv : run_env (Observation:=unit) := {|
  FI_STATE_DIR := bs "/srv/state"; ProgramData := []; FI_SPOOL_DIR := bs "/srv/spool"; shouldRecoverInterrupted := false;
  ctx_read := None; ctx_done := false; ctx_loop _ := None;
  time_check := demoTime; time_read := demoTime; time_refresh := demoTime; time_advance := demoTime;
  root_check := Ok demoRoot; journal_check := Ok checkpoint.demoJournal; root_refresh := Ok demoRoot; journal_refresh := Ok checkpoint.demoJournal;
  root_handle := demoHandle; reader_broker := demoBroker; reobserve_deps := demoDependencies; parent_deps := demoDependencies;
  resource_path := Ok tt; read_resources := Ok tt; read_resources_finish := Ok tt; reobserve_resources := Ok tt;
  reobserve_resources_finish := Ok tt; env_platform := demoPlatform; env_policy := None;
  current_executable := Ok spoolsafety.demoCollector; merge_SIDs _ := Ok tt |}.

Definition demoStart : collector_state :=
  CS (spoolwriter.SS (spoolwriter.newWriter None [] [] 1 spoolsafety.demoCollector) (empty_dir []) 0) demoState (Ops (empty_dir []) 0).
Definition demoSpoolRun (s : collector_state) (fs : list (option nat)) :=
  writeUSNSpoolNext demoEnv (bs "scope") (bs "C:\data")
    (CS (spoolwriter.SS (spoolwriter.writer (cs_spool s)) (set_faults fs (disk_of s)) (tick_of s)) (set_faults [] (cs_state s)) (cs_ops s), emptySummary).

Definition demoAfter : collector_state := (demoSpoolRun demoStart []).2.1.
Definition demoLoaded : res USNCheckpoint * dir := Load (bs "scope-usn.json") (cs_state demoAfter).
Definition demoReached : USNCheckpoint := match demoLoaded.1 with Ok c => c | _ => demoCheckpoint end.


End Demo.
End usnspool.
